(* ===== verification/_CoqProject ===== *)
-Q . S2P
Prelude.v
BpfVm.v
Bpf.v
Pmm.v
PmmInv.v
PmmSpec.v
PmmSeed.v
PmmBoot.v
PmmExamples.v
PageAlloc.v
Slab.v
SlabSpec.v
SlabOps.v
SlabContract.v
Kmalloc.v
KmallocSpec.v
KmallocContract.v
Vma.v
VmaSpec.v
VmaBrk.v
Ring.v
Fifo.v
Ktimer.v
KtimerCancel.v
Timerfd.v
Eventfd.v
Flock.v
BlockCache.v
BlockCacheSpec.v
BlockCacheOps.v
Sha256.v
Charset.v
Shm.v
Partition.v
PartitionSpec.v
Cred.v
CredSpec.v
Epoll.v
EpollSpec.v
Workqueue.v
Vfs.v
VfsSpec.v
VfsTree.v
VfsTreeInv.v
VfsTreeLife.v
VfsTreeOps.v
VfsTreeSpec.v
Ramfs.v
Usock.v
UsockSpec.v
FdTable.v
FdTableCore.v
FdTableNet.v
FdTableInv.v
FdTableSpec.v
FdTableContract.v
Klog.v
Pcache.v
PcacheSpec.v
PcacheCoherence.v
NetWire.v
NetDev.v
Tcp.v
NetStack.v
NetSpec.v
TcpFrame.v
TcpSpec.v
TcpStream.v
NetHosts.v
NetFaults.v
Exfat.v
ExfatFormat.v
ExfatSpec.v
ExfatChain.v
ExfatFile.v
ExfatDir.v
ExfatFiles.v
ExfatFaults.v
