(* ===== verification/Prelude.v ===== *)
(** * d-os kernel: a verification library

    d-os is an operating system kernel written in C.  This library models the
    parts of it that keep the machine's own state consistent, one file or a
    small group of files per component, and proves what each promises.  Paths
    below are relative to src/kernel/.

    ** How the parts fit together

    The physical memory manager hands page frames to the slab allocator and to
    large kmalloc blocks, and through the user reserve to address spaces.
    Address spaces ([Vma]) reserve ranges and fill pages on faults.  Timers
    ([Ktimer]) drive timerfd; fifos, eventfds, timers and epoll sets meet in
    the readiness loop ([Epoll]).  Block devices are cached by [BlockCache] and
    cut into partitions by [Partition].  Every privilege gate asks the identity
    code ([Cred]); path names ([Vfs]) ask it for permissions; device access is
    decided by BPF programs attached to cgroups ([BpfVm], [Bpf]).  The name
    space ([VfsTree]) keeps entries and inodes over file systems such as
    [Ramfs] and [Exfat]; file mappings share their pages through [Pcache].
    Processes reach all of these through descriptors ([FdTable]), which sockets
    ([Usock]) can carry from one process to another.  The network stack ([NetStack]) sends
    and receives frames through drivers ([NetDev]); its connections ([Tcp])
    copy through the same kind of ring.

    ** Files

    - [Prelude] (this file): machine integers with their wrap-around, arrays
      and memory as functions with update, list lemmas, the invariant lemma
      for reachable states, tactics and the hint database [dos].
    - [BpfVm], [Bpf] (core/bpf.c, cgroupfs_parent of fs/cgroupfs.c): the
      verifier and interpreter; programs, references, attachments, bpf(2).
    - [Pmm], [PmmInv], [PmmSpec], [PmmSeed], [PmmBoot], [PmmExamples]
      (mem/pmm.c): zones and the buddy lists, their invariant, allocation and
      release, seeding, the boot passes, evaluated examples.
    - [PageAlloc]: the class by which the allocators above see page frames;
      [PmmSpec]'s theorems discharge it.
    - [Slab], [SlabSpec], [SlabOps], [SlabContract] (mem/slab.c) and [Kmalloc],
      [KmallocSpec], [KmallocContract] (mem/kmalloc.c), against [PageAlloc].
    - [Vma], [VmaSpec], [VmaBrk] (mem/vma.c), against the class [AddrSpace] of
      the page tables, which are architecture code.
    - [Ring]: the byte ring that fifos and sockets copy through.
    - [Fifo] (core/fifo.c), [Eventfd] (core/eventfd.c), [Flock] (core/flock.c),
      [Ktimer], [KtimerCancel] (core/ktimer.c), [Timerfd] (core/timerfd.c).
    - [BlockCache], [BlockCacheSpec], [BlockCacheOps] (core/block_cache.c)
      over the class [Driver] of block devices (core/block.c).
    - [Sha256] (core/sha256.c), [Charset] (core/charset.c), [Shm] (the memfd
      objects of core/fd.c), [Partition], [PartitionSpec] (core/partition.c).
    - [Cred], [CredSpec] (core/cred.c, with the writers of an identity in
      core/task.c and core/abi_engine.c).
    - [Epoll], [EpollSpec] (core/epoll.c, fd_readiness_wait of
      core/usyscall.c), [Workqueue] (core/workqueue.c), [Klog] (core/klog.c).
    - [Vfs], [VfsSpec] (fs/vfs.c): path text, links and permissions;
      [VfsTree], [VfsTreeInv], [VfsTreeLife], [VfsTreeOps], [VfsTreeSpec]
      (fs/vfs.c): entries, inodes and the calls that change them; [Ramfs]
      (fs/ramfs.c); [Pcache], [PcacheSpec], [PcacheCoherence] (mem/pcache.c).
    - [Usock], [UsockSpec] (core/usock.c).
    - [FdTable], [FdTableCore], [FdTableNet], [FdTableInv], [FdTableSpec],
      [FdTableContract] (core/fd.c, with the descriptor calls of
      core/usyscall.c, core/proc.c and hal/x86_64/fork.c).
    - [NetWire] (headers, checksums and address texts), [NetDev] (devices,
      routes, sending, over the class [NetDriver]), [Tcp] (one connection),
      [NetStack] (received frames, ARP, ICMP, UDP, DNS, the TCP table), all of
      core/net.c; [NetSpec], [TcpFrame], [TcpSpec], [TcpStream] prove about
      them, [NetHosts] runs two machines and [NetFaults] shows the faults.
    - [Exfat], [ExfatFormat] (fs/exfat.c): the volume and its operations, the
      formatter; [ExfatSpec] (the bitmap), [ExfatChain] (chains), [ExfatFile]
      and [ExfatDir] (bytes of files and directories), [ExfatFiles] (the
      refinement) and [ExfatFaults] prove about them.

    ** How code becomes definitions

    A C integer is a [Z] with its conversion written where it can wrap.  A
    struct is a record, a table indexed inside its bounds a list or a function
    with update, NULL the address 0 or [None].  Pointers stay addresses where
    the code threads links (free lists, work items, directory entries).  An
    operation takes the state and returns the new one with its result; an
    error is the number the code returns or [None] for -1/NULL.  A critical
    section under one lock is one step; where the code drops a lock, sleeps, or
    updates shared data under different locks, the pieces are separate steps of
    a relation and the theorems quantify over their interleavings (fifos,
    file locks, timer cancellation, the work queue, slab magazines, identity,
    sockets, descriptors).
    A sleeping call is its passes between two sleeps.  What the code takes from
    outside (page tables, drivers, callbacks, clocks, the stack's old contents,
    other subsystems' answers) is an argument or a class with its laws, and an
    instance shows that the laws can hold.

    ** What is proved

    - Memory: allocation returns a free, aligned block of the asked order and
      takes exactly it out of the free frames; freeing puts it back and merges;
      boot leaves every usable frame in one list; slab objects in use never
      overlap; large blocks return their unused tail; mappings, unmapping,
      protection, brk, faults and fork change exactly the pages asked for.
    - BPF: a verified program terminates within its length and touches only
      its stack and context; references and attachments stay consistent over
      every bpf(2) call; the device decision is the conjunction over the
      cgroup's ancestors.
    - Channels: a fifo is a byte queue, an eventfd conserves its count, locks
      exclude, a cancelled timer's callback is not running, a timerfd counts
      its deadlines, epoll_ctl is a finite map, a scan reports exactly the
      ready items, an edge is never missed, a waiter with a ready item
      returns, work items run once and in order.
    - Storage and data: the cache shows the device's contents with pending
      writes over them; partition tables written are read back, and a
      partition never reaches outside its disk; hashing in pieces equals the
      standard's definition; character sets and shared memory round trip; the
      log holds the last lines.
    - Identity and names: the identity audit never fires, a dropped capability
      never returns, no call makes a user an administrator, a resolved path
      stays below the task's root, canonicalisation computes what a path
      denotes, naming and resolving are inverse.
    - Files: every call on names keeps entries and inodes well formed; unlink
      takes out exactly one name, rename moves a whole subtree; a ramfs file is
      its array of bytes, and so is each file of an exFAT volume among the
      others, with every cluster in one chain and the count of free clusters
      right; the pages of a file mapping are the file's contents, and a shared
      frame is never released while mapped.
    - Sockets and descriptors: a connection delivers the bytes or messages
      sent, in order, and a sleeper whose condition holds is woken; an object
      open anywhere is not released, one that nobody holds is released once,
      and releasing terminates although objects can carry objects.
    - Network: what one machine sends, the other parses to the same fields; the
      handling of a frame depends on its own bytes only, when its total length
      covers its header; over a network that loses, repeats and reorders
      frames, what a TCP reader is given is a prefix of what the writer sent,
      and the end is reported only after all of it.
    - Where the code does less than it means to, a theorem exhibits it (double
      allocation through [page_alloc_below], wrap-around of sizes, lost updates
      of the in-flight count, re-armed timers, links past a read-only mount,
      deadlock of nested epoll sets, a login that copies the stack, a rename
      that loses its target, a writer left asleep by shutdown, dup2 against a
      concurrent close, a frame that reads past its end, a connection table
      that half-open connections fill for good, a shut window that is never
      probed, an append that overwrites the next file).

    ** Bounds and fuel

    Loops that are not structural carry fuel that the definition computes from
    its input: the length of the text or list walked, the number of orders or
    frames, the number of instructions (a verified program only jumps forward),
    the nesting limit of epoll, the 41 passes of link expansion, a
    namespace's own number (parents have smaller ones), the bytes queued on a
    connection ([out_loop_enough]), the clusters of a volume for a chain.  Each use is covered by a
    theorem that states the result outright, so the fuel is enough.  Counters
    are taken below 2^64 (or 2^32 for event numbers) where the statement says so.

    ** Not modelled

    Context switching and the scheduler, page-table and interrupt code, device
    drivers and firmware tables (they are hardware access); devfs and procfs,
    swap, users and configuration, futexes, interval timers and cron; the
    poller task of the network stack, its configuration and commands; the
    graphical environment, shell commands and user programs (interaction and
    drawing).  Inside the modelled components, printing, statistics and
    self-tests are left out. *)

From Stdlib Require Import ZArith Lia Bool.
From stdpp Require Import base list numbers strings relations.
Open Scope Z_scope.

(** ** Machine integers

    A C integer of width w is a [Z]; the conversions below write the
    wrap-around out where the source relies on it.  [u8 .. u64] are the
    unsigned conversions, [s16 .. s64] the two's complement ones. *)

Definition u8 (x : Z) : Z := x mod 256.
Definition u16 (x : Z) : Z := x mod 65536.
Definition u32 (x : Z) : Z := x mod 4294967296.
Definition u64 (x : Z) : Z := x mod 18446744073709551616.

Definition s16 (x : Z) : Z :=
  let y := u16 x in if y <? 32768 then y else y - 65536.
Definition s32 (x : Z) : Z :=
  let y := u32 x in if y <? 2147483648 then y else y - 4294967296.
Definition s64 (x : Z) : Z :=
  let y := u64 x in if y <? 9223372036854775808 then y else y - 18446744073709551616.

Create HintDb dos.

Section MachineInts.
Context (x : Z).

Lemma u8_range : 0 <= u8 x < 256.
Proof. apply Z.mod_pos_bound; lia. Qed.
Lemma u16_range : 0 <= u16 x < 65536.
Proof. apply Z.mod_pos_bound; lia. Qed.
Lemma u32_range : 0 <= u32 x < 4294967296.
Proof. apply Z.mod_pos_bound; lia. Qed.
Lemma u64_range : 0 <= u64 x < 18446744073709551616.
Proof. apply Z.mod_pos_bound; lia. Qed.

Lemma u8_small : 0 <= x < 256 -> u8 x = x.
Proof. apply Z.mod_small. Qed.
Lemma u16_small : 0 <= x < 65536 -> u16 x = x.
Proof. apply Z.mod_small. Qed.
Lemma u32_small : 0 <= x < 4294967296 -> u32 x = x.
Proof. apply Z.mod_small. Qed.
Lemma u64_small : 0 <= x < 18446744073709551616 -> u64 x = x.
Proof. apply Z.mod_small. Qed.

Lemma s32_range : -2147483648 <= s32 x < 2147483648.
Proof. unfold s32; cbv zeta. pose proof u32_range. case_match eqn:E; lia. Qed.
Lemma s64_range : -9223372036854775808 <= s64 x < 9223372036854775808.
Proof. unfold s64; cbv zeta. pose proof u64_range. case_match eqn:E; lia. Qed.
End MachineInts.

#[export] Hint Resolve u8_range u16_range u32_range u64_range s32_range s64_range : dos.

(** Joining bit fields: the [or] of a shifted word and a narrower one is their sum. *)
Lemma shl_or a x m : 0 <= x < 2 ^ m -> 0 <= m -> Z.lor (Z.shiftl a m) x = a * 2 ^ m + x.
Proof.
  intros Hx Hm. assert (Z.land (Z.shiftl a m) x = 0) as E.
  { apply Z.bits_inj'. intros k Hk. rewrite Z.land_spec, Z.bits_0. destruct (Z.ltb_spec k m).
    - by rewrite Z.shiftl_spec_low.
    - rewrite <- (Z.mod_small x (2 ^ m)) by done. by rewrite Z.mod_pow2_bits_high, andb_false_r by lia. }
  rewrite <- Z.lxor_lor, <- Z.add_nocarry_lxor by done. by rewrite Z.shiftl_mul_pow2.
Qed.

(** [unwrap_ints] removes every conversion whose argument is provably in
    range; [int_ranges] adds the range of every one that stays. *)
Ltac unwrap_ints :=
  repeat first
    [ rewrite u32_small by lia | rewrite u64_small by lia
    | rewrite u16_small by lia | rewrite u8_small by lia ].
Ltac unwrap_ints_in H :=
  repeat first
    [ rewrite u32_small in H by lia | rewrite u64_small in H by lia
    | rewrite u16_small in H by lia | rewrite u8_small in H by lia ].

(** Turn boolean comparisons of the source's conditions into propositions. *)
Ltac bool_props :=
  repeat match goal with
  | H : (_ && _)%bool = true |- _ => apply andb_true_iff in H; destruct H
  | H : (_ || _)%bool = false |- _ => apply orb_false_iff in H; destruct H
  | H : negb _ = true |- _ => apply negb_true_iff in H
  | H : negb _ = false |- _ => apply negb_false_iff in H
  | H : (_ <? _) = true |- _ => apply Z.ltb_lt in H
  | H : (_ <? _) = false |- _ => apply Z.ltb_ge in H
  | H : (_ <=? _) = true |- _ => apply Z.leb_le in H
  | H : (_ <=? _) = false |- _ => apply Z.leb_gt in H
  | H : (_ =? _) = true |- _ => apply Z.eqb_eq in H
  | H : (_ =? _) = false |- _ => apply Z.eqb_neq in H
  | H : bool_decide _ = true |- _ => apply bool_decide_eq_true_1 in H
  | H : bool_decide _ = false |- _ => apply bool_decide_eq_false_1 in H
  end.

(** Case analysis on the innermost [match]/[if] scrutinee of the goal. *)
Ltac split_match :=
  match goal with
  | |- context [match ?x with _ => _ end] =>
      lazymatch x with
      | context [match _ with _ => _ end] => fail
      | _ => let E := fresh "E" in destruct x eqn:E
      end
  end.

(** ** Memory and arrays as total functions

    A C array indexed by an integer the code has already bounds-checked, or
    raw memory addressed by a word, is a function with pointwise update. *)

Definition upd {A : Type} (f : Z -> A) (k : Z) (v : A) : Z -> A :=
  fun j => if j =? k then v else f j.

Declare Scope dos_scope.
Delimit Scope dos_scope with dos.
Notation "f ⟦ k ↦ v ⟧" := (upd f k v) (at level 1, left associativity, format "f ⟦ k  ↦  v ⟧") : dos_scope.
Open Scope dos_scope.

Lemma upd_same {A} (f : Z -> A) k v : f⟦k ↦ v⟧ k = v.
Proof. unfold upd. by rewrite Z.eqb_refl. Qed.

Lemma upd_other {A} (f : Z -> A) k v j : j <> k -> f⟦k ↦ v⟧ j = f j.
Proof. unfold upd. intros. by rewrite (proj2 (Z.eqb_neq j k)). Qed.

Lemma upd_eq {A} (f : Z -> A) k v j : f⟦k ↦ v⟧ j = if j =? k then v else f j.
Proof. done. Qed.

#[export] Hint Rewrite @upd_same : dos.

(** Write [v] to every index of [k, k + n): [for (i = 0; i < n; i++) f[k+i] = v]. *)
Fixpoint fill {A : Type} (f : Z -> A) (k : Z) (n : nat) (v : A) : Z -> A :=
  match n with
  | O => f
  | S n' => fill (f⟦k ↦ v⟧) (k + 1) n' v
  end.

Lemma fill_lookup {A} (f : Z -> A) k n v j :
  fill f k n v j = if (k <=? j) && (j <? k + Z.of_nat n) then v else f j.
Proof.
  revert f k. induction n as [|n IH]; intros f k; cbn [fill].
  - destruct (Z.leb_spec k j), (Z.ltb_spec j (k + Z.of_nat 0)); simpl; try done; lia.
  - rewrite IH. unfold upd.
    destruct (Z.leb_spec (k + 1) j), (Z.ltb_spec j (k + 1 + Z.of_nat n)),
      (Z.leb_spec k j), (Z.ltb_spec j (k + Z.of_nat (S n))), (Z.eqb_spec j k);
      simpl; try done; lia.
Qed.

Lemma fill_inside {A} (f : Z -> A) k n v j :
  k <= j < k + Z.of_nat n -> fill f k n v j = v.
Proof.
  intros [H1 H2]. rewrite fill_lookup.
  apply Z.leb_le in H1. apply Z.ltb_lt in H2. by rewrite H1, H2.
Qed.

Lemma fill_outside {A} (f : Z -> A) k n v j :
  j < k \/ k + Z.of_nat n <= j -> fill f k n v j = f j.
Proof.
  intros H. rewrite fill_lookup.
  destruct (Z.leb_spec k j), (Z.ltb_spec j (k + Z.of_nat n)); simpl; try done; lia.
Qed.

(** ** Lists *)

Definition nthZ {A : Type} (l : list A) (i : Z) : option A :=
  if i <? 0 then None else l !! Z.to_nat i.

Lemma nthZ_Some {A} (l : list A) i x :
  nthZ l i = Some x <-> 0 <= i /\ l !! Z.to_nat i = Some x.
Proof.
  unfold nthZ. destruct (Z.ltb_spec i 0); split; intros; try done; try naive_solver lia.
Qed.

Lemma nthZ_lt {A} (l : list A) i :
  0 <= i < Z.of_nat (length l) -> exists x, nthZ l i = Some x.
Proof.
  intros H. destruct (lookup_lt_is_Some_2 l (Z.to_nat i)) as [x Hx]; [lia|].
  exists x. apply nthZ_Some. split; [lia|done].
Qed.

Lemma filter_split {A} (P : A -> Prop) `{!forall x, Decision (P x)} (l : list A) :
  filter P l ++ filter (fun x => ~ P x) l ≡ₚ l.
Proof.
  induction l as [|x l IH]; [done|]. rewrite !filter_cons.
  destruct (decide (P x)) as [HP|HP].
  - rewrite decide_False by (intros Hn; by apply Hn). simpl. by rewrite IH.
  - rewrite decide_True by done. by rewrite <- Permutation_middle, IH.
Qed.

Lemma filter_all {A} (P : A -> Prop) `{!forall x, Decision (P x)} (l : list A) :
  Forall P l -> filter P l = l.
Proof.
  induction 1 as [|x l Hx _ IH]; [done|]. by rewrite filter_cons_True, IH.
Qed.

Lemma filter_none {A} (P : A -> Prop) `{!forall x, Decision (P x)} (l : list A) :
  Forall (fun x => ~ P x) l -> filter P l = [].
Proof.
  induction 1 as [|x l Hx _ IH]; [done|]. by rewrite filter_cons_False, IH.
Qed.

(** ** Runs of bytes

    Copy loops that move at most to the end of the current page. *)

Fixpoint peek (r : Z -> Z) (p : Z) (n : nat) : list Z :=
  match n with O => [] | S n' => r p :: peek r (p + 1) n' end.
Fixpoint poke (r : Z -> Z) (p : Z) (l : list Z) : Z -> Z :=
  match l with [] => r | b :: l' => poke (r⟦p ↦ b⟧) (p + 1) l' end.

(** The bytes left in the page of [o], of [left] wanted. *)
Definition room_at (o left : Z) : Z := let room := 4096 - o mod 4096 in if left <? room then left else room.

Lemma poke_eq r p l a : poke r p l a = if (p <=? a) && (a <? p + Z.of_nat (length l)) then nth (Z.to_nat (a - p)) l 0 else r a.
Proof.
  revert r p. induction l as [|b l IH]; intros r p; cbn [poke length nth].
  - change (Z.of_nat 0) with 0. destruct (Z.leb_spec p a), (Z.ltb_spec a (p + 0)); cbn; try done; lia.
  - rewrite IH, upd_eq. destruct (Z.eqb_spec a p) as [->|Hne].
    + rewrite Z.sub_diag. destruct (Z.leb_spec (p + 1) p); [lia|]. destruct (Z.leb_spec p p); [|lia].
      destruct (Z.ltb_spec p (p + Z.of_nat (S (length l)))); [done|lia].
    + destruct (Z.leb_spec (p + 1) a), (Z.leb_spec p a), (Z.ltb_spec a (p + 1 + Z.of_nat (length l))),
        (Z.ltb_spec a (p + Z.of_nat (S (length l)))); cbn [andb]; try done; try lia.
      replace (Z.to_nat (a - p)) with (S (Z.to_nat (a - (p + 1)))) by lia. done.
Qed.

Lemma peek_map r p n : peek r p n = (fun k => r (p + Z.of_nat k)) <$> seq 0 n.
Proof.
  revert p. induction n as [|n IH]; intros p; [done|]. cbn [peek seq fmap list_fmap]. f_equal; [f_equal; lia|].
  rewrite IH, <- seq_shift, <- list_fmap_compose. apply list_fmap_ext. intros i x _. cbn. f_equal. lia.
Qed.

Lemma peek_length m p k : length (peek m p k) = k.
Proof. revert p. induction k as [|k IH]; intros p; cbn; [done|]. by rewrite IH. Qed.
Lemma peek_app m p j k : peek m p (j + k) = peek m p j ++ peek m (p + Z.of_nat j) k.
Proof.
  revert p. induction j as [|j IH]; intros p; cbn [peek plus app]; [f_equal; lia|]. rewrite IH. do 3 f_equal. lia.
Qed.
Lemma peek_split m p l1 l2 : peek m p (length (l1 ++ l2)) = l1 ++ l2 ->
  peek m p (length l1) = l1 /\ peek m (p + Z.of_nat (length l1)) (length l2) = l2.
Proof. intros H. rewrite length_app, peek_app in H. apply app_inj_1 in H; [done|]. apply peek_length. Qed.
Lemma peek_poke b p l : peek (poke b p l) p (length l) = l.
Proof.
  revert b p. induction l as [|x l IH]; intros b p; cbn [poke peek length]; [done|]. f_equal; [|apply IH].
  rewrite poke_eq. destruct (Z.leb_spec (p + 1) p); [lia|]. cbn. apply upd_same.
Qed.
Lemma peek_poke_before b p l a k : a + Z.of_nat k <= p -> peek (poke b p l) a k = peek b a k.
Proof.
  revert a. induction k as [|k IH]; intros a H; cbn [peek]; [done|]. rewrite IH by lia. f_equal.
  rewrite poke_eq. destruct (Z.leb_spec p a); [lia|done].
Qed.
(** A buffer seen from an offset. *)
Lemma peek_view r o p n : peek (fun k => r (o + k)) p n = peek r (o + p) n.
Proof. revert p. induction n as [|n IH]; intros p; cbn [peek]; [done|]. rewrite IH. do 2 f_equal. lia. Qed.

Lemma room_at_spec o left : 0 < left -> 0 <= o ->
  0 < room_at o left <= left /\ o mod 4096 + room_at o left <= 4096.
Proof.
  intros Hl Ho. unfold room_at. pose proof (Z.mod_pos_bound o 4096 ltac:(lia)).
  destruct (Z.ltb_spec left (4096 - o mod 4096)); lia.
Qed.

(** Inside one page, the page number stays and the offset moves. *)
Lemma page_run o k : 0 <= o -> 0 <= k -> o mod 4096 + k < 4096 ->
  (o + k) / 4096 = o / 4096 /\ (o + k) mod 4096 = o mod 4096 + k.
Proof.
  intros Ho Hk Hr. pose proof (Z.div_mod o 4096 ltac:(lia)). pose proof (Z.mod_pos_bound o 4096 ltac:(lia)). split.
  - symmetry; apply (Z.div_unique_pos _ _ _ (o mod 4096 + k)); lia.
  - symmetry; apply (Z.mod_unique_pos _ _ (o / 4096)); lia.
Qed.

(** ** Reachability *)

(** A property kept by every step holds in every reachable state. *)
Lemma rtc_invariant {A} (R : A -> A -> Prop) (P : A -> Prop) x y :
  rtc R x y -> (forall a b, R a b -> P a -> P b) -> P x -> P y.
Proof. intros H Hs. induction H as [|x y z Hxy _ IH]; [done|]. intros Hx. apply IH, (Hs _ _ Hxy), Hx. Qed.
