(* ===== verification/BpfVm.v ===== *)
(** * The eBPF verifier and interpreter (kernel/core/bpf.c)

    [verify] and [run] as the kernel has them: a load-time scan that refuses
    what the interpreter does not run, and an interpreter with no run-time
    bounds on the instruction array or the register file.  Every access the
    C code makes without a check ([in[pc+1]], [r[d]], [r[s]]) yields [Undef]
    here when it leaves its array, so that [Undef] being unreachable is the
    memory safety of the interpreter. *)

From stdpp Require Import base list strings.
From Stdlib Require Import ZArith Lia Bool.
From S2P Require Import Prelude.
Open Scope Z_scope.

Module BpfVm.

(** ** Data *)

(** [struct insn { uint8_t code; uint8_t regs; int16_t off; int32_t imm; }] *)
Record insn := Insn { code : Z; regs : Z; off : Z; imm : Z }.

Definition insn_wf (i : insn) : Prop :=
  0 <= code i < 256 /\ 0 <= regs i < 256 /\
  -32768 <= off i < 32768 /\ -2147483648 <= imm i < 2147483648.

Definition cls_of (i : insn) : Z := Z.land (code i) 7.
Definition op_of (i : insn) : Z := Z.land (code i) 0xf0.
Definition dst_of (i : insn) : Z := Z.land (regs i) 0xf.
Definition src_of (i : insn) : Z := Z.shiftr (regs i) 4.

(** ** The verifier *)

Definition known_alu (op : Z) : bool := op <=? 0xc0.

(** What one iteration of the loop of [verify] decides: refuse with a reason,
    go on, or go on past the second slot of a wide load ([pc++]). *)
Inductive check := Refuse (why : string) | Step | StepWide.

Definition verify_insn (prog : list insn) (n pc : Z) (i : insn) : check :=
  let cls := cls_of i in let op := op_of i in
  let dst := dst_of i in let src := src_of i in
  if (10 <? dst) || (10 <? src) then Refuse "register out of range"
  else if (cls =? 4) || (cls =? 7) then
    if negb (known_alu op) then Refuse "unsupported ALU operation"
    else if dst =? 10 then Refuse "write to the frame pointer"
    else Step
  else if (cls =? 5) || (cls =? 6) then
    if op =? 0x90 then
      if negb (cls =? 5) then Refuse "bad EXIT" else Step
    else if op =? 0x80 then Refuse "helper calls are not supported"
    else if 0xd0 <? op then Refuse "unsupported jump"
    else
      let t := pc + 1 + off i in
      if off i <? 0 then Refuse "backward jump (programs must provably end)"
      else if n <? t then Refuse "jump out of the program"
      else if (t <? n) && (0 <? t) &&
              match nthZ prog (t - 1) with
              | Some j => code j =? 0x18
              | None => false
              end
      then Refuse "jump into a wide load"
      else Step
  else if cls =? 1 then
    if negb (Z.land (code i) 0xe0 =? 0x60) then Refuse "only memory loads"
    else if dst =? 10 then Refuse "write to the frame pointer"
    else Step
  else if cls =? 0 then
    if negb (code i =? 0x18) || (n <=? pc + 1) || negb (src =? 0)
    then Refuse "unsupported load"
    else StepWide
  else Refuse "stores and the stack are not supported".

(** [for (pc = 0; pc < n; pc++)], as recursion on the instructions from [pc]
    on.  [None] is the C result 0, [Some why] is -1 with its reason. *)
Fixpoint verify_loop (prog : list insn) (n pc : Z) (rest : list insn) : option string :=
  match rest with
  | [] => None
  | i :: rest' =>
      match verify_insn prog n pc i with
      | Refuse why => Some why
      | Step => verify_loop prog n (pc + 1) rest'
      | StepWide =>
          match rest' with
          | [] => None                      (* pc + 1 < n was just checked *)
          | _ :: rest'' => verify_loop prog n (pc + 2) rest''
          end
      end
  end.

Definition verify (prog : list insn) : option string :=
  verify_loop prog (Z.of_nat (length prog)) 0 prog.

(** ** The interpreter *)

(** The context pointer: a tagged value that is only ever compared. *)
Definition CTX_TAG : Z := 0xC0C7000000000000.

Definition sx32 (v : Z) : Z := s32 (u32 v).

Definition cmp_true (op a b : Z) (w32 : bool) : bool :=
  let a := if w32 then u32 a else a in
  let b := if w32 then u32 b else b in
  let sa := if w32 then sx32 a else s64 a in
  let sb := if w32 then sx32 b else s64 b in
  if op =? 0x10 then a =? b
  else if op =? 0x20 then b <? a
  else if op =? 0x30 then b <=? a
  else if op =? 0x40 then negb (Z.land a b =? 0)
  else if op =? 0x50 then negb (a =? b)
  else if op =? 0x60 then sb <? sa
  else if op =? 0x70 then sb <=? sa
  else if op =? 0xa0 then a <? b
  else if op =? 0xb0 then a <=? b
  else if op =? 0xc0 then sa <? sb
  else if op =? 0xd0 then sa <=? sb
  else false.

(** The [switch (op)] of the ALU classes; [None] is [return 0]. *)
Definition alu (op a b : Z) (w32 : bool) : option Z :=
  let sh := if w32 then 31 else 63 in
  if op =? 0x00 then Some (u64 (a + b))
  else if op =? 0x10 then Some (u64 (a - b))
  else if op =? 0x20 then Some (u64 (a * b))
  else if op =? 0x30 then if b =? 0 then None else Some (a / b)
  else if op =? 0x40 then Some (Z.lor a b)
  else if op =? 0x50 then Some (Z.land a b)
  else if op =? 0x60 then Some (u64 (Z.shiftl a (Z.land b sh)))
  else if op =? 0x70 then Some (Z.shiftr a (Z.land b sh))
  else if op =? 0x80 then Some (u64 (- s64 a))
  else if op =? 0x90 then if b =? 0 then None else Some (a mod b)
  else if op =? 0xa0 then Some (Z.lxor a b)
  else if op =? 0xb0 then Some b
  else if op =? 0xc0 then
    Some (if w32 then u32 (Z.shiftr (sx32 a) (Z.land b 31))
          else u64 (Z.shiftr (s64 a) (Z.land b 63)))
  else None.

(** [for (k = 0; k < sz; k++) v |= (uint64_t)ctx[off + k] << (8 * k);]
    [None] when a byte lies outside the context. *)
Fixpoint load_le (ctx : list Z) (o : Z) (k : Z) (sz : nat) (v : Z) : option Z :=
  match sz with
  | O => Some v
  | S sz' =>
      match nthZ ctx (o + k) with
      | None => None
      | Some b => load_le ctx o (k + 1) sz' (Z.lor v (Z.shiftl b (8 * k)))
      end
  end.

(** The result of one instruction.  [Undef] is an access outside an array. *)
Inductive istep := Next (pc : Z) (r : list Z) | Ret (allow : bool) | Undef.

Definition ldx_size (c : Z) : Z :=
  let m := Z.land (Z.shiftr c 3) 3 in
  if m =? 0 then 4 else if m =? 1 then 2 else if m =? 2 then 1 else 8.

Definition operand (i : insn) (r : list Z) : option Z :=
  if Z.land (code i) 0x08 =? 0 then Some (u64 (imm i)) else nthZ r (src_of i).

(** One iteration of the loop of [run] at [pc], the loop's [pc++] included. *)
Definition run_insn (prog : list insn) (ctx : list Z) (ctxlen : Z)
    (pc : Z) (r : list Z) (i : insn) : istep :=
  let cls := cls_of i in let op := op_of i in
  let d := dst_of i in let s := src_of i in
  if (cls =? 4) || (cls =? 7) then
    let w32 := cls =? 4 in
    match nthZ r d, operand i r with
    | Some a, Some b =>
        let a := if w32 then u32 a else a in
        let b := if w32 then u32 b else b in
        match alu op a b w32 with
        | None => Ret false
        | Some v => Next (u32 (pc + 1)) (<[Z.to_nat d := if w32 then u32 v else v]> r)
        end
    | _, _ => Undef
    end
  else if (cls =? 5) || (cls =? 6) then
    if op =? 0x90 then
      match nthZ r 0 with Some r0 => Ret (negb (r0 =? 0)) | None => Undef end
    else if op =? 0x00 then Next (u32 (pc + off i + 1)) r
    else
      match nthZ r d, operand i r with
      | Some a, Some b =>
          if cmp_true op a b (cls =? 6) then Next (u32 (pc + off i + 1)) r
          else Next (u32 (pc + 1)) r
      | _, _ => Undef
      end
  else if cls =? 1 then
    let sz := ldx_size (code i) in
    match nthZ r s, nthZ r d with
    | Some rs, Some _ =>
        if negb (rs =? CTX_TAG) || (off i <? 0) || (ctxlen <? u32 (off i + sz))
        then Ret false
        else match load_le ctx (off i) 0 (Z.to_nat sz) 0 with
             | Some v => Next (u32 (pc + 1)) (<[Z.to_nat d := v]> r)
             | None => Undef
             end
    | _, _ => Undef
    end
  else if cls =? 0 then
    match nthZ r d, nthZ prog (pc + 1) with
    | Some _, Some j =>
        Next (u32 (pc + 2))
          (<[Z.to_nat d := Z.lor (u32 (imm i)) (Z.shiftl (u32 (imm j)) 32)]> r)
    | _, _ => Undef
    end
  else Ret false.

(** [for (pc = 0; pc < p->n; pc++)].  [None]: the fuel ran out. *)
Fixpoint run_loop (fuel : nat) (prog : list insn) (ctx : list Z) (ctxlen : Z)
    (pc : Z) (r : list Z) : option istep :=
  match fuel with
  | O => None
  | S fuel' =>
      if pc <? Z.of_nat (length prog) then
        match nthZ prog pc with
        | None => Some Undef
        | Some i =>
            match run_insn prog ctx ctxlen pc r i with
            | Next pc' r' => run_loop fuel' prog ctx ctxlen pc' r'
            | res => Some res
            end
        end
      else Some (Ret false)
  end.

(** [uint64_t r[11] = { 0 }; r[1] = CTX_TAG;] *)
Definition regs0 : list Z := <[1%nat := CTX_TAG]> (replicate 11 0).

Definition run (prog : list insn) (ctx : list Z) (ctxlen : Z) : option istep :=
  run_loop (S (length prog)) prog ctx ctxlen 0 regs0.

(** ** What verification establishes *)

(** The positions the verifier's scan stops at: where instructions start. *)
Inductive head_of (prog : list insn) : Z -> list insn -> Prop :=
  | head_start : head_of prog 0 prog
  | head_step pc i rest :
      head_of prog pc (i :: rest) -> code i <> 0x18 ->
      head_of prog (pc + 1) rest
  | head_wide pc i j rest :
      head_of prog pc (i :: j :: rest) -> code i = 0x18 ->
      head_of prog (pc + 2) rest.

Definition is_head (prog : list insn) (pc : Z) : Prop := exists rest, head_of prog pc rest.

Section Verified.
Context (prog : list insn).
Let n := Z.of_nat (length prog).

Lemma head_of_drop pc rest :
  head_of prog pc rest -> 0 <= pc /\ rest = drop (Z.to_nat pc) prog /\
  pc + Z.of_nat (length rest) = n.
Proof.
  induction 1 as [|pc i rest _ (H0 & Hd & Hl) _|pc i j rest _ (H0 & Hd & Hl) _];
    subst n.
  - split_and!; [lia|done|lia].
  - simpl length in Hl. split_and!; [lia| |lia].
    replace (Z.to_nat (pc + 1)) with (1 + Z.to_nat pc)%nat by lia.
    rewrite Nat.add_comm, <- drop_drop, <- Hd. done.
  - simpl length in Hl. split_and!; [lia| |lia].
    replace (Z.to_nat (pc + 2)) with (Z.to_nat pc + 2)%nat by lia.
    rewrite <- drop_drop, <- Hd. done.
Qed.

Lemma head_of_lookup pc i rest : head_of prog pc (i :: rest) -> nthZ prog pc = Some i.
Proof.
  intros (H0 & Hd & _)%head_of_drop. apply nthZ_Some. split; [done|].
  rewrite <- (Nat.add_0_r (Z.to_nat pc)), <- lookup_drop, <- Hd. done.
Qed.

Lemma is_head_lookup pc :
  is_head prog pc -> pc < n -> exists i rest, head_of prog pc (i :: rest) /\ nthZ prog pc = Some i.
Proof.
  intros [[|i rest] Hh] Hlt.
  - apply head_of_drop in Hh as (_ & _ & Hl). simpl in Hl. lia.
  - exists i, rest. split; [done|]. by eapply head_of_lookup.
Qed.
End Verified.

Lemma verify_insn_wide prog n pc i :
  verify_insn prog n pc i = StepWide -> code i = 0x18 /\ pc + 1 < n.
Proof.
  unfold verify_insn; cbv zeta. intros H. repeat case_match; simplify_eq; bool_props.
  all: split; lia.
Qed.

Lemma verify_insn_step prog n pc i : verify_insn prog n pc i = Step -> code i <> 0x18.
Proof.
  unfold verify_insn; cbv zeta. intros H Hc.
  assert (cls_of i = 0) as Hcls by (unfold cls_of; by rewrite Hc).
  rewrite Hcls, Hc in H. simpl in H. repeat case_match; simplify_eq; done.
Qed.

(** The scan of an accepted program accepts from every head on. *)
Lemma head_verified prog pc rest :
  verify prog = None -> head_of prog pc rest ->
  verify_loop prog (Z.of_nat (length prog)) pc rest = None.
Proof.
  intros Hv. induction 1 as [|pc i rest _ IH Hc|pc i j rest _ IH Hc]; [done| |];
    cbn [verify_loop] in IH;
    destruct (verify_insn prog (Z.of_nat (length prog)) pc i) eqn:E; try done.
  - by apply verify_insn_wide in E as [? _].
  - by apply verify_insn_step in E.
Qed.

Lemma head_accepted prog pc i rest :
  verify prog = None -> head_of prog pc (i :: rest) ->
  let n := Z.of_nat (length prog) in
  (verify_insn prog n pc i = Step /\ is_head prog (pc + 1)) \/
  (verify_insn prog n pc i = StepWide /\ is_head prog (pc + 2)).
Proof.
  intros Hv Hh n. pose proof (head_verified _ _ _ Hv Hh) as Hl. cbn [verify_loop] in Hl.
  destruct (verify_insn prog (Z.of_nat (length prog)) pc i) eqn:E; [done|left|right].
  - split; [done|]. exists rest. eapply head_step; [done|]. by eapply verify_insn_step.
  - split; [done|]. apply verify_insn_wide in E as [Hc Hlt].
    destruct rest as [|j rest].
    + apply head_of_drop in Hh as (_ & _ & Hn). simpl in Hn. lia.
    + exists rest. by eapply head_wide.
Qed.

(** Every position is an instruction or the second slot of a wide load. *)
Lemma position_cases prog p :
  verify prog = None -> 0 <= p <= Z.of_nat (length prog) ->
  is_head prog p \/
  (exists i, is_head prog (p - 1) /\ nthZ prog (p - 1) = Some i /\ code i = 0x18 /\
             p < Z.of_nat (length prog)).
Proof.
  intros Hv [Hp0 Hpn]. revert p Hp0 Hpn.
  apply (natlike_ind (fun p => p <= Z.of_nat (length prog) -> _)).
  - intros _. left. exists prog. constructor.
  - intros p Hp IH Hn. replace (Z.succ p) with (p + 1) in * by lia.
    replace (p + 1 - 1) with p by lia.
    destruct IH as [Hh|(i & [rest Hh] & Hi & Hc & _)]; [lia| |].
    + destruct (is_head_lookup prog p Hh) as (i & rest & Hh' & Hi); [lia|].
      destruct (head_accepted prog p i rest Hv Hh') as [[E ?]|[E ?]]; [by left|].
      right. exists i. apply verify_insn_wide in E. naive_solver.
    + left. destruct rest as [|i' [|j rest]].
      * apply head_of_drop in Hh as (_ & _ & Hl). simpl in Hl. lia.
      * apply head_of_drop in Hh as (_ & _ & Hl). simpl in Hl. lia.
      * exists rest. pose proof (head_of_lookup _ _ _ _ Hh). simplify_eq.
        replace (p + 1) with (p - 1 + 2) by lia. by eapply head_wide.
Qed.

Lemma load_le_Some ctx o k sz v :
  0 <= o -> 0 <= k -> o + k + Z.of_nat sz <= Z.of_nat (length ctx) ->
  exists w, load_le ctx o k sz v = Some w.
Proof.
  revert k v. induction sz as [|sz IH]; intros k v Ho Hk Hl; cbn [load_le]; [by eexists|].
  destruct (nthZ_lt ctx (o + k)) as [b ->]; [lia|]. apply IH; lia.
Qed.

Lemma ldx_size_range c : 1 <= ldx_size c <= 8.
Proof. unfold ldx_size. repeat case_match; lia. Qed.

Lemma operand_Some i r : 0 <= src_of i <= 10 -> length r = 11%nat -> exists b, operand i r = Some b.
Proof.
  intros Hs Hr. unfold operand. case_match; [by eexists|].
  apply nthZ_lt. rewrite Hr. lia.
Qed.

(** The target of an accepted jump is an instruction, or the program's end. *)
Lemma jump_target_head prog pc i :
  verify prog = None -> 0 <= pc < Z.of_nat (length prog) -> 0 <= off i ->
  pc + 1 + off i <= Z.of_nat (length prog) ->
  (pc + 1 + off i <? Z.of_nat (length prog)) && (0 <? pc + 1 + off i) &&
    match nthZ prog (pc + 1 + off i - 1) with Some j => code j =? 0x18 | None => false end = false ->
  is_head prog (pc + 1 + off i).
Proof.
  intros Hv Hpc Ho Ht Hb.
  destruct (position_cases prog (pc + 1 + off i) Hv) as [?|(j & _ & Hj & Hc & Hlt)]; [lia|done|].
  exfalso. rewrite Hj, Hc, Z.eqb_refl, andb_true_r in Hb.
  apply andb_false_iff in Hb as [Hb|Hb]; bool_props; lia.
Qed.

Definition pc_ok (prog : list insn) (pc : Z) : Prop :=
  0 <= pc <= Z.of_nat (length prog) /\ is_head prog pc.

(** What an accepted instruction guarantees, by class. *)
Lemma accepted_regs prog n pc i :
  insn_wf i -> verify_insn prog n pc i = Step \/ verify_insn prog n pc i = StepWide ->
  0 <= dst_of i <= 10 /\ 0 <= src_of i <= 10.
Proof.
  intros (_ & Hr & _) Hv.
  assert (0 <= dst_of i) by (apply Z.land_nonneg; lia).
  assert (0 <= src_of i) by (apply Z.shiftr_nonneg; lia).
  unfold verify_insn in Hv; cbv zeta in Hv.
  destruct ((10 <? dst_of i) || (10 <? src_of i)) eqn:E; [naive_solver|]. bool_props. lia.
Qed.

Lemma accepted_jump prog n pc i :
  verify_insn prog n pc i = Step \/ verify_insn prog n pc i = StepWide ->
  (cls_of i =? 5) || (cls_of i =? 6) = true -> op_of i <> 0x90 ->
  0 <= off i /\ pc + 1 + off i <= n /\
  (pc + 1 + off i <? n) && (0 <? pc + 1 + off i) &&
    match nthZ prog (pc + 1 + off i - 1) with Some j => code j =? 0x18 | None => false end = false.
Proof.
  intros Hv Hc Ho. unfold verify_insn in Hv; cbv zeta in Hv.
  assert ((cls_of i =? 4) || (cls_of i =? 7) = false) as Hn
    by (apply orb_true_iff in Hc as [Hc|Hc]; bool_props; rewrite Hc; done).
  rewrite Hn, Hc, (proj2 (Z.eqb_neq _ _) Ho) in Hv.
  repeat (case_match; [by destruct Hv|]). bool_props. split_and!; [lia|lia|done].
Qed.

Lemma accepted_wide prog n pc i :
  verify_insn prog n pc i = StepWide -> cls_of i = 0.
Proof. intros [Hc _]%verify_insn_wide. unfold cls_of. by rewrite Hc. Qed.

Lemma accepted_ld prog n pc i :
  verify_insn prog n pc i = Step -> cls_of i <> 0.
Proof.
  intros H Hc. unfold verify_insn in H; cbv zeta in H. rewrite Hc in H. simpl in H.
  repeat case_match; done.
Qed.

(** The run-time invariant: the program counter is at an instruction (or the
    end), the register file is whole. *)
Definition step_ok (prog : list insn) (pc : Z) (res : istep) : Prop :=
  match res with
  | Undef => False
  | Ret _ => True
  | Next pc' r' => pc < pc' /\ pc_ok prog pc' /\ length r' = 11%nat
  end.

Section StepSafe.
Context (prog : list insn) (ctx r : list Z) (pc : Z) (i : insn) (rest : list insn).
Hypothesis Hv : verify prog = None.
Hypothesis Hn : Z.of_nat (length prog) <= 4096.
Hypothesis Hh : head_of prog pc (i :: rest).
Hypothesis Hwf : insn_wf i.
Hypothesis Hr : length r = 11%nat.
Hypothesis Hctx : Z.of_nat (length ctx) < 4294967296.

Lemma pc_range : 0 <= pc < Z.of_nat (length prog).
Proof using All. apply head_of_drop in Hh as (? & _ & Hl). simpl in Hl. lia. Qed.

Lemma accepted : verify_insn prog (Z.of_nat (length prog)) pc i = Step \/
                 verify_insn prog (Z.of_nat (length prog)) pc i = StepWide.
Proof using All. destruct (head_accepted _ _ _ _ Hv Hh) as [[? _]|[? _]]; auto. Qed.

Lemma next_ok r' :
  cls_of i <> 0 -> length r' = 11%nat -> step_ok prog pc (Next (u32 (pc + 1)) r').
Proof using All.
  pose proof pc_range. intros Hc Hr'. unfold step_ok, pc_ok. unwrap_ints.
  destruct (head_accepted _ _ _ _ Hv Hh) as [[_ Hh1]|[E _]].
  - split_and!; [lia|lia|lia|done|done].
  - by apply accepted_wide in E.
Qed.

Lemma jump_ok :
  (cls_of i =? 5) || (cls_of i =? 6) = true -> op_of i <> 0x90 ->
  step_ok prog pc (Next (u32 (pc + off i + 1)) r).
Proof using All.
  intros Hc Ho. pose proof pc_range.
  destruct (accepted_jump _ _ _ _ accepted Hc Ho) as (H0 & H1 & Hb).
  pose proof (jump_target_head _ _ _ Hv pc_range H0 H1 Hb) as Ht.
  unfold step_ok, pc_ok. unwrap_ints. replace (pc + off i + 1) with (pc + 1 + off i) by lia.
  split_and!; [lia|lia|lia|done|done].
Qed.

Lemma reg_read k : 0 <= k <= 10 -> exists a, nthZ r k = Some a.
Proof using All. intros. apply nthZ_lt. rewrite Hr. lia. Qed.

(** One accepted instruction neither leaves an array nor goes backwards. *)
Lemma run_insn_ok :
  step_ok prog pc (run_insn prog ctx (Z.of_nat (length ctx)) pc r i).
Proof using All.
  destruct (accepted_regs _ _ _ _ Hwf accepted) as [Hd Hs]. pose proof pc_range.
  destruct (reg_read _ Hd) as [a Ha]. destruct (reg_read _ Hs) as [rs Hrs].
  destruct (reg_read 0) as [r0 Hr0]; [lia|].
  destruct (operand_Some i r Hs Hr) as [b Hb].
  unfold run_insn; cbv zeta. rewrite Ha, Hb, Hrs, Hr0.
  destruct ((cls_of i =? 4) || (cls_of i =? 7)) eqn:Ec1.
  { case_match; [|done]. apply next_ok; [|by rewrite length_insert].
    intros Hc. by rewrite Hc in Ec1. }
  destruct ((cls_of i =? 5) || (cls_of i =? 6)) eqn:Ec2.
  { assert (cls_of i <> 0) by (intros Hc; by rewrite Hc in Ec2).
    case_match eqn:Eo; [done|]. bool_props.
    case_match; [by apply jump_ok|]. case_match; [by apply jump_ok|by apply next_ok]. }
  destruct (cls_of i =? 1) eqn:Ec3.
  { case_match eqn:Eg; [done|]. bool_props.
    pose proof (ldx_size_range (code i)).
    destruct Hwf as (_ & _ & Ho & _).
    match goal with H : u32 _ <= _ |- _ => rewrite u32_small in H by lia end.
    destruct (load_le_Some ctx (off i) 0 (Z.to_nat (ldx_size (code i))) 0) as [w ->]; [lia..|].
    apply next_ok; [lia|by rewrite length_insert]. }
  destruct (cls_of i =? 0) eqn:Ec4; [|done]. bool_props.
  destruct (head_accepted _ _ _ _ Hv Hh) as [[E _]|[E Hh2]]; [by apply accepted_ld in E|].
  apply verify_insn_wide in E as [_ Hlt].
  destruct (nthZ_lt prog (pc + 1)) as [j ->]; [lia|].
  unfold step_ok, pc_ok. unwrap_ints. rewrite length_insert. split_and!; [lia..|done|done].
Qed.
End StepSafe.

Lemma run_loop_ok prog ctx fuel pc r :
  verify prog = None -> Z.of_nat (length prog) <= 4096 -> Forall insn_wf prog ->
  Z.of_nat (length ctx) < 4294967296 ->
  pc_ok prog pc -> length r = 11%nat -> Z.of_nat (length prog) - pc < Z.of_nat fuel ->
  exists allow, run_loop fuel prog ctx (Z.of_nat (length ctx)) pc r = Some (Ret allow).
Proof.
  intros Hv Hn Hwf Hctx. revert pc r.
  induction fuel as [|fuel IH]; intros pc r [Hpc Hh] Hr Hf; [lia|].
  cbn [run_loop]. case_match eqn:E; [|by eexists]. bool_props.
  destruct (is_head_lookup prog pc Hh E) as (i & rest & Hh' & Hi). rewrite Hi.
  assert (insn_wf i) as Hwi.
  { apply nthZ_Some in Hi as [_ Hi]. by eapply Forall_lookup_1 in Hi. }
  pose proof (run_insn_ok prog ctx r pc i rest Hv Hn Hh' Hwi Hr Hctx) as Hok.
  destruct (run_insn prog ctx (Z.of_nat (length ctx)) pc r i) as [pc' r'|b|]; simpl in Hok.
  - destruct Hok as (Hlt & Hok & Hr'). apply IH; [done|done|lia].
  - by eexists.
  - done.
Qed.

(** C5: a program the verifier accepts runs to a verdict: at most as many steps
    as it has instructions, no access outside the instruction array, the
    register file or the context, whatever the context holds. *)
Theorem verified_run_total prog ctx :
  verify prog = None -> Z.of_nat (length prog) <= 4096 -> Forall insn_wf prog ->
  Z.of_nat (length ctx) < 4294967296 ->
  exists allow, run prog ctx (Z.of_nat (length ctx)) = Some (Ret allow).
Proof.
  intros. apply run_loop_ok; [done..| |done|lia].
  split; [lia|]. exists prog. constructor.
Qed.

Definition allow_null : list insn :=
  [ Insn 0x61 0x12 0 0; Insn 0x54 0x02 0 0xffff; Insn 0x61 0x13 4 0; Insn 0x61 0x14 8 0;
    Insn 0x55 0x02 4 2; Insn 0x55 0x03 3 1; Insn 0x55 0x04 2 3;
    Insn 0xb7 0x00 0 1; Insn 0x95 0x00 0 0; Insn 0xb7 0x00 0 0; Insn 0x95 0x00 0 0 ].

Lemma allow_null_wf : Forall insn_wf allow_null.
Proof. repeat (constructor; [unfold insn_wf; simpl; lia|]). constructor. Qed.

Lemma verified_run_total_witness :
  verify allow_null = None /\
  exists allow, run allow_null (replicate 12 0) (Z.of_nat (length (replicate 12 0))) = Some (Ret allow).
Proof.
  split; [reflexivity|]. apply (verified_run_total allow_null (replicate 12 0)).
  - reflexivity.
  - simpl; lia.
  - exact allow_null_wf.
  - simpl; lia.
Defined.

(** ** Register values stay 64-bit *)

Definition u64_ok (v : Z) : Prop := 0 <= v < 18446744073709551616.

Lemma u64_ok_bits v :
  0 <= v -> (forall l, 64 <= l -> Z.testbit v l = false) -> u64_ok v.
Proof.
  intros H0 Hb. split; [done|]. apply (Z.bounded_iff_bits_nonneg 64); [lia|done|done].
Qed.

Lemma u64_ok_high v l : u64_ok v -> 64 <= l -> Z.testbit v l = false.
Proof. intros [H0 H1] Hl. by apply (Z.bounded_iff_bits_nonneg 64 v). Qed.

Lemma u64_ok_lor a b : u64_ok a -> u64_ok b -> u64_ok (Z.lor a b).
Proof.
  intros Ha Hb. apply u64_ok_bits; [apply Z.lor_nonneg; split; [apply Ha|apply Hb]|].
  intros l Hl. rewrite Z.lor_spec, !u64_ok_high; done.
Qed.
Lemma u64_ok_land a b : u64_ok a -> u64_ok b -> u64_ok (Z.land a b).
Proof.
  intros Ha Hb. apply u64_ok_bits; [apply Z.land_nonneg; left; apply Ha|].
  intros l Hl. rewrite Z.land_spec, !u64_ok_high; done.
Qed.
Lemma u64_ok_lxor a b : u64_ok a -> u64_ok b -> u64_ok (Z.lxor a b).
Proof.
  intros Ha Hb. apply u64_ok_bits.
  - apply Z.lxor_nonneg. destruct Ha, Hb. lia.
  - intros l Hl. rewrite Z.lxor_spec, !u64_ok_high; done.
Qed.
Lemma u64_ok_shiftr a k : 0 <= k -> u64_ok a -> u64_ok (Z.shiftr a k).
Proof.
  intros Hk Ha. apply u64_ok_bits; [apply Z.shiftr_nonneg; apply Ha|].
  intros l Hl. rewrite Z.shiftr_spec by lia. apply u64_ok_high; [done|lia].
Qed.
Lemma u32_u64_ok a : u64_ok (u32 a).
Proof. pose proof (u32_range a). unfold u64_ok. lia. Qed.
Lemma u64_u64_ok a : u64_ok (u64 a).
Proof. apply u64_range. Qed.
#[local] Hint Resolve u64_ok_lor u64_ok_land u64_ok_lxor u32_u64_ok u64_u64_ok : dos.

Lemma alu_u64 op a b w32 v : u64_ok a -> u64_ok b -> alu op a b w32 = Some v -> u64_ok v.
Proof.
  intros Ha Hb. unfold alu; cbv zeta.
  repeat case_match; intros; simplify_eq; eauto with dos; bool_props.
  - destruct Ha, Hb. split; [apply Z.div_pos; lia|]. apply Z.div_lt_upper_bound; nia.
  - apply u64_ok_shiftr; [|done]. apply Z.land_nonneg; left; apply Hb.
  - apply u64_ok_shiftr; [|done]. apply Z.land_nonneg; left; apply Hb.
  - destruct Ha, Hb. pose proof (Z.mod_pos_bound a b). unfold u64_ok. lia.
Qed.

Lemma load_le_bound ctx o k sz v w :
  Forall (fun b => 0 <= b < 256) ctx -> 0 <= k -> 0 <= v < 2 ^ (8 * k) ->
  load_le ctx o k sz v = Some w -> 0 <= w < 2 ^ (8 * (k + Z.of_nat sz)).
Proof.
  intros Hc. revert k v. induction sz as [|sz IH]; intros k v Hk Hv; cbn [load_le].
  - intros [= <-]. by rewrite Z.add_0_r.
  - case_match eqn:E; [|done]. intros H. apply nthZ_Some in E as [_ E].
    pose proof (Forall_lookup_1 _ _ _ _ Hc E) as Hb. simpl in Hb.
    apply IH in H; [by replace (k + Z.of_nat (S sz)) with (k + 1 + Z.of_nat sz) by lia|lia|].
    assert (0 <= Z.shiftl z (8 * k)) by (apply Z.shiftl_nonneg; lia).
    split; [apply Z.lor_nonneg; lia|].
    apply Z.bounded_iff_bits_nonneg; [lia|apply Z.lor_nonneg; lia|].
    intros l Hl. rewrite Z.lor_spec, Z.shiftl_spec by lia. apply orb_false_iff. split.
    + apply (Z.bounded_iff_bits_nonneg (8 * k)); lia.
    + apply (Z.bounded_iff_bits_nonneg 8); lia.
Qed.

(** Every register holds a 64-bit value after every step: the interpreter's
    arithmetic is the machine's, with no missing truncation. *)
Lemma run_insn_u64 prog ctx ctxlen pc r i pc' r' :
  Forall u64_ok r -> Forall (fun b => 0 <= b < 256) ctx -> insn_wf i ->
  run_insn prog ctx ctxlen pc r i = Next pc' r' -> Forall u64_ok r'.
Proof.
  intros Hr Hc Hwf. unfold run_insn; cbv zeta.
  assert (forall k a, nthZ r k = Some a -> u64_ok a) as Hrd.
  { intros k a [_ H]%nthZ_Some. by eapply Forall_lookup_1 in H. }
  assert (forall b, operand i r = Some b -> u64_ok b) as Hop.
  { unfold operand. intros b. case_match; intros; simplify_eq; [apply u64_range|eauto]. }
  assert (forall k v, u64_ok v -> Forall u64_ok (<[k := v]> r)) as Hins
    by (intros; by apply Forall_insert).
  assert (forall (w : bool) v, u64_ok v -> u64_ok (if w then u32 v else v)) as Hw
    by (intros [] ??; auto with dos).
  case_match.
  { destruct (nthZ r (dst_of i)) eqn:Ea, (operand i r) eqn:Eb; try done.
    destruct (alu _ _ _ _) eqn:E; [|done]. intros [= _ <-].
    apply alu_u64 in E; eauto. }
  case_match; [by repeat (case_match; try done); intros [= _ <-]|].
  case_match.
  { destruct (nthZ r (src_of i)), (nthZ r (dst_of i)); try done.
    case_match; [done|]. destruct (load_le _ _ _ _ _) eqn:E; [|done]. intros [= _ <-].
    eapply load_le_bound in E as [Hw0 Hw1]; [|done|lia|lia].
    pose proof (ldx_size_range (code i)). apply Hins. split; [done|].
    assert (2 ^ (8 * (0 + Z.of_nat (Z.to_nat (ldx_size (code i))))) <= 2 ^ 64)
      by (apply Z.pow_le_mono_r; lia). lia. }
  case_match; [|done].
  destruct (nthZ r (dst_of i)), (nthZ prog (pc + 1)) as [j|]; try done. intros [= _ <-].
  pose proof (u32_range (imm j)). apply Hins, u64_ok_lor; [apply u32_u64_ok|].
  rewrite Z.shiftl_mul_pow2 by lia. unfold u64_ok. lia.
Qed.
End BpfVm.
