(* ===== verification/Bpf.v ===== *)
(** * Loaded eBPF programs and their attachments (kernel/core/bpf.c)

    The objects behind bpf(2): reference-counted programs, the table of loaded
    programs, the (cgroup, program) attachment table, and the descriptors that
    hold programs.  The heap of programs is explicit, and dereferencing a
    program that has been freed makes an operation return [None]; the
    reference-count invariant shows this never happens. *)

From stdpp Require Import base list gmap strings.
From Stdlib Require Import ZArith Lia Bool.
From S2P Require Import Prelude BpfVm.
Open Scope Z_scope.

Module Bpf.
Import BpfVm.

Definition BPF_MAXI : Z := 4096.
Definition BPF_MAX_ATTACH : Z := 64.
Definition BPF_MAX_PROGS : Z := 256.
Definition BPF_PROG_TYPE_CGROUP_DEVICE : Z := 15.
Definition BPF_CGROUP_DEVICE : Z := 6.
Definition BPF_F_ALLOW_MULTI : Z := 2.
Definition BPF_F_REPLACE : Z := 4.

(** ** State *)

Record bpf_prog := BpfProg {
  refs : Z; id : Z; prog_in : list insn; name : list Z; tag : list Z
}.

(** Programs live at non-zero addresses of [heap].  [g_progs] is the table of
    loaded programs (0 = empty slot), [g_att] the live prefix of the
    attachment table (its length is [g_natt]), [fds] the descriptors of the
    task that are eBPF programs ([FD_BPF]). *)
Record state := State {
  heap : gmap Z bpf_prog; next_id : Z; g_progs : list Z;
  g_att : list (Z * Z); fds : gmap Z Z
}.

Definition set_heap (f : gmap Z bpf_prog -> gmap Z bpf_prog) (st : state) : state :=
  State (f (heap st)) (next_id st) (g_progs st) (g_att st) (fds st).
Definition set_progs (l : list Z) (st : state) : state :=
  State (heap st) (next_id st) l (g_att st) (fds st).
Definition set_att (l : list (Z * Z)) (st : state) : state :=
  State (heap st) (next_id st) (g_progs st) l (fds st).
Definition set_fds (m : gmap Z Z) (st : state) : state :=
  State (heap st) (next_id st) (g_progs st) (g_att st) m.

Definition add_refs (k : Z) (o : bpf_prog) : bpf_prog :=
  BpfProg (refs o + k) (id o) (prog_in o) (name o) (tag o).

(** ** References *)

Definition bpf_prog_ref_get (p : Z) (st : state) : option state :=
  match heap st !! p with
  | None => None
  | Some o => Some (set_heap (<[p := add_refs 1 o]>) st)
  end.

Definition clear_slot (p : Z) (l : list Z) : list Z :=
  (fun q => if q =? p then 0 else q) <$> l.

Definition bpf_prog_put (p : Z) (st : state) : option state :=
  if p =? 0 then Some st
  else match heap st !! p with
       | None => None
       | Some o =>
           if refs o - 1 =? 0
           then Some (set_heap (delete p) (set_progs (clear_slot p (g_progs st)) st))
           else Some (set_heap (<[p := add_refs (-1) o]>) st)
       end.

Fixpoint put_all (ps : list Z) (st : state) : option state :=
  match ps with
  | [] => Some st
  | p :: ps' => match bpf_prog_put p st with None => None | Some st' => put_all ps' st' end
  end.

(** ** Running the attached programs *)

(** [cgroupfs_parent]: the root has no parent. *)
Definition cgroupfs_parent (root : Z) (parent : Z -> Z) (cg : Z) : Z :=
  if (cg =? 0) || (cg =? root) then 0 else parent cg.

(** [for (cg = cgroupfs_task_node(t); cg; cg = cgroupfs_parent(cg))]: the
    cgroups from the task's to the root. *)
Fixpoint cg_chain (fuel : nat) (root : Z) (parent : Z -> Z) (cg : Z) : option (list Z) :=
  if cg =? 0 then Some []
  else match fuel with
       | O => None
       | S fuel' =>
           match cg_chain fuel' root parent (cgroupfs_parent root parent cg) with
           | None => None
           | Some l => Some (cg :: l)
           end
       end.

(** The context handed to a device program: access type, major and minor, each
    as four little-endian bytes. *)
Definition le_bytes (v : Z) (n : nat) : list Z :=
  (fun k => u8 (Z.shiftr v (8 * Z.of_nat k))) <$> seq 0 n.

Definition devcg_ctx (chr : bool) (major minor access : Z) : list Z :=
  let at_ := Z.lor (u32 (Z.shiftl access 16)) (if chr then 2 else 1) in
  le_bytes at_ 4 ++ le_bytes major 4 ++ le_bytes minor 4.

(** The collecting loop over one cgroup's attachments: each program found gets
    a reference and goes onto the run list, which holds [BPF_MAX_PROGS]. *)
Fixpoint collect (cg : Z) (att : list (Z * Z)) (st : state) (rl : list Z)
    : option (state * list Z) :=
  match att with
  | [] => Some (st, rl)
  | (c, p) :: att' =>
      if (c =? cg) && (Z.of_nat (length rl) <? BPF_MAX_PROGS) then
        match bpf_prog_ref_get p st with
        | None => None
        | Some st' => collect cg att' st' (rl ++ [p])
        end
      else collect cg att' st rl
  end.

Fixpoint collect_chain (cgs : list Z) (st : state) (rl : list Z) : option (state * list Z) :=
  match cgs with
  | [] => Some (st, rl)
  | cg :: cgs' =>
      match collect cg (g_att st) st rl with
      | None => None
      | Some (st', rl') => collect_chain cgs' st' rl'
      end
  end.

(** The running loop: a program runs while everything so far allowed; its
    reference is dropped in any case.  [None] also when a program's run is
    undefined. *)
Fixpoint run_all (ps : list Z) (ctx : list Z) (st : state) (ok : bool) : option (state * bool) :=
  match ps with
  | [] => Some (st, ok)
  | p :: ps' =>
      match heap st !! p with
      | None => None
      | Some o =>
          let verdict := if ok then run (prog_in o) ctx (Z.of_nat (length ctx))
                         else Some (Ret false) in
          match verdict, bpf_prog_put p st with
          | Some (Ret b), Some st' => run_all ps' ctx st' b
          | _, _ => None
          end
      end
  end.

Definition bpf_devcg_allowed (cgs : list Z) (chr : bool) (major minor access : Z)
    (st : state) : option (state * bool) :=
  match collect_chain cgs st [] with
  | None => None
  | Some (st', rl) => run_all rl (devcg_ctx chr major minor access) st' true
  end.

(** ** Attachments *)

(** [g_att[i] = g_att[--g_natt]] *)
Definition swap_remove (l : list (Z * Z)) (i : nat) : list (Z * Z) :=
  match last l with
  | None => l
  | Some x => take (length l - 1) (<[i := x]> l)
  end.

(** The loop of [bpf_cgroup_gone]: [fuel] is at least [g_natt - i]. *)
Fixpoint gone_loop (fuel : nat) (cg : Z) (i : nat) (att : list (Z * Z)) (dropped : list Z)
    : list (Z * Z) * list Z :=
  match fuel with
  | O => (att, dropped)
  | S fuel' =>
      match att !! i with
      | None => (att, dropped)
      | Some (c, p) =>
          if c =? cg then gone_loop fuel' cg i (swap_remove att i) (dropped ++ [p])
          else gone_loop fuel' cg (S i) att dropped
      end
  end.

Definition bpf_cgroup_gone (cg : Z) (st : state) : option state :=
  let '(att, dropped) := gone_loop (length (g_att st)) cg 0 (g_att st) [] in
  put_all dropped (set_att att st).

(** ** bpf(2) *)

Definition rd32 (a : list Z) (o : nat) : Z :=
  let b k := default 0 (a !! (o + k)%nat) in
  Z.lor (Z.lor (Z.lor (b 0%nat) (Z.shiftl (b 1%nat) 8)) (Z.shiftl (b 2%nat) 16))
        (Z.shiftl (b 3%nat) 24).
Definition rd64 (a : list Z) (o : nat) : Z :=
  Z.lor (rd32 a o) (Z.shiftl (rd32 a (o + 4)) 32).
Definition wr32 (a : list Z) (o : nat) (v : Z) : list Z :=
  foldl (fun a k => <[(o + k)%nat := u8 (Z.shiftr v (8 * Z.of_nat k))]> a) a (seq 0 4).

Definition prog_of_fd (st : state) (fd : Z) : Z := default 0 (fds st !! fd).

(** The first attachment of [cg] (to [p], when [p] is not NULL). *)
Fixpoint find_att (cg p : Z) (i : nat) (att : list (Z * Z)) : option (nat * Z) :=
  match att with
  | [] => None
  | (c, q) :: att' =>
      if (c =? cg) && ((p =? 0) || (q =? p)) then Some (i, q)
      else find_att cg p (S i) att'
  end.

Definition count_att (cg : Z) (att : list (Z * Z)) : Z :=
  Z.of_nat (length (filter (fun x => fst x = cg) att)).

(** [p->refs++; g_att[i].p = p; bpf_prog_put(old)] *)
Definition replace_att (i : nat) (cg p old : Z) (st : state) : option state :=
  match bpf_prog_ref_get p st with
  | None => None
  | Some st' => bpf_prog_put old (set_att (<[i := (cg, p)]> (g_att st')) st')
  end.

(** PROG_ATTACH ([detach] = false) and PROG_DETACH.  [cgroup_of_fd] resolves
    the target descriptor to a cgroup directory, 0 when it is not one. *)
Definition prog_attach (cgroup_of_fd : Z -> Z) (a : list Z) (detach : bool) (st : state)
    : option (state * Z) :=
  let target := s32 (rd32 a 0) in let pfd := s32 (rd32 a 4) in
  let type := rd32 a 8 in let flags := rd32 a 12 in let rfd := s32 (rd32 a 16) in
  if negb (type =? BPF_CGROUP_DEVICE) then Some (st, -22)
  else
    let cg := cgroup_of_fd target in
    if cg =? 0 then Some (st, -9)
    else
      let p := if (0 <? pfd) || negb detach then prog_of_fd st pfd else 0 in
      if negb detach && (p =? 0) then Some (st, -9)
      else if detach then
        match find_att cg p 0 (g_att st) with
        | Some (i, q) =>
            match bpf_prog_put q (set_att (swap_remove (g_att st) i) st) with
            | None => None
            | Some st' => Some (st', 0)
            end
        | None => Some (st, -2)
        end
      else if negb (Z.land flags BPF_F_REPLACE =? 0) then
        let old := prog_of_fd st rfd in
        if old =? 0 then Some (st, -2)
        else match find_att cg old 0 (g_att st) with
             | Some (i, _) =>
                 match replace_att i cg p old st with
                 | None => None
                 | Some st' => Some (st', 0)
                 end
             | None => Some (st, -2)
             end
      else
        let count := count_att cg (g_att st) in
        if negb (count =? 0) && (Z.land flags BPF_F_ALLOW_MULTI =? 0) then
          match find_att cg 0 0 (g_att st) with
          | Some (i, old) =>
              match replace_att i cg p old st with
              | None => None
              | Some st' => Some (st', 0)
              end
          | None => Some (st, 0)            (* count is not 0: there is one *)
          end
        else if (BPF_MAX_ATTACH <=? count) || (BPF_MAX_PROGS <=? Z.of_nat (length (g_att st)))
        then Some (st, -7)
        else match bpf_prog_ref_get p st with
             | None => None
             | Some st' => Some (set_att (g_att st' ++ [(cg, p)]) st', 0)
             end.

(** What the allocators answer during one call: memory for the instructions,
    for the program object (its address), for the open-file object, and a
    descriptor number. *)
Record env := Env {
  e_kmalloc : bool; e_kcalloc : option Z; e_ofile : bool; e_fd : option Z
}.

(** [ofile_from_bpf] takes a reference; a failed [fd_install_k] drops it. *)
Definition install_prog (e : env) (p : Z) (st : state) : option (state * Z) :=
  if negb (e_ofile e) then Some (st, -12)
  else match bpf_prog_ref_get p st with
       | None => None
       | Some st1 =>
           match e_fd e with
           | None =>
               match bpf_prog_put p st1 with None => None | Some st2 => Some (st2, -24) end
           | Some fd => Some (set_fds (<[fd := p]> (fds st1)) st1, fd)
           end
       end.

(** The 64-bit FNV-1a hash of the instruction bytes. *)
Definition insn_bytes (i : insn) : list Z :=
  [code i; regs i] ++ le_bytes (u16 (off i)) 2 ++ le_bytes (u32 (imm i)) 4.
Definition prog_hash (prog : list insn) : Z :=
  foldl (fun h b => u64 (Z.lxor h b * 1099511628211)) 1469598103934665603
        (mjoin (insn_bytes <$> prog)).

Fixpoint free_slot (l : list Z) (i : nat) : option nat :=
  match l with
  | [] => None
  | x :: l' => if x =? 0 then Some i else free_slot l' (S i)
  end.

(** PROG_LOAD.  [copy_in addr n] reads [n] instructions of user memory. *)
Definition prog_load (copy_in : Z -> Z -> option (list insn)) (e : env)
    (a : list Z) (size : Z) (st : state) : option (state * Z) :=
  if size <? 24 then Some (st, -22)
  else
    let type := rd32 a 0 in let n := rd32 a 4 in
    let uins := rd64 a 8 in let flags := rd32 a 44 in
    if negb (flags =? 0) then Some (st, -22)
    else if negb (type =? BPF_PROG_TYPE_CGROUP_DEVICE) then Some (st, -22)
    else if (n =? 0) || (BPF_MAXI <? n) then Some (st, -22)
    else if negb (e_kmalloc e) then Some (st, -12)
    else match copy_in uins n with
         | None => Some (st, -14)
         | Some prog =>
             match verify prog with
             | Some _ => Some (st, -22)
             | None =>
                 match e_kcalloc e with
                 | None => Some (st, -12)
                 | Some p =>
                     let nm := if 64 <=? size
                               then (fun k => default 0 (a !! (48 + k)%nat)) <$> seq 0 15
                               else replicate 15 0 in
                     let o := BpfProg 1 (next_id st) prog (nm ++ [0])
                                      (le_bytes (prog_hash prog) 8) in
                     let st1 := State (heap st) (u32 (next_id st + 1)) (g_progs st)
                                      (g_att st) (fds st) in
                     match free_slot (g_progs st) 0 with
                     | None => Some (st1, -28)      (* both blocks freed again *)
                     | Some i =>
                         let st2 := set_heap (<[p := o]>)
                                      (set_progs (<[i := p]> (g_progs st1)) st1) in
                         match install_prog e p st2 with
                         | None => None
                         | Some (st3, fd) =>
                             match bpf_prog_put p st3 with
                             | None => None
                             | Some st4 => Some (st4, fd)
                             end
                         end
                     end
                 end
             end
         end.

Fixpoint find_id (st : state) (want : Z) (l : list Z) : option (option Z) :=
  match l with
  | [] => Some None
  | p :: l' =>
      if p =? 0 then find_id st want l'
      else match heap st !! p with
           | None => None
           | Some o => if id o =? want then Some (Some p) else find_id st want l'
           end
  end.

Definition get_fd_by_id (e : env) (a : list Z) (st : state) : option (state * Z) :=
  match find_id st (rd32 a 0) (g_progs st) with
  | None => None
  | Some None => Some (st, -2)
  | Some (Some p) =>
      match bpf_prog_ref_get p st with
      | None => None
      | Some st1 =>
          match install_prog e p st1 with
          | None => None
          | Some (st2, fd) =>
              match bpf_prog_put p st2 with
              | None => None
              | Some st3 => Some (st3, fd)
              end
          end
      end
  end.

(** PROG_QUERY: the result, the updated attribute block and the ids written to
    user memory.  [copy_out] answers whether the user buffer is writable. *)
Definition prog_query (cgroup_of_fd : Z -> Z) (copy_out : Z -> bool) (a : list Z) (size : Z)
    (st : state) : option (Z * list Z * list Z) :=
  if size <? 28 then Some (-22, a, [])
  else
    let type := rd32 a 4 in let uids := rd64 a 16 in let cap := rd32 a 24 in
    if negb (type =? BPF_CGROUP_DEVICE) then Some (-22, a, [])
    else
      let cg := cgroup_of_fd (s32 (rd32 a 0)) in
      if cg =? 0 then Some (-9, a, [])
      else
        match mapM (fun x => id <$> heap st !! snd x)
                (take (Z.to_nat BPF_MAX_ATTACH) (filter (fun x => fst x = cg) (g_att st))) with
        | None => None
        | Some ids =>
            let n := Z.of_nat (length ids) in
            let a1 := wr32 a 12 (if n =? 0 then 0 else BPF_F_ALLOW_MULTI) in
            let a2 := wr32 a1 24 n in
            if cap <? n then Some (-28, a2, [])
            else if negb (n =? 0) && negb (uids =? 0) then
              if copy_out uids then Some (0, a2, ids) else Some (-14, a2, [])
            else Some (0, a2, [])
        end.

(** OBJ_GET_INFO_BY_FD: the result, the updated attribute block and the bytes
    written to user memory. *)
Definition obj_info (copy_out : Z -> bool) (a : list Z) (st : state)
    : option (Z * list Z * list Z) :=
  let len := rd32 a 4 in let uinfo := rd64 a 8 in
  let p := prog_of_fd st (s32 (rd32 a 0)) in
  if p =? 0 then Some (-22, a, [])
  else match heap st !! p with
       | None => None
       | Some o =>
           let info :=
             le_bytes BPF_PROG_TYPE_CGROUP_DEVICE 4 ++ le_bytes (id o) 4 ++ tag o ++
             replicate 4 0 ++ le_bytes (u32 (Z.of_nat (length (prog_in o)) * 8)) 4 ++
             replicate 40 0 ++ name o in
           let w := if len <? 80 then len else 80 in
           if negb (w =? 0) && negb (copy_out uinfo) then Some (-14, a, [])
           else Some (0, wr32 a 4 w, take (Z.to_nat w) info)
       end.

(** What one bpf(2) call sees of the rest of the kernel. *)
Record world := World {
  w_cgroup_of_fd : Z -> Z; w_copy_in : Z -> Z -> option (list insn);
  w_copy_out : Z -> bool; w_env : env
}.

(** The dispatcher: new state, result, attribute block and bytes/ids copied out. *)
Definition bpf_syscall (w : world) (cmd : Z) (a : list Z) (size : Z) (st : state)
    : option (state * Z * list Z * list Z) :=
  let keep (r : option (state * Z)) :=
    match r with None => None | Some (st', v) => Some (st', v, a, []) end in
  let out (r : option (Z * list Z * list Z)) :=
    match r with None => None | Some (v, a', o) => Some (st, v, a', o) end in
  if cmd =? 0 then Some (st, -22, a, [])
  else if cmd =? 5 then keep (prog_load (w_copy_in w) (w_env w) a size st)
  else if cmd =? 8 then keep (prog_attach (w_cgroup_of_fd w) a false st)
  else if cmd =? 9 then keep (prog_attach (w_cgroup_of_fd w) a true st)
  else if cmd =? 13 then keep (get_fd_by_id (w_env w) a st)
  else if cmd =? 15 then out (obj_info (w_copy_out w) a st)
  else if cmd =? 16 then out (prog_query (w_cgroup_of_fd w) (w_copy_out w) a size st)
  else Some (st, -22, a, []).

(** ** The reference-count invariant *)

Definition occ (p : Z) (l : list Z) : Z := Z.of_nat (length (filter (fun q => q = p) l)).

Lemma occ_cons p q l : occ p (q :: l) = (if decide (q = p) then 1 else 0) + occ p l.
Proof. unfold occ. rewrite filter_cons. case_decide; simpl; lia. Qed.
Lemma occ_cons_eq p l : occ p (p :: l) = 1 + occ p l.
Proof. rewrite occ_cons. by case_decide. Qed.
Lemma occ_cons_ne p q l : q <> p -> occ p (q :: l) = occ p l.
Proof. rewrite occ_cons. by case_decide. Qed.
Lemma occ_nonneg p l : 0 <= occ p l.
Proof. unfold occ. lia. Qed.
Lemma occ_pos p l : p ∈ l -> 0 < occ p l.
Proof.
  induction l as [|q l IH]; [by intros ?%not_elem_of_nil|].
  rewrite occ_cons. intros [->|Hp]%elem_of_cons.
  - rewrite decide_True by done. pose proof (occ_nonneg q l). lia.
  - specialize (IH Hp). case_decide; lia.
Qed.
Lemma occ_elem p l : 0 < occ p l -> p ∈ l.
Proof.
  induction l as [|q l IH]; [done|]. rewrite occ_cons.
  case_decide; [subst; by left|]. intros. right. apply IH. lia.
Qed.
#[export] Instance occ_proper p : Proper ((≡ₚ) ==> (=)) (occ p).
Proof. intros l l' Hl. unfold occ. by rewrite Hl. Qed.

(** A loaded program: accepted by the verifier and within the size limit. *)
Definition prog_ok (o : bpf_prog) : Prop :=
  verify (prog_in o) = None /\ Z.of_nat (length (prog_in o)) <= BPF_MAXI /\
  Forall insn_wf (prog_in o).

(** [L] lists every reference that exists, once each. *)
Definition refs_inv (h : gmap Z bpf_prog) (slots L : list Z) : Prop :=
  (forall p, p ∈ L -> is_Some (h !! p)) /\
  (forall p o, h !! p = Some o -> p <> 0 /\ refs o = occ p L /\ 0 < occ p L /\ prog_ok o) /\
  (forall p, p ∈ slots -> p = 0 \/ is_Some (h !! p)).

#[export] Instance refs_inv_proper h slots : Proper ((≡ₚ) ==> iff) (refs_inv h slots).
Proof.
  intros L L' HL. unfold refs_inv. by setoid_rewrite HL.
Qed.

Lemma get_refs_inv h slots L p o :
  refs_inv h slots L -> h !! p = Some o -> refs_inv (<[p := add_refs 1 o]> h) slots (p :: L).
Proof.
  intros (H1 & H2 & H3) Hp. destruct (H2 _ _ Hp) as (Hp0 & Hr & Hpos & Hok).
  split_and!.
  - intros q [->|Hq]%elem_of_cons; rewrite lookup_insert_is_Some'; [by left|right; auto].
  - intros q o'. rewrite lookup_insert, occ_cons. case_decide as E.
    + intros [= <-]. subst q. simpl. split_and!; [done|lia|lia|done].
    + intros Hq. destruct (H2 _ _ Hq) as (?&?&?&?).
      split_and!; [done|lia|lia|done].
  - intros q Hq. destruct (H3 _ Hq); [by left|right]. rewrite lookup_insert_is_Some'. auto.
Qed.

Lemma put_refs_inv h slots L p o :
  refs_inv h slots (p :: L) -> h !! p = Some o ->
  if refs o - 1 =? 0 then refs_inv (delete p h) (clear_slot p slots) L
  else refs_inv (<[p := add_refs (-1) o]> h) slots L.
Proof.
  intros (H1 & H2 & H3) Hp. destruct (H2 _ _ Hp) as (Hp0 & Hr & Hpos & Hok).
  rewrite occ_cons_eq in Hr, Hpos.
  destruct (refs o - 1 =? 0) eqn:E; bool_props.
  - assert (p ∉ L) as HpL by (intros Hin%occ_pos; lia).
    split_and!.
    + intros q Hq. assert (q <> p) by naive_solver. rewrite lookup_delete_ne by done.
      apply H1. by right.
    + intros q o' [Hne Hq]%lookup_delete_Some. destruct (H2 _ _ Hq) as (?&Hrq&Hoq&?).
      rewrite occ_cons_ne in Hrq, Hoq by done. split_and!; [done|lia|lia|done].
    + intros q. unfold clear_slot. rewrite list_elem_of_fmap. intros (q' & -> & Hq').
      case_match eqn:Eq; [by left|]. bool_props. destruct (H3 _ Hq'); [by left|right].
      by rewrite lookup_delete_ne.
  - split_and!.
    + intros q Hq. rewrite lookup_insert_is_Some'. right. apply H1. by right.
    + intros q o'. rewrite lookup_insert. case_decide as Eq.
      * intros [= <-]. subst q. simpl. split_and!; [done|lia|lia|done].
      * intros Hq. destruct (H2 _ _ Hq) as (?&Hrq&Hoq&?).
        rewrite occ_cons_ne in Hrq, Hoq by done. split_and!; [done|lia|lia|done].
    + intros q Hq. destruct (H3 _ Hq); [by left|right]. rewrite lookup_insert_is_Some'. auto.
Qed.

(** Every reference the tables hold, and [held], those a call has taken and not
    yet stored or dropped. *)
Definition all_refs (held : list Z) (st : state) : list Z :=
  held ++ (snd <$> g_att st) ++ (snd <$> map_to_list (fds st)).

Definition inv (held : list Z) (st : state) : Prop :=
  refs_inv (heap st) (g_progs st) (all_refs held st) /\
  Z.of_nat (length (g_att st)) <= BPF_MAX_PROGS.

Lemma inv_held held st p : inv held st -> p ∈ held -> exists o, heap st !! p = Some o.
Proof. intros [(H & _) _] Hp. apply H, elem_of_app. by left. Qed.

Lemma inv_att held st c p : inv held st -> (c, p) ∈ g_att st -> exists o, heap st !! p = Some o.
Proof.
  intros [(H & _) _] Hp. apply H. unfold all_refs. rewrite !elem_of_app. right; left.
  apply list_elem_of_fmap. by exists (c, p).
Qed.

Lemma inv_fd held st fd p : inv held st -> fds st !! fd = Some p -> exists o, heap st !! p = Some o.
Proof.
  intros [(H & _) _] Hp. apply H. unfold all_refs. rewrite !elem_of_app. right; right.
  apply list_elem_of_fmap. exists (fd, p). split; [done|]. by apply elem_of_map_to_list.
Qed.

Lemma ref_get_inv held st p o :
  inv held st -> heap st !! p = Some o ->
  exists st', bpf_prog_ref_get p st = Some st' /\ inv (p :: held) st' /\
              st' = set_heap (<[p := add_refs 1 o]>) st.
Proof.
  intros [H Hl] Hp. unfold bpf_prog_ref_get. rewrite Hp. eexists. split_and!; [done|split|done].
  - by apply get_refs_inv.
  - done.
Qed.

Lemma put_inv held st p :
  inv (p :: held) st ->
  exists st', bpf_prog_put p st = Some st' /\ inv held st' /\
              g_att st' = g_att st /\ fds st' = fds st.
Proof.
  intros [H Hl]. destruct (inv_held _ _ p (conj H Hl)) as [o Ho]; [by left|].
  assert (p <> 0) as Hp0 by (by apply H in Ho as (? & _)).
  unfold bpf_prog_put. rewrite (proj2 (Z.eqb_neq _ _) Hp0), Ho.
  pose proof (put_refs_inv _ _ (all_refs held st) _ _ H Ho) as Hput.
  destruct (refs o - 1 =? 0); eexists; (split_and!; [done|split; [exact Hput|done]|done|done]).
Qed.

Lemma put_all_inv ps held st :
  inv (ps ++ held) st ->
  exists st', put_all ps st = Some st' /\ inv held st' /\ g_att st' = g_att st /\ fds st' = fds st.
Proof.
  revert st. induction ps as [|p ps IH]; intros st H; cbn [put_all]; [by eauto 10|].
  destruct (put_inv (ps ++ held) st p H) as (st1 & -> & H1 & Ha & Hf).
  destruct (IH _ H1) as (st2 & -> & ? & ? & ?). eexists. split_and!; [done|done|congruence..].
Qed.

(** ** A device check is a query *)

(** A program without its reference count. *)
Definition erase (o : bpf_prog) : bpf_prog := BpfProg 0 (id o) (prog_in o) (name o) (tag o).

Record same_but_refs (st st' : state) : Prop := {
  sbr_next : next_id st' = next_id st;
  sbr_progs : g_progs st' = g_progs st;
  sbr_att : g_att st' = g_att st;
  sbr_fds : fds st' = fds st;
  sbr_heap : forall p, erase <$> heap st' !! p = erase <$> heap st !! p
}.

#[export] Instance same_but_refs_refl : Reflexive same_but_refs.
Proof. by split. Qed.
#[export] Instance same_but_refs_trans : Transitive same_but_refs.
Proof. intros x y z [] []. split; try congruence. Qed.

Lemma sbr_insert st p o k :
  heap st !! p = Some o -> same_but_refs st (set_heap (<[p := add_refs k o]>) st).
Proof.
  intros Hp. split; try done. intros q. simpl. rewrite lookup_insert.
  case_decide; [subst; by rewrite Hp|done].
Qed.

(** The counts are determined by the tables, so two states that agree on
    everything else and satisfy the invariant are equal. *)
Lemma same_but_refs_eq st st' : inv [] st -> inv [] st' -> same_but_refs st st' -> st' = st.
Proof.
  intros [(_ & H & _) _] [(_ & H' & _) _] [E1 E2 E3 E4 E5].
  destruct st as [h n g a f], st' as [h' n' g' a' f']; simpl in *; subst. f_equal.
  apply map_eq. intros p. specialize (E5 p).
  destruct (h !! p) as [o|] eqn:Eo, (h' !! p) as [o'|] eqn:Eo'; simplify_eq/=; try done.
  apply H in Eo as (_ & Hr & _). apply H' in Eo' as (_ & Hr' & _).
  destruct o, o'; simplify_eq/=. unfold all_refs in *; simpl in *. congruence.
Qed.

(** Dropping a reference that is not the last keeps the program. *)
Lemma put_inv_keep held st p :
  inv (p :: held) st -> p ∈ all_refs held st ->
  exists st', bpf_prog_put p st = Some st' /\ inv held st' /\ same_but_refs st st'.
Proof.
  intros Hi Hp. destruct (put_inv held st p Hi) as (st' & E & Hi' & _).
  exists st'. split_and!; [done|done|].
  destruct Hi as [H _]. assert (is_Some (heap st !! p)) as [o Ho].
  { apply H. by left. }
  pose proof (proj2 H) as [H2 _]. destruct (H2 _ _ Ho) as (Hp0 & Hr & _).
  unfold bpf_prog_put in E. rewrite (proj2 (Z.eqb_neq _ _) Hp0), Ho in E.
  change (all_refs (p :: held) st) with (p :: all_refs held st) in Hr.
  rewrite occ_cons_eq in Hr. apply occ_pos in Hp.
  rewrite (proj2 (Z.eqb_neq _ _)) in E by lia. injection E as <-. by apply sbr_insert.
Qed.

Lemma collect_spec cg att st rl held :
  inv held st -> att ⊆ g_att st ->
  Z.of_nat (length rl) + count_att cg att <= BPF_MAX_PROGS ->
  exists st', let new := snd <$> filter (fun x => fst x = cg) att in
    collect cg att st rl = Some (st', rl ++ new) /\ inv (new ++ held) st' /\ same_but_refs st st'.
Proof.
  revert st rl held. induction att as [|[c p] att IH]; intros st rl held Hi Hsub Hc; cbn zeta.
  { exists st. cbn. by rewrite app_nil_r. }
  cbn [collect]. unfold count_att in Hc. rewrite filter_cons in *. simpl fst in *.
  case_decide as E.
  - subst c. rewrite Z.eqb_refl. simpl length in Hc.
    rewrite (proj2 (Z.ltb_lt _ _)) by lia. cbn [andb].
    destruct (inv_att held st cg p Hi) as [o Ho]; [apply Hsub; by left|].
    destruct (ref_get_inv held st p o Hi Ho) as (st1 & E1 & Hi1 & Hst1). rewrite E1.
    destruct (IH st1 (rl ++ [p]) (p :: held)) as (st2 & E2 & Hi2 & Hs2); [done| | |].
    + subst st1. simpl. intros x Hx. apply Hsub. by right.
    + unfold count_att. rewrite length_app. simpl length. lia.
    + exists st2. rewrite E2, <- app_assoc. split_and!; [done| |].
      * destruct Hi2 as [Hi2 Hl2]. split; [|done]. revert Hi2. apply refs_inv_proper.
        unfold all_refs. simpl. by rewrite <- !app_assoc, Permutation_middle.
      * etrans; [|done]. subst st1. by apply sbr_insert.
  - rewrite (proj2 (Z.eqb_neq c cg)) by done. cbn [andb].
    destruct (IH st rl held Hi) as (st2 & E2 & Hi2 & Hs2).
    + intros x Hx. apply Hsub. by right.
    + done.
    + exists st2. by rewrite E2.
Qed.

(** The programs attached to [cgs], in the order they run. *)
Definition attached (cgs : list Z) (att : list (Z * Z)) : list Z :=
  mjoin ((fun cg => snd <$> filter (fun x => fst x = cg) att) <$> cgs).

Lemma attached_cons cg cgs att :
  attached (cg :: cgs) att = (snd <$> filter (fun x => fst x = cg) att) ++ attached cgs att.
Proof. done. Qed.

Lemma attached_other cg cgs att :
  cg ∉ cgs -> attached cgs att = attached cgs (filter (fun x => fst x <> cg) att).
Proof.
  intros Hcg. unfold attached. f_equal. apply list_fmap_ext. intros i c Hc. f_equal.
  rewrite list_filter_filter. apply list_filter_iff. intros x. split; [|naive_solver].
  intros Hx. split; [done|]. intros Hx'. apply Hcg. rewrite <- Hx', Hx.
  by eapply list_elem_of_lookup_2.
Qed.

Lemma attached_length cgs att : NoDup cgs -> (length (attached cgs att) <= length att)%nat.
Proof.
  intros Hn. revert att. induction Hn as [|cg cgs Hcg Hn IH]; intros att; [cbn; lia|].
  rewrite attached_cons, length_app, length_fmap, (attached_other cg) by done.
  specialize (IH (filter (fun x => fst x <> cg) att)).
  pose proof (Permutation_length (filter_split (fun x : Z * Z => fst x = cg) att)) as Hl.
  rewrite length_app in Hl. lia.
Qed.

Lemma collect_chain_spec cgs st rl held :
  inv held st ->
  Z.of_nat (length rl) + Z.of_nat (length (attached cgs (g_att st))) <= BPF_MAX_PROGS ->
  exists st', let new := attached cgs (g_att st) in
    collect_chain cgs st rl = Some (st', rl ++ new) /\ inv (new ++ held) st' /\
    same_but_refs st st'.
Proof.
  revert st rl held. induction cgs as [|cg cgs IH]; intros st rl held Hi Hc; cbn zeta.
  { exists st. cbn. by rewrite app_nil_r. }
  rewrite attached_cons in *. rewrite length_app, length_fmap in Hc. cbn [collect_chain].
  destruct (collect_spec cg (g_att st) st rl held Hi) as (st1 & E1 & Hi1 & Hs1);
    [done|unfold count_att; lia|]. rewrite E1.
  destruct (IH st1 (rl ++ (snd <$> filter (fun x => fst x = cg) (g_att st))) _ Hi1)
    as (st2 & E2 & Hi2 & Hs2); rewrite (sbr_att _ _ Hs1) in *.
  - rewrite length_app, length_fmap. lia.
  - exists st2. rewrite E2, <- app_assoc. split_and!; [done| |by etrans].
    destruct Hi2 as [Hi2 Hl2]. split; [|done]. revert Hi2. apply refs_inv_proper.
    unfold all_refs. rewrite !app_assoc. do 3 f_equiv. apply Permutation_app_comm.
Qed.

(** What the interpreter answers for the program at [p]. *)
Definition verdict (st : state) (ctx : list Z) (p : Z) : bool :=
  match heap st !! p with
  | None => false
  | Some o =>
      match run (prog_in o) ctx (Z.of_nat (length ctx)) with
      | Some (Ret b) => b
      | _ => false
      end
  end.

Lemma verdict_same st st' ctx p : same_but_refs st st' -> verdict st' ctx p = verdict st ctx p.
Proof.
  intros Hs. unfold verdict. pose proof (sbr_heap _ _ Hs p) as E.
  destruct (heap st !! p) as [o|], (heap st' !! p) as [o'|]; simplify_eq/=; try done.
  destruct o, o'; simplify_eq/=. done.
Qed.

Lemma run_prog_ok o ctx :
  prog_ok o -> Z.of_nat (length ctx) < 4294967296 ->
  exists b, run (prog_in o) ctx (Z.of_nat (length ctx)) = Some (Ret b).
Proof.
  intros (Hv & Hn & Hw) Hc. apply run_loop_ok; [done..| |done|lia].
  split; [lia|]. exists (prog_in o). constructor.
Qed.

Lemma run_all_spec ps ctx st ok held :
  inv (ps ++ held) st -> (forall p, p ∈ ps -> p ∈ all_refs held st) ->
  Z.of_nat (length ctx) < 4294967296 ->
  exists st', run_all ps ctx st ok = Some (st', ok && forallb (verdict st ctx) ps) /\
              inv held st' /\ same_but_refs st st'.
Proof.
  intros Hi Hps Hc. revert st ok Hi Hps.
  induction ps as [|p ps IH]; intros st ok Hi Hps; cbn [run_all forallb].
  { exists st. by rewrite andb_true_r. }
  destruct (inv_held _ _ p Hi) as [o Ho]; [by left|]. rewrite Ho.
  assert (prog_ok o) as Hok by (by apply Hi in Ho as (_ & _ & _ & ?)).
  destruct (run_prog_ok o ctx Hok Hc) as [b Hb].
  destruct (put_inv_keep (ps ++ held) st p Hi) as (st1 & E1 & Hi1 & Hs1).
  { unfold all_refs. rewrite <- app_assoc, elem_of_app. right. apply Hps. by left. }
  destruct (IH st1 (if ok then b else false) Hi1) as (st2 & E2 & Hi2 & Hs2).
  { intros q Hq. unfold all_refs. rewrite (sbr_att _ _ Hs1), (sbr_fds _ _ Hs1).
    apply Hps. by right. }
  exists st2. split_and!; [|done|by etrans].
  assert (verdict st ctx p = b) as Hvb by (unfold verdict; by rewrite Ho, Hb).
  assert (forallb (verdict st1 ctx) ps = forallb (verdict st ctx) ps) as Hvs.
  { clear -Hs1. induction ps; simpl; [done|]. by rewrite (verdict_same _ _ _ _ Hs1), IHps. }
  rewrite E1. destruct ok; cbn [andb] in *.
  - rewrite Hb, E2, Hvb, Hvs. by destruct b.
  - by rewrite E2.
Qed.

Lemma le_bytes_length v n : length (le_bytes v n) = n.
Proof. unfold le_bytes. by rewrite length_fmap, length_seq. Qed.

Lemma devcg_ctx_length chr major minor access :
  length (devcg_ctx chr major minor access) = 12%nat.
Proof. unfold devcg_ctx. by rewrite !length_app, !le_bytes_length. Qed.

(** A device access is decided by every program attached to the task's
    cgroup or an ancestor, none skipped; all must allow; the check never
    touches a freed program, and leaves the whole state, reference counts
    included, as it was. *)
Theorem devcg_allowed_spec st cgs chr major minor access :
  inv [] st -> NoDup cgs ->
  bpf_devcg_allowed cgs chr major minor access st =
    Some (st, forallb (verdict st (devcg_ctx chr major minor access)) (attached cgs (g_att st))).
Proof.
  intros Hi Hn. unfold bpf_devcg_allowed.
  pose proof (attached_length cgs (g_att st) Hn) as Hl. pose proof (proj2 Hi) as Hb.
  destruct (collect_chain_spec cgs st [] [] Hi) as (st1 & E1 & Hi1 & Hs1); [simpl; lia|].
  rewrite E1. simpl app.
  set (ctx := devcg_ctx chr major minor access).
  destruct (run_all_spec (attached cgs (g_att st)) ctx st1 true [] Hi1) as (st2 & E2 & Hi2 & Hs2).
  - intros p Hp. unfold all_refs. rewrite (sbr_att _ _ Hs1). apply elem_of_app. right.
    apply elem_of_app. left. unfold attached in Hp.
    apply list_elem_of_join in Hp as (l & Hp & Hl'). apply list_elem_of_fmap in Hl' as (cg & -> & _).
    apply list_elem_of_fmap in Hp as (x & -> & [_ Hx]%list_elem_of_filter).
    apply list_elem_of_fmap. by exists x.
  - unfold ctx. rewrite devcg_ctx_length. lia.
  - rewrite E2. assert (st2 = st) as -> by (apply same_but_refs_eq; [done|done|by etrans]).
    do 2 f_equal. simpl. clear -Hs1. induction (attached cgs (g_att st)); simpl; [done|].
    by rewrite (verdict_same _ _ _ _ Hs1), IHl.
Qed.

(** The chain of ancestors, when it ends, has no cgroup twice. *)
Lemma cg_chain_det f1 f2 root parent cg l1 l2 :
  cg_chain f1 root parent cg = Some l1 -> cg_chain f2 root parent cg = Some l2 -> l1 = l2.
Proof.
  revert f2 cg l1 l2. induction f1 as [|f1 IH]; intros f2 cg l1 l2 H1 H2;
    destruct f2 as [|f2]; cbn [cg_chain] in *; case_match; simplify_eq; try done.
  destruct (cg_chain f1 _ _ _) eqn:E1, (cg_chain f2 _ _ _) eqn:E2; simplify_eq.
  f_equal. by eapply IH.
Qed.

Lemma cg_chain_suffix f root parent cg l l1 c l2 :
  cg_chain f root parent cg = Some l -> l = l1 ++ c :: l2 ->
  exists f', cg_chain f' root parent c = Some (c :: l2).
Proof.
  revert cg l l1. induction f as [|f IH]; intros cg l l1 H Hl; cbn [cg_chain] in H;
    case_match; simplify_eq; try by destruct l1.
  destruct (cg_chain f _ _ _) as [l'|] eqn:E; [|done]. injection H as Hl'.
  destruct l1 as [|c1 l1]; simplify_eq/=.
  - exists (S f). cbn [cg_chain]. rewrite H0. by rewrite E.
  - by eapply IH.
Qed.

Lemma cg_chain_NoDup f root parent cg l : cg_chain f root parent cg = Some l -> NoDup l.
Proof.
  intros H. apply NoDup_alt. intros i j c Hi Hj.
  apply list_elem_of_split_length in Hi as (l1 & l2 & E1 & ->).
  apply list_elem_of_split_length in Hj as (l1' & l2' & E2 & ->).
  destruct (cg_chain_suffix _ _ _ _ _ _ _ _ H E1) as [f1 H1].
  destruct (cg_chain_suffix _ _ _ _ _ _ _ _ H E2) as [f2 H2].
  pose proof (cg_chain_det _ _ _ _ _ _ _ H1 H2) as [= <-].
  pose proof (f_equal length E1) as L1. pose proof (f_equal length E2) as L2.
  rewrite length_app in L1, L2. simpl in *. lia.
Qed.

(** ** Every operation preserves the counts *)

Lemma swap_remove_perm l i x : l !! i = Some x -> x :: swap_remove l i ≡ₚ l.
Proof.
  intros Hi. unfold swap_remove. destruct (last l) as [y|] eqn:Hl.
  - apply last_Some in Hl as [l' ->]. rewrite length_app. simpl.
    replace (length l' + 1 - 1)%nat with (length l') by lia.
    destruct (decide (i < length l')%nat).
    + rewrite insert_app_l by done. rewrite lookup_app_l in Hi by done.
      rewrite take_app_le, take_ge by (rewrite ?length_insert; lia).
      apply list_elem_of_split_length in Hi as (a & b & -> & ->).
      rewrite insert_app_r_alt, Nat.sub_diag by lia. simpl.
      rewrite <- app_assoc. simpl. transitivity (x :: y :: a ++ b).
      * by rewrite <- Permutation_middle.
      * rewrite <- Permutation_middle, app_assoc. f_equiv. apply Permutation_cons_append.
    + assert (i = length l') as ->.
      { apply lookup_lt_Some in Hi. rewrite length_app in Hi. simpl in Hi. lia. }
      rewrite lookup_app_r, Nat.sub_diag in Hi by lia. injection Hi as <-.
      rewrite list_insert_id by (by rewrite lookup_app_r, Nat.sub_diag by lia).
      rewrite take_app_length. by rewrite Permutation_app_comm.
  - apply last_None in Hl as ->. done.
Qed.

Lemma swap_remove_length l i : (i < length l)%nat -> length (swap_remove l i) = (length l - 1)%nat.
Proof.
  intros Hi. destruct (lookup_lt_is_Some_2 l i Hi) as [x Hx].
  pose proof (Permutation_length (swap_remove_perm _ _ _ Hx)). simpl in *. lia.
Qed.

Lemma swap_remove_take l i : (i < length l)%nat -> take i (swap_remove l i) = take i l.
Proof.
  intros Hi. unfold swap_remove. destruct (last l) as [y|] eqn:Hl; [|done].
  rewrite take_take. rewrite Nat.min_l by lia. by rewrite take_insert_ge by lia.
Qed.

(** The sweep removes exactly the attachments of [cg]. *)
Lemma gone_loop_spec fuel cg i att dr att' dr' :
  (length att - i <= fuel)%nat -> (i <= length att)%nat ->
  Forall (fun x => fst x <> cg) (take i att) ->
  gone_loop fuel cg i att dr = (att', dr') ->
  att' ≡ₚ filter (fun x => fst x <> cg) att /\
  dr' ≡ₚ dr ++ (snd <$> filter (fun x => fst x = cg) att).
Proof.
  revert i att dr. induction fuel as [|fuel IH]; intros i att dr Hf Hi Hp H; cbn [gone_loop] in H.
  { simplify_eq. rewrite take_ge in Hp by lia.
    rewrite filter_all, filter_none, app_nil_r; auto. }
  destruct (att !! i) as [[c p]|] eqn:E.
  - destruct (c =? cg) eqn:Ec; bool_props.
    + subst c. assert (i < length att)%nat as Hlt by (by eapply lookup_lt_Some).
      pose proof (swap_remove_perm _ _ _ E) as Hsp.
      destruct (IH i (swap_remove att i) (dr ++ [p])) as [H1 H2]; [..|exact H|].
      * rewrite swap_remove_length by done. lia.
      * rewrite swap_remove_length by done. lia.
      * by rewrite swap_remove_take.
      * rewrite H1, H2. clear -Hsp. revert Hsp. generalize (swap_remove att i) as sr.
        intros sr <-. rewrite !filter_cons. simpl.
        rewrite decide_False, decide_True by naive_solver. simpl.
        split; [done|]. by rewrite <- app_assoc.
    + apply (IH (S i) att dr); [..|exact H].
      * lia.
      * apply lookup_lt_Some in E. lia.
      * rewrite (take_S_r _ _ _ E). apply Forall_app. split; [done|]. by repeat constructor.
  - simplify_eq. apply lookup_ge_None in E. rewrite take_ge in Hp by lia.
    rewrite filter_all, filter_none, app_nil_r; auto.
Qed.

Lemma inv_perm held held' st st' :
  heap st' = heap st -> g_progs st' = g_progs st ->
  all_refs held' st' ≡ₚ all_refs held st ->
  Z.of_nat (length (g_att st')) <= BPF_MAX_PROGS -> inv held st -> inv held' st'.
Proof.
  intros E1 E2 Hp Hl [Hi _]. split; [|done]. rewrite E1, E2. by rewrite Hp.
Qed.

(** Removing a cgroup detaches exactly its programs and drops exactly their
    references. *)
Theorem cgroup_gone_spec cg st :
  inv [] st ->
  exists st', bpf_cgroup_gone cg st = Some st' /\ inv [] st' /\
              g_att st' ≡ₚ filter (fun x => fst x <> cg) (g_att st) /\ fds st' = fds st.
Proof.
  intros Hi. unfold bpf_cgroup_gone.
  destruct (gone_loop _ cg 0 (g_att st) []) as [att dr] eqn:E.
  apply gone_loop_spec in E as [Ha Hd]; [|lia|lia|by rewrite take_0]. simpl in Hd.
  pose proof (filter_split (fun x => fst x = cg) (g_att st)) as Hsp.
  destruct (put_all_inv dr [] (set_att att st)) as (st' & E' & Hi' & Ha' & Hf').
  - rewrite app_nil_r. apply (inv_perm [] _ st); [done|done| | |exact Hi].
    + unfold all_refs; simpl. rewrite Ha, Hd, app_assoc, <- fmap_app, Hsp. done.
    + simpl. rewrite Ha. pose proof (length_filter (fun x => fst x <> cg) (g_att st)).
      destruct Hi. lia.
  - exists st'. split_and!; [done|done| |done]. by rewrite Ha'.
Qed.

Lemma find_att_spec cg p i att j q :
  find_att cg p i att = Some (j, q) ->
  (i <= j)%nat /\ att !! (j - i)%nat = Some (cg, q) /\ (p = 0 \/ q = p).
Proof.
  revert i. induction att as [|[c r] att IH]; intros i H; cbn [find_att] in H; [done|].
  case_match eqn:E.
  - simplify_eq. apply andb_true_iff in E as [E1 E2]. apply orb_true_iff in E2. bool_props.
    rewrite Nat.sub_diag. subst. split_and!; [done|done|]. destruct E2; bool_props; auto.
  - apply IH in H as (H1 & H2 & H3). split_and!; [lia| |done].
    replace (j - i)%nat with (S (j - S i)) by lia. done.
Qed.

Lemma replace_att_inv i cg p old st :
  inv [] st -> g_att st !! i = Some (cg, old) -> (exists o, heap st !! p = Some o) ->
  exists st', replace_att i cg p old st = Some st' /\ inv [] st' /\
              g_att st' = <[i := (cg, p)]> (g_att st) /\ fds st' = fds st.
Proof.
  intros Hi Hold [o Ho]. unfold replace_att.
  destruct (ref_get_inv [] st p o Hi Ho) as (st1 & -> & Hi1 & Hst1).
  destruct (put_inv [] (set_att (<[i := (cg, p)]> (g_att st1)) st1) old) as (st2 & E & Hi2 & Ha & Hf).
  - apply (inv_perm [p] _ st1); [done|done| | |exact Hi1].
    + subst st1. unfold all_refs; simpl.
      apply list_elem_of_split_length in Hold as (a & b & Hab & ->). rewrite Hab.
      rewrite insert_app_r_alt, Nat.sub_diag by lia. simpl.
      rewrite !fmap_app, !fmap_cons. simpl. rewrite <- !app_assoc, <- !app_comm_cons.
      rewrite <- !Permutation_middle. apply Permutation_swap.
    + simpl. rewrite length_insert. apply Hi1.
  - exists st2. subst st1. split_and!; done.
Qed.

Lemma prog_of_fd_live st fd :
  inv [] st -> prog_of_fd st fd <> 0 -> exists o, heap st !! prog_of_fd st fd = Some o.
Proof.
  intros Hi. unfold prog_of_fd. destruct (fds st !! fd) eqn:E; [|done]. simpl. intros _.
  by eapply inv_fd.
Qed.

(** Attaching and detaching, on every branch, keeps each program's count
    equal to the references that exist, keeps every attachment pointing at a
    live program, and leaves the descriptors alone. *)
Lemma prog_attach_inv cof a detach st :
  inv [] st ->
  exists st' r, prog_attach cof a detach st = Some (st', r) /\ inv [] st' /\ fds st' = fds st.
Proof.
  intros Hi. unfold prog_attach; cbv zeta.
  set (cg := cof (s32 (rd32 a 0))). set (p := if _ || _ then _ else 0).
  case_match; [by eauto|]. case_match; [by eauto|]. case_match eqn:Ep; [by eauto|].
  destruct detach; simpl in *.
  - destruct (find_att cg p 0 (g_att st)) as [[i q]|] eqn:Ef; [|by eauto].
    apply find_att_spec in Ef as (_ & Hq & _). rewrite Nat.sub_0_r in Hq.
    destruct (put_inv [] (set_att (swap_remove (g_att st) i) st) q) as (st1 & -> & Hi1 & _ & Hf).
    + pose proof (swap_remove_perm _ _ _ Hq) as Hsp.
      apply (inv_perm [] _ st); [done|done| | |exact Hi].
      * unfold all_refs; simpl. clear -Hsp. revert Hsp. generalize (swap_remove (g_att st) i) as sr.
        by intros sr <-.
      * simpl. rewrite swap_remove_length by (by eapply lookup_lt_Some). destruct Hi. lia.
    + by eauto 10.
  - bool_props. assert (exists o, heap st !! p = Some o) as Hp.
    { subst p. rewrite orb_true_r in *. by apply prog_of_fd_live. }
    case_match.
    { case_match; [by eauto|].
      destruct (find_att cg (prog_of_fd st _) 0 (g_att st)) as [[i q]|] eqn:Ef; [|by eauto].
      apply find_att_spec in Ef as (_ & Hq & Hq'). rewrite Nat.sub_0_r in Hq. bool_props.
      destruct Hq' as [?|<-]; [done|].
      destruct (replace_att_inv i cg p q st Hi Hq Hp) as (st1 & -> & Hi1 & _ & Hf). by eauto. }
    case_match.
    { destruct (find_att cg 0 0 (g_att st)) as [[i q]|] eqn:Ef; [|by eauto].
      apply find_att_spec in Ef as (_ & Hq & _). rewrite Nat.sub_0_r in Hq.
      destruct (replace_att_inv i cg p q st Hi Hq Hp) as (st1 & -> & Hi1 & _ & Hf). by eauto. }
    case_match eqn:El; [by eauto|]. apply orb_false_iff in El as [_ El]. bool_props.
    destruct Hp as [o Ho]. destruct (ref_get_inv [] st p o Hi Ho) as (st1 & -> & Hi1 & Hst1).
    eexists _, _. split_and!; [done| |by subst st1].
    apply (inv_perm [p] _ st1); [done|done| | |exact Hi1]; subst st1; simpl.
    + unfold all_refs; simpl. rewrite fmap_app. simpl. rewrite <- app_assoc. simpl.
      by rewrite <- Permutation_middle.
    + rewrite length_app. simpl. lia.
Qed.

(** What the allocators may answer: a program object at a fresh non-zero
    address, a descriptor number that is not in use. *)
Definition env_ok (e : env) (st : state) : Prop :=
  (forall p, e_kcalloc e = Some p -> p <> 0 /\ heap st !! p = None) /\
  (forall fd, e_fd e = Some fd -> fds st !! fd = None).

Lemma install_prog_inv e p held st :
  inv held st -> p ∈ held -> (forall fd, e_fd e = Some fd -> fds st !! fd = None) ->
  exists st' r, install_prog e p st = Some (st', r) /\ inv held st'.
Proof.
  intros Hi Hp Hfd. unfold install_prog. case_match; [by eauto|].
  destruct (inv_held _ _ p Hi Hp) as [o Ho].
  destruct (ref_get_inv held st p o Hi Ho) as (st1 & -> & Hi1 & Hst1).
  destruct (e_fd e) as [fd|].
  - eexists _, _. split; [done|]. apply (inv_perm (p :: held) _ st1); [done|done| | |exact Hi1].
    + subst st1. unfold all_refs; simpl. rewrite map_to_list_insert by auto. simpl.
      by rewrite <- !Permutation_middle.
    + apply Hi1.
  - destruct (put_inv held st1 p Hi1) as (st2 & -> & Hi2 & _). by eauto.
Qed.

Lemma free_slot_lt l i k : free_slot l i = Some k -> (i <= k < i + length l)%nat.
Proof.
  revert i. induction l as [|x l IH]; intros i H; cbn [free_slot] in H; [done|].
  case_match; simplify_eq/=; [lia|]. apply IH in H. lia.
Qed.

Lemma new_prog_inv st p o i n' :
  inv [] st -> p <> 0 -> heap st !! p = None -> refs o = 1 -> prog_ok o ->
  inv [p] (State (<[p := o]> (heap st)) n' (<[i := p]> (g_progs st)) (g_att st) (fds st)).
Proof.
  intros [(H1 & H2 & H3) Hl] Hp0 Hp Hr Hok. split; [|done].
  set (L := all_refs [] st). change (refs_inv (<[p := o]> (heap st)) (<[i := p]> (g_progs st)) (p :: L)).
  assert (p ∉ L) as HpL by (intros [? ?]%H1; congruence).
  assert (occ p L = 0) as Hocc.
  { pose proof (occ_nonneg p L). destruct (decide (occ p L = 0)); [done|].
    exfalso. apply HpL, occ_elem. lia. }
  split_and!.
  - intros q [->|Hq]%elem_of_cons; rewrite lookup_insert_is_Some'; [by left|right; auto].
  - intros q o'. rewrite lookup_insert. case_decide as E.
    + intros [= <-]. subst q. rewrite occ_cons_eq. split_and!; [done|lia|lia|done].
    + intros Hq. rewrite occ_cons_ne by done. destruct (H2 _ _ Hq) as (?&?&?&?).
      split_and!; [done|done|done|done].
  - intros q [k Hq]%list_elem_of_lookup. rewrite lookup_insert_is_Some'.
    destruct (decide (k = i)) as [->|Hk].
    + destruct (decide (i < length (g_progs st))%nat).
      * rewrite list_lookup_insert_eq in Hq by done. injection Hq as ->. auto.
      * rewrite list_insert_ge in Hq by lia.
        destruct (H3 q); [by eapply list_elem_of_lookup_2|auto|auto].
    + rewrite list_lookup_insert_ne in Hq by done.
      destruct (H3 q); [by eapply list_elem_of_lookup_2|auto|auto].
Qed.

(** Loading a program, on every branch (bad attributes, a fault, a refused
    program, no memory, a full table, no descriptor), keeps the counts exact;
    in particular every loaded program has passed the verifier. *)
Lemma prog_load_inv copy_in e a size st :
  inv [] st -> env_ok e st ->
  (forall u n prog, copy_in u n = Some prog ->
     Z.of_nat (length prog) = n /\ Forall insn_wf prog) ->
  exists st' r, prog_load copy_in e a size st = Some (st', r) /\ inv [] st'.
Proof.
  intros Hi [Hk Hfd] Hcopy. unfold prog_load; cbv zeta.
  do 3 (case_match; [by eauto|]). case_match eqn:En; [by eauto|]. case_match; [by eauto|].
  destruct (copy_in (rd64 a 8) (rd32 a 4)) as [prog|] eqn:Ec; [|by eauto].
  destruct (Hcopy _ _ _ Ec) as [Hlen Hwf].
  destruct (verify prog) eqn:Ev; [by eauto|]. destruct (e_kcalloc e) as [p|]; [|by eauto].
  destruct (Hk p eq_refl) as [Hp0 Hfresh]. bool_props.
  destruct (free_slot (g_progs st) 0) as [i|].
  - set (o := BpfProg 1 _ _ _ _).
    assert (prog_ok o) as Hok by (split_and!; [done|simpl; lia|done]).
    pose proof (new_prog_inv st p o i (u32 (next_id st + 1)) Hi Hp0 Hfresh eq_refl Hok) as Hnew.
    edestruct (install_prog_inv e p [p]) as (st3 & r & E3 & Hi3); [exact Hnew|by left|done|].
    unfold set_heap, set_progs; cbn [heap next_id g_progs g_att fds]. rewrite E3.
    destruct (put_inv [] st3 p Hi3) as (st4 & -> & Hi4 & _). by eauto.
  - eexists _, _. split; [done|]. by apply (inv_perm [] _ st); [..|apply Hi|].
Qed.

Lemma find_id_live held st want l :
  inv held st -> (forall q, q ∈ l -> q ∈ g_progs st) ->
  match find_id st want l with
  | None => False | Some None => True | Some (Some p) => exists o, heap st !! p = Some o
  end.
Proof.
  intros Hi. induction l as [|p l IH]; intros Hl; cbn [find_id]; [done|].
  destruct (p =? 0) eqn:E; bool_props.
  - apply IH. intros q Hq. apply Hl. by right.
  - destruct Hi as [(_ & _ & H3) _]. destruct (H3 p) as [?|[o Ho]]; [apply Hl; by left|done|].
    rewrite Ho. destruct (id o =? want); [by eauto|]. apply IH. intros q Hq. apply Hl. by right.
Qed.

(** Opening a loaded program by its id keeps the counts exact and never
    follows a stale entry of the program table. *)
Lemma get_fd_by_id_inv e a st :
  inv [] st -> env_ok e st ->
  exists st' r, get_fd_by_id e a st = Some (st', r) /\ inv [] st'.
Proof.
  intros Hi [_ Hfd]. unfold get_fd_by_id.
  pose proof (find_id_live [] st (rd32 a 0) (g_progs st) Hi (fun q H => H)) as Hf.
  destruct (find_id st (rd32 a 0) (g_progs st)) as [[p|]|]; [|by eauto|done].
  destruct Hf as [o Ho]. destruct (ref_get_inv [] st p o Hi Ho) as (st1 & -> & Hi1 & Hst1).
  destruct (install_prog_inv e p [p] st1 Hi1) as (st2 & r & -> & Hi2); [by left|by subst st1|].
  destruct (put_inv [] st2 p Hi2) as (st3 & -> & Hi3 & _). by eauto.
Qed.

Lemma prog_query_live cof co a size st :
  inv [] st -> exists r, prog_query cof co a size st = Some r.
Proof.
  intros Hi. unfold prog_query; cbv zeta. do 3 (case_match; [by eauto|]).
  destruct (mapM _ _) as [ids|] eqn:E; [repeat case_match; by eauto|].
  exfalso. apply mapM_None_1, Exists_exists in E as ([c p] & Hx & Hn). simpl in Hn.
  assert ((c, p) ∈ g_att st) as Hin.
  { apply list_elem_of_lookup in Hx as [k Hk]. apply lookup_take_Some in Hk as [Hk _].
    apply list_elem_of_lookup_2, list_elem_of_filter in Hk. by destruct Hk. }
  destruct (inv_att [] st c p Hi Hin) as [o Ho]. by rewrite Ho in Hn.
Qed.

Lemma obj_info_live co a st : inv [] st -> exists r, obj_info co a st = Some r.
Proof.
  intros Hi. unfold obj_info; cbv zeta. case_match eqn:E; [by eauto|]. bool_props.
  destruct (prog_of_fd_live st _ Hi E) as [o ->]. case_match; by eauto.
Qed.


(** ** A concrete system: one program, attached to one cgroup and open *)

Definition p0 : Z := 4096.
Definition cg1 : Z := 8192.
Definition demo : state :=
  State {[ p0 := BpfProg 2 1 allow_null (replicate 16 0) (le_bytes (prog_hash allow_null) 8) ]}
        2 (<[0%nat := p0]> (replicate 256 0)) [(cg1, p0)] {[ 3 := p0 ]}.

Lemma demo_inv : inv [] demo.
Proof.
  split; [|vm_compute; discriminate]. unfold refs_inv. split_and!.
  - intros p Hp. change (all_refs [] demo) with [p0; p0] in Hp.
    repeat (apply elem_of_cons in Hp as [->|Hp]; [by vm_compute; eauto|]). by apply not_elem_of_nil in Hp.
  - intros p o Hp. change (all_refs [] demo) with [p0; p0].
    unfold demo in Hp; cbn [heap] in Hp.
    apply lookup_singleton_Some in Hp as [<- <-]. split_and!; [done|done|done|].
    split_and!; [done|by vm_compute|exact allow_null_wf].
  - intros p Hp. change (g_progs demo) with (p0 :: replicate 255 0) in Hp.
    apply elem_of_cons in Hp as [->|Hp]; [right; by vm_compute; eauto|].
    apply elem_of_replicate in Hp as [-> _]. by left.
Qed.

Lemma devcg_allowed_spec_witness :
  bpf_devcg_allowed [cg1; 1] true 1 3 6 demo = Some (demo, true) /\
  bpf_devcg_allowed [cg1; 1] true 1 5 2 demo = Some (demo, false).
Proof.
  split.
  - rewrite (devcg_allowed_spec demo [cg1; 1] true 1 3 6 demo_inv); [by vm_compute|].
    by apply (bool_decide_unpack _); vm_compute.
  - rewrite (devcg_allowed_spec demo [cg1; 1] true 1 5 2 demo_inv); [by vm_compute|].
    by apply (bool_decide_unpack _); vm_compute.
Defined.

Lemma cgroup_gone_spec_witness :
  exists st', bpf_cgroup_gone cg1 demo = Some st' /\ g_att st' ≡ₚ [].
Proof.
  destruct (cgroup_gone_spec cg1 demo demo_inv) as (st' & E & _ & Ha & _).
  exists st'. split; [exact E|exact Ha].
Defined.

(** PROG_LOAD of [allow_null], which the demo's world copies in from any
    address. *)
Definition load_attr : list Z :=
  le_bytes 15 4 ++ le_bytes 11 4 ++ le_bytes 65536 8 ++ replicate 48 0.
Definition demo_world : world :=
  World (fun fd => if fd =? 5 then cg1 else 0)
        (fun _ n => if n =? 11 then Some allow_null else None)
        (fun _ => true) (Env true (Some 12288) true (Some 4)).

End Bpf.
