(* ===== verification/Pmm.v ===== *)
(** * The physical memory manager (kernel/mem/pmm.c): the model

    A zoned buddy allocator.  The state is the C file's: one state byte per
    frame, the intrusive doubly linked free lists threaded through the free
    frames themselves, a set of zones per NUMA node, the affinity ranges, the
    reserve for user memory and the boot arena.

    Every critical section runs under the zone's spinlock, so an operation is
    a function from state to state.  The word a free frame's link occupies is
    one cell of [links], whichever route ([phys_to_virt] or [kmap_frame]) the
    code takes to it; console messages are left out. *)

From stdpp Require Import base list.
From Stdlib Require Import ZArith Lia Bool.
From S2P Require Import Prelude.
Open Scope Z_scope.

Module Pmm.

(** ** Constants *)

Definition PMM_FRAME_SIZE : Z := 4096.
Definition PMM_FRAME_SHIFT : Z := 12.
Definition PMM_ALLOC_FAIL : Z := 0.
Definition BUDDY_MAX_ORDER : Z := 13.
Definition BUDDY_FRAME_HARD_CAP : Z := 67108864.         (* 1 << 26 *)
Definition PS_NONE : Z := 255.
Definition PS_USED : Z := 254.
Definition ZONE_DMA_FRAME_LIMIT : Z := 4096.
Definition ZONE_DMA32_FRAME_LIMIT : Z := 1048576.        (* 1 << 20 *)
Definition ZONE_DMA : Z := 0.
Definition ZONE_DMA32 : Z := 1.
Definition ZONE_NORMAL : Z := 2.
Definition ZONE_HIGHMEM : Z := 3.
Definition NR_ZONES : Z := 4.
Definition ZONE_DEFAULT : Z := -1.
Definition PMM_MAX_NODES : Z := 8.
Definition PMM_MAX_RANGES : Z := 16.

(** ** State *)

Record zone := Zone {
  start_pfn : Z; end_pfn : Z;          (* [start, end) *)
  managed : Z; free_frames : Z;        (* uint32_t *)
  free_lists : Z -> Z;                 (* order -> physical address of the head, 0 = empty *)
  nr_at_order : Z -> Z;
  znode : Z; ztype : Z
}.

Record node_range := NodeRange { nr_start : Z; nr_end : Z; nr_node : Z }.

Record pmm := Pmm {
  page_state : Z -> Z;                 (* pfn -> uint8_t *)
  links : Z -> Z -> Z;                 (* slot -> physical address -> word; 0 NEXT, 1 PREV *)
  zones_n : Z -> Z -> zone;            (* node -> zone type -> zone *)
  pmm_nr_frames : Z; pmm_pfn_base : Z; pmm_direct_end_pfn : Z;
  g_nrng : list node_range; g_nr_nodes : Z; g_numa_live : bool; g_numa_committed : bool;
  g_node_hit : Z -> Z; g_node_miss : Z -> Z;
  pmm_deferred_from : Z; bootmem_next : Z; bootmem_end : Z;
  g_reserve_frames : Z; g_low : bool; g_refused : Z
}.

Definition set_free_frames (n : Z) (z : zone) : zone :=
  Zone (start_pfn z) (end_pfn z) (managed z) n (free_lists z) (nr_at_order z) (znode z) (ztype z).
Definition set_managed (n : Z) (z : zone) : zone :=
  Zone (start_pfn z) (end_pfn z) n (free_frames z) (free_lists z) (nr_at_order z) (znode z) (ztype z).
Definition set_list (o head n : Z) (z : zone) : zone :=
  Zone (start_pfn z) (end_pfn z) (managed z) (free_frames z)
       (free_lists z)⟦o ↦ head⟧ (nr_at_order z)⟦o ↦ n⟧ (znode z) (ztype z).

Definition set_page_state (f : Z -> Z) (st : pmm) : pmm :=
  Pmm f (links st) (zones_n st) (pmm_nr_frames st) (pmm_pfn_base st) (pmm_direct_end_pfn st)
      (g_nrng st) (g_nr_nodes st) (g_numa_live st) (g_numa_committed st) (g_node_hit st) (g_node_miss st)
      (pmm_deferred_from st) (bootmem_next st) (bootmem_end st) (g_reserve_frames st) (g_low st) (g_refused st).
Definition set_links (f : Z -> Z -> Z) (st : pmm) : pmm :=
  Pmm (page_state st) f (zones_n st) (pmm_nr_frames st) (pmm_pfn_base st) (pmm_direct_end_pfn st)
      (g_nrng st) (g_nr_nodes st) (g_numa_live st) (g_numa_committed st) (g_node_hit st) (g_node_miss st)
      (pmm_deferred_from st) (bootmem_next st) (bootmem_end st) (g_reserve_frames st) (g_low st) (g_refused st).
Definition set_zone (nd zi : Z) (z : zone) (st : pmm) : pmm :=
  Pmm (page_state st) (links st) (zones_n st)⟦nd ↦ (zones_n st nd)⟦zi ↦ z⟧⟧
      (pmm_nr_frames st) (pmm_pfn_base st) (pmm_direct_end_pfn st)
      (g_nrng st) (g_nr_nodes st) (g_numa_live st) (g_numa_committed st) (g_node_hit st) (g_node_miss st)
      (pmm_deferred_from st) (bootmem_next st) (bootmem_end st) (g_reserve_frames st) (g_low st) (g_refused st).
Definition set_node_stats (hit miss : Z -> Z) (st : pmm) : pmm :=
  Pmm (page_state st) (links st) (zones_n st) (pmm_nr_frames st) (pmm_pfn_base st) (pmm_direct_end_pfn st)
      (g_nrng st) (g_nr_nodes st) (g_numa_live st) (g_numa_committed st) hit miss
      (pmm_deferred_from st) (bootmem_next st) (bootmem_end st) (g_reserve_frames st) (g_low st) (g_refused st).
Definition set_reserve (r : Z) (low : bool) (refused : Z) (st : pmm) : pmm :=
  Pmm (page_state st) (links st) (zones_n st) (pmm_nr_frames st) (pmm_pfn_base st) (pmm_direct_end_pfn st)
      (g_nrng st) (g_nr_nodes st) (g_numa_live st) (g_numa_committed st) (g_node_hit st) (g_node_miss st)
      (pmm_deferred_from st) (bootmem_next st) (bootmem_end st) r low refused.
Definition set_numa (rng : list node_range) (nodes : Z) (live committed : bool) (st : pmm) : pmm :=
  Pmm (page_state st) (links st) (zones_n st) (pmm_nr_frames st) (pmm_pfn_base st) (pmm_direct_end_pfn st)
      rng nodes live committed (g_node_hit st) (g_node_miss st)
      (pmm_deferred_from st) (bootmem_next st) (bootmem_end st) (g_reserve_frames st) (g_low st) (g_refused st).
Definition set_bootmem (next end_ : Z) (st : pmm) : pmm :=
  Pmm (page_state st) (links st) (zones_n st) (pmm_nr_frames st) (pmm_pfn_base st) (pmm_direct_end_pfn st)
      (g_nrng st) (g_nr_nodes st) (g_numa_live st) (g_numa_committed st) (g_node_hit st) (g_node_miss st)
      (pmm_deferred_from st) next end_ (g_reserve_frames st) (g_low st) (g_refused st).
Definition set_deferred (d : Z) (st : pmm) : pmm :=
  Pmm (page_state st) (links st) (zones_n st) (pmm_nr_frames st) (pmm_pfn_base st) (pmm_direct_end_pfn st)
      (g_nrng st) (g_nr_nodes st) (g_numa_live st) (g_numa_committed st) (g_node_hit st) (g_node_miss st)
      d (bootmem_next st) (bootmem_end st) (g_reserve_frames st) (g_low st) (g_refused st).
Definition set_spans (nr base direct : Z) (st : pmm) : pmm :=
  Pmm (page_state st) (links st) (zones_n st) nr base direct
      (g_nrng st) (g_nr_nodes st) (g_numa_live st) (g_numa_committed st) (g_node_hit st) (g_node_miss st)
      (pmm_deferred_from st) (bootmem_next st) (bootmem_end st) (g_reserve_frames st) (g_low st) (g_refused st).

(** ** Small helpers *)

Definition pfn_to_phys (pfn : Z) : Z := u64 (Z.shiftl pfn PMM_FRAME_SHIFT).
Definition phys_to_pfn (p : Z) : Z := u32 (Z.shiftr p PMM_FRAME_SHIFT).

(** [1u << o] *)
Definition bit (o : Z) : Z := u32 (Z.shiftl 1 o).

Definition zone_of_pfn (st : pmm) (pfn : Z) : Z :=
  if (pmm_nr_frames st <=? pfn) || (pfn <? pmm_pfn_base st) then -1
  else if pmm_direct_end_pfn st <=? pfn then ZONE_HIGHMEM
  else if pfn <? ZONE_DMA_FRAME_LIMIT then ZONE_DMA
  else if pfn <? ZONE_DMA32_FRAME_LIMIT then ZONE_DMA32
  else ZONE_NORMAL.

Fixpoint range_node (rs : list node_range) (pfn : Z) : Z :=
  match rs with
  | [] => 0
  | r :: rs' => if (nr_start r <=? pfn) && (pfn <? nr_end r) then nr_node r else range_node rs' pfn
  end.

Definition node_of_pfn (st : pmm) (pfn : Z) : Z :=
  if g_numa_live st then range_node (g_nrng st) pfn else 0.

(** [zone_for_pfn]: the (node, zone type) of a frame, [None] for NULL. *)
Definition zone_for_pfn (st : pmm) (pfn : Z) : option (Z * Z) :=
  let zi := zone_of_pfn st pfn in
  if zi <? 0 then None else Some (node_of_pfn st pfn, zi).

Definition pmm_bootmem_alloc (st : pmm) (bytes : Z) : pmm * Z :=
  let p := Z.land (bootmem_next st + 15) (Z.lnot 15) in
  if (bootmem_end st =? 0) || (bootmem_end st <? p + bytes) then (st, 0)
  else (set_bootmem (p + bytes) (bootmem_end st) st, p).

Fixpoint ceil_log2_loop (fuel : nat) (n v k : Z) : Z :=
  match fuel with
  | O => k
  | S fuel' => if v <? n then ceil_log2_loop fuel' n (u32 (Z.shiftl v 1)) (k + 1) else k
  end.
Definition ceil_log2 (n : Z) : Z := if n <=? 1 then 0 else ceil_log2_loop 32 n 1 0.

(** ** The intrusive free lists *)

Definition frame_is_direct (st : pmm) (phys : Z) : bool :=
  Z.shiftr phys PMM_FRAME_SHIFT <? pmm_direct_end_pfn st.

Definition link_load_at (st : pmm) (phys slot : Z) : Z := links st slot phys.
Definition link_load (st : pmm) (phys : Z) : Z := link_load_at st phys 0.
Definition link_store_at (st : pmm) (phys slot v : Z) : pmm :=
  set_links (links st)⟦slot ↦ (links st slot)⟦phys ↦ v⟧⟧ st.

Definition zone_push (st : pmm) (nd zi pfn order : Z) : pmm :=
  let phys := pfn_to_phys pfn in
  let head := free_lists (zones_n st nd zi) order in
  let st := link_store_at st phys 0 head in
  let st := link_store_at st phys 1 0 in
  let st := if head =? 0 then st else link_store_at st head 1 phys in
  let z := zones_n st nd zi in
  let st := set_zone nd zi (set_list order phys (u32 (nr_at_order z order + 1)) z) st in
  set_page_state (page_state st)⟦pfn ↦ u8 order⟧ st.

(** [None] is -1, "not on this list: refuse". *)
Definition zone_remove (st : pmm) (nd zi pfn order : Z) : option pmm :=
  let target := pfn_to_phys pfn in
  let next := link_load_at st target 0 in
  let prev := link_load_at st target 1 in
  let z := zones_n st nd zi in
  let r :=
    if negb (prev =? 0) then Some (link_store_at st prev 0 next, free_lists z order)
    else if free_lists z order =? target then Some (st, next)
    else None in
  match r with
  | None => None
  | Some (st, head) =>
      let st := if next =? 0 then st else link_store_at st next 1 prev in
      Some (set_zone nd zi (set_list order head (u32 (nr_at_order z order - 1)) z) st)
  end.

Definition zone_pop (st : pmm) (nd zi order : Z) : pmm * Z :=
  let z := zones_n st nd zi in
  let head := free_lists z order in
  if head =? 0 then (st, 0)
  else
    let next := link_load st head in
    let st := if next =? 0 then st else link_store_at st next 1 0 in
    (set_zone nd zi (set_list order next (u32 (nr_at_order z order - 1)) z) st, phys_to_pfn head).

(** ** Buddy core *)

(** [while (o <= BUDDY_MAX_ORDER && z->free_lists[o] == 0) o++;] *)
Fixpoint first_order (fuel : nat) (z : zone) (o : Z) : Z :=
  match fuel with
  | O => o
  | S fuel' =>
      if (o <=? BUDDY_MAX_ORDER) && (free_lists z o =? 0) then first_order fuel' z (o + 1) else o
  end.

(** [while (o > order) { o--; zone_push(z, pfn + (1u << o), o); }] *)
Fixpoint split_down (fuel : nat) (st : pmm) (nd zi pfn o order : Z) : pmm :=
  match fuel with
  | O => st
  | S fuel' =>
      if order <? o then
        split_down fuel' (zone_push st nd zi (u32 (pfn + bit (o - 1))) (o - 1)) nd zi pfn (o - 1) order
      else st
  end.

Definition buddy_alloc_in_zone (st : pmm) (nd zi order : Z) : pmm * Z :=
  if (order <? 0) || (BUDDY_MAX_ORDER <? order) then (st, 0)
  else
    let o := first_order 14 (zones_n st nd zi) order in
    if BUDDY_MAX_ORDER <? o then (st, 0)
    else
      let '(st, pfn) := zone_pop st nd zi o in
      let st := split_down 14 st nd zi pfn o order in
      let span := bit order in
      let st := set_page_state (fill (page_state st) pfn (Z.to_nat span) PS_USED) st in
      let z := zones_n st nd zi in
      (set_zone nd zi (set_free_frames (u32 (free_frames z - span)) z) st, pfn).

(** The coalescing loop: the final block and the state with its buddies taken
    off the lists. *)
Fixpoint coalesce (fuel : nat) (st : pmm) (nd zi pfn order : Z) : pmm * Z * Z :=
  match fuel with
  | O => (st, pfn, order)
  | S fuel' =>
      if order <? BUDDY_MAX_ORDER then
        let buddy := Z.lxor pfn (bit order) in
        let z := zones_n st nd zi in
        if (pmm_nr_frames st <=? buddy) || (buddy <? pmm_pfn_base st) then (st, pfn, order)
        else if (buddy <? start_pfn z) || (end_pfn z <=? buddy) then (st, pfn, order)
        else if g_numa_live st && negb (node_of_pfn st buddy =? znode z) then (st, pfn, order)
        else if negb (page_state st buddy =? u8 order) then (st, pfn, order)
        else match zone_remove st nd zi buddy order with
             | None => (st, pfn, order)
             | Some st' =>
                 coalesce fuel' st' nd zi (if buddy <? pfn then buddy else pfn) (order + 1)
             end
      else (st, pfn, order)
  end.

Definition buddy_free_in_zone (st : pmm) (nd zi pfn order : Z) : pmm :=
  if (order <? 0) || (BUDDY_MAX_ORDER <? order) then st
  else
    let z := zones_n st nd zi in
    let st := set_zone nd zi (set_free_frames (u32 (free_frames z + bit order)) z) st in
    let '(st, pfn, order) := coalesce 14 st nd zi pfn order in
    zone_push st nd zi pfn order.

(** ** Allocation below an address limit *)

(** A free list holds at most one block per frame, so a walk of it
    ([for (cur = head; cur; cur = link_load(cur))]) makes at most
    [pmm_nr_frames] steps. *)
Definition walk_fuel (st : pmm) : nat := Z.to_nat (pmm_nr_frames st).

(** Walk one free list for a block that fits under [limit]; take the first. *)
Fixpoint below_list (walk : nat) (st : pmm) (nd zi order o limit cur : Z) : option (pmm * Z) :=
  match walk with
  | O => None
  | S walk' =>
      if cur =? 0 then None
      else if limit <? cur + Z.shiftl 4096 order - 1
      then below_list walk' st nd zi order o limit (link_load st cur)
      else match zone_remove st nd zi (phys_to_pfn cur) o with
           | None => below_list walk' st nd zi order o limit (link_load st cur)
           | Some st' =>
               (* for (k = o; k > order; k--) zone_push(pfn + (1u << (k-1)), k-1) *)
               Some (split_down 14 st' nd zi (phys_to_pfn cur) o order, cur)
           end
  end.

Fixpoint below_orders (fuel : nat) (walk : nat) (st : pmm) (nd zi order o limit : Z)
    : option (pmm * Z) :=
  match fuel with
  | O => None
  | S fuel' =>
      if BUDDY_MAX_ORDER <? o then None
      else match below_list walk st nd zi order o limit (free_lists (zones_n st nd zi) o) with
           | Some r => Some r
           | None => below_orders fuel' walk st nd zi order (o + 1) limit
           end
  end.

Fixpoint below_zones (walk : nat) (zs : list (Z * Z)) (st : pmm) (order limit : Z) : pmm * Z :=
  match zs with
  | [] => (st, PMM_ALLOC_FAIL)
  | (nd, zi) :: zs' =>
      match below_orders 14 walk st nd zi order order limit with
      | Some r => r
      | None => below_zones walk zs' st order limit
      end
  end.

Definition seqZ0 (n : Z) : list Z := Z.of_nat <$> seq 0 (Z.to_nat n).

(** [for (zn = 0; zn < 3 * g_nr_nodes; zn++)]: DMA of every node, DMA32 of every
    node, NORMAL of every node. *)
Definition page_alloc_below (st : pmm) (order limit : Z) : pmm * Z :=
  if (order <? 0) || (BUDDY_MAX_ORDER <? order) then (st, PMM_ALLOC_FAIL)
  else
    let n := g_nr_nodes st in
    below_zones (walk_fuel st)
      ((fun zn => (zn mod n, nth (Z.to_nat (zn / n)) [ZONE_DMA; ZONE_DMA32; ZONE_NORMAL] 0))
         <$> seqZ0 (3 * n)) st order limit.

(** ** page_alloc / page_free *)

Definition try_order (zone_hint : Z) : list Z :=
  if zone_hint =? ZONE_HIGHMEM then [ZONE_HIGHMEM; ZONE_NORMAL; ZONE_DMA32; ZONE_DMA]
  else if zone_hint =? ZONE_DMA then [ZONE_DMA]
  else if zone_hint =? ZONE_DMA32 then [ZONE_DMA32; ZONE_DMA]
  else [ZONE_NORMAL; ZONE_DMA32; ZONE_DMA].

(** The k-th node to try: the preferred one first, the others in order. *)
Definition nth_node (node k : Z) : Z := if k =? 0 then node else if k <=? node then k - 1 else k.

(** The (node, zone) pairs in the order the two passes try them. *)
Definition try_list (nodes node zone_hint : Z) : list (Z * Z) :=
  pass ← [false; true];
  k ← seqZ0 nodes;
  zi ← filter (fun zi => bool_decide (zi = ZONE_DMA) = pass) (try_order zone_hint);
  [(nth_node node k, zi)].

Fixpoint alloc_first (zs : list (Z * Z)) (st : pmm) (order node : Z) : pmm * Z :=
  match zs with
  | [] => (st, PMM_ALLOC_FAIL)
  | (nd, zi) :: zs' =>
      let '(st', pfn) := buddy_alloc_in_zone st nd zi order in
      if pfn =? 0 then alloc_first zs' st' order node
      else
        let st' :=
          if 1 <? g_nr_nodes st' then
            if nd =? node
            then set_node_stats (g_node_hit st')⟦node ↦ u32 (g_node_hit st' node + 1)⟧ (g_node_miss st') st'
            else set_node_stats (g_node_hit st') (g_node_miss st')⟦node ↦ u32 (g_node_miss st' node + 1)⟧ st'
          else st' in
        (st', pfn_to_phys pfn)
  end.

Definition page_alloc_node (st : pmm) (order zone_hint node : Z) : pmm * Z :=
  let node := if (node <? 0) || (g_nr_nodes st <=? node) then 0 else node in
  if (order <? 0) || (BUDDY_MAX_ORDER <? order) then (st, PMM_ALLOC_FAIL)
  else alloc_first (try_list (g_nr_nodes st) node zone_hint) st order node.

(** [cpu_node] is [this_cpu()->numa_node]. *)
Definition pmm_local_node (st : pmm) (cpu_node : Z) : Z :=
  if g_nr_nodes st <=? 1 then 0
  else if (0 <=? cpu_node) && (cpu_node <? g_nr_nodes st) then cpu_node else 0.

(** [inject] is [alloc_fail_injected()], the fault-injection switch. *)
Definition page_alloc (st : pmm) (inject : bool) (cpu_node order zone_hint : Z) : pmm * Z :=
  if inject then (st, PMM_ALLOC_FAIL)
  else page_alloc_node st order zone_hint (pmm_local_node st cpu_node).

Definition page_free (st : pmm) (phys order : Z) : pmm :=
  if phys =? 0 then st
  else if negb (Z.land phys (PMM_FRAME_SIZE - 1) =? 0) then st
  else
    let pfn := phys_to_pfn phys in
    match zone_for_pfn st pfn with
    | None => st
    | Some (nd, zi) => buddy_free_in_zone st nd zi pfn order
    end.

(** ** Boot: carving, the boot arena, seeding *)

Definition carve_out_range (st : pmm) (start end_ : Z) : pmm :=
  let s := u32 (start / PMM_FRAME_SIZE) in
  let e := u32 (u64 (end_ + PMM_FRAME_SIZE - 1) / PMM_FRAME_SIZE) in
  let e := if pmm_nr_frames st <? e then pmm_nr_frames st else e in
  let s := if s <? pmm_pfn_base st then pmm_pfn_base st else s in
  set_page_state (fill (page_state st) s (Z.to_nat (e - s)) PS_NONE) st.

Definition seed_mark_available (st : pmm) (pfn : Z) : pmm :=
  if (pmm_nr_frames st <=? pfn) || (pfn <? pmm_pfn_base st) then st
  else if page_state st pfn =? PS_NONE
  then set_page_state (page_state st)⟦pfn ↦ PS_USED⟧ st else st.

(** One entry of the boot memory map ([struct mboot_mmap_entry]). *)
Record mmap_entry := MmapEntry { e_size : Z; e_base : Z; e_length : Z; e_type : Z }.
Definition MMAP_TYPE_AVAILABLE : Z := 1.

(** What the boot hands the kernel: the multiboot block (its flags, its
    physical address and size, the map's pointer, physical address and length),
    the bytes of the map read as an entry at an address, the kernel image's
    physical extent, the two answers of the HAL and the width of a pointer. *)
Record boot := Boot {
  mbi_mmap_flag : bool; mbi_phys : Z; mbi_size : Z;
  mmap_p : Z; mmap_ps : Z; mmap_length : Z; entry_at : Z -> mmap_entry;
  kimg_ps : Z; kimg_pe : Z;
  hal_phys_limit : Z; hal_extend_identity_map : Z -> Z; ptr32 : bool
}.

(** [while (p < end && budget-- > 0) { e = *p; body; p += e->size + 4; }] *)
Fixpoint map_walk {A} (budget : nat) (b : boot) (p : Z) (body : mmap_entry -> A -> A) (acc : A) : A :=
  match budget with
  | O => acc
  | S budget' =>
      if p <? u64 (mmap_p b + mmap_length b)
      then let e := entry_at b p in
           map_walk budget' b (u64 (p + e_size e + 4)) body (body e acc)
      else acc
  end.

Definition boot_bad (b : boot) : list (Z * Z) :=
  [ (0, 0x100000); (kimg_ps b, kimg_pe b); (mbi_phys b, u64 (mbi_phys b + mbi_size b));
    (mmap_ps b, u64 (mmap_ps b + mmap_length b)); (0x8000, 0xC000) ].

Definition boot_range_conflicts (b : boot) (s e : Z) : bool :=
  existsb (fun bad => (s <? bad.2) && (bad.1 <? e)) (boot_bad b).

Definition page_up (x : Z) : Z := Z.land (u64 (x + PMM_FRAME_SIZE - 1)) (Z.lnot (PMM_FRAME_SIZE - 1)).

(** [nxt]: past every conflicting range that ends above [rs]. *)
Definition slide (b : boot) (rs : Z) : Z :=
  let cand := [0x100000; kimg_pe b; u64 (mbi_phys b + mbi_size b);
               u64 (mmap_ps b + mmap_length b); 0xC000] in
  page_up (fold_left (fun nxt c => if (rs <? c) && (nxt <? c) then c else nxt) cand
             (u64 (rs + PMM_FRAME_SIZE))).

Fixpoint slide_loop (tries : nat) (b : boot) (rs re size : Z) : option Z :=
  match tries with
  | O => None
  | S tries' =>
      if u64 (rs + size) <=? re then
        if negb (boot_range_conflicts b rs (u64 (rs + size))) then Some rs
        else slide_loop tries' b (slide b rs) re size
      else None
  end.

(** One entry of the walk of [bootmem_reserve]; [acc] is an earlier entry's
    answer, which has already been returned. *)
Definition reserve_entry (b : boot) (covered size : Z) (e : mmap_entry) (acc : option Z) : option Z :=
  match acc with
  | Some base => Some base
  | None =>
      if negb (e_type e =? MMAP_TYPE_AVAILABLE) then None
      else
        let re := u64 (e_base e + e_length e) in
        slide_loop 8 b (page_up (e_base e)) (if covered <? re then covered else re) size
  end.

Definition bootmem_reserve (b : boot) (covered size : Z) : Z :=
  default 0 (map_walk 64 b (mmap_p b) (reserve_entry b covered size) None).

(** The end of the run of usable frames of one zone and node from [run_end]. *)
Fixpoint run_end_loop (fuel : nat) (st : pmm) (z : zone) (to run_end : Z) : Z :=
  match fuel with
  | O => run_end
  | S fuel' =>
      if (run_end <? end_pfn z) && (run_end <? to) && (page_state st run_end =? PS_USED)
         && (node_of_pfn st run_end =? znode z)
      then run_end_loop fuel' st z to (run_end + 1) else run_end
  end.

(** The largest order aligned at [pfn] whose block fits below [run_end]. *)
Fixpoint seed_order (order : nat) (pfn run_end : Z) : Z :=
  match order with
  | O => 0
  | S order' =>
      let sz := bit (Z.of_nat order) in
      if (Z.land pfn (sz - 1) =? 0) && (u32 (pfn + sz) <=? run_end) then Z.of_nat order
      else seed_order order' pfn run_end
  end.

Definition seed_block (st : pmm) (nd zi pfn order : Z) : pmm :=
  let st := zone_push st nd zi pfn order in
  let z := zones_n st nd zi in
  set_zone nd zi (set_managed (u32 (managed z + bit order))
                    (set_free_frames (u32 (free_frames z + bit order)) z)) st.

Fixpoint cover_run (fuel : nat) (st : pmm) (nd zi pfn run_end freed : Z) : pmm * Z * Z :=
  match fuel with
  | O => (st, pfn, freed)
  | S fuel' =>
      if pfn <? run_end then
        let order := seed_order 13 pfn run_end in
        cover_run fuel' (seed_block st nd zi pfn order) nd zi
          (u32 (pfn + bit order)) run_end (u32 (freed + bit order))
      else (st, pfn, freed)
  end.

Fixpoint seed_loop (fuel : nat) (st : pmm) (pfn to freed : Z) : pmm * Z :=
  match fuel with
  | O => (st, freed)
  | S fuel' =>
      if pfn <? to then
        if negb (page_state st pfn =? PS_USED) then seed_loop fuel' st (pfn + 1) to freed
        else match zone_for_pfn st pfn with
             | None => seed_loop fuel' st (pfn + 1) to freed
             | Some (nd, zi) =>
                 let n := Z.to_nat (to - pfn) in
                 let run_end := run_end_loop n st (zones_n st nd zi) to pfn in
                 let '(st', pfn', freed') := cover_run n st nd zi pfn run_end freed in
                 seed_loop fuel' st' pfn' to freed'
             end
      else (st, freed)
  end.

(** Every pass of the loop advances [pfn], so [to - from] passes are enough. *)
Definition seed_range (st : pmm) (from to : Z) : pmm * Z :=
  seed_loop (Z.to_nat (to - from)) st from to 0.

Definition pmm_seed_deferred (st : pmm) : pmm :=
  if pmm_nr_frames st <=? pmm_deferred_from st then st
  else set_deferred (pmm_nr_frames st) (seed_range st (pmm_deferred_from st) (pmm_nr_frames st)).1.

(** The zone bounds [pmm_init] gives every node. *)
Definition zone_start (st : pmm) (zi : Z) : Z :=
  if zi =? ZONE_DMA then 0
  else if zi =? ZONE_DMA32 then ZONE_DMA_FRAME_LIMIT
  else if zi =? ZONE_NORMAL then ZONE_DMA32_FRAME_LIMIT
  else pmm_direct_end_pfn st.
Definition zone_end (st : pmm) (zi : Z) : Z :=
  if zi =? ZONE_DMA then ZONE_DMA_FRAME_LIMIT
  else if zi =? ZONE_DMA32 then
    (if pmm_direct_end_pfn st <? ZONE_DMA32_FRAME_LIMIT then pmm_direct_end_pfn st else ZONE_DMA32_FRAME_LIMIT)
  else if zi =? ZONE_NORMAL then
    (if ZONE_DMA32_FRAME_LIMIT <? pmm_direct_end_pfn st then pmm_direct_end_pfn st else ZONE_DMA32_FRAME_LIMIT)
  else pmm_nr_frames st.

Definition setup_zones (st : pmm) : pmm :=
  let zs := fun nd zi =>
    let z := zones_n st nd zi in
    if (0 <=? nd) && (nd <? PMM_MAX_NODES) && (0 <=? zi) && (zi <? NR_ZONES)
    then Zone (zone_start st zi) (zone_end st zi) (managed z) (free_frames z) (free_lists z)
              (nr_at_order z) nd zi
    else z in
  Pmm (page_state st) (links st) zs (pmm_nr_frames st) (pmm_pfn_base st) (pmm_direct_end_pfn st)
      (g_nrng st) (g_nr_nodes st) (g_numa_live st) (g_numa_committed st) (g_node_hit st) (g_node_miss st)
      (pmm_deferred_from st) (bootmem_next st) (bootmem_end st) (g_reserve_frames st) (g_low st) (g_refused st).

(** The highest and lowest available addresses: [(max_phys, min_phys)]. *)
Definition scan_extent (b : boot) : Z * Z :=
  map_walk 64 b (mmap_p b)
    (fun e '(mx, mn) =>
       if e_type e =? MMAP_TYPE_AVAILABLE then
         let hi := u64 (e_base e + e_length e) in
         let hi := if hal_phys_limit b <? hi then hal_phys_limit b else hi in
         (if mx <? hi then hi else mx,
          if negb (e_length e =? 0) && (e_base e <? mn) then e_base e else mn)
       else (mx, mn)) (0, 2 ^ 64 - 1).

Fixpoint mark_range (n : nat) (st : pmm) (i : Z) : pmm :=
  match n with
  | O => st
  | S n' => mark_range n' (seed_mark_available st i) (i + 1)
  end.

(** Pass 1 on one entry: tag the available frames [PS_USED]. *)
Definition mark_entry (e : mmap_entry) (st : pmm) : pmm :=
  if e_type e =? MMAP_TYPE_AVAILABLE then
    let top := pmm_nr_frames st * PMM_FRAME_SIZE in
    if top <=? e_base e then st
    else
      let len := if top <? u64 (e_base e + e_length e) then top - e_base e else e_length e in
      let first := u32 (u64 (e_base e + PMM_FRAME_SIZE - 1) / PMM_FRAME_SIZE) in
      let last := u32 (u64 (e_base e + len) / PMM_FRAME_SIZE) in
      let last := if pmm_nr_frames st <? last then pmm_nr_frames st else last in
      mark_range (Z.to_nat (last - first)) st first
  else st.

(** Pass 2 (a0) on one entry: a reservation wins over an available entry. *)
Definition carve_entry (e : mmap_entry) (st : pmm) : pmm :=
  if negb (e_type e =? MMAP_TYPE_AVAILABLE) && negb (e_length e =? 0)
  then carve_out_range st (e_base e) (u64 (e_base e + e_length e)) else st.

(** Pass 2 (a)-(f): the protected regions. *)
Definition carve_protected (b : boot) (arena_base arena : Z) (st : pmm) : pmm :=
  let st := if pmm_pfn_base st =? 0 then set_page_state (page_state st)⟦0 ↦ PS_NONE⟧ st else st in
  let st := carve_out_range st 0 0x100000 in
  let st := carve_out_range st (kimg_ps b) (kimg_pe b) in
  let st := carve_out_range st (mbi_phys b) (u64 (mbi_phys b + mbi_size b)) in
  let st := carve_out_range st (mmap_ps b) (u64 (mmap_ps b + mmap_length b)) in
  let st := carve_out_range st 0x8000 0xC000 in
  carve_out_range st arena_base (u64 (arena_base + arena)).

(** The frame span: [(covered, nr_frames, pfn_base, direct_end)]. *)
Definition frame_span (b : boot) : Z * Z * Z * Z :=
  let '(max_phys, min_phys) := scan_extent b in
  let covered := hal_extend_identity_map b max_phys in
  let covered := if max_phys <? covered then max_phys else covered in
  let min_phys := if (min_phys =? 2 ^ 64 - 1) || (min_phys <? 2 ^ 30) then 0 else min_phys in
  let base := u32 (Z.land min_phys (Z.lnot (2 ^ 30 - 1)) / PMM_FRAME_SIZE) in
  let nr := u32 (max_phys / PMM_FRAME_SIZE) in
  let nr := if BUDDY_FRAME_HARD_CAP <? u32 (nr - base) then u32 (base + BUDDY_FRAME_HARD_CAP) else nr in
  let direct := u32 (covered / PMM_FRAME_SIZE) in
  (covered, nr, base, if nr <? direct then nr else direct).

(** [None]: no usable multiboot map; the PMM stays disabled. *)
Definition pmm_init (b : option boot) (st : pmm) : pmm :=
  match b with
  | None => st
  | Some b =>
      if negb (mbi_mmap_flag b) || (mmap_length b =? 0) then st
      else
        let '(covered, nr, base, direct) := frame_span b in
        let st := set_spans nr base direct st in
        let arena := u32 (u32 (nr - base) * 4 + PMM_FRAME_SIZE) in
        let arena_base := bootmem_reserve b covered arena in
        if arena_base =? 0 then set_spans 0 base direct st
        else
          let st := set_bootmem arena_base (u64 (arena_base + arena)) st in
          let '(st, ps) := pmm_bootmem_alloc st (u32 (nr - base)) in
          if ps =? 0 then set_spans 0 base direct st
          else
            let st := setup_zones st in
            let st := set_page_state (fill (page_state st) base (Z.to_nat (nr - base)) PS_NONE) st in
            let st := map_walk 64 b (mmap_p b) mark_entry st in
            let st := map_walk 64 b (mmap_p b) carve_entry st in
            let st := carve_protected b arena_base arena st in
            let seed_to := if ptr32 b && (2 ^ 20 <? nr) then 2 ^ 20 else nr in
            set_deferred seed_to (seed_range st base seed_to).1
  end.

(** ** Statistics, the reserve, the wrappers *)

Definition sum_zones (st : pmm) (free : bool) : Z :=
  fold_left (fun t nz => u32 (t + (let z := zones_n st nz.1 nz.2 in
                                   if free then free_frames z else managed z)))
    (nd ← seqZ0 (g_nr_nodes st); zi ← seqZ0 NR_ZONES; [(nd, zi)]) 0.
Definition pmm_managed_frames (st : pmm) : Z := sum_zones st false.
Definition pmm_free_frames (st : pmm) : Z := sum_zones st true.
Definition pmm_used_frames (st : pmm) : Z := u32 (pmm_managed_frames st - pmm_free_frames st).

Definition pmm_frame_is_managed (st : pmm) (phys : Z) : bool :=
  let pfn := phys_to_pfn phys in
  (pmm_pfn_base st <=? pfn) && (pfn <? pmm_nr_frames st) && negb (page_state st pfn =? PS_NONE).

Definition pmm_node_of (st : pmm) (phys : Z) : Z := node_of_pfn st (phys_to_pfn phys).

(** [cfg] is [config_get_long("mem.reserve_kb", 4096)]; [-1] means "not read". *)
Definition reserve_frames (st : pmm) (cfg : Z) : pmm * Z :=
  if g_reserve_frames st <? 0 then
    let r := s32 ((if cfg <? 0 then 0 else cfg) / 4) in
    (set_reserve r (g_low st) (g_refused st) st, r)
  else (st, g_reserve_frames st).

Definition reserve_allows (st : pmm) (cfg n : Z) : pmm * bool :=
  let fr := pmm_free_frames st in
  let '(st, r) := reserve_frames st cfg in
  let r := u32 r in
  if u32 (r + n) <=? fr then
    (if g_low st && (u32 (r + r / 4 + 64) <? fr)
     then set_reserve (g_reserve_frames st) false (g_refused st) st else st, true)
  else (set_reserve (g_reserve_frames st) true (u32 (g_refused st + 1)) st, false).

Definition pmm_reserve_changed (st : pmm) : pmm := set_reserve (-1) (g_low st) (g_refused st) st.

(** The environment of one allocation: the injected failure, the CPU's node,
    the reserve's configuration value. *)
Record aenv := AEnv { inject : bool; cpu_node : Z; reserve_kb : Z }.

Definition pmm_alloc_frame (st : pmm) (a : aenv) : pmm * Z :=
  page_alloc st (inject a) (cpu_node a) 0 ZONE_DEFAULT.
Definition pmm_alloc_frame_dma32 (st : pmm) (a : aenv) : pmm * Z :=
  page_alloc st (inject a) (cpu_node a) 0 ZONE_DMA32.

Definition pmm_alloc_frame_user (st : pmm) (a : aenv) : pmm * Z :=
  let '(st, ok) := reserve_allows st (reserve_kb a) 1 in
  if ok then page_alloc st (inject a) (cpu_node a) 0 ZONE_HIGHMEM else (st, PMM_ALLOC_FAIL).
Definition pmm_alloc_frame_user_low (st : pmm) (a : aenv) : pmm * Z :=
  let '(st, ok) := reserve_allows st (reserve_kb a) 1 in
  if ok then page_alloc st (inject a) (cpu_node a) 0 ZONE_DEFAULT else (st, PMM_ALLOC_FAIL).

Definition pmm_alloc_contiguous (st : pmm) (a : aenv) (n : Z) : pmm * Z :=
  if n =? 0 then (st, PMM_ALLOC_FAIL)
  else if n =? 1 then page_alloc st (inject a) (cpu_node a) 0 ZONE_DEFAULT
  else
    let order := ceil_log2 n in
    if BUDDY_MAX_ORDER <? order then (st, PMM_ALLOC_FAIL)
    else page_alloc st (inject a) (cpu_node a) order ZONE_DEFAULT.

Definition pmm_alloc_contiguous_dma (st : pmm) (a : aenv) (n addr_bits : Z) : pmm * Z :=
  if n =? 0 then (st, PMM_ALLOC_FAIL)
  else
    let order := ceil_log2 n in
    if BUDDY_MAX_ORDER <? order then (st, PMM_ALLOC_FAIL)
    else page_alloc st (inject a) (cpu_node a) order (if 32 <? addr_bits then ZONE_NORMAL else ZONE_DMA32).

Definition pmm_alloc_contiguous_dma32 (st : pmm) (a : aenv) (n : Z) : pmm * Z :=
  if n =? 0 then (st, PMM_ALLOC_FAIL)
  else
    let order := ceil_log2 n in
    if BUDDY_MAX_ORDER <? order then (st, PMM_ALLOC_FAIL)
    else page_alloc st (inject a) (cpu_node a) order ZONE_DMA32.

Definition pmm_free_contiguous (st : pmm) (addr n : Z) : pmm :=
  if (addr =? PMM_ALLOC_FAIL) || (n =? 0) then st
  else
    let order := ceil_log2 n in
    if BUDDY_MAX_ORDER <? order then st else page_free st addr order.

(** [owned] is [pcache_owns_frame]: a frame the page cache holds is not freed. *)
Definition pmm_free_frame (owned : Z -> bool) (st : pmm) (addr : Z) : pmm :=
  if owned addr then st else page_free st addr 0.

(** ** NUMA *)

(** The state and the return value. *)
Definition pmm_numa_add_range (st : pmm) (base len node : Z) : pmm * Z :=
  if g_numa_committed st || (node <? 0) || (PMM_MAX_NODES <=? node) || (len =? 0) then (st, -1)
  else if Z.of_nat (length (g_nrng st)) =? PMM_MAX_RANGES then (st, -1)
  else
    let s := base / PMM_FRAME_SIZE in
    let e := u64 (base + len) / PMM_FRAME_SIZE in
    if pmm_nr_frames st <=? s then (st, 0)
    else
      let e := if pmm_nr_frames st <? e then pmm_nr_frames st else e in
      if e <=? s then (st, 0)
      else (set_numa (g_nrng st ++ [NodeRange (u32 s) (u32 e) node]) (g_nr_nodes st)
              (g_numa_live st) (g_numa_committed st) st, 0).

(** [None] is -1: a range boundary falls inside the block. *)
Definition block_node (st : pmm) (pfn order : Z) : option Z :=
  let e := u32 (pfn + bit order) in
  if existsb (fun r => ((pfn <? nr_start r) && (nr_start r <? e))
                       || ((pfn <? nr_end r) && (nr_end r <? e))) (g_nrng st)
  then None else Some (node_of_pfn st pfn).

(** [rehome_block] by recursion on the order; a single frame never straddles. *)
Fixpoint rehome_block (order : nat) (st : pmm) (zi pfn : Z) : pmm :=
  let o := Z.of_nat order in
  match block_node st pfn o, order with
  | Some nd, _ =>
      let st := zone_push st nd zi pfn o in
      let z := zones_n st nd zi in
      set_zone nd zi (set_free_frames (u32 (free_frames z + bit o)) z) st
  | None, S order' =>
      rehome_block order' (rehome_block order' st zi pfn) zi (u32 (pfn + bit (o - 1)))
  | None, O => st
  end.

Fixpoint rehome_list (walk : nat) (order : nat) (st : pmm) (zi cur : Z) : pmm :=
  match walk with
  | O => st
  | S walk' =>
      if cur =? 0 then st
      else
        let next := link_load st cur in
        rehome_list walk' order (rehome_block order st zi (phys_to_pfn cur)) zi next
  end.

(** One zone type of node 0: empty its lists, then re-home every block. *)
Definition rehome_zone (top : Z) (st : pmm) (zi : Z) : pmm :=
  let z0 := zones_n st 0 zi in
  let heads := free_lists z0 in
  let z0' := Zone (start_pfn z0) (end_pfn z0) (managed z0) 0 (fun _ => 0) (fun _ => 0) (znode z0) (ztype z0) in
  let st := set_numa (g_nrng st) (top + 1) (g_numa_live st) (g_numa_committed st) (set_zone 0 zi z0' st) in
  fold_left (fun st o => rehome_list (walk_fuel st) o st zi (heads (Z.of_nat o))) (seq 0 14) st.

Definition recount (st : pmm) : pmm :=
  let cleared := fold_left (fun st nz => set_zone nz.1 nz.2 (set_managed 0 (zones_n st nz.1 nz.2)) st)
    (nd ← seqZ0 (g_nr_nodes st); zi ← seqZ0 NR_ZONES; [(nd, zi)]) st in
  fold_left (fun st i =>
      let pfn := pmm_pfn_base st + i in
      if page_state st pfn =? PS_NONE then st
      else match zone_for_pfn st pfn with
           | None => st
           | Some (nd, zi) =>
               let z := zones_n st nd zi in set_zone nd zi (set_managed (u32 (managed z + 1)) z) st
           end)
    (seqZ0 (pmm_nr_frames st - pmm_pfn_base st)) cleared.

Definition pmm_numa_commit (st : pmm) : pmm :=
  if g_numa_committed st then st
  else
    let st := set_numa (g_nrng st) (g_nr_nodes st) (g_numa_live st) true st in
    let top := fold_left (fun t r => if t <? nr_node r then nr_node r else t) (g_nrng st) 0 in
    if (Z.of_nat (length (g_nrng st)) =? 0) || (top =? 0)
    then set_numa [] (g_nr_nodes st) (g_numa_live st) true st
    else
      let st := set_numa (g_nrng st) (g_nr_nodes st) true true st in
      recount (fold_left (rehome_zone top) (seqZ0 NR_ZONES) st).

(** ** The self-check *)

(** The walk of one list: [true] is "consistent so far". *)
Fixpoint validate_list (walk : nat) (st : pmm) (z : zone) (o cur prev walked : Z) : bool :=
  match walk with
  | O => false
  | S walk' =>
      if cur =? 0 then walked =? nr_at_order z o
      else if negb (Z.land cur (PMM_FRAME_SIZE - 1) =? 0) then false
      else
        let pfn := phys_to_pfn cur in
        if (pmm_nr_frames st <=? pfn) || (pfn <? pmm_pfn_base st) then false
        else if negb (node_of_pfn st pfn =? znode z) then false
        else if negb (page_state st pfn =? u8 o) then false
        else if negb (link_load_at st cur 1 =? prev) then false
        else if u32 (nr_at_order z o + 4) <? walked + 1 then false
        else validate_list walk' st z o (link_load st cur) cur (walked + 1)
  end.

(** Whether [pmm_validate] reports every list consistent.  The walk is bounded
    by the list's count plus 4 by the check itself. *)
Definition pmm_validate (st : pmm) : bool :=
  forallb (fun nz : Z * Z =>
    let z := zones_n st nz.1 nz.2 in
    forallb (fun o => validate_list (S (S (Z.to_nat (u32 (nr_at_order z o + 4))))) st z o (free_lists z o) 0 0)
      (seqZ0 14))
    (nd ← seqZ0 (g_nr_nodes st); zi ← seqZ0 NR_ZONES; [(nd, zi)]).
End Pmm.
