(* ===== verification/PmmInv.v ===== *)
(** * The buddy allocator of kernel/mem/pmm.c: invariant and correctness

    [dll] relates the link words of the free frames to a list of frames;
    [zinv] is the invariant of one zone: its fourteen lists are doubly linked,
    hold aligned, disjoint blocks of frames the zone owns, tagged with their
    order, and no two free buddies of one order are left unmerged.  Frames "in
    hand" (taken off the lists in the middle of an operation) are a parameter
    of the invariant, so that the loops of split and coalesce have one. *)

From stdpp Require Import base list sets.
From Stdlib Require Import ZArith Lia Bool.
From S2P Require Import Prelude Pmm.
Import Pmm.
Open Scope Z_scope.

Module PmmInv.

(** ** Blocks *)

Definition covers (o p f : Z) : Prop := p <= f < p + 2 ^ o.

Lemma pow2_pos o : 0 <= o -> 0 < 2 ^ o.
Proof. intros. apply Z.pow_pos_nonneg; lia. Qed.
Lemma pow2_S o : 0 <= o -> 2 ^ (o + 1) = 2 * 2 ^ o.
Proof. intros. rewrite Z.pow_add_r by lia. lia. Qed.
Lemma pow2_le13 o : 0 <= o <= 13 -> 1 <= 2 ^ o <= 8192.
Proof.
  intros. split; [pose proof (pow2_pos o); lia|].
  change 8192 with (2 ^ 13). apply Z.pow_le_mono_r; lia.
Qed.

Lemma bit_pow o : 0 <= o <= 13 -> bit o = 2 ^ o.
Proof.
  intros. unfold bit. rewrite Z.shiftl_mul_pow2 by lia.
  pose proof (pow2_le13 o). rewrite u32_small; lia.
Qed.

(** A multiple of [2^o'] strictly inside a [2^o']-aligned block does not exist. *)
Lemma aligned_inside p b m : 0 < m -> p mod m = 0 -> b mod m = 0 -> p <= b < p + m -> b = p.
Proof.
  intros Hm [i ->]%Z.mod_divide [j ->]%Z.mod_divide H; [|lia..].
  assert (i <= j) by nia. assert (j < i + 1) by nia. f_equal. lia.
Qed.

Lemma mod_pow_le p o o' : 0 <= o <= o' -> p mod 2 ^ o' = 0 -> p mod 2 ^ o = 0.
Proof.
  intros Ho H. apply Z.mod_divide in H; [|pose proof (pow2_pos o'); lia].
  apply Z.mod_divide; [pose proof (pow2_pos o); lia|].
  etrans; [|done]. exists (2 ^ (o' - o)). rewrite <- Z.pow_add_r by lia. f_equal; lia.
Qed.

(** Aligned blocks nest: a smaller one that meets a larger one lies inside it. *)
Lemma nested k m o q f g :
  0 <= k <= o -> m mod 2 ^ k = 0 -> q mod 2 ^ o = 0 ->
  covers k m f -> covers o q f -> covers k m g -> covers o q g.
Proof.
  unfold covers. intros Ho Hm Hq Hf Hf' Hg.
  pose proof (pow2_pos k ltac:(lia)) as H2. pose proof (mod_pow_le q k o Ho Hq) as Hq'.
  assert (2 ^ o mod 2 ^ k = 0) as Hpow.
  { replace o with (o - k + k) by lia. rewrite Z.pow_add_r by lia. apply Z.mod_mul. lia. }
  apply Z.mod_divide in Hq' as [i Hi]; [|lia]. apply Z.mod_divide in Hpow as [j Hj]; [|lia].
  apply Z.mod_divide in Hm as [n Hn]; [|lia]. rewrite Hi, Hj, Hn in *.
  set (M := 2 ^ k) in *. assert (i <= n) by nia. assert (n + 1 <= i + j) by nia. nia.
Qed.

Lemma mod_double p o : 0 <= o -> p mod 2 ^ o = 0 ->
  p mod 2 ^ (o + 1) = 0 \/ p mod 2 ^ (o + 1) = 2 ^ o.
Proof.
  intros Ho H. pose proof (pow2_pos o Ho). rewrite pow2_S by lia.
  pose proof (Z.mod_pos_bound p (2 * 2 ^ o) ltac:(lia)).
  assert ((p mod (2 * 2 ^ o)) mod 2 ^ o = 0) as Hm.
  { rewrite <- H. rewrite (Z.div_mod p (2 * 2 ^ o)) at 2 by lia.
    replace (2 * 2 ^ o * (p / (2 * 2 ^ o)) + p mod (2 * 2 ^ o))
      with (p mod (2 * 2 ^ o) + (2 * (p / (2 * 2 ^ o))) * 2 ^ o) by lia.
    by rewrite Z.mod_add by lia. }
  destruct (decide (p mod (2 * 2 ^ o) < 2 ^ o)).
  - left. rewrite Z.mod_small in Hm; lia.
  - right. assert ((p mod (2 * 2 ^ o) - 2 ^ o) mod 2 ^ o = 0) as Hm'.
    { rewrite <- (Z.mod_add _ 1) by lia.
      replace (p mod (2 * 2 ^ o) - 2 ^ o + 1 * 2 ^ o) with (p mod (2 * 2 ^ o)) by lia. done. }
    rewrite Z.mod_small in Hm'; lia.
Qed.

(** The buddy address [pfn ^ (1 << order)] of an aligned block. *)
Lemma lxor_low p o : 0 <= o -> 0 <= p -> p mod 2 ^ (o + 1) = 0 -> Z.lxor p (2 ^ o) = p + 2 ^ o.
Proof.
  intros Ho Hp H. rewrite <- Z.add_nocarry_lxor; [done|].
  apply Z.bits_inj'. intros k Hk. rewrite Z.land_spec, Z.bits_0, Z.pow2_bits_eqb by lia.
  destruct (Z.eqb_spec o k) as [<-|]; [|by rewrite andb_false_r].
  rewrite andb_true_r, <- (Z.mod_pow2_bits_low p (o + 1)), H by lia. apply Z.bits_0.
Qed.

Lemma lxor_high p o : 0 <= o -> 0 <= p -> p mod 2 ^ (o + 1) = 2 ^ o -> Z.lxor p (2 ^ o) = p - 2 ^ o.
Proof.
  intros Ho Hp H. pose proof (pow2_pos o Ho).
  assert (2 ^ o <= p) as Hge.
  { pose proof (Z.mod_le p (2 ^ (o + 1)) Hp ltac:(apply pow2_pos; lia)). lia. }
  assert ((p - 2 ^ o) mod 2 ^ (o + 1) = 0) as Hlow.
  { rewrite Zminus_mod, H. rewrite (Z.mod_small (2 ^ o)), Z.sub_diag; [done|].
    rewrite pow2_S by lia. lia. }
  pose proof (lxor_low (p - 2 ^ o) o Ho ltac:(lia) Hlow) as E.
  replace (p - 2 ^ o + 2 ^ o) with p in E by lia.
  rewrite <- E at 1. by rewrite Z.lxor_assoc, Z.lxor_nilpotent, Z.lxor_0_r.
Qed.

(** A block and its buddy make the block of the next order. *)
Lemma buddy_cases p o : 0 <= o -> 0 <= p -> p mod 2 ^ o = 0 ->
  let b := Z.lxor p (2 ^ o) in
  let m := if b <? p then b else p in
  0 <= b /\ b mod 2 ^ o = 0 /\ m mod 2 ^ (o + 1) = 0 /\ Z.min p b = m /\
  (forall f, covers (o + 1) m f <-> covers o p f \/ covers o b f) /\
  (forall f, ~ (covers o p f /\ covers o b f)) /\ Z.lxor b (2 ^ o) = p.
Proof.
  intros Ho Hp Ha b m. pose proof (pow2_pos o Ho) as H2. unfold covers. rewrite pow2_S by lia.
  assert (Z.lxor b (2 ^ o) = p) as Hinv.
  { unfold b. by rewrite Z.lxor_assoc, Z.lxor_nilpotent, Z.lxor_0_r. }
  destruct (mod_double p o Ho Ha) as [H|H].
  - assert (b = p + 2 ^ o) as Eb by (by apply lxor_low).
    assert (m = p) as -> by (unfold m; destruct (Z.ltb_spec b p); lia).
    rewrite Eb in *. rewrite pow2_S in H by lia.
    rewrite <- (Z.mul_1_l (2 ^ o)) at 2. rewrite Z.mod_add by lia.
    repeat split; try done; try lia.
  - assert (b = p - 2 ^ o) as Eb by (by apply lxor_high).
    assert (2 ^ o <= p).
    { pose proof (Z.mod_le p (2 ^ (o + 1)) Hp ltac:(apply pow2_pos; lia)). lia. }
    assert (m = b) as -> by (unfold m; destruct (Z.ltb_spec b p); lia).
    rewrite Eb in *. assert ((p - 2 ^ o) mod 2 ^ o = 0) as Hb.
    { rewrite <- (Z.mod_add _ 1) by lia. by replace (p - 2 ^ o + 1 * 2 ^ o) with p by lia. }
    assert ((p - 2 ^ o) mod (2 * 2 ^ o) = 0) as Hlow.
    { rewrite Zminus_mod. rewrite pow2_S in H by lia. rewrite H.
      rewrite (Z.mod_small (2 ^ o)), Z.sub_diag; [done|lia]. }
    repeat split; try done; try lia.
Qed.

Lemma pfn_to_phys_mul p : 0 <= p < 2 ^ 32 -> pfn_to_phys p = p * 4096.
Proof.
  intros. unfold pfn_to_phys, PMM_FRAME_SHIFT. rewrite Z.shiftl_mul_pow2 by lia.
  rewrite u64_small; lia.
Qed.
Lemma phys_to_pfn_to_phys p : 0 <= p < 2 ^ 32 -> phys_to_pfn (pfn_to_phys p) = p.
Proof.
  intros. rewrite pfn_to_phys_mul by done. unfold phys_to_pfn, PMM_FRAME_SHIFT.
  rewrite Z.shiftr_div_pow2 by lia. change (2 ^ 12) with 4096.
  rewrite Z.div_mul by lia. apply u32_small. lia.
Qed.

Lemma phys_to_pfn_mul p : 0 <= p < 2 ^ 32 -> phys_to_pfn (p * 4096) = p.
Proof. intros. rewrite <- pfn_to_phys_mul by done. by apply phys_to_pfn_to_phys. Qed.

(** ** Doubly linked lists through the frames *)

Fixpoint dll (lk : Z -> Z -> Z) (prev : Z) (l : list Z) (head : Z) : Prop :=
  match l with
  | [] => head = 0
  | p :: l' => head = p * 4096 /\ lk 1 head = prev /\ dll lk head l' (lk 0 head)
  end.

Definition hdp (l : list Z) : Z := match l with [] => 0 | p :: _ => p * 4096 end.

Lemma dll_head lk prev l head : dll lk prev l head -> head = hdp l.
Proof. destruct l; cbn; naive_solver. Qed.

Lemma dll_frame lk lk' prev l head :
  (forall s p, p ∈ l -> (s = 0 \/ s = 1) -> lk' s (p * 4096) = lk s (p * 4096)) ->
  dll lk prev l head -> dll lk' prev l head.
Proof.
  revert prev head. induction l as [|p l IH]; intros prev head Hlk; [done|].
  cbn [dll]. intros (-> & H1 & H2).
  rewrite (Hlk 1 p), (Hlk 0 p) by (set_solver || auto). repeat split; try done.
  apply IH; [|done]. intros. apply Hlk; [set_solver|done].
Qed.

(** Link [target] out: its predecessor's next and its successor's prev. *)
Definition unlink (lk : Z -> Z -> Z) (next prev : Z) : Z -> Z -> Z :=
  let lk := if prev =? 0 then lk else lk⟦0 ↦ (lk 0)⟦prev ↦ next⟧⟧ in
  if next =? 0 then lk else lk⟦1 ↦ (lk 1)⟦next ↦ prev⟧⟧.

Lemma unlink_slot0 lk next prev x :
  unlink lk next prev 0 x = if (negb (prev =? 0)) && (x =? prev) then next else lk 0 x.
Proof.
  unfold unlink, upd.
  destruct (Z.eqb_spec next 0), (Z.eqb_spec prev 0); cbn; done.
Qed.
Lemma unlink_slot1 lk next prev x :
  unlink lk next prev 1 x = if (negb (next =? 0)) && (x =? next) then prev else lk 1 x.
Proof.
  unfold unlink, upd.
  destruct (Z.eqb_spec next 0), (Z.eqb_spec prev 0); cbn; done.
Qed.

Lemma dll_at lk prev l1 p l2 head :
  dll lk prev (l1 ++ p :: l2) head ->
  lk 0 (p * 4096) = hdp l2 /\ lk 1 (p * 4096) = match last l1 with None => prev | Some q => q * 4096 end.
Proof.
  revert prev head. induction l1 as [|a l1 IH]; intros prev head; cbn [dll app].
  - intros (-> & H1 & H2). split; [by eapply dll_head|done].
  - intros (-> & H1 & H2). apply IH in H2 as [E1 E2]. split; [done|].
    rewrite E2. rewrite last_cons. by destruct (last l1).
Qed.

Lemma dll_unlink lk l1 p l2 prev head :
  NoDup (l1 ++ p :: l2) -> Forall (fun q => 0 < q) (l1 ++ p :: l2) ->
  (prev = 0 \/ exists r, 0 < r /\ prev = r * 4096 /\ r ∉ l1 ++ p :: l2) ->
  dll lk prev (l1 ++ p :: l2) head ->
  dll (unlink lk (lk 0 (p * 4096)) (lk 1 (p * 4096))) prev (l1 ++ l2)
      (if decide (l1 = []) then lk 0 (p * 4096) else head).
Proof.
  intros Hnd Hpos Hprev Hd. destruct (dll_at _ _ _ _ _ _ Hd) as [E0 E1].
  rewrite E0, E1. revert prev head Hnd Hpos Hprev Hd E1.
  induction l1 as [|a l1 IH]; intros prev head Hnd Hpos Hprev Hd E1.
  - cbn [app] in *. rewrite decide_True by done. cbn [last]. destruct Hd as (-> & _ & Hd).
    rewrite E0 in Hd. destruct l2 as [|q l2]; [done|]. cbn [hdp dll] in *.
    destruct Hd as (_ & Hq & Hd). apply Forall_cons in Hpos as [Hp Hpos].
    apply Forall_cons in Hpos as [Hq0 Hpos]. apply NoDup_cons in Hnd as [Hn1 Hnd].
    apply NoDup_cons in Hnd as [Hn2 Hnd].
    assert (q * 4096 <> prev) as Hne.
    { destruct Hprev as [->|(r & Hr & -> & Hr')]; [lia|]. set_solver by lia. }
    split; [done|]. split.
    { rewrite unlink_slot1. rewrite Z.eqb_refl, (proj2 (Z.eqb_neq (q * 4096) 0)) by lia. done. }
    rewrite unlink_slot0, (proj2 (Z.eqb_neq (q * 4096) prev)), andb_false_r by done.
    eapply dll_frame; [|exact Hd]. intros s r Hr [->| ->].
    + rewrite unlink_slot0. destruct (Z.eqb_spec prev 0); [done|].
      rewrite (proj2 (Z.eqb_neq (r * 4096) prev)); [done|].
      destruct Hprev as [->|(r' & Hr' & -> & Hn)]; [done|]. intros ?.
      assert (r = r') as -> by lia. set_solver.
    + rewrite unlink_slot1. rewrite (proj2 (Z.eqb_neq (r * 4096) (q * 4096))), andb_false_r; [done|].
      intros ?. assert (r = q) as -> by lia. done.
  - rewrite decide_False by done. cbn [app] in *.
    apply NoDup_cons in Hnd as [Hn1 Hnd]. apply Forall_cons in Hpos as [Ha Hpos].
    destruct Hd as (-> & Hpa & Hd). rewrite last_cons in E1 |- *.
    set (pv := match match last l1 with Some y => Some y | None => Some a end with
               | Some q => q * 4096 | None => prev end) in *.
    assert (pv = match last l1 with Some q => q * 4096 | None => a * 4096 end) as Epv.
    { unfold pv. by destruct (last l1). }
    specialize (IH (a * 4096) (lk 0 (a * 4096)) Hnd Hpos).
    assert (lk 1 (p * 4096) = match last l1 with Some q => q * 4096 | None => a * 4096 end)
      as E1' by congruence.
    specialize (IH ltac:(right; exists a; set_solver) Hd E1').
    rewrite <- Epv in IH. split; [done|].
    assert (0 < pv) as Hpv.
    { rewrite Epv. destruct (last l1) as [q|] eqn:El; [|lia].
      apply last_Some in El as [l' ->]. rewrite Forall_forall in Hpos.
      specialize (Hpos q ltac:(set_solver)). lia. }
    assert (a * 4096 <> hdp l2) as Hane.
    { destruct l2 as [|q l2]; cbn [hdp]; [lia|]. intros ?. assert (a = q) as -> by lia. set_solver. }
    split.
    { rewrite unlink_slot1. rewrite (proj2 (Z.eqb_neq _ _) Hane), andb_false_r. done. }
    rewrite unlink_slot0, (proj2 (Z.eqb_neq pv 0)) by lia. cbn [negb andb].
    destruct (decide (l1 = [])) as [->|Hl1].
    + cbn [last] in Epv. rewrite (proj2 (Z.eqb_eq (a * 4096) pv)) by done.
      exact IH.
    + destruct (Z.eqb_spec (a * 4096) pv) as [E|]; [|done]. exfalso.
      rewrite Epv in E. destruct (last l1) as [q|] eqn:El.
      * apply last_Some in El as [l' ->]. assert (a = q) as -> by lia. set_solver.
      * apply last_None in El. done.
Qed.

Lemma dll_push lk l head p :
  NoDup (p :: l) -> Forall (fun q => 0 < q) l -> 0 < p -> dll lk 0 l head ->
  dll (let lk := lk⟦0 ↦ (lk 0)⟦p * 4096 ↦ head⟧⟧ in
       let lk := lk⟦1 ↦ (lk 1)⟦p * 4096 ↦ 0⟧⟧ in
       if head =? 0 then lk else lk⟦1 ↦ (lk 1)⟦head ↦ p * 4096⟧⟧) 0 (p :: l) (p * 4096).
Proof.
  intros [Hp Hnd]%NoDup_cons Hpos Hp0 Hd. cbv zeta. destruct l as [|q l]; cbn [dll] in *.
  - subst head. rewrite Z.eqb_refl. cbn [dll]. unfold upd. cbn -[Z.mul]. by rewrite !Z.eqb_refl.
  - destruct Hd as (-> & H1 & Hd). apply Forall_cons in Hpos as [Hq Hpos].
    apply NoDup_cons in Hnd as [Hql _].
    rewrite (proj2 (Z.eqb_neq (q * 4096) 0)) by lia.
    assert (p <> q) by set_solver. unfold upd. cbn -[Z.mul].
    rewrite !Z.eqb_refl, (proj2 (Z.eqb_neq (p * 4096) (q * 4096))),
      (proj2 (Z.eqb_neq (q * 4096) (p * 4096))) by lia.
    repeat split. eapply dll_frame; [|exact Hd]. intros s r Hr Hs.
    assert (r <> p) by set_solver. assert (r <> q) by set_solver.
    destruct Hs as [->| ->]; cbn -[Z.mul];
      rewrite ?(proj2 (Z.eqb_neq (r * 4096) (p * 4096))),
        ?(proj2 (Z.eqb_neq (r * 4096) (q * 4096))) by lia; done.
Qed.

(** ** Geometry: which zone owns a frame, what an operation may touch *)

Definition geo (st : pmm) :=
  (pmm_nr_frames st, pmm_pfn_base st, pmm_direct_end_pfn st, g_nrng st, g_numa_live st, g_nr_nodes st).
Definition zgeo (z : zone) := (start_pfn z, end_pfn z, znode z, ztype z).

(** Frame [f] is managed by zone type [zi] of node [nd]. *)
Definition own (st : pmm) (nd zi f : Z) : Prop :=
  0 <= zi /\ zone_of_pfn st f = zi /\ node_of_pfn st f = nd.

(** The span fits 32 bits with room for one block of the largest order, and the
    descriptors agree with [zone_of_pfn]. *)
Record geo_ok (st : pmm) : Prop := {
  go_base : 0 <= pmm_pfn_base st;
  go_nr : pmm_nr_frames st <= 2 ^ 32 - 8192;
  go_cap : pmm_nr_frames st - pmm_pfn_base st <= BUDDY_FRAME_HARD_CAP;
  go_node : forall nd zi, 0 <= nd < PMM_MAX_NODES -> 0 <= zi < NR_ZONES ->
    znode (zones_n st nd zi) = nd;
  go_zone : forall nd zi f, 0 <= nd < PMM_MAX_NODES -> 0 <= zi < NR_ZONES ->
    pmm_pfn_base st <= f < pmm_nr_frames st ->
    start_pfn (zones_n st nd zi) <= f < end_pfn (zones_n st nd zi) <-> zone_of_pfn st f = zi
}.

(** What an operation on zone [(nd, zi)] leaves alone. *)
Record loc (nd zi : Z) (st st' : pmm) : Prop := {
  lo_geo : geo st' = geo st;
  lo_zgeo : forall a b, zgeo (zones_n st' a b) = zgeo (zones_n st a b);
  lo_zones : forall a b, (a, b) <> (nd, zi) -> zones_n st' a b = zones_n st a b;
  lo_ps : forall f, ~ own st nd zi f -> page_state st' f = page_state st f;
  lo_links : forall s f, ~ own st nd zi f -> links st' s (f * 4096) = links st s (f * 4096)
}.

Lemma geo_own st st' nd zi f : geo st' = geo st -> own st' nd zi f <-> own st nd zi f.
Proof.
  unfold geo, own, zone_of_pfn, node_of_pfn. intros [= -> -> -> -> -> _]. done.
Qed.

Lemma geo_ok_geo st st' :
  geo st' = geo st -> (forall a b, zgeo (zones_n st' a b) = zgeo (zones_n st a b)) ->
  geo_ok st -> geo_ok st'.
Proof.
  intros Hg Hz [H1 H2 H0 H3 H4]. unfold geo in Hg. injection Hg as E1 E2 E3 E4 E5 E6.
  split.
  - lia.
  - lia.
  - lia.
  - intros a b Ha Hb. specialize (Hz a b). unfold zgeo in Hz. injection Hz as _ _ -> _. auto.
  - intros a b f Ha Hb Hf. specialize (Hz a b). unfold zgeo in Hz. injection Hz as -> -> _ _.
    unfold zone_of_pfn. rewrite E1, E2, E3. apply H4; [done..|]. lia.
Qed.

Lemma loc_refl nd zi st : loc nd zi st st.
Proof. by split. Qed.

Lemma loc_trans nd zi a b c : loc nd zi a b -> loc nd zi b c -> loc nd zi a c.
Proof.
  intros [G1 Z1 O1 P1 L1] [G2 Z2 O2 P2 L2].
  assert (forall f, own b nd zi f <-> own a nd zi f) as Hown by (intros; by apply geo_own).
  split; intros.
  - by rewrite G2.
  - etrans; [by apply Z2 || by apply O2|by auto].
  - etrans; [by apply Z2 || by apply O2|by auto].
  - etrans; [apply P2; by rewrite Hown|auto].
  - etrans; [apply L2; by rewrite Hown|auto].
Qed.

Lemma loc_ok nd zi st st' : loc nd zi st st' -> geo_ok st -> geo_ok st'.
Proof. intros []. by apply geo_ok_geo. Qed.

Lemma own_range st nd zi f : geo_ok st -> own st nd zi f -> 0 <= f < 2 ^ 32.
Proof.
  intros [H1 H2 _ _ _] (Hz & H & _). unfold zone_of_pfn in H.
  destruct (Z.leb_spec (pmm_nr_frames st) f), (Z.ltb_spec f (pmm_pfn_base st)); cbn in H; lia.
Qed.

Lemma own_pfn st nd zi f : own st nd zi f -> pmm_pfn_base st <= f < pmm_nr_frames st.
Proof.
  intros (Hz & H & _). unfold zone_of_pfn in H.
  destruct (Z.leb_spec (pmm_nr_frames st) f), (Z.ltb_spec f (pmm_pfn_base st)); cbn in H; lia.
Qed.

(** ** The invariant of a zone *)

Definition free_in (fl : Z -> list Z) (f : Z) : Prop := exists o p, p ∈ fl o /\ covers o p f.

(** The frames on the lists, counted. *)
Definition total (fl : Z -> list Z) : Z :=
  foldr (fun o acc => 2 ^ o * Z.of_nat (length (fl o)) + acc) 0 (seqZ0 14).

(** [H] is the set of frames in hand. *)
Record zinv (st : pmm) (nd zi : Z) (fl : Z -> list Z) (H : Z -> Prop) : Prop := {
  zv_orders : forall o, ~ (0 <= o <= 13) -> fl o = [];
  zv_dll : forall o, 0 <= o <= 13 -> dll (links st) 0 (fl o) (free_lists (zones_n st nd zi) o);
  zv_cnt : forall o, 0 <= o <= 13 -> nr_at_order (zones_n st nd zi) o = u32 (Z.of_nat (length (fl o)));
  zv_nodup : forall o, NoDup (fl o);
  zv_align : forall o p, p ∈ fl o -> p mod 2 ^ o = 0 /\ 0 < p;
  zv_own : forall o p f, p ∈ fl o -> covers o p f -> own st nd zi f;
  zv_tag : forall o p, p ∈ fl o -> page_state st p = o;
  zv_disj : forall o p o' p' f, p ∈ fl o -> p' ∈ fl o' -> covers o p f -> covers o' p' f ->
    o = o' /\ p = p';
  zv_tagged : forall f, own st nd zi f -> 0 <= page_state st f <= 13 -> free_in fl f \/ H f;
  zv_hand : forall f, free_in fl f -> ~ H f;
  zv_canon : forall o p, o < 13 -> p ∈ fl o -> Z.lxor p (2 ^ o) ∉ fl o
}.

Lemma zv_ord st nd zi fl H o p : zinv st nd zi fl H -> p ∈ fl o -> 0 <= o <= 13.
Proof.
  intros I Hp. destruct (decide (0 <= o <= 13)) as [|Hn]; [done|].
  rewrite (zv_orders _ _ _ _ _ I o Hn) in Hp. set_solver.
Qed.

Lemma zv_self st nd zi fl H o p : zinv st nd zi fl H -> p ∈ fl o -> covers o p p.
Proof. intros I Hp. pose proof (zv_ord _ _ _ _ _ _ _ I Hp). pose proof (pow2_pos o). unfold covers. lia. Qed.

Lemma zinv_ext st nd zi fl H H' : (forall f, H f <-> H' f) -> zinv st nd zi fl H -> zinv st nd zi fl H'.
Proof.
  intros E []. split; try done.
  - intros. rewrite <- E. auto.
  - intros. rewrite <- E. auto.
Qed.

(** The head of a list is null exactly when the list is empty. *)
Lemma head_empty st nd zi fl H o :
  zinv st nd zi fl H -> 0 <= o <= 13 -> free_lists (zones_n st nd zi) o = 0 <-> fl o = [].
Proof.
  intros I Ho. pose proof (dll_head _ _ _ _ (zv_dll _ _ _ _ _ I o Ho)) as E.
  destruct (fl o) as [|p l] eqn:El; cbn [hdp] in E; [done|].
  destruct (zv_align _ _ _ _ _ I o p) as [_ ?]; [rewrite El; set_solver|].
  split; [lia|done].
Qed.

(** Frames of other zones: the invariant only reads what the zone owns. *)
Lemma zinv_loc st st' nd zi nd' zi' fl H :
  (nd', zi') <> (nd, zi) -> loc nd zi st st' ->
  zinv st nd' zi' fl H -> zinv st' nd' zi' fl H.
Proof.
  intros Hne L I.
  assert (forall f, own st nd' zi' f -> ~ own st nd zi f) as Hno.
  { intros f (_ & H1 & H2) (_ & H3 & H4). apply Hne. congruence. }
  assert (forall f, own st' nd' zi' f <-> own st nd' zi' f) as Hown by (intros; apply geo_own, L).
  assert (forall o p, p ∈ fl o -> own st nd' zi' p) as Hp.
  { intros. eapply zv_own; [done..|]. by eapply zv_self. }
  pose proof (lo_zones _ _ _ _ L nd' zi' Hne) as Ez.
  split; try apply I.
  - intros o Ho. rewrite Ez. eapply dll_frame; [|by apply I].
    intros s p Hin _. apply L. eauto.
  - intros. rewrite Ez. by apply I.
  - intros. rewrite Hown. by eapply zv_own.
  - intros o p Hin. rewrite (lo_ps _ _ _ _ L) by eauto. by eapply zv_tag.
  - intros f. rewrite Hown. intros Hf. rewrite (lo_ps _ _ _ _ L) by eauto. by apply I.
Qed.

(** ** The count of free frames *)

Lemma total_upd (fl : Z -> list Z) o l : 0 <= o <= 13 ->
  total (fl⟦o ↦ l⟧) = total fl + 2 ^ o * (Z.of_nat (length l) - Z.of_nat (length (fl o))).
Proof.
  intros Ho. unfold total.
  assert (NoDup (seqZ0 14)) as Hnd by (apply NoDup_fmap; [intros ? ?; lia|apply NoDup_seq]).
  assert (o ∈ seqZ0 14) as Hin.
  { apply list_elem_of_fmap. exists (Z.to_nat o). split; [lia|]. apply elem_of_seq. lia. }
  revert Hnd Hin. generalize (seqZ0 14). induction l0 as [|x l0 IH]; intros Hnd Hin; [set_solver|].
  apply NoDup_cons in Hnd as [Hx Hnd]. cbn [foldr]. rewrite upd_eq.
  destruct (Z.eqb_spec x o) as [->|Hxo].
  - assert (foldr (fun o0 acc => 2 ^ o0 * Z.of_nat (length ((fl⟦o ↦ l⟧) o0)) + acc) 0 l0
            = foldr (fun o0 acc => 2 ^ o0 * Z.of_nat (length (fl o0)) + acc) 0 l0) as ->.
    { clear -Hx. induction l0 as [|y l0 IH]; [done|]. cbn [foldr].
      rewrite upd_other by set_solver. rewrite IH by set_solver. done. }
    lia.
  - rewrite IH by set_solver. lia.
Qed.

(** ** Pushing a block *)

Lemma elem_cons_upd (fl : Z -> list Z) o p o' x :
  x ∈ (fl⟦o ↦ p :: fl o⟧) o' <-> (x = p /\ o' = o) \/ x ∈ fl o'.
Proof. rewrite upd_eq. destruct (Z.eqb_spec o' o) as [->|]; set_solver. Qed.

Lemma free_in_cons (fl : Z -> list Z) o p f :
  free_in (fl⟦o ↦ p :: fl o⟧) f <-> covers o p f \/ free_in fl f.
Proof.
  unfold free_in. setoid_rewrite elem_cons_upd. split.
  - intros (o' & q & [[-> ->]|Hq] & Hc); eauto.
  - intros [Hc|(o' & q & Hq & Hc)]; eauto 7.
Qed.

Definition push_links (lk : Z -> Z -> Z) (p head : Z) : Z -> Z -> Z :=
  let lk := lk⟦0 ↦ (lk 0)⟦p * 4096 ↦ head⟧⟧ in
  let lk := lk⟦1 ↦ (lk 1)⟦p * 4096 ↦ 0⟧⟧ in
  if head =? 0 then lk else lk⟦1 ↦ (lk 1)⟦head ↦ p * 4096⟧⟧.

Lemma push_links_other lk p head s x :
  x <> p * 4096 -> (x <> head \/ head = 0) -> push_links lk p head s x = lk s x.
Proof.
  intros Hx Hh. unfold push_links, upd. cbn -[Z.mul].
  destruct (Z.eqb_spec head 0); cbn -[Z.mul];
    destruct (Z.eqb_spec s 1), (Z.eqb_spec s 0), (Z.eqb_spec x (p * 4096)), (Z.eqb_spec x head);
    subst; try done; try lia; naive_solver.
Qed.

Section Push.
Context (st : pmm) (nd zi : Z) (fl : Z -> list Z) (H : Z -> Prop) (pfn o : Z).
Context (G : geo_ok st) (I : zinv st nd zi fl H) (Ho : 0 <= o <= 13).
Context (Hal : pfn mod 2 ^ o = 0) (Hpos : 0 < pfn).
Context (Hown : forall f, covers o pfn f -> own st nd zi f /\ H f).
Context (Hcan : o < 13 -> Z.lxor pfn (2 ^ o) ∉ fl o).

Let st' := zone_push st nd zi pfn o.

Lemma push_self : covers o pfn pfn.
Proof using Ho. pose proof (pow2_pos o). unfold covers. lia. Qed.

Lemma push_fields :
  page_state st' = (page_state st)⟦pfn ↦ o⟧ /\
  links st' = push_links (links st) pfn (hdp (fl o)) /\
  zones_n st' nd zi = set_list o (pfn * 4096) (u32 (nr_at_order (zones_n st nd zi) o + 1)) (zones_n st nd zi) /\
  (forall a b, (a, b) <> (nd, zi) -> zones_n st' a b = zones_n st a b) /\ geo st' = geo st.
Proof using All.
  destruct (Hown pfn push_self) as [Hop _]. pose proof (own_range _ _ _ _ G Hop) as Hr.
  unfold st', zone_push. rewrite pfn_to_phys_mul by done. cbv zeta.
  rewrite <- (dll_head _ _ _ _ (zv_dll _ _ _ _ _ I o Ho)).
  rewrite (u8_small o) by lia. unfold push_links, link_store_at.
  destruct (Z.eqb_spec (free_lists (zones_n st nd zi) o) 0); cbn -[Z.mul].
  all: rewrite ?upd_same; repeat split; try done.
  all: intros a b Hab; rewrite upd_eq; destruct (Z.eqb_spec a nd) as [->|]; [|done].
  all: rewrite upd_other; [done|congruence].
Qed.

Lemma push_not_in o' : pfn ∉ fl o'.
Proof using All.
  intros Hin. destruct (Hown pfn push_self) as [_ Hh].
  eapply zv_hand; [exact I| |exact Hh]. exists o', pfn. split; [done|]. by eapply zv_self.
Qed.

Lemma push_disj o' p' f : p' ∈ fl o' -> covers o' p' f -> ~ covers o pfn f.
Proof using All.
  intros Hp Hc Hc'. eapply zv_hand; [exact I|exists o', p'; done|]. by apply Hown.
Qed.

Lemma push_loc : loc nd zi st st'.
Proof using All.
  destruct push_fields as (Eps & Elk & Ez & Ezo & Eg). split; try done.
  - intros a b. destruct (decide ((a, b) = (nd, zi))) as [[= -> ->]|Hn]; [by rewrite Ez|by rewrite Ezo].
  - intros f Hf. rewrite Eps. apply upd_other. intros ->. apply Hf, Hown, push_self.
  - intros s f Hf. rewrite Elk. apply push_links_other.
    + intros ?. assert (f = pfn) as -> by lia. apply Hf, Hown, push_self.
    + destruct (fl o) as [|q l] eqn:El; cbn [hdp]; [by right|left]. intros ?.
      assert (f = q) as -> by lia. apply Hf. assert (q ∈ fl o) as Hq by (rewrite El; set_solver).
      eapply zv_own; [exact I|exact Hq|]. by eapply zv_self.
Qed.

Lemma push_ok :
  zinv st' nd zi (fl⟦o ↦ pfn :: fl o⟧) (fun f => H f /\ ~ covers o pfn f) /\
  loc nd zi st st' /\ free_frames (zones_n st' nd zi) = free_frames (zones_n st nd zi).
Proof using All.
  destruct push_fields as (Eps & Elk & Ez & Ezo & Eg). pose proof push_loc as L.
  pose proof push_not_in as Hni. pose proof push_disj as Hdis. pose proof push_self as Hself.
  assert (forall f, own st' nd zi f <-> own st nd zi f) as Ho' by (intros; by apply geo_own).
  split; [|split; [done|by rewrite Ez]]. split.
  - intros k Hk. rewrite upd_other by lia. by apply I.
  - intros k Hk. rewrite Ez. cbn [set_list free_lists]. rewrite Elk, !upd_eq.
    pose proof (zv_dll _ _ _ _ _ I k Hk) as Hd.
    destruct (Z.eqb_spec k o) as [->|Hne].
    + apply dll_push; [apply NoDup_cons; split; [done|apply I]| |done|].
      * apply Forall_forall. intros q Hq. by eapply zv_align.
      * by rewrite <- (dll_head _ _ _ _ Hd).
    + eapply dll_frame; [|exact Hd]. intros s q Hq _. apply push_links_other.
      * intros ?. assert (q = pfn) as -> by lia. by eapply Hni.
      * destruct (fl o) as [|q' l] eqn:El; cbn [hdp]; [by right|left]. intros ?.
        assert (q = q') as -> by lia. assert (q' ∈ fl o) as Hq' by (rewrite El; set_solver).
        destruct (zv_disj _ _ _ _ _ I k q' o q' q') as [? _]; [done|done|by eapply zv_self..|done].
  - intros k Hk. rewrite Ez. cbn [set_list nr_at_order]. rewrite !upd_eq.
    destruct (Z.eqb_spec k o) as [->|]; [|by apply I].
    rewrite (zv_cnt _ _ _ _ _ I o Ho). cbn [length]. unfold u32.
    rewrite Zplus_mod_idemp_l. f_equal. lia.
  - intros k. rewrite upd_eq. destruct (Z.eqb_spec k o) as [->|]; [|apply I].
    apply NoDup_cons. split; [done|apply I].
  - intros k q. rewrite elem_cons_upd. intros [[-> ->]|Hq]; [done|by eapply zv_align].
  - intros k q f. rewrite elem_cons_upd, Ho'. intros [[-> ->]|Hq] Hc; [by apply Hown|by eapply zv_own].
  - intros k q. rewrite elem_cons_upd, Eps. intros [[-> ->]|Hq]; [by rewrite upd_same|].
    rewrite upd_other; [by eapply zv_tag|]. intros ->. by eapply Hni.
  - intros k q k' q' f. rewrite !elem_cons_upd.
    intros [[-> ->]|Hq] [[-> ->]|Hq'] Hc Hc'; [done| | |by eapply zv_disj].
    + exfalso. by eapply Hdis.
    + exfalso. by eapply Hdis.
  - intros f Hf. rewrite Eps, upd_eq, free_in_cons. rewrite Ho' in Hf.
    destruct (Z.eqb_spec f pfn) as [->|]; [by left; left|]. intros Hps.
    destruct (zv_tagged _ _ _ _ _ I f Hf Hps) as [|Hh]; [by left; right|].
    destruct (decide (pfn <= f < pfn + 2 ^ o)); [by left; left|by right].
  - intros f. rewrite free_in_cons. intros [Hc|Hf] [Hh Hn]; [done|]. by eapply zv_hand.
  - intros k q Hk. rewrite !elem_cons_upd. intros [[-> ->]|Hq] [[E Eo]|Hin]; try subst k.
    + assert (Z.lxor pfn (Z.lxor pfn (2 ^ o)) = 0) as E2 by (rewrite E; apply Z.lxor_nilpotent).
      rewrite <- Z.lxor_assoc, Z.lxor_nilpotent, Z.lxor_0_l in E2. pose proof (pow2_pos o). lia.
    + by apply Hcan.
    + apply Hcan; [done|]. rewrite <- E. by rewrite Z.lxor_assoc, Z.lxor_nilpotent, Z.lxor_0_r.
    + exact (zv_canon _ _ _ _ _ I k q Hk Hq Hin).
Qed.
End Push.

(** ** Taking a block off its list *)

Lemma unlink_other lk next prev s x :
  x <> next \/ next = 0 -> x <> prev \/ prev = 0 -> unlink lk next prev s x = lk s x.
Proof.
  intros H1 H2. unfold unlink, upd.
  destruct (Z.eqb_spec prev 0), (Z.eqb_spec next 0), (Z.eqb_spec s 1), (Z.eqb_spec s 0),
    (Z.eqb_spec x next), (Z.eqb_spec x prev); subst; try done; cbn -[Z.mul];
    try (destruct (Z.eqb_spec x prev)); naive_solver.
Qed.

Section Remove.
Context (st : pmm) (nd zi : Z) (fl : Z -> list Z) (H : Z -> Prop) (p o : Z) (l1 l2 : list Z).
Context (G : geo_ok st) (I : zinv st nd zi fl H) (El : fl o = l1 ++ p :: l2).

Let z := zones_n st nd zi.
Let fl' := fl⟦o ↦ l1 ++ l2⟧.
Let next := links st 0 (p * 4096).
Let prev := links st 1 (p * 4096).
Let st' := set_zone nd zi
  (set_list o (if decide (l1 = []) then next else free_lists z o) (u32 (nr_at_order z o - 1)) z)
  (set_links (unlink (links st) next prev) st).

Lemma remove_in : p ∈ fl o.
Proof using All. rewrite El. set_solver. Qed.
Lemma remove_ord : 0 <= o <= 13.
Proof using All. eapply zv_ord; [exact I|apply remove_in]. Qed.
Lemma remove_own : own st nd zi p.
Proof using All. eapply zv_own; [exact I|apply remove_in|]. eapply zv_self; [exact I|apply remove_in]. Qed.
Lemma remove_pos q : q ∈ fl o -> 0 < q.
Proof using All. intros. by eapply zv_align. Qed.

Lemma remove_links :
  next = hdp l2 /\ prev = (match last l1 with None => 0 | Some q => q * 4096 end) /\ (prev = 0 <-> l1 = []).
Proof using All.
  pose proof (zv_dll _ _ _ _ _ I o remove_ord) as Hd. rewrite El in Hd.
  apply dll_at in Hd as [E0 E1]. split; [done|]. split; [done|]. fold prev in E1. rewrite E1.
  destruct (last l1) as [q|] eqn:Eq.
  - apply last_Some in Eq as [l Eq]. assert (0 < q) by (apply remove_pos; rewrite El, Eq; set_solver).
    split; [lia|]. rewrite Eq. by intros [_ ?]%app_nil.
  - apply last_None in Eq. done.
Qed.

Lemma zone_remove_eq : zone_remove st nd zi p o = Some st'.
Proof using All.
  destruct remove_links as (En & Ep & Hl1). pose proof (own_range _ _ _ _ G remove_own).
  unfold zone_remove, link_load_at. rewrite pfn_to_phys_mul by done. cbv zeta.
  pose proof (dll_head _ _ _ _ (zv_dll _ _ _ _ _ I o remove_ord)) as Hh. fold z in Hh.
  fold next prev z. unfold st', unlink. destruct (decide (l1 = [])) as [Hn|Hn].
  - rewrite (proj2 Hl1 Hn). cbn [Z.eqb negb].
    rewrite El, Hn in Hh. cbn [app hdp] in Hh. rewrite Hh, Z.eqb_refl.
    by destruct (Z.eqb_spec next 0).
  - assert (prev <> 0) as Hp by naive_solver. rewrite (proj2 (Z.eqb_neq _ _) Hp). cbn [negb].
    unfold link_store_at. by destruct (Z.eqb_spec next 0).
Qed.

Lemma remove_mem o' x : x ∈ fl' o' <-> x ∈ fl o' /\ ~ (x = p /\ o' = o).
Proof using All.
  unfold fl'. rewrite upd_eq. destruct (Z.eqb_spec o' o) as [->|]; [|naive_solver].
  pose proof (zv_nodup _ _ _ _ _ I o) as Hnd. rewrite El in Hnd |- *.
  apply NoDup_app in Hnd as (_ & Hd1 & Hnd). apply NoDup_cons in Hnd as [Hd2 _].
  set_solver.
Qed.

Lemma remove_free f : free_in fl f <-> free_in fl' f \/ covers o p f.
Proof using All.
  unfold free_in. setoid_rewrite remove_mem. split.
  - intros (o' & q & Hq & Hc). destruct (decide (q = p /\ o' = o)) as [[-> ->]|]; eauto 8.
  - intros [(o' & q & [Hq _] & Hc)|Hc]; eauto 6 using remove_in.
Qed.

Lemma remove_free_disj f : free_in fl' f -> ~ covers o p f.
Proof using All.
  intros (o' & q & Hq & Hc) Hc'. apply remove_mem in Hq as [Hq Hn]. apply Hn.
  destruct (zv_disj _ _ _ _ _ I o' q o p f); try done. apply remove_in.
Qed.

Lemma remove_nbrs :
  (next = 0 \/ exists b, b ∈ fl o /\ next = b * 4096) /\
  (prev = 0 \/ exists a, a ∈ fl o /\ prev = a * 4096).
Proof using All.
  destruct remove_links as (-> & -> & _). rewrite El. split.
  - clear El. destruct l2 as [|b ?]; [by left|right]. exists b. split; [set_solver|done].
  - clear El. destruct (last l1) as [a|] eqn:Ea; [right|by left].
    apply last_Some in Ea as [l ->]. exists a. split; [set_solver|done].
Qed.

(** The words written belong to members of the same list. *)
Lemma remove_touch s q :
  (forall r, r ∈ fl o -> q <> r) -> unlink (links st) next prev s (q * 4096) = links st s (q * 4096).
Proof using All.
  intros Hq. destruct remove_nbrs as [Hn Hp]. apply unlink_other.
  - destruct Hn as [|(b & Hb & ->)]; [by right|left]. specialize (Hq b Hb). lia.
  - destruct Hp as [|(b & Hb & ->)]; [by right|left]. specialize (Hq b Hb). lia.
Qed.

Lemma remove_loc : loc nd zi st st'.
Proof using All.
  split; unfold st'; cbn.
  - done.
  - intros a b. rewrite !upd_eq. destruct (Z.eqb_spec a nd) as [->|]; [|done].
    rewrite upd_eq. by destruct (Z.eqb_spec b zi) as [->|].
  - intros a b Hab. rewrite upd_eq. destruct (Z.eqb_spec a nd) as [->|]; [|done].
    rewrite upd_other; [done|congruence].
  - done.
  - intros s f Hf. apply remove_touch. intros r Hr ->. apply Hf.
    eapply zv_own; [exact I|exact Hr|]. by eapply zv_self.
Qed.

Lemma remove_ok :
  zinv st' nd zi fl' (fun f => H f \/ covers o p f) /\
  loc nd zi st st' /\ free_frames (zones_n st' nd zi) = free_frames (zones_n st nd zi).
Proof using All.
  pose proof remove_ord as Ho. pose proof remove_loc as L. pose proof remove_in as Hin.
  assert (Ez : zones_n st' nd zi =
    set_list o (if decide (l1 = []) then next else free_lists z o) (u32 (nr_at_order z o - 1)) z).
  { unfold st'. cbn. by rewrite !upd_same. }
  assert (Elk : links st' = unlink (links st) next prev) by done.
  assert (forall f, own st' nd zi f <-> own st nd zi f) as Ho' by done.
  split; [|split; [done|by rewrite Ez]]. split.
  - intros k Hk. unfold fl'. rewrite upd_other by lia. by apply I.
  - intros k Hk. rewrite Ez, Elk. cbn [set_list free_lists]. unfold fl'. rewrite !upd_eq.
    pose proof (zv_dll _ _ _ _ _ I k Hk) as Hd. fold z in Hd.
    destruct (Z.eqb_spec k o) as [->|Hne].
    + rewrite El in Hd. apply dll_unlink; [| |by left|done].
      * rewrite <- El. apply I.
      * rewrite <- El. apply Forall_forall. apply remove_pos.
    + eapply dll_frame; [|exact Hd]. intros s q Hq _. apply remove_touch. intros r Hr ->.
      destruct (zv_disj _ _ _ _ _ I k r o r r) as [? _]; try done; by eapply zv_self.
  - intros k Hk. rewrite Ez. cbn [set_list nr_at_order]. unfold fl'. rewrite !upd_eq.
    destruct (Z.eqb_spec k o) as [->|]; [|by apply I].
    unfold z. rewrite (zv_cnt _ _ _ _ _ I o Ho), El, !length_app. cbn [length]. unfold u32.
    rewrite Zminus_mod_idemp_l. f_equal. lia.
  - intros k. unfold fl'. rewrite upd_eq. destruct (Z.eqb_spec k o) as [->|]; [|apply I].
    pose proof (zv_nodup _ _ _ _ _ I o) as Hnd. rewrite El in Hnd.
    apply NoDup_app in Hnd as (? & Hd1 & Hnd). apply NoDup_cons in Hnd as [Hd2 ?].
    apply NoDup_app. set_solver.
  - intros k q [Hq _]%remove_mem. by eapply zv_align.
  - intros k q f [Hq _]%remove_mem. intros; eapply (zv_own _ _ _ _ _ I); eassumption.
  - intros k q [Hq _]%remove_mem. exact (zv_tag _ _ _ _ _ I _ _ Hq).
  - intros k q k' q' f [Hq _]%remove_mem [Hq' _]%remove_mem. by eapply zv_disj.
  - intros f Hf Hps. destruct (zv_tagged _ _ _ _ _ I f Hf Hps) as [Hfr|]; [|by right; left].
    apply remove_free in Hfr as [|]; [by left|by right; right].
  - intros f Hf [Hh|Hc]; [|by eapply remove_free_disj].
    eapply zv_hand; [exact I| |exact Hh]. apply remove_free. by left.
  - intros k q Hk [Hq _]%remove_mem [Hq' _]%remove_mem.
    exact (zv_canon _ _ _ _ _ I k q Hk Hq Hq').
Qed.
End Remove.

(** Popping is removing the head. *)
Lemma zone_pop_eq st nd zi fl H o p l :
  geo_ok st -> zinv st nd zi fl H -> fl o = p :: l ->
  exists st', zone_pop st nd zi o = (st', p) /\ zone_remove st nd zi p o = Some st'.
Proof.
  intros G I El. assert (p ∈ fl o) as Hp by (rewrite El; set_solver).
  pose proof (zv_ord _ _ _ _ _ _ _ I Hp) as Ho.
  pose proof (own_range _ _ _ _ G (zv_own _ _ _ _ _ I _ _ _ Hp (zv_self _ _ _ _ _ _ _ I Hp))) as Hr.
  destruct (zv_align _ _ _ _ _ I _ _ Hp) as [_ Hpos].
  pose proof (zv_dll _ _ _ _ _ I o Ho) as Hd. rewrite El in Hd. destruct Hd as (Eh & Epv & _).
  rewrite Eh in Epv.
  unfold zone_pop, zone_remove, link_load, link_load_at. rewrite pfn_to_phys_mul by done. cbv zeta.
  rewrite Eh, Epv, Z.eqb_refl. cbn [Z.eqb negb].
  rewrite (proj2 (Z.eqb_neq (p * 4096) 0)) by lia.
  rewrite <- (pfn_to_phys_mul p), phys_to_pfn_to_phys by done. eexists. split; [reflexivity|].
  by rewrite Z.eqb_refl.
Qed.

(** ** Allocation in a zone *)

(** A zone between operations: nothing in hand, the counter right. *)
Definition zone_ok (st : pmm) (nd zi : Z) (fl : Z -> list Z) : Prop :=
  zinv st nd zi fl (fun _ => False) /\ free_frames (zones_n st nd zi) = u32 (total fl).

Lemma first_order_spec fuel z o :
  (Z.to_nat (14 - o) <= fuel)%nat -> o <= 14 ->
  let r := first_order fuel z o in
  o <= r <= 14 /\ (forall k, o <= k < r -> free_lists z k = 0) /\ (r <= 13 -> free_lists z r <> 0).
Proof.
  revert o. induction fuel as [|fuel IH]; intros o Hf Ho; cbn [first_order].
  { split; [lia|]. split; [lia|]. intros. lia. }
  unfold BUDDY_MAX_ORDER in *.
  destruct (Z.leb_spec o 13), (Z.eqb_spec (free_lists z o) 0); cbn [andb];
    try (split; [lia|split; [intros; lia|intros; done || lia]]).
  destruct (IH (o + 1)) as (H1 & H2 & H3); [lia..|].
  split; [lia|]. split; [|done]. intros k Hk. destruct (decide (k = o)) as [->|]; [done|]. apply H2. lia.
Qed.

Lemma half_block p o : 1 <= o -> 0 <= p -> p mod 2 ^ o = 0 ->
  let q := p + 2 ^ (o - 1) in
  q mod 2 ^ (o - 1) = 0 /\ p mod 2 ^ (o - 1) = 0 /\ Z.lxor q (2 ^ (o - 1)) = p /\
  (forall f, covers o p f <-> covers (o - 1) p f \/ covers (o - 1) q f) /\
  (forall f, ~ (covers (o - 1) p f /\ covers (o - 1) q f)).
Proof.
  intros Ho Hp Ha q. pose proof (mod_pow_le p (o - 1) o ltac:(lia) Ha) as Ha'.
  replace o with (o - 1 + 1) in Ha by lia.
  pose proof (lxor_low p (o - 1) ltac:(lia) Hp Ha) as E. fold q in E.
  destruct (buddy_cases p (o - 1) ltac:(lia) Hp Ha') as (_ & B1 & _ & _ & B2 & B3 & B4).
  rewrite E in *. replace (o - 1 + 1) with o in B2 by lia.
  pose proof (pow2_pos (o - 1) ltac:(lia)).
  rewrite (proj2 (Z.ltb_ge q p)) in B2 by lia. done.
Qed.

Section Split.
Context (nd zi p order : Z) (Hord : 0 <= order) (Hpos : 0 < p).

Lemma split_down_ok fuel st fl o :
  geo_ok st -> zinv st nd zi fl (covers o p) -> order <= o <= 13 -> (Z.to_nat (o - order) <= fuel)%nat ->
  p mod 2 ^ o = 0 -> (forall f, covers o p f -> own st nd zi f) ->
  let st' := split_down fuel st nd zi p o order in
  exists fl', zinv st' nd zi fl' (covers order p) /\ loc nd zi st st' /\
    free_frames (zones_n st' nd zi) = free_frames (zones_n st nd zi) /\
    total fl' = total fl + 2 ^ o - 2 ^ order /\
    (forall f, free_in fl' f <-> free_in fl f \/ (covers o p f /\ ~ covers order p f)).
Proof using All.
  revert st fl o. induction fuel as [|fuel IH]; intros st fl o G I Ho Hf Hal Hown; cbn [split_down].
  - assert (o = order) as -> by lia. exists fl. split; [done|]. split; [apply loc_refl|].
    split; [done|]. split; [lia|]. naive_solver.
  - destruct (Z.ltb_spec order o).
    2: { assert (o = order) as -> by lia. exists fl. split; [done|]. split; [apply loc_refl|].
         split; [done|]. split; [lia|]. naive_solver. }
    destruct (half_block p o ltac:(lia) ltac:(lia) Hal) as (Q1 & Q2 & Q3 & Q4 & Q5).
    set (q := p + 2 ^ (o - 1)) in *. pose proof (pow2_pos (o - 1) ltac:(lia)) as H2.
    assert (own st nd zi q) as Hoq.
    { apply Hown, Q4. right. unfold covers. lia. }
    pose proof (own_range _ _ _ _ G Hoq). rewrite bit_pow by lia. fold q. rewrite u32_small by lia.
    edestruct (push_ok st nd zi fl (covers o p) q (o - 1)) as (I1 & L1 & F1); try done; try lia.
    { intros f Hc. assert (covers o p f) as Hc' by (apply Q4; by right). split; [by apply Hown|done]. }
    { intros _. rewrite Q3. intros Hin. eapply zv_hand; [exact I| |].
      - exists (o - 1), p. split; [done|]. by eapply zv_self.
      - apply Q4. left. unfold covers. lia. }
    set (st1 := zone_push st nd zi q (o - 1)) in *.
    assert (forall f, covers o p f /\ ~ covers (o - 1) q f <-> covers (o - 1) p f) as Hh.
    { intros f. rewrite Q4. specialize (Q5 f). tauto. }
    apply (zinv_ext _ _ _ _ _ _ Hh) in I1.
    destruct (IH st1 _ (o - 1) (loc_ok _ _ _ _ L1 G) I1) as (fl' & I2 & L2 & F2 & T2 & D2);
      [lia|lia|done| |].
    { intros f Hc. rewrite geo_own by apply L1. apply Hown, Q4. by left. }
    exists fl'. split; [done|]. split; [by eapply loc_trans|]. split; [congruence|]. split.
    + rewrite T2, total_upd by lia. cbn [length].
      replace (2 ^ o) with (2 * 2 ^ (o - 1)) by (rewrite <- pow2_S by lia; f_equal; lia). lia.
    + intros f. rewrite D2, free_in_cons, Q4. specialize (Q5 f).
      assert (covers order p f -> covers (o - 1) p f).
      { unfold covers. pose proof (Z.pow_le_mono_r 2 order (o - 1)). lia. }
      tauto.
Qed.
End Split.

(** Handing the block in hand over: its frames are marked used. *)
Lemma mark_used_ok st nd zi fl p order :
  0 <= order <= 13 -> zinv st nd zi fl (covers order p) -> (forall f, covers order p f -> own st nd zi f) ->
  let st' := set_page_state (fill (page_state st) p (Z.to_nat (bit order)) PS_USED) st in
  zinv st' nd zi fl (fun _ => False) /\ loc nd zi st st' /\
  (forall f, covers order p f -> page_state st' f = PS_USED).
Proof.
  intros Ho I Hown st'. pose proof (pow2_le13 order Ho).
  assert (forall f, page_state st' f = if (p <=? f) && (f <? p + 2 ^ order) then PS_USED else page_state st f) as Eps.
  { intros f. unfold st'. cbn [set_page_state page_state]. rewrite fill_lookup, bit_pow by done.
    by rewrite Z2Nat.id by lia. }
  assert (forall f, covers order p f -> page_state st' f = PS_USED) as Hin.
  { intros f Hc. rewrite Eps. unfold covers in Hc.
    destruct (Z.leb_spec p f), (Z.ltb_spec f (p + 2 ^ order)); try done; lia. }
  assert (forall f, ~ covers order p f -> page_state st' f = page_state st f) as Hout.
  { intros f Hc. rewrite Eps. unfold covers in Hc.
    destruct (Z.leb_spec p f), (Z.ltb_spec f (p + 2 ^ order)); try done; lia. }
  split; [|split; [|done]].
  - split; try apply I; try done.
    + intros o q Hq. rewrite Hout; [by eapply zv_tag|]. intros Hc.
      eapply zv_hand; [exact I| |exact Hc]. exists o, q. split; [done|]. by eapply zv_self.
    + intros f Hf Hps. destruct (decide (p <= f < p + 2 ^ order)) as [Hc|Hc].
      * rewrite Hin in Hps by done. unfold PS_USED in Hps. lia.
      * rewrite Hout in Hps by done. destruct (zv_tagged _ _ _ _ _ I f Hf Hps); [by left|done].
    + naive_solver.
  - split; try done. intros f Hf. apply Hout. naive_solver.
Qed.

(** Counters of the zone are outside the invariant of its lists. *)
Lemma set_zone_ok st nd zi fl H z' :
  zinv st nd zi fl H -> zgeo z' = zgeo (zones_n st nd zi) ->
  free_lists z' = free_lists (zones_n st nd zi) -> nr_at_order z' = nr_at_order (zones_n st nd zi) ->
  let st' := set_zone nd zi z' st in
  zinv st' nd zi fl H /\ loc nd zi st st' /\ zones_n st' nd zi = z'.
Proof.
  intros I Eg El En st'. assert (zones_n st' nd zi = z') as Ez.
  { unfold st'. cbn. by rewrite !upd_same. }
  split; [|split; [|done]].
  - split; try apply I; intros o Ho; rewrite Ez, ?El, ?En; by apply I.
  - split; try done.
    + intros a b. unfold st'. cbn. rewrite upd_eq. destruct (Z.eqb_spec a nd) as [->|]; [|done].
      rewrite upd_eq. by destruct (Z.eqb_spec b zi) as [->|].
    + intros a b Hab. unfold st'. cbn. rewrite upd_eq. destruct (Z.eqb_spec a nd) as [->|]; [|done].
      rewrite upd_other; [done|congruence].
Qed.

Lemma set_free_ok st nd zi fl n H :
  zinv st nd zi fl H ->
  let st' := set_zone nd zi (set_free_frames n (zones_n st nd zi)) st in
  zinv st' nd zi fl H /\ loc nd zi st st' /\ free_frames (zones_n st' nd zi) = n.
Proof.
  intros I st'. destruct (set_zone_ok st nd zi fl H (set_free_frames n (zones_n st nd zi)) I)
    as (I' & L & E); try done. split; [done|]. split; [done|]. unfold st'. by rewrite E.
Qed.

(** The block [(p, order)] left the free set of the zone, and only it. *)
Record took (st st' : pmm) (nd zi : Z) (fl fl' : Z -> list Z) (order p : Z) : Prop := {
  tk_ok : zone_ok st' nd zi fl';
  tk_loc : loc nd zi st st';
  tk_total : total fl' = total fl - 2 ^ order;
  tk_pos : 0 < p;
  tk_align : p mod 2 ^ order = 0;
  tk_own : forall f, covers order p f -> own st nd zi f;
  tk_free : forall f, free_in fl f <-> free_in fl' f \/ covers order p f;
  tk_disj : forall f, covers order p f -> ~ free_in fl' f;
  tk_used : forall f, covers order p f -> page_state st' f = PS_USED
}.

Lemma buddy_alloc_spec st nd zi fl order :
  geo_ok st -> zone_ok st nd zi fl -> 0 <= order <= 13 ->
  (buddy_alloc_in_zone st nd zi order = (st, 0) /\ forall o, order <= o -> fl o = []) \/
  (exists st' p fl', buddy_alloc_in_zone st nd zi order = (st', p) /\ took st st' nd zi fl fl' order p).
Proof.
  intros G [I F] Ho. unfold buddy_alloc_in_zone, BUDDY_MAX_ORDER.
  rewrite (proj2 (Z.ltb_ge order 0)), (proj2 (Z.ltb_ge 13 order)) by lia. cbn [orb].
  destruct (first_order_spec 14 (zones_n st nd zi) order ltac:(lia) ltac:(lia)) as (R1 & R2 & R3).
  set (o := first_order 14 (zones_n st nd zi) order) in *.
  destruct (Z.ltb_spec 13 o) as [Hbig|Hle].
  { left. split; [done|]. intros k Hk. destruct (decide (k <= 13)) as [Hk13|]; [|apply I; lia].
    apply (head_empty _ _ _ _ _ k I ltac:(lia)), R2. lia. }
  right. assert (fl o <> []) as Hne.
  { rewrite <- (head_empty _ _ _ _ _ o I ltac:(lia)). apply R3. lia. }
  destruct (fl o) as [|p l] eqn:El; [done|]. clear Hne.
  assert (p ∈ fl o) as Hin by (rewrite El; set_solver).
  destruct (zone_pop_eq _ _ _ _ _ _ _ _ G I El) as (st1 & -> & Erm).
  rewrite (zone_remove_eq st nd zi fl _ p o [] l G I El) in Erm. injection Erm as <-.
  destruct (remove_ok st nd zi fl _ p o [] l G I El) as (I1 & L1 & F1).
  pose proof (remove_free st nd zi fl _ p o [] l G I El) as D1.
  match type of L1 with loc _ _ _ ?s => set (st1 := s) in * end.
  destruct (zv_align _ _ _ _ _ I _ _ Hin) as [Hal Hpos].
  assert (forall f, covers o p f -> own st nd zi f) as Hown by (intros; by eapply zv_own).
  assert (forall f, False \/ covers o p f <-> covers o p f) as Hh by tauto.
  apply (zinv_ext _ _ _ _ _ _ Hh) in I1.
  destruct (split_down_ok nd zi p order ltac:(lia) Hpos 14 st1 _ o (loc_ok _ _ _ _ L1 G) I1)
    as (fl' & I2 & L2 & F2 & T2 & D2); [lia|lia|done| |].
  { intros f Hc. rewrite geo_own by apply L1. by apply Hown. }
  set (st2 := split_down 14 st1 nd zi p o order) in *.
  assert (forall f, covers order p f -> covers o p f) as Hsub.
  { unfold covers. pose proof (Z.pow_le_mono_r 2 order o). lia. }
  pose proof (loc_trans _ _ _ _ _ L1 L2) as L12.
  destruct (mark_used_ok st2 nd zi fl' p order Ho I2) as (I3 & L3 & U3).
  { intros f Hc. rewrite geo_own by apply L12. auto. }
  match type of L3 with loc _ _ _ ?s => set (st3 := s) in * end.
  destruct (set_free_ok st3 nd zi fl' (u32 (free_frames (zones_n st3 nd zi) - bit order)) _ I3) as (I4 & L4 & F4).
  match type of L4 with loc _ _ _ ?s => set (st4 := s) in * end.
  eexists st4, p, fl'. split; [done|].
  assert (total fl' = total fl - 2 ^ order) as HT.
  { rewrite T2, total_upd by lia. rewrite El. cbn [length app]. lia. }
  split; try done.
  - split; [done|]. rewrite F4, bit_pow by lia.
    assert (free_frames (zones_n st3 nd zi) = u32 (total fl)) as ->.
    { change (free_frames (zones_n st2 nd zi) = u32 (total fl)). congruence. }
    rewrite HT. unfold u32. by rewrite Zminus_mod_idemp_l.
  - eapply loc_trans; [exact L12|]. by eapply loc_trans.
  - apply (mod_pow_le p order o); [lia|done].
  - auto.
  - intros f. rewrite D1, D2. cbn [app]. specialize (Hsub f).
    destruct (decide (p <= f < p + 2 ^ order)); unfold covers in *; tauto.
  - intros f Hc. rewrite D2. intros [Hf|[_ ?]]; [|done].
    eapply (remove_free_disj st nd zi fl _ p o [] l G I El f); auto.
Qed.

(** ** Freeing into a zone *)

(** A frame tagged [o] that is the buddy of the block in hand is a free block
    of order [o]: a free block of another shape that contained it would
    overlap the block in hand, or would not be aligned. *)
Lemma buddy_is_free st nd zi fl p o :
  0 <= o <= 13 -> 0 < p -> p mod 2 ^ o = 0 -> zinv st nd zi fl (covers o p) ->
  let b := Z.lxor p (2 ^ o) in
  own st nd zi b -> page_state st b = o -> b ∈ fl o.
Proof.
  intros Ho Hp Hal I b Hb Hps.
  destruct (buddy_cases p o ltac:(lia) ltac:(lia) Hal) as (B0 & B1 & B2 & _ & B4 & B5 & _). fold b in B0, B1, B2, B4, B5.
  pose proof (pow2_pos o ltac:(lia)) as H2.
  destruct (zv_tagged _ _ _ _ _ I b Hb ltac:(lia)) as [(o' & q & Hq & Hc)|Hc].
  2: { exfalso. apply (B5 b). split; [done|]. unfold covers. lia. }
  pose proof (zv_ord _ _ _ _ _ _ _ I Hq) as Ho'. destruct (zv_align _ _ _ _ _ I _ _ Hq) as [Hqal _].
  pose proof (pow2_pos o' ltac:(lia)) as H2'.
  destruct (decide (o' <= o)) as [Hle|Hgt].
  - assert (b = q) as ->.
    { apply (aligned_inside q b (2 ^ o')); try done. apply (mod_pow_le b o' o); [lia|done]. }
    rewrite (zv_tag _ _ _ _ _ I _ _ Hq) in Hps. by subst o'.
  - exfalso. set (m := if b <? p then b else p) in *.
    assert (covers o' q p) as Hcp.
    { apply (nested (o + 1) m o' q b); [lia|done|done| |done|].
      - apply B4. right. unfold covers. lia.
      - apply B4. left. unfold covers. lia. }
    eapply zv_hand; [exact I|exists o', q; done|]. unfold covers. lia.
Qed.

(** What the loop of [buddy_free_in_zone] keeps: the block in hand is aligned
    and owned, and with the lists it makes up the same set of frames.  When it
    stops, the buddy of the block in hand is not free at its order. *)
Definition in_hand (st : pmm) (nd zi : Z) (fl : Z -> list Z) (p o : Z) : Prop :=
  zinv st nd zi fl (covers o p) /\ 0 <= o <= 13 /\ 0 < p /\ p mod 2 ^ o = 0 /\
  (forall f, covers o p f -> own st nd zi f).

Record merged (nd zi : Z) (st : pmm) (fl : Z -> list Z) (p o : Z)
    (st' : pmm) (fl' : Z -> list Z) (p' o' : Z) : Prop := {
  mg_hand : in_hand st' nd zi fl' p' o';
  mg_loc : loc nd zi st st';
  mg_free : free_frames (zones_n st' nd zi) = free_frames (zones_n st nd zi);
  mg_total : total fl' + 2 ^ o' = total fl + 2 ^ o;
  mg_set : forall f, free_in fl' f \/ covers o' p' f <-> free_in fl f \/ covers o p f
}.

Lemma merge_step nd zi st fl p o :
  geo_ok st -> in_hand st nd zi fl p o -> o < 13 ->
  let b := Z.lxor p (2 ^ o) in
  b ∈ fl o ->
  exists st' fl', zone_remove st nd zi b o = Some st' /\
    merged nd zi st fl p o st' fl' (if b <? p then b else p) (o + 1).
Proof.
  intros G (I & Ho & Hp & Hal & Hown) Ho13 b Hin.
  destruct (buddy_cases p o ltac:(lia) ltac:(lia) Hal) as (B0 & B1 & B2 & B3 & B4 & B5 & B6).
  fold b in B0, B1, B2, B3, B4, B5, B6. set (m := if b <? p then b else p) in *.
  destruct (list_elem_of_split _ _ Hin) as (l1 & l2 & El).
  destruct (remove_ok st nd zi fl _ b o l1 l2 G I El) as (I1 & L1 & F1).
  pose proof (remove_free st nd zi fl _ b o l1 l2 G I El) as D1.
  eexists _, _. split; [exact (zone_remove_eq st nd zi fl _ b o l1 l2 G I El)|].
  destruct (zv_align _ _ _ _ _ I _ _ Hin) as [_ Hb0].
  split; [|done|done| |].
  - split; [|split; [lia|split; [lia|split; [done|]]]].
    + eapply zinv_ext; [|exact I1]. intros f. by rewrite B4.
    + intros f Hc. apply B4 in Hc as [Hc|Hc].
      * rewrite geo_own by apply L1. auto.
      * rewrite geo_own by apply L1. by eapply zv_own.
  - rewrite total_upd, El, !length_app, pow2_S by lia. cbn [length]. lia.
  - intros f. rewrite B4, D1. tauto.
Qed.

Lemma merged_trans nd zi st fl p o st1 fl1 p1 o1 st2 fl2 p2 o2 :
  merged nd zi st fl p o st1 fl1 p1 o1 -> merged nd zi st1 fl1 p1 o1 st2 fl2 p2 o2 ->
  merged nd zi st fl p o st2 fl2 p2 o2.
Proof.
  intros [_ L1 F1 T1 S1] [H2 L2 F2 T2 S2]. split; [done|by eapply loc_trans|congruence|lia|].
  intros f. by rewrite S2, S1.
Qed.

Lemma coalesce_ok fuel nd zi st fl p o :
  0 <= nd < PMM_MAX_NODES -> 0 <= zi < NR_ZONES ->
  geo_ok st -> in_hand st nd zi fl p o -> (Z.to_nat (14 - o) <= fuel)%nat ->
  exists st' p' o' fl', coalesce fuel st nd zi p o = (st', p', o') /\
    merged nd zi st fl p o st' fl' p' o' /\ (o' < 13 -> Z.lxor p' (2 ^ o') ∉ fl' o').
Proof.
  intros Hnd Hzi. revert st fl p o.
  induction fuel as [|fuel IH]; intros st fl p o G Hh Hf; pose proof Hh as (I & Ho & Hp & Hal & Hown); [lia|].
  assert ((o < 13 -> Z.lxor p (2 ^ o) ∉ fl o) -> exists st' p' o' fl', (st, p, o) = (st', p', o') /\
    merged nd zi st fl p o st' fl' p' o' /\ (o' < 13 -> Z.lxor p' (2 ^ o') ∉ fl' o')) as Hstop.
  { intros Hc. exists st, p, o, fl. split; [done|]. split; [|done].
    by split. }
  cbn [coalesce]. unfold BUDDY_MAX_ORDER. rewrite bit_pow, u8_small by lia.
  destruct (Z.ltb_spec o 13); [|apply Hstop; lia].
  pose proof (merge_step nd zi st fl p o G Hh ltac:(lia)) as Hstep.
  pose proof (buddy_is_free st nd zi fl p o Ho Hp Hal I) as Hfree.
  cbv zeta in Hstep, Hfree. set (b := Z.lxor p (2 ^ o)) in *.
  (* a free buddy passes every check *)
  assert (b ∈ fl o -> own st nd zi b /\ page_state st b = o) as Hb.
  { intros Hin. split; [|by eapply zv_tag]. eapply zv_own; [exact I|exact Hin|]. by eapply zv_self. }
  pose proof (go_zone _ G nd zi b Hnd Hzi) as Hgz. pose proof (go_node _ G nd zi Hnd Hzi) as Hgn.
  destruct (_ || _) eqn:E1.
  { apply Hstop. intros _ [Ob _]%Hb. apply own_pfn in Ob. apply orb_true_iff in E1 as [?|?]; bool_props; lia. }
  bool_props. specialize (Hgz ltac:(lia)).
  destruct (_ || _) eqn:E2.
  { apply Hstop. intros _ [(_ & Ob & _) _]%Hb. apply Hgz in Ob. apply orb_true_iff in E2 as [?|?]; bool_props; lia. }
  bool_props. rewrite Hgn. destruct (_ && _) eqn:E3.
  { apply Hstop. intros _ [(_ & _ & Ob) _]%Hb. bool_props. done. }
  destruct (Z.eqb_spec (page_state st b) o) as [Eps|Hne]; cbn [negb].
  2: { apply Hstop. intros _ [_ ?]%Hb. done. }
  assert (own st nd zi b) as Ob.
  { split; [lia|]. split; [apply Hgz; lia|].
    destruct (g_numa_live st) eqn:El; cbn [andb] in E3; [by bool_props|].
    destruct (Hown p) as (_ & _ & Hn); [pose proof (pow2_pos o); unfold covers; lia|].
    unfold node_of_pfn in *. by rewrite El in *. }
  destruct Hstep as (st1 & fl1 & -> & M1); [by apply Hfree|].
  destruct (IH st1 fl1 _ (o + 1) (loc_ok _ _ _ _ (mg_loc _ _ _ _ _ _ _ _ _ _ M1) G) (mg_hand _ _ _ _ _ _ _ _ _ _ M1))
    as (st' & p' & o' & fl' & -> & M2 & Hend); [lia|].
  exists st', p', o', fl'. split; [done|]. split; [by eapply merged_trans|done].
Qed.

(** The block [(p, order)] joined the free set, and only it. *)
Record gave (st st' : pmm) (nd zi : Z) (fl fl' : Z -> list Z) (order p : Z) : Prop := {
  gv_ok : zone_ok st' nd zi fl';
  gv_loc : loc nd zi st st';
  gv_total : total fl' = total fl + 2 ^ order;
  gv_free : forall f, free_in fl' f <-> free_in fl f \/ covers order p f
}.

Lemma buddy_free_spec st nd zi fl p order :
  0 <= nd < PMM_MAX_NODES -> 0 <= zi < NR_ZONES ->
  geo_ok st -> zone_ok st nd zi fl -> 0 <= order <= 13 -> 0 < p -> p mod 2 ^ order = 0 ->
  (forall f, covers order p f -> own st nd zi f /\ ~ free_in fl f) ->
  exists fl', gave st (buddy_free_in_zone st nd zi p order) nd zi fl fl' order p.
Proof.
  intros Hnd Hzi G [I F] Ho Hp Hal Hown. unfold buddy_free_in_zone, BUDDY_MAX_ORDER.
  rewrite (proj2 (Z.ltb_ge order 0)), (proj2 (Z.ltb_ge 13 order)) by lia. cbn [orb]. cbv zeta.
  rewrite bit_pow by lia.
  destruct (set_free_ok st nd zi fl (u32 (free_frames (zones_n st nd zi) + 2 ^ order)) _ I) as (I1 & L1 & F1).
  match type of L1 with loc _ _ _ ?s => set (st1 := s) in * end.
  assert (in_hand st1 nd zi fl p order) as Hh.
  { split; [|split; [done|split; [done|split; [done|]]]].
    - destruct I1. split; try done; naive_solver.
    - intros f Hc. rewrite geo_own by apply L1. by apply Hown. }
  pose proof (loc_ok _ _ _ _ L1 G) as G1.
  destruct (coalesce_ok 14 nd zi st1 fl p order Hnd Hzi G1 Hh) as (st2 & p2 & o2 & fl2 & -> & M & Hend); [lia|].
  destruct M as [(I2 & Ho2 & Hp2 & Hal2 & Hown2) L2 F2 T2 S2].
  destruct (push_ok st2 nd zi fl2 (covers o2 p2) p2 o2) as (I3 & L3 & F3); try done.
  { by eapply loc_ok. }
  { auto. }
  exists (fl2⟦o2 ↦ p2 :: fl2 o2⟧). assert (total (fl2⟦o2 ↦ p2 :: fl2 o2⟧) = total fl + 2 ^ order) as HT.
  { rewrite total_upd by lia. cbn [length]. lia. }
  split; [| |done|].
  - split.
    + eapply zinv_ext; [|exact I3]. cbn. tauto.
    + rewrite F3, F2, F1, F, HT. unfold u32. by rewrite Zplus_mod_idemp_l.
  - eapply loc_trans; [exact L1|]. by eapply loc_trans.
  - intros f. rewrite free_in_cons. specialize (S2 f). tauto.
Qed.
End PmmInv.
