(* ===== verification/PmmSpec.v ===== *)
(** * The page allocator's contract (kernel/mem/pmm.c)

    The invariant of the whole allocator ([pmm_ok]) and the theorems about its
    public operations: [page_alloc_node] hands out exactly one aligned block of
    an allowed zone and fails only when no allowed zone holds a large enough
    block, [page_free] gives exactly the block back, an allocation followed by
    the free restores the free set, and the kernel's own self-check
    ([pmm_validate]) accepts every state that satisfies the invariant. *)

From stdpp Require Import base list sets.
From Stdlib Require Import ZArith Lia Bool.
From S2P Require Import Prelude Pmm PmmInv.
Import Pmm PmmInv.
Open Scope Z_scope.

Module PmmSpec.

(** The free blocks of every zone: node, zone type, order. *)
Definition free_map := Z -> Z -> Z -> list Z.

Definition valid_zone (nd zi : Z) : Prop := 0 <= nd < PMM_MAX_NODES /\ 0 <= zi < NR_ZONES.

Record pmm_ok (st : pmm) (FL : free_map) : Prop := {
  ok_geo : geo_ok st;
  ok_nodes : 1 <= g_nr_nodes st <= PMM_MAX_NODES;
  ok_ranges : Forall (fun r => 0 <= nr_node r < g_nr_nodes st) (g_nrng st);
  ok_zone : forall nd zi, valid_zone nd zi -> zone_ok st nd zi (FL nd zi)
}.

Definition upd_fl (FL : free_map) (nd zi : Z) (fl : Z -> list Z) : free_map :=
  FL⟦nd ↦ (FL nd)⟦zi ↦ fl⟧⟧.

Lemma upd_fl_same FL nd zi fl : upd_fl FL nd zi fl nd zi = fl.
Proof. unfold upd_fl. by rewrite !upd_same. Qed.
Lemma upd_fl_other FL nd zi fl a b : (a, b) <> (nd, zi) -> upd_fl FL nd zi fl a b = FL a b.
Proof.
  intros H. unfold upd_fl. rewrite upd_eq. destruct (Z.eqb_spec a nd) as [->|]; [|done].
  rewrite upd_other; [done|congruence].
Qed.

(** An operation on one zone that keeps that zone's invariant keeps them all. *)
Lemma pmm_ok_local st st' FL nd zi fl' :
  pmm_ok st FL -> loc nd zi st st' -> zone_ok st' nd zi fl' -> pmm_ok st' (upd_fl FL nd zi fl').
Proof.
  intros [G N R Z] L Hz. pose proof (lo_geo _ _ _ _ L) as Eg.
  pose proof Eg as [= _ _ _ E4 _ E6]. split.
  - by eapply loc_ok.
  - by rewrite E6.
  - by rewrite E4, E6.
  - intros a b Hab. destruct (decide ((a, b) = (nd, zi))) as [[= -> ->]|Hne].
    + by rewrite upd_fl_same.
    + rewrite upd_fl_other by done. destruct (Z a b Hab) as [I F]. split.
      * by eapply zinv_loc.
      * by rewrite (lo_zones _ _ _ _ L) by done.
Qed.

(** ** Order of the zones tried *)

Lemma elem_seqZ0 n k : k ∈ seqZ0 n <-> 0 <= k < n.
Proof.
  unfold seqZ0. rewrite list_elem_of_fmap. setoid_rewrite elem_of_seq. split.
  - intros (i & -> & Hi). lia.
  - intros. exists (Z.to_nat k). lia.
Qed.

Lemma nth_node_spec nodes node nd :
  0 <= node < nodes -> 0 <= nd < nodes <-> exists k, 0 <= k < nodes /\ nd = nth_node node k.
Proof.
  intros Hn. unfold nth_node. split.
  - intros Hd. destruct (decide (nd = node)) as [->|]; [exists 0; split; [lia|done]|].
    destruct (decide (nd < node)).
    + exists (nd + 1). split; [lia|]. destruct (Z.eqb_spec (nd + 1) 0), (Z.leb_spec (nd + 1) node); lia.
    + exists nd. split; [lia|]. destruct (Z.eqb_spec nd 0), (Z.leb_spec nd node); lia.
  - intros (k & Hk & ->). destruct (Z.eqb_spec k 0), (Z.leb_spec k node); lia.
Qed.

(** Both passes together try every allowed zone of every node. *)
Lemma elem_try_list nodes node hint nd zi :
  0 <= node < nodes ->
  (nd, zi) ∈ try_list nodes node hint <-> 0 <= nd < nodes /\ zi ∈ try_order hint.
Proof.
  intros Hn. unfold try_list. rewrite (nth_node_spec nodes node nd Hn).
  setoid_rewrite list_elem_of_bind. setoid_rewrite list_elem_of_bind. setoid_rewrite list_elem_of_bind.
  setoid_rewrite elem_seqZ0. setoid_rewrite list_elem_of_filter. setoid_rewrite list_elem_of_singleton.
  split.
  - intros (pass & (k & (z & [= -> ->] & [_ Hz]) & Hk) & _). eauto.
  - intros [(k & Hk & ->) Hz]. exists (bool_decide (zi = ZONE_DMA)). split.
    + exists k. split; [|done]. exists zi. done.
    + destruct (bool_decide _); set_solver.
Qed.

Lemma try_order_zones hint zi : zi ∈ try_order hint -> 0 <= zi < NR_ZONES.
Proof.
  unfold try_order, ZONE_HIGHMEM, ZONE_NORMAL, ZONE_DMA32, ZONE_DMA, NR_ZONES.
  repeat case_match; rewrite ?elem_of_cons, ?list_elem_of_cons; set_solver by lia.
Qed.

(** ** Allocation *)

(** The hit/miss counters are not part of the invariant. *)
Lemma took_stats st st' nd zi fl fl' order p h m :
  took st st' nd zi fl fl' order p -> took st (set_node_stats h m st') nd zi fl fl' order p.
Proof.
  intros [[I F] L T P A O S D U]. split; try done.
  - split; [|done]. destruct I. by split.
  - destruct L. by split.
Qed.

Lemma took_ok st st' FL nd zi fl' order p :
  pmm_ok st FL -> took st st' nd zi (FL nd zi) fl' order p -> pmm_ok st' (upd_fl FL nd zi fl').
Proof. intros Hok T. eapply pmm_ok_local; [done|apply T|apply T]. Qed.

Definition exhausted (FL : free_map) (order : Z) (nz : Z * Z) : Prop :=
  forall o, order <= o -> FL nz.1 nz.2 o = [].

Lemma alloc_first_spec zs st FL order node :
  pmm_ok st FL -> 0 <= order <= 13 -> Forall (fun nz => valid_zone nz.1 nz.2) zs ->
  (alloc_first zs st order node = (st, PMM_ALLOC_FAIL) /\ Forall (exhausted FL order) zs) \/
  (exists pre nd zi suf st' p fl', zs = pre ++ (nd, zi) :: suf /\ Forall (exhausted FL order) pre /\
     alloc_first zs st order node = (st', pfn_to_phys p) /\
     took st st' nd zi (FL nd zi) fl' order p).
Proof.
  intros Hok Ho. induction zs as [|[nd zi] zs IH]; intros Hv; cbn [alloc_first].
  { left. done. }
  apply Forall_cons in Hv as [Hv1 Hv].
  destruct (buddy_alloc_spec st nd zi (FL nd zi) order (ok_geo _ _ Hok) (ok_zone _ _ Hok nd zi Hv1) Ho)
    as [[-> Hex]|(st' & p & fl' & -> & T)].
  - rewrite Z.eqb_refl. destruct (IH Hv) as [[-> Hall]|(pre & a & b & suf & st' & p & fl' & -> & Hp & -> & T)].
    + left. split; [done|]. by constructor.
    + right. exists ((nd, zi) :: pre), a, b, suf, st', p, fl'. split; [done|]. split; [by constructor|done].
  - right. rewrite (proj2 (Z.eqb_neq p 0)) by (destruct T; lia).
    exists [], nd, zi, zs. eexists _, p, fl'. split; [done|]. split; [done|]. split; [done|].
    repeat case_match; try apply took_stats; done.
Qed.

Definition clamp_node (st : pmm) (node : Z) : Z :=
  if (node <? 0) || (g_nr_nodes st <=? node) then 0 else node.

Lemma clamp_node_range st FL node : pmm_ok st FL -> 0 <= clamp_node st node < g_nr_nodes st.
Proof.
  intros [_ N _ _]. unfold clamp_node.
  destruct (Z.ltb_spec node 0), (Z.leb_spec (g_nr_nodes st) node); cbn; lia.
Qed.

Lemma try_list_valid st FL node hint :
  pmm_ok st FL -> Forall (fun nz => valid_zone nz.1 nz.2) (try_list (g_nr_nodes st) (clamp_node st node) hint).
Proof.
  intros Hok. apply Forall_forall. intros [nd zi].
  rewrite (elem_try_list _ _ _ _ _ (clamp_node_range _ _ _ Hok)). intros [Hn Hz%try_order_zones].
  destruct Hok as [_ N _ _]. split; cbn [fst snd]; lia.
Qed.

Lemma page_alloc_node_unfold st order hint node :
  0 <= order <= 13 ->
  page_alloc_node st order hint node =
  alloc_first (try_list (g_nr_nodes st) (clamp_node st node) hint) st order (clamp_node st node).
Proof.
  intros Ho. unfold page_alloc_node, BUDDY_MAX_ORDER.
  by rewrite (proj2 (Z.ltb_ge order 0)), (proj2 (Z.ltb_ge 13 order)) by lia.
Qed.

(** C1: [page_alloc_node] either fails, changing nothing, and then no allowed
    zone of any node holds a free block of the order or larger; or it returns
    the address of one block that leaves the free set of the first zone, in the
    documented order of preference, that has room: the block is aligned to its
    size, lies in frames of that zone, was free and no longer is, is marked
    used, nothing else changes, and the invariant of every zone is kept. *)
Theorem page_alloc_node_correct st FL order hint node :
  pmm_ok st FL -> 0 <= order <= 13 ->
  (page_alloc_node st order hint node = (st, PMM_ALLOC_FAIL) /\
   forall nd zi, 0 <= nd < g_nr_nodes st -> zi ∈ try_order hint -> exhausted FL order (nd, zi)) \/
  (exists pre nd zi suf st' p fl',
     try_list (g_nr_nodes st) (clamp_node st node) hint = pre ++ (nd, zi) :: suf /\
     Forall (exhausted FL order) pre /\
     page_alloc_node st order hint node = (st', p * PMM_FRAME_SIZE) /\
     took st st' nd zi (FL nd zi) fl' order p /\ pmm_ok st' (upd_fl FL nd zi fl')).
Proof.
  intros Hok Ho. rewrite page_alloc_node_unfold by done.
  destruct (alloc_first_spec _ st FL order (clamp_node st node) Hok Ho (try_list_valid _ _ node hint Hok))
    as [[-> Hall]|(pre & nd & zi & suf & st' & p & fl' & E & Hp & -> & T)].
  - left. split; [done|]. intros nd zi Hnd Hzi. rewrite Forall_forall in Hall.
    apply Hall. apply elem_try_list; [by eapply clamp_node_range|done].
  - right. exists pre, nd, zi, suf, st', p, fl'. split; [done|]. split; [done|].
    assert (0 <= p < 2 ^ 32) as Hr.
    { eapply own_range; [apply Hok|]. apply (tk_own _ _ _ _ _ _ _ _ T).
      pose proof (pow2_pos order). unfold covers. lia. }
    rewrite pfn_to_phys_mul by done. split; [done|]. split; [done|]. by eapply took_ok.
Qed.

(** ** Address limits of the zones *)

Definition hint_limit (st : pmm) (hint : Z) : Z :=
  if hint =? ZONE_HIGHMEM then pmm_nr_frames st
  else if hint =? ZONE_DMA then ZONE_DMA_FRAME_LIMIT
  else if hint =? ZONE_DMA32 then ZONE_DMA32_FRAME_LIMIT
  else pmm_direct_end_pfn st.

Lemma try_order_limit st nd zi hint f :
  zi ∈ try_order hint -> own st nd zi f -> f < hint_limit st hint.
Proof.
  intros Hzi (Hz0 & Hz & _). unfold zone_of_pfn, try_order, hint_limit in *.
  unfold ZONE_HIGHMEM, ZONE_NORMAL, ZONE_DMA32, ZONE_DMA, ZONE_DMA_FRAME_LIMIT, ZONE_DMA32_FRAME_LIMIT in *.
  destruct (_ || _) eqn:E1; [lia|]. bool_props.
  destruct (Z.eqb_spec hint 3) as [->|]; [lia|].
  destruct (Z.eqb_spec hint 0) as [->|]; [|destruct (Z.eqb_spec hint 1) as [->|]];
    rewrite ?list_elem_of_cons in Hzi;
    destruct (Z.leb_spec (pmm_direct_end_pfn st) f); try (set_solver by lia);
    destruct (Z.ltb_spec f 4096); try (set_solver by lia);
    destruct (Z.ltb_spec f 1048576); set_solver by lia.
Qed.

(** An allocation never goes above its zone hint: with the DMA hint the
    whole block lies below 16 MiB, with DMA32 below 4 GiB, with the default
    hint inside the direct map (so the kernel has an address for it). *)
Theorem page_alloc_node_limit st FL order hint node st' r :
  pmm_ok st FL -> 0 <= order <= 13 -> page_alloc_node st order hint node = (st', r) -> r <> PMM_ALLOC_FAIL ->
  r + 2 ^ order * PMM_FRAME_SIZE <= hint_limit st hint * PMM_FRAME_SIZE.
Proof.
  intros Hok Ho E Hr. rewrite page_alloc_node_unfold in E by done.
  destruct (alloc_first_spec _ st FL order (clamp_node st node) Hok Ho (try_list_valid _ _ node hint Hok))
    as [[E' _]|(pre & nd & zi & suf & st1 & p & fl' & Et & _ & E' & T)]; [congruence|].
  rewrite E in E'. injection E' as -> ->.
  assert ((nd, zi) ∈ try_list (g_nr_nodes st) (clamp_node st node) hint) as Hin by (rewrite Et; set_solver).
  apply elem_try_list in Hin as [_ Hzi]; [|by eapply clamp_node_range].
  pose proof (pow2_pos order ltac:(lia)) as H2.
  assert (own st nd zi (p + 2 ^ order - 1)) as Hl by (apply T; unfold covers; lia).
  assert (own st nd zi p) as Hp by (apply T; unfold covers; lia).
  rewrite pfn_to_phys_mul by (eapply own_range; [apply Hok|done]).
  pose proof (try_order_limit _ _ _ _ _ Hzi Hl). unfold PMM_FRAME_SIZE. lia.
Qed.

(** ** Freeing *)

Lemma node_of_pfn_range st FL f : pmm_ok st FL -> 0 <= node_of_pfn st f < g_nr_nodes st.
Proof.
  intros [_ N R _]. unfold node_of_pfn. destruct (g_numa_live st); [|lia].
  induction R as [|r rs Hr _ IH]; cbn [range_node]; [lia|]. by case_match.
Qed.

Lemma zone_for_pfn_own st FL nd zi f :
  pmm_ok st FL -> own st nd zi f -> zone_for_pfn st f = Some (nd, zi) /\ valid_zone nd zi.
Proof.
  intros Hok (Hz & E1 & E2). unfold zone_for_pfn. rewrite E1, (proj2 (Z.ltb_ge zi 0)) by lia.
  split; [by rewrite E2|]. pose proof (node_of_pfn_range _ _ f Hok). destruct Hok as [_ N _ _].
  split; [lia|]. unfold zone_of_pfn, ZONE_HIGHMEM, ZONE_DMA, ZONE_DMA32, ZONE_NORMAL in E1.
  unfold NR_ZONES. repeat case_match; lia.
Qed.

(** An allocated block: aligned, of one zone, none of it free. *)
Definition allocated (st : pmm) (FL : free_map) (order p nd zi : Z) : Prop :=
  0 < p /\ p mod 2 ^ order = 0 /\
  forall f, covers order p f -> own st nd zi f /\ ~ free_in (FL nd zi) f.

Lemma page_free_spec st FL order p nd zi :
  pmm_ok st FL -> 0 <= order <= 13 -> allocated st FL order p nd zi ->
  exists fl', gave st (page_free st (p * PMM_FRAME_SIZE) order) nd zi (FL nd zi) fl' order p.
Proof.
  intros Hok Ho (Hp & Hal & Hown). unfold page_free, PMM_FRAME_SIZE.
  pose proof (pow2_pos order ltac:(lia)).
  destruct (Hown p ltac:(unfold covers; lia)) as [Hop _].
  pose proof (own_range _ _ _ _ (ok_geo _ _ Hok) Hop) as Hr.
  destruct (zone_for_pfn_own _ _ _ _ _ Hok Hop) as [Ez Hv].
  rewrite (proj2 (Z.eqb_neq (p * 4096) 0)) by lia.
  assert (Z.land (p * 4096) (4096 - 1) = 0) as ->.
  { change (4096 - 1) with (Z.ones 12). rewrite Z.land_ones by lia. change (2 ^ 12) with 4096. apply Z.mod_mul. lia. }
  cbn [Z.eqb negb]. rewrite <- pfn_to_phys_mul, phys_to_pfn_to_phys, Ez by done.
  apply buddy_free_spec; try done; try apply Hv; try apply Hok. done.
Qed.

(** C2: [page_free] of an allocated block puts exactly that block back: the
    invariant of every zone holds again (in particular no two free buddies are
    left unmerged), the free set of the block's own zone grows by its frames and
    no other zone changes. *)
Theorem page_free_correct st FL order p nd zi :
  pmm_ok st FL -> 0 <= order <= 13 -> allocated st FL order p nd zi ->
  let st' := page_free st (p * PMM_FRAME_SIZE) order in
  exists fl', pmm_ok st' (upd_fl FL nd zi fl') /\
    (forall f, free_in fl' f <-> free_in (FL nd zi) f \/ covers order p f) /\
    free_frames (zones_n st' nd zi) = u32 (free_frames (zones_n st nd zi) + 2 ^ order).
Proof.
  intros Hok Ho Ha st'. pose proof Ha as (Hp & _ & Hown).
  destruct (zone_for_pfn_own _ _ nd zi p Hok) as [_ Hv].
  { apply Hown. pose proof (pow2_pos order). unfold covers. lia. }
  destruct (page_free_spec _ _ _ _ _ _ Hok Ho Ha) as (fl' & V). exists fl'.
  split; [eapply pmm_ok_local; [done|apply V|apply V]|]. split; [apply V|].
  destruct (gv_ok _ _ _ _ _ _ _ _ V) as [_ F]. fold st' in F. rewrite F, (gv_total _ _ _ _ _ _ _ _ V).
  destruct (ok_zone _ _ Hok nd zi Hv) as [_ ->]. unfold u32. by rewrite Zplus_mod_idemp_l.
Qed.

Lemma took_allocated st st' FL nd zi fl' order p :
  took st st' nd zi (FL nd zi) fl' order p -> allocated st' (upd_fl FL nd zi fl') order p nd zi.
Proof.
  intros [_ TL _ TP TA TW _ TD _]. split; [done|]. split; [done|]. intros f Hc.
  rewrite upd_fl_same. split; [|by apply TD]. rewrite geo_own by apply TL. by apply TW.
Qed.

(** Allocating a block and freeing it again leaves every zone with the free
    set and the free count it had, and the invariant holds. *)
Theorem page_alloc_free_roundtrip st FL order hint node st1 r :
  pmm_ok st FL -> 0 <= order <= 13 -> page_alloc_node st order hint node = (st1, r) -> r <> PMM_ALLOC_FAIL ->
  let st2 := page_free st1 r order in
  exists FL2, pmm_ok st2 FL2 /\ forall nd zi, valid_zone nd zi ->
    (forall f, free_in (FL2 nd zi) f <-> free_in (FL nd zi) f) /\
    free_frames (zones_n st2 nd zi) = free_frames (zones_n st nd zi).
Proof.
  intros Hok Ho E Hr st2. rewrite page_alloc_node_unfold in E by done.
  destruct (alloc_first_spec _ st FL order (clamp_node st node) Hok Ho (try_list_valid _ _ node hint Hok))
    as [[E' _]|(pre & nd & zi & suf & st1' & p & fl1 & Et & _ & E' & T)]; [congruence|].
  rewrite E in E'. injection E' as <- ->. pose proof (took_ok _ _ _ _ _ _ _ _ Hok T) as Hok1.
  pose proof (took_allocated _ _ _ _ _ _ _ _ T) as Ha.
  assert (0 <= p < 2 ^ 32) as Hp.
  { eapply own_range; [apply Hok|]. apply (tk_own _ _ _ _ _ _ _ _ T).
    pose proof (pow2_pos order). unfold covers. lia. }
  destruct (page_free_spec _ _ _ _ _ _ Hok1 Ho Ha) as (fl2 & V).
  unfold st2. rewrite pfn_to_phys_mul by done. unfold PMM_FRAME_SIZE in V. rewrite upd_fl_same in V.
  exists (upd_fl (upd_fl FL nd zi fl1) nd zi fl2).
  split; [eapply pmm_ok_local; [done|apply V|apply V]|]. intros a b Hv.
  destruct (decide ((a, b) = (nd, zi))) as [[= -> ->]|Hne].
  - rewrite upd_fl_same. split.
    + intros f. rewrite (gv_free _ _ _ _ _ _ _ _ V), (tk_free _ _ _ _ _ _ _ _ T). done.
    + destruct (gv_ok _ _ _ _ _ _ _ _ V) as [_ ->]. destruct (ok_zone _ _ Hok nd zi Hv) as [_ ->].
      rewrite (gv_total _ _ _ _ _ _ _ _ V), (tk_total _ _ _ _ _ _ _ _ T). f_equal. lia.
  - rewrite !upd_fl_other by done. split; [done|].
    rewrite (lo_zones _ _ _ _ (gv_loc _ _ _ _ _ _ _ _ V)) by done.
    by rewrite (lo_zones _ _ _ _ (tk_loc _ _ _ _ _ _ _ _ T)) by done.
Qed.

(** ** The self-check *)

(** Distinct numbers of an interval are at most its length many. *)
Lemma NoDup_interval (l : list Z) a b :
  NoDup l -> (forall x, x ∈ l -> a <= x < b) -> Z.of_nat (length l) <= Z.max 0 (b - a).
Proof.
  intros Hnd Hl. assert (l ⊆+ ((fun x => a + x) <$> seqZ0 (b - a))) as Hsub.
  { apply NoDup_submseteq; [done|]. intros x Hx. apply Hl in Hx. apply list_elem_of_fmap.
    exists (x - a). split; [lia|]. apply elem_seqZ0. lia. }
  apply submseteq_length in Hsub. unfold seqZ0 in Hsub. rewrite !length_fmap, length_seq in Hsub. lia.
Qed.

Lemma list_short st nd zi fl H o :
  geo_ok st -> zinv st nd zi fl H -> Z.of_nat (length (fl o)) <= BUDDY_FRAME_HARD_CAP.
Proof.
  intros G I. pose proof (go_cap _ G). unfold BUDDY_FRAME_HARD_CAP in *.
  assert (Z.of_nat (length (fl o)) <= Z.max 0 (pmm_nr_frames st - pmm_pfn_base st)); [|lia].
  apply NoDup_interval; [apply I|]. intros p Hp.
  eapply own_pfn, zv_own; [exact I|exact Hp|]. by eapply zv_self.
Qed.

Lemma validate_list_ok walk st z o cur prev walked l :
  0 <= o <= 13 -> dll (links st) prev l cur ->
  (forall p, p ∈ l -> 0 < p < 2 ^ 32 /\ pmm_pfn_base st <= p < pmm_nr_frames st /\
     node_of_pfn st p = znode z /\ page_state st p = o) ->
  0 <= walked -> walked + Z.of_nat (length l) <= BUDDY_FRAME_HARD_CAP ->
  nr_at_order z o = walked + Z.of_nat (length l) -> (length l < walk)%nat ->
  validate_list walk st z o cur prev walked = true.
Proof.
  intros Ho. revert cur prev walked walk.
  induction l as [|p l IH]; intros cur prev walked walk Hd Hl Hw Hcap Hn Hf; (destruct walk as [|walk]; [cbn in Hf; lia|]);
    cbn [validate_list dll length] in *.
  - rewrite Hd. apply Z.eqb_eq. lia.
  - destruct Hd as (-> & Hprev & Hd). destruct (Hl p ltac:(set_solver)) as (Hp & Hr & Hnode & Hps).
    unfold BUDDY_FRAME_HARD_CAP in Hcap.
    rewrite (proj2 (Z.eqb_neq (p * 4096) 0)) by lia.
    assert (Z.land (p * 4096) (PMM_FRAME_SIZE - 1) = 0) as ->.
    { change (PMM_FRAME_SIZE - 1) with (Z.ones 12). rewrite Z.land_ones by lia. change (2 ^ 12) with 4096.
      apply Z.mod_mul. lia. }
    cbn [Z.eqb negb]. rewrite phys_to_pfn_mul by lia.
    rewrite (proj2 (Z.leb_gt (pmm_nr_frames st) p)), (proj2 (Z.ltb_ge p (pmm_pfn_base st))) by lia. cbn [orb].
    rewrite Hnode, Z.eqb_refl, Hps, (u8_small o), Z.eqb_refl by lia. cbn [negb].
    unfold link_load_at at 1. rewrite Hprev, Z.eqb_refl. cbn [negb].
    rewrite u32_small by lia. rewrite (proj2 (Z.ltb_ge (nr_at_order z o + 4) (walked + 1))) by lia.
    apply IH; [done| |lia|unfold BUDDY_FRAME_HARD_CAP; lia|lia|lia]. set_solver.
Qed.

(** The kernel's own consistency check accepts every state of the
    invariant, so it reports an anomaly only when the lists really are
    corrupt. *)
Theorem pmm_validate_complete st FL : pmm_ok st FL -> pmm_validate st = true.
Proof.
  intros Hok. unfold pmm_validate. apply forallb_forall. intros [nd zi] Hin%list_elem_of_In.
  apply list_elem_of_bind in Hin as (nd' & Hin & Hnd%elem_seqZ0).
  apply list_elem_of_bind in Hin as (zi' & Hin & Hzi%elem_seqZ0). apply list_elem_of_singleton in Hin as [= <- <-].
  cbn [fst snd]. apply forallb_forall. intros o Hoo%list_elem_of_In. apply elem_seqZ0 in Hoo.
  pose proof (ok_geo _ _ Hok) as G. pose proof (ok_nodes _ _ Hok) as N.
  assert (valid_zone nd zi) as Hv by (split; lia).
  destruct (ok_zone _ _ Hok nd zi Hv) as [I _]. pose proof (list_short _ _ _ _ _ o G I) as Hlen.
  assert (nr_at_order (zones_n st nd zi) o = Z.of_nat (length (FL nd zi o))) as Hn.
  { rewrite (zv_cnt _ _ _ _ _ I) by lia. apply u32_small. unfold BUDDY_FRAME_HARD_CAP in Hlen. lia. }
  apply (validate_list_ok _ _ _ _ _ _ _ (FL nd zi o)); [lia|by apply I; lia| |lia|lia|lia|].
  - intros p Hp. assert (own st nd zi p) as Hop by (eapply zv_own; [exact I|exact Hp|by eapply zv_self]).
    pose proof (own_range _ _ _ _ G Hop). split; [pose proof (zv_align _ _ _ _ _ I _ _ Hp); lia|].
    split; [by eapply own_pfn|]. split; [|by eapply zv_tag].
    destruct Hop as (_ & _ & ->). symmetry. apply go_node; [done|apply Hv..].
  - rewrite Hn, u32_small by (unfold BUDDY_FRAME_HARD_CAP in Hlen; lia). lia.
Qed.

(** ** The reserve *)

(** A user frame is refused, without touching the allocator, exactly when
    granting it would leave fewer free frames than the configured reserve; every
    refusal is counted and latches the low-memory state. *)
Theorem user_alloc_reserve st a :
  0 <= pmm_free_frames st < 2 ^ 32 -> 0 <= reserve_kb a < 2 ^ 32 -> g_reserve_frames st = -1 ->
  let r := reserve_kb a / 4 in
  let '(st', f) := pmm_alloc_frame_user st a in
  (pmm_free_frames st < r + 1 ->
     f = PMM_ALLOC_FAIL /\ g_low st' = true /\ g_refused st' = u32 (g_refused st + 1) /\
     page_state st' = page_state st /\ links st' = links st /\ zones_n st' = zones_n st) /\
  (r + 1 <= pmm_free_frames st ->
     exists st1, zones_n st1 = zones_n st /\ page_state st1 = page_state st /\ links st1 = links st /\
       geo st1 = geo st /\ (st', f) = page_alloc st1 (inject a) (cpu_node a) 0 ZONE_HIGHMEM).
Proof.
  intros Hfr Hcfg Hres r. unfold pmm_alloc_frame_user, reserve_allows, reserve_frames.
  rewrite Hres, (proj2 (Z.ltb_ge (reserve_kb a) 0)) by lia. cbn [Z.ltb Z.compare].
  pose proof (Z.div_pos (reserve_kb a) 4). assert (r < 2 ^ 30) by (apply Z.div_lt_upper_bound; lia).
  fold r. assert (s32 r = r) as ->.
  { unfold s32. rewrite u32_small by lia. destruct (Z.ltb_spec r 2147483648); lia. }
  rewrite (u32_small r), (u32_small (r + 1)) by lia. set (st1 := set_reserve r _ _ st).
  destruct (Z.leb_spec (r + 1) (pmm_free_frames st)) as [Hle|Hgt].
  - destruct (page_alloc _ _ _ _ _) as [st' f] eqn:E. split; [lia|]. intros _.
    match type of E with page_alloc ?s _ _ _ _ = _ => exists s end.
    repeat split; [..|symmetry; exact E]; by repeat case_match.
  - split; [|lia]. intros _. done.
Qed.
End PmmSpec.
