(* ===== verification/PmmSeed.v ===== *)
(** * Seeding the buddy lists (kernel/mem/pmm.c, [seed_range])

    [seed_range] covers each run of usable frames with the largest aligned
    blocks that fit.  The theorem shows the result is a state of the
    allocator's invariant, "precisely the shape coalescing would have converged
    on", and that exactly the usable frames of the range become free. *)

From stdpp Require Import base list sets.
From Stdlib Require Import ZArith Lia Bool.
From S2P Require Import Prelude Pmm PmmInv PmmSpec.
Import Pmm PmmInv PmmSpec.
Open Scope Z_scope.

Module PmmSeed.

(** ** The order chosen for a block *)

Definition fits (pfn run_end o : Z) : Prop := pfn mod 2 ^ o = 0 /\ pfn + 2 ^ o <= run_end.

Lemma land_low_mod pfn o : 0 <= o <= 13 -> Z.land pfn (bit o - 1) = pfn mod 2 ^ o.
Proof.
  intros Ho. rewrite bit_pow by done. rewrite <- Z.land_ones by lia.
  rewrite Z.ones_equiv. by rewrite <- Z.sub_1_r.
Qed.

Lemma seed_order_spec n pfn run_end :
  (n <= 13)%nat -> 0 <= pfn < run_end -> run_end <= 2 ^ 32 - 8192 ->
  let o := seed_order n pfn run_end in
  0 <= o <= Z.of_nat n /\ fits pfn run_end o /\ (forall k, o < k <= Z.of_nat n -> ~ fits pfn run_end k).
Proof.
  induction n as [|n IH]; intros Hn Hp Hr; cbn [seed_order].
  - split; [lia|]. split; [|intros; lia]. split; [by rewrite Z.mod_1_r|lia].
  - set (o := Z.of_nat (S n)). rewrite land_low_mod, bit_pow by lia.
    pose proof (pow2_le13 o ltac:(lia)). rewrite u32_small by lia.
    destruct (Z.eqb_spec (pfn mod 2 ^ o) 0), (Z.leb_spec (pfn + 2 ^ o) run_end); cbn [andb].
    { split; [lia|]. split; [done|lia]. }
    all: destruct (IH ltac:(lia) Hp Hr) as (H1 & H2 & H3); split; [lia|]; split; [done|];
      intros k Hk [F1 F2]; destruct (decide (k = o)) as [->|]; [lia|]; apply (H3 k); [lia|done].
Qed.

(** ** One run *)

Definition below (FL : free_map) (pfn : Z) : Prop :=
  forall nd zi f, valid_zone nd zi -> free_in (FL nd zi) f -> f < pfn.

(** The blocks that end at [pfn] could not have been larger. *)
Definition greedy (fl : Z -> list Z) (pfn run_end : Z) : Prop :=
  forall o b, b ∈ fl o -> o < 13 -> b mod 2 ^ (o + 1) = 0 -> b + 2 ^ o = pfn -> run_end < pfn + 2 ^ o.

Lemma seed_block_ok st FL nd zi pfn run_end :
  pmm_ok st FL -> valid_zone nd zi -> below FL pfn -> greedy (FL nd zi) pfn run_end ->
  0 < pfn < run_end -> run_end <= 2 ^ 32 - 8192 -> (forall f, pfn <= f < run_end -> own st nd zi f) ->
  let o := seed_order 13 pfn run_end in
  let st' := seed_block st nd zi pfn o in
  let FL' := upd_fl FL nd zi ((FL nd zi)⟦o ↦ pfn :: FL nd zi o⟧) in
  pmm_ok st' FL' /\ below FL' (pfn + 2 ^ o) /\ greedy (FL' nd zi) (pfn + 2 ^ o) run_end /\
  loc nd zi st st' /\ (forall f, pfn < f -> page_state st' f = page_state st f) /\
  bit o = 2 ^ o /\ 0 < 2 ^ o /\ pfn + 2 ^ o <= run_end.
Proof.
  intros Hok Hv Hb Hg Hp Hr Hown o st' FL'.
  destruct (seed_order_spec 13 pfn run_end ltac:(lia) ltac:(lia) Hr) as (Ho & [Hal Hfit] & Hmax). fold o in Ho, Hal, Hfit, Hmax.
  pose proof (pow2_pos o ltac:(lia)) as H2. pose proof (ok_geo _ _ Hok) as G.
  destruct (ok_zone _ _ Hok nd zi Hv) as [I F]. set (fl := FL nd zi) in *.
  assert (zinv st nd zi fl (covers o pfn)) as I0.
  { destruct I. split; try done; [naive_solver|]. intros f Hf Hc. pose proof (Hb nd zi f Hv Hf). unfold covers in Hc. lia. }
  destruct (push_ok st nd zi fl (covers o pfn) pfn o G I0) as (I1 & L1 & F1); try done; try lia.
  { intros f Hc. split; [|done]. apply Hown. unfold covers in Hc. lia. }
  { intros Ho13 Hin.
    destruct (buddy_cases pfn o ltac:(lia) ltac:(lia) Hal) as (B0 & B1 & B2 & B3 & B4 & B5 & B6).
    set (b := Z.lxor pfn (2 ^ o)) in *.
    assert (b + 2 ^ o - 1 < pfn) as Hlt.
    { apply (Hb nd zi); [done|]. exists o, b. split; [done|]. unfold covers. lia. }
    rewrite (proj2 (Z.ltb_lt b pfn)) in B2, B3, B4 by lia.
    assert (covers (o + 1) b pfn) as Hc by (apply B4; left; unfold covers; lia).
    unfold covers in Hc. rewrite pow2_S in Hc by lia.
    assert (b + 2 ^ o = pfn) as Hend.
    { unfold covers in B4. rewrite pow2_S in B4 by lia.
      destruct (proj1 (B4 (b + 2 ^ o)) ltac:(lia)); lia. }
    specialize (Hg o b Hin Ho13 B2 Hend). lia. }
  set (st1 := zone_push st nd zi pfn o) in *. set (fl1 := fl⟦o ↦ pfn :: fl o⟧) in *.
  assert (Hst' : st' = set_zone nd zi (set_managed (u32 (managed (zones_n st1 nd zi) + bit o))
     (set_free_frames (u32 (free_frames (zones_n st1 nd zi) + bit o)) (zones_n st1 nd zi))) st1) by done.
  destruct (set_zone_ok st1 nd zi fl1 _ (set_managed (u32 (managed (zones_n st1 nd zi) + bit o))
     (set_free_frames (u32 (free_frames (zones_n st1 nd zi) + bit o)) (zones_n st1 nd zi))) I1)
    as (I2 & L2 & E2); try done. rewrite <- Hst' in I2, L2, E2.
  pose proof (loc_trans _ _ _ _ _ L1 L2) as L. rewrite bit_pow by lia.
  split; [|split; [|split; [|split; [done|split; [|done]]]]].
  - apply (pmm_ok_local st); [done|done|]. split.
    + eapply zinv_ext; [|exact I2]. cbn. tauto.
    + rewrite E2. cbn [free_frames set_managed set_free_frames]. rewrite F1, F, bit_pow by lia. unfold fl1. rewrite total_upd by lia. cbn [length].
      unfold u32. rewrite Zplus_mod_idemp_l. f_equal. lia.
  - intros a b f Hab. unfold FL'. destruct (decide ((a, b) = (nd, zi))) as [[= -> ->]|Hne].
    + rewrite upd_fl_same. unfold fl1. rewrite free_in_cons. unfold covers. intros [?|Hf]; [lia|].
      pose proof (Hb nd zi f Hv Hf). lia.
    + rewrite upd_fl_other by done. intros Hf. pose proof (Hb a b f Hab Hf). lia.
  - intros k b. unfold FL'. rewrite upd_fl_same. unfold fl1. rewrite elem_cons_upd.
    intros [[-> ->]|Hin] Hk Hb2 Hend.
    + specialize (Hmax (o + 1) ltac:(lia)). unfold fits in Hmax. rewrite pow2_S in Hmax, Hb2 by lia. lia.
    + exfalso. pose proof (zv_ord _ _ _ _ _ _ _ I Hin). pose proof (pow2_pos k ltac:(lia)).
      assert (b + 2 ^ k - 1 < pfn); [|lia]. apply (Hb nd zi); [done|]. exists k, b. split; [done|].
      unfold covers. lia.
  - intros f Hf. rewrite Hst'. cbn. unfold st1, zone_push. cbv zeta. cbn.
    rewrite upd_other by lia. by repeat case_match.
Qed.

Lemma cover_run_ok fuel st FL nd zi pfn run_end freed :
  pmm_ok st FL -> valid_zone nd zi -> below FL pfn -> greedy (FL nd zi) pfn run_end ->
  0 < pfn <= run_end -> run_end <= 2 ^ 32 - 8192 -> (forall f, pfn <= f < run_end -> own st nd zi f) ->
  (Z.to_nat (run_end - pfn) <= fuel)%nat ->
  exists st' fl' freed', cover_run fuel st nd zi pfn run_end freed = (st', run_end, freed') /\
    pmm_ok st' (upd_fl FL nd zi fl') /\ below (upd_fl FL nd zi fl') run_end /\ loc nd zi st st' /\
    (forall f, run_end <= f -> page_state st' f = page_state st f) /\
    (forall f, free_in fl' f <-> free_in (FL nd zi) f \/ pfn <= f < run_end).
Proof.
  revert st FL pfn freed.
  induction fuel as [|fuel IH]; intros st FL pfn freed Hok Hv Hb Hg Hp Hr Hown Hf; cbn [cover_run].
  all: assert (pfn = run_end -> exists st' fl' freed', (st, pfn, freed) = (st', run_end, freed') /\
    pmm_ok st' (upd_fl FL nd zi fl') /\ below (upd_fl FL nd zi fl') run_end /\ loc nd zi st st' /\
    (forall f, run_end <= f -> page_state st' f = page_state st f) /\
    (forall f, free_in fl' f <-> free_in (FL nd zi) f \/ pfn <= f < run_end)) as Hend.
  1, 3: intros ->; exists st, (FL nd zi), freed; split; [done|]; split;
    [apply (pmm_ok_local st); [done|apply loc_refl|by apply Hok]|];
    split; [|split; [apply loc_refl|split; [done|intros; split; [by left|intros [|]; [done|lia]]]]];
    intros a b f Hab; destruct (decide ((a, b) = (nd, zi))) as [[= -> ->]|Hne];
    rewrite ?upd_fl_same, ?upd_fl_other by done; by apply Hb.
  { apply Hend. lia. }
  destruct (Z.ltb_spec pfn run_end); [|apply Hend; lia]. clear Hend.
  destruct (seed_block_ok st FL nd zi pfn run_end Hok Hv Hb Hg ltac:(lia) Hr Hown)
    as (Hok1 & Hb1 & Hg1 & L1 & P1 & Ebit & H2 & Hle).
  set (o := seed_order 13 pfn run_end) in *. set (st1 := seed_block st nd zi pfn o) in *.
  set (fl1 := (FL nd zi)⟦o ↦ pfn :: FL nd zi o⟧) in *. rewrite Ebit, u32_small by lia.
  destruct (IH st1 _ (pfn + 2 ^ o) (u32 (freed + 2 ^ o)) Hok1 Hv Hb1 Hg1)
    as (st' & fl' & freed' & E & Hok' & Hb' & L' & P' & D'); [lia|lia| |lia|].
  { intros f Hfr. rewrite geo_own by apply L1. apply Hown. lia. }
  exists st', fl', freed'. split; [done|].
  assert (forall a b, upd_fl (upd_fl FL nd zi fl1) nd zi fl' a b = upd_fl FL nd zi fl' a b) as Eu.
  { intros a b. destruct (decide ((a, b) = (nd, zi))) as [[= -> ->]|Hne];
      rewrite ?upd_fl_same, ?upd_fl_other by done; done. }
  split; [|split; [|split; [by eapply loc_trans|split]]].
  - destruct Hok' as [G N R Z]. split; try done. intros a b Hab. rewrite <- Eu. auto.
  - intros a b f Hab. rewrite <- Eu. by apply Hb'.
  - intros f Hfr. rewrite P' by done. apply P1. lia.
  - intros f. rewrite D', upd_fl_same. unfold fl1. rewrite free_in_cons. unfold covers.
    split; intros; destruct (decide (f < pfn + 2 ^ o)); naive_solver lia.
Qed.

(** ** The end of a run *)

Definition in_run (st : pmm) (z : zone) (to f : Z) : Prop :=
  f < end_pfn z /\ f < to /\ page_state st f = PS_USED /\ node_of_pfn st f = znode z.

Lemma run_end_spec fuel st z to r :
  (Z.to_nat (to - r) <= fuel)%nat ->
  let e := run_end_loop fuel st z to r in
  r <= e /\ (forall f, r <= f < e -> in_run st z to f) /\ ~ in_run st z to e.
Proof.
  unfold in_run. revert r. induction fuel as [|fuel IH]; intros r Hf; cbn [run_end_loop].
  { split; [lia|]. split; [lia|]. lia. }
  destruct (_ && _) eqn:E.
  - bool_props. destruct (IH (r + 1)) as (H1' & H2' & H3'); [lia|]. split; [lia|]. split; [|done].
    intros f Hr. destruct (decide (f = r)) as [->|]; [done|]. apply H2'. lia.
  - split; [lia|]. split; [lia|]. intros (E1 & E2 & E3 & E4).
    apply Z.ltb_lt in E1, E2. apply Z.eqb_eq in E3, E4. rewrite E1, E2, E3, E4 in E. done.
Qed.

(** ** The whole range *)

Section Loop.
Context (st0 : pmm) (FL0 : free_map) (from to : Z).
Context (Hto : to <= pmm_nr_frames st0) (Hzero : from = 0 -> page_state st0 0 <> PS_USED) (Hfrom : 0 <= from).

(** A frame the loop will hand over to its zone. *)
Definition usable (nd zi f : Z) : Prop := own st0 nd zi f /\ page_state st0 f = PS_USED.

(** No usable frame continues, in the same zone, a block that could have been
    merged with what follows it. *)
Definition edge (FL : free_map) (pfn : Z) : Prop :=
  forall nd zi o b, valid_zone nd zi -> b ∈ FL nd zi o -> o < 13 -> b mod 2 ^ (o + 1) = 0 ->
    b + 2 ^ o = pfn -> pfn < to -> ~ usable nd zi pfn.

Record seeding (st : pmm) (FL : free_map) (pfn : Z) : Prop := {
  sd_ok : pmm_ok st FL;
  sd_geo : geo st = geo st0;
  sd_zgeo : forall a b, zgeo (zones_n st a b) = zgeo (zones_n st0 a b);
  sd_below : below FL pfn;
  sd_edge : edge FL pfn;
  sd_ps : forall f, pfn <= f -> page_state st f = page_state st0 f;
  sd_free : forall nd zi f, valid_zone nd zi ->
    free_in (FL nd zi) f <-> free_in (FL0 nd zi) f \/ (from <= f < pfn /\ usable nd zi f)
}.

Lemma seeding_skip st FL pfn :
  seeding st FL pfn -> from <= pfn -> (forall nd zi, ~ usable nd zi pfn) -> seeding st FL (pfn + 1).
Proof using All.
  intros [Ok Eg Ez Hb He Hps Hfr] Hpf Hno. split; try done.
  - intros nd zi f Hv Hf. pose proof (Hb nd zi f Hv Hf). lia.
  - intros nd zi o b Hv Hin Ho _ Hend. exfalso.
    destruct (ok_zone _ _ Ok nd zi Hv) as [I _]. pose proof (zv_ord _ _ _ _ _ _ _ I Hin).
    pose proof (pow2_pos o ltac:(lia)).
    assert (pfn < pfn); [|lia]. apply (Hb nd zi); [done|]. exists o, b. split; [done|]. unfold covers. lia.
  - intros f Hf. apply Hps. lia.
  - intros nd zi f Hv. rewrite Hfr by done. split; intros [|[Hr Hu]]; [by left|right; split; [lia|done]|by left|].
    destruct (decide (f = pfn)) as [->|]; [by apply Hno in Hu|]. right. split; [lia|done].
Qed.

Lemma seeding_run st FL pfn nd zi freed fuel :
  seeding st FL pfn -> from <= pfn < to -> usable nd zi pfn -> (Z.to_nat (to - pfn) <= fuel)%nat ->
  exists st' FL' e freed', pfn < e <= to /\
    cover_run fuel st nd zi pfn (run_end_loop fuel st (zones_n st nd zi) to pfn) freed = (st', e, freed') /\
    seeding st' FL' e.
Proof using All.
  intros [Ok Eg Ez Hb He Hps Hfr] Hpf [Hop Hup] Hfu.
  assert (forall a b f, own st a b f <-> own st0 a b f) as Ho by (intros; by apply geo_own).
  destruct (run_end_spec fuel st (zones_n st nd zi) to pfn Hfu) as (R1 & R2 & R3).
  set (e := run_end_loop fuel st (zones_n st nd zi) to pfn) in *.
  pose proof (ok_geo _ _ Ok) as G. destruct (zone_for_pfn_own st FL nd zi pfn Ok) as [_ Hv]; [by apply Ho|].
  pose proof Hv as [Hv1 Hv2]. pose proof (go_node _ G nd zi Hv1 Hv2) as Hn.
  pose proof Eg as [= Enr Ebase _ _ _ _].
  assert (forall f, pfn <= f < to -> own st nd zi f <-> f < end_pfn (zones_n st nd zi) /\ node_of_pfn st f = nd) as Hz.
  { intros f Hf. pose proof (own_pfn _ _ _ _ (proj2 (Ho nd zi pfn) Hop)) as Hop'.
    pose proof (go_zone _ G nd zi pfn Hv1 Hv2 ltac:(lia)) as Hzp.
    pose proof (go_zone _ G nd zi f Hv1 Hv2 ltac:(lia)) as Hzf.
    destruct (proj2 (Ho nd zi pfn) Hop) as (Hzi & Hopz & _). apply Hzp in Hopz.
    unfold own. split.
    - intros (_ & Ezf & ?). apply Hzf in Ezf. split; [lia|done].
    - intros [? ?]. split; [done|]. split; [|done]. apply Hzf. lia. }
  assert (in_run st (zones_n st nd zi) to pfn) as Hir.
  { pose proof (proj2 (Ho nd zi pfn) Hop) as Hop'. apply Hz in Hop' as [? ?]; [|lia].
    split; [done|]. split; [lia|]. split; [by rewrite Hps|by rewrite Hn]. }
  assert (pfn < e) as Hlt by (destruct (decide (e = pfn)) as [E|]; [by rewrite E in R3|lia]).
  assert (0 < pfn) as Hp0 by (destruct (decide (pfn = 0)) as [->|]; [by destruct Hzero; [lia|]|lia]).
  assert (e <= to) as Hle by (destruct (R2 (e - 1) ltac:(lia)) as (_ & ? & _); lia).
  destruct (cover_run_ok fuel st FL nd zi pfn e freed Ok Hv Hb) as (st' & fl' & freed' & E & Ok' & Hb' & L' & P' & D');
    [| lia | | | lia |].
  { intros o b Hin Ho13 Hb2 Hend. exfalso. by apply (He nd zi o b Hv Hin Ho13 Hb2 Hend); [lia|]. }
  { pose proof (go_nr _ G). lia. }
  { intros f Hf. apply Hz; [lia|]. destruct (R2 f Hf) as (? & _ & _ & ?). split; [done|congruence]. }
  exists st', (upd_fl FL nd zi fl'), e, freed'. split; [lia|]. split; [done|]. split; try done.
  - by rewrite (lo_geo _ _ _ _ L').
  - intros a b. by rewrite (lo_zgeo _ _ _ _ L').
  - intros a b o c Hab Hin Ho13 Hc2 Hend Hlte [Hoe Hue].
    destruct (decide ((a, b) = (nd, zi))) as [[= -> ->]|Hne].
    + apply R3. apply (proj2 (Ho _ _ _)) in Hoe. apply Hz in Hoe as [? ?]; [|lia]. split; [done|]. split; [done|].
      split; [|congruence]. rewrite Hps by lia. done.
    + rewrite upd_fl_other in Hin by done. destruct (ok_zone _ _ Ok a b Hab) as [I _].
      pose proof (zv_ord _ _ _ _ _ _ _ I Hin). pose proof (pow2_pos o ltac:(lia)).
      assert (e - 1 < pfn); [|lia]. apply (Hb a b); [done|]. exists o, c. split; [done|]. unfold covers. lia.
  - intros f Hf. rewrite P' by done. apply Hps. lia.
  - intros a b f Hab. destruct (decide ((a, b) = (nd, zi))) as [[= -> ->]|Hne].
    + rewrite upd_fl_same, D', Hfr by done. split.
      * intros [[?|[? ?]]|Hf]; [by left|right; split; [lia|done]|].
        right. split; [lia|]. destruct (R2 f Hf) as (F1 & F2 & F3 & F4).
        split; [apply Ho, Hz; [lia|]; split; [done|congruence]|]. rewrite <- Hps by lia. done.
      * intros [?|[Hf Hu]]; [by left; left|]. destruct (decide (f < pfn)); [left; right; split; [lia|done]|].
        right. lia.
    + rewrite upd_fl_other, Hfr by done. split; intros [?|[Hf Hu]]; [by left|right; split; [lia|done]|by left|].
      right. split; [|done]. destruct (decide (f < pfn)); [lia|]. exfalso. apply Hne.
      destruct (R2 f ltac:(lia)) as (F1 & F2 & F3 & F4).
      assert (own st nd zi f) as (_ & O1 & O2) by (apply Hz; [lia|]; split; [done|congruence]).
      destruct Hu as [(_ & O3 & O4)%(proj2 (Ho _ _ _)) _]. congruence.
Qed.

Lemma seed_loop_ok fuel st FL pfn freed :
  seeding st FL pfn -> from <= pfn <= to -> (Z.to_nat (to - pfn) <= fuel)%nat ->
  exists FL', seeding (seed_loop fuel st pfn to freed).1 FL' to.
Proof using All.
  revert st FL pfn freed. induction fuel as [|fuel IH]; intros st FL pfn freed Hs Hp Hf; cbn [seed_loop].
  { assert (pfn = to) as -> by lia. by exists FL. }
  destruct (Z.ltb_spec pfn to).
  2: { assert (pfn = to) as -> by lia. by exists FL. }
  assert (page_state st pfn = page_state st0 pfn) as Eps by (by apply Hs).
  assert (forall a b f, own st a b f <-> own st0 a b f) as Ho by (intros; apply geo_own, Hs).
  destruct (Z.eqb_spec (page_state st pfn) PS_USED) as [Hu|Hnu]; cbn [negb].
  2: { apply (IH _ FL); [|lia|lia]. apply seeding_skip; [done|lia|]. intros a b [_ ?]. congruence. }
  destruct (zone_for_pfn st pfn) as [[nd zi]|] eqn:Ez.
  2: { apply (IH _ FL); [|lia|lia]. apply seeding_skip; [done|lia|]. intros a b [Hoo%(proj2 (Ho _ _ _)) _].
       destruct (zone_for_pfn_own _ _ _ _ _ (sd_ok _ _ _ Hs) Hoo). congruence. }
  assert (usable nd zi pfn) as Hus.
  { split; [|congruence]. apply Ho. unfold zone_for_pfn in Ez.
    destruct (Z.ltb_spec (zone_of_pfn st pfn) 0); [done|]. injection Ez as <- <-. done. }
  destruct (seeding_run st FL pfn nd zi freed (Z.to_nat (to - pfn)) Hs ltac:(lia) Hus ltac:(lia))
    as (st' & FL' & e & freed' & Hlt & -> & Hs').
  apply (IH _ FL'); [done|lia|lia].
Qed.
End Loop.

(** A zone of empty lists. *)
Definition empty_zones (st : pmm) : Prop :=
  forall nd zi, valid_zone nd zi ->
    (forall o, 0 <= o <= 13 -> free_lists (zones_n st nd zi) o = 0 /\ nr_at_order (zones_n st nd zi) o = 0) /\
    free_frames (zones_n st nd zi) = 0.

Definition no_free : free_map := fun _ _ _ => [].

Lemma no_free_in nd zi f : ~ free_in (no_free nd zi) f.
Proof. intros (o & p & Hp & _). cbn in Hp. set_solver. Qed.

Lemma empty_ok st :
  geo_ok st -> 1 <= g_nr_nodes st <= PMM_MAX_NODES ->
  Forall (fun r => 0 <= nr_node r < g_nr_nodes st) (g_nrng st) -> empty_zones st ->
  (forall f, pmm_pfn_base st <= f < pmm_nr_frames st -> page_state st f = PS_USED \/ page_state st f = PS_NONE) ->
  pmm_ok st no_free.
Proof.
  intros G N R E P. split; try done. intros nd zi Hv. destruct (E nd zi Hv) as [El Ef]. split; [|done].
  split; unfold no_free; try done; try (intros o Ho; by apply El).
  all: try (intros; set_solver); try (intros; apply NoDup_nil_2).
  intros f Hf Hps. apply own_pfn in Hf. unfold PS_USED, PS_NONE in P. specialize (P f Hf). lia.
Qed.

Lemma seed_range_ok st from to :
  geo_ok st -> 1 <= g_nr_nodes st <= PMM_MAX_NODES ->
  Forall (fun r => 0 <= nr_node r < g_nr_nodes st) (g_nrng st) -> empty_zones st ->
  (forall f, pmm_pfn_base st <= f < pmm_nr_frames st -> page_state st f = PS_USED \/ page_state st f = PS_NONE) ->
  (from = 0 -> page_state st 0 <> PS_USED) -> 0 <= from <= to -> to <= pmm_nr_frames st ->
  let st' := (seed_range st from to).1 in
  exists FL, pmm_ok st' FL /\
    forall nd zi f, valid_zone nd zi ->
      free_in (FL nd zi) f <-> from <= f < to /\ own st nd zi f /\ page_state st f = PS_USED.
Proof.
  intros G N R E P H0 Hft Hto st'. pose proof (empty_ok st G N R E P) as Hok.
  assert (seeding st no_free from to st no_free from) as Hs.
  { split; try done.
    - intros nd zi f _ Hf. by apply no_free_in in Hf.
    - intros nd zi o b _ Hin. unfold no_free in Hin. set_solver.
    - intros nd zi f _. split; [by left|]. intros [|[? _]]; [done|lia]. }
  destruct (seed_loop_ok st no_free from to Hto H0 ltac:(lia) (Z.to_nat (to - from)) st no_free from 0 Hs)
    as [FL Hs']; [lia|lia|].
  exists FL. split; [apply Hs'|]. intros nd zi f Hv. unfold st'.
  rewrite (sd_free _ _ _ _ _ _ _ Hs' nd zi f Hv). unfold usable.
  split; [|by right]. intros [Hf|]; [by apply no_free_in in Hf|done].
Qed.
(** Seeding a fresh allocator establishes its invariant, with exactly the
    usable frames of the range free: a frame of [from, to) is free afterwards if
    and only if it was tagged available ([PS_USED]) and lies in the managed span. *)
Theorem seed_range_correct st from to :
  geo_ok st -> 1 <= g_nr_nodes st <= PMM_MAX_NODES ->
  Forall (fun r => 0 <= nr_node r < g_nr_nodes st) (g_nrng st) -> empty_zones st ->
  (forall f, pmm_pfn_base st <= f < pmm_nr_frames st -> page_state st f = PS_USED \/ page_state st f = PS_NONE) ->
  (from = 0 -> page_state st 0 <> PS_USED) -> 0 <= from <= to -> to <= pmm_nr_frames st ->
  let st' := (seed_range st from to).1 in
  exists FL, pmm_ok st' FL /\
    forall nd zi f, valid_zone nd zi ->
      free_in (FL nd zi) f <-> from <= f < to /\ own st nd zi f /\ page_state st f = PS_USED.
Proof. apply seed_range_ok. Qed.
End PmmSeed.
