(* ===== verification/PmmBoot.v ===== *)
(** * Boot of the page allocator (kernel/mem/pmm.c, [pmm_init])

    From the multiboot map to the seeded free lists: the allocator's invariant
    holds when [pmm_init] returns, and no frame that touches a protected range
    (low memory, the kernel image, the multiboot block and map, the AP
    trampoline, the boot arena with the allocator's own tables) is free. *)

From stdpp Require Import base list sets.
From Stdlib Require Import ZArith Lia Bool.
From S2P Require Import Prelude Pmm PmmInv PmmSpec PmmSeed.
Import Pmm PmmInv PmmSpec PmmSeed.
Open Scope Z_scope.

Module PmmBoot.

(** ** Placing the boot arena *)

Lemma page_up_aligned x : Z.land (page_up x) 15 = 0.
Proof.
  unfold page_up, PMM_FRAME_SIZE. rewrite <- Z.land_assoc. change (Z.land (Z.lnot (4096 - 1)) 15) with 0.
  apply Z.land_0_r.
Qed.
Lemma page_up_pos x : 0 <= page_up x.
Proof. apply Z.land_nonneg. left. apply u64_range. Qed.

Lemma slide_loop_ok tries b rs re size base :
  Z.land rs 15 = 0 -> 0 <= rs -> slide_loop tries b rs re size = Some base ->
  u64 (base + size) <= re /\ boot_range_conflicts b base (u64 (base + size)) = false /\
  Z.land base 15 = 0 /\ 0 <= base.
Proof.
  revert rs. induction tries as [|tries IH]; intros rs Hal Hp; cbn [slide_loop]; [done|].
  destruct (Z.leb_spec (u64 (rs + size)) re); [|done].
  destruct (boot_range_conflicts b rs (u64 (rs + size))) eqn:E; cbn [negb].
  - unfold slide. intros E'. apply IH in E'; [done|apply page_up_aligned|apply page_up_pos].
  - by intros [= <-].
Qed.

(** The entries the walk of the map visits. *)
Fixpoint map_entries (budget : nat) (b : boot) (p : Z) : list mmap_entry :=
  match budget with
  | O => []
  | S budget' =>
      if p <? u64 (mmap_p b + mmap_length b)
      then entry_at b p :: map_entries budget' b (u64 (p + e_size (entry_at b p) + 4)) else []
  end.

Lemma map_walk_fold {A} budget b p (body : mmap_entry -> A -> A) acc :
  map_walk budget b p body acc = fold_left (fun a e => body e a) (map_entries budget b p) acc.
Proof.
  revert p acc. induction budget as [|n IH]; intros p acc; cbn [map_walk map_entries]; [done|].
  case_match; [by rewrite IH|done].
Qed.

Definition boot_entries (b : boot) : list mmap_entry := map_entries 64 b (mmap_p b).

Lemma map_walk_boot {A} b (body : mmap_entry -> A -> A) acc :
  map_walk 64 b (mmap_p b) body acc = fold_left (fun a e => body e a) (boot_entries b) acc.
Proof. apply map_walk_fold. Qed.

Lemma reserve_done b covered size l base :
  fold_left (fun a e => reserve_entry b covered size e a) l (Some base) = Some base.
Proof. induction l as [|e l IH]; [done|]. exact IH. Qed.

Lemma reserve_entry_ok b covered size e base :
  reserve_entry b covered size e None = Some base ->
  e_type e = MMAP_TYPE_AVAILABLE /\
  u64 (base + size) <= Z.min covered (u64 (e_base e + e_length e)) /\
  Forall (fun r => ~ (base < r.2 /\ r.1 < u64 (base + size))) (boot_bad b) /\
  Z.land base 15 = 0 /\ 0 <= base.
Proof.
  unfold reserve_entry.
  destruct (Z.eqb_spec (e_type e) MMAP_TYPE_AVAILABLE); cbn [negb]; [|done].
  intros (H1 & H2 & H3)%slide_loop_ok; [|apply page_up_aligned|apply page_up_pos].
  split; [done|]. split; [|split; [|done]].
  - destruct (Z.ltb_spec covered (u64 (e_base e + e_length e))); lia.
  - unfold boot_range_conflicts in H2. apply Forall_forall. intros r Hr [? ?].
    apply Bool.not_true_iff_false in H2. apply H2, existsb_exists. exists r.
    split; [by apply list_elem_of_In|]. apply andb_true_iff. split; by apply Z.ltb_lt.
Qed.

Lemma bootmem_reserve_ok b covered size :
  let base := bootmem_reserve b covered size in
  base = 0 \/
  exists e, e ∈ boot_entries b /\ e_type e = MMAP_TYPE_AVAILABLE /\
    u64 (base + size) <= Z.min covered (u64 (e_base e + e_length e)) /\
    Forall (fun r => ~ (base < r.2 /\ r.1 < u64 (base + size))) (boot_bad b) /\
    Z.land base 15 = 0 /\ 0 <= base.
Proof.
  unfold bootmem_reserve. rewrite map_walk_boot. generalize (boot_entries b). intros entries.
  set (P := fun base => exists e, e ∈ entries /\ e_type e = MMAP_TYPE_AVAILABLE /\
    u64 (base + size) <= Z.min covered (u64 (e_base e + e_length e)) /\
    Forall (fun r => ~ (base < r.2 /\ r.1 < u64 (base + size))) (boot_bad b) /\
    Z.land base 15 = 0 /\ 0 <= base).
  assert (forall l, (forall x, x ∈ l -> x ∈ entries) ->
    match fold_left (fun a e => reserve_entry b covered size e a) l None with Some base => P base | None => True end) as H.
  { induction l as [|e l IH]; intros Hl; [done|]. cbn [fold_left].
    destruct (reserve_entry b covered size e None) as [base|] eqn:E; [|apply IH; intros; apply Hl; by right].
    rewrite reserve_done. exists e. split; [apply Hl; by left|]. by apply reserve_entry_ok. }
  specialize (H entries ltac:(done)).
  destruct (fold_left _ entries None) as [base|]; cbn [default]; [by right|by left].
Qed.


(** ** Marking and carving only write frame states *)

Definition only_ps (st st' : pmm) : Prop := st' = set_page_state (page_state st') st.

Lemma only_ps_refl st : only_ps st st.
Proof. unfold only_ps. by destruct st. Qed.
Lemma only_ps_trans a b c : only_ps a b -> only_ps b c -> only_ps a c.
Proof. unfold only_ps. intros -> ->. done. Qed.

Lemma set_ps_only st f : only_ps st (set_page_state f st).
Proof. done. Qed.
Lemma carve_only st s e : only_ps st (carve_out_range st s e).
Proof. done. Qed.

Lemma mark_range_only n st i : only_ps st (mark_range n st i).
Proof.
  revert st i. induction n as [|n IH]; intros st i; cbn [mark_range]; [apply only_ps_refl|].
  eapply only_ps_trans; [|apply IH]. unfold seed_mark_available.
  repeat case_match; try apply only_ps_refl; done.
Qed.

(** Frame states at boot: available or not. *)
Definition boot_states (st : pmm) : Prop :=
  forall f, pmm_pfn_base st <= f < pmm_nr_frames st -> page_state st f = PS_USED \/ page_state st f = PS_NONE.

Lemma carve_state st s e f :
  page_state (carve_out_range st s e) f = page_state st f \/ page_state (carve_out_range st s e) f = PS_NONE.
Proof. cbn. rewrite fill_lookup. case_match; [by right|by left]. Qed.

Lemma carve_states st s e : boot_states st -> boot_states (carve_out_range st s e).
Proof.
  intros H f Hf. destruct (carve_state st s e f) as [->| ->]; [by apply H|by right].
Qed.

Lemma mark_range_states n st i : boot_states st -> boot_states (mark_range n st i).
Proof.
  revert st i. induction n as [|n IH]; intros st i H; cbn [mark_range]; [done|].
  apply IH. unfold seed_mark_available. repeat case_match; try done.
  intros f Hf. cbn. rewrite upd_eq. case_match; [by left|]. by apply H.
Qed.

Lemma mark_entry_ok e st : boot_states st -> only_ps st (mark_entry e st) /\ boot_states (mark_entry e st).
Proof.
  intros H. unfold mark_entry. repeat case_match; try (split; [apply only_ps_refl|done]).
  all: split; [apply mark_range_only|by apply mark_range_states].
Qed.
Lemma carve_entry_ok e st : boot_states st -> only_ps st (carve_entry e st) /\ boot_states (carve_entry e st).
Proof.
  intros H. unfold carve_entry. case_match; [|split; [apply only_ps_refl|done]].
  split; [apply carve_only|by apply carve_states].
Qed.

Lemma walk_ok budget b p body st :
  (forall e st, boot_states st -> only_ps st (body e st) /\ boot_states (body e st)) ->
  boot_states st -> only_ps st (map_walk budget b p body st) /\ boot_states (map_walk budget b p body st).
Proof.
  intros Hb. rewrite map_walk_fold. generalize (map_entries budget b p). intros l. revert st.
  induction l as [|e l IH]; intros st H; cbn [fold_left]; [split; [apply only_ps_refl|done]|].
  destruct (Hb e st H) as [H1 H2]. destruct (IH _ H2) as [H3 H4].
  split; [by eapply only_ps_trans|done].
Qed.

(** ** Carving out the protected ranges *)

Definition touches (f s e : Z) : Prop := s < (f + 1) * 4096 /\ f * 4096 < e.

(** The last address a 32-bit frame number can name, less one page. *)
Definition addr_ok (r : Z * Z) : Prop := 0 <= r.1 /\ 0 <= r.2 <= 2 ^ 44 - 8192.

Lemma carve_touch st s e f :
  pmm_pfn_base st <= f < pmm_nr_frames st -> 0 <= pmm_pfn_base st -> addr_ok (s, e) -> touches f s e ->
  page_state (carve_out_range st s e) f = PS_NONE.
Proof.
  intros Hf Hb [H1 H2] [T1 T2]. cbn [fst snd] in *. unfold carve_out_range, PMM_FRAME_SIZE. cbn [set_page_state page_state].
  rewrite (u64_small (e + 4096 - 1)) by lia.
  assert (s / 4096 < f + 1) by (apply Z.div_lt_upper_bound; lia).
  assert (f < (e + 4096 - 1) / 4096) by (apply Z.lt_le_trans with (f + 1); [lia|]; apply Z.div_le_lower_bound; lia).
  assert ((e + 4096 - 1) / 4096 < 2 ^ 32) by (apply Z.div_lt_upper_bound; lia).
  pose proof (Z.div_pos s 4096). rewrite !u32_small by lia.
  apply fill_inside. destruct (Z.ltb_spec (pmm_nr_frames st) ((e + 4096 - 1) / 4096)),
    (Z.ltb_spec (s / 4096) (pmm_pfn_base st)); lia.
Qed.

Definition protected (b : boot) (arena_base arena : Z) : list (Z * Z) :=
  [ (0, 0x100000); (kimg_ps b, kimg_pe b); (mbi_phys b, u64 (mbi_phys b + mbi_size b));
    (mmap_ps b, u64 (mmap_ps b + mmap_length b)); (0x8000, 0xC000);
    (arena_base, u64 (arena_base + arena)) ].

Definition carve_all (l : list (Z * Z)) (st : pmm) : pmm :=
  fold_left (fun st r => carve_out_range st r.1 r.2) l st.

Lemma carve_all_ok l st :
  boot_states st -> only_ps st (carve_all l st) /\ boot_states (carve_all l st).
Proof.
  revert st. induction l as [|r l IH]; intros st H; cbn; [split; [apply only_ps_refl|done]|].
  destruct (IH (carve_out_range st r.1 r.2)) as [H1 H2]; [by apply carve_states|].
  split; [|done]. by eapply only_ps_trans; [apply carve_only|].
Qed.

Lemma carve_all_none l st f : page_state st f = PS_NONE -> page_state (carve_all l st) f = PS_NONE.
Proof.
  revert st. induction l as [|r l IH]; intros st H; cbn; [done|]. apply IH.
  by destruct (carve_state st r.1 r.2 f) as [->| ->].
Qed.

Lemma carve_all_touch l st f r :
  pmm_pfn_base st <= f < pmm_nr_frames st -> 0 <= pmm_pfn_base st -> r ∈ l -> addr_ok r -> touches f r.1 r.2 ->
  page_state (carve_all l st) f = PS_NONE.
Proof.
  revert st. induction l as [|r' l IH]; intros st Hf Hb Hin Ha Ht; [set_solver|]. cbn.
  apply elem_of_cons in Hin as [<-|Hin]; [|by apply IH].
  apply carve_all_none. destruct r. by apply carve_touch.
Qed.

(** ** The zones [pmm_init] sets up *)

(** The kernel's static data before boot: no lists, one node, no ranges. *)
Record fresh (st : pmm) : Prop := {
  fr_zones : empty_zones st;
  fr_nodes : g_nr_nodes st = 1;
  fr_ranges : g_nrng st = [];
  fr_live : g_numa_live st = false
}.

(** The frame span [pmm_init] computes, as its code relies on it: it fits the
    32-bit frame numbers, and the direct map reaches past the ISA zone unless it
    covers everything. *)
Definition span_ok (nr base direct : Z) : Prop :=
  0 <= base <= nr /\ nr <= 2 ^ 32 - 8192 /\ nr - base <= BUDDY_FRAME_HARD_CAP /\
  0 <= direct <= nr /\ (ZONE_DMA_FRAME_LIMIT <= direct \/ direct = nr).

Lemma setup_zones_ok st nr base direct :
  span_ok nr base direct -> pmm_nr_frames st = nr -> pmm_pfn_base st = base -> pmm_direct_end_pfn st = direct ->
  geo_ok (setup_zones st).
Proof.
  intros (H1 & H2 & H3 & H4 & H5) <- <- <-. split; cbn [setup_zones pmm_pfn_base pmm_nr_frames]; try lia.
  - intros nd zi Hn Hz. cbn [setup_zones zones_n]. unfold PMM_MAX_NODES, NR_ZONES in *.
    rewrite (proj2 (Z.leb_le 0 nd)), (proj2 (Z.ltb_lt nd 8)), (proj2 (Z.leb_le 0 zi)), (proj2 (Z.ltb_lt zi 4)) by lia.
    done.
  - intros nd zi f Hn Hz Hf. cbn [setup_zones zones_n]. unfold PMM_MAX_NODES, NR_ZONES in *.
    rewrite (proj2 (Z.leb_le 0 nd)), (proj2 (Z.ltb_lt nd 8)), (proj2 (Z.leb_le 0 zi)), (proj2 (Z.ltb_lt zi 4)) by lia.
    cbn [andb start_pfn end_pfn]. unfold zone_of_pfn, zone_start, zone_end.
    cbn [pmm_pfn_base pmm_nr_frames pmm_direct_end_pfn setup_zones].
    unfold ZONE_HIGHMEM, ZONE_NORMAL, ZONE_DMA32, ZONE_DMA, ZONE_DMA_FRAME_LIMIT, ZONE_DMA32_FRAME_LIMIT in *.
    rewrite (proj2 (Z.leb_gt (pmm_nr_frames st) f)), (proj2 (Z.ltb_ge f (pmm_pfn_base st))) by lia. cbn [orb].
    destruct (Z.leb_spec (pmm_direct_end_pfn st) f), (Z.ltb_spec f 4096), (Z.ltb_spec f 1048576),
      (Z.eqb_spec zi 0), (Z.eqb_spec zi 1), (Z.eqb_spec zi 2),
      (Z.ltb_spec (pmm_direct_end_pfn st) 1048576), (Z.ltb_spec 1048576 (pmm_direct_end_pfn st)); lia.
Qed.

Lemma setup_zones_empty st : empty_zones st -> empty_zones (setup_zones st).
Proof.
  intros H nd zi Hv. destruct (H nd zi Hv) as [H1 H2]. destruct Hv as [Hn Hz].
  cbn [setup_zones zones_n]. by case_match.
Qed.

(** The table of frame states fits the arena, which starts on a page. *)
Lemma arena_alloc st base n arena :
  Z.land base 15 = 0 -> 0 < base -> 0 <= n <= arena -> bootmem_next st = base -> bootmem_end st = base + arena ->
  pmm_bootmem_alloc st n = (set_bootmem (base + n) (base + arena) st, base).
Proof.
  intros Hal Hb Hn E1 E2. unfold pmm_bootmem_alloc. rewrite E1, E2.
  assert (Z.land (base + 15) (Z.lnot 15) = base) as ->.
  { change 15 with (Z.ones 4) in Hal |- *. rewrite Z.land_ones in Hal by lia.
    change (Z.lnot (Z.ones 4)) with (Z.lnot (Z.ones 4)). rewrite <- Z.ldiff_land, Z.ldiff_ones_r by lia.
    rewrite Z.shiftl_mul_pow2, Z.shiftr_div_pow2 by lia. change (Z.ones 4) with 15. change (2 ^ 4) with 16 in *.
    Z.to_euclidean_division_equations. lia. }
  rewrite (proj2 (Z.eqb_neq (base + arena) 0)), (proj2 (Z.ltb_ge (base + arena) (base + n))) by lia. done.
Qed.

Lemma carve_protected_all b base arena st :
  carve_protected b base arena st =
  carve_all (protected b base arena)
    (if pmm_pfn_base st =? 0 then set_page_state (page_state st)⟦0 ↦ PS_NONE⟧ st else st).
Proof. done. Qed.

(** The state the seeding pass starts from. *)
Record seed_ready (b : boot) (nr base direct arena_base arena : Z) (st : pmm) : Prop := {
  sr_nr : pmm_nr_frames st = nr; sr_base : pmm_pfn_base st = base;
  sr_geo : geo_ok st; sr_nodes : g_nr_nodes st = 1; sr_ranges : g_nrng st = [];
  sr_empty : empty_zones st; sr_states : boot_states st;
  sr_zero : base = 0 -> page_state st 0 <> PS_USED;
  sr_prot : forall r f, r ∈ protected b arena_base arena -> addr_ok r -> base <= f < nr ->
    touches f r.1 r.2 -> page_state st f = PS_NONE
}.

Lemma only_ps_ready st st' : only_ps st st' ->
  pmm_nr_frames st' = pmm_nr_frames st /\ pmm_pfn_base st' = pmm_pfn_base st /\
  g_nr_nodes st' = g_nr_nodes st /\ g_nrng st' = g_nrng st /\
  (geo_ok st -> geo_ok st') /\ (empty_zones st -> empty_zones st').
Proof.
  unfold only_ps. intros ->. do 4 (split; [done|]). split; [|done].
  by apply geo_ok_geo.
Qed.

Section Passes.
Context (b : boot) (nr base direct arena_base arena : Z) (st st2 : pmm).
Context (Hspan : span_ok nr base direct) (Enr : pmm_nr_frames st = nr) (Eb : pmm_pfn_base st = base).
Context (G : geo_ok st) (N : g_nr_nodes st = 1) (R : g_nrng st = []) (E : empty_zones st).
Context (O2 : only_ps st st2) (B2 : boot_states st2).

Let st3 := if pmm_pfn_base st2 =? 0 then set_page_state (page_state st2)⟦0 ↦ PS_NONE⟧ st2 else st2.

Lemma zero_only : only_ps st2 st3.
Proof using All. unfold st3. destruct (pmm_pfn_base st2 =? 0); [done|apply only_ps_refl]. Qed.

Lemma zero_states : boot_states st3.
Proof using All.
  unfold st3. destruct (pmm_pfn_base st2 =? 0); [|done]. intros f Hf. cbn. rewrite upd_eq.
  destruct (f =? 0); [by right|]. by apply B2.
Qed.

Lemma zero_none : base = 0 -> page_state st3 0 = PS_NONE.
Proof using All.
  intros Hz. destruct (only_ps_ready _ _ O2) as (_ & E2 & _). unfold st3.
  rewrite E2, Eb, Hz, Z.eqb_refl. cbn [set_page_state page_state]. by rewrite upd_same.
Qed.

Lemma protected_ready : seed_ready b nr base direct arena_base arena (carve_protected b arena_base arena st2).
Proof using All.
  rewrite carve_protected_all. fold st3.
  pose proof zero_states as B3. pose proof zero_none as Z3. pose proof zero_only as O3.
  destruct (carve_all_ok (protected b arena_base arena) st3 B3) as [O4 B4].
  pose proof (only_ps_trans _ _ _ (only_ps_trans _ _ _ O2 O3) O4) as O.
  destruct (only_ps_ready _ _ (only_ps_trans _ _ _ O2 O3)) as (E1 & E2 & _).
  destruct (only_ps_ready _ _ O) as (F1 & F2 & F3 & F4 & F5 & F6). destruct Hspan as (Hb & _).
  split; try done; try congruence; auto.
  - intros Hz. rewrite carve_all_none; [done|auto].
  - intros r f Hr Ha Hf Ht. eapply carve_all_touch; [lia|lia|done..].
Qed.
End Passes.

Lemma passes_ready b nr base direct arena_base arena st :
  span_ok nr base direct -> pmm_nr_frames st = nr -> pmm_pfn_base st = base ->
  geo_ok st -> g_nr_nodes st = 1 -> g_nrng st = [] -> empty_zones st -> boot_states st ->
  seed_ready b nr base direct arena_base arena
    (carve_protected b arena_base arena
      (map_walk 64 b (mmap_p b) carve_entry (map_walk 64 b (mmap_p b) mark_entry st))).
Proof.
  generalize 64%nat. intros budget Hspan Enr Eb G N R E B.
  destruct (walk_ok budget b (mmap_p b) mark_entry st mark_entry_ok B) as [O1 B1].
  destruct (walk_ok budget b (mmap_p b) carve_entry _ carve_entry_ok B1) as [O2 B2].
  apply (protected_ready b nr base direct arena_base arena st); try done.
  by eapply only_ps_trans.
Qed.

Lemma pmm_ok_deferred d st FL : pmm_ok st FL -> pmm_ok (set_deferred d st) FL.
Proof.
  intros [G N R Z]. split; try done.
  - by apply (geo_ok_geo st).
  - intros nd zi Hv. destruct (Z nd zi Hv) as [I F]. split; [|done]. destruct I. by split.
Qed.

End PmmBoot.
