(* ===== verification/PmmExamples.v ===== *)
(** * A small machine for the page allocator

    64 frames, the upper half usable, no NUMA: concrete states on which the
    allocator's theorems apply, and the behaviour of [page_alloc_below], which
    keeps neither the free count nor the frame's state. *)

From stdpp Require Import base list sets.
From Stdlib Require Import ZArith Lia Bool.
From S2P Require Import Prelude Pmm PmmInv PmmSpec PmmSeed PmmBoot.
Import Pmm PmmInv PmmSpec PmmSeed PmmBoot.
Open Scope Z_scope.

Module PmmExamples.

Definition zone0 : zone := Zone 0 0 0 0 (fun _ => 0) (fun _ => 0) 0 0.

(** The kernel's zeroed static data. *)
Definition static0 : pmm :=
  Pmm (fun _ => 0) (fun _ _ => 0) (fun _ _ => zone0) 0 0 0 [] 1 false false (fun _ => 0) (fun _ => 0)
      0 0 0 (-1) false 0.

(** 64 frames of which 32..63 are available. *)
Definition mini0 : pmm :=
  set_page_state (fun f => if (32 <=? f) && (f <? 64) then PS_USED else PS_NONE)
    (setup_zones (set_spans 64 0 64 static0)).
Definition mini : pmm := (seed_range mini0 0 64).1.

Lemma static0_fresh : fresh static0.
Proof. split; [|done..]. intros nd zi _. done. Qed.

Lemma mini0_geo : geo_ok mini0.
Proof.
  apply (geo_ok_geo (setup_zones (set_spans 64 0 64 static0))); [done..|].
  apply (setup_zones_ok _ 64 0 64); [|done..].
  unfold span_ok, BUDDY_FRAME_HARD_CAP, ZONE_DMA_FRAME_LIMIT. lia.
Qed.

Lemma mini0_empty : empty_zones mini0.
Proof. apply setup_zones_empty. intros nd zi _. done. Qed.

Lemma mini0_states f :
  pmm_pfn_base mini0 <= f < pmm_nr_frames mini0 -> page_state mini0 f = PS_USED \/ page_state mini0 f = PS_NONE.
Proof. intros _. cbn [mini0 set_page_state page_state]. case_match; [by left|by right]. Qed.

Lemma mini_seeded : exists FL, pmm_ok mini FL /\
  forall nd zi f, valid_zone nd zi ->
    free_in (FL nd zi) f <-> 0 <= f < 64 /\ own mini0 nd zi f /\ page_state mini0 f = PS_USED.
Proof.
  apply seed_range_ok; [apply mini0_geo|done|done|apply mini0_empty|apply mini0_states|done|done|done].
Qed.

(** Witness of [seed_range_correct]. *)
Lemma seed_range_correct_witness : exists FL, pmm_ok mini FL /\ free_in (FL 0 0) 40.
Proof.
  destruct (seed_range_correct mini0 0 64 mini0_geo ltac:(done) ltac:(done) mini0_empty mini0_states
    ltac:(done) ltac:(done) ltac:(done)) as (FL & Hok & Hfree).
  exists FL. split; [exact Hok|]. apply Hfree; [by split|]. by vm_compute.
Defined.

(** Witness of [pmm_validate_complete]. *)
Lemma pmm_validate_complete_witness : pmm_validate mini = true.
Proof. destruct mini_seeded as (FL & Hok & _). exact (pmm_validate_complete mini FL Hok). Defined.

(** Witness of [page_alloc_node_correct]: an order-2 block of the machine. *)
Lemma page_alloc_node_correct_witness :
  exists FL, pmm_ok mini FL /\
  exists pre nd zi suf st' p fl',
     try_list (g_nr_nodes mini) (clamp_node mini 0) ZONE_DEFAULT = pre ++ (nd, zi) :: suf /\
     page_alloc_node mini 2 ZONE_DEFAULT 0 = (st', p * PMM_FRAME_SIZE) /\
     took mini st' nd zi (FL nd zi) fl' 2 p.
Proof.
  destruct mini_seeded as (FL & Hok & _). exists FL. split; [exact Hok|].
  destruct (page_alloc_node_correct mini FL 2 ZONE_DEFAULT 0 Hok ltac:(lia))
    as [[E _]|(pre & nd & zi & suf & st' & p & fl' & H1 & _ & H3 & H4 & _)].
  - exfalso. assert ((page_alloc_node mini 2 ZONE_DEFAULT 0).2 <> PMM_ALLOC_FAIL) as H by (by vm_compute).
    apply H. by rewrite E.
  - exists pre, nd, zi, suf, st', p, fl'.
    split; [exact H1|split; [exact H3|exact H4]].
Defined.

(** Witness of [page_alloc_node_limit]: the DMA32 hint. *)
Lemma page_alloc_node_limit_witness :
  (page_alloc_node mini 3 ZONE_DMA32 0).2 + 8 * 4096 <= 1048576 * 4096.
Proof.
  destruct mini_seeded as (FL & Hok & _).
  apply (page_alloc_node_limit mini FL 3 ZONE_DMA32 0 (page_alloc_node mini 3 ZONE_DMA32 0).1
    (page_alloc_node mini 3 ZONE_DMA32 0).2 Hok); [lia|apply surjective_pairing|by vm_compute].
Defined.

(** Witness of [page_alloc_free_roundtrip]. *)
Lemma page_alloc_free_roundtrip_witness :
  let st2 := page_free (page_alloc_node mini 2 ZONE_DEFAULT 0).1 (page_alloc_node mini 2 ZONE_DEFAULT 0).2 2 in
  exists FL2, pmm_ok st2 FL2 /\ free_frames (zones_n st2 0 0) = free_frames (zones_n mini 0 0).
Proof.
  destruct mini_seeded as (FL & Hok & _).
  destruct (page_alloc_free_roundtrip mini FL 2 ZONE_DEFAULT 0 (page_alloc_node mini 2 ZONE_DEFAULT 0).1
    (page_alloc_node mini 2 ZONE_DEFAULT 0).2 Hok ltac:(lia) (surjective_pairing _) ltac:(by vm_compute))
    as (FL2 & H1 & H2).
  exists FL2. split; [exact H1|]. apply (H2 0 0). by split.
Defined.

(** The machine after one order-2 allocation: block 32..35. *)
Lemma mini_alloc : exists FL nd zi fl' p,
  pmm_ok (page_alloc_node mini 2 ZONE_DEFAULT 0).1 (upd_fl FL nd zi fl') /\
  allocated (page_alloc_node mini 2 ZONE_DEFAULT 0).1 (upd_fl FL nd zi fl') 2 p nd zi.
Proof.
  destruct mini_seeded as (FL & Hok & _).
  rewrite page_alloc_node_unfold by lia.
  destruct (alloc_first_spec _ mini FL 2 (clamp_node mini 0) Hok ltac:(lia) (try_list_valid _ _ 0 ZONE_DEFAULT Hok))
    as [[E _]|(pre & nd & zi & suf & st' & p & fl' & _ & _ & -> & T)].
  - exfalso. assert ((page_alloc_node mini 2 ZONE_DEFAULT 0).2 <> PMM_ALLOC_FAIL) as H by (by vm_compute).
    apply H. rewrite page_alloc_node_unfold by lia. by rewrite E.
  - exists FL, nd, zi, fl', p. split; [exact (took_ok _ _ _ _ _ _ _ _ Hok T)|exact (took_allocated _ _ _ _ _ _ _ _ T)].
Qed.

(** Witness of [page_free_correct]. *)
Lemma page_free_correct_witness : exists p nd zi fl' fl2,
  let st := (page_alloc_node mini 2 ZONE_DEFAULT 0).1 in
  allocated st (fun _ _ => fl') 2 p nd zi /\
  (forall f, free_in fl2 f <-> free_in fl' f \/ covers 2 p f) /\
  free_frames (zones_n (page_free st (p * PMM_FRAME_SIZE) 2) nd zi) = u32 (free_frames (zones_n st nd zi) + 4).
Proof.
  destruct mini_alloc as (FL & nd & zi & fl' & p & Hok & Ha).
  destruct (page_free_correct _ _ 2 p nd zi Hok ltac:(lia) Ha) as (fl2 & _ & H2 & H3).
  exists p, nd, zi, fl', fl2. rewrite upd_fl_same in H2. split; [|split; [exact H2|exact H3]].
  destruct Ha as (H4 & H5 & H6). rewrite upd_fl_same in H6. split; [exact H4|split; [exact H5|exact H6]].
Defined.

(** Witness of [user_alloc_reserve]: 32 free frames, a reserve of 1024. *)
Lemma user_alloc_reserve_witness :
  let '(st', f) := pmm_alloc_frame_user mini (AEnv false 0 4096) in
  f = PMM_ALLOC_FAIL /\ g_low st' = true /\ g_refused st' = 1.
Proof.
  assert (pmm_free_frames mini = 32) as E by (vm_compute; reflexivity).
  assert (g_reserve_frames mini = -1) as E2 by (vm_compute; reflexivity).
  pose proof (user_alloc_reserve mini (AEnv false 0 4096) ltac:(rewrite E; lia) ltac:(cbn; lia) E2) as H.
  cbv zeta in H. rewrite E in H.
  destruct (pmm_alloc_frame_user mini (AEnv false 0 4096)) as [st' f]. destruct H as [H _].
  destruct H as (H1 & H2 & H3 & _); [vm_compute; reflexivity|].
  split; [exact H1|]. split; [exact H2|]. rewrite H3. vm_compute. reflexivity.
Defined.

(** A machine with 4 MiB: one available entry, the kernel at 1 MiB. *)
Definition boot4 : boot :=
  Boot true 0x90000 0x100 0x91000 0x91000 24
    (fun _ => MmapEntry 20 0 0x400000 MMAP_TYPE_AVAILABLE)
    0x100000 0x180000 (2 ^ 64 - 1) (fun x => x) false.

Lemma boot4_protected :
  let arena := u32 (u32 (1024 - 0) * 4 + PMM_FRAME_SIZE) in
  protected boot4 (bootmem_reserve boot4 0x400000 arena) arena =
  [(0, 0x100000); (0x100000, 0x180000); (0x90000, 0x90100); (0x91000, 0x91018); (0x8000, 0xC000);
   (0x180000, 0x182000)].
Proof. vm_compute. reflexivity. Qed.


(** [page_alloc_below] takes a block off its list but leaves the frame's
    order tag and the zone's free count as they were.  On the small machine:
    frame 32 is allocated, frame 33 goes to a device through
    [page_alloc_below], the device writes its buffer, frame 32 is freed: its
    buddy 33 still carries the tag of a free block, is merged, and the next
    order-1 allocation hands out frames 32 and 33 although 33 is in use. *)
Theorem page_alloc_below_double_allocation :
  let '(st1, a) := page_alloc_node mini 0 ZONE_DEFAULT 0 in
  let '(st2, r) := page_alloc_below st1 0 (2 ^ 32) in
  let st3 := link_store_at st2 r 1 (40 * 4096) in
  let st4 := page_free st3 a 0 in
  let '(st5, q) := page_alloc_node st4 1 ZONE_DEFAULT 0 in
  a = 32 * 4096 /\ r = 33 * 4096 /\ q = 32 * 4096 /\
  pmm_free_frames st2 = pmm_free_frames st1 /\ page_state st2 33 = 0.
Proof. by vm_compute. Qed.
End PmmExamples.
