(* ===== verification/PageAlloc.v ===== *)
(** * What the page allocator promises its clients

    The kernel heap (kernel/mem/slab.c, kernel/mem/kmalloc.c) uses two operations
    of the page allocator.  [PageAlloc] is that interface, [PageAllocLaws] the
    promise the clients are proved against; the instances below discharge it with
    [page_alloc] and [page_free] of kernel/mem/pmm.c. *)

From stdpp Require Import base list sets.
From Stdlib Require Import ZArith Lia Bool.
From S2P Require Import Prelude Pmm PmmInv PmmSpec.
Import Pmm PmmInv PmmSpec.
Open Scope Z_scope.

Class PageAlloc (A : Type) := {
  pa_alloc : A -> Z -> A * Z;            (* page_alloc(order, ZONE_DEFAULT): a physical address, 0 on failure *)
  pa_free : A -> Z -> Z -> A;            (* page_free(phys, order) *)
  pa_zone : A -> Z -> option (Z * Z);    (* the zone that manages a frame *)
  pa_ok : A -> (Z -> Prop) -> Prop       (* well formed, with these frames free *)
}.

(** The frames of the block of [order] at frame [p]. *)
Definition block (order p f : Z) : Prop := p <= f < p + 2 ^ order.

Class PageAllocLaws (A : Type) `{PageAlloc A} := {
  pa_ext : forall a (F F' : Z -> Prop), pa_ok a F -> (forall f, F f <-> F' f) -> pa_ok a F';
  pa_span : forall a F f z, pa_ok a F -> pa_zone a f = Some z -> 0 <= f < 2 ^ 32;
  (** An allocation fails and changes nothing, or takes one aligned block of free
      frames of one zone out of the free set. *)
  pa_alloc_law : forall a F order, pa_ok a F -> 0 <= order ->
    pa_alloc a order = (a, 0) \/
    exists a' p z, pa_alloc a order = (a', p * 4096) /\ order <= 13 /\ 0 < p /\ p mod 2 ^ order = 0 /\
      (forall f, block order p f -> F f /\ pa_zone a f = Some z) /\
      (forall f, pa_zone a' f = pa_zone a f) /\ pa_ok a' (fun f => F f /\ ~ block order p f);
  (** Freeing an aligned block of frames of one zone, none of them free, puts
      exactly those frames back: any block, not only one that was allocated whole. *)
  pa_free_law : forall a F order p z, pa_ok a F -> 0 <= order <= 13 -> 0 < p -> p mod 2 ^ order = 0 ->
    (forall f, block order p f -> ~ F f /\ pa_zone a f = Some z) ->
    pa_ok (pa_free a (p * 4096) order) (fun f => F f \/ block order p f) /\
    (forall f, pa_zone (pa_free a (p * 4096) order) f = pa_zone a f)
}.

(** ** The page allocator of pmm.c keeps the promise *)

Definition free_somewhere (FL : free_map) (f : Z) : Prop := exists nd zi, valid_zone nd zi /\ free_in (FL nd zi) f.

#[export] Instance pmm_pages (inject : bool) (cpu_node : Z) : PageAlloc pmm := {
  pa_alloc st order := page_alloc st inject cpu_node order ZONE_DEFAULT;
  pa_free := page_free;
  pa_zone := zone_for_pfn;
  pa_ok st F := exists FL, pmm_ok st FL /\ forall f, F f <-> free_somewhere FL f
}.

Lemma zone_own st f nd zi : zone_for_pfn st f = Some (nd, zi) -> own st nd zi f.
Proof. unfold zone_for_pfn, own. destruct (Z.ltb_spec (zone_of_pfn st f) 0); [done|]. by intros [= <- <-]. Qed.

Lemma loc_zone nd zi st st' f : loc nd zi st st' -> zone_for_pfn st' f = zone_for_pfn st f.
Proof.
  intros L. pose proof (lo_geo _ _ _ _ L) as Eg. unfold geo in Eg. injection Eg as E1 E2 E3 E4 E5 E6.
  unfold zone_for_pfn, zone_of_pfn, node_of_pfn. by rewrite E1, E2, E3, E4, E5.
Qed.

(** A free frame of a zone's lists is managed by that zone. *)
Lemma free_zone st FL nd zi f : pmm_ok st FL -> valid_zone nd zi -> free_in (FL nd zi) f -> zone_for_pfn st f = Some (nd, zi).
Proof.
  intros Hok Hv (o & p & Hp & Hc). destruct (ok_zone _ _ Hok nd zi Hv) as [I _].
  by apply (zone_for_pfn_own _ FL nd zi f Hok), (zv_own _ _ _ _ _ I o p).
Qed.

Definition free_elsewhere (FL : free_map) (nd zi f : Z) : Prop :=
  exists a b, valid_zone a b /\ (a, b) <> (nd, zi) /\ free_in (FL a b) f.

Lemma free_split FL nd zi f : valid_zone nd zi ->
  free_somewhere FL f <-> free_elsewhere FL nd zi f \/ free_in (FL nd zi) f.
Proof.
  intros Hv. split.
  - intros (a & b & Hab & Hf). destruct (decide ((a, b) = (nd, zi))) as [[= -> ->]|Hne]; [by right|]. left. by exists a, b.
  - intros [(a & b & Hab & _ & Hf)|Hf]; [by exists a, b|by exists nd, zi].
Qed.
Lemma free_split_upd FL nd zi fl' f : valid_zone nd zi ->
  free_somewhere (upd_fl FL nd zi fl') f <-> free_elsewhere FL nd zi f \/ free_in fl' f.
Proof.
  intros Hv. rewrite (free_split _ nd zi) by done. rewrite upd_fl_same.
  enough (free_elsewhere (upd_fl FL nd zi fl') nd zi f <-> free_elsewhere FL nd zi f) by tauto.
  split; intros (a & b & Hab & Hne & Hf); exists a, b; (split; [done|]; split; [done|]); by rewrite upd_fl_other in * by done.
Qed.
Lemma free_elsewhere_zone st FL nd zi f : pmm_ok st FL -> free_elsewhere FL nd zi f -> zone_for_pfn st f <> Some (nd, zi).
Proof. intros Hok (a & b & Hab & Hne & Hf). rewrite (free_zone _ _ _ _ _ Hok Hab Hf). congruence. Qed.

Lemma pmm_alloc_law inject cpu_node st FL order : pmm_ok st FL -> 0 <= order ->
  let r := page_alloc st inject cpu_node order ZONE_DEFAULT in
  r = (st, 0) \/
  exists st' p nd zi fl', r = (st', p * 4096) /\ order <= 13 /\ valid_zone nd zi /\ took st st' nd zi (FL nd zi) fl' order p.
Proof.
  intros Hok Ho. unfold page_alloc. destruct inject; [by left|]. cbv zeta.
  destruct (decide (order <= 13)) as [H13|H13].
  2:{ left. unfold page_alloc_node, BUDDY_MAX_ORDER. rewrite (proj2 (Z.ltb_lt 13 order)) by lia. by rewrite orb_true_r. }
  rewrite page_alloc_node_unfold by lia.
  destruct (alloc_first_spec (try_list (g_nr_nodes st) (clamp_node st (pmm_local_node st cpu_node)) ZONE_DEFAULT) st FL order
    (clamp_node st (pmm_local_node st cpu_node)) Hok ltac:(lia) (try_list_valid _ _ (pmm_local_node st cpu_node) ZONE_DEFAULT Hok))
    as [[E _]|(pre & nd & zi & suf & st' & p & fl' & Et & _ & E & T)]; [by left|right].
  assert (own st nd zi p) as Hop by (apply (tk_own _ _ _ _ _ _ _ _ T); pose proof (pow2_pos order); unfold covers; lia).
  destruct (zone_for_pfn_own _ _ _ _ _ Hok Hop) as [_ Hv].
  rewrite (pfn_to_phys_mul p) in E by (eapply own_range; [apply Hok|done]). eauto 10.
Qed.

#[export] Instance pmm_pages_laws inject cpu_node : @PageAllocLaws pmm (pmm_pages inject cpu_node).
Proof.
  split; cbn.
  - intros a F F' (FL & Hok & HF) HFF. exists FL. split; [done|]. intros f. by rewrite <- HFF.
  - intros a F f [nd zi] (FL & Hok & _) Hz. eapply own_range; [apply Hok|]. by apply zone_own.
  - intros st F order (FL & Hok & HF) Ho.
    destruct (pmm_alloc_law inject cpu_node st FL order Hok Ho) as [E|(st' & p & nd & zi & fl' & E & H13 & Hv & T)]; [by left|right].
    exists st', p, (nd, zi). split; [exact E|]. split; [done|].
    split; [exact (tk_pos _ _ _ _ _ _ _ _ T)|]. split; [exact (tk_align _ _ _ _ _ _ _ _ T)|].
    assert (forall f, block order p f -> free_in (FL nd zi) f) as Hfree.
    { intros f Hb. apply (tk_free _ _ _ _ _ _ _ _ T). by right. }
        split; [|split; [intros f; eapply loc_zone; apply T|]].
    + intros f Hb. split; [apply HF; exists nd, zi; split; [done|by apply Hfree]|]. by apply (free_zone _ FL), Hfree.
    + exists (upd_fl FL nd zi fl'). split; [by eapply took_ok|]. intros f.
      rewrite HF, (free_split_upd FL nd zi fl' f Hv), (free_split FL nd zi f Hv), (tk_free _ _ _ _ _ _ _ _ T f).
      pose proof (fun H => tk_disj _ _ _ _ _ _ _ _ T f H). pose proof (free_elsewhere_zone st FL nd zi f Hok).
      assert (block order p f -> zone_for_pfn st f = Some (nd, zi)) by (intros Hb; by apply (free_zone _ FL), Hfree).
      unfold block, covers in *. tauto.
  - intros st F order p [nd zi] (FL & Hok & HF) Ho Hp Hal Hb.
    assert (own st nd zi p) as Hop by (apply zone_own, Hb; pose proof (pow2_pos order); unfold block; lia).
    destruct (zone_for_pfn_own _ _ _ _ _ Hok Hop) as [_ Hv].
    destruct (page_free_spec st FL order p nd zi Hok Ho) as (fl' & V).
    { split; [done|]. split; [done|]. intros f Hf. destruct (Hb f Hf) as [Hn Hz]. split; [by apply zone_own|].
      intros Hg. apply Hn, HF. by exists nd, zi. }
    unfold PMM_FRAME_SIZE in V. split; [|intros f; eapply loc_zone; apply V].
    exists (upd_fl FL nd zi fl'). split; [eapply pmm_ok_local; [done|apply V|apply V]|].
    intros f. rewrite HF, (free_split_upd FL nd zi fl' f Hv), (free_split FL nd zi f Hv), (gv_free _ _ _ _ _ _ _ _ V f).
    unfold block, covers. tauto.
Qed.
