(* ===== verification/Slab.v ===== *)
(** * The slab allocator (kernel/mem/slab.c)

    Fixed-size objects cut out of single pages.  A slab page starts with a header
    and its free slots are linked through their own first bytes; objects move
    between the pages and per-CPU magazines in batches.  Pages come from the
    interface [PageAlloc].  A function that takes a [struct slab_cache*] takes the
    cache and its address; the page headers and the page allocator are threaded
    as one memory. *)

From stdpp Require Import base list sets.
From Stdlib Require Import ZArith Lia Bool.
From S2P Require Import Prelude PageAlloc.
Open Scope Z_scope.

Module Slab.

Definition SLAB_PAGE_SIZE : Z := 4096.
Definition SLAB_MAGIC : Z := 0xC0DEBABE.
Definition FREE_END : Z := 0xFFFF.
Definition MAG_CAPACITY : Z := 32.
Definition MAG_BATCH : Z := 16.
Definition EMPTY_SLAB_MAX : Z := 4.
Definition SLAB_SLOT_ALIGN : Z := 8.
Definition ACPI_MAX_CPUS : nat := 32.

(** The header of a page, read as a [struct slab], with the link each slot's
    first two bytes hold.  The intrusive [next]/[prev] are the cache's lists. *)
Record slab := Hdr { magic : Z; cache : Z; in_use : Z; capacity : Z; free_head : Z; links : Z -> Z }.

(** A magazine is the stack of its objects, the last one put first. *)
Record slab_cache := Cache {
  obj_size : Z; slot_size : Z; ccap : Z; payload_offset : Z;
  slabs_partial : list Z; slabs_full : list Z; slabs_empty : list Z;
  empty_count : Z; slabs : Z; in_use_total : Z;
  mag : Z -> list Z
}.

Section Ops.
Context {A : Type} `{PageAlloc A}.
Context (base : Z).                      (* KERNEL_DIRECT_MAP_BASE *)

Record mem := Mem { pages : A; hdr : Z -> slab }.

Definition phys_to_virt (p : Z) : Z := u64 (p + base).
Definition virt_to_phys (v : Z) : Z := u64 (v - base).

Definition set_hdr (m : mem) (pg : Z) (s : slab) : mem := Mem (pages m) (hdr m)⟦pg ↦ s⟧.
Definition set_pages (m : mem) (a : A) : mem := Mem a (hdr m).

(** The cache with new lists and counts. *)
Definition lists (k : slab_cache) (p f e : list Z) : slab_cache :=
  Cache (obj_size k) (slot_size k) (ccap k) (payload_offset k) p f e (empty_count k) (slabs k) (in_use_total k) (mag k).
Definition counts (k : slab_cache) (ec sl iu : Z) : slab_cache :=
  Cache (obj_size k) (slot_size k) (ccap k) (payload_offset k) (slabs_partial k) (slabs_full k) (slabs_empty k) ec sl iu (mag k).
Definition set_mag (k : slab_cache) (cpu : Z) (l : list Z) : slab_cache :=
  Cache (obj_size k) (slot_size k) (ccap k) (payload_offset k) (slabs_partial k) (slabs_full k) (slabs_empty k)
    (empty_count k) (slabs k) (in_use_total k) (mag k)⟦cpu ↦ l⟧.

Definition align_up (v a : Z) : Z := Z.land (v + (a - 1)) (Z.lnot (a - 1)).
Definition page_of (p : Z) : Z := Z.land p (Z.lnot (SLAB_PAGE_SIZE - 1)).
Definition slot_addr (pg : Z) (k : slab_cache) (idx : Z) : Z := u64 (pg + payload_offset k + idx * slot_size k).
Definition slot_idx (pg : Z) (k : slab_cache) (p : Z) : Z := u16 (u64 (p - (pg + payload_offset k)) / slot_size k).

Definition init_links (cap : Z) (old : Z -> Z) : Z -> Z :=
  fun i => if (0 <=? i) && (i <? cap) then (if i + 1 =? cap then FREE_END else i + 1) else old i.
Definition slab_init_freelist (s : slab) (k : slab_cache) : slab :=
  Hdr (magic s) (cache s) (in_use s) (capacity s) 0 (init_links (ccap k) (links s)).

(** [list_remove]: unlink a page from the list it is on. *)
Fixpoint list_remove (l : list Z) (pg : Z) : list Z :=
  match l with [] => [] | x :: l' => if x =? pg then l' else x :: list_remove l' pg end.

Definition with_in_use (s : slab) (n : Z) : slab := Hdr (magic s) (cache s) n (capacity s) (free_head s) (links s).

Definition slab_pop_cached_locked (m : mem) (k : slab_cache) : option (mem * slab_cache * Z) :=
  match slabs_empty k with
  | [] => None
  | pg :: rest =>
      let k := lists k (slabs_partial k) (slabs_full k) rest in
      let k := counts k (if 0 <? empty_count k then empty_count k - 1 else empty_count k) (slabs k) (in_use_total k) in
      Some (set_hdr m pg (with_in_use (slab_init_freelist (hdr m pg) k) 0), k, pg)
  end.

Definition slab_alloc_fresh (m : mem) (id : Z) (k : slab_cache) : option (mem * Z) :=
  let '(a, phys) := pa_alloc (pages m) 0 in
  if phys =? 0 then None
  else
    let pg := phys_to_virt phys in
    Some (set_hdr (set_pages m a) pg (slab_init_freelist (Hdr SLAB_MAGIC id 0 (ccap k) (free_head (hdr m pg)) (links (hdr m pg))) k), pg).

Definition slab_release (m : mem) (k : slab_cache) (pg : Z) : mem * slab_cache :=
  if empty_count k <? EMPTY_SLAB_MAX
  then (m, counts (lists k (slabs_partial k) (slabs_full k) (pg :: slabs_empty k)) (empty_count k + 1) (u32 (slabs k + 1)) (in_use_total k))
  else
    let s := hdr m pg in
    let m := set_hdr m pg (Hdr 0 (cache s) (in_use s) (capacity s) (free_head s) (links s)) in
    (set_pages m (pa_free (pages m) (virt_to_phys pg) 0), k).

(** The page the next object comes from: the first partial slab, a cached empty
    one, or a fresh page (the latter two put on the partial list). *)
Definition refill_page (m : mem) (id : Z) (k : slab_cache) : option (mem * slab_cache * Z) :=
  match slabs_partial k with
  | pg :: _ => Some (m, k, pg)
  | [] =>
      match slab_pop_cached_locked m k with
      | Some (m, k, pg) => Some (m, lists k (pg :: slabs_partial k) (slabs_full k) (slabs_empty k), pg)
      | None =>
          match slab_alloc_fresh m id k with
          | Some (m, pg) =>
              let k := counts k (empty_count k) (u32 (slabs k + 1)) (in_use_total k) in
              Some (m, lists k (pg :: slabs_partial k) (slabs_full k) (slabs_empty k), pg)
          | None => None
          end
      end
  end.

(** The slab became full. *)
Definition to_full (k : slab_cache) (pg : Z) : slab_cache :=
  lists k (list_remove (slabs_partial k) pg) (pg :: slabs_full k) (slabs_empty k).

(** The loop of [mag_refill]; [fuel] bounds its rounds. *)
Fixpoint refill_loop (fuel : nat) (m : mem) (id : Z) (k : slab_cache) (cpu target : Z) : mem * slab_cache :=
  match fuel with
  | O => (m, k)
  | S fuel' =>
      if target <=? 0 then (m, k) else
      match refill_page m id k with
      | None => (m, k)
      | Some (m, k, pg) =>
          let s := hdr m pg in
          let idx := free_head s in
          if idx =? FREE_END then refill_loop fuel' m id (to_full k pg) cpu target
          else
            let s := Hdr (magic s) (cache s) (u16 (in_use s + 1)) (capacity s) (links s idx) (links s) in
            let m := set_hdr m pg s in
            let k := counts k (empty_count k) (slabs k) (u32 (in_use_total k + 1)) in
            let k := set_mag k cpu (slot_addr pg k idx :: mag k cpu) in
            let k := if free_head s =? FREE_END then to_full k pg else k in
            refill_loop fuel' m id k cpu (target - 1)
      end
  end.
Definition mag_refill (m : mem) (id : Z) (k : slab_cache) (cpu : Z) : mem * slab_cache * bool :=
  let '(m, k) := refill_loop (16 + length (slabs_partial k)) m id k cpu MAG_BATCH in
  (m, k, 0 <? Z.of_nat (length (mag k cpu))).

(** One object of [mag_flush]'s loop, taken off the magazine. *)
Definition flush_one (m : mem) (id : Z) (k : slab_cache) (cpu : Z) : mem * slab_cache :=
  match mag k cpu with
  | [] => (m, k)
  | obj :: rest =>
      let k := set_mag k cpu rest in
      let pg := page_of obj in
      let s := hdr m pg in
      if negb (magic s =? SLAB_MAGIC) || negb (cache s =? id) then (m, k) else
      let idx := slot_idx pg k obj in
      if capacity s <=? idx then (m, k) else
      let was_full := in_use s =? capacity s in
      let s := Hdr (magic s) (cache s) (u16 (in_use s - 1)) (capacity s) idx (links s)⟦idx ↦ free_head s⟧ in
      let m := set_hdr m pg s in
      let k := counts k (empty_count k) (slabs k) (u32 (in_use_total k - 1)) in
      let k := if was_full then lists k (pg :: slabs_partial k) (list_remove (slabs_full k) pg) (slabs_empty k) else k in
      if in_use s =? 0 then
        let k := lists k (list_remove (slabs_partial k) pg) (slabs_full k) (slabs_empty k) in
        slab_release m (counts k (empty_count k) (u32 (slabs k - 1)) (in_use_total k)) pg
      else (m, k)
  end.
Fixpoint flush_loop (n : nat) (m : mem) (id : Z) (k : slab_cache) (cpu : Z) : mem * slab_cache :=
  match n with
  | O => (m, k)
  | S n' => let '(m, k) := flush_one m id k cpu in flush_loop n' m id k cpu
  end.
Definition mag_flush (m : mem) (id : Z) (k : slab_cache) (cpu : Z) : mem * slab_cache :=
  flush_loop (Nat.min (Z.to_nat MAG_BATCH) (length (mag k cpu))) m id k cpu.

Definition slab_alloc (m : mem) (id : Z) (k : slab_cache) (cpu : Z) : mem * slab_cache * Z :=
  let '(m, k, ok) :=
    match mag k cpu with [] => mag_refill m id k cpu | _ :: _ => (m, k, true) end in
  if negb ok then (m, k, 0)
  else match mag k cpu with
       | [] => (m, k, 0)
       | obj :: rest => (m, set_mag k cpu rest, obj)
       end.

Definition slab_free (m : mem) (id : Z) (k : slab_cache) (cpu obj : Z) : mem * slab_cache :=
  if obj =? 0 then (m, k) else
  let '(m, k) := if MAG_CAPACITY <=? Z.of_nat (length (mag k cpu)) then mag_flush m id k cpu else (m, k) in
  (m, set_mag k cpu (obj :: mag k cpu)).

Definition slab_cache_of (m : mem) (obj : Z) : option Z :=
  if obj =? 0 then None
  else let s := hdr m (page_of obj) in
       if magic s =? SLAB_MAGIC then Some (cache s) else None.

(** [slab_init] for one cache; [hsize] is [sizeof(struct slab)]. *)
Definition slab_init_cache (hsize size : Z) : slab_cache :=
  let slot := align_up size SLAB_SLOT_ALIGN in
  let po := u16 (align_up hsize SLAB_SLOT_ALIGN) in
  Cache size slot (u16 ((SLAB_PAGE_SIZE - po) / slot)) po [] [] [] 0 0 0 (fun _ => []).

Definition NR_CACHES : nat := 8.
Definition cache_sizes : list Z := [16; 32; 64; 128; 256; 512; 1024; 2048].
Fixpoint lookup_from (l : list Z) (i size : Z) : option Z :=
  match l with [] => None | s :: l' => if size <=? s then Some i else lookup_from l' (i + 1) size end.
Definition slab_lookup_cache (init : bool) (size : Z) : option Z :=
  if negb init then None else lookup_from cache_sizes 0 size.
End Ops.
End Slab.
