(* ===== verification/SlabSpec.v ===== *)
(** * The slab allocator's invariant (kernel/mem/slab.c)

    Every slot of a cache's pages is in exactly one place: on its page's free
    list, in one CPU's magazine, or in a caller's hands. *)

From stdpp Require Import base list sets.
From Stdlib Require Import ZArith Lia Bool.
From S2P Require Import Prelude PageAlloc Slab.
Open Scope Z_scope.

Module SlabSpec.
Import Slab.

(** ** The magazines together *)

Definition cpus : list Z := Z.of_nat <$> seq 0 ACPI_MAX_CPUS.
Definition valid_cpu (c : Z) : Prop := 0 <= c < 32.

Lemma cpus_spec c : valid_cpu c -> c ∈ cpus.
Proof.
  intros Hc. apply list_elem_of_fmap. exists (Z.to_nat c). unfold valid_cpu in Hc. split; [lia|]. apply elem_of_seq. unfold ACPI_MAX_CPUS. lia.
Qed.
Lemma cpus_nodup : NoDup cpus.
Proof. apply NoDup_fmap; [intros x y; lia|apply NoDup_seq]. Qed.

Definition all_of (m : Z -> list Z) (cs : list Z) : list Z := concat (m <$> cs).
Definition all_mags (k : slab_cache) : list Z := all_of (mag k) cpus.

Lemma all_of_upd m cs cpu l : NoDup cs -> cpu ∈ cs -> all_of m⟦cpu ↦ l⟧ cs ++ m cpu ≡ₚ all_of m cs ++ l.
Proof.
  assert (forall cs, cpu ∉ cs -> all_of m⟦cpu ↦ l⟧ cs = all_of m cs) as Hout.
  { unfold all_of. induction cs0 as [|c cs0 IH]; [done|]. intros [Hc Hn]%not_elem_of_cons. cbn. by rewrite upd_other, IH. }
  induction cs as [|c cs IH]; intros Hnd Hin; [by apply elem_of_nil in Hin|]. apply NoDup_cons in Hnd as [Hc Hnd].
  unfold all_of in *. cbn. apply elem_of_cons in Hin as [->|Hin].
  - rewrite upd_same, Hout by done. rewrite (Permutation_app_comm l), <- app_assoc.
    rewrite (Permutation_app_comm l), app_assoc. rewrite (Permutation_app_comm _ (m c)). by rewrite <- app_assoc.
  - rewrite upd_other by (intros ->; done). rewrite <- !app_assoc. by rewrite IH.
Qed.

Lemma mags_push k cpu o : valid_cpu cpu -> all_mags (set_mag k cpu (o :: mag k cpu)) ≡ₚ o :: all_mags k.
Proof.
  intros Hc. pose proof (all_of_upd (mag k) cpus cpu (o :: mag k cpu) cpus_nodup (cpus_spec _ Hc)) as H.
  change (all_of (mag k)⟦cpu ↦ o :: mag k cpu⟧ cpus) with (all_mags (set_mag k cpu (o :: mag k cpu))) in H.
  change (all_of (mag k) cpus) with (all_mags k) in H.
  rewrite <- Permutation_middle in H. by apply (Permutation_app_inv_r (mag k cpu) _ (o :: all_mags k)) in H.
Qed.
Lemma mags_pop k cpu o rest : valid_cpu cpu -> mag k cpu = o :: rest -> all_mags k ≡ₚ o :: all_mags (set_mag k cpu rest).
Proof.
  intros Hc E. rewrite <- (mags_push (set_mag k cpu rest) cpu o Hc).
  unfold all_mags, all_of. cbn [mag set_mag]. rewrite upd_same.
  match goal with |- concat ?a ≡ₚ concat ?b => assert (a = b) as ->; [|done] end. apply list_fmap_ext. intros i x _. rewrite !upd_eq. by destruct (Z.eqb_spec x cpu) as [->|].
Qed.

(** ** Pages and slots *)

Section Pages.
Context (base : Z).
Context (Hbase : base mod 4096 = 0) (Hlo : 0 <= base) (Hhi : base + 2 ^ 44 <= 2 ^ 64).

Definition page_at (p : Z) : Z := p * 4096 + base.

Lemma phys_page p : 0 < p < 2 ^ 32 -> phys_to_virt base (p * 4096) = page_at p.
Proof. intros Hp. unfold phys_to_virt, page_at. apply u64_small. lia. Qed.
Lemma page_phys p : 0 < p < 2 ^ 32 -> virt_to_phys base (page_at p) = p * 4096.
Proof. intros Hp. unfold virt_to_phys, page_at. rewrite u64_small; lia. Qed.

Lemma page_of_low x : page_of x = x - x mod 4096.
Proof.
  unfold page_of, SLAB_PAGE_SIZE. change (4096 - 1) with (Z.ones 12). rewrite <- Z.ldiff_land.
  rewrite Z.ldiff_ones_r by lia. rewrite Z.shiftl_mul_pow2, Z.shiftr_div_pow2 by lia. change (2 ^ 12) with 4096.
  pose proof (Z.div_mod x 4096 ltac:(lia)). lia.
Qed.

(** The geometry [slab_init] gives a cache. *)
Record geo (k : slab_cache) : Prop := {
  g_cap : 1 <= ccap k < 65535;
  g_slot : 1 <= slot_size k;
  g_po : 0 < payload_offset k;
  g_fit : payload_offset k + ccap k * slot_size k <= 4096
}.

Definition slot (k : slab_cache) (pg idx : Z) : Z := pg + payload_offset k + idx * slot_size k.

Section Geo.
Context (k : slab_cache) (G : geo k) (p : Z) (Hp : 0 < p < 2 ^ 32).

Lemma slot_inside idx : 0 <= idx < ccap k ->
  page_at p < slot k (page_at p) idx /\ slot k (page_at p) idx + slot_size k <= page_at p + 4096.
Proof. intros Hi. destruct G. unfold slot. nia. Qed.

Lemma slot_addr_eq idx : 0 <= idx < ccap k -> slot_addr (page_at p) k idx = slot k (page_at p) idx.
Proof. intros Hi. pose proof (slot_inside idx Hi). destruct G. apply u64_small. unfold page_at in *. unfold slot in *. lia. Qed.

Lemma page_of_slot idx : 0 <= idx < ccap k -> page_of (slot k (page_at p) idx) = page_at p.
Proof.
  intros Hi. pose proof (slot_inside idx Hi). rewrite page_of_low. destruct G.
  assert (slot k (page_at p) idx mod 4096 = slot k (page_at p) idx - page_at p) as ->; [|lia].
  unfold page_at in *. pose proof (Z.div_mod base 4096 ltac:(lia)) as Hb. rewrite Hbase in Hb.
  symmetry. apply (Z.mod_unique_pos _ _ (p + base / 4096)); lia.
Qed.

Lemma slot_idx_eq idx : 0 <= idx < ccap k -> slot_idx (page_at p) k (slot k (page_at p) idx) = idx.
Proof.
  intros Hi. pose proof (slot_inside idx Hi). destruct G. unfold slot_idx, slot in *.
  replace (page_at p + payload_offset k + idx * slot_size k - (page_at p + payload_offset k)) with (idx * slot_size k) by lia.
  rewrite u64_small by nia. rewrite Z.div_mul by lia. apply u16_small. lia.
Qed.
End Geo.

Lemma slot_inj k p q i j : geo k -> 0 < p < 2 ^ 32 -> 0 < q < 2 ^ 32 -> 0 <= i < ccap k -> 0 <= j < ccap k ->
  slot k (page_at p) i = slot k (page_at q) j -> p = q /\ i = j.
Proof.
  intros G Hp Hq Hi Hj E. pose proof (page_of_slot k G p i Hi) as E1. pose proof (page_of_slot k G q j Hj) as E2.
  rewrite E in E1. assert (p = q) as -> by (unfold page_at in *; lia). split; [done|]. destruct G. unfold slot in E. nia.
Qed.
End Pages.

(** ** The free list of a page *)

Fixpoint chain (lk : Z -> Z) (h : Z) (fl : list Z) : Prop :=
  match fl with [] => h = FREE_END | x :: fl' => h = x /\ chain lk (lk x) fl' end.

Lemma chain_upd lk h fl i v : i ∉ fl -> chain lk h fl -> chain (lk⟦i ↦ v⟧) h fl.
Proof.
  revert h. induction fl as [|x fl IH]; intros h Hi; cbn; [done|]. apply not_elem_of_cons in Hi as [Hne Hi].
  intros [-> Hc]. split; [done|]. rewrite upd_other by done. by apply IH.
Qed.

(** The list a fresh page gets: all its slots in order. *)
Definition all_slots (cap : Z) : list Z := Z.of_nat <$> seq 0 (Z.to_nat cap).

Lemma all_slots_spec cap i : i ∈ all_slots cap <-> 0 <= i < cap.
Proof.
  unfold all_slots. rewrite list_elem_of_fmap. split.
  - intros (n & -> & Hn%elem_of_seq). lia.
  - intros Hi. exists (Z.to_nat i). split; [lia|]. apply elem_of_seq. lia.
Qed.
Lemma all_slots_nodup cap : NoDup (all_slots cap).
Proof. apply NoDup_fmap; [intros x y; lia|apply NoDup_seq]. Qed.
Lemma all_slots_length cap : 0 <= cap -> Z.of_nat (length (all_slots cap)) = cap.
Proof. intros. unfold all_slots. rewrite length_fmap, length_seq. lia. Qed.

Lemma init_chain cap lk : 1 <= cap < 65535 -> chain (init_links cap lk) 0 (all_slots cap).
Proof.
  intros Hc. unfold all_slots.
  assert (forall n s, Z.of_nat (s + n) = cap -> (1 <= n)%nat -> chain (init_links cap lk) (Z.of_nat s) (Z.of_nat <$> seq s n)) as H.
  { induction n as [|n IH]; intros s E Hn; [lia|]. cbn. split; [done|]. unfold init_links at 2.
    rewrite (proj2 (Z.leb_le 0 (Z.of_nat s))), (proj2 (Z.ltb_lt (Z.of_nat s) cap)) by lia. cbn [andb].
    destruct (Z.eqb_spec (Z.of_nat s + 1) cap) as [E'|E'].
    - assert (n = 0%nat) as -> by lia. done.
    - replace (Z.of_nat s + 1) with (Z.of_nat (S s)) by lia. apply IH; lia. }
  apply (H (Z.to_nat cap) 0%nat); lia.
Qed.

Lemma list_remove_elem l x y : NoDup l -> y ∈ list_remove l x <-> y ∈ l /\ y <> x.
Proof.
  induction l as [|h l IH]; cbn; [set_solver|]. intros [Hh Hnd]%NoDup_cons.
  destruct (Z.eqb_spec h x) as [->|]; [set_solver|]. rewrite elem_of_cons, IH by done. set_solver.
Qed.
Lemma list_remove_perm l x : x ∈ l -> l ≡ₚ x :: list_remove l x.
Proof.
  induction l as [|h l IH]; cbn; [by intros ?%elem_of_nil|]. destruct (Z.eqb_spec h x) as [->|Hne]; [done|].
  intros [->|Hin]%elem_of_cons; [done|]. rewrite perm_swap. by rewrite <- IH.
Qed.
End SlabSpec.
