(* ===== verification/SlabOps.v ===== *)
(** * The slab allocator never hands an object out twice (kernel/mem/slab.c) *)

From stdpp Require Import base list sets.
From Stdlib Require Import ZArith Lia Bool.
From S2P Require Import Prelude PmmSpec PageAlloc Slab SlabSpec.
Open Scope Z_scope.

Module SlabOps.
Import Slab SlabSpec.

Section Inv.
Context {A : Type} `{PageAllocLaws A}.
Context (base : Z).
Context (Hbase : base mod 4096 = 0) (Hlo : 0 <= base) (Hhi : base + 2 ^ 44 <= 2 ^ 64).
Context (id : Z).                     (* the address of the cache *)

Notation mem := (@mem A).

(** [pg] is the mapping of a managed frame that is not free. *)
Definition is_page (m : mem) (F : Z -> Prop) (pg : Z) : Prop :=
  exists p z, pg = page_at base p /\ 0 < p < 2 ^ 32 /\ ~ F p /\ pa_zone (pages m) p = Some z.

Definition is_slab (m : mem) (F : Z -> Prop) (k : slab_cache) (pg : Z) : Prop :=
  is_page m F pg /\ magic (hdr m pg) = SLAB_MAGIC /\ cache (hdr m pg) = id /\ capacity (hdr m pg) = ccap k.

(** A slab in use, with [fl] its free slots in list order. *)
Record active (m : mem) (k : slab_cache) (pg : Z) (fl : list Z) : Prop := {
  a_chain : chain (links (hdr m pg)) (free_head (hdr m pg)) fl;
  a_nodup : NoDup fl;
  a_range : forall i, i ∈ fl -> 0 <= i < ccap k;
  a_used : in_use (hdr m pg) = ccap k - Z.of_nat (length fl)
}.

Lemma active_length m k pg fl : 0 <= ccap k -> active m k pg fl -> Z.of_nat (length fl) <= ccap k.
Proof.
  intros Hc [_ N R _]. pose proof (PmmSpec.NoDup_interval fl 0 (ccap k) N) as H1.
  specialize (H1 R). lia.
Qed.

Definition owned (k : slab_cache) : list Z := slabs_partial k ++ slabs_full k ++ slabs_empty k.
Definition outs (k : slab_cache) (live : list Z) : list Z := all_mags k ++ live.

(** [live] are the objects callers hold; [fresh] a partial slab that may still
    have all its slots free. *)
Record cinv (m : mem) (k : slab_cache) (F : Z -> Prop) (live : list Z) (FL : Z -> list Z) (fresh : option Z) : Prop := {
  c_pages : pa_ok (pages m) F;
  c_geo : geo k;
  c_nodup : NoDup (owned k);
  c_slab : forall pg, pg ∈ owned k -> is_slab m F k pg;
  c_partial : forall pg, pg ∈ slabs_partial k ->
    active m k pg (FL pg) /\ FL pg <> [] /\ (fresh <> Some pg -> Z.of_nat (length (FL pg)) < ccap k);
  c_full : forall pg, pg ∈ slabs_full k -> active m k pg (FL pg) /\ FL pg = [];
  c_out : NoDup (outs k live);
  c_obj : forall o, o ∈ outs k live <-> exists pg idx, pg ∈ slabs_partial k ++ slabs_full k /\
    0 <= idx < ccap k /\ idx ∉ FL pg /\ o = slot k pg idx;
  c_empty : empty_count k = Z.of_nat (length (slabs_empty k))
}.

Lemma is_page_in m F pg k idx : is_page m F pg -> geo k -> 0 <= idx < ccap k ->
  slot_addr pg k idx = slot k pg idx /\ page_of (slot k pg idx) = pg /\ slot_idx pg k (slot k pg idx) = idx /\ slot k pg idx <> 0.
Proof.
  intros (p & z & -> & Hp & _) G Hi. split; [by apply slot_addr_eq|]. split; [by apply page_of_slot|].
  split; [by apply slot_idx_eq|]. pose proof (slot_inside base k G p idx Hi). unfold page_at in *. lia.
Qed.

Lemma slot_inj_pages m F k pg pg' i j : geo k -> is_page m F pg -> is_page m F pg' -> 0 <= i < ccap k -> 0 <= j < ccap k ->
  slot k pg i = slot k pg' j -> pg = pg' /\ i = j.
Proof.
  intros G (p & z & -> & Hp & _) (q & z' & -> & Hq & _) Hi Hj E.
  destruct (slot_inj base Hbase k p q i j G Hp Hq Hi Hj E) as [-> ->]. done.
Qed.

(** *** Taking a slot *)

Lemma owned_partial k pg : pg ∈ slabs_partial k -> pg ∈ owned k.
Proof. intros H1. apply elem_of_app. by left. Qed.
Lemma owned_full k pg : pg ∈ slabs_full k -> pg ∈ owned k.
Proof. intros H1. apply elem_of_app. right. apply elem_of_app. by left. Qed.

Lemma active_other m k pg pg' s fl : pg' <> pg -> active m k pg' fl -> active (set_hdr m pg s) k pg' fl.
Proof. intros Hne [A1 A2 A3 A4]. split; cbn; rewrite ?upd_other by done; done. Qed.

Lemma is_slab_hdr m F k pg pg' s : magic s = SLAB_MAGIC -> cache s = id -> capacity s = ccap k ->
  is_slab m F k pg' -> is_slab (set_hdr m pg s) F k pg'.
Proof.
  intros E1 E2 E3 (P & M & C & K). split; [done|]. cbn. rewrite upd_eq. destruct (Z.eqb_spec pg' pg) as [->|]; done.
Qed.

(** The state after a slot [idx] of the partial slab [pg] went to a magazine. *)
Definition popped (m : mem) (k : slab_cache) (cpu pg idx : Z) : mem * slab_cache :=
  let s := hdr m pg in
  let s := Hdr (magic s) (cache s) (u16 (in_use s + 1)) (capacity s) (links s idx) (links s) in
  let k := counts k (empty_count k) (slabs k) (u32 (in_use_total k + 1)) in
  let k := set_mag k cpu (slot_addr pg k idx :: mag k cpu) in
  (set_hdr m pg s, if free_head s =? FREE_END then to_full k pg else k).

Lemma pop_ok m k F live FL fresh cpu pg :
  cinv m k F live FL fresh -> (fresh = None \/ fresh = Some pg) -> pg ∈ slabs_partial k -> valid_cpu cpu ->
  free_head (hdr m pg) <> FREE_END /\
  exists FL', let '(m', k') := popped m k cpu pg (free_head (hdr m pg)) in
    cinv m' k' F live FL' None /\ mag k' cpu = slot_addr pg k (free_head (hdr m pg)) :: mag k cpu.
Proof.
  intros I Hfr Hpg Hcpu. destruct (c_partial _ _ _ _ _ _ I pg Hpg) as (Ac & Hne & _).
  destruct (FL pg) as [|idx r] eqn:Efl; [done|].
  pose proof (g_cap _ (c_geo _ _ _ _ _ _ I)) as Gc0.
  pose proof (active_length m k pg (idx :: r) ltac:(lia) Ac) as Hlen. cbn [length] in Hlen.
  destruct Ac as [[Eh Hch] [Hni Hnd]%NoDup_cons Hrg Hus].
  assert (0 <= idx < ccap k) as Hidx by (apply Hrg; set_solver).
  pose proof (c_geo _ _ _ _ _ _ I) as G. pose proof (c_slab _ _ _ _ _ _ I pg (owned_partial _ _ Hpg)) as Hsl.
  destruct (is_page_in m F pg k idx (proj1 Hsl) G Hidx) as (Ea & _ & _ & _).
  rewrite Eh. destruct G as [Gc Gs Gp Gf]. split; [unfold FREE_END; lia|].
  exists FL⟦pg ↦ r⟧. unfold popped. cbn [free_head links].
  set (s' := Hdr (magic (hdr m pg)) (cache (hdr m pg)) (u16 (in_use (hdr m pg) + 1)) (capacity (hdr m pg)) (links (hdr m pg) idx) (links (hdr m pg))).
  set (k1 := set_mag (counts k (empty_count k) (slabs k) (u32 (in_use_total k + 1))) cpu
               (slot_addr pg (counts k (empty_count k) (slabs k) (u32 (in_use_total k + 1))) idx :: mag k cpu)).
  assert (links (hdr m pg) idx = FREE_END <-> r = []) as Hend.
  { destruct r as [|y r']; [done|]. destruct Hch as [-> _]. split; [|done]. intros E.
    pose proof (Hrg y ltac:(set_solver)). unfold FREE_END in E. lia. }
  assert (active (set_hdr m pg s') k pg r) as Hact.
  { split; [| |intros; apply Hrg; set_solver|]; cbn; rewrite ?upd_same; cbn; [done|done|].
    rewrite Hus. cbn [length]. rewrite u16_small; lia. }
  assert (all_mags k1 ≡ₚ slot k pg idx :: all_mags k) as Hmag.
  { rewrite <- Ea. apply (mags_push (counts k (empty_count k) (slabs k) (u32 (in_use_total k + 1))) cpu (slot_addr pg k idx) Hcpu). }
  assert (forall pg', pg' ∈ slabs_full k -> pg' <> pg) as Hfp.
  { intros pg' Hf ->. pose proof (c_nodup _ _ _ _ _ _ I) as N. apply NoDup_app in N as (_ & N & _). apply (N pg Hpg). set_solver. }
  (* every fact that does not depend on which list the page ends up on *)
  assert (forall k2, ccap k2 = ccap k -> slot_size k2 = slot_size k -> payload_offset k2 = payload_offset k ->
     mag k2 = mag k1 -> empty_count k2 = empty_count k -> slabs_empty k2 = slabs_empty k ->
     NoDup (owned k2) -> (forall x, x ∈ slabs_partial k2 ++ slabs_full k2 <-> x ∈ slabs_partial k ++ slabs_full k) ->
     (forall x, x ∈ slabs_partial k2 -> x ∈ slabs_partial k /\ (x = pg -> r <> [])) ->
     (forall x, x ∈ slabs_full k2 -> x ∈ slabs_full k \/ (x = pg /\ r = [])) ->
     cinv (set_hdr m pg s') k2 F live FL⟦pg ↦ r⟧ None) as Hgo.
  { intros k2 Ec Es Ep Em Ee Eem Hn2 Hmem Hpart Hfull.
    assert (all_mags k2 ≡ₚ slot k pg idx :: all_mags k) as Hm2 by (unfold all_mags in *; by rewrite Em).
    assert (forall x i, slot k2 x i = slot k x i) as Esl by (intros; unfold slot; by rewrite Es, Ep).
    assert (slot k pg idx ∉ outs k live) as Hnew.
    { intros Ho. apply (c_obj _ _ _ _ _ _ I) in Ho as (pg' & i & Hpg' & Hi & Hnf & E).
      assert (pg' ∈ owned k) as Hown by (unfold owned; set_solver).
      destruct (slot_inj_pages m F k pg pg' idx i (c_geo _ _ _ _ _ _ I)) as [<- <-]; try done.
      { apply Hsl. } { apply (c_slab _ _ _ _ _ _ I pg' Hown). }
      apply Hnf. rewrite Efl. set_solver. }
    assert (forall x fl, active (set_hdr m pg s') k x fl -> active (set_hdr m pg s') k2 x fl) as Hak.
    { intros x fl [B1 B2 B3 B4]. split; [done|done|by rewrite Ec|by rewrite Ec]. }
    split.
    - apply I.
    - split; rewrite ?Ec, ?Es, ?Ep; apply (c_geo _ _ _ _ _ _ I).
    - done.
    - intros x Hx. assert (x ∈ owned k) as Hxo.
      { unfold owned in *. rewrite app_assoc in *. apply elem_of_app in Hx as [Hx|Hx]; [|rewrite Eem in Hx; set_solver].
        apply Hmem in Hx. set_solver. }
      pose proof (c_slab _ _ _ _ _ _ I x Hxo) as Hs. destruct Hsl as (_ & E1 & E2 & E3).
      assert (is_slab (set_hdr m pg s') F k x) as (Q1 & Q2 & Q3 & Q4) by (by apply is_slab_hdr).
      split; [done|]. by rewrite Ec.
    - intros x Hx. destruct (Hpart x Hx) as [Hxk Hxr]. rewrite upd_eq. destruct (Z.eqb_spec x pg) as [->|Hne'].
      + split; [by apply Hak|]. split; [by apply Hxr|]. intros _. rewrite Ec.
        lia.
      + destruct (c_partial _ _ _ _ _ _ I x Hxk) as (B1 & B2 & B3). split; [by apply Hak, active_other|]. split; [done|].
        intros _. rewrite Ec. apply B3. destruct Hfr as [-> | ->]; congruence.
    - intros x Hx. rewrite upd_eq. destruct (Hfull x Hx) as [Hxf|[-> Hr]].
      + pose proof (Hfp x Hxf) as Hne'. apply Z.eqb_neq in Hne'. rewrite Hne'. apply Z.eqb_neq in Hne'.
        destruct (c_full _ _ _ _ _ _ I x Hxf) as [B1 B2]. split; [by apply Hak, active_other|done].
      + rewrite Z.eqb_refl. split; [by apply Hak|done].
    - unfold outs. rewrite Hm2. cbn. apply NoDup_cons. split; [done|]. apply I.
    - intros o. unfold outs. rewrite Hm2. cbn. rewrite elem_of_cons. fold (outs k live). rewrite (c_obj _ _ _ _ _ _ I).
      rewrite Ec. setoid_rewrite Hmem. setoid_rewrite Esl. split.
      + intros [->|(x & i & Hx & Hi & Hnf & ->)].
        * exists pg, idx. rewrite upd_same. split; [set_solver|done].
        * exists x, i. split; [done|]. split; [done|]. split; [|done]. rewrite upd_eq. destruct (Z.eqb_spec x pg) as [->|]; [|done].
          rewrite Efl in Hnf. set_solver.
      + intros (x & i & Hx & Hi & Hnf & ->). rewrite upd_eq in Hnf. destruct (Z.eqb_spec x pg) as [->|].
        * destruct (decide (i = idx)) as [->|]; [by left|]. right. exists pg, i. rewrite Efl. set_solver.
        * right. by exists x, i.
    - rewrite Ee, Eem. apply I. }
  assert (owned k1 = owned k) as Eown by done.
  cbn [free_head s']. fold k1. destruct (Z.eqb_spec (links (hdr m pg) idx) FREE_END) as [E|E].
  - split; [|cbn; by rewrite upd_same]. assert (NoDup (slabs_partial k)) as Np by (pose proof (c_nodup _ _ _ _ _ _ I) as N; apply NoDup_app in N as (N & _); done).
    apply Hgo; try done.
    + pose proof (c_nodup _ _ _ _ _ _ I) as N. unfold owned in *. cbn.
      rewrite (list_remove_perm _ pg Hpg) in N. cbn in N. by rewrite <- Permutation_middle.
    + intros x. cbn. rewrite !elem_of_app, elem_of_cons, list_remove_elem by done. destruct (decide (x = pg)) as [->|]; tauto.
    + intros x. cbn. rewrite list_remove_elem by done. tauto.
    + intros x. cbn. rewrite elem_of_cons. intros [->|?]; [right; split; [done|by apply Hend]|by left].
  - split; [|cbn; by rewrite upd_same]. apply Hgo; try done.
    + by apply I.
    + intros x Hx. split; [done|]. intros _ Hr. by apply E, Hend.
    + intros x Hx. by left.
Qed.

(** *** Getting a page *)

Lemma is_slab_pages m F F' k a pg : (forall f, pa_zone a f = pa_zone (pages m) f) -> (forall p, pg = page_at base p -> ~ F p -> ~ F' p) ->
  is_slab m F k pg -> is_slab (set_pages m a) F' k pg.
Proof.
  intros Hz HF ((p & z & -> & Hp & Hn & Ez) & Hrest). split; [|done]. exists p, z. cbn. rewrite Hz. auto.
Qed.

(** Another state of the page allocator, in which the cache's pages are still not free. *)
Lemma cinv_pages m k F F' live FL fr a :
  cinv m k F live FL fr -> pa_ok a F' -> (forall f, pa_zone a f = pa_zone (pages m) f) ->
  (forall pg p, pg ∈ owned k -> pg = page_at base p -> ~ F p -> ~ F' p) -> cinv (set_pages m a) k F' live FL fr.
Proof.
  intros [C1 C2 C3 C4 C5 C6 C7 C8 C9] Ha Hz HF. split; try done.
  - intros pg Hpg. apply (is_slab_pages m F); eauto.
  - intros pg Hpg. destruct (C5 pg Hpg) as ([A1 A2 A3 A4] & A5 & A6). split; [by split|done].
  - intros pg Hpg. destruct (C6 pg Hpg) as ([A1 A2 A3 A4] & A5). split; [by split|done].
Qed.

Definition new_slab (k : slab_cache) (s : slab) : Prop :=
  magic s = SLAB_MAGIC /\ cache s = id /\ capacity s = ccap k /\ in_use s = 0 /\ free_head s = 0 /\
  chain (links s) 0 (all_slots (ccap k)).

Lemma add_slab m k F live FL pg s :
  cinv m k F live FL None -> pg ∉ owned k -> is_page m F pg -> new_slab k s ->
  cinv (set_hdr m pg s) (lists k (pg :: slabs_partial k) (slabs_full k) (slabs_empty k)) F live FL⟦pg ↦ all_slots (ccap k)⟧ (Some pg).
Proof.
  intros I Hni Hp (S1 & S2 & S3 & S4 & S5 & S6). pose proof (c_geo _ _ _ _ _ _ I) as G. pose proof (g_cap _ G) as Gc.
  assert (forall x, x ∈ slabs_partial k ++ slabs_full k -> x <> pg) as Hx1 by (intros x Hx ->; apply Hni; unfold owned; set_solver).
  assert (active (set_hdr m pg s) k pg (all_slots (ccap k))) as Hact.
  { split; [|apply all_slots_nodup|intros i; apply all_slots_spec|]; cbn; rewrite upd_same; [by rewrite S5|].
    rewrite all_slots_length; lia. }
  split; cbn; try apply I.
  - split; apply G.
  - apply NoDup_cons. split; [done|apply I].
  - intros x. rewrite elem_of_cons. intros [->|Hx].
    + split; [done|]. cbn. by rewrite upd_same.
    + destruct (c_slab _ _ _ _ _ _ I x Hx) as (P & Q). split; [done|]. cbn. rewrite upd_other by (by intros ->). done.
  - intros x. rewrite elem_of_cons. intros [->|Hx].
    + rewrite upd_same. split; [destruct Hact; by split|]. split; [|congruence].
      intros E. pose proof (all_slots_length (ccap k) ltac:(lia)) as L. rewrite E in L. cbn in L. lia.
    + assert (x <> pg) as Hne by (apply Hx1; set_solver). rewrite upd_other by done.
      destruct (c_partial _ _ _ _ _ _ I x Hx) as (B1 & B2 & B3). split; [destruct (active_other m k pg x s _ Hne B1); by split|]. split; [done|].
      intros _. by apply B3.
  - intros x Hx. assert (x <> pg) as Hne by (apply Hx1; set_solver). rewrite upd_other by done.
    destruct (c_full _ _ _ _ _ _ I x Hx) as (B1 & B2). split; [destruct (active_other m k pg x s _ Hne B1); by split|done].
  - intros o. etransitivity; [apply (c_obj _ _ _ _ _ _ I)|]. split.
    + intros (x & i & Hx & Hi & Hnf & ->). exists x, i. split; [set_solver|]. split; [done|]. rewrite upd_other by (by apply Hx1). done.
    + intros (x & i & Hx & Hi & Hnf & ->). apply elem_of_cons in Hx as [->|Hx].
      * rewrite upd_same in Hnf. exfalso. by apply Hnf, all_slots_spec.
      * rewrite upd_other in Hnf by (by apply Hx1). by exists x, i.
Qed.

Lemma refill_page_ok m k F live FL : cinv m k F live FL None ->
  match refill_page base m id k with
  | None => slabs_partial k = [] /\ slabs_empty k = [] /\ pa_alloc (pages m) 0 = (pages m, 0)
  | Some (m', k', pg) => exists F' FL' fr, cinv m' k' F' live FL' fr /\ (fr = None \/ fr = Some pg) /\
      pg ∈ slabs_partial k' /\ mag k' = mag k /\ slot_size k' = slot_size k /\ payload_offset k' = payload_offset k /\ ccap k' = ccap k
  end.
Proof.
  intros I. unfold refill_page. destruct (slabs_partial k) as [|pg l] eqn:Ep.
  2:{ exists F, FL, None. split; [done|]. split; [by left|]. rewrite Ep. split; [set_solver|done]. }
  unfold slab_pop_cached_locked. destruct (slabs_empty k) as [|pg rest] eqn:Ee.
  - unfold slab_alloc_fresh.
    destruct (pa_alloc_law (pages m) F 0 (c_pages _ _ _ _ _ _ I) ltac:(lia)) as [E|(a & p & z & E & _ & Hp & _ & Hb & Hz & Ha)]; rewrite E.
    { by rewrite Z.eqb_refl. }
    assert (block 0 p p) as Hbp by (unfold block; lia). destruct (Hb p Hbp) as [HFp Hzp].
    pose proof (pa_span _ _ _ _ (c_pages _ _ _ _ _ _ I) Hzp) as Hsp.
    destruct (Z.eqb_spec (p * 4096) 0); [lia|].
    rewrite phys_page by (done || lia).
    assert (cinv (set_pages m a) k (fun f => F f /\ ~ block 0 p f) live FL None) as I1.
    { eapply cinv_pages; [done|done|done|]. cbn. tauto. }
    assert (page_at base p ∉ owned k) as Hni.
    { intros Ho. destruct (c_slab _ _ _ _ _ _ I _ Ho) as ((q & z' & Eq & Hq & Hnq & _) & _).
      assert (q = p) as -> by (unfold page_at in Eq; lia). done. }
    set (k1 := counts k (empty_count k) (u32 (slabs k + 1)) (in_use_total k)).
    assert (cinv (set_pages m a) k1 (fun f => F f /\ ~ block 0 p f) live FL None) as I2.
    { destruct I1 as [C1 C2 C3 C4 C5 C6 C7 C8 C9]. split; try done.
      - split; apply C2.
      - intros x Hx. destruct (C5 x Hx) as ([? ? ? ?] & ? & ?). split; [by split|done].
      - intros x Hx. destruct (C6 x Hx) as ([? ? ? ?] & ?). split; [by split|done]. }
    eexists _, _, (Some (page_at base p)). split.
    + eapply (add_slab (set_pages m a) k1 _ live FL (page_at base p) _ I2).
      * exact Hni.
      * exists p, z. split; [done|]. split; [lia|]. split; [tauto|]. cbn. by rewrite Hz.
      * repeat split; try done. apply init_chain, (c_geo _ _ _ _ _ _ I2).
    + split; [by right|]. split; [set_solver|done].
  - set (k1 := counts (lists k (slabs_partial k) (slabs_full k) rest)
                 (if 0 <? empty_count (lists k (slabs_partial k) (slabs_full k) rest) then empty_count (lists k (slabs_partial k) (slabs_full k) rest) - 1
                  else empty_count (lists k (slabs_partial k) (slabs_full k) rest))
                 (slabs (lists k (slabs_partial k) (slabs_full k) rest)) (in_use_total (lists k (slabs_partial k) (slabs_full k) rest))).
    assert (owned k ≡ₚ pg :: owned k1) as Hown.
    { unfold owned. cbn. rewrite Ee. rewrite !app_assoc. by rewrite <- Permutation_middle. }
    pose proof (c_nodup _ _ _ _ _ _ I) as N. rewrite Hown in N. apply NoDup_cons in N as [Hni N].
    assert (cinv m k1 F live FL None) as I1.
    { destruct I as [C1 C2 C3 C4 C5 C6 C7 C8 C9]. split; try done.
      - split; apply C2.
      - intros x Hx. apply (C4 x). rewrite Hown. set_solver.
      - intros x Hx. destruct (C5 x Hx) as ([? ? ? ?] & ? & ?). split; [by split|done].
      - intros x Hx. destruct (C6 x Hx) as ([? ? ? ?] & ?). split; [by split|done].
      - cbn. rewrite Ee in C9. cbn in C9. rewrite C9. destruct (Z.ltb_spec 0 (Z.of_nat (S (length rest)))); lia. }
    destruct (c_slab _ _ _ _ _ _ I pg) as (Q1 & Q2 & Q3 & Q4); [rewrite Hown; set_solver|].
    eexists _, _, (Some pg). split.
    + eapply (add_slab m k1 _ live FL pg _ I1 Hni Q1). repeat split; try done. apply init_chain, (c_geo _ _ _ _ _ _ I1).
    + split; [by right|]. split; [set_solver|done].
Qed.

Lemma refill_loop_ok cpu : valid_cpu cpu -> forall fuel m k F live FL target,
  cinv m k F live FL None -> target <= Z.of_nat fuel ->
  let '(m', k') := refill_loop base fuel m id k cpu target in
  exists F' FL', cinv m' k' F' live FL' None /\
    (exists l, mag k' cpu = l ++ mag k cpu /\ Z.of_nat (length l) <= Z.max 0 target) /\
    (0 < target -> mag k' cpu = mag k cpu -> pa_alloc (pages m) 0 = (pages m, 0)).
Proof.
  intros Hcpu. induction fuel as [|fuel IH]; intros m k F live FL target I Hf; cbn [refill_loop].
  { exists F, FL. split; [done|]. split; [exists []; cbn; split; [done|lia]|lia]. }
  destruct (Z.leb_spec target 0) as [Ht|Ht]; [exists F, FL; split; [done|]; split; [exists []; cbn; split; [done|lia]|lia]|].
  pose proof (refill_page_ok m k F live FL I) as Hpage. destruct (refill_page base m id k) as [[[m1 k1] pg]|].
  2:{ exists F, FL. split; [done|]. split; [exists []; cbn; split; [done|lia]|]. intros _ _. apply Hpage. }
  destruct Hpage as (F1 & FL1 & fr & I1 & Hfr & Hpg & Em & _).
  destruct (pop_ok m1 k1 F1 live FL1 fr cpu pg I1 Hfr Hpg Hcpu) as (Hne & FL2 & I2).
  apply Z.eqb_neq in Hne. rewrite Hne. cbv zeta. unfold popped in I2. cbv zeta in I2. cbn [free_head] in *.
  match type of I2 with cinv ?x ?y _ _ _ _ /\ _ => set (m2 := x) in *; set (k2 := y) in * end. destruct I2 as [I2 Em2].
  specialize (IH m2 k2 F1 live FL2 (target - 1) I2 ltac:(lia)).
  destruct (refill_loop base fuel m2 id k2 cpu (target - 1)) as [m' k']. destruct IH as (F' & FL' & I' & (l & El & Hl) & _).
  exists F', FL'. split; [done|]. rewrite Em2, Em in El. split.
  - exists (l ++ [slot_addr pg k1 (free_head (hdr m1 pg))]). rewrite El, length_app, <- app_assoc. cbn. split; [done|lia].
  - intros _ E. rewrite E in El. apply (f_equal length) in El. rewrite length_app in El. cbn in El. lia.
Qed.

(** *** Giving a slot back *)

Lemma put_ok m k k2 F live FL cpu obj rest pg idx :
  cinv m k F live FL None -> valid_cpu cpu -> mag k cpu = obj :: rest ->
  pg ∈ slabs_partial k ++ slabs_full k -> 0 <= idx < ccap k -> idx ∉ FL pg -> obj = slot k pg idx ->
  let s := hdr m pg in
  let s' := Hdr (magic s) (cache s) (u16 (in_use s - 1)) (capacity s) idx (links s)⟦idx ↦ free_head s⟧ in
  ccap k2 = ccap k -> slot_size k2 = slot_size k -> payload_offset k2 = payload_offset k -> mag k2 = (mag k)⟦cpu ↦ rest⟧ ->
  empty_count k2 = empty_count k -> slabs_empty k2 = slabs_empty k -> NoDup (owned k2) ->
  (forall x, x ∈ slabs_partial k2 ++ slabs_full k2 <-> x ∈ slabs_partial k ++ slabs_full k) ->
  (forall x, x ∈ slabs_partial k2 -> x ∈ slabs_partial k \/ x = pg) -> (forall x, x ∈ slabs_full k2 -> x ∈ slabs_full k /\ x <> pg) ->
  cinv (set_hdr m pg s') k2 F live FL⟦pg ↦ idx :: FL pg⟧ (Some pg) /\
  in_use s' = ccap k - Z.of_nat (length (idx :: FL pg)) /\ Z.of_nat (length (idx :: FL pg)) <= ccap k.
Proof.
  intros I Hcpu Em Hpg Hidx Hnf -> s s' Ec Es Ep Em2 Ee Eem Hn2 Hmem Hpart Hfull.
  assert (active m k pg (FL pg)) as Ac.
  { apply elem_of_app in Hpg as [Hq|Hq]; [apply (c_partial _ _ _ _ _ _ I pg Hq)|apply (c_full _ _ _ _ _ _ I pg Hq)]. }
  assert (pg ∈ owned k) as Hown by (unfold owned; set_solver).
  pose proof (c_slab _ _ _ _ _ _ I pg Hown) as Hsl. pose proof (c_geo _ _ _ _ _ _ I) as G. pose proof (g_cap _ G) as Gc.
  assert (Z.of_nat (length (idx :: FL pg)) <= ccap k) as Hlen.
  { pose proof (PmmSpec.NoDup_interval (idx :: FL pg) 0 (ccap k)) as Hiv. assert (Z.of_nat (length (idx :: FL pg)) <= Z.max 0 (ccap k - 0)) as Hm; [|lia].
    apply Hiv; [apply NoDup_cons; split; [done|apply Ac]|]. intros x [->|Hx]%elem_of_cons; [done|]. by apply (a_range _ _ _ _ Ac). }
  assert (in_use s' = ccap k - Z.of_nat (length (idx :: FL pg))) as Hu.
  { unfold s', s. cbn [in_use]. rewrite (a_used _ _ _ _ Ac). cbn [length] in *. rewrite u16_small; lia. }
  split; [|done].
  assert (all_mags k ≡ₚ slot k pg idx :: all_mags k2) as Hm2.
  { rewrite (mags_pop k cpu _ rest Hcpu Em). unfold all_mags. by rewrite Em2. }
  assert (forall x i, slot k2 x i = slot k x i) as Esl by (intros; unfold slot; by rewrite Es, Ep).
  assert (active (set_hdr m pg s') k2 pg (idx :: FL pg)) as Hact.
  { destruct Ac as [B1 B2 B3 B4]. split; cbn; rewrite ?upd_same; cbn; [|by apply NoDup_cons| |by rewrite Ec].
    - split; [done|]. rewrite upd_same. by apply chain_upd.
    - intros i [->|Hi]%elem_of_cons; rewrite Ec; [done|by apply B3]. }
  assert (forall x fl, x <> pg -> active m k x fl -> active (set_hdr m pg s') k2 x fl) as Hak.
  { intros x fl Hne Hax. destruct (active_other m k pg x s' fl Hne Hax) as [B1 B2 B3 B4]. split; [done|done|by rewrite Ec|by rewrite Ec]. }
  assert (outs k live ≡ₚ slot k pg idx :: outs k2 live) as Hout by (unfold outs; by rewrite Hm2).
  pose proof (c_out _ _ _ _ _ _ I) as No. rewrite Hout in No. apply NoDup_cons in No as [Hno No].
  split.
  - apply I.
  - split; rewrite ?Ec, ?Es, ?Ep; apply G.
  - done.
  - intros x Hx. assert (x ∈ owned k) as Hxo.
    { unfold owned in *. rewrite app_assoc in *. apply elem_of_app in Hx as [Hx|Hx]; [|rewrite Eem in Hx; set_solver]. apply Hmem in Hx. set_solver. }
    pose proof (c_slab _ _ _ _ _ _ I x Hxo) as Hs. destruct Hsl as (_ & E1 & E2 & E3).
    assert (is_slab (set_hdr m pg s') F k x) as (Q1 & Q2 & Q3 & Q4) by (by apply is_slab_hdr). split; [done|]. by rewrite Ec.
  - intros x Hx. rewrite upd_eq. destruct (Z.eqb_spec x pg) as [->|Hne]; [split; [done|]; split; [done|congruence]|].
    destruct (Hpart x Hx) as [Hxk|]; [|done]. destruct (c_partial _ _ _ _ _ _ I x Hxk) as (B1 & B2 & B3).
    split; [by apply Hak|]. split; [done|]. intros _. rewrite Ec. by apply B3.
  - intros x Hx. destruct (Hfull x Hx) as [Hxf Hne]. rewrite upd_other by done.
    destruct (c_full _ _ _ _ _ _ I x Hxf) as [B1 B2]. split; [by apply Hak|done].
  - done.
  - intros o. rewrite Ec. setoid_rewrite Hmem. setoid_rewrite Esl. split.
    + intros Ho. assert (o ∈ outs k live) as Hok by (rewrite Hout; set_solver).
      apply (c_obj _ _ _ _ _ _ I) in Hok as (x & i & Hx & Hi & Hxf & ->). exists x, i. split; [done|]. split; [done|]. split; [|done].
      rewrite upd_eq. destruct (Z.eqb_spec x pg) as [->|]; [|done]. intros [->|?]%elem_of_cons; done.
    + intros (x & i & Hx & Hi & Hxf & ->). rewrite upd_eq in Hxf.
      assert (slot k x i ∈ outs k live) as Hin.
      { apply (c_obj _ _ _ _ _ _ I). exists x, i. split; [done|]. split; [done|]. split; [|done].
        destruct (Z.eqb_spec x pg) as [->|]; [set_solver|done]. }
      rewrite Hout in Hin. apply elem_of_cons in Hin as [E|]; [|done]. exfalso.
      assert (x ∈ owned k) as Hxo by (unfold owned; set_solver).
      destruct (slot_inj_pages m F k x pg i idx G (proj1 (c_slab _ _ _ _ _ _ I x Hxo)) (proj1 Hsl) Hi Hidx E) as [-> ->].
      rewrite Z.eqb_refl in Hxf. set_solver.
  - rewrite Ee, Eem. apply I.
Qed.

Lemma all_free m k pg fl i : 0 <= ccap k -> active m k pg fl -> Z.of_nat (length fl) = ccap k -> 0 <= i < ccap k -> i ∈ fl.
Proof.
  intros Hc [_ N R _] Hl Hi. destruct (decide (i ∈ fl)) as [|Hn]; [done|]. exfalso.
  assert (Z.of_nat (length (i :: fl)) <= Z.max 0 (ccap k - 0)) as Hm; [|cbn in Hm; lia].
  apply PmmSpec.NoDup_interval; [by apply NoDup_cons|]. intros x [->|Hx]%elem_of_cons; [done|by apply R].
Qed.

Lemma retire_ok m k F live FL pg :
  cinv m k F live FL (Some pg) -> pg ∈ slabs_partial k -> Z.of_nat (length (FL pg)) = ccap k ->
  let k0 := lists k (list_remove (slabs_partial k) pg) (slabs_full k) (slabs_empty k) in
  let '(m', k') := slab_release base m (counts k0 (empty_count k0) (u32 (slabs k0 - 1)) (in_use_total k0)) pg in
  exists F', cinv m' k' F' live FL None /\ mag k' = mag k.
Proof.
  intros I Hpg Hlen k0. set (k1 := counts k0 (empty_count k0) (u32 (slabs k0 - 1)) (in_use_total k0)).
  pose proof (c_geo _ _ _ _ _ _ I) as G. pose proof (g_cap _ G) as Gc. pose proof (c_nodup _ _ _ _ _ _ I) as N.
  assert (owned k ≡ₚ pg :: owned k1) as Hown by (unfold owned; cbn; by rewrite (list_remove_perm _ pg Hpg) at 1).
  rewrite Hown in N. apply NoDup_cons in N as [Hni N1].
  pose proof (c_slab _ _ _ _ _ _ I pg (owned_partial _ _ Hpg)) as ((p & z & Epg & Hp & HFp & Hz) & Hmg & Hca & Hcp).
  destruct (c_partial _ _ _ _ _ _ I pg Hpg) as (Ac & _ & _).
  assert (NoDup (slabs_partial k)) as Np by (pose proof (c_nodup _ _ _ _ _ _ I) as N; apply NoDup_app in N as (N & _); done).
  assert (forall x, x ∈ slabs_partial k1 <-> x ∈ slabs_partial k /\ x <> pg) as Hpart by (intros x; cbn; by apply list_remove_elem).
  assert (forall x, x ∈ slabs_full k -> x <> pg) as Hfp.
  { intros x Hf ->. pose proof (c_nodup _ _ _ _ _ _ I) as N. apply NoDup_app in N as (_ & N & _). apply (N pg Hpg). set_solver. }
  (* what holds whatever becomes of the page *)
  assert (forall m' k' F', pa_ok (pages m') F' -> NoDup (owned k') -> (forall x, x ∈ owned k' -> is_slab m' F' k' x) ->
    (forall x, x <> pg -> hdr m' x = hdr m x) -> ccap k' = ccap k -> slot_size k' = slot_size k -> payload_offset k' = payload_offset k ->
    mag k' = mag k -> slabs_partial k' = slabs_partial k1 -> slabs_full k' = slabs_full k ->
    empty_count k' = Z.of_nat (length (slabs_empty k')) -> cinv m' k' F' live FL None) as Hgo.
  { intros m' k' F' H1 H2 H3 Hh Ec Es Ep Em Epa Efu He.
    assert (forall x fl, x <> pg -> active m k x fl -> active m' k' x fl) as Hak.
    { intros x fl Hne [B1 B2 B3 B4]. split; rewrite ?Hh, ?Ec by done; done. }
    split; try done.
    - split; rewrite ?Ec, ?Es, ?Ep; apply G.
    - intros x. rewrite Epa, Hpart. intros [Hx Hne]. destruct (c_partial _ _ _ _ _ _ I x Hx) as (B1 & B2 & B3).
      split; [by apply Hak|]. split; [done|]. intros _. rewrite Ec. apply B3. congruence.
    - intros x. rewrite Efu. intros Hx. destruct (c_full _ _ _ _ _ _ I x Hx) as (B1 & B2). split; [by apply Hak, B1; apply Hfp|done].
    - unfold outs, all_mags. rewrite Em. apply I.
    - intros o. unfold outs, all_mags. rewrite Em. etransitivity; [apply (c_obj _ _ _ _ _ _ I)|]. rewrite Epa, Efu, Ec.
      assert (forall x i, slot k' x i = slot k x i) as Esl by (intros; unfold slot; by rewrite Es, Ep). setoid_rewrite Esl.
      setoid_rewrite elem_of_app. setoid_rewrite Hpart. split; intros (x & i & Hx & Hi & Hnf & ->).
      + exists x, i. split; [|done]. destruct (decide (x = pg)) as [->|]; [|naive_solver]. exfalso.
        by apply Hnf, (all_free m k pg _ i ltac:(lia) Ac).
      + exists x, i. split; [naive_solver|done]. }
  pose proof (c_empty _ _ _ _ _ _ I) as Hemp. unfold slab_release. destruct (empty_count k1 <? EMPTY_SLAB_MAX).
  - exists F. split; [|done]. apply Hgo; try done.
    + apply I.
    + assert (owned (counts (lists k1 (slabs_partial k1) (slabs_full k1) (pg :: slabs_empty k1)) (empty_count k1 + 1) (u32 (slabs k1 + 1)) (in_use_total k1)) ≡ₚ owned k) as ->; [|apply I].
      rewrite Hown. unfold owned. cbn. rewrite !app_assoc. by rewrite <- Permutation_middle.
    + intros x Hx. apply (c_slab _ _ _ _ _ _ I). rewrite Hown. unfold owned in *. cbn in *. set_solver.
    + cbn. rewrite Hemp. cbn. lia.
  - cbn [pages hdr set_hdr set_pages]. rewrite Epg, page_phys by done.
    destruct (pa_free_law (pages m) F 0 p z (c_pages _ _ _ _ _ _ I) ltac:(lia) ltac:(lia) (Z.mod_1_r p)) as [Hok Hz'].
    { intros f Hb. unfold block in Hb. assert (f = p) as -> by lia. done. }
    exists (fun f => F f \/ block 0 p f). split; [|done]. apply Hgo; try done.
    + intros x Hx. assert (x <> pg) as Hne by (intros ->; done).
      destruct (c_slab _ _ _ _ _ _ I x) as ((q & zq & -> & Hq & HFq & Hzq) & R); [rewrite Hown; set_solver|].
      split; [|cbn; rewrite upd_other by congruence; done].
      exists q, zq. split; [done|]. split; [done|]. split; [|cbn; by rewrite Hz'].
      intros [?|Hb]; [done|]. unfold block in Hb. assert (q = p) as -> by lia. congruence.
    + intros x Hne. cbn. rewrite upd_other by congruence. done.
Qed.

Lemma settle m k F live FL pg : cinv m k F live FL (Some pg) -> Z.of_nat (length (FL pg)) < ccap k -> cinv m k F live FL None.
Proof.
  intros [C1 C2 C3 C4 C5 C6 C7 C8 C9] Hl. split; try done. intros x Hx. destruct (C5 x Hx) as (B1 & B2 & B3).
  split; [done|]. split; [done|]. intros _. destruct (decide (x = pg)) as [->|]; [done|]. apply B3. congruence.
Qed.

Lemma flush_one_ok m k F live FL cpu :
  cinv m k F live FL None -> valid_cpu cpu ->
  let '(m', k') := flush_one base m id k cpu in
  exists F' FL', cinv m' k' F' live FL' None /\ (mag k cpu <> [] -> mag k' = (mag k)⟦cpu ↦ tail (mag k cpu)⟧).
Proof.
  intros I Hcpu. unfold flush_one. destruct (mag k cpu) as [|obj rest] eqn:Em; [by exists F, FL|].
  assert (obj ∈ outs k live) as Ho by (unfold outs; rewrite (mags_pop k cpu obj rest Hcpu Em); set_solver).
  apply (c_obj _ _ _ _ _ _ I) in Ho as (pg & idx & Hpg & Hidx & Hnf & ->).
  assert (pg ∈ owned k) as Hown by (unfold owned; set_solver).
  destruct (c_slab _ _ _ _ _ _ I pg Hown) as (Hp & Hmg & Hca & Hcp).
  destruct (is_page_in m F pg k idx Hp (c_geo _ _ _ _ _ _ I) Hidx) as (_ & E2 & E3 & _). rewrite E2.
  cbv zeta. rewrite Hmg, Hca, !Z.eqb_refl. cbn [negb orb].
  change (slot_idx pg (set_mag k cpu rest) (slot k pg idx)) with (slot_idx pg k (slot k pg idx)). rewrite E3.
  rewrite Hcp. destruct (Z.leb_spec (ccap k) idx); [lia|].
  assert (active m k pg (FL pg)) as Ac.
  { apply elem_of_app in Hpg as [Hq|Hq]; [apply (c_partial _ _ _ _ _ _ I pg Hq)|apply (c_full _ _ _ _ _ _ I pg Hq)]. }
  pose proof (c_nodup _ _ _ _ _ _ I) as N.
  set (k1 := counts (set_mag k cpu rest) (empty_count (set_mag k cpu rest)) (slabs (set_mag k cpu rest)) (u32 (in_use_total (set_mag k cpu rest) - 1))).
  set (s' := Hdr SLAB_MAGIC id (u16 (in_use (hdr m pg) - 1)) (ccap k) idx (links (hdr m pg))⟦idx ↦ free_head (hdr m pg)⟧).
  assert (forall k2, pg ∈ slabs_partial k2 -> mag k2 = (mag k)⟦cpu ↦ rest⟧ -> ccap k2 = ccap k ->
     cinv (set_hdr m pg s') k2 F live FL⟦pg ↦ idx :: FL pg⟧ (Some pg) /\
     in_use s' = ccap k - Z.of_nat (length (idx :: FL pg)) /\ Z.of_nat (length (idx :: FL pg)) <= ccap k ->
     let '(m', k') :=
       if in_use s' =? 0 then
         let k0 := lists k2 (list_remove (slabs_partial k2) pg) (slabs_full k2) (slabs_empty k2) in
         slab_release base (set_hdr m pg s') (counts k0 (empty_count k0) (u32 (slabs k0 - 1)) (in_use_total k0)) pg
       else (set_hdr m pg s', k2) in
     exists F' FL', cinv m' k' F' live FL' None /\ (slot k pg idx :: rest <> [] -> mag k' = (mag k)⟦cpu ↦ tail (slot k pg idx :: rest)⟧)) as Hfin.
  { intros k2 Hpg2 Em2 Ec (I2 & Hu & Hlen). destruct (Z.eqb_spec (in_use s') 0) as [E0|E0].
    - pose proof (retire_ok _ _ _ _ _ pg I2 Hpg2) as Hr. rewrite upd_same, Ec in Hr. specialize (Hr ltac:(lia)). cbv zeta in *.
      destruct (slab_release base _ _ pg) as [m' k']. destruct Hr as (F' & I' & Em'). exists F', FL⟦pg ↦ idx :: FL pg⟧.
      split; [done|]. intros _. by rewrite Em', Em2.
    - exists F, FL⟦pg ↦ idx :: FL pg⟧. split; [|done]. apply (settle _ _ _ _ _ pg I2). rewrite upd_same, Ec. lia. }
  pose proof (fun k2 => put_ok m k k2 F live FL cpu (slot k pg idx) rest pg idx I Hcpu Em Hpg Hidx Hnf eq_refl) as Hput.
  cbv zeta in Hput. rewrite Hmg, Hca, Hcp in Hput. fold s' in Hput.
  pose proof N as Npf. unfold owned in Npf. rewrite app_assoc in Npf. apply NoDup_app in Npf as (Npf & _). apply NoDup_app in Npf as (_ & Npf & Nf).
  destruct (Z.eqb_spec (in_use (hdr m pg)) (ccap k)) as [Ef|Ef].
  - assert (pg ∈ slabs_full k) as Hf.
    { apply elem_of_app in Hpg as [Hq|]; [|done]. destruct (c_partial _ _ _ _ _ _ I pg Hq) as (_ & Hne & _).
      rewrite (a_used _ _ _ _ Ac) in Ef. destruct (FL pg); [done|cbn in Ef; lia]. }
    apply Hfin; [set_solver|done|done|]. apply Hput; try done.
    + unfold owned in *. cbn. rewrite (list_remove_perm _ pg Hf) in N. cbn in N. by rewrite Permutation_middle.
    + intros x. cbn. rewrite elem_of_cons, !elem_of_app, list_remove_elem by done. destruct (decide (x = pg)) as [->|]; tauto.
    + intros x. cbn. rewrite elem_of_cons. tauto.
    + intros x. cbn. rewrite list_remove_elem by done. done.
  - assert (pg ∈ slabs_partial k) as Hq.
    { apply elem_of_app in Hpg as [|Hf]; [done|]. destruct (c_full _ _ _ _ _ _ I pg Hf) as (_ & Hfl).
      rewrite (a_used _ _ _ _ Ac), Hfl in Ef. cbn in Ef. lia. }
    apply Hfin; [done|done|done|]. apply Hput; try done.
    + intros x Hx. by left.
    + intros x Hx. split; [done|]. intros ->. by apply (Npf pg).
Qed.

Lemma flush_loop_ok cpu n : valid_cpu cpu -> forall m k F live FL,
  cinv m k F live FL None -> (n <= length (mag k cpu))%nat ->
  let '(m', k') := flush_loop base n m id k cpu in
  exists F' FL', cinv m' k' F' live FL' None /\ mag k' cpu = drop n (mag k cpu).
Proof.
  intros Hcpu. induction n as [|n IH]; intros m k F live FL I Hn; cbn [flush_loop]; [by exists F, FL|].
  pose proof (flush_one_ok m k F live FL cpu I Hcpu) as H1. destruct (flush_one base m id k cpu) as [m1 k1].
  destruct H1 as (F1 & FL1 & I1 & Em). destruct (mag k cpu) as [|o rest] eqn:Ek; [cbn in Hn; lia|]. specialize (Em ltac:(done)).
  assert (mag k1 cpu = rest) as Er by (rewrite Em; by rewrite upd_same).
  specialize (IH m1 k1 F1 live FL1 I1). rewrite Er in IH. cbn in Hn. specialize (IH ltac:(lia)).
  destruct (flush_loop base n m1 id k1 cpu) as [m' k']. destruct IH as (F' & FL' & I' & E'). by exists F', FL'.
Qed.

(** A holder's object moves between [live] and a magazine. *)
Lemma cinv_live m k k' F live live' FL :
  cinv m k F live FL None -> all_mags k' ++ live' ≡ₚ all_mags k ++ live ->
  ccap k' = ccap k -> slot_size k' = slot_size k -> payload_offset k' = payload_offset k ->
  slabs_partial k' = slabs_partial k -> slabs_full k' = slabs_full k -> slabs_empty k' = slabs_empty k -> empty_count k' = empty_count k ->
  cinv m k' F live' FL None.
Proof.
  intros [C1 C2 C3 C4 C5 C6 C7 C8 C9] Hperm E1 E2 E3 E4 E5 E6 E7.
  assert (owned k' = owned k) as Eo by (unfold owned; by rewrite E4, E5, E6).
  split; rewrite ?Eo, ?E4, ?E5; try done.
  - split; rewrite ?E1, ?E2, ?E3; apply C2.
  - intros x Hx. destruct (C4 x Hx) as (B1 & B2). split; [done|]. by rewrite E1.
  - intros x Hx. destruct (C5 x Hx) as ([? ? ? ?] & ? & ?). split; [split; rewrite ?E1; done|]. rewrite E1. done.
  - intros x Hx. destruct (C6 x Hx) as ([? ? ? ?] & ?). split; [split; rewrite ?E1; done|done].
  - unfold outs. rewrite Hperm. done.
  - intros o. unfold outs. rewrite Hperm. etransitivity; [apply C8|]. rewrite E1.
    assert (forall x i, slot k' x i = slot k x i) as Esl by (intros; unfold slot; by rewrite E2, E3). by setoid_rewrite Esl.
  - by rewrite E7, E6.
Qed.

Lemma alloc_ok m k F live FL cpu :
  cinv m k F live FL None -> valid_cpu cpu ->
  let '(m', k', o) := slab_alloc base m id k cpu in
  (o = 0 /\ mag k cpu = [] /\ pa_alloc (pages m) 0 = (pages m, 0) /\ exists F' FL', cinv m' k' F' live FL' None) \/
  (o <> 0 /\ o ∉ live /\ exists F' FL', cinv m' k' F' (o :: live) FL' None).
Proof.
  intros I Hcpu. unfold slab_alloc.
  assert (forall m1 k1 F1 FL1 o rest, cinv m1 k1 F1 live FL1 None -> mag k1 cpu = o :: rest ->
    o <> 0 /\ o ∉ live /\ exists F' FL', cinv m1 (set_mag k1 cpu rest) F' (o :: live) FL' None) as Hpop.
  { intros m1 k1 F1 FL1 o rest I1 Em. pose proof (mags_pop k1 cpu o rest Hcpu Em) as Hm.
    assert (o ∈ outs k1 live) as Ho by (unfold outs; rewrite Hm; set_solver).
    pose proof (c_out _ _ _ _ _ _ I1) as No. unfold outs in No. rewrite Hm in No. apply NoDup_cons in No as [No _].
    split; [|split; [set_solver|]].
    - apply (c_obj _ _ _ _ _ _ I1) in Ho as (pg & idx & Hpg & Hidx & _ & ->).
      assert (pg ∈ owned k1) as Hown by (unfold owned; set_solver).
      by apply (is_page_in m1 F1 pg k1 idx (proj1 (c_slab _ _ _ _ _ _ I1 pg Hown)) (c_geo _ _ _ _ _ _ I1) Hidx).
    - exists F1, FL1. eapply cinv_live; [exact I1| |done..]. rewrite Hm. by rewrite <- Permutation_middle. }
  destruct (mag k cpu) as [|o rest] eqn:Em.
  - unfold mag_refill. pose proof (refill_loop_ok cpu Hcpu (16 + length (slabs_partial k)) m k F live FL MAG_BATCH I) as Hr.
    unfold MAG_BATCH in *. specialize (Hr ltac:(lia)).
    destruct (refill_loop base (16 + length (slabs_partial k)) m id k cpu 16) as [m1 k1]. destruct Hr as (F1 & FL1 & I1 & _ & Hempty).
    destruct (mag k1 cpu) as [|o rest] eqn:Em1; cbn [length].
    + left. split; [done|]. split; [done|]. split; [apply Hempty; [lia|by rewrite Em]|]. by exists F1, FL1.
    + right. by apply (Hpop m1 k1 F1 FL1).
  - cbn [negb]. rewrite Em. right. by apply (Hpop m k F FL).
Qed.

Lemma free_ok m k F live live' FL cpu o :
  cinv m k F live FL None -> valid_cpu cpu -> live ≡ₚ o :: live' ->
  let '(m', k') := slab_free base m id k cpu o in
  exists F' FL', cinv m' k' F' live' FL' None /\ (Z.of_nat (length (mag k cpu)) <= MAG_CAPACITY -> Z.of_nat (length (mag k' cpu)) <= MAG_CAPACITY).
Proof.
  intros I Hcpu Hl. unfold slab_free.
  assert (o <> 0) as Ho.
  { assert (o ∈ outs k live) as Hin by (unfold outs; rewrite Hl; set_solver).
    apply (c_obj _ _ _ _ _ _ I) in Hin as (pg & idx & Hpg & Hidx & _ & ->).
    assert (pg ∈ owned k) as Hown by (unfold owned; set_solver).
    by apply (is_page_in m F pg k idx (proj1 (c_slab _ _ _ _ _ _ I pg Hown)) (c_geo _ _ _ _ _ _ I) Hidx). }
  apply Z.eqb_neq in Ho. rewrite Ho.
  assert (forall m1 k1 F1 FL1, cinv m1 k1 F1 live FL1 None -> cinv m1 (set_mag k1 cpu (o :: mag k1 cpu)) F1 live' FL1 None) as Hpush.
  { intros m1 k1 F1 FL1 I1. eapply cinv_live; [exact I1| |done..]. rewrite (mags_push k1 cpu o Hcpu), Hl. cbn. by rewrite <- Permutation_middle. }
  unfold MAG_CAPACITY. destruct (Z.leb_spec 32 (Z.of_nat (length (mag k cpu)))) as [Hfull|Hroom].
  - unfold mag_flush. pose proof (flush_loop_ok cpu (Nat.min (Z.to_nat MAG_BATCH) (length (mag k cpu))) Hcpu m k F live FL I ltac:(lia)) as H1.
    destruct (flush_loop base _ m id k cpu) as [m1 k1]. destruct H1 as (F1 & FL1 & I1 & E1).
    exists F1, FL1. split; [by apply Hpush|]. intros Hc. cbn. rewrite upd_same. cbn [length]. rewrite E1, length_drop.
    unfold MAG_BATCH. lia.
  - exists F, FL. split; [by apply Hpush|]. intros _. cbn. rewrite upd_same. cbn [length]. lia.
Qed.
End Inv.
End SlabOps.
