(* ===== verification/SlabContract.v ===== *)
(** * The slab allocator's contract (kernel/mem/slab.c)

    All CPUs' allocations and frees of one cache, and the writes of the holders
    to their own objects, in any order. *)

From stdpp Require Import base list sets relations.
From Stdlib Require Import ZArith Lia Bool.
From S2P Require Import Prelude Pmm PmmExamples PageAlloc Slab SlabSpec SlabOps.
Open Scope Z_scope.

Module SlabContract.
Import Slab SlabSpec SlabOps.

Section Contract.
Context {A : Type} `{PageAllocLaws A}.
Context (base : Z).
Context (Hbase : base mod 4096 = 0) (Hlo : 0 <= base) (Hhi : base + 2 ^ 44 <= 2 ^ 64).
Context (id : Z).

Notation mem := (@mem A).
Notation cinv := (@cinv A _ base id).

(** A holder writes the first bytes of its object, where a free slot keeps its link. *)
Definition scribble (m : mem) (k : slab_cache) (o v : Z) : mem :=
  let pg := page_of o in let s := hdr m pg in
  set_hdr m pg (Hdr (magic s) (cache s) (in_use s) (capacity s) (free_head s) (links s)⟦slot_idx pg k o ↦ v⟧).

Lemma scribble_ok m k F live FL o v : cinv m k F live FL None -> o ∈ live -> cinv (scribble m k o v) k F live FL None.
Proof.
  intros I Ho. assert (o ∈ outs k live) as Hin by (unfold outs; set_solver).
  apply (c_obj _ _ _ _ _ _ _ _ I) in Hin as (pg & idx & Hpg & Hidx & Hnf & ->).
  assert (pg ∈ owned k) as Hown by (unfold owned; set_solver).
  destruct (c_slab _ _ _ _ _ _ _ _ I pg Hown) as (Hp & Hmg & Hca & Hcp).
  destruct (is_page_in base Hbase Hlo Hhi m F pg k idx Hp (c_geo _ _ _ _ _ _ _ _ I) Hidx) as (_ & E2 & E3 & _).
  unfold scribble. rewrite E2, E3. cbv zeta.
  set (s := Hdr _ _ _ _ _ _).
  assert (forall x, x ∈ slabs_partial k ++ slabs_full k -> active m k x (FL x) -> active (set_hdr m pg s) k x (FL x)) as Hak.
  { intros x _ [B1 B2 B3 B4]. split; [|done|done|]; cbn; rewrite upd_eq; destruct (Z.eqb_spec x pg) as [->|]; cbn; try done. by apply chain_upd. }
  destruct I as [C1 C2 C3 C4 C5 C6 C7 C8 C9]. split; try done.
  - intros x Hx. by apply is_slab_hdr, C4.
  - intros x Hx. destruct (C5 x Hx) as (B1 & B2). split; [apply Hak; [set_solver|done]|done].
  - intros x Hx. destruct (C6 x Hx) as (B1 & B2). split; [apply Hak; [set_solver|done]|done].
Qed.

Definition state := (mem * slab_cache * list Z)%type.

Inductive step : state -> state -> Prop :=
| step_alloc m k live cpu m' k' o : valid_cpu cpu -> slab_alloc base m id k cpu = (m', k', o) ->
    step (m, k, live) (m', k', if o =? 0 then live else o :: live)
| step_free m k live live' cpu o m' k' : valid_cpu cpu -> live ≡ₚ o :: live' -> slab_free base m id k cpu o = (m', k') ->
    step (m, k, live) (m', k', live')
| step_write m k live o v : o ∈ live -> step (m, k, live) (scribble m k o v, k, live).

Definition start (a : A) (h : Z -> slab) (hsize size : Z) : state := (Mem a h, slab_init_cache hsize size, []).

Definition good (s : state) : Prop := exists F FL, cinv s.1.1 s.1.2 F s.2 FL None.

Lemma step_good s s' : step s s' -> good s -> good s'.
Proof.
  intros Hs (F & FL & I). destruct Hs as [m k live cpu m' k' o Hc E|m k live live' cpu o m' k' Hc Hl E|m k live o v Ho]; cbn in *.
  - pose proof (alloc_ok base Hbase Hlo Hhi id m k F live FL cpu I Hc) as Ha. rewrite E in Ha.
    destruct Ha as [(-> & _ & _ & F' & FL' & I')|(Hne & _ & F' & FL' & I')]; exists F', FL'; [done|].
    apply Z.eqb_neq in Hne. by rewrite Hne.
  - pose proof (free_ok base Hbase Hlo Hhi id m k F live live' FL cpu o I Hc Hl) as Hf. rewrite E in Hf.
    destruct Hf as (F' & FL' & I' & _). by exists F', FL'.
  - exists F, FL. by apply scribble_ok.
Qed.

Lemma geo_init hsize size : 8 <= hsize <= 64 -> size ∈ cache_sizes -> geo (slab_init_cache hsize size).
Proof.
  intros Hh Hs. assert (u16 (align_up hsize SLAB_SLOT_ALIGN) = hsize + (- hsize) mod 8) as Epo.
  { unfold align_up, SLAB_SLOT_ALIGN. change (8 - 1) with (Z.ones 3). rewrite <- Z.ldiff_land, Z.ldiff_ones_r by lia.
    rewrite Z.shiftl_mul_pow2, Z.shiftr_div_pow2 by lia. change (Z.ones 3) with 7. change (2 ^ 3) with 8.
    rewrite u16_small; [|pose proof (Z.div_mod (hsize + 7) 8 ltac:(lia)); pose proof (Z.mod_pos_bound (hsize + 7) 8 ltac:(lia)); lia].
    Z.to_euclidean_division_equations; lia. }
  assert (8 <= hsize + (- hsize) mod 8 <= 64) as Hpo by (Z.to_euclidean_division_equations; lia).
  unfold cache_sizes in Hs. repeat (apply elem_of_cons in Hs as [->|Hs]); [..|by apply elem_of_nil in Hs].
  all: unfold slab_init_cache; rewrite Epo; generalize dependent (hsize + (- hsize) mod 8); intros po _ Hpo.
  all: split; cbn [ccap slot_size payload_offset]; unfold SLAB_PAGE_SIZE, SLAB_SLOT_ALIGN; try lia.
  all: match goal with |- context [align_up ?a 8] => change (align_up a 8) with a end.
  all: try (rewrite u16_small; Z.to_euclidean_division_equations; lia).
  all: lia.
Qed.

Lemma start_good a h F hsize size : pa_ok a F -> 8 <= hsize <= 64 -> size ∈ cache_sizes -> good (start a h hsize size).
Proof.
  intros Ha Hh Hs. exists F, (fun _ => []). cbn [fst snd start].
  assert (owned (slab_init_cache hsize size) = []) as Eo by done.
  assert (outs (slab_init_cache hsize size) [] = []) as Eu by (vm_compute; done).
  split; rewrite ?Eo, ?Eu; try done; try (by intros ? ?%elem_of_nil).
  - by apply geo_init.
  - constructor.
  - constructor.
  - intros o. split; [by intros ?%elem_of_nil|]. by intros (pg & idx & ?%elem_of_nil & _).
Qed.

Lemma reachable_good a h F hsize size s : pa_ok a F -> 8 <= hsize <= 64 -> size ∈ cache_sizes ->
  rtc step (start a h hsize size) s -> good s.
Proof.
  intros Ha Hh Hs Hr. eapply (rtc_invariant step good); [exact Hr|intros x y; apply step_good|by apply (start_good a h F)].
Qed.

(** Two objects in use do not overlap, and each lies inside a page the page
    allocator counts as used. *)
Definition apart (k : slab_cache) (o o' : Z) : Prop := o + slot_size k <= o' \/ o' + slot_size k <= o.
Definition in_used_page (F : Z -> Prop) (k : slab_cache) (o : Z) : Prop :=
  exists p, 0 < p < 2 ^ 32 /\ ~ F p /\ page_at base p < o /\ o + slot_size k <= page_at base p + 4096.

Lemma objects_apart m k F live FL o o' : cinv m k F live FL None -> o ∈ live -> o' ∈ live -> o <> o' -> apart k o o'.
Proof.
  intros I Ho Ho' Hne. pose proof (c_geo _ _ _ _ _ _ _ _ I) as G.
  assert (o ∈ outs k live /\ o' ∈ outs k live) as [H1 H2] by (unfold outs; set_solver).
  apply (c_obj _ _ _ _ _ _ _ _ I) in H1 as (pg & i & Hpg & Hi & _ & ->), H2 as (pg' & j & Hpg' & Hj & _ & ->).
  assert (pg ∈ owned k /\ pg' ∈ owned k) as [Hw Hw'] by (unfold owned; set_solver).
  destruct (c_slab _ _ _ _ _ _ _ _ I pg Hw) as ((p & z & -> & Hp & _) & _), (c_slab _ _ _ _ _ _ _ _ I pg' Hw') as ((q & z' & -> & Hq & _) & _).
  pose proof (slot_inside base k G p i Hi) as B1. pose proof (slot_inside base k G q j Hj) as B2. unfold apart.
  destruct (decide (p = q)) as [->|Hpq]; [|unfold page_at in *; lia].
  destruct G. assert (i <> j) by congruence. unfold slot. nia.
Qed.

Lemma object_inside m k F live FL o : cinv m k F live FL None -> o ∈ live -> in_used_page F k o.
Proof.
  intros I Ho. assert (o ∈ outs k live) as H1 by (unfold outs; set_solver).
  apply (c_obj _ _ _ _ _ _ _ _ I) in H1 as (pg & i & Hpg & Hi & _ & ->).
  assert (pg ∈ owned k) as Hw by (unfold owned; set_solver).
  destruct (c_slab _ _ _ _ _ _ _ _ I pg Hw) as ((p & z & -> & Hp & Hn & _) & _).
  pose proof (slot_inside base k (c_geo _ _ _ _ _ _ _ _ I) p i Hi). by exists p.
Qed.

(** C4: the slab allocator never hands out memory that is in use.  After any
    sequence of allocations and frees on any CPUs, with the holders writing
    anything to their objects, an allocation answers 0 only if its magazine is
    empty and the page allocator has no page; otherwise it answers an object
    that overlaps no object in use and lies inside a page the page allocator
    does not count as free. *)
Theorem slab_alloc_correct a h F hsize size m k live cpu m' k' o :
  pa_ok a F -> 8 <= hsize <= 64 -> size ∈ cache_sizes -> rtc step (start a h hsize size) (m, k, live) ->
  valid_cpu cpu -> slab_alloc base m id k cpu = (m', k', o) ->
  (o = 0 /\ mag k cpu = [] /\ pa_alloc (pages m) 0 = (pages m, 0)) \/
  (o <> 0 /\ (forall o', o' ∈ live -> apart k' o o') /\ exists F', pa_ok (pages m') F' /\ in_used_page F' k' o).
Proof.
  intros Ha Hh Hs Hr Hc E. destruct (reachable_good a h F hsize size _ Ha Hh Hs Hr) as (F1 & FL1 & I). cbn in I.
  pose proof (alloc_ok base Hbase Hlo Hhi id m k F1 live FL1 cpu I Hc) as H1. rewrite E in H1.
  destruct H1 as [(H2 & H3 & H4 & _)|(Hne & Hni & F' & FL' & I')]; [by left|right]. split; [done|]. split.
  - intros o' Ho'. apply (objects_apart m' k' F' (o :: live) FL'); [done|set_solver|set_solver|]. by intros ->.
  - exists F'. split; [apply I'|]. apply (object_inside m' k' F' (o :: live) FL'); [done|set_solver].
Qed.
End Contract.

(** The cache of 1024-byte objects on the 64-frame machine, direct map at 0:
    three allocations, the second object freed and allocated again. *)
Notation pmm := Pmm.pmm.
Definition pages0 : PageAlloc pmm := pmm_pages false 0.
Definition h0 : Z -> slab := fun _ => Hdr 0 0 0 0 0 (fun _ => 0).
Definition mem0 : @mem pmm := Mem PmmExamples.mini h0.
Definition cache0 : slab_cache := slab_init_cache 40 1024.

Lemma size_1024 : 1024 ∈ cache_sizes.
Proof. unfold cache_sizes. set_solver. Qed.
Lemma mini_pages : exists F, @pa_ok pmm pages0 PmmExamples.mini F.
Proof.
  destruct PmmExamples.mini_seeded as (FL & Hok & _). exists (free_somewhere FL). cbn. by exists FL.
Qed.

Lemma slab_alloc_correct_witness : exists m k m2 k2 o1 o2,
  @slab_alloc pmm pages0 0 mem0 77 cache0 0 = (m, k, o1) /\ @slab_alloc pmm pages0 0 m 77 k 1 = (m2, k2, o2) /\
  apart k2 o2 o1.
Proof.
  destruct (@slab_alloc pmm pages0 0 mem0 77 cache0 0) as [[m k] o1] eqn:E1.
  destruct (@slab_alloc pmm pages0 0 m 77 k 1) as [[m2 k2] o2] eqn:E2.
  exists m, k, m2, k2, o1, o2. split; [reflexivity|]. split; [exact E2|].
  destruct mini_pages as [F HF].
  assert (o1 <> 0) as Hne.
  { pose proof (f_equal snd E1) as Eo. cbn [snd] in Eo. rewrite <- Eo. vm_compute. discriminate. }
  assert (o2 <> 0) as Hne2.
  { pose proof (f_equal (fun x => (@slab_alloc pmm pages0 0 x.1.1 77 x.1.2 1).2) E1) as Eo. cbn [fst snd] in Eo. rewrite E2 in Eo. cbn [snd] in Eo.
    rewrite <- Eo. vm_compute. discriminate. }
  assert (rtc (@step pmm pages0 0 77) (start PmmExamples.mini h0 40 1024) (m, k, [o1])) as Hr.
  { apply rtc_once. pose proof (@step_alloc pmm pages0 0 77 mem0 cache0 [] 0 m k o1 ltac:(unfold valid_cpu; lia) E1) as Hs.
    rewrite (proj2 (Z.eqb_neq o1 0) Hne) in Hs. exact Hs. }
  pose proof (@slab_alloc_correct pmm pages0 (pmm_pages_laws false 0) 0 eq_refl ltac:(lia) ltac:(lia) 77 PmmExamples.mini h0 F 40 1024 m k [o1] 1 m2 k2 o2
    HF ltac:(lia) size_1024 Hr ltac:(unfold valid_cpu; lia) E2) as [[? _]|(_ & Hap & _)]; [contradiction|].
  apply Hap. apply list_elem_of_singleton. reflexivity.
Defined.
End SlabContract.
