(* ===== verification/Kmalloc.v ===== *)
(** * The kernel heap (kernel/mem/kmalloc.c)

    [kmalloc] serves requests of up to 2 KiB from the slab caches and larger ones
    from the page allocator, remembering the latter in a side table by frame; from
    1 MiB up it gives the unused tail of the power-of-two block straight back.
    [kfree] finds out which of these a pointer came from. *)

From stdpp Require Import base list sets.
From Stdlib Require Import ZArith Lia Bool.
From S2P Require Import Prelude Pmm PmmExamples PageAlloc Slab SlabSpec.
Open Scope Z_scope.

Module Kmalloc.
Import Slab SlabSpec.

Definition BIG_NONE : Z := 0xFF.
Definition BIG_EXACT : Z := 0xFD.
Definition EXACT_MIN_ORDER : Z := 8.
Definition EXACT_SLOTS : nat := 64.
Definition BUDDY_MAX_ORDER : Z := 13.

(** A slot of [g_exact]: first frame and number of pages (0: slot free). *)
Record exact := Exact { e_pfn : Z; e_pages : Z }.

Section Heap.
Context {A : Type} `{PageAlloc A}.
Context (base : Z).

Record kheap := Heap {
  kmem : @mem A;                       (* page headers and the page allocator *)
  caches : Z -> slab_cache;            (* by cache number, which stands for its address *)
  big_alloc_order : Z -> Z; big_alloc_nr : Z; pfn_base : Z;
  big_allocs : Z; big_bytes : Z;
  g_exact : list exact;
  initialized : bool
}.

Definition set_kmem (h : kheap) (m : @mem A) : kheap :=
  Heap m (caches h) (big_alloc_order h) (big_alloc_nr h) (pfn_base h) (big_allocs h) (big_bytes h) (g_exact h) (initialized h).
Definition set_cache (h : kheap) (m : @mem A) (c : Z) (k : slab_cache) : kheap :=
  Heap m (caches h)⟦c ↦ k⟧ (big_alloc_order h) (big_alloc_nr h) (pfn_base h) (big_allocs h) (big_bytes h) (g_exact h) (initialized h).
Definition set_big (h : kheap) (pfn v allocs bytes : Z) (ex : list exact) : kheap :=
  Heap (kmem h) (caches h) (big_alloc_order h)⟦pfn ↦ v⟧ (big_alloc_nr h) (pfn_base h) allocs bytes ex (initialized h).

(** The order of the next block [free_frame_range] gives back. *)
Fixpoint range_order (o : nat) (pfn n : Z) : Z :=
  match o with
  | O => 0
  | S o' =>
      if negb (Z.land pfn (Z.shiftl 1 (Z.of_nat o) - 1) =? 0) || (n <? Z.shiftl 1 (Z.of_nat o))
      then range_order o' pfn n else Z.of_nat o
  end.
Fixpoint free_range_loop (fuel : nat) (a : A) (pfn n : Z) : A :=
  match fuel with
  | O => a
  | S fuel' =>
      if n =? 0 then a else
      let o := range_order (Z.to_nat BUDDY_MAX_ORDER) pfn n in
      free_range_loop fuel' (pa_free a (pfn * 4096) o) (u32 (pfn + 2 ^ o)) (u32 (n - 2 ^ o))
  end.
Definition free_frame_range (a : A) (pfn n : Z) : A := free_range_loop (Z.to_nat n) a pfn n.

(** [while (v < pages) { v <<= 1; order++; }]; 64 rounds reach every size_t. *)
Fixpoint order_loop (fuel : nat) (pages v order : Z) : Z :=
  match fuel with
  | O => order
  | S fuel' => if v <? pages then order_loop fuel' pages (u64 (v * 2)) (order + 1) else order
  end.
Definition order_for_bytes (bytes : Z) : Z :=
  let pages := u64 (bytes + 4095) / 4096 in
  if pages <=? 1 then 0 else order_loop 64 pages 1 0.

(** [kmalloc_init], given the answer of the boot arena. *)
Definition kmalloc_init (h : kheap) (nr_frames base_pfn : Z) (arena : bool) (hsize : Z) : kheap :=
  if initialized h then h
  else if negb arena then
    Heap (kmem h) (caches h) (big_alloc_order h) 0 base_pfn (big_allocs h) (big_bytes h) (g_exact h) false
  else
    Heap (kmem h) (fun c => match nthZ cache_sizes c with Some s => slab_init_cache hsize s | None => caches h c end)
         (fun f => if (base_pfn <=? f) && (f <? nr_frames) then BIG_NONE else big_alloc_order h f)
         nr_frames base_pfn (big_allocs h) (big_bytes h) (g_exact h) true.

(** Record an exact allocation in the first free slot, if there is one. *)
Fixpoint exact_put (l : list exact) (pfn pages : Z) : option (list exact) :=
  match l with
  | [] => None
  | e :: l' => if e_pages e =? 0 then Some (Exact pfn pages :: l') else (e ::.) <$> exact_put l' pfn pages
  end.
(** Take the record of [pfn] out; 0 pages when there is none. *)
Fixpoint exact_take (l : list exact) (pfn : Z) : list exact * Z :=
  match l with
  | [] => ([], 0)
  | e :: l' =>
      if negb (e_pages e =? 0) && (e_pfn e =? pfn) then (Exact (e_pfn e) 0 :: l', e_pages e)
      else let '(l', n) := exact_take l' pfn in (e :: l', n)
  end.

(** The page-allocator path of [kmalloc]. *)
Definition kmalloc_big (h : kheap) (size : Z) : kheap * Z :=
  let order := order_for_bytes size in
  let '(a, phys) := pa_alloc (pages (kmem h)) order in
  if phys =? 0 then (h, 0) else
  let h := set_kmem h (set_pages (kmem h) a) in
  let pfn := phys / 4096 in
  if (big_alloc_nr h <=? pfn) || (pfn <? pfn_base h) then (set_kmem h (set_pages (kmem h) (pa_free a phys order)), 0) else
  let n := u32 (u64 (size + 4095) / 4096) in
  match (if (EXACT_MIN_ORDER <=? order) && (n <? u32 (2 ^ order)) then exact_put (g_exact h) pfn n else None) with
  | Some ex =>
      let a := free_frame_range a (u32 (pfn + n)) (u32 (2 ^ order - n)) in
      let h := set_kmem h (set_pages (kmem h) a) in
      (set_big h pfn BIG_EXACT (u32 (big_allocs h + 1)) (u32 (big_bytes h + u32 (n * 4096))) ex, phys_to_virt base phys)
  | None =>
      (set_big h pfn order (u32 (big_allocs h + 1)) (u32 (big_bytes h + u32 (2 ^ order * 4096))) (g_exact h), phys_to_virt base phys)
  end.

(** [inject] is [alloc_fail_injected()]. *)
Definition kmalloc (h : kheap) (inject : bool) (cpu size : Z) : kheap * Z :=
  if negb (initialized h) || (size =? 0) then (h, 0)
  else if inject then (h, 0)
  else match slab_lookup_cache true size with
       | Some c => let '(m, k, o) := slab_alloc base (kmem h) c (caches h c) cpu in (set_cache h m c k, o)
       | None => kmalloc_big h size
       end.

(** [kcalloc]'s request: the product, or nothing if it would not fit. *)
Definition kcalloc_total (n size : Z) : option Z :=
  if negb (n =? 0) && ((2 ^ 64 - 1) / n <? size) then None else Some (u64 (n * size)).
Definition kcalloc (h : kheap) (inject : bool) (cpu n size : Z) : kheap * Z :=
  match kcalloc_total n size with None => (h, 0) | Some total => kmalloc h inject cpu total end.

Definition dec (n : Z) : Z := if n =? 0 then 0 else n - 1.
Definition sub_bytes (b d : Z) : Z := if d <=? b then b - d else b.

Definition kfree (h : kheap) (cpu p : Z) : kheap :=
  if p =? 0 then h
  else if negb (initialized h) then h
  else match slab_cache_of (kmem h) p with
  | Some c => let '(m, k) := slab_free base (kmem h) c (caches h c) cpu p in set_cache h m c k
  | None =>
      if negb (Z.land p 0xFFF =? 0) then h else
      let pfn := u32 (virt_to_phys base p / 4096) in
      if (big_alloc_nr h <=? pfn) || (pfn <? pfn_base h) || (big_alloc_order h pfn =? BIG_NONE) then h
      else if big_alloc_order h pfn =? BIG_EXACT then
        let '(ex, n) := exact_take (g_exact h) pfn in
        if n =? 0 then set_big h pfn BIG_NONE (big_allocs h) (big_bytes h) ex
        else
          let h := set_big h pfn BIG_NONE (dec (big_allocs h)) (sub_bytes (big_bytes h) (u32 (n * 4096))) ex in
          set_kmem h (set_pages (kmem h) (free_frame_range (pages (kmem h)) pfn n))
      else
        let order := big_alloc_order h pfn in
        let h := set_big h pfn BIG_NONE (dec (big_allocs h)) (sub_bytes (big_bytes h) (u32 (2 ^ order * 4096))) (g_exact h) in
        set_kmem h (set_pages (kmem h) (pa_free (pages (kmem h)) (virt_to_phys base p) order))
  end.
End Heap.
End Kmalloc.
