(* ===== verification/KmallocSpec.v ===== *)
(** * Large kernel allocations (kernel/mem/kmalloc.c)

    Every frame of a large block is in one allocation or free, the side table
    says how large each block is, and [kfree] gives back exactly its frames. *)

From stdpp Require Import base list sets.
From Stdlib Require Import ZArith Lia Bool.
From S2P Require Import Prelude PmmInv PageAlloc Slab SlabSpec Kmalloc.
Open Scope Z_scope.

Module KmallocSpec.
Import Slab SlabSpec Kmalloc.

Definition pow2_pos := PmmInv.pow2_pos.
Definition range (p n f : Z) : Prop := p <= f < p + n.

(** ** Sizes and orders *)

Lemma range_order_spec pfn n : 0 <= pfn -> 1 <= n -> forall o,
  let r := range_order o pfn n in 0 <= r <= Z.of_nat o /\ pfn mod 2 ^ r = 0 /\ 2 ^ r <= n.
Proof.
  intros Hp Hn. induction o as [|o IH]; cbn [range_order].
  { change (2 ^ 0) with 1. split; [lia|]. split; [apply Z.mod_1_r|lia]. }
  destruct (_ || _) eqn:E; [destruct IH as (I1 & I2 & I3); split; [lia|done]|]. bool_props.
  rewrite Z.shiftl_mul_pow2, Z.mul_1_l in * by lia. split; [lia|]. split; [|lia].
  rewrite <- Z.land_ones, Z.ones_equiv by lia. rewrite <- Z.sub_1_r. done.
Qed.

Lemma order_loop_spec n : forall fuel order, 0 <= order -> 1 <= n < 2 ^ 63 -> 63 <= Z.of_nat fuel + order -> order <= 63 ->
  (order = 0 \/ 2 ^ (order - 1) < n) ->
  let r := order_loop fuel n (2 ^ order) order in 0 <= r <= 63 /\ n <= 2 ^ r /\ (r = 0 \/ 2 ^ (r - 1) < n).
Proof.
  induction fuel as [|fuel IH]; intros order Ho Hn Hf Hm Hmin; cbn [order_loop].
  { assert (order = 63) as -> by lia. split; [lia|]. split; [lia|done]. }
  destruct (Z.ltb_spec (2 ^ order) n) as [Hlt|Hge]; [|split; [lia|]; split; [lia|done]].
  assert (order < 63) as H63.
  { destruct (decide (order < 63)); [done|]. assert (2 ^ 63 <= 2 ^ order) by (apply Z.pow_le_mono_r; lia). lia. }
  pose proof (pow2_pos order Ho).
  assert (2 ^ (order + 1) = 2 ^ order * 2) as E by (rewrite Z.pow_add_r; lia).
  assert (2 ^ (order + 1) <= 2 ^ 63) by (apply Z.pow_le_mono_r; lia).
  rewrite u64_small by lia. rewrite <- E. apply IH; try lia.
  right. replace (order + 1 - 1) with order by lia. done.
Qed.

Definition pages_for (size : Z) : Z := (size + 4095) / 4096.

Lemma pages_for_spec size : 0 < size -> 1 <= pages_for size /\ size <= pages_for size * 4096 /\ (pages_for size - 1) * 4096 < size.
Proof. intros. unfold pages_for. Z.to_euclidean_division_equations; lia. Qed.

(** Unless the request is within a page of 2^64, the order is the least one whose
    block holds it. *)
Lemma order_for_bytes_spec size : 0 < size -> size + 4095 < 2 ^ 64 ->
  let o := order_for_bytes size in 0 <= o /\ pages_for size <= 2 ^ o /\ (o = 0 \/ 2 ^ (o - 1) < pages_for size).
Proof.
  intros Hs Hb. unfold order_for_bytes. rewrite u64_small by lia. fold (pages_for size).
  pose proof (pages_for_spec size Hs) as (H1 & H2 & H3).
  destruct (Z.leb_spec (pages_for size) 1); [split; [lia|]; split; [change (2 ^ 0) with 1; lia|by left]|].
  destruct (order_loop_spec (pages_for size) 64 0) as (R1 & R2 & R3); try lia.
  change (2 ^ 0) with 1 in *. split; [lia|done].
Qed.

(** Requests above the largest class do not go to the slab caches; others go to
    the smallest class that holds them. *)
Lemma lookup_big size : 2048 < size -> slab_lookup_cache true size = None.
Proof. intros Hs. unfold slab_lookup_cache. cbn. by rewrite !(proj2 (Z.leb_gt _ _)) by lia. Qed.

(** ** Giving a run of frames back *)

Section Runs.
Context {A : Type} `{PageAllocLaws A}.

Lemma free_range_zero fuel (a : A) pfn : free_range_loop fuel a pfn 0 = a.
Proof. by destruct fuel. Qed.

Lemma free_range_ok fuel : forall (a : A) F pfn n z,
  pa_ok a F -> 0 < pfn -> 0 <= n <= Z.of_nat fuel ->
  (forall f, range pfn n f -> ~ F f /\ pa_zone a f = Some z) ->
  pa_ok (free_range_loop fuel a pfn n) (fun f => F f \/ range pfn n f) /\
  (forall f, pa_zone (free_range_loop fuel a pfn n) f = pa_zone a f).
Proof.
  unfold range. induction fuel as [|fuel IH]; intros a F pfn n z Ha Hp Hn Hr.
  { cbn. split; [|done]. eapply pa_ext; [exact Ha|]. intros f. split; [tauto|]. intros [?|?]; [done|lia]. }
  cbn [free_range_loop]. destruct (Z.eqb_spec n 0) as [->|Hn0].
  { split; [|done]. eapply pa_ext; [exact Ha|]. intros f. split; [tauto|]. intros [?|?]; [done|lia]. }
  destruct (range_order_spec pfn n ltac:(lia) ltac:(lia) (Z.to_nat BUDDY_MAX_ORDER)) as (O1 & O2 & O3).
  set (o := range_order (Z.to_nat BUDDY_MAX_ORDER) pfn n) in *. unfold BUDDY_MAX_ORDER in O1.
  pose proof (pow2_pos o ltac:(lia)) as Hpos.
  destruct (pa_free_law a F o pfn z Ha ltac:(lia) Hp O2) as [Ha' Hz'].
  { intros f Hf. apply Hr. unfold block in Hf. lia. }
  assert (pfn + n - 1 < 2 ^ 32) as Hsp.
  { destruct (Hr (pfn + n - 1) ltac:(lia)) as [_ Hz]. pose proof (pa_span _ _ _ _ Ha Hz). lia. }
  rewrite (u32_small (n - 2 ^ o)) by lia.
  destruct (decide (n = 2 ^ o)) as [En|En].
  - rewrite En, Z.sub_diag, free_range_zero. split; [|done]. eapply pa_ext; [exact Ha'|]. done.
  - rewrite (u32_small (pfn + 2 ^ o)) by lia.
    destruct (IH _ _ (pfn + 2 ^ o) (n - 2 ^ o) z Ha' ltac:(lia) ltac:(lia)) as [Ha2 Hz2].
    { intros f Hf. destruct (Hr f ltac:(lia)) as [Hn1 Hz1]. split; [|by rewrite Hz'].
      intros [?|Hb]; [done|]. unfold block in Hb. lia. }
    split; [|intros f; by rewrite Hz2]. eapply pa_ext; [exact Ha2|]. intros f. unfold block. split; [intros [[?|?]|?]; [by left|right; lia|right; lia]|].
    intros [?|?]; [tauto|]. destruct (Z.lt_ge_cases f (pfn + 2 ^ o)); [left; right; lia|right; lia].
Qed.

Lemma free_frame_range_ok (a : A) F pfn n z :
  pa_ok a F -> 0 < pfn -> 0 <= n -> (forall f, range pfn n f -> ~ F f /\ pa_zone a f = Some z) ->
  pa_ok (free_frame_range a pfn n) (fun f => F f \/ range pfn n f) /\
  (forall f, pa_zone (free_frame_range a pfn n) f = pa_zone a f).
Proof. intros Ha Hp Hn. apply free_range_ok; [done|done|lia]. Qed.
End Runs.

(** ** The table of exact allocations *)

Definition lives (l : list exact) : list exact := filter (fun e => e_pages e <> 0) l.
#[local] Arguments lives : simpl never.

Lemma lives_cons e l : lives (e :: l) = if e_pages e =? 0 then lives l else e :: lives l.
Proof. unfold lives. rewrite filter_cons. destruct (Z.eqb_spec (e_pages e) 0); case_decide; done. Qed.

Lemma exact_put_spec l pfn n l' : n <> 0 -> exact_put l pfn n = Some l' -> lives l' ≡ₚ Exact pfn n :: lives l.
Proof.
  intros Hn. revert l'. induction l as [|e l IH]; intros l'; cbn [exact_put]; [done|].
  destruct (Z.eqb_spec (e_pages e) 0) as [E|E].
  - intros [= <-]. rewrite !lives_cons. cbn. rewrite (proj2 (Z.eqb_neq n 0) Hn), (proj2 (Z.eqb_eq _ 0) E). done.
  - destruct (exact_put l pfn n) as [l1|]; [|done]. cbn. intros [= <-]. rewrite !lives_cons, (proj2 (Z.eqb_neq _ 0) E).
    rewrite (IH l1 eq_refl). apply perm_swap.
Qed.

Lemma exact_take_spec l pfn n : Exact pfn n ∈ lives l -> NoDup (e_pfn <$> lives l) ->
  let '(l', n') := exact_take l pfn in n' = n /\ lives l ≡ₚ Exact pfn n :: lives l'.
Proof.
  induction l as [|e l IH]; cbn [exact_take]; [by intros ?%elem_of_nil|].
  rewrite lives_cons. destruct (Z.eqb_spec (e_pages e) 0) as [E|E]; cbn [negb andb].
  - intros Hin Hnd. specialize (IH Hin Hnd). destruct (exact_take l pfn) as [l' n']. destruct IH as [-> Hp].
    rewrite lives_cons, (proj2 (Z.eqb_eq _ 0) E). done.
  - intros Hin Hnd. cbn in Hnd. apply NoDup_cons in Hnd as [Hni Hnd]. apply elem_of_cons in Hin as [<-|Hin].
    + cbn. rewrite Z.eqb_refl, lives_cons. done.
    + destruct (Z.eqb_spec (e_pfn e) pfn) as [Ep|Ep].
      { exfalso. apply Hni. apply list_elem_of_fmap. exists (Exact pfn n). done. }
      specialize (IH Hin Hnd). destruct (exact_take l pfn) as [l' n']. destruct IH as [-> Hp].
      rewrite lives_cons, (proj2 (Z.eqb_neq _ 0) E). split; [done|]. rewrite Hp. apply perm_swap.
Qed.
End KmallocSpec.
