(* ===== verification/KmallocContract.v ===== *)
(** * The kernel heap's contract for large blocks (kernel/mem/kmalloc.c) *)

From stdpp Require Import base list sets.
From Stdlib Require Import ZArith Lia Bool.
From S2P Require Import Prelude Pmm PmmExamples PageAlloc Slab SlabSpec SlabContract Kmalloc KmallocSpec.
Open Scope Z_scope.

Module KmallocContract.
Import Slab SlabSpec Kmalloc KmallocSpec.

Section Contract.
Context {A : Type} `{PageAllocLaws A}.
Context (base : Z).
Context (Hbase : base mod 4096 = 0) (Hlo : 0 <= base) (Hhi : base + 2 ^ 44 <= 2 ^ 64).

Notation kheap := (@kheap A).
Notation zone_of h := (pa_zone (pages (kmem h))).

(** What the side table remembers of the block of [n] frames at [p]. *)
Definition recorded (h : kheap) (p n : Z) : Prop :=
  (big_alloc_order h p = BIG_EXACT /\ Exact p n ∈ lives (g_exact h)) \/
  (0 <= big_alloc_order h p <= 13 /\ n = 2 ^ big_alloc_order h p /\ p mod n = 0).

(** [live]: the large blocks in use, as first frame and number of frames. *)
Record kok (h : kheap) (F : Z -> Prop) (live : list (Z * Z)) : Prop := {
  k_init : initialized h = true;
  k_pages : pa_ok (pages (kmem h)) F;
  k_span : forall f z, zone_of h f = Some z -> pfn_base h <= f < big_alloc_nr h;
  k_live : forall p n, (p, n) ∈ live -> 0 < n /\ 0 < p /\ recorded h p n /\ exists z, forall f, range p n f -> ~ F f /\ zone_of h f = Some z;
  k_nodup : NoDup live;
  k_disj : forall b c f, b ∈ live -> c ∈ live -> range b.1 b.2 f -> range c.1 c.2 f -> b = c;
  k_exact : forall e, e ∈ lives (g_exact h) -> (e_pfn e, e_pages e) ∈ live /\ big_alloc_order h (e_pfn e) = BIG_EXACT;
  k_exnd : NoDup (e_pfn <$> lives (g_exact h))
}.

(** A block taken out of the free set, recorded, with nothing else changed. *)
Lemma kok_add h h' F live pfn n z :
  kok h F live -> 0 < pfn -> 0 < n -> (forall f, range pfn n f -> F f) ->
  (forall f, range pfn n f -> zone_of h f = Some z) -> (forall f, zone_of h' f = zone_of h f) ->
  pa_ok (pages (kmem h')) (fun f => F f /\ ~ range pfn n f) ->
  initialized h' = initialized h -> pfn_base h' = pfn_base h -> big_alloc_nr h' = big_alloc_nr h ->
  (forall f, f <> pfn -> big_alloc_order h' f = big_alloc_order h f) -> recorded h' pfn n ->
  (g_exact h' = g_exact h \/ (lives (g_exact h') ≡ₚ Exact pfn n :: lives (g_exact h) /\ big_alloc_order h' pfn = BIG_EXACT)) ->
  kok h' (fun f => F f /\ ~ range pfn n f) ((pfn, n) :: live).
Proof.
  intros K Hp Hn HF Hz Hzz Ha E1 E2 E3 Ho Hrec Hex. unfold range in *.
  assert (forall p m f, (p, m) ∈ live -> range p m f -> ~ (pfn <= f < pfn + n)) as Hsep.
  { intros p m f Hin Hr Hb. destruct (k_live _ _ _ K p m Hin) as (_ & _ & _ & z' & Hl). by apply (Hl f Hr), HF. }
  assert (forall p m, (p, m) ∈ live -> p <> pfn) as Hne.
  { intros p m Hin ->. destruct (k_live _ _ _ K pfn m Hin) as (Hm & _). apply (Hsep pfn m pfn Hin); unfold range; lia. }
  assert (forall e, e ∈ lives (g_exact h) -> e_pfn e <> pfn) as Hne' by (intros e He; apply (Hne _ (e_pages e)); by apply K).
  assert (forall e, e ∈ lives (g_exact h') <-> e ∈ lives (g_exact h) \/ (e = Exact pfn n /\ lives (g_exact h') ≡ₚ Exact pfn n :: lives (g_exact h) /\ big_alloc_order h' pfn = BIG_EXACT)) as Hel.
  { intros e. destruct Hex as [-> |[Hx Hxo]].
    2:{ assert (e ∈ lives (g_exact h') <-> e = Exact pfn n \/ e ∈ lives (g_exact h)) as Hm by (rewrite Hx; apply elem_of_cons). tauto. }
    split; [tauto|]. intros [?|(-> & Hx & _)]; [done|].
    apply Permutation_length in Hx. cbn in Hx. lia. }
  split.
  - by rewrite E1; apply K.
  - done.
  - intros f z'. rewrite E2, E3, Hzz. apply K.
  - intros p m [[= -> ->]|Hin]%elem_of_cons.
    + split; [done|]. split; [done|]. split; [done|]. exists z. intros f Hr. unfold range in Hr. split; [tauto|]. rewrite Hzz. by apply Hz.
    + destruct (k_live _ _ _ K p m Hin) as (L1 & L2 & L3 & z' & L4). split; [done|]. split; [done|]. split.
      * unfold recorded in *. rewrite (Ho p (Hne _ _ Hin)). destruct L3 as [[L3 L5]|L3]; [left|by right]. split; [done|]. apply Hel. by left.
      * exists z'. intros f Hr. destruct (L4 f Hr). split; [tauto|by rewrite Hzz].
  - apply NoDup_cons. split; [|apply K]. intros Hin. by apply (Hne _ _ Hin).
  - intros b c f Hb Hc Hbf Hcf. apply elem_of_cons in Hb as [->|Hb], Hc as [->|Hc]; cbn in *; [done| | |by apply (k_disj _ _ _ K b c f)].
    + destruct c as [p m]. by apply (Hsep p m f Hc) in Hcf.
    + destruct b as [p m]. by apply (Hsep p m f Hb) in Hbf.
  - intros e [He|(-> & _ & Hxo)]%Hel; [|split; [set_solver|done]].
    destruct (k_exact _ _ _ K e He) as [He1 He2]. split; [set_solver|]. rewrite Ho; [done|]. by apply Hne'.
  - destruct Hex as [-> |[Hx _]]; [apply K|]. rewrite Hx. cbn. apply NoDup_cons. split; [|apply K].
    intros (e & E & He)%list_elem_of_fmap. by apply (Hne' e He).
Qed.

Lemma big_ok h F live size :
  kok h F live -> 0 < size -> size + 4095 < 2 ^ 64 ->
  let '(h', p) := kmalloc_big base h size in
  (p = 0 /\ h' = h) \/
  exists pfn n, p = page_at base pfn /\ 0 < pfn < 2 ^ 32 /\ size <= n * 4096 /\
    (forall f, range pfn n f -> F f) /\ (n = pages_for size \/ (pages_for size <= n /\ n < 2 * pages_for size)) /\
    kok h' (fun f => F f /\ ~ range pfn n f) ((pfn, n) :: live).
Proof.
  intros K Hs Hb. unfold kmalloc_big. cbv zeta.
  destruct (order_for_bytes_spec size Hs Hb) as (O1 & O2 & O3). set (order := order_for_bytes size) in *. clearbody order.
  destruct (pages_for_spec size Hs) as (P1 & P2 & P3).
  destruct (pa_alloc_law _ F order (k_pages _ _ _ K) O1) as [E|(a & p & z & E & H13 & Hp & Hal & Hblk & Hz & Ha)]; rewrite E.
  { rewrite Z.eqb_refl. by left. }
  pose proof (pow2_pos order O1) as Hpos. assert (2 ^ order <= 8192) as H8k by (change 8192 with (2 ^ 13); apply Z.pow_le_mono_r; lia).
  destruct (Hblk p ltac:(unfold block; lia)) as [HFp Hzp].
  pose proof (pa_span _ _ _ _ (k_pages _ _ _ K) Hzp) as Hsp. pose proof (k_span _ _ _ K p z Hzp) as Htab.
  destruct (Z.eqb_spec (p * 4096) 0); [lia|]. rewrite Z.div_mul by lia. cbn [big_alloc_nr pfn_base set_kmem kmem].
  destruct (Z.leb_spec (big_alloc_nr h) p); [lia|]. destruct (Z.ltb_spec p (pfn_base h)); [lia|]. cbn [orb].
  rewrite phys_page by (done || lia).
  rewrite (u64_small (size + 4095)) by lia. fold (pages_for size). rewrite (u32_small (pages_for size)) by lia. rewrite (u32_small (2 ^ order)) by lia.
  cbn [g_exact set_kmem].
  destruct (if (EXACT_MIN_ORDER <=? order) && (pages_for size <? 2 ^ order) then exact_put (g_exact h) p (pages_for size) else None) as [ex|] eqn:Eex.
  - destruct (Z.ltb_spec (pages_for size) (2 ^ order)) as [Hlt|]; [|by rewrite andb_false_r in Eex].
    destruct (EXACT_MIN_ORDER <=? order); [|done]. cbn [andb] in Eex.
    destruct (Hblk (p + pages_for size) ltac:(unfold block; lia)) as [_ Hzq]. pose proof (pa_span _ _ _ _ (k_pages _ _ _ K) Hzq) as Hsq.
    rewrite (u32_small (p + pages_for size)), (u32_small (2 ^ order - pages_for size)) by lia.
    destruct (free_frame_range_ok a _ (p + pages_for size) (2 ^ order - pages_for size) z Ha ltac:(lia) ltac:(lia)) as [Ha2 Hz2].
    { intros f Hf. unfold range in Hf. split; [unfold block; lia|]. rewrite Hz. apply Hblk. unfold block. lia. }
    right. exists p, (pages_for size). split; [done|]. split; [lia|]. split; [done|].
    assert (forall f, range p (pages_for size) f -> block order p f) as Hin by (intros f Hf; unfold range, block in *; lia).
    split; [intros f Hf; by apply Hblk, Hin|]. split; [by left|].
    eapply (kok_add h _ F live p (pages_for size) z K); try done; cbn; try lia.
    + intros f Hf. by apply Hblk, Hin.
    + intros f Hf. by apply Hblk, Hin.
    + intros f. by rewrite Hz2, Hz.
    + eapply pa_ext; [exact Ha2|]. intros f. unfold block, range. cbn. split.
      * intros [[? ?]|?]; [split; [done|lia]|]. split; [apply Hblk; unfold block; lia|lia].
      * intros [? ?]. destruct (decide (p + pages_for size <= f < p + 2 ^ order)); [right; lia|left; split; [done|lia]].
    + intros f Hf. by rewrite upd_other.
    + left. cbn. rewrite upd_same. split; [done|]. rewrite (exact_put_spec (g_exact h) p (pages_for size) ex ltac:(lia) Eex). set_solver.
    + right. cbn. rewrite upd_same. split; [apply exact_put_spec; [lia|done]|done].
  - right. exists p, (2 ^ order). split; [done|]. split; [lia|]. split; [nia|].
    split; [intros f Hf; by apply Hblk|]. split.
    { right. split; [done|]. destruct O3 as [-> |O3]; [change (2 ^ 0) with 1 in *; lia|].
      destruct (decide (order = 0)) as [->|]; [change (2 ^ 0) with 1; lia|].
      assert (2 ^ order = 2 * 2 ^ (order - 1)) by (rewrite <- Z.pow_succ_r by lia; f_equal; lia). lia. }
    eapply (kok_add h _ F live p (2 ^ order) z K); try done; cbn; try lia.
    + intros f Hf. by apply Hblk.
    + intros f Hf. by apply Hblk.
    + intros f Hf. by rewrite upd_other.
    + right. cbn. rewrite upd_same. split; [lia|]. done.
    + by left.
Qed.

(** The reverse step. *)
Lemma kok_drop h h' F live live' pfn n :
  kok h F live -> live ≡ₚ (pfn, n) :: live' ->
  (forall f, zone_of h' f = zone_of h f) -> pa_ok (pages (kmem h')) (fun f => F f \/ range pfn n f) ->
  initialized h' = initialized h -> pfn_base h' = pfn_base h -> big_alloc_nr h' = big_alloc_nr h ->
  (forall f, f <> pfn -> big_alloc_order h' f = big_alloc_order h f) ->
  (lives (g_exact h) ≡ₚ Exact pfn n :: lives (g_exact h') \/ (g_exact h' = g_exact h /\ big_alloc_order h pfn <> BIG_EXACT)) ->
  kok h' (fun f => F f \/ range pfn n f) live'.
Proof.
  intros K Hl Hzz Ha E1 E2 E3 Ho Hex.
  pose proof (k_nodup _ _ _ K) as Nd. rewrite Hl in Nd. apply NoDup_cons in Nd as [Hni Nd].
  assert (forall b, b ∈ live' -> b ∈ live) as Hsub by (intros b Hb; rewrite Hl; set_solver).
  assert ((pfn, n) ∈ live) as Hin by (rewrite Hl; set_solver).
  assert (forall p m f, (p, m) ∈ live' -> range p m f -> ~ range pfn n f) as Hsep.
  { intros p m f Hp Hr Hb. pose proof (k_disj _ _ _ K (p, m) (pfn, n) f (Hsub _ Hp) Hin Hr Hb) as E. congruence. }
  assert (forall p m, (p, m) ∈ live' -> p <> pfn) as Hne.
  { intros p m Hp ->. destruct (k_live _ _ _ K pfn m (Hsub _ Hp)) as (Hm & _), (k_live _ _ _ K pfn n Hin) as (Hn & _).
    apply (Hsep pfn m pfn Hp); unfold range; lia. }
  assert (forall e, e ∈ lives (g_exact h) -> e = Exact pfn n \/ e ∈ lives (g_exact h')) as Hback.
  { intros e He. destruct Hex as [Hx|[-> _]]; [rewrite Hx in He; set_solver|by right]. }
  assert (forall e, e ∈ lives (g_exact h') -> e ∈ lives (g_exact h)) as Hfwd.
  { intros e He. destruct Hex as [Hx|[<- _]]; [rewrite Hx; set_solver|done]. }
  split.
  - by rewrite E1; apply K.
  - done.
  - intros f z'. rewrite E2, E3, Hzz. apply K.
  - intros p m Hp. destruct (k_live _ _ _ K p m (Hsub _ Hp)) as (L1 & L2 & L3 & z' & L4). split; [done|]. split; [done|]. split.
    + unfold recorded in *. rewrite (Ho p (Hne _ _ Hp)). destruct L3 as [[L3 L5]|L3]; [left|by right]. split; [done|].
      apply Hback in L5 as [[= -> ->]|]; [by apply Hni in Hp|done].
    + exists z'. intros f Hr. destruct (L4 f Hr) as [Hn Hz]. split; [|by rewrite Hzz]. intros [?|Hb]; [done|]. by apply (Hsep p m f).
  - done.
  - intros b c f Hb Hc. apply (k_disj _ _ _ K b c f); auto.
  - intros e He. destruct (k_exact _ _ _ K e (Hfwd _ He)) as [Hel Heo]. rewrite Hl in Hel.
    assert (e_pfn e <> pfn) as Hpe.
    { intros Ep. destruct Hex as [Hx|[Hg Hno]]; [|congruence].
      pose proof (k_exnd _ _ _ K) as Nx. rewrite Hx in Nx. cbn in Nx. apply NoDup_cons in Nx as [Nx _]. apply Nx, list_elem_of_fmap. by exists e. }
    rewrite Ho by done. split; [|done]. apply elem_of_cons in Hel as [[= ? ?]|]; done.
  - destruct Hex as [Hx|[-> _]]; [|apply K]. pose proof (k_exnd _ _ _ K) as Nx. rewrite Hx in Nx. cbn in Nx. by apply NoDup_cons in Nx as [_ Nx].
Qed.

(** What holders write into their blocks does not matter to the invariant. *)
Lemma kok_hdr h F live pg s : kok h F live -> kok (set_kmem h (set_hdr (kmem h) pg s)) F live.
Proof. intros [C1 C2 C3 C4 C5 C6 C7 C8]. by split. Qed.

Lemma page_at_aligned p : Z.land (page_at base p) 0xFFF = 0.
Proof.
  change 0xFFF with (Z.ones 12). rewrite Z.land_ones by lia. change (2 ^ 12) with 4096. unfold page_at.
  rewrite Z.add_comm, Z.mod_add by lia. done.
Qed.
Lemma page_at_self p : page_of (page_at base p) = page_at base p.
Proof. rewrite page_of_low. unfold page_at. rewrite Z.add_comm at 2. rewrite Z.mod_add, Hbase by lia. lia. Qed.

Lemma kfree_ok h F live live' pfn n cpu :
  kok h F live -> live ≡ₚ (pfn, n) :: live' -> magic (hdr (kmem h) (page_at base pfn)) <> SLAB_MAGIC ->
  let h' := kfree base h cpu (page_at base pfn) in
  kok h' (fun f => F f \/ range pfn n f) live' /\ big_alloc_order h' pfn = BIG_NONE.
Proof.
  intros K Hl Hm. assert ((pfn, n) ∈ live) as Hin by (rewrite Hl; set_solver).
  destruct (k_live _ _ _ K pfn n Hin) as (Hn & Hp & Hrec & z & Hfr).
  destruct (Hfr pfn ltac:(unfold range; lia)) as [_ Hzp].
  pose proof (pa_span _ _ _ _ (k_pages _ _ _ K) Hzp) as Hsp. pose proof (k_span _ _ _ K pfn z Hzp) as Htab.
  unfold kfree. destruct (Z.eqb_spec (page_at base pfn) 0); [unfold page_at in *; lia|].
  rewrite (k_init _ _ _ K). cbn [negb]. unfold slab_cache_of. rewrite (proj2 (Z.eqb_neq _ 0) n0), page_at_self.
  rewrite (proj2 (Z.eqb_neq _ _) Hm). rewrite page_at_aligned. cbn [Z.eqb negb].
  rewrite page_phys by (done || lia). rewrite Z.div_mul, u32_small by lia. cbv zeta.
  destruct (Z.leb_spec (big_alloc_nr h) pfn); [lia|]. destruct (Z.ltb_spec pfn (pfn_base h)); [lia|]. cbn [orb].
  destruct Hrec as [[He Hex]|(Ho & Hn2 & Hal)].
  - rewrite He. change (BIG_EXACT =? BIG_NONE) with false. rewrite Z.eqb_refl. cbn iota.
    pose proof (exact_take_spec _ _ _ Hex (k_exnd _ _ _ K)) as Ht. destruct (exact_take (g_exact h) pfn) as [ex n']. destruct Ht as [-> Hperm].
    destruct (Z.eqb_spec n 0); [lia|].
    destruct (free_frame_range_ok (pages (kmem h)) F pfn n z (k_pages _ _ _ K) Hp ltac:(lia) Hfr) as [Ha Hz].
    split; [|cbn; by rewrite upd_same]. eapply (kok_drop h _ F live live' pfn n K Hl); try done.
    + intros f Hf. cbn. by rewrite upd_other.
    + by left.
  - assert (big_alloc_order h pfn <> BIG_EXACT /\ big_alloc_order h pfn <> BIG_NONE) as [H1' H2'] by (unfold BIG_EXACT, BIG_NONE; lia).
    rewrite (proj2 (Z.eqb_neq _ _) H1'), (proj2 (Z.eqb_neq _ _) H2').
    rewrite Hn2 in Hal. destruct (pa_free_law (pages (kmem h)) F (big_alloc_order h pfn) pfn z (k_pages _ _ _ K) Ho Hp Hal) as [Ha Hz].
    { intros f Hf. apply Hfr. unfold range, block in *. lia. }
    split; [|cbn; by rewrite upd_same]. eapply (kok_drop h _ F live live' pfn n K Hl); try done.
    + cbn. eapply pa_ext; [exact Ha|]. intros f. unfold block, range. by rewrite Hn2.
    + intros f Hf. cbn. by rewrite upd_other.
    + by right.
Qed.

(** A large [kmalloc] hands out frames nobody has.  It fails and changes
    nothing, or answers a page-aligned block of [n] frames that were all free,
    at least as large as asked for and less than twice that (exactly as many
    pages as needed when the tail of a block of 1 MiB or more goes back), which
    are no longer free; the blocks already in use stay recorded and disjoint
    from it. *)
Theorem kmalloc_big_correct h F live cpu size :
  kok h F live -> 2048 < size -> size + 4095 < 2 ^ 64 ->
  let '(h', p) := kmalloc base h false cpu size in
  (p = 0 /\ h' = h) \/
  exists pfn n, p = page_at base pfn /\ 0 < pfn < 2 ^ 32 /\ size <= n * 4096 /\ (forall f, range pfn n f -> F f) /\
    (n = pages_for size \/ (pages_for size <= n /\ n < 2 * pages_for size)) /\
    kok h' (fun f => F f /\ ~ range pfn n f) ((pfn, n) :: live).
Proof.
  intros K Hs Hb. unfold kmalloc. rewrite (k_init _ _ _ K). destruct (Z.eqb_spec size 0); [lia|]. cbn [negb orb].
  rewrite lookup_big by lia. apply (big_ok h F live size K); lia.
Qed.

(** Freeing a large block gives back all of it and nothing else, provided
    its first word does not read as a slab page's: the free frames are those
    that were free and the block's, the block is forgotten and every other
    block in use is still recorded. *)
Theorem kfree_big_correct h F live live' pfn n cpu :
  kok h F live -> live ≡ₚ (pfn, n) :: live' -> magic (hdr (kmem h) (page_at base pfn)) <> SLAB_MAGIC ->
  let h' := kfree base h cpu (page_at base pfn) in
  kok h' (fun f => F f \/ range pfn n f) live' /\ big_alloc_order h' pfn = BIG_NONE.
Proof. apply kfree_ok. Qed.

(** [kcalloc] asks [kmalloc] for the true product, never for a wrapped one. *)
Theorem kcalloc_no_wrap n size :
  0 <= n < 2 ^ 64 -> 0 <= size < 2 ^ 64 ->
  match kcalloc_total n size with Some t => t = n * size | None => 2 ^ 64 <= n * size end.
Proof.
  intros Hn Hs. unfold kcalloc_total. destruct (Z.eqb_spec n 0) as [->|Hn0]; [done|]. cbn [negb andb].
  destruct (Z.ltb_spec ((2 ^ 64 - 1) / n) size) as [Hlt|Hge].
  - pose proof (Z.mul_succ_div_gt (2 ^ 64 - 1) n ltac:(lia)). nia.
  - pose proof (Z.mul_div_le (2 ^ 64 - 1) n ltac:(lia)). apply u64_small. nia.
Qed.

(** A request within a page of 2^64 wraps: [kmalloc] computes zero pages for
    it and, if a page is free, answers a single page. *)
Theorem kmalloc_wraps h F live cpu size a p :
  kok h F live -> 2 ^ 64 - 4095 <= size < 2 ^ 64 -> pa_alloc (pages (kmem h)) 0 = (a, p * 4096) -> 0 < p ->
  (kmalloc base h false cpu size).2 = page_at base p /\ big_alloc_order (kmalloc base h false cpu size).1 p = 0.
Proof.
  intros K Hs Ea Hp. unfold kmalloc. rewrite (k_init _ _ _ K). destruct (Z.eqb_spec size 0); [lia|]. cbn [negb orb].
  rewrite lookup_big by lia.
  assert (u64 (size + 4095) / 4096 = 0) as E0.
  { unfold u64. replace (size + 4095) with ((size + 4095 - 18446744073709551616) + 1 * 18446744073709551616) by lia.
    rewrite Z.mod_add, Z.mod_small by lia. apply Z.div_small. lia. }
  unfold kmalloc_big, order_for_bytes. rewrite E0. cbn [Z.leb Z.compare]. cbv zeta. rewrite Ea.
  destruct (pa_alloc_law _ F 0 (k_pages _ _ _ K) ltac:(lia)) as [E|(a' & p' & z & E & _ & Hp' & _ & Hblk & _)]; rewrite Ea in E; injection E as -> E; [lia|].
  assert (p' = p) as -> by lia. destruct (Hblk p ltac:(unfold block; lia)) as [_ Hz].
  pose proof (pa_span _ _ _ _ (k_pages _ _ _ K) Hz) as Hsp. pose proof (k_span _ _ _ K p z Hz) as Htab.
  destruct (Z.eqb_spec (p * 4096) 0); [lia|]. rewrite Z.div_mul by lia. cbn [big_alloc_nr pfn_base set_kmem kmem].
  destruct (Z.leb_spec (big_alloc_nr h) p); [lia|]. destruct (Z.ltb_spec p (pfn_base h)); [lia|]. cbn.
  rewrite phys_page by (done || lia). by rewrite upd_same.
Qed.

(** [kfree] of a large block goes by the block's own contents.  If its holder
    left 0xC0DEBABE in the first word, the block is not freed: it is pushed, as
    an object, onto a magazine of the cache whose address the following word
    holds. *)
Theorem kfree_magic_confusion h F live pfn n cpu :
  kok h F live -> (pfn, n) ∈ live -> magic (hdr (kmem h) (page_at base pfn)) = SLAB_MAGIC ->
  let c := cache (hdr (kmem h) (page_at base pfn)) in
  Z.of_nat (length (mag (caches h c) cpu)) < MAG_CAPACITY ->
  let h' := kfree base h cpu (page_at base pfn) in
  pages (kmem h') = pages (kmem h) /\ big_alloc_order h' = big_alloc_order h /\
  mag (caches h' c) cpu = page_at base pfn :: mag (caches h c) cpu.
Proof.
  intros K Hin Hm c Hroom. destruct (k_live _ _ _ K pfn n Hin) as (_ & Hp & _).
  unfold kfree. destruct (Z.eqb_spec (page_at base pfn) 0) as [|Hne]; [unfold page_at in *; lia|].
  rewrite (k_init _ _ _ K). cbn [negb]. unfold slab_cache_of. rewrite (proj2 (Z.eqb_neq _ 0) Hne), page_at_self, Hm, Z.eqb_refl.
  unfold slab_free. rewrite (proj2 (Z.eqb_neq _ 0) Hne). fold c. rewrite (proj2 (Z.leb_gt _ _) Hroom). cbn.
  rewrite upd_same. cbn. by rewrite upd_same.
Qed.
End Contract.

(** ** The 64-frame machine: a heap on top of its page allocator *)

Notation pmm := Pmm.pmm.
Import SlabContract.

Definition heap0 : @kheap pmm :=
  Heap mem0 (fun _ => slab_init_cache 40 16) (fun _ => BIG_NONE) 64 0 0 0 (replicate EXACT_SLOTS (Exact 0 0)) true.

Lemma heap0_ok : exists F, @kok pmm pages0 heap0 F [].
Proof.
  destruct PmmExamples.mini_seeded as (FL & Hok & _). exists (free_somewhere FL).
  assert (forall l, lives (replicate l (Exact 0 0)) = []) as El by (induction l as [|l IH]; [done|]; by rewrite replicate_S, lives_cons).
  split; cbn [initialized kmem pages pfn_base big_alloc_nr g_exact heap0 mem0]; rewrite ?El.
  - done.
  - by exists FL.
  - intros f z Hz. cbn in Hz. unfold Pmm.zone_for_pfn in Hz.
    assert (Pmm.pmm_nr_frames PmmExamples.mini = 64 /\ Pmm.pmm_pfn_base PmmExamples.mini = 0) as [E1 E2] by (vm_compute; done).
    unfold Pmm.zone_of_pfn in Hz. rewrite E1, E2 in Hz. destruct (Z.leb_spec 64 f), (Z.ltb_spec f 0); cbn in Hz; try done; lia.
  - by intros p n ?%elem_of_nil.
  - constructor.
  - by intros b c f ?%elem_of_nil.
  - by intros e ?%elem_of_nil.
  - constructor.
Qed.

Definition heap1 : @kheap pmm := (@kmalloc pmm pages0 0 heap0 false 0 5000).1.
Definition block1 : Z := (@kmalloc pmm pages0 0 heap0 false 0 5000).2.

(** The run of the first allocation: frames 32 and 33. *)
Lemma heap1_ok : exists F, @kok pmm pages0 heap1 F [(32, 2)].
Proof.
  destruct heap0_ok as [F K].
  pose proof (@big_ok pmm pages0 (pmm_pages_laws false 0) 0 eq_refl ltac:(lia) ltac:(lia) heap0 F [] 5000 K ltac:(lia) ltac:(lia)) as Hb.
  assert (@kmalloc pmm pages0 0 heap0 false 0 5000 = @kmalloc_big pmm pages0 0 heap0 5000) as Ek by reflexivity.
  unfold heap1. rewrite Ek. destruct (@kmalloc_big pmm pages0 0 heap0 5000) as [h' p] eqn:E. cbn [fst].
  pose proof (f_equal (fun x => (x.2, big_alloc_order x.1 32)) E) as Ep. cbn [fst snd] in Ep.
  assert ((fun x => (x.2, big_alloc_order x.1 32)) (@kmalloc_big pmm pages0 0 heap0 5000) = (131072, 1)) as Ev by (vm_compute; reflexivity).
  cbv beta in Ev. rewrite Ev in Ep. injection Ep as Ep Eo.
  destruct Hb as [[-> _]|(pfn & n & Hp & Hpf & Hs & _ & _ & K')]; [lia|].
  unfold page_at in Hp. assert (pfn = 32) as -> by lia.
  destruct (k_live _ _ _ K' 32 n (list_elem_of_here _ _)) as (_ & _ & [[Hx _]|(_ & Hn & _)] & _).
  - rewrite <- Eo in Hx. done.
  - rewrite <- Eo in Hn. change (2 ^ 1) with 2 in Hn. subst n. eauto.
Qed.

Lemma kmalloc_big_correct_witness : block1 = 131072 /\ exists F, @kok pmm pages0 heap0 F [] /\ exists pfn n, block1 = page_at 0 pfn /\ (forall f, range pfn n f -> F f).
Proof.
  split; [vm_compute; reflexivity|]. destruct heap0_ok as [F K]. exists F. split; [exact K|].
  pose proof (@kmalloc_big_correct pmm pages0 (pmm_pages_laws false 0) 0 eq_refl ltac:(lia) ltac:(lia) heap0 F [] 0 5000 K ltac:(lia) ltac:(lia)) as Hb.
  assert (block1 <> 0) as Hne by (vm_compute; discriminate). unfold block1 in *.
  destruct (@kmalloc pmm pages0 0 heap0 false 0 5000) as [h' p]. cbn [snd] in *.
  destruct Hb as [[? _]|(pfn & n & Hp & _ & _ & HF & _)]; [contradiction|]. exists pfn, n. split; [exact Hp|exact HF].
Defined.

Lemma kfree_big_correct_witness : exists F, @kok pmm pages0 (@kfree pmm pages0 0 heap1 0 131072) F [].
Proof.
  destruct heap1_ok as [F K]. exists (fun f => F f \/ range 32 2 f).
  apply (@kfree_big_correct pmm pages0 (pmm_pages_laws false 0) 0 eq_refl ltac:(lia) ltac:(lia) heap1 F [(32, 2)] [] 32 2 0 K);
    [reflexivity|vm_compute; discriminate].
Defined.

Lemma kcalloc_no_wrap_witness : kcalloc_total (2 ^ 33) (2 ^ 31) = None /\ 2 ^ 64 <= 2 ^ 33 * 2 ^ 31.
Proof.
  pose proof (kcalloc_no_wrap (2 ^ 33) (2 ^ 31) ltac:(lia) ltac:(lia)) as H1.
  destruct (kcalloc_total (2 ^ 33) (2 ^ 31)) eqn:E; [vm_compute in E; discriminate E|]. split; [reflexivity|exact H1].
Defined.

Lemma kmalloc_wraps_witness : (@kmalloc pmm pages0 0 heap0 false 0 (2 ^ 64 - 1)).2 = page_at 0 32.
Proof.
  destruct heap0_ok as [F K].
  destruct (@pa_alloc pmm pages0 (pages (kmem heap0)) 0) as [a phys] eqn:E.
  assert (phys = 32 * 4096) as ->.
  { pose proof (f_equal snd E) as Ep. cbn [snd] in Ep. rewrite <- Ep. vm_compute. reflexivity. }
  apply (@kmalloc_wraps pmm pages0 (pmm_pages_laws false 0) 0 ltac:(lia) ltac:(lia) heap0 F [] 0 (2 ^ 64 - 1) a 32 K); [lia|exact E|lia].
Defined.

(** The block's holder wrote the magic and the number of the 16-byte cache. *)
Definition forged : @kheap pmm := set_kmem heap1 (set_hdr (kmem heap1) 131072 (Hdr SLAB_MAGIC 0 0 0 0 (fun _ => 0))).

Lemma kfree_magic_confusion_witness : mag (caches (@kfree pmm pages0 0 forged 0 131072) 0) 0 = [131072].
Proof.
  destruct heap1_ok as [F K].
  pose proof (@kok_hdr pmm pages0 heap1 F [(32, 2)] 131072 (Hdr SLAB_MAGIC 0 0 0 0 (fun _ => 0)) K) as K'.
  pose proof (@kfree_magic_confusion pmm pages0 0 eq_refl ltac:(lia) forged F [(32, 2)] 32 2 0 K'
    ltac:(apply list_elem_of_singleton; reflexivity) ltac:(reflexivity) ltac:(vm_compute; reflexivity)) as (_ & _ & Hm).
  etransitivity; [exact Hm|]. vm_compute. reflexivity.
Defined.
End KmallocContract.
