(* ===== verification/Vma.v ===== *)
(** * Address-space reservations (kernel/mem/vma.c): the model

    A process's reservations are a sorted list of non-overlapping page ranges.
    The list is the C file's linked list; [kcalloc] failing is the head of
    [kc]; the reference a file range holds on its open file is counted in
    [frefs].  The page tables underneath (the [vmm_space_*] calls) are an
    interface, the class [AddrSpace]: the operations here are written against
    it and their theorems need only its laws.

    Each system call runs under the set's mutex and is one function.  The
    contents of pages are not modelled; [uintptr_t] and [size_t] have 64 bits. *)

From stdpp Require Import base list.
From Stdlib Require Import ZArith Lia Bool.
From S2P Require Import Prelude.
Open Scope Z_scope.

Module Vma.

(** ** Constants *)

Definition PG : Z := 4096.
Definition MMAP_BASE_OFF : Z := 0x08000000.
Definition EAGER_MAX : Z := 268435456.                   (* 256u << 20 *)
Definition E_BADF : Z := 9.
Definition E_NOMEM : Z := 12.
Definition E_EXIST : Z := 17.
Definition E_NODEV : Z := 19.
Definition E_INVAL : Z := 22.
Definition VMA_PROT_READ : Z := 1.
Definition VMA_PROT_WRITE : Z := 2.
Definition VMA_PROT_EXEC : Z := 4.
Definition VMA_MAP_SHARED : Z := 0x01.
Definition VMA_MAP_PRIVATE : Z := 0x02.
Definition VMA_MAP_FIXED : Z := 0x10.
Definition VMA_MAP_ANONYMOUS : Z := 0x20.
Definition VMA_MAP_FIXED_NOREPLACE : Z := 0x100000.
Definition VMA_RS_USER : Z := 1.
Definition VMA_RS_KERNEL : Z := 2.
Definition VMM_WRITABLE : Z := 0x002.
Definition VMM_USER : Z := 0x004.
Definition VMM_EXEC : Z := 0x200.
Definition VMM_SHARED : Z := 0x400.
Definition VMM_COW : Z := 0x800.

(** [x & m] as a condition. *)
Definition has (x m : Z) : bool := negb (Z.land x m =? 0).

(** ** Data *)

Inductive vkind := VMA_ANON | VMA_FILE | VMA_EAGER.
#[export] Instance vkind_eq_dec : EqDecision vkind.
Proof. solve_decision. Defined.

Record vma := V {
  v_start : Z; v_end : Z;              (* [start, end), page aligned *)
  v_vf : Z; v_kind : vkind;
  v_file : option Z;                   (* VMA_FILE: the open file *)
  v_off : Z
}.

Record vset := VSet {
  vmas : list vma;
  faults : Z;
  brk_start : Z; brk_cur : Z;
  frefs : Z -> Z;                      (* references the ranges hold on open files *)
  kc : list bool                       (* outcomes of the next kcallocs; [] = they succeed *)
}.

Definition set_vmas (l : list vma) (s : vset) : vset :=
  VSet l (faults s) (brk_start s) (brk_cur s) (frefs s) (kc s).
Definition set_frefs (r : Z -> Z) (s : vset) : vset :=
  VSet (vmas s) (faults s) (brk_start s) (brk_cur s) r (kc s).
Definition set_kc (k : list bool) (s : vset) : vset :=
  VSet (vmas s) (faults s) (brk_start s) (brk_cur s) (frefs s) k.
Definition set_faults (n : Z) (s : vset) : vset :=
  VSet (vmas s) n (brk_start s) (brk_cur s) (frefs s) (kc s).
Definition set_brk (b c : Z) (s : vset) : vset :=
  VSet (vmas s) (faults s) b c (frefs s) (kc s).

(** The page tables of one address space.  [vmm_space_probe] answers 0 (absent),
    1 (present) or 2 (evicted); [vmm_space_map] may fail. *)
Class AddrSpace (M : Type) := {
  vmm_space_probe : M -> Z -> Z;
  vmm_space_map : M -> Z -> Z -> Z -> option M;      (* va, frame, flags *)
  vmm_space_unmap : M -> Z -> M;
  vmm_space_protect : M -> Z -> Z -> M;
  vmm_space_range_state : M -> Z -> Z -> Z;
  vmm_user_base : Z; vmm_user_min : Z; vmm_user_limit : Z
}.

(** ** Operations on the list *)

Definition prot_to_vf (prot : Z) : Z :=
  if negb (has prot (Z.lor VMA_PROT_READ (Z.lor VMA_PROT_WRITE VMA_PROT_EXEC))) then 0
  else
    let vf := VMM_USER in
    let vf := if has prot VMA_PROT_WRITE then Z.lor vf VMM_WRITABLE else vf in
    if has prot VMA_PROT_EXEC then Z.lor vf VMM_EXEC else vf.

Definition bump (f : option Z) (d : Z) (r : Z -> Z) : Z -> Z :=
  match f with None => r | Some i => r⟦i ↦ r i + d⟧ end.

(** [None]: kcalloc failed. *)
Definition vma_new (s : vset) (v : vma) : vset * option vma :=
  match kc s with
  | false :: k => (set_kc k s, None)
  | k => (set_frefs (bump (v_file v) 1 (frefs s)) (set_kc (tl k) s), Some v)
  end.

Definition vma_free (v : vma) (s : vset) : vset := set_frefs (bump (v_file v) (-1) (frefs s)) s.

Fixpoint find_in (l : list vma) (va : Z) : option vma :=
  match l with
  | [] => None
  | v :: l' => if v_start v <=? va then if va <? v_end v then Some v else find_in l' va else None
  end.
Definition find (s : vset) (va : Z) : option vma := find_in (vmas s) va.

Fixpoint overlaps_in (l : list vma) (a b : Z) : bool :=
  match l with
  | [] => false
  | v :: l' => if v_start v <? b then if a <? v_end v then true else overlaps_in l' a b else false
  end.
Definition overlaps (s : vset) (a b : Z) : bool := overlaps_in (vmas s) a b.

Fixpoint insert_in (l : list vma) (n : vma) : list vma :=
  match l with
  | [] => [n]
  | v :: l' => if v_start v <? v_start n then v :: insert_in l' n else n :: l
  end.
Definition insert (s : vset) (n : vma) : vset := set_vmas (insert_in (vmas s) n) s.

Definition with_end (v : vma) (e : Z) : vma := V (v_start v) e (v_vf v) (v_kind v) (v_file v) (v_off v).
Definition with_vf (v : vma) (vf : Z) : vma := V (v_start v) (v_end v) vf (v_kind v) (v_file v) (v_off v).

(** The right half a split at [at_] makes of [v]. *)
Definition right_half (v : vma) (at_ : Z) : vma :=
  V at_ (v_end v) (v_vf v) (v_kind v) (v_file v) (u64 (v_off v + (at_ - v_start v))).

(** [v->end = at; r->next = v->next; v->next = r], [v] being what [find] returned. *)
Fixpoint split_in (l : list vma) (at_ : Z) : list vma :=
  match l with
  | [] => []
  | v :: l' =>
      if v_start v <=? at_ then
        if at_ <? v_end v then with_end v at_ :: right_half v at_ :: l' else v :: split_in l' at_
      else l
  end.

Definition split_at (s : vset) (at_ : Z) : vset * Z :=
  match find s at_ with
  | None => (s, 0)
  | Some v =>
      if v_start v =? at_ then (s, 0)
      else match vma_new s (right_half v at_) with
           | (s, None) => (s, -1)
           | (s, Some _) => (set_vmas (split_in (vmas s) at_) s, 0)
           end
  end.

Definition mergeable (v n : vma) : bool :=
  bool_decide (v_kind v = VMA_ANON) && bool_decide (v_kind n = VMA_ANON)
  && (v_end v =? v_start n) && (v_vf v =? v_vf n).

(** The merged list and the ranges freed. *)
Fixpoint merge_from (v : vma) (l : list vma) : list vma * list vma :=
  match l with
  | [] => ([v], [])
  | n :: l' =>
      if mergeable v n then let '(k, f) := merge_from (with_end v (v_end n)) l' in (k, n :: f)
      else let '(k, f) := merge_from n l' in (v :: k, f)
  end.
Definition free_all (l : list vma) (s : vset) : vset := fold_left (fun s v => vma_free v s) l s.
Definition merge (s : vset) : vset :=
  match vmas s with
  | [] => s
  | v :: l => let '(k, f) := merge_from v l in free_all f (set_vmas k s)
  end.

Definition inside (a b : Z) (v : vma) : bool := (a <=? v_start v) && (v_end v <=? b).
Definition remove_range (s : vset) (a b : Z) : vset :=
  free_all (filter (fun v => inside a b v = true) (vmas s))
    (set_vmas (filter (fun v => inside a b v = false) (vmas s)) s).

(** ** Page tables *)

Section Pages.
Context {M : Type} `{AS : AddrSpace M}.

(** [for (va = a; va < b; va += PG)] over [n] pages. *)
Fixpoint each_page (n : nat) (mm : M) (va : Z) (f : M -> Z -> M) : M :=
  match n with
  | O => mm
  | S n' => each_page n' (f mm va) (va + PG) f
  end.
Definition pages (a b : Z) : nat := Z.to_nat ((b - a + PG - 1) / PG).

Definition unmap_page (mm : M) (va : Z) : M :=
  let p := vmm_space_probe mm va in
  let mm := if p =? 1 then vmm_space_protect mm va VMM_USER else mm in
  if negb (p =? 0) then vmm_space_unmap mm va else mm.
Definition unmap_pages (mm : M) (a b : Z) : M := each_page (pages a b) mm a unmap_page.

Definition window_lo : Z := vmm_user_base + MMAP_BASE_OFF.
Definition window_hi : Z := vmm_user_limit.

Definition usable (s : vset) (mm : M) (a len : Z) : bool :=
  if (a <? window_lo) || (u64 (a + len) <? a) || (window_hi <? u64 (a + len)) then false
  else if overlaps s a (u64 (a + len)) then false
  else vmm_space_range_state mm a (u64 (a + len)) =? 0.

(** The first range of the list in the way of [cand, cand + len). *)
Fixpoint blocker (l : list vma) (cand top : Z) : option vma :=
  match l with
  | [] => None
  | v :: l' => if v_start v <? top then if cand <? v_end v then Some v else blocker l' cand top else None
  end.

Definition STEP : Z := 2097152.                        (* 2u << 20 *)

Fixpoint find_free_loop (fuel : nat) (s : vset) (mm : M) (len cand : Z) : Z :=
  match fuel with
  | O => 0
  | S fuel' =>
      let top := u64 (cand + len) in
      if (cand <? top) && (top <=? window_hi) then
        match blocker (vmas s) cand top with
        | Some v => find_free_loop fuel' s mm len (v_end v)
        | None =>
            if vmm_space_range_state mm cand top =? 0 then cand
            else find_free_loop fuel' s mm len (Z.land (u64 (cand + STEP)) (Z.lnot (STEP - 1)))
        end
      else 0
  end.

(** Every pass moves the candidate up by a page at least. *)
Definition find_free_fuel : nat := Z.to_nat (window_hi / PG + 1).

Definition find_free (s : vset) (mm : M) (len hint : Z) : Z :=
  if negb (hint =? 0) && (Z.land hint (PG - 1) =? 0) && usable s mm hint len then hint
  else find_free_loop find_free_fuel s mm len window_lo.

(** ** Eager backings *)

(** [map_shm]: [frames] are the shared object's frames from page [off / PG] on;
    a short object stops the loop. *)
Fixpoint map_shm (mm : M) (va : Z) (n : nat) (frames : list Z) (vf : Z) : M * Z :=
  match n, frames with
  | S n', fr :: frames' =>
      match vmm_space_map mm va fr
              (Z.lor (if vf =? 0 then VMM_USER else vf) (Z.lor VMM_WRITABLE VMM_SHARED)) with
      | None => (mm, -1)
      | Some mm' => map_shm mm' (va + PG) n' frames' vf
      end
  | _, _ => (mm, 0)
  end.

(** [map_file_copy]: [frames] are the answers of [pmm_alloc_frame_user] (0 is
    a refusal); the second result lists the frames given back. *)
Fixpoint map_file_copy (mm : M) (va : Z) (n : nat) (frames : list Z) (vf : Z) : M * list Z * Z :=
  match n with
  | O => (mm, [], 0)
  | S n' =>
      let fr := default 0 (head frames) in
      if fr =? 0 then (mm, [], -1)
      else match vmm_space_map mm va fr (if vf =? 0 then VMM_USER else vf) with
           | None => (mm, [fr], -1)
           | Some mm' =>
               let mm' := if vf =? 0 then vmm_space_protect mm' va 0 else mm' in
               map_file_copy mm' (va + PG) n' (tail frames) vf
           end
  end.

(** ** mmap *)

(** What the file descriptor of a mapping names. *)
Inductive backing :=
| NoFile                               (* fd_lookup failed *)
| Shm (frames : list Z)                (* a shared-memory object and its frames *)
| VfsFile (o : Z)                      (* an open file *)
| OtherFile.

(** The environment of one call: the descriptor's object, whether the page
    cache is on, the frames [pmm_alloc_frame_user] will answer with, whether the
    bounce buffer of [map_file_copy] can be allocated. *)
Record menv := MEnv { m_fd : backing; pcache_enabled : bool; m_frames : list Z; m_bounce : bool }.

Definition page_round (len : Z) : Z := Z.land (u64 (len + PG - 1)) (Z.lnot (PG - 1)).

(** The kind of the range, or the error. *)
Definition mmap_kind (e : menv) (flags fd off vf : Z) : vkind + Z :=
  if negb (has flags VMA_MAP_ANONYMOUS) && (0 <=? fd) then
    match m_fd e with
    | NoFile => inr (- E_BADF)
    | b =>
        if negb (Z.land off (PG - 1) =? 0) then inr (- E_INVAL)
        else match b with
             | Shm _ => inl VMA_EAGER
             | VfsFile _ =>
                 let ro_shared := has flags VMA_MAP_SHARED && negb (has vf VMM_WRITABLE) in
                 inl (if (negb (has flags VMA_MAP_SHARED) || ro_shared) && pcache_enabled e
                      then VMA_FILE else VMA_EAGER)
             | _ => inr (- E_NODEV)
             end
    end
  else inl VMA_ANON.

(** The address of the mapping with the old contents of a fixed one gone, or
    the error; the state changes either way when a split was made. *)
Definition mmap_place (s : vset) (mm : M) (addr size flags : Z) : vset * M * (Z + Z) :=
  if has flags (Z.lor VMA_MAP_FIXED VMA_MAP_FIXED_NOREPLACE) then
    let top := u64 (addr + size) in
    let st := if (addr <? vmm_user_min) || (top <? addr) || (window_hi <? top)
              then VMA_RS_KERNEL else vmm_space_range_state mm addr top in
    if has st VMA_RS_KERNEL then (s, mm, inr (- E_INVAL))
    else if has flags VMA_MAP_FIXED_NOREPLACE then
      if overlaps s addr top || negb (st =? 0) then (s, mm, inr (- E_EXIST)) else (s, mm, inl addr)
    else
      let '(s, r1) := split_at s addr in
      if negb (r1 =? 0) then (s, mm, inr (- E_NOMEM))
      else
        let '(s, r2) := split_at s top in
        if negb (r2 =? 0) then (s, mm, inr (- E_NOMEM))
        else (remove_range s addr top, unmap_pages mm addr top, inl addr)
  else
    let va := find_free s mm size (Z.land addr (Z.lnot (PG - 1))) in
    if va =? 0 then (s, mm, inr (- E_NOMEM)) else (s, mm, inl va).

(** The backing of an eager range: the pages, the frames given back, the result. *)
Definition map_eager (e : menv) (mm : M) (va size off vf : Z) : M * list Z * Z :=
  let n := Z.to_nat (size / PG) in
  match m_fd e with
  | Shm frames => let '(mm, rc) := map_shm mm va n (drop (Z.to_nat (off / PG)) frames) vf in (mm, [], rc)
  | _ => if m_bounce e then map_file_copy mm va n (m_frames e) vf else (mm, [], -1)
  end.

Definition file_of (e : menv) (k : vkind) : option Z :=
  match k, m_fd e with VMA_FILE, VfsFile o => Some o | _, _ => None end.

Definition vma_mmap (e : menv) (s : vset) (mm : M) (addr len prot flags fd off : Z) : vset * M * Z :=
  if len =? 0 then (s, mm, - E_INVAL)
  else
    let size := page_round len in
    if size <? len then (s, mm, - E_NOMEM)
    else
      let vf := prot_to_vf prot in
      if has flags (Z.lor VMA_MAP_FIXED VMA_MAP_FIXED_NOREPLACE) && negb (Z.land addr (PG - 1) =? 0)
      then (s, mm, - E_INVAL)
      else match mmap_kind e flags fd off vf with
           | inr err => (s, mm, err)
           | inl kind =>
               if bool_decide (kind = VMA_EAGER) && (EAGER_MAX <? size) then (s, mm, - E_NOMEM)
               else match mmap_place s mm addr size flags with
                    | (s, mm, inr err) => (s, mm, err)
                    | (s, mm, inl va) =>
                        match vma_new s (V va (va + size) vf kind (file_of e kind) off) with
                        | (s, None) => (s, mm, - E_NOMEM)
                        | (s, Some v) =>
                            let s := insert s v in
                            let '(mm, _, rc) := if bool_decide (kind = VMA_EAGER)
                                                then map_eager e mm va size off vf else (mm, [], 0) in
                            if negb (rc =? 0)
                            then (remove_range s va (va + size), unmap_pages mm va (va + size), - E_NOMEM)
                            else (merge s, mm, va)
                        end
                    end
           end.

(** ** munmap, mprotect, madvise, mincore *)

Definition vma_munmap (s : vset) (mm : M) (addr len : Z) : vset * M * Z :=
  if negb (Z.land addr (PG - 1) =? 0) || (len =? 0) then (s, mm, - E_INVAL)
  else
    let end_ := u64 (addr + page_round len) in
    if (end_ <? addr) || (addr <? vmm_user_min) || (vmm_user_limit <? end_) then (s, mm, - E_INVAL)
    else if has (vmm_space_range_state mm addr end_) VMA_RS_KERNEL then (s, mm, - E_INVAL)
    else
      let '(s, r1) := split_at s addr in
      if negb (r1 =? 0) then (s, mm, - E_NOMEM)
      else
        let '(s, r2) := split_at s end_ in
        if negb (r2 =? 0) then (s, mm, - E_NOMEM)
        else (remove_range s addr end_, unmap_pages mm addr end_, 0).

(** [for (v = head; v && v->start < end; v = v->next) if inside: v->vf = vf] *)
Fixpoint protect_in (l : list vma) (a b vf : Z) : list vma :=
  match l with
  | [] => []
  | v :: l' =>
      if v_start v <? b
      then (if inside a b v then with_vf v vf else v) :: protect_in l' a b vf else l
  end.

Definition vma_mprotect (s : vset) (mm : M) (addr len prot : Z) : vset * M * Z :=
  if negb (Z.land addr (PG - 1) =? 0) then (s, mm, - E_INVAL)
  else
    let end_ := Z.land (u64 (addr + len + PG - 1)) (Z.lnot (PG - 1)) in
    if (end_ <? addr) || (addr <? vmm_user_min) || (vmm_user_limit <? end_) then (s, mm, - E_INVAL)
    else if has (vmm_space_range_state mm addr end_) VMA_RS_KERNEL then (s, mm, - E_INVAL)
    else
      let vf := prot_to_vf prot in
      let '(s, r1) := split_at s addr in
      if negb (r1 =? 0) then (s, mm, - E_NOMEM)
      else
        let '(s, r2) := split_at s end_ in
        if negb (r2 =? 0) then (s, mm, - E_NOMEM)
        else
          let s := merge (set_vmas (protect_in (vmas s) addr end_ vf) s) in
          (s, each_page (pages addr end_) mm addr (fun mm va => vmm_space_protect mm va vf), 0).

(** The ranges of the list that meet [addr, end) and are not eager lose their pages. *)
Fixpoint dontneed_in (l : list vma) (mm : M) (addr end_ : Z) : M :=
  match l with
  | [] => mm
  | v :: l' =>
      if v_start v <? end_ then
        let mm := if (v_end v <=? addr) || bool_decide (v_kind v = VMA_EAGER) then mm
                  else unmap_pages mm (Z.max (v_start v) addr) (Z.min (v_end v) end_) in
        dontneed_in l' mm addr end_
      else mm
  end.

Definition vma_madvise_dontneed (s : vset) (mm : M) (addr len : Z) : M * Z :=
  if negb (Z.land addr (PG - 1) =? 0) then (mm, - E_INVAL)
  else
    let end_ := u64 (addr + page_round len) in
    if end_ <? addr then (mm, - E_INVAL) else (dontneed_in (vmas s) mm addr end_, 0).

(** The residency vector and the result. *)
Fixpoint mincore_loop (n : nat) (s : vset) (mm : M) (va : Z) : list Z * Z :=
  match n with
  | O => ([], 0)
  | S n' =>
      let p := vmm_space_probe mm va in
      if (p =? 0) && bool_decide (find s va = None) then ([], - E_NOMEM)
      else let '(vec, rc) := mincore_loop n' s mm (va + PG) in ((if p =? 1 then 1 else 0) :: vec, rc)
  end.
Definition vma_mincore (s : vset) (mm : M) (addr len : Z) : list Z * Z :=
  if negb (Z.land addr (PG - 1) =? 0) then ([], - E_INVAL)
  else mincore_loop (Z.to_nat (u64 (len + PG - 1) / PG)) s mm addr.

Definition vma_reserve_eager (s : vset) (mm : M) (npages prot : Z) : vset * Z :=
  if npages =? 0 then (s, 0)
  else
    let size := u64 (npages * PG) in
    let va := find_free s mm size 0 in
    if va =? 0 then (s, 0)
    else match vma_new s (V va (va + size) (prot_to_vf prot) VMA_EAGER None 0) with
         | (s, None) => (s, 0)
         | (s, Some v) => (insert s v, va)
         end.

(** ** Faults *)

(** What a fault may be given: the frame [pmm_alloc_frame_user] answers with,
    the page cache's frame of a file page, whether the unshared frame was the
    last reference. *)
Record fenv := FEnv { f_frame : Z; f_pcache : Z -> Z -> option Z; f_unshare : Z -> bool }.

(** The state, the frames given back, and 1 (retry the access) or 0 (not ours). *)
Definition fault_locked (e : fenv) (s : vset) (mm : M) (page : Z) (is_write : bool)
    : vset * M * list Z * Z :=
  match find s page with
  | None => (s, mm, [], 0)
  | Some v =>
      if bool_decide (v_kind v = VMA_EAGER) || negb (has (v_vf v) VMM_USER) then (s, mm, [], 0)
      else if is_write && negb (has (v_vf v) VMM_WRITABLE) then (s, mm, [], 0)
      else
        let p := vmm_space_probe mm page in
        if p =? 1 then (s, mm, [], 1)
        else if negb (p =? 0) then (s, mm, [], 0)
        else match v_kind v with
             | VMA_ANON =>
                 let fr := f_frame e in
                 if fr =? 0 then (s, mm, [], 0)
                 else match vmm_space_map mm page fr (v_vf v) with
                      | None => (s, mm, [fr], 0)
                      | Some mm' => (set_faults (u32 (faults s + 1)) s, mm', [], 1)
                      end
             | _ =>
                 let idx := u64 (v_off v + (page - v_start v)) / PG in
                 match f_pcache e (default 0 (v_file v)) idx with
                 | None => (s, mm, [], 0)
                 | Some fr =>
                     match vmm_space_map mm page fr
                             (Z.lor (Z.land (v_vf v) (Z.lnot VMM_WRITABLE)) VMM_COW) with
                     | None => (s, mm, if f_unshare e fr then [fr] else [], 0)
                     | Some mm' => (set_faults (u32 (faults s + 1)) s, mm', [], 1)
                     end
                 end
             end
  end.

Definition page_of (va : Z) : Z := Z.land va (Z.lnot (PG - 1)).

Definition vma_fault (e : fenv) (s : vset) (mm : M) (va : Z) (is_write can_sleep : bool)
    : vset * M * list Z * Z :=
  if negb can_sleep then (s, mm, [], 0) else fault_locked e s mm (page_of va) is_write.

(** ** Fork and the program break *)

(** The child's list: a copy up to the first allocation failure. *)
Fixpoint clone_in (l : list vma) (cs : vset) : vset :=
  match l with
  | [] => cs
  | v :: l' =>
      match vma_new cs v with
      | (cs, None) => cs
      | (cs, Some c) => clone_in l' (set_vmas (vmas cs ++ [c]) cs)
      end
  end.
Definition vma_clone (ps cs : vset) : vset :=
  clone_in (vmas ps) (set_brk (brk_start ps) (brk_cur ps) cs).

Definition vma_destroy (s : vset) : vset := free_all (vmas s) (set_vmas [] s).

Definition vma_brk_init (s : vset) (img_end : Z) : vset :=
  let b := page_round img_end in set_brk b b s.

(** brk(2): the state and the break after the call, as the [uintptr_t] it is. *)
Definition vma_brk (e : menv) (s : vset) (mm : M) (addr : Z) : vset * M * Z :=
  if brk_start s =? 0 then (s, mm, 0)
  else
    let cur := brk_cur s in
    if addr <? brk_start s then (s, mm, cur)
    else
      let oldp := page_round cur in
      let newp := page_round addr in
      if oldp <? newp then
        let '(s, mm, r) := vma_mmap e s mm oldp (newp - oldp) (Z.lor VMA_PROT_READ VMA_PROT_WRITE)
          (Z.lor VMA_MAP_PRIVATE (Z.lor VMA_MAP_ANONYMOUS VMA_MAP_FIXED_NOREPLACE)) (-1) 0 in
        if negb (r =? oldp) then (s, mm, cur) else (set_brk (brk_start s) addr s, mm, addr)
      else if newp <? oldp then
        let '(s, mm, _) := vma_munmap s mm newp (oldp - newp) in
        (set_brk (brk_start s) addr s, mm, addr)
      else (set_brk (brk_start s) addr s, mm, addr).
End Pages.
End Vma.
