(* ===== verification/VmaSpec.v ===== *)
(** * Address-space reservations: invariant and refinement

    [attr] is the abstract address space: what covers an address, with which
    protection, and which byte of which file backs it.  The list operations
    (split, merge, remove, insert, protect) are related to it once; the system
    calls then change it exactly on the range they were given. *)

From stdpp Require Import base list sets.
From Stdlib Require Import ZArith Lia Bool.
From S2P Require Import Prelude Vma.
Import Vma.
Open Scope Z_scope.

Module VmaSpec.

(** ** Well-formed lists *)

Definition page_aligned (a : Z) : Prop := a mod PG = 0.

Definition vma_ok (v : vma) : Prop :=
  v_start v < v_end v /\ page_aligned (v_start v) /\ page_aligned (v_end v) /\
  (v_kind v = VMA_ANON -> v_file v = None).

(** Sorted and non-overlapping, from [lo] on. *)
Fixpoint wf_from (lo : Z) (l : list vma) : Prop :=
  match l with
  | [] => True
  | v :: l' => lo <= v_start v /\ vma_ok v /\ wf_from (v_end v) l'
  end.
Definition wf (l : list vma) : Prop := wf_from 0 l.

Definition covers (v : vma) (a : Z) : Prop := v_start v <= a < v_end v.

Lemma wf_from_weaken lo lo' l : lo' <= lo -> wf_from lo l -> wf_from lo' l.
Proof. destruct l as [|v l]; cbn; [done|]. intros ? (? & ? & ?). split; [lia|done]. Qed.

Lemma wf_from_ge lo l v : wf_from lo l -> v ∈ l -> lo <= v_start v /\ vma_ok v.
Proof.
  revert lo. induction l as [|w l IH]; intros lo; cbn; [set_solver|].
  intros (H1 & H2 & H3) [->|Hin]%elem_of_cons; [done|].
  destruct (IH _ H3 Hin) as [H4 H5]. destruct H2 as (? & _). split; [lia|done].
Qed.

(** [find] returns the range that covers the address, if there is one. *)
Lemma find_in_spec lo l a v : wf_from lo l -> find_in l a = Some v <-> v ∈ l /\ covers v a.
Proof.
  revert lo. induction l as [|w l IH]; intros lo; cbn; [set_solver|].
  intros (H1 & H2 & H3). rewrite elem_of_cons. unfold covers in *.
  destruct (Z.leb_spec (v_start w) a).
  - destruct (Z.ltb_spec a (v_end w)).
    + split; [intros [= <-]; split; [by left|lia]|]. intros [[->|Hin] Hc]; [done|].
      pose proof (wf_from_ge _ _ _ H3 Hin). lia.
    + rewrite (IH _ H3). split; [naive_solver|]. intros [[->|Hin] Hc]; [lia|done].
  - split; [done|]. intros [[->|Hin] Hc]; [lia|]. destruct H2 as (? & _).
    pose proof (wf_from_ge _ _ _ H3 Hin). lia.
Qed.

Lemma covers_unique lo l v w a : wf_from lo l -> v ∈ l -> w ∈ l -> covers v a -> covers w a -> v = w.
Proof.
  intros Hwf Hv Hw Cv Cw.
  pose proof (proj2 (find_in_spec lo l a v Hwf) (conj Hv Cv)).
  pose proof (proj2 (find_in_spec lo l a w Hwf) (conj Hw Cw)). congruence.
Qed.

(** ** The abstract address space *)

(** Protection, kind, and for file ranges the file and the offset of the byte. *)
Definition attr_of (v : vma) (a : Z) : Z * vkind * option Z * Z :=
  (v_vf v, v_kind v, v_file v,
   if decide (v_kind v = VMA_FILE) then u64 (v_off v + (a - v_start v)) else 0).

Definition attr (l : list vma) (a : Z) : option (Z * vkind * option Z * Z) :=
  (fun v => attr_of v a) <$> find_in l a.

Lemma attr_Some lo l a x :
  wf_from lo l -> attr l a = Some x <-> exists v, v ∈ l /\ covers v a /\ attr_of v a = x.
Proof.
  intros Hwf. unfold attr. rewrite fmap_Some. setoid_rewrite (find_in_spec lo); [|done..].
  naive_solver.
Qed.

Lemma attr_None lo l a : wf_from lo l -> attr l a = None <-> forall v, v ∈ l -> ~ covers v a.
Proof.
  intros Hwf. unfold attr. rewrite fmap_None. split.
  - intros Hn v Hin Hc. pose proof (proj2 (find_in_spec lo l a v Hwf) (conj Hin Hc)). congruence.
  - intros H. destruct (find_in l a) as [v|] eqn:E; [|done].
    apply (find_in_spec lo) in E as [? ?]; [|done]. exfalso. eapply H; eauto.
Qed.

(** Two lists with the same covers and attributes are the same space. *)
Lemma attr_ext lo lo' l l' a :
  wf_from lo l -> wf_from lo' l' ->
  (forall v, v ∈ l -> covers v a -> exists w, w ∈ l' /\ covers w a /\ attr_of w a = attr_of v a) ->
  (forall w, w ∈ l' -> covers w a -> exists v, v ∈ l /\ covers v a) ->
  attr l' a = attr l a.
Proof.
  intros Hl Hl' H1 H2. destruct (attr l a) as [x|] eqn:E.
  - apply (attr_Some lo) in E as (v & Hv & Cv & <-); [|done]. destruct (H1 v Hv Cv) as (w & ? & ? & ?).
    apply (attr_Some lo'); [done|]. eauto.
  - apply (attr_None lo'); [done|]. intros w Hw Cw. destruct (H2 w Hw Cw) as (v & Hv & Cv).
    eapply (attr_None lo); eauto.
Qed.

(** ** Splitting *)

Definition no_straddle (l : list vma) (at_ : Z) : Prop :=
  forall v, v ∈ l -> ~ (v_start v < at_ < v_end v).

Lemma split_in_no lo l at_ : wf_from lo l -> find_in l at_ = None -> split_in l at_ = l.
Proof.
  revert lo. induction l as [|v l IH]; intros lo; cbn; [done|]. intros (_ & _ & H3).
  destruct (Z.leb_spec (v_start v) at_); [|done]. destruct (Z.ltb_spec at_ (v_end v)); [done|].
  intros E. by rewrite (IH _ H3 E).
Qed.

(** The list around the range that is split. *)
Lemma split_in_parts lo l at_ v :
  wf_from lo l -> find_in l at_ = Some v ->
  exists l1 l2, l = l1 ++ v :: l2 /\ split_in l at_ = l1 ++ with_end v at_ :: right_half v at_ :: l2.
Proof.
  revert lo. induction l as [|w l IH]; intros lo; cbn; [done|]. intros (_ & _ & H3).
  destruct (Z.leb_spec (v_start w) at_); [|done]. destruct (Z.ltb_spec at_ (v_end w)).
  - intros [= ->]. by exists [], l.
  - intros E. destruct (IH _ H3 E) as (l1 & l2 & -> & ->). by exists (w :: l1), l2.
Qed.

Lemma wf_from_app lo l1 l2 :
  wf_from lo (l1 ++ l2) <-> wf_from lo l1 /\ wf_from (from_option v_end lo (last l1)) l2.
Proof.
  revert lo. induction l1 as [|v l1 IH]; intros lo; cbn [app wf_from]; [naive_solver|].
  rewrite IH, last_cons. destruct (last l1); naive_solver.
Qed.

Lemma split_in_wf lo l at_ v :
  wf_from lo l -> page_aligned at_ -> find_in l at_ = Some v -> v_start v <> at_ -> wf_from lo (split_in l at_).
Proof.
  intros Hwf Hal E Hne. destruct (split_in_parts _ _ _ _ Hwf E) as (l1 & l2 & El & ->).
  apply (find_in_spec lo) in E as [_ Hc]; [|done]. unfold covers in Hc.
  rewrite El, wf_from_app in Hwf. destruct Hwf as [H1 (H2 & (H3 & H4 & H5 & H6) & H7)].
  apply wf_from_app. split; [done|]. cbn. unfold vma_ok. cbn. repeat split; try done; lia.
Qed.

Lemma right_half_attr v at_ a : v_start v < at_ -> attr_of (right_half v at_) a = attr_of v a.
Proof.
  intros H. unfold attr_of, right_half. cbn. case_decide; [|done]. f_equal.
  unfold u64. rewrite Zplus_mod_idemp_l. f_equal. lia.
Qed.

Lemma split_in_attr lo l at_ v a :
  wf_from lo l -> page_aligned at_ -> find_in l at_ = Some v -> v_start v <> at_ ->
  attr (split_in l at_) a = attr l a.
Proof.
  intros Hwf Hal E Hne. pose proof (split_in_wf _ _ _ _ Hwf Hal E Hne) as Hwf'.
  pose proof E as [_ Hc]%(find_in_spec lo); [|done]. unfold covers in Hc.
  apply (attr_ext lo lo); [done..| |].
  - destruct (split_in_parts _ _ _ _ Hwf E) as (l1 & l2 & -> & ->). intros w Hw Cw.
    apply elem_of_app in Hw as [Hw|[->|Hw]%elem_of_cons]; [exists w; set_solver| |exists w; set_solver].
    unfold covers in *. destruct (decide (a < at_)).
    + exists (with_end v at_). split; [set_solver|]. by split; [cbn; lia|].
    + exists (right_half v at_). split; [set_solver|]. split; [cbn; lia|]. apply right_half_attr. lia.
  - destruct (split_in_parts _ _ _ _ Hwf E) as (l1 & l2 & -> & ->). intros w Hw Cw. unfold covers in *.
    rewrite elem_of_app, !elem_of_cons in Hw. destruct Hw as [Hw|[->|[->|Hw]]].
    + exists w. set_solver.
    + exists v. cbn in *. split; [set_solver|lia].
    + exists v. cbn in *. split; [set_solver|lia].
    + exists w. set_solver.
Qed.

Lemma split_in_straddle lo l at_ v b :
  wf_from lo l -> find_in l at_ = Some v -> no_straddle l b \/ b = at_ -> no_straddle (split_in l at_) b.
Proof.
  intros Hwf E Hb. destruct (split_in_parts _ _ _ _ Hwf E) as (l1 & l2 & El & ->).
  pose proof E as [Hin Hc]%(find_in_spec lo); [|done]. unfold covers in Hc.
  assert (forall w, w ∈ l -> w <> v -> ~ covers w at_) as Hother.
  { intros w Hw Hne Cw. apply Hne. by eapply covers_unique. }
  unfold covers in Hother. intros w Hw.
  rewrite elem_of_app, !elem_of_cons in Hw.
  assert (NoDup l) as Hnd.
  { clear -Hwf. revert lo Hwf. induction l as [|w l IH]; intros lo; cbn; [constructor|].
    intros (_ & (? & _) & H3). apply NoDup_cons. split; [|by eapply IH].
    intros Hin. pose proof (wf_from_ge _ _ _ H3 Hin). lia. }
  rewrite El in Hnd. apply NoDup_app in Hnd as (_ & Hd1 & [Hd2 _]%NoDup_cons).
  destruct Hb as [Hb| ->].
  - destruct Hw as [Hw|[->|[->|Hw]]].
    + apply Hb. rewrite El. set_solver.
    + pose proof (Hb v Hin). cbn. lia.
    + pose proof (Hb v Hin). cbn. lia.
    + apply Hb. rewrite El. set_solver.
  - destruct Hw as [Hw|[->|[->|Hw]]].
    + specialize (Hother w). assert (w ∈ l) by (rewrite El; set_solver). assert (w <> v) by (intros ->; set_solver).
      naive_solver lia.
    + cbn. lia.
    + cbn. lia.
    + specialize (Hother w). assert (w ∈ l) by (rewrite El; set_solver). assert (w <> v) by (intros ->; set_solver).
      naive_solver lia.
Qed.

(** ** File references *)

Definition holders (f : Z) (l : list vma) : Z :=
  Z.of_nat (length (filter (fun v => v_file v = Some f) l)).

Definition refs_ok (s : vset) : Prop := forall f, frefs s f = holders f (vmas s).

Lemma holders_app f l1 l2 : holders f (l1 ++ l2) = holders f l1 + holders f l2.
Proof. unfold holders. rewrite filter_app, length_app. lia. Qed.
Lemma holders_cons f v l : holders f (v :: l) = holders f [v] + holders f l.
Proof. apply (holders_app f [v] l). Qed.
Lemma holders_one f v : holders f [v] = if decide (v_file v = Some f) then 1 else 0.
Proof. unfold holders. rewrite filter_cons, filter_nil. by case_decide. Qed.
Lemma holders_file f v w : v_file v = v_file w -> holders f [v] = holders f [w].
Proof. intros E. by rewrite !holders_one, E. Qed.

Lemma bump_spec o d r f : bump o d r f = r f + (if decide (o = Some f) then d else 0).
Proof.
  unfold bump. destruct o as [i|]; [|rewrite decide_False by done; lia].
  rewrite upd_eq. destruct (Z.eqb_spec f i) as [->|].
  - by rewrite decide_True by done.
  - rewrite decide_False by congruence. lia.
Qed.

Lemma free_all_frefs l s f : frefs (free_all l s) f = frefs s f - holders f l.
Proof.
  revert s. induction l as [|v l IH]; intros s; cbn; [unfold holders; cbn; lia|].
  fold (free_all l (vma_free v s)). rewrite IH, holders_cons, holders_one. unfold vma_free. cbn.
  rewrite bump_spec. case_decide; lia.
Qed.
Lemma free_all_vmas l s : vmas (free_all l s) = vmas s.
Proof. revert s. induction l as [|v l IH]; intros s; [done|]. cbn. by rewrite IH. Qed.
Lemma free_all_rest l s :
  brk_start (free_all l s) = brk_start s /\ brk_cur (free_all l s) = brk_cur s /\ kc (free_all l s) = kc s.
Proof. revert s. induction l as [|v l IH]; intros s; [done|]. exact (IH (vma_free v s)). Qed.

Definition set_ok (s : vset) : Prop := wf (vmas s) /\ refs_ok s.

Lemma split_at_ok s at_ s' r :
  set_ok s -> page_aligned at_ -> split_at s at_ = (s', r) ->
  set_ok s' /\ (forall a, attr (vmas s') a = attr (vmas s) a) /\
  brk_start s' = brk_start s /\ brk_cur s' = brk_cur s /\
  (forall b, no_straddle (vmas s) b -> no_straddle (vmas s') b) /\
  (r = 0 -> no_straddle (vmas s') at_) /\ (r <> 0 -> vmas s' = vmas s).
Proof.
  intros [Hwf Href] Hal E. unfold split_at, find in E.
  assert (forall v, find_in (vmas s) at_ = Some v -> v_start v = at_ -> no_straddle (vmas s) at_) as Hstart.
  { intros v Ev Es w Hw Hc. assert (v = w); [|subst w; lia].
    apply (find_in_spec 0) in Ev as [Hv Cv]; [|done]. eapply covers_unique; [done..|]. unfold covers. lia. }
  destruct (find_in (vmas s) at_) as [v|] eqn:Ev.
  2: { injection E as <- <-. do 5 (split; [done|]). split; [|done]. intros _ w Hw Hc.
       assert (find_in (vmas s) at_ = Some w); [|congruence]. apply (find_in_spec 0); [done|]. split; [done|]. unfold covers. lia. }
  destruct (Z.eqb_spec (v_start v) at_) as [Es|Hne].
  { injection E as <- <-. do 5 (split; [done|]). split; [|done]. intros _. by eapply Hstart. }
  assert (forall k, (set_vmas (split_in (vmas s) at_)
      (set_frefs (bump (v_file (right_half v at_)) 1 (frefs s)) (set_kc k s)), 0) = (s', r) ->
    set_ok s' /\ (forall a, attr (vmas s') a = attr (vmas s) a) /\
    brk_start s' = brk_start s /\ brk_cur s' = brk_cur s /\
    (forall b, no_straddle (vmas s) b -> no_straddle (vmas s') b) /\
    (r = 0 -> no_straddle (vmas s') at_) /\ (r <> 0 -> vmas s' = vmas s)) as Hdone.
  { intros k [= <- <-]. cbn [vmas set_vmas].
    split; [|split; [|split; [done|split; [done|split; [|split; [|done]]]]]].
    - split; cbn [vmas set_vmas frefs set_frefs set_kc]; [by eapply split_in_wf|]. intros f. cbn.
      rewrite bump_spec, Href. destruct (split_in_parts _ _ _ _ Hwf Ev) as (l1 & l2 & -> & ->).
      rewrite !holders_app. rewrite (holders_cons f v), (holders_cons f (with_end v at_)), (holders_cons f (right_half v at_)).
      rewrite !holders_one. cbn. case_decide; lia.
    - intros a. by eapply split_in_attr.
    - intros b Hb. eapply split_in_straddle; [done..|by left].
    - intros _. eapply split_in_straddle; [done..|by right]. }
  unfold vma_new in E. destruct (kc s) as [|[] k]; [by apply (Hdone [])|by apply (Hdone k)|].
  injection E as <- <-. do 5 (split; [done|]). done.
Qed.

(** ** Removing, inserting, merging, protecting *)

Lemma wf_filter lo l (P : vma -> Prop) `{!forall v, Decision (P v)} : wf_from lo l -> wf_from lo (filter P l).
Proof.
  revert lo. induction l as [|v l IH]; intros lo; cbn [wf_from]; [done|]. intros (H1 & H2 & H3).
  rewrite filter_cons. case_decide; cbn [wf_from].
  - split; [done|]. split; [done|]. by apply IH.
  - apply IH. eapply wf_from_weaken; [|exact H3]. destruct H2 as (? & _). lia.
Qed.

Lemma inside_spec a b v : inside a b v = true <-> a <= v_start v /\ v_end v <= b.
Proof. unfold inside. by rewrite andb_true_iff, !Z.leb_le. Qed.

Lemma remove_range_ok s a b :
  set_ok s -> no_straddle (vmas s) a -> no_straddle (vmas s) b ->
  set_ok (remove_range s a b) /\
  (forall x, attr (vmas (remove_range s a b)) x = if decide (a <= x < b) then None else attr (vmas s) x).
Proof.
  intros [Hwf Href] Ha Hb. unfold remove_range.
  assert (wf (filter (fun v => inside a b v = false) (vmas s))) as Hwf' by (by apply wf_filter).
  split; [split|].
  - by rewrite free_all_vmas.
  - intros f. rewrite free_all_frefs, free_all_vmas. cbn. rewrite Href. unfold holders.
    rewrite !list_filter_filter.
    assert (length (filter (fun v => v_file v = Some f) (vmas s)) =
      length (filter (fun v => v_file v = Some f /\ inside a b v = true) (vmas s)) +
      length (filter (fun v => v_file v = Some f /\ inside a b v = false) (vmas s)))%nat as ->; [|lia].
    generalize (vmas s). intros l. induction l as [|v l IH]; [done|]. rewrite !filter_cons.
    destruct (inside a b v) eqn:Ei; repeat case_decide; cbn [length]; naive_solver lia.
  - intros x. rewrite free_all_vmas. cbn [vmas set_vmas]. case_decide as Hx.
    + apply (attr_None 0); [done|]. intros v [Hi Hv]%list_elem_of_filter Hc. unfold covers in Hc.
      specialize (Ha v Hv). specialize (Hb v Hv).
      assert (inside a b v = true) by (apply inside_spec; lia). congruence.
    + apply (attr_ext 0 0); [done..| |].
      * intros v Hv Hc. exists v. split; [|done]. apply list_elem_of_filter. split; [|done].
        apply not_true_iff_false. rewrite inside_spec. unfold covers in Hc. lia.
      * intros v [_ Hv]%list_elem_of_filter Hc. eauto.
Qed.

Lemma overlaps_in_false lo l a b :
  wf_from lo l -> a < b -> overlaps_in l a b = false -> forall v, v ∈ l -> v_end v <= a \/ b <= v_start v.
Proof.
  revert lo. induction l as [|w l IH]; intros lo; cbn; [set_solver|]. intros (H1 & H2 & H3) Hab.
  destruct (Z.ltb_spec (v_start w) b).
  - destruct (Z.ltb_spec a (v_end w)); [done|]. intros E v [->|Hv]%elem_of_cons; [by left|]. by eapply IH.
  - intros _ v [->|Hv]%elem_of_cons; [by right|]. right.
    pose proof (wf_from_ge _ _ _ H3 Hv). destruct H2 as (? & _). lia.
Qed.

Lemma insert_in_elem l n v : v ∈ insert_in l n <-> v = n \/ v ∈ l.
Proof. induction l as [|w l IH]; cbn; [set_solver|]. case_match; set_solver. Qed.

Lemma insert_in_holders f l n : holders f (insert_in l n) = holders f [n] + holders f l.
Proof.
  induction l as [|w l IH]; cbn; [unfold holders at 3; cbn; lia|]. case_match; [|by rewrite holders_cons].
  rewrite (holders_cons f w), IH, (holders_cons f w l). lia.
Qed.

Lemma insert_in_wf lo l n :
  wf_from lo l -> vma_ok n -> lo <= v_start n ->
  (forall v, v ∈ l -> v_end v <= v_start n \/ v_end n <= v_start v) -> wf_from lo (insert_in l n).
Proof.
  revert lo. induction l as [|w l IH]; intros lo; cbn; [done|]. intros (H1 & H2 & H3) Hn Hlo Hd.
  pose proof (Hd w ltac:(set_solver)) as Hw. destruct Hn as (Hn1 & Hn2). pose proof H2 as (Hw1 & _).
  destruct (Z.ltb_spec (v_start w) (v_start n)); cbn.
  - split; [done|]. split; [done|]. apply IH; [done|done|lia|set_solver].
  - split; [done|]. split; [done|]. split; [lia|done].
Qed.

Lemma insert_attr l n x :
  wf l -> vma_ok n -> 0 <= v_start n ->
  (forall v, v ∈ l -> v_end v <= v_start n \/ v_end n <= v_start v) ->
  attr (insert_in l n) x = if decide (v_start n <= x < v_end n) then Some (attr_of n x) else attr l x.
Proof.
  intros Hwf Hn Hlo Hd. pose proof (insert_in_wf 0 l n Hwf Hn Hlo Hd) as Hwf'. case_decide as Hx.
  - apply (attr_Some 0); [done|]. exists n. split; [|done]. apply insert_in_elem. by left.
  - apply (attr_ext 0 0); [done..| |].
    + intros v Hv Hc. exists v. split; [|done]. apply insert_in_elem. by right.
    + intros v [->|Hv]%insert_in_elem Hc; [done|eauto].
Qed.

Lemma attr_cons v l a :
  attr (v :: l) a = if v_start v <=? a then if a <? v_end v then Some (attr_of v a) else attr l a else None.
Proof. unfold attr. cbn. by repeat case_match. Qed.

Lemma merge_from_ok l : forall lo v, wf_from lo (v :: l) ->
  wf_from lo (merge_from v l).1 /\
  (forall a, attr (merge_from v l).1 a = attr (v :: l) a) /\
  (forall f, holders f (v :: l) = holders f (merge_from v l).1 + holders f (merge_from v l).2).
Proof.
  induction l as [|n l IH]; intros lo v Hwf; cbn [merge_from].
  { cbn [fst snd]. split; [done|]. split; [done|]. intros f. unfold holders at 3. cbn. lia. }
  pose proof Hwf as (H1 & Hv & H2 & Hn & H3). destruct (mergeable v n) eqn:Em.
  - unfold mergeable in Em. bool_props. destruct Hv as (V1 & V2 & V3 & V4). destruct Hn as (N1 & N2 & N3 & N4).
    assert (wf_from lo (with_end v (v_end n) :: l)) as Hwf1.
    { cbn. unfold vma_ok. cbn. repeat split; try done; lia. }
    destruct (IH lo _ Hwf1) as (I1 & I2 & I3). destruct (merge_from (with_end v (v_end n)) l) as [k g].
    cbn [fst snd] in *. split; [done|]. split.
    + intros a. rewrite I2, !attr_cons. cbn [with_end v_start v_end].
      assert (attr_of (with_end v (v_end n)) a = attr_of v a) as -> by done.
      assert (attr_of n a = attr_of v a) as ->.
      { unfold attr_of. rewrite V4, N4 by done.
        destruct (decide (v_kind n = VMA_FILE)), (decide (v_kind v = VMA_FILE)); congruence. }
      destruct (Z.leb_spec (v_start v) a), (Z.ltb_spec a (v_end v)), (Z.ltb_spec a (v_end n)),
        (Z.leb_spec (v_start n) a); try done; lia.
    + intros f. specialize (I3 f). rewrite holders_cons, (holders_cons f n l), (holders_cons f n g).
      rewrite holders_cons in I3. rewrite (holders_file f _ v) in I3 by done. lia.
  - destruct (IH (v_end v) n) as (I1 & I2 & I3); [cbn; split; [done|]; split; done|].
    destruct (merge_from n l) as [k g]. cbn [fst snd] in *. split; [done|]. split.
    + intros a. rewrite !(attr_cons v). by rewrite I2.
    + intros f. rewrite holders_cons, (holders_cons f v k), I3. lia.
Qed.

Lemma merge_ok s : set_ok s -> set_ok (merge s) /\ (forall a, attr (vmas (merge s)) a = attr (vmas s) a).
Proof.
  intros [Hwf Href]. unfold merge. destruct (vmas s) as [|v l] eqn:El.
  { split; [split; [by rewrite El|done]|]. intros. by rewrite El. }
  destruct (merge_from_ok l 0 v Hwf) as (I1 & I2 & I3). destruct (merge_from v l) as [k g]. cbn [fst snd] in *.
  split; [split|].
  - by rewrite free_all_vmas.
  - intros f. rewrite free_all_frefs, free_all_vmas. cbn. rewrite Href, El, I3. lia.
  - intros a. by rewrite free_all_vmas.
Qed.

Lemma protect_in_map lo l a b vf :
  wf_from lo l -> protect_in l a b vf = (fun v => if inside a b v then with_vf v vf else v) <$> l.
Proof.
  revert lo. induction l as [|v l IH]; intros lo; cbn; [done|]. intros (H1 & H2 & H3).
  destruct (Z.ltb_spec (v_start v) b); [by rewrite (IH _ H3)|].
  assert (forall w, w ∈ v :: l -> (if inside a b w then with_vf w vf else w) = w) as Hid.
  { intros w Hw. destruct (inside a b w) eqn:E; [|done]. apply inside_spec in E. exfalso.
    destruct H2 as (? & _). apply elem_of_cons in Hw as [->|Hw]; [lia|].
    pose proof (wf_from_ge _ _ _ H3 Hw) as [? (? & _)]. lia. }
  rewrite (Hid v) by set_solver. f_equal. clear -Hid. induction l as [|w l IH]; [done|].
  cbn. rewrite (Hid w) by set_solver. f_equal. apply IH. intros u Hu. apply Hid. set_solver.
Qed.

Definition set_prot (vf : Z) (x : Z * vkind * option Z * Z) : Z * vkind * option Z * Z :=
  let '(_, k, f, o) := x in (vf, k, f, o).

Lemma protect_ok s a b vf :
  set_ok s -> no_straddle (vmas s) a -> no_straddle (vmas s) b ->
  let l' := protect_in (vmas s) a b vf in
  set_ok (set_vmas l' s) /\
  (forall x, attr l' x = if decide (a <= x < b) then set_prot vf <$> attr (vmas s) x else attr (vmas s) x).
Proof.
  intros [Hwf Href] Ha Hb l'. unfold l'. rewrite (protect_in_map 0) by done.
  set (g := fun v => if inside a b v then with_vf v vf else v).
  assert (forall v, v_start (g v) = v_start v /\ v_end (g v) = v_end v /\ v_kind (g v) = v_kind v /\
                    v_file (g v) = v_file v /\ v_off (g v) = v_off v) as Hg by (intros v; unfold g; by case_match).
  assert (forall lo l, wf_from lo l -> wf_from lo (g <$> l)) as Hwfg.
  { intros lo l. revert lo. induction l as [|v l IH]; intros lo; cbn; [done|]. intros (H1 & H2 & H3).
    destruct (Hg v) as (E1 & E2 & E3 & E4 & _). unfold vma_ok. rewrite E1, E2, E3, E4. split; [done|].
    split; [done|]. auto. }
  split; [split|].
  - cbn. by apply Hwfg.
  - intros f. cbn. rewrite Href. generalize (vmas s). intros l. induction l as [|v l IH]; [done|]. cbn.
    rewrite holders_cons, (holders_cons f (g v)), IH, (holders_file f v (g v)); [done|]. symmetry. apply Hg.
  - intros x. assert (forall v, v ∈ vmas s -> covers v x -> attr_of (g v) x =
      if decide (a <= x < b) then set_prot vf (attr_of v x) else attr_of v x) as Hattr.
    { intros v Hv Hc. unfold covers in Hc. specialize (Ha v Hv). specialize (Hb v Hv). unfold g.
      destruct (inside a b v) eqn:E; case_decide; try done.
      - apply inside_spec in E. lia.
      - apply not_true_iff_false in E. rewrite inside_spec in E. lia. }
    destruct (attr (vmas s) x) as [y|] eqn:E.
    + apply (attr_Some 0) in E as (v & Hv & Hc & <-); [|done].
      transitivity (Some (attr_of (g v) x)); [|rewrite Hattr by done; by case_decide].
      apply (attr_Some 0); [by apply Hwfg|]. exists (g v). split; [by apply list_elem_of_fmap_2|].
      destruct (Hg v) as (E1 & E2 & _). unfold covers in *. rewrite E1, E2. done.
    + transitivity (@None (Z * vkind * option Z * Z)); [|by case_decide].
      apply (attr_None 0); [by apply Hwfg|]. intros w (v & -> & Hv)%list_elem_of_fmap Hc.
      destruct (Hg v) as (E1 & E2 & _). unfold covers in Hc. rewrite E1, E2 in Hc.
      eapply (attr_None 0); eauto.
Qed.

(** ** Page arithmetic *)

Lemma land_lnot_ones x n : 0 <= n -> Z.land x (Z.lnot (Z.ones n)) = x - x mod 2 ^ n.
Proof.
  intros Hn. rewrite <- Z.ldiff_land, Z.ldiff_ones_r, Z.shiftl_mul_pow2, Z.shiftr_div_pow2 by lia.
  pose proof (Z.div_mod x (2 ^ n)). pose proof (Z.pow_pos_nonneg 2 n). lia.
Qed.

Lemma page_down x : Z.land x (Z.lnot (PG - 1)) = x - x mod PG.
Proof. change (PG - 1) with (Z.ones 12). by rewrite land_lnot_ones. Qed.

Lemma page_down_aligned x : page_aligned (x - x mod PG).
Proof. unfold page_aligned. rewrite Zminus_mod_idemp_r, Z.sub_diag. done. Qed.

Lemma u64_page x : u64 x mod PG = x mod PG.
Proof.
  unfold u64, PG. change 18446744073709551616 with (4096 * 4503599627370496).
  rewrite Z.rem_mul_r by lia. rewrite Z.mul_comm, Z.mod_add by lia. by rewrite Z.mod_mod by lia.
Qed.

Lemma page_round_aligned len : page_aligned (page_round len).
Proof. unfold page_round. rewrite page_down. apply page_down_aligned. Qed.

Lemma page_round_range len : 0 <= page_round len < 2 ^ 64.
Proof.
  unfold page_round. rewrite page_down. pose proof (u64_range (len + PG - 1)).
  pose proof (Z.mod_pos_bound (u64 (len + PG - 1)) PG ltac:(done)).
  pose proof (Z.mod_le (u64 (len + PG - 1)) PG). lia.
Qed.

Lemma aligned_add a b : page_aligned a -> page_aligned b -> page_aligned (u64 (a + b)).
Proof. unfold page_aligned. intros Ha Hb. rewrite u64_page, Z.add_mod, Ha, Hb; done. Qed.

Lemma land_pg a : Z.land a (PG - 1) = a mod PG.
Proof. change (PG - 1) with (Z.ones 12). by rewrite Z.land_ones. Qed.

(** ** munmap and mprotect *)

Section Calls.
Context {M : Type} `{AS : AddrSpace M}.

(** The two splits every range operation starts with. *)
Lemma split_both s a b s1 r1 s2 r2 :
  set_ok s -> page_aligned a -> page_aligned b -> split_at s a = (s1, r1) -> split_at s1 b = (s2, r2) ->
  set_ok s1 /\ set_ok s2 /\ (forall x, attr (vmas s1) x = attr (vmas s) x) /\
  (forall x, attr (vmas s2) x = attr (vmas s) x) /\ brk_start s2 = brk_start s /\ brk_cur s2 = brk_cur s /\
  (r1 = 0 -> r2 = 0 -> no_straddle (vmas s2) a /\ no_straddle (vmas s2) b).
Proof.
  intros Hok Ha Hb E1 E2.
  destruct (split_at_ok _ _ _ _ Hok Ha E1) as (O1 & A1 & B1 & C1 & _ & S1 & _).
  destruct (split_at_ok _ _ _ _ O1 Hb E2) as (O2 & A2 & B2 & C2 & K2 & S2 & _).
  split; [done|]. split; [done|]. split; [done|]. split; [intros; by rewrite A2, A1|].
  split; [congruence|]. split; [congruence|]. auto.
Qed.

Lemma munmap_spec s mm addr len :
  set_ok s ->
  let end_ := u64 (addr + page_round len) in
  let '(s', mm', r) := vma_munmap s mm addr len in
  set_ok s' /\
  (r = 0 -> addr <= end_ <= vmm_user_limit /\ page_aligned addr /\ mm' = unmap_pages mm addr end_ /\
     forall x, attr (vmas s') x = if decide (addr <= x < end_) then None else attr (vmas s) x) /\
  (r <> 0 -> mm' = mm /\ forall x, attr (vmas s') x = attr (vmas s) x).
Proof.
  intros Hok end_. unfold vma_munmap. fold end_. rewrite land_pg.
  destruct (negb _ || _) eqn:E1; [done|]. bool_props.
  destruct (_ || _) eqn:E2; [done|]. bool_props.
  destruct (has _ _); [done|].
  assert (page_aligned end_) as Hal by (apply aligned_add; [done|apply page_round_aligned]).
  destruct (split_at s addr) as [s1 r1] eqn:S1, (split_at s1 end_) as [s2 r2] eqn:S2.
  destruct (split_both _ _ _ _ _ _ _ Hok H Hal S1 S2) as (O1 & O2 & A1 & A2 & _ & _ & Hns).
  destruct (Z.eqb_spec r1 0) as [->|]; cbn [negb]; [|done].
  destruct (Z.eqb_spec r2 0) as [->|]; cbn [negb]; [|done].
  destruct (Hns eq_refl eq_refl) as [N1 N2].
  destruct (remove_range_ok s2 addr end_ O2 N1 N2) as [O3 A3].
  split; [done|]. split; [|done]. intros _. split; [lia|]. split; [done|]. split; [done|].
  intros x. rewrite A3. case_decide; [done|]. by rewrite A2.
Qed.

(** Munmap keeps the reservation list sorted, non-overlapping and its file
    references exact; when it succeeds the reservations lose exactly the pages
    of [addr, addr + len rounded up) and the page tables are cleared there; when
    it fails nothing the program can observe has changed. *)
Theorem vma_munmap_correct s mm addr len :
  set_ok s ->
  let end_ := u64 (addr + page_round len) in
  let '(s', mm', r) := vma_munmap s mm addr len in
  set_ok s' /\
  (r = 0 -> mm' = unmap_pages mm addr end_ /\
     forall x, attr (vmas s') x = if decide (addr <= x < end_) then None else attr (vmas s) x) /\
  (r <> 0 -> mm' = mm /\ forall x, attr (vmas s') x = attr (vmas s) x).
Proof.
  intros Hok end_. pose proof (munmap_spec s mm addr len Hok) as H. cbv zeta in H. fold end_ in H.
  destruct (vma_munmap s mm addr len) as [[s' mm'] r]. destruct H as (H1 & H2 & H3).
  split; [done|]. split; [|done]. intros Hr. destruct (H2 Hr) as (_ & _ & ? & ?). done.
Qed.

(** Mprotect keeps the invariant; on success every reserved address of the
    range has the new protection, with its backing unchanged, and no other
    address changes; on failure nothing changes. *)
Theorem vma_mprotect_correct s mm addr len prot :
  set_ok s ->
  let end_ := Z.land (u64 (addr + len + PG - 1)) (Z.lnot (PG - 1)) in
  let '(s', mm', r) := vma_mprotect s mm addr len prot in
  set_ok s' /\
  (r = 0 -> forall x, attr (vmas s') x =
     if decide (addr <= x < end_) then set_prot (prot_to_vf prot) <$> attr (vmas s) x else attr (vmas s) x) /\
  (r <> 0 -> mm' = mm /\ forall x, attr (vmas s') x = attr (vmas s) x).
Proof.
  intros Hok end_. unfold vma_mprotect. fold end_. rewrite land_pg.
  destruct (negb _) eqn:E1; [done|]. bool_props.
  destruct (_ || _) eqn:E2; [done|]. bool_props.
  destruct (has _ VMA_RS_KERNEL); [done|].
  assert (page_aligned end_) as Hal by (unfold end_; rewrite page_down; apply page_down_aligned).
  destruct (split_at s addr) as [s1 r1] eqn:S1, (split_at s1 end_) as [s2 r2] eqn:S2.
  destruct (split_both _ _ _ _ _ _ _ Hok E1 Hal S1 S2) as (O1 & O2 & A1 & A2 & _ & _ & Hns).
  destruct (Z.eqb_spec r1 0) as [->|]; cbn [negb]; [|done].
  destruct (Z.eqb_spec r2 0) as [->|]; cbn [negb]; [|done].
  destruct (Hns eq_refl eq_refl) as [N1 N2].
  destruct (protect_ok s2 addr end_ (prot_to_vf prot) O2 N1 N2) as [O3 A3].
  destruct (merge_ok _ O3) as [O4 A4]. split; [done|]. split; [|done]. intros _ x.
  rewrite A4. cbn [vmas set_vmas]. rewrite A3. case_decide; by rewrite A2.
Qed.
End Calls.

(** ** Placing a mapping *)

(** The user half of an address space: page aligned, below the sign bit. *)
Class UserLayout (M : Type) `{AS : AddrSpace M} : Prop := {
  base_pos : 0 <= vmm_user_base; base_aligned : page_aligned vmm_user_base;
  min_pos : 0 <= vmm_user_min;
  limit_range : 0 <= vmm_user_limit < 2 ^ 63
}.

Definition clear_of (l : list vma) (a b : Z) : Prop :=
  forall v, v ∈ l -> v_end v <= a \/ b <= v_start v.

Lemma clear_attr l a b x : wf l -> clear_of l a b -> a <= x < b -> attr l x = None.
Proof.
  intros Hwf Hc Hx. apply (attr_None 0); [done|]. intros v Hv Hcov. unfold covers in Hcov.
  destruct (Hc v Hv); lia.
Qed.

Section Place.
Context {M : Type} `{AS : AddrSpace M, !UserLayout M}.

Lemma blocker_none lo l a b : wf_from lo l -> a < b -> blocker l a b = None -> clear_of l a b.
Proof.
  intros Hwf Hab Hn v. apply (overlaps_in_false lo); [done|done|]. revert Hn. clear.
  induction l as [|w l IH]; cbn; [done|]. repeat case_match; naive_solver.
Qed.

Lemma blocker_some l a b v : blocker l a b = Some v -> v ∈ l /\ a < v_end v.
Proof.
  induction l as [|w l IH]; cbn; [done|].
  destruct (Z.ltb_spec (v_start w) b); [|done]. destruct (Z.ltb_spec a (v_end w)).
  - intros [= <-]. split; [set_solver|done].
  - intros [? ?]%IH. split; [set_solver|done].
Qed.

(** A place for [len] bytes at [va]. *)
Definition placed (s : vset) (mm : M) (va len : Z) : Prop :=
  window_lo <= va /\ va < va + len <= vmm_user_limit /\ page_aligned va /\
  clear_of (vmas s) va (va + len) /\ vmm_space_range_state mm va (va + len) = 0.

Lemma step_up cand : page_aligned cand -> 0 <= cand < 2 ^ 63 ->
  let c := Z.land (u64 (cand + STEP)) (Z.lnot (STEP - 1)) in page_aligned c /\ cand < c.
Proof.
  intros Hal Hc c. unfold c. change (STEP - 1) with (Z.ones 21). rewrite land_lnot_ones by lia.
  unfold STEP. rewrite u64_small by lia. change (2 ^ 21) with 2097152.
  pose proof (Z.mod_pos_bound (cand + 2097152) 2097152 ltac:(lia)).
  split; [|lia]. unfold page_aligned, PG.
  pose proof (Z.div_mod (cand + 2097152) 2097152 ltac:(lia)).
  replace (cand + 2097152 - (cand + 2097152) mod 2097152) with (((cand + 2097152) / 2097152 * 512) * 4096) by lia.
  apply Z.mod_mul. lia.
Qed.

Lemma find_free_loop_ok fuel s mm len cand :
  wf (vmas s) -> 0 < len < 2 ^ 64 -> window_lo <= cand -> page_aligned cand -> 0 <= cand ->
  let va := find_free_loop fuel s mm len cand in va = 0 \/ placed s mm va len.
Proof using All.
  intros Hwf Hlen. pose proof limit_range as Hlim. revert cand.
  induction fuel as [|fuel IH]; intros cand Hlo Hal Hp; cbn [find_free_loop]; [by left|].
  destruct (_ && _) eqn:E; [|by left]. bool_props. unfold window_hi in *.
  assert (cand + len < 2 ^ 64) as Hnw.
  { destruct (decide (cand + len < 2 ^ 64)) as [|Hge]; [done|exfalso].
    pose proof (u64_range (cand + len)). unfold u64 in *. 
    assert (cand < 2 ^ 63) by lia.
    rewrite <- (Z.mod_add _ (-1)) in H by lia. rewrite Z.mod_small in H; lia. }
  rewrite u64_small in * by lia.
  destruct (blocker (vmas s) cand (cand + len)) as [v|] eqn:Eb.
  - apply blocker_some in Eb as [Hv Hlt]. pose proof (wf_from_ge _ _ _ Hwf Hv) as [_ (_ & _ & Hal' & _)].
    apply IH; [lia|done|lia].
  - destruct (Z.eqb_spec (vmm_space_range_state mm cand (cand + len)) 0).
    + right. split; [done|]. split; [lia|]. split; [done|]. split; [|done].
      apply (blocker_none 0); [done|lia|done].
    + destruct (step_up cand Hal ltac:(lia)) as [H1 H2]. apply IH; [lia|done|lia].
Qed.

Lemma window_lo_ok : 0 < window_lo /\ page_aligned window_lo.
Proof using All.
  unfold window_lo, MMAP_BASE_OFF. pose proof base_pos. pose proof base_aligned as Hb. split; [lia|].
  unfold page_aligned, PG in *. by rewrite Z.add_mod, Hb.
Qed.

Lemma find_free_ok s mm len hint :
  wf (vmas s) -> 0 < len < 2 ^ 64 -> let va := find_free s mm len hint in va = 0 \/ placed s mm va len.
Proof using All.
  intros Hwf Hlen. unfold find_free. destruct window_lo_ok as [Hw1 Hw2]. pose proof limit_range as Hlim.
  destruct (_ && _) eqn:E.
  2: { apply find_free_loop_ok; done || lia. }
  right. bool_props. unfold usable in *. unfold window_hi in *.
  destruct (_ || _) eqn:E2; [done|]. bool_props. destruct (overlaps _ _ _) eqn:E3; [done|]. bool_props.
  rewrite land_pg in *.
  assert (hint + len < 2 ^ 64) as Hnw.
  { destruct (decide (hint + len < 2 ^ 64)) as [|Hge]; [done|exfalso].
    pose proof (u64_range (hint + len)). unfold u64 in *.
    assert (hint < 2 ^ 63) by lia.
    rewrite <- (Z.mod_add _ (-1)) in * by lia. rewrite Z.mod_small in *; lia. }
  rewrite u64_small in * by lia.
  split; [done|]. split; [lia|]. split; [done|]. split; [|done].
  intros v. by apply (overlaps_in_false 0); [done|lia|].
Qed.

(** Every pass of the search moves the candidate up by at least a page, so
    the fuel is enough: more of it does not change the answer. *)
Lemma find_free_loop_fuel n m s mm len cand :
  wf (vmas s) -> 0 < len < 2 ^ 64 -> page_aligned cand -> 0 <= cand ->
  (Z.to_nat (vmm_user_limit / PG - cand / PG + 1) <= n <= m)%nat ->
  find_free_loop m s mm len cand = find_free_loop n s mm len cand.
Proof using All.
  intros Hwf Hlen. pose proof limit_range as Hlim. revert m cand.
  induction n as [|n IH]; intros m cand Hal Hp Hn.
  { assert (vmm_user_limit / PG < cand / PG) as Hlt by lia.
    assert (vmm_user_limit < cand).
    { destruct (decide (cand <= vmm_user_limit)) as [Hle|]; [|lia].
      pose proof (Z.div_le_mono _ _ PG ltac:(done) Hle). lia. }
    destruct m as [|m]; [done|]. cbn [find_free_loop]. unfold window_hi.
    destruct (_ && _) eqn:E; [|done]. bool_props. lia. }
  destruct m as [|m]; [lia|]. cbn [find_free_loop]. unfold window_hi.
  destruct (_ && _) eqn:E; [|done]. bool_props.
  assert (forall c, page_aligned c -> cand < c -> find_free_loop m s mm len c = find_free_loop n s mm len c) as Hnext.
  { intros c Hc Hlt. apply IH; [done|lia|]. unfold page_aligned in *.
    assert (cand / PG + 1 <= c / PG); [|lia].
    pose proof (Z.div_mod cand PG ltac:(done)). pose proof (Z.div_mod c PG ltac:(done)). unfold PG in *. lia. }
  destruct (blocker _ _ _) as [v|] eqn:Eb.
  - apply blocker_some in Eb as [Hv Hlt]. pose proof (wf_from_ge _ _ _ Hwf Hv) as [_ (_ & _ & Hal' & _)].
    by apply Hnext.
  - destruct (_ =? 0); [done|]. destruct (step_up cand Hal) as [H1 H2]; [lia|]. by apply Hnext.
Qed.
End Place.

(** ** mmap *)

Section Mmap.
Context {M : Type} `{AS : AddrSpace M, !UserLayout M}.

Definition is_fixed (flags : Z) : bool := has flags (Z.lor VMA_MAP_FIXED VMA_MAP_FIXED_NOREPLACE).
(** MAP_FIXED that may replace what is there. *)
Definition replaces (flags : Z) : bool := is_fixed flags && negb (has flags VMA_MAP_FIXED_NOREPLACE).

Lemma mmap_place_ok s mm addr size flags s' mm' r :
  set_ok s -> 0 <= addr -> (is_fixed flags = true -> page_aligned addr) -> page_aligned size -> 0 < size < 2 ^ 64 ->
  mmap_place s mm addr size flags = (s', mm', r) ->
  set_ok s' /\ brk_start s' = brk_start s /\ brk_cur s' = brk_cur s /\
  match r with
  | inr err => err < 0 /\ mm' = mm /\ forall x, attr (vmas s') x = attr (vmas s) x
  | inl va => 0 <= va /\ page_aligned va /\ va + size <= vmm_user_limit /\ clear_of (vmas s') va (va + size) /\
      (is_fixed flags = true -> va = addr) /\
      (replaces flags = false -> s' = s /\ mm' = mm) /\
      (forall x, ~ (va <= x < va + size) -> attr (vmas s') x = attr (vmas s) x)
  end.
Proof using All.
  intros Hok Ha0 Hfix Hsal Hsz. pose proof limit_range as Hlim. unfold mmap_place, replaces.
  fold (is_fixed flags). destruct (is_fixed flags) eqn:Ef.
  2: { destruct (find_free_ok s mm size (Z.land addr (Z.lnot (PG - 1))) (proj1 Hok) Hsz) as [Hz|P];
         cbv zeta in *; set (va := find_free _ _ _ _) in *.
       - rewrite Hz. intros [= <- <- <-]. done.
       - destruct window_lo_ok as [Hw _]. destruct P as (P1 & P2 & P3 & P4 & P5).
         rewrite (proj2 (Z.eqb_neq va 0)) by lia. intros [= <- <- <-].
         split; [done|]. split; [done|]. split; [done|]. split; [lia|]. split; [done|]. split; [lia|].
         split; [done|]. split; [done|]. split; [done|]. done. }
  specialize (Hfix eq_refl). cbv zeta. unfold window_hi.
  destruct ((addr <? vmm_user_min) || _ || _) eqn:Eb.
  { intros [= <- <- <-]. done. }
  bool_props.
  assert (addr + size < 2 ^ 64) as Hnw.
  { destruct (decide (addr + size < 2 ^ 64)) as [|Hge]; [done|exfalso].
    pose proof (u64_range (addr + size)). unfold u64 in *. assert (addr < 2 ^ 63) by lia.
    rewrite <- (Z.mod_add _ (-1)) in * by lia. rewrite Z.mod_small in *; lia. }
  rewrite (u64_small (addr + size)) in * by lia.
  destruct (has _ VMA_RS_KERNEL); [intros [= <- <- <-]; done|].
  destruct (has flags VMA_MAP_FIXED_NOREPLACE) eqn:En; cbn [andb negb].
  { destruct (overlaps s addr (addr + size)) eqn:Eo; cbn [orb]; [intros [= <- <- <-]; done|].
    destruct (negb _); [intros [= <- <- <-]; done|]. intros [= <- <- <-].
    split; [done|]. split; [done|]. split; [done|]. split; [done|]. split; [done|]. split; [lia|].
    split; [|done]. intros v. apply (overlaps_in_false 0); [apply Hok|lia|done]. }
  assert (page_aligned (addr + size)) as Hal.
  { rewrite <- (u64_small (addr + size)) by lia. by apply aligned_add. }
  destruct (split_at s addr) as [s1 r1] eqn:S1, (split_at s1 (addr + size)) as [s2 r2] eqn:S2.
  destruct (split_both _ _ _ _ _ _ _ Hok Hfix Hal S1 S2) as (O1 & O2 & A1 & A2 & B1 & B2 & Hns).
  destruct (split_at_ok _ _ _ _ Hok Hfix S1) as (_ & _ & B3 & B4 & _).
  destruct (Z.eqb_spec r1 0) as [->|]; cbn [negb]; [|intros [= <- <- <-]; done].
  destruct (Z.eqb_spec r2 0) as [->|]; cbn [negb]; [|intros [= <- <- <-]; done].
  destruct (Hns eq_refl eq_refl) as [N1 N2]. destruct (remove_range_ok s2 addr (addr + size) O2 N1 N2) as [O3 A3].
  intros [= <- <- <-]. split; [done|].
  destruct (free_all_rest (filter (fun v => inside addr (addr + size) v = true) (vmas s2))
    (set_vmas (filter (fun v => inside addr (addr + size) v = false) (vmas s2)) s2)) as (F1 & F2 & _).
  split; [unfold remove_range; by rewrite F1|]. split; [unfold remove_range; by rewrite F2|].
  split; [done|]. split; [done|]. split; [lia|]. split; [|split; [done|split; [done|]]].
  - unfold remove_range. rewrite free_all_vmas. intros v [Hi Hv]%list_elem_of_filter.
    specialize (N1 v Hv). specialize (N2 v Hv). apply not_true_iff_false in Hi. rewrite inside_spec in Hi.
    destruct (wf_from_ge _ _ _ (proj1 O2) Hv) as [_ (? & _)]. lia.
  - intros x Hx. rewrite A3, decide_False by done. apply A2.
Qed.

(** A new range inserted where the list is clear. *)
Lemma new_insert_ok s v s1 w :
  set_ok s -> vma_ok v -> 0 <= v_start v -> clear_of (vmas s) (v_start v) (v_end v) ->
  vma_new s v = (s1, Some w) ->
  set_ok (insert s1 w) /\ w = v /\ brk_start s1 = brk_start s /\ brk_cur s1 = brk_cur s /\
  (forall x, attr (vmas (insert s1 w)) x =
     if decide (v_start v <= x < v_end v) then Some (attr_of v x) else attr (vmas s) x).
Proof.
  intros [Hwf Href] Hv Hp Hcl E.
  assert (w = v /\ exists k, s1 = set_frefs (bump (v_file v) 1 (frefs s)) (set_kc k s)) as (-> & k & ->).
  { unfold vma_new in E. destruct (kc s) as [|[] k]; [| |done]; injection E as <- <-; eauto. }
  split; [split|split; [done|split; [done|split; [done|]]]].
  - cbn. apply insert_in_wf; [done..|lia|done].
  - intros f. cbn. rewrite bump_spec, insert_in_holders, holders_one, Href. lia.
  - intros x. cbn. by apply insert_attr.
Qed.

Lemma vma_new_none s v s1 : set_ok s -> vma_new s v = (s1, None) ->
  set_ok s1 /\ vmas s1 = vmas s /\ brk_start s1 = brk_start s /\ brk_cur s1 = brk_cur s.
Proof.
  intros Hok E. unfold vma_new in E. destruct (kc s) as [|[] k]; try done. by injection E as <-.
Qed.

Lemma vma_new_vmas s v s1 w : vma_new s v = (s1, Some w) -> vmas s1 = vmas s.
Proof. unfold vma_new. intros E. destruct (kc s) as [|[] k]; [| |done]; by injection E as <-. Qed.

Definition new_attr (e : menv) (prot off va : Z) (k : vkind) (x : Z) : Z * vkind * option Z * Z :=
  (prot_to_vf prot, k, file_of e k, if decide (k = VMA_FILE) then u64 (off + (x - va)) else 0).

Definition mmap_post (e : menv) (s : vset) (addr len prot flags fd off : Z) (s' : vset) (r : Z) : Prop :=
  let size := page_round len in
  set_ok s' /\ brk_start s' = brk_start s /\ brk_cur s' = brk_cur s /\
  (0 <= r -> exists k, mmap_kind e flags fd off (prot_to_vf prot) = inl k /\
     page_aligned r /\ len <= size /\ r + size <= vmm_user_limit /\ (is_fixed flags = true -> r = addr) /\
     (replaces flags = false -> forall x, r <= x < r + size -> attr (vmas s) x = None) /\
     (forall x, attr (vmas s') x =
        if decide (r <= x < r + size) then Some (new_attr e prot off r k x) else attr (vmas s) x)) /\
  (r < 0 -> forall x, attr (vmas s') x = attr (vmas s) x \/
     (replaces flags = true /\ addr <= x < addr + size /\ attr (vmas s') x = None)).

Lemma mmap_post_err e s addr len prot flags fd off err :
  set_ok s -> err < 0 -> mmap_post e s addr len prot flags fd off s err.
Proof. intros Hok Herr. split; [done|]. split; [done|]. split; [done|]. split; [lia|by left]. Qed.

Lemma mmap_kind_err e flags fd off vf err : mmap_kind e flags fd off vf = inr err -> err < 0.
Proof. unfold mmap_kind. repeat case_match; intros [= <-]; done. Qed.

Lemma mmap_spec e s mm addr len prot flags fd off :
  set_ok s -> 0 <= addr -> 0 <= len < 2 ^ 64 ->
  let '(s', _, r) := vma_mmap e s mm addr len prot flags fd off in
  mmap_post e s addr len prot flags fd off s' r.
Proof using All.
  intros Hok Ha Hlen. unfold vma_mmap. cbv zeta.
  destruct (Z.eqb_spec len 0); [by apply mmap_post_err|].
  pose proof (page_round_aligned len) as Hal. pose proof (page_round_range len) as Hrange.
  set (size := page_round len) in *.
  destruct (Z.ltb_spec size len) as [|Hge]; [by apply mmap_post_err|].
  fold (is_fixed flags). destruct (is_fixed flags && _) eqn:Ef; [by apply mmap_post_err|].
  destruct (mmap_kind e flags fd off (prot_to_vf prot)) as [k|err] eqn:Ek;
    [|apply mmap_post_err; [done|by eapply mmap_kind_err]].
  destruct (bool_decide (k = VMA_EAGER) && _) eqn:Em; [by apply mmap_post_err|].
  assert (is_fixed flags = true -> page_aligned addr) as Hfa.
  { intros Hf. rewrite Hf in Ef. cbn [andb] in Ef. bool_props. by rewrite land_pg in Ef. }
  destruct (mmap_place s mm addr size flags) as [[s1 mm1] pl] eqn:Ep.
  destruct (mmap_place_ok _ _ _ _ _ _ _ _ Hok Ha Hfa Hal ltac:(lia) Ep) as (O1 & B1 & C1 & Hpl).
  destruct pl as [va|err].
  2: { destruct Hpl as (He & _ & A1). split; [done|]. split; [done|]. split; [done|]. split; [lia|]. by left. }
  destruct Hpl as (P0 & P1 & P2 & P3 & P4 & P5 & P6).
  assert (forall s2, vmas s2 = vmas s1 -> set_ok s2 -> brk_start s2 = brk_start s1 -> brk_cur s2 = brk_cur s1 ->
    mmap_post e s addr len prot flags fd off s2 (- E_NOMEM)) as Hnomem.
  { intros s2 Ev Ho2 Eb Ec. split; [done|]. split; [congruence|]. split; [congruence|].
    split; [unfold E_NOMEM; lia|]. intros _ x. rewrite Ev. destruct (replaces flags) eqn:Er.
    - destruct (decide (va <= x < va + size)) as [Hx|Hx]; [right|left; by apply P6].
      rewrite <- P4 by (unfold replaces in Er; by apply andb_true_iff in Er as [? _]).
      split; [done|]. split; [done|]. eapply clear_attr; [apply O1|done|done].
    - left. by destruct (P5 eq_refl) as [-> _]. }
  set (v := V va (va + size) (prot_to_vf prot) k (file_of e k) off).
  destruct (vma_new s1 v) as [s2 [w|]] eqn:En.
  2: { destruct (vma_new_none _ _ _ O1 En) as (? & ? & ? & ?). by apply Hnomem. }
  assert (page_aligned (va + size)) as Hvs.
  { unfold page_aligned in *. by rewrite Z.add_mod, P1, Hal. }
  assert (vma_ok v) as Hv.
  { split; [cbn; lia|]. split; [done|]. split; [done|]. cbn. intros ->. done. }
  destruct (new_insert_ok _ _ _ _ O1 Hv P0 P3 En) as (O2 & -> & B2 & C2 & A2). cbn [v v_start v_end] in A2.
  destruct (if bool_decide (k = VMA_EAGER) then _ else _) as [[mm2 fr] rc].
  destruct (Z.eqb_spec rc 0) as [->|Hrc]; cbn [negb].
  - destruct (merge_ok _ O2) as [O3 A3].
    assert (brk_start (merge (insert s2 v)) = brk_start s /\ brk_cur (merge (insert s2 v)) = brk_cur s) as [B3 C3].
    { unfold merge. destruct (vmas (insert s2 v)) as [|v0 l0]; [cbn; split; congruence|].
      destruct (merge_from v0 l0) as [k0 g0]. destruct (free_all_rest g0 (set_vmas k0 (insert s2 v))) as (-> & -> & _).
      cbn. split; congruence. }
    split; [done|]. split; [done|]. split; [done|]. split; [|lia]. intros _. exists k.
    split; [done|]. split; [done|]. split; [done|]. split; [done|]. split; [done|]. split.
    + intros Hr x Hx. destruct (P5 Hr) as [<- _]. eapply clear_attr; [apply O1|done|done].
    + intros x. rewrite A3, A2. fold size. destruct (decide (va <= x < va + size)); [done|by apply P6].
  - assert (no_straddle (vmas (insert s2 v)) va /\ no_straddle (vmas (insert s2 v)) (va + size)) as [N1 N2].
    { assert (vmas s2 = vmas s1) as Ev.
      { by eapply vma_new_vmas. }
      split; intros w; cbn; rewrite Ev, insert_in_elem; intros [->|Hw]; cbn; try lia;
        destruct (P3 w Hw); lia. }
    destruct (remove_range_ok _ _ _ O2 N1 N2) as [O3 A3].
    destruct (free_all_rest (filter (fun w => inside va (va + size) w = true) (vmas (insert s2 v)))
      (set_vmas (filter (fun w => inside va (va + size) w = false) (vmas (insert s2 v))) (insert s2 v))) as (F1 & F2 & _).
    split; [done|]. split; [unfold remove_range; rewrite F1; cbn; congruence|].
    split; [unfold remove_range; rewrite F2; cbn; congruence|]. split; [unfold E_NOMEM; lia|].
    intros _ x. rewrite A3. destruct (decide (va <= x < va + size)) as [Hx|Hx].
    + destruct (replaces flags) eqn:Er.
      * right. assert (va = addr) as <- by (apply P4; unfold replaces in Er; by apply andb_true_iff in Er as [? _]).
        split; [done|]. split; [exact Hx|done].
      * left. destruct (P5 eq_refl) as [<- _]. symmetry. eapply clear_attr; [apply O1|done|done].
    + left. rewrite A2, decide_False by done. by apply P6.
Qed.
End Mmap.

Section Theorems.
Context {M : Type} `{AS : AddrSpace M, !UserLayout M}.


(** The search for a free range terminates within its fuel (more fuel
    gives the same answer), and what it answers is either 0 or a page-aligned
    range inside the allocation window that meets no reservation and no mapping
    the list does not know about. *)
Theorem find_free_correct s mm len hint m :
  wf (vmas s) -> 0 < len < 2 ^ 64 -> (find_free_fuel <= m)%nat ->
  find_free_loop m s mm len window_lo = find_free_loop find_free_fuel s mm len window_lo /\
  let va := find_free s mm len hint in va = 0 \/ placed s mm va len.
Proof using All.
  intros Hwf Hlen Hm. split; [|by apply find_free_ok]. destruct window_lo_ok as [H1 H2].
  apply find_free_loop_fuel; [done|done|done|lia|]. split; [|done]. unfold find_free_fuel, window_hi.
  assert (0 <= window_lo / PG) by (apply Z.div_pos; [lia|done]).
  assert (0 <= vmm_user_limit / PG) by (apply Z.div_pos; [apply limit_range|done]). lia.
Qed.

(** ** Faults *)

Lemma cow_flags vf :
  let fl := Z.lor (Z.land vf (Z.lnot VMM_WRITABLE)) VMM_COW in has fl VMM_WRITABLE = false /\ has fl VMM_COW = true.
Proof.
  unfold has, VMM_WRITABLE, VMM_COW. cbn zeta. rewrite !Z.land_lor_distr_l, <- !Z.land_assoc.
  change (Z.land (Z.lnot 2) 2) with 0. change (Z.land 2048 2) with 0. change (Z.land (Z.lnot 2) 2048) with 2048.
  rewrite Z.land_0_r. split; [done|]. apply negb_true_iff, Z.eqb_neq. intros E.
  assert (Z.testbit (Z.lor (Z.land vf 2048) (Z.land 2048 2048)) 11 = false) as Hb by (by rewrite E).
  rewrite Z.lor_spec in Hb. by rewrite orb_true_r in Hb.
Qed.

(** A page fault never gives a program more than its reservation: the page
    tables change only when a non-eager reservation covers the page, is
    readable, and is writable if the access is a write; an anonymous page gets
    the reservation's protection, a file page is mapped copy-on-write and never
    writable.  A refused fault changes nothing, and the frame it allocated, if
    any, is given back. *)
Theorem fault_locked_safe e s mm page w :
  let '(s', mm', freed, r) := fault_locked e s mm page w in
  vmas s' = vmas s /\
  ((mm' = mm /\ s' = s /\
    (freed = [] \/ (r = 0 /\ exists fr fl, freed = [fr] /\ vmm_space_map mm page fr fl = None))) \/
   (r = 1 /\ freed = [] /\ vmm_space_probe mm page = 0 /\
    exists v fr fl, find s page = Some v /\ v_kind v <> VMA_EAGER /\ has (v_vf v) VMM_USER = true /\
      (w = true -> has (v_vf v) VMM_WRITABLE = true) /\ vmm_space_map mm page fr fl = Some mm' /\
      (v_kind v = VMA_ANON -> fr = f_frame e /\ fr <> 0 /\ fl = v_vf v) /\
      (v_kind v = VMA_FILE -> has fl VMM_WRITABLE = false /\ has fl VMM_COW = true))).
Proof.
  unfold fault_locked. destruct (find s page) as [v|] eqn:Ef; [|by split; [|left; eauto]].
  destruct (bool_decide _ || _) eqn:E1; [by split; [|left; eauto]|]. bool_props.
  destruct (w && _) eqn:E2; [by split; [|left; eauto]|].
  assert (w = true -> has (v_vf v) VMM_WRITABLE = true) as Hw.
  { intros ->. cbn in E2. by bool_props. }
  destruct (Z.eqb_spec (vmm_space_probe mm page) 1); [by split; [|left; eauto]|].
  destruct (Z.eqb_spec (vmm_space_probe mm page) 0); cbn [negb]; [|by split; [|left; eauto]].
  destruct (v_kind v) eqn:Ek; [| |done].
  - destruct (Z.eqb_spec (f_frame e) 0); [by split; [|left; eauto]|].
    destruct (vmm_space_map mm page (f_frame e) (v_vf v)) as [mm'|] eqn:Em.
    + split; [done|right]. do 3 (split; [done|]). exists v, (f_frame e), (v_vf v).
      rewrite Ek. naive_solver.
    + split; [done|left]. do 2 (split; [done|]). right. split; [done|]. eauto.
  - destruct (f_pcache e _ _) as [fr|]; [|by split; [|left; eauto]].
    destruct (vmm_space_map mm page fr _) as [mm'|] eqn:Em.
    + split; [done|right]. do 3 (split; [done|]). exists v, fr. eexists. rewrite Ek.
      split; [done|]. split; [done|]. split; [done|]. split; [done|]. split; [exact Em|].
      split; [done|]. intros _. apply cow_flags.
    + split; [done|left]. do 2 (split; [done|]). destruct (f_unshare e fr); [right; split; [done|]; eauto|by left].
Qed.

(** ** Fork *)

Lemma clone_in_ok l cs :
  exists l1 l2, l = l1 ++ l2 /\ vmas (clone_in l cs) = vmas cs ++ l1 /\ (kc cs = [] -> l2 = []) /\
    (forall f, frefs (clone_in l cs) f = frefs cs f + holders f l1) /\
    brk_start (clone_in l cs) = brk_start cs /\ brk_cur (clone_in l cs) = brk_cur cs.
Proof.
  revert cs. induction l as [|v l IH]; intros cs; cbn [clone_in].
  { exists [], []. rewrite !app_nil_r. do 3 (split; [done|]). split; [|done]. intros f. unfold holders. cbn. lia. }
  destruct (vma_new cs v) as [cs1 [c|]] eqn:En.
  - assert (c = v /\ vmas cs1 = vmas cs /\ (kc cs = [] -> kc cs1 = []) /\ brk_start cs1 = brk_start cs /\
            brk_cur cs1 = brk_cur cs /\ forall f, frefs cs1 f = frefs cs f + holders f [v]) as (-> & E1 & E2 & E3 & E4 & E5).
    { unfold vma_new in En. destruct (kc cs) as [|[] k]; [| |done]; injection En as <- <-;
        do 5 (split; [done|]); intros f; cbn; by rewrite bump_spec, holders_one. }
    destruct (IH (set_vmas (vmas cs1 ++ [v]) cs1)) as (l1 & l2 & -> & H1 & H2 & H3 & H4 & H5).
    set (cs2 := set_vmas (vmas cs1 ++ [v]) cs1) in *.
    assert (vmas cs2 = vmas cs1 ++ [v] /\ kc cs2 = kc cs1 /\ frefs cs2 = frefs cs1 /\
            brk_start cs2 = brk_start cs1 /\ brk_cur cs2 = brk_cur cs1) as (F1 & F2 & F3 & F4 & F5) by done.
    exists (v :: l1), l2. rewrite H1, F1, E1, <- app_assoc. rewrite F2 in H2. rewrite F3 in H3.
    split; [done|]. split; [done|]. split; [by intros ?%E2%H2|].
    split; [|split; congruence]. intros f. rewrite (holders_cons f v l1). specialize (H3 f). specialize (E5 f). lia.
  - exists [], (v :: l). rewrite app_nil_r. unfold vma_new in En.
    destruct (kc cs) as [|[] k]; [done|done|]. injection En as <-.
    do 3 (split; [done|]). split; [|done]. intros f. unfold holders. cbn. lia.
Qed.

(** Fork gives the child the parent's reservations, protection, backing and
    program break; each file range of the child holds a reference of its own;
    an allocation failure leaves a prefix of the list, never anything else. *)
Theorem vma_clone_correct ps cs :
  set_ok ps -> vmas cs = [] -> refs_ok cs ->
  let c := vma_clone ps cs in
  (exists l2, vmas ps = vmas c ++ l2 /\ (kc cs = [] -> l2 = [])) /\
  set_ok c /\ brk_start c = brk_start ps /\ brk_cur c = brk_cur ps /\
  (kc cs = [] -> forall x, attr (vmas c) x = attr (vmas ps) x).
Proof.
  intros [Hwf Href] Hnil Hcs c. unfold c, vma_clone.
  destruct (clone_in_ok (vmas ps) (set_brk (brk_start ps) (brk_cur ps) cs)) as (l1 & l2 & E & H1 & H2 & H3 & H4 & H5).
  cbn in H1, H2, H3, H4, H5. rewrite Hnil in H1. cbn [app] in H1. rewrite H1.
  split; [by exists l2|]. split; [split|split; [done|split; [done|]]].
  - rewrite H1. rewrite E in Hwf. by apply (wf_from_app 0 l1 l2) in Hwf as [? _].
  - intros f. rewrite H1, H3, Hcs, Hnil. unfold holders at 1. cbn. lia.
  - intros Hk x. rewrite E, (H2 Hk), app_nil_r. done.
Qed.
End Theorems.

(** ** The pages behind an unmapped range *)

(** What vma.h documents of the page tables: removing a user page or an evicted
    entry leaves nothing, and the operations on one page leave the others. *)
Class SpaceLaws (M : Type) `{AS : AddrSpace M} : Prop := {
  unmap_present : forall mm va, vmm_space_probe mm va = 1 ->
    vmm_space_probe (vmm_space_unmap (vmm_space_protect mm va VMM_USER) va) va = 0;
  unmap_evicted : forall mm va, vmm_space_probe mm va = 2 -> vmm_space_probe (vmm_space_unmap mm va) va = 0;
  unmap_other : forall mm va va', va' <> va -> vmm_space_probe (vmm_space_unmap mm va) va' = vmm_space_probe mm va';
  protect_other : forall mm va va' fl, va' <> va -> vmm_space_probe (vmm_space_protect mm va fl) va' = vmm_space_probe mm va';
  probe_values : forall mm va, vmm_space_probe mm va = 0 \/ vmm_space_probe mm va = 1 \/ vmm_space_probe mm va = 2
}.

Section Unmap.
Context {M : Type} `{AS : AddrSpace M, !SpaceLaws M}.

Lemma unmap_page_self (mm : M) va : vmm_space_probe (unmap_page mm va) va = 0.
Proof using All.
  unfold unmap_page. destruct (probe_values mm va) as [E|[E|E]]; rewrite E; cbn.
  - done.
  - by apply unmap_present.
  - by apply unmap_evicted.
Qed.
Lemma unmap_page_other (mm : M) va va' :
  va' <> va -> vmm_space_probe (unmap_page mm va) va' = vmm_space_probe mm va'.
Proof using All.
  intros H. unfold unmap_page. repeat case_match; rewrite ?unmap_other, ?protect_other by done; done.
Qed.

Lemma each_page_probe n (mm : M) a va :
  page_aligned a -> page_aligned va ->
  vmm_space_probe (each_page n mm a unmap_page) va =
  if decide (a <= va < a + Z.of_nat n * PG) then 0 else vmm_space_probe mm va.
Proof using All.
  revert mm a. induction n as [|n IH]; intros mm a Ha Hv; cbn [each_page].
  { rewrite decide_False by lia. done. }
  assert (page_aligned (a + PG)) as Ha' by (unfold page_aligned, PG in *; by rewrite Z.add_mod, Ha).
  assert (a < va -> a + PG <= va) as Hgap.
  { unfold page_aligned, PG in *. apply Z.mod_divide in Ha as [i ->]; [|done].
    apply Z.mod_divide in Hv as [j ->]; [|done]. lia. }
  rewrite IH by done. unfold PG in *. destruct (decide (va = a)) as [->|Hne].
  - rewrite unmap_page_self, (decide_True (P := a <= a < _)) by lia. by case_decide.
  - rewrite unmap_page_other by done. repeat case_decide; done || lia.
Qed.

(** After [unmap_pages] over a page-aligned range no page of it is left, in
    memory or in swap, and every page outside it is as it was. *)
Theorem unmap_pages_correct (mm : M) a b va :
  page_aligned a -> page_aligned b -> page_aligned va -> a <= b ->
  vmm_space_probe (unmap_pages mm a b) va = if decide (a <= va < b) then 0 else vmm_space_probe mm va.
Proof using All.
  intros Ha Hb Hv Hab. unfold unmap_pages. rewrite each_page_probe by done.
  assert (a + Z.of_nat (pages a b) * PG = b) as ->; [|done]. unfold page_aligned, pages, PG in *.
  apply Z.mod_divide in Ha as [i ->]; [|done]. apply Z.mod_divide in Hb as [j ->]; [|done].
  replace (j * 4096 - i * 4096 + 4096 - 1) with (4095 + (j - i) * 4096) by lia.
  rewrite Z.div_add by lia. change (4095 / 4096) with 0. lia.
Qed.
End Unmap.
End VmaSpec.
