(* ===== verification/VmaBrk.v ===== *)
(** * The program break (kernel/mem/vma.c, [vma_brk]) and a concrete address space

    brk(2) on top of mmap and munmap; what it does when the request wraps
    around; and a small address space on which the theorems of [VmaSpec] are
    instantiated. *)

From stdpp Require Import base list sets.
From Stdlib Require Import ZArith Lia Bool.
From S2P Require Import Prelude Vma VmaSpec.
Import Vma VmaSpec.
Open Scope Z_scope.

Module VmaBrk.

Section Brk.
Context {M : Type} `{AS : AddrSpace M, !UserLayout M}.

Lemma page_round_small x : 0 <= x <= 2 ^ 64 - 4096 -> x <= page_round x < x + 4096.
Proof.
  intros H. unfold page_round. rewrite page_down. unfold PG. rewrite u64_small by lia.
  pose proof (Z.mod_pos_bound (x + 4096 - 1) 4096). lia.
Qed.

Lemma page_round_wrap x : 2 ^ 64 - 4096 < x < 2 ^ 64 -> page_round x = 0.
Proof.
  intros H. unfold page_round. rewrite page_down. unfold PG, u64.
  assert ((x + 4096 - 1) mod 18446744073709551616 = x + 4096 - 1 - 18446744073709551616) as ->.
  { rewrite <- (Z.mod_add _ (-1)) by lia. rewrite Z.mod_small; lia. }
  rewrite Z.mod_small by lia. lia.
Qed.

Lemma page_round_diff x y : page_round x < page_round y ->
  page_round (page_round y - page_round x) = page_round y - page_round x.
Proof.
  intros H. pose proof (page_round_range x). pose proof (page_round_range y).
  pose proof (page_round_aligned x) as A1. pose proof (page_round_aligned y) as A2.
  unfold page_aligned, PG in *. apply Z.mod_divide in A1 as [i A1]; [|done].
  apply Z.mod_divide in A2 as [j A2]; [|done]. unfold page_round at 1. rewrite page_down. unfold PG.
  rewrite u64_small by lia.
  replace (page_round y - page_round x + 4096 - 1) with (4095 + (j - i) * 4096) by lia.
  rewrite Z.mod_add by lia. change (4095 mod 4096) with 4095. lia.
Qed.

(** The heap page the break grew over. *)
Definition heap_attr (e : menv) : Z * vkind * option Z * Z :=
  (prot_to_vf (Z.lor VMA_PROT_READ VMA_PROT_WRITE), VMA_ANON, None, 0).

(** Brk, for a request that does not wrap.  The answer is the break after
    the call; it is the requested one or, with nothing changed, the old one.
    Growing gives exactly the new pages, which were free, anonymous read/write
    memory; shrinking never touches anything but the pages no longer covered. *)
Theorem vma_brk_correct e s mm addr :
  set_ok s -> brk_start s <> 0 -> 0 <= brk_start s <= brk_cur s -> brk_cur s <= 2 ^ 64 - 4096 ->
  0 <= addr <= 2 ^ 64 - 4096 ->
  let oldp := page_round (brk_cur s) in
  let newp := page_round addr in
  let '(s', _, r) := vma_brk e s mm addr in
  set_ok s' /\ r = brk_cur s' /\ brk_start s' = brk_start s /\
  (r <> addr -> r = brk_cur s /\ forall x, attr (vmas s') x = attr (vmas s) x) /\
  (r = addr -> oldp < newp -> forall x,
     attr (vmas s') x = if decide (oldp <= x < newp) then Some (heap_attr e) else attr (vmas s) x) /\
  (forall x, ~ (newp <= x < oldp) -> ~ (oldp <= x < newp) -> attr (vmas s') x = attr (vmas s) x).
Proof using All.
  intros Hok Hne Hbrk Hcur Haddr oldp newp. unfold vma_brk. cbv zeta. fold oldp newp.
  rewrite (proj2 (Z.eqb_neq (brk_start s) 0)) by done.
  pose proof (page_round_small (brk_cur s) ltac:(lia)) as Ho. pose proof (page_round_small addr ltac:(lia)) as Hn.
  pose proof (page_round_range (brk_cur s)) as Ro. pose proof (page_round_range addr) as Rn.
  fold oldp newp in Ho, Hn, Ro, Rn.
  destruct (Z.ltb_spec addr (brk_start s)).
  { split; [done|]. split; [done|]. split; [done|]. split; [done|]. split; [lia|done]. }
  destruct (Z.ltb_spec oldp newp) as [Hgrow|Hle].
  - set (flags := Z.lor VMA_MAP_PRIVATE _).
    pose proof (mmap_spec e s mm oldp (newp - oldp) (Z.lor VMA_PROT_READ VMA_PROT_WRITE) flags (-1) 0 Hok
      ltac:(lia) ltac:(lia)) as P.
    destruct (vma_mmap _ _ _ _ _ _ _ _) as [[s1 mm1] r]. destruct P as (O1 & B1 & C1 & Hsucc & Hfail).
    assert (page_round (newp - oldp) = newp - oldp) as Esz by (by apply page_round_diff).
    destruct (Z.eqb_spec r oldp) as [->|Hr]; cbn [negb].
    + destruct (Hsucc ltac:(lia)) as (k & Hk & _ & _ & _ & _ & _ & Hattr). rewrite Esz in Hattr.
      assert (k = VMA_ANON) as -> by (cbv in Hk; congruence).
      assert (forall x, attr (vmas s1) x = if decide (oldp <= x < newp) then Some (heap_attr e) else attr (vmas s) x) as Hx.
      { intros x. rewrite Hattr. replace (oldp + (newp - oldp)) with newp by lia. case_decide; done. }
      split; [done|]. split; [done|]. split; [done|]. split; [done|]. split; [done|].
      intros x _ Hout. cbn [vmas set_brk]. by rewrite Hx, decide_False by done.
    + assert (r < 0) as Hneg.
      { destruct (decide (r < 0)); [done|]. destruct (Hsucc ltac:(lia)) as (k & _ & _ & _ & _ & Hfx & _).
        specialize (Hfx eq_refl). done. }
      assert (forall x, attr (vmas s1) x = attr (vmas s) x) as Hx.
      { intros x. destruct (Hfail Hneg x) as [|(Hrep & _)]; [done|]. cbv in Hrep. done. }
      split; [done|]. split; [done|]. split; [done|]. split; [done|].
      split; [|done]. intros Hc. unfold oldp, newp in Hgrow. rewrite Hc in Hgrow. lia.
  - destruct (Z.ltb_spec newp oldp) as [Hshrink|Heq].
    + pose proof (munmap_spec s mm newp (oldp - newp) Hok) as P. cbv zeta in P.
      assert (forall s1 mm1 r, vma_munmap s mm newp (oldp - newp) = (s1, mm1, r) -> brk_start s1 = brk_start s) as Hb.
      { intros s1 mm1 r. unfold vma_munmap. cbv zeta.
        destruct (negb _ || _) eqn:E1; [by intros [= <- <- <-]|].
        destruct (_ || _ || _) eqn:E2; [by intros [= <- <- <-]|].
        destruct (has _ VMA_RS_KERNEL); [by intros [= <- <- <-]|]. bool_props. rewrite land_pg in *.
        set (end_ := u64 _).
        assert (page_aligned end_) as Hal by (apply aligned_add; [done|apply page_round_aligned]).
        destruct (split_at s newp) as [s2 r2] eqn:S1, (split_at s2 end_) as [s3 r3] eqn:S2.
        destruct (split_at_ok _ _ _ _ Hok (page_round_aligned addr) S1) as (O1 & _ & B1 & _).
        destruct (split_at_ok _ _ _ _ O1 Hal S2) as (_ & _ & B2 & _).
        destruct (negb (r2 =? 0)); [intros [= <- <- <-]; congruence|].
        destruct (negb (r3 =? 0)); intros [= <- <- <-]; [congruence|].
        unfold remove_range. destruct (free_all_rest (filter (fun v => inside newp end_ v = true) (vmas s3))
          (set_vmas (filter (fun v => inside newp end_ v = false) (vmas s3)) s3)) as (-> & _). cbn. congruence. }
      destruct (vma_munmap s mm newp (oldp - newp)) as [[s1 mm1] r]. destruct P as (O1 & Hs & Hf).
      specialize (Hb _ _ _ eq_refl).
      split; [done|]. split; [done|]. split; [done|]. split; [done|]. split; [lia|].
      intros x Hx _. cbn [vmas set_brk]. destruct (decide (r = 0)) as [Hr|Hr]; [|by apply Hf].
      destruct (Hs Hr) as (_ & _ & _ & Ha). rewrite Ha. apply decide_False.
      assert (u64 (newp + page_round (oldp - newp)) = oldp) as ->; [|lia].
      assert (page_round (oldp - newp) = oldp - newp) as -> by (by apply page_round_diff).
      rewrite u64_small; lia.
    + split; [done|]. split; [done|]. split; [done|]. split; [done|]. split; [lia|done].
Qed.

(** A request in the last page of the address space wraps to 0 when
    rounded up.  It is taken for a shrink, the unmap that follows is refused and
    its result ignored, and the call reports success and moves the break to the
    requested address although no page of the heap exists there. *)
Theorem vma_brk_wraps e s mm addr :
  0 < vmm_user_min -> 0 < brk_start s <= addr -> 0 < brk_cur s <= 2 ^ 64 - 4096 ->
  2 ^ 64 - 4096 < addr < 2 ^ 64 ->
  vma_brk e s mm addr = (set_brk (brk_start s) addr s, mm, addr).
Proof using All.
  intros Hmin Hstart Hcur Haddr. unfold vma_brk. rewrite (proj2 (Z.eqb_neq (brk_start s) 0)) by lia.
  rewrite (proj2 (Z.ltb_ge addr (brk_start s))) by lia. cbv zeta. rewrite (page_round_wrap addr) by done.
  pose proof (page_round_small (brk_cur s) ltac:(lia)). pose proof (page_round_range (brk_cur s)).
  rewrite (proj2 (Z.ltb_ge (page_round (brk_cur s)) 0)), (proj2 (Z.ltb_lt 0 (page_round (brk_cur s)))) by lia.
  assert (vma_munmap s mm 0 (page_round (brk_cur s) - 0) = (s, mm, - E_INVAL)) as ->; [|done].
  unfold vma_munmap. change (Z.land 0 (PG - 1)) with 0. cbn [Z.eqb negb orb].
  rewrite (proj2 (Z.eqb_neq (page_round (brk_cur s) - 0) 0)) by lia. cbv zeta.
  set (end_ := u64 _). rewrite (proj2 (Z.ltb_lt 0 vmm_user_min)) by done.
  destruct (end_ <? 0); done.
Qed.
End Brk.

(** ** A concrete address space *)

(** Page tables that only remember which pages are present. *)
#[export] Instance toy_space : AddrSpace (Z -> Z) := {
  vmm_space_probe mm va := if (mm va =? 1) then 1 else if mm va =? 2 then 2 else 0;
  vmm_space_map mm va fr fl := Some (mm⟦va ↦ 1⟧);
  vmm_space_unmap mm va := mm⟦va ↦ 0⟧;
  vmm_space_protect mm va fl := mm;
  vmm_space_range_state mm a b := 0;
  vmm_user_base := 0x40000000; vmm_user_min := 0x40000000; vmm_user_limit := 0x8000000000
}.
#[export] Instance toy_layout : UserLayout (Z -> Z).
Proof. by split. Qed.
#[export] Instance toy_laws : SpaceLaws (Z -> Z).
Proof.
  split; cbn.
  - intros. by rewrite upd_same.
  - intros. by rewrite upd_same.
  - intros. by rewrite upd_other.
  - done.
  - intros. repeat case_match; auto.
Qed.

(** Four anonymous read/write pages and a read-only file range above them. *)
Definition demo_vmas : list vma :=
  [ V 0x50000000 0x50004000 6 VMA_ANON None 0; V 0x60000000 0x60002000 4 VMA_FILE (Some 7) 0x1000 ].
Definition demo : vset :=
  VSet demo_vmas 0 0x44000000 0x44000000 (fun f => if f =? 7 then 1 else 0) [].
Definition mm0 : Z -> Z := fun _ => 0.

Lemma demo_ok : set_ok demo.
Proof.
  split; [by vm_compute; repeat split|]. intros f. change (vmas demo) with demo_vmas. unfold demo_vmas.
  rewrite holders_cons, !holders_one. cbn [v_file demo frefs].
  destruct (Z.eqb_spec f 7) as [->|Hne]; [done|].
  rewrite !decide_False by congruence. done.
Qed.

Lemma vma_munmap_correct_witness :
  let '(s', _, r) := vma_munmap demo mm0 0x50001000 0x2000 in
  set_ok s' /\ attr (vmas s') 0x50001abc = None /\ attr (vmas s') 0x50003abc = Some (6, VMA_ANON, None, 0).
Proof.
  pose proof (vma_munmap_correct demo mm0 0x50001000 0x2000 demo_ok) as H. cbv zeta in H.
  destruct (vma_munmap demo mm0 0x50001000 0x2000) as [[s' mm'] r] eqn:E. destruct H as (H1 & H2 & _).
  assert (r = 0) as Hr by (vm_compute in E; congruence). destruct (H2 Hr) as [_ H3].
  split; [exact H1|]. split; rewrite H3; vm_compute; reflexivity.
Defined.

Lemma vma_mprotect_correct_witness :
  let '(s', _, r) := vma_mprotect demo mm0 0x50001000 0x1000 0 in
  set_ok s' /\ attr (vmas s') 0x50001abc = Some (0, VMA_ANON, None, 0).
Proof.
  pose proof (vma_mprotect_correct demo mm0 0x50001000 0x1000 0 demo_ok) as H. cbv zeta in H.
  destruct (vma_mprotect demo mm0 0x50001000 0x1000 0) as [[s' mm'] r] eqn:E. destruct H as (H1 & H2 & _).
  assert (r = 0) as Hr by (vm_compute in E; congruence). specialize (H2 Hr).
  split; [exact H1|]. rewrite H2. vm_compute. reflexivity.
Defined.

Definition noenv : menv := MEnv NoFile true [] true.


Lemma find_free_correct_witness :
  placed demo mm0 (find_free demo mm0 0x3000 0x50008000) 0x3000.
Proof.
  destruct (find_free_correct demo mm0 0x3000 0x50008000 find_free_fuel (proj1 demo_ok) ltac:(lia) ltac:(reflexivity))
    as [_ [Hz|Hp]]; [|exact Hp].
  exfalso. vm_compute in Hz. discriminate Hz.
Defined.

Lemma vma_clone_correct_witness :
  let c := vma_clone demo (VSet [] 0 0 0 (fun _ => 0) []) in
  set_ok c /\ attr (vmas c) 0x60001000 = Some (4, VMA_FILE, Some 7, 0x2000) /\ brk_cur c = 0x44000000.
Proof.
  destruct (vma_clone_correct demo (VSet [] 0 0 0 (fun _ => 0) []) demo_ok eq_refl ltac:(intros f; reflexivity))
    as (_ & H1 & _ & H2 & H3).
  split; [exact H1|]. split; [|exact H2]. rewrite H3; vm_compute; reflexivity.
Defined.

Lemma unmap_pages_correct_witness :
  vmm_space_probe (unmap_pages (fun _ => 1) 0x1000 0x3000) 0x2000 = 0 /\
  vmm_space_probe (unmap_pages (fun _ => 1) 0x1000 0x3000) 0x3000 = 1.
Proof.
  split.
  - rewrite (unmap_pages_correct (fun _ : Z => 1) 0x1000 0x3000 0x2000); [reflexivity|reflexivity..|lia].
  - rewrite (unmap_pages_correct (fun _ : Z => 1) 0x1000 0x3000 0x3000); [reflexivity|reflexivity..|lia].
Defined.

Lemma vma_brk_correct_witness :
  let '(s', _, r) := vma_brk noenv demo mm0 0x44001800 in
  set_ok s' /\ r = 0x44001800 /\ attr (vmas s') 0x44001fff = Some (heap_attr noenv).
Proof.
  pose proof (vma_brk_correct noenv demo mm0 0x44001800 demo_ok ltac:(discriminate) ltac:(cbn; lia) ltac:(cbn; lia)
    ltac:(lia)) as H. cbv zeta in H.
  destruct (vma_brk noenv demo mm0 0x44001800) as [[s' mm'] r] eqn:E. destruct H as (H1 & _ & _ & _ & H2 & _).
  assert (r = 0x44001800) as Hr by (vm_compute in E; congruence).
  split; [exact H1|]. split; [exact Hr|]. rewrite H2; [vm_compute; reflexivity|exact Hr|vm_compute; reflexivity].
Defined.

Lemma vma_brk_wraps_witness :
  vma_brk noenv demo mm0 (2 ^ 64 - 1) = (set_brk 0x44000000 (2 ^ 64 - 1) demo, mm0, 2 ^ 64 - 1).
Proof. apply (vma_brk_wraps noenv demo mm0 (2 ^ 64 - 1)); cbn; lia. Defined.
End VmaBrk.
