(* ===== verification/Ring.v ===== *)
(** * A ring of bytes

    The buffer with a read cursor that fifo.c and usock.c each write out: byte
    [i] of the data is at [(head + i) % cap].  The copy loops, and the two facts
    a queue needs: what is appended reads back, and appending does not touch
    what is there. *)

From stdpp Require Import base list.
From Stdlib Require Import ZArith Lia.
From S2P Require Import Prelude.
Open Scope Z_scope.

Section Ring.
Context (cap : Z).

(** [for (i = 0; i < k; i++) out[i] = buf[(at + i) % cap]] *)
Fixpoint ring_get (b : Z -> Z) (at_ : Z) (k : nat) : list Z :=
  match k with
  | O => []
  | S k' => b (at_ mod cap) :: ring_get b (at_ + 1) k'
  end.

(** [for (i = 0; i < n; i++) buf[(tail + i) % cap] = data[i]] *)
Fixpoint ring_put (b : Z -> Z) (tail : Z) (data : list Z) : Z -> Z :=
  match data with
  | [] => b
  | x :: data' => ring_put (b⟦tail mod cap ↦ x⟧) (tail + 1) data'
  end.

(** Positions [a, a + n) and [t, t + m) of the ring do not meet. *)
Definition apart (a n t m : Z) : Prop :=
  forall i j, 0 <= i < n -> 0 <= j < m -> (a + i) mod cap <> (t + j) mod cap.

Lemma ring_get_length b a k : length (ring_get b a k) = k.
Proof. revert a. induction k as [|k IH]; intros a; cbn; [done|]. by rewrite IH. Qed.

Lemma ring_get_app b a k j : ring_get b a (k + j) = ring_get b a k ++ ring_get b (a + Z.of_nat k) j.
Proof.
  revert a. induction k as [|k IH]; intros a; cbn [ring_get plus app].
  - f_equal. lia.
  - rewrite IH. do 3 f_equal. lia.
Qed.

Lemma ring_get_take b a k j : (j <= k)%nat -> take j (ring_get b a k) = ring_get b a j.
Proof.
  intros. replace k with (j + (k - j))%nat by lia. rewrite ring_get_app.
  by rewrite take_app_length' by (by rewrite ring_get_length).
Qed.

Lemma ring_get_drop b a k j : (j <= k)%nat -> drop j (ring_get b a k) = ring_get b (a + Z.of_nat j) (k - j).
Proof.
  intros. replace k with (j + (k - j))%nat at 1 by lia. rewrite ring_get_app.
  by rewrite drop_app_length' by (by rewrite ring_get_length).
Qed.

Lemma ring_put_app b t d1 d2 : ring_put b t (d1 ++ d2) = ring_put (ring_put b t d1) (t + Z.of_nat (length d1)) d2.
Proof.
  revert b t. induction d1 as [|x d1 IH]; intros b t; cbn [app ring_put length].
  - f_equal. lia.
  - rewrite IH. f_equal. lia.
Qed.

Lemma ring_put_get b t data a n :
  apart a (Z.of_nat n) t (Z.of_nat (length data)) -> ring_get (ring_put b t data) a n = ring_get b a n.
Proof.
  revert b t. induction data as [|x data IH]; intros b t Hap; cbn [ring_put]; [done|].
  rewrite IH.
  - assert (forall j, 0 <= j < Z.of_nat n -> (a + j) mod cap <> t mod cap) as Hne.
    { intros j Hj. replace t with (t + 0) by lia. apply Hap; cbn [length]; lia. }
    clear -Hne. revert a Hne. induction n as [|n IH]; intros a Hne; cbn [ring_get]; [done|]. f_equal.
    + rewrite upd_other; [done|]. replace a with (a + 0) by lia. apply Hne. lia.
    + apply IH. intros j Hj. replace (a + 1 + j) with (a + (1 + j)) by lia. apply Hne. lia.
  - intros i j Hi Hj. replace (t + 1 + j) with (t + (1 + j)) by lia. apply Hap; cbn [length]; lia.
Qed.

Context (cap_pos : 0 < cap).

Lemma ring_get_mod b a k : ring_get b (a mod cap) k = ring_get b a k.
Proof.
  revert a. induction k as [|k IH]; intros a; cbn [ring_get]; [done|].
  rewrite Z.mod_mod by lia. f_equal. rewrite <- IH. rewrite <- (IH (a + 1)). f_equal.
  by rewrite Zplus_mod_idemp_l.
Qed.

Lemma ring_put_mod b t data : ring_put b (t mod cap) data = ring_put b t data.
Proof.
  revert b t. induction data as [|x data IH]; intros b t; cbn [ring_put]; [done|].
  rewrite Z.mod_mod by lia. rewrite <- IH. rewrite <- (IH _ (t + 1)). f_equal. by rewrite Zplus_mod_idemp_l.
Qed.

Lemma apart_tail a n m : 0 <= n -> 0 <= m -> n + m <= cap -> apart a n (a + n) m.
Proof.
  intros Hn Hm Hc i j Hi Hj E.
  assert ((a + n + j - (a + i)) mod cap = 0) as H0 by (rewrite Zminus_mod, E, Z.sub_diag; by apply Z.mod_0_l; lia).
  rewrite Z.mod_small in H0; lia.
Qed.

Lemma ring_put_self b t data :
  Z.of_nat (length data) <= cap -> ring_get (ring_put b t data) t (length data) = data.
Proof.
  revert b t. induction data as [|x data IH]; intros b t Hl; cbn [ring_put ring_get length] in *; [done|].
  f_equal; [|apply IH; lia].
  assert (forall l b' t', apart t 1 t' (Z.of_nat (length l)) -> ring_put b' t' l (t mod cap) = b' (t mod cap)) as H.
  { intros l b' t' Hap. pose proof (ring_put_get b' t' l t 1 Hap) as E. cbn in E. congruence. }
  rewrite H, upd_same; [done|]. apply apart_tail; lia.
Qed.

(** Appending at the tail of [n] bytes that start at [a]. *)
Lemma ring_append b a n data :
  Z.of_nat n + Z.of_nat (length data) <= cap ->
  ring_get (ring_put b (a + Z.of_nat n) data) a (n + length data) = ring_get b a n ++ data.
Proof.
  intros Hc. rewrite ring_get_app. f_equal.
  - apply ring_put_get, apart_tail; lia.
  - apply ring_put_self. lia.
Qed.
End Ring.
