(* ===== verification/Fifo.v ===== *)
(** * Named pipes (kernel/core/fifo.c)

    One in-memory ring of bytes per FIFO inode.  Everything in it is guarded by
    the wait queue's lock, so a function here is one critical section: an
    operation that parks ([waitq_block]) is the outcome [Park] of a pass of its
    loop, run again when the pipe changes.  The whole pipe, with any number of
    readers, writers and openers interleaving their passes, is the relation
    [step]; the theorems about it are by induction over its steps. *)

From stdpp Require Import base list relations.
From Stdlib Require Import ZArith Lia Bool.
From S2P Require Import Prelude Ring.
Open Scope Z_scope.

Module Fifo.

Definition FIFO_CAP : Z := 65536.
Definition PIPE_BUF_ : Z := 4096.
Definition FIFO_R : Z := 1.
Definition FIFO_W : Z := 2.
Definition POLLIN : Z := 1.
Definition POLLOUT : Z := 4.
Definition POLLERR : Z := 8.
Definition POLLHUP : Z := 16.

Record fifo := Pipe {
  buf : Z -> Z; head : Z; count : Z;
  readers : Z; writers : Z;
  r_gen : Z; w_gen : Z;                (* uint32_t *)
  users : Z
}.

Definition has (role m : Z) : bool := negb (Z.land role m =? 0).

(** The fields of an open end: [fifo_role] and [fifo_wseen]. *)
Record ofile := End { fifo_role : Z; fifo_wseen : Z }.

(** A pipe as [fifo_attach] creates it. *)
Definition fifo_fresh : fifo := Pipe (fun _ => 0) 0 0 0 0 0 0 0.

(** ** Attach and detach *)

(** [fifo_put]: the pipe after the end is gone and whether it is freed. *)
Definition fifo_put (p : fifo) (role : Z) : fifo * bool :=
  let users' := users p - 1 in
  (Pipe (buf p) (head p) (count p)
     (if has role FIFO_R then readers p - 1 else readers p)
     (if has role FIFO_W then writers p - 1 else writers p)
     (r_gen p) (w_gen p) users', users' =? 0).

(** The first critical section of [fifo_attach], after the pipe was found or
    created: [inl] is the error, [inr] the pipe and the generations seen. *)
Definition attach_enter (p : fifo) (role : Z) (nonblock : bool) : fifo * (Z + Z * Z) :=
  let p := Pipe (buf p) (head p) (count p) (readers p) (writers p) (r_gen p) (w_gen p) (users p + 1) in
  if has role FIFO_W && negb (has role FIFO_R) && nonblock && (readers p =? 0)
  then ((fifo_put p 0).1, inl (-6))
  else
    let p := if has role FIFO_R
             then Pipe (buf p) (head p) (count p) (readers p + 1) (writers p) (u32 (r_gen p + 1)) (w_gen p) (users p)
             else p in
    let p := if has role FIFO_W
             then Pipe (buf p) (head p) (count p) (readers p) (writers p + 1) (r_gen p) (u32 (w_gen p + 1)) (users p)
             else p in
    (p, inr (r_gen p, w_gen p)).

(** The loop condition of the wait for the other end. *)
Definition attach_waits (p : fifo) (role : Z) (nonblock : bool) (r_seen w_seen : Z) : bool :=
  if negb nonblock && (role =? FIFO_R) then (writers p =? 0) && (w_gen p =? w_seen)
  else if negb nonblock && (role =? FIFO_W) then (readers p =? 0) && (r_gen p =? r_seen)
  else false.

(** The end an open that succeeds has. *)
Definition attach_end (role : Z) (nonblock : bool) (w_seen : Z) : ofile :=
  End role (if (role =? FIFO_R) && nonblock then w_seen else u32 (w_seen - 1)).

(** ** Read *)

(** The copy loops at this ring's size. *)
Local Notation ring_get := (ring_get FIFO_CAP).
Local Notation ring_put := (ring_put FIFO_CAP).
Local Notation apart := (apart FIFO_CAP).

Inductive outcome := Ret (r : Z) | Park.

(** One pass of [fifo_read]'s loop: the pipe, the bytes copied out, the outcome. *)
Definition fifo_read (p : fifo) (o : ofile) (n : Z) (block stop : bool) : fifo * list Z * outcome :=
  if negb (has (fifo_role o) FIFO_R) then (p, [], Ret (-9))
  else if n =? 0 then (p, [], Ret 0)
  else if negb (count p =? 0) then
    let k := if count p <? n then count p else n in
    (Pipe (buf p) ((head p + k) mod FIFO_CAP) (count p - k) (readers p) (writers p) (r_gen p) (w_gen p) (users p),
     ring_get (buf p) (head p) (Z.to_nat k), Ret k)
  else if writers p =? 0 then (p, [], Ret 0)
  else if negb block then (p, [], Ret (-11))
  else if stop then (p, [], Ret (-4))
  else (p, [], Park).

(** ** Write *)

Inductive wstep := WDone (r : Z) | WMore (done : Z) | WPark.

(** One pass of [fifo_write]'s loop, [done] bytes of [data] already written. *)
Definition fifo_write_pass (p : fifo) (data : list Z) (done : Z) (block stop : bool) : fifo * wstep :=
  let n := Z.of_nat (length data) in
  if n <=? done then (p, WDone done)
  else if readers p =? 0 then (p, WDone (if done =? 0 then -32 else done))
  else
    let room := FIFO_CAP - count p in
    let want := if n <=? PIPE_BUF_ then n else 1 in
    if (want <=? room) && (0 <? room) then
      let k := if (n - done) <? room then n - done else room in
      let tail := (head p + count p) mod FIFO_CAP in
      (Pipe (ring_put (buf p) tail (take (Z.to_nat k) (drop (Z.to_nat done) data)))
         (head p) (count p + k) (readers p) (writers p) (r_gen p) (w_gen p) (users p), WMore (done + k))
    else if negb block then (p, WDone (if done =? 0 then -11 else done))
    else if stop then (p, WDone (if done =? 0 then -4 else done))
    else (p, WPark).

(** A write that finds room for all of it, or does not block: the passes run
    back to back under one hold of the lock. *)
Fixpoint fifo_write_loop (fuel : nat) (p : fifo) (data : list Z) (done : Z) (block stop : bool) : fifo * outcome :=
  match fuel with
  | O => (p, Park)
  | S fuel' =>
      match fifo_write_pass p data done block stop with
      | (p, WDone r) => (p, Ret r)
      | (p, WPark) => (p, Park)
      | (p, WMore done') => fifo_write_loop fuel' p data done' block stop
      end
  end.

(** The first hold of the lock of [fifo_write]: two passes that make progress
    are enough, since the first fills the ring or finishes the data. *)
Definition fifo_write (p : fifo) (o : ofile) (data : list Z) (block stop : bool) : fifo * outcome :=
  if negb (has (fifo_role o) FIFO_W) then (p, Ret (-9))
  else if Z.of_nat (length data) =? 0 then (p, Ret 0)
  else fifo_write_loop 3 p data 0 block stop.

(** ** Poll *)

Definition fifo_readiness (p : fifo) (o : ofile) : Z :=
  let r := 0 in
  let r := if has (fifo_role o) FIFO_R then
             let r := if negb (count p =? 0) then Z.lor r POLLIN else r in
             if (writers p =? 0) && negb (w_gen p =? fifo_wseen o) then Z.lor r POLLHUP else r
           else r in
  if has (fifo_role o) FIFO_W then
    let r := if PIPE_BUF_ <=? FIFO_CAP - count p then Z.lor r POLLOUT else r in
    if readers p =? 0 then Z.lor r POLLERR else r
  else r.

(** ** The ring is a queue of bytes *)

Definition pipe_ok (p : fifo) : Prop := 0 <= head p < FIFO_CAP /\ 0 <= count p <= FIFO_CAP.
Definition contents (p : fifo) : list Z := ring_get (buf p) (head p) (Z.to_nat (count p)).

Lemma contents_length p : pipe_ok p -> Z.of_nat (length (contents p)) = count p.
Proof. intros [_ ?]. unfold contents. rewrite ring_get_length. lia. Qed.

(** ** Functional behaviour of read and write *)

Lemma read_ok p o n block stop p' bytes r :
  pipe_ok p -> has (fifo_role o) FIFO_R = true -> 0 < n -> fifo_read p o n block stop = (p', bytes, r) ->
  pipe_ok p' /\ contents p = bytes ++ contents p' /\
  readers p' = readers p /\ writers p' = writers p /\ users p' = users p /\ w_gen p' = w_gen p /\
  (contents p <> [] -> bytes = take (Z.to_nat n) (contents p) /\ r = Ret (Z.of_nat (length bytes))) /\
  (contents p = [] -> p' = p /\ r = if writers p =? 0 then Ret 0 else if negb block then Ret (-11)
                                     else if stop then Ret (-4) else Park).
Proof.
  intros Hok Hr Hn. unfold fifo_read. rewrite Hr, (proj2 (Z.eqb_neq n 0)) by lia. cbn [negb].
  pose proof Hok as [Hh Hc]. destruct (Z.eqb_spec (count p) 0) as [Ez|Hnz]; cbn [negb].
  - assert (contents p = []) as E by (unfold contents; by rewrite Ez).
    intros E'. assert (p' = p /\ bytes = [] /\ r = if writers p =? 0 then Ret 0 else if negb block then Ret (-11)
                                     else if stop then Ret (-4) else Park) as (-> & -> & ->).
    { destruct (writers p =? 0); [by injection E' as <- <- <-|].
      destruct (negb block); [by injection E' as <- <- <-|]. destruct stop; by injection E' as <- <- <-. }
    split; [done|]. split; [by rewrite E|]. do 4 (split; [done|]). split; [by rewrite E|done].
  - set (k := if count p <? n then count p else n). intros [= <- <- <-].
    assert (0 < k <= count p /\ k <= n) as Hk by (unfold k; destruct (Z.ltb_spec (count p) n); lia).
    assert (contents p = ring_get (buf p) (head p) (Z.to_nat k) ++
      ring_get (buf p) (head p + k) (Z.to_nat (count p - k))) as Hsplit.
    { unfold contents. replace (Z.to_nat (count p)) with (Z.to_nat k + Z.to_nat (count p - k))%nat by lia.
      rewrite ring_get_app. do 2 f_equal. lia. }
    split; [split; cbn; [apply Z.mod_pos_bound; done|lia]|].
    split; [unfold contents at 2; cbn; by rewrite ring_get_mod by done|]. do 4 (split; [done|]). split.
    + intros _. rewrite ring_get_length. split; [|f_equal; lia].
      assert (Z.to_nat n = (Z.to_nat k + Z.to_nat (n - k))%nat) as -> by lia.
      unfold k. destruct (Z.ltb_spec (count p) n).
      * unfold contents. rewrite take_ge; [done|]. rewrite ring_get_length. lia.
      * rewrite Hsplit. unfold k. destruct (Z.ltb_spec (count p) n); [lia|].
        rewrite take_app_le by (rewrite ring_get_length; lia). rewrite take_ge; [done|]. rewrite ring_get_length. lia.
    + intros E. apply (f_equal length) in E. rewrite Hsplit, length_app, !ring_get_length in E. cbn in E. lia.
Qed.

Lemma write_pass_ok p data done block stop p' w :
  pipe_ok p -> 0 <= done -> fifo_write_pass p data done block stop = (p', w) ->
  pipe_ok p' /\ readers p' = readers p /\ writers p' = writers p /\ users p' = users p /\ w_gen p' = w_gen p /\
  match w with
  | WMore done' => done < done' <= Z.of_nat (length data) /\
      contents p' = contents p ++ take (Z.to_nat (done' - done)) (drop (Z.to_nat done) data) /\
      (Z.of_nat (length data) <= PIPE_BUF_ -> done = 0 -> done' = Z.of_nat (length data)) /\
      (done' = Z.of_nat (length data) \/ count p' = FIFO_CAP) /\ readers p <> 0
  | WDone r => p' = p /\ (r = done /\ (0 < done \/ length data = 0%nat) \/
                 (done = 0 /\ (r = -32 /\ readers p = 0 \/ r = -11 /\ block = false \/ r = -4 /\ stop = true)))
  | WPark => p' = p /\ block = true /\ readers p <> 0 /\
      FIFO_CAP - count p < (if Z.of_nat (length data) <=? PIPE_BUF_ then Z.of_nat (length data) else 1)
  end.
Proof.
  intros Hok Hd. unfold fifo_write_pass. pose proof Hok as [Hh Hc]. set (n := Z.of_nat (length data)).
  destruct (Z.leb_spec n done).
  { intros [= <- <-]. do 6 (split; [done|]). left. split; [done|]. lia. }
  destruct (Z.eqb_spec (readers p) 0).
  { intros [= <- <-]. do 6 (split; [done|]). destruct (Z.eqb_spec done 0); [right|left; split; [done|lia]]. auto. }
  set (want := if n <=? PIPE_BUF_ then n else 1).
  destruct (Z.leb_spec want (FIFO_CAP - count p)) as [Hw|Hw], (Z.ltb_spec 0 (FIFO_CAP - count p)) as [Hr|Hr]; cbn [andb].
  2-4: assert (FIFO_CAP - count p < want \/ want <= 0) as Hcond by lia;
    assert (1 <= want) by (unfold want; destruct (Z.leb_spec n PIPE_BUF_); lia);
    destruct block; cbn [negb];
    [destruct stop|]; intros [= <- <-]; do 5 (split; [done|]);
    [split; [done|]; destruct (Z.eqb_spec done 0); [right; auto|left; split; [done|lia]]
    |split; [done|]; split; [done|]; split; [done|]; change (FIFO_CAP - count p < want); lia
    |split; [done|]; destruct (Z.eqb_spec done 0); [right; auto|left; split; [done|lia]]].
  intros [= <- <-]. set (room := FIFO_CAP - count p) in *. set (k := if n - done <? room then n - done else room).
  assert (0 < k <= room /\ k <= n - done) as Hk by (unfold k; destruct (Z.ltb_spec (n - done) room); lia).
  set (chunk := take (Z.to_nat k) (drop (Z.to_nat done) data)).
  assert (Z.of_nat (length chunk) = k) as Hl.
  { unfold chunk. rewrite length_take, length_drop. lia. }
  split; [split; cbn; unfold room in *; lia|]. do 4 (split; [done|]). split; [lia|]. split.
  - replace (done + k - done) with k by lia. fold chunk. unfold contents. cbn [buf head count].
    replace (Z.to_nat (count p + k)) with (Z.to_nat (count p) + length chunk)%nat by lia.
    rewrite ring_get_app. f_equal.
    + apply ring_put_get. intros i j Hi Hj.
      assert (apart (head p) (count p) (head p + count p) k) as Hap by (apply apart_tail; [done|unfold room in *; lia..]).
      rewrite Zplus_mod_idemp_l. apply Hap; lia.
    + rewrite Z2Nat.id by lia. rewrite <- ring_get_mod by done. apply ring_put_self; [done|unfold room in *; lia].
  - split; [|split; [|done]].
    + intros Hs ->. unfold k, want in *. rewrite (proj2 (Z.leb_le n PIPE_BUF_)) in Hw by done.
      destruct (Z.ltb_spec (n - 0) room); lia.
    + cbn [count]. unfold k, room in *. destruct (Z.ltb_spec (n - done) (FIFO_CAP - count p)); [left|right]; lia.
Qed.

(** Reading takes bytes from the front of the queue, as many as asked for
    and available, in order; an empty pipe answers end-of-file when no writer is
    left, EAGAIN to a non-blocking read, EINTR to a task that must stop, and
    otherwise parks the reader, changing nothing. *)
Theorem fifo_read_correct p o n block stop p' bytes r :
  pipe_ok p -> has (fifo_role o) FIFO_R = true -> 0 < n -> fifo_read p o n block stop = (p', bytes, r) ->
  pipe_ok p' /\ contents p = bytes ++ contents p' /\
  (contents p <> [] -> bytes = take (Z.to_nat n) (contents p) /\ r = Ret (Z.of_nat (length bytes))) /\
  (contents p = [] -> p' = p /\ r = if writers p =? 0 then Ret 0 else if negb block then Ret (-11)
                                     else if stop then Ret (-4) else Park).
Proof.
  intros H1 H2 H3 H4. destruct (read_ok _ _ _ _ _ _ _ _ H1 H2 H3 H4) as (A & B & _ & _ & _ & _ & C & D). done.
Qed.

(** A write of at most PIPE_BUF bytes is atomic: it appends all of its bytes
    at once or none of them; and it never runs out of passes. *)
Theorem fifo_write_atomic p o data block stop p' r :
  pipe_ok p -> has (fifo_role o) FIFO_W = true -> data <> [] -> Z.of_nat (length data) <= PIPE_BUF_ ->
  fifo_write p o data block stop = (p', r) ->
  (r = Ret (Z.of_nat (length data)) /\ pipe_ok p' /\ contents p' = contents p ++ data) \/
  (p' = p /\ (r = Ret (-32) /\ readers p = 0 \/ r = Ret (-11) /\ block = false \/ r = Ret (-4) /\ stop = true \/
              r = Park /\ block = true /\ readers p <> 0 /\ FIFO_CAP - count p < Z.of_nat (length data))).
Proof.
  intros Hok Hw Hne Hs. unfold fifo_write. rewrite Hw. cbn [negb].
  assert (0 < Z.of_nat (length data)) as Hpos by (destruct data; [done|cbn; lia]).
  rewrite (proj2 (Z.eqb_neq _ 0)) by lia. cbn [fifo_write_loop].
  destruct (fifo_write_pass p data 0 block stop) as [p1 w1] eqn:E1.
  destruct (write_pass_ok _ _ _ _ _ _ _ Hok (Z.le_refl 0) E1) as (O1 & _ & _ & _ & _ & H1).
  destruct w1 as [r1|d1|].
  - destruct H1 as (-> & H1). intros [= <- <-]. right. split; [done|].
    destruct H1 as [(-> & [?|?])|(_ & [[-> ?]|[[-> ?]|[-> ?]]])]; [lia|lia|auto..].
  - destruct H1 as (_ & H1 & H2 & _). rewrite (H2 Hs eq_refl) in *.
    unfold fifo_write_pass at 1. rewrite Z.leb_refl. intros [= <- <-]. left.
    split; [done|]. split; [done|]. rewrite H1. rewrite drop_0, take_ge by lia. done.
  - destruct H1 as (-> & H1 & H2 & H3). intros [= <- <-]. right. split; [done|].
    rewrite (proj2 (Z.leb_le _ _) Hs) in H3. auto 10.
Qed.

(** ** Poll and the operations agree *)

Lemma has_lor r m b : has (Z.lor r m) b = has r b || has m b.
Proof.
  unfold has. rewrite Z.land_lor_distr_l.
  destruct (Z.eqb_spec (Z.land r b) 0) as [->|Hr]; cbn [negb orb]; [by rewrite Z.lor_0_l|].
  destruct (Z.eqb_spec (Z.lor (Z.land r b) (Z.land m b)) 0) as [E|]; [|done].
  apply Z.lor_eq_0_iff in E as [? _]. done.
Qed.

Lemma readiness_bits p o :
  has (fifo_readiness p o) POLLIN = has (fifo_role o) FIFO_R && negb (count p =? 0) /\
  has (fifo_readiness p o) POLLHUP = has (fifo_role o) FIFO_R && (writers p =? 0) && negb (w_gen p =? fifo_wseen o) /\
  has (fifo_readiness p o) POLLOUT = has (fifo_role o) FIFO_W && (PIPE_BUF_ <=? FIFO_CAP - count p) /\
  has (fifo_readiness p o) POLLERR = has (fifo_role o) FIFO_W && (readers p =? 0).
Proof.
  unfold fifo_readiness.
  destruct (has (fifo_role o) FIFO_R), (has (fifo_role o) FIFO_W), (count p =? 0), (writers p =? 0),
    (w_gen p =? fifo_wseen o), (PIPE_BUF_ <=? FIFO_CAP - count p), (readers p =? 0); done.
Qed.

(** Poll tells the truth about the next operation: POLLIN means a read
    returns at least a byte; POLLHUP without POLLIN means a read returns end of
    file; POLLOUT without POLLERR means a write of up to PIPE_BUF bytes completes
    at once; POLLERR means a write fails with EPIPE.  A reader that opened
    non-blocking sees no hang-up before a writer has opened. *)
Theorem fifo_poll_correct p o n data :
  pipe_ok p -> 0 < n -> data <> [] -> Z.of_nat (length data) <= PIPE_BUF_ ->
  (has (fifo_readiness p o) POLLIN = true ->
     exists k, (fifo_read p o n true false).2 = Ret k /\ 0 < k) /\
  (has (fifo_readiness p o) POLLHUP = true -> has (fifo_readiness p o) POLLIN = false ->
     (fifo_read p o n true false).2 = Ret 0) /\
  (has (fifo_readiness p o) POLLOUT = true -> has (fifo_readiness p o) POLLERR = false ->
     (fifo_write p o data true false).2 = Ret (Z.of_nat (length data))) /\
  (has (fifo_readiness p o) POLLERR = true -> (fifo_write p o data true false).2 = Ret (-32)) /\
  (o = attach_end FIFO_R true (w_gen p) -> has (fifo_readiness p o) POLLHUP = false).
Proof.
  intros Hok Hn Hne Hs. destruct (readiness_bits p o) as (-> & B2 & B3 & B4). rewrite B2, B3, B4. clear B2 B3 B4.
  assert (0 < Z.of_nat (length data)) as Hpos by (destruct data; [done|cbn; lia]).
  pose proof Hok as [_ Hc]. split; [|split; [|split; [|split]]].
  - intros H. bool_props. unfold fifo_read. rewrite H, (proj2 (Z.eqb_neq n 0)), (proj2 (Z.eqb_neq (count p) 0)) by lia.
    cbn [negb snd]. eexists. split; [done|]. destruct (Z.ltb_spec (count p) n); lia.
  - intros H H'. bool_props. rewrite H in H'. cbn in H'. bool_props. unfold fifo_read.
    rewrite H, (proj2 (Z.eqb_neq n 0)), H' by lia. cbn. by rewrite H1.
  - intros H H'. bool_props. rewrite H in H'. cbn in H'. bool_props.
    unfold fifo_write. rewrite H, (proj2 (Z.eqb_neq (Z.of_nat (length data)) 0)) by lia. cbn [negb fifo_write_loop].
    destruct (fifo_write_pass p data 0 true false) as [p1 w1] eqn:E1.
    destruct (write_pass_ok _ _ _ _ _ _ _ Hok (Z.le_refl 0) E1) as (O1 & _ & _ & _ & _ & Hw1).
    destruct w1 as [r1|d1|].
    + destruct Hw1 as (_ & [(_ & [?|?])|(_ & [[_ ?]|[[_ ?]|[_ ?]]])]); [lia|lia|lia|done|done].
    + destruct Hw1 as (_ & _ & Hall & _). rewrite (Hall Hs eq_refl). unfold fifo_write_pass at 1.
      by rewrite Z.leb_refl.
    + destruct Hw1 as (_ & _ & _ & Hw1). rewrite (proj2 (Z.leb_le _ _) Hs) in Hw1. lia.
  - intros H. bool_props. unfold fifo_write. rewrite H, (proj2 (Z.eqb_neq (Z.of_nat (length data)) 0)) by lia.
    cbn [negb fifo_write_loop]. unfold fifo_write_pass. rewrite (proj2 (Z.leb_gt (Z.of_nat (length data)) 0)) by lia.
    by rewrite H0.
  - intros ->. cbn. by rewrite Z.eqb_refl, andb_false_r.
Qed.

(** ** The pipe with all its ends *)

(** [sent] are the bytes writers have put in since the pipe was created, [got]
    the bytes readers have taken out, in the order they did. *)
Record sys := Sys { pipe : fifo; ends : list ofile; sent : list Z; got : list Z }.

Definition role_ok (role : Z) : Prop := role = FIFO_R \/ role = FIFO_W \/ role = Z.lor FIFO_R FIFO_W.

Definition sys0 : sys := Sys fifo_fresh [] [] [].

Inductive step : sys -> sys -> Prop :=
| st_open s p' role nonblock r w :
    role_ok role -> attach_enter (pipe s) role nonblock = (p', inr (r, w)) ->
    step s (Sys p' (attach_end role nonblock w :: ends s) (sent s) (got s))
| st_open_refused s p' role nonblock err :
    role_ok role -> attach_enter (pipe s) role nonblock = (p', inl err) ->
    step s (Sys p' (ends s) (sent s) (got s))
| st_close s l1 o l2 p' :
    ends s = l1 ++ o :: l2 -> fifo_put (pipe s) (fifo_role o) = (p', false) ->
    step s (Sys p' (l1 ++ l2) (sent s) (got s))
| st_last_close s o p' :
    ends s = [o] -> fifo_put (pipe s) (fifo_role o) = (p', true) -> step s sys0
| st_read s o n block stop p' bytes r :
    o ∈ ends s -> has (fifo_role o) FIFO_R = true -> 0 < n ->
    fifo_read (pipe s) o n block stop = (p', bytes, r) ->
    step s (Sys p' (ends s) (sent s) (got s ++ bytes))
| st_write s o data done block stop p' done' :
    o ∈ ends s -> has (fifo_role o) FIFO_W = true -> 0 <= done ->
    fifo_write_pass (pipe s) data done block stop = (p', WMore done') ->
    step s (Sys p' (ends s) (sent s ++ take (Z.to_nat (done' - done)) (drop (Z.to_nat done) data)) (got s)).

Definition reachable : sys -> Prop := rtc step sys0.

Definition ends_with (m : Z) (l : list ofile) : Z :=
  Z.of_nat (length (filter (fun o => has (fifo_role o) m = true) l)).

Record sys_ok (s : sys) : Prop := {
  so_pipe : pipe_ok (pipe s);
  so_stream : sent s = got s ++ contents (pipe s);
  so_readers : readers (pipe s) = ends_with FIFO_R (ends s);
  so_writers : writers (pipe s) = ends_with FIFO_W (ends s);
  so_users : users (pipe s) = Z.of_nat (length (ends s))
}.

Lemma ends_with_cons m o l : ends_with m (o :: l) = (if has (fifo_role o) m then 1 else 0) + ends_with m l.
Proof.
  unfold ends_with. rewrite filter_cons. destruct (has (fifo_role o) m).
  - rewrite decide_True by done. cbn [length]. lia.
  - by rewrite decide_False by done.
Qed.
Lemma ends_with_mid m l1 o l2 :
  ends_with m (l1 ++ o :: l2) = (if has (fifo_role o) m then 1 else 0) + ends_with m (l1 ++ l2).
Proof.
  induction l1 as [|a l1 IH]; cbn [app]; [apply ends_with_cons|]. rewrite !ends_with_cons, IH. lia.
Qed.

Lemma attach_enter_ok s role nonblock p' res :
  sys_ok s -> attach_enter (pipe s) role nonblock = (p', res) ->
  pipe_ok p' /\ contents p' = contents (pipe s) /\
  match res with
  | inl _ => readers p' = readers (pipe s) /\ writers p' = writers (pipe s) /\ users p' = users (pipe s)
  | inr _ => readers p' = (if has role FIFO_R then 1 else 0) + readers (pipe s) /\
             writers p' = (if has role FIFO_W then 1 else 0) + writers (pipe s) /\ users p' = users (pipe s) + 1
  end.
Proof.
  intros [Hok _ _ _ _]. destruct s as [p e se g]. cbn [pipe] in *. unfold attach_enter.
  destruct (_ && _) eqn:E.
  - intros [= <- <-]. cbn. split; [done|]. split; [done|]. split; [done|]. split; [done|]. lia.
  - intros [= <- <-]. destruct (has role FIFO_R), (has role FIFO_W); cbn; (split; [done|]; split; [done|]); lia.
Qed.

Lemma step_ok s s' : sys_ok s -> step s s' -> sys_ok s'.
Proof.
  intros I Hst. pose proof I as [Iok Ist Ir Iw Iu].
  destruct Hst as [s p' role nb r w Hrole E|s p' role nb err Hrole E|s l1 o l2 p' El E|s o p' El E
                  |s o n block stop p' bytes r Hin Hr Hn E|s o data done block stop p' done' Hin Hw Hd E].
  - destruct (attach_enter_ok _ _ _ _ _ I E) as (A1 & A2 & A3 & A4 & A5).
    split; cbn [pipe ends sent got]; [done|congruence|..].
    + rewrite ends_with_cons. cbn [fifo_role attach_end]. lia.
    + rewrite ends_with_cons. cbn [fifo_role attach_end]. lia.
    + cbn [length]. lia.
  - destruct (attach_enter_ok _ _ _ _ _ I E) as (A1 & A2 & A3 & A4 & A5).
    split; cbn [pipe ends sent got]; congruence || done.
  - unfold fifo_put in E. injection E as <- _. rewrite El in *. rewrite !ends_with_mid in *.
    rewrite length_app in Iu. cbn [length] in Iu.
    split; cbn [pipe ends sent got readers writers users]; try done.
    + destruct (has (fifo_role o) FIFO_R); lia.
    + destruct (has (fifo_role o) FIFO_W); lia.
    + rewrite length_app. lia.
  - by split.
  - destruct (read_ok _ _ _ _ _ _ _ _ Iok Hr Hn E) as (A & B & C1 & C2 & C3 & _).
    split; cbn [pipe ends sent got]; try congruence; try done.
    rewrite Ist, B. by rewrite app_assoc.
  - destruct (write_pass_ok _ _ _ _ _ _ _ Iok Hd E) as (A & C1 & C2 & C3 & _ & _ & B & _).
    split; cbn [pipe ends sent got]; try congruence; try done.
    rewrite Ist, B. by rewrite app_assoc.
Qed.

Lemma steps_ok s s' : rtc step s s' -> sys_ok s -> sys_ok s'.
Proof. intros H. apply (rtc_invariant step sys_ok _ _ H). intros a b Hs Ho. by eapply step_ok. Qed.

(** C16: whatever readers, writers, openers and closers do, in any order, the
    bytes taken out followed by the bytes still in the ring are exactly the bytes
    put in: none is lost, duplicated or reordered, and the end counters the
    blocking rules rely on are the numbers of open ends. *)
Theorem fifo_stream s :
  reachable s ->
  sent s = got s ++ contents (pipe s) /\ pipe_ok (pipe s) /\
  readers (pipe s) = ends_with FIFO_R (ends s) /\ writers (pipe s) = ends_with FIFO_W (ends s).
Proof.
  intros Hr. assert (sys_ok s) as [? ? ? ? ?]; [|done].
  apply (steps_ok _ _ Hr). by split.
Qed.

(** Nobody sleeps for no reason, and nobody sleeps through a change: a
    parked reader has an empty pipe and a live writer, a parked writer a live
    reader and no room for its bytes; once a byte is written a reader's next
    pass returns, and once the pipe is drained an atomic write's next pass does. *)
Theorem fifo_park_condition p o n data done :
  pipe_ok p -> has (fifo_role o) FIFO_R = true -> 0 < n -> 0 <= done ->
  ((fifo_read p o n true false).2 = Park <-> contents p = [] /\ writers p <> 0) /\
  ((fifo_write_pass p data done true false).2 = WPark ->
     readers p <> 0 /\
     FIFO_CAP - count p < (if Z.of_nat (length data) <=? PIPE_BUF_ then Z.of_nat (length data) else 1)).
Proof.
  intros Hok Hr Hn Hd. split.
  - destruct (fifo_read p o n true false) as [[p' bytes] r] eqn:E.
    destruct (read_ok _ _ _ _ _ _ _ _ Hok Hr Hn E) as (_ & _ & _ & _ & _ & _ & H1 & H2). cbn [snd].
    destruct (contents p) as [|x l] eqn:Ec.
    + destruct (H2 eq_refl) as [_ ->]. destruct (Z.eqb_spec (writers p) 0); cbn; split; try done; naive_solver.
    + destruct (H1 ltac:(done)) as [_ ->]. split; [done|]. intros [? _]. done.
  - destruct (fifo_write_pass p data done true false) as [p' w] eqn:E. cbn [snd]. intros ->.
    destruct (write_pass_ok _ _ _ _ _ _ _ Hok Hd E) as (_ & _ & _ & _ & _ & _ & _ & H1 & H2). done.
Qed.

(** ** A concrete pipe *)

Definition two_ends : fifo := Pipe (fun i => i mod 256) 65534 3 1 1 1 1 2.
Definition rd : ofile := End FIFO_R 0.
Definition wr : ofile := End FIFO_W 0.

Lemma two_ends_ok : pipe_ok two_ends.
Proof. unfold pipe_ok, FIFO_CAP. cbn. lia. Qed.

Lemma fifo_read_correct_witness :
  let '(p', bytes, r) := fifo_read two_ends rd 2 true false in
  pipe_ok p' /\ bytes = [254; 255] /\ contents p' = [0].
Proof.
  destruct (fifo_read two_ends rd 2 true false) as [[p' bytes] r] eqn:E.
  destruct (fifo_read_correct two_ends rd 2 true false p' bytes r two_ends_ok eq_refl ltac:(lia) E) as (H1 & _ & H2 & _).
  split; [exact H1|]. destruct (H2 ltac:(discriminate)) as [H3 _].
  split; [rewrite H3; vm_compute; reflexivity|]. vm_compute in E. injection E as <- <- <-. vm_compute. reflexivity.
Defined.

Lemma fifo_write_atomic_witness :
  let '(p', r) := fifo_write two_ends wr [1; 2; 3] true false in
  r = Ret 3 /\ contents p' = [254; 255; 0; 1; 2; 3].
Proof.
  destruct (fifo_write two_ends wr [1; 2; 3] true false) as [p' r] eqn:E.
  destruct (fifo_write_atomic two_ends wr [1; 2; 3] true false p' r two_ends_ok eq_refl ltac:(discriminate) ltac:(vm_compute; discriminate) E)
    as [(H1 & _ & H2)|(_ & [[_ H]|[[_ H]|[[_ H]|(_ & _ & _ & H)]]])].
  - split; [exact H1|]. rewrite H2. vm_compute. reflexivity.
  - exfalso. cbn in H. lia.
  - exfalso. discriminate H.
  - exfalso. discriminate H.
  - exfalso. unfold FIFO_CAP in H. cbn in H. lia.
Defined.

Lemma fifo_poll_correct_witness :
  exists k, (fifo_read two_ends rd 10 true false).2 = Ret k /\ 0 < k.
Proof.
  destruct (fifo_poll_correct two_ends rd 10 [1] two_ends_ok ltac:(lia) ltac:(discriminate) ltac:(vm_compute; discriminate)) as (H & _).
  apply H. vm_compute. reflexivity.
Defined.

Lemma fifo_park_condition_witness :
  (fifo_read fifo_fresh rd 1 true false).2 <> Park.
Proof.
  intros H. apply (fifo_park_condition fifo_fresh rd 1 [] 0) in H; [|unfold pipe_ok, FIFO_CAP; cbn; lia|reflexivity|lia|lia].
  destruct H as [_ H]. apply H. reflexivity.
Defined.

(** A writer opens read/write, writes three bytes, reads one. *)
Lemma demo_run : exists s, reachable s /\ sent s = [7; 8; 9] /\ got s = [7].
Proof.
  eexists. split; [|split].
  - eapply rtc_l; [eapply (st_open _ _ 3 false); [right; right; reflexivity|reflexivity]|].
    eapply rtc_l; [eapply (st_write _ (attach_end 3 false 1) [7; 8; 9] 0 true false);
      [constructor|reflexivity|lia|reflexivity]|].
    eapply rtc_l; [eapply (st_read _ (attach_end 3 false 1) 1 true false);
      [constructor|reflexivity|lia|reflexivity]|]. apply rtc_refl.
  - reflexivity.
  - reflexivity.
Qed.

Lemma fifo_stream_witness : exists s, reachable s /\ [7; 8; 9] = [7] ++ contents (pipe s).
Proof.
  destruct demo_run as (s & Hr & Es & Eg). exists s. split; [exact Hr|].
  destruct (fifo_stream s Hr) as [H _]. rewrite Es, Eg in H. exact H.
Defined.
End Fifo.
