(* ===== verification/Ktimer.v ===== *)
(** * Kernel timers (kernel/core/ktimer.c) and timer descriptors (kernel/core/timerfd.c)

    The pending timers are one list sorted by deadline, earliest first; every
    change to it is a critical section.  A timer is named by the address of its
    structure.  [timerfd.c] is a client: its expiry callback counts expirations
    and re-arms itself in phase. *)

From stdpp Require Import base list sets sorting.
From Stdlib Require Import ZArith Lia Bool.
From S2P Require Import Prelude.
Open Scope Z_scope.

Module Ktimer.

(** A pending timer: its address, deadline and callback. *)
Record ktimer := Timer { addr : Z; deadline_ns : Z; fn : Z }.
#[export] Instance ktimer_eq_dec : EqDecision ktimer.
Proof. solve_decision. Defined.

Record kt := Kt {
  g_head : list ktimer;
  armed : Z -> bool;                    (* the [armed] field, by address *)
  g_pending : Z; g_fired : Z; g_max_late_ns : Z
}.

Definition on_list (l : list ktimer) (t : Z) : bool := existsb (fun k => addr k =? t) l.

(** Remove the first entry of [t], if there is one. *)
Fixpoint unlink_in (l : list ktimer) (t : Z) : list ktimer :=
  match l with
  | [] => []
  | k :: l' => if addr k =? t then l' else k :: unlink_in l' t
  end.

Definition dec_pending (n : Z) : Z := if n =? 0 then 0 else n - 1.

Definition unlink_locked (s : kt) (t : Z) : kt * bool :=
  if on_list (g_head s) t
  then (Kt (unlink_in (g_head s) t) (armed s)⟦t ↦ false⟧ (dec_pending (g_pending s)) (g_fired s) (g_max_late_ns s), true)
  else (s, false).

(** [while ( *pp && ( *pp)->deadline_ns <= deadline_ns) pp = &( *pp)->next] *)
Fixpoint insert_in (l : list ktimer) (k : ktimer) : list ktimer :=
  match l with
  | [] => [k]
  | h :: l' => if deadline_ns h <=? deadline_ns k then h :: insert_in l' k else k :: l
  end.

(** [if (!t || !fn) return;] comes first. *)
Definition ktimer_arm (s : kt) (t deadline f : Z) : kt :=
  if (t =? 0) || (f =? 0) then s else
  let s := (unlink_locked s t).1 in
  Kt (insert_in (g_head s) (Timer t deadline f)) (armed s)⟦t ↦ true⟧ (u32 (g_pending s + 1)) (g_fired s) (g_max_late_ns s).

Definition ktimer_arm_after (s : kt) (now t delay f : Z) : kt := ktimer_arm s t (u64 (now + delay)) f.

Definition ktimer_armed (s : kt) (t : Z) : bool := negb (t =? 0) && armed s t.

(** One pass of [ktimer_expire]: the timer taken off the list, whose callback
    runs next, or [None] when nothing is due. *)
Definition expire_pass (s : kt) (now : Z) : option (kt * ktimer) :=
  match g_head s with
  | [] => None
  | t :: l =>
      if now <? deadline_ns t then None
      else
        let late := u64 (now - deadline_ns t) in
        Some (Kt l (armed s)⟦addr t ↦ false⟧ (dec_pending (g_pending s)) (u64 (g_fired s + 1))
                (if g_max_late_ns s <? late then late else g_max_late_ns s), t)
  end.

(** [ktimer_expire]: [run] is the callback, which may arm timers and change the
    state [W] of the timers' owners.  The answer lists the timers fired. *)
Fixpoint ktimer_expire {W : Type} (fuel : nat) (run : ktimer -> kt -> W -> kt * W) (s : kt) (w : W) (now : Z)
  : kt * W * list ktimer :=
  match fuel with
  | O => (s, w, [])
  | S fuel' =>
      match expire_pass s now with
      | None => (s, w, [])
      | Some (s, t) =>
          let '(s, w) := if fn t =? 0 then (s, w) else run t s w in
          let '(s, w, l) := ktimer_expire fuel' run s w now in (s, w, t :: l)
      end
  end.

(** The list without the timers of [lo, hi), and those. *)
Definition in_range (lo hi : Z) (k : ktimer) : bool := (lo <=? addr k) && (addr k <? hi).
Definition ktimer_cancel_range (s : kt) (lo hi : Z) : kt * Z * option Z :=
  let gone := filter (fun k => in_range lo hi k = true) (g_head s) in
  (Kt (filter (fun k => in_range lo hi k = false) (g_head s))
      (fold_left (fun a k => a⟦addr k ↦ false⟧) gone (armed s))
      (fold_left (fun n _ => dec_pending n) gone (g_pending s)) (g_fired s) (g_max_late_ns s),
   Z.of_nat (length gone), fn <$> head gone).

Definition ktimer_stats_reset (s : kt) : kt := Kt (g_head s) (armed s) (g_pending s) (g_fired s) 0.
Definition ktimer_stats (s : kt) : Z * Z * Z := (g_pending s, g_fired s, g_max_late_ns s).

(** ** Invariant *)

Definition sorted (l : list ktimer) : Prop := StronglySorted (fun a b => deadline_ns a <= deadline_ns b) l.

Record kt_wf (s : kt) : Prop := {
  kt_sorted : sorted (g_head s);
  kt_nodup : NoDup (addr <$> g_head s);
  kt_armed : forall t, armed s t = true <-> t ∈ addr <$> g_head s
}.
Record kt_ok (s : kt) : Prop := {
  ok_wf : kt_wf s;
  ok_pending : g_pending s = Z.of_nat (length (g_head s));
  ok_small : Z.of_nat (length (g_head s)) < 2 ^ 32 - 1
}.

Lemma on_list_spec l t : on_list l t = true <-> t ∈ addr <$> l.
Proof.
  unfold on_list. rewrite existsb_exists, list_elem_of_fmap. split.
  - intros (k & Hk & E). apply Z.eqb_eq in E as <-. exists k. split; [done|]. by apply list_elem_of_In.
  - intros (k & -> & Hk). exists k. split; [by apply list_elem_of_In|]. apply Z.eqb_refl.
Qed.

Lemma unlink_in_elem l t k : NoDup (addr <$> l) -> k ∈ unlink_in l t <-> k ∈ l /\ addr k <> t.
Proof.
  induction l as [|h l IH]; cbn; [set_solver|]. intros [Hh Hnd]%NoDup_cons.
  destruct (Z.eqb_spec (addr h) t) as [<-|Hne].
  - split; [intros Hk; split; [set_solver|]|set_solver].
    intros E. apply Hh. apply list_elem_of_fmap. eauto.
  - rewrite elem_of_cons, (IH Hnd). set_solver.
Qed.

Lemma unlink_in_sub l t : unlink_in l t `sublist_of` l.
Proof. induction l as [|h l IH]; cbn; [done|]. case_match; [by apply sublist_cons|by apply sublist_skip]. Qed.

Lemma sorted_sub l l' : l `sublist_of` l' -> sorted l' -> sorted l.
Proof.
  unfold sorted. induction 1 as [|x l l' Hs IH|x l l' Hs IH]; intros H; [done| |].
  - apply StronglySorted_inv in H as [H1 H2]. constructor; [auto|].
    rewrite Forall_forall in *. intros y Hy. apply H2. by eapply elem_of_submseteq, sublist_submseteq.
  - apply StronglySorted_inv in H as [H1 _]. auto.
Qed.

Lemma unlink_in_length l t : on_list l t = true -> S (length (unlink_in l t)) = length l.
Proof.
  induction l as [|h l IH]; cbn; [done|]. destruct (Z.eqb_spec (addr h) t); cbn; [done|].
  intros E. by rewrite IH.
Qed.

Lemma insert_in_perm l k : insert_in l k ≡ₚ k :: l.
Proof. induction l as [|h l IH]; cbn; [done|]. case_match; [|done]. rewrite IH. apply perm_swap. Qed.

Lemma insert_in_sorted l k : sorted l -> sorted (insert_in l k).
Proof.
  unfold sorted. induction l as [|h l IH]; cbn; intros H; [repeat constructor|].
  apply StronglySorted_inv in H as [H1 H2]. destruct (Z.leb_spec (deadline_ns h) (deadline_ns k)).
  - constructor; [auto|]. rewrite insert_in_perm. by constructor.
  - constructor; [by constructor|]. constructor; [lia|]. eapply Forall_impl; [exact H2|]. cbn. lia.
Qed.

Lemma unlink_wf s t : kt_wf s -> kt_wf (unlink_locked s t).1 /\ t ∉ addr <$> g_head (unlink_locked s t).1 /\
  (unlink_locked s t).2 = armed s t /\ armed (unlink_locked s t).1 t = false /\
  (forall k, k ∈ g_head (unlink_locked s t).1 <-> k ∈ g_head s /\ addr k <> t).
Proof.
  intros [S N A]. unfold unlink_locked. destruct (on_list (g_head s) t) eqn:E; cbn [fst snd].
  - assert (forall k, k ∈ unlink_in (g_head s) t <-> k ∈ g_head s /\ addr k <> t) as Hmem by (intros; by apply unlink_in_elem).
    assert (t ∉ addr <$> unlink_in (g_head s) t) as Hni.
    { intros (k & -> & [_ ?]%Hmem)%list_elem_of_fmap. done. }
    split; [|split; [done|split; [|split; [apply upd_same|done]]]].
    + split; cbn.
      * eapply sorted_sub; [apply unlink_in_sub|done].
      * eapply sublist_NoDup; [exact N|]. apply fmap_sublist, unlink_in_sub.
      * intros u. rewrite upd_eq. destruct (Z.eqb_spec u t) as [->|Hne]; [split; [done|by intros ?%Hni]|].
        rewrite A, !list_elem_of_fmap. setoid_rewrite Hmem. naive_solver.
    + symmetry. apply A. by apply on_list_spec.
  - assert (t ∉ addr <$> g_head s) as Hni by (intros H%on_list_spec; congruence).
    assert (armed s t = false) as Ha by (apply not_true_iff_false; by rewrite A).
    split; [done|]. split; [done|]. split; [done|]. split; [done|].
    intros k. split; [|tauto]. intros Hk. split; [done|]. intros <-. apply Hni. apply list_elem_of_fmap. eauto.
Qed.

Lemma unlink_ok s t : kt_ok s -> kt_ok (unlink_locked s t).1.
Proof.
  intros [W P Sm]. split; [by apply unlink_wf| |]; unfold unlink_locked;
    destruct (on_list (g_head s) t) eqn:E; cbn [fst g_pending g_head]; try done;
    pose proof (unlink_in_length _ _ E); [|lia].
  unfold dec_pending. destruct (Z.eqb_spec (g_pending s) 0); lia.
Qed.

Lemma unlink_len s t : (length (g_head (unlink_locked s t).1) <= length (g_head s))%nat.
Proof.
  unfold unlink_locked. destruct (on_list (g_head s) t) eqn:E; cbn; [|done].
  pose proof (unlink_in_length _ _ E). lia.
Qed.

Lemma arm_eq s t d f : t <> 0 -> f <> 0 ->
  g_head (ktimer_arm s t d f) = insert_in (g_head (unlink_locked s t).1) (Timer t d f) /\
  armed (ktimer_arm s t d f) = (armed (unlink_locked s t).1)⟦t ↦ true⟧ /\
  g_pending (ktimer_arm s t d f) = u32 (g_pending (unlink_locked s t).1 + 1).
Proof. intros Ht Hf. unfold ktimer_arm. by destruct (Z.eqb_spec t 0), (Z.eqb_spec f 0). Qed.

Lemma arm_wf s t d f : kt_wf s -> kt_wf (ktimer_arm s t d f) /\
  (t <> 0 -> f <> 0 -> forall k, k ∈ g_head (ktimer_arm s t d f) <-> k = Timer t d f \/ (k ∈ g_head s /\ addr k <> t)).
Proof.
  intros Hok. destruct (decide (t = 0 \/ f = 0)) as [H0|H0].
  { unfold ktimer_arm. replace ((t =? 0) || (f =? 0)) with true by (destruct H0 as [-> | ->]; [done|by rewrite orb_comm]).
    split; [done|naive_solver]. }
  destruct (arm_eq s t d f) as (Eh & Ea & _); [tauto|tauto|].
  destruct (unlink_wf s t Hok) as ([S N A] & Hni & _ & _ & Hmem).
  pose proof (insert_in_perm (g_head (unlink_locked s t).1) (Timer t d f)) as Hperm.
  split; [split; rewrite Eh; try rewrite Ea|intros _ _ k; by rewrite Eh, Hperm, elem_of_cons, Hmem].
  - by apply insert_in_sorted.
  - rewrite Hperm. cbn. apply NoDup_cons. done.
  - intros u. rewrite upd_eq, Hperm. cbn. rewrite elem_of_cons.
    destruct (Z.eqb_spec u t) as [->|Hne]; [naive_solver|]. rewrite A. naive_solver.
Qed.

Lemma arm_ok s t d f :
  kt_ok s -> Z.of_nat (length (g_head s)) < 2 ^ 32 - 2 -> kt_ok (ktimer_arm s t d f).
Proof.
  intros Hok Hsm. pose proof (unlink_len s t). destruct (unlink_ok s t Hok) as [_ P Sm].
  destruct (decide (t = 0 \/ f = 0)) as [H0|H0].
  { unfold ktimer_arm. by replace ((t =? 0) || (f =? 0)) with true by (destruct H0 as [-> | ->]; [done|by rewrite orb_comm]). }
  destruct (arm_eq s t d f) as (Eh & _ & Ep); [tauto|tauto|].
  split; [by apply arm_wf, Hok| |]; rewrite Eh, insert_in_perm; cbn [length]; [|lia].
  rewrite Ep, P, u32_small; lia.
Qed.

(** Arming a timer keeps the list sorted with each timer on it at most once;
    afterwards the timer is on it with the new deadline and callback, no other
    timer has moved, and it comes after every timer with the same deadline. *)
Theorem ktimer_arm_correct s t d f :
  kt_ok s -> Z.of_nat (length (g_head s)) < 2 ^ 32 - 2 -> t <> 0 -> f <> 0 ->
  let s' := ktimer_arm s t d f in
  kt_ok s' /\ (forall k, k ∈ g_head s' <-> k = Timer t d f \/ (k ∈ g_head s /\ addr k <> t)) /\
  exists l1 l2, g_head s' = l1 ++ Timer t d f :: l2 /\ Forall (fun k => deadline_ns k <= d) l1 /\
    Forall (fun k => d < deadline_ns k) l2.
Proof.
  intros Hok Hsm Ht Hf s'. split; [by apply arm_ok|]. split; [apply arm_wf; [apply Hok|done|done]|].
  destruct (unlink_ok s t Hok) as [[S _ _] _ _]. unfold s'. destruct (arm_eq s t d f) as (-> & _); [done|done|].
  revert S. generalize (g_head (unlink_locked s t).1). induction l as [|h l IH]; intros S; cbn.
  - by exists [], [].
  - apply StronglySorted_inv in S as [S1 S2]. destruct (Z.leb_spec (deadline_ns h) d).
    + destruct (IH S1) as (l1 & l2 & -> & H3 & H4). exists (h :: l1), l2. split; [done|]. split; [by constructor|done].
    + exists [], (h :: l). split; [done|]. split; [done|]. constructor; [done|].
      eapply Forall_impl; [exact S2|]. cbn. lia.
Qed.

(** ** Expiry *)

Lemma expire_pass_wf s now s' t :
  kt_wf s -> expire_pass s now = Some (s', t) ->
  kt_wf s' /\ g_head s = t :: g_head s' /\ deadline_ns t <= now /\
  Forall (fun k => deadline_ns t <= deadline_ns k) (g_head s') /\ g_pending s' = dec_pending (g_pending s).
Proof.
  intros [S N A]. unfold expire_pass. destruct (g_head s) as [|h l] eqn:El; [done|].
  destruct (Z.ltb_spec now (deadline_ns h)); [done|]. intros [= <- <-]. cbn.
  apply StronglySorted_inv in S as [S1 S2]. cbn in N. apply NoDup_cons in N as [Hh N].
  split; [split; cbn|done].
  - done.
  - done.
  - intros u. rewrite upd_eq. destruct (Z.eqb_spec u (addr h)) as [->|Hne]; [done|].
    rewrite A. cbn. rewrite elem_of_cons. naive_solver.
Qed.

Lemma expire_pass_ok s now s' t : kt_ok s -> expire_pass s now = Some (s', t) -> kt_ok s'.
Proof.
  intros [W P Sm] E. destruct (expire_pass_wf _ _ _ _ W E) as (W' & El & _ & _ & Ep).
  rewrite El in *. cbn in *. split; [done| |lia]. rewrite Ep. unfold dec_pending. destruct (Z.eqb_spec (g_pending s) 0); lia.
Qed.

(** When the callbacks arm nothing themselves, an expiry run fires exactly
    the timers that are due, each once, in order of their deadlines, and leaves
    exactly the others pending. *)
Theorem ktimer_expire_correct s now fuel :
  kt_ok s -> (length (g_head s) <= fuel)%nat ->
  let '(s', _, fired) := ktimer_expire fuel (fun _ s w => (s, w)) s tt now in
  kt_ok s' /\ g_head s = fired ++ g_head s' /\
  Forall (fun k => deadline_ns k <= now) fired /\ Forall (fun k => now < deadline_ns k) (g_head s') /\
  sorted fired.
Proof.
  revert s. induction fuel as [|fuel IH]; intros s Hok Hf; cbn [ktimer_expire].
  { destruct (g_head s) as [|h l] eqn:El; [|cbn in Hf; lia]. split; [done|]. repeat split; constructor. }
  destruct (expire_pass s now) as [[s1 t]|] eqn:E.
  - destruct (expire_pass_wf _ _ _ _ (ok_wf _ Hok) E) as (_ & El & Hd & Hall & _).
    pose proof (expire_pass_ok _ _ _ _ Hok E) as O1. replace (if fn t =? 0 then (s1, tt) else (s1, tt)) with (s1, tt) by by case_match.
    rewrite El in Hf. cbn in Hf. specialize (IH s1 O1 ltac:(lia)).
    destruct (ktimer_expire fuel _ s1 tt now) as [[s' w] fired]. destruct IH as (B1 & B2 & B3 & B4 & B5).
    split; [done|]. split; [by rewrite El, B2|]. split; [by constructor|]. split; [done|].
    constructor; [done|]. rewrite B2 in Hall. by apply Forall_app in Hall as [? _].
  - split; [done|]. split; [done|]. split; [done|]. split; [|constructor].
    unfold expire_pass in E. destruct (g_head s) as [|h l] eqn:El; [done|].
    destruct (Z.ltb_spec now (deadline_ns h)); [|done]. pose proof (kt_sorted _ (ok_wf _ Hok)) as S. rewrite El in S.
    apply StronglySorted_inv in S as [_ S2]. constructor; [done|]. eapply Forall_impl; [exact S2|]. cbn. lia.
Qed.

(** When a task exits, no timer whose structure lies on its kernel stack
    stays pending, the others are untouched, and the answer is the number found. *)
Theorem ktimer_cancel_range_correct s lo hi :
  kt_ok s ->
  let '(s', n, _) := ktimer_cancel_range s lo hi in
  kt_ok s' /\ (forall k, k ∈ g_head s' <-> k ∈ g_head s /\ ~ (lo <= addr k < hi)) /\
  n = Z.of_nat (length (g_head s)) - Z.of_nat (length (g_head s')).
Proof.
  intros [[S N A] P Sm]. unfold ktimer_cancel_range.
  set (gone := filter (fun k => in_range lo hi k = true) (g_head s)).
  set (left := filter (fun k => in_range lo hi k = false) (g_head s)).
  assert (forall k, in_range lo hi k = true <-> lo <= addr k < hi) as Hr.
  { intros k. unfold in_range. rewrite andb_true_iff, Z.leb_le, Z.ltb_lt. done. }
  assert (left `sublist_of` g_head s) as Hsub by apply sublist_filter.
  assert (length (g_head s) = length gone + length left)%nat as Hlen.
  { unfold gone, left. generalize (g_head s). induction l as [|k l IH]; [done|]. rewrite !filter_cons.
    destruct (in_range lo hi k); repeat case_decide; try done; cbn [length]; lia. }
  split; [split; [split|..]; cbn|split].
  - by eapply sorted_sub.
  - eapply sublist_NoDup; [exact N|]. by apply fmap_sublist.
  - intros u. assert (forall l a, fold_left (fun a k => a⟦addr k ↦ false⟧) l a u = if decide (u ∈ addr <$> l) then false else a u) as Hf.
    { induction l as [|k l IH]; intros a; cbn; [done|]. rewrite IH, upd_eq.
      destruct (Z.eqb_spec u (addr k)) as [->|]; repeat case_decide; set_solver. }
    rewrite Hf. case_decide as Hg.
    + split; [done|]. intros (k & -> & Hk)%list_elem_of_fmap. exfalso.
      apply list_elem_of_fmap in Hg as (k' & E & Hk'). unfold left, gone in *.
      apply list_elem_of_filter in Hk as [E1 Hk], Hk' as [E2 Hk'].
      assert (in_range lo hi k = in_range lo hi k') by (unfold in_range; by rewrite E). congruence.
    + rewrite A, !list_elem_of_fmap. unfold left, gone in *. setoid_rewrite list_elem_of_filter. split.
      * intros (k & -> & Hk). exists k. split; [done|]. split; [|done].
        destruct (in_range lo hi k) eqn:E; [|done]. exfalso. apply Hg, list_elem_of_fmap. exists k.
        split; [done|]. by apply list_elem_of_filter.
      * intros (k & -> & _ & Hk). eauto.
  - assert (forall l n, Z.of_nat (length l) <= n -> fold_left (fun n (_ : ktimer) => dec_pending n) l n = n - Z.of_nat (length l)) as Hf.
    { induction l as [|k l IH]; intros n Hn; cbn [fold_left length] in *; [lia|].
      unfold dec_pending at 2. destruct (Z.eqb_spec n 0); rewrite IH; lia. }
    rewrite Hf, P; lia.
  - lia.
  - intros k. cbn. unfold left. rewrite list_elem_of_filter, <- Hr. destruct (in_range lo hi k); naive_solver.
  - cbn. lia.
Qed.

(** Three timers, the two with equal deadlines in the order they were armed. *)
Definition empty_kt : kt := Kt [] (fun _ => false) 0 0 0.
Definition three : kt := ktimer_arm (ktimer_arm (ktimer_arm empty_kt 4096 30 1) 8192 10 1) 12288 30 2.

Lemma empty_kt_ok : kt_ok empty_kt.
Proof. split; [split|..]; cbn; try done; try constructor; try done. by intros ?%not_elem_of_nil. Qed.
Lemma three_ok : kt_ok three.
Proof. do 3 (apply arm_ok; [|vm_compute; reflexivity]). exact empty_kt_ok. Qed.

Lemma ktimer_arm_correct_witness :
  g_head (ktimer_arm three 4096 30 7) = [Timer 8192 10 1; Timer 12288 30 2; Timer 4096 30 7] /\ kt_ok (ktimer_arm three 4096 30 7).
Proof.
  split; [vm_compute; reflexivity|].
  apply (ktimer_arm_correct three 4096 30 7); [exact three_ok|vm_compute; reflexivity|lia|lia].
Defined.

Lemma ktimer_expire_correct_witness :
  let '(s', _, fired) := ktimer_expire 3 (fun _ s w => (s, w)) three tt 20 in
  fired = [Timer 8192 10 1] /\ kt_ok s' /\ Forall (fun k => 20 < deadline_ns k) (g_head s').
Proof.
  pose proof (ktimer_expire_correct three 20 3 three_ok) as H.
  destruct (ktimer_expire 3 (fun _ s w => (s, w)) three tt 20) as [[s' w] fired] eqn:E.
  split.
  - apply (f_equal snd) in E. vm_compute in E. by rewrite <- E.
  - destruct H as (H1 & _ & _ & H2 & _); [vm_compute; lia|]. by split.
Defined.

Lemma ktimer_cancel_range_correct_witness :
  let '(s', n, f) := ktimer_cancel_range three 8000 13000 in n = 2 /\ f = Some 1 /\ kt_ok s'.
Proof.
  pose proof (ktimer_cancel_range_correct three 8000 13000 three_ok) as H.
  destruct (ktimer_cancel_range three 8000 13000) as [[s' n] f] eqn:E.
  pose proof (f_equal (fun p => p.1.2) E) as E1. pose proof (f_equal snd E) as E2. vm_compute in E1, E2.
  split; [done|]. split; [done|]. apply H.
Defined.
End Ktimer.
