(* ===== verification/KtimerCancel.v ===== *)
(** * Cancelling a timer against running callbacks (kernel/core/ktimer.c)

    [ktimer_cancel] waits for callbacks that other CPUs are running, reading
    [g_running] one CPU at a time while those CPUs go on expiring timers.  Each
    critical section and each read of a shared word is one event here, so every
    interleaving of the canceller with the expiring CPUs is a list of events. *)

From stdpp Require Import base list sets.
From Stdlib Require Import ZArith Lia Bool.
From S2P Require Import Prelude Ktimer.
Open Scope Z_scope.

Module Cancel.
Import Ktimer.

Definition KT_MAX_CPUS : Z := 64.

(** Where the canceller is in [ktimer_cancel]. *)
Inductive pc :=
| PUnlink (round : nat) (was : bool)                     (* about to take the lock *)
| PScan (round : nat) (was : bool) (c : Z) (busy : bool) (* about to read g_running[c] *)
| PCheck (round : nat) (was : bool)                      (* about to test armed *)
| PDone (was : bool).

Record sys := Sys { timers : kt; g_running : Z -> Z; at_pc : pc }.

Inductive event :=
| Take (c now : Z)             (* CPU c: one pass of ktimer_expire up to its unlock *)
| CbArm (c u d f : Z)          (* the callback running on CPU c arms timer u *)
| CbDone (c : Z)               (* the callback of CPU c returns *)
| Canceller.                   (* the next access of ktimer_cancel *)

Section Machine.
Context (t me : Z).                    (* the timer cancelled, and this CPU *)
Context (may_arm : Z -> Z -> bool).    (* which timers the callback of a timer arms *)

Definition cancel_access (s : sys) : option sys :=
  match at_pc s with
  | PUnlink r was =>
      if t =? 0 then Some (Sys (timers s) (g_running s) (PDone false)) else
      let '(k, u) := unlink_locked (timers s) t in
      Some (Sys k (g_running s) (PScan r (was || u) 0 false))
  | PScan r was c busy =>
      if c <? KT_MAX_CPUS
      then Some (Sys (timers s) (g_running s)
             (PScan r was (c + 1) (busy || (negb (c =? me) && (g_running s c =? t)))))
      else Some (Sys (timers s) (g_running s) (if busy then PScan r was 0 false else PCheck r was))
  | PCheck r was =>
      Some (Sys (timers s) (g_running s)
        (if negb (ktimer_armed (timers s) t) then PDone was
         else if decide (S r < 8)%nat then PUnlink (S r) was else PDone was))
  | PDone _ => None
  end.

Definition do_event (e : event) (s : sys) : option sys :=
  match e with
  | Take c now =>
      if (0 <=? c) && (c <? KT_MAX_CPUS) && (g_running s c =? 0) then
        match expire_pass (timers s) now with
        | Some (k, x) => Some (Sys k (g_running s)⟦c ↦ addr x⟧ (at_pc s))
        | None => None
        end
      else None
  | CbArm c u d f =>
      if negb (g_running s c =? 0) && may_arm (g_running s c) u
      then Some (Sys (ktimer_arm (timers s) u d f) (g_running s) (at_pc s)) else None
  | CbDone c => if g_running s c =? 0 then None else Some (Sys (timers s) (g_running s)⟦c ↦ 0⟧ (at_pc s))
  | Canceller => cancel_access s
  end.

Fixpoint run_events (es : list event) (s : sys) : option sys :=
  match es with
  | [] => Some s
  | e :: es' => s' ← do_event e s; run_events es' s'
  end.

(** Off the list, and not running on any other CPU read so far. *)
Definition scanned (s : sys) (upto : Z) : Prop :=
  t ∉ addr <$> g_head (timers s) /\
  (forall c, 0 <= c < upto -> c <> me -> g_running s c <> t).

Definition sync_inv (s : sys) : Prop :=
  kt_wf (timers s) /\
  match at_pc s with
  | PUnlink _ _ => True
  | PScan _ _ c busy => t ∉ addr <$> g_head (timers s) /\ 0 <= c <= KT_MAX_CPUS /\ (busy = false -> scanned s c)
  | PCheck _ _ | PDone _ => scanned s KT_MAX_CPUS
  end.

Context (Ht : t <> 0) (Hcb : forall x, may_arm x t = false).

Lemma not_on_armed k : kt_wf k -> t ∉ addr <$> g_head k -> ktimer_armed k t = false.
Proof.
  intros W H. unfold ktimer_armed. apply andb_false_iff. right.
  apply not_true_iff_false. by rewrite kt_armed.
Qed.

Lemma canceller_inv s s' : sync_inv s -> cancel_access s = Some s' -> sync_inv s'.
Proof.
  intros [W Hpc]. unfold cancel_access, sync_inv in *.
  destruct (at_pc s) as [r was|r was c busy|r was|was] eqn:Epc; [..|done].
  - destruct (Z.eqb_spec t 0); [done|].
    destruct (unlink_wf (timers s) t W) as (W' & Hni & _). destruct (unlink_locked (timers s) t) as [k u].
    intros [= <-]. cbn in *. split; [done|]. split; [done|]. unfold KT_MAX_CPUS. split; [lia|].
    intros _. split; [done|]. lia.
  - destruct Hpc as (Hni & Hc & Hs). destruct (Z.ltb_spec c KT_MAX_CPUS) as [Hlt|Hge]; intros [= <-]; cbn.
    + split; [done|]. split; [done|]. split; [lia|]. intros [-> Hb]%orb_false_iff.
      destruct (Hs eq_refl) as [_ Hs']. split; [done|]. cbn. intros c' Hc' Hne.
      destruct (decide (c' = c)) as [->|]; [|apply Hs'; lia].
      apply Z.eqb_neq in Hne. rewrite Hne in Hb. by apply Z.eqb_neq in Hb.
    + split; [done|]. destruct busy; cbn.
      * split; [done|]. unfold KT_MAX_CPUS. split; [lia|]. intros _. split; [done|]. lia.
      * replace c with KT_MAX_CPUS in Hs by lia. by apply Hs.
  - rewrite not_on_armed by (done || apply Hpc). intros [= <-]. by split.
Qed.

(** The expiring CPUs only take [t] off the list, and never put it back. *)
Lemma others_inv e s s' : e <> Canceller -> sync_inv s -> do_event e s = Some s' -> sync_inv s'.
Proof.
  intros Hne [W Hpc] H.
  assert (kt_wf (timers s') /\ at_pc s' = at_pc s /\
          (t ∉ addr <$> g_head (timers s) -> t ∉ addr <$> g_head (timers s') /\
             forall c, g_running s c <> t -> g_running s' c <> t)) as (W' & Epc & Hoff).
  { destruct e as [c now|c u d f|c|]; cbn in H; [..|done]; case_match eqn:E; try done.
    - destruct (expire_pass (timers s) now) as [[k x]|] eqn:Ex; [|done]. injection H as <-. cbn.
      destruct (expire_pass_wf _ _ _ _ W Ex) as (W' & El & _). split; [done|]. split; [done|].
      rewrite El. cbn. intros [Hx Hl]%not_elem_of_cons. split; [done|].
      intros c'. rewrite upd_eq. destruct (Z.eqb_spec c' c); congruence.
    - injection H as <-. cbn. destruct (arm_wf (timers s) u d f W) as [W' Hm].
      split; [done|]. split; [done|]. intros Hni. split; [|done].
      unfold ktimer_arm in *. destruct (Z.eqb_spec u 0); [done|]. destruct (Z.eqb_spec f 0); [done|].
      cbn [orb] in *. rewrite list_elem_of_fmap. intros (k & -> & [-> |[Hk _]]%Hm); [|set_solver|done|done].
      bool_props. by rewrite Hcb in *.
    - injection H as <-. cbn. split; [done|]. split; [done|]. intros Hni. split; [done|].
      intros c'. rewrite upd_eq. by destruct (Z.eqb_spec c' c). }
  unfold sync_inv, scanned in *. rewrite Epc. split; [done|].
  destruct (at_pc s); naive_solver.
Qed.

Lemma run_sync es : forall s s', sync_inv s -> run_events es s = Some s' -> sync_inv s'.
Proof.
  induction es as [|e es IH]; intros s s' Hs; cbn; [by intros [= <-]|].
  destruct (do_event e s) as [s1|] eqn:E; [|done]. cbn. apply IH.
  destruct e; try (by eapply others_inv; [..|exact E]). by eapply canceller_inv.
Qed.
End Machine.

Definition cancel_start (k : kt) (running : Z -> Z) : sys := Sys k running (PUnlink 0 false).


(** A one-shot timer at 4096 due at time 5, running on CPU 1 when CPU 0 cancels it. *)
Definition oneshot : kt := ktimer_arm empty_kt 4096 5 1.
Definition oneshot_run : list event :=
  [Take 1 7; Canceller; Canceller; Canceller; Canceller] ++ replicate 62 Canceller ++ [CbDone 1] ++ replicate 66 Canceller.

Lemma oneshot_wf : kt_wf oneshot.
Proof. apply arm_wf, empty_kt_ok. Qed.


(** A periodic timer whose callback, running on CPU 1, re-arms it and returns;
    CPU 1 takes it again after its entry in [g_running] was read. *)
Definition periodic_run : list event :=
  [Take 1 7; Canceller; CbArm 1 4096 9 1; CbDone 1; Canceller; Canceller; Take 1 11] ++ replicate 64 Canceller.

(** The wait does not cover a timer its callback re-arms.  There is an
    interleaving in which [ktimer_cancel] returns, answering that it removed
    nothing, while CPU 1 is running the timer's callback: the timer was re-armed
    and taken again after CPU 1 had been scanned, which leaves [armed] 0. *)
Theorem ktimer_cancel_rearm_race :
  exists s', run_events 4096 0 (fun _ _ => true) periodic_run (cancel_start oneshot (fun _ => 0)) = Some s' /\
    at_pc s' = PDone false /\ g_running s' 1 = 4096.
Proof.
  assert (option_map (fun s => (at_pc s, g_running s 1))
    (run_events 4096 0 (fun _ _ => true) periodic_run (cancel_start oneshot (fun _ => 0))) = Some (PDone false, 4096))
    as H by (vm_compute; reflexivity).
  destruct (run_events _ _ _ _ _) as [s'|]; [|done]. injection H as H1 H2. exists s'. split; [reflexivity|]. by split.
Qed.
End Cancel.
