(* ===== verification/Timerfd.v ===== *)
(** * Timer descriptors (kernel/core/timerfd.c)

    A client of [Ktimer]: the expiry callback counts expirations and re-arms a
    periodic timer from its deadline, so that the count a reader gets is the
    number of deadlines that have passed. *)

From stdpp Require Import base list sets sorting.
From Stdlib Require Import ZArith Lia Bool.
From S2P Require Import Prelude Ktimer.
Open Scope Z_scope.

Module Timerfd.
Import Ktimer.

(** [t] is the address of the embedded [struct ktimer]. *)
Record timerfd := Tfd { t : Z; interval_ns : Z; next_ns : Z; expirations : Z }.

(** The callback the descriptor arms its timer with. *)
Definition TFD_FIRED : Z := 1.

Definition timerfd_create_obj (addr : Z) : timerfd := Tfd addr 0 0 0.

(** [now] is what [timer_now_ns] answers inside the callback. *)
Definition tfd_fired (now : Z) (k : kt) (tf : timerfd) : kt * timerfd :=
  let e := u64 (expirations tf + 1) in
  if negb (interval_ns tf =? 0) then
    let next := u64 (next_ns tf + interval_ns tf) in
    let '(e, next) :=
      if next <=? now then
        let behind := (now - next) / interval_ns tf + 1 in
        (u64 (e + behind), u64 (next + u64 (behind * interval_ns tf)))
      else (e, next) in
    (ktimer_arm k (t tf) next TFD_FIRED, Tfd (t tf) (interval_ns tf) next e)
  else (k, Tfd (t tf) (interval_ns tf) 0 e).

(** [ktimer_cancel] when no other CPU is running this timer's callback. *)
Definition cancel_idle (k : kt) (x : Z) : kt := (unlink_locked k x).1.

Definition timerfd_close (k : kt) (tf : timerfd) : kt := cancel_idle k (t tf).

Definition timerfd_set (now : Z) (k : kt) (tf : timerfd) (abs : bool) (value interval : Z) : kt * timerfd :=
  if value =? 0 then (cancel_idle k (t tf), Tfd (t tf) 0 0 (expirations tf))
  else
    let deadline := if abs then value else u64 (now + value) in
    (ktimer_arm k (t tf) deadline TFD_FIRED, Tfd (t tf) interval deadline (expirations tf)).

Definition timerfd_get (now : Z) (tf : timerfd) : Z * Z :=
  (if negb (next_ns tf =? 0) && (now <? next_ns tf) then next_ns tf - now else 0, interval_ns tf).

Definition timerfd_can_read (tf : timerfd) : bool := negb (expirations tf =? 0).

Definition take_count (tf : timerfd) : timerfd * Z :=
  (Tfd (t tf) (interval_ns tf) (next_ns tf) 0, expirations tf).

(** One pass of the loop of [timerfd_read]: an answer, or parked on the queue.
    [stop] is [task_should_stop], [again] the count found under the queue lock. *)
Inductive read_result := RCount (n : Z) | RErr (e : Z) | RAgain | RPark.
Definition read_pass (tf : timerfd) (buf_ok : bool) (n : Z) (block stop : bool) (again : Z) : timerfd * read_result :=
  if negb buf_ok || (n <? 8) then (tf, RErr (-1))
  else
    let '(tf, count) := take_count tf in
    if negb (count =? 0) then (tf, RCount count)
    else if negb block then (tf, RErr (-1))
    else if negb (again =? 0) then (tf, RAgain)
    else if stop then (tf, RErr (-4))
    else (tf, RPark).

(** ** The deadlines reported *)

(** The callbacks of the system: this descriptor's for its own timer; the other
    timers' callbacks do not touch it. *)
Definition callbacks (now_cb : Z) (x : ktimer) (k : kt) (tf : timerfd) : kt * timerfd :=
  if addr x =? t tf then tfd_fired now_cb k tf else (k, tf).

Inductive event :=
| Tick (now now_cb : Z)   (* an expiry run started at now; the callback's clock is now_cb *)
| Read.                   (* a read that takes the count *)

(** The state also keeps the sum of the counts read so far. *)
Definition step (e : event) (s : kt * timerfd * Z) : kt * timerfd * Z :=
  let '(k, tf, total) := s in
  match e with
  | Tick now now_cb =>
      let '(k, tf, _) := ktimer_expire (length (g_head k)) (callbacks now_cb) k tf now in (k, tf, total)
  | Read => let '(tf, n) := take_count tf in (k, tf, total + n)
  end.

Fixpoint run (es : list event) (s : kt * timerfd * Z) : kt * timerfd * Z :=
  match es with [] => s | e :: es' => run es' (step e s) end.

(** [fired_at tf now tf']: the callback at clock [now] steps the deadline forward
    by whole periods, as many as it adds to the count, to just after [now]. *)
Definition fired_at (tf : timerfd) (now : Z) (tf' : timerfd) : Prop :=
  exists n, 1 <= n /\ expirations tf' = expirations tf + n /\
    next_ns tf' = next_ns tf + n * interval_ns tf /\ now < next_ns tf' <= Z.max now (next_ns tf) + interval_ns tf /\
    interval_ns tf' = interval_ns tf /\ t tf' = t tf.

Lemma tfd_fired_ok now k tf :
  0 < interval_ns tf -> 0 <= next_ns tf -> 0 <= now -> Z.max now (next_ns tf) + interval_ns tf < 2 ^ 64 ->
  0 <= expirations tf -> expirations tf * interval_ns tf <= next_ns tf ->
  let '(k', tf') := tfd_fired now k tf in
  fired_at tf now tf' /\ k' = ktimer_arm k (t tf) (next_ns tf') TFD_FIRED.
Proof.
  intros Hi Hn Hnow Hb He Hcnt. unfold tfd_fired.
  destruct (Z.eqb_spec (interval_ns tf) 0) as [|_]; [lia|]. cbn [negb].
  destruct tf as [a iv nx ex]; cbn [interval_ns next_ns expirations t] in *.
  assert (ex <= nx) by nia. rewrite (u64_small (ex + 1)), (u64_small (nx + iv)) by lia.
  destruct (Z.leb_spec (nx + iv) now) as [Hle|Hgt].
  - pose proof (Z.div_mod (now - (nx + iv)) iv ltac:(lia)) as Hdm.
    pose proof (Z.mod_pos_bound (now - (nx + iv)) iv Hi) as Hmod.
    set (q := (now - (nx + iv)) / iv) in *. assert (0 <= q) by (apply Z.div_pos; lia).
    assert (0 <= (q + 1) * iv /\ nx + iv + (q + 1) * iv = now + iv - (now - (nx + iv)) mod iv) by nia.
    assert (ex + 1 + (q + 1) < 2 ^ 64) by nia.
    rewrite (u64_small ((q + 1) * iv)), !u64_small by lia.
    split; [|done]. exists (q + 2). cbn. repeat split; lia.
  - split; [|done]. exists 1. cbn. repeat split; lia.
Qed.

(** The timer is on the list, armed for the descriptor's deadline. *)
Definition armed_for (k : kt) (tf : timerfd) : Prop :=
  kt_wf k /\ Timer (t tf) (next_ns tf) TFD_FIRED ∈ g_head k.

Definition counts_ok (v iv total : Z) (tf : timerfd) : Prop :=
  interval_ns tf = iv /\ 0 <= expirations tf /\ 0 <= total /\ next_ns tf = v + iv * (total + expirations tf).

Lemma armed_unique k tf x : armed_for k tf -> x ∈ g_head k -> addr x = t tf -> x = Timer (t tf) (next_ns tf) TFD_FIRED.
Proof.
  intros [W Ht] Hx E. destruct W as [_ N _].
  apply list_elem_of_lookup in Hx as [i Hi], Ht as [j Hj].
  assert (i = j) as <-; [|congruence].
  eapply NoDup_lookup; [exact N|rewrite list_lookup_fmap, Hi; done|rewrite list_lookup_fmap, Hj; cbn; congruence].
Qed.

Definition due (now : Z) (l : list ktimer) : nat := length (filter (fun x => deadline_ns x <= now) l).

Lemma due_le now l : (due now l <= length l)%nat.
Proof. apply length_filter. Qed.

Lemma arm_due now k x d f : x ∉ addr <$> g_head k -> now < d ->
  due now (g_head (ktimer_arm k x d f)) = due now (g_head k).
Proof.
  intros Hni Hd. unfold due. f_equal. unfold ktimer_arm. case_match; [done|]. cbn [g_head].
  assert ((unlink_locked k x).1 = k) as ->.
  { unfold unlink_locked. destruct (on_list (g_head k) x) eqn:E; [|done]. by apply on_list_spec in E. }
  generalize (g_head k). induction l as [|h l IH]; cbn [insert_in].
  - rewrite filter_cons_False; [done|cbn; lia].
  - case_match; rewrite !filter_cons; [by rewrite IH|].
    rewrite decide_False by (cbn; lia). done.
Qed.

(** One pass takes off one due timer: this descriptor's, or another. *)
Lemma pass_cases k tf now k1 x :
  armed_for k tf -> expire_pass k now = Some (k1, x) ->
  due now (g_head k) = S (due now (g_head k1)) /\ kt_wf k1 /\
  (x = Timer (t tf) (next_ns tf) TFD_FIRED /\ next_ns tf <= now /\ t tf ∉ addr <$> g_head k1 \/
   addr x <> t tf /\ armed_for k1 tf).
Proof.
  intros Ha E. destruct (expire_pass_wf _ _ _ _ (proj1 Ha) E) as (W1 & El & Hd & _).
  split; [unfold due; rewrite El, filter_cons_True by done; done|]. split; [done|].
  assert (NoDup (addr <$> g_head k)) as N by apply Ha. rewrite El in N. apply NoDup_cons in N as [Hx _].
  destruct (decide (addr x = t tf)) as [Ex|Hne]; [left|right].
  - assert (x = Timer (t tf) (next_ns tf) TFD_FIRED) as -> by (apply (armed_unique k); [done|rewrite El; set_solver|done]).
    done.
  - split; [done|]. split; [done|]. destruct Ha as [_ Ht]. rewrite El in Ht.
    apply elem_of_cons in Ht as [<-|]; [done|done].
Qed.

Lemma expire_quiet now_cb now fuel : forall k tf,
  armed_for k tf -> now < next_ns tf ->
  let '(k', tf', _) := ktimer_expire fuel (callbacks now_cb) k tf now in
  armed_for k' tf' /\ tf' = tf.
Proof.
  induction fuel as [|fuel IH]; intros k tf Ha Hq; cbn [ktimer_expire]; [done|].
  destruct (expire_pass k now) as [[k1 x]|] eqn:E; [|done].
  destruct (pass_cases _ _ _ _ _ Ha E) as (_ & _ & [(-> & ? & _)|[Hne H1]]); [lia|].
  unfold callbacks at 1. apply Z.eqb_neq in Hne. rewrite Hne.
  replace (if fn x =? 0 then (k1, tf) else (k1, tf)) with (k1, tf) by by case_match.
  specialize (IH k1 tf H1 Hq). by destruct (ktimer_expire fuel _ k1 tf now) as [[k' tf'] l].
Qed.

Section Expiry.
Context (now now_cb : Z).

Lemma expire_loop fuel : forall k tf,
  armed_for k tf -> t tf <> 0 -> 0 <= now <= now_cb ->
  0 < interval_ns tf -> 0 <= next_ns tf -> Z.max now_cb (next_ns tf) + interval_ns tf < 2 ^ 64 ->
  0 <= expirations tf -> expirations tf * interval_ns tf <= next_ns tf ->
  (due now (g_head k) <= fuel)%nat ->
  let '(k', tf', _) := ktimer_expire fuel (callbacks now_cb) k tf now in
  armed_for k' tf' /\ now < next_ns tf' /\ (tf' = tf \/ next_ns tf <= now /\ fired_at tf now_cb tf').
Proof.
  induction fuel as [|fuel IH]; intros k tf Ha Ht Hnow Hi Hn Hb He Hc Hf; cbn [ktimer_expire].
  - split; [done|]. split; [|by left]. destruct (Z.lt_ge_cases now (next_ns tf)) as [|Hge]; [done|].
    destruct Ha as [_ Hin]. assert (Timer (t tf) (next_ns tf) TFD_FIRED ∈ filter (fun x => deadline_ns x <= now) (g_head k)) as H
      by (apply list_elem_of_filter; done).
    unfold due in Hf. destruct (filter _ _); [by apply elem_of_nil in H|cbn in Hf; lia].
  - destruct (expire_pass k now) as [[k1 x]|] eqn:E.
    + destruct (pass_cases _ _ _ _ _ Ha E) as (Hdue & W1 & [(-> & Hle & Hni)|[Hne H1]]).
      * cbn [fn]. change (TFD_FIRED =? 0) with false. cbn iota. unfold callbacks at 1. cbn [addr]. rewrite Z.eqb_refl.
        pose proof (tfd_fired_ok now_cb k1 tf Hi Hn ltac:(lia) Hb He Hc) as Hfire.
        destruct (tfd_fired now_cb k1 tf) as [k2 tf2]. destruct Hfire as [Hfire ->].
        destruct (arm_wf k1 (t tf) (next_ns tf2) TFD_FIRED W1) as [W2 Hm].
        assert (t tf2 = t tf /\ now_cb < next_ns tf2) as [Et Hlt] by (destruct Hfire as (? & _ & _ & _ & ? & _ & ?); split; [done|lia]).
        assert (armed_for (ktimer_arm k1 (t tf) (next_ns tf2) TFD_FIRED) tf2) as A2.
        { split; [done|]. apply Hm; [done|done|]. left. by rewrite Et. }
        pose proof (expire_quiet now_cb now fuel _ tf2 A2 ltac:(lia)) as Hq.
        destruct (ktimer_expire fuel _ _ tf2 now) as [[k' tf'] l]. destruct Hq as [A' ->].
        split; [done|]. split; [lia|]. by right.
      * unfold callbacks at 1. apply Z.eqb_neq in Hne. rewrite Hne.
        replace (if fn x =? 0 then (k1, tf) else (k1, tf)) with (k1, tf) by by case_match.
        specialize (IH k1 tf H1 Ht Hnow Hi Hn Hb He Hc ltac:(lia)).
        by destruct (ktimer_expire fuel _ k1 tf now) as [[k' tf'] l].
    + split; [done|]. split; [|by left]. destruct Ha as [W Hin]. unfold expire_pass in E.
      destruct (g_head k) as [|h l] eqn:El; [by apply elem_of_nil in Hin|].
      destruct (Z.ltb_spec now (deadline_ns h)); [|done].
      pose proof (kt_sorted _ W) as S. rewrite El in S. apply StronglySorted_inv in S as [_ S].
      rewrite Forall_forall in S. apply elem_of_cons in Hin as [<-|Hin]; [done|]. specialize (S _ Hin). cbn in S. lia.
Qed.
End Expiry.

(** The clocks of the events: each at most [bound], callbacks not before their run. *)
Definition clocks_ok (bound : Z) (e : event) : Prop :=
  match e with Tick now now_cb => 0 <= now <= now_cb /\ now_cb <= bound | Read => True end.

Definition last_tick (es : list event) (d : Z) : Z :=
  fold_left (fun a e => match e with Tick now _ => now | Read => a end) es d.

Lemma run_counts v iv bound es : forall k tf total d,
  armed_for k tf -> t tf <> 0 -> 0 < iv -> 0 <= v -> bound + 2 * iv < 2 ^ 64 ->
  counts_ok v iv total tf -> d < next_ns tf <= bound + iv -> Forall (clocks_ok bound) es ->
  let '(k', tf', total') := run es (k, tf, total) in
  armed_for k' tf' /\ counts_ok v iv total' tf' /\ last_tick es d < next_ns tf' <= bound + iv /\ t tf' = t tf.
Proof.
  induction es as [|e es IH]; intros k tf total d Ha Ht Hiv Hv Hb Hcnt Hd Hes; cbn [run last_tick fold_left]; [done|].
  apply Forall_cons in Hes as [He Hes]. destruct Hcnt as (C1 & C2 & C3 & C4). destruct e as [now now_cb|]; cbn [step].
  - destruct He as [Hn1 Hn2].
    pose proof (expire_loop now now_cb (length (g_head k)) k tf Ha Ht Hn1 ltac:(lia) ltac:(nia) ltac:(lia) C2 ltac:(nia) (due_le _ _)) as H.
    destruct (ktimer_expire _ _ k tf now) as [[k1 tf1] l]. destruct H as (A1 & Hlt & Hor).
    assert (counts_ok v iv total tf1 /\ next_ns tf1 <= bound + iv /\ t tf1 = t tf) as (Hc1 & Hb1 & Et).
    { destruct Hor as [->|(Hle & n & N1 & N2 & N3 & N4 & N5 & N6)]; [split; [done|split; [lia|done]]|].
      rewrite C1 in *. split; [|split; [lia|done]]. split; [done|]. split; [lia|]. split; [done|]. rewrite N3, N2, C4. nia. }
    specialize (IH k1 tf1 total now A1 ltac:(congruence) Hiv Hv Hb Hc1 ltac:(lia) Hes).
    destruct (run es (k1, tf1, total)) as [[k' tf'] total']. rewrite Et in IH. done.
  - specialize (IH k (take_count tf).1 (total + expirations tf) d Ha Ht Hiv Hv Hb).
    apply IH; [|done|done]. split; [done|]. cbn. split; [lia|]. split; [lia|]. by rewrite Z.add_0_r.
Qed.

(** A periodic timer descriptor neither loses nor invents an expiration and
    does not drift.  Armed at the absolute time [v] with period [iv], after any
    sequence of expiry runs (late by any amount, with other timers pending) and
    reads, the counts read so far plus the count still pending are exactly the
    number of deadlines v, v + iv, v + 2 iv, ... before the descriptor's next one,
    which is one of them, later than the last run's clock, and on the timer list. *)
Theorem timerfd_counts_deadlines k tf v iv bound now es :
  kt_wf k -> t tf <> 0 -> expirations tf = 0 -> 0 < iv -> 0 < v <= bound -> bound + 2 * iv < 2 ^ 64 ->
  Forall (clocks_ok bound) es ->
  let '(k0, tf0) := timerfd_set now k tf true v iv in
  let '(k', tf', total) := run es (k0, tf0, 0) in
  Timer (t tf') (next_ns tf') TFD_FIRED ∈ g_head k' /\
  next_ns tf' = v + iv * (total + expirations tf') /\ last_tick es (-1) < next_ns tf'.
Proof.
  intros W Ht He Hiv Hv Hb Hes. unfold timerfd_set. destruct (Z.eqb_spec v 0) as [|_]; [lia|].
  destruct (arm_wf k (t tf) v TFD_FIRED W) as [W' Hm].
  pose proof (run_counts v iv bound es (ktimer_arm k (t tf) v TFD_FIRED) (Tfd (t tf) iv v (expirations tf)) 0 (-1)) as H.
  destruct (run es _) as [[k' tf'] total]. destruct H as ([_ A] & (_ & _ & _ & C) & D & _); try done; try lia.
  - split; [done|]. cbn. apply Hm; [done|done|by left].
  - split; [done|]. cbn. rewrite He. lia.
  - cbn. lia.
  - split; [exact A|]. split; [exact C|]. lia.
Qed.

Lemma timerfd_counts_deadlines_witness :
  let '(k', tf', total) := run [Tick 5 5; Tick 34 35; Read; Tick 41 41] (timerfd_set 0 empty_kt (timerfd_create_obj 4096) true 10 10, 0) in
  Timer (t tf') (next_ns tf') TFD_FIRED ∈ g_head k' /\
  next_ns tf' = 10 + 10 * (total + expirations tf') /\ 41 < next_ns tf'.
Proof.
  apply (timerfd_counts_deadlines empty_kt (timerfd_create_obj 4096) 10 10 100 0 [Tick 5 5; Tick 34 35; Read; Tick 41 41]);
    [exact (ok_wf _ empty_kt_ok)|cbn; lia|reflexivity|lia|lia|lia|repeat constructor; cbn; lia].
Defined.

(** A timer descriptor's read takes the whole count, or leaves the count at
    zero and parks only when a second look under the queue's lock found nothing. *)
Theorem timerfd_read_correct tf n block stop again :
  8 <= n ->
  match read_pass tf true n block stop again with
  | (tf', RCount c) => timerfd_can_read tf = true /\ c = expirations tf /\ timerfd_can_read tf' = false /\ next_ns tf' = next_ns tf
  | (tf', RPark) => tf' = tf /\ timerfd_can_read tf = false /\ block = true /\ again = 0 /\ stop = false
  | (tf', RAgain) => tf' = tf /\ block = true /\ again <> 0
  | (tf', RErr e) => tf' = tf /\ timerfd_can_read tf = false /\ (e = -1 /\ block = false \/ e = -4 /\ stop = true)
  end.
Proof.
  intros Hn. unfold read_pass. destruct (Z.ltb_spec n 8) as [|_]; [lia|]. cbn [negb orb take_count].
  unfold timerfd_can_read. destruct tf as [a i nx e]; cbn. destruct (Z.eqb_spec e 0) as [->|]; cbn; [|done].
  destruct block, (Z.eqb_spec again 0), stop; cbn; naive_solver.
Qed.

Lemma timerfd_read_correct_witness :
  match read_pass (Tfd 4096 10 50 3) true 8 true false 0 with
  | (tf', RCount c) => c = 3 /\ timerfd_can_read tf' = false
  | _ => False
  end.
Proof.
  pose proof (timerfd_read_correct (Tfd 4096 10 50 3) 8 true false 0 ltac:(lia)) as H.
  cbn in *. split; [reflexivity|apply H].
Defined.
End Timerfd.
