(* ===== verification/Eventfd.v ===== *)
(** * Event counters behind a descriptor (kernel/core/eventfd.c)

    A 64-bit counter: a write adds, a read takes all of it (or one, in semaphore
    mode), and each waits when it cannot proceed.  One pass of a call's loop is a
    function; a call that waits is a sequence of passes between which the counter
    may have changed. *)

From stdpp Require Import base list relations.
From Stdlib Require Import ZArith Lia Bool.
From S2P Require Import Prelude.
Open Scope Z_scope.

Module Eventfd.

Definition EFD_MAX : Z := 0xFFFFFFFFFFFFFFFE.

Record eventfd := Efd { count : Z; semaphore : bool }.

Definition eventfd_create_obj (init : Z) (sem : bool) : eventfd := Efd (u64 init) sem.

(** How one pass ends: the call returns, it goes round again at once, or it
    parks on the queue first. *)
Inductive outcome := Ret (r : Z) (v : Z) | Again | Park.

(** [stop] is [task_should_stop]; [later] the counter as read under the queue's
    lock, after the counter's own lock was released. *)
Definition read_pass (e : eventfd) (n : Z) (block stop : bool) (later : Z) : eventfd * outcome :=
  if n <? 8 then (e, Ret (-22) 0)
  else if negb (count e =? 0) then
    if semaphore e then (Efd (u64 (count e - 1)) true, Ret 8 1)
    else (Efd 0 false, Ret 8 (count e))
  else if negb block then (e, Ret (-11) 0)
  else if stop then (e, Ret (-4) 0)
  else if later =? 0 then (e, Park) else (e, Again).

Definition write_pass (e : eventfd) (n v : Z) (block stop : bool) (later : Z) : eventfd * outcome :=
  if n <? 8 then (e, Ret (-22) 0)
  else if v =? 0xFFFFFFFFFFFFFFFF then (e, Ret (-22) 0)
  else if (u64 (count e + v) <=? EFD_MAX) && (count e <=? u64 (count e + v)) then
    (Efd (u64 (count e + v)) (semaphore e), Ret 8 v)
  else if negb block then (e, Ret (-11) 0)
  else if stop then (e, Ret (-4) 0)
  else if EFD_MAX <? u64 (later + v) then (e, Park) else (e, Again).

Definition eventfd_can_read (e : eventfd) : bool := negb (count e =? 0).
Definition eventfd_can_write (e : eventfd) : bool := count e <? EFD_MAX.

(** ** The abstract counter *)

Definition efd_ok (e : eventfd) : Prop := 0 <= count e <= EFD_MAX.
Definition word (v : Z) : Prop := 0 <= v < 2 ^ 64.

(** The guard of the addition is exactly "the true sum fits". *)
Lemma add_guard c v : 0 <= c <= EFD_MAX -> 0 <= v < 2 ^ 64 - 1 ->
  (u64 (c + v) <=? EFD_MAX) && (c <=? u64 (c + v)) = (c + v <=? EFD_MAX).
Proof.
  unfold EFD_MAX. intros Hc Hv.
  destruct (Z.leb_spec (c + v) 0xFFFFFFFFFFFFFFFE) as [Hle|Hgt].
  - rewrite u64_small by lia. apply andb_true_iff. split; apply Z.leb_le; lia.
  - apply andb_false_iff. destruct (decide (c + v = 2 ^ 64 - 1)) as [E|E].
    + left. rewrite E. done.
    + right. apply Z.leb_gt. unfold u64.
      replace (c + v) with ((c + v - 18446744073709551616) + 1 * 18446744073709551616) by lia.
      rewrite Z.mod_add, Z.mod_small by lia. lia.
Qed.

(** A write of [v] succeeds exactly when the true sum stays at most
    0xFFFFFFFFFFFFFFFE, and then adds it; otherwise the counter is unchanged.
    The value 2^64 - 1 and short buffers are refused. *)
Theorem eventfd_write_correct e n v block stop later :
  efd_ok e -> word v ->
  let '(e', o) := write_pass e n v block stop later in
  efd_ok e' /\
  match o with
  | Ret 8 w => w = v /\ count e' = count e + v
  | Ret r _ => e' = e /\ (r = -22 /\ (n < 8 \/ v = 2 ^ 64 - 1) \/
                 EFD_MAX < count e + v /\ (r = -11 /\ block = false \/ r = -4 /\ stop = true))
  | Again | Park => e' = e /\ EFD_MAX < count e + v
  end.
Proof.
  intros He Hv. unfold write_pass, word in *. destruct (Z.ltb_spec n 8); [naive_solver|].
  destruct (Z.eqb_spec v 0xFFFFFFFFFFFFFFFF); [naive_solver|].
  rewrite add_guard by (done || lia). unfold efd_ok in *.
  destruct (Z.leb_spec (count e + v) EFD_MAX).
  - unfold EFD_MAX in *. cbn [count]. rewrite u64_small by lia. split; [lia|]. done.
  - destruct block, stop; cbn; repeat case_match; naive_solver.
Qed.

Lemma eventfd_write_correct_witness :
  write_pass (Efd 5 false) 8 (EFD_MAX - 5) true false 0 = (Efd EFD_MAX false, Ret 8 (EFD_MAX - 5)) /\
  efd_ok (write_pass (Efd 5 false) 8 (EFD_MAX - 5) true false 0).1.
Proof.
  split; [vm_compute; reflexivity|].
  pose proof (eventfd_write_correct (Efd 5 false) 8 (EFD_MAX - 5) true false 0) as H.
  destruct (write_pass _ _ _ _ _ _). apply H; unfold efd_ok, word, EFD_MAX; cbn; lia.
Defined.

(** A read answers the whole counter and leaves 0, or one and leaves one less
    in semaphore mode; on an empty counter it changes nothing, and it parks only
    if the counter was still empty when looked at under the queue's lock. *)
Theorem eventfd_read_correct e n block stop later :
  efd_ok e -> 8 <= n ->
  let '(e', o) := read_pass e n block stop later in
  efd_ok e' /\
  match o with
  | Ret r v => if r =? 8 then eventfd_can_read e = true /\ count e' = count e - v /\ v = (if semaphore e then 1 else count e)
               else e' = e /\ eventfd_can_read e = false /\ (r = -11 /\ block = false \/ r = -4 /\ stop = true)
  | Again => e' = e /\ eventfd_can_read e = false /\ later <> 0
  | Park => e' = e /\ eventfd_can_read e = false /\ later = 0
  end.
Proof.
  intros He Hn. unfold read_pass, eventfd_can_read, efd_ok in *. destruct (Z.ltb_spec n 8); [lia|].
  destruct e as [c sem]; cbn in *. destruct (Z.eqb_spec c 0) as [->|Hc]; cbn.
  - destruct block, stop; cbn; try (destruct (Z.eqb_spec later 0)); naive_solver.
  - unfold EFD_MAX in *. destruct sem; cbn; [rewrite u64_small by lia|]; split; try lia; (split; [done|lia]).
Qed.

Lemma eventfd_read_correct_witness :
  read_pass (Efd 5 true) 8 true false 0 = (Efd 4 true, Ret 8 1) /\ efd_ok (read_pass (Efd 5 true) 8 true false 0).1.
Proof.
  split; [vm_compute; reflexivity|].
  pose proof (eventfd_read_correct (Efd 5 true) 8 true false 0) as H.
  destruct (read_pass _ _ _ _ _). apply H; unfold efd_ok, EFD_MAX; cbn; lia.
Defined.

(** ** The readiness answers, and the writer's wait *)

(** [can_write] is the answer poll needs: it is true exactly when a write of
    the smallest non-zero value would succeed now. *)
Theorem eventfd_poll_correct e :
  efd_ok e ->
  (eventfd_can_write e = true <-> exists e', write_pass e 8 1 false false 0 = (e', Ret 8 1)) /\
  (eventfd_can_read e = true <-> exists e' v, read_pass e 8 false false 0 = (e', Ret 8 v)).
Proof.
  intros He. unfold efd_ok, eventfd_can_write, eventfd_can_read, write_pass, read_pass in *.
  rewrite add_guard by (done || lia). destruct (Z.ltb_spec 8 8); [lia|]. split.
  - rewrite Z.ltb_lt. change (1 =? _) with false. cbn iota. destruct (Z.leb_spec (count e + 1) EFD_MAX); split; try lia; eauto; by intros [? [=]].
  - destruct (count e =? 0), (semaphore e); cbn; split; eauto; try done; by intros (? & ? & [=]).
Qed.

Lemma eventfd_poll_correct_witness : eventfd_can_write (Efd (EFD_MAX - 1) false) = true /\
  exists e', write_pass (Efd (EFD_MAX - 1) false) 8 1 false false 0 = (e', Ret 8 1).
Proof.
  split; [reflexivity|]. apply (eventfd_poll_correct (Efd (EFD_MAX - 1) false)); [unfold efd_ok, EFD_MAX; cbn; lia|reflexivity].
Defined.

(** A blocking write that cannot proceed does not always park.  The test
    before parking adds in 64 bits without the carry check of the addition, so
    unless the true sum is exactly 2^64 - 1 the writer goes round its loop again
    at once, and does so for as long as nobody reads. *)
Theorem eventfd_write_spins e v :
  efd_ok e -> word v -> v <> 2 ^ 64 - 1 -> EFD_MAX < count e + v ->
  write_pass e 8 v true false (count e) = (e, if count e + v =? 2 ^ 64 - 1 then Park else Again).
Proof.
  unfold efd_ok, word. intros He Hv Hne Hbig. unfold write_pass. destruct (Z.ltb_spec 8 8); [lia|].
  destruct (Z.eqb_spec v 0xFFFFFFFFFFFFFFFF); [lia|]. rewrite add_guard by (done || lia).
  destruct (Z.leb_spec (count e + v) EFD_MAX); [lia|]. cbn [negb]. unfold EFD_MAX in *.
  destruct (Z.eqb_spec (count e + v) (2 ^ 64 - 1)) as [->|Hs]; [done|].
  destruct (Z.ltb_spec 0xFFFFFFFFFFFFFFFE (u64 (count e + v))) as [H1|]; [|done].
  unfold u64 in H1. replace (count e + v) with ((count e + v - 18446744073709551616) + 1 * 18446744073709551616) in H1 by lia.
  rewrite Z.mod_add, Z.mod_small in H1 by lia. lia.
Qed.

Lemma eventfd_write_spins_witness :
  write_pass (Efd EFD_MAX false) 8 2 true false EFD_MAX = (Efd EFD_MAX false, Again).
Proof.
  apply (eventfd_write_spins (Efd EFD_MAX false) 2); unfold efd_ok, word, EFD_MAX; cbn; lia.
Defined.

(** ** Nothing is lost between writers and readers *)

(** The passes of all the callers, in the order their critical sections ran. *)
Record trace := Trace { obj : eventfd; written : Z; taken : Z }.

Definition ret8 (o : outcome) : Z := match o with Ret 8 v => v | _ => 0 end.

Inductive step : trace -> trace -> Prop :=
| step_read e w t n block stop later e' o :
    read_pass e n block stop later = (e', o) -> step (Trace e w t) (Trace e' w (t + ret8 o))
| step_write e w t n v block stop later e' o :
    word v -> write_pass e n v block stop later = (e', o) -> step (Trace e w t) (Trace e' (w + ret8 o) t).

Lemma read_ret8 e n block stop later : efd_ok e ->
  let '(e', o) := read_pass e n block stop later in efd_ok e' /\ count e' = count e - ret8 o.
Proof.
  unfold read_pass, efd_ok. intros He. destruct e as [c sem]; cbn in *. destruct (n <? 8); [cbn; lia|].
  destruct (Z.eqb_spec c 0) as [->|]; cbn.
  - destruct block, stop, (later =? 0); cbn; lia.
  - unfold EFD_MAX in *. destruct sem; cbn; [rewrite u64_small by lia|]; lia.
Qed.

Lemma write_ret8 e n v block stop later : efd_ok e -> word v ->
  let '(e', o) := write_pass e n v block stop later in efd_ok e' /\ count e' = count e + ret8 o.
Proof.
  unfold write_pass, efd_ok, word. intros He Hv. destruct (n <? 8); [cbn; lia|].
  destruct (Z.eqb_spec v 0xFFFFFFFFFFFFFFFF); [cbn; lia|]. rewrite add_guard by (done || lia).
  destruct (Z.leb_spec (count e + v) EFD_MAX); cbn.
  - unfold EFD_MAX in *. rewrite u64_small by lia. lia.
  - destruct block, stop, (EFD_MAX <? u64 (later + v)); cbn; lia.
Qed.

(** Over every interleaving of readers and writers, the counter is what was
    put in less what was taken out, and stays at most 0xFFFFFFFFFFFFFFFE. *)
Theorem eventfd_conserves init s :
  0 <= init <= EFD_MAX -> forall sem, rtc step (Trace (eventfd_create_obj init sem) 0 0) s ->
  efd_ok (obj s) /\ count (obj s) = init + written s - taken s.
Proof.
  intros Hi sem H.
  eapply (rtc_invariant step (fun a => efd_ok (obj a) /\ count (obj a) = init + written a - taken a)); [exact H| |].
  { intros a b Hab [Ho Hc].
    destruct Hab as [e w t n block stop later e' o E|e w t n v block stop later e' o Hv E]; cbn in *.
    - pose proof (read_ret8 e n block stop later Ho) as Hx. rewrite E in Hx. split; [apply Hx|lia].
    - pose proof (write_ret8 e n v block stop later Ho Hv) as Hx. rewrite E in Hx. split; [apply Hx|lia]. }
  unfold eventfd_create_obj, efd_ok, EFD_MAX in *. cbn. rewrite u64_small by lia. lia.
Qed.

Lemma eventfd_conserves_witness : let s := Trace (Efd 9 true) 10 2 in
  rtc step (Trace (eventfd_create_obj 1 true) 0 0) s /\ efd_ok (obj s) /\ count (obj s) = 1 + written s - taken s.
Proof.
  intros s. assert (rtc step (Trace (eventfd_create_obj 1 true) 0 0) s) as H.
  { eapply rtc_l; [apply (step_write _ _ _ 8 10 true false 0 (Efd 11 true) (Ret 8 10)); [unfold word; lia|reflexivity]|].
    eapply rtc_l; [apply (step_read _ _ _ 8 true false 0 (Efd 10 true) (Ret 8 1)); reflexivity|].
    eapply rtc_l; [apply (step_read _ _ _ 8 true false 0 (Efd 9 true) (Ret 8 1)); reflexivity|]. apply rtc_refl. }
  split; [exact H|]. apply (eventfd_conserves 1 s ltac:(unfold EFD_MAX; lia) true H).
Defined.
End Eventfd.
