(* ===== verification/Flock.v ===== *)
(** * Advisory file locks (kernel/core/flock.c)

    A table of locks, each on an inode and owned by an open file description,
    guarded by one wait queue's lock.  A call runs in pieces: from its entry or
    from a wake-up to its return or its next wait; each piece is a function on
    the table, and the system is the step relation of all callers' pieces. *)

From stdpp Require Import base list relations sets.
From Stdlib Require Import ZArith Lia Bool.
From S2P Require Import Prelude.
Open Scope Z_scope.

Module Flock.

Definition FLOCK_MAX : nat := 64.
Definition LOCK_SH_ : Z := 1.
Definition LOCK_EX_ : Z := 2.
Definition LOCK_NB_ : Z := 4.
Definition LOCK_UN_ : Z := 8.

Record flk := Flk { ino : Z; owner : Z; excl : bool }.   (* ino 0 = free slot *)
Notation table := (list flk).
Definition init : table := replicate FLOCK_MAX (Flk 0 0 false).

(** [inode_of] answers 0 for a description that is not a file. *)
Section Inodes.
Context (inode_of : Z -> Z).

Definition is_own (i o : Z) (f : flk) : bool := (ino f =? i) && (owner f =? o).
Definition free_slot (f : flk) : flk := Flk 0 0 (excl f).

Definition own_locked (tb : table) (i o : Z) : option (nat * flk) := list_find (fun f => is_own i o f = true) tb.

Definition conflicts_locked (tb : table) (i o : Z) (ex : bool) : bool :=
  existsb (fun f => (ino f =? i) && negb (owner f =? o) && (ex || excl f)) tb.

(** [mine->ino = NULL; mine->owner = NULL] *)
Definition clear (tb : table) (n : nat) : table := alter free_slot n tb.

Fixpoint take_slot (tb : table) (e : flk) : option table :=
  match tb with
  | [] => None
  | f :: tb' => if ino f =? 0 then Some (e :: tb') else (f ::.) <$> take_slot tb' e
  end.

Inductive outcome := Ret (r : Z) | Wait.

(** From the [while] to the end: run on entry and after every wake-up. *)
Definition acquire (tb : table) (o : Z) (ex nb stop : bool) : table * outcome :=
  if conflicts_locked tb (inode_of o) o ex then
    if nb then (tb, Ret (-11)) else if stop then (tb, Ret (-4)) else (tb, Wait)
  else match take_slot tb (Flk (inode_of o) o ex) with
       | Some tb' => (tb', Ret 0)
       | None => (tb, Ret (-37))
       end.

Definition flock_op (tb : table) (o op : Z) (stop : bool) : table * outcome :=
  if (o =? 0) then (tb, Ret (-9)) else
  if inode_of o =? 0 then (tb, Ret 0) else
  let nb := negb (Z.land op LOCK_NB_ =? 0) in
  let op := Z.land op (Z.lnot LOCK_NB_) in
  if negb (op =? LOCK_SH_) && negb (op =? LOCK_EX_) && negb (op =? LOCK_UN_) then (tb, Ret (-22)) else
  let mine := own_locked tb (inode_of o) o in
  if op =? LOCK_UN_ then
    (match mine with Some (n, _) => clear tb n | None => tb end, Ret 0)
  else
    let ex := op =? LOCK_EX_ in
    match mine with
    | Some (n, f) => if Bool.eqb (excl f) ex then (tb, Ret 0) else acquire (clear tb n) o ex nb stop
    | None => acquire tb o ex nb stop
    end.

(** [is_file o]: [o->kind == FD_VFS]. *)
Definition flock_release (is_file : Z -> bool) (tb : table) (o : Z) : table :=
  if (o =? 0) || negb (is_file o) then tb
  else (fun f => if owner f =? o then free_slot f else f) <$> tb.

(** ** What the table says *)

(** Owner [o] has an entry of kind [ex] for its inode. *)
Definition holds (tb : table) (o : Z) (ex : bool) : Prop := Flk (inode_of o) o ex ∈ tb.

(** Every entry in use is one of a file's owner, and an exclusive one is alone. *)
Record tab_ok (tb : table) : Prop := {
  ok_entry : forall f, f ∈ tb -> ino f = 0 \/ (ino f = inode_of (owner f) /\ owner f <> 0);
  ok_excl : forall o o' ex', o <> o' -> inode_of o = inode_of o' -> inode_of o <> 0 ->
            holds tb o true -> holds tb o' ex' -> False
}.

Lemma conflicts_spec tb o ex : tab_ok tb -> inode_of o <> 0 ->
  (conflicts_locked tb (inode_of o) o ex = true <->
   exists o' ex', o' <> o /\ inode_of o' = inode_of o /\ holds tb o' ex' /\ (ex = true \/ ex' = true)).
Proof.
  intros [Hent _] Hi. unfold conflicts_locked. rewrite existsb_exists. split.
  - intros (f & Hf%list_elem_of_In & E). bool_props. destruct (Hent f Hf) as [|[E1 E2]]; [congruence|].
    exists (owner f), (excl f). split; [done|]. split; [congruence|]. split; [|by apply orb_true_iff].
    unfold holds. rewrite <- E1. by destruct f.
  - intros (o' & ex' & Hne & Ei & Hh & Hx). eexists. split; [apply list_elem_of_In, Hh|]. cbn.
    rewrite Ei, Z.eqb_refl. apply Z.eqb_neq in Hne. rewrite Hne. cbn. by apply orb_true_iff.
Qed.

Lemma take_slot_spec tb e tb' : take_slot tb e = Some tb' ->
  exists l1 f l2, tb = l1 ++ f :: l2 /\ ino f = 0 /\ tb' = l1 ++ e :: l2.
Proof.
  revert tb'. induction tb as [|f tb IH]; intros tb'; cbn; [done|].
  destruct (Z.eqb_spec (ino f) 0); [intros [= <-]; by exists [], f, tb|].
  destruct (take_slot tb e) as [tb1|]; [|done]. cbn. intros [= <-].
  destruct (IH _ eq_refl) as (l1 & g & l2 & -> & E & ->). by exists (f :: l1), g, l2.
Qed.

Lemma take_slot_holds tb o ex tb' o' ex' : take_slot tb (Flk (inode_of o) o ex) = Some tb' ->
  inode_of o' <> 0 -> (holds tb' o' ex' <-> holds tb o' ex' \/ (o' = o /\ ex' = ex)).
Proof.
  intros H Hi. destruct (take_slot_spec _ _ _ H) as (l1 & f & l2 & -> & E & ->). unfold holds.
  rewrite !elem_of_app, !elem_of_cons. split; [|naive_solver].
  intros [?|[[= _ -> ->]|?]]; [tauto|tauto|tauto].
Qed.

Lemma own_spec tb o n f : own_locked tb (inode_of o) o = Some (n, f) ->
  tb !! n = Some f /\ f = Flk (inode_of o) o (excl f).
Proof.
  intros (Hn & Hf & _)%list_find_Some. split; [done|]. unfold is_own in Hf. bool_props. destruct f; cbn in *; congruence.
Qed.
Lemma own_none tb o ex : own_locked tb (inode_of o) o = None -> ~ holds tb o ex.
Proof.
  intros H%list_find_None Hh. rewrite Forall_forall in H. apply (H _ Hh). unfold is_own. cbn. by rewrite !Z.eqb_refl.
Qed.

Lemma clear_elem tb n f g : tb !! n = Some f -> g ∈ clear tb n ->
  g = free_slot f \/ g ∈ tb.
Proof.
  intros Hn Hg. apply list_elem_of_lookup in Hg as [m Hm]. unfold clear in Hm.
  destruct (decide (m = n)) as [->|Hne].
  - rewrite list_lookup_alter_eq, Hn in Hm. injection Hm as <-. by left.
  - rewrite list_lookup_alter_ne in Hm by done. right. by eapply list_elem_of_lookup_2.
Qed.
Lemma clear_keep tb n f g : tb !! n = Some f -> g ∈ tb -> g <> f -> g ∈ clear tb n.
Proof.
  intros Hn Hg Hne. apply list_elem_of_lookup in Hg as [m Hm].
  apply (list_elem_of_lookup_2 _ m). unfold clear. rewrite list_lookup_alter_ne; [done|]. intros ->. congruence.
Qed.

Lemma clear_holds tb o n f o' ex' : own_locked tb (inode_of o) o = Some (n, f) -> inode_of o' <> 0 ->
  (holds (clear tb n) o' ex' -> holds tb o' ex') /\ (o' <> o -> holds tb o' ex' -> holds (clear tb n) o' ex').
Proof.
  intros Ho Hi. apply own_spec in Ho as [Hn Hf]. split.
  - intros [E|]%(clear_elem _ _ _ _ Hn); [|done]. injection E as E _ _. by symmetry in E.
  - intros Hne Hh. eapply clear_keep; [done|done|]. rewrite Hf. congruence.
Qed.

Lemma clear_ok tb o n f : own_locked tb (inode_of o) o = Some (n, f) -> tab_ok tb -> tab_ok (clear tb n).
Proof.
  intros Ho [H1 H2]. pose proof (proj1 (own_spec _ _ _ _ Ho)) as Hn. split.
  - intros g [->|Hg]%(clear_elem _ _ _ _ Hn); [by left|by apply H1].
  - intros a b ex' Hne Hi H0 Ha Hb. apply (H2 a b ex'); try done; eapply clear_holds; try done; congruence.
Qed.

Lemma acquire_ok tb o ex nb stop : tab_ok tb -> o <> 0 -> inode_of o <> 0 -> tab_ok (acquire tb o ex nb stop).1.
Proof.
  intros Hok Ho Hi. unfold acquire. destruct (conflicts_locked tb (inode_of o) o ex) eqn:Ec; [by destruct nb, stop|].
  destruct (take_slot tb _) as [tb'|] eqn:Et; [|done]. cbn.
  assert (forall o' ex', o' <> o -> inode_of o' = inode_of o -> holds tb o' ex' -> ex = true \/ ex' = true -> False) as Hno.
  { intros o' ex' Hne Ei Hh Hx. assert (conflicts_locked tb (inode_of o) o ex = true) by (apply conflicts_spec; eauto 10). congruence. }
  destruct Hok as [H1 H2]. split.
  - destruct (take_slot_spec _ _ _ Et) as (l1 & f & l2 & -> & _ & ->). intros g.
    rewrite elem_of_app, elem_of_cons. intros [?|[->|?]]; [apply H1; set_solver|by right|apply H1; set_solver].
  - intros a b ex' Hne Eab H0 Ha Hb. rewrite (take_slot_holds _ _ _ _ _ _ Et) in Ha by congruence.
    rewrite (take_slot_holds _ _ _ _ _ _ Et) in Hb by congruence.
    destruct Ha as [Ha|[-> <-]], Hb as [Hb|[-> ->]]; eauto 6.
Qed.

Lemma flock_op_ok tb o op stop : tab_ok tb -> tab_ok (flock_op tb o op stop).1.
Proof.
  intros Hok. unfold flock_op. destruct (Z.eqb_spec o 0) as [|Ho]; [done|]. destruct (Z.eqb_spec (inode_of o) 0) as [|Hi]; [done|].
  case_match; [done|]. destruct (own_locked tb (inode_of o) o) as [[n f]|] eqn:Eo.
  - case_match; cbn; [by eapply clear_ok|]. case_match; [done|]. apply acquire_ok; [by eapply clear_ok|done|done].
  - case_match; [done|]. by apply acquire_ok.
Qed.

Lemma release_holds is_file tb o o' ex' : o <> 0 -> is_file o = true -> inode_of o' <> 0 ->
  (holds (flock_release is_file tb o) o' ex' <-> o' <> o /\ holds tb o' ex').
Proof.
  intros Ho Hk Hi. unfold flock_release, holds. rewrite Hk. destruct (Z.eqb_spec o 0); [done|]. cbn.
  rewrite list_elem_of_fmap. split.
  - intros (f & E & Hf). destruct (Z.eqb_spec (owner f) o); [injection E as E _ _; done|]. subst f. done.
  - intros [Hne Hh]. eexists. split; [|exact Hh]. cbn. apply Z.eqb_neq in Hne. by rewrite Hne.
Qed.

Lemma release_ok is_file tb o : tab_ok tb -> tab_ok (flock_release is_file tb o).
Proof.
  intros [H1 H2]. destruct (decide (o = 0 \/ is_file o = false)) as [H0|H0].
  { unfold flock_release. destruct H0 as [-> | ->]; [done|]. rewrite orb_true_r. done. }
  assert (o <> 0 /\ is_file o = true) as [Ho Hk] by (destruct (is_file o); naive_solver). split.
  - unfold flock_release. rewrite Hk. destruct (Z.eqb_spec o 0); [done|]. cbn.
    intros g (f & -> & Hf)%list_elem_of_fmap. case_match; [by left|by apply H1].
  - intros a b ex' Hne E0 Hi Ha Hb. apply release_holds in Ha as [_ Ha], Hb as [_ Hb]; try done; [|congruence]. eauto.
Qed.

(** ** All callers together *)

(** The state: the table, and the callers asleep in [flock_op]. *)
Definition waiter := (Z * bool)%type.          (* owner, exclusive *)
Definition sys := (table * list waiter)%type.

Definition park (ws : list waiter) (o : Z) (ex : bool) (r : outcome) : list waiter :=
  match r with Wait => (o, ex) :: ws | Ret _ => ws end.

(** [shared] allows a call on a description that has a caller asleep already
    (two threads, or two processes after a fork). *)
Inductive step (shared : bool) : sys -> sys -> Prop :=
| step_call tb ws o op stop tb' r :
    (shared = false -> o ∉ ws.*1) -> flock_op tb o op stop = (tb', r) ->
    step shared (tb, ws) (tb', park ws o (Z.land op (Z.lnot LOCK_NB_) =? LOCK_EX_) r)
| step_wake tb ws1 o ex ws2 stop tb' r :
    acquire tb o ex false stop = (tb', r) ->
    step shared (tb, ws1 ++ (o, ex) :: ws2) (tb', park (ws1 ++ ws2) o ex r)
| step_close tb ws is_file o :
    step shared (tb, ws) (flock_release is_file tb o, ws).

Definition sys_ok (s : sys) : Prop :=
  tab_ok s.1 /\ Forall (fun w => w.1 <> 0 /\ inode_of w.1 <> 0) s.2.

Lemma op_wait tb o op stop tb' : flock_op tb o op stop = (tb', Wait) -> o <> 0 /\ inode_of o <> 0.
Proof. unfold flock_op. destruct (Z.eqb_spec o 0); [done|]. by destruct (Z.eqb_spec (inode_of o) 0). Qed.

Lemma flock_step_ok shared s s' : step shared s s' -> sys_ok s -> sys_ok s'.
Proof.
  intros H [Hok Hws]. destruct H as [tb ws o op stop tb' r _ E|tb ws1 o ex ws2 stop tb' r E|tb ws isf o]; cbn in *.
  - split; [pose proof (flock_op_ok tb o op stop Hok) as H; by rewrite E in H|]. destruct r; [done|].
    constructor; [|done]. cbn. by eapply op_wait.
  - apply Forall_app in Hws as [W1 [W2 W3]%Forall_cons].
    split; [pose proof (acquire_ok tb o ex false stop Hok) as H; rewrite E in H; apply H; apply W2|].
    assert (Forall (fun w : waiter => w.1 <> 0 /\ inode_of w.1 <> 0) (ws1 ++ ws2)) by (by apply Forall_app).
    destruct r; [done|]. by constructor.
  - split; [by apply release_ok|done].
Qed.

Lemma init_ok : sys_ok (init, []).
Proof.
  split; [|by constructor]. split.
  - intros f Hf. unfold init in Hf. cbn [fst] in Hf. apply elem_of_replicate in Hf as [-> _]. by left.
  - intros o o' ex' _ _ Hi Ha _. unfold holds, init in Ha. cbn [fst] in Ha. apply elem_of_replicate in Ha as [[= E _ _] _].
Qed.

Lemma reachable_ok shared s : rtc (step shared) (init, []) s -> sys_ok s.
Proof.
  intros H. eapply (rtc_invariant _ sys_ok); [exact H|intros a b; apply flock_step_ok|apply init_ok].
Qed.

(** C17: mutual exclusion.  In every state reachable by any interleaving of lock,
    unlock and conversion requests, wake-ups, interrupted waits and closes, if an
    owner holds an exclusive lock on a file, no other owner holds any lock on it. *)
Theorem flock_exclusive shared tb ws o o' ex' :
  rtc (step shared) (init, []) (tb, ws) ->
  o <> o' -> inode_of o = inode_of o' -> inode_of o <> 0 -> holds tb o true -> ~ holds tb o' ex'.
Proof. intros H Hne Ei Hi Ho Ho'. destruct (reachable_ok _ _ H) as [[_ Hx] _]. by eapply (Hx o o'). Qed.

(** ** One entry per owner *)

Definition entries (tb : table) (o : Z) : nat := length (filter (fun f => is_own (inode_of o) o f = true) tb).
#[local] Arguments entries : simpl never.

Lemma entries_holds tb o : entries tb o <> 0%nat <-> exists ex, holds tb o ex.
Proof.
  unfold entries, holds. split.
  - intros H. destruct (filter _ tb) as [|f l] eqn:E; [done|].
    assert (f ∈ filter (fun f => is_own (inode_of o) o f = true) tb) as Hf by (rewrite E; set_solver).
    apply list_elem_of_filter in Hf as [Hf Hin]. unfold is_own in Hf. bool_props. exists (excl f). by destruct f; cbn in *; subst.
  - intros [ex Hin] H. apply length_zero_iff_nil in H.
    assert (Flk (inode_of o) o ex ∈ filter (fun f => is_own (inode_of o) o f = true) tb) as Hf.
    { apply list_elem_of_filter. split; [|done]. unfold is_own. cbn. by rewrite !Z.eqb_refl. }
    rewrite H in Hf. by apply elem_of_nil in Hf.
Qed.

Lemma not_holds tb o : entries tb o = 0%nat -> forall ex, ~ holds tb o ex.
Proof. intros H ex Hh. assert (entries tb o <> 0%nat) by (apply entries_holds; eauto). done. Qed.

Lemma is_own_free o f : inode_of o <> 0 -> ino f = 0 -> is_own (inode_of o) o f = false.
Proof. intros Hi E. unfold is_own. rewrite E. apply andb_false_iff. left. apply Z.eqb_neq. congruence. Qed.

Lemma entries_mid l1 f l2 o : entries (l1 ++ f :: l2) o =
  (length (filter (fun f => is_own (inode_of o) o f = true) (l1 ++ l2)) + if is_own (inode_of o) o f then 1 else 0)%nat.
Proof.
  unfold entries. rewrite !filter_app, filter_cons, !length_app. destruct (is_own _ _ f); case_decide; try done; cbn; lia.
Qed.

Lemma entries_clear tb o n f o' : own_locked tb (inode_of o) o = Some (n, f) -> inode_of o' <> 0 -> inode_of o <> 0 ->
  entries tb o' = (entries (clear tb n) o' + if (o' =? o)%Z then 1 else 0)%nat.
Proof.
  intros Ho Hi' Hi. destruct (own_spec _ _ _ _ Ho) as [Hn Hf].
  assert (clear tb n = take n tb ++ free_slot f :: drop (S n) tb) as Ec.
  { unfold clear. rewrite <- (take_drop_middle tb n f Hn) at 1.
    assert (length (take n tb) = n) as El by (rewrite length_take; apply lookup_lt_Some in Hn; lia).
    rewrite alter_app_r_alt by lia. rewrite El, Nat.sub_diag. done. }
  rewrite Ec. rewrite <- (take_drop_middle tb n f Hn) at 1. rewrite !entries_mid.
  rewrite (is_own_free o' (free_slot f)) by done.
  assert (is_own (inode_of o') o' f = (o' =? o)) as ->; [|lia].
  rewrite Hf. unfold is_own. cbn. destruct (Z.eqb_spec o' o) as [->|Hne]; [by rewrite !Z.eqb_refl|].
  destruct (Z.eqb_spec o o'); [congruence|]. apply andb_false_r.
Qed.

Lemma entries_take tb o ex tb' o' : take_slot tb (Flk (inode_of o) o ex) = Some tb' -> inode_of o' <> 0 ->
  entries tb' o' = (entries tb o' + if (o' =? o)%Z then 1 else 0)%nat.
Proof.
  intros H Hi. destruct (take_slot_spec _ _ _ H) as (l1 & f & l2 & -> & E & ->). rewrite !entries_mid.
  rewrite (is_own_free o' f) by done. unfold is_own. cbn. destruct (Z.eqb_spec o' o) as [->|Hne]; [rewrite !Z.eqb_refl; cbn; lia|].
  destruct (Z.eqb_spec o o'); [congruence|]. rewrite andb_false_r. lia.
Qed.

Lemma own_entries tb o : own_locked tb (inode_of o) o = None <-> entries tb o = 0%nat.
Proof.
  split.
  - intros H. destruct (decide (entries tb o = 0%nat)) as [|Hne]; [done|]. apply entries_holds in Hne as [ex Hh].
    by destruct (own_none _ _ _ H Hh).
  - intros H. destruct (own_locked tb (inode_of o) o) as [[n f]|] eqn:E; [|done].
    destruct (own_spec _ _ _ _ E) as [Hn Hf]. exfalso. apply (not_holds _ _ H (excl f)). unfold holds. rewrite <- Hf.
    by eapply list_elem_of_lookup_2.
Qed.

(** What the end of a request does to the entry counts. *)
Lemma acquire_entries tb o ex nb stop o' : inode_of o' <> 0 ->
  let '(tb', r) := acquire tb o ex nb stop in
  match r with
  | Ret 0 => entries tb' o' = (entries tb o' + if (o' =? o)%Z then 1 else 0)%nat /\ holds tb' o ex
  | Ret e => tb' = tb /\ (e = -11 /\ nb = true \/ e = -4 /\ stop = true \/ e = -37)
  | Wait => tb' = tb /\ nb = false /\ stop = false /\ conflicts_locked tb (inode_of o) o ex = true
  end.
Proof.
  intros Hi. unfold acquire. destruct (conflicts_locked tb _ _ _) eqn:Ec; [destruct nb, stop; naive_solver|].
  destruct (take_slot tb _) as [tb'|] eqn:Et; [|naive_solver].
  split; [by eapply entries_take|]. destruct (take_slot_spec _ _ _ Et) as (l1 & f & l2 & _ & _ & ->). unfold holds. set_solver.
Qed.

Definition request (ex nb : bool) : Z := (if ex then LOCK_EX_ else LOCK_SH_) + (if nb then LOCK_NB_ else 0).

(** The request path of [flock_op]: a lock of the other kind goes first. *)
Lemma request_eq tb o ex nb stop : o <> 0 -> inode_of o <> 0 ->
  flock_op tb o (request ex nb) stop =
  match own_locked tb (inode_of o) o with
  | Some (n, f) => if Bool.eqb (excl f) ex then (tb, Ret 0) else acquire (clear tb n) o ex nb stop
  | None => acquire tb o ex nb stop
  end.
Proof.
  intros Ho Hi. unfold flock_op. destruct (Z.eqb_spec o 0); [done|]. destruct (Z.eqb_spec (inode_of o) 0); [done|].
  by destruct ex, nb.
Qed.

(** What one piece of a lock request does, when its owner has at most one
    entry.  Granted, the owner has exactly one, of the kind asked for, and no
    other owner's lock conflicts with it; refused (would block, interrupted,
    table full) or asleep, it has none, even if it held the other kind; and
    other owners' entries are never touched. *)
Theorem flock_request_correct tb o ex nb stop :
  tab_ok tb -> o <> 0 -> inode_of o <> 0 -> (entries tb o <= 1)%nat ->
  let '(tb', r) := flock_op tb o (request ex nb) stop in
  tab_ok tb' /\ (forall o', o' <> o -> inode_of o' <> 0 -> entries tb' o' = entries tb o') /\
  match r with
  | Ret 0 => entries tb' o = 1%nat /\ holds tb' o ex
  | Ret e => entries tb' o = 0%nat /\ (e = -11 /\ nb = true \/ e = -4 /\ stop = true \/ e = -37)
  | Wait => entries tb' o = 0%nat /\ nb = false /\ stop = false /\ conflicts_locked tb' (inode_of o) o ex = true
  end.
Proof.
  intros Hok Ho Hi Hone. pose proof (flock_op_ok tb o (request ex nb) stop Hok) as Hok'.
  rewrite request_eq in * by done.
  assert (forall tb1, entries tb1 o = 0%nat -> (forall o', o' <> o -> inode_of o' <> 0 -> entries tb1 o' = entries tb o') ->
     tab_ok (acquire tb1 o ex nb stop).1 ->
     let '(tb', r) := acquire tb1 o ex nb stop in
     tab_ok tb' /\ (forall o', o' <> o -> inode_of o' <> 0 -> entries tb' o' = entries tb o') /\
     match r with
     | Ret 0 => entries tb' o = 1%nat /\ holds tb' o ex
     | Ret e => entries tb' o = 0%nat /\ (e = -11 /\ nb = true \/ e = -4 /\ stop = true \/ e = -37)
     | Wait => entries tb' o = 0%nat /\ nb = false /\ stop = false /\ conflicts_locked tb' (inode_of o) o ex = true
     end) as Hacq.
  { intros tb1 H0 Hsame Ht. pose proof (fun o' => acquire_entries tb1 o ex nb stop o') as H.
    destruct (acquire tb1 o ex nb stop) as [tb' r]. pose proof (H o Hi) as Hown. rewrite Z.eqb_refl, H0 in Hown.
    split; [done|]. split; [|repeat case_match; naive_solver].
    intros o' Hne Hi'. rewrite <- Hsame by done. specialize (H o' Hi'). apply Z.eqb_neq in Hne. rewrite Hne in H.
    repeat case_match; destruct H; subst; lia. }
  destruct (own_locked tb (inode_of o) o) as [[n f]|] eqn:Eo; [|by apply Hacq; [apply own_entries|..]].
  destruct (own_spec _ _ _ _ Eo) as [Hn Hf].
  assert (holds tb o (excl f)) as Hh by (unfold holds; rewrite <- Hf; by eapply list_elem_of_lookup_2).
  assert (entries tb o <> 0%nat) by (apply entries_holds; eauto).
  destruct (Bool.eqb (excl f) ex) eqn:Ex; [apply eqb_prop in Ex as <-; split; [done|]; split; [done|]; split; [lia|done]|].
  apply Hacq; [| |done].
  - pose proof (entries_clear _ _ _ _ o Eo Hi Hi) as H'. rewrite Z.eqb_refl in H'. lia.
  - intros o' Hne Hi'. pose proof (entries_clear _ _ _ _ o' Eo Hi' Hi) as H'. apply Z.eqb_neq in Hne. rewrite Hne in H'. lia.
Qed.

Definition fresh_effect (tb tb' : table) (o : Z) (r : outcome) : Prop :=
  (forall o', o' <> o -> inode_of o' <> 0 -> entries tb' o' = entries tb o') /\ (entries tb' o <= 1)%nat /\
  (r = Wait -> entries tb' o = 0%nat).

Lemma acquire_effect tb o ex nb stop : inode_of o <> 0 -> entries tb o = 0%nat ->
  fresh_effect tb (acquire tb o ex nb stop).1 o (acquire tb o ex nb stop).2.
Proof.
  intros Hi H0. pose proof (fun o' => acquire_entries tb o ex nb stop o') as H.
  destruct (acquire tb o ex nb stop) as [tb' r]. cbn. split; [|split].
  - intros o' Hne Hi'. specialize (H o' Hi'). apply Z.eqb_neq in Hne. rewrite Hne in H.
    repeat case_match; destruct H; subst; lia.
  - specialize (H o Hi). rewrite Z.eqb_refl in H. repeat case_match; destruct H; subst; lia.
  - intros ->. specialize (H o Hi). destruct H as [-> _]. done.
Qed.

Lemma flock_op_effect tb o op stop : (forall o', inode_of o' <> 0 -> (entries tb o' <= 1)%nat) -> inode_of o <> 0 ->
  fresh_effect tb (flock_op tb o op stop).1 o (flock_op tb o op stop).2.
Proof.
  intros Hone Hi. unfold flock_op. pose proof (Hone o Hi) as H1.
  assert (forall r, r <> Wait -> fresh_effect tb tb o r) as Hid by (intros r Hr; done).
  destruct (Z.eqb_spec o 0); [by apply Hid|]. destruct (Z.eqb_spec (inode_of o) 0); [done|].
  case_match; [by apply Hid|]. destruct (own_locked tb (inode_of o) o) as [[n' f]|] eqn:Eo.
  - assert (forall o', inode_of o' <> 0 -> entries tb o' = (entries (clear tb n') o' + if (o' =? o)%Z then 1 else 0)%nat) as Hc
      by (intros; by eapply entries_clear).
    assert (entries (clear tb n') o = 0%nat) as H0 by (specialize (Hc o Hi); rewrite Z.eqb_refl in Hc; lia).
    assert (forall o', o' <> o -> inode_of o' <> 0 -> entries (clear tb n') o' = entries tb o') as Hs.
    { intros o' Hne%Z.eqb_neq Hi'. rewrite (Hc o' Hi'), Hne. lia. }
    case_match; [split; [exact Hs|]; cbn [fst snd]; split; [rewrite H0; lia|done]|]. case_match; [by apply Hid|].
    destruct (acquire_effect (clear tb n') o (Z.land op (Z.lnot LOCK_NB_) =? LOCK_EX_) (negb (Z.land op LOCK_NB_ =? 0)) stop Hi H0) as (E1 & E2 & E3).
    split; [|done]. intros o' Hne Hi'. rewrite E1, Hs by done. done.
  - case_match; [by apply Hid|]. apply acquire_effect; [done|]. by apply own_entries.
Qed.

Lemma release_entries is_file tb o o' : inode_of o' <> 0 -> (entries (flock_release is_file tb o) o' <= entries tb o')%nat.
Proof.
  intros Hi. unfold flock_release. case_match; [done|]. unfold entries.
  induction tb as [|f tb IH]; [done|]. rewrite fmap_cons, !filter_cons.
  destruct (Z.eqb_spec (owner f) o); [rewrite is_own_free by done|]; repeat case_decide; try done; cbn [length]; lia.
Qed.

Definition solo_ok (s : sys) : Prop :=
  (forall o, inode_of o <> 0 -> (entries s.1 o <= 1)%nat) /\ NoDup s.2.*1 /\
  (forall o, o ∈ s.2.*1 -> inode_of o <> 0 /\ entries s.1 o = 0%nat).

(** A piece of one owner's call, with the owners asleep elsewhere unaffected. *)
Lemma piece_solo tb ws o ex tb' r :
  fresh_effect tb tb' o r -> inode_of o <> 0 -> o ∉ ws.*1 -> solo_ok (tb, ws) -> solo_ok (tb', park ws o ex r).
Proof.
  intros (E1 & E2 & E3) Hi Hni (H1 & H2 & H3). cbn in *. split; [|split].
  - intros o' Hi'. destruct (decide (o' = o)) as [->|]; [done|]. cbn. rewrite E1 by done. auto.
  - destruct r; cbn; [done|]. by apply NoDup_cons.
  - intros o' Ho'. assert (o' ∈ ws.*1 -> inode_of o' <> 0 /\ entries tb' o' = 0%nat) as Hold.
    { intros Hw. destruct (H3 o' Hw) as [? Hz]. split; [done|]. rewrite E1; [done| |done]. by intros ->. }
    destruct r; cbn in Ho'; [by apply Hold|]. apply elem_of_cons in Ho' as [->|Hw]; [|by apply Hold].
    split; [done|]. by apply E3.
Qed.

Lemma step_solo s s' : step false s s' -> solo_ok s -> solo_ok s'.
Proof.
  intros H Hs. destruct H as [tb ws o op stop tb' r Hni E|tb ws1 o ex ws2 stop tb' r E|tb ws isf o].
  - destruct (Z.eqb_spec (inode_of o) 0) as [E0|Hi].
    + assert (tb' = tb /\ exists e, r = Ret e) as [-> [e ->]].
      { unfold flock_op in E. rewrite E0 in E. destruct (o =? 0); injection E as <- <-; eauto. }
      done.
    + apply (piece_solo tb); [|done|by apply Hni|done].
      pose proof (flock_op_effect tb o op stop (proj1 Hs) Hi) as H. by rewrite E in H.
  - assert (inode_of o <> 0 /\ entries tb o = 0%nat) as [Hi H0].
    { apply Hs. cbn. rewrite fmap_app. set_solver. }
    destruct Hs as (H1 & H2 & H3). cbn in *. rewrite fmap_app in H2. cbn in H2.
    apply NoDup_app in H2 as (N1 & Nd & [N2 N3]%NoDup_cons).
    apply (piece_solo tb); [|done|rewrite fmap_app; set_solver|].
    + pose proof (acquire_effect tb o ex false stop Hi H0) as H. by rewrite E in H.
    + split; [done|]. cbn. rewrite fmap_app. split; [apply NoDup_app; set_solver|].
      intros o' Ho'. apply H3. rewrite fmap_app. set_solver.
  - destruct Hs as (H1 & H2 & H3). cbn in *. split; [|split; [done|]]; cbn.
    + intros o' Hi. pose proof (release_entries isf tb o o' Hi). specialize (H1 o' Hi). lia.
    + intros o' Ho'. destruct (H3 o' Ho') as [Hi Hz]. split; [done|]. pose proof (release_entries isf tb o o' Hi). lia.
Qed.

Lemma init_solo : solo_ok (init, []).
Proof.
  split; [|split; [by constructor|by intros ? ?%elem_of_nil]]. cbn [fst]. intros o Hi.
  destruct (decide (entries init o = 0%nat)) as [|[ex H]%entries_holds]; [lia|].
  unfold holds, init in H. by apply elem_of_replicate in H as [[= E _ _] _].
Qed.

Lemma reachable_solo s : rtc (step false) (init, []) s -> solo_ok s.
Proof.
  intros H. eapply (rtc_invariant _ solo_ok); [exact H|intros a b; apply step_solo|apply init_solo].
Qed.

(** Unlocking unlocks.  As long as no description has a second caller enter
    while one is asleep in a request, in every reachable state one LOCK_UN leaves
    its owner with no lock, so that it no longer stands in anyone's way. *)
Theorem flock_unlock_correct tb ws o stop :
  rtc (step false) (init, []) (tb, ws) -> o <> 0 -> inode_of o <> 0 ->
  let '(tb', r) := flock_op tb o LOCK_UN_ stop in
  r = Ret 0 /\ (forall ex, ~ holds tb' o ex) /\
  (forall o' ex, o' <> o -> inode_of o' <> 0 -> holds tb' o' ex <-> holds tb o' ex).
Proof.
  intros H Ho Hi. destruct (reachable_solo _ H) as (Hone & _). cbn in Hone. specialize (Hone o Hi).
  unfold flock_op. destruct (Z.eqb_spec o 0); [done|]. destruct (Z.eqb_spec (inode_of o) 0); [done|]. cbn.
  split; [done|]. destruct (own_locked tb (inode_of o) o) as [[n' f]|] eqn:Eo.
  - split; [|intros o' ex Hne Hi'; destruct (clear_holds _ _ _ _ o' ex Eo Hi'); naive_solver].
    apply not_holds. pose proof (entries_clear _ _ _ _ o Eo Hi Hi) as Hc. rewrite Z.eqb_refl in Hc. lia.
  - split; [|done]. apply not_holds. by apply own_entries.
Qed.

(** Closing the last descriptor of a description releases every lock it
    has and no other's. *)
Theorem flock_release_correct is_file tb o o' ex' :
  o <> 0 -> is_file o = true -> inode_of o' <> 0 ->
  holds (flock_release is_file tb o) o' ex' <-> o' <> o /\ holds tb o' ex'.
Proof. apply release_holds. Qed.
End Inodes.

(** Two descriptions of one file: 100 and 200. *)
Definition one_file (o : Z) : Z := if (o =? 100) || (o =? 200) then 7 else 0.

Definition step_ex (tb : table) (o : Z) : table := (flock_op one_file tb o LOCK_EX_ false).1.

Lemma flock_exclusive_witness : let tb := step_ex init 100 in
  holds one_file tb 100 true /\ ~ holds one_file tb 200 false.
Proof.
  intros tb. assert (holds one_file tb 100 true) as H by (vm_compute; left).
  split; [exact H|]. apply (flock_exclusive one_file false tb [] 100 200 false); [|lia|reflexivity|vm_compute; lia|exact H].
  apply rtc_once. apply (step_call one_file false init [] 100 LOCK_EX_ false tb (Ret 0)); [|vm_compute; reflexivity].
  intros _. apply not_elem_of_nil.
Defined.

Lemma flock_request_correct_witness :
  let '(tb', r) := flock_op one_file (step_ex init 100) 200 (request false true) false in
  r = Ret (-11) /\ entries one_file tb' 200 = 0%nat.
Proof.
  pose proof (flock_request_correct one_file (step_ex init 100) 200 false true false) as H.
  destruct (flock_op _ _ _ _ _) as [tb' r] eqn:E. pose proof (f_equal snd E) as Er. vm_compute in Er. subst r.
  split; [reflexivity|]. apply H; [|lia|vm_compute; lia|vm_compute; lia].
  apply (flock_op_ok one_file init 100 LOCK_EX_ false), (init_ok one_file).
Defined.

Lemma flock_unlock_correct_witness :
  ~ holds one_file (flock_op one_file (step_ex init 100) 100 LOCK_UN_ false).1 100 true.
Proof.
  set (tb := step_ex init 100). pose proof (flock_unlock_correct one_file tb [] 100 false) as H.
  destruct (flock_op one_file tb 100 LOCK_UN_ false) as [tb' r]. apply H; [|lia|vm_compute; lia].
  apply rtc_once. apply (step_call one_file false init [] 100 LOCK_EX_ false tb (Ret 0)); [|vm_compute; reflexivity].
  intros _. apply not_elem_of_nil.
Defined.

Lemma flock_release_correct_witness :
  ~ holds one_file (flock_release (fun _ => true) (step_ex init 100) 100) 100 true.
Proof.
  rewrite (flock_release_correct one_file (fun _ => true) (step_ex init 100) 100 100 true);
    [intros [H _]; exact (H eq_refl)|lia|reflexivity|vm_compute; lia].
Defined.

(** Without that condition unlocking does not always unlock.  200 holds the
    lock; two threads sharing description 100 sleep on it; 200 unlocks; both are
    woken and granted, each with an entry of its own, because a sleeper does not
    look for its owner's entry again.  One LOCK_UN of 100 then leaves the other
    entry: 200 still conflicts though nobody means to hold the lock. *)
Theorem flock_shared_owner_leak :
  exists tb, rtc (step one_file true) (init, []) (tb, []) /\
    (flock_op one_file tb 100 LOCK_UN_ false).2 = Ret 0 /\
    holds one_file (flock_op one_file tb 100 LOCK_UN_ false).1 100 true /\
    flock_op one_file (flock_op one_file tb 100 LOCK_UN_ false).1 200 (LOCK_EX_ + LOCK_NB_) false =
      ((flock_op one_file tb 100 LOCK_UN_ false).1, Ret (-11)).
Proof.
  set (t1 := step_ex init 200). set (t2 := (flock_op one_file t1 200 LOCK_UN_ false).1).
  set (t3 := (acquire one_file t2 100 true false false).1). set (t4 := (acquire one_file t3 100 true false false).1).
  exists t4. split; [|split; [vm_compute; reflexivity|split; [vm_compute; right; left|vm_compute; reflexivity]]].
  eapply rtc_l; [apply (step_call one_file true init [] 200 LOCK_EX_ false t1 (Ret 0)); [done|vm_compute; reflexivity]|].
  eapply rtc_l; [apply (step_call one_file true t1 [] 100 LOCK_EX_ false t1 Wait); [done|vm_compute; reflexivity]|].
  eapply rtc_l; [apply (step_call one_file true t1 [(100, true)] 100 LOCK_EX_ false t1 Wait); [done|vm_compute; reflexivity]|].
  eapply rtc_l; [apply (step_call one_file true t1 [(100, true); (100, true)] 200 LOCK_UN_ false t2 (Ret 0)); [done|vm_compute; reflexivity]|].
  eapply rtc_l; [apply (step_wake one_file true t2 [] 100 true [(100, true)] false t3 (Ret 0)); vm_compute; reflexivity|].
  apply rtc_once. apply (step_wake one_file true t3 [] 100 true [] false t4 (Ret 0)); vm_compute; reflexivity.
Qed.
End Flock.
