(* ===== verification/BlockCache.v ===== *)
(** * The block buffer cache (kernel/core/block_cache.c)

    A fixed pool of one-sector buffers between the filesystems and the block
    layer: hashed, reference counted, write-back, least recently used.  A sector
    is one value; the drivers behind [blk_read] and [blk_write] are a parameter
    that decides which requests fail and what a failed write leaves behind.
    Every operation here is one critical section of [bc_lock]. *)

From stdpp Require Import base list sets.
From Stdlib Require Import ZArith Lia Bool.
From S2P Require Import Prelude.
Open Scope Z_scope.

Module BlockCache.

Definition BCACHE_SLOTS : nat := 1024.
Definition BC_SECTOR : Z := 512.
Definition BC_PER_FRAME : Z := 8.
Definition BC_BUCKETS : Z := 256.

(** A sector's contents. *)
Definition sector := list Z.
Definition zeros : sector := replicate 512 0.

(** [struct block_device]: which operations it has, and its geometry. *)
Record block_device := Bdev { bd_read : bool; bd_write : bool; sector_size : Z; sector_count : Z }.

Record buf := Buf { dev : Z; lba : Z; data : sector; refcount : Z; dirty : bool; lru_tick : Z; valid : bool }.
Definition buf0 : buf := Buf 0 0 [] 0 false 0 false.

Record bstats := Stats { hits : Z; misses : Z; evictions : Z; flushes : Z }.

(** The cache: the pool, the hash chains (slot numbers, first to last), the
    access clock and the counters. *)
Record bc := Bc { slots : Z -> buf; buckets : Z -> list Z; lru_counter : Z; stats : bstats }.

(** The disks, and the number of requests made so far. *)
Record world := World { disk : Z -> Z -> sector; ios : nat }.

Class Driver := {
  devs : Z -> block_device;            (* the device at an address *)
  io_fails : nat -> bool;              (* does the n-th request fail? *)
  torn : nat -> sector                 (* what a failed write leaves in the sector *)
}.

Section Cache.
Context `{Driver}.

Definition set_slot (s : bc) (i : Z) (b : buf) : bc := Bc (slots s)⟦i ↦ b⟧ (buckets s) (lru_counter s) (stats s).
Definition set_bucket (s : bc) (h : Z) (l : list Z) : bc := Bc (slots s) (buckets s)⟦h ↦ l⟧ (lru_counter s) (stats s).
Definition count (s : bc) (dh dm de df : Z) : bc :=
  let t := stats s in
  Bc (slots s) (buckets s) (lru_counter s)
     (Stats (u64 (hits t + dh)) (u64 (misses t + dm)) (u64 (evictions t + de)) (u64 (flushes t + df))).
Definition next_tick (s : bc) : bc := Bc (slots s) (buckets s) (u64 (lru_counter s + 1)) (stats s).

Definition disk_put (d : Z -> Z -> sector) (v l : Z) (x : sector) : Z -> Z -> sector := d⟦v ↦ (d v)⟦l ↦ x⟧⟧.

(** [dev->write] of one sector, [dev->read] of a run. *)
Definition blk_write (w : world) (v l : Z) (x : sector) : world * bool :=
  if (v =? 0) || negb (bd_write (devs v)) then (w, false)
  else if io_fails (ios w) then (World (disk_put (disk w) v l (torn (ios w))) (S (ios w)), false)
  else (World (disk_put (disk w) v l x) (S (ios w)), true).
Definition blk_read (w : world) (v l : Z) (n : nat) : world * option (list sector) :=
  if (v =? 0) || negb (bd_read (devs v)) then (w, None)
  else if io_fails (ios w) then (World (disk w) (S (ios w)), None)
  else (World (disk w) (S (ios w)), Some ((fun j => disk w v (l + Z.of_nat j)) <$> seq 0 n)).

Definition bc_hash (v l : Z) : Z :=
  Z.land (u32 (Z.lxor (Z.lxor l (Z.shiftr l 11)) (Z.shiftr v 4))) (BC_BUCKETS - 1).

Fixpoint chain_remove (l : list Z) (i : Z) : list Z :=
  match l with [] => [] | j :: l' => if j =? i then l' else j :: chain_remove l' i end.

Definition hash_of (b : buf) : Z := bc_hash (dev b) (lba b).
Definition bc_unlink (s : bc) (i : Z) : bc :=
  let h := hash_of (slots s i) in set_bucket s h (chain_remove (buckets s h) i).
Definition bc_link (s : bc) (i : Z) : bc :=
  let h := hash_of (slots s i) in set_bucket s h (i :: buckets s h).

Definition matches (s : bc) (v l : Z) (i : Z) : bool :=
  valid (slots s i) && (dev (slots s i) =? v) && (lba (slots s i) =? l).
Definition find_entry (s : bc) (v l : Z) : option Z := find (matches s v l) (buckets s (bc_hash v l)).

Fixpoint pick_from (n : nat) (s : bc) (i : Z) (victim : option Z) : option Z :=
  match n with
  | O => victim
  | S n' =>
      let b := slots s i in
      if 0 <? refcount b then pick_from n' s (i + 1) victim
      else if negb (valid b) then Some i
      else pick_from n' s (i + 1)
             (match victim with
              | Some v => if lru_tick b <? lru_tick (slots s v) then Some i else victim
              | None => Some i
              end)
  end.
Definition pick_victim (s : bc) : option Z := pick_from BCACHE_SLOTS s 0 None.

Definition set_ref (b : buf) (r : Z) : buf := Buf (dev b) (lba b) (data b) r (dirty b) (lru_tick b) (valid b).
Definition set_dirty (b : buf) (d : bool) : buf := Buf (dev b) (lba b) (data b) (refcount b) d (lru_tick b) (valid b).
Definition set_data (b : buf) (x : sector) : buf := Buf (dev b) (lba b) x (refcount b) (dirty b) (lru_tick b) (valid b).
Definition invalid (b : buf) : buf := Buf (dev b) (lba b) (data b) (refcount b) (dirty b) (lru_tick b) false.

(** [if (v->valid) { stats.evictions++; bc_unlink(v); v->valid = 0; }] *)
Definition evict (s : bc) (i : Z) : bc :=
  if valid (slots s i)
  then let s := bc_unlink (count s 0 0 1 0) i in set_slot s i (invalid (slots s i))
  else s.

(** Fill in a slot's identity and link it in. *)
Definition install (s : bc) (i v l : Z) (x : sector) (ref : Z) : bc :=
  let s := next_tick s in
  bc_link (set_slot s i (Buf v l x ref false (lru_counter s) true)) i.

(** [while (k < BC_PER_FRAME && lba + k < sector_count && !find_entry(dev, lba + k)) k++] *)
Fixpoint run_length (fuel : nat) (s : bc) (v l k : Z) : Z :=
  match fuel with
  | O => k
  | S fuel' =>
      if (k <? BC_PER_FRAME) && (u64 (l + k) <? sector_count (devs v)) && negb (bool_decide (is_Some (find_entry s v (u64 (l + k)))))
      then run_length fuel' s v l (k + 1) else k
  end.

(** Park the sectors read ahead, [xs], from [lba + j] on. *)
Fixpoint park_ahead (xs : list sector) (s : bc) (v l j b : Z) : bc :=
  match xs with
  | [] => s
  | x :: xs' =>
      match pick_victim s with
      | None => s
      | Some i =>
          if i =? b then s
          else if valid (slots s i) && dirty (slots s i) then s
          else park_ahead xs' (install (evict s i) i v (u64 (l + j)) x 0) v l (j + 1) b
      end
  end.

Definition bc_readahead (s : bc) (w : world) (v l b : Z) : bc * world * bool :=
  let k := run_length 8 s v l 1 in
  if k =? 1 then (s, w, false)
  else match blk_read w v l (Z.to_nat k) with
       | (w, Some (x :: xs)) =>
           let saved_ref := refcount (slots s b) in
           let s := set_slot s b (set_ref (set_data (slots s b) x) 1) in
           let s := park_ahead xs s v l 1 b in
           (set_slot s b (set_ref (slots s b) saved_ref), w, true)
       | (w, _) => (s, w, false)
       end.

(** Writing the victim back, when it is dirty. *)
Definition clean_victim (s : bc) (w : world) (i : Z) : bc * world * bool :=
  let b := slots s i in
  if valid b && dirty b && negb (dev b =? 0) && bd_write (devs (dev b)) then
    let '(w, ok) := blk_write w (dev b) (lba b) (data b) in
    if ok then (set_slot (count s 0 0 0 1) i (set_dirty b false), w, true) else (s, w, false)
  else (s, w, true).

Definition bcache_get_unlocked (init : bool) (s : bc) (w : world) (v l : Z) (no_read : bool) : bc * world * option Z :=
  if negb init || (v =? 0) || negb (bd_read (devs v)) || (BC_SECTOR <? sector_size (devs v)) then (s, w, None) else
  match find_entry s v l with
  | Some i =>
      let s := next_tick (count s 1 0 0 0) in
      let b := slots s i in
      (set_slot s i (Buf (dev b) (lba b) (data b) (refcount b + 1) (dirty b) (lru_counter s) (valid b)), w, Some i)
  | None =>
      let s := count s 0 1 0 0 in
      match pick_victim s with
      | None => (s, w, None)
      | Some i =>
          let '(s, w, ok) := clean_victim s w i in
          if negb ok then (s, w, None) else
          let s := evict s i in
          if no_read then (install s i v l zeros 1, w, Some i) else
          let '(s, w, filled) := bc_readahead s w v l i in
          if filled then (install s i v l (data (slots s i)) 1, w, Some i)
          else match blk_read w v l 1 with
               | (w, Some (x :: _)) => (install s i v l x 1, w, Some i)
               | (w, _) => (set_slot s i (invalid (slots s i)), w, None)
               end
      end
  end.

Definition bcache_get init s w v l := bcache_get_unlocked init s w v l false.
Definition bcache_get_overwrite init s w v l := bcache_get_unlocked init s w v l true.

Definition bcache_release (s : bc) (i : Z) : bc :=
  if 0 <? refcount (slots s i) then set_slot s i (set_ref (slots s i) (refcount (slots s i) - 1)) else s.

Definition bcache_mark_dirty (s : bc) (i : Z) : bc :=
  if valid (slots s i) then set_slot s i (set_dirty (slots s i) true) else s.

(** The loop of [bcache_sync_unlocked] from slot [i] on. *)
Fixpoint sync_from (n : nat) (s : bc) (w : world) (v i : Z) (failed : Z) : bc * world * Z :=
  match n with
  | O => (s, w, failed)
  | S n' =>
      let b := slots s i in
      if negb (valid b) || negb (dirty b) || negb (dev b =? v) then sync_from n' s w v (i + 1) failed
      else match blk_write w v (lba b) (data b) with
           | (w, true) => sync_from n' (count (set_slot s i (set_dirty b false)) 0 0 0 1) w v (i + 1) failed
           | (w, false) => sync_from n' s w v (i + 1) (failed + 1)
           end
  end.
Definition bcache_sync (init : bool) (s : bc) (w : world) (v : Z) : bc * world * Z :=
  if negb init || (v =? 0) || negb (bd_write (devs v)) then (s, w, -1)
  else let '(s, w, failed) := sync_from BCACHE_SLOTS s w v 0 0 in
       (s, w, if failed =? 0 then 0 else -2).

Fixpoint drop_from (n : nat) (s : bc) (v i held : Z) : bc * Z :=
  match n with
  | O => (s, held)
  | S n' =>
      let b := slots s i in
      if negb (valid b) || negb (dev b =? v) then drop_from n' s v (i + 1) held
      else if 0 <? refcount b then drop_from n' s v (i + 1) (held + 1)
      else
        let s := bc_unlink s i in
        drop_from n' (set_slot s i (Buf 0 (lba b) (data b) (refcount b) false (lru_tick b) false)) v (i + 1) held
  end.
Definition bcache_invalidate (init : bool) (s : bc) (w : world) (v : Z) : bc * world * Z :=
  if negb init || (v =? 0) then (s, w, 0)
  else let '(s, w, _) := bcache_sync init s w v in
       let '(s, held) := drop_from BCACHE_SLOTS s v 0 0 in (s, w, held).

(** [bcache_init] once its frames are there: every slot empty. *)
Definition bcache_init : bc := Bc (fun _ => buf0) (fun _ => []) 0 (Stats 0 0 0 0).
End Cache.
End BlockCache.
