(* ===== verification/BlockCacheSpec.v ===== *)
(** * The block cache refines a disk (kernel/core/block_cache.c)

    The abstract state is one content per sector: the cached copy if there is
    one, the disk's otherwise.  The theorems say what each operation does to it,
    whatever requests the drivers fail. *)

From stdpp Require Import base list sets.
From Stdlib Require Import ZArith Lia Bool.
From S2P Require Import Prelude BlockCache.
Open Scope Z_scope.

Module CacheSpec.
Import BlockCache.

#[local] Opaque BCACHE_SLOTS.

Section Refine.
Context `{Driver}.

Definition in_pool (i : Z) : Prop := 0 <= i < Z.of_nat BCACHE_SLOTS.
Definition cached (s : bc) (v l i : Z) : Prop :=
  in_pool i /\ valid (slots s i) = true /\ dev (slots s i) = v /\ lba (slots s i) = l.

(** [E] holds of the buffers a caller is changing: filled or written but not
    yet marked dirty.  They are held, so the cache leaves them alone. *)
Record inv (s : bc) (w : world) (E : Z -> Prop) : Prop := {
  inv_nodup : forall h, NoDup (buckets s h);
  inv_chain : forall h i, i ∈ buckets s h <-> in_pool i /\ valid (slots s i) = true /\ hash_of (slots s i) = h;
  inv_uniq : forall v l i j, cached s v l i -> cached s v l j -> i = j;
  inv_clean : forall i, in_pool i -> valid (slots s i) = true -> dirty (slots s i) = false -> ~ E i ->
              data (slots s i) = disk w (dev (slots s i)) (lba (slots s i));
  inv_dirty : forall i, in_pool i -> valid (slots s i) = true -> dirty (slots s i) = true ->
              dev (slots s i) <> 0 /\ bd_write (devs (dev (slots s i))) = true;
  inv_held : forall i, E i -> 0 < refcount (slots s i)
}.

(** The content of a sector as the rest of the system sees it. *)
Definition view (s : bc) (w : world) (v l : Z) : sector :=
  match find_entry s v l with Some i => data (slots s i) | None => disk w v l end.

Definition same_view (s : bc) (w : world) (s' : bc) (w' : world) : Prop := forall v l, view s' w' v l = view s w v l.

Lemma find_spec s w E v l i : inv s w E -> find_entry s v l = Some i <-> cached s v l i.
Proof.
  intros I. unfold find_entry, cached. split.
  - intros [Hin Hm]%find_some. apply list_elem_of_In, (inv_chain _ _ _ I) in Hin as (Hp & Hv & _).
    unfold matches in Hm. bool_props. done.
  - intros (Hp & Hv & Hd & Hl).
    assert (i ∈ buckets s (bc_hash v l)) as Hin by (apply (inv_chain _ _ _ I); unfold hash_of; by rewrite Hd, Hl).
    destruct (find (matches s v l) (buckets s (bc_hash v l))) as [j|] eqn:Ef.
    + f_equal. apply find_some in Ef as [Hj Hm]. apply list_elem_of_In, (inv_chain _ _ _ I) in Hj as (Hpj & Hvj & _).
      unfold matches in Hm. bool_props. by apply (inv_uniq _ _ _ I v l).
    + exfalso. apply list_elem_of_In in Hin. pose proof (find_none _ _ Ef i Hin) as Hn.
      unfold matches in Hn. rewrite Hv, Hd, Hl, !Z.eqb_refl in Hn. done.
Qed.

Lemma find_uncached s w E v l : inv s w E -> find_entry s v l = None <-> (forall i, ~ cached s v l i).
Proof.
  intros I. split.
  - intros Hn i Hc. apply (find_spec _ _ _ _ _ _ I) in Hc. congruence.
  - intros Hn. destruct (find_entry s v l) as [i|] eqn:E0; [|done]. apply (find_spec _ _ _ _ _ _ I) in E0. by apply Hn in E0.
Qed.

Lemma view_cached s w E v l i : inv s w E -> cached s v l i -> view s w v l = data (slots s i).
Proof. intros I Hc. unfold view. by rewrite (proj2 (find_spec _ _ _ _ _ _ I) Hc). Qed.
Lemma view_disk s w E v l : inv s w E -> (forall i, ~ cached s v l i) -> view s w v l = disk w v l.
Proof. intros I Hn. unfold view. by rewrite (proj2 (find_uncached _ _ _ _ _ I) Hn). Qed.

(** To show a view unchanged, look at each sector's copy before and after. *)
Lemma view_cases s w E v l : inv s w E ->
  (exists i, cached s v l i /\ view s w v l = data (slots s i)) \/
  ((forall i, ~ cached s v l i) /\ view s w v l = disk w v l).
Proof.
  intros I. destruct (find_entry s v l) as [i|] eqn:Ef.
  - left. exists i. apply (find_spec _ _ _ _ _ _ I) in Ef. split; [done|]. by eapply view_cached.
  - right. pose proof (proj1 (find_uncached _ _ _ _ _ I) Ef). split; [done|]. by eapply view_disk.
Qed.

(** *** Steps that keep every copy *)

Definition same (b b' : buf) : Prop :=
  valid b' = valid b /\ (valid b = true -> dev b' = dev b /\ lba b' = lba b /\ data b' = data b /\ dirty b' = dirty b).

Lemma same_refl b : same b b. Proof. by split. Qed.

Lemma keep_cached s s' v l i : (forall i, same (slots s i) (slots s' i)) -> cached s' v l i <-> cached s v l i.
Proof.
  intros Hs. unfold cached. destruct (Hs i) as [Hv Hf]. rewrite Hv. split.
  - intros (H1 & H2 & H3 & H4). destruct (Hf H2) as (E1 & E2 & _). rewrite <- E1, <- E2. done.
  - intros (H1 & H2 & H3 & H4). destruct (Hf H2) as (E1 & E2 & _). rewrite E1, E2. done.
Qed.

Lemma inv_keep s s' w w' E :
  inv s w E -> buckets s' = buckets s -> (forall i, same (slots s i) (slots s' i)) -> disk w' = disk w ->
  (forall i, E i -> 0 < refcount (slots s' i)) -> inv s' w' E /\ same_view s w s' w'.
Proof.
  intros I Hb Hs Hd Hh.
  assert (inv s' w' E) as I'.
  { split.
    - rewrite Hb. apply I.
    - intros h i. rewrite Hb, (inv_chain _ _ _ I). destruct (Hs i) as [Hv Hf]. unfold hash_of.
      split; intros (Hp & Hval & Hh'); (split; [done|]); [|rewrite Hv in Hval]; destruct (Hf Hval) as (E1 & E2 & _); (split; [congruence|]); congruence.
    - intros v l i j Hi Hj. rewrite keep_cached in Hi, Hj by done. by apply (inv_uniq _ _ _ I v l).
    - intros i Hp Hv Hdi HE. destruct (Hs i) as [Hv' Hf]. rewrite Hv' in Hv. destruct (Hf Hv) as (E1 & E2 & E3 & E4).
      rewrite E1, E2, E3, Hd. apply I; [done|done|congruence|done].
    - intros i Hp Hv Hdi. destruct (Hs i) as [Hv' Hf]. rewrite Hv' in Hv. destruct (Hf Hv) as (E1 & E2 & E3 & E4).
      rewrite E1. apply I; [done|done|congruence].
    - done. }
  split; [done|]. intros v l. destruct (view_cases s w E v l I) as [(i & Hc & ->)|[Hn ->]].
  - rewrite (view_cached s' w' E v l i) by (done || by rewrite keep_cached). apply (Hs i), Hc.
  - rewrite (view_disk s' w' E) by (done || (intros i; rewrite keep_cached by done; apply Hn)). by rewrite Hd.
Qed.

(** One slot changed. *)
Lemma inv_keep1 s s' w E i b :
  inv s w E -> buckets s' = buckets s -> slots s' = (slots s)⟦i ↦ b⟧ -> same (slots s i) b ->
  (E i -> 0 < refcount b) -> inv s' w E /\ same_view s w s' w.
Proof.
  intros I Hb Hs Hsame Hr. apply inv_keep; [done|done| |done|].
  - intros j. rewrite Hs, upd_eq. destruct (Z.eqb_spec j i) as [->|]; [done|apply same_refl].
  - intros j Hj. rewrite Hs, upd_eq. destruct (Z.eqb_spec j i) as [->|]; [by apply Hr|by apply I].
Qed.

(** *** Dropping a clean copy *)

Lemma chain_remove_elem l i j : NoDup l -> j ∈ chain_remove l i <-> j ∈ l /\ j <> i.
Proof.
  induction l as [|h l IH]; cbn; [set_solver|]. intros [Hh Hnd]%NoDup_cons.
  destruct (Z.eqb_spec h i) as [->|]; [set_solver|]. rewrite elem_of_cons, IH by done. set_solver.
Qed.
Lemma chain_remove_nodup l i : NoDup l -> NoDup (chain_remove l i).
Proof.
  induction l as [|h l IH]; cbn; [done|]. intros [Hh Hnd]%NoDup_cons.
  destruct (Z.eqb_spec h i); [done|]. apply NoDup_cons. split; [|auto]. rewrite chain_remove_elem by done. tauto.
Qed.

Lemma drop_cached s s' i b v l j :
  slots s' = (slots s)⟦i ↦ b⟧ -> valid b = false -> cached s' v l j <-> cached s v l j /\ j <> i.
Proof.
  intros Hs Hb. unfold cached. rewrite Hs, upd_eq. destruct (Z.eqb_spec j i) as [->|]; [|naive_solver].
  rewrite Hb. split; [by intros (_ & ? & _)|tauto].
Qed.

Lemma inv_drop s s' w E i b :
  inv s w E -> in_pool i -> valid (slots s i) = true -> dirty (slots s i) = false -> ~ E i ->
  slots s' = (slots s)⟦i ↦ b⟧ -> valid b = false ->
  buckets s' = (buckets s)⟦hash_of (slots s i) ↦ chain_remove (buckets s (hash_of (slots s i))) i⟧ ->
  inv s' w E /\ same_view s w s' w /\ (forall v l j, cached s' v l j <-> cached s v l j /\ j <> i).
Proof.
  intros I Hp Hv Hd HE Hs Hbv Hb.
  pose proof (fun v l j => drop_cached s s' i b v l j Hs Hbv) as Hc.
  assert (inv s' w E) as I'.
  { split.
    - intros h. rewrite Hb, upd_eq. destruct (Z.eqb_spec h (hash_of (slots s i))) as [->|]; [apply chain_remove_nodup|]; apply I.
    - intros h j. rewrite Hb, Hs, !upd_eq.
      destruct (Z.eqb_spec h (hash_of (slots s i))) as [->|Hh].
      + rewrite chain_remove_elem by apply I. rewrite (inv_chain _ _ _ I).
        destruct (Z.eqb_spec j i) as [->|]; [rewrite Hbv; naive_solver|naive_solver].
      + rewrite (inv_chain _ _ _ I). destruct (Z.eqb_spec j i) as [->|]; [|done]. rewrite Hbv. naive_solver.
    - intros v l j k Hj Hk. apply Hc in Hj as [Hj _], Hk as [Hk _]. by apply (inv_uniq _ _ _ I v l).
    - intros j Hpj. rewrite Hs, upd_eq. destruct (Z.eqb_spec j i) as [->|]; [congruence|by apply I].
    - intros j Hpj. rewrite Hs, upd_eq. destruct (Z.eqb_spec j i) as [->|]; [congruence|by apply I].
    - intros j Hj. rewrite Hs, upd_eq. destruct (Z.eqb_spec j i) as [->|]; [done|by apply I]. }
  split; [done|]. split; [|done]. intros v l. destruct (view_cases s w E v l I) as [(j & Hj & ->)|[Hn ->]].
  - destruct (decide (j = i)) as [->|Hne].
    + rewrite (view_disk s' w E) by (done || (intros k Hk; apply Hc in Hk as [Hk ?]; by destruct (inv_uniq _ _ _ I v l i k Hj Hk))).
      destruct Hj as (_ & _ & <- & <-). symmetry. by apply I.
    + rewrite (view_cached s' w E v l j) by (done || by apply Hc). rewrite Hs. by rewrite upd_other.
  - rewrite (view_disk s' w E); [done|done|]. intros k [Hk _]%Hc. by apply Hn in Hk.
Qed.

(** *** Adding a copy *)

Lemma add_cached s s' i b v l j :
  slots s' = (slots s)⟦i ↦ b⟧ -> valid (slots s i) = false -> valid b = true -> in_pool i ->
  cached s' v l j <-> cached s v l j \/ (j = i /\ dev b = v /\ lba b = l).
Proof.
  intros Hs Hv Hb Hp. unfold cached. rewrite Hs, upd_eq. destruct (Z.eqb_spec j i) as [->|].
  - rewrite Hv, Hb. naive_solver.
  - naive_solver.
Qed.

Lemma inv_add s s' w (E E' : Z -> Prop) i b :
  inv s w E -> in_pool i -> valid (slots s i) = false -> (forall j, ~ cached s (dev b) (lba b) j) ->
  slots s' = (slots s)⟦i ↦ b⟧ -> valid b = true -> dirty b = false ->
  buckets s' = (buckets s)⟦hash_of b ↦ i :: buckets s (hash_of b)⟧ ->
  (forall j, E' j <-> E j \/ (j = i /\ E' i)) -> (E' i \/ data b = disk w (dev b) (lba b)) -> (E' i -> 0 < refcount b) ->
  inv s' w E' /\ (forall v l, view s' w v l = if (v =? dev b) && (l =? lba b) then data b else view s w v l) /\
  (forall v l j, cached s' v l j <-> cached s v l j \/ (j = i /\ dev b = v /\ lba b = l)).
Proof.
  intros I Hp Hv Hun Hs Hbv Hbd Hb HE Hdat Hr.
  pose proof (fun v l j => add_cached s s' i b v l j Hs Hv Hbv Hp) as Hc.
  assert (forall h, i ∉ buckets s h) as Hni by (intros h Hi; apply (inv_chain _ _ _ I) in Hi as (_ & ? & _); congruence).
  assert (inv s' w E') as I'.
  { split.
    - intros h. rewrite Hb, upd_eq. destruct (Z.eqb_spec h (hash_of b)) as [->|]; [apply NoDup_cons; split; [apply Hni|]|]; apply I.
    - intros h j. rewrite Hb, Hs, !upd_eq. destruct (Z.eqb_spec h (hash_of b)) as [->|Hh].
      + rewrite elem_of_cons, (inv_chain _ _ _ I). destruct (Z.eqb_spec j i) as [->|]; naive_solver.
      + rewrite (inv_chain _ _ _ I). destruct (Z.eqb_spec j i) as [->|]; [rewrite Hv; naive_solver|done].
    - intros v l j k Hj Hk. apply Hc in Hj, Hk.
      destruct Hj as [Hj|(-> & <- & <-)], Hk as [Hk|(-> & Ev & El)]; try done.
      + by apply (inv_uniq _ _ _ I v l).
      + subst. by apply Hun in Hj.
      + by apply Hun in Hk.
    - intros j Hpj. rewrite Hs, upd_eq. destruct (Z.eqb_spec j i) as [->|Hne].
      + intros _ _ Hn. by destruct Hdat.
      + intros ? ? Hn. apply I; [done..|]. intros HEj. apply Hn, HE. by left.
    - intros j Hpj. rewrite Hs, upd_eq. destruct (Z.eqb_spec j i) as [->|]; [congruence|by apply I].
    - intros j Hj. rewrite Hs, upd_eq. destruct (Z.eqb_spec j i) as [->|]; [by apply Hr|].
      apply I. apply HE in Hj as [?|[? _]]; done. }
  assert (forall v l, ~ (v = dev b /\ l = lba b) -> view s' w v l = view s w v l) as Hold.
  { intros v l Hne. destruct (view_cases s w E v l I) as [(j & Hj & ->)|[Hn ->]].
    - rewrite (view_cached s' w E' v l j) by (done || (apply Hc; tauto)). rewrite Hs, upd_other; [done|].
      intros ->. destruct Hj as (_ & Hj & _). congruence.
    - apply (view_disk s' w E'); [done|]. intros k [Hk|(_ & ? & ?)]%Hc; [by apply Hn in Hk|by apply Hne]. }
  split; [done|]. split; [|done]. intros v l.
  destruct (Z.eqb_spec v (dev b)) as [->|Hd], (Z.eqb_spec l (lba b)) as [->|Hl]; cbn [andb].
  { rewrite (view_cached s' w E' (dev b) (lba b) i) by (done || (apply Hc; tauto)). rewrite Hs. by rewrite upd_same. }
  all: apply Hold; naive_solver.
Qed.

(** *** Writing a copy back *)

Lemma disk_put_eq d v l x v' l' : disk_put d v l x v' l' = if (v' =? v) && (l' =? l) then x else d v' l'.
Proof. unfold disk_put. rewrite upd_eq. destruct (Z.eqb_spec v' v) as [->|]; [|done]. by rewrite upd_eq. Qed.

(** A sector written while its cached copy is dirty changes nothing visible;
    the copy may then be marked clean if the sector now holds it. *)
Lemma inv_write s s' w w' E i x d :
  inv s w E -> in_pool i -> valid (slots s i) = true -> dirty (slots s i) = true ->
  disk w' = disk_put (disk w) (dev (slots s i)) (lba (slots s i)) x ->
  buckets s' = buckets s -> slots s' = (slots s)⟦i ↦ set_dirty (slots s i) d⟧ ->
  (d = false -> x = data (slots s i)) -> inv s' w' E /\ same_view s w s' w'.
Proof.
  intros I Hp Hv Hdi Hdisk Hb Hs Hx.
  assert (forall v l j, cached s' v l j <-> cached s v l j) as Hc.
  { intros v l j. unfold cached. rewrite Hs, upd_eq. by destruct (Z.eqb_spec j i) as [->|]. }
  assert (cached s (dev (slots s i)) (lba (slots s i)) i) as Hci by done.
  assert (forall j, data (slots s' j) = data (slots s j)) as Hdat.
  { intros j. rewrite Hs, upd_eq. by destruct (Z.eqb_spec j i) as [->|]. }
  assert (forall v l, (v = dev (slots s i) /\ l = lba (slots s i)) \/ disk w' v l = disk w v l) as Hother.
  { intros v l. rewrite Hdisk, disk_put_eq. destruct (Z.eqb_spec v (dev (slots s i))), (Z.eqb_spec l (lba (slots s i))); auto. }
  assert (inv s' w' E) as I'.
  { split.
    - rewrite Hb. apply I.
    - intros h j. rewrite Hb, (inv_chain _ _ _ I), Hs, upd_eq. by destruct (Z.eqb_spec j i) as [->|].
    - intros v l j k Hj%Hc Hk%Hc. by apply (inv_uniq _ _ _ I v l).
    - intros j Hpj. rewrite Hs, upd_eq. destruct (Z.eqb_spec j i) as [->|Hne].
      + cbn. intros _ -> _. rewrite Hdisk, disk_put_eq, !Z.eqb_refl. cbn. symmetry. by apply Hx.
      + intros Hvj Hdj HEj. rewrite (inv_clean _ _ _ I j) by done.
        destruct (Hother (dev (slots s j)) (lba (slots s j))) as [[E1 E2]|E1]; [|done].
        exfalso. apply Hne. eapply (inv_uniq _ _ _ I); [|exact Hci]. done.
    - intros j Hpj. rewrite Hs, upd_eq. destruct (Z.eqb_spec j i) as [->|Hne]; [|by apply I].
      cbn. intros _ _. by apply I.
    - intros j Hj. rewrite Hs, upd_eq. destruct (Z.eqb_spec j i) as [->|Hne]; [cbn|]; by apply I. }
  split; [done|]. intros v l. destruct (view_cases s w E v l I) as [(j & Hj & ->)|[Hn ->]].
  - rewrite (view_cached s' w' E v l j) by (done || by apply Hc). apply Hdat.
  - rewrite (view_disk s' w' E) by (done || (intros k Hk%Hc; by apply Hn in Hk)).
    destruct (Hother v l) as [[-> ->]|]; [|done]. by apply Hn in Hci.
Qed.

Lemma set_dirty_same b : set_dirty b (dirty b) = b. Proof. by destruct b. Qed.

Lemma blk_write_ok s w E i w' ok :
  inv s w E -> in_pool i -> valid (slots s i) = true -> dirty (slots s i) = true ->
  blk_write w (dev (slots s i)) (lba (slots s i)) (data (slots s i)) = (w', ok) ->
  (ok = false -> inv s w' E /\ same_view s w s w') /\
  (ok = true -> forall s', buckets s' = buckets s -> slots s' = (slots s)⟦i ↦ set_dirty (slots s i) false⟧ ->
     inv s' w' E /\ same_view s w s' w').
Proof.
  intros I Hp Hv Hd. unfold blk_write. destruct (inv_dirty _ _ _ I i Hp Hv Hd) as [Hd0 Hw].
  apply Z.eqb_neq in Hd0. rewrite Hd0, Hw. cbn [orb negb].
  destruct (io_fails (ios w)); intros [= <- <-]; (split; [|]); try done; intros _.
  - assert (inv (set_slot s i (set_dirty (slots s i) true)) (World (disk_put (disk w) (dev (slots s i)) (lba (slots s i)) (torn (ios w))) (S (ios w))) E /\
      same_view s w (set_slot s i (set_dirty (slots s i) true)) (World (disk_put (disk w) (dev (slots s i)) (lba (slots s i)) (torn (ios w))) (S (ios w)))) as [I1 V1]
      by (by eapply inv_write).
    assert (forall j, same (slots (set_slot s i (set_dirty (slots s i) true)) j) (slots s j)) as Hsame.
    { intros j. cbn. rewrite upd_eq. destruct (Z.eqb_spec j i) as [->|]; [|apply same_refl]. by split. }
    destruct (inv_keep _ s _ (World (disk_put (disk w) (dev (slots s i)) (lba (slots s i)) (torn (ios w))) (S (ios w))) _ I1) as [I2 V2]; [done|done|done|apply I|].
    split; [done|]. intros v l. by rewrite V2.
  - intros s' Hb Hs. by eapply inv_write.
Qed.

(** *** The pieces of a get *)

Lemma same_view_trans s w s1 w1 s2 w2 : same_view s w s1 w1 -> same_view s1 w1 s2 w2 -> same_view s w s2 w2.
Proof. intros H1 H2 v l. by rewrite H2. Qed.

(** A buffer somebody holds keeps its sector and its contents. *)
Definition kept (s s' : bc) : Prop :=
  forall j, 0 < refcount (slots s j) ->
    let b := slots s j in let b' := slots s' j in
    dev b' = dev b /\ lba b' = lba b /\ data b' = data b /\ valid b' = valid b /\ dirty b' = dirty b /\ refcount b <= refcount b'.
Lemma kept_refl s : kept s s. Proof. intros j _. cbn. lia || (repeat split; lia). Qed.
Lemma kept_trans s s1 s2 : kept s s1 -> kept s1 s2 -> kept s s2.
Proof.
  intros H1 H2 j Hj. destruct (H1 j Hj) as (A1 & A2 & A3 & A4 & A5 & A6). cbn in *.
  destruct (H2 j ltac:(lia)) as (B1 & B2 & B3 & B4 & B5 & B6). cbn in *. repeat split; try congruence. lia.
Qed.
Lemma kept_upd s s' i b : slots s' = (slots s)⟦i ↦ b⟧ -> refcount (slots s i) <= 0 -> kept s s'.
Proof.
  intros Hs Hr j Hj. rewrite Hs, upd_eq. destruct (Z.eqb_spec j i) as [->|]; [lia|]. cbn. repeat split; lia.
Qed.

(** [pass]: no visible change, no buffer in use disturbed. *)
Definition pass (s : bc) (w : world) (s' : bc) (w' : world) (E : Z -> Prop) : Prop :=
  inv s' w' E /\ same_view s w s' w' /\ kept s s'.
Lemma pass_trans s w s1 w1 s2 w2 E : pass s w s1 w1 E -> pass s1 w1 s2 w2 E -> pass s w s2 w2 E.
Proof.
  intros (_ & V1 & K1) (I2 & V2 & K2). split; [done|]. split; [by eapply same_view_trans|by eapply kept_trans].
Qed.
Lemma pass_refl s w E : inv s w E -> pass s w s w E.
Proof. intros I. split; [done|]. split; [done|apply kept_refl]. Qed.

Lemma pick_from_spec n s : forall i victim,
  0 <= i ->
  (match victim with Some u => 0 <= u < i /\ refcount (slots s u) <= 0 /\ valid (slots s u) = true /\
      (forall j, 0 <= j < i -> refcount (slots s j) <= 0 -> valid (slots s j) = true /\ lru_tick (slots s u) <= lru_tick (slots s j))
   | None => forall j, 0 <= j < i -> 0 < refcount (slots s j) end) ->
  match pick_from n s i victim with
  | Some u => 0 <= u < i + Z.of_nat n /\ refcount (slots s u) <= 0 /\
      (valid (slots s u) = true -> forall j, 0 <= j < i + Z.of_nat n -> refcount (slots s j) <= 0 ->
         valid (slots s j) = true /\ lru_tick (slots s u) <= lru_tick (slots s j))
  | None => forall j, 0 <= j < i + Z.of_nat n -> 0 < refcount (slots s j)
  end.
Proof.
  induction n as [|n IH]; intros i victim Hi Hvic; cbn [pick_from].
  { destruct victim as [u|]; [destruct Hvic as (H1 & H2 & H3 & H4); split; [lia|]; split; [done|]; intros _ j Hj; apply H4; lia|].
    intros j Hj. apply Hvic. lia. }
  replace (i + Z.of_nat (S n)) with (i + 1 + Z.of_nat n) by lia.
  destruct (Z.ltb_spec 0 (refcount (slots s i))) as [Hr|Hr].
  { apply IH; [lia|]. destruct victim as [u|].
    - destruct Hvic as (H1 & H2 & H3 & H4). split; [lia|]. split; [done|]. split; [done|]. intros j Hj Hrj.
      destruct (decide (j = i)) as [->|]; [lia|]. apply H4; [lia|done].
    - intros j Hj. destruct (decide (j = i)) as [->|]; [done|]. apply Hvic. lia. }
  destruct (valid (slots s i)) eqn:Hv; cbn [negb].
  2:{ split; [lia|]. split; [done|]. congruence. }
  apply IH; [lia|]. destruct victim as [u|].
  - destruct Hvic as (H1 & H2 & H3 & H4). destruct (Z.ltb_spec (lru_tick (slots s i)) (lru_tick (slots s u))).
    + split; [lia|]. split; [done|]. split; [done|]. intros j Hj Hrj. destruct (decide (j = i)) as [->|]; [split; [done|lia]|].
      destruct (H4 j ltac:(lia) Hrj). split; [done|lia].
    + split; [lia|]. split; [done|]. split; [done|]. intros j Hj Hrj. destruct (decide (j = i)) as [->|]; [split; [done|lia]|].
      apply H4; [lia|done].
  - split; [lia|]. split; [done|]. split; [done|]. intros j Hj Hrj. destruct (decide (j = i)) as [->|]; [split; [done|lia]|].
    specialize (Hvic j ltac:(lia)). lia.
Qed.

Lemma victim_free s i : pick_victim s = Some i -> in_pool i /\ refcount (slots s i) <= 0.
Proof.
  intros Hp. pose proof (pick_from_spec BCACHE_SLOTS s 0 None ltac:(lia)) as Hs.
  unfold pick_victim in Hp. rewrite Hp in Hs. destruct Hs as (H1 & H2 & _); [intros j Hj; lia|]. by split.
Qed.

Lemma victim_not_held s w E i : inv s w E -> refcount (slots s i) <= 0 -> ~ E i.
Proof. intros I Hr HE. apply (inv_held _ _ _ I) in HE. lia. Qed.

Lemma evict_pass s w E i :
  inv s w E -> in_pool i -> refcount (slots s i) <= 0 -> (valid (slots s i) = true -> dirty (slots s i) = false) ->
  pass s w (evict s i) w E /\ valid (slots (evict s i) i) = false /\ refcount (slots (evict s i) i) = refcount (slots s i) /\
  (forall v l j, cached (evict s i) v l j -> cached s v l j) /\ (forall j, j <> i -> slots (evict s i) j = slots s j).
Proof.
  intros I Hp Hr Hd. unfold evict. destruct (valid (slots s i)) eqn:Hv; [|split; [by apply pass_refl|]; done].
  specialize (Hd eq_refl).
  destruct (inv_drop s (set_slot (bc_unlink (count s 0 0 1 0) i) i (invalid (slots (bc_unlink (count s 0 0 1 0) i) i))) w E i
              (invalid (slots s i)) I Hp Hv Hd) as (I' & V' & C'); try done; [by apply (victim_not_held s w E)|].
  split; [split; [done|split; [done|eapply (kept_upd _ _ i); [reflexivity|done]]]|].
  cbn [slots set_slot]. rewrite upd_same. split; [done|]. split; [done|]. split; [intros v l j Hj; apply C' in Hj as [Hj _]; exact Hj|].
  intros j Hj. by rewrite upd_other.
Qed.

Lemma clean_pass s w E i s' w' ok :
  inv s w E -> in_pool i -> refcount (slots s i) <= 0 -> clean_victim s w i = (s', w', ok) ->
  pass s w s' w' E /\ (ok = true -> valid (slots s' i) = true -> dirty (slots s' i) = false) /\
  refcount (slots s' i) <= 0 /\ (forall v l j, cached s' v l j -> cached s v l j).
Proof.
  intros I Hp Hr. unfold clean_victim. cbv zeta.
  destruct (valid (slots s i)) eqn:Hv; cbn [andb].
  2:{ intros [= <- <- <-]. split; [by apply pass_refl|]. split; [congruence|done]. }
  destruct (dirty (slots s i)) eqn:Hd; cbn [andb].
  2:{ intros [= <- <- <-]. split; [by apply pass_refl|]. done. }
  destruct (inv_dirty _ _ _ I i Hp Hv Hd) as [Hd0 Hw]. pose proof (proj2 (Z.eqb_neq _ _) Hd0) as Hd0'.
  rewrite Hd0', Hw. cbn [negb andb].
  destruct (blk_write w (dev (slots s i)) (lba (slots s i)) (data (slots s i))) as [w1 ok1] eqn:Ew.
  destruct (blk_write_ok s w E i w1 ok1 I Hp Hv Hd Ew) as [Hf Ht]. destruct ok1; intros [= <- <- <-].
  - destruct (Ht eq_refl (set_slot (count s 0 0 0 1) i (set_dirty (slots s i) false))) as [I' V']; [done|done|].
    split; [split; [done|split; [done|eapply (kept_upd _ _ i); [reflexivity|done]]]|]. cbn [slots set_slot]. rewrite upd_same.
    split; [done|]. split; [done|]. intros v l j. unfold cached. cbn [slots set_slot count]. rewrite upd_eq.
    by destruct (Z.eqb_spec j i) as [->|].
  - destruct (Hf eq_refl) as [I' V']. split; [split; [done|split; [done|apply kept_refl]]|]. done.
Qed.

Lemma install_pass s w E i v l x r :
  inv s w E -> in_pool i -> valid (slots s i) = false -> ~ E i -> (forall j, ~ cached s v l j) -> x = disk w v l ->
  refcount (slots s i) <= 0 ->
  pass s w (install s i v l x r) w E /\
  (forall v' l' j, cached (install s i v l x r) v' l' j <-> cached s v' l' j \/ (j = i /\ v = v' /\ l = l')) /\
  (forall j, j <> i -> slots (install s i v l x r) j = slots s j).
Proof.
  intros I Hp Hv HE Hun Hx Hr.
  destruct (inv_add s (install s i v l x r) w E E i (Buf v l x r false (u64 (lru_counter s + 1)) true) I Hp Hv Hun) as (I' & V' & C'); try done.
  - unfold install, bc_link. cbn. by rewrite upd_same.
  - intros j. naive_solver.
  - by right.
  - split; [|split; [exact C'|intros j Hj; cbn; by rewrite upd_other]].
    split; [done|]. split; [|eapply (kept_upd _ _ i); [reflexivity|done]].
    intros v' l'. rewrite V'. cbn. destruct (Z.eqb_spec v' v) as [->|], (Z.eqb_spec l' l) as [->|]; cbn; try done.
    rewrite Hx. symmetry. by eapply view_disk.
Qed.

(** *** Reading ahead *)

Lemma run_length_spec s w E v l : inv s w E -> 0 <= l -> l + 8 < 2 ^ 64 -> forall fuel k, 1 <= k <= 8 ->
  (forall n, 1 <= n < k -> forall i, ~ cached s v (l + n) i) ->
  let k' := run_length fuel s v l k in 1 <= k' <= 8 /\ (forall n, 1 <= n < k' -> forall i, ~ cached s v (l + n) i).
Proof.
  intros I Hl Hb. induction fuel as [|fuel IH]; intros k Hk Hun; cbn [run_length]; [done|].
  destruct (_ && _ && _) eqn:Ec; [|done]. bool_props. unfold BC_PER_FRAME in *. apply IH; [lia|].
  intros n Hn. destruct (decide (n = k)) as [->|]; [|apply Hun; lia].
  rewrite u64_small in * by lia. apply (find_uncached _ _ _ _ _ I). by apply eq_None_not_Some.
Qed.

Lemma park_pass xs : forall s w E v l j b,
  inv s w E -> 0 <= l -> 1 <= j -> l + j + Z.of_nat (length xs) < 2 ^ 64 ->
  (forall n x, xs !! n = Some x -> x = disk w v (l + j + Z.of_nat n) /\ forall i, ~ cached s v (l + j + Z.of_nat n) i) ->
  let s' := park_ahead xs s v l j b in
  pass s w s' w E /\ slots s' b = slots s b /\
  (forall v' l' i, cached s' v' l' i -> cached s v' l' i \/ (v' = v /\ l + j <= l')).
Proof.
  induction xs as [|x xs IH]; intros s w E v l j b I Hl Hj Hb Hxs; cbn [park_ahead].
  { split; [by apply pass_refl|]. split; [done|]. by left. }
  destruct (pick_victim s) as [i|] eqn:Ep; [|split; [by apply pass_refl|]; split; [done|]; by left].
  destruct (victim_free _ _ Ep) as [Hp Hr].
  destruct (Z.eqb_spec i b) as [|Hib]; [split; [by apply pass_refl|]; split; [done|]; by left|].
  destruct (valid (slots s i) && dirty (slots s i)) eqn:Evd; [split; [by apply pass_refl|]; split; [done|]; by left|].
  destruct (evict_pass s w E i I Hp Hr) as (P1 & V1 & R1 & C1 & S1); [intros Hv; by rewrite Hv in Evd|].
  destruct P1 as (I1 & VW1 & K1). cbn [length] in Hb. rewrite (u64_small (l + j)) by lia.
  destruct (Hxs 0%nat x eq_refl) as [Hx Hun]. rewrite Z.add_0_r in *.
  destruct (install_pass (evict s i) w E i v (l + j) x 0 I1 Hp V1) as (P2 & C2 & S2);
    [by apply (victim_not_held s w E)|intros k Hk%C1; by apply Hun in Hk|done|lia|].
  destruct (IH (install (evict s i) i v (l + j) x 0) w E v l (j + 1) b (proj1 P2)) as (P3 & S3 & C3); [lia..| |].
  { intros n y Hn. destruct (Hxs (S n) y Hn) as [Hy Huy]. replace (l + (j + 1) + Z.of_nat n) with (l + j + Z.of_nat (S n)) by lia.
    split; [done|]. intros k [Hk%C1|(_ & _ & ?)]%C2; [by apply Huy in Hk|lia]. }
  split; [eapply pass_trans; [split; [exact I1|by split]|eapply pass_trans; [exact P2|exact P3]]|].
  split; [rewrite S3, S2, S1 by congruence; done|].
  intros v' l' k Hk. apply C3 in Hk as [Hk|[? ?]]; [|right; split; [done|lia]].
  apply C2 in Hk as [Hk%C1|(-> & <- & <-)]; [by left|]. right. split; [done|lia].
Qed.

Lemma blk_read_eq w v l n w' r : blk_read w v l n = (w', r) ->
  disk w' = disk w /\ (forall xs, r = Some xs -> xs = (fun j => disk w v (l + Z.of_nat j)) <$> seq 0 n).
Proof. unfold blk_read. repeat case_match; intros [= <- <-]; split; try done; by intros xs [= <-]. Qed.

Lemma pass_world s w w' E : inv s w E -> disk w' = disk w -> pass s w s w' E.
Proof.
  intros I Hd. destruct (inv_keep s s w w' E I eq_refl (fun i => same_refl _) Hd) as [I' V']; [apply I|].
  split; [done|]. split; [done|apply kept_refl].
Qed.

Lemma readahead_pass s w E v l b s' w' ok :
  inv s w E -> in_pool b -> valid (slots s b) = false -> refcount (slots s b) <= 0 -> 0 <= l -> l + 8 < 2 ^ 64 ->
  (forall i, ~ cached s v l i) -> bc_readahead s w v l b = (s', w', ok) ->
  pass s w s' w' E /\ valid (slots s' b) = false /\ refcount (slots s' b) <= 0 /\ (forall i, ~ cached s' v l i) /\
  (ok = true -> data (slots s' b) = disk w' v l).
Proof.
  intros I Hp Hv Hr Hl Hb Hun. unfold bc_readahead.
  destruct (run_length_spec s w E v l I Hl Hb 8 1) as [Hk Hkun]; [lia|intros; lia|].
  set (k := run_length 8 s v l 1) in *. clearbody k.
  destruct (k =? 1); [intros [= <- <- <-]; split; [by apply pass_refl|done]|].
  destruct (blk_read w v l (Z.to_nat k)) as [w1 r] eqn:Er. destruct (blk_read_eq _ _ _ _ _ _ Er) as [Hd Hxs].
  destruct r as [[|x xs]|]; [intros [= <- <- <-]; split; [by apply pass_world|done]| |intros [= <- <- <-]; split; [by apply pass_world|done]].
  specialize (Hxs _ eq_refl).
  set (s1 := set_slot s b (set_ref (set_data (slots s b) x) 1)).
  destruct (inv_keep1 s s1 w1 E b (set_ref (set_data (slots s b) x) 1)) as [I1 V1]; try done.
  { by apply (pass_world s w w1 E I Hd). } { split; [done|intros; congruence]. }
  assert (x = disk w v l /\ forall n y, xs !! n = Some y -> y = disk w v (l + 1 + Z.of_nat n)) as [Hx Hxs'].
  { destruct (Z.to_nat k) as [|m] eqn:Ek; [done|]. cbn in Hxs. injection Hxs as -> ->. split; [by rewrite Z.add_0_r|].
    intros n y Hn. rewrite list_lookup_fmap in Hn. destruct (seq 1 m !! n) as [a|] eqn:Es; [|done]. cbn in Hn. injection Hn as <-.
    apply lookup_seq in Es as [-> _]. f_equal. lia. }
  assert (length xs = Z.to_nat k - 1)%nat as Hlen.
  { apply (f_equal length) in Hxs. rewrite length_fmap, length_seq in Hxs. cbn [length] in Hxs. lia. }
  assert (forall v' l' i, cached s1 v' l' i -> cached s v' l' i) as C1.
  { intros v' l' i. unfold cached, s1. cbn [slots set_slot]. rewrite upd_eq. destruct (Z.eqb_spec i b) as [->|]; [|done].
    cbn. rewrite Hv. by intros (_ & ? & _). }
  destruct (park_pass xs s1 w1 E v l 1 b I1) as ((I2 & V2 & K2) & S2 & C2); [lia..| |].
  { intros n y Hn. split; [rewrite Hd; by apply Hxs'|]. intros i Hi%C1.
    apply lookup_lt_Some in Hn. replace (l + 1 + Z.of_nat n) with (l + (1 + Z.of_nat n)) in Hi by lia.
    by apply (Hkun (1 + Z.of_nat n) ltac:(lia)) in Hi. }
  set (s2 := park_ahead xs s1 v l 1 b) in *. intros [= <- <- <-].
  assert (slots s1 b = set_ref (set_data (slots s b) x) 1) as Sb by (unfold s1; cbn; by rewrite upd_same).
  rewrite Sb in S2. rewrite S2.
  destruct (inv_keep1 s2 (set_slot s2 b (set_ref (set_ref (set_data (slots s b) x) 1) (refcount (slots s b)))) w1 E b
    (set_ref (set_ref (set_data (slots s b) x) 1) (refcount (slots s b)))) as [I3 V3]; try done.
  { rewrite S2. by split. } { intros HE. by apply (victim_not_held s w E b I Hr) in HE. }
  cbn [slots set_slot]. rewrite upd_same. cbn [valid refcount data set_ref set_data].
  split; [split; [done|split]|].
  - intros v' l'. rewrite V3, V2, V1. by apply (pass_world s w w1 E I Hd).
  - intros i Hi. cbn [slots set_slot]. rewrite upd_eq. destruct (Z.eqb_spec i b) as [->|Hne]; [lia|].
    assert (slots s1 i = slots s i) as E1 by (unfold s1; cbn; by rewrite upd_other). rewrite <- E1. apply K2. by rewrite E1.
  - split; [done|]. split; [done|]. split; [|rewrite Hd; done].
    intros i Hi. assert (cached s2 v l i) as Hi2.
    { revert Hi. unfold cached. cbn [slots set_slot]. rewrite upd_eq. destruct (Z.eqb_spec i b) as [->|]; [|done].
      cbn. rewrite Hv. by intros (_ & ? & _). }
    apply C2 in Hi2 as [Hi2%C1|[_ ?]]; [by apply Hun in Hi2|lia].
Qed.
End Refine.
End CacheSpec.
