(* ===== verification/BlockCacheOps.v ===== *)
(** * The block cache's operations, theorem by theorem (kernel/core/block_cache.c) *)

From stdpp Require Import base list sets.
From Stdlib Require Import ZArith Lia Bool.
From S2P Require Import Prelude BlockCache BlockCacheSpec.
Open Scope Z_scope.

Module CacheOps.
Import BlockCache CacheSpec.

#[local] Opaque BCACHE_SLOTS.

Section Ops.
Context `{Driver}.

(** Making room: the victim chosen, written back and dropped. *)
Lemma make_room s w E i s1 w1 :
  inv s w E -> pick_victim s = Some i -> clean_victim s w i = (s1, w1, true) ->
  let s2 := evict s1 i in
  pass s w s2 w1 E /\ in_pool i /\ valid (slots s2 i) = false /\ refcount (slots s2 i) <= 0 /\
  (forall v l j, cached s2 v l j -> cached s v l j).
Proof.
  intros I Hp Hc. destruct (victim_free _ _ Hp) as [Hpool Hr].
  destruct (clean_pass _ _ _ _ _ _ _ I Hpool Hr Hc) as (P1 & D1 & R1 & C1).
  destruct (evict_pass s1 w1 E i (proj1 P1) Hpool R1 (D1 eq_refl)) as (P2 & V2 & R2 & C2 & _).
  cbn. split; [by eapply pass_trans|]. split; [done|]. split; [done|]. split; [lia|]. eauto.
Qed.

Lemma count_pass s w E a b c d : inv s w E -> pass s w (count s a b c d) w E.
Proof.
  intros I. destruct (inv_keep s (count s a b c d) w w E I) as [I' V']; [done|intros i; apply same_refl|done|apply I|].
  split; [done|]. split; [done|]. intros j Hj. cbn. repeat split; lia.
Qed.

Lemma hit_pass s w E i t :
  inv s w E ->
  let b := slots s i in
  let s' := set_slot (Bc (slots s) (buckets s) t (stats s)) i (Buf (dev b) (lba b) (data b) (refcount b + 1) (dirty b) t (valid b)) in
  pass s w s' w E.
Proof.
  intros I b s'. destruct (inv_keep1 s s' w E i (Buf (dev b) (lba b) (data b) (refcount b + 1) (dirty b) t (valid b)) I) as [I' V']; try done.
  { cbn. intros HE. apply (inv_held _ _ _ I) in HE. unfold b. lia. }
  split; [done|]. split; [done|]. intros j Hj. cbn. rewrite upd_eq. destruct (Z.eqb_spec j i) as [->|]; cbn; repeat split; unfold b; lia.
Qed.

Lemma got s w E s' w' v l i :
  pass s w s' w' E -> cached s' v l i -> data (slots s' i) = view s w v l.
Proof. intros (I & V & _) Hc. rewrite <- V. symmetry. by eapply view_cached. Qed.

(** The slot the miss path ends in. *)
Lemma install_got s w E s1 w1 i v l x :
  pass s w s1 w1 E -> in_pool i -> valid (slots s1 i) = false -> refcount (slots s1 i) <= 0 ->
  (forall j, ~ cached s1 v l j) -> x = disk w1 v l ->
  let s' := install s1 i v l x 1 in
  pass s w s' w1 E /\ cached s' v l i /\ refcount (slots s' i) = 1 /\ data (slots s' i) = view s w v l.
Proof.
  intros P Hp Hv Hr Hun Hx s'.
  destruct (install_pass s1 w1 E i v l x 1 (proj1 P) Hp Hv) as (P1 & C1 & _); [by apply (victim_not_held s1 w1 E); [apply P|]|done..|].
  assert (cached s' v l i) as Hc by (apply C1; by right).
  split; [by eapply pass_trans|]. split; [done|]. split; [unfold s', install; cbn; by rewrite upd_same|].
  eapply got; [|exact Hc]. by eapply pass_trans.
Qed.

(** What a get that answers [i] promises of the buffer. *)
Definition answered (s : bc) (w : world) (s' : bc) (v l i : Z) : Prop :=
  cached s' v l i /\ data (slots s' i) = view s w v l /\
  refcount (slots s' i) = match find_entry s v l with Some _ => refcount (slots s i) + 1 | None => 1 end.

(** C8: the cache is invisible to a reader.  Whatever requests fail, a
    [bcache_get] (hit or miss, with write-back of its victim and read-ahead)
    changes no sector's content and disturbs no buffer in use; if it answers a
    buffer, that is the one cached copy of the sector asked for, with one more
    holder, and it holds the sector's current content. *)
Theorem bcache_get_correct s w E v l :
  inv s w E -> 0 <= l -> l + 8 < 2 ^ 64 ->
  let '(s', w', r) := bcache_get true s w v l in
  inv s' w' E /\ same_view s w s' w' /\ kept s s' /\
  match r with Some i => answered s w s' v l i | None => True end.
Proof.
  intros I Hl Hb. unfold bcache_get, bcache_get_unlocked, answered. cbn [negb orb].
  destruct ((v =? 0) || _ || _); [by destruct (pass_refl s w E I) as (? & ? & ?)|].
  destruct (find_entry s v l) as [i|] eqn:Ef.
  - apply (find_spec _ _ _ _ _ _ I) in Ef.
    pose proof (count_pass s w E 1 0 0 0 I) as P0. pose proof (hit_pass (count s 1 0 0 0) w E i (u64 (lru_counter s + 1)) (proj1 P0)) as P1.
    pose proof (pass_trans _ _ _ _ _ _ _ P0 P1) as P. match type of P with pass _ _ ?x _ _ => assert (cached x v l i) as Hc end.
    { destruct Ef as (E1 & E2 & E3 & E4). split; [done|]. cbn. rewrite upd_same. done. }
    pose proof (got _ _ _ _ _ _ _ _ P Hc) as Hg. destruct P as (P2 & P3 & P4). split; [exact P2|]. split; [exact P3|]. split; [exact P4|].
    split; [exact Hc|]. split; [exact Hg|]. cbn. by rewrite upd_same.
  - pose proof (count_pass s w E 0 1 0 0 I) as P0. pose proof (proj1 (find_uncached _ _ _ _ _ I) Ef) as Hun.
    assert (forall i, ~ cached (count s 0 1 0 0) v l i) as Hun0 by done. clear Hun.
    assert (forall s' w' (r : option Z), pass s w s' w' E ->
      match r with Some i => cached s' v l i /\ data (slots s' i) = view s w v l /\ refcount (slots s' i) = 1 | None => True end ->
      inv s' w' E /\ same_view s w s' w' /\ kept s s' /\
      match r with Some i => cached s' v l i /\ data (slots s' i) = view s w v l /\ refcount (slots s' i) = 1 | None => True end) as Hend
      by (intros s' w' r (? & ? & ?) ?; done).
    destruct (pick_victim (count s 0 1 0 0)) as [i|] eqn:Ep; [|by apply (Hend _ _ None)].
    destruct (clean_victim (count s 0 1 0 0) w i) as [[s1 w1] ok] eqn:Ec. destruct ok; cbn [negb].
    2:{ apply (Hend _ _ None); [|done]. destruct (victim_free _ _ Ep) as [Hpool Hr]. eapply pass_trans; [exact P0|].
        by eapply (clean_pass _ _ _ _ _ _ _ (proj1 P0) Hpool Hr). }
    destruct (make_room _ _ _ _ _ _ (proj1 P0) Ep Ec) as (P2 & Hp & V2 & R2 & C2).
    pose proof (pass_trans _ _ _ _ _ _ _ P0 P2) as P. set (s2 := evict s1 i) in *.
    assert (forall j, ~ cached s2 v l j) as Hun2 by (intros j Hj%C2; by apply Hun0 in Hj).
    destruct (bc_readahead s2 w1 v l i) as [[s3 w3] filled] eqn:Er.
    destruct (readahead_pass _ _ _ _ _ _ _ _ _ (proj1 P2) Hp V2 R2 Hl Hb Hun2 Er) as (P3 & V3 & R3 & Hun3 & Hfill).
    pose proof (pass_trans _ _ _ _ _ _ _ P P3) as P'. destruct filled.
    + destruct (install_got s w E s3 w3 i v l _ P' Hp V3 R3 Hun3 (Hfill eq_refl)) as (Pf & Cf & Rf & Df). by apply (Hend _ _ (Some i)).
    + destruct (blk_read w3 v l 1) as [w4 r] eqn:Eb. destruct (blk_read_eq _ _ _ _ _ _ Eb) as [Hd Hxs].
      pose proof (pass_trans _ _ _ _ _ _ _ P' (pass_world s3 w3 w4 E (proj1 P') Hd)) as P4.
      assert (pass s w (set_slot s3 i (invalid (slots s3 i))) w4 E) as Pfail.
      { eapply pass_trans; [exact P4|].
        destruct (inv_keep1 s3 (set_slot s3 i (invalid (slots s3 i))) w4 E i (invalid (slots s3 i)) (proj1 P4)) as [I5 V5]; try done.
        { apply (inv_held _ _ _ (proj1 P4) i). }
        split; [done|]. split; [done|]. eapply (kept_upd _ _ i); [reflexivity|done]. }
      destruct r as [[|x xs]|]; [by apply (Hend _ _ None)| |by apply (Hend _ _ None)].
      specialize (Hxs _ eq_refl). cbn in Hxs. injection Hxs as -> ->. rewrite Z.add_0_r, <- Hd.
      destruct (install_got s w E s3 w4 i v l _ P4 Hp V3 R3 Hun3 eq_refl) as (Pf & Cf & Rf & Df). by apply (Hend _ _ (Some i)).
Qed.

(** *** Writing *)

(** The caller's write to the buffer it holds, marked dirty. *)
Definition store (s : bc) (i : Z) (x : sector) : bc :=
  bcache_mark_dirty (set_slot s i (set_data (slots s i) x)) i.

Lemma store_inv s w (E E' : Z -> Prop) v l i x :
  inv s w E' -> (forall j, E' j -> E j \/ j = i) -> (forall j, E j -> E' j) ->
  cached s v l i -> v <> 0 -> bd_write (devs v) = true ->
  inv (store s i x) w E /\
  (forall v' l', view (store s i x) w v' l' = if (v' =? v) && (l' =? l) then x else view s w v' l').
Proof.
  intros I HE HE' (Hp & Hv & Hd & Hl) Hv0 Hw.
  assert (slots (store s i x) = (slots s)⟦i ↦ set_data (slots s i) x⟧⟦i ↦ set_dirty (set_data (slots s i) x) true⟧ /\ buckets (store s i x) = buckets s) as [Hs Hb].
  { unfold store, bcache_mark_dirty. cbn. rewrite !upd_same. cbn. rewrite Hv. cbn. by rewrite ?upd_same. }
  assert (forall j, slots (store s i x) j = if j =? i then set_dirty (set_data (slots s i) x) true else slots s j) as Hsl.
  { intros j. rewrite Hs, !upd_eq. by destruct (Z.eqb_spec j i). }
  assert (forall v' l' j, cached (store s i x) v' l' j <-> cached s v' l' j) as Hc.
  { intros v' l' j. unfold cached. rewrite Hsl. by destruct (Z.eqb_spec j i) as [->|]. }
  assert (inv (store s i x) w E) as I'.
  { split.
    - rewrite Hb. apply I.
    - intros h j. rewrite Hb, (inv_chain _ _ _ I), Hsl. by destruct (Z.eqb_spec j i) as [->|].
    - intros v' l' j k Hj%Hc Hk%Hc. by apply (inv_uniq _ _ _ I v' l').
    - intros j Hpj. rewrite Hsl. destruct (Z.eqb_spec j i) as [->|Hne]; [done|]. intros ? ? HEj.
      apply I; [done..|]. intros [|]%HE; done.
    - intros j Hpj. rewrite Hsl. destruct (Z.eqb_spec j i) as [->|Hne]; [|by apply I]. cbn. by rewrite Hd.
    - intros j Hj. rewrite Hsl. destruct (Z.eqb_spec j i) as [->|Hne]; [cbn|]; by apply I, HE'. }
  split; [done|]. intros v' l'. destruct (view_cases s w E' v' l' I) as [(j & Hj & Ej)|[Hn Ej]].
  - rewrite (view_cached _ _ _ v' l' j I') by (by apply Hc). rewrite Hsl. destruct (Z.eqb_spec j i) as [->|Hne].
    + destruct Hj as (_ & _ & Ed & El). rewrite Hd in Ed. rewrite Hl in El. subst. by rewrite !Z.eqb_refl.
    + rewrite Ej. destruct (Z.eqb_spec v' v) as [->|], (Z.eqb_spec l' l) as [->|]; try done.
      destruct Hne. by apply (inv_uniq _ _ _ I v l).
  - rewrite (view_disk _ _ _ _ _ I') by (intros j Hj%Hc; by apply Hn in Hj). rewrite Ej.
    destruct (Z.eqb_spec v' v) as [->|], (Z.eqb_spec l' l) as [->|]; try done. exfalso. by apply (Hn i).
Qed.

Lemma overwrite_ok s w E v l x :
  inv s w E -> v <> 0 -> bd_write (devs v) = true ->
  match bcache_get_overwrite true s w v l with
  | (s', w', Some i) =>
      inv (store s' i x) w' E /\ kept s s' /\
      forall v' l', view (store s' i x) w' v' l' = if (v' =? v) && (l' =? l) then x else view s w v' l'
  | (s', w', None) => inv s' w' E /\ same_view s w s' w' /\ kept s s'
  end.
Proof.
  intros I Hv0 Hw. unfold bcache_get_overwrite, bcache_get_unlocked. cbn [negb orb].
  destruct ((v =? 0) || _ || _); [by destruct (pass_refl s w E I) as (? & ? & ?)|].
  destruct (find_entry s v l) as [i|] eqn:Ef.
  - apply (find_spec _ _ _ _ _ _ I) in Ef.
    pose proof (count_pass s w E 1 0 0 0 I) as P0. pose proof (hit_pass (count s 1 0 0 0) w E i (u64 (lru_counter s + 1)) (proj1 P0)) as P1.
    destruct (pass_trans _ _ _ _ _ _ _ P0 P1) as (I1 & V1 & K1).
    destruct (store_inv _ w E E v l i x I1) as [I2 V2]; [by left|done| |done|done|].
    { destruct Ef as (E1 & E2 & E3 & E4). split; [done|]. cbn. rewrite upd_same. done. }
    split; [exact I2|]. split; [exact K1|]. intros v' l'. etransitivity; [apply V2|]. by rewrite V1.
  - pose proof (count_pass s w E 0 1 0 0 I) as P0. pose proof (proj1 (find_uncached _ _ _ _ _ I) Ef) as Hun.
    assert (forall i, ~ cached (count s 0 1 0 0) v l i) as Hun0 by done. clear Hun.
    destruct (pick_victim (count s 0 1 0 0)) as [i|] eqn:Ep; [|by destruct P0 as (? & ? & ?)].
    destruct (clean_victim (count s 0 1 0 0) w i) as [[s1 w1] ok] eqn:Ec. destruct ok; cbn [negb].
    2:{ destruct (victim_free _ _ Ep) as [Hpool Hr].
        destruct (clean_pass _ _ _ _ _ _ _ (proj1 P0) Hpool Hr Ec) as (P1 & _).
        by destruct (pass_trans _ _ _ _ _ _ _ P0 P1) as (? & ? & ?). }
    destruct (make_room _ _ _ _ _ _ (proj1 P0) Ep Ec) as (P2 & Hp & V2 & R2 & C2).
    destruct (pass_trans _ _ _ _ _ _ _ P0 P2) as (I2 & W2 & K2). set (s2 := evict s1 i) in *.
    assert (forall j, ~ cached s2 v l j) as Hun2 by (intros j Hj%C2; by apply Hun0 in Hj).
    assert (~ E i) as HEi by (by apply (victim_not_held s2 w1 E)).
    destruct (inv_add s2 (install s2 i v l zeros 1) w1 E (fun j => E j \/ j = i) i (Buf v l zeros 1 false (u64 (lru_counter s2 + 1)) true) I2 Hp V2 Hun2)
      as (I3 & V3 & C3); try done.
    { unfold install, bc_link. cbn. by rewrite upd_same. } { intros j. naive_solver. } { left. by right. }
    destruct (store_inv (install s2 i v l zeros 1) w1 E (fun j => E j \/ j = i) v l i x I3) as [I4 V4]; [done|by left|apply C3; by right|done|done|].
    split; [done|]. split; [eapply kept_trans; [exact K2|eapply (kept_upd _ _ i); [reflexivity|done]]|].
    intros v' l'. rewrite V4, V3. cbn. rewrite W2. by destruct (_ && _).
Qed.

(** A caller that takes a sector's buffer for overwriting, fills it and
    marks it dirty has written that sector and no other: every sector's content
    is afterwards what it was, except the one written. *)
Theorem bcache_overwrite_correct s w E v l x :
  inv s w E -> v <> 0 -> bd_write (devs v) = true ->
  match bcache_get_overwrite true s w v l with
  | (s', w', Some i) =>
      inv (store s' i x) w' E /\ kept s s' /\
      forall v' l', view (store s' i x) w' v' l' = if (v' =? v) && (l' =? l) then x else view s w v' l'
  | (s', w', None) => inv s' w' E /\ same_view s w s' w' /\ kept s s'
  end.
Proof. apply overwrite_ok. Qed.

(** *** Write-back *)

Definition same_id (b b' : buf) : Prop :=
  dev b' = dev b /\ lba b' = lba b /\ data b' = data b /\ valid b' = valid b /\ refcount b' = refcount b /\
  (dirty b = false -> dirty b' = false).
Lemma same_id_refl b : same_id b b. Proof. done. Qed.

Lemma sync_from_spec n v : forall s w E i failed s' w' failed',
  inv s w E -> 0 <= i -> i + Z.of_nat n <= Z.of_nat BCACHE_SLOTS ->
  sync_from n s w v i failed = (s', w', failed') ->
  inv s' w' E /\ same_view s w s' w' /\ failed <= failed' /\ (forall j, same_id (slots s j) (slots s' j)) /\
  (failed' = failed -> forall j, i <= j < i + Z.of_nat n -> valid (slots s' j) = true -> dev (slots s' j) = v -> dirty (slots s' j) = false).
Proof.
  induction n as [|n IH]; intros s w E i failed s' w' failed' I Hi Hn; cbn [sync_from].
  { intros [= <- <- <-]. do 4 (split; [done|]). intros; lia. }
  assert (forall s1 w1 f1, inv s1 w1 E -> same_view s w s1 w1 -> failed <= f1 -> (forall j, same_id (slots s j) (slots s1 j)) ->
     (f1 = failed -> valid (slots s1 i) = true -> dev (slots s1 i) = v -> dirty (slots s1 i) = false) ->
     sync_from n s1 w1 v (i + 1) f1 = (s', w', failed') ->
     inv s' w' E /\ same_view s w s' w' /\ failed <= failed' /\ (forall j, same_id (slots s j) (slots s' j)) /\
     (failed' = failed -> forall j, i <= j < i + Z.of_nat (S n) -> valid (slots s' j) = true -> dev (slots s' j) = v -> dirty (slots s' j) = false)) as Hgo.
  { intros s1 w1 f1 I1 V1 F1 S1 D1 Hs. destruct (IH s1 w1 E (i + 1) f1 s' w' failed' I1 ltac:(lia) ltac:(lia) Hs) as (I2 & V2 & F2 & S2 & D2).
    split; [done|]. split; [by eapply same_view_trans|]. split; [lia|].
    split. { intros j. destruct (S1 j) as (A1 & A2 & A3 & A4 & A5 & A6), (S2 j) as (B1 & B2 & B3 & B4 & B5 & B6). repeat split; try congruence. auto. }
    intros Hf j Hj Hv Hd. destruct (decide (j = i)) as [->|]; [|apply D2; [lia|lia|done|done]].
    destruct (S2 i) as (B1 & B2 & B3 & B4 & B5 & B6). apply B6, D1; [lia|congruence|congruence]. }
  destruct (valid (slots s i)) eqn:Hv; cbn [negb orb].
  2:{ apply Hgo; [done|done|lia|intros; apply same_id_refl|congruence]. }
  destruct (dirty (slots s i)) eqn:Hd; cbn [negb orb].
  2:{ apply Hgo; [done|done|lia|intros; apply same_id_refl|done]. }
  destruct (Z.eqb_spec (dev (slots s i)) v) as [Hdev|Hdev]; cbn [negb].
  2:{ apply Hgo; [done|done|lia|intros; apply same_id_refl|done]. }
  destruct (blk_write w v (lba (slots s i)) (data (slots s i))) as [w1 ok] eqn:Ew. rewrite <- Hdev in Ew.
  destruct (blk_write_ok s w E i w1 ok I ltac:(unfold in_pool; lia) Hv Hd Ew) as [Hf Ht]. destruct ok.
  - destruct (Ht eq_refl (count (set_slot s i (set_dirty (slots s i) false)) 0 0 0 1)) as [I1 V1]; [done|done|].
    apply Hgo; [done|done|lia| |cbn; by rewrite upd_same].
    intros j. cbn. rewrite upd_eq. destruct (Z.eqb_spec j i) as [->|]; [done|apply same_id_refl].
  - destruct (Hf eq_refl) as [I1 V1]. apply Hgo; [done|done|lia|intros; apply same_id_refl|lia].
Qed.

(** [bcache_sync] changes no sector's content; when it answers 0, every
    sector of the device that no caller is busy changing is on the disk as the
    system sees it. *)
Theorem bcache_sync_correct s w E v :
  inv s w E -> (forall i, E i -> dev (slots s i) <> v) ->
  let '(s', w', rc) := bcache_sync true s w v in
  inv s' w' E /\ same_view s w s' w' /\ (rc = 0 -> forall l, disk w' v l = view s w v l).
Proof.
  intros I HE. unfold bcache_sync. cbn [negb orb]. destruct ((v =? 0) || _); [done|].
  destruct (sync_from BCACHE_SLOTS s w v 0 0) as [[s' w'] failed] eqn:Es.
  destruct (sync_from_spec BCACHE_SLOTS v s w E 0 0 _ _ _ I (Z.le_refl 0) ltac:(lia) Es) as (I' & V' & F' & S' & D').
  split; [done|]. split; [done|]. destruct (Z.eqb_spec failed 0) as [->|]; [|done]. intros _ l. rewrite <- V'.
  destruct (view_cases s' w' E v l I') as [(i & Hc & ->)|[Hn ->]]; [|done].
  destruct Hc as (Hp & Hv & Hd & Hl). symmetry. rewrite <- Hd, <- Hl. apply I'; [done|done| |].
  - apply D'; [done|unfold in_pool in Hp; lia|done|done].
  - intros Hi. apply (HE i Hi). destruct (S' i) as (<- & _). done.
Qed.

(** *** Forgetting a device *)

Lemma drop_from_spec n v : forall s w E i held s' held',
  inv s w E -> 0 <= i -> i + Z.of_nat n <= Z.of_nat BCACHE_SLOTS ->
  (forall j, in_pool j -> valid (slots s j) = true -> dev (slots s j) = v -> refcount (slots s j) <= 0 -> dirty (slots s j) = false) ->
  drop_from n s v i held = (s', held') ->
  inv s' w E /\ same_view s w s' w /\ kept s s' /\ held <= held' /\ (forall j, j < i -> slots s' j = slots s j) /\
  (held' = held -> forall j, i <= j < i + Z.of_nat n -> valid (slots s' j) = true -> dev (slots s' j) <> v).
Proof.
  induction n as [|n IH]; intros s w E i held s' held' I Hi Hn Hcl; cbn [drop_from].
  { intros [= <- <-]. do 2 (split; [done|]). split; [apply kept_refl|]. split; [done|]. split; [done|]. intros; lia. }
  assert (forall s1 h1, inv s1 w E -> same_view s w s1 w -> kept s s1 -> held <= h1 -> (forall j, j <> i -> slots s1 j = slots s j) ->
     (h1 = held -> valid (slots s1 i) = true -> dev (slots s1 i) <> v) ->
     (forall j, in_pool j -> valid (slots s1 j) = true -> dev (slots s1 j) = v -> refcount (slots s1 j) <= 0 -> dirty (slots s1 j) = false) ->
     drop_from n s1 v (i + 1) h1 = (s', held') ->
     inv s' w E /\ same_view s w s' w /\ kept s s' /\ held <= held' /\ (forall j, j < i -> slots s' j = slots s j) /\
     (held' = held -> forall j, i <= j < i + Z.of_nat (S n) -> valid (slots s' j) = true -> dev (slots s' j) <> v)) as Hgo.
  { intros s1 h1 I1 V1 K1 F1 S1 D1 C1 Hs. destruct (IH s1 w E (i + 1) h1 s' held' I1 ltac:(lia) ltac:(lia) C1 Hs) as (I2 & V2 & K2 & F2 & S2 & D2).
    split; [done|]. split; [by eapply same_view_trans|]. split; [by eapply kept_trans|]. split; [lia|].
    split; [intros j Hj; rewrite S2, S1; [done|lia|lia]|].
    intros Hf j Hj Hv. destruct (decide (j = i)) as [->|]; [|apply D2; [lia|lia|done]].
    rewrite S2 in * by lia. apply D1; [lia|done]. }
  destruct (valid (slots s i)) eqn:Hv; cbn [negb orb].
  2:{ apply Hgo; [done|done|apply kept_refl|lia|done|congruence|done]. }
  destruct (Z.eqb_spec (dev (slots s i)) v) as [Hdev|Hdev]; cbn [negb].
  2:{ apply Hgo; [done|done|apply kept_refl|lia|done|done|done]. }
  destruct (Z.ltb_spec 0 (refcount (slots s i))) as [Hr|Hr].
  { apply Hgo; [done|done|apply kept_refl|lia|done|lia|done]. }
  assert (in_pool i) as Hp by (unfold in_pool; lia).
  match goal with |- context [drop_from n ?x v (i + 1) held] => set (s1 := x) end.
  destruct (inv_drop s s1 w E i (Buf 0 (lba (slots s i)) (data (slots s i)) (refcount (slots s i)) false (lru_tick (slots s i)) false) I Hp Hv)
    as (I1 & V1 & C1); try done; [by apply Hcl|by apply (victim_not_held s w E)|].
  apply Hgo; [done|done|eapply (kept_upd _ _ i); [reflexivity|done]|lia| | |].
  - intros j Hj. unfold s1. cbn. by rewrite upd_other.
  - unfold s1. cbn. by rewrite upd_same.
  - intros j Hpj. unfold s1. cbn. rewrite upd_eq. destruct (Z.eqb_spec j i); [done|by apply Hcl].
Qed.

(** Forgetting a device whose write-back succeeds loses nothing: no
    sector's content changes and buffers in use are left alone; when the answer
    is 0, no copy of any of its sectors is left in the cache. *)
Theorem bcache_invalidate_correct s w E v :
  inv s w E -> v <> 0 -> (bcache_sync true s w v).2 = 0 ->
  let '(s', w', held) := bcache_invalidate true s w v in
  inv s' w' E /\ same_view s w s' w' /\ (held = 0 -> forall l i, ~ cached s' v l i).
Proof.
  intros I Hv0 Hrc. unfold bcache_invalidate. cbn [negb orb]. destruct (Z.eqb_spec v 0) as [|_]; [done|].
  unfold bcache_sync in *. cbn [negb orb] in *. destruct ((v =? 0) || _); [done|].
  destruct (sync_from BCACHE_SLOTS s w v 0 0) as [[s1 w1] failed] eqn:Es.
  destruct (sync_from_spec BCACHE_SLOTS v s w E 0 0 _ _ _ I (Z.le_refl 0) ltac:(lia) Es) as (I1 & V1 & F1 & S1 & D1).
  cbn [snd] in Hrc. destruct (Z.eqb_spec failed 0) as [->|]; [|done].
  destruct (drop_from BCACHE_SLOTS s1 v 0 0) as [s2 held] eqn:Ed.
  destruct (drop_from_spec BCACHE_SLOTS v s1 w1 E 0 0 s2 held I1 (Z.le_refl 0) ltac:(lia)) as (I2 & V2 & K2 & F2 & S2 & D2).
  { intros j Hp Hv Hd _. apply D1; [done|unfold in_pool in Hp; lia|done|done]. } { exact Ed. }
  split; [done|]. split; [by eapply same_view_trans|]. intros -> l i (Hp & Hv & Hd & _).
  apply (D2 eq_refl i); [unfold in_pool in Hp; lia|done|done].
Qed.

Lemma init_inv w : inv bcache_init w (fun _ => False).
Proof.
  split; cbn; try done.
  - intros h. constructor.
  - intros h i. split; [by intros ?%not_elem_of_nil|]. by intros (_ & ? & _).
  - by intros v l i j (_ & ? & _).
Qed.
End Ops.

(** *** A device, and what it does with a run of operations *)

(** The disk at address 16 has 100 sectors of 512 bytes; [f] says which
    requests fail. *)
Definition one_disk (f : nat -> bool) : Driver :=
  {| devs := fun v => if v =? 16 then Bdev true true 512 100 else Bdev false false 0 0;
     io_fails := f; torn := fun _ => [] |}.
Definition blank : world := World (fun _ _ => [0]) 0.

(** Sector 5 written through the cache and released: dirty, not held. *)
Definition written (d : Driver) : bc * world :=
  match bcache_get_overwrite true bcache_init blank 16 5 with
  | (s, w, Some i) => (bcache_release (store s i [7]) i, w)
  | (s, w, None) => (s, w)
  end.

Definition good : Driver := one_disk (fun _ => false).
Definition failing : Driver := one_disk (fun _ => true).

Lemma bcache_get_correct_witness :
  let '(s', w', r) := @bcache_get good true bcache_init blank 16 5 in
  r = Some 0 /\ data (slots s' 0) = [0] /\ @inv good s' w' (fun _ => False).
Proof.
  pose proof (@bcache_get_correct good bcache_init blank (fun _ => False) 16 5 (@init_inv good blank) ltac:(lia) ltac:(lia)) as H.
  assert ((@bcache_get good true bcache_init blank 16 5).2 = Some 0) as Er by (vm_compute; reflexivity).
  destruct (@bcache_get good true bcache_init blank 16 5) as [[s' w'] r]. cbn in Er. subst r.
  destruct H as (H1 & _ & _ & _ & H2 & _). split; [reflexivity|]. split; [rewrite H2; reflexivity|exact H1].
Defined.

Lemma bcache_overwrite_correct_witness :
  match @bcache_get_overwrite good true bcache_init blank 16 5 with
  | (s', w', Some i) => view (store s' i [7]) w' 16 5 = [7] /\ view (store s' i [7]) w' 16 6 = [0]
  | _ => False
  end.
Proof.
  pose proof (@bcache_overwrite_correct good bcache_init blank (fun _ => False) 16 5 [7] (@init_inv good blank) ltac:(lia) eq_refl) as H.
  assert ((@bcache_get_overwrite good true bcache_init blank 16 5).2 = Some 0) as Er by (vm_compute; reflexivity).
  destruct (@bcache_get_overwrite good true bcache_init blank 16 5) as [[s' w'] r]. cbn in Er. subst r.
  destruct H as (_ & _ & H). split; rewrite H; reflexivity.
Defined.

Lemma written_inv : @inv good (written good).1 (written good).2 (fun _ => False).
Proof.
  unfold written.
  pose proof (@overwrite_ok good bcache_init blank (fun _ => False) 16 5 [7] (@init_inv good blank) ltac:(lia) eq_refl) as H.
  destruct (@bcache_get_overwrite good true bcache_init blank 16 5) as [[s' w'] [i|]]; cbn [fst snd]; [|apply H].
  destruct H as (I & _ & _). unfold bcache_release. case_match; [|exact I].
  by apply (@inv_keep1 good _ _ w' (fun _ => False) i (set_ref (slots (store s' i [7]) i) (refcount (slots (store s' i [7]) i) - 1)) I).
Qed.

Lemma bcache_sync_correct_witness :
  let '(s', w', rc) := @bcache_sync good true (written good).1 (written good).2 16 in
  rc = 0 /\ disk w' 16 5 = [7].
Proof.
  pose proof (@bcache_sync_correct good (written good).1 (written good).2 (fun _ => False) 16 written_inv ltac:(tauto)) as H.
  assert ((@bcache_sync good true (written good).1 (written good).2 16).2 = 0) as Er by (vm_compute; reflexivity).
  destruct (@bcache_sync good true (written good).1 (written good).2 16) as [[s' w'] rc]. cbn [snd] in Er. subst rc.
  split; [reflexivity|]. destruct H as (_ & _ & H). rewrite (H eq_refl). vm_compute. reflexivity.
Defined.

Lemma bcache_invalidate_correct_witness :
  let '(s', w', held) := @bcache_invalidate good true (written good).1 (written good).2 16 in
  held = 0 /\ view s' w' 16 5 = [7].
Proof.
  pose proof (@bcache_invalidate_correct good (written good).1 (written good).2 (fun _ => False) 16 written_inv ltac:(lia)) as H.
  assert ((@bcache_invalidate good true (written good).1 (written good).2 16).2 = 0) as Er by (vm_compute; reflexivity).
  destruct (@bcache_invalidate good true (written good).1 (written good).2 16) as [[s' w'] held]. cbn [snd] in Er. subst held.
  split; [reflexivity|]. destruct H as (_ & H & _); [vm_compute; reflexivity|]. rewrite H. vm_compute. reflexivity.
Defined.

(** [bcache_invalidate] ignores the result of its write-back.  When the
    write of a dirty sector fails, the copy is dropped all the same: the answer
    is 0 (nothing held), and the sector's content is no longer what was written
    (a failed explicit [bcache_sync] keeps it). *)
Theorem bcache_invalidate_loses_write :
  let '(s, w) := written failing in
  view s w 16 5 = [7] /\
  (let '(s1, w1, rc) := @bcache_sync failing true s w 16 in rc = -2 /\ view s1 w1 16 5 = [7]) /\
  (let '(s2, w2, held) := @bcache_invalidate failing true s w 16 in held = 0 /\ view s2 w2 16 5 = []).
Proof. vm_compute. repeat split. Qed.

(** The cache evicts the least recently used buffer.  The victim is a slot
    nobody holds: a free one if there is any, else one whose last access is no
    later than that of any other slot nobody holds; there is none only when every
    slot is held. *)
Theorem pick_victim_lru s :
  match pick_victim s with
  | Some u => in_pool u /\ refcount (slots s u) <= 0 /\
      (valid (slots s u) = true -> forall j, in_pool j -> refcount (slots s j) <= 0 ->
         valid (slots s j) = true /\ lru_tick (slots s u) <= lru_tick (slots s j))
  | None => forall j, in_pool j -> 0 < refcount (slots s j)
  end.
Proof. apply (pick_from_spec BCACHE_SLOTS s 0 None); [lia|intros j Hj; lia]. Qed.
End CacheOps.
