(* ===== verification/Sha256.v ===== *)
(** * SHA-256, HMAC and PBKDF2 (kernel/core/sha256.c)

    The hash is computed over a stream: [sha256_update] takes any number of
    bytes at a time through a 64-byte buffer and [sha256_final] pads.  The
    theorems relate the stream to the padding rule of FIPS 180-4 section 5.1.1,
    and the two constructions built on it to their definitions in RFC 2104 and
    RFC 8018.  The published vectors at the end are evaluated. *)

From stdpp Require Import base list.
From Stdlib Require Import ZArith Lia Bool.
From S2P Require Import Prelude.
Open Scope Z_scope.

Module Sha256.

Definition SHA256_DIGEST_LEN : nat := 32.
Definition SHA256_BLOCK_LEN : nat := 64.

(** [buf] is the whole array; only its first [buflen] bytes mean anything. *)
Record sha256_ctx := Ctx { h : list Z; nbits : Z; buf : list Z; buflen : nat }.

Definition K : list Z := mjoin [
  [0x428a2f98; 0x71374491; 0xb5c0fbcf; 0xe9b5dba5];
  [0x3956c25b; 0x59f111f1; 0x923f82a4; 0xab1c5ed5];
  [0xd807aa98; 0x12835b01; 0x243185be; 0x550c7dc3];
  [0x72be5d74; 0x80deb1fe; 0x9bdc06a7; 0xc19bf174];
  [0xe49b69c1; 0xefbe4786; 0x0fc19dc6; 0x240ca1cc];
  [0x2de92c6f; 0x4a7484aa; 0x5cb0a9dc; 0x76f988da];
  [0x983e5152; 0xa831c66d; 0xb00327c8; 0xbf597fc7];
  [0xc6e00bf3; 0xd5a79147; 0x06ca6351; 0x14292967];
  [0x27b70a85; 0x2e1b2138; 0x4d2c6dfc; 0x53380d13];
  [0x650a7354; 0x766a0abb; 0x81c2c92e; 0x92722c85];
  [0xa2bfe8a1; 0xa81a664b; 0xc24b8b70; 0xc76c51a3];
  [0xd192e819; 0xd6990624; 0xf40e3585; 0x106aa070];
  [0x19a4c116; 0x1e376c08; 0x2748774c; 0x34b0bcb5];
  [0x391c0cb3; 0x4ed8aa4a; 0x5b9cca4f; 0x682e6ff3];
  [0x748f82ee; 0x78a5636f; 0x84c87814; 0x8cc70208];
  [0x90befffa; 0xa4506ceb; 0xbef9a3f7; 0xc67178f2]].

Definition rotr (x n : Z) : Z := u32 (Z.lor (Z.shiftr x n) (Z.shiftl x (32 - n))).

(** A byte or word of an array the code indexes inside its bounds. *)
Definition at_ (l : list Z) (i : nat) : Z := nth i l 0.

Definition load_word (p : list Z) (i : nat) : Z :=
  Z.lor (Z.lor (Z.lor (Z.shiftl (at_ p (i * 4)) 24) (Z.shiftl (at_ p (i * 4 + 1)) 16))
               (Z.shiftl (at_ p (i * 4 + 2)) 8)) (at_ p (i * 4 + 3)).

(** [for (i = length w; n more; i++) w[i] = ...] *)
Fixpoint extend (n : nat) (w : list Z) : list Z :=
  match n with
  | O => w
  | S n' =>
      let i := length w in
      let w15 := at_ w (i - 15) in let w2 := at_ w (i - 2) in
      let s0 := Z.lxor (Z.lxor (rotr w15 7) (rotr w15 18)) (Z.shiftr w15 3) in
      let s1 := Z.lxor (Z.lxor (rotr w2 17) (rotr w2 19)) (Z.shiftr w2 10) in
      extend n' (w ++ [u32 (at_ w (i - 16) + s0 + at_ w (i - 7) + s1)])
  end.

Record regs := Regs { ra : Z; rb : Z; rc : Z; rd : Z; re : Z; rf : Z; rg : Z; rh : Z }.

Definition round (x : regs) (kw : Z * Z) : regs :=
  let '(Regs a b c d e f g h) := x in
  let S1 := Z.lxor (Z.lxor (rotr e 6) (rotr e 11)) (rotr e 25) in
  let ch := Z.lxor (Z.land e f) (Z.land (u32 (Z.lnot e)) g) in
  let t1 := u32 (h + S1 + ch + kw.1 + kw.2) in
  let S0 := Z.lxor (Z.lxor (rotr a 2) (rotr a 13)) (rotr a 22) in
  let maj := Z.lxor (Z.lxor (Z.land a b) (Z.land a c)) (Z.land b c) in
  let t2 := u32 (S0 + maj) in
  Regs (u32 (t1 + t2)) a b c (u32 (d + t1)) e f g.

Definition sha256_block (hs p : list Z) : list Z :=
  let w := extend 48 (load_word p <$> seq 0 16) in
  let x := fold_left round (zip K w)
             (Regs (at_ hs 0) (at_ hs 1) (at_ hs 2) (at_ hs 3) (at_ hs 4) (at_ hs 5) (at_ hs 6) (at_ hs 7)) in
  zip_with (fun a b => u32 (a + b)) hs [ra x; rb x; rc x; rd x; re x; rf x; rg x; rh x].

Definition H0 : list Z :=
  [0x6a09e667; 0xbb67ae85; 0x3c6ef372; 0xa54ff53a; 0x510e527f; 0x9b05688c; 0x1f83d9ab; 0x5be0cd19].

(** [old] is whatever the caller's buffer held: [sha256_init] does not clear it. *)
Definition sha256_init (old : list Z) : sha256_ctx := Ctx H0 0 old 0.

(** [for (i = 0; i < length d; i++) b[at + i] = d[i]] *)
Definition put (b : list Z) (at_ : nat) (d : list Z) : list Z := take at_ b ++ d ++ drop (at_ + length d) b.

(** One turn of the [while (len > 0)] loop: the bytes left and the context. *)
Definition update_step (c : sha256_ctx) (data : list Z) : sha256_ctx * list Z :=
  let space := (SHA256_BLOCK_LEN - buflen c)%nat in
  let tk := if (length data <? space)%nat then length data else space in
  let b := put (buf c) (buflen c) (take tk data) in
  let n := (buflen c + tk)%nat in
  (if (n =? SHA256_BLOCK_LEN)%nat then Ctx (sha256_block (h c) b) (nbits c) b 0 else Ctx (h c) (nbits c) b n,
   drop tk data).

(** Every turn takes a byte at least, so [length data] turns are enough. *)
Fixpoint update_loop (fuel : nat) (c : sha256_ctx) (data : list Z) : option sha256_ctx :=
  match data, fuel with
  | [], _ => Some c
  | _ :: _, O => None
  | _ :: _, S fuel' => let '(c, rest) := update_step c data in update_loop fuel' c rest
  end.

Definition count_bits (c : sha256_ctx) (n : Z) : sha256_ctx := Ctx (h c) n (buf c) (buflen c).

Definition sha256_update (c : sha256_ctx) (data : list Z) : option sha256_ctx :=
  update_loop (length data) (count_bits c (u64 (nbits c + u64 (Z.of_nat (length data) * 8)))) data.

(** [while (c->buflen != 56) { update one zero byte; c->nbits = nbits; }] *)
Fixpoint pad_loop (fuel : nat) (bits : Z) (c : sha256_ctx) : option sha256_ctx :=
  if (buflen c =? 56)%nat then Some c else
  match fuel with
  | O => None
  | S fuel' => c ← sha256_update c [0]; pad_loop fuel' bits (count_bits c bits)
  end.

Definition be64 (v : Z) : list Z := (fun i => u8 (Z.shiftr v (56 - Z.of_nat i * 8))) <$> seq 0 8.
Definition be32 (v : Z) : list Z := [u8 (Z.shiftr v 24); u8 (Z.shiftr v 16); u8 (Z.shiftr v 8); u8 v].

(** 63 zero bytes fill any buffer to 56. *)
Definition sha256_final (c : sha256_ctx) : option (list Z) :=
  let bits := nbits c in
  c ← sha256_update c [0x80];
  c ← pad_loop 64 bits (count_bits c bits);
  c ← sha256_update c (be64 bits);
  Some (mjoin (be32 <$> h c)).

Definition sha256 (old data : list Z) : option (list Z) :=
  c ← sha256_update (sha256_init old) data; sha256_final c.

(** ** HMAC and PBKDF2 *)

Definition zeros (n : nat) : list Z := replicate n 0.
Definition xor_with (v : Z) (l : list Z) : list Z := (fun b => Z.lxor b v) <$> l.

Definition hmac_key (old key : list Z) : option (list Z) :=
  if (SHA256_BLOCK_LEN <? length key)%nat
  then d ← sha256 old key; Some (put (zeros SHA256_BLOCK_LEN) 0 d)
  else Some (put (zeros SHA256_BLOCK_LEN) 0 key).

Definition hmac_sha256 (old key data : list Z) : option (list Z) :=
  k ← hmac_key old key;
  c ← sha256_update (sha256_init old) (xor_with 0x36 k);
  c ← sha256_update c data;
  let b := buf c in
  inner ← sha256_final c;
  c ← sha256_update (sha256_init b) (xor_with 0x5c k);
  c ← sha256_update c inner;
  sha256_final c.

(** [for (it = 1; it < iterations; it++) { u = HMAC(pass, u); t ^= u; }] *)
Fixpoint iterate_loop (n : nat) (old pass u t : list Z) : option (list Z) :=
  match n with
  | O => Some t
  | S n' => u ← hmac_sha256 old pass u; iterate_loop n' old pass u (zip_with Z.lxor t u)
  end.

Fixpoint pbkdf2_loop (fuel : nat) (old pass salt : list Z) (iterations block : Z) (dklen : nat) (out : list Z)
    : option (list Z) :=
  if (dklen <=? length out)%nat then Some out else
  match fuel with
  | O => None
  | S fuel' =>
      u ← hmac_sha256 old pass (salt ++ be32 block);
      t ← iterate_loop (Z.to_nat (iterations - 1)) old pass u u;
      let left := (dklen - length out)%nat in
      let tk := if (SHA256_DIGEST_LEN <? left)%nat then SHA256_DIGEST_LEN else left in
      pbkdf2_loop fuel' old pass salt iterations (u32 (block + 1)) dklen (out ++ take tk t)
  end.

(** Every turn adds a byte at least. *)
Definition pbkdf2_sha256 (old pass salt : list Z) (iterations : Z) (dklen : nat) : option (list Z) :=
  let iterations := if iterations <? 1 then 1 else iterations in
  let sl := if (128 <? length salt)%nat then 128%nat else length salt in
  pbkdf2_loop dklen old pass (take sl salt) iterations 1 dklen [].

(** ** The reference: FIPS 180-4 *)

(** Section 5.1.1: a one bit, zeros, and the length in bits. *)
Definition pad_zeros (n : nat) : nat := Z.to_nat ((55 - Z.of_nat n) mod 64).
Definition padded (m : list Z) : list Z :=
  m ++ [0x80] ++ zeros (pad_zeros (length m)) ++ be64 (8 * Z.of_nat (length m)).

(** Section 6.2.2: the hash of whole blocks. *)
Fixpoint blocks (n : nat) (hs m : list Z) : list Z :=
  match n with O => hs | S n' => blocks n' (sha256_block hs (take 64 m)) (drop 64 m) end.

Definition digest (m : list Z) : list Z :=
  mjoin (be32 <$> blocks (length (padded m) / 64) H0 (padded m)).

(** ** What a context stands for *)

(** The bytes [m] fed so far: the whole blocks are hashed, the rest is buffered. *)
Record rep (c : sha256_ctx) (m : list Z) : Prop := {
  rep_q : exists q, length m = (64 * q + buflen c)%nat /\ h c = blocks q H0 m /\
          take (buflen c) (buf c) = drop (64 * q) m;
  rep_len : (buflen c < 64)%nat;
  rep_buf : length (buf c) = 64%nat
}.

Lemma blocks_app n hs m x : (64 * n <= length m)%nat -> blocks n hs (m ++ x) = blocks n hs m.
Proof.
  revert hs m. induction n as [|n IH]; intros hs m Hn; [done|]. cbn [blocks].
  rewrite take_app_le, drop_app_le by lia. apply IH. rewrite length_drop. lia.
Qed.

Lemma blocks_S n hs m : blocks (S n) hs m = sha256_block (blocks n hs m) (take 64 (drop (64 * n) m)).
Proof.
  revert hs m. induction n as [|n IH]; intros hs m.
  - cbn [blocks]. by rewrite Nat.mul_0_r, drop_0.
  - change (blocks (S (S n)) hs m) with (blocks (S n) (sha256_block hs (take 64 m)) (drop 64 m)).
    rewrite IH. cbn [blocks]. rewrite drop_drop. do 3 f_equal. lia.
Qed.

Lemma put_length b k d : (k + length d <= length b)%nat -> length (put b k d) = length b.
Proof. intros H. unfold put. rewrite !length_app, length_take, length_drop. lia. Qed.

Lemma take_put b k d : (k + length d <= length b)%nat -> take (k + length d) (put b k d) = take k b ++ d.
Proof.
  intros H. unfold put. rewrite app_assoc, take_app_le by (rewrite length_app, length_take; lia).
  apply take_ge. rewrite length_app, length_take. lia.
Qed.

Lemma update_step_ok c m data : rep c m -> data <> [] ->
  let '(c', rest) := update_step c data in
  exists d, data = d ++ rest /\ d <> [] /\ rep c' (m ++ d) /\ nbits c' = nbits c.
Proof.
  intros [(q & Hm & Hh & Hb) Hl Hbuf] Hd. unfold update_step. change SHA256_BLOCK_LEN with 64%nat.
  set (tk := if (length data <? 64 - buflen c)%nat then length data else (64 - buflen c)%nat).
  assert (0 < tk <= length data /\ buflen c + tk <= 64)%nat as Ht.
  { destruct data as [|z data]; [done|]. unfold tk. destruct (Nat.ltb_spec (length (z :: data)) (64 - buflen c)); cbn in *; lia. }
  assert (length (take tk data) = tk) as Ed by (rewrite length_take; lia).
  pose proof (take_put (buf c) (buflen c) (take tk data) ltac:(lia)) as Htp. rewrite Ed in Htp.
  pose proof (put_length (buf c) (buflen c) (take tk data) ltac:(lia)) as Hpl.
  exists (take tk data). split; [by rewrite take_drop|]. split; [intros E; rewrite E in Ed; cbn in Ed; lia|].
  destruct (Nat.eqb_spec (buflen c + tk) 64) as [E|E]; (split; [|done]); split; cbn [h buf buflen]; try lia.
  - exists (S q). rewrite length_app, Ed. split; [lia|]. split; [|by rewrite drop_ge by (rewrite length_app; lia)].
    rewrite blocks_S, blocks_app by lia. rewrite <- Hh. f_equal.
    rewrite drop_app_le, <- Hb, <- Htp, E by lia. by rewrite !(take_ge (put _ _ _)) by lia.
  - exists q. rewrite length_app, Ed. split; [lia|]. rewrite blocks_app, drop_app_le by lia.
    split; [done|]. by rewrite Htp, Hb.
Qed.

Lemma update_loop_ok fuel c m data : rep c m -> (length data <= fuel)%nat ->
  exists c', update_loop fuel c data = Some c' /\ rep c' (m ++ data) /\ nbits c' = nbits c.
Proof.
  revert c m data. induction fuel as [|fuel IH]; intros c m [|z data] Hr Hf; cbn in Hf; try lia;
    try (exists c; by rewrite app_nil_r).
  cbn [update_loop]. pose proof (update_step_ok c m (z :: data) Hr ltac:(done)) as H.
  destruct (update_step c (z :: data)) as [c1 rest]. destruct H as (d & E & Hd & Hr1 & Hn).
  destruct (IH c1 (m ++ d) rest Hr1) as (c' & -> & Hr' & Hn').
  { apply (f_equal length) in E. rewrite length_app in E. destruct d; [done|]. cbn in E. lia. }
  exists c'. rewrite E, app_assoc. split_and!; [done|done|congruence].
Qed.

Lemma count_rep c m n : rep c m -> rep (count_bits c n) m.
Proof. by intros []. Qed.

Lemma update_ok c m data : rep c m ->
  exists c', sha256_update c data = Some c' /\ rep c' (m ++ data) /\
             nbits c' = u64 (nbits c + u64 (Z.of_nat (length data) * 8)).
Proof. intros Hr. apply (update_loop_ok (length data)); [by apply count_rep|lia]. Qed.

Lemma init_rep old : length old = 64%nat -> rep (sha256_init old) [].
Proof. intros H. split; cbn; [by exists 0%nat|lia|done]. Qed.

Lemma rep_mod c m : rep c m -> (length m mod 64)%nat = buflen c.
Proof.
  intros [(q & -> & _) Hl _]. rewrite Nat.mul_comm, Nat.add_comm, Nat.Div0.mod_add. by apply Nat.mod_small.
Qed.

(** The zeros [pad_loop] adds: as many as bring the length to 56 modulo 64. *)
Lemma pad_loop_ok k fuel bits c m : rep c m -> nbits c = bits ->
  ((length m + k) mod 64 = 56)%nat -> (forall j, (j < k)%nat -> (length m + j) mod 64 <> 56)%nat -> (k <= fuel)%nat ->
  exists c', pad_loop fuel bits c = Some c' /\ rep c' (m ++ zeros k) /\ nbits c' = bits.
Proof.
  revert fuel c m. induction k as [|k IH]; intros fuel c m Hr Hn Hk Hj Hf.
  - exists c. unfold zeros. cbn [replicate]. rewrite app_nil_r. rewrite Nat.add_0_r, (rep_mod c) in Hk by done.
    unfold pad_loop. destruct fuel; by rewrite Hk.
  - destruct fuel as [|fuel]; [lia|]. cbn [pad_loop].
    assert (buflen c <> 56)%nat as Hne.
    { intros E. apply (Hj 0%nat); [lia|]. by rewrite Nat.add_0_r, (rep_mod c). }
    rewrite (proj2 (Nat.eqb_neq _ _) Hne).
    destruct (update_ok c m [0] Hr) as (c1 & -> & Hr1 & _). cbn [mbind option_bind].
    destruct (IH fuel (count_bits c1 bits) (m ++ [0])) as (c' & -> & Hr' & Hn'); [by apply count_rep|done| | |lia|].
    + rewrite length_app. cbn [length]. by replace (length m + 1 + k)%nat with (length m + S k)%nat by lia.
    + intros j Hlt. rewrite length_app. cbn [length]. rewrite <- Nat.add_assoc. apply (Hj (1 + j)%nat). lia.
    + exists c'. split; [done|]. split; [|done]. unfold zeros in *. by rewrite <- app_assoc in Hr'.
Qed.

Lemma pad_zeros_spec n : ((n + 1 + pad_zeros n) mod 64 = 56)%nat /\
  (pad_zeros n < 64)%nat /\ (forall j, (j < pad_zeros n)%nat -> ((n + 1 + j) mod 64 <> 56)%nat).
Proof.
  unfold pad_zeros. pose proof (Z.mod_pos_bound (55 - Z.of_nat n) 64 ltac:(lia)) as Hb.
  pose proof (Z.div_mod (55 - Z.of_nat n) 64 ltac:(lia)) as Hd. set (r := (55 - Z.of_nat n) mod 64) in *.
  set (q := (55 - Z.of_nat n) / 64) in *.
  split_and!; [|lia|].
  - apply Nat2Z.inj. rewrite Nat2Z.inj_mod. symmetry. apply (Z.mod_unique_pos _ _ (- q)); lia.
  - intros j Hj E. apply (f_equal Z.of_nat) in E. rewrite Nat2Z.inj_mod in E.
    pose proof (Z.div_mod (Z.of_nat (n + 1 + j)) 64 ltac:(lia)) as Hd2. change (Z.of_nat 64) with 64 in E; rewrite E in Hd2. lia.
Qed.

Lemma be64_length v : length (be64 v) = 8%nat.
Proof. unfold be64. by rewrite length_fmap, length_seq. Qed.

Lemma u64_add_idemp a b : u64 (u64 a + u64 b) = u64 (a + b).
Proof. unfold u64. by rewrite <- Z.add_mod by lia. Qed.
Lemma u64_idemp a : u64 (u64 a) = u64 a.
Proof. unfold u64. by rewrite Z.mod_mod by lia. Qed.

Lemma be64_u64 v : be64 (u64 v) = be64 v.
Proof.
  unfold be64. apply list_fmap_ext. intros i x Hi. apply lookup_seq in Hi as [-> Hi]. unfold u8, u64.
  rewrite <- !Z.land_ones with (n := 8) by lia. change 18446744073709551616 with (2 ^ 64).
  rewrite <- Z.land_ones by lia. apply Z.bits_inj'. intros k Hk.
  rewrite !Z.land_spec, !Z.shiftr_spec, Z.land_spec by lia.
  destruct (Z.ltb_spec k 8).
  - rewrite (Z.ones_spec_low 64) by lia. by rewrite andb_true_r.
  - rewrite (Z.ones_spec_high 8) by lia. by rewrite !andb_false_r.
Qed.

(** A context whose counter is the length of what it was fed ends in the digest. *)
Lemma final_ok c m : rep c m -> nbits c = u64 (8 * Z.of_nat (length m)) -> sha256_final c = Some (digest m).
Proof.
  intros Hr Hn. unfold sha256_final.
  destruct (update_ok c m [0x80] Hr) as (c1 & -> & Hr1 & _). cbn [mbind option_bind].
  destruct (pad_zeros_spec (length m)) as (Hk & Hlt & Hj).
  destruct (pad_loop_ok (pad_zeros (length m)) 64 (nbits c) (count_bits c1 (nbits c)) (m ++ [0x80]))
    as (c2 & -> & Hr2 & _); [by apply count_rep|done|by rewrite length_app| |lia|].
  { intros j Hjl. rewrite length_app. apply Hj. done. }
  cbn [mbind option_bind].
  destruct (update_ok c2 _ (be64 (nbits c)) Hr2) as (c3 & -> & Hr3 & _). cbn [mbind option_bind].
  rewrite Hn, be64_u64, <- !app_assoc in Hr3. fold (padded m) in Hr3.
  unfold digest. do 3 f_equal. destruct Hr3 as [(q & Hm & -> & _) Hl _]. f_equal.
  assert (length (padded m) mod 64 = 0)%nat as E.
  { unfold padded, zeros. rewrite !length_app, length_replicate, be64_length. cbn [length].
    replace (length m + (1 + (pad_zeros (length m) + 8)))%nat with ((length m + 1 + pad_zeros (length m)) + 8)%nat by lia.
    rewrite <- Nat.Div0.add_mod_idemp_l, Hk. done. }
  pose proof (Nat.div_mod (length (padded m)) 64 ltac:(lia)) as Hd. lia.
Qed.

(** Feed a list of pieces, one call each. *)
Fixpoint feed (c : sha256_ctx) (pieces : list (list Z)) : option sha256_ctx :=
  match pieces with [] => Some c | d :: ds => c ← sha256_update c d; feed c ds end.

Lemma feed_ok c m pieces : rep c m -> nbits c = u64 (8 * Z.of_nat (length m)) ->
  exists c', feed c pieces = Some c' /\ rep c' (m ++ mjoin pieces) /\
             nbits c' = u64 (8 * Z.of_nat (length (m ++ mjoin pieces))).
Proof.
  revert c m. induction pieces as [|d ds IH]; intros c m Hr Hn; cbn [feed mjoin list_join].
  - exists c. by rewrite app_nil_r.
  - destruct (update_ok c m d Hr) as (c1 & -> & Hr1 & Hn1). cbn [mbind option_bind]. rewrite app_assoc.
    apply IH; [done|]. rewrite Hn1, Hn, u64_add_idemp. f_equal. rewrite length_app. lia.
Qed.

Lemma sha256_ok old m : length old = 64%nat -> sha256 old m = Some (digest m).
Proof.
  intros H. unfold sha256. destruct (update_ok _ [] m (init_rep old H)) as (c & -> & Hr & Hn). cbn [mbind option_bind].
  apply final_ok; [done|]. rewrite Hn. change (nbits (sha256_init old)) with 0. rewrite Z.add_0_l, u64_idemp. f_equal. cbn [app]. lia.
Qed.


(** ** HMAC: RFC 2104 *)

Definition hmac_block (key : list Z) : list Z :=
  let k := if (64 <? length key)%nat then digest key else key in k ++ zeros (64 - length k).
Definition hmac_ref (key text : list Z) : list Z :=
  digest (xor_with 0x5c (hmac_block key) ++ digest (xor_with 0x36 (hmac_block key) ++ text)).

Lemma block_length hs p : length hs = 8%nat -> length (sha256_block hs p) = 8%nat.
Proof. intros H. unfold sha256_block. rewrite length_zip_with, H. done. Qed.

Lemma blocks_length n hs m : length hs = 8%nat -> length (blocks n hs m) = 8%nat.
Proof. revert hs m. induction n as [|n IH]; intros hs m H; [done|]. cbn. apply IH. by apply block_length. Qed.

Lemma digest_length m : length (digest m) = 32%nat.
Proof.
  unfold digest. pose proof (blocks_length (length (padded m) / 64) H0 (padded m) eq_refl) as H.
  set (l := blocks _ _ _) in *. clearbody l. do 9 (destruct l as [|? l]; try done).
Qed.

Lemma put_zeros k : (length k <= 64)%nat -> put (zeros 64) 0 k = k ++ zeros (64 - length k).
Proof. intros H. unfold put, zeros. cbn [take app]. by rewrite drop_replicate. Qed.

Lemma hmac_key_ok old key : length old = 64%nat -> hmac_key old key = Some (hmac_block key).
Proof.
  intros H. unfold hmac_key, hmac_block. change SHA256_BLOCK_LEN with 64%nat.
  destruct (Nat.ltb_spec 64 (length key)).
  - rewrite sha256_ok by done. cbn [mbind option_bind]. by rewrite put_zeros by (rewrite digest_length; lia).
  - by rewrite put_zeros.
Qed.

Lemma feed2_ok old a b : length old = 64%nat ->
  exists c c', sha256_update (sha256_init old) a = Some c /\ sha256_update c b = Some c' /\
               sha256_final c' = Some (digest (a ++ b)) /\ length (buf c') = 64%nat.
Proof.
  intros H. destruct (update_ok _ [] a (init_rep old H)) as (c & E & Hr & Hn).
  destruct (update_ok c _ b Hr) as (c' & E' & Hr' & Hn'). exists c, c'. split_and!; [done|done| |by destruct Hr'].
  apply final_ok; [done|]. rewrite Hn', Hn. change (nbits (sha256_init old)) with 0.
  rewrite Z.add_0_l, u64_idemp, u64_add_idemp. f_equal. rewrite !length_app. cbn [length]. lia.
Qed.

Lemma hmac_ok old key data : length old = 64%nat -> hmac_sha256 old key data = Some (hmac_ref key data).
Proof.
  intros H. unfold hmac_sha256. rewrite hmac_key_ok by done. cbn [mbind option_bind].
  destruct (feed2_ok old (xor_with 0x36 (hmac_block key)) data H) as (c & c' & -> & E2 & E3 & Hb).
  cbn [mbind option_bind]. rewrite E2. cbn [mbind option_bind]. rewrite E3. cbn [mbind option_bind].
  destruct (feed2_ok (buf c') (xor_with 0x5c (hmac_block key)) (digest (xor_with 0x36 (hmac_block key) ++ data)) Hb)
    as (d & d' & -> & F2 & F3 & _).
  cbn [mbind option_bind]. rewrite F2. cbn [mbind option_bind]. by rewrite F3.
Qed.

(** ** PBKDF2: RFC 8018 section 5.2 *)

Definition U (pass u1 : list Z) (j : nat) : list Z := Nat.iter j (hmac_ref pass) u1.

(** F(P, S, c, i) = U_1 xor ... xor U_c *)
Definition F (pass salt : list Z) (c : nat) (i : nat) : list Z :=
  let u1 := hmac_ref pass (salt ++ be32 (Z.of_nat i)) in
  fold_left (zip_with Z.lxor) (U pass u1 <$> seq 1 (c - 1)) u1.

Definition pbkdf2_ref (pass salt : list Z) (c dklen : nat) : list Z :=
  take dklen (mjoin (F pass salt c <$> seq 1 ((dklen + 31) / 32))).

Lemma iterate_ok n old pass u1 j t : length old = 64%nat ->
  iterate_loop n old pass (U pass u1 j) t = Some (fold_left (zip_with Z.lxor) (U pass u1 <$> seq (S j) n) t).
Proof.
  intros H. revert j t. induction n as [|n IH]; intros j t; [done|]. cbn [iterate_loop seq fmap list_fmap fold_left].
  rewrite hmac_ok by done. cbn [mbind option_bind]. change (hmac_ref pass (U pass u1 j)) with (U pass u1 (S j)). apply IH.
Qed.

Lemma fold_xor_length us t : length t = 32%nat -> Forall (fun u => length u = 32%nat) us ->
  length (fold_left (zip_with Z.lxor) us t) = 32%nat.
Proof.
  revert t. induction us as [|u us IH]; intros t Ht Hu; [done|]. apply Forall_cons in Hu as [Hu Hus].
  cbn. apply IH; [|done]. rewrite length_zip_with, Ht, Hu. done.
Qed.

Lemma hmac_ref_length key text : length (hmac_ref key text) = 32%nat.
Proof. apply digest_length. Qed.

Lemma F_length pass salt c i : length (F pass salt c i) = 32%nat.
Proof.
  unfold F. apply fold_xor_length; [apply hmac_ref_length|]. apply Forall_fmap, Forall_forall. intros j Hj.
  apply list_elem_of_In, in_seq in Hj as [Hj _]. destruct j as [|j]; [lia|]. apply hmac_ref_length.
Qed.

Lemma join_length pass salt c n m : length (mjoin (F pass salt c <$> seq n m)) = (32 * m)%nat.
Proof.
  revert n. induction m as [|m IH]; intros n; [done|]. cbn [seq fmap list_fmap mjoin list_join].
  rewrite length_app, F_length. change (list_join ?l) with (mjoin l). rewrite IH. lia.
Qed.

Lemma pbkdf2_loop_ok fuel old pass salt c k dklen : length old = 64%nat -> 1 <= c -> Z.of_nat dklen <= 32 * (2 ^ 32 - 1) ->
  (32 * k <= dklen)%nat -> (dklen - 32 * k <= fuel)%nat ->
  pbkdf2_loop fuel old pass salt c (Z.of_nat k + 1) dklen (mjoin (F pass salt (Z.to_nat c) <$> seq 1 k))
  = Some (pbkdf2_ref pass salt (Z.to_nat c) dklen).
Proof.
  intros Ho Hc Hmax. set (Fs := F pass salt (Z.to_nat c)).
  assert (forall m, length (mjoin (Fs <$> seq 1 m)) = (32 * m)%nat) as Hlen by (intros; apply join_length).
  revert k. induction fuel as [|fuel IH]; intros k Hk Hf; cbn [pbkdf2_loop]; rewrite Hlen.
  { rewrite (proj2 (Nat.leb_le _ _)) by lia. unfold pbkdf2_ref. fold Fs.
    assert (dklen = 32 * k)%nat as -> by lia. assert ((32 * k + 31) / 32 = k)%nat as ->.
    { symmetry. apply (Nat.div_unique _ _ _ 31); lia. } by rewrite take_ge by (rewrite Hlen; lia). }
  destruct (Nat.leb_spec dklen (32 * k)) as [Hle|Hgt].
  { unfold pbkdf2_ref. fold Fs. assert (dklen = 32 * k)%nat as -> by lia. assert ((32 * k + 31) / 32 = k)%nat as ->.
    { symmetry. apply (Nat.div_unique _ _ _ 31); lia. } by rewrite take_ge by (rewrite Hlen; lia). }
  rewrite hmac_ok by done. cbn [mbind option_bind].
  pose proof (iterate_ok (Z.to_nat (c - 1)) old pass (hmac_ref pass (salt ++ be32 (Z.of_nat k + 1))) 0
                (hmac_ref pass (salt ++ be32 (Z.of_nat k + 1))) Ho) as Hit. cbn [U Nat.iter nat_rect] in Hit.
  rewrite Hit. cbn [mbind option_bind]. replace (Z.to_nat (c - 1)) with (Z.to_nat c - 1)%nat by lia.
  replace (Z.of_nat k + 1) with (Z.of_nat (S k)) by lia.
  change (fold_left _ _ _) with (Fs (S k)). change SHA256_DIGEST_LEN with 32%nat.
  assert (mjoin (Fs <$> seq 1 (S k)) = mjoin (Fs <$> seq 1 k) ++ Fs (S k)) as Hsnoc.
  { rewrite seq_S, fmap_app, join_app. cbn. by rewrite app_nil_r. }
  destruct (Nat.ltb_spec 32 (dklen - 32 * k)) as [Hm|Hl].
  - rewrite take_ge by (unfold Fs; rewrite F_length; lia). rewrite <- Hsnoc.
    rewrite u32_small by lia. replace (Z.of_nat (S k) + 1) with (Z.of_nat (S k) + 1) by lia. apply IH; lia.
  - assert ((dklen + 31) / 32 = S k)%nat as Hn by (symmetry; apply (Nat.div_unique _ _ _ (dklen + 31 - 32 * S k)); lia).
    assert (mjoin (Fs <$> seq 1 k) ++ take (dklen - 32 * k) (Fs (S k)) = pbkdf2_ref pass salt (Z.to_nat c) dklen) as E.
    { unfold pbkdf2_ref. fold Fs. rewrite Hn, Hsnoc, take_app, Hlen, (take_ge (mjoin _)) by (rewrite Hlen; lia). done. }
    rewrite E. destruct fuel; cbn [pbkdf2_loop]; rewrite (proj2 (Nat.leb_le _ _)); try done;
      rewrite <- E, length_app, Hlen, length_take; unfold Fs; rewrite F_length; lia.
Qed.

(** C28: PBKDF2-HMAC-SHA256 is the function RFC 8018 defines: with a salt of at
    most 128 bytes, [pbkdf2_sha256] returns the first [dklen] bytes of T_1, T_2,
    ..., each the exclusive or of [iterations] chained HMACs (RFC 2104) over
    FIPS 180-4 digests; a count of 0 is taken as 1. *)
Theorem pbkdf2_correct old pass salt iterations dklen :
  length old = SHA256_BLOCK_LEN -> (length salt <= 128)%nat -> Z.of_nat dklen <= 32 * (2 ^ 32 - 1) ->
  pbkdf2_sha256 old pass salt iterations dklen
  = Some (pbkdf2_ref pass salt (Z.to_nat (Z.max 1 iterations)) dklen).
Proof.
  intros Ho Hs Hd. unfold pbkdf2_sha256.
  rewrite (proj2 (Nat.ltb_ge _ _)) by lia. rewrite take_ge by lia.
  replace (if iterations <? 1 then 1 else iterations) with (Z.max 1 iterations) by (destruct (Z.ltb_spec iterations 1); lia).
  apply (pbkdf2_loop_ok dklen old pass salt _ 0); [done|lia|done|lia|lia].
Qed.

(** ** Published vectors *)

(** FIPS 180-2 appendix B: "abc". *)
Example sha256_abc : digest [0x61; 0x62; 0x63] =
  [0xba; 0x78; 0x16; 0xbf; 0x8f; 0x01; 0xcf; 0xea; 0x41; 0x41; 0x40; 0xde; 0x5d; 0xae; 0x22; 0x23;
   0xb0; 0x03; 0x61; 0xa3; 0x96; 0x17; 0x7a; 0x9c; 0xb4; 0x10; 0xff; 0x61; 0xf2; 0x00; 0x15; 0xad].
Proof. vm_compute. reflexivity. Qed.

(** RFC 4231 case 2: the key "Jefe". *)
Example hmac_jefe : hmac_ref [0x4a; 0x65; 0x66; 0x65]
    [0x77; 0x68; 0x61; 0x74; 0x20; 0x64; 0x6f; 0x20; 0x79; 0x61; 0x20; 0x77; 0x61; 0x6e; 0x74; 0x20; 0x66; 0x6f; 0x72;
     0x20; 0x6e; 0x6f; 0x74; 0x68; 0x69; 0x6e; 0x67; 0x3f] =
  [0x5b; 0xdc; 0xc1; 0x46; 0xbf; 0x60; 0x75; 0x4e; 0x6a; 0x04; 0x24; 0x26; 0x08; 0x95; 0x75; 0xc7;
   0x5a; 0x00; 0x3f; 0x08; 0x9d; 0x27; 0x39; 0x83; 0x9d; 0xec; 0x58; 0xb9; 0x64; 0xec; 0x38; 0x43].
Proof. vm_compute. reflexivity. Qed.


(** RFC 7914 section 11: "passwd", "salt", one iteration. *)
Lemma pbkdf2_correct_witness :
  pbkdf2_sha256 (zeros 64) [0x70; 0x61; 0x73; 0x73; 0x77; 0x64] [0x73; 0x61; 0x6c; 0x74] 1 64 =
  Some (pbkdf2_ref [0x70; 0x61; 0x73; 0x73; 0x77; 0x64] [0x73; 0x61; 0x6c; 0x74] 1 64) /\
  take 4 (pbkdf2_ref [0x70; 0x61; 0x73; 0x73; 0x77; 0x64] [0x73; 0x61; 0x6c; 0x74] 1 64) = [0x55; 0xac; 0x04; 0x6e].
Proof.
  split; [|vm_compute; reflexivity].
  apply (pbkdf2_correct (zeros 64) [0x70; 0x61; 0x73; 0x73; 0x77; 0x64] [0x73; 0x61; 0x6c; 0x74] 1 64);
    [reflexivity|cbn; lia|lia].
Defined.
End Sha256.
