(* ===== verification/Charset.v ===== *)
(** * ISO-8859-2 and UTF-8 (kernel/core/charset.c)

    The clipboard bridge converts between the kernel's Latin-2 bytes and the
    UTF-8 of the programs.  A buffer is a list of bytes; a conversion returns the
    bytes it wrote (their number is the C result). *)

From stdpp Require Import base list.
From Stdlib Require Import ZArith Lia Bool.
From S2P Require Import Prelude.
Open Scope Z_scope.

Module Charset.

Definition l2_hi : list Z := [
  0x00A0;0x0104;0x02D8;0x0141;0x00A4;0x013D;0x015A;0x00A7;0x00A8;0x0160;0x015E;0x0164;0x0179;0x00AD;0x017D;0x017B;
  0x00B0;0x0105;0x02DB;0x0142;0x00B4;0x013E;0x015B;0x02C7;0x00B8;0x0161;0x015F;0x0165;0x017A;0x02DD;0x017E;0x017C;
  0x0154;0x00C1;0x00C2;0x0102;0x00C4;0x0139;0x0106;0x00C7;0x010C;0x00C9;0x0118;0x00CB;0x011A;0x00CD;0x00CE;0x010E;
  0x0110;0x0143;0x0147;0x00D3;0x00D4;0x0150;0x00D6;0x00D7;0x0158;0x016E;0x00DA;0x0170;0x00DC;0x00DD;0x0162;0x00DF;
  0x0155;0x00E1;0x00E2;0x0103;0x00E4;0x013A;0x0107;0x00E7;0x010D;0x00E9;0x0119;0x00EB;0x011B;0x00ED;0x00EE;0x010F;
  0x0111;0x0144;0x0148;0x00F3;0x00F4;0x0151;0x00F6;0x00F7;0x0159;0x016F;0x00FA;0x0171;0x00FC;0x00FD;0x0163;0x02D9].

Definition QUESTION : Z := 0x3F.                        (* '?' *)

Definition l2_to_ucs (b : Z) : Z := if b <? 0xA0 then b else nth (Z.to_nat (b - 0xA0)) l2_hi 0.

Fixpoint find_ucs (l : list Z) (i u : Z) : Z :=
  match l with [] => -1 | x :: l' => if x =? u then 0xA0 + i else find_ucs l' (i + 1) u end.
Definition ucs_to_l2 (u : Z) : Z := if u <? 0xA0 then u else find_ucs l2_hi 0 u.

(** The bytes written for one character. *)
Definition utf8_bytes (u : Z) : list Z :=
  if u <? 0x80 then [u8 u]
  else if u <? 0x800 then [u8 (Z.lor 0xC0 (Z.shiftr u 6)); u8 (Z.lor 0x80 (Z.land u 0x3F))]
  else [u8 (Z.lor 0xE0 (Z.shiftr u 12)); u8 (Z.lor 0x80 (Z.land (Z.shiftr u 6) 0x3F)); u8 (Z.lor 0x80 (Z.land u 0x3F))].

(** [o] bytes are already written: the ones written from here on. *)
Fixpoint latin2_loop (l : list Z) (o cap : Z) : list Z :=
  match l with
  | [] => []
  | b :: l' =>
      let bs := utf8_bytes (l2_to_ucs b) in
      let n := Z.of_nat (length bs) in
      if cap <? o + n then [] else bs ++ latin2_loop l' (o + n) cap
  end.
Definition charset_latin2_to_utf8 (l : list Z) (cap : Z) : list Z := latin2_loop l 0 cap.

Definition is_cont (b : Z) : bool := Z.land b 0xC0 =? 0x80.

Definition seq_len (b : Z) : nat :=
  if b <? 0x80 then 1 else if Z.land b 0xE0 =? 0xC0 then 2 else if Z.land b 0xF0 =? 0xE0 then 3
  else if Z.land b 0xF8 =? 0xF0 then 4 else 0.

(** The loop moves by one byte at least. *)
Fixpoint utf8_text_loop (fuel : nat) (s : list Z) (multi : bool) : option bool :=
  match s with
  | [] => Some multi
  | b :: tl =>
      match fuel with
      | O => None
      | S fuel' =>
          let len := seq_len b in
          if (len =? 0)%nat || (length s <? len)%nat then Some false
          else if forallb is_cont (take (len - 1) tl) then utf8_text_loop fuel' (drop len s) (multi || (1 <? len)%nat)
          else Some false
      end
  end.
Definition charset_is_utf8_text (s : list Z) : option bool := utf8_text_loop (length s) s false.

Definition lead_bits (b : Z) : Z :=
  if b <? 0x80 then b else if Z.land b 0xE0 =? 0xC0 then Z.land b 0x1F
  else if Z.land b 0xF0 =? 0xE0 then Z.land b 0x0F else Z.land b 0x07.

(** [for (k = 1; k < len; k++)]: the code point, unless a byte does not continue. *)
Fixpoint collect (cs : list Z) (u : Z) : option Z :=
  match cs with
  | [] => Some u
  | c :: cs' => if is_cont c then collect cs' (u32 (Z.lor (Z.shiftl u 6) (Z.land c 0x3F))) else None
  end.

Definition l2_or_question (u : Z) : Z := let l2 := ucs_to_l2 u in if l2 <? 0 then QUESTION else u8 l2.

(** One turn: the byte written and how far to move. *)
Definition utf8_step (b : Z) (tl : list Z) : Z * nat :=
  let len := seq_len b in
  if (len =? 0)%nat then (QUESTION, 1%nat)
  else if (length (b :: tl) <? len)%nat then (QUESTION, 1%nat)
  else match collect (take (len - 1) tl) (lead_bits b) with
       | None => (QUESTION, 1%nat)
       | Some u => (l2_or_question u, len)
       end.

Fixpoint utf8_loop (fuel : nat) (s : list Z) (o cap : Z) : option (list Z) :=
  match s with
  | [] => Some []
  | b :: tl =>
      if cap <=? o then Some [] else
      match fuel with
      | O => None
      | S fuel' => let '(c, adv) := utf8_step b tl in (c ::.) <$> utf8_loop fuel' (drop adv s) (o + 1) cap
      end
  end.
Definition charset_utf8_to_latin2 (s : list Z) (cap : Z) : option (list Z) := utf8_loop (length s) s 0 cap.

(** ** Encoding and decoding *)

(** UTF-8 of any code point, four bytes included. *)
Definition encode (u : Z) : list Z :=
  if u <? 0x80 then [u]
  else if u <? 0x800 then [0xC0 + u / 64; 0x80 + u mod 64]
  else if u <? 0x10000 then [0xE0 + u / 4096; 0x80 + u / 64 mod 64; 0x80 + u mod 64]
  else [0xF0 + u / 262144; 0x80 + u / 4096 mod 64; 0x80 + u / 64 mod 64; 0x80 + u mod 64].

Definition encode_all (us : list Z) : list Z := mjoin (encode <$> us).
Definition code_point (u : Z) : Prop := 0 <= u < 0x110000.

(** A byte test that holds of all 256 bytes holds of every byte. *)
Definition all_bytes (P : Z -> bool) : bool := forallb (fun n => P (Z.of_nat n)) (seq 0 256).
Lemma all_bytes_spec P b : all_bytes P = true -> 0 <= b < 256 -> P b = true.
Proof.
  intros H Hb. unfold all_bytes in H. rewrite forallb_forall in H. specialize (H (Z.to_nat b)).
  rewrite Z2Nat.id in H by lia. apply H, in_seq. lia.
Qed.

Lemma cont_byte x : 0 <= x < 64 -> is_cont (0x80 + x) = true /\ Z.land (0x80 + x) 0x3F = x.
Proof.
  intros Hx. pose proof (all_bytes_spec (fun b => negb ((0x80 <=? b) && (b <? 0xC0)) ||
    (is_cont b && (Z.land b 0x3F =? b - 0x80))) (0x80 + x) ltac:(vm_compute; reflexivity) ltac:(lia)) as H.
  apply orb_true_iff in H as [H|H]; bool_props; [|split; [done|lia]].
  apply andb_false_iff in H as [H|H]; bool_props; lia.
Qed.

Lemma lead_byte b : 0 <= b < 256 ->
  (b < 0x80 -> seq_len b = 1%nat /\ lead_bits b = b) /\
  (0xC0 <= b < 0xE0 -> seq_len b = 2%nat /\ lead_bits b = b - 0xC0) /\
  (0xE0 <= b < 0xF0 -> seq_len b = 3%nat /\ lead_bits b = b - 0xE0) /\
  (0xF0 <= b < 0xF8 -> seq_len b = 4%nat /\ lead_bits b = b - 0xF0).
Proof.
  intros Hb. pose proof (all_bytes_spec (fun b =>
    (negb (b <? 0x80) || ((seq_len b =? 1)%nat && (lead_bits b =? b))) &&
    (negb ((0xC0 <=? b) && (b <? 0xE0)) || ((seq_len b =? 2)%nat && (lead_bits b =? b - 0xC0))) &&
    (negb ((0xE0 <=? b) && (b <? 0xF0)) || ((seq_len b =? 3)%nat && (lead_bits b =? b - 0xE0))) &&
    (negb ((0xF0 <=? b) && (b <? 0xF8)) || ((seq_len b =? 4)%nat && (lead_bits b =? b - 0xF0)))) b
    ltac:(vm_compute; reflexivity) Hb) as H.
  rewrite !andb_true_iff, !orb_true_iff, !negb_true_iff, !andb_true_iff, !andb_false_iff, !Nat.eqb_eq, !Z.eqb_eq,
    !Z.ltb_ge, !Z.leb_gt in H. lia.
Qed.

Lemma collect_cont x cs u : 0 <= x < 64 -> 0 <= u < 2 ^ 26 -> collect ((0x80 + x) :: cs) u = collect cs (u * 64 + x).
Proof.
  intros Hx Hu. cbn [collect]. destruct (cont_byte x Hx) as [-> ->]. rewrite (shl_or u x 6) by lia.
  change (2 ^ 6) with 64. by rewrite u32_small by lia.
Qed.

(** The head of an encoded character: its length, and that it decodes to itself
    whatever follows. *)
Record head_of (u : Z) (b : Z) (tl : list Z) (n : nat) : Prop := {
  hd_len : seq_len b = n;
  hd_pos : (1 <= n <= length (b :: tl))%nat;
  hd_cont : forallb is_cont (take (n - 1) tl) = true;
  hd_val : collect (take (n - 1) tl) (lead_bits b) = Some u;
  hd_multi : (1 <? n)%nat = (0x80 <=? u)
}.

Ltac div_bounds u :=
  pose proof (Z.div_mod u 64 ltac:(lia)); pose proof (Z.mod_pos_bound u 64 ltac:(lia));
  pose proof (Z.div_mod (u / 64) 64 ltac:(lia)); pose proof (Z.mod_pos_bound (u / 64) 64 ltac:(lia));
  pose proof (Z.div_mod (u / 4096) 64 ltac:(lia)); pose proof (Z.mod_pos_bound (u / 4096) 64 ltac:(lia)).

Lemma encode_head u rest : code_point u ->
  exists b tl, encode u ++ rest = b :: tl /\ head_of u b tl (length (encode u)).
Proof.
  intros Hu. unfold code_point in Hu.
  assert (u / 64 / 64 = u / 4096 /\ u / 4096 / 64 = u / 262144) as [E1 E2] by (rewrite !Z.div_div by lia; done).
  div_bounds u. unfold encode.
  destruct (Z.ltb_spec u 0x80); [|destruct (Z.ltb_spec u 0x800); [|destruct (Z.ltb_spec u 0x10000)]].
  - exists u, rest. split; [done|]. destruct (lead_byte u ltac:(lia)) as ([L B] & _); [lia|].
    split; cbn; try done; [lia|by rewrite B|]. symmetry. apply Z.leb_gt. lia.
  - exists (0xC0 + u / 64), ((0x80 + u mod 64) :: rest). split; [done|].
    destruct (lead_byte (0xC0 + u / 64) ltac:(lia)) as (_ & [L B] & _); [lia|].
    split; cbn [length take Nat.sub forallb]; [done|lia| | |].
    + by rewrite (proj1 (cont_byte (u mod 64) ltac:(lia))).
    + rewrite B, collect_cont by lia. cbn. f_equal. lia.
    + symmetry. apply Z.leb_le. lia.
  - exists (0xE0 + u / 4096), ((0x80 + u / 64 mod 64) :: (0x80 + u mod 64) :: rest). split; [done|].
    destruct (lead_byte (0xE0 + u / 4096) ltac:(lia)) as (_ & _ & [L B] & _); [lia|].
    split; cbn [length take Nat.sub forallb]; [done|lia| | |].
    + by rewrite (proj1 (cont_byte (u mod 64) ltac:(lia))), (proj1 (cont_byte (u / 64 mod 64) ltac:(lia))).
    + rewrite B, !collect_cont by lia. cbn. f_equal. lia.
    + symmetry. apply Z.leb_le. lia.
  - exists (0xF0 + u / 262144), ((0x80 + u / 4096 mod 64) :: (0x80 + u / 64 mod 64) :: (0x80 + u mod 64) :: rest). split; [done|].
    destruct (lead_byte (0xF0 + u / 262144) ltac:(lia)) as (_ & _ & _ & [L B]); [lia|].
    split; cbn [length take Nat.sub forallb]; [done|lia| | |].
    + by rewrite (proj1 (cont_byte (u mod 64) ltac:(lia))), (proj1 (cont_byte (u / 64 mod 64) ltac:(lia))),
        (proj1 (cont_byte (u / 4096 mod 64) ltac:(lia))).
    + rewrite B, !collect_cont by lia. cbn. f_equal. lia.
    + symmetry. apply Z.leb_le. lia.
Qed.

Lemma utf8_step_head u b tl n : head_of u b tl n -> utf8_step b tl = (l2_or_question u, n).
Proof.
  intros [L P _ V _]. unfold utf8_step. rewrite L.
  rewrite (proj2 (Nat.eqb_neq n 0)) by lia. rewrite (proj2 (Nat.ltb_ge _ n)) by lia. by rewrite V.
Qed.

Lemma encode_all_cons u us : encode_all (u :: us) = encode u ++ encode_all us.
Proof. done. Qed.

Lemma encode_all_step u us : code_point u ->
  exists b tl, encode_all (u :: us) = b :: tl /\ head_of u b tl (length (encode u)) /\
               drop (length (encode u)) (b :: tl) = encode_all us.
Proof.
  intros Hu. destruct (encode_head u (encode_all us) Hu) as (b & tl & E & H). exists b, tl.
  rewrite encode_all_cons, E. split_and!; [done|done|]. rewrite <- E. apply drop_app_length.
Qed.

Lemma utf8_loop_encode fuel us o cap : Forall code_point us -> (length (encode_all us) <= fuel)%nat ->
  utf8_loop fuel (encode_all us) o cap = Some (take (Z.to_nat (cap - o)) (l2_or_question <$> us)).
Proof.
  intros Hus. revert fuel o. induction Hus as [|u us Hu _ IH]; intros fuel o Hf.
  { cbn. destruct fuel; by rewrite take_nil. }
  destruct (encode_all_step u us Hu) as (b & tl & E & H & Hd). rewrite E in Hf |- *.
  assert (length (encode_all us) + length (encode u) <= fuel)%nat as Hf'.
  { rewrite <- Hd, length_drop. destruct H. lia. }
  destruct fuel as [|fuel]; [destruct H; lia|]. cbn [utf8_loop].
  destruct (Z.leb_spec cap o).
  { replace (Z.to_nat (cap - o)) with 0%nat by lia. done. }
  rewrite (utf8_step_head u b tl _ H), Hd, IH by (destruct H; lia). cbn [fmap option_fmap option_map list_fmap].
  replace (Z.to_nat (cap - o)) with (S (Z.to_nat (cap - (o + 1)))) by lia. done.
Qed.

Lemma utf8_text_encode fuel us multi : Forall code_point us -> (length (encode_all us) <= fuel)%nat ->
  utf8_text_loop fuel (encode_all us) multi = Some (multi || existsb (fun u => 0x80 <=? u) us).
Proof.
  intros Hus. revert fuel multi. induction Hus as [|u us Hu _ IH]; intros fuel multi Hf.
  { cbn. destruct fuel; by rewrite orb_false_r. }
  destruct (encode_all_step u us Hu) as (b & tl & E & H & Hd). rewrite E in Hf |- *.
  assert (length (encode_all us) + length (encode u) <= fuel)%nat as Hf'.
  { rewrite <- Hd, length_drop. destruct H. lia. }
  destruct fuel as [|fuel]; [destruct H; lia|]. cbn [utf8_text_loop].
  destruct H as [L P C _ M]. rewrite L, (proj2 (Nat.eqb_neq _ 0)), (proj2 (Nat.ltb_ge _ (length (encode u)))), C by lia.
  cbn [orb]. rewrite Hd, IH, M by lia. cbn [existsb]. by rewrite orb_assoc.
Qed.

(** ** The conversions *)

Definition byte (b : Z) : Prop := 0 <= b < 256.

Definition table_row (b : Z) : bool :=
  bool_decide (utf8_bytes (l2_to_ucs b) = encode (l2_to_ucs b)) && (length (encode (l2_to_ucs b)) <=? 2)%nat &&
  (l2_or_question (l2_to_ucs b) =? b) && ((0 <=? l2_to_ucs b) && (l2_to_ucs b <? 0x110000)) &&
  Bool.eqb (0x80 <=? l2_to_ucs b) (0x80 <=? b).

Lemma table_ok b : byte b ->
  utf8_bytes (l2_to_ucs b) = encode (l2_to_ucs b) /\ (length (encode (l2_to_ucs b)) <= 2)%nat /\
  l2_or_question (l2_to_ucs b) = b /\ code_point (l2_to_ucs b) /\ (0x80 <=? l2_to_ucs b) = (0x80 <=? b).
Proof.
  intros Hb. pose proof (all_bytes_spec table_row b ltac:(vm_compute; reflexivity) Hb) as H. unfold table_row in H.
  bool_props. split_and!; try done; [by apply Nat.leb_le|by apply Bool.eqb_prop].
Qed.

(** As many whole characters as fit, and the next one would not. *)
Lemma latin2_loop_ok l o cap : Forall byte l -> 0 <= o <= cap ->
  exists k, latin2_loop l o cap = encode_all (l2_to_ucs <$> take k l) /\
    o + Z.of_nat (length (latin2_loop l o cap)) <= cap /\
    (k = length l \/ exists b, l !! k = Some b /\
       cap < o + Z.of_nat (length (latin2_loop l o cap)) + Z.of_nat (length (encode (l2_to_ucs b)))).
Proof.
  intros Hl. revert o. induction Hl as [|b l Hb _ IH]; intros o Ho; cbn [latin2_loop].
  { exists 0%nat. split_and!; [done|cbn; lia|by left]. }
  destruct (table_ok b Hb) as (-> & _). destruct (Z.ltb_spec cap (o + Z.of_nat (length (encode (l2_to_ucs b))))).
  { exists 0%nat. split_and!; [done|cbn; lia|]. right. exists b. split; [done|]. cbn [length]. lia. }
  destruct (IH (o + Z.of_nat (length (encode (l2_to_ucs b))))) as (k & E & Hc & Hk); [lia|].
  exists (S k). cbn [take fmap list_fmap]. rewrite encode_all_cons, <- E, length_app. split_and!; [done|lia|].
  destruct Hk as [->|(b' & ? & ?)]; [by left|right; exists b'; split; [done|lia]].
Qed.

Lemma latin2_fits l cap : Forall byte l -> 2 * Z.of_nat (length l) <= cap ->
  charset_latin2_to_utf8 l cap = encode_all (l2_to_ucs <$> l).
Proof.
  intros Hl. unfold charset_latin2_to_utf8. replace (2 * Z.of_nat (length l)) with (0 + 2 * Z.of_nat (length l)) by lia.
  generalize 0. induction Hl as [|b l Hb _ IH]; intros o Hc; [done|]. cbn [latin2_loop length] in *.
  destruct (table_ok b Hb) as (-> & Hn & _). rewrite (proj2 (Z.ltb_ge _ _)) by lia.
  cbn [fmap list_fmap]. rewrite encode_all_cons. f_equal. apply IH. lia.
Qed.

(** Decoding well-formed UTF-8 loses no character and invents none: each code
    point gives one byte, its Latin-2 code or a question mark, until the
    destination is full. *)
Theorem charset_decode us cap : Forall code_point us ->
  charset_utf8_to_latin2 (encode_all us) cap = Some (take (Z.to_nat cap) (l2_or_question <$> us)).
Proof.
  intros H. unfold charset_utf8_to_latin2. rewrite utf8_loop_encode by done. by rewrite Z.sub_0_r.
Qed.

(** What the clipboard bridge sends out comes back unchanged: any Latin-2
    text survives the way to UTF-8 and back, and in between it is recognised as
    UTF-8 exactly when it has a character outside ASCII. *)
Theorem charset_roundtrip l cap cap' : Forall byte l -> 2 * Z.of_nat (length l) <= cap -> Z.of_nat (length l) <= cap' ->
  charset_utf8_to_latin2 (charset_latin2_to_utf8 l cap) cap' = Some l /\
  charset_is_utf8_text (charset_latin2_to_utf8 l cap) = Some (existsb (fun b => 0x80 <=? b) l).
Proof.
  intros Hl Hc Hc'. rewrite latin2_fits by done.
  assert (Forall code_point (l2_to_ucs <$> l)) as Hcp.
  { apply Forall_fmap. eapply Forall_impl; [exact Hl|]. intros b Hb. by apply table_ok. }
  unfold charset_utf8_to_latin2, charset_is_utf8_text. rewrite utf8_loop_encode, utf8_text_encode by done.
  rewrite Z.sub_0_r, take_ge by (rewrite !length_fmap; lia). clear Hc Hc' Hcp. split; f_equal.
  - induction Hl as [|b l Hb _ IH]; [done|]. cbn. destruct (table_ok b Hb) as (_ & _ & -> & _). by f_equal.
  - cbn [orb]. induction Hl as [|b l Hb _ IH]; [done|]. cbn. destruct (table_ok b Hb) as (_ & _ & _ & _ & ->). by rewrite <- IH.
Qed.

Lemma utf8_loop_bound fuel s o cap : 0 <= o <= cap -> (length s <= fuel)%nat ->
  exists out, utf8_loop fuel s o cap = Some out /\ o + Z.of_nat (length out) <= cap /\ (length out <= length s)%nat.
Proof.
  revert fuel o. induction s as [s IH] using (induction_ltof1 _ (@length Z)). unfold ltof in IH.
  intros fuel o Ho Hf. destruct s as [|b tl]; [exists []; destruct fuel; cbn; split_and!; done || lia|].
  destruct fuel as [|fuel]; [cbn in Hf; lia|]. cbn [utf8_loop]. destruct (Z.leb_spec cap o).
  { exists []. cbn. split_and!; done || lia. }
  assert (1 <= (utf8_step b tl).2)%nat as Ha.
  { unfold utf8_step. destruct (Nat.eqb_spec (seq_len b) 0); [cbn; lia|]. repeat case_match; cbn; lia. }
  destruct (utf8_step b tl) as [c adv]. cbn in Ha.
  destruct (IH (drop adv (b :: tl))) with (fuel := fuel) (o := o + 1) as (out & -> & H1 & H2);
    [rewrite length_drop; cbn; lia|lia|rewrite length_drop; cbn in *; lia|].
  exists (c :: out). rewrite length_drop in H2. cbn [fmap option_fmap option_map length] in *. split_and!; [done|lia|lia].
Qed.

(** Neither conversion writes past its destination, whatever the input: the
    decoder always ends and answers at most [cap] bytes and at most one per input
    byte; the encoder writes whole characters only and stops where the next one
    does not fit. *)
Theorem charset_bounds s cap : 0 <= cap -> Forall byte s ->
  (exists out, charset_utf8_to_latin2 s cap = Some out /\ Z.of_nat (length out) <= cap /\ (length out <= length s)%nat) /\
  (exists k, charset_latin2_to_utf8 s cap = encode_all (l2_to_ucs <$> take k s) /\
     Z.of_nat (length (charset_latin2_to_utf8 s cap)) <= cap /\
     (k = length s \/ exists b, s !! k = Some b /\
        cap < Z.of_nat (length (charset_latin2_to_utf8 s cap)) + Z.of_nat (length (encode (l2_to_ucs b))))).
Proof.
  intros Hc Hs. split.
  - destruct (utf8_loop_bound (length s) s 0 cap) as (out & ? & ? & ?); [lia|lia|]. exists out. split_and!; done || lia.
  - destruct (latin2_loop_ok s 0 cap Hs) as (k & ? & ? & ?); [lia|]. by exists k.
Qed.

(** The decoder and the recogniser accept overlong forms: C1 81 is 'A' in two
    bytes, which well-formed UTF-8 does not contain. *)
Example overlong_accepted :
  charset_is_utf8_text [0xC1; 0x81] = Some true /\ charset_utf8_to_latin2 [0xC1; 0x81] 4 = Some [0x41] /\
  encode 0x41 = [0x41].
Proof. vm_compute. done. Qed.

(** o with double acute, and a snowman that Latin-2 does not have. *)
Lemma charset_decode_witness :
  charset_utf8_to_latin2 (encode_all [0x151; 0x2603; 0x1F600]) 8 = Some [0xF5; 0x3F; 0x3F].
Proof.
  change [0xF5; 0x3F; 0x3F] with (take (Z.to_nat 8) (l2_or_question <$> [0x151; 0x2603; 0x1F600])).
  apply charset_decode. repeat constructor; lia.
Defined.

Lemma charset_roundtrip_witness :
  charset_utf8_to_latin2 (charset_latin2_to_utf8 [0x41; 0xF5; 0xFB] 6) 3 = Some [0x41; 0xF5; 0xFB].
Proof. apply charset_roundtrip; [repeat constructor; lia|cbn; lia|cbn; lia]. Defined.

Lemma charset_bounds_witness :
  exists out, charset_utf8_to_latin2 [0xC3; 0xE2; 0x82] 2 = Some out /\ Z.of_nat (length out) <= 2 /\ (length out <= 3)%nat.
Proof. apply (charset_bounds [0xC3; 0xE2; 0x82] 2); [lia|repeat constructor; lia]. Defined.
End Charset.
