(* ===== verification/Shm.v ===== *)
(** * Shared-memory objects (kernel/core/fd.c, lines 167-342)

    A memfd: a growing list of physical frames and a size in bytes.  Memory is
    the physical byte map [ram]; the frames [pmm_alloc_frame_user_low] answers are
    an argument (0 is its failure), as is whether [kcalloc] finds room for a
    longer frame list.  The theorems show the object behaves as one array of
    bytes, whatever frames it is made of.  The page cache's copies, which
    [shm_cache_drop] discards, are not part of the state. *)

From stdpp Require Import base list.
From Stdlib Require Import ZArith Lia Bool.
From S2P Require Import Prelude.
Open Scope Z_scope.

Module Shm.

Definition SHM_MAX_FRAMES : Z := 65536.
Definition SHM_SEAL_SHRINK : Z := 0x2.
Definition SHM_SEAL_GROW : Z := 0x4.
Definition SHM_SEAL_WRITE : Z := 0x8.

Record shm := Shm { refcount : Z; frames : list Z; cap : Z; size : Z; seals : Z }.

(** What the calls change besides the object: memory, the frames still to be
    answered, the frames given back. *)
Record world := World { ram : Z -> Z; answers : list Z; freed : list Z }.

Definition nframes (s : shm) : Z := Z.of_nat (length (frames s)).
Definition sealed (s : shm) (m : Z) : bool := negb (Z.land (seals s) m =? 0).
Definition set_frames (s : shm) (l : list Z) : shm := Shm (refcount s) l (cap s) (size s) (seals s).
Definition set_cap (s : shm) (c : Z) : shm := Shm (refcount s) (frames s) c (size s) (seals s).
Definition set_size (s : shm) (n : Z) : shm := Shm (refcount s) (frames s) (cap s) n (seals s).
Definition set_ram (w : world) (r : Z -> Z) : world := World r (answers w) (freed w).

(** [while (nc < n) nc *= 2]: 17 doublings pass any count that is allowed. *)
Fixpoint grow_cap (fuel : nat) (nc n : Z) : Z :=
  match fuel with O => nc | S fuel' => if nc <? n then grow_cap fuel' (nc * 2) n else nc end.

(** [None] is -1.  [room]: [kcalloc] finds memory. *)
Definition shm_reserve (room : bool) (s : shm) (n : Z) : option shm :=
  if n <=? cap s then Some s
  else if SHM_MAX_FRAMES <? n then None
  else
    let nc := grow_cap 17 (if cap s =? 0 then 16 else cap s) n in
    let nc := if SHM_MAX_FRAMES <? nc then SHM_MAX_FRAMES else nc in
    if room then Some (set_cap s nc) else None.

Definition pmm_alloc (w : world) : world * Z :=
  match answers w with [] => (w, 0) | f :: l => (World (ram w) l (freed w), f) end.

(** [for (i = s->nframes; i < n; i++)]; false is -1. *)
Fixpoint fill_loop (k : nat) (w : world) (s : shm) : world * shm * bool :=
  match k with
  | O => (w, s, true)
  | S k' =>
      let '(w, f) := pmm_alloc w in
      if f =? 0 then (w, s, false)
      else fill_loop k' (set_ram w (fill (ram w) f 4096 0)) (set_frames s (frames s ++ [f]))
  end.

Definition shm_fill (room : bool) (w : world) (s : shm) (n : Z) : world * shm * bool :=
  if n <=? nframes s then (w, s, true)
  else match shm_reserve room s n with
       | None => (w, s, false)
       | Some s => fill_loop (Z.to_nat (n - nframes s)) w s
       end.

Definition pages_for (n : Z) : Z := u64 (n + 4095) / 4096.

(** [None] is NULL: too large, or out of memory with every frame given back. *)
Definition shm_create (room : bool) (w : world) (sz : Z) : world * option shm :=
  let n := pages_for sz in
  let n := if n =? 0 then 1 else n in
  if SHM_MAX_FRAMES <? n then (w, None)
  else
    let '(w, s, ok) := shm_fill room w (Shm 1 [] 0 0 0) n in
    if ok then (w, Some (set_size s sz))
    else (World (ram w) (answers w) (frames s ++ freed w), None).

Definition shm_kptr (s : shm) (off : Z) : option Z :=
  if nframes s <=? off / 4096 then None
  else Some (nth (Z.to_nat (off / 4096)) (frames s) 0 + off mod 4096).

(** Every turn of the copy loops moves a byte at least. *)
Fixpoint read_loop (fuel : nat) (r : Z -> Z) (s : shm) (o left : Z) : option (list Z) :=
  if left <=? 0 then Some [] else
  match fuel with
  | O => None
  | S fuel' =>
      match shm_kptr s o with
      | None => Some []
      | Some p => let k := room_at o left in
                  (peek r p (Z.to_nat k) ++.) <$> read_loop fuel' r s (o + k) (left - k)
      end
  end.

Definition shm_read (w : world) (s : shm) (off n : Z) : option (list Z) :=
  if size s <=? off then Some []
  else let n := if size s - off <? n then size s - off else n in read_loop (Z.to_nat n) (ram w) s off n.

Fixpoint write_loop (fuel : nat) (r : Z -> Z) (s : shm) (o : Z) (src : list Z) (done : Z) : option ((Z -> Z) * Z) :=
  match src with
  | [] => Some (r, done)
  | _ :: _ =>
      match fuel with
      | O => None
      | S fuel' =>
          match shm_kptr s (u64 (o + done)) with
          | None => Some (r, done)
          | Some p => let k := room_at (u64 (o + done)) (Z.of_nat (length src)) in
                      write_loop fuel' (poke r p (take (Z.to_nat k) src)) s o (drop (Z.to_nat k) src) (done + k)
          end
      end
  end.

Definition shm_write (room : bool) (w : world) (s : shm) (off : Z) (src : list Z) : option (world * shm * Z) :=
  let n := Z.of_nat (length src) in
  if sealed s SHM_SEAL_WRITE then Some (w, s, -1) else
  let end_ := u64 (off + n) in
  let copy w s :=
    '(r, done) ← write_loop (length src) (ram w) s off src 0;
    Some (set_ram w r, (if size s <? u64 (off + done) then set_size s (u64 (off + done)) else s), done) in
  if size s <? end_ then
    if sealed s SHM_SEAL_GROW then Some (w, s, -1)
    else if SHM_MAX_FRAMES <? pages_for end_ then Some (w, s, -27)
    else let '(w, s, ok) := shm_fill room w s (pages_for end_) in
         if ok then copy w s else Some (w, s, -12)
  else copy w s.

(** The zeroing loop of a shrink: [left] bytes from [o] on. *)
Fixpoint zero_loop (fuel : nat) (r : Z -> Z) (s : shm) (o left : Z) : option (Z -> Z) :=
  if left <=? 0 then Some r else
  match fuel with
  | O => None
  | S fuel' =>
      let k := room_at o left in
      let r := match shm_kptr s o with None => r | Some p => fill r p (Z.to_nat k) 0 end in
      zero_loop fuel' r s (o + k) (left - k)
  end.

Definition shm_truncate (room : bool) (w : world) (s : shm) (sz : Z) : option (world * shm * Z) :=
  if (size s <? sz) && sealed s SHM_SEAL_GROW then Some (w, s, -1)
  else if (sz <? size s) && sealed s SHM_SEAL_SHRINK then Some (w, s, -1)
  else if SHM_MAX_FRAMES <? pages_for sz then Some (w, s, -27)
  else
    let '(w, s, ok) := shm_fill room w s (pages_for sz) in
    if negb ok then Some (w, s, -12)
    else
      r ← (if sz <? size s then zero_loop (Z.to_nat (size s - sz)) (ram w) s sz (size s - sz) else Some (ram w));
      Some (set_ram w r, set_size s sz, 0).

Definition shm_grow (room : bool) (w : world) (s : shm) (sz : Z) : option (world * shm * Z) :=
  '(w, s, r) ← shm_truncate room w s sz; Some (w, s, if (r =? 0) || (sz <=? size s) then 0 else -1).

Definition shm_ref (s : shm) : shm := Shm (refcount s + 1) (frames s) (cap s) (size s) (seals s).

(** [None]: the object is gone. *)
Definition shm_unref (w : world) (s : shm) : world * option shm :=
  if 0 <? refcount s - 1 then (w, Some (Shm (refcount s - 1) (frames s) (cap s) (size s) (seals s)))
  else (World (ram w) (answers w) (frames s ++ freed w), None).

(** ** The object as an array of bytes *)

(** Frames are whole pages, each held once, none of those still to be answered. *)
Definition is_frame (f : Z) : Prop := 0 < f /\ f mod 4096 = 0.
Record frames_ok (s : shm) (w : world) : Prop := {
  fo_frame : Forall is_frame (frames s);
  fo_fresh : Forall (fun f => f = 0 \/ is_frame f) (answers w);
  fo_nodup : NoDup (frames s ++ filter (fun f => f <> 0) (answers w))
}.

Definition addr (s : shm) (i : Z) : Z := nth (Z.to_nat (i / 4096)) (frames s) 0 + i mod 4096.
Definition byte_at (w : world) (s : shm) (i : Z) : Z := ram w (addr s i).
Definition held (s : shm) (i : Z) : Prop := 0 <= i < 4096 * nframes s.

(** The bytes past the end are zero, so that growing shows zeros. *)
Record shm_ok (w : world) (s : shm) : Prop := {
  so_frames : frames_ok s w;
  so_cap : nframes s <= cap s <= SHM_MAX_FRAMES;
  so_size : 0 <= size s <= 4096 * nframes s;
  so_tail : forall i, held s i -> size s <= i -> byte_at w s i = 0
}.

(** Byte [i] as a reader sees it. *)
Definition view (w : world) (s : shm) (i : Z) : Z := if (0 <=? i) && (i <? size s) then byte_at w s i else 0.

Lemma kptr_held s i : 0 <= i -> (shm_kptr s i = Some (addr s i) <-> held s i) /\ (shm_kptr s i = None <-> ~ held s i).
Proof.
  intros Hi. unfold shm_kptr, addr, held. pose proof (Z.div_mod i 4096 ltac:(lia)). pose proof (Z.mod_pos_bound i 4096 ltac:(lia)).
  destruct (Z.leb_spec (nframes s) (i / 4096)); split; split; intros; try done; lia.
Qed.

Lemma frame_nth s w k : frames_ok s w -> 0 <= k < nframes s ->
  exists f, frames s !! Z.to_nat k = Some f /\ nth (Z.to_nat k) (frames s) 0 = f /\ is_frame f.
Proof.
  intros [Hf _ _] Hk. unfold nframes in Hk. destruct (lookup_lt_is_Some_2 (frames s) (Z.to_nat k)) as [f E]; [lia|].
  exists f. split; [done|]. split; [by apply nth_lookup_Some|]. by eapply Forall_lookup_1.
Qed.

Lemma addr_inj s w i j : frames_ok s w -> held s i -> held s j -> addr s i = addr s j -> i = j.
Proof.
  intros Hok Hi Hj. unfold held, addr in *.
  pose proof (Z.div_mod i 4096 ltac:(lia)). pose proof (Z.mod_pos_bound i 4096 ltac:(lia)).
  pose proof (Z.div_mod j 4096 ltac:(lia)). pose proof (Z.mod_pos_bound j 4096 ltac:(lia)).
  destruct (frame_nth s w (i / 4096) Hok) as (f & Lf & -> & Hf); [lia|].
  destruct (frame_nth s w (j / 4096) Hok) as (g & Lg & -> & Hg); [lia|]. intros E.
  destruct Hf as [_ Hf], Hg as [_ Hg].
  pose proof (Z.div_mod f 4096 ltac:(lia)). pose proof (Z.div_mod g 4096 ltac:(lia)).
  assert (f = g) as -> by lia. destruct Hok as [_ _ Hn]. apply NoDup_app in Hn as (Hn & _ & _).
  pose proof (NoDup_lookup _ _ _ _ Hn Lf Lg). lia.
Qed.

Lemma addr_run s o k : 0 <= o -> 0 <= k -> o mod 4096 + k < 4096 -> addr s (o + k) = addr s o + k.
Proof.
  intros Ho Hk Hr. unfold addr. destruct (page_run o k Ho Hk Hr) as [-> ->]. lia.
Qed.

(** Writing in one page touches the bytes of that run only. *)
Lemma run_bytes s w o k i : frames_ok s w -> held s o -> held s i -> 0 <= k -> o mod 4096 + k <= 4096 -> held s (o + k - 1) \/ k = 0 ->
  (addr s o <= addr s i < addr s o + k <-> o <= i < o + k).
Proof.
  intros Hok Ho Hi Hk Hr Hlast. unfold held in Ho, Hi. split; intros H.
  - destruct Hlast as [Hlast| ->]; [|lia]. unfold held in Hlast.
    assert (addr s (o + (addr s i - addr s o)) = addr s i) as E by (rewrite addr_run; lia).
    apply (addr_inj s w) in E; [lia|done|unfold held; lia|unfold held; lia].
  - replace i with (o + (i - o)) by lia. rewrite addr_run by lia. lia.
Qed.

Lemma write_loop_ok fuel r s w o src done : frames_ok s w -> nframes s <= SHM_MAX_FRAMES -> 0 <= o + done ->
  o + done + Z.of_nat (length src) <= 4096 * nframes s -> (length src <= fuel)%nat ->
  exists r', write_loop fuel r s o src done = Some (r', done + Z.of_nat (length src)) /\
    forall i, held s i -> r' (addr s i) =
      if (o + done <=? i) && (i <? o + done + Z.of_nat (length src)) then nth (Z.to_nat (i - (o + done))) src 0 else r (addr s i).
Proof.
  intros Hok Hmax. revert r src done. induction fuel as [|fuel IH]; intros r [|b src] done Ho He Hf; cbn [length] in *; try lia;
    try (exists r; cbn [write_loop]; change (Z.of_nat 0) with 0; split; [by rewrite Z.add_0_r|]; intros i _;
         destruct (Z.leb_spec (o + done) i), (Z.ltb_spec i (o + done + 0)); cbn [andb]; try done; lia).
  change (S (length src)) with (length (b :: src)) in *. assert (0 < Z.of_nat (length (b :: src))) as Hpos by (cbn; lia).
  cbn [write_loop]. set (l := b :: src) in *. clearbody l. unfold SHM_MAX_FRAMES in Hmax.
  assert (held s (o + done)) as Hh by (unfold held; lia). rewrite u64_small by lia.
  rewrite (proj2 (proj1 (kptr_held s (o + done) Ho)) Hh).
  destruct (room_at_spec (o + done) (Z.of_nat (length l))) as [[Hk1 Hk2] Hk3]; [done|done|].
  set (k := room_at (o + done) (Z.of_nat (length l))) in *.
  assert (length (take (Z.to_nat k) l) = Z.to_nat k) as Ht by (rewrite length_take; lia).
  assert (Z.of_nat (length (drop (Z.to_nat k) l)) = Z.of_nat (length l) - k) as Hd by (rewrite length_drop; lia).
  destruct (IH (poke r (addr s (o + done)) (take (Z.to_nat k) l)) (drop (Z.to_nat k) l) (done + k)) as (r' & -> & Hr');
    [lia|lia|rewrite length_drop; lia|].
  exists r'. split; [do 2 f_equal; lia|]. intros i Hi. rewrite (Hr' i Hi).
  rewrite Hd, poke_eq, Ht.
  pose proof (run_bytes s w (o + done) k i Hok Hh Hi ltac:(lia) ltac:(lia) ltac:(left; unfold held; lia)) as Hrun.
  destruct (Z.leb_spec (o + (done + k)) i).
  - destruct (Z.ltb_spec i (o + (done + k) + (Z.of_nat (length l) - k))), (Z.leb_spec (o + done) i),
      (Z.ltb_spec i (o + done + Z.of_nat (length l))); cbn [andb]; try lia.
    + rewrite nth_lookup, lookup_drop, <- nth_lookup. f_equal. lia.
    + destruct (Z.leb_spec (addr s (o + done)) (addr s i)), (Z.ltb_spec (addr s i) (addr s (o + done) + Z.of_nat (Z.to_nat k)));
        cbn [andb]; try done. exfalso. lia.
  - cbn [andb]. destruct (Z.leb_spec (o + done) i); cbn [andb].
    + rewrite (proj2 (Z.ltb_lt i (o + done + Z.of_nat (length l)))) by lia.
      rewrite (proj2 (Z.leb_le _ _)), (proj2 (Z.ltb_lt _ _)) by lia. cbn [andb].
      replace (addr s i - addr s (o + done)) with (i - (o + done)) by (replace i with (o + done + (i - (o + done))) at 2 by lia; rewrite addr_run; lia).
      rewrite nth_lookup, lookup_take_lt, <- nth_lookup by lia. done.
    + destruct (Z.leb_spec (addr s (o + done)) (addr s i)), (Z.ltb_spec (addr s i) (addr s (o + done) + Z.of_nat (Z.to_nat k)));
        cbn [andb]; try done. exfalso. lia.
Qed.

Lemma read_loop_ok fuel w s o left : 0 <= o -> 0 <= left -> o + left <= 4096 * nframes s -> left <= Z.of_nat fuel ->
  read_loop fuel (ram w) s o left = Some ((fun k => byte_at w s (o + Z.of_nat k)) <$> seq 0 (Z.to_nat left)).
Proof.
  revert o left. induction fuel as [|fuel IH]; intros o left Ho Hl He Hf; cbn [read_loop].
  { by replace left with 0 by lia. }
  destruct (Z.leb_spec left 0); [by replace left with 0 by lia|].
  rewrite (proj2 (proj1 (kptr_held s o Ho))) by (unfold held; lia).
  destruct (room_at_spec o left) as [[Hk1 Hk2] Hk3]; [done|done|]. set (k := room_at o left) in *.
  rewrite IH by lia. cbn [fmap option_fmap option_map]. f_equal. rewrite peek_map.
  replace (Z.to_nat left) with (Z.to_nat k + Z.to_nat (left - k))%nat by lia. rewrite seq_app, fmap_app. f_equal.
  - apply list_fmap_ext. intros i x Hi. apply lookup_seq in Hi as [-> Hi]. unfold byte_at. f_equal. rewrite addr_run; lia.
  - replace (seq (0 + Z.to_nat k) (Z.to_nat (left - k))) with (Nat.add (Z.to_nat k) <$> seq 0 (Z.to_nat (left - k)))
      by (rewrite fmap_add_seq; f_equal; lia).
    rewrite <- list_fmap_compose. apply list_fmap_ext. intros i x _. cbn. f_equal. lia.
Qed.

(** ** Growing *)

(** [s'] is [s] with more frames, all zero; the old bytes are where they were. *)
Record grown (w : world) (s : shm) (w' : world) (s' : shm) : Prop := {
  gr_ok : frames_ok s' w';
  gr_more : nframes s <= nframes s';
  gr_same : size s' = size s /\ seals s' = seals s /\ refcount s' = refcount s /\ freed w' = freed w;
  gr_old : forall i, held s i -> byte_at w' s' i = byte_at w s i;
  gr_new : forall i, held s' i -> ~ held s i -> byte_at w' s' i = 0
}.

Lemma grown_refl w s : frames_ok s w -> grown w s w s.
Proof. intros H. split; try done. Qed.

Lemma grown_trans w s w1 s1 w2 s2 : grown w s w1 s1 -> grown w1 s1 w2 s2 -> grown w s w2 s2.
Proof.
  intros [A1 A2 (A3 & A4 & A5 & A6) A7 A8] [B1 B2 (B3 & B4 & B5 & B6) B7 B8]. split; [done|lia|split_and!; congruence| |].
  - intros i Hi. rewrite B7; [by apply A7|]. unfold held in *. lia.
  - intros i Hi Hn. destruct (decide (held s1 i)) as [H|H]; [rewrite B7 by done; by apply A8|by apply B8].
Qed.

Lemma alloc_frames_ok w s w1 f : frames_ok s w -> pmm_alloc w = (w1, f) -> ram w1 = ram w /\ freed w1 = freed w /\
  (f = 0 -> frames_ok s w1) /\
  (f <> 0 -> is_frame f /\ f ∉ frames s /\ forall r, frames_ok (set_frames s (frames s ++ [f])) (set_ram w1 r)).
Proof.
  intros [Hf Ha Hn] E. unfold pmm_alloc in E. destruct (answers w) as [|x l] eqn:Ea; injection E as <- <-.
  - split_and!; [done|done|intros _; by split; rewrite ?Ea|done].
  - apply Forall_cons in Ha as [Hx Hl]. split_and!; [done|done|..].
    + intros ->. split; [done|done|]. rewrite filter_cons_False in Hn by tauto. done.
    + intros Hne. destruct Hx as [|Hx]; [done|]. rewrite filter_cons_True in Hn by done. cbn.
      split_and!; [done| |].
      * intros H. apply NoDup_app in Hn as (_ & Hd & _). apply (Hd x H). left.
      * intros r. split; cbn; [apply Forall_app; split; [done|by constructor]|done|by rewrite <- app_assoc].
Qed.

Lemma nframes_snoc s f : nframes (set_frames s (frames s ++ [f])) = nframes s + 1.
Proof. unfold nframes. cbn. rewrite length_app. cbn. lia. Qed.

Lemma addr_snoc s f i : held s i -> addr (set_frames s (frames s ++ [f])) i = addr s i.
Proof.
  intros Hi. unfold held, nframes in Hi. unfold addr. cbn. pose proof (Z.div_mod i 4096 ltac:(lia)).
  pose proof (Z.mod_pos_bound i 4096 ltac:(lia)). rewrite app_nth1 by lia. done.
Qed.

Lemma addr_last s f i : held (set_frames s (frames s ++ [f])) i -> ~ held s i -> addr (set_frames s (frames s ++ [f])) i = f + i mod 4096.
Proof.
  intros Hi Hn. unfold held in *. rewrite nframes_snoc in Hi. unfold addr. cbn. unfold nframes in *.
  pose proof (Z.div_mod i 4096 ltac:(lia)). pose proof (Z.mod_pos_bound i 4096 ltac:(lia)).
  rewrite app_nth2 by lia. replace (Z.to_nat (i / 4096) - length (frames s))%nat with 0%nat by lia. done.
Qed.

Lemma fill_step w s w1 f : frames_ok s w -> pmm_alloc w = (w1, f) -> f <> 0 ->
  grown w s (set_ram w1 (fill (ram w1) f 4096 0)) (set_frames s (frames s ++ [f])).
Proof.
  intros Hok Ea Hf. destruct (alloc_frames_ok w s w1 f Hok Ea) as (Er & Efr & _ & Hx).
  destruct (Hx Hf) as (Hff & Hni & Hok'). split; [apply Hok'|rewrite nframes_snoc; lia|done| |].
  - intros i Hi. unfold byte_at. rewrite addr_snoc by done. cbn [ram set_ram]. rewrite fill_outside; [by rewrite Er|].
    unfold held in Hi. pose proof (Z.div_mod i 4096 ltac:(lia)). pose proof (Z.mod_pos_bound i 4096 ltac:(lia)).
    destruct (frame_nth s w (i / 4096) Hok) as (g & Lg & Eg & Hg); [lia|]. unfold addr. rewrite Eg.
    destruct (decide (f = g)) as [->|Hne]; [exfalso; apply Hni; by eapply list_elem_of_lookup_2|].
    destruct Hff as [_ Hff], Hg as [_ Hg].
    pose proof (Z.div_mod f 4096 ltac:(lia)). pose proof (Z.div_mod g 4096 ltac:(lia)). lia.
  - intros i Hi Hn. unfold byte_at. rewrite addr_last by done. cbn [ram set_ram].
    pose proof (Z.mod_pos_bound i 4096 ltac:(lia)). apply fill_inside. lia.
Qed.

Lemma fill_loop_ok k w s : frames_ok s w -> let '(w', s', ok) := fill_loop k w s in
  grown w s w' s' /\ cap s' = cap s /\ nframes s' <= nframes s + Z.of_nat k /\ (ok = true -> nframes s' = nframes s + Z.of_nat k).
Proof.
  revert w s. induction k as [|k IH]; intros w s Hok; cbn [fill_loop].
  { split_and!; [by apply grown_refl|done|lia|lia]. }
  destruct (pmm_alloc w) as [w1 f] eqn:Ea. destruct (Z.eqb_spec f 0) as [->|Hf].
  { destruct (alloc_frames_ok w s w1 0 Hok Ea) as (Er & Efr & H0 & _). split_and!; [|done|lia|done].
    split; [by apply H0|lia|done| |done]. intros i _. unfold byte_at. by rewrite Er. }
  pose proof (fill_step w s w1 f Hok Ea Hf) as Hg.
  specialize (IH _ _ (gr_ok _ _ _ _ Hg)). destruct (fill_loop k _ _) as [[w' s'] ok].
  destruct IH as (Hg' & Hc & Hn & Ht). rewrite nframes_snoc in *. split_and!; [by eapply grown_trans|done|lia|intros E; specialize (Ht E); lia].
Qed.

Lemma grow_cap_spec fuel nc n : 0 < nc -> n <= nc * 2 ^ Z.of_nat fuel -> n <= grow_cap fuel nc n /\ nc <= grow_cap fuel nc n.
Proof.
  revert nc. induction fuel as [|fuel IH]; intros nc Hp Hn; cbn [grow_cap]; [cbn in Hn; lia|].
  destruct (Z.ltb_spec nc n); [|lia]. destruct (IH (nc * 2)); [lia| |lia].
  rewrite Nat2Z.inj_succ, Z.pow_succ_r in Hn by lia. lia.
Qed.

Lemma fill_ok room w s n : frames_ok s w -> nframes s <= cap s <= SHM_MAX_FRAMES -> n <= SHM_MAX_FRAMES ->
  let '(w', s', ok) := shm_fill room w s n in
  grown w s w' s' /\ nframes s' <= cap s' <= SHM_MAX_FRAMES /\ (ok = true -> n <= nframes s').
Proof.
  intros Hok Hc Hn. unfold shm_fill. destruct (Z.leb_spec n (nframes s)); [split_and!; [by apply grown_refl|lia|lia|lia]|].
  unfold shm_reserve. unfold SHM_MAX_FRAMES in *.
  assert (0 <= nframes s) as H0 by (unfold nframes; lia).
  destruct (Z.leb_spec n (cap s)).
  { pose proof (fill_loop_ok (Z.to_nat (n - nframes s)) w s Hok) as Hfl. destruct (fill_loop _ _ _) as [[w' s'] ok].
    destruct Hfl as (Hg & Ec & Hle & Ht). rewrite Ec. split_and!; [done|lia|lia|intros E; specialize (Ht E); lia]. }
  destruct (Z.ltb_spec 65536 n); [lia|].
  destruct room; [|split_and!; [by apply grown_refl|lia|lia|done]].
  set (nc := grow_cap 17 _ n). assert (n <= nc /\ cap s <= nc) as [Hnc1 Hnc2].
  { unfold nc. destruct (Z.eqb_spec (cap s) 0) as [E|E].
    - destruct (grow_cap_spec 17 16 n); [lia|cbn; lia|lia].
    - apply grow_cap_spec; cbn; lia. }
  set (c := if 65536 <? nc then 65536 else nc). assert (n <= c <= 65536) as Hcc by (unfold c; destruct (Z.ltb_spec 65536 nc); lia).
  assert (frames_ok (set_cap s c) w) as Hok' by (by destruct Hok).
  change (nframes s) with (nframes (set_cap s c)) in *.
  pose proof (fill_loop_ok (Z.to_nat (n - nframes (set_cap s c))) w (set_cap s c) Hok') as Hfl. destruct (fill_loop _ _ _) as [[w' s'] ok].
  destruct Hfl as (Hg & Ec & Hle & Ht). rewrite Ec. change (cap (set_cap s c)) with c.
  split_and!; [|lia|lia|intros E; specialize (Ht E); lia]. by destruct Hg as [G1 G2 G3 G4 G5]; split.
Qed.

Lemma zero_loop_ok fuel r s w o left : frames_ok s w -> 0 <= o -> 0 <= left -> o + left <= 4096 * nframes s -> left <= Z.of_nat fuel ->
  exists r', zero_loop fuel r s o left = Some r' /\
    forall i, held s i -> r' (addr s i) = if (o <=? i) && (i <? o + left) then 0 else r (addr s i).
Proof.
  intros Hok. revert r o left. induction fuel as [|fuel IH]; intros r o left Ho Hl He Hf; cbn [zero_loop].
  { replace left with 0 by lia. exists r. split; [done|]. intros i _. destruct (Z.leb_spec o i), (Z.ltb_spec i (o + 0)); cbn [andb]; try done; lia. }
  destruct (Z.leb_spec left 0).
  { replace left with 0 by lia. exists r. split; [done|]. intros i _. destruct (Z.leb_spec o i), (Z.ltb_spec i (o + 0)); cbn [andb]; try done; lia. }
  assert (held s o) as Hh by (unfold held; lia). rewrite (proj2 (proj1 (kptr_held s o Ho)) Hh).
  destruct (room_at_spec o left) as [[Hk1 Hk2] Hk3]; [done|done|]. set (k := room_at o left) in *.
  destruct (IH (fill r (addr s o) (Z.to_nat k) 0) (o + k) (left - k)) as (r' & -> & Hr'); [lia|lia|lia|lia|].
  exists r'. split; [done|]. intros i Hi. rewrite (Hr' i Hi), fill_lookup.
  pose proof (run_bytes s w o k i Hok Hh Hi ltac:(lia) ltac:(lia) ltac:(left; unfold held; lia)) as Hrun.
  rewrite Z2Nat.id by lia.
  destruct (Z.leb_spec (addr s o) (addr s i)), (Z.ltb_spec (addr s i) (addr s o + k)), (Z.leb_spec (o + k) i),
    (Z.ltb_spec i (o + k + (left - k))), (Z.leb_spec o i), (Z.ltb_spec i (o + left)); cbn [andb]; try done; exfalso; lia.
Qed.

(** ** The calls *)

Lemma grown_ok w s w' s' : shm_ok w s -> grown w s w' s' -> nframes s' <= cap s' <= SHM_MAX_FRAMES ->
  shm_ok w' s' /\ forall i, view w' s' i = view w s i.
Proof.
  intros [A1 A2 A3 A4] [G1 G2 (G3 & _) G4 G5] Hc. split.
  - split; [done|done|lia|]. intros i Hi Hs. destruct (decide (held s i)) as [H|H]; [|by apply G5].
    rewrite G4 by done. apply A4; [done|lia].
  - intros i. unfold view. rewrite G3. destruct (Z.leb_spec 0 i), (Z.ltb_spec i (size s)); cbn [andb]; try done.
    apply G4. unfold held. lia.
Qed.

Lemma shm_pages_for_spec n : 0 <= n -> n + 4095 < 2 ^ 64 -> n <= 4096 * pages_for n < n + 4096.
Proof.
  intros H1 H2. unfold pages_for. rewrite u64_small by lia. pose proof (Z.div_mod (n + 4095) 4096 ltac:(lia)).
  pose proof (Z.mod_pos_bound (n + 4095) 4096 ltac:(lia)). lia.
Qed.

(** What a call answered: [n] bytes or 0 with the new contents, or an error with
    the contents as they were. *)
Record result_ok (w : world) (s : shm) (w' : world) (s' : shm) (r want newsize : Z) (content : Z -> Z) : Prop := {
  re_ok : shm_ok w' s';
  re_done : r = want -> size s' = newsize /\ forall i, view w' s' i = content i;
  re_fail : r <> want -> r < 0 /\ size s' = size s /\ forall i, view w' s' i = view w s i
}.

Definition written (w : world) (s : shm) (off : Z) (src : list Z) (i : Z) : Z :=
  if (off <=? i) && (i <? off + Z.of_nat (length src)) then nth (Z.to_nat (i - off)) src 0 else view w s i.
Definition cut (w : world) (s : shm) (sz i : Z) : Z := if i <? sz then view w s i else 0.

Lemma copy_ok w s off src : shm_ok w s -> 0 <= off -> off + Z.of_nat (length src) <= 4096 * nframes s ->
  exists r, write_loop (length src) (ram w) s off src 0 = Some (r, Z.of_nat (length src)) /\
    let e := off + Z.of_nat (length src) in
    let s' := if size s <? u64 e then set_size s (u64 e) else s in
    shm_ok (set_ram w r) s' /\ size s' = Z.max (size s) e /\
    forall i, view (set_ram w r) s' i = written w s off src i.
Proof.
  intros [A1 A2 A3 A4] Ho He. destruct (write_loop_ok (length src) (ram w) s w off src 0) as (r & E & Hr); [done|lia|lia|lia|lia|].
  rewrite Z.add_0_r, Z.add_0_l in *. exists r. split; [done|]. cbv zeta. set (e := off + Z.of_nat (length src)) in *.
  unfold SHM_MAX_FRAMES in A2. rewrite u64_small by lia.
  set (s' := if size s <? e then set_size s e else s).
  assert (nframes s' = nframes s /\ cap s' = cap s /\ frames s' = frames s /\ size s' = Z.max (size s) e) as (En & Ec & Ef & Es).
  { unfold s'. destruct (Z.ltb_spec (size s) e); cbn; split_and!; try done; lia. }
  assert (forall i, addr s' i = addr s i) as Ea by (intros i; unfold addr; by rewrite Ef).
  assert (forall i, held s i -> byte_at (set_ram w r) s' i = if (off <=? i) && (i <? e) then nth (Z.to_nat (i - off)) src 0 else byte_at w s i) as Hb.
  { intros i Hi. unfold byte_at. rewrite Ea. cbn. by apply Hr. }
  clearbody s'. split; [|split; [done|]].
  - split; [destruct A1; split; rewrite ?Ef; done|unfold SHM_MAX_FRAMES; lia|lia|]. intros i Hi Hs. unfold held in Hi. rewrite En in Hi. rewrite Hb by done.
    rewrite (proj2 (Z.ltb_ge i e)), andb_false_r by lia. apply A4; [done|lia].
  - intros i. unfold view, written. fold e. destruct (Z.leb_spec 0 i); cbn [andb].
    + destruct (Z.ltb_spec i (size s')); cbn [andb].
      * rewrite Hb by (unfold held; lia). destruct (Z.leb_spec off i), (Z.ltb_spec i e); cbn [andb]; try done;
          unfold view; rewrite (proj2 (Z.leb_le 0 i)) by lia; destruct (Z.ltb_spec i (size s)); cbn [andb]; try done; try lia.
        apply A4; [unfold held; lia|done].
      * rewrite (proj2 (Z.ltb_ge i e)), andb_false_r by lia. unfold view. rewrite (proj2 (Z.ltb_ge i (size s))) by lia. by rewrite andb_false_r.
    + rewrite (proj2 (Z.leb_gt off i)) by lia. cbn [andb]. unfold view. by rewrite (proj2 (Z.leb_gt 0 i)) by lia.
Qed.

Lemma unchanged w s r want newsize content : shm_ok w s -> r < 0 -> 0 <= want -> result_ok w s w s r want newsize content.
Proof. intros H Hr Hw. split; [done|lia|done]. Qed.

Lemma write_ok room w s off src : shm_ok w s -> 0 <= off -> off + Z.of_nat (length src) < 2 ^ 64 - 4096 ->
  exists w' s' r, shm_write room w s off src = Some (w', s', r) /\
    result_ok w s w' s' r (Z.of_nat (length src)) (Z.max (size s) (off + Z.of_nat (length src))) (written w s off src).
Proof.
  intros Hok Ho He. unfold shm_write. set (n := Z.of_nat (length src)) in *.
  destruct (sealed s SHM_SEAL_WRITE); [exists w, s, (-1); split; [done|apply unchanged; [done|lia|lia]]|].
  rewrite (u64_small (off + n)) by lia. destruct (Z.ltb_spec (size s) (off + n)) as [Hlt|Hle].
  - destruct (sealed s SHM_SEAL_GROW); [exists w, s, (-1); split; [done|apply unchanged; [done|lia|lia]]|].
    destruct (Z.ltb_spec SHM_MAX_FRAMES (pages_for (off + n))); [exists w, s, (-27); split; [done|apply unchanged; [done|lia|lia]]|].
    pose proof (shm_pages_for_spec (off + n) ltac:(lia) ltac:(lia)) as Hp.
    pose proof (fill_ok room w s (pages_for (off + n)) (so_frames _ _ Hok) (so_cap _ _ Hok) ltac:(lia)) as Hf.
    destruct (shm_fill room w s (pages_for (off + n))) as [[w1 s1] ok]. destruct Hf as (Hg & Hc & Hn).
    destruct (grown_ok _ _ _ _ Hok Hg Hc) as (Hok1 & Hv). pose proof (gr_same _ _ _ _ Hg) as (Es & _).
    destruct ok; [|exists w1, s1, (-12); split; [done|split; [done|lia|intros _; split_and!; [lia|done|done]]]].
    destruct (copy_ok w1 s1 off src Hok1 Ho) as (r & -> & Hok2 & Es2 & Hv2); [specialize (Hn eq_refl); lia|].
    cbn [mbind option_bind]. eexists _, _, n. split; [done|]. split; [done| |intros; lia].
    intros _. split; [rewrite Es2, Es; done|]. intros i. rewrite Hv2. unfold written. by rewrite Hv.
  - destruct (copy_ok w s off src Hok Ho) as (r & -> & Hok2 & Es2 & Hv2); [destruct Hok; lia|].
    cbn [mbind option_bind]. eexists _, _, n. split; [done|]. split; [done| |intros; lia]. done.
Qed.

Lemma shm_bytes_ok w s off n : shm_ok w s -> 0 <= off -> 0 <= n ->
  shm_read w s off n = Some ((fun k => view w s (off + Z.of_nat k)) <$> seq 0 (Z.to_nat (Z.min n (size s - off)))).
Proof.
  intros [A1 A2 A3 A4] Ho Hn. unfold shm_read. destruct (Z.leb_spec (size s) off).
  { by replace (Z.to_nat (Z.min n (size s - off))) with 0%nat by lia. }
  set (m := if size s - off <? n then size s - off else n). assert (m = Z.min n (size s - off)) as -> by (unfold m; destruct (Z.ltb_spec (size s - off) n); lia).
  rewrite read_loop_ok by lia. f_equal. apply list_fmap_ext. intros i x Hi. apply lookup_seq in Hi as [-> Hi].
  unfold view. rewrite (proj2 (Z.leb_le _ _)), (proj2 (Z.ltb_lt _ _)) by lia. done.
Qed.


(** What was written is what is read: after a write that succeeded, reading
    as many bytes at the same place gives them back. *)
Theorem shm_read_back room w s off src w' s' r : shm_ok w s -> 0 <= off -> off + Z.of_nat (length src) < 2 ^ 64 - 4096 ->
  shm_write room w s off src = Some (w', s', r) -> 0 <= r -> shm_read w' s' off r = Some src.
Proof.
  intros Hok Ho He E Hr. destruct (write_ok room w s off src Hok Ho He) as (w1 & s1 & r1 & E1 & [R1 R2 R3]).
  rewrite E in E1. injection E1 as <- <- <-. destruct (decide (r = Z.of_nat (length src))) as [->|Hne]; [|destruct (R3 Hne); lia].
  destruct (R2 eq_refl) as (Es & Hv). rewrite shm_bytes_ok by (done || lia). f_equal.
  apply list_eq. intros i. rewrite list_lookup_fmap. replace (Z.to_nat (Z.min _ _)) with (length src) by lia.
  destruct (decide (i < length src)%nat) as [Hi|Hi].
  - rewrite lookup_seq_lt by done. cbn. rewrite Hv. unfold written.
    rewrite (proj2 (Z.leb_le _ _)), (proj2 (Z.ltb_lt _ _)) by lia. cbn [andb].
    replace (Z.to_nat (off + Z.of_nat i - off)) with i by lia. destruct (lookup_lt_is_Some_2 src i Hi) as [x Ex].
    rewrite Ex. f_equal. by apply nth_lookup_Some.
  - rewrite lookup_seq_ge by lia. cbn. symmetry. apply lookup_ge_None. lia.
Qed.

(** Ftruncate: on success the end is where it was asked, the bytes before
    it are kept, and the bytes past it are gone for good: growing again shows
    zeros.  On failure (sealed, too large, out of memory) nothing changes. *)
Theorem shm_truncate_correct room w s sz : shm_ok w s -> 0 <= sz -> sz + 4095 < 2 ^ 64 ->
  exists w' s' r, shm_truncate room w s sz = Some (w', s', r) /\ result_ok w s w' s' r 0 sz (cut w s sz).
Proof.
  intros Hok Hz He. unfold shm_truncate.
  destruct ((size s <? sz) && sealed s SHM_SEAL_GROW); [exists w, s, (-1); split; [done|apply unchanged; [done|lia|lia]]|].
  destruct ((sz <? size s) && sealed s SHM_SEAL_SHRINK); [exists w, s, (-1); split; [done|apply unchanged; [done|lia|lia]]|].
  destruct (Z.ltb_spec SHM_MAX_FRAMES (pages_for sz)); [exists w, s, (-27); split; [done|apply unchanged; [done|lia|lia]]|].
  pose proof (shm_pages_for_spec sz Hz He) as Hp.
  pose proof (fill_ok room w s (pages_for sz) (so_frames _ _ Hok) (so_cap _ _ Hok) ltac:(lia)) as Hf.
  destruct (shm_fill room w s (pages_for sz)) as [[w1 s1] ok]. destruct Hf as (Hg & Hc & Hn).
  destruct (grown_ok _ _ _ _ Hok Hg Hc) as (Hok1 & Hv). pose proof (gr_same _ _ _ _ Hg) as (Es & _).
  destruct ok; cbn [negb]; [|exists w1, s1, (-12); split; [done|split; [done|lia|intros _; split_and!; [lia|done|done]]]].
  specialize (Hn eq_refl). destruct Hok1 as [B1 B2 B3 B4].
  assert (exists r, (if sz <? size s1 then zero_loop (Z.to_nat (size s1 - sz)) (ram w1) s1 sz (size s1 - sz) else Some (ram w1)) = Some r /\
            forall i, held s1 i -> r (addr s1 i) = if sz <=? i then 0 else byte_at w1 s1 i) as (r & -> & Hr).
  { destruct (Z.ltb_spec sz (size s1)).
    - destruct (zero_loop_ok (Z.to_nat (size s1 - sz)) (ram w1) s1 w1 sz (size s1 - sz)) as (r & -> & Hr); [done|lia|lia|lia|lia|].
      exists r. split; [done|]. intros i Hi. rewrite (Hr i Hi). destruct (Z.leb_spec sz i); cbn [andb]; [|done].
      destruct (Z.ltb_spec i (sz + (size s1 - sz))); [done|]. apply B4; [done|lia].
    - exists (ram w1). split; [done|]. intros i Hi. destruct (Z.leb_spec sz i); [|done]. apply B4; [done|lia]. }
  cbn [mbind option_bind]. eexists _, _, 0. split; [done|]. split; [|intros _|done].
  - split; [by destruct B1|done|cbn; change (nframes (set_size s1 sz)) with (nframes s1); lia|].
    intros i Hi Hs. cbn in Hs. unfold byte_at. cbn. change (addr (set_size s1 sz) i) with (addr s1 i). rewrite (Hr i Hi).
    by rewrite (proj2 (Z.leb_le sz i)).
  - split; [done|]. intros i. unfold cut. rewrite <- Hv. unfold view. cbn [size set_size].
    destruct (Z.leb_spec 0 i), (Z.ltb_spec i sz); cbn [andb]; try done.
    change (byte_at (set_ram w1 r) (set_size s1 sz) i) with (r (addr s1 i)). rewrite Hr by (unfold held; lia).
    rewrite (proj2 (Z.leb_gt sz i)) by lia. destruct (Z.ltb_spec i (size s1)); [done|]. apply B4; [unfold held; lia|done].
Qed.

(** A size within a page of 2^64 wraps to no pages: [shm_create] answers an
    object of one frame that says it is almost 2^64 bytes long, and
    [shm_truncate] gives any object that size.  (The memfd calls pass the
    program's size on unchecked.) *)
Theorem shm_size_wraps room w s f l sz : 2 ^ 64 - 4096 < sz < 2 ^ 64 -> answers w = f :: l -> f <> 0 ->
  sealed s SHM_SEAL_GROW = false -> 0 <= size s <= 4096 * nframes s -> nframes s <= SHM_MAX_FRAMES ->
  (exists w' s', shm_create true w sz = (w', Some s') /\ nframes s' = 1 /\ size s' = sz) /\
  (exists w' s', shm_truncate room w s sz = Some (w', s', 0) /\ size s' = sz /\ nframes s' = nframes s).
Proof.
  intros Hz Ha Hf Hg Hs Hm. unfold SHM_MAX_FRAMES in Hm. assert (pages_for sz = 0) as Hp.
  { unfold pages_for, u64. replace (sz + 4095) with (sz + 4095 - 2 ^ 64 + 1 * 2 ^ 64) by lia.
    change 18446744073709551616 with (2 ^ 64). rewrite Z.mod_add, Z.mod_small by lia. apply Z.div_small. lia. }
  split.
  - unfold shm_create. rewrite Hp. cbn [Z.eqb Z.ltb Z.compare SHM_MAX_FRAMES].
    change (shm_fill true w (Shm 1 [] 0 0 0) 1) with (fill_loop 1 w (set_cap (Shm 1 [] 0 0 0) 16)).
    cbn [fill_loop]. unfold pmm_alloc. rewrite Ha. rewrite (proj2 (Z.eqb_neq f 0) Hf). by eexists _, _.
  - unfold shm_truncate. rewrite Hg, andb_false_r. rewrite (proj2 (Z.ltb_ge sz (size s))) by lia. cbn [andb].
    rewrite Hp. unfold shm_fill. unfold nframes in *. rewrite (proj2 (Z.leb_le 0 _)) by lia. cbn [negb Z.ltb Z.compare SHM_MAX_FRAMES].
    rewrite (proj2 (Z.ltb_ge sz (size s))) by lia. cbn. by eexists _, _.
Qed.

(** ** Examples *)

(** Two scattered frames held, one more to be answered. *)
Definition demo : shm := Shm 1 [8192; 40960] 16 4100 0.
Definition demo_world : world := World (fun _ => 0) [4096; 0] [].

Lemma demo_shm_ok : shm_ok demo_world demo.
Proof.
  split; [split| | |done]; cbn.
  - repeat constructor.
  - constructor; [by right|]. constructor; [by left|constructor].
  - rewrite decide_True, decide_False by lia. repeat (apply NoDup_cons_2; [rewrite ?elem_of_cons, elem_of_nil; lia|]). apply NoDup_nil_2.
  - unfold nframes, SHM_MAX_FRAMES. cbn. lia.
  - unfold nframes. cbn. lia.
Qed.


Lemma shm_read_back_witness :
  match shm_write true demo_world demo 8190 [1; 2; 3; 4] with
  | Some (w', s', r) => r = 4 /\ shm_read w' s' 8190 r = Some [1; 2; 3; 4]
  | None => False
  end.
Proof.
  destruct (shm_write true demo_world demo 8190 [1; 2; 3; 4]) as [[[w' s'] r]|] eqn:E; [|vm_compute in E; discriminate].
  assert (r = 4) as -> by (vm_compute in E; congruence). split; [reflexivity|].
  apply (shm_read_back true demo_world demo 8190 [1; 2; 3; 4] w' s' 4 demo_shm_ok); [lia|cbn; lia|exact E|lia].
Defined.

Lemma shm_truncate_correct_witness :
  exists w' s' r, shm_truncate true demo_world demo 5 = Some (w', s', r) /\
    result_ok demo_world demo w' s' r 0 5 (cut demo_world demo 5).
Proof. apply (shm_truncate_correct true demo_world demo 5); [apply demo_shm_ok|lia|lia]. Defined.

Lemma shm_size_wraps_witness :
  exists w' s', shm_create true demo_world (2 ^ 64 - 1) = (w', Some s') /\ nframes s' = 1 /\ size s' = 2 ^ 64 - 1.
Proof.
  apply (shm_size_wraps true demo_world demo 4096 [0] (2 ^ 64 - 1));
    [lia|reflexivity|lia|reflexivity|unfold nframes; cbn; lia|unfold nframes, SHM_MAX_FRAMES; cbn; lia].
Defined.
End Shm.
