(* ===== verification/Partition.v ===== *)
(** * Partition tables (kernel/core/partition.c)

    MBR and GPT: reading a table into partition devices, the devices' own
    reads and writes, and writing a table with one partition.  A disk's contents
    are a byte map (sector [l] is the 512 bytes from [512 * l] on) and a buffer is
    a byte map too; the driver decides which requests succeed ([rd_ok], [wr_ok]),
    the block layer which devices it takes ([reg]). *)

From stdpp Require Import base list strings.
From Stdlib Require Import ZArith Lia Bool.
From S2P Require Import Prelude.
Open Scope Z_scope.

Module Partition.

Definition PART_MAX : nat := 32.
Definition SEC : Z := 512.

(** The disk as the parser sees it. *)
Record bdev := Bdev { d_id : Z; d_name : list Z; d_ssize : Z; d_count : Z; d_read : bool; d_write : bool }.

Record part := Part {
  p_disk : Z; p_start : Z; p_count : Z; p_num : Z;
  p_name : list Z; p_type : string; p_label : list Z; p_write : bool
}.

(** [g_parts]: [None] is a slot with [used == 0]. *)
Notation table := (list (option part)).
Definition parts0 : table := replicate PART_MAX None.

(** ** Little-endian words and CRC-32 *)

Definition le32 (f : Z -> Z) (o : Z) : Z :=
  Z.lor (Z.lor (Z.lor (f o) (Z.shiftl (f (o + 1)) 8)) (Z.shiftl (f (o + 2)) 16)) (Z.shiftl (f (o + 3)) 24).
Definition le64 (f : Z -> Z) (o : Z) : Z := Z.lor (le32 f o) (Z.shiftl (le32 f (o + 4)) 32).
Definition put32 (f : Z -> Z) (o v : Z) : Z -> Z :=
  f⟦o ↦ u8 v⟧⟦o + 1 ↦ u8 (Z.shiftr v 8)⟧⟦o + 2 ↦ u8 (Z.shiftr v 16)⟧⟦o + 3 ↦ u8 (Z.shiftr v 24)⟧.
Definition put64 (f : Z -> Z) (o v : Z) : Z -> Z := put32 (put32 f o (u32 v)) (o + 4) (u32 (Z.shiftr v 32)).

(** [for (k = 0; k < 8; k++) c = (c >> 1) ^ (0xEDB88320u & -(c & 1))] *)
Fixpoint crc_bits (k : nat) (c : Z) : Z :=
  match k with
  | O => c
  | S k' => crc_bits k' (Z.lxor (Z.shiftr c 1) (Z.land 0xEDB88320 (u32 (- Z.land c 1))))
  end.
Fixpoint crc_bytes (n : nat) (f : Z -> Z) (o c : Z) : Z :=
  match n with O => c | S n' => crc_bytes n' f (o + 1) (crc_bits 8 (Z.lxor c (f o))) end.
Definition crc32 (f : Z -> Z) (o n : Z) : Z := u32 (Z.lnot (crc_bytes (Z.to_nat n) f o 0xFFFFFFFF)).

(** ** The partition device *)

(** The request passed to the disk: its first sector and count; [None] is -1. *)
Definition p_read (p : part) (lba count : Z) : option (Z * Z) :=
  if (p_count p <=? lba) || (p_count p - lba <? count) then None else Some (u64 (p_start p + lba), count).
Definition p_write_req (p : part) (lba count : Z) : option (Z * Z) :=
  if negb (p_write p) then None
  else if (p_count p <=? lba) || (p_count p - lba <? count) then None else Some (u64 (p_start p + lba), count).

(** The name of partition [num]: at most ten bytes of the disk's, 'p' after a
    digit, the number. *)
Definition part_name (dn : list Z) (num : Z) : list Z :=
  let n := take 10 dn in
  let n := n ++ (match last n with Some c => if (0x30 <=? c) && (c <=? 0x39) then [0x70] else [] | None => [] end) in
  let n := n ++ (if 10 <=? num then [u8 (0x30 + num / 10)] else []) in
  n ++ [u8 (0x30 + num mod 10)].

(** [for (i = 0; i < PART_MAX; i++) if (!g_parts[i].used) { ...; break; }] *)
Fixpoint take_slot (t : table) (p : part) : option table :=
  match t with
  | [] => None
  | None :: t' => Some (Some p :: t')
  | Some q :: t' => (Some q ::.) <$> take_slot t' p
  end.

Section Scan.
Context (dv : bdev) (rd_ok : Z -> Z -> bool) (reg : list Z -> bool) (kmalloc_ok : bool).

Definition add_part (t : table) (num start count : Z) (type : string) (label : list Z) : table * bool :=
  if (count =? 0) || (d_count dv <=? start) || (d_count dv - start <? count) then (t, false)
  else
    let p := Part (d_id dv) start count num (part_name (d_name dv) num) type (take 39 label) (d_write dv) in
    match take_slot t p with
    | None => (t, false)
    | Some t' => if reg (p_name p) then (t', true) else (t, false)
    end.

(** Sectors [lba .. lba + n) in a buffer, or the driver's error. *)
Definition rd (c : Z -> Z) (lba n : Z) : option (Z -> Z) :=
  if rd_ok lba n then Some (fun i => c (lba * SEC + i)) else None.

Definition mbr_type (t : Z) : string :=
  if t =? 0x07 then "exFAT/NTFS" else if (t =? 0x0B) || (t =? 0x0C) then "FAT32"
  else if (t =? 0x0E) || (t =? 0x06) then "FAT16" else if t =? 0x83 then "Linux"
  else if t =? 0x82 then "Linux swap" else if t =? 0xEF then "EFI system" else "MBR".
Definition is_extended (t : Z) : bool := (t =? 0x05) || (t =? 0x0F) || (t =? 0x85).

Definition one (b : bool) : Z := if b then 1 else 0.

(** The chain of extended boot records: [k] turns are left. *)
Fixpoint ebr_loop (k : nat) (c : Z -> Z) (ext ebr num : Z) (t : table) (found : Z) : table * Z :=
  match k with
  | O => (t, found)
  | S k' =>
      if d_count dv <=? ebr then (t, found) else
      match rd c ebr 1 with
      | None => (t, found)
      | Some b =>
          if negb (b 510 =? 0x55) || negb (b 511 =? 0xAA) then (t, found) else
          let live := negb (b (446 + 4) =? 0) && negb (le32 b (446 + 12) =? 0) in
          let '(t, ok) := if live then add_part t num (ebr + le32 b (446 + 8)) (le32 b (446 + 12)) (mbr_type (b (446 + 4))) []
                          else (t, false) in
          let num := if live then num + 1 else num in
          if negb (is_extended (b (462 + 4))) || (le32 b (462 + 8) =? 0) then (t, found + one ok)
          else ebr_loop k' c ext (ext + le32 b (462 + 8)) num t (found + one ok)
      end
  end.

Definition mbr_entry (c s0 : Z -> Z) (i : Z) (acc : table * Z) : table * Z :=
  let '(t, found) := acc in
  let e := 446 + i * 16 in
  let type := s0 (e + 4) in
  let st := le32 s0 (e + 8) in
  let cnt := le32 s0 (e + 12) in
  if (type =? 0) || (cnt =? 0) then (t, found)
  else if negb (is_extended type) then
    let '(t, ok) := add_part t (i + 1) st cnt (mbr_type type) [] in (t, found + one ok)
  else ebr_loop 64 c st st 5 t found.

Definition scan_mbr (c s0 : Z -> Z) (t : table) : table * Z :=
  mbr_entry c s0 3 (mbr_entry c s0 2 (mbr_entry c s0 1 (mbr_entry c s0 0 (t, 0)))).

(** ** GPT *)

Definition GUID_BASIC_DATA : list Z := [0xA2;0xA0;0xD0;0xEB; 0xE5;0xB9; 0x33;0x44; 0x87;0xC0; 0x68;0xB6;0xB7;0x26;0x99;0xC7].
Definition GUID_EFI_SYS : list Z := [0x28;0x73;0x2A;0xC1; 0x1F;0xF8; 0xD2;0x11; 0xBA;0x4B; 0x00;0xA0;0xC9;0x3E;0xC9;0x3B].
Definition GUID_LINUX_FS : list Z := [0xAF;0x3D;0xC6;0x0F; 0x83;0x84; 0x72;0x47; 0x8E;0x79; 0x3D;0x69;0xD8;0x47;0x7D;0xE4].
Definition SIG : list Z := [0x45;0x46;0x49;0x20;0x50;0x41;0x52;0x54].          (* "EFI PART" *)

(** The bytes from [o] on are those of [l]. *)
Fixpoint bytes_eq (f : Z -> Z) (o : Z) (l : list Z) : bool :=
  match l with [] => true | b :: l' => (f o =? b) && bytes_eq f (o + 1) l' end.
Fixpoint put_bytes (f : Z -> Z) (o : Z) (l : list Z) : Z -> Z :=
  match l with [] => f | b :: l' => put_bytes (f⟦o ↦ b⟧) (o + 1) l' end.

Definition gpt_type (f : Z -> Z) (o : Z) : string :=
  if bytes_eq f o GUID_BASIC_DATA then "basic data" else if bytes_eq f o GUID_EFI_SYS then "EFI system"
  else if bytes_eq f o GUID_LINUX_FS then "Linux" else "GPT".

(** The entries, their number and size; or the error code. *)
Definition gpt_load (c : Z -> Z) (lba : Z) : (Z -> Z) * Z * Z + Z :=
  if d_count dv <=? lba then inr (-1) else
  match rd c lba 1 with
  | None => inr (-1)
  | Some hdr =>
      if negb (bytes_eq hdr 0 SIG) then inr (-2) else
      let hsz := le32 hdr 12 in
      if (hsz <? 92) || (SEC <? hsz) then inr (-3) else
      if negb (crc32 (put32 hdr 16 0) 0 hsz =? le32 hdr 16) then inr (-4) else
      let elba := le64 hdr 72 in
      let n := le32 hdr 80 in
      let esz := le32 hdr 84 in
      if (esz <? 128) || (1024 <? esz) || (n =? 0) || (1024 <? n) then inr (-5) else
      let bytes := u32 (n * esz) in
      if negb kmalloc_ok then inr (-6) else
      match rd c elba (u32 (bytes + SEC - 1) / SEC) with
      | None => inr (-7)
      | Some e => if negb (crc32 e 0 bytes =? le32 hdr 88) then inr (-8) else inl (e, n, esz)
      end
  end.

(** UTF-16LE, the ASCII part: at most [k] characters from [o] on. *)
Fixpoint gpt_label (k : nat) (f : Z -> Z) (o : Z) : list Z :=
  match k with
  | O => []
  | S k' =>
      let ch := Z.lor (f o) (Z.shiftl (f (o + 1)) 8) in
      if ch =? 0 then [] else (if (ch <? 0x80) && (0x20 <=? ch) then ch else 0x3F) :: gpt_label k' f (o + 2)
  end.

Definition gpt_entry (f : Z -> Z) (esz i : Z) (acc : table * Z) : table * Z :=
  let '(t, found) := acc in
  let o := i * esz in
  if bytes_eq f o (replicate 16 0) then (t, found) else
  let first := le64 f (o + 32) in
  let last := le64 f (o + 40) in
  if last <? first then (t, found) else
  let '(t, ok) := add_part t (i + 1) first (u64 (last - first + 1)) (gpt_type f o) (gpt_label 36 f (o + 56)) in
  (t, found + one ok).

(** [for (i = 0; i < n && i < 99; i++)] from entry [i] on. *)
Fixpoint gpt_entries (k : nat) (f : Z -> Z) (esz i : Z) (acc : table * Z) : table * Z :=
  match k with O => acc | S k' => gpt_entries k' f esz (i + 1) (gpt_entry f esz i acc) end.

Definition scan_gpt (c : Z -> Z) (t : table) : table * Z :=
  let go '(f, n, esz) := gpt_entries (Z.to_nat (Z.min n 99)) f esz 0 (t, 0) in
  match gpt_load c 1 with
  | inl g => go g
  | inr _ => match gpt_load c (d_count dv - 1) with inl g => go g | inr _ => (t, 0) end
  end.

(** [is_part]: the device is itself a partition. *)
Definition part_scan (is_part : bool) (c : Z -> Z) (t : table) : table * Z :=
  if is_part || negb (d_read dv) then (t, 0)
  else if negb (d_ssize dv =? SEC) || (d_count dv <? 64) || negb kmalloc_ok then (t, 0)
  else match rd c 0 1 with
       | None => (t, 0)
       | Some s0 =>
           if negb (s0 510 =? 0x55) || negb (s0 511 =? 0xAA) then (t, 0) else
           let fs := bytes_eq s0 3 [0x45; 0x58; 0x46; 0x41; 0x54] || bytes_eq s0 82 [0x46; 0x41; 0x54]
                     || bytes_eq s0 54 [0x46; 0x41; 0x54] in
           let prot := (s0 450 =? 0xEE) || (s0 466 =? 0xEE) || (s0 482 =? 0xEE) || (s0 498 =? 0xEE) in
           if prot then scan_gpt c t else if negb fs then scan_mbr c s0 t else (t, 0)
       end.

Definition part_forget (t : table) : table :=
  (fun o => match o with Some p => if p_disk p =? d_id dv then None else o | None => None end) <$> t.

(** ** Writing a table *)

(** [n] sectors of [b] to sector [lba]. *)
Definition put_sectors (c : Z -> Z) (lba n : Z) (b : Z -> Z) : Z -> Z :=
  fun a => if (lba * SEC <=? a) && (a <? (lba + n) * SEC) then b (a - lba * SEC) else c a.
Context (wr_ok : Z -> Z -> bool) (rnd32 : Z) (rnd_part rnd_disk : list Z).

Definition wr (c : Z -> Z) (lba n : Z) (b : Z -> Z) : option (Z -> Z) :=
  if wr_ok lba n then Some (put_sectors c lba n b) else None.

Definition start_lba : Z := 2048.
Definition fresh_buf : Z -> Z := fun _ => 0.

(** The MBR with one exFAT partition. *)
Definition mbr_image (total : Z) : Z -> Z :=
  let cnt := u64 (total - start_lba) in
  let cnt := if 0xFFFFFFFF <? cnt then 0xFFFFFFFF else cnt in
  let b := put_bytes fresh_buf 446 [0x00; 0xFE; 0xFF; 0xFF; 0x07; 0xFE; 0xFF; 0xFF] in
  let b := put32 (put32 b (446 + 8) start_lba) (446 + 12) (u32 cnt) in
  let b := put32 b 440 rnd32 in
  b⟦510 ↦ 0x55⟧⟦511 ↦ 0xAA⟧.

(** [g[7] = (g[7] & 0x0F) | 0x40; g[8] = (g[8] & 0x3F) | 0x80] *)
Definition v4_guid (f : Z -> Z) (o : Z) : Z -> Z :=
  let f := f⟦o + 7 ↦ u8 (Z.lor (Z.land (f (o + 7)) 0x0F) 0x40)⟧ in
  f⟦o + 8 ↦ u8 (Z.lor (Z.land (f (o + 8)) 0x3F) 0x80)⟧.

Definition last_usable (total : Z) : Z := total - 34.
Definition gpt_end (total : Z) : Z := (last_usable total + 1) / 2048 * 2048 - 1.
Definition DATA_NAME : list Z := [0x64;0;0x2D;0;0x6F;0;0x73;0;0x20;0;0x64;0;0x61;0;0x74;0;0x61].       (* "d-os data", UTF-16LE *)

(** The entry array, as a buffer of its own (32 sectors). *)
Definition gpt_ents (total : Z) : Z -> Z :=
  let e := put_bytes fresh_buf 0 GUID_BASIC_DATA in
  let e := v4_guid (put_bytes e 16 rnd_part) 16 in
  let e := put64 (put64 e 32 start_lba) 40 (gpt_end total) in
  put_bytes e 56 DATA_NAME.

Definition gpt_header (total : Z) : Z -> Z :=
  let h := put_bytes fresh_buf 0 SIG in
  let h := put32 (put32 h 8 0x00010000) 12 92 in
  let h := put64 (put64 h 24 1) 32 (total - 1) in
  let h := put64 (put64 h 40 34) 48 (last_usable total) in
  let h := v4_guid (put_bytes h 56 rnd_disk) 56 in
  let h := put32 (put32 (put64 h 72 2) 80 128) 84 128 in
  let h := put32 h 88 (crc32 (gpt_ents total) 0 (128 * 128)) in
  put32 h 16 (crc32 h 0 92).

Definition prot_mbr (total : Z) : Z -> Z :=
  let m := put_bytes fresh_buf 447 [0x00; 0x02; 0x00; 0xEE; 0xFF; 0xFF; 0xFF] in
  let m := put32 m (446 + 8) 1 in
  let m := put32 m (446 + 12) (if 0xFFFFFFFF <? total - 1 then 0xFFFFFFFF else u32 (total - 1)) in
  m⟦510 ↦ 0x55⟧⟦511 ↦ 0xAA⟧.

(** The 34 sectors written at the front: MBR, header, entries. *)
Definition gpt_image (total : Z) : Z -> Z :=
  fun a => if a <? SEC then prot_mbr total a
           else if a <? 2 * SEC then gpt_header total (a - SEC) else gpt_ents total (a - 2 * SEC).

Definition backup_header (total : Z) : Z -> Z :=
  let h := put64 (put64 (put64 (gpt_header total) 24 (total - 1)) 32 1) 72 (total - 33) in
  let h := put32 h 16 0 in put32 h 16 (crc32 h 0 92).

(** The contents after the writes that were made, and whether all succeeded (else -5). *)
Definition write_table (c : Z -> Z) (gpt : bool) : (Z -> Z) * bool :=
  let total := d_count dv in
  if negb gpt then match wr c 0 1 (mbr_image total) with Some c => (c, true) | None => (c, false) end
  else match wr c 0 34 (gpt_image total) with
       | None => (c, false)
       | Some c =>
           match wr c (total - 33) 32 (gpt_ents total) with
           | None => (c, false)
           | Some c =>
               match wr c (total - 1) 1 (backup_header total) with
               | None => (c, false)
               | Some c => (c, true)
               end
           end
       end.

(** [busy]: the disk or one of its partitions is mounted. *)
Definition part_create_one (is_part busy gpt : bool) (c : Z -> Z) (t : table) : (Z -> Z) * table * Z :=
  if is_part || negb (d_write dv) then (c, t, -1)
  else if negb (d_ssize dv =? SEC) || (d_count dv <? 8192) then (c, t, -3)
  else if busy then (c, t, -2)
  else if negb kmalloc_ok then (c, t, -4)
  else
    let '(c, ok) := write_table c gpt in
    if negb ok then (c, t, -5)
    else let '(t, n) := part_scan is_part c (part_forget t) in (c, t, if n =? 1 then 0 else -6).
End Scan.
End Partition.
