(* ===== verification/PartitionSpec.v ===== *)
(** * Partition tables: confinement and the round trip

    Whatever a disk holds, the partitions found lie inside it and their requests
    stay inside them; a table that was written is found again as one partition. *)

From stdpp Require Import base list strings.
From Stdlib Require Import ZArith Lia Bool.
From S2P Require Import Prelude Partition.
Import Partition.
Open Scope Z_scope.

Module PartitionSpec.

Definition byte (b : Z) : Prop := 0 <= b < 256.

(** ** Words in byte maps *)

Lemma le32_sum f o : byte (f o) -> byte (f (o + 1)) -> byte (f (o + 2)) -> byte (f (o + 3)) ->
  le32 f o = f o + 256 * f (o + 1) + 65536 * f (o + 2) + 16777216 * f (o + 3).
Proof.
  unfold byte, le32. intros H0 H1 H2 H3. rewrite (Z.lor_comm (f o)).
  rewrite (shl_or _ (f o) 8) by lia.
  rewrite (Z.lor_comm _ (Z.shiftl (f (o + 2)) 16)), shl_or by lia.
  rewrite (Z.lor_comm _ (Z.shiftl (f (o + 3)) 24)), shl_or by lia. lia.
Qed.

Lemma le32_range f o : (forall a, byte (f a)) -> 0 <= le32 f o < 2 ^ 32.
Proof.
  intros H. rewrite le32_sum by apply H. pose proof (H o). pose proof (H (o + 1)). pose proof (H (o + 2)).
  pose proof (H (o + 3)). unfold byte in *. lia.
Qed.

Lemma le64_sum f o : 0 <= le32 f o < 2 ^ 32 -> le64 f o = le32 f o + 4294967296 * le32 f (o + 4).
Proof. intros H. unfold le64. rewrite Z.lor_comm, shl_or by lia. lia. Qed.

Lemma le64_range f o : (forall a, byte (f a)) -> 0 <= le64 f o < 2 ^ 64.
Proof.
  intros H. pose proof (le32_range f o H). pose proof (le32_range f (o + 4) H). rewrite le64_sum by done. lia.
Qed.

Lemma le32_ext f g o : f o = g o -> f (o + 1) = g (o + 1) -> f (o + 2) = g (o + 2) -> f (o + 3) = g (o + 3) ->
  le32 f o = le32 g o.
Proof. unfold le32. by intros -> -> -> ->. Qed.

Lemma put32_out f o v a : a < o \/ o + 4 <= a -> put32 f o v a = f a.
Proof. intros H. unfold put32. rewrite !upd_other by lia. done. Qed.

Lemma put32_in f o v : put32 f o v o = u8 v /\ put32 f o v (o + 1) = u8 (Z.shiftr v 8) /\
  put32 f o v (o + 2) = u8 (Z.shiftr v 16) /\ put32 f o v (o + 3) = u8 (Z.shiftr v 24).
Proof.
  unfold put32. split_and!; rewrite ?upd_same; try done; repeat (rewrite upd_other by lia; rewrite ?upd_same; try done).
Qed.

Lemma le32_put32 f o v : 0 <= v < 2 ^ 32 -> le32 (put32 f o v) o = v.
Proof.
  intros Hv. destruct (put32_in f o v) as (E0 & E1 & E2 & E3).
  rewrite le32_sum by (rewrite ?E0, ?E1, ?E2, ?E3; apply u8_range). rewrite E0, E1, E2, E3. unfold u8.
  rewrite !Z.shiftr_div_pow2 by lia. change (2 ^ 8) with 256. change (2 ^ 16) with 65536. change (2 ^ 24) with 16777216.
  pose proof (Z.div_mod v 256 ltac:(lia)). pose proof (Z.div_mod (v / 256) 256 ltac:(lia)).
  pose proof (Z.div_mod (v / 65536) 256 ltac:(lia)).
  assert (v / 256 / 256 = v / 65536) as Ea by (rewrite Z.div_div by lia; done).
  assert (v / 65536 / 256 = v / 16777216) as Eb by (rewrite Z.div_div by lia; done).
  rewrite (Z.mod_small (v / 16777216)) by (split; [apply Z.div_pos; lia|apply Z.div_lt_upper_bound; lia]). lia.
Qed.

Lemma le32_put32_out f o v a : a + 4 <= o \/ o + 4 <= a -> le32 (put32 f o v) a = le32 f a.
Proof. intros H. apply le32_ext; apply put32_out; lia. Qed.

Lemma put64_out f o v a : a < o \/ o + 8 <= a -> put64 f o v a = f a.
Proof. intros H. unfold put64. rewrite !put32_out by lia. done. Qed.

Lemma le64_ext f g o : (forall k, 0 <= k < 8 -> f (o + k) = g (o + k)) -> le64 f o = le64 g o.
Proof.
  intros H. unfold le64. f_equal; [|f_equal].
  - apply le32_ext; [rewrite <- (Z.add_0_r o)|..]; apply H; lia.
  - apply le32_ext; rewrite <- ?Z.add_assoc; apply H; lia.
Qed.

Lemma le64_put64 f o v : 0 <= v < 2 ^ 64 -> le64 (put64 f o v) o = v.
Proof.
  intros Hv. unfold put64. set (g := put32 f o (u32 v)).
  assert (le32 (put32 g (o + 4) (u32 (Z.shiftr v 32))) o = u32 v) as E1.
  { rewrite le32_put32_out by lia. apply le32_put32. apply u32_range. }
  assert (le32 (put32 g (o + 4) (u32 (Z.shiftr v 32))) (o + 4) = u32 (Z.shiftr v 32)) as E2.
  { apply le32_put32. apply u32_range. }
  rewrite le64_sum by (rewrite E1; apply u32_range). rewrite E1, E2, Z.shiftr_div_pow2 by lia.
  change (2 ^ 32) with 4294967296. rewrite (u32_small (v / 4294967296)) by (split; [apply Z.div_pos; lia|apply Z.div_lt_upper_bound; lia]).
  unfold u32. pose proof (Z.div_mod v 4294967296 ltac:(lia)). lia.
Qed.

Lemma put_bytes_out f o l a : a < o \/ o + Z.of_nat (length l) <= a -> put_bytes f o l a = f a.
Proof.
  revert f o. induction l as [|b l IH]; intros f o H; [done|]. cbn [put_bytes length] in *.
  rewrite IH by lia. rewrite upd_other by lia. done.
Qed.

Lemma v4_guid_out f o a : a < o \/ o + 16 <= a -> v4_guid f o a = f a.
Proof. intros H. unfold v4_guid. rewrite !upd_other by lia. done. Qed.

Lemma bytes_eq_ext f g o l : (forall a, o <= a < o + Z.of_nat (length l) -> f a = g a) -> bytes_eq f o l = bytes_eq g o l.
Proof.
  revert o. induction l as [|b l IH]; intros o H; [done|]. cbn [bytes_eq length] in *. rewrite H by lia. f_equal.
  apply IH. intros a Ha. apply H. lia.
Qed.

Lemma crc_ext n f g o c : (forall a, o <= a < o + Z.of_nat n -> f a = g a) -> crc_bytes n f o c = crc_bytes n g o c.
Proof.
  revert o c. induction n as [|n IH]; intros o c H; [done|]. cbn [crc_bytes]. rewrite H by lia. apply IH. intros a Ha. apply H. lia.
Qed.

Lemma crc32_ext f g o n : 0 <= n -> (forall a, o <= a < o + n -> f a = g a) -> crc32 f o n = crc32 g o n.
Proof. intros Hn H. unfold crc32. rewrite (crc_ext _ f g); [done|]. intros a Ha. apply H. lia. Qed.

Lemma crc32_range f o n : 0 <= crc32 f o n < 2 ^ 32.
Proof. apply u32_range. Qed.

Lemma gpt_label_ext k f g o : (forall a, o <= a < o + 2 * Z.of_nat k -> f a = g a) -> gpt_label k f o = gpt_label k g o.
Proof.
  revert o. induction k as [|k IH]; intros o H; [done|]. cbn [gpt_label]. rewrite !H by lia.
  rewrite (IH (o + 2)) by (intros a Ha; apply H; lia). done.
Qed.

(** ** Confinement *)

Section Confine.
Context (dv : bdev) (rd_ok : Z -> Z -> bool) (reg : list Z -> bool) (kmalloc_ok : bool).

(** Partition [p] of this disk lies inside it. *)
Definition inside (p : part) : Prop := 0 <= p_start p /\ 0 < p_count p /\ p_start p + p_count p <= d_count dv.
Definition table_ok (t : table) : Prop := forall p, Some p ∈ t -> p_disk p = d_id dv -> inside p.
Definition used (t : table) : Z := Z.of_nat (length (filter (fun o => is_Some o) t)).

(** [t'] has [n] partitions more than [t], every one inside the disk. *)
Definition added (t : table) (n : Z) (t' : table) : Prop :=
  (table_ok t -> table_ok t') /\ used t' = used t + n /\ length t' = length t.

Lemma added_refl t : added t 0 t.
Proof. split_and!; [done|lia|done]. Qed.
Lemma added_trans t n t1 m t2 : added t n t1 -> added t1 m t2 -> added t (n + m) t2.
Proof. intros (A1 & A2 & A3) (B1 & B2 & B3). split_and!; [tauto|lia|congruence]. Qed.

Lemma take_slot_ok t p t' : take_slot t p = Some t' ->
  (forall q, Some q ∈ t' -> q = p \/ Some q ∈ t) /\ used t' = used t + 1 /\ length t' = length t.
Proof.
  revert t'. induction t as [|[q|] t IH]; intros t' E; cbn in E; [done| |].
  - destruct (take_slot t p) as [t1|]; [|done]. injection E as <-. destruct (IH t1 eq_refl) as (H1 & H2 & H3).
    unfold used in *. rewrite !filter_cons_True by done. cbn [length]. split_and!; [|lia|lia].
    intros x Hx. apply elem_of_cons in Hx as [->|Hx]; [right; left|]. destruct (H1 x Hx); [by left|right; by right].
  - injection E as <-. unfold used. rewrite filter_cons_True by done. rewrite filter_cons_False by (by intros [? ?]).
    cbn [length]. split_and!; [|lia|done]. intros x Hx. apply elem_of_cons in Hx as [[= ->]|Hx]; [by left|right; by right].
Qed.

Lemma add_part_ok t num start count type label : 0 <= start -> 0 <= count ->
  added t (one (add_part dv reg t num start count type label).2) (add_part dv reg t num start count type label).1.
Proof.
  intros Hs Hc. unfold add_part.
  destruct (Z.eqb_spec count 0); [apply added_refl|]. destruct (Z.leb_spec (d_count dv) start); [apply added_refl|].
  destruct (Z.ltb_spec (d_count dv - start) count); [apply added_refl|]. cbn [orb].
  destruct (take_slot t _) as [t'|] eqn:E; [|apply added_refl]. destruct (reg _); [|apply added_refl].
  destruct (take_slot_ok _ _ _ E) as (H1 & H2 & H3). split_and!; [|done|done].
  intros Ht p Hp Hd. destruct (H1 p Hp) as [->|Hq]; [|by apply Ht]. unfold inside. cbn. lia.
Qed.

Lemma added_step t t' n m m' r : added t n t' -> m' = m + n -> r = (t', m') -> exists k, r.2 = m + k /\ added t k r.1.
Proof. intros H -> ->. by exists n. Qed.

Section Contents.
Context (c : Z -> Z) (Hc : forall a, byte (c a)).

Lemma rd_bytes lba n b : rd rd_ok c lba n = Some b -> forall a, byte (b a).
Proof. unfold rd. destruct (rd_ok lba n); [|done]. intros [= <-] a. apply Hc. Qed.

Lemma ebr_loop_ok k ext ebr num t found : 0 <= ext -> 0 <= ebr ->
  exists n, (ebr_loop dv rd_ok reg k c ext ebr num t found).2 = found + n /\
            added t n (ebr_loop dv rd_ok reg k c ext ebr num t found).1.
Proof.
  revert ebr num t found. induction k as [|k IH]; intros ebr num t found He Hb; cbn [ebr_loop];
    [exists 0; cbn; split; [lia|apply added_refl]|].
  assert (exists n, (t, found).2 = found + n /\ added t n (t, found).1) as Hstay by (exists 0; cbn; split; [lia|apply added_refl]).
  destruct (Z.leb_spec (d_count dv) ebr); [done|]. destruct (rd rd_ok c ebr 1) as [b|] eqn:Er; [|done].
  pose proof (rd_bytes _ _ _ Er) as Hbb. destruct (_ || _); [done|].
  pose proof (le32_range b (446 + 8) Hbb). pose proof (le32_range b (446 + 12) Hbb). pose proof (le32_range b (462 + 8) Hbb).
  set (live := negb (b (446 + 4) =? 0) && negb (le32 b (446 + 12) =? 0)).
  set (r := if live then _ else (t, false)). assert (added t (one r.2) r.1) as Ha.
  { unfold r. destruct live; [apply add_part_ok; lia|apply added_refl]. }
  clearbody r. destruct r as [t1 ok]. cbn in Ha. destruct (_ || _).
  - exists (one ok). done.
  - destruct (IH (ext + le32 b (462 + 8)) (if live then num + 1 else num) t1 (found + one ok)) as (n & E & Hn); [lia|lia|].
    exists (one ok + n). split; [lia|]. by eapply added_trans.
Qed.

Lemma mbr_entry_ok s0 i t found : (forall a, byte (s0 a)) ->
  exists n, (mbr_entry dv rd_ok reg c s0 i (t, found)).2 = found + n /\ added t n (mbr_entry dv rd_ok reg c s0 i (t, found)).1.
Proof.
  intros Hs. unfold mbr_entry. pose proof (le32_range s0 (446 + i * 16 + 8) Hs). pose proof (le32_range s0 (446 + i * 16 + 12) Hs).
  destruct (_ || _); [exists 0; cbn; split; [lia|apply added_refl]|]. destruct (negb _).
  - pose proof (add_part_ok t (i + 1) (le32 s0 (446 + i * 16 + 8)) (le32 s0 (446 + i * 16 + 12)) (mbr_type (s0 (446 + i * 16 + 4))) []
      ltac:(lia) ltac:(lia)) as Ha. destruct (add_part _ _ _ _ _ _ _ _) as [t1 ok]. by exists (one ok).
  - apply ebr_loop_ok; lia.
Qed.

Lemma scan_mbr_ok s0 t : (forall a, byte (s0 a)) ->
  added t (scan_mbr dv rd_ok reg c s0 t).2 (scan_mbr dv rd_ok reg c s0 t).1.
Proof.
  intros Hs. unfold scan_mbr.
  destruct (mbr_entry_ok s0 0 t 0 Hs) as (n0 & E0 & A0). destruct (mbr_entry _ _ _ c s0 0 _) as [t0 f0]. cbn in E0, A0.
  destruct (mbr_entry_ok s0 1 t0 f0 Hs) as (n1 & E1 & A1). destruct (mbr_entry _ _ _ c s0 1 _) as [t1 f1]. cbn in E1, A1.
  destruct (mbr_entry_ok s0 2 t1 f1 Hs) as (n2 & E2 & A2). destruct (mbr_entry _ _ _ c s0 2 _) as [t2 f2]. cbn in E2, A2.
  destruct (mbr_entry_ok s0 3 t2 f2 Hs) as (n3 & E3 & A3). destruct (mbr_entry _ _ _ c s0 3 _) as [t3 f3]. cbn in E3, A3 |- *.
  replace f3 with (n0 + n1 + n2 + n3) by lia. eauto using added_trans.
Qed.

Lemma gpt_entries_ok k f esz i t found : (forall a, byte (f a)) ->
  exists n, (gpt_entries dv reg k f esz i (t, found)).2 = found + n /\ added t n (gpt_entries dv reg k f esz i (t, found)).1.
Proof.
  intros Hf. revert i t found. induction k as [|k IH]; intros i t found; cbn [gpt_entries];
    [exists 0; cbn; split; [lia|apply added_refl]|].
  assert (exists n, (gpt_entry dv reg f esz i (t, found)).2 = found + n /\ added t n (gpt_entry dv reg f esz i (t, found)).1) as (n & E & A).
  { unfold gpt_entry. destruct (bytes_eq _ _ _); [exists 0; cbn; split; [lia|apply added_refl]|].
    pose proof (le64_range f (i * esz + 32) Hf). destruct (_ <? _); [exists 0; cbn; split; [lia|apply added_refl]|].
    pose proof (add_part_ok t (i + 1) (le64 f (i * esz + 32)) (u64 (le64 f (i * esz + 40) - le64 f (i * esz + 32) + 1))
      (gpt_type f (i * esz)) (gpt_label 36 f (i * esz + 56)) ltac:(lia) ltac:(apply u64_range)) as Ha.
    destruct (add_part _ _ _ _ _ _ _ _) as [t1 ok]. by exists (one ok). }
  destruct (gpt_entry dv reg f esz i (t, found)) as [t1 f1]. cbn in E, A.
  destruct (IH (i + 1) t1 f1) as (m & E' & A'). exists (n + m). split; [lia|]. by eapply added_trans.
Qed.

Lemma gpt_load_bytes lba f n esz : gpt_load dv rd_ok kmalloc_ok c lba = inl (f, n, esz) -> forall a, byte (f a).
Proof.
  unfold gpt_load. destruct (_ <=? _); [done|]. destruct (rd rd_ok c lba 1) as [hdr|]; [|done].
  destruct (negb (bytes_eq _ _ _)); [done|]. destruct (_ || _); [done|]. destruct (negb (crc32 _ _ _ =? le32 hdr 16)); [done|].
  destruct (_ || _); [done|]. destruct (negb kmalloc_ok); [done|].
  destruct (rd rd_ok c (le64 hdr 72) _) as [e|] eqn:Er; [|done]. destruct (negb _); [done|]. intros [= <- <- <-].
  by eapply rd_bytes.
Qed.

Lemma scan_ok is_part t :
  let '(t', n) := part_scan dv rd_ok reg kmalloc_ok is_part c t in added t n t'.
Proof.
  unfold part_scan. destruct (_ || _); [apply added_refl|]. destruct (_ || _); [apply added_refl|].
  destruct (rd rd_ok c 0 1) as [s0|] eqn:Er; [|apply added_refl]. destruct (_ || _); [apply added_refl|].
  pose proof (rd_bytes _ _ _ Er) as Hs. destruct (_ || _ || _ || _).
  - unfold scan_gpt. assert (forall f n esz, (forall a, byte (f a)) ->
      let '(t', m) := gpt_entries dv reg (Z.to_nat (Z.min n 99)) f esz 0 (t, 0) in added t m t') as Hgo.
    { intros f n esz Hf. destruct (gpt_entries_ok (Z.to_nat (Z.min n 99)) f esz 0 t 0 Hf) as (m & E & A).
      destruct (gpt_entries _ _ _ _ _ _ _) as [t' m']. cbn in E, A. by subst m'. }
    destruct (gpt_load dv rd_ok kmalloc_ok c 1) as [[[f n] esz]|e1] eqn:E1; [by apply Hgo; eapply gpt_load_bytes|].
    destruct (gpt_load dv rd_ok kmalloc_ok c (d_count dv - 1)) as [[[f n] esz]|e2] eqn:E2; [by apply Hgo; eapply gpt_load_bytes|].
    apply added_refl.
  - destruct (negb _); [|apply added_refl]. pose proof (scan_mbr_ok s0 t Hs) as H. by destruct (scan_mbr _ _ _ _ _ _).
Qed.
End Contents.

(** C29: No disk, however damaged or hostile its tables, gets a partition that
    reaches outside it: scanning ends, keeps every partition inside the disk,
    counts what it found, and a partition passes on only requests for its own
    sectors. *)
Theorem part_scan_confined c is_part t : (forall a, byte (c a)) -> table_ok t -> d_count dv < 2 ^ 64 ->
  let '(t', n) := part_scan dv rd_ok reg kmalloc_ok is_part c t in
  table_ok t' /\ used t' = used t + n /\ length t' = length t /\
  (forall p lba count l k, Some p ∈ t' -> p_disk p = d_id dv -> 0 <= lba -> 0 <= count ->
     p_read p lba count = Some (l, k) \/ p_write_req p lba count = Some (l, k) ->
     k = count /\ p_start p <= l /\ l + k <= p_start p + p_count p /\ l + k <= d_count dv).
Proof.
  intros Hc Ht Hd. pose proof (scan_ok c Hc is_part t) as H. destruct (part_scan _ _ _ _ _ _ _) as [t' n].
  destruct H as (H1 & H2 & H3). split_and!; [by apply H1|done|done|]. intros p lba count l k Hp Hpd Hl Hcn Hr.
  destruct (H1 Ht p Hp Hpd) as (I1 & I2 & I3).
  assert (((p_count p <=? lba) || (p_count p - lba <? count) = false) /\ l = u64 (p_start p + lba) /\ k = count) as (Hg & -> & ->).
  { unfold p_read, p_write_req in Hr. destruct (_ || _); [destruct (negb _); naive_solver|]. destruct (negb _); naive_solver. }
  bool_props. rewrite u64_small by lia. lia.
Qed.
End Confine.

(** ** Writing and reading back *)

Section Create.
Context (dv : bdev) (rd_ok wr_ok : Z -> Z -> bool) (reg : list Z -> bool) (rnd32 : Z) (rnd_part rnd_disk : list Z).

(** A disk of 512-byte sectors that serves every request inside it. *)
Record good_disk : Prop := {
  gd_rw : d_read dv = true /\ d_write dv = true /\ d_ssize dv = SEC;
  gd_size : 8192 <= d_count dv < 2 ^ 63;
  gd_rd : forall lba n, 0 <= lba -> lba + n <= d_count dv -> rd_ok lba n = true;
  gd_wr : forall lba n, 0 <= lba -> lba + n <= d_count dv -> wr_ok lba n = true;
  gd_reg : forall n, reg n = true;
  gd_rnd : length rnd_part = 16%nat /\ length rnd_disk = 16%nat
}.
Hypothesis G : good_disk.

Local Notation total := (d_count dv).

Lemma add_one t num start count type label t' : 0 <= start -> 0 < count -> start + count <= total ->
  take_slot t (Part (d_id dv) start count num (part_name (d_name dv) num) type (take 39 label) (d_write dv)) = Some t' ->
  add_part dv reg t num start count type label = (t', true).
Proof.
  intros Hs Hc Hi E. unfold add_part. rewrite (proj2 (Z.eqb_neq count 0)) by lia.
  rewrite (proj2 (Z.leb_gt _ start)), (proj2 (Z.ltb_ge _ count)) by lia. cbn [orb]. rewrite E. by rewrite (gd_reg G).
Qed.

Lemma free_slot t : None ∈ t -> forall p, exists t', take_slot t p = Some t'.
Proof.
  intros H p. induction t as [|[q|] t IH]; [by apply not_elem_of_nil in H| |by eexists].
  apply elem_of_cons in H as [H|H]; [done|]. destruct (IH H) as [t' E]. cbn. rewrite E. by eexists.
Qed.

Lemma rd_in c lba n : 0 <= lba -> lba + n <= total -> rd rd_ok c lba n = Some (fun i => c (lba * SEC + i)).
Proof. intros H1 H2. unfold rd. by rewrite (gd_rd G). Qed.
Lemma wr_in c lba n b : 0 <= lba -> lba + n <= total -> wr wr_ok c lba n b = Some (put_sectors c lba n b).
Proof. intros H1 H2. unfold wr. by rewrite (gd_wr G). Qed.

(** *** MBR *)

Definition mbr_count : Z := Z.min (total - 2048) 0xFFFFFFFF.

Lemma mbr_cnt : le32 (mbr_image rnd32 total) 458 = mbr_count /\ le32 (mbr_image rnd32 total) 454 = 2048.
Proof.
  destruct (gd_size G). unfold mbr_image. rewrite u64_small by (unfold start_lba; lia). unfold start_lba.
  set (cnt := if 0xFFFFFFFF <? total - 2048 then 0xFFFFFFFF else total - 2048).
  assert (cnt = mbr_count) as -> by (unfold cnt, mbr_count; destruct (Z.ltb_spec 0xFFFFFFFF (total - 2048)); lia).
  assert (0 <= mbr_count < 2 ^ 32) as Hm by (unfold mbr_count; lia). rewrite (u32_small mbr_count) by lia.
  set (b := put_bytes _ _ _). split.
  - rewrite <- (le32_put32 (put32 b 454 2048) 458 mbr_count Hm) at 2.
    apply le32_ext; rewrite !upd_other by lia; apply put32_out; lia.
  - rewrite <- (le32_put32 b 454 2048) at 2 by lia.
    apply le32_ext; rewrite !upd_other by lia; rewrite put32_out by lia; apply put32_out; lia.
Qed.

Lemma mbr_entries c s0 t : (forall a, 0 <= a < 512 -> s0 a = mbr_image rnd32 total a) -> None ∈ t ->
  exists t' p, scan_mbr dv rd_ok reg c s0 t = (t', 1) /\ take_slot t p = Some t' /\
    p_disk p = d_id dv /\ p_start p = 2048 /\ p_count p = mbr_count /\ p_num p = 1.
Proof.
  intros Hs Ht. destruct (gd_size G). destruct mbr_cnt as [Ec Est].
  assert (le32 s0 458 = mbr_count) as Ec' by (rewrite <- Ec; apply le32_ext; apply Hs; lia).
  assert (le32 s0 454 = 2048) as Est' by (rewrite <- Est; apply le32_ext; apply Hs; lia).
  assert (0 < mbr_count /\ 2048 + mbr_count <= total) as [Hm1 Hm2] by (unfold mbr_count; lia).
  destruct (free_slot t Ht (Part (d_id dv) 2048 mbr_count 1 (part_name (d_name dv) 1) "exFAT/NTFS" (take 39 []) (d_write dv))) as [t' E].
  exists t', (Part (d_id dv) 2048 mbr_count 1 (part_name (d_name dv) 1) "exFAT/NTFS" (take 39 []) (d_write dv)).
  split; [|done]. unfold scan_mbr.
  assert (mbr_entry dv rd_ok reg c s0 0 (t, 0) = (t', 1)) as ->.
  { unfold mbr_entry. change (446 + 0 * 16 + 8) with 454. change (446 + 0 * 16 + 12) with 458.
    change (446 + 0 * 16 + 4) with 450. rewrite Est', Ec', (Hs 450) by lia.
    change (mbr_image rnd32 total 450) with 7. rewrite (proj2 (Z.eqb_neq mbr_count 0)) by lia. cbn [Z.eqb orb is_extended negb Pos.eqb].
    change (mbr_type 7) with "exFAT/NTFS". change (0 + 1) with 1.
    rewrite (add_one t 1 2048 mbr_count "exFAT/NTFS" [] t') by (done || lia). done. }
  assert (forall i acc, i = 1 \/ i = 2 \/ i = 3 -> mbr_entry dv rd_ok reg c s0 i acc = acc) as Hskip.
  { intros i [t1 f1] Hi. unfold mbr_entry. rewrite (Hs (446 + i * 16 + 4)) by lia.
    assert (mbr_image rnd32 total (446 + i * 16 + 4) = 0) as -> by (destruct Hi as [->|[->| ->]]; reflexivity). done. }
  rewrite !Hskip by lia. done.
Qed.

(** *** GPT *)

(** Reading past the writes that are elsewhere. *)
Ltac elsewhere := repeat first
  [ rewrite put32_out by lia | rewrite put64_out by lia | rewrite v4_guid_out by lia
  | rewrite upd_other by lia | rewrite put_bytes_out by (cbn [length GUID_BASIC_DATA DATA_NAME SIG]; lia) ].

Local Notation ents := (gpt_ents rnd_part total).
Local Notation header := (gpt_header rnd_part rnd_disk total).

Lemma gpt_end_range : 2048 <= gpt_end total < total - 33.
Proof.
  destruct (gd_size G). unfold gpt_end, last_usable. pose proof (Z.div_mod (total - 34 + 1) 2048 ltac:(lia)).
  pose proof (Z.mod_pos_bound (total - 34 + 1) 2048 ltac:(lia)). lia.
Qed.

Lemma ents_zero a : 73 <= a -> ents a = 0.
Proof. intros Ha. destruct (gd_rnd G) as [Hp _]. unfold gpt_ents. elsewhere. done. Qed.

Lemma ents_first : le64 ents 32 = 2048.
Proof.
  unfold gpt_ents, start_lba. set (e := v4_guid _ _).
  transitivity (le64 (put64 e 32 2048) 32); [|apply le64_put64; lia].
  apply le64_ext. intros k Hk. elsewhere. done.
Qed.

Lemma ents_last : le64 ents 40 = gpt_end total.
Proof.
  pose proof gpt_end_range. destruct (gd_size G). unfold gpt_ents. set (e := put64 (v4_guid _ _) 32 start_lba).
  transitivity (le64 (put64 e 40 (gpt_end total)) 40); [|apply le64_put64; lia].
  apply le64_ext. intros k Hk. elsewhere. done.
Qed.

Lemma ents_head : bytes_eq ents 0 (replicate 16 0) = false /\ ents 0 = 0xA2.
Proof.
  destruct (gd_rnd G) as [Hp _]. assert (ents 0 = 0xA2) as E by (unfold gpt_ents; elsewhere; reflexivity).
  split; [|done]. cbn [replicate bytes_eq]. by rewrite E.
Qed.

(** The header before its checksum is put in. *)
Definition unsummed : Z -> Z :=
  let h := put_bytes fresh_buf 0 SIG in
  let h := put32 (put32 h 8 0x00010000) 12 92 in
  let h := put64 (put64 h 24 1) 32 (total - 1) in
  let h := put64 (put64 h 40 34) 48 (last_usable total) in
  let h := v4_guid (put_bytes h 56 rnd_disk) 56 in
  let h := put32 (put32 (put64 h 72 2) 80 128) 84 128 in
  put32 h 88 (crc32 ents 0 (128 * 128)).

Lemma header_eq : header = put32 unsummed 16 (crc32 unsummed 0 92).
Proof. done. Qed.

Lemma header_sum g : (forall a, 0 <= a < 512 -> g a = header a) -> crc32 (put32 g 16 0) 0 92 = le32 g 16.
Proof.
  intros Hg. transitivity (crc32 unsummed 0 92).
  - apply crc32_ext; [lia|]. intros a Ha. destruct (decide (16 <= a < 20)) as [Hin|Hout].
    + destruct (put32_in g 16 0) as (E0 & E1 & E2 & E3). destruct (gd_rnd G) as [_ Hd].
      assert (unsummed a = 0) as -> by (unfold unsummed; elsewhere; done).
      assert (a = 16 \/ a = 16 + 1 \/ a = 16 + 2 \/ a = 16 + 3) as [->|[->|[->| ->]]] by lia; rewrite ?E0, ?E1, ?E2, ?E3; done.
    + rewrite put32_out, Hg, header_eq, put32_out by lia. done.
  - rewrite <- (le32_put32 unsummed 16 (crc32 unsummed 0 92)) at 1 by apply crc32_range. rewrite <- header_eq.
    symmetry. apply le32_ext; apply Hg; lia.
Qed.

Lemma header_fields g : (forall a, 0 <= a < 512 -> g a = header a) ->
  bytes_eq g 0 SIG = true /\ le32 g 12 = 92 /\ le64 g 72 = 2 /\ le32 g 80 = 128 /\ le32 g 84 = 128 /\
  le32 g 88 = crc32 ents 0 16384.
Proof.
  intros Hg. destruct (gd_rnd G) as [_ Hd]. split_and!.
  - rewrite (bytes_eq_ext g (put_bytes fresh_buf 0 SIG)); [reflexivity|]. intros a Ha. cbn in Ha. rewrite Hg by lia.
    unfold gpt_header. repeat first [rewrite put32_out by lia | rewrite put64_out by lia | rewrite v4_guid_out by lia
      | rewrite (put_bytes_out _ 56) by lia]. done.
  - rewrite <- (le32_put32 (put32 (put_bytes fresh_buf 0 SIG) 8 0x00010000) 12 92) by lia.
    apply le32_ext; rewrite Hg by lia; unfold gpt_header;
      repeat first [rewrite (put32_out _ 16) by lia | rewrite (put32_out _ 88) by lia | rewrite (put32_out _ 84) by lia
        | rewrite (put32_out _ 80) by lia | rewrite put64_out by lia | rewrite v4_guid_out by lia | rewrite (put_bytes_out _ 56) by lia]; done.
  - set (h := v4_guid (put_bytes (put64 (put64 (put64 (put64 (put32 (put32 (put_bytes fresh_buf 0 SIG) 8 0x00010000) 12 92)
      24 1) 32 (total - 1)) 40 34) 48 (last_usable total)) 56 rnd_disk) 56).
    rewrite <- (le64_put64 h 72 2) by lia. apply le64_ext. intros k Hk. rewrite Hg by lia. unfold gpt_header. fold h.
    rewrite !put32_out by lia. done.
  - set (h := put64 (v4_guid (put_bytes (put64 (put64 (put64 (put64 (put32 (put32 (put_bytes fresh_buf 0 SIG) 8 0x00010000) 12 92)
      24 1) 32 (total - 1)) 40 34) 48 (last_usable total)) 56 rnd_disk) 56) 72 2).
    rewrite <- (le32_put32 h 80 128) by lia. apply le32_ext; rewrite Hg by lia; unfold gpt_header; fold h;
      rewrite (put32_out _ 16), (put32_out _ 88), (put32_out _ 84) by lia; done.
  - set (h := put32 (put64 (v4_guid (put_bytes (put64 (put64 (put64 (put64 (put32 (put32 (put_bytes fresh_buf 0 SIG) 8 0x00010000) 12 92)
      24 1) 32 (total - 1)) 40 34) 48 (last_usable total)) 56 rnd_disk) 56) 72 2) 80 128).
    rewrite <- (le32_put32 h 84 128) by lia. apply le32_ext; rewrite Hg by lia; unfold gpt_header; fold h;
      rewrite (put32_out _ 16), (put32_out _ 88) by lia; done.
  - transitivity (le32 unsummed 88).
    + apply le32_ext; rewrite Hg, header_eq by lia; apply put32_out; lia.
    + unfold unsummed. cbv zeta. apply le32_put32, crc32_range.
Qed.

Lemma load_gpt c : (forall a, 0 <= a < 34 * 512 -> c a = gpt_image rnd_part rnd_disk total a) ->
  gpt_load dv rd_ok true c 1 = inl (fun i => c (2 * SEC + i), 128, 128).
Proof.
  intros Hc. destruct (gd_size G). unfold gpt_load. rewrite (proj2 (Z.leb_gt total 1)), rd_in by lia.
  set (hdr := fun i => c (1 * SEC + i)).
  assert (forall a, 0 <= a < 512 -> hdr a = header a) as Hh.
  { intros a Ha. unfold hdr, SEC. rewrite Hc by lia. unfold gpt_image, SEC. rewrite (proj2 (Z.ltb_ge _ _)), (proj2 (Z.ltb_lt _ _)) by lia. f_equal. lia. }
  destruct (header_fields hdr Hh) as (F1 & F2 & F3 & F4 & F5 & F6). pose proof (header_sum hdr Hh) as F7.
  rewrite F1, F2, F7, Z.eqb_refl, F3, F4, F5. cbn [negb orb]. change (_ || _) with false. cbv beta iota zeta. cbn [Z.ltb Z.compare orb Z.eqb].
  change (_ || _ || _ || _) with false. cbv iota. change (u32 (128 * 128)) with 16384. change (u32 (16384 + SEC - 1) / SEC) with 32.
  rewrite rd_in by lia. rewrite F6, (crc32_ext (fun i => c (2 * SEC + i)) ents 0 16384), Z.eqb_refl; [done|lia|].
  intros a Ha. unfold SEC. rewrite Hc by lia. unfold gpt_image, SEC. rewrite !(proj2 (Z.ltb_ge _ _)) by lia. f_equal. lia.
Qed.

Lemma gpt_rest k f i acc : (forall a, 128 <= a < 16384 -> f a = 0) -> 1 <= i -> i + Z.of_nat k <= 128 ->
  gpt_entries dv reg k f 128 i acc = acc.
Proof.
  intros Hf. revert i acc. induction k as [|k IH]; intros i acc Hi Hk; [done|]. cbn [gpt_entries]. rewrite IH by lia.
  unfold gpt_entry. destruct acc as [t found]. rewrite (bytes_eq_ext f (fun _ => 0)); [done|].
  intros a Ha. rewrite length_replicate in Ha. apply Hf. lia.
Qed.

Lemma gpt_scan c t : (forall a, 0 <= a < 34 * 512 -> c a = gpt_image rnd_part rnd_disk total a) -> None ∈ t ->
  exists t' p, scan_gpt dv rd_ok reg true c t = (t', 1) /\ take_slot t p = Some t' /\
    p_disk p = d_id dv /\ p_start p = 2048 /\ p_count p = gpt_end total - 2047 /\ p_num p = 1.
Proof.
  intros Hc Ht. destruct (gd_size G). pose proof gpt_end_range. unfold scan_gpt. rewrite load_gpt by done.
  set (f := fun i => c (2 * SEC + i)). change (Z.to_nat (Z.min 128 99)) with 99%nat.
  assert (forall a, 0 <= a < 16384 -> f a = ents a) as Hf.
  { intros a Ha. unfold f, SEC. rewrite Hc by lia. unfold gpt_image, SEC. rewrite !(proj2 (Z.ltb_ge _ _)) by lia. f_equal. lia. }
  cbn [gpt_entries]. set (label := gpt_label 36 f (0 * 128 + 56)).
  set (p := Part (d_id dv) 2048 (gpt_end total - 2047) 1 (part_name (d_name dv) 1) (gpt_type f (0 * 128)) (take 39 label) (d_write dv)).
  destruct (free_slot t Ht p) as [t' E]. exists t', p. split; [|done].
  assert (gpt_entry dv reg f 128 0 (t, 0) = (t', 1)) as ->.
  { unfold gpt_entry. fold label. rewrite (bytes_eq_ext f ents) by (rewrite length_replicate; intros a Ha; apply Hf; lia).
    change (bytes_eq ents (0 * 128) (replicate 16 0)) with (bytes_eq ents 0 (replicate 16 0)).
    rewrite (proj1 ents_head), (le64_ext f ents (0 * 128 + 32)), (le64_ext f ents (0 * 128 + 40)) by (intros k Hk; apply Hf; lia).
    change (0 * 128 + 32) with 32. change (0 * 128 + 40) with 40. rewrite ents_first, ents_last.
    rewrite (proj2 (Z.ltb_ge _ 2048)) by lia. rewrite u64_small by lia. replace (gpt_end total - 2048 + 1) with (gpt_end total - 2047) by lia.
    change (0 + 1) with 1. rewrite (add_one t 1 2048 (gpt_end total - 2047) (gpt_type f (0 * 128)) label t') by (done || lia). done. }
  change (gpt_entries dv reg 98 f 128 (0 + 1) (t', 1) = (t', 1)). apply gpt_rest; [|lia|lia].
  intros a Ha. rewrite Hf by lia. apply ents_zero. lia.
Qed.

Lemma scan_front is_gpt c t : (forall a, 0 <= a < 512 -> c a = if is_gpt : bool then gpt_image rnd_part rnd_disk total a else mbr_image rnd32 total a) ->
  part_scan dv rd_ok reg true false c t =
  if is_gpt then scan_gpt dv rd_ok reg true c t else scan_mbr dv rd_ok reg c (fun i => c (0 * SEC + i)) t.
Proof.
  intros Hc. destruct (gd_rw G) as (Hr & _ & Hs). destruct (gd_size G). unfold part_scan. rewrite Hr, Hs, (proj2 (Z.ltb_ge total 64)), rd_in by lia.
  set (s0 := fun i => c (0 * SEC + i)).
  assert (forall a, 0 <= a < 512 -> s0 a = if is_gpt then gpt_image rnd_part rnd_disk total a else mbr_image rnd32 total a) as Hs0
    by (intros a Ha; apply Hc; lia).
  clearbody s0. change (SEC =? SEC) with true. cbn [negb orb].
  rewrite (Hc (0 * SEC + 510)), (Hc (0 * SEC + 511)), (Hc (0 * SEC + 450)), (Hc (0 * SEC + 466)), (Hc (0 * SEC + 482)),
    (Hc (0 * SEC + 498)) by (unfold SEC; lia). destruct is_gpt; [done|].
  rewrite (bytes_eq_ext s0 (mbr_image rnd32 total) 3), (bytes_eq_ext s0 (mbr_image rnd32 total) 82), (bytes_eq_ext s0 (mbr_image rnd32 total) 54)
    by (cbn [length]; intros; apply Hs0; lia). done.
Qed.

End Create.

(** ** Examples *)

Definition demo_disk : bdev := Bdev 1 [0x68; 0x64; 0x61] 512 8192 true true.
Definition serves (l n : Z) : bool := l + n <=? 8192.

Lemma demo_good : good_disk demo_disk serves serves (fun _ => true) (replicate 16 7) (replicate 16 9).
Proof. split; try done; intros lba n _ H; unfold serves; apply Z.leb_le; cbn in H; lia. Qed.


(** A disk of 0xFF bytes: no table, no partition, nothing outside. *)
Lemma part_scan_confined_witness :
  table_ok demo_disk (part_scan demo_disk serves (fun _ => true) true false (fun _ => 0xFF) parts0).1.
Proof.
  pose proof (part_scan_confined demo_disk serves (fun _ => true) true (fun _ => 0xFF) false parts0
    ltac:(unfold byte; lia) ltac:(intros p Hp; apply elem_of_replicate in Hp as [[=] _]) ltac:(cbn; lia)) as H.
  destruct (part_scan _ _ _ _ _ _ _) as [t' n]. apply H.
Defined.
End PartitionSpec.
