(* ===== verification/Cred.v ===== *)
(** * Task identity and capabilities (kernel/core/cred.c)

    The identity a task runs under, the one inheritance route ([cred_inherit],
    called by [spawn_common] of task.c), the one sanctioned transition
    ([cred_become_user]), the predicates every privilege gate asks, and the
    Linux capability sets, stored as what was dropped (cred.h).  The calls
    that write a task's identity from the guest side ([h_setgroups],
    [h_capset] and the capability options of [h_prctl] in abi_engine.c) and
    [execve]'s transformation complete the list of writers.

    The machine is the list of tasks and every writer one step, so the audit
    of the running machine ([au_identity]) and the fate of a dropped
    capability are statements about every reachable state. *)

From stdpp Require Import base list relations.
From Stdlib Require Import ZArith Lia Bool.
From S2P Require Import Prelude.
Open Scope Z_scope.

Module Cred.

Definition TASK_OWNER_KERNEL : Z := 0.
Definition TASK_OWNER_SYSTEM : Z := 1.
Definition TASK_OWNER_USER : Z := 2.
Definition CRED_MAX_GROUPS : nat := 8.
Definition CRED_UID_ROOT : Z := 0.
Definition CRED_GID_ADMIN : Z := 1.
Definition CRED_UID_NONE : Z := -1.
Definition CRED_SESSION_NONE : Z := 0.
Definition CAP_SETGID_ : Z := 6.
Definition CAP_SETPCAP_ : Z := 8.
Definition CAP_LAST_CAP_ : Z := 40.
Definition CAP_FULL_SET_ : Z := Z.shiftl 1 (CAP_LAST_CAP_ + 1) - 1.

(** [root] is the dentry's address (0 for NULL); [groups], [cwd] and [exe]
    are the whole arrays. *)
Record cred := Cr {
  owner : Z; uid : Z; gid : Z; ngroups : Z; groups : list Z; session : Z;
  root : Z; container : Z; cwd : list Z; exe : list Z; umask_plus1 : Z;
  cap_eff_drop : Z; cap_prm_drop : Z; cap_bnd_drop : Z; cap_inh : Z; cap_amb : Z;
  cap_keep : Z; no_new_privs : Z; groups_explicit : Z }.

(** The part of a task the identity code reads and writes. *)
Record task := Tk {
  pid : Z; ppid : Z; is_idle : bool; tcred : cred;
  cred_seq : Z; owner_birth : Z; uid_birth : Z }.

(** ** Construction and inheritance *)

(** Writes the fields of [c] it names and leaves the others as they are. *)
Definition cred_init_kernel (c : cred) : cred :=
  {| owner := TASK_OWNER_KERNEL; uid := CRED_UID_NONE; gid := CRED_UID_NONE;
     ngroups := 0; groups := replicate CRED_MAX_GROUPS CRED_UID_NONE;
     session := CRED_SESSION_NONE; root := 0; container := 0; cwd := <[0%nat := 0]> (cwd c);
     exe := exe c; umask_plus1 := umask_plus1 c;
     cap_eff_drop := cap_eff_drop c; cap_prm_drop := cap_prm_drop c;
     cap_bnd_drop := cap_bnd_drop c; cap_inh := cap_inh c; cap_amb := cap_amb c;
     cap_keep := cap_keep c; no_new_privs := no_new_privs c; groups_explicit := groups_explicit c |}.

Definition set_identity (c : cred) (o u g n s : Z) : cred :=
  {| owner := o; uid := u; gid := g; ngroups := n; groups := groups c; session := s;
     root := root c; container := container c; cwd := cwd c; exe := exe c;
     umask_plus1 := umask_plus1 c; cap_eff_drop := cap_eff_drop c;
     cap_prm_drop := cap_prm_drop c; cap_bnd_drop := cap_bnd_drop c;
     cap_inh := cap_inh c; cap_amb := cap_amb c; cap_keep := cap_keep c;
     no_new_privs := no_new_privs c; groups_explicit := groups_explicit c |}.

(** [child] is what the target holds before the call (a zeroed task). *)
Definition cred_inherit (child : cred) (parent : option cred) : cred :=
  match parent with
  | None => cred_init_kernel child
  | Some p =>
      if owner p =? TASK_OWNER_KERNEL
      then set_identity p TASK_OWNER_SYSTEM CRED_UID_NONE CRED_UID_NONE 0 CRED_SESSION_NONE
      else p
  end.

(** [kcalloc]'s zero. *)
Definition cred_zero : cred :=
  {| owner := 0; uid := 0; gid := 0; ngroups := 0; groups := replicate 8 0; session := 0;
     root := 0; container := 0; cwd := replicate 256 0; exe := replicate 128 0;
     umask_plus1 := 0; cap_eff_drop := 0; cap_prm_drop := 0; cap_bnd_drop := 0;
     cap_inh := 0; cap_amb := 0; cap_keep := 0; no_new_privs := 0; groups_explicit := 0 |}.

(** The identity part of [spawn_common]: [np] is the pid it allocates and
    [pp] the parent it records, which an override may point anywhere. *)
Definition spawn_identity (cur : option task) (np pp : Z) : task :=
  let c := cred_inherit cred_zero (tcred <$> cur) in
  {| pid := np; ppid := pp; is_idle := false; tcred := c;
     cred_seq := 0; owner_birth := owner c; uid_birth := uid c |}.

Definition count_children (p : Z) (ts : list task) : Z :=
  foldl (fun n t => if (ppid t =? p) && negb (pid t =? p) then n + 1 else n) 0 ts.

(** [for (i = 0; i < ngroups && groups; i++)], stopping at the limit: the
    entries written and how many. *)
Fixpoint fill_groups (dst : list Z) (n : nat) (gs : list Z) : list Z * nat :=
  match gs with
  | [] => (dst, n)
  | g :: gs' => if (CRED_MAX_GROUPS <=? n)%nat then (dst, n) else fill_groups (<[n := g]> dst) (S n) gs'
  end.

Definition task_find (ts : list task) (p : Z) : option (nat * task) :=
  list_find (fun t => pid t = p) ts.

Definition set_tcred (t : task) (c : cred) : task :=
  {| pid := pid t; ppid := ppid t; is_idle := is_idle t; tcred := c;
     cred_seq := cred_seq t; owner_birth := owner_birth t; uid_birth := uid_birth t |}.

Definition bump_seq (t : task) : task :=
  {| pid := pid t; ppid := ppid t; is_idle := is_idle t; tcred := tcred t;
     cred_seq := u32 (cred_seq t + 1); owner_birth := owner_birth t; uid_birth := uid_birth t |}.

(** [junk] is what the stack held where the local [nc] is declared; [gs] are
    the [ngroups] entries of [groups], [None] for NULL. *)
Definition user_cred (junk tc : cred) (u g : Z) (gs : option (list Z)) (sess : Z) : cred :=
  let nc := cred_init_kernel junk in
  let '(grp, n) := fill_groups (groups nc) 0 (default [] gs) in
  {| owner := TASK_OWNER_USER; uid := u; gid := g; ngroups := Z.of_nat n; groups := grp;
     session := sess; root := root tc; container := container tc; cwd := cwd tc;
     exe := exe nc; umask_plus1 := umask_plus1 nc; cap_eff_drop := cap_eff_drop nc;
     cap_prm_drop := cap_prm_drop nc; cap_bnd_drop := cap_bnd_drop nc;
     cap_inh := cap_inh nc; cap_amb := cap_amb nc; cap_keep := cap_keep nc;
     no_new_privs := no_new_privs nc; groups_explicit := groups_explicit nc |}.

Definition cred_become_user (junk : cred) (ts : list task) (p u g : Z) (gs : option (list Z)) (sess : Z)
  : Z * list task :=
  match task_find ts p with
  | None => (-1, ts)
  | Some (i, t) =>
      if negb (cred_seq t =? 0) then (-1, ts)
      else if negb (count_children p ts =? 0) then (-1, ts)
      else if sess =? CRED_SESSION_NONE then (-1, ts)
      else (0, <[i := bump_seq (set_tcred t (user_cred junk (tcred t) u g gs sess))]> ts)
  end.

(** ** Predicates *)

Definition cred_uid (c : cred) : Z := if negb (owner c =? TASK_OWNER_USER) then CRED_UID_NONE else uid c.
Definition cred_gid (c : cred) : Z := if negb (owner c =? TASK_OWNER_USER) then CRED_UID_NONE else gid c.

Definition cred_in_group (c : cred) (g : Z) : bool :=
  if negb (owner c =? TASK_OWNER_USER) then false
  else if gid c =? g then true
  else existsb (fun x => x =? g) (take (Nat.min (Z.to_nat (ngroups c)) CRED_MAX_GROUPS) (groups c)).

Definition cred_is_root (c : cred) : bool := cred_uid c =? CRED_UID_ROOT.

Definition cred_is_admin (c : cred) : bool :=
  if negb (owner c =? TASK_OWNER_USER) then true
  else if uid c =? CRED_UID_ROOT then true
  else cred_in_group c CRED_GID_ADMIN.

Definition cred_may_act_on_uid (c : cred) (u : Z) : bool :=
  if negb (owner c =? TASK_OWNER_USER) then true
  else if cred_is_admin c then true
  else uid c =? u.

(** ** Capabilities; [x & ~y] is [Z.ldiff x y] *)

Definition cred_cap_bounding (c : cred) : Z := Z.ldiff CAP_FULL_SET_ (cap_bnd_drop c).
Definition cred_cap_permitted (c : cred) : Z :=
  if negb (cred_is_admin c) then 0 else Z.ldiff CAP_FULL_SET_ (cap_prm_drop c).
Definition cred_cap_effective (c : cred) : Z :=
  if negb (cred_is_admin c) then 0 else Z.ldiff (Z.ldiff CAP_FULL_SET_ (cap_eff_drop c)) (cap_prm_drop c).
Definition cred_capable (c : cred) (cap : Z) : bool :=
  if (cap <? 0) || (CAP_LAST_CAP_ <? cap) then false
  else negb (Z.land (Z.shiftr (cred_cap_effective c) cap) 1 =? 0).

Definition set_caps (c : cred) (e p b i a : Z) : cred :=
  {| owner := owner c; uid := uid c; gid := gid c; ngroups := ngroups c; groups := groups c;
     session := session c; root := root c; container := container c; cwd := cwd c; exe := exe c;
     umask_plus1 := umask_plus1 c; cap_eff_drop := e; cap_prm_drop := p; cap_bnd_drop := b;
     cap_inh := i; cap_amb := a; cap_keep := cap_keep c; no_new_privs := no_new_privs c;
     groups_explicit := groups_explicit c |}.

Definition cred_exec_caps (c : cred) : cred :=
  if negb (cred_is_admin c) then c
  else
    let p := Z.land (Z.lor (cap_inh c) (cred_cap_bounding c)) CAP_FULL_SET_ in
    set_caps c 0 (Z.ldiff CAP_FULL_SET_ p) (cap_bnd_drop c) (cap_inh c) 0.

(** ** The guest calls that write an identity *)

Definition ABI_EPERM : Z := 1.
Definition ABI_EINVAL : Z := 22.

Definition set_groups (c : cred) (gs : list Z) : cred :=
  {| owner := owner c; uid := uid c; gid := gid c; ngroups := Z.of_nat (length gs);
     groups := gs ++ drop (length gs) (groups c);
     session := session c; root := root c; container := container c; cwd := cwd c; exe := exe c;
     umask_plus1 := umask_plus1 c; cap_eff_drop := cap_eff_drop c; cap_prm_drop := cap_prm_drop c;
     cap_bnd_drop := cap_bnd_drop c; cap_inh := cap_inh c; cap_amb := cap_amb c;
     cap_keep := cap_keep c; no_new_privs := no_new_privs c; groups_explicit := 1 |}.

(** [gs] is the user's array, [None] when it is not readable; [n] the count. *)
Definition h_setgroups (c : cred) (n : Z) (gs : option (list Z)) : Z * cred :=
  if (n <? 0) || (Z.of_nat CRED_MAX_GROUPS <? n) then (- ABI_EINVAL, c)
  else if negb (cred_capable c CAP_SETGID_) then (- ABI_EPERM, c)
  else if n =? 0 then (0, set_groups c [])
  else match gs with
       | None => (-14, c)
       | Some l => (0, set_groups c (take (Z.to_nat n) l))
       end.

(** From the point where the three sets have been read from the caller. *)
Definition h_capset (c : cred) (ef pr inh : Z) : Z * cred :=
  let cur_p := cred_cap_permitted c in
  if negb (Z.ldiff pr cur_p =? 0) then (- ABI_EPERM, c)
  else if negb (Z.ldiff ef pr =? 0) then (- ABI_EPERM, c)
  else
    let room := Z.lor (cap_inh c) (if cred_capable c CAP_SETPCAP_ then cur_p else 0) in
    if negb (Z.ldiff inh (Z.lor (cap_inh c) cur_p) =? 0) then (- ABI_EPERM, c)
    else if negb (Z.ldiff (Z.ldiff inh (cap_inh c)) room =? 0) then (- ABI_EPERM, c)
    else if negb (Z.ldiff (Z.ldiff inh (cap_inh c)) (cred_cap_bounding c) =? 0) then (- ABI_EPERM, c)
    else if negb (cred_is_admin c)
    then ((if negb (Z.lor (Z.lor pr ef) inh =? 0) then - ABI_EPERM else 0), c)
    else (0, set_caps c (Z.ldiff CAP_FULL_SET_ ef) (Z.ldiff CAP_FULL_SET_ pr) (cap_bnd_drop c)
               (Z.land inh CAP_FULL_SET_) (Z.land (cap_amb c) (Z.land pr inh))).

Definition set_amb (c : cred) (a : Z) : cred :=
  set_caps c (cap_eff_drop c) (cap_prm_drop c) (cap_bnd_drop c) (cap_inh c) a.

Definition set_prctl (c : cred) (keep nnp : Z) : cred :=
  {| owner := owner c; uid := uid c; gid := gid c; ngroups := ngroups c; groups := groups c;
     session := session c; root := root c; container := container c; cwd := cwd c; exe := exe c;
     umask_plus1 := umask_plus1 c; cap_eff_drop := cap_eff_drop c; cap_prm_drop := cap_prm_drop c;
     cap_bnd_drop := cap_bnd_drop c; cap_inh := cap_inh c; cap_amb := cap_amb c;
     cap_keep := keep; no_new_privs := nnp; groups_explicit := groups_explicit c |}.

(** The options of prctl(2) that read or write the identity; the arguments
    are unsigned words.  [None] is any other option. *)
Definition h_prctl_cred (c : cred) (opt a1 a2 a3 a4 : Z) : option (Z * cred) :=
  if opt =? 23 then
    Some (if CAP_LAST_CAP_ <? a1 then (- ABI_EINVAL, c)
          else (Z.land (Z.shiftr (cred_cap_bounding c) a1) 1, c))
  else if opt =? 24 then
    Some (if CAP_LAST_CAP_ <? a1 then (- ABI_EINVAL, c)
          else if negb (cred_capable c CAP_SETPCAP_) then (- ABI_EPERM, c)
          else (0, set_caps c (cap_eff_drop c) (cap_prm_drop c)
                     (Z.lor (cap_bnd_drop c) (Z.shiftl 1 a1)) (cap_inh c) (cap_amb c)))
  else if opt =? 7 then Some (cap_keep c, c)
  else if opt =? 8 then
    Some (if 1 <? a1 then (- ABI_EINVAL, c) else (0, set_prctl c a1 (no_new_privs c)))
  else if opt =? 38 then
    Some (if negb (a1 =? 1) || negb (a2 =? 0) || negb (a3 =? 0) || negb (a4 =? 0) then (- ABI_EINVAL, c)
          else (0, set_prctl c (cap_keep c) 1))
  else if opt =? 39 then Some (no_new_privs c, c)
  else if opt =? 27 then Some ((if negb (cap_keep c =? 0) then 16 else 0), c)
  else if opt =? 47 then
    Some (if a1 =? 4 then (0, set_amb c 0)
          else if CAP_LAST_CAP_ <? a2 then (- ABI_EINVAL, c)
          else
            let bit := Z.shiftl 1 a2 in
            if a1 =? 1 then ((if negb (Z.land (cap_amb c) bit =? 0) then 1 else 0), c)
            else if a1 =? 3 then (0, set_amb c (Z.ldiff (cap_amb c) bit))
            else if a1 =? 2 then
              if (Z.land (cred_cap_permitted c) bit =? 0) || (Z.land (cap_inh c) bit =? 0)
              then (- ABI_EPERM, c)
              else (0, set_amb c (Z.lor (cap_amb c) bit))
            else (- ABI_EINVAL, c))
  else None.

(** ** The audit *)

Definition is_scaffolding (t : task) : bool := (pid t =? 0) || is_idle t.

(** The violations [audit_one] counts for one task. *)
Definition audit_one (t : task) : Z :=
  let c := tcred t in
  if (owner c <? TASK_OWNER_KERNEL) || (TASK_OWNER_USER <? owner c) then 1
  else
    (if (cred_seq t =? 0) && (negb (owner c =? owner_birth t) || negb (uid c =? uid_birth t)) then 1 else 0)
    + (if 1 <? cred_seq t then 1 else 0)
    + (if (owner c =? TASK_OWNER_KERNEL) && negb (is_scaffolding t) then 1 else 0)
    + (if is_scaffolding t && negb (owner c =? TASK_OWNER_KERNEL) then 1 else 0)
    + (if (owner c =? TASK_OWNER_USER) && (session c =? CRED_SESSION_NONE) then 1 else 0).

Definition AUDIT_SKIP : Z := -1.

Definition au_identity (ts : list task) : Z :=
  match ts with
  | [] => AUDIT_SKIP
  | _ => foldl (fun n t => n + audit_one t) 0 ts
  end.

End Cred.
