(* ===== verification/CredSpec.v ===== *)
(** * The machine-wide theorems of task identity (Cred.v)

    The step relation of every writer of an identity; the audit that is never
    violated; what a task and its spawn subtree may never regain; and what
    the login transition takes from uninitialised memory. *)

From stdpp Require Import base list relations.
From Stdlib Require Import ZArith Lia Bool.
From S2P Require Import Prelude Cred.
Open Scope Z_scope.

Module CredSpec.
Import Cred.

(** ** Steps *)

(** One call by which a task rewrites its own identity. *)
Inductive cred_call : cred -> cred -> Prop :=
| call_exec c : cred_call c (cred_exec_caps c)
| call_setgroups c n gs r c' : h_setgroups c n gs = (r, c') -> cred_call c c'
| call_capset c ef pr inh r c' : h_capset c ef pr inh = (r, c') -> cred_call c c'
| call_prctl c opt a1 a2 a3 a4 r c' : h_prctl_cred c opt a1 a2 a3 a4 = Some (r, c') -> cred_call c c'.

Definition set_ppid (t : task) (pp : Z) : task :=
  {| pid := pid t; ppid := pp; is_idle := is_idle t; tcred := tcred t;
     cred_seq := cred_seq t; owner_birth := owner_birth t; uid_birth := uid_birth t |}.

(** A hand-built task: pid 0 or an idle task, straight from [kcalloc]. *)
Definition kernel_task (p : Z) (idle : bool) : task :=
  {| pid := p; ppid := 0; is_idle := idle; tcred := cred_zero;
     cred_seq := 0; owner_birth := 0; uid_birth := 0 |}.

(** Pids [spawn_common] hands out are never 0, the scaffolding neither exits
    nor logs in, and every spawn has a current task. *)
Inductive step : list task -> list task -> Prop :=
| step_spawn ts i cur np pp :
    ts !! i = Some cur -> np <> 0 -> step ts (ts ++ [spawn_identity (Some cur) np pp])
| step_idle ts p : step ts (ts ++ [kernel_task p true])
| step_reparent ts i t pp : ts !! i = Some t -> step ts (<[i := set_ppid t pp]> ts)
| step_exit ts i t : ts !! i = Some t -> is_scaffolding t = false -> step ts (delete i ts)
| step_call ts i t c' :
    ts !! i = Some t -> cred_call (tcred t) c' -> step ts (<[i := set_tcred t c']> ts)
| step_login ts junk p u g gs sess r ts' :
    Forall (fun t => pid t = p -> is_scaffolding t = false) ts ->
    cred_become_user junk ts p u g gs sess = (r, ts') -> step ts ts'.

Definition boot : list task := [kernel_task 0 false].

(** ** What a call leaves alone *)

Definition same_identity (c c' : cred) : Prop :=
  owner c' = owner c /\ uid c' = uid c /\ gid c' = gid c /\ session c' = session c.

Ltac call_cases H :=
  repeat match type of H with
  | context [if ?b then _ else _] => let E := fresh "E" in destruct b eqn:E
  | context [match ?b with Some _ => _ | None => _ end] => let E := fresh "E" in destruct b eqn:E
  end; simplify_eq.

Lemma call_same_identity c c' : cred_call c c' -> same_identity c c'.
Proof.
  destruct 1 as [c|c n gs r c' H|c ef pr inh r c' H|c opt a1 a2 a3 a4 r c' H].
  - unfold cred_exec_caps. by destruct (negb _).
  - unfold h_setgroups in H. by call_cases H.
  - unfold h_capset in H. by call_cases H.
  - unfold h_prctl_cred in H. by call_cases H.
Qed.

(** ** The audit *)

Definition clean (t : task) : Prop := audit_one t = 0.

Lemma audit_nonneg t : 0 <= audit_one t.
Proof. unfold audit_one. repeat case_match; lia. Qed.

Lemma clean_iff t : clean t <->
  0 <= owner (tcred t) <= 2 /\
  (cred_seq t = 0 -> owner (tcred t) = owner_birth t /\ uid (tcred t) = uid_birth t) /\
  cred_seq t <= 1 /\
  (owner (tcred t) = TASK_OWNER_KERNEL <-> is_scaffolding t = true) /\
  (owner (tcred t) = TASK_OWNER_USER -> session (tcred t) <> CRED_SESSION_NONE).
Proof.
  unfold clean, audit_one, TASK_OWNER_KERNEL, TASK_OWNER_USER, CRED_SESSION_NONE.
  destruct (is_scaffolding t); cbn [andb negb].
  all: repeat match goal with
    | |- context [?a =? ?b] => destruct (Z.eqb_spec a b)
    | |- context [?a <? ?b] => destruct (Z.ltb_spec a b)
    end; cbn [andb orb negb]; split; intros; try (repeat split; intros; congruence || lia).
Qed.

Lemma clean_call t c : clean t -> same_identity (tcred t) c -> clean (set_tcred t c).
Proof.
  rewrite !clean_iff. intros H (E1 & E2 & _ & E4). change (is_scaffolding _) with (is_scaffolding t).
  cbn [set_tcred tcred cred_seq owner_birth uid_birth]. by rewrite E1, E2, E4.
Qed.

Lemma clean_spawn cur np pp : clean cur -> np <> 0 -> clean (spawn_identity (Some cur) np pp).
Proof.
  rewrite !clean_iff. intros (Ho & _ & _ & _ & Hs) Hn. unfold spawn_identity, is_scaffolding. cbn.
  apply Z.eqb_neq in Hn. rewrite Hn. unfold TASK_OWNER_KERNEL, TASK_OWNER_USER in *.
  destruct (Z.eqb_spec (owner (tcred cur)) 0); cbn; unfold TASK_OWNER_SYSTEM; naive_solver lia.
Qed.

Lemma clean_kernel p idle : p = 0 \/ idle = true -> clean (kernel_task p idle).
Proof.
  intros H. apply clean_iff. unfold is_scaffolding. cbn.
  assert (((p =? 0) || idle)%bool = true) as -> by (destruct H as [-> | ->]; [done|apply orb_true_r]).
  unfold TASK_OWNER_USER. naive_solver lia.
Qed.

Lemma find_cases ts p i t : task_find ts p = Some (i, t) -> ts !! i = Some t /\ pid t = p.
Proof. intros H. by apply list_find_Some in H as (? & ? & _). Qed.

Lemma user_cred_identity junk tc u g gs s :
  owner (user_cred junk tc u g gs s) = TASK_OWNER_USER /\ uid (user_cred junk tc u g gs s) = u /\
  gid (user_cred junk tc u g gs s) = g /\ session (user_cred junk tc u g gs s) = s.
Proof. unfold user_cred. by destruct (fill_groups _ _ _). Qed.

Lemma login_cases junk ts p u g gs s r ts' :
  cred_become_user junk ts p u g gs s = (r, ts') ->
  (r = -1 /\ ts' = ts) \/
  (r = 0 /\ s <> CRED_SESSION_NONE /\ exists i t, ts !! i = Some t /\ pid t = p /\ cred_seq t = 0 /\
   count_children p ts = 0 /\ task_find ts p = Some (i, t) /\
   ts' = <[i := bump_seq (set_tcred t (user_cred junk (tcred t) u g gs s))]> ts).
Proof.
  unfold cred_become_user. intros H.
  destruct (task_find ts p) as [[i t]|] eqn:Hf; [|by simplify_eq; left].
  destruct (find_cases _ _ _ _ Hf).
  repeat (case_match; simplify_eq; bool_props; [by left|]). right. naive_solver.
Qed.

Lemma step_clean ts ts' : step ts ts' -> Forall clean ts -> Forall clean ts'.
Proof.
  intros Hs H. destruct Hs as [ts i cur np pp Hi Hn|ts p|ts i t pp Hi|ts i t Hi _|ts i t c' Hi Hc
                              |ts junk p u g gs s r ts' Hsc Hl].
  - apply Forall_app. split; [done|]. constructor; [|done]. apply clean_spawn; [|done]. by eapply Forall_lookup_1.
  - apply Forall_app. split; [done|]. constructor; [|done]. apply clean_kernel. by right.
  - apply Forall_insert; [done|]. apply (Forall_lookup_1 _ _ _ _ H Hi).
  - by apply Forall_delete.
  - apply Forall_insert; [done|]. apply clean_call; [by eapply Forall_lookup_1|by apply call_same_identity].
  - apply login_cases in Hl as [[-> ->]|(-> & Hs & i & t & Hi & Hp & Hq & _ & _ & ->)]; [done|].
    apply Forall_insert; [done|]. apply clean_iff.
    pose proof (Forall_lookup_1 _ _ _ _ Hsc Hi Hp) as Hns.
    destruct (user_cred_identity junk (tcred t) u g gs s) as (E1 & E2 & _ & E4).
    change (is_scaffolding _) with (is_scaffolding t). cbn [tcred bump_seq set_tcred cred_seq owner_birth uid_birth].
    rewrite E1, E2, E4, Hq, Hns. unfold TASK_OWNER_USER, TASK_OWNER_KERNEL, u32. cbn. naive_solver lia.
Qed.

Lemma foldl_audit ts n : Forall clean ts -> foldl (fun n t => n + audit_one t) n ts = n.
Proof. revert n. induction ts as [|t ts IH]; intros n H; [done|]. inversion_clear H as [|? ? E]. cbn. rewrite E, Z.add_0_r. by apply IH. Qed.

(** pid 0 stays. *)
Lemma step_pid0 ts ts' :
  step ts ts' -> Exists (fun t => pid t = 0) ts -> Exists (fun t => pid t = 0) ts'.
Proof.
  rewrite !Exists_exists.
  intros Hs (z & Hz & H0). apply list_elem_of_lookup in Hz as [k Hk].
  assert (forall i t t', ts !! i = Some t -> pid t' = pid t -> exists x, x ∈ <[i := t']> ts /\ pid x = 0) as Hins.
  { intros i t t' Hi Hp. destruct (decide (i = k)) as [->|Hne].
    - simplify_eq. exists t'. split; [|lia]. apply list_elem_of_lookup. exists k.
      rewrite list_lookup_insert_eq; [done|by eapply lookup_lt_Some].
    - exists z. split; [|done]. apply list_elem_of_lookup. exists k. by rewrite list_lookup_insert_ne. }
  destruct Hs as [ts i cur np pp Hi Hn|ts p|ts i t pp Hi|ts i t Hi Hsc|ts i t c' Hi Hc|ts junk p u g gs s r ts' Hsc Hl].
  - exists z. split; [|done]. apply elem_of_app. left. by eapply list_elem_of_lookup_2.
  - exists z. split; [|done]. apply elem_of_app. left. by eapply list_elem_of_lookup_2.
  - by eapply Hins.
  - exists z. split; [|done]. apply list_elem_of_lookup.
    assert (i <> k) by (intros ->; simplify_eq; unfold is_scaffolding in Hsc; by rewrite H0 in Hsc).
    destruct (decide (k < i)%nat); [exists k; by rewrite list_lookup_delete_lt|].
    exists (pred k). rewrite list_lookup_delete_ge by lia. by replace (S (pred k)) with k by lia.
  - by eapply Hins.
  - apply login_cases in Hl as [[-> ->]|(-> & Hs & i & t & Hi & Hp & _ & _ & _ & ->)].
    + exists z. split; [by eapply list_elem_of_lookup_2|done].
    + by eapply Hins.
Qed.

(** C18: In every state the machine reaches from boot by spawning, re-parenting,
    exiting, execing, changing groups or capabilities, and logging in, the
    task-identity audit finds no violation: owners never change outside the
    one login, KERNEL is exactly the scaffolding, and every user task has a
    session. *)
Theorem audit_never_fires ts : rtc step boot ts -> au_identity ts = 0.
Proof.
  intros H.
  assert (Forall clean ts /\ Exists (fun t => pid t = 0) ts) as [Hc Hp].
  { eapply (rtc_invariant step (fun ts => Forall clean ts /\ Exists (fun t => pid t = 0) ts)); [exact H| |].
    - intros a b Hs [Ha Hb]. split; [by eapply step_clean|by eapply step_pid0].
    - split; [repeat constructor; apply clean_kernel; by left|by repeat constructor]. }
  destruct ts as [|t ts']; [by inversion Hp|]. unfold au_identity. by apply foldl_audit.
Qed.

(** ** What a subtree cannot regain *)

(** From an identity to one the same task, or a task it spawned, holds later
    without a login. *)
Inductive flows : cred -> cred -> Prop :=
| flows_call c c' : cred_call c c' -> flows c c'
| flows_spawn c z : flows c (cred_inherit z (Some c)).

(** Every identity of the next state flows from one of this state, is the
    kernel's own, or is a login's. *)
Lemma step_flows ts ts' t' : step ts ts' -> t' ∈ ts' ->
  (exists t, t ∈ ts /\ rtc flows (tcred t) (tcred t')) \/ tcred t' = cred_zero \/
  (cred_seq t' = 1 /\ owner (tcred t') = TASK_OWNER_USER).
Proof.
  intros Hs Ht.
  assert (forall i t x, ts !! i = Some t -> t' ∈ <[i := x]> ts ->
    (exists s, s ∈ ts /\ rtc flows (tcred s) (tcred t')) \/ t' = x) as Hins.
  { intros i t x Hi Hx. apply list_elem_of_lookup in Hx as [k Hk].
    destruct (decide (i = k)) as [->|Hne].
    - right. rewrite list_lookup_insert_eq in Hk by (by eapply lookup_lt_Some). by simplify_eq.
    - left. rewrite list_lookup_insert_ne in Hk by done. exists t'. split; [by eapply list_elem_of_lookup_2|done]. }
  assert (t' ∈ ts -> exists s, s ∈ ts /\ rtc flows (tcred s) (tcred t')) as Hold by (intros; by exists t').
  destruct Hs as [ts i cur np pp Hi Hn|ts p|ts i t pp Hi|ts i t Hi Hsc|ts i t c' Hi Hc|ts junk p u g gs s r ts' Hsc Hl].
  - apply elem_of_app in Ht as [?| ->%list_elem_of_singleton]; [by left; apply Hold|].
    left. exists cur. split; [by eapply list_elem_of_lookup_2|]. apply rtc_once. apply flows_spawn.
  - apply elem_of_app in Ht as [?| ->%list_elem_of_singleton]; [by left; apply Hold|]. by right; left.
  - destruct (Hins _ _ _ Hi Ht) as [?| ->]; [by left|]. left. exists t. split; [by eapply list_elem_of_lookup_2|done].
  - left. apply Hold. apply list_elem_of_lookup in Ht as [k Hk]. rewrite list_lookup_delete in Hk.
    case_decide; by eapply list_elem_of_lookup_2.
  - destruct (Hins _ _ _ Hi Ht) as [?| ->]; [by left|]. left. exists t. split; [by eapply list_elem_of_lookup_2|].
    by apply rtc_once, flows_call.
  - apply login_cases in Hl as [[-> ->]|(-> & Hs & i & t & Hi & Hp & Hq & _ & _ & ->)]; [by left; apply Hold|].
    destruct (Hins _ _ _ Hi Ht) as [?| ->]; [by left|]. right. right.
    cbn [bump_seq set_tcred cred_seq tcred]. rewrite Hq. split; [done|]. by apply user_cred_identity.
Qed.
Lemma inherit_user c z : owner c = TASK_OWNER_USER -> cred_inherit z (Some c) = c.
Proof. intros H. unfold cred_inherit. by rewrite H. Qed.

(** Ownership is not laundered: whatever a user's task calls, and whatever
    it or its descendants spawn, the identity they run under is still that
    user's, with the same uid, primary group and session, as long as nobody
    logs in. *)
Theorem user_subtree_fixed c c' :
  rtc flows c c' -> owner c = TASK_OWNER_USER ->
  cred_uid c' = uid c /\ gid c' = gid c /\ session c' = session c.
Proof.
  intros H Ho.
  assert (same_identity c c' /\ owner c' = TASK_OWNER_USER) as [(E1 & E2 & E3 & E4) E0].
  { eapply (rtc_invariant flows (fun x => same_identity c x /\ owner x = TASK_OWNER_USER)); [exact H| |done].
    intros a b Hf [Ha Hb]. destruct Hf as [a b Hc|a z].
    - apply call_same_identity in Hc. unfold same_identity in *. intuition congruence.
    - by rewrite inherit_user. }
  unfold cred_uid. by rewrite E0.
Qed.

(** *** Dropped capabilities *)

Definition has (x k : Z) : bool := Z.testbit x k.

(** Capability [k] is in none of the sets an [execve] or a [capset] draws on. *)
Definition gone (k : Z) (c : cred) : Prop :=
  has (cap_bnd_drop c) k = true /\ has (cap_prm_drop c) k = true /\ has (cap_inh c) k = false.

Lemma full_bit k : 0 <= k <= CAP_LAST_CAP_ -> has CAP_FULL_SET_ k = true.
Proof.
  intros H. unfold has, CAP_FULL_SET_, CAP_LAST_CAP_ in *. change (Z.shiftl 1 (40 + 1) - 1) with (Z.ones 41).
  apply Z.ones_spec_low. lia.
Qed.

Lemma ldiff_zero_bit a b k : 0 <= k -> Z.ldiff a b = 0 -> has b k = false -> has a k = false.
Proof.
  intros Hk H Hb. unfold has in *. assert (Z.testbit (Z.ldiff a b) k = false) as E by (by rewrite H, Z.bits_0).
  rewrite Z.ldiff_spec, Hb in E by lia. by destruct (Z.testbit a k).
Qed.

Lemma bounding_bit c k : 0 <= k <= CAP_LAST_CAP_ -> has (cred_cap_bounding c) k = negb (has (cap_bnd_drop c) k).
Proof. intros H. unfold cred_cap_bounding, has. rewrite Z.ldiff_spec by lia. fold (has CAP_FULL_SET_ k). by rewrite full_bit. Qed.

Lemma permitted_bit c k : 0 <= k -> has (cap_prm_drop c) k = true -> has (cred_cap_permitted c) k = false.
Proof.
  intros Hk H. unfold cred_cap_permitted. destruct (negb _); [apply Z.bits_0|].
  unfold has in *. by rewrite Z.ldiff_spec, H, andb_false_r by lia.
Qed.

Lemma gone_exec k c : 0 <= k <= CAP_LAST_CAP_ -> gone k c -> gone k (cred_exec_caps c).
Proof.
  intros Hk (Hb & Hp & Hi). unfold cred_exec_caps. destruct (negb _); [done|]. split_and!; [done| |done].
  cbn [set_caps cap_prm_drop]. unfold has. rewrite Z.ldiff_spec, Z.land_spec, Z.lor_spec by lia.
  fold (has CAP_FULL_SET_ k) (has (cap_inh c) k) (has (cred_cap_bounding c) k).
  by rewrite full_bit, Hi, bounding_bit, Hb by done.
Qed.

Lemma gone_capset k c ef pr inh r c' :
  0 <= k <= CAP_LAST_CAP_ -> gone k c -> h_capset c ef pr inh = (r, c') -> gone k c'.
Proof.
  intros Hk (Hb & Hp & Hi) H. unfold h_capset in H. call_cases H; try done. bool_props.
  assert (has pr k = false) as Hpr by (eapply ldiff_zero_bit; [lia|done|]; apply permitted_bit; [lia|done]).
  assert (has (Z.ldiff inh (cap_inh c)) k = false) as Hin.
  { eapply ldiff_zero_bit; [lia|done|]. by rewrite bounding_bit, Hb. }
  split_and!; [done| |]; cbn [set_caps cap_prm_drop cap_inh]; unfold has in *.
  - rewrite Z.ldiff_spec, Hpr by lia. fold (has CAP_FULL_SET_ k). by rewrite full_bit.
  - rewrite Z.ldiff_spec, Hi, andb_true_r in Hin by lia. by rewrite Z.land_spec, Hin.
Qed.

Lemma gone_prctl k c opt a1 a2 a3 a4 r c' :
  0 <= k -> gone k c -> h_prctl_cred c opt a1 a2 a3 a4 = Some (r, c') -> gone k c'.
Proof.
  intros Hk (Hb & Hp & Hi) H. unfold h_prctl_cred in H. call_cases H; try done.
  split_and!; [|done|done]. cbn [set_caps cap_bnd_drop]. unfold has in *. by rewrite Z.lor_spec, Hb.
Qed.

Lemma gone_flows k c c' : 0 <= k <= CAP_LAST_CAP_ -> flows c c' -> gone k c -> gone k c'.
Proof.
  intros Hk Hf Hg. destruct Hf as [c c' Hc|c z].
  - destruct Hc as [c|c n gs r c' H|c ef pr inh r c' H|c opt a1 a2 a3 a4 r c' H].
    + by apply gone_exec.
    + unfold h_setgroups in H. by call_cases H.
    + by eapply gone_capset.
    + eapply gone_prctl; [lia|done|done].
  - unfold cred_inherit. by destruct (_ =? _).
Qed.

Lemma gone_not_capable k c : 0 <= k -> gone k c -> cred_capable c k = false.
Proof.
  intros Hk (_ & Hp & _). unfold cred_capable. destruct (_ || _); [done|].
  assert (Z.testbit (cred_cap_effective c) k = false) as E.
  { unfold cred_cap_effective. destruct (negb (cred_is_admin c)); [apply Z.bits_0|].
    unfold has in Hp. by rewrite Z.ldiff_spec, Hp, andb_false_r by lia. }
  change 1 with (Z.ones 1). rewrite Z.land_ones, <- Z.bit0_mod by lia.
  by rewrite Z.shiftr_spec, Z.add_0_l, E by lia.
Qed.

(** C19: A capability that is dropped from the bounding, permitted and
    inheritable sets is gone for good: no execve, capset, prctl, setgroups or
    spawn, in any order, by the task or anything it spawned, makes the
    capability check succeed again. *)
Theorem dropped_capability_gone k c c' :
  0 <= k <= CAP_LAST_CAP_ -> gone k c -> rtc flows c c' -> cred_capable c' k = false.
Proof.
  intros Hk Hg H. apply gone_not_capable; [lia|].
  eapply (rtc_invariant flows (gone k)); [exact H| |done]. intros a b Hf. by apply gone_flows.
Qed.

(** *** Administration *)

Lemma not_admin_capable c k : cred_is_admin c = false -> cred_capable c k = false.
Proof.
  intros H. unfold cred_capable, cred_cap_effective. rewrite H. cbn. rewrite Z.shiftr_0_l. by destruct (_ || _).
Qed.

Lemma admin_set_caps c e p b i a : cred_is_admin (set_caps c e p b i a) = cred_is_admin c.
Proof. done. Qed.

Lemma not_admin_call c c' : cred_call c c' -> cred_is_admin c = false -> cred_is_admin c' = false.
Proof.
  destruct 1 as [c|c n gs r c' H|c ef pr inh r c' H|c opt a1 a2 a3 a4 r c' H]; intros Ha.
  - unfold cred_exec_caps. by rewrite Ha.
  - unfold h_setgroups in H. rewrite not_admin_capable in H by done. by call_cases H.
  - unfold h_capset in H. rewrite Ha in H. by call_cases H.
  - unfold h_prctl_cred in H. by call_cases H.
Qed.

Lemma not_admin_user c : cred_is_admin c = false -> owner c = TASK_OWNER_USER.
Proof. unfold cred_is_admin. destruct (Z.eqb_spec (owner c) TASK_OWNER_USER); done. Qed.

(** No call escalates: an identity that may not administer the machine
    never comes to, neither in the task nor in its spawn subtree; it holds no
    capability and may only act on its own uid. *)
Theorem no_escalation c c' :
  rtc flows c c' -> cred_is_admin c = false ->
  cred_is_admin c' = false /\ cred_cap_effective c' = 0 /\
  forall u, cred_may_act_on_uid c' u = (u =? uid c').
Proof.
  intros H Ha.
  assert (cred_is_admin c' = false) as E.
  { eapply (rtc_invariant flows (fun x => cred_is_admin x = false)); [exact H| |done].
    intros a b Hf Hx. destruct Hf as [a b Hc|a z]; [by eapply not_admin_call|].
    by rewrite inherit_user by (by apply not_admin_user). }
  split_and!; [done| |].
  - unfold cred_cap_effective. by rewrite E.
  - intros u. unfold cred_may_act_on_uid. rewrite E, (not_admin_user _ E). cbn. apply Z.eqb_sym.
Qed.

(** *** Login *)

(** What a login leaves in the capability sets, the no-new-privileges
    mark and the keep-caps flag is what the kernel stack held: the fields are
    copied from a local that [cred_init_kernel] does not fill, neither cleared
    nor taken from the task. *)
Theorem login_reads_stack junk ts p u g gs s ts' :
  cred_become_user junk ts p u g gs s = (0, ts') ->
  exists i t', ts' !! i = Some t' /\ pid t' = p /\ cred_uid (tcred t') = u /\
    cap_eff_drop (tcred t') = cap_eff_drop junk /\ cap_prm_drop (tcred t') = cap_prm_drop junk /\
    cap_bnd_drop (tcred t') = cap_bnd_drop junk /\ cap_inh (tcred t') = cap_inh junk /\
    no_new_privs (tcred t') = no_new_privs junk /\ cap_keep (tcred t') = cap_keep junk.
Proof.
  intros H. apply login_cases in H as [[? _]|(_ & _ & i & t & Hi & Hp & _ & _ & _ & ->)]; [done|].
  eexists i, _. split; [apply list_lookup_insert_eq; by eapply lookup_lt_Some|].
  cbn [bump_seq set_tcred pid tcred]. unfold user_cred. by destruct (fill_groups _ _ _).
Qed.

(** ** Evaluation *)

Definition user1 : cred := set_identity cred_zero TASK_OWNER_USER 1000 1000 0 7.
Definition shell : task := spawn_identity (Some (kernel_task 0 false)) 5 1.
Definition machine : list task := [kernel_task 0 false; shell].
Definition machine' : list task := (cred_become_user cred_zero machine 5 1000 1000 (Some [1]) 7).2.

Lemma audit_never_fires_witness : au_identity machine' = 0.
Proof.
  apply (audit_never_fires machine'). apply (rtc_l _ _ machine).
  - apply (step_spawn boot 0 (kernel_task 0 false) 5 1); [done|lia].
  - apply rtc_once, (step_login machine cred_zero 5 1000 1000 (Some [1]) 7 0).
    + apply Forall_cons_2; [intros [=]|]. apply Forall_cons_2; [done|apply Forall_nil_2].
    + vm_compute. reflexivity.
Defined.

Lemma user_subtree_fixed_witness : cred_uid (cred_inherit cred_zero (Some (cred_exec_caps user1))) = 1000.
Proof.
  apply (user_subtree_fixed user1); [|done].
  eapply rtc_l; [apply flows_call, call_exec|]. apply rtc_once, flows_spawn.
Defined.

(** A container's root that gave up CAP_SYS_ADMIN everywhere. *)
Definition jailed : cred :=
  set_caps (set_identity cred_zero TASK_OWNER_USER 0 0 0 7) (2 ^ 21) (2 ^ 21) (2 ^ 21) 0 0.

Lemma dropped_capability_gone_witness :
  cred_capable jailed 7 = true /\ cred_capable (cred_exec_caps jailed) 21 = false.
Proof.
  split; [vm_compute; reflexivity|]. apply (dropped_capability_gone 21 jailed); [unfold CAP_LAST_CAP_; lia|done|].
  apply rtc_once, flows_call, call_exec.
Defined.

Lemma no_escalation_witness : cred_is_admin (h_setgroups user1 1 (Some [CRED_GID_ADMIN])).2 = false.
Proof.
  apply (no_escalation user1); [|done]. apply rtc_once, flows_call.
  eapply (call_setgroups user1 1 (Some [CRED_GID_ADMIN])). vm_compute. reflexivity.
Defined.

Definition stack : cred := set_caps cred_zero (2 ^ 41 - 1) 0 0 0 0.

Lemma login_reads_stack_witness :
  exists i t', (cred_become_user stack machine 5 0 0 None 7).2 !! i = Some t' /\ pid t' = 5 /\ cred_uid (tcred t') = 0 /\
    cap_eff_drop (tcred t') = 2 ^ 41 - 1 /\ cap_prm_drop (tcred t') = 0 /\ cap_bnd_drop (tcred t') = 0 /\
    cap_inh (tcred t') = 0 /\ no_new_privs (tcred t') = 0 /\ cap_keep (tcred t') = 0.
Proof. apply (login_reads_stack stack machine 5 0 0 None 7). vm_compute. reflexivity. Defined.

(** A detached child (parent recorded as init, pid 1) is not counted: the task
    changes identity after it has handed the old one on. *)
Example detached_child_unseen :
  let ts := machine ++ [spawn_identity (Some shell) 6 1] in
  (cred_become_user cred_zero ts 5 1000 1000 None 7).1 = 0 /\
  (cred_become_user cred_zero (machine ++ [spawn_identity (Some shell) 6 5]) 5 1000 1000 None 7).1 = -1.
Proof. vm_compute. done. Qed.

End CredSpec.
