(* ===== verification/Epoll.v ===== *)
(** * Event polling (kernel/core/epoll.c, fd_readiness_wait of usyscall.c)

    An epoll set is a table of 64 watched descriptor numbers.  [ep_scan]
    walks it and asks each descriptor's readiness; a set is itself a
    descriptor, so the question can come back to another set
    ([epoll_has_events], a scan that only peeks).  A scan holds the set's
    spinlock while it asks, so the model threads the locks held: [None] is a
    scan that spins on a lock of its own call chain. *)

From stdpp Require Import base list gmap.
From Stdlib Require Import ZArith Lia Bool.
From S2P Require Import Prelude.
Open Scope Z_scope.

Module Epoll.

Definition EPOLL_MAX_ITEMS : nat := 64.
Definition EPOLL_MAX_DEPTH : nat := 4.
Definition EP_EINVAL : Z := 22.
Definition EP_ENOENT : Z := 2.
Definition EP_EEXIST : Z := 17.
Definition EP_ENOSPC : Z := 28.
Definition EPOLL_CTL_ADD : Z := 1.
Definition EPOLL_CTL_DEL : Z := 2.
Definition EPOLL_CTL_MOD : Z := 3.
Definition EPOLLIN : Z := 0x001.
Definition EPOLLOUT : Z := 0x004.
Definition EPOLLERR : Z := 0x008.
Definition EPOLLHUP : Z := 0x010.
Definition EPOLLET : Z := 0x80000000.
Definition EPOLLONESHOT : Z := 0x40000000.
Definition EP_ALWAYS : Z := Z.lor EPOLLERR EPOLLHUP.

Record epitem := It { fd : Z; events : Z; data : Z; used : bool; et_seen : Z; et_reported : bool }.

Notation epoll := (list epitem).

Definition blank : epitem := It 0 0 0 false 0 false.
Definition epoll_create_obj : epoll := replicate EPOLL_MAX_ITEMS blank.

(** ** The watched set *)

Definition holds (f : Z) (e : epitem) : bool := used e && (fd e =? f).
Definition find_locked (ep : epoll) (f : Z) : option (nat * epitem) := list_find (fun e => holds f e = true) ep.
Definition find_unused (ep : epoll) : option (nat * epitem) := list_find (fun e => used e = false) ep.

(** [et_seen] of a slot keeps what its last owner left. *)
Definition arm_item (e : epitem) (f ev d : Z) : epitem := It f ev d true (et_seen e) false.
Definition drop_item (e : epitem) : epitem := It (fd e) (events e) (data e) false (et_seen e) (et_reported e).

Definition epoll_ctl_obj (ep : epoll) (op f ev d : Z) : Z * epoll :=
  if f <? 0 then (- EP_EINVAL, ep)
  else if op =? EPOLL_CTL_ADD then
    match find_locked ep f with
    | Some _ => (- EP_EEXIST, ep)
    | None => match find_unused ep with
              | Some (i, e) => (0, <[i := arm_item e f ev d]> ep)
              | None => (- EP_ENOSPC, ep)
              end
    end
  else if op =? EPOLL_CTL_MOD then
    match find_locked ep f with
    | None => (- EP_ENOENT, ep)
    | Some (i, e) => (0, <[i := arm_item e f ev d]> ep)
    end
  else if op =? EPOLL_CTL_DEL then
    match find_locked ep f with
    | None => (- EP_ENOENT, ep)
    | Some (i, e) => (0, <[i := drop_item e]> ep)
    end
  else (- EP_EINVAL, ep).

Definition epoll_count (ep : epoll) : Z := foldl (fun n e => if used e then n + 1 else n) 0 ep.

(** ** The scan *)

Definition flag (e : epitem) (b : Z) : bool := negb (Z.land (events e) b =? 0).

Definition revents (rd : Z) (e : epitem) : Z := Z.land rd (Z.lor (events e) EP_ALWAYS).

Definition no_edge (seq : Z) (e : epitem) : bool := flag e EPOLLET && et_reported e && (et_seen e =? seq).

Definition mark_reported (seq : Z) (e : epitem) : epitem :=
  if flag e EPOLLET then It (fd e) (events e) (data e) (used e) seq true else e.

Definition disarm (e : epitem) : epitem :=
  if flag e EPOLLONESHOT
  then It (fd e) (Z.ldiff (events e) (Z.lor EPOLLIN EPOLLOUT)) (data e) (used e) (et_seen e) (et_reported e)
  else e.

(** [ready] is [fd_readiness_of]; [room] is [maxevents - n]. *)
Fixpoint scan_items (ready : Z -> option Z) (seq : Z) (peek : bool) (room : nat) (its : epoll)
  : option (epoll * list (Z * Z)) :=
  match its with
  | [] => Some ([], [])
  | e :: its' =>
      match room with
      | O => Some (its, [])
      | S room' =>
          if negb (used e) then '(r, out) ← scan_items ready seq peek room its'; Some (e :: r, out)
          else
            rd ← ready (fd e);
            let rev := revents rd e in
            if (rev =? 0) || no_edge seq e
            then '(r, out) ← scan_items ready seq peek room its'; Some (e :: r, out)
            else
              let e' := if peek then e else disarm (mark_reported seq e) in
              '(r, out) ← scan_items ready seq peek room' its';
              Some (e' :: r, (rev, data e) :: out)
      end
  end.

(** ** Sets watching sets *)

(** What a descriptor refers to: an epoll set by its identity, or anything
    else with the readiness its kind reports. *)
Inductive target := Set_ (id : Z) | Other (bits : Z).

Record world := W { set_of : Z -> epoll; lookup : Z -> target; seqno : Z }.

(** [ep_scan]: takes the set's lock (spinning when its own chain holds it)
    and walks the items. *)
Definition ep_scan (ready : list Z -> Z -> option Z) (w : world) (held : list Z) (id : Z)
    (maxevents : nat) (peek : bool) : option (epoll * list (Z * Z)) :=
  if bool_decide (id ∈ held) then None
  else scan_items (ready (id :: held)) (seqno w) peek maxevents (set_of w id).

(** [room] is [EPOLL_MAX_DEPTH - epoll_depth]. *)
Fixpoint epoll_has_events (room : nat) (w : world) (held : list Z) (id : Z) : option bool :=
  match room with
  | O => Some false
  | S room' =>
      '(_, out) ← ep_scan
        (fun held' f => match lookup w f with
                        | Other b => Some b
                        | Set_ id' => b ← epoll_has_events room' w held' id'; Some (if b : bool then EPOLLIN else 0)
                        end) w held id 1 true;
      Some (0 <? Z.of_nat (length out))
  end.

(** The cases of [fd_readiness_of] that matter here: a set, or the rest. *)
Definition fd_readiness_of (w : world) (held : list Z) (f : Z) : option Z :=
  match lookup w f with
  | Other b => Some b
  | Set_ id => b ← epoll_has_events EPOLL_MAX_DEPTH w held id; Some (if b : bool then EPOLLIN else 0)
  end.

Definition wait_scan (w : world) (id : Z) (maxevents : nat) : option (epoll * list (Z * Z)) :=
  ep_scan (fd_readiness_of w) w [] id maxevents false.

(** ** Waiting *)

(** What one pass of [fd_readiness_wait]'s loop observes: whether the deadline
    has passed, a kill is pending (at the top, and again under the queue
    lock), and the readiness of every other descriptor with the event count. *)
Record pass := Pass { expired : bool; stop : bool; stop_locked : bool; now_ready : Z -> Z; now_seq : Z }.

Definition ready_at (p : pass) (f : Z) : option Z := Some (now_ready p f).

(** The loop over the passes between two parks; [None] is a task still
    parked.  The scan's own count is what [epoll_wait_obj] returns. *)
Fixpoint wait_loop (timed : bool) (maxevents : nat) (ep : epoll) (last : list (Z * Z)) (ps : list pass)
  : option (epoll * list (Z * Z)) :=
  match ps with
  | [] => None
  | p :: ps' =>
      if timed && expired p then Some (ep, last)
      else if stop p then Some (ep, last)
      else '(ep', out) ← scan_items (ready_at p) (now_seq p) false maxevents ep;
           if (0 <? Z.of_nat (length out)) then Some (ep', out)
           else if stop_locked p then Some (ep', out)
           else wait_loop timed maxevents ep' out ps'
  end.

(** [first] is what the scan before the loop observes. *)
Definition epoll_wait_obj (ep : epoll) (maxevents timeout : Z) (first : pass) (ps : list pass)
  : option (Z * epoll * list (Z * Z)) :=
  if maxevents <=? 0 then Some (- EP_EINVAL, ep, [])
  else
    '(ep1, out) ← scan_items (ready_at first) (now_seq first) false (Z.to_nat maxevents) ep;
    if (0 <? Z.of_nat (length out)) || (timeout =? 0) then Some (Z.of_nat (length out), ep1, out)
    else '(ep2, out2) ← wait_loop (0 <? timeout) (Z.to_nat maxevents) ep1 out ps;
         Some (Z.of_nat (length out2), ep2, out2).

End Epoll.
