(* ===== verification/EpollSpec.v ===== *)
(** * What an epoll set promises (Epoll.v)

    The set as a finite map, the scan against its specification, edges, one
    shot items, waiting, and sets that watch sets. *)

From stdpp Require Import base list gmap.
From Stdlib Require Import ZArith Lia Bool.
From S2P Require Import Prelude Epoll.
Open Scope Z_scope.

Module EpollSpec.
Import Epoll.

(** ** The set as a map from descriptor to (events, cookie) *)

Definition kv (e : epitem) : Z * (Z * Z) := (fd e, (events e, data e)).
Definition live (ep : list epitem) : list epitem := filter (fun e => used e = true) ep.
Definition watched (ep : epoll) : gmap Z (Z * Z) := list_to_map (kv <$> live ep).

Definition wf (ep : epoll) : Prop := length ep = EPOLL_MAX_ITEMS /\ NoDup (fd <$> live ep).

(** epoll_ctl(2) on the map. *)
Definition spec_ctl (m : gmap Z (Z * Z)) (op f ev d : Z) : Z * gmap Z (Z * Z) :=
  if f <? 0 then (- EP_EINVAL, m)
  else if op =? EPOLL_CTL_ADD then
    if m !! f then (- EP_EEXIST, m)
    else if (size m <? EPOLL_MAX_ITEMS)%nat then (0, <[f := (ev, d)]> m) else (- EP_ENOSPC, m)
  else if op =? EPOLL_CTL_MOD then
    if m !! f then (0, <[f := (ev, d)]> m) else (- EP_ENOENT, m)
  else if op =? EPOLL_CTL_DEL then
    if m !! f then (0, delete f m) else (- EP_ENOENT, m)
  else (- EP_EINVAL, m).

Lemma keys_kv l : (kv <$> l).*1 = fd <$> l.
Proof. rewrite <- list_fmap_compose. done. Qed.

Lemma live_split l1 e l2 : live (l1 ++ e :: l2) ≡ₚ (if used e then [e] else []) ++ live (l1 ++ l2).
Proof.
  unfold live. rewrite !filter_app. destruct (used e) eqn:E.
  - rewrite filter_cons_True by done. cbn. by rewrite Permutation_middle.
  - rewrite filter_cons_False by (by rewrite E). done.
Qed.

Lemma map_perm l l' : NoDup (fd <$> l) -> l ≡ₚ l' ->
  (list_to_map (kv <$> l) : gmap Z (Z * Z)) = list_to_map (kv <$> l').
Proof. intros Hn Hp. apply list_to_map_proper; [by rewrite keys_kv|by rewrite Hp]. Qed.

(** A table with one slot singled out: the map is that slot over the rest. *)
Lemma watched_split l1 e l2 : NoDup (fd <$> live (l1 ++ e :: l2)) ->
  watched (l1 ++ e :: l2) = (if used e then <[fd e := (events e, data e)]> (watched (l1 ++ l2)) else watched (l1 ++ l2))
  /\ NoDup (fd <$> live (l1 ++ l2)) /\ (used e = true -> fd e ∉ fd <$> live (l1 ++ l2)).
Proof.
  intros Hn. pose proof (live_split l1 e l2) as Hp. unfold watched.
  rewrite (map_perm _ _ Hn Hp). rewrite Hp in Hn. destruct (used e); cbn in Hn |- *.
  - apply NoDup_cons in Hn as [? ?]. done.
  - done.
Qed.

Lemma wf_split l1 e l2 :
  length (l1 ++ e :: l2) = EPOLL_MAX_ITEMS -> NoDup (fd <$> live (l1 ++ l2)) ->
  (used e = true -> fd e ∉ fd <$> live (l1 ++ l2)) -> wf (l1 ++ e :: l2).
Proof.
  intros Hl Hn Hf. split; [done|]. rewrite (live_split l1 e l2). destruct (used e); [|done].
  cbn. apply NoDup_cons. auto.
Qed.

Lemma watched_None l f : watched l !! f = None <-> f ∉ fd <$> live l.
Proof. unfold watched. rewrite <- not_elem_of_list_to_map, keys_kv. done. Qed.

Lemma holds_live f e ep : e ∈ ep -> holds f e = true -> f ∈ fd <$> live ep.
Proof.
  unfold holds. intros He [Hu Hf]%andb_true_iff. apply Z.eqb_eq in Hf as <-.
  apply list_elem_of_fmap. exists e. split; [done|]. by apply list_elem_of_filter.
Qed.

Lemma find_locked_None ep f : find_locked ep f = None <-> watched ep !! f = None.
Proof.
  unfold find_locked. rewrite list_find_None, Forall_forall, watched_None. split.
  - intros H Hin. apply list_elem_of_fmap in Hin as (e & -> & [Hu He]%list_elem_of_filter).
    apply (H e He). unfold holds. rewrite Hu. by rewrite Z.eqb_refl.
  - intros H e He Hh. by apply H, (holds_live f e).
Qed.

Lemma find_split {P : epitem -> Prop} `{!forall e, Decision (P e)} ep i e :
  list_find P ep = Some (i, e) ->
  exists l1 l2, ep = l1 ++ e :: l2 /\ (forall x, <[i := x]> ep = l1 ++ x :: l2) /\ P e.
Proof.
  intros (Hi & HP & _)%list_find_Some. exists (take i ep), (drop (S i) ep).
  pose proof (lookup_lt_Some _ _ _ Hi). split_and!; [by rewrite take_drop_middle| |done].
  intros x. by rewrite insert_take_drop.
Qed.

Lemma size_watched ep : wf ep -> size (watched ep) = length (live ep).
Proof.
  intros [_ Hn]. unfold watched. rewrite map_size_list_to_map by (by rewrite keys_kv). by rewrite length_fmap.
Qed.

Lemma find_unused_iff ep : wf ep -> (size (watched ep) <? EPOLL_MAX_ITEMS)%nat = bool_decide (is_Some (find_unused ep)).
Proof.
  intros Hw. rewrite (size_watched ep Hw). destruct Hw as [Hl _]. rewrite <- Hl. unfold find_unused.
  destruct (list_find _ ep) as [[i e]|] eqn:E.
  - rewrite bool_decide_true by eauto. apply Nat.ltb_lt.
    destruct (find_split ep i e E) as (l1 & l2 & -> & _ & Hu).
    rewrite (live_split l1 e l2), Hu. cbn [app]. unfold live.
    pose proof (length_filter (fun e => used e = true) (l1 ++ l2)). rewrite !length_app in *. cbn. lia.
  - rewrite bool_decide_false by (by intros [? ?]). apply Nat.ltb_ge.
    apply list_find_None in E. unfold live. rewrite filter_all; [lia|].
    eapply Forall_impl; [exact E|]. cbn. intros e. by destruct (used e).
Qed.

(** Writing one slot of the table. *)
Lemma arm_watched ep i e f ev d (P : epitem -> Prop) `{!forall e, Decision (P e)} :
  wf ep -> list_find P ep = Some (i, e) -> (used e = true -> fd e = f) -> (used e = false -> watched ep !! f = None) ->
  wf (<[i := arm_item e f ev d]> ep) /\ watched (<[i := arm_item e f ev d]> ep) = <[f := (ev, d)]> (watched ep).
Proof.
  intros [Hl Hn] Hf Hu Hfree. destruct (find_split ep i e Hf) as (l1 & l2 & -> & -> & _).
  destruct (watched_split l1 e l2 Hn) as (E & Hn' & Hfresh).
  assert (f ∉ fd <$> live (l1 ++ l2)) as Hnew.
  { destruct (used e) eqn:Eu; [rewrite <- Hu by done; by apply Hfresh|].
    apply watched_None. rewrite <- E. by apply Hfree. }
  assert (wf (l1 ++ arm_item e f ev d :: l2)) as Hw.
  { apply wf_split; [by rewrite length_app in *|done|done]. }
  split; [done|]. destruct (watched_split _ _ _ (proj2 Hw)) as (-> & _ & _). rewrite E. cbn [arm_item used fd events data].
  destruct (used e) eqn:Eu; [|done]. rewrite Hu by done. by rewrite insert_insert_eq.
Qed.

Lemma drop_watched ep i e f :
  wf ep -> find_locked ep f = Some (i, e) ->
  wf (<[i := drop_item e]> ep) /\ watched (<[i := drop_item e]> ep) = delete f (watched ep).
Proof.
  intros [Hl Hn] Hf. destruct (find_split ep i e Hf) as (l1 & l2 & -> & -> & Hh).
  unfold holds in Hh. apply andb_true_iff in Hh as [Hu Hfd%Z.eqb_eq].
  destruct (watched_split l1 e l2 Hn) as (E & Hn' & Hfresh).
  assert (wf (l1 ++ drop_item e :: l2)) as Hw.
  { apply wf_split; [by rewrite length_app in *|done|done]. }
  split; [done|]. destruct (watched_split _ _ _ (proj2 Hw)) as (-> & _ & _). cbn [drop_item used].
  rewrite E, Hu, Hfd. rewrite delete_insert_id; [done|]. apply watched_None. rewrite <- Hfd. by apply Hfresh.
Qed.

Lemma found_watched ep f i e : find_locked ep f = Some (i, e) -> is_Some (watched ep !! f) /\ used e = true /\ fd e = f.
Proof.
  intros H. split.
  - destruct (watched ep !! f) eqn:E; [eauto|]. apply find_locked_None in E. congruence.
  - destruct (find_split ep i e H) as (? & ? & _ & _ & Hh). unfold holds in Hh.
    by apply andb_true_iff in Hh as [? ?%Z.eqb_eq].
Qed.

(** C26: Epoll_ctl on the 64-slot table is epoll_ctl on a finite map from
    descriptor to (events, cookie): every operation gives the map's answer,
    errors included (EEXIST, ENOENT, ENOSPC exactly at 64 entries, EINVAL),
    and the table stays well formed, one slot per descriptor. *)
Theorem epoll_ctl_refines ep op f ev d :
  wf ep ->
  wf (epoll_ctl_obj ep op f ev d).2 /\
  ((epoll_ctl_obj ep op f ev d).1, watched (epoll_ctl_obj ep op f ev d).2) = spec_ctl (watched ep) op f ev d.
Proof.
  intros Hw. unfold epoll_ctl_obj, spec_ctl. destruct (f <? 0); [done|].
  destruct (op =? EPOLL_CTL_ADD).
  { destruct (find_locked ep f) as [[i e]|] eqn:El.
    - destruct (found_watched _ _ _ _ El) as [[v ->] _]. done.
    - pose proof El as En. apply find_locked_None in En. rewrite En, find_unused_iff by done.
      destruct (find_unused ep) as [[i e]|] eqn:Eu; [|done].
      pose proof Eu as (_ & He & _)%list_find_Some.
      rewrite bool_decide_true by eauto.
      cbn [fst snd]. destruct (arm_watched ep i e f ev d _ Hw Eu) as [? ->]; [congruence|done|done]. }
  destruct (op =? EPOLL_CTL_MOD).
  { destruct (find_locked ep f) as [[i e]|] eqn:El.
    - destruct (found_watched _ _ _ _ El) as ([v ->] & Hu & Hf).
      cbn [fst snd]. destruct (arm_watched ep i e f ev d _ Hw El) as [? ->]; [done|congruence|done].
    - apply find_locked_None in El. by rewrite El. }
  destruct (op =? EPOLL_CTL_DEL); [|done].
  destruct (find_locked ep f) as [[i e]|] eqn:El.
  - destruct (found_watched _ _ _ _ El) as ([v ->] & _).
    cbn [fst snd]. destruct (drop_watched ep i e f Hw El) as [? ->]. done.
  - apply find_locked_None in El. by rewrite El.
Qed.

Lemma create_wf : wf epoll_create_obj.
Proof. split; [done|]. vm_compute. constructor. Qed.

(** ** The scan *)

Section Scan.
Context (r : Z -> Z) (seq : Z).

(** The item is reported when the walk reaches it with room left. *)
Definition fires (e : epitem) : bool := used e && negb ((revents (r (fd e)) e =? 0) || no_edge seq e).

Definition event (e : epitem) : Z * Z := (revents (r (fd e)) e, data e).

Definition firing (its : list epitem) : list epitem := filter (fun e => fires e = true) its.

(** The item after a scan that reported it. *)
Definition after (peek : bool) (e : epitem) : epitem := if peek then e else disarm (mark_reported seq e).

Definition total (f : Z) : option Z := Some (r f).

Lemma firing_cons e its : firing (e :: its) = (if fires e then [e] else []) ++ firing its.
Proof.
  unfold firing. destruct (fires e) eqn:E; [by rewrite filter_cons_True|]. by rewrite filter_cons_False by (by rewrite E).
Qed.

Lemma scan_cons room peek e its : scan_items total seq peek (S room) (e :: its) =
  '(x, out) ← scan_items total seq peek (if fires e then room else S room) its;
  Some ((if fires e then after peek e else e) :: x, (if fires e then [event e] else []) ++ out).
Proof.
  cbn [scan_items]. unfold fires. destruct (used e); cbn [negb andb]; [|by destruct (scan_items _ _ _ _ _) as [[? ?]|]].
  cbn [total mbind option_bind]. destruct (_ || _); cbn [negb]; by destruct (scan_items _ _ _ _ _) as [[? ?]|].
Qed.

Lemma scan_spec peek room its : exists its', scan_items total seq peek room its =
    Some (its', event <$> take room (firing its)) /\ length its' = length its /\
    forall i e, its !! i = Some e ->
      its' !! i = Some (if fires e && (length (firing (take i its)) <? room)%nat then after peek e else e).
Proof.
  revert room. induction its as [|e its IH]; intros room.
  { exists []. change (firing []) with (@nil epitem). by rewrite take_nil. }
  destruct room as [|room].
  { exists (e :: its). split_and!; [done|done|]. intros i x Hi. by rewrite andb_false_r. }
  rewrite scan_cons, firing_cons. destruct (IH (if fires e then room else S room)) as (x & -> & Hl & Hx).
  exists ((if fires e then after peek e else e) :: x). split_and!; [by destruct (fires e)| |].
  - cbn. by rewrite Hl.
  - intros [|i] y Hy.
    + cbn in Hy |- *. simplify_eq. by rewrite andb_true_r.
    + rewrite lookup_cons in Hy |- *. rewrite (Hx i y Hy). cbn [take]. rewrite firing_cons, length_app. by destruct (fires e).
Qed.

End Scan.

(** One scan of a set reports exactly the first [maxevents] items, in
    table order, that are watched, ready in a bit they asked for (or hung up,
    or in error) and not an edge already reported; it changes those items
    alone, and a peek changes nothing. *)
Theorem epoll_scan_correct r seq peek room its :
  exists its', scan_items (total r) seq peek room its = Some (its', event r <$> take room (firing r seq its)) /\
    (peek = true -> its' = its) /\
    forall i e, its !! i = Some e ->
      its' !! i = Some (if fires r seq e && (length (firing r seq (take i its)) <? room)%nat
                        then after seq peek e else e).
Proof.
  destruct (scan_spec r seq peek room its) as (its' & -> & Hl & Hx). exists its'. split_and!; [done| |done].
  intros ->. apply list_eq_same_length with (length its); [done|done|]. intros i x y _ Hi Hj.
  rewrite (Hx i y Hj) in Hi. by case_match; simplify_eq.
Qed.

(** A peek answers "would a wait return events": [epoll_has_events] on a set
    of plain descriptors. *)
Lemma peek_agrees r seq m its : (0 < m)%nat ->
  (exists a e l, scan_items (total r) seq true 1 its = Some (a, e :: l)) <->
  (exists a e l, scan_items (total r) seq false m its = Some (a, e :: l)).
Proof.
  intros Hm. destruct (scan_spec r seq true 1 its) as (a & -> & _), (scan_spec r seq false m its) as (b & -> & _).
  destruct m as [|m]; [lia|]. destruct (firing r seq its) as [|e l]; naive_solver.
Qed.

(** *** Edges *)

Lemma u32_shift_eq q k : 0 <= q < 2 ^ 32 -> 0 <= k < 2 ^ 32 -> (q =? u32 (q + k)) = (k =? 0).
Proof.
  intros Hq Hk. unfold u32. change (2 ^ 32) with 4294967296 in *.
  destruct (Z.eqb_spec k 0) as [->|Hne]; [rewrite Z.add_0_r, Z.mod_small by lia; apply Z.eqb_refl|].
  apply Z.eqb_neq. intros E. destruct (Z_lt_dec (q + k) 4294967296) as [?|?].
  - rewrite Z.mod_small in E by lia. lia.
  - rewrite <- (Z.mod_add _ (-1)), Z.mod_small in E by lia. lia.
Qed.

(** An edge-triggered item that was reported when the event count was [q]
    is reported again by a later scan that finds it ready exactly when at
    least one readiness event was signalled in between (fewer than 2^32 of
    them): no edge is missed, and without one the item stays silent. *)
Theorem epoll_edge_triggered r r' q k its its' out i e room :
  0 <= q < 2 ^ 32 -> 0 <= k < 2 ^ 32 ->
  its !! i = Some e -> flag e EPOLLET = true -> flag e EPOLLONESHOT = false ->
  fires r q e = true -> (length (firing r q (take i its)) < room)%nat ->
  scan_items (total r) q false room its = Some (its', out) ->
  exists e', its' !! i = Some e' /\ fd e' = fd e /\ data e' = data e /\
    fires r' (u32 (q + k)) e' = negb (revents (r' (fd e)) e =? 0) && negb (k =? 0).
Proof.
  intros Hq Hk Hi Het Hone Hf Hroom Hs. destruct (scan_spec r q false room its) as (x & E & _ & Hx).
  rewrite E in Hs. simplify_eq. rewrite (Hx i e Hi), Hf. apply Nat.ltb_lt in Hroom. rewrite Hroom. cbn [andb after].
  assert (used e = true) as Hu by (unfold fires in Hf; by apply andb_true_iff in Hf as [? _]).
  eexists. split; [reflexivity|].
  unfold disarm, mark_reported. rewrite Het. unfold flag in *. cbn [events]. rewrite Hone.
  split_and!; [done|done|]. unfold fires, no_edge, revents, flag. cbn. rewrite Hu, Het. cbn.
  rewrite u32_shift_eq by done. by rewrite negb_orb.
Qed.

(** *** One shot *)

Lemma land_high x n : 0 <= x < 2 ^ n -> Z.land x (2 ^ n) = 0.
Proof.
  intros H. assert (0 <= n) by (destruct (Z_lt_dec n 0); [rewrite Z.pow_neg_r in H by lia|]; lia).
  apply Z.bits_inj'. intros k Hk. rewrite Z.land_spec, Z.bits_0, Z.pow2_bits_eqb by lia.
  destruct (Z.eqb_spec n k) as [->|]; [|apply andb_false_r].
  rewrite <- (Z.mod_small x (2 ^ k)) by done. by rewrite Z.mod_pow2_bits_high by lia.
Qed.

(** A level-triggered EPOLLONESHOT item armed for reading and writing,
    once reported, is reported again exactly when its descriptor is in error
    or hung up: data and space are disarmed, EPOLLERR and EPOLLHUP are not, so
    a hung-up one-shot item is handed to every following wait. *)
Theorem epoll_oneshot r r' seq seq' its its' out i e room :
  its !! i = Some e -> events e ∈ [0x40000001; 0x40000004; 0x40000005] ->
  fires r seq e = true -> (length (firing r seq (take i its)) < room)%nat ->
  scan_items (total r) seq false room its = Some (its', out) -> 0 <= r' (fd e) < 2 ^ 30 ->
  exists e', its' !! i = Some e' /\ fires r' seq' e' = negb (Z.land (r' (fd e)) EP_ALWAYS =? 0).
Proof.
  intros Hi Hev Hf Hroom Hs Hr. destruct (scan_spec r seq false room its) as (x & E & _ & Hx).
  rewrite E in Hs. simplify_eq. rewrite (Hx i e Hi), Hf. apply Nat.ltb_lt in Hroom. rewrite Hroom. cbn [andb after].
  assert (used e = true) as Hu by (unfold fires in Hf; by apply andb_true_iff in Hf as [? _]).
  eexists. split; [reflexivity|].
  assert (disarm (mark_reported seq e) = It (fd e) EPOLLONESHOT (data e) true (et_seen e) (et_reported e)) as ->.
  { destruct e as [f ev d u s rp]. cbn in Hev, Hu. subst u.
    repeat (apply elem_of_cons in Hev as [Hev|Hev]; [subst ev; reflexivity|]). by apply not_elem_of_nil in Hev. }
  unfold fires. cbn [used fd no_edge flag events andb orb negb]. rewrite orb_false_r.
  unfold revents. cbn [events]. rewrite Z.land_lor_distr_r, (land_high _ 30), Z.lor_0_l by done. done.
Qed.
(** ** Waiting *)

(** A scan that reports nothing changes nothing. *)
Lemma scan_empty p room its its' :
  (0 < room)%nat -> scan_items (ready_at p) (now_seq p) false room its = Some (its', []) ->
  its' = its /\ firing (now_ready p) (now_seq p) its = [].
Proof.
  intros Hr Hs. destruct (scan_spec (now_ready p) (now_seq p) false room its) as (x & E & Hl & Hx).
  change (ready_at p) with (total (now_ready p)) in Hs. rewrite E in Hs. injection Hs as <- Ho.
  assert (firing (now_ready p) (now_seq p) its = []) as Hn.
  { destruct room, (firing (now_ready p) (now_seq p) its); [lia|lia|done|done]. }
  split; [|done]. apply list_eq_same_length with (length its); [done|done|]. intros i a b _ Ha Hb.
  rewrite (Hx i b Hb) in Ha. destruct (fires (now_ready p) (now_seq p) b) eqn:Ef; [|by simplify_eq].
  assert (b ∈ firing (now_ready p) (now_seq p) its) as Hin.
  { apply list_elem_of_filter. split; [done|]. by eapply list_elem_of_lookup_2. }
  rewrite Hn in Hin. by apply not_elem_of_nil in Hin.
Qed.

Lemma scan_total p peek room its : exists x, scan_items (ready_at p) (now_seq p) peek room its =
  Some (x, event (now_ready p) <$> take room (firing (now_ready p) (now_seq p) its)).
Proof. destruct (scan_spec (now_ready p) (now_seq p) peek room its) as (x & E & _). by exists x. Qed.

Definition ready_pass (ep : epoll) (p : pass) : Prop := exists e, e ∈ ep /\ fires (now_ready p) (now_seq p) e = true.

Lemma ready_pass_firing ep p : ready_pass ep p <-> firing (now_ready p) (now_seq p) ep <> [].
Proof.
  unfold ready_pass. split.
  - intros (e & He & Hf) Hn. assert (e ∈ firing (now_ready p) (now_seq p) ep) as H by (by apply list_elem_of_filter).
    rewrite Hn in H. by apply not_elem_of_nil in H.
  - intros H. destruct (firing _ _ ep) as [|e l] eqn:E; [done|]. exists e.
    assert (e ∈ firing (now_ready p) (now_seq p) ep) as Hin by (rewrite E; by left).
    by apply list_elem_of_filter in Hin as [? ?].
Qed.

Lemma wait_loop_returns timed room ep last ps :
  (0 < room)%nat -> Exists (ready_pass ep) ps -> wait_loop timed room ep last ps <> None.
Proof.
  intros Hr. revert last. induction ps as [|p ps IH]; intros last; [by inversion 1|].
  intros Hex. cbn [wait_loop]. destruct (timed && expired p); [done|]. destruct (stop p); [done|].
  destruct (scan_total p false room ep) as [x E]. rewrite E. cbn [mbind option_bind].
  destruct (event (now_ready p) <$> take room (firing (now_ready p) (now_seq p) ep)) as [|o os] eqn:Eo; cbn [length]; [|done].
  destruct (scan_empty p room ep x Hr E) as [-> Hn]. destruct (stop_locked p); [done|]. cbn.
  apply IH. inversion Hex as [? ? Hp|]; subst; [|done]. apply ready_pass_firing in Hp. done.
Qed.

(** A waiter is not left parked: if the set has a ready item at any pass
    the wait makes (each wake-up is one), epoll_wait returns, whatever its
    timeout. *)
Theorem epoll_wait_wakes ep maxevents timeout first ps :
  0 < maxevents -> Exists (ready_pass ep) ps -> is_Some (epoll_wait_obj ep maxevents timeout first ps).
Proof.
  intros Hm Hex. unfold epoll_wait_obj. destruct (Z.leb_spec maxevents 0); [lia|].
  destruct (scan_total first false (Z.to_nat maxevents) ep) as [x E]. rewrite E. cbn [mbind option_bind].
  destruct (event (now_ready first) <$> _) as [|o os] eqn:Eo; [|cbn; by eexists].
  apply scan_empty in E as [-> _]; [|lia]. cbn [length]. destruct (timeout =? 0); [by eexists|]. cbn [orb Z.ltb Z.of_nat Z.compare].
  destruct (wait_loop _ _ ep [] ps) as [[a b]|] eqn:Ew; [by eexists|]. exfalso.
  eapply wait_loop_returns; [|exact Hex|exact Ew]. lia.
Qed.

Lemma wait_loop_empty timed room ep last ps ep' :
  wait_loop timed room ep last ps = Some (ep', []) ->
  exists p, p ∈ ps /\ ((timed = true /\ expired p = true) \/ stop p = true \/ stop_locked p = true).
Proof.
  revert ep last. induction ps as [|p ps IH]; intros ep last; [done|]. cbn [wait_loop].
  destruct (timed && expired p) eqn:E1; [bool_props; exists p; split; [by left|by left]|].
  destruct (stop p) eqn:E2; [exists p; split; [by left|by right; left]|].
  destruct (scan_items _ _ _ _ _) as [[x out]|]; [|done]. cbn [mbind option_bind].
  destruct out as [|o os]; cbn [length]; [|by intros [=]].
  destruct (stop_locked p) eqn:E3; [exists p; split; [by left|by right; right]|]. cbn.
  intros (q & Hq & Hs)%IH. exists q. split; [by right|done].
Qed.

(** Epoll_wait returns at most [maxevents] events and says how many; it
    returns none only for a zero timeout, a deadline that passed (timed waits
    only) or a pending kill. *)
Theorem epoll_wait_empty ep maxevents timeout first ps n ep' out :
  0 < maxevents -> epoll_wait_obj ep maxevents timeout first ps = Some (n, ep', out) ->
  n = Z.of_nat (length out) /\
  (n = 0 -> timeout = 0 \/ exists p, p ∈ ps /\
     ((0 < timeout /\ expired p = true) \/ stop p = true \/ stop_locked p = true)).
Proof.
  intros Hm. unfold epoll_wait_obj. destruct (Z.leb_spec maxevents 0); [lia|].
  destruct (scan_items _ _ _ _ _) as [[x o1]|]; [|done]. cbn [mbind option_bind].
  destruct ((0 <? Z.of_nat (length o1)) || (timeout =? 0)) eqn:E1.
  { intros [=]; subst. split; [done|]. intros H0. left. apply orb_true_iff in E1 as [?|?]; bool_props; lia. }
  destruct (wait_loop _ _ x o1 ps) as [[a b]|] eqn:Ew; [|done]. intros [=]; subst. split; [done|]. intros H0. right.
  destruct out; [|done]. apply wait_loop_empty in Ew as (p & Hp & Hs). exists p. split; [done|].
  destruct Hs as [[H1 H2]|Hs]; [|by right]. left. bool_props. split; [lia|done].
Qed.

(** ** Sets watching sets *)

Lemma scan_Some ready seq peek room its :
  Forall (fun e => used e = true -> is_Some (ready (fd e))) its -> is_Some (scan_items ready seq peek room its).
Proof.
  intros H. revert room. induction H as [|e its He _ IH]; intros room; [by eexists|].
  destruct room as [|room]; [by eexists|]. cbn [scan_items].
  destruct (used e); cbn [negb].
  - destruct (He eq_refl) as [rd ->]. cbn [mbind option_bind]. destruct (_ || _).
    + destruct (IH (S room)) as [[? ?] ->]. by eexists.
    + destruct (IH room) as [[? ?] ->]. by eexists.
  - destruct (IH (S room)) as [[? ?] ->]. by eexists.
Qed.

Section Nesting.
Context (w : world) (rank : Z -> nat).

(** The sets are nested without a cycle. *)
Definition acyclic : Prop := forall id id' e,
  e ∈ set_of w id -> used e = true -> lookup w (fd e) = Set_ id' -> (rank id' < rank id)%nat.

Lemma has_events_done room held id :
  acyclic -> Forall (fun h => (rank id < rank h)%nat) held -> is_Some (epoll_has_events room w held id).
Proof.
  intros Hac. revert held id. induction room as [|room IH]; intros held id Hh; [by eexists|].
  cbn [epoll_has_events]. unfold ep_scan.
  destruct (bool_decide_reflect (id ∈ held)) as [Hin|_].
  { rewrite Forall_forall in Hh. specialize (Hh id Hin). lia. }
  edestruct (scan_Some) as [[? ?] ->]; [|by eexists].
  apply Forall_forall. intros e He Hu. destruct (lookup w (fd e)) as [id'|b] eqn:El; [|by eexists].
  pose proof (Hac _ _ _ He Hu El) as Hlt.
  edestruct (IH (id :: held) id') as [b ->]; [|by eexists].
  constructor; [done|]. eapply Forall_impl; [exact Hh|]. cbn. lia.
Qed.

(** As long as sets watch each other without a cycle, a wait's scan never
    meets a lock its own call chain holds, however deep the nesting: the scan
    completes. *)
Theorem epoll_nested_scan_completes id maxevents :
  acyclic -> is_Some (wait_scan w id maxevents).
Proof.
  intros Hac. unfold wait_scan, ep_scan. rewrite bool_decide_false by apply not_elem_of_nil.
  apply scan_Some, Forall_forall. intros e He Hu. unfold fd_readiness_of.
  destruct (lookup w (fd e)) as [id'|b] eqn:El; [|by eexists].
  edestruct (has_events_done EPOLL_MAX_DEPTH [id] id' Hac) as [b ->]; [|by eexists].
  constructor; [by eapply Hac|done].
Qed.
End Nesting.

(** The depth limit does not make a cycle harmless: when two sets watch
    each other (or one watches itself through a duplicated descriptor) and
    nothing before those entries is ready, the scan of a wait spins forever on
    a lock its own call chain holds. *)
Theorem epoll_cycle_deadlocks w a b ea ra eb rb m :
  set_of w a = ea :: ra -> used ea = true -> lookup w (fd ea) = Set_ b ->
  set_of w b = eb :: rb -> used eb = true -> lookup w (fd eb) = Set_ a ->
  (0 < m)%nat -> wait_scan w a m = None.
Proof.
  intros Sa Ua La Sb Ub Lb Hm. destruct m as [|m]; [lia|].
  unfold wait_scan, ep_scan. rewrite bool_decide_false by apply not_elem_of_nil. rewrite Sa.
  cbn [scan_items]. rewrite Ua. cbn [negb]. unfold fd_readiness_of. rewrite La.
  unfold EPOLL_MAX_DEPTH. cbn [epoll_has_events]. unfold ep_scan.
  destruct (bool_decide_reflect (b ∈ [a])) as [_|Hne]; [done|].
  rewrite Sb. cbn [scan_items]. rewrite Ub. cbn [negb]. rewrite Lb.
  by rewrite bool_decide_true by (right; left).
Qed.

(** ** Evaluation *)

Definition ready_in (f : Z) : Z := if f =? 7 then EPOLLIN else 0.
Definition ep7 : epoll := (epoll_ctl_obj epoll_create_obj EPOLL_CTL_ADD 7 (EPOLLIN + EPOLLET) 99).2.
Definition ep7_once : epoll := (epoll_ctl_obj epoll_create_obj EPOLL_CTL_ADD 7 (EPOLLIN + EPOLLONESHOT) 99).2.

Lemma epoll_ctl_refines_witness :
  (0, watched ep7) = spec_ctl (watched epoll_create_obj) EPOLL_CTL_ADD 7 (EPOLLIN + EPOLLET) 99.
Proof. apply (epoll_ctl_refines epoll_create_obj EPOLL_CTL_ADD 7 (EPOLLIN + EPOLLET) 99), create_wf. Defined.

Definition scanned (ep : epoll) : epoll := default [] (fst <$> scan_items (total ready_in) 5 false 4 ep).

Lemma epoll_edge_triggered_witness :
  exists e', scanned ep7 !! 0%nat = Some e' /\ fd e' = 7 /\ data e' = 99 /\ fires ready_in (u32 (5 + 1)) e' = true.
Proof.
  apply (epoll_edge_triggered ready_in ready_in 5 1 ep7 (scanned ep7) [(1, 99)] 0 (It 7 (EPOLLIN + EPOLLET) 99 true 0 false) 4);
    try lia; vm_compute; try reflexivity. lia.
Defined.

Lemma epoll_oneshot_witness :
  exists e', scanned ep7_once !! 0%nat = Some e' /\ fires (fun _ => EPOLLHUP) 6 e' = true.
Proof.
  apply (epoll_oneshot ready_in (fun _ => EPOLLHUP) 5 6 ep7_once (scanned ep7_once) [(1, 99)] 0
           (It 7 (EPOLLIN + EPOLLONESHOT) 99 true 0 false) 4).
  - reflexivity.
  - left.
  - reflexivity.
  - vm_compute. lia.
  - vm_compute. reflexivity.
  - cbv. split; congruence.
Defined.

Definition quiet : pass := Pass false false false (fun _ => 0) 5.
Definition woken : pass := Pass false false false ready_in 6.

Lemma epoll_wait_wakes_witness : is_Some (epoll_wait_obj ep7 4 (-1) quiet [quiet; woken]).
Proof.
  apply epoll_wait_wakes; [lia|]. apply Exists_cons_tl, Exists_cons_hd. eexists. split; [left|]. reflexivity.
Defined.

Definition late : pass := Pass true false false (fun _ => 0) 5.

Lemma epoll_wait_empty_witness :
  5 = 0 \/ exists p, p ∈ [quiet; late] /\ ((0 < 5 /\ expired p = true) \/ stop p = true \/ stop_locked p = true).
Proof. apply (epoll_wait_empty ep7 4 5 quiet [quiet; late] 0 ep7 []); [lia| |done]. vm_compute. reflexivity. Defined.

(** Set 1 watches set 2 through descriptor 4; set 2 watches descriptor 7. *)
Definition chain : world :=
  W (fun id => if id =? 1 then [It 4 EPOLLIN 1 true 0 false] else if id =? 2 then [It 7 EPOLLIN 2 true 0 false] else [])
    (fun f => if f =? 4 then Set_ 2 else Other (ready_in f)) 0.

Lemma epoll_nested_scan_completes_witness : is_Some (wait_scan chain 1 8).
Proof.
  apply (epoll_nested_scan_completes chain (fun id => if id =? 1 then 1%nat else 0%nat)).
  intros id id' e He Hu Hl. cbn in He, Hl |- *.
  destruct (id =? 1).
  - apply list_elem_of_singleton in He as ->. cbn in Hl. injection Hl as <-. cbn. lia.
  - destruct (id =? 2); [|by apply not_elem_of_nil in He].
    apply list_elem_of_singleton in He as ->. cbn in Hl. done.
Defined.

(** Two sets watching each other through descriptors 4 and 5. *)
Definition loop : world :=
  W (fun id => if id =? 1 then [It 4 EPOLLIN 1 true 0 false] else [It 5 EPOLLIN 2 true 0 false])
    (fun f => if f =? 4 then Set_ 2 else Set_ 1) 0.

Lemma epoll_cycle_deadlocks_witness : wait_scan loop 1 8 = None.
Proof.
  apply (epoll_cycle_deadlocks loop 1 2 (It 4 EPOLLIN 1 true 0 false) [] (It 5 EPOLLIN 2 true 0 false) []);
    first [reflexivity|lia].
Defined.

End EpollSpec.
