(* ===== verification/Workqueue.v ===== *)
(** * The work queue (kernel/core/workqueue.c)

    Deferred work: a linked FIFO of [struct work] and a count of the items
    queued or running that [work_flush] waits on.  The queue operations are
    translated with their links and proved to be a FIFO; the pool is a step
    relation in which [inflight++] (under the pending lock) and [inflight--]
    (under the completion lock) are a read and a write each, as two CPUs
    execute them. *)

From stdpp Require Import base list relations.
From Stdlib Require Import ZArith Lia Bool.
From S2P Require Import Prelude.
Open Scope Z_scope.

Module Workqueue.

(** Work items are addresses; 0 is NULL.  [nxt] and [queued] are fields of the
    items, [fn] says whether the item's callback is set. *)
Record wq := Wq {
  q_head : Z; q_tail : Z; q_len : Z; nxt : Z -> Z; queued : Z -> bool;
  inflight : Z; completed : Z; pool_up : bool }.

Definition empty : wq := Wq 0 0 0 (fun _ => 0) (fun _ => false) 0 0 true.

Definition set_inflight (s : wq) (v : Z) : wq :=
  Wq (q_head s) (q_tail s) (q_len s) (nxt s) (queued s) v (completed s) (pool_up s).

(** The submission's critical section up to [inflight++]; [None] when the item
    is refused (-1), [Some (false, _)] when it is already pending. *)
Definition work_submit (fn : Z -> bool) (s : wq) (w : Z) : option (bool * wq) :=
  if (w =? 0) || negb (fn w) then None
  else if negb (pool_up s) then None
  else if queued s w then Some (false, s)
  else
    let n1 := (nxt s)⟦w ↦ 0⟧ in
    let n2 := if negb (q_tail s =? 0) then n1⟦q_tail s ↦ w⟧ else n1 in
    let h := if negb (q_tail s =? 0) then q_head s else w in
    Some (true, Wq h w (q_len s + 1) n2 ((queued s)⟦w ↦ true⟧) (inflight s) (completed s) (pool_up s)).

Definition q_pop_locked (s : wq) : option (Z * wq) :=
  let w := q_head s in
  if w =? 0 then None
  else
    let h := nxt s w in
    Some (w, Wq h (if h =? 0 then 0 else q_tail s) (q_len s - 1) ((nxt s)⟦w ↦ 0⟧) ((queued s)⟦w ↦ false⟧)
               (inflight s) (completed s) (pool_up s)).

(** ** The links are a FIFO *)

(** The chain of links from [h] visits exactly [l]. *)
Fixpoint chain (n : Z -> Z) (h : Z) (l : list Z) : Prop :=
  match l with
  | [] => h = 0
  | w :: l' => h = w /\ w <> 0 /\ chain n (n w) l'
  end.

Definition rep (s : wq) (l : list Z) : Prop :=
  chain (nxt s) (q_head s) l /\ q_tail s = default 0 (last l) /\ NoDup l /\
  q_len s = Z.of_nat (length l) /\ forall w, queued s w = true <-> w ∈ l.

Lemma chain_app_upd n h l w :
  chain n h l -> w ∉ l -> w <> 0 -> NoDup l ->
  forall t, last l = Some t -> chain (n⟦w ↦ 0⟧⟦t ↦ w⟧) h (l ++ [w]).
Proof.
  revert h. induction l as [|x l IH]; intros h Hc Hw H0 Hn t Ht; [done|].
  destruct Hc as (-> & Hx & Hc). apply not_elem_of_cons in Hw as [Hwx Hw]. apply NoDup_cons in Hn as [Hxl Hn].
  cbn [app chain]. split_and!; [done|done|].
  destruct l as [|y l].
  - injection Ht as <-. rewrite upd_same. cbn. split_and!; [done|done|]. rewrite upd_other, upd_same; done.
  - assert (x <> t) as Hxt.
    { intros ->. apply Hxl. assert (last (y :: l) = Some t) as E by done. by apply last_Some_elem_of in E. }
    rewrite !upd_other by done. apply IH; [|done..]. done.
Qed.

Lemma link_upd n h l w v : chain n h l -> w ∉ l -> chain (n⟦w ↦ v⟧) h l.
Proof.
  revert h. induction l as [|x l IH]; intros h; [done|]. intros (-> & Hx & Hc) [Hwx Hw]%not_elem_of_cons.
  cbn [chain]. split_and!; [done|done|]. rewrite upd_other by done. by apply IH.
Qed.

Lemma rep_nonzero s l : rep s l -> 0 ∉ l.
Proof.
  intros (Hc & _). revert Hc. generalize (q_head s). induction l as [|x l IH]; intros h; [intros _ ?%not_elem_of_nil; done|].
  intros (-> & Hx & Hc) [?|Hin]%elem_of_cons; [done|]. by apply (IH _ Hc).
Qed.

(** Submission appends, once. *)
Lemma submit_fifo fn s l w : rep s l -> pool_up s = true -> w <> 0 -> fn w = true ->
  exists s', work_submit fn s w = Some (negb (bool_decide (w ∈ l)), s') /\
    rep s' (if bool_decide (w ∈ l) then l else l ++ [w]) /\
    inflight s' = inflight s /\ completed s' = completed s /\ pool_up s' = true.
Proof.
  intros Hr Hp H0 Hf. pose proof Hr as (Hc & Ht & Hn & Hl & Hq). unfold work_submit.
  apply Z.eqb_neq in H0 as E0. rewrite E0, Hf, Hp. cbn [orb negb].
  destruct (queued s w) eqn:Eq.
  { rewrite bool_decide_true by (by apply Hq). by exists s. }
  assert (w ∉ l) as Hw by (rewrite <- Hq; congruence). rewrite bool_decide_false by done.
  eexists. split; [reflexivity|]. split; [|done]. unfold rep. cbn [nxt q_head q_tail q_len queued].
  split_and!.
  - destruct (last l) as [t|] eqn:El.
    + assert (t ∈ l) as Hin by (by apply last_Some_elem_of). assert (t <> 0) by (intros ->; by apply (rep_nonzero s l)).
      assert (q_tail s = t) as -> by (by rewrite Ht). rewrite (proj2 (Z.eqb_neq t 0)) by done. cbn [negb]. by apply chain_app_upd.
    + apply last_None in El as ->. rewrite Ht. cbn. split_and!; [done|done|]. by rewrite upd_same.
  - by rewrite last_snoc.
  - apply NoDup_app. split_and!; [done| |apply NoDup_singleton]. intros x Hx ->%list_elem_of_singleton. done.
  - rewrite length_app, Hl. cbn. lia.
  - intros x. rewrite upd_eq, elem_of_app, list_elem_of_singleton. destruct (Z.eqb_spec x w) as [->|Hne]; [tauto|].
    rewrite Hq. tauto.
Qed.

(** The pop takes the oldest. *)
Lemma pop_fifo s l : rep s l ->
  match l with
  | [] => q_pop_locked s = None
  | w :: l' => exists s', q_pop_locked s = Some (w, s') /\ rep s' l' /\
      inflight s' = inflight s /\ completed s' = completed s /\ pool_up s' = pool_up s
  end.
Proof.
  intros Hr. pose proof Hr as (Hc & Ht & Hn & Hl & Hq). unfold q_pop_locked. destruct l as [|w l].
  { cbn in Hc. by rewrite Hc. }
  destruct Hc as (-> & H0 & Hc). rewrite (proj2 (Z.eqb_neq w 0)) by done.
  apply NoDup_cons in Hn as [Hw Hn]. eexists. split; [reflexivity|]. split; [|done].
  unfold rep. cbn [nxt q_head q_tail q_len queued]. split_and!.
  - by apply link_upd.
  - destruct l as [|x l].
    + cbn in Hc. by rewrite Hc.
    + destruct Hc as (-> & Hx & _). rewrite (proj2 (Z.eqb_neq x 0)) by done. by rewrite Ht.
  - done.
  - cbn in Hl. lia.
  - intros x. rewrite upd_eq. specialize (Hq x). rewrite elem_of_cons in Hq. destruct (Z.eqb_spec x w) as [->|?]; naive_solver.
Qed.

(** ** The pool *)

(** [subm] is the value a submitter has read from [inflight] and not yet
    written back (it holds the pending lock), [fin] the same for a worker (it
    holds the completion lock); [running] are the items whose callback runs;
    [accepted] and [started] record the history. *)
Record sys := Sys { q : wq; subm : option Z; running : list Z; fin : option Z;
                    accepted : list Z; started : list Z }.

Definition init : sys := Sys empty None [] None [] [].

(** [one_lock]: the two updates of [inflight] exclude each other. *)
Inductive step (fn : Z -> bool) (one_lock : bool) : sys -> sys -> Prop :=
| submit_begin s w q' :
    subm s = None -> (one_lock = true -> fin s = None) -> work_submit fn (q s) w = Some (true, q') ->
    step fn one_lock s (Sys q' (Some (inflight q')) (running s) (fin s) (accepted s ++ [w]) (started s))
| submit_end s v :
    subm s = Some v ->
    step fn one_lock s (Sys (set_inflight (q s) (v + 1)) None (running s) (fin s) (accepted s) (started s))
| pop s w q' :
    subm s = None -> q_pop_locked (q s) = Some (w, q') ->
    step fn one_lock s (Sys q' None (w :: running s) (fin s) (accepted s) (started s ++ [w]))
| finish_begin s w r1 r2 :
    fin s = None -> (one_lock = true -> subm s = None) -> running s = r1 ++ w :: r2 ->
    step fn one_lock s
      (Sys (Wq (q_head (q s)) (q_tail (q s)) (q_len (q s)) (nxt (q s)) (queued (q s))
               (inflight (q s)) (completed (q s) + 1) (pool_up (q s)))
           (subm s) (r1 ++ r2) (Some (inflight (q s))) (accepted s) (started s))
| finish_end s v :
    fin s = Some v ->
    step fn one_lock s
      (Sys (set_inflight (q s) (if 0 <? v then v - 1 else v)) (subm s) (running s) None (accepted s) (started s)).

(** [work_flush] returns: its test of [inflight] fails under the completion lock. *)
Definition flush_returns (s : sys) : bool := match fin s with None => negb (0 <? inflight (q s)) | Some _ => false end.

(** Whatever the locks do to the count, the queue runs every accepted item
    once and in order. *)
Definition queue_ok (s : sys) : Prop :=
  exists l, rep (q s) l /\ accepted s = started s ++ l /\ pool_up (q s) = true.

Lemma submit_cases fn s l w b s' : rep s l -> pool_up s = true -> work_submit fn s w = Some (b, s') ->
  (b = true -> w ∉ l /\ rep s' (l ++ [w])) /\ inflight s' = inflight s /\ pool_up s' = true.
Proof.
  intros Hr Hp Hs. assert (w <> 0 /\ fn w = true) as [H0 Hf].
  { unfold work_submit in Hs. destruct (Z.eqb_spec w 0); [done|]. by destruct (fn w). }
  destruct (submit_fifo fn s l w Hr Hp H0 Hf) as (x & E & Hr' & Hi & _ & Hp'). rewrite E in Hs. simplify_eq.
  split_and!; [|done|done]. intros Hb. destruct (bool_decide_reflect (w ∈ l)); [done|]. done.
Qed.

Lemma pop_cases s l w s' : rep s l -> q_pop_locked s = Some (w, s') ->
  exists l', l = w :: l' /\ rep s' l' /\ inflight s' = inflight s /\ pool_up s' = pool_up s.
Proof.
  intros Hr Hp. pose proof (pop_fifo s l Hr) as H. destruct l as [|x l]; [congruence|].
  destruct H as (y & E & Hr' & Hi & _ & Hu). rewrite E in Hp. simplify_eq. by exists l.
Qed.

Lemma step_queue fn b s s' : step fn b s s' -> queue_ok s -> queue_ok s'.
Proof.
  intros Hs (l & Hr & Ha & Hp). destruct Hs as [s w q' _ _ Hw|s v _|s w q' _ Hw|s w r1 r2 _ _ _|s v _].
  - destruct (submit_cases _ _ _ _ _ _ Hr Hp Hw) as (H & _ & Hp'). destruct (H eq_refl) as [_ Hr'].
    exists (l ++ [w]). cbn. by rewrite Ha, app_assoc.
  - by exists l.
  - destruct (pop_cases _ _ _ _ Hr Hw) as (l' & -> & Hr' & _ & Hp'). exists l'. cbn. rewrite Ha, <- app_assoc. by rewrite Hp'.
  - by exists l.
  - by exists l.
Qed.

Lemma init_queue : queue_ok init.
Proof. exists []. split; [|done]. unfold rep. cbn. split_and!; try done; [constructor|]. intros w. by rewrite elem_of_nil. Qed.

(** Every accepted item is started exactly once and in the order of
    submission, on any number of workers: what has been started is a prefix
    of what was accepted, and the rest is what the queue holds. *)
Theorem workqueue_fifo fn b s : rtc (step fn b) init s ->
  exists l, rep (q s) l /\ accepted s = started s ++ l.
Proof.
  intros H. destruct (rtc_invariant _ queue_ok _ _ H (step_queue fn b) init_queue) as (l & ? & ? & _). by exists l.
Qed.

(** ** The count *)

Definition mid (o : option Z) : Z := match o with Some _ => 1 | None => 0 end.

(** With the two updates serialised: the count is what is queued, running or
    being accounted for. *)
Definition count_ok (s : sys) : Prop :=
  exists l, rep (q s) l /\ pool_up (q s) = true /\
    inflight (q s) + mid (subm s) = Z.of_nat (length l) + Z.of_nat (length (running s)) + mid (fin s) /\
    (subm s = None \/ fin s = None) /\
    (forall v, subm s = Some v -> v = inflight (q s)) /\ (forall v, fin s = Some v -> v = inflight (q s)).

Lemma step_count fn s s' : step fn true s s' -> count_ok s -> count_ok s'.
Proof.
  intros Hs (l & Hr & Hp & Hc & He & Hv1 & Hv2).
  destruct Hs as [s w q' Hsub Hfin Hw|s v Hsub|s w q' Hsub Hw|s w r1 r2 Hfin Hsub Hrun|s v Hfin].
  - destruct (submit_cases _ _ _ _ _ _ Hr Hp Hw) as (H & Hi & Hp'). destruct (H eq_refl) as [_ Hr'].
    specialize (Hfin eq_refl). exists (l ++ [w]). cbn. rewrite Hsub, Hfin in *. cbn in *. rewrite length_app, Hi. cbn.
    split_and!; [done|done|lia|by right|naive_solver|done].
  - exists l. rewrite Hsub in *. cbn in *. destruct He as [?|He]; [done|]. rewrite He in *. cbn in *.
    specialize (Hv1 v eq_refl). split_and!; [done|done|lia|by left|done|done].
  - destruct (pop_cases _ _ _ _ Hr Hw) as (l' & -> & Hr' & Hi & Hp'). exists l'. cbn. rewrite Hsub in *. cbn in *.
    rewrite Hi, Hp'. split_and!; [done|done|lia|by left|done|done].
  - specialize (Hsub eq_refl). exists l. cbn. rewrite Hrun, Hsub, Hfin in *. cbn in *. rewrite !length_app in *. cbn in *.
    split_and!; [done|done|lia|by left|done|naive_solver].
  - exists l. rewrite Hfin in *. cbn in *. destruct He as [He|?]; [|done]. rewrite He in *. cbn in *.
    specialize (Hv2 v eq_refl). assert (0 < v) by lia. rewrite (proj2 (Z.ltb_lt 0 v)) by done.
    split_and!; [done|done|lia|by left|done|done].
Qed.

Lemma init_count : count_ok init.
Proof. exists []. unfold rep. cbn. split_and!; try done; [constructor| |by left]. intros w. by rewrite elem_of_nil. Qed.

(** If the two updates of the in-flight count excluded each other, a flush
    would return exactly when nothing is queued and no callback runs. *)
Theorem flush_waits fn s : rtc (step fn true) init s -> subm s = None -> fin s = None ->
  flush_returns s = true <-> (q_head (q s) = 0 /\ running s = []).
Proof.
  intros H Hs Hf. destruct (rtc_invariant _ count_ok _ _ H (step_count fn) init_count) as (l & Hr & _ & Hc & _).
  unfold flush_returns. rewrite Hs, Hf in *. cbn in Hc. destruct Hr as (Hch & _).
  rewrite negb_true_iff, Z.ltb_ge. split.
  - intros Hz. destruct l; [|cbn in Hc; lia]. destruct (running s); [|cbn in Hc; lia]. by cbn in Hch.
  - intros [Hh Hrun]. rewrite Hrun in Hc. destruct l as [|x l]; [cbn in Hc; lia|]. destruct Hch as (? & ? & _). congruence.
Qed.

Definition any (w : Z) : bool := true.

(** *** Running the steps *)

Inductive event := Submit (w : Z) | SubmitEnd | Pop | Finish (i : nat) | FinishEnd.

Definition exec (fn : Z -> bool) (b : bool) (s : sys) (e : event) : option sys :=
  match e with
  | Submit w =>
      match subm s, (b : bool) && bool_decide (is_Some (fin s)), work_submit fn (q s) w with
      | None, false, Some (true, q') =>
          Some (Sys q' (Some (inflight q')) (running s) (fin s) (accepted s ++ [w]) (started s))
      | _, _, _ => None
      end
  | SubmitEnd =>
      v ← subm s; Some (Sys (set_inflight (q s) (v + 1)) None (running s) (fin s) (accepted s) (started s))
  | Pop =>
      match subm s, q_pop_locked (q s) with
      | None, Some (w, q') => Some (Sys q' None (w :: running s) (fin s) (accepted s) (started s ++ [w]))
      | _, _ => None
      end
  | Finish i =>
      match fin s, (b : bool) && bool_decide (is_Some (subm s)), running s !! i with
      | None, false, Some _ =>
          Some (Sys (Wq (q_head (q s)) (q_tail (q s)) (q_len (q s)) (nxt (q s)) (queued (q s))
                       (inflight (q s)) (completed (q s) + 1) (pool_up (q s)))
                   (subm s) (take i (running s) ++ drop (S i) (running s)) (Some (inflight (q s))) (accepted s) (started s))
      | _, _, _ => None
      end
  | FinishEnd =>
      v ← fin s; Some (Sys (set_inflight (q s) (if 0 <? v then v - 1 else v)) (subm s) (running s) None (accepted s) (started s))
  end.

Lemma exec_step fn b s e s' : exec fn b s e = Some s' -> step fn b s s'.
Proof.
  destruct e as [w| | |i|]; cbn [exec]; intros H.
  - destruct (subm s) eqn:E1; [done|]. destruct (b && _) eqn:E2; [done|].
    destruct (work_submit fn (q s) w) as [[[] q']|] eqn:E3; simplify_eq.
    apply submit_begin; [done| |done]. intros ->. by destruct (fin s).
  - destruct (subm s) eqn:E1; cbn in H; simplify_eq. by apply submit_end.
  - destruct (subm s) eqn:E1; [done|]. destruct (q_pop_locked (q s)) as [[w q']|] eqn:E2; simplify_eq. by apply pop.
  - destruct (fin s) eqn:E1; [done|]. destruct (b && _) eqn:E2; [done|].
    destruct (running s !! i) as [w|] eqn:E3; simplify_eq. eapply (finish_begin _ _ _ w); [done| |].
    + intros ->. by destruct (subm s).
    + by rewrite take_drop_middle.
  - destruct (fin s) eqn:E1; cbn in H; simplify_eq. by apply finish_end.
Qed.

Definition execs (fn : Z -> bool) (b : bool) (es : list event) : option sys :=
  foldl (fun o e => s ← o; exec fn b s e) (Some init) es.

Lemma execs_reach fn b es s : execs fn b es = Some s -> rtc (step fn b) init s.
Proof.
  unfold execs. revert s. induction es as [|e es IH] using rev_ind; intros s.
  - intros [= <-]. apply rtc_refl.
  - rewrite foldl_app. cbn. destruct (foldl _ _ es) as [x|]; [|done]. cbn. intros H.
    eapply rtc_r; [by apply IH|]. by eapply exec_step.
Qed.

(** One item, submitted, run and accounted for. *)
Definition one_run : list event := [Submit 8; SubmitEnd; Pop; Finish 0; FinishEnd].

Lemma flush_waits_witness : exists s, flush_returns s = true /\ q_head (q s) = 0 /\ running s = [].
Proof.
  destruct (execs any true one_run) as [s|] eqn:E; [|vm_compute in E; discriminate].
  pose proof (execs_reach _ _ _ _ E) as Hr. vm_compute in E. injection E as <-.
  eexists. split; [by apply (flush_waits any _ Hr)|done].
Defined.

(** The locks the code takes do not exclude the two updates, and the count
    can lose one: a flush returns while an item is still queued, and in
    another run no item is left while the count stays positive, so that a
    flush never returns. *)
Theorem flush_races :
  (exists s, rtc (step any false) init s /\ flush_returns s = true /\ subm s = None /\ q_head (q s) <> 0) /\
  (exists s, rtc (step any false) init s /\ subm s = None /\ fin s = None /\
     q_head (q s) = 0 /\ running s = [] /\ flush_returns s = false).
Proof.
  split.
  - destruct (execs any false [Submit 8; SubmitEnd; Pop; Finish 0; Submit 16; SubmitEnd; FinishEnd]) as [s|] eqn:E;
      [|vm_compute in E; discriminate].
    exists s. split; [by eapply execs_reach|]. vm_compute in E. by injection E as <-.
  - destruct (execs any false [Submit 8; SubmitEnd; Pop; Submit 16; Finish 0; FinishEnd; SubmitEnd; Pop; Finish 0; FinishEnd])
      as [s|] eqn:E; [|vm_compute in E; discriminate].
    exists s. split; [by eapply execs_reach|]. vm_compute in E. by injection E as <-.
Qed.

Lemma workqueue_fifo_witness : exists s l, started s = [8] /\ rep (q s) l /\ accepted s = started s ++ l.
Proof.
  destruct (execs any false (one_run ++ [Submit 16])) as [s|] eqn:E; [|vm_compute in E; discriminate].
  destruct (workqueue_fifo any false s (execs_reach _ _ _ _ E)) as (l & Hr & Ha).
  exists s, l. split; [|done]. vm_compute in E. by injection E as <-.
Defined.

End Workqueue.
