(* ===== verification/Vfs.v ===== *)
(** * Path names and permissions (kernel/fs/vfs.c)

    How a path becomes a directory entry: canonicalisation against the
    working directory, symbolic links spliced out textually, then the walk
    from the task's root across bind mounts, which also notes whether it
    passed a read-only mount.  Characters are byte values; a path holds no NUL.

    The directory tree is a store of entries by address.  Directories keep
    all their entries in memory (ramfs and the synthetic file systems); the
    lookup hook of an on-disk file system is not modelled. *)

From stdpp Require Import base list.
From Stdlib Require Import ZArith Lia Bool.
From S2P Require Import Prelude Cred.
Open Scope Z_scope.

Module Vfs.

Notation path := (list Z).
Definition SLASH : Z := 47.
Definition DOT : Z := 46.
Definition VFS_NAME_MAX : Z := 255.
Definition len (p : path) : Z := Z.of_nat (length p).

(** ** Canonical paths *)

Definition at_sep (p : path) : bool := match p with [] => true | c :: _ => c =? SLASH end.

(** [prev]: the character before is a slash, or this is the first one. *)
Fixpoint has_dots (prev : bool) (p : path) : bool :=
  match p with
  | [] => false
  | c :: r =>
      ((c =? DOT) && prev && (at_sep r || match r with d :: r' => (d =? DOT) && at_sep r' | [] => false end))
      || has_dots (c =? SLASH) r
  end.

Fixpoint skip_slashes (p : path) : path :=
  match p with [] => [] | c :: r => if c =? SLASH then skip_slashes r else p end.

(** The characters up to the next slash, and the rest from that slash on. *)
Fixpoint span_comp (p : path) : path * path :=
  match p with
  | [] => ([], [])
  | c :: r => if c =? SLASH then ([], p) else let '(a, e) := span_comp r in (c :: a, e)
  end.

(** [while (o > 0 && buf[o - 1] != '/') o--; if (o > 0) o--;] on the reversed buffer. *)
Fixpoint drop_last_comp (r : path) : path :=
  match r with [] => [] | c :: r' => if c =? SLASH then r' else drop_last_comp r' end.
Definition pop_comp (buf : path) : path := rev (drop_last_comp (rev buf)).

Definition is_dot (c : path) : bool := bool_decide (c = [DOT]).
Definition is_dotdot (c : path) : bool := bool_decide (c = [DOT; DOT]).

(** The component loop: [None] when a component does not fit.  Every turn
    consumes a character, so the length of the path is enough fuel. *)
Fixpoint canon_loop (fuel : nat) (cap : Z) (p buf : path) : option path :=
  match fuel with
  | O => Some buf
  | S fuel' =>
      match skip_slashes p with
      | [] => Some buf
      | p1 =>
          let '(c, e) := span_comp p1 in
          if is_dot c then canon_loop fuel' cap e buf
          else if is_dotdot c then canon_loop fuel' cap e (pop_comp buf)
          else if cap <? len buf + 1 + len c + 1 then None
          else canon_loop fuel' cap e (buf ++ SLASH :: c)
      end
  end.

Definition is_abs (p : path) : bool := match p with [] => false | c :: _ => c =? SLASH end.

Definition TMP : Z := 256.

(** The flag says that the result was written to the caller's buffer. *)
Definition vfs_canon_plain (cwd p : path) (cap : Z) : option (bool * path) :=
  if is_abs p && negb (has_dots true p) then Some (false, p)
  else
    let tmp := (if is_abs p then [] else cwd ++ [SLASH]) ++ p in
    if TMP <=? len tmp then None
    else
      buf ← canon_loop (S (length tmp)) cap tmp [];
      Some (true, match buf with [] => [SLASH] | _ => buf end).

(** [while (n > 1 && buf[n - 1] == '/') buf[--n] = 0] on the reversed text. *)
Fixpoint strip_rev (r : path) : path :=
  match r with
  | c :: (_ :: _) as r' => if c =? SLASH then strip_rev r' else r
  | _ => r
  end.

Section Canon.
(** The two rewrites of /proc paths, [vfs_proc_alias] and [vfs_fd_magic]:
    they read the descriptor and task tables. *)
Context (proc_alias fd_magic : path -> option path).

Definition ends_slash (p : path) : bool := (1 <? len p) && match last p with Some c => c =? SLASH | None => false end.

Definition vfs_canon (cwd p : path) (cap : Z) : option (bool * path) :=
  '(inbuf, c) ← vfs_canon_plain cwd p cap;
  '(inbuf, c) ← (if ends_slash c then
                   if negb inbuf && (cap <? len c + 1) then None else Some (true, rev (strip_rev (rev c)))
                 else Some (inbuf, c));
  '(inbuf, c) ← match proc_alias c with
                | Some a => if cap <? len a + 1 then None else Some (true, a)
                | None => Some (inbuf, c)
                end;
  match fd_magic c with
  | None => Some (inbuf, c)
  | Some m =>
      '(inm, c) ← vfs_canon_plain cwd m cap;
      if negb inm && (cap <? len m + 1) then None else Some (true, c)
  end.

(** ** The tree *)

Inductive inode_type := INODE_FILE | INODE_DIR | INODE_DEVICE | INODE_SYMLINK | INODE_FIFO.

Record inode := Ino { type : inode_type; owner_uid : Z; owner_gid : Z; mode : Z; content : path }.

(** [inode0 = None] and [bound = 0] are NULL. *)
Record dentry := De {
  dname : path; inode0 : option inode; parent : Z; children : list Z;
  bound : Z; bound_ns : Z; bound_seq : Z; ro : bool; ro_ns : Z; ro_seq : Z }.

(** The tree with what a task sees of it: the machine's root, the task's own
    ([fs_root = 0] for none), its working directory and its mount namespace;
    a namespace is (parent, bind sequence number at its creation). *)
Record view := V {
  tree : Z -> dentry; root : Z; fs_root : Z; cwd : path; mntns : Z;
  g_ns : Z -> Z * Z; g_ns_n : Z }.

Context (v : view).

Definition base : Z := if fs_root v =? 0 then root v else fs_root v.

(** Going up the namespaces from [n] until one whose parent is [owner]: was
    the mount there before the descendant was created?  Parents have smaller
    numbers, so the namespace's own number is enough fuel. *)
Fixpoint ns_sees (fuel : nat) (owner seq n : Z) : bool :=
  match fuel with
  | O => false
  | S fuel' =>
      if (0 <? n) && (n <? g_ns_n v) then
        if (g_ns v n).1 =? owner then seq <? (g_ns v n).2 else ns_sees fuel' owner seq (g_ns v n).1
      else false
  end.

Definition visible (owner seq : Z) : bool :=
  if owner =? mntns v then true else ns_sees (Z.to_nat (mntns v)) owner seq (mntns v).

Definition bind_visible (d : Z) : bool := visible (bound_ns (tree v d)) (bound_seq (tree v d)).
Definition ro_visible (d : Z) : bool :=
  if (d =? 0) || negb (ro (tree v d)) then false else visible (ro_ns (tree v d)) (ro_seq (tree v d)).

(** The entry the walk continues at, and whether a read-only mount was passed. *)
Fixpoint follow_loop (fuel : nat) (d : Z) (r : bool) : Z * bool :=
  match fuel with
  | O => (d, r)
  | S fuel' =>
      if negb (d =? 0) && negb (bound (tree v d) =? 0) && bind_visible d
      then let d' := bound (tree v d) in follow_loop fuel' d' (r || ro_visible d')
      else (d, r)
  end.
Definition follow_bind (d : Z) : Z * bool := follow_loop 8 d (ro_visible d).

Definition lookup_child (d : Z) (c : path) : Z :=
  if d =? 0 then 0
  else match list_find (fun k => dname (tree v k) = c) (children (tree v d)) with
       | Some (_, k) => k
       | None => 0
       end.

Definition has_type (t : inode_type) (d : Z) : bool :=
  match inode0 (tree v d) with
  | Some i => match type i, t with
              | INODE_DIR, INODE_DIR | INODE_FILE, INODE_FILE | INODE_DEVICE, INODE_DEVICE
              | INODE_SYMLINK, INODE_SYMLINK | INODE_FIFO, INODE_FIFO => true
              | _, _ => false
              end
  | None => false
  end.

(** ** Symbolic links *)

(** Reads at most [cap - 1] bytes of the link's content. *)
Definition link_target (d : Z) (cap : Z) : option path :=
  match inode0 (tree v d) with
  | Some i => match type i with
              | INODE_SYMLINK => match take (Z.to_nat (cap - 1)) (content i) with [] => None | t => Some t end
              | _ => None
              end
  | None => None
  end.

Inductive scan := Splice (p : path) | NoLink | Refuse.

(** One pass of [expand_links] over the path [pre ++ rest]; [rest] shrinks
    with every component. *)
Fixpoint link_scan (fuel : nat) (cur : Z) (pre rest : path) (follow_last : bool) : scan :=
  match fuel, rest with
  | O, _ | _, [] => NoLink
  | S fuel', _ =>
      let '(c, e) := span_comp rest in
      let is_last := match e with [] => true | _ => false end in
      let d := lookup_child cur c in
      if d =? 0 then NoLink
      else if has_type INODE_SYMLINK d && (negb is_last || follow_last) then
        match link_target d 256 with
        | None => Refuse
        | Some t =>
            let b := (if is_abs t then [] else pre) ++ t in
            if 512 <? len b + len e + 1 then Refuse
            else match vfs_canon (cwd v) (b ++ e) 256 with
                 | None => Refuse
                 | Some (_, cc) => if 256 <? len cc + 1 then Refuse else Splice cc
                 end
        end
      else if is_last then NoLink
      else if negb (has_type INODE_DIR d) then NoLink
      else link_scan fuel' d (pre ++ c ++ [SLASH]) (tail e) follow_last
  end.

Fixpoint expand_hops (hops : nat) (a : path) (cap : Z) (follow_last : bool) : option path :=
  match hops with
  | O => None
  | S hops' =>
      match link_scan (length a) base [SLASH] (tail a) follow_last with
      | Splice a' => expand_hops hops' a' cap follow_last
      | NoLink => if cap <? len a + 1 then None else Some a
      | Refuse => None
      end
  end.

Definition expand_links (p : path) (cap : Z) (follow_last : bool) : option path :=
  if 256 <? len p + 1 then None else expand_hops 41 p cap follow_last.

(** ** The walk *)

(** What a resolution reports: the entry (0 for NULL), the parent when it got
    as far as the last component, and whether a read-only mount was passed. *)
Record found := Fd { entry : Z; at_parent : option Z; passed_ro : bool }.

Definition nothing (r : bool) : found := Fd 0 None r.

Fixpoint walk (fuel : nat) (cur : Z) (p : path) (r : bool) : found :=
  match fuel with
  | O => nothing r
  | S fuel' =>
      let '(c, e) := span_comp p in
      if (len c =? 0) || (VFS_NAME_MAX <? len c) then nothing r
      else
        let '(d, r1) := follow_bind (lookup_child cur c) in
        match e with
        | [] => Fd d (Some cur) (r || r1)
        | _ :: e' =>
            if (d =? 0) || negb (has_type INODE_DIR d) then nothing (r || r1)
            else walk fuel' d e' (r || r1)
        end
  end.

Definition walk_from_root (p : path) : found :=
  if len p =? 1 then Fd base None false else walk (length p) base (tail p) false.

(** With [out_last_name] NULL; the flag says the path was rewritten. *)
Definition resolve_core (p : path) (follow_last : bool) : bool * path * found :=
  match p with
  | [] => (false, [], nothing false)
  | _ =>
      match vfs_canon (cwd v) p 256 with
      | None => (false, [], nothing false)
      | Some (inbuf, c) =>
          if negb (is_abs c) then (false, [], nothing false)
          else match expand_links c 256 follow_last with
               | None => (false, [], nothing false)
               | Some x => (inbuf || negb (bool_decide (x = c)), x, walk_from_root x)
               end
      end
  end.

(** When the caller asks for the last name and the path was rewritten, the
    rewritten path is resolved again. *)
Definition resolve_path_ex (p : path) (want_last follow_last : bool) : found :=
  let '(rewritten, x, f) := resolve_core p follow_last in
  if rewritten && want_last then (resolve_core x follow_last).2 else f.

Definition resolve_path (p : path) : found := resolve_path_ex p false true.

(** Would a change at [p] happen below a read-only mount? *)
Definition ro_path (p : path) : bool :=
  let f := resolve_path_ex p true false in
  match at_parent f with
  | Some q => passed_ro f || ro_visible q
  | None => passed_ro f
  end.

(** ** Permissions *)

Definition VFS_PERM_READ : Z := 4.
Definition VFS_PERM_WRITE : Z := 2.
Definition VFS_PERM_EXEC : Z := 1.

Definition vfs_permitted (c : Cred.cred) (ino : inode) (want : Z) : bool :=
  if negb (Cred.owner c =? Cred.TASK_OWNER_USER) then true
  else if Cred.cred_is_admin c then
    if negb (want =? VFS_PERM_EXEC) then true else negb (Z.land (mode ino) 73 =? 0)
  else if mode ino =? 0 then false
  else
    let bits :=
      if Cred.cred_uid c =? owner_uid ino then Z.land (Z.shiftr (mode ino) 6) 7
      else if Cred.cred_in_group c (owner_gid ino) then Z.land (Z.shiftr (mode ino) 3) 7
      else Z.land (mode ino) 7 in
    Z.land bits want =? want.

Definition VFS_RDONLY : Z := 1.
Definition VFS_WRONLY : Z := 2.
Definition VFS_CREATE : Z := 4.
Definition VFS_TRUNC : Z := 8.
Definition VFS_NOFOLLOW : Z := 16.

Definition flag_set (flags b : Z) : bool := negb (Z.land flags b =? 0).

Definition open_want (flags : Z) : Z :=
  let w := Z.lor (if flag_set flags VFS_RDONLY then VFS_PERM_READ else 0)
             (Z.lor (if flag_set flags VFS_WRONLY then VFS_PERM_WRITE else 0)
                    (if flag_set flags VFS_TRUNC then VFS_PERM_WRITE else 0)) in
  if w =? 0 then VFS_PERM_READ else w.

(** The decision of [vfs_open_unlocked] on a path that names an existing
    file: the entry that is opened, or the error. *)
Definition open_existing (c : Cred.cred) (p : path) (flags : Z) : Z + Z :=
  if flag_set flags (Z.lor VFS_WRONLY (Z.lor VFS_CREATE VFS_TRUNC)) && ro_path p then inr (-30)
  else
    let f := resolve_path_ex p true (negb (flag_set flags VFS_NOFOLLOW)) in
    if entry f =? 0 then inr (-2)
    else match inode0 (tree v (entry f)) with
         | None => inr (-2)
         | Some ino => if vfs_permitted c ino (open_want flags) then inl (entry f) else inr (-2)
         end.

(** ** Names of entries *)

(** The names from [d] up to [top], nearest first. *)
Fixpoint path_parts (fuel : nat) (d top : Z) : option (list path) :=
  if d =? 0 then None
  else if d =? top then Some []
  else
    match fuel with
    | O => None
    | S fuel' =>
        if (d =? root v) || (parent (tree v d) =? 0) || (parent (tree v d) =? d) then None
        else ps ← path_parts fuel' (parent (tree v d)) top; Some (dname (tree v d) :: ps)
    end.

Definition render (cs : list path) : path := mjoin ((fun c => SLASH :: c) <$> cs).

(** At most 48 components; the text and its NUL fit in [cap]. *)
Definition dentry_path_from (d top : Z) (cap : Z) : option path :=
  ps ← path_parts 48 d top;
  let p := render (rev ps) in
  if negb (bool_decide (ps = [])) && (cap <? len p + 1) then None else Some p.

End Canon.

(** ** Mount points *)

Fixpoint prefix_of (m p : path) : bool :=
  match m, p with
  | [], _ => true
  | a :: m', b :: p' => (a =? b) && prefix_of m' p'
  | _ :: _, [] => false
  end.

(** [match] of [vfs_mount_for] for the mount point [m]. *)
Definition mount_matches (m p : path) : bool :=
  prefix_of m p && negb ((1 <? len m) && match drop (length m) p with [] => false | c :: _ => negb (c =? SLASH) end).

(** The index of the chosen mount: longest match, first of equals. *)
Fixpoint mount_for_from (i : nat) (mps : list path) (p : path) (best : option nat) (bestlen : Z) : option nat :=
  match mps with
  | [] => best
  | m :: mps' =>
      if mount_matches m p && (bestlen <? len m) then mount_for_from (S i) mps' p (Some i) (len m)
      else mount_for_from (S i) mps' p best bestlen
  end.

Definition vfs_mount_for (mps : list path) (p : path) : option nat := mount_for_from 0 mps p None (-1).

Definition path_is_below (inner outer : path) : bool :=
  prefix_of outer inner && match drop (length outer) inner with c :: _ :: _ => c =? SLASH | _ => false end.

End Vfs.
