(* ===== verification/VfsSpec.v ===== *)
(** * Theorems on path names (Vfs.v)

    A path denotes the list of its components with "." dropped and ".."
    cancelling the one before it; canonicalisation computes a name with that
    denotation, resolution stays inside what the task's root gives access to,
    and naming an entry and resolving the name are inverse. *)

From stdpp Require Import base list.
From Stdlib Require Import ZArith Lia Bool.
From S2P Require Import Prelude Cred Vfs.
Open Scope Z_scope.

Module VfsSpec.
Import Vfs.

(** ** What a path denotes *)

(** The pieces between slashes, empty ones included. *)
Fixpoint pieces (p : path) : list path :=
  match p with
  | [] => [[]]
  | c :: r => if c =? SLASH then [] :: pieces r
              else match pieces r with h :: t => (c :: h) :: t | [] => [[c]] end
  end.

Definition comps (p : path) : list path := filter (fun c => c <> []) (pieces p).

Definition apply_comp (st : list path) (c : path) : list path :=
  if is_dot c then st else if is_dotdot c then take (length st - 1) st else st ++ [c].

Definition norm (cs : list path) : list path := foldl apply_comp [] cs.

(** The path the task means: relative ones start at the working directory. *)
Definition full (cwd p : path) : path := (if is_abs p then [] else cwd ++ [SLASH]) ++ p.

Definition no_slash (c : path) : Prop := Forall (fun x => x <> SLASH) c.
Definition plain (c : path) : Prop := c <> [] /\ no_slash c.
Definition proper (c : path) : Prop := plain c /\ c <> [DOT] /\ c <> [DOT; DOT].

Lemma len_app a b : len (a ++ b) = len a + len b.
Proof. unfold len. rewrite length_app. lia. Qed.
Lemma len_cons x a : len (x :: a) = 1 + len a.
Proof. unfold len. cbn. lia. Qed.
Lemma len_nonneg a : 0 <= len a.
Proof. unfold len. lia. Qed.

(** *** Splitting *)

Lemma span_app c e : no_slash c -> at_sep e = true -> span_comp (c ++ e) = (c, e).
Proof.
  intros Hc He. induction Hc as [|x c Hx _ IH]; cbn.
  - destruct e as [|y e]; [done|]. cbn in He |- *. by rewrite He.
  - by rewrite (proj2 (Z.eqb_neq x SLASH)), IH.
Qed.

Lemma span_inv p c e : span_comp p = (c, e) -> p = c ++ e /\ no_slash c /\ at_sep e = true.
Proof.
  revert c e. induction p as [|x p IH]; intros c e; cbn.
  - intros [= <- <-]. split_and!; [done|constructor|done].
  - destruct (Z.eqb_spec x SLASH) as [->|Hx].
    + intros [= <- <-]. split_and!; [done|constructor|done].
    + destruct (span_comp p) as [a b]. intros [= <- <-]. destruct (IH a b eq_refl) as (-> & ? & ?).
      split_and!; [done|by constructor|done].
Qed.

Lemma pieces_cons_slash p : pieces (SLASH :: p) = [] :: pieces p.
Proof. done. Qed.

Lemma pieces_span c e : no_slash c ->
  pieces (c ++ e) = match pieces e with h :: t => (c ++ h) :: t | [] => [] end.
Proof.
  intros Hc. induction Hc as [|x c Hx _ IH]; cbn.
  - assert (pieces e <> []) as Hne by (destruct e as [|y e]; cbn; [done|]; destruct (_ =? _); [done|]; by destruct (pieces e)).
    by destruct (pieces e).
  - rewrite (proj2 (Z.eqb_neq x SLASH)) by done. rewrite IH. destruct (pieces e) eqn:E; [|done].
    exfalso. destruct e as [|y e]; cbn in E; [done|]. destruct (_ =? _); [done|]. by destruct (pieces e).
Qed.

Lemma comps_slash p : comps (SLASH :: p) = comps p.
Proof. unfold comps. rewrite pieces_cons_slash. by rewrite filter_cons_False by tauto. Qed.

Lemma comps_span c e : no_slash c -> at_sep e = true -> comps (c ++ e) = (if bool_decide (c = []) then [] else [c]) ++ comps e.
Proof.
  intros Hc He. unfold comps. rewrite pieces_span by done. destruct e as [|y e].
  - cbn [pieces]. rewrite app_nil_r. case_bool_decide as E; [by subst|].
    rewrite filter_cons_True by done. by rewrite filter_cons_False by tauto.
  - cbn in He. apply Z.eqb_eq in He as ->. rewrite pieces_cons_slash, app_nil_r.
    rewrite (filter_cons_False _ []) by tauto. case_bool_decide as E.
    + subst. by rewrite filter_cons_False by tauto.
    + by rewrite filter_cons_True.
Qed.

Lemma skip_comps p : comps (skip_slashes p) = comps p.
Proof.
  induction p as [|x p IH]; [done|]. cbn [skip_slashes]. destruct (Z.eqb_spec x SLASH) as [->|]; [|done]. rewrite comps_slash. exact IH.
Qed.

Lemma skip_inv p : exists k, p = replicate k SLASH ++ skip_slashes p /\
  match skip_slashes p with [] => True | c :: _ => c <> SLASH end.
Proof.
  induction p as [|x p IH]; [by exists 0%nat|]. cbn. destruct (Z.eqb_spec x SLASH) as [->|Hx].
  - destruct IH as (k & E & Hs). exists (S k). cbn. split; [by rewrite <- E|done].
  - by exists 0%nat.
Qed.

(** *** The buffer *)

Lemma render_app a b : render (a ++ b) = render a ++ render b.
Proof. unfold render. by rewrite fmap_app, join_app. Qed.
Lemma render_cons c cs : render (c :: cs) = SLASH :: c ++ render cs.
Proof. done. Qed.
Lemma render_snoc st c : render (st ++ [c]) = render st ++ SLASH :: c.
Proof. rewrite render_app. cbn. by rewrite app_nil_r. Qed.

Lemma drop_last_no_slash c r : no_slash c -> drop_last_comp (c ++ SLASH :: r) = r.
Proof. induction 1 as [|x c Hx _ IH]; cbn; [done|]. by rewrite (proj2 (Z.eqb_neq x SLASH)). Qed.

Lemma pop_render st c : no_slash c -> pop_comp (render (st ++ [c])) = render st.
Proof.
  intros Hc. unfold pop_comp. rewrite render_snoc, rev_app_distr. cbn [rev]. rewrite <- app_assoc. cbn [app].
  rewrite drop_last_no_slash by (by apply Forall_rev). by rewrite rev_involutive.
Qed.

Lemma pop_norm st c : Forall plain st -> is_dotdot c = true -> pop_comp (render st) = render (apply_comp st c).
Proof.
  intros Hs Hc. unfold apply_comp. rewrite Hc. unfold is_dotdot in Hc. apply bool_decide_eq_true_1 in Hc as ->. cbn.
  destruct st as [|x st] using rev_ind; [done|]. apply Forall_app in Hs as [_ Hx]. inversion_clear Hx as [|? ? [_ Hx'] _].
  rewrite pop_render by done. rewrite length_app. cbn. replace (length st + 1 - 1)%nat with (length st) by lia.
  by rewrite take_app_length.
Qed.

Lemma apply_plain st c : Forall plain st -> plain c -> Forall plain (apply_comp st c).
Proof.
  intros Hs Hc. unfold apply_comp. destruct (is_dot c); [done|]. destruct (is_dotdot c); [by apply Forall_take|].
  apply Forall_app. auto.
Qed.

Lemma canon_loop_spec fuel cap p st :
  (length p < fuel)%nat -> at_sep p = true -> Forall plain st -> len (render st) + len p + 1 <= cap ->
  canon_loop fuel cap p (render st) = Some (render (foldl apply_comp st (comps p))).
Proof.
  revert p st. induction fuel as [|fuel IH]; intros p st Hf Hp Hs Hcap; [lia|].
  cbn [canon_loop]. rewrite <- (skip_comps p).
  destruct (skip_inv p) as (k & E & Hhd). destruct (skip_slashes p) as [|x p1] eqn:Es; [done|].
  assert (1 <= k)%nat as Hk.
  { destruct k; [|lia]. cbn in E. rewrite E in Hp. cbn in Hp. apply Z.eqb_eq in Hp. done. }
  set (q := x :: p1) in *. destruct (span_comp q) as [c e] eqn:Esp.
  destruct (span_inv q c e Esp) as (Eq & Hc & He).
  assert (c <> []) as Hne.
  { intros ->. cbn in Eq. subst e. cbn in He. apply Z.eqb_eq in He. done. }
  assert (plain c) as Hpl by done.
  pose proof (f_equal length E) as EL. rewrite Eq, !length_app, length_replicate in EL.
  assert (len p = Z.of_nat k + len c + len e) as Hlp by (unfold len; lia).
  assert (1 <= len c) by (unfold len; destruct c; [done|]; cbn; lia).
  pose proof (len_nonneg e). pose proof (len_nonneg c).
  assert (comps q = c :: comps e) as ->.
  { rewrite Eq, comps_span by done. by rewrite bool_decide_false. }
  cbn [foldl]. assert (length e < fuel)%nat by (destruct c; [done|]; cbn in EL; lia).
  assert (Forall plain (apply_comp st c)) as Hs' by (by apply apply_plain).
  destruct (is_dot c) eqn:Ed.
  { assert (apply_comp st c = st) as -> by (unfold apply_comp; by rewrite Ed). apply IH; try done. lia. }
  destruct (is_dotdot c) eqn:Edd.
  { rewrite (pop_norm st c) by done. apply IH; try done.
    assert (len (render (apply_comp st c)) <= len (render st)); [|lia].
    rewrite <- (pop_norm st c) by done. unfold pop_comp, len. rewrite !length_rev.
    assert (forall l, (length (drop_last_comp l) <= length l)%nat) as Hd.
    { induction l as [|y l IHl]; cbn; [lia|]. destruct (_ =? _); lia. }
    pose proof (Hd (rev (render st))) as H9. rewrite length_rev in H9. lia. }
  assert (apply_comp st c = st ++ [c]) as E' by (unfold apply_comp; by rewrite Ed, Edd).
  destruct (Z.ltb_spec cap (len (render st) + 1 + len c + 1)); [lia|].
  rewrite <- render_snoc, <- E'. apply IH; try done. rewrite E', render_snoc, len_app, len_cons. lia.
Qed.
(** *** Dot components *)

Lemma has_dots_run c e : no_slash c -> at_sep e = true ->
  has_dots false (c ++ e) = match e with [] => false | _ :: e' => has_dots true e' end.
Proof.
  intros Hc He. induction Hc as [|x c Hx _ IH]; cbn [app has_dots].
  - destruct e as [|y e]; [done|]. cbn in He |- *. by rewrite He, andb_false_r.
  - rewrite (proj2 (Z.eqb_neq x SLASH)), IH by done. by rewrite andb_false_r.
Qed.

Lemma has_dots_span c e : no_slash c -> at_sep e = true ->
  has_dots true (c ++ e) = (is_dot c || is_dotdot c) || match e with [] => false | _ :: e' => has_dots true e' end.
Proof.
  intros Hc He. destruct Hc as [|x c Hx Hc].
  { destruct e as [|y e]; [done|]. cbn in He |- *. apply Z.eqb_eq in He as ->. done. }
  cbn [app has_dots]. rewrite (proj2 (Z.eqb_neq x SLASH)), has_dots_run by done. f_equal. rewrite andb_true_r.
  unfold is_dot, is_dotdot. destruct (Z.eqb_spec x DOT) as [->|Hd]; cbn [andb].
  - destruct Hc as [|y c Hy Hc]; cbn [app at_sep]; [by rewrite He, bool_decide_true|].
    rewrite (proj2 (Z.eqb_neq y SLASH)), (bool_decide_false (DOT :: y :: c = [DOT])) by done. cbn [orb].
    destruct (Z.eqb_spec y DOT) as [->|Hd]; cbn [andb]; [|by rewrite bool_decide_false by congruence].
    destruct Hc as [|z c Hz Hc]; cbn [app at_sep]; [by rewrite He, bool_decide_true|].
    by rewrite (proj2 (Z.eqb_neq z SLASH)), bool_decide_false by done.
  - by rewrite !bool_decide_false by congruence.
Qed.

Definition no_dot (c : path) : Prop := is_dot c = false /\ is_dotdot c = false.

Lemma no_dots_comps p : has_dots true p = false -> Forall no_dot (comps p).
Proof.
  remember (length p) as n eqn:Hn. revert p Hn. induction (lt_wf n) as [n _ IH]. intros p -> H.
  destruct (span_comp p) as [c e] eqn:E. apply span_inv in E as (-> & Hc & He).
  rewrite has_dots_span in H by done. apply orb_false_iff in H as [[H1 H2]%orb_false_iff H3].
  rewrite comps_span by done. apply Forall_app. split; [case_bool_decide; repeat constructor; done|].
  destruct e as [|y e]; [constructor|]. cbn in He. apply Z.eqb_eq in He as ->. rewrite comps_slash.
  apply (IH (length e)); [|done|done]. rewrite length_app. cbn. lia.
Qed.

Lemma norm_no_dots st cs : Forall no_dot cs -> foldl apply_comp st cs = st ++ cs.
Proof.
  intros H. revert st. induction H as [|c cs [H1 H2] _ IH]; intros st; cbn; [by rewrite app_nil_r|].
  rewrite IH. unfold apply_comp. rewrite H1, H2. by rewrite <- app_assoc.
Qed.

Lemma pieces_no_slash p : Forall no_slash (pieces p).
Proof.
  induction p as [|x p IH]; cbn; [repeat constructor|]. destruct (Z.eqb_spec x SLASH) as [|Hx].
  - constructor; [constructor|done].
  - destruct IH as [|h t Hh Ht]; [repeat constructor; done|]. constructor; [by constructor|done].
Qed.

Lemma comps_plain p : Forall plain (comps p).
Proof.
  unfold comps. apply Forall_forall. intros c [Hc Hin]%list_elem_of_filter. split; [done|].
  by apply (proj1 (Forall_forall _ _) (pieces_no_slash p)).
Qed.

Lemma proper_iff c : proper c <-> plain c /\ no_dot c.
Proof.
  unfold proper, no_dot, is_dot, is_dotdot. rewrite !bool_decide_eq_false. tauto.
Qed.

Lemma norm_proper cs : Forall plain cs -> Forall proper (norm cs).
Proof.
  unfold norm. assert (Forall proper (@nil path)) as H by constructor. revert H. generalize (@nil path).
  intros st Hst Hcs. revert st Hst. induction Hcs as [|c cs Hc _ IH]; intros st Hst; [done|]. cbn. apply IH.
  unfold apply_comp. destruct (is_dot c) eqn:E1; [done|]. destruct (is_dotdot c) eqn:E2; [by apply Forall_take|].
  apply Forall_app. split; [done|]. constructor; [|constructor]. by apply proper_iff.
Qed.

Lemma at_sep_render cs : at_sep (render cs) = true.
Proof. by destruct cs. Qed.

Lemma comps_render cs : Forall plain cs -> comps (render cs) = cs.
Proof.
  induction 1 as [|c cs [Hne Hc] _ IH]; [done|]. rewrite render_cons, comps_slash, comps_span, IH by (done || apply at_sep_render).
  by rewrite bool_decide_false.
Qed.

(** Canonicalisation is right: with a working directory that is "" (the
    root) or absolute, a path is refused exactly when its full text has 256
    characters or more (and needs rewriting); otherwise the result is an
    absolute path whose components are those the path denotes, with every "."
    dropped and every ".." having cancelled the component before it or stopped
    at the root, so none is left. *)
Theorem vfs_canon_plain_correct cwd p :
  (cwd = [] \/ is_abs cwd = true) ->
  match vfs_canon_plain cwd p 256 with
  | Some (_, r) => is_abs r = true /\ comps r = norm (comps (full cwd p)) /\ Forall proper (comps r)
  | None => 256 <= len (full cwd p)
  end.
Proof.
  intros Hcwd. unfold vfs_canon_plain.
  destruct (is_abs p && negb (has_dots true p)) eqn:Ef.
  { apply andb_true_iff in Ef as [Ha Hd%negb_true_iff]. unfold full. rewrite Ha. cbn [app].
    assert (comps p = norm (comps p)) as E by (unfold norm; by rewrite norm_no_dots by (by apply no_dots_comps)).
    split_and!; [done|done|]. rewrite E. apply norm_proper, comps_plain. }
  fold (full cwd p). destruct (Z.leb_spec TMP (len (full cwd p))) as [|Hl]; [done|]. unfold TMP in Hl.
  assert (at_sep (full cwd p) = true) as Hsep.
  { unfold full. destruct (is_abs p) eqn:Ea.
    - destruct p; [done|]. exact Ea.
    - destruct Hcwd as [->|Hc]; [done|]. destruct cwd; [done|]. exact Hc. }
  assert (canon_loop (S (length (full cwd p))) 256 (full cwd p) [] = Some (render (norm (comps (full cwd p))))) as ->.
  { apply (canon_loop_spec _ 256 (full cwd p) []); [lia|done|apply Forall_nil_2|change (len (render [])) with 0; lia]. }
  cbn [mbind option_bind].
  pose proof (norm_proper _ (comps_plain (full cwd p))) as Hpr.
  destruct (norm (comps (full cwd p))) as [|c cs] eqn:En.
  { change (is_abs [SLASH] = true /\ comps [SLASH] = [] /\ Forall proper (comps [SLASH])).
    rewrite comps_slash. split_and!; [done|done|apply Forall_nil_2]. }
  rewrite render_cons. cbn [is_abs Z.eqb]. rewrite <- render_cons.
  assert (comps (render (c :: cs)) = c :: cs) as ->; [|done].
  apply comps_render. eapply Forall_impl; [exact Hpr|]. by intros ? [? _].
Qed.
(** ** Confinement *)

Section Resolve.
Context (proc_alias fd_magic : path -> option path) (v : view).

(** What a walk that starts at [a] can get to: entries of directories, and
    what the task's mount namespace has bound over them. *)
Inductive reach (a : Z) : Z -> Prop :=
| reach_refl : reach a a
| reach_child d k : reach a d -> k ∈ children (tree v d) -> reach a k
| reach_bind d : reach a d -> bound (tree v d) <> 0 -> bind_visible v d = true -> reach a (bound (tree v d)).

Lemma lookup_reach a d c : reach a d -> lookup_child v d c = 0 \/ reach a (lookup_child v d c).
Proof.
  intros Hr. unfold lookup_child. destruct (d =? 0); [by left|].
  destruct (list_find _ _) as [[i k]|] eqn:E; [|by left]. right. apply list_find_Some in E as (E & _ & _).
  eapply reach_child; [done|]. by eapply list_elem_of_lookup_2.
Qed.

Lemma follow_reach a n d r : d = 0 \/ reach a d -> (follow_loop v n d r).1 = 0 \/ reach a (follow_loop v n d r).1.
Proof.
  revert d r. induction n as [|n IH]; intros d r Hd; [done|]. cbn [follow_loop].
  destruct (negb (d =? 0) && negb (bound (tree v d) =? 0) && bind_visible v d) eqn:E; [|done].
  bool_props. apply IH. destruct Hd as [?|Hd]; [done|]. right. by apply reach_bind.
Qed.

Lemma walk_reach a fuel cur p r : reach a cur ->
  entry (walk v fuel cur p r) = 0 \/ reach a (entry (walk v fuel cur p r)).
Proof.
  revert cur p r. induction fuel as [|fuel IH]; intros cur p r Hr; [by left|]. cbn [walk].
  destruct (span_comp p) as [c e]. destruct (_ || _); [by left|].
  pose proof (follow_reach a 8 (lookup_child v cur c) (ro_visible v (lookup_child v cur c)) (lookup_reach a cur c Hr)) as Hf.
  unfold follow_bind. destruct (follow_loop v 8 _ _) as [d r1]. cbn in Hf.
  destruct e as [|y e]; [done|]. destruct (Z.eqb_spec d 0); [by left|]. cbn [orb].
  destruct (negb _); [by left|]. apply IH. by destruct Hf.
Qed.


(** ** Naming an entry and resolving the name *)

(** A route from [a] to [d] by names: every step is the entry the parent's
    directory finds, unbound, no link, and a directory unless it is the last. *)
Inductive route : Z -> list path -> Z -> Prop :=
| route_nil a : route a [] a
| route_cons a c cs k d :
    lookup_child v a c = k -> k <> 0 -> proper c -> len c <= VFS_NAME_MAX ->
    bound (tree v k) = 0 -> has_type v INODE_SYMLINK k = false ->
    (cs <> [] -> has_type v INODE_DIR k = true) -> route k cs d -> route a (c :: cs) d.

Lemma follow_unbound k : bound (tree v k) = 0 -> follow_bind v k = (k, ro_visible v k).
Proof. intros H. unfold follow_bind. cbn [follow_loop]. rewrite H. cbn. by rewrite andb_false_r. Qed.

Lemma walk_route a c cs d fuel r : route a (c :: cs) d -> (length (c ++ render cs) <= fuel)%nat ->
  entry (walk v fuel a (c ++ render cs) r) = d.
Proof.
  revert a c d fuel r. induction cs as [|c' cs IH]; intros a c d fuel r Hr Hf;
    inversion Hr as [|? ? ? k ? Hl Hk [[Hne Hns] _] Hlen Hb Hs Hdir Hr']; subst;
    (destruct fuel as [|fuel]; [destruct c; [done|cbn in Hf; lia]|]); cbn [walk];
    rewrite span_app by (done || apply at_sep_render);
    assert (0 < len c) by (unfold len; destruct c; [done|cbn; lia]);
    rewrite (proj2 (Z.eqb_neq (len c) 0)), (proj2 (Z.ltb_ge _ _)) by lia; cbn [orb];
    rewrite follow_unbound by done.
  - by inversion Hr'.
  - rewrite render_cons. rewrite (proj2 (Z.eqb_neq _ 0)), Hdir by done. cbn [orb negb].
    apply IH; [done|]. rewrite render_cons, !length_app in Hf. cbn in Hf. rewrite length_app in *. destruct c; [done|cbn in *; lia].
Qed.

Lemma link_scan_step fuel cur pre c e follow :
  plain c -> at_sep e = true -> lookup_child v cur c <> 0 -> has_type v INODE_SYMLINK (lookup_child v cur c) = false ->
  link_scan proc_alias fd_magic v (S fuel) cur pre (c ++ e) follow =
  match e with
  | [] => NoLink
  | _ :: e' => if has_type v INODE_DIR (lookup_child v cur c)
               then link_scan proc_alias fd_magic v fuel (lookup_child v cur c) (pre ++ c ++ [SLASH]) e' follow
               else NoLink
  end.
Proof.
  intros [Hne Hns] He Hd Hs. cbn [link_scan]. destruct (c ++ e) as [|x y] eqn:E; [by destruct c|]. rewrite <- E.
  rewrite span_app by done. cbv zeta. rewrite (proj2 (Z.eqb_neq _ 0)), Hs by done. cbn [andb].
  destruct e as [|z e]; [done|]. by destruct (has_type v INODE_DIR _).
Qed.

Lemma scan_route a c cs d fuel pre follow : route a (c :: cs) d ->
  link_scan proc_alias fd_magic v fuel a pre (c ++ render cs) follow = NoLink.
Proof.
  revert a c d fuel pre. induction cs as [|c' cs IH]; intros a c d fuel pre Hr;
    inversion Hr as [|? ? ? k ? Hl Hk [Hp _] Hlen Hb Hs Hdir Hr']; subst;
    (destruct fuel as [|fuel]; [done|]); rewrite link_scan_step by (done || apply at_sep_render); [done|].
  rewrite render_cons, Hdir by done. by eapply IH.
Qed.

Lemma route_proper a cs d : route a cs d -> Forall proper cs.
Proof. induction 1; by constructor. Qed.

Lemma has_dots_render cs : Forall proper cs -> has_dots true (render cs) = false.
Proof.
  induction 1 as [|c cs Hc _ IH]; [done|]. rewrite render_cons.
  change (has_dots true (c ++ render cs) = false).
  apply proper_iff in Hc as [[_ Hns] [H1 H2]]. rewrite has_dots_span by (done || apply at_sep_render). rewrite H1, H2. cbn.
  destruct (render cs) as [|x y] eqn:E; [done|]. destruct cs as [|c' cs]; [done|]. rewrite render_cons in E. injection E as <- <-. exact IH.
Qed.

Lemma last_render cs c : plain c -> exists x, last (render (cs ++ [c])) = Some x /\ x <> SLASH.
Proof.
  intros [Hne Hns]. destruct c as [|y c] using rev_ind; [done|]. exists y. split.
  - rewrite render_snoc, app_comm_cons, app_assoc. apply last_snoc.
  - apply Forall_app in Hns as [_ Hy]. by inversion_clear Hy.
Qed.

(** A route's text is canonical as it stands. *)
Lemma canon_route a cs d : route a cs d -> cs <> [] -> proc_alias (render cs) = None -> fd_magic (render cs) = None ->
  vfs_canon proc_alias fd_magic (cwd v) (render cs) 256 = Some (false, render cs).
Proof.
  intros Hr Hne Ha Hm. pose proof (route_proper _ _ _ Hr) as Hp. unfold vfs_canon, vfs_canon_plain.
  assert (is_abs (render cs) = true) as -> by (by destruct cs). rewrite has_dots_render by done. cbn [andb negb mbind option_bind].
  assert (ends_slash (render cs) = false) as ->.
  { destruct cs as [|c cs _] using rev_ind; [done|]. apply Forall_app in Hp as [_ Hc]. inversion_clear Hc as [|? ? [Hc' _] _].
    destruct (last_render cs c Hc') as (x & E & Hx). unfold ends_slash. rewrite E, (proj2 (Z.eqb_neq x SLASH)) by done. apply andb_false_r. }
  cbn [mbind option_bind]. rewrite Ha. cbn [mbind option_bind]. by rewrite Hm.
Qed.

Lemma resolve_route cs d : route (base v) cs d -> cs <> [] -> len (render cs) < 256 ->
  proc_alias (render cs) = None -> fd_magic (render cs) = None ->
  entry (resolve_path proc_alias fd_magic v (render cs)) = d.
Proof.
  intros Hr Hne Hl Ha Hm. unfold resolve_path, resolve_path_ex, resolve_core.
  pose proof (canon_route _ _ _ Hr Hne Ha Hm) as Hc. destruct cs as [|c cs]; [done|].
  rewrite (render_cons c cs) at 1. rewrite Hc. rewrite andb_false_r || idtac.
  assert (is_abs (render (c :: cs)) = true) as -> by done. cbn [negb].
  unfold expand_links. rewrite (proj2 (Z.ltb_ge _ _)) by lia.
  assert (expand_hops proc_alias fd_magic v 41 (render (c :: cs)) 256 true = Some (render (c :: cs))) as ->.
  { unfold expand_hops at 1. change (tail (render (c :: cs))) with (c ++ render cs).
    rewrite (scan_route _ _ _ _ _ _ _ Hr). by rewrite (proj2 (Z.ltb_ge _ _)) by lia. }
  rewrite andb_false_r. unfold walk_from_root. change (tail (render (c :: cs))) with (c ++ render cs).
  assert (1 < len (render (c :: cs))).
  { rewrite render_cons, len_cons, len_app. pose proof (len_nonneg (render cs)).
    inversion Hr as [|? ? ? ? ? _ _ [[Hc0 _] _]]; subst. unfold len at 1. destruct c; [done|]. cbn. lia. }
  rewrite (proj2 (Z.eqb_neq _ 1)) by lia. apply walk_route; [done|].
  rewrite render_cons. cbn. lia.
Qed.

(** A tree whose parent pointers, directory lists and names agree. *)
Definition tree_ok : Prop := forall d, d <> 0 -> d <> root v -> parent (tree v d) <> 0 -> parent (tree v d) <> d ->
  lookup_child v (parent (tree v d)) (dname (tree v d)) = d /\
  proper (dname (tree v d)) /\ len (dname (tree v d)) <= VFS_NAME_MAX /\
  has_type v INODE_DIR (parent (tree v d)) = true /\
  bound (tree v d) = 0 /\ has_type v INODE_SYMLINK d = false.

Lemma route_snoc a cs k c d : route a cs k -> (cs <> [] -> has_type v INODE_DIR k = true) -> route k [c] d -> route a (cs ++ [c]) d.
Proof.
  intros H. induction H as [a|a c0 cs k0 k Hl Hk Hp Hlen Hb Hs Hdir Hr IH]; intros Hd Hlast; [done|].
  cbn [app]. eapply route_cons; try done.
  - intros _. destruct cs as [|c1 cs]; [|by apply Hdir]. inversion Hr; subst. by apply Hd.
  - apply IH; [|done]. intros _. by apply Hd.
Qed.

Lemma parts_route fuel d top ps : tree_ok -> path_parts v fuel d top = Some ps -> route top (rev ps) d.
Proof.
  intros Hok. revert d ps. induction fuel as [|fuel IH]; intros d ps; cbn [path_parts];
    (destruct (Z.eqb_spec d 0) as [|H0]; [done|]); (destruct (Z.eqb_spec d top) as [->|Ht]; [intros [= <-]; constructor|]); [done|].
  destruct (Z.eqb_spec d (root v)); [done|]. destruct (Z.eqb_spec (parent (tree v d)) 0); [done|].
  destruct (Z.eqb_spec (parent (tree v d)) d); [done|]. cbn [orb].
  destruct (path_parts v fuel (parent (tree v d)) top) as [qs|] eqn:E; [|done]. intros [= <-]. cbn [rev].
  destruct (Hok d) as (Hl & Hp & Hlen & Hdir & Hb & Hs); [done..|].
  eapply route_snoc; [by apply IH|by intros|]. eapply route_cons; try done. constructor.
Qed.

End Resolve.

(** ** Mount points *)

Lemma prefix_of_spec m p : prefix_of m p = true <-> exists r, p = m ++ r.
Proof.
  revert p. induction m as [|a m IH]; intros p; cbn; [naive_solver|].
  destruct p as [|b p]; [split; [done|by intros (r & ?)]|].
  rewrite andb_true_iff, Z.eqb_eq, IH. naive_solver.
Qed.

(** [p] is the mount point or lies below it. *)
Definition under (m p : path) : Prop := p = m \/ exists r, p = m ++ SLASH :: r.

Lemma mount_matches_spec m p : 1 < len m -> mount_matches m p = true <-> under m p.
Proof.
  intros Hm. unfold mount_matches. rewrite (proj2 (Z.ltb_lt 1 (len m))) by done. cbn [andb].
  rewrite andb_true_iff, prefix_of_spec. unfold under. split.
  - intros [[r ->] H]. rewrite drop_app_length in H. destruct r as [|c r]; [left; by rewrite app_nil_r|].
    rewrite negb_involutive in H. apply Z.eqb_eq in H as ->. right. by exists r.
  - intros [->|[r ->]].
    + split; [by exists []; rewrite app_nil_r|]. by rewrite drop_all.
    + split; [by eexists|]. by rewrite drop_app_length.
Qed.

Lemma mount_for_from_spec i mps p best bl :
  match mount_for_from i mps p best bl with
  | Some k => (mount_for_from i mps p best bl = best /\ (forall j m, mps !! j = Some m -> mount_matches m p = true -> len m <= bl)) \/
              (exists j m, k = (i + j)%nat /\ mps !! j = Some m /\ mount_matches m p = true /\ bl < len m /\
                 forall j' m', mps !! j' = Some m' -> mount_matches m' p = true -> len m' <= len m)
  | None => best = None /\ forall j m, mps !! j = Some m -> mount_matches m p = true -> len m <= bl
  end.
Proof.
  revert i best bl. induction mps as [|m mps IH]; intros i best bl; cbn [mount_for_from].
  { destruct best; [left|]; by split. }
  destruct (mount_matches m p && (bl <? len m)) eqn:E.
  - bool_props. specialize (IH (S i) (Some i) (len m)). destruct (mount_for_from _ _ _ _ _) as [k|]; [|by destruct IH].
    right. destruct IH as [[[= ->] Hall]|(j & m1 & -> & Hj & Hm & Hlt & Hall)].
    + exists 0%nat, m. split_and!; [lia|done|done|done|]. intros [|j'] m' Hj Hm; [by injection Hj as <-|by eapply Hall].
    + exists (S j), m1. split_and!; [lia|done|done|lia|]. intros [|j'] m' Hj' Hm'; [injection Hj' as <-; lia|by eapply Hall].
  - specialize (IH (S i) best bl). destruct (mount_for_from _ _ _ _ _) as [k|].
    + destruct IH as [[-> Hall]|(j & m1 & -> & Hj & Hm & Hlt & Hall)].
      * left. split; [done|]. intros [|j] m' Hj Hm; [injection Hj as <-; rewrite Hm in E; cbn in E; bool_props; lia|by eapply Hall].
      * right. exists (S j), m1. split_and!; [lia|done|done|done|].
        intros [|j'] m' Hj' Hm'; [injection Hj' as <-; rewrite Hm' in E; cbn in E; bool_props; lia|by eapply Hall].
    + destruct IH as [-> Hall]. split; [done|].
      intros [|j] m' Hj Hm; [injection Hj as <-; rewrite Hm in E; cbn in E; bool_props; lia|by eapply Hall].
Qed.

(** The mount a path belongs to is the innermost one: the chosen mount
    point is the path or an ancestor of it by whole components, none of the
    others that match is longer, and no mount is chosen only if none matches. *)
Theorem vfs_mount_for_correct mps p :
  match vfs_mount_for mps p with
  | Some k => exists m, mps !! k = Some m /\ mount_matches m p = true /\ (1 < len m -> under m p) /\
                forall j m', mps !! j = Some m' -> mount_matches m' p = true -> len m' <= len m
  | None => forall j m, mps !! j = Some m -> mount_matches m p = false
  end.
Proof.
  pose proof (mount_for_from_spec 0 mps p None (-1)) as H. unfold vfs_mount_for.
  destruct (mount_for_from 0 mps p None (-1)) as [k|].
  - destruct H as [[? _]|(j & m & -> & Hj & Hm & _ & Hall)]; [done|]. exists m. split_and!; [done|done| |done].
    intros Hl. by apply mount_matches_spec.
  - destruct H as [_ H]. intros j m Hj. destruct (mount_matches m p) eqn:E; [|done].
    specialize (H j m Hj E). pose proof (len_nonneg m). lia.
Qed.

(** ** Evaluation *)

Definition no_proc (p : path) : option path := None.
Definition dir_ino : inode := Ino INODE_DIR 0 0 493 [].
Definition de (n : path) (i : inode) (par : Z) (kids : list Z) : dentry := De n (Some i) par kids 0 0 0 false 0 0.

(** "/" (1) holds "a" (2), which holds the file "b" (3), and the link "l" (4)
    to "/a/b"; "a" is mounted read-only. *)
Definition a_ : Z := 97.
Definition b_ : Z := 98.
Definition l_ : Z := 108.
Definition small (ro_a : bool) : view := V
  (fun d => if d =? 1 then de [SLASH] dir_ino 0 [2; 4]
            else if d =? 2 then De [a_] (Some dir_ino) 1 [3] 0 0 0 ro_a 0 0
            else if d =? 3 then de [b_] (Ino INODE_FILE 1000 1000 420 []) 2 []
            else if d =? 4 then de [l_] (Ino INODE_SYMLINK 0 0 511 [SLASH; a_; SLASH; b_]) 1 []
            else De [] None 0 [] 0 0 0 false 0 0)
  1 0 [] 0 (fun _ => (-1, 0)) 1.

Notation look ro_a p := (entry (resolve_path no_proc no_proc (small ro_a) p)).

(** A doubled slash is one slash only when the path is rewritten anyway:
    "/a//b" does not resolve although "/a/b" names a file, and the same
    doubled slash next to a dot component, or in a relative path, does. *)
Theorem double_slash_unresolved :
  look false [SLASH; a_; SLASH; b_] = 3 /\ look false [SLASH; a_; SLASH; SLASH; b_] = 0 /\
  look false [SLASH; a_; SLASH; SLASH; DOT; SLASH; b_] = 3 /\ look false [a_; SLASH; SLASH; b_] = 3 /\
  comps [SLASH; a_; SLASH; SLASH; b_] = comps [SLASH; a_; SLASH; b_].
Proof. vm_compute. done. Qed.

Definition owner1000 : Cred.cred := Cred.set_identity Cred.cred_zero Cred.TASK_OWNER_USER 1000 1000 0 7.

(** A read-only mount is not read-only through a symbolic link: the check
    walks the path without following its last component, the open follows it,
    so a file below the mount that refuses a write by its own name is opened
    for writing through a link that lies outside. *)
Theorem readonly_bypassed_by_link :
  open_existing no_proc no_proc (small true) owner1000 [SLASH; a_; SLASH; b_] VFS_WRONLY = inr (-30) /\
  open_existing no_proc no_proc (small true) owner1000 [SLASH; l_] VFS_WRONLY = inl 3.
Proof. vm_compute. done. Qed.

Lemma vfs_canon_plain_correct_witness :
  vfs_canon_plain [SLASH; a_] [DOT; DOT; SLASH; b_; SLASH; DOT] 256 = Some (true, [SLASH; b_]) /\
  is_abs [SLASH; b_] = true /\ comps [SLASH; b_] = norm (comps (full [SLASH; a_] [DOT; DOT; SLASH; b_; SLASH; DOT])).
Proof.
  split; [vm_compute; reflexivity|].
  destruct (vfs_canon_plain_correct [SLASH; a_] [DOT; DOT; SLASH; b_; SLASH; DOT] (or_intror eq_refl)) as (H1 & H2 & _).
  exact (conj H1 H2).
Defined.


(** The same tree without the link. *)
Definition flat : view := V
  (fun d => if d =? 1 then de [SLASH] dir_ino 0 [2]
            else if d =? 2 then de [a_] dir_ino 1 [3]
            else if d =? 3 then de [b_] (Ino INODE_FILE 1000 1000 420 []) 2 []
            else De [] None 0 [] 0 0 0 false 0 0)
  1 0 [] 0 (fun _ => (-1, 0)) 1.

Lemma flat_ok : tree_ok flat.
Proof.
  assert (forall x, x <> SLASH -> x <> DOT -> proper [x]) as Hp.
  { intros x Hx Hd. split; [split; [done|by repeat constructor]|]. split; congruence. }
  intros d H0 H1 H2 _. cbn in H1, H2 |- *.
  destruct (Z.eqb_spec d 1); [done|]. destruct (Z.eqb_spec d 2) as [->|]; [|destruct (Z.eqb_spec d 3) as [->|]; [|done]].
  all: split_and!; try done; try (by apply Hp); unfold len, VFS_NAME_MAX; cbn; lia.
Qed.


(** "m" (5) is bound to "a" (2), which holds the link "k" (6) to "/a/b": the
    link pass does not follow the bind, so "/a/k" names the file and "/m/k"
    the link itself. *)
Definition k_ : Z := 107.
Definition m_ : Z := 109.
Definition bound_view : view := V
  (fun d => if d =? 1 then de [SLASH] dir_ino 0 [2; 5]
            else if d =? 2 then de [a_] dir_ino 1 [3; 6]
            else if d =? 3 then de [b_] (Ino INODE_FILE 1000 1000 420 []) 2 []
            else if d =? 5 then De [m_] (Some dir_ino) 1 [] 2 0 1 false 0 0
            else if d =? 6 then de [k_] (Ino INODE_SYMLINK 0 0 511 [SLASH; a_; SLASH; b_]) 2 []
            else De [] None 0 [] 0 0 0 false 0 0)
  1 0 [] 0 (fun _ => (-1, 0)) 1.

Example link_below_bind :
  entry (resolve_path no_proc no_proc bound_view [SLASH; a_; SLASH; k_]) = 3 /\
  entry (resolve_path no_proc no_proc bound_view [SLASH; m_; SLASH; b_]) = 3 /\
  entry (resolve_path no_proc no_proc bound_view [SLASH; m_; SLASH; k_]) = 6.
Proof. vm_compute. done. Qed.

End VfsSpec.
