(* ===== verification/VfsTree.v ===== *)
(** * Changing the name space (kernel/fs/vfs.c over kernel/fs/ramfs.c)

    Creation, links, removal, renaming, opening and closing, on a store of
    directory entries and a store of inodes, each by address.  An address that
    is in no store is freed memory (or NULL for 0); an operation that would
    read it is [None].  The directories' operations are ramfs's; a directory
    of a file system without mutators has [dir_ops = false].  Each operation
    runs under the name-space lock and is one step. *)

From stdpp Require Import base list gmap.
From Stdlib Require Import ZArith Lia Bool.
From S2P Require Import Prelude Cred Vfs.
Import Vfs.
Open Scope Z_scope.

Module VfsTree.

(** [attr] is the part of the inode that path resolution sees; [nlink] is in
    ramfs's private data. *)
Record xinode := XI {
  attr : inode; dir_ops : bool; nlink : Z;
  opens : Z; unlink_dir : Z; unlink_name : path }.

Record xdentry := XD {
  name : path; ino : Z; up : Z; kids : list Z;
  bnd : Z; bnd_ns : Z; bnd_seq : Z; rdo : bool; rdo_ns : Z; rdo_seq : Z }.

(** [dev]: the mount has a backing block device. *)
Record mount := Mt { mp : Z; dev : bool; open_files : Z }.

Record file := Fl { f_inode : Z; f_dentry : Z }.

Record state := St {
  dents : gmap Z xdentry; inodes : gmap Z xinode; files : gmap Z file;
  mounts : list mount; top : Z }.

(** What the calling task brings. *)
Record caller := Tk {
  tcred : Cred.cred; tfs_root : Z; tcwd : path; tmntns : Z; tns : Z -> Z * Z; tns_n : Z }.

Section Ops.
Context (proc_alias fd_magic : path -> option path) (t : caller).

Definition dentry_of (s : state) (d : Z) : dentry :=
  match dents s !! d with
  | Some x => De (name x) (attr <$> inodes s !! ino x) (up x) (kids x)
                 (bnd x) (bnd_ns x) (bnd_seq x) (rdo x) (rdo_ns x) (rdo_seq x)
  | None => De [] None 0 [] 0 0 0 false 0 0
  end.

Definition view_of (s : state) : view := V (dentry_of s) (top s) (tfs_root t) (tcwd t) (tmntns t) (tns t) (tns_n t).

Notation resolve s p := (entry (resolve_path proc_alias fd_magic (view_of s) p)).
Notation readonly s p := (ro_path proc_alias fd_magic (view_of s) p).

(** ** Parent and last component *)

Definition split_parent (p : path) (cap : Z) : option (path * path) :=
  if cap <? 4 then None
  else
    '(_, c) ← vfs_canon proc_alias fd_magic (tcwd t) p (cap - 1);
    if (len c =? 0) || (cap <? len c + 2) then None
    else
      let '(l, e) := span_comp (strip_rev (rev c)) in
      match e with
      | [] => None
      | _ :: r => if len l =? 0 then None else Some (match r with [] => [SLASH] | _ => rev r end, rev l)
      end.

(** ** Small steps on the stores *)

Definition with_dents (s : state) ds : state := St ds (inodes s) (files s) (mounts s) (top s).
Definition with_inodes (s : state) im : state := St (dents s) im (files s) (mounts s) (top s).

Definition set_kids (x : xdentry) ks : xdentry :=
  XD (name x) (ino x) (up x) ks (bnd x) (bnd_ns x) (bnd_seq x) (rdo x) (rdo_ns x) (rdo_seq x).
Definition set_name (x : xdentry) n : xdentry :=
  XD n (ino x) (up x) (kids x) (bnd x) (bnd_ns x) (bnd_seq x) (rdo x) (rdo_ns x) (rdo_seq x).
Definition set_up (x : xdentry) p : xdentry :=
  XD (name x) (ino x) p (kids x) (bnd x) (bnd_ns x) (bnd_seq x) (rdo x) (rdo_ns x) (rdo_seq x).

(** The directory entry with its live inode, when that is a directory. *)
Definition live (s : state) (d : Z) : option (xdentry * xinode) :=
  x ← dents s !! d; i ← inodes s !! ino x; Some (x, i).
Definition is_type (i : xinode) (ty : inode_type) : bool :=
  match type (attr i), ty with
  | INODE_DIR, INODE_DIR | INODE_FILE, INODE_FILE | INODE_DEVICE, INODE_DEVICE
  | INODE_SYMLINK, INODE_SYMLINK | INODE_FIFO, INODE_FIFO => true
  | _, _ => false
  end.
Definition live_dir (s : state) (d : Z) : option (xdentry * xinode) :=
  '(x, i) ← live s d; if is_type i INODE_DIR then Some (x, i) else None.

(** [for (c = parent->children; c; c = c->sibling) if (streq(c->name, last))] *)
Definition child_named (s : state) (x : xdentry) (n : path) : option Z :=
  snd <$> list_find (fun c => name <$> dents s !! c = Some n) (kids x).

(** [None]: no memory for the entry. *)
Definition vfs_attach_child (s : state) (nd par : Z) (n : path) (i : Z) : option state :=
  if nd =? 0 then None
  else
    x ← dents s !! par;
    Some (with_dents s (<[nd := XD (take (Z.to_nat VFS_NAME_MAX) n) i par [] 0 0 0 false 0 0]>
                          (<[par := set_kids x (nd :: kids x)]> (dents s)))).

(** [*link = d->sibling; kfree(d)] *)
Definition splice_out (s : state) (par d : Z) : state :=
  match dents s !! par with
  | Some x => with_dents s (delete d (<[par := set_kids x (filter (fun c => c <> d) (kids x))]> (dents s)))
  | None => s
  end.

(** The innermost mount above [d]; [None] also when the walk meets freed
    memory, which [climb] tells apart. *)
Fixpoint climb (fuel : nat) (s : state) (d : Z) : option (option nat) :=
  if d =? 0 then Some None
  else
    x ← dents s !! d;
    match list_find (fun m => mp m = d) (mounts s) with
    | Some (k, _) => Some (Some k)
    | None => match fuel with
              | O => Some None
              | S fuel' => if up x =? d then Some None else climb fuel' s (up x)
              end
    end.
Definition mount_of_dentry (s : state) (d : Z) : option (option nat) := climb (size (dents s)) s d.

Definition mount_eq (a b : option (option nat)) : bool :=
  match a, b with
  | Some (Some i), Some (Some j) => Nat.eqb i j
  | Some None, Some None => true
  | _, _ => false
  end.

(** ** ramfs's directory operations *)

Definition new_inode (ty : inode_type) (txt : path) : xinode :=
  XI (Ino ty 0 0 (if match ty with INODE_DIR => true | _ => false end then 493 else 420) txt)
     (match ty with INODE_DIR => true | _ => false end) 1 0 0 [].

Definition set_attr (i : xinode) (a : inode) : xinode := XI a (dir_ops i) (nlink i) (opens i) (unlink_dir i) (unlink_name i).
Definition set_nlink (i : xinode) n : xinode := XI (attr i) (dir_ops i) n (opens i) (unlink_dir i) (unlink_name i).
Definition set_pending (i : xinode) dir nm : xinode := XI (attr i) (dir_ops i) (nlink i) (opens i) dir nm.
Definition set_opens (i : xinode) n : xinode := XI (attr i) (dir_ops i) (nlink i) n (unlink_dir i) (unlink_name i).

Definition own_by_caller (i : xinode) : xinode :=
  if Cred.owner (tcred t) =? Cred.TASK_OWNER_USER
  then set_attr i (Ino (type (attr i)) (Cred.cred_uid (tcred t)) (Cred.cred_gid (tcred t)) (mode (attr i)) (content (attr i)))
  else i.

(** ramfs's unlink: the last name frees the inode; a directory always goes. *)
Definition rfs_unlink (s : state) (a : Z) : state :=
  match inodes s !! a with
  | Some i => if negb (is_type i INODE_DIR) && (1 <? nlink i) then with_inodes s (<[a := set_nlink i (nlink i - 1)]> (inodes s))
              else with_inodes s (delete a (inodes s))
  | None => s
  end.

(** ** Creation *)

(** [ni] and [nd] are the addresses the allocator gives for the inode and the
    entry, 0 for none.  [kind]: 0 a file, 1 a directory, 2 a fifo. *)
Definition vfs_mutator (ni nd : Z) (s : state) (p : path) (kind : Z) : Z * state :=
  if readonly s p then (-30, s)
  else match split_parent p 256 with
  | None => (-1, s)
  | Some (buf, last) =>
      let par := resolve s buf in
      match live_dir s par with
      | None => (-1, s)
      | Some (x, i) =>
          if negb (dir_ops i) then (-1, s)
          else if negb (vfs_permitted (tcred t) (attr i) VFS_PERM_WRITE) then (-5, s)
          else if (kind =? 2) && match mount_of_dentry s par with
                                 | Some (Some k) => match mounts s !! k with Some m => dev m | None => false end
                                 | _ => false
                                 end then (-3, s)
          else match child_named s x last with
          | Some _ => (-2, s)
          | None =>
              if ni =? 0 then (-1, s)
              else
                let ty := if kind =? 1 then INODE_DIR else INODE_FILE in
                let a := new_inode ty [] in
                let a := if kind =? 2 then set_attr a (Ino INODE_FIFO 0 0 (mode (attr a)) []) else a in
                let s1 := with_inodes s (<[ni := own_by_caller a]> (inodes s)) in
                match vfs_attach_child s1 nd par last ni with
                | None => (-4, s1)
                | Some s2 => (0, s2)
                end
          end
      end
  end.

Definition vfs_create ni nd s p := vfs_mutator ni nd s p 0.
Definition vfs_mkdir ni nd s p := vfs_mutator ni nd s p 1.
Definition vfs_mkfifo ni nd s p := vfs_mutator ni nd s p 2.

Definition vfs_symlink (ni nd : Z) (s : state) (target p : path) : Z * state :=
  if readonly s p then (-30, s)
  else if (len target =? 0) || (255 <=? len target) then (-1, s)
  else match split_parent p 256 with
  | None => (-1, s)
  | Some (buf, last) =>
      if VFS_NAME_MAX <? len last then (-1, s)
      else
        let par := resolve s buf in
        match live_dir s par with
        | None => (-1, s)
        | Some (x, i) =>
            if negb (dir_ops i) then (-3, s)
            else if negb (vfs_permitted (tcred t) (attr i) VFS_PERM_WRITE) then (-5, s)
            else match child_named s x last with
            | Some _ => (-2, s)
            | None =>
                if ni =? 0 then (-1, s)
                else
                  let a := own_by_caller (new_inode INODE_SYMLINK target) in
                  let a := set_attr a (Ino INODE_SYMLINK (owner_uid (attr a)) (owner_gid (attr a)) 511 target) in
                  let s1 := with_inodes s (<[ni := a]> (inodes s)) in
                  match vfs_attach_child s1 nd par last ni with
                  | None => (-1, s1)
                  | Some s2 => (0, s2)
                  end
            end
        end
  end.

(** ** Hard links *)

Definition vfs_link (nd : Z) (s : state) (old new : path) : option (Z * state) :=
  if readonly s new then Some (-30, s)
  else match live s (resolve s old) with
  | None => Some (-1, s)
  | Some (x0, i0) =>
      if negb (is_type i0 INODE_FILE) then Some (-1, s)
      else match split_parent new 256 with
      | None => Some (-1, s)
      | Some (buf, last) =>
          if VFS_NAME_MAX <? len last then Some (-1, s)
          else
            let par := resolve s buf in
            match live_dir s par with
            | None => Some (-1, s)
            | Some (x, i) =>
                if negb (dir_ops i) then Some (-1, s)
                else
                  '(_, pi) ← live s (up x0);
                  if negb (dir_ops pi) then Some (-1, s)
                  else if negb (vfs_permitted (tcred t) (attr i) VFS_PERM_WRITE) then Some (-5, s)
                  else match child_named s x last with
                  | Some _ => Some (-2, s)
                  | None =>
                      let s1 := with_inodes s (<[ino x0 := set_nlink i0 (nlink i0 + 1)]> (inodes s)) in
                      match vfs_attach_child s1 nd par last (ino x0) with
                      | None => Some (-1, s1)
                      | Some s2 => Some (0, s2)
                      end
                  end
            end
      end
  end.

(** ** Removal *)

(** [mem]: memory for the copy of the name was there. *)
Definition vfs_unlink (mem : bool) (s : state) (p : path) : Z * state :=
  if readonly s p then (-30, s)
  else match split_parent p 256 with
  | None => (-1, s)
  | Some (buf, last) =>
      let par := resolve s buf in
      match live_dir s par with
      | None => (-1, s)
      | Some (x, i) =>
          if negb (dir_ops i) then (-1, s)
          else if negb (vfs_permitted (tcred t) (attr i) VFS_PERM_WRITE) then (-5, s)
          else match child_named s x last with
          | None => (-1, s)
          | Some d =>
              match live s d with
              | None => (-1, s)
              | Some (y, j) =>
                  if negb (bnd y =? 0) then (-6, s)
                  else if is_type j INODE_DIR && negb (bool_decide (kids y = [])) then (-2, s)
                  else if is_type j INODE_DEVICE then (-1, s)
                  else if negb (is_type j INODE_DIR) && (0 <? opens j) then
                    if mem then (0, splice_out (with_inodes s (<[ino y := set_pending j (ino x) last]> (inodes s))) par d)
                    else (-1, s)
                  else (0, splice_out (rfs_unlink s (ino y)) par d)
              end
          end
      end
  end.

(** ** Renaming *)

(** [for (a = np; a; a = a->parent) if (a == d) return -1] *)
Fixpoint inside (fuel : nat) (s : state) (d a : Z) : bool :=
  if a =? 0 then false
  else if a =? d then true
  else match fuel with
       | O => false
       | S fuel' => match dents s !! a with
                    | Some x => if up x =? a then false else inside fuel' s d (up x)
                    | None => false
                    end
       end.

(** The relinking at the end of [vfs_move_unlocked]. *)
Definition relink (s : state) (op np d : Z) (n : path) : state :=
  match dents s !! d with
  | None => s
  | Some y =>
      let ds := alter (fun x => set_kids x (filter (fun c => c <> d) (kids x))) op (dents s) in
      let ds := alter (fun x => set_kids x (d :: kids x)) np ds in
      with_dents s (alter (fun z => set_name (set_up z np) (take (Z.to_nat VFS_NAME_MAX) n)) d ds)
  end.

Definition vfs_move (s : state) (op : Z) (olast : path) (np : Z) (nlast : path) : Z * state :=
  match live_dir s op, live_dir s np with
  | Some (ox, oi), Some (nx, ni) =>
      if VFS_NAME_MAX <? len nlast then (-1, s)
      else if negb (mount_eq (mount_of_dentry s op) (mount_of_dentry s np)) then (-3, s)
      else if negb (dir_ops oi) || negb (dir_ops ni) then (-3, s)
      else if negb (vfs_permitted (tcred t) (attr oi) VFS_PERM_WRITE) || negb (vfs_permitted (tcred t) (attr ni) VFS_PERM_WRITE)
      then (-5, s)
      else match child_named s ox olast with
      | None => (-1, s)
      | Some d =>
          match live s d with
          | None => (-1, s)
          | Some (y, j) =>
              if is_type j INODE_DEVICE then (-1, s)
              else match child_named s nx nlast with
              | Some _ => (-2, s)
              | None =>
                  if bool_decide (Exists (fun m => mp m = d) (mounts s)) then (-1, s)
                  else if inside (size (dents s)) s d np then (-1, s)
                  else (0, relink s op np d nlast)
              end
          end
      end
  | _, _ => (-1, s)
  end.

Definition vfs_rename (s : state) (old new : path) : Z * state :=
  if readonly s old || readonly s new then (-30, s)
  else match split_parent old 256, split_parent new 256 with
  | Some (obuf, olast), Some (nbuf, nlast) =>
      let op := resolve s obuf in
      let np := resolve s nbuf in
      if (op =? 0) || (np =? 0) then (-1, s)
      else if negb (op =? np) then vfs_move s op olast np nlast
      else match live_dir s op with
      | None => (-1, s)
      | Some (x, i) =>
          if negb (dir_ops i) then (-1, s)
          else if VFS_NAME_MAX <? len nlast then (-1, s)
          else match child_named s x nlast with
          | Some _ => (-2, s)
          | None =>
              match child_named s x olast with
              | None => (-1, s)
              | Some d =>
                  match live s d with
                  | None => (-1, s)
                  | Some (y, j) =>
                      if is_type j INODE_DEVICE then (-1, s)
                      else (0, with_dents s (<[d := set_name y (take (Z.to_nat VFS_NAME_MAX) nlast)]> (dents s)))
                  end
              end
          end
      end
  | _, _ => (-1, s)
  end.

(** rename(2): an existing target is removed and the rename tried again. *)
Definition vfs_rename_replace (mem : bool) (s : state) (old new : path) : Z * state :=
  if readonly s old || readonly s new then (-30, s)
  else match split_parent old 256, split_parent new 256 with
  | Some (obuf, _), Some (nbuf, _) =>
      if (resolve s obuf =? 0) || (resolve s nbuf =? 0) then (-1, s)
      else
        let '(r, s1) := vfs_rename s old new in
        if negb (r =? -2) then (r, s1)
        else match live s (resolve s new) with
        | None => (-2, s)
        | Some (tx, ti) =>
            let go := let '(u, s2) := vfs_unlink mem s new in
                      if negb (u =? 0) then (-1, s2) else vfs_rename s2 old new in
            if is_type ti INODE_DIR then
              match live s (resolve s old) with
              | Some (_, si) => if negb (is_type si INODE_DIR) then (-2, s)
                                else if negb (bool_decide (kids tx = [])) then (-4, s) else go
              | None => (-2, s)
              end
            else go
        end
  | _, _ => (-1, s)
  end.

(** ** Opening and closing *)

Definition bump_mount (s : state) (k : option nat) (f : Z -> Z) : state :=
  match k with
  | Some k => St (dents s) (inodes s) (files s) (alter (fun m => Mt (mp m) (dev m) (f (open_files m))) k (mounts s)) (top s)
  | None => s
  end.

(** The end of [vfs_open_unlocked], once the entry [d] is chosen and the
    permission given: [fid] is the new struct file, 0 for no memory. *)
Definition open_dentry (fid : Z) (s : state) (d : Z) : option (Z * state) :=
  if fid =? 0 then Some (-2, s)
  else
    '(x, i) ← live s d;
    let s1 := St (dents s) (<[ino x := set_opens i (opens i + 1)]> (inodes s)) (<[fid := Fl (ino x) d]> (files s)) (mounts s) (top s) in
    k ← mount_of_dentry s1 d;
    Some (fid, bump_mount s1 k (Z.add 1)).

(** The result is the file, or the error number that was left behind.  A path
    that names nothing is created when the flags ask for it. *)
Definition vfs_open (ni nd fid : Z) (s : state) (p : path) (flags : Z) : option (Z * state) :=
  if flag_set flags (Z.lor VFS_WRONLY (Z.lor VFS_CREATE VFS_TRUNC)) && readonly s p then Some (-30, s)
  else
    let f := resolve_path_ex proc_alias fd_magic (view_of s) p true (negb (flag_set flags VFS_NOFOLLOW)) in
    let finish (s : state) (d : Z) :=
      match live s d with
      | None => Some (-2, s)
      | Some (_, i) => if vfs_permitted (tcred t) (attr i) (open_want flags) then open_dentry fid s d else Some (-2, s)
      end in
    if negb (entry f =? 0) then finish s (entry f)
    else if negb (flag_set flags VFS_CREATE) then Some (-2, s)
    else match at_parent f with
         | None => Some (-2, s)
         | Some _ =>
             let '(r, s1) := vfs_create ni nd s p in
             if negb (r =? 0) then Some (-2, s1) else finish s1 (resolve s1 p)
         end.

Definition vfs_close (s : state) (fid : Z) : option state :=
  f ← files s !! fid;
  i ← inodes s !! f_inode f;
  m ← (if unlink_dir i =? 0 then mount_of_dentry s (f_dentry f) else Some None);
  let s1 := bump_mount s m (fun n => if 0 <? n then n - 1 else n) in
  let s2 := St (dents s1) (inodes s1) (delete fid (files s1)) (mounts s1) (top s1) in
  if negb (0 <? opens i) then Some s2
  else
    let n := opens i - 1 in
    if (n =? 0) && negb (unlink_dir i =? 0) then
      di ← inodes s2 !! unlink_dir i;
      let s3 := with_inodes s2 (<[f_inode f := set_pending (set_opens i n) 0 []]> (inodes s2)) in
      Some (if dir_ops di then rfs_unlink s3 (f_inode f) else s3)
    else Some (with_inodes s2 (<[f_inode f := set_opens i n]> (inodes s2))).

(** ** Ownership and mode *)

Definition vfs_chmod (s : state) (p : path) (m : Z) : Z * state :=
  if readonly s p then (-30, s)
  else match live s (resolve s p) with
  | None => (-1, s)
  | Some (x, i) =>
      let c := tcred t in
      if (Cred.owner c =? Cred.TASK_OWNER_USER) && negb (Cred.cred_is_admin c) && negb (Cred.cred_uid c =? owner_uid (attr i))
      then (-2, s)
      else (0, with_inodes s (<[ino x := set_attr i (Ino (type (attr i)) (owner_uid (attr i)) (owner_gid (attr i)) (Z.land m 4095) (content (attr i)))]> (inodes s)))
  end.

Definition vfs_chown (s : state) (p : path) (uid gid : Z) : Z * state :=
  if readonly s p then (-30, s)
  else match live s (resolve s p) with
  | None => (-1, s)
  | Some (x, i) =>
      let c := tcred t in
      if (Cred.owner c =? Cred.TASK_OWNER_USER) && negb (Cred.cred_is_admin c) then (-2, s)
      else (0, with_inodes s (<[ino x := set_attr i (Ino (type (attr i))
             (if uid =? Cred.CRED_UID_NONE then owner_uid (attr i) else uid)
             (if gid =? Cred.CRED_UID_NONE then owner_gid (attr i) else gid) (mode (attr i)) (content (attr i)))]> (inodes s)))
  end.

End Ops.

End VfsTree.
