(* ===== verification/VfsTreeInv.v ===== *)
(** * The directory tree stays a tree (VfsTree.v)

    What every operation keeps: parent pointers, child lists and names agree,
    names are unique in a directory, and every entry hangs below the root.
    An entry's path is unique then, and the effect of an operation on the tree
    is its effect on the map from paths to entries. *)

From stdpp Require Import base list gmap.
From Stdlib Require Import ZArith Lia Bool.
From S2P Require Import Prelude Cred Vfs VfsSpec VfsTree.
Import Vfs VfsSpec VfsTree.
Open Scope Z_scope.

Module VfsTreeInv.

Section Tree.
Context (r : Z).
Implicit Types (ds : gmap Z xdentry) (d c p : Z) (x y z : xdentry) (cs : list path) (n : path).

(** ** Paths by parent pointers *)

Inductive at_path ds : Z -> list path -> Prop :=
| at_root : at_path ds r []
| at_child d x cs : ds !! d = Some x -> d <> r -> at_path ds (up x) cs -> at_path ds d (cs ++ [name x]).

Record tree_ok ds : Prop := {
  t_zero : ds !! 0 = None;
  t_root : exists x, ds !! r = Some x /\ up x = 0;
  t_child d x c : ds !! d = Some x -> c ∈ kids x -> exists y, ds !! c = Some y /\ up y = d;
  t_parent d x : ds !! d = Some x -> d <> r -> exists y, ds !! up x = Some y /\ d ∈ kids y;
  t_nodup d x : ds !! d = Some x -> NoDup (kids x);
  t_names d x c1 c2 y1 y2 : ds !! d = Some x -> c1 ∈ kids x -> c2 ∈ kids x ->
    ds !! c1 = Some y1 -> ds !! c2 = Some y2 -> name y1 = name y2 -> c1 = c2;
  t_plain d x : ds !! d = Some x -> d <> r -> plain (name x) /\ len (name x) <= VFS_NAME_MAX;
  t_above d x : ds !! d = Some x -> exists cs, at_path ds d cs }.

Lemma at_path_live ds d cs : tree_ok ds -> at_path ds d cs -> exists x, ds !! d = Some x.
Proof. intros Ht [|d' x cs' Hx]; [destruct (t_root _ Ht) as (x & Hx & _)|]; by exists x. Qed.

Lemma at_path_inv ds d cs : at_path ds d cs ->
  (d = r /\ cs = []) \/ exists x cs0, cs = cs0 ++ [name x] /\ ds !! d = Some x /\ d <> r /\ at_path ds (up x) cs0.
Proof. destruct 1 as [|d x cs]; [by left|]. right. by exists x, cs. Qed.

Lemma at_path_snoc ds d cs n : at_path ds d (cs ++ [n]) ->
  exists x, ds !! d = Some x /\ d <> r /\ name x = n /\ at_path ds (up x) cs.
Proof.
  intros [[_ E]|(x & cs0 & E & Hx & Hr & Hp)]%at_path_inv; [by apply app_eq_nil in E as [_ ?]|].
  apply app_inj_tail in E as [-> ->]. by exists x.
Qed.

Lemma at_path_nil ds d : at_path ds d [] -> d = r.
Proof. intros [[-> _]|(x & cs0 & E & _)]%at_path_inv; [done|]. symmetry in E. by apply app_eq_nil in E as [_ ?]. Qed.

Lemma at_path_inj ds d cs1 cs2 : at_path ds d cs1 -> at_path ds d cs2 -> cs1 = cs2.
Proof.
  intros H. revert cs2. induction H as [|d x cs Hx Hr _ IH]; intros cs2 [[E ->]|(x' & cs0 & -> & Hx' & Hr' & Hp)]%at_path_inv; try done.
  rewrite Hx in Hx'. injection Hx' as Ex. subst x'. by rewrite (IH _ Hp).
Qed.

Lemma kid_not_root ds d x c : tree_ok ds -> ds !! d = Some x -> c ∈ kids x -> c <> r.
Proof.
  intros Ht Hx Hc ->. destruct (t_child _ Ht _ _ _ Hx Hc) as (y & Hy & Hu). destruct (t_root _ Ht) as (z & Hz & Hz0).
  rewrite Hy in Hz. injection Hz as <-. rewrite Hz0 in Hu. subst d. by rewrite (t_zero _ Ht) in Hx.
Qed.

Lemma kid_iff ds d x c : tree_ok ds -> ds !! d = Some x -> c ∈ kids x <-> exists y, ds !! c = Some y /\ c <> r /\ up y = d.
Proof.
  intros Ht Hx. split.
  - intros Hc. destruct (t_child _ Ht _ _ _ Hx Hc) as (y & Hy & Hu). exists y. split; [done|]. split; [|done]. exact (kid_not_root ds d x c Ht Hx Hc).
  - intros (y & Hy & Hr & <-). destruct (t_parent _ Ht _ _ Hy Hr) as (x' & Hx' & Hin). rewrite Hx in Hx'. by injection Hx' as <-.
Qed.

Lemma at_path_fun ds d1 d2 cs : tree_ok ds -> at_path ds d1 cs -> at_path ds d2 cs -> d1 = d2.
Proof.
  intros Ht H. revert d2. induction H as [|d x cs Hx Hr H1 IH]; intros d2 H2.
  - by rewrite (at_path_nil _ _ H2).
  - apply at_path_snoc in H2 as (y & Hy & Hr' & En & Hp). pose proof (IH _ Hp) as Eup.
    destruct (t_parent _ Ht _ _ Hx Hr) as (z & Hz & Hin). eapply (t_names _ Ht (up x) z); try done.
    apply (kid_iff ds (up x) z); [done..|]. by exists y.
Qed.

(** ** Following names downwards *)

Definition step ds (d : Z) (n : path) : option Z :=
  x ← ds !! d; snd <$> list_find (fun c => name <$> ds !! c = Some n) (kids x).

Definition find ds (cs : list path) : option Z := foldl (fun o n => o ≫= fun d => step ds d n) (Some r) cs.

Lemma step_iff ds d n c : tree_ok ds ->
  step ds d n = Some c <-> exists x y, ds !! d = Some x /\ c ∈ kids x /\ ds !! c = Some y /\ name y = n.
Proof.
  intros Ht. unfold step. destruct (ds !! d) as [x|] eqn:Hx; cbn; [|naive_solver].
  split.
  - destruct (list_find _ _) as [[i k]|] eqn:E; [|done]. cbn. intros [= <-].
    apply list_find_Some in E as (E & Hn & _). apply fmap_Some in Hn as (y & Hy & ->).
    exists x, y. repeat split; try done. by eapply list_elem_of_lookup_2.
  - intros (x' & y & [= <-] & Hin & Hy & Hn).
    destruct (list_find_elem_of (fun c => name <$> ds !! c = Some n) (kids x) c) as [[i k] E]; [done|by rewrite Hy; cbn; rewrite Hn|].
    rewrite E. cbn. f_equal. apply list_find_Some in E as (E & Hk & _). apply fmap_Some in Hk as (z & Hz & Hzn).
    eapply (t_names _ Ht d x); try done; [by eapply list_elem_of_lookup_2|congruence].
Qed.

Lemma find_snoc ds cs n : find ds (cs ++ [n]) = find ds cs ≫= fun d => step ds d n.
Proof. unfold find. by rewrite foldl_app. Qed.

Lemma find_iff ds cs d : tree_ok ds -> find ds cs = Some d <-> at_path ds d cs.
Proof.
  intros Ht. revert d. induction cs as [|n cs IH] using rev_ind; intros d.
  - unfold find; cbn. split; [intros [= <-]; constructor|]. intros ->%at_path_nil. done.
  - rewrite find_snoc. split.
    + destruct (find ds cs) as [p|] eqn:Ep; [|done]. cbn. rewrite step_iff by done.
      intros (x & y & Hx & Hin & Hy & <-). destruct (t_child _ Ht _ _ _ Hx Hin) as (y' & Hy' & Hu).
      rewrite Hy in Hy'. injection Hy' as <-. constructor; [done|exact (kid_not_root ds p x d Ht Hx Hin)|]. rewrite Hu. by apply IH.
    + intros H. apply at_path_snoc in H as (x & Hx & Hr & <- & Hp). apply IH in Hp. rewrite Hp. cbn.
      destruct (t_parent _ Ht _ _ Hx Hr) as (y & Hy & Hin). apply step_iff; [done|]. by exists y, x.
Qed.

(** Two trees with the same located entries answer the same. *)
Lemma find_ext ds ds' cs (f : option Z) : tree_ok ds -> (forall d, at_path ds d cs <-> f = Some d) -> find ds cs = f.
Proof. intros Ht H. apply option_eq. intros d. by rewrite find_iff, H. Qed.

(** ** Showing that something is a tree *)

Lemma tree_intro ds : ds !! 0 = None -> (exists x, ds !! r = Some x /\ up x = 0) ->
  (forall d x, ds !! d = Some x -> NoDup (kids x) /\ forall c, c ∈ kids x <-> exists y, ds !! c = Some y /\ c <> r /\ up y = d) ->
  (forall d x, ds !! d = Some x -> d <> r -> is_Some (ds !! up x)) ->
  (forall c1 c2 y1 y2, ds !! c1 = Some y1 -> ds !! c2 = Some y2 -> c1 <> r -> c2 <> r -> up y1 = up y2 -> name y1 = name y2 -> c1 = c2) ->
  (forall d x, ds !! d = Some x -> d <> r -> plain (name x) /\ len (name x) <= VFS_NAME_MAX) ->
  (forall d x, ds !! d = Some x -> exists cs, at_path ds d cs) -> tree_ok ds.
Proof.
  intros Hz Hr Hk Hp Hn Hpl Hab. constructor; try done.
  - intros d x c Hx Hc. apply (Hk d x Hx) in Hc as (y & Hy & _ & Hu). by exists y.
  - intros d x Hx Hd. destruct (Hp d x Hx Hd) as [y Hy]. exists y. split; [done|]. apply (Hk _ y Hy). by exists x.
  - intros d x Hx. by apply (Hk d x).
  - intros d x c1 c2 y1 y2 Hx H1 H2 Hy1 Hy2 E. apply (Hk d x Hx) in H1 as (z1 & Hz1 & Hc1 & Hu1), H2 as (z2 & Hz2 & Hc2 & Hu2).
    simplify_eq. eapply (Hn c1 c2); done || congruence.
Qed.

Lemma t_sib ds c1 c2 y1 y2 : tree_ok ds -> ds !! c1 = Some y1 -> ds !! c2 = Some y2 -> c1 <> r -> c2 <> r ->
  up y1 = up y2 -> name y1 = name y2 -> c1 = c2.
Proof.
  intros Ht H1 H2 Hr1 Hr2 Hu Hn. destruct (t_parent _ Ht _ _ H1 Hr1) as (x & Hx & Hin).
  eapply (t_names _ Ht (up y1) x); try done. apply (kid_iff ds (up y1) x); [done..|]. by exists y2.
Qed.

Lemma at_path_mono ds ds' d cs :
  (forall d x, ds !! d = Some x -> exists x', ds' !! d = Some x' /\ up x' = up x /\ name x' = name x) ->
  at_path ds d cs -> at_path ds' d cs.
Proof.
  intros H. induction 1 as [|d x cs Hx Hr _ IH]; [constructor|]. destruct (H d x Hx) as (x' & Hx' & Hu & Hn).
  rewrite <- Hn. constructor; [done|done|by rewrite Hu].
Qed.

(** ** A new entry *)

Definition attach_ds ds (nd par : Z) (x : xdentry) (n : path) (i : Z) : gmap Z xdentry :=
  <[nd := XD n i par [] 0 0 0 false 0 0]> (<[par := set_kids x (nd :: kids x)]> ds).

Section Attach.
Context ds (nd par : Z) (x : xdentry) (n : path) (i : Z).
Hypotheses (Ht : tree_ok ds) (Hx : ds !! par = Some x) (Hnd : nd <> 0) (Hfresh : ds !! nd = None)
  (Hn : plain n) (Hl : len n <= VFS_NAME_MAX) (Hno : step ds par n = None).
Let ds' := attach_ds ds nd par x n i.

Lemma attach_lookup d z : ds' !! d = Some z <->
  (d = nd /\ z = XD n i par [] 0 0 0 false 0 0) \/ (d = par /\ d <> nd /\ z = set_kids x (nd :: kids x)) \/
  (d <> par /\ d <> nd /\ ds !! d = Some z).
Proof. unfold ds', attach_ds. rewrite !lookup_insert_Some. destruct (decide (d = par)), (decide (d = nd)); naive_solver. Qed.

Lemma attach_old d y : ds !! d = Some y -> exists y', ds' !! d = Some y' /\ up y' = up y /\ name y' = name y /\
  kids y' = (if decide (d = par) then nd :: kids y else kids y).
Proof.
  intros Hy. assert (d <> nd) by (intros ->; by rewrite Hfresh in Hy). destruct (decide (d = par)) as [->|Hd].
  - rewrite Hx in Hy. injection Hy as <-. exists (set_kids x (nd :: kids x)). split; [apply attach_lookup|done]. naive_solver.
  - exists y. split; [apply attach_lookup; naive_solver|done].
Qed.

Lemma attach_nr : nd <> r.
Proof. intros ->. destruct (t_root _ Ht) as (z & Hz & _). by rewrite Hfresh in Hz. Qed.

Lemma attach_free c y : ds !! c = Some y -> c <> r -> up y = par -> name y <> n.
Proof.
  intros Hy Hr Hu En. assert (step ds par n = Some c); [|congruence]. apply step_iff; [done|].
  exists x, y. split; [done|]. split; [|done]. apply (kid_iff ds par x); [done..|]. by exists y.
Qed.

Lemma attach_inv d z : ds' !! d = Some z ->
  (d = nd /\ z = XD n i par [] 0 0 0 false 0 0) \/
  (d <> nd /\ exists y, ds !! d = Some y /\ up z = up y /\ name z = name y /\ kids z = (if decide (d = par) then nd :: kids y else kids y)).
Proof.
  intros [H|[(-> & Hne & ->)|(Hd & Hne & Hz)]]%attach_lookup; [by left|right..]; (split; [done|]).
  - exists x. rewrite decide_True by done. done.
  - exists z. rewrite decide_False by done. done.
Qed.

Lemma attach_path d cs' cs : at_path ds par cs -> at_path ds' d cs' <-> at_path ds d cs' \/ (d = nd /\ cs' = cs ++ [n]).
Proof.
  intros Hpar. assert (forall d cs, at_path ds d cs -> at_path ds' d cs) as Hmono.
  { intros e ce. apply at_path_mono. intros f y Hy. destruct (attach_old f y Hy) as (y' & H1 & H2 & H3 & _). by exists y'. }
  split.
  - induction 1 as [|d z cs' Hz Hr _ IH]; [left; constructor|].
    apply attach_inv in Hz as [[-> ->]|(Hne & y & Hy & Hu & Hnm & _)].
    + right. split; [done|]. cbn in *. f_equal. destruct IH as [IH|[E _]]; [by eapply at_path_inj|].
      subst par. by rewrite Hfresh in Hx.
    + left. rewrite Hnm. constructor; [done|done|]. rewrite Hu in IH. destruct IH as [IH|[E _]]; [done|].
      destruct (t_parent _ Ht _ _ Hy Hr) as (w & Hw & _). rewrite E in Hw. by rewrite Hfresh in Hw.
  - intros [H|[-> ->]]; [by apply Hmono|].
    change n with (name (XD n i par [] 0 0 0 false 0 0)). constructor; [apply attach_lookup; by left|apply attach_nr|]. by apply Hmono.
Qed.

Lemma attach_tree : tree_ok ds'.
Proof.
  destruct (t_above _ Ht _ _ Hx) as [cs Hcs]. apply tree_intro.
  - apply eq_None_not_Some. intros [z [[H _]|(_ & y & Hy & _)]%attach_inv]; [done|]. by rewrite (t_zero _ Ht) in Hy.
  - destruct (t_root _ Ht) as (y & Hy & Hu). destruct (attach_old _ _ Hy) as (y' & Hy' & Hu' & _). exists y'. split; [done|congruence].
  - intros d z [[-> ->]|(Hne & y & Hy & Hu & Hnm & Hk)]%attach_inv.
    + split; [constructor|]. intros c. cbn. split; [by intros ?%not_elem_of_nil|].
      intros (w & [[-> ->]|(_ & y & Hy & Hu & _)]%attach_inv & Hr & E); cbn in E; [subst par; by rewrite Hfresh in Hx|].
      destruct (t_parent _ Ht _ _ Hy Hr) as (v & Hv & _). rewrite <- Hu, E in Hv. by rewrite Hfresh in Hv.
    + assert (nd ∉ kids y) as Hnin.
      { intros Hin. destruct (t_child _ Ht _ _ _ Hy Hin) as (v & Hv & _). by rewrite Hfresh in Hv. }
      split.
      { rewrite Hk. destruct (decide (d = par)); [constructor; [done|]|]; by eapply t_nodup. }
      intros c. assert (c ∈ kids z <-> c ∈ kids y \/ (c = nd /\ d = par)) as ->.
      { rewrite Hk. destruct (decide (d = par)); rewrite ?elem_of_cons; naive_solver. }
      rewrite (kid_iff ds d y) by done. split.
      * intros [(v & Hv & Hr & <-)|[-> ->]].
        -- destruct (attach_old _ _ Hv) as (v' & Hv' & Hu' & _). by exists v'.
        -- exists (XD n i par [] 0 0 0 false 0 0). split; [apply attach_lookup; by left|]. split; [apply attach_nr|done].
      * intros (w & [[-> ->]|(_ & v & Hv & Hu' & _)]%attach_inv & Hr & E); [right; by cbn in E|]. left. exists v. naive_solver congruence.
  - intros d z [[-> ->]|(Hne & y & Hy & Hu & _)]%attach_inv Hr; cbn.
    + destruct (attach_old _ _ Hx) as (y' & Hy' & _). by exists y'.
    + destruct (t_parent _ Ht _ _ Hy Hr) as (v & Hv & _). rewrite Hu. destruct (attach_old _ _ Hv) as (v' & Hv' & _). by exists v'.
  - intros c1 c2 y1 y2 [[-> ->]|(N1 & v1 & V1 & U1 & M1 & _)]%attach_inv [[-> ->]|(N2 & v2 & V2 & U2 & M2 & _)]%attach_inv R1 R2 Hu Hnm; cbn in *; [done|..].
    + destruct (attach_free _ _ V2 R2); congruence.
    + destruct (attach_free _ _ V1 R1); congruence.
    + eapply (t_sib ds c1 c2 v1 v2); done || congruence.
  - intros d z [[-> ->]|(_ & y & Hy & _ & Hnm & _)]%attach_inv Hr; [done|]. rewrite Hnm. by eapply t_plain.
  - intros d z [[-> ->]|(_ & y & Hy & _)]%attach_inv; [exists (cs ++ [n]); apply (attach_path _ _ cs Hcs); by right|].
    destruct (t_above _ Ht _ _ Hy) as [ce Hce]. exists ce. apply (attach_path _ _ cs Hcs). by left.
Qed.

End Attach.

(** ** An entry removed *)

Definition splice_ds ds (par d : Z) (x : xdentry) : gmap Z xdentry :=
  delete d (<[par := set_kids x (filter (fun c => c <> d) (kids x))]> ds).

Section Splice.
Context ds (par d : Z) (x y : xdentry).
Hypotheses (Ht : tree_ok ds) (Hx : ds !! par = Some x) (Hy : ds !! d = Some y) (Hr : d <> r)
  (Hu : up y = par) (Hk : kids y = []).
Let ds' := splice_ds ds par d x.

Lemma splice_childless c v : ds !! c = Some v -> c <> r -> up v <> d.
Proof.
  intros Hv Hc E. destruct (t_parent _ Ht _ _ Hv Hc) as (w & Hw & Hin). rewrite E, Hy in Hw. injection Hw as <-.
  rewrite Hk in Hin. by apply not_elem_of_nil in Hin.
Qed.

Lemma splice_ne : par <> d.
Proof. intros E. destruct (splice_childless d y Hy Hr). congruence. Qed.

Lemma splice_inv e z : ds' !! e = Some z ->
  e <> d /\ exists v, ds !! e = Some v /\ up z = up v /\ name z = name v /\
    kids z = (if decide (e = par) then filter (fun c => c <> d) (kids v) else kids v).
Proof.
  unfold ds', splice_ds. rewrite lookup_delete_Some, lookup_insert_Some. intros [Hne [[<- <-]|[Hp Hz]]].
  - split; [done|]. exists x. rewrite decide_True by done. done.
  - split; [done|]. exists z. rewrite decide_False by done. done.
Qed.

Lemma splice_old e v : ds !! e = Some v -> e <> d -> exists z, ds' !! e = Some z /\ up z = up v /\ name z = name v.
Proof.
  intros Hv Hne. unfold ds', splice_ds. rewrite lookup_delete_ne by done. destruct (decide (e = par)) as [->|Hp].
  - rewrite lookup_insert_eq. rewrite Hx in Hv. injection Hv as <-. by eexists.
  - rewrite lookup_insert_ne by done. by exists v.
Qed.

Lemma splice_path e cs : at_path ds' e cs <-> at_path ds e cs /\ e <> d.
Proof.
  split.
  - intros H. split.
    + eapply at_path_mono; [|exact H]. intros f z (_ & v & Hv & Hu' & Hn' & _)%splice_inv. by exists v.
    + destruct H as [|e z cs Hz]; [done|]. by apply splice_inv in Hz as [? _].
  - intros [H Hne]. revert Hne. induction H as [|e v cs Hv Her _ IH]; intros Hne; [constructor|].
    destruct (splice_old e v Hv Hne) as (z & Hz & Hu' & <-). constructor; [done|done|]. rewrite Hu'. apply IH. by eapply splice_childless.
Qed.

Lemma splice_tree : tree_ok ds'.
Proof.
  apply tree_intro.
  - apply eq_None_not_Some. intros [z (_ & v & Hv & _)%splice_inv]. by rewrite (t_zero _ Ht) in Hv.
  - destruct (t_root _ Ht) as (v & Hv & Hv0). destruct (splice_old r v Hv (not_eq_sym Hr)) as (z & Hz & E & _). exists z. split; [done|congruence].
  - intros e z (Hne & v & Hv & Hu' & _ & Hkz)%splice_inv. split.
    { rewrite Hkz. pose proof (t_nodup _ Ht _ _ Hv). destruct (decide (e = par)); [by apply NoDup_filter|done]. }
    intros c. assert (c ∈ kids z <-> c ∈ kids v /\ c <> d) as ->.
    { rewrite Hkz. destruct (decide (e = par)) as [->|Hp]; [rewrite list_elem_of_filter; naive_solver|]. split; [|naive_solver].
      intros Hc. split; [done|]. intros ->. apply (kid_iff ds e v) in Hc as (w & Hw & _ & E); [|done..].
      rewrite Hy in Hw. injection Hw as <-. congruence. }
    rewrite (kid_iff ds e v) by done. split.
    + intros [(w & Hw & Hc & E) Hcd]. destruct (splice_old c w Hw Hcd) as (w' & Hw' & E' & _). exists w'. naive_solver congruence.
    + intros (w' & (Hcd & w & Hw & E' & _)%splice_inv & Hc & E). split; [|done]. exists w. naive_solver congruence.
  - intros e z (Hne & v & Hv & Hu' & _)%splice_inv Her. destruct (t_parent _ Ht _ _ Hv Her) as (w & Hw & _). rewrite Hu'.
    destruct (splice_old (up v) w Hw) as (w' & Hw' & _); [by eapply splice_childless|]. by exists w'.
  - intros c1 c2 y1 y2 (N1 & v1 & V1 & U1 & M1 & _)%splice_inv (N2 & v2 & V2 & U2 & M2 & _)%splice_inv R1 R2 E1 E2.
    eapply (t_sib ds c1 c2 v1 v2); done || congruence.
  - intros e z (Hne & v & Hv & _ & Hn & _)%splice_inv Her. rewrite Hn. by eapply t_plain.
  - intros e z (Hne & v & Hv & _)%splice_inv. destruct (t_above _ Ht _ _ Hv) as [cs Hcs]. exists cs. by apply splice_path.
Qed.

End Splice.

(** ** An entry renamed or moved *)

Lemma prefix_snoc_cases (l1 l2 : list path) n : l1 `prefix_of` l2 ++ [n] -> l1 = l2 ++ [n] \/ l1 `prefix_of` l2.
Proof.
  intros [k E]. destruct k as [|m k _] using rev_ind; [left; by rewrite app_nil_r in E|].
  right. rewrite app_assoc in E. apply app_inj_tail in E as [-> _]. by exists k.
Qed.

Section Moved.
Context ds ds' (d np : Z) (y : xdentry) (n : path) (ocs ncs : list path).
Hypotheses (Ht : tree_ok ds) (Hy : ds !! d = Some y) (Hr : d <> r) (Hnp : is_Some (ds !! np))
  (Hold : forall e v, ds !! e = Some v -> exists z, ds' !! e = Some z /\
     (if decide (e = d) then up z = np /\ name z = n else up z = up v /\ name z = name v) /\
     NoDup (kids z) /\ forall c, c ∈ kids z <-> (if decide (c = d) then e = np else c ∈ kids v))
  (Hdom : forall e z, ds' !! e = Some z -> is_Some (ds !! e))
  (Hn : plain n) (Hl : len n <= VFS_NAME_MAX) (Hfree : step ds np n = None)
  (Hocs : at_path ds d ocs) (Hncs : at_path ds np ncs) (Hout : ~ ocs `prefix_of` ncs).

Lemma moved_inv e z : ds' !! e = Some z -> exists v, ds !! e = Some v /\
  (if decide (e = d) then up z = np /\ name z = n else up z = up v /\ name z = name v) /\
  NoDup (kids z) /\ forall c, c ∈ kids z <-> (if decide (c = d) then e = np else c ∈ kids v).
Proof.
  intros Hz. destruct (Hdom e z Hz) as [v Hv]. exists v. split; [done|]. destruct (Hold e v Hv) as (z' & Hz' & H). by simplify_eq.
Qed.

Lemma moved_path_out e cs : at_path ds e cs -> ~ ocs `prefix_of` cs -> at_path ds' e cs.
Proof.
  induction 1 as [|e v cs Hv Her Hp IH]; intros Hnp'; [constructor|].
  destruct (Hold e v Hv) as (z & Hz & Hc & _). destruct (decide (e = d)) as [->|Hne].
  - destruct Hnp'. rewrite (at_path_inj ds d ocs (cs ++ [name v])); [done|done|]. by constructor.
  - destruct Hc as [Hu <-]. constructor; [done|done|]. rewrite Hu. apply IH. intros Hpre. apply Hnp'. by apply prefix_app_r.
Qed.

Lemma moved_path_in e rest : at_path ds e (ocs ++ rest) -> at_path ds' e (ncs ++ [n] ++ rest).
Proof.
  revert e. induction rest as [|m rest IH] using rev_ind; intros e He.
  - rewrite app_nil_r in He |- *. rewrite (at_path_fun ds e d ocs Ht He Hocs).
    destruct (Hold d y Hy) as (z & Hz & Hc & _). rewrite decide_True in Hc by done. destruct Hc as [Hu Hnm]. rewrite <- Hnm.
    constructor; [done|done|]. rewrite Hu. by apply moved_path_out.
  - pose proof He as He0. rewrite app_assoc in He. apply at_path_snoc in He as (v & Hv & Her & <- & Hp).
    destruct (Hold e v Hv) as (z & Hz & Hc & _). destruct (decide (e = d)) as [->|Hne].
    + pose proof (at_path_inj _ _ _ _ Hocs He0) as E. apply (f_equal length) in E. rewrite !length_app in E. cbn in E. lia.
    + destruct Hc as [Hu <-]. rewrite !app_assoc. constructor; [done|done|]. rewrite Hu, <- app_assoc. by apply IH.
Qed.

Lemma moved_path e cs' : at_path ds' e cs' <->
  (exists rest, at_path ds e (ocs ++ rest) /\ cs' = ncs ++ [n] ++ rest) \/ (at_path ds e cs' /\ ~ ocs `prefix_of` cs').
Proof.
  split; [|intros [(rest & H & ->)|[H Hnp']]; [by apply moved_path_in|by apply moved_path_out]].
  induction 1 as [|e z cs Hz Her _ IH].
  { right. split; [constructor|]. intros ->%prefix_nil_inv. apply at_path_nil in Hocs. done. }
  destruct (moved_inv e z Hz) as (v & Hv & Hc & _). destruct (decide (e = d)) as [->|Hne]; destruct Hc as [Hu Hnm].
  - left. exists []. rewrite !app_nil_r. split; [done|]. rewrite Hnm. f_equal. rewrite Hu in IH.
    destruct IH as [(rest & H & _)|[H _]]; [|by eapply at_path_inj]. destruct Hout. rewrite (at_path_inj _ _ _ _ Hncs H). by apply prefix_app_r.
  - rewrite Hu in IH. rewrite Hnm. destruct IH as [(rest & H & ->)|[H Hnot]].
    + left. exists (rest ++ [name v]). split; [rewrite app_assoc; by constructor|by rewrite !app_assoc].
    + right. split; [by constructor|]. intros Hpre. apply prefix_snoc_cases in Hpre as [E|Hpre]; [|done].
      apply Hne. eapply at_path_fun; [done| |done]. rewrite E. by constructor.
Qed.

Lemma moved_tree : tree_ok ds'.
Proof.
  assert (forall c v, ds !! c = Some v -> c <> r -> up v = np -> name v <> n) as Hno.
  { intros c v Hv Hc Hu En. destruct Hnp as [x Hx]. assert (step ds np n = Some c); [|congruence]. apply step_iff; [done|].
    exists x, v. split; [done|]. split; [|done]. apply (kid_iff ds np x); [done..|]. by exists v. }
  apply tree_intro.
  - apply eq_None_not_Some. intros [z (v & Hv & _)%moved_inv]. by rewrite (t_zero _ Ht) in Hv.
  - destruct (t_root _ Ht) as (v & Hv & Hv0). destruct (Hold r v Hv) as (z & Hz & Hc & _). rewrite decide_False in Hc by done.
    exists z. split; [done|]. destruct Hc; congruence.
  - intros e z (v & Hv & Hc & Hnd & Hk)%moved_inv. split; [done|]. intros c. rewrite Hk. destruct (decide (c = d)) as [->|Hcd].
    + split.
      * intros ->. destruct (Hold d y Hy) as (w & Hw & Hc' & _). rewrite decide_True in Hc' by done. exists w. naive_solver.
      * intros (w & (v' & Hv' & Hc' & _)%moved_inv & _ & <-). rewrite decide_True in Hc' by done. naive_solver.
    + rewrite (kid_iff ds e v) by done. split.
      * intros (w & Hw & Hcr & <-). destruct (Hold c w Hw) as (w' & Hw' & Hc' & _). rewrite decide_False in Hc' by done. exists w'. naive_solver.
      * intros (w' & (w & Hw & Hc' & _)%moved_inv & Hcr & <-). rewrite decide_False in Hc' by done. exists w. naive_solver.
  - intros e z (v & Hv & Hc & _)%moved_inv Her. destruct (decide (e = d)); destruct Hc as [Hu _]; rewrite Hu.
    + destruct Hnp as [w Hw]. destruct (Hold np w Hw) as (w' & Hw' & _). by exists w'.
    + destruct (t_parent _ Ht _ _ Hv Her) as (w & Hw & _). destruct (Hold _ w Hw) as (w' & Hw' & _). by exists w'.
  - intros c1 c2 y1 y2 (v1 & V1 & C1 & _)%moved_inv (v2 & V2 & C2 & _)%moved_inv R1 R2 Hu Hnm.
    destruct (decide (c1 = d)), (decide (c2 = d)); destruct C1 as [U1 M1], C2 as [U2 M2]; [congruence|..].
    + destruct (Hno c2 v2 V2 R2); congruence.
    + destruct (Hno c1 v1 V1 R1); congruence.
    + eapply (t_sib ds c1 c2 v1 v2); done || congruence.
  - intros e z (v & Hv & Hc & _)%moved_inv Her. destruct (decide (e = d)); destruct Hc as [_ ->]; [done|]. by eapply t_plain.
  - intros e z (v & Hv & _)%moved_inv. destruct (t_above _ Ht _ _ Hv) as [cs Hcs].
    destruct (decide (ocs `prefix_of` cs)) as [[rest ->]|Hno']; [exists (ncs ++ [n] ++ rest)|exists cs]; apply moved_path; naive_solver.
Qed.

End Moved.

(** ** Paths are shorter than the store *)

Lemma ancestors ds d cs : tree_ok ds -> at_path ds d cs -> exists l, length l = S (length cs) /\ NoDup l /\
  forall e, e ∈ l -> is_Some (ds !! e) /\ exists cs', at_path ds e cs' /\ (length cs' <= length cs)%nat.
Proof.
  intros Ht. induction 1 as [|d x cs Hx Hr Hp (l & Hl & Hnd & He)].
  - exists [r]. split; [done|]. split; [apply NoDup_singleton|]. intros e ->%list_elem_of_singleton.
    destruct (t_root _ Ht) as (x & Hx & _). split; [by exists x|]. exists []. split; [constructor|done].
  - exists (d :: l). split; [cbn; rewrite length_app; cbn; lia|]. split.
    + constructor; [|done]. intros (_ & cs' & Hc & Hlen)%He.
      assert (cs' = cs ++ [name x]) as -> by (eapply at_path_inj; [done|by constructor]). rewrite length_app in Hlen. cbn in Hlen. lia.
    + intros e [->|Hin]%elem_of_cons.
      * split; [by exists x|]. exists (cs ++ [name x]). split; [by constructor|done].
      * destruct (He e Hin) as (H1 & cs' & H2 & H3). split; [done|]. exists cs'. split; [done|]. rewrite length_app. lia.
Qed.

Lemma path_short ds d cs : tree_ok ds -> at_path ds d cs -> (length cs < size ds)%nat.
Proof.
  intros Ht H. destruct (ancestors ds d cs Ht H) as (l & Hl & Hnd & He).
  assert (length l <= size ds)%nat; [|lia]. rewrite <- size_dom, <- (size_list_to_set (C := gset Z) l) by done.
  apply subseteq_size. intros e Hin%elem_of_list_to_set. apply elem_of_dom. by apply He.
Qed.

End Tree.

Definition located (s : state) (d : Z) (cs : list path) : Prop := at_path (top s) (dents s) d cs.
Definition stree (s : state) : Prop := tree_ok (top s) (dents s).

Lemma child_named_step s d x n : dents s !! d = Some x -> child_named s x n = step (dents s) d n.
Proof. intros H. unfold child_named, step. by rewrite H. Qed.

(** A directory's own subtree is found by going up. *)
Lemma inside_true s d np ocs ncs fuel : stree s -> located s d ocs -> located s np ncs -> ocs `prefix_of` ncs ->
  (length ncs <= fuel)%nat -> inside fuel s d np = true.
Proof.
  intros Ht Hd Hn. revert fuel. induction Hn as [|np x cs Hx Hr Hp IH]; intros fuel Hpre Hf.
  - apply prefix_nil_inv in Hpre as ->. apply at_path_nil in Hd as ->. destruct (t_root _ _ Ht) as (x & Hx & _).
    destruct fuel; cbn; (destruct (Z.eqb_spec (top s) 0) as [E|_]; [rewrite E, (t_zero _ _ Ht) in Hx; done|]); by rewrite Z.eqb_refl.
  - assert (np <> 0) by (intros ->; by rewrite (t_zero _ _ Ht) in Hx). rewrite length_app in Hf; cbn in Hf.
    destruct fuel as [|fuel]; [lia|]. cbn [inside]. rewrite (proj2 (Z.eqb_neq np 0)) by done. destruct (Z.eqb_spec np d) as [|Hne]; [done|].
    rewrite Hx. destruct (Z.eqb_spec (up x) np) as [E|_].
    { exfalso. rewrite E in Hp. pose proof (at_path_inj _ _ _ _ (cs ++ [name x]) Hp ltac:(constructor; [done|done|by rewrite E])) as E'.
      apply (f_equal length) in E'. rewrite length_app in E'. cbn in E'. lia. }
    apply prefix_snoc_cases in Hpre as [->|Hpre]; [|apply IH; [done|lia]].
    destruct Hne. eapply (at_path_fun _ _ _ _ _ Ht); [|exact Hd]. by constructor.
Qed.

Lemma climb_ok s d cs fuel : stree s -> located s d cs -> exists m, climb fuel s d = Some m.
Proof.
  intros Ht Hd. revert fuel. induction Hd as [|d x cs Hx Hr Hp IH]; intros fuel.
  - destruct (t_root _ _ Ht) as (x & Hx & Hu). destruct fuel; cbn [climb]; (destruct (top s =? 0); [by eexists|]); rewrite Hx; cbn;
      (destruct (list_find _ _) as [[]|]; [by eexists|]); [by eexists|]. rewrite Hu. destruct (0 =? top s); [by eexists|]. destruct fuel; cbn; by eexists.
  - destruct fuel as [|fuel]; cbn [climb]; (destruct (d =? 0); [by eexists|]); rewrite Hx; cbn [mbind option_bind];
      (destruct (list_find _ _) as [[]|]; [by eexists|]); [by eexists|]. destruct (up x =? d); [by eexists|]. apply IH.
Qed.

(** ** Renaming *)

Lemma rename_moved s d y n cs : stree s -> dents s !! d = Some y -> d <> top s -> located s (up y) cs ->
  plain n -> len n <= VFS_NAME_MAX -> step (dents s) (up y) n = None ->
  let ds' := <[d := set_name y n]> (dents s) in
  tree_ok (top s) ds' /\
  forall e cs', at_path (top s) ds' e cs' <-> (exists rest, located s e ((cs ++ [name y]) ++ rest) /\ cs' = cs ++ [n] ++ rest) \/
    (located s e cs' /\ ~ cs ++ [name y] `prefix_of` cs').
Proof.
  intros Ht Hy Hr Hcs Hn Hl Hfree ds'.
  assert (is_Some (dents s !! up y)) as Hup by (destruct (t_parent _ _ Ht _ _ Hy Hr) as (w & Hw & _); by exists w).
  assert (forall e v, dents s !! e = Some v -> exists z, ds' !! e = Some z /\
     (if decide (e = d) then up z = up y /\ name z = n else up z = up v /\ name z = name v) /\
     NoDup (kids z) /\ forall c, c ∈ kids z <-> (if decide (c = d) then e = up y else c ∈ kids v)) as Hold.
  { intros e v Hv. assert (forall c, c ∈ kids v <-> (if decide (c = d) then e = up y else c ∈ kids v)) as Hk.
    { intros c. destruct (decide (c = d)) as [->|]; [|done]. rewrite (kid_iff _ _ e v) by done. naive_solver. }
    pose proof (t_nodup _ _ Ht _ _ Hv). unfold ds'. destruct (decide (e = d)) as [->|Hne].
    - rewrite lookup_insert_eq. simplify_eq. by eexists.
    - rewrite lookup_insert_ne by done. by exists v. }
  assert (forall e z, ds' !! e = Some z -> is_Some (dents s !! e)) as Hdom.
  { intros e z. unfold ds'. intros [[<- _]|[_ Hz]]%lookup_insert_Some; [by exists y|by exists z]. }
  assert (~ cs ++ [name y] `prefix_of` cs) as Hout by (intros Hp%prefix_length; rewrite length_app in Hp; cbn in Hp; lia).
  split; [eapply (moved_tree (top s) (dents s) ds' d (up y) y n (cs ++ [name y]) cs); try done; by constructor|].
  eapply (moved_path (top s) (dents s) ds' d (up y) y n (cs ++ [name y]) cs); try done; by constructor.
Qed.

Lemma relink_moved s op np d y n ocs ncs x nx : stree s -> dents s !! d = Some y -> d <> top s -> up y = op ->
  dents s !! op = Some x -> dents s !! np = Some nx -> op <> np ->
  located s op ocs -> located s np ncs -> ~ ocs ++ [name y] `prefix_of` ncs ->
  plain n -> len n <= VFS_NAME_MAX -> step (dents s) np n = None ->
  let ds' := dents (relink s op np d n) in
  tree_ok (top s) ds' /\
  forall e cs', at_path (top s) ds' e cs' <-> (exists rest, located s e ((ocs ++ [name y]) ++ rest) /\ cs' = ncs ++ [n] ++ rest) \/
    (located s e cs' /\ ~ ocs ++ [name y] `prefix_of` cs').
Proof.
  intros Ht Hy Hr Hu Hx Hnx Hne Hocs Hncs Hout Hn Hl Hfree ds'.
  assert (located s d (ocs ++ [name y])) as Hd by (constructor; [done|done|by rewrite Hu]).
  assert (d <> np) as Hdnp by (intros ->; apply Hout; by rewrite (at_path_inj _ _ _ _ _ Hncs Hd)).
  assert (d <> op) as Hdop.
  { intros ->. pose proof (at_path_inj _ _ _ _ _ Hocs Hd) as E. apply (f_equal length) in E. rewrite length_app in E. cbn in E. lia. }
  assert (take (Z.to_nat VFS_NAME_MAX) n = n) as En by (apply take_ge; unfold len in Hl; lia).
  assert (forall e, ds' !! e = (fun v => let v := if decide (e = op) then set_kids v (filter (fun c => c <> d) (kids v)) else v in
     let v := if decide (e = np) then set_kids v (d :: kids v) else v in
     if decide (e = d) then set_name (set_up v np) n else v) <$> dents s !! e) as Hlk.
  { intros e. unfold ds', relink. rewrite Hy. cbn [dents with_dents]. rewrite En, !lookup_alter.
    repeat case_decide; subst; try congruence; symmetry; apply option_fmap_id. }
  assert (forall e v, dents s !! e = Some v -> exists z, ds' !! e = Some z /\
     (if decide (e = d) then up z = np /\ name z = n else up z = up v /\ name z = name v) /\
     NoDup (kids z) /\ forall c, c ∈ kids z <-> (if decide (c = d) then e = np else c ∈ kids v)) as Hold.
  { intros e v Hv. rewrite Hlk, Hv. cbn [fmap option_fmap option_map]. eexists. split; [done|]. pose proof (t_nodup _ _ Ht _ _ Hv) as Hnd.
    assert (d ∈ kids v <-> e = op) as Hdk by (rewrite (kid_iff _ _ e v) by done; naive_solver congruence). cbv zeta.
    assert (forall c, e <> np -> e <> op -> c ∈ kids v <-> (if decide (c = d) then e = np else c ∈ kids v)) as Hrest.
    { intros c H1 H2. destruct (decide (c = d)) as [->|]; tauto. }
    destruct (decide (e = d)) as [->|]; [|destruct (decide (e = op)) as [->|]; [|destruct (decide (e = np)) as [->|]]];
      repeat (first [rewrite decide_True by done | rewrite decide_False by congruence]); cbn; (split; [done|]).
    - split; [done|]. intros c. by apply Hrest.
    - split; [by apply NoDup_filter|]. intros c. rewrite list_elem_of_filter. destruct (decide (c = d)); [|tauto]. split; [tauto|congruence].
    - split; [constructor; [|done]; rewrite Hdk; congruence|]. intros c. rewrite elem_of_cons. destruct (decide (c = d)); tauto.
    - split; [done|]. intros c. by apply Hrest. }
  assert (forall e z, ds' !! e = Some z -> is_Some (dents s !! e)) as Hdom.
  { intros e z. rewrite Hlk. intros (v & Hv & _)%fmap_Some. by exists v. }
  split; [by eapply (moved_tree (top s) (dents s) ds' d np y n (ocs ++ [name y]) ncs)|].
  by eapply (moved_path (top s) (dents s) ds' d np y n (ocs ++ [name y]) ncs).
Qed.

End VfsTreeInv.
