(* ===== verification/VfsTreeLife.v ===== *)
(** * Entries, inodes and open files (VfsTree.v)

    The invariant of the whole store: the tree is a tree, every entry and
    every open file has a live inode, open counts are exact, and an inode has
    at least as many links as names and pending removals, so the last one
    frees it.  Every operation keeps it, with two exceptions that the guard
    [removal_ok] names: removing a directory that is open, or one from which
    an open file was removed. *)

From stdpp Require Import base list gmap.
From Stdlib Require Import ZArith Lia Bool.
From S2P Require Import Prelude Cred Vfs VfsSpec VfsTree VfsTreeInv.
Import Vfs VfsSpec VfsTree VfsTreeInv.
Open Scope Z_scope.

Module VfsTreeLife.

(** ** Counting references *)

Definition cnt (m : gmap Z Z) (a : Z) : Z := Z.of_nat (size (filter (fun kv => kv.2 = a) m)).

Lemma cnt_insert m k v a : m !! k = None -> cnt (<[k := v]> m) a = cnt m a + (if decide (v = a) then 1 else 0).
Proof.
  intros H. unfold cnt. destruct (decide (v = a)) as [->|Hne].
  - rewrite map_filter_insert_True by done. rewrite map_size_insert_None; [lia|]. apply map_lookup_filter_None. by left.
  - rewrite map_filter_insert_False by done. rewrite delete_id by done. lia.
Qed.

Lemma cnt_delete m k v a : m !! k = Some v -> cnt m a = cnt (delete k m) a + (if decide (v = a) then 1 else 0).
Proof. intros H. rewrite <- (insert_delete_id m k v H) at 1. apply cnt_insert. by rewrite lookup_delete_eq. Qed.

Lemma cnt_pos m k a : m !! k = Some a -> 1 <= cnt m a.
Proof. intros H. rewrite (cnt_delete m k a a H), decide_True by done. unfold cnt. lia. Qed.

Lemma cnt_nonneg m a : 0 <= cnt m a.
Proof. unfold cnt. lia. Qed.

Lemma cnt_zero m a : (forall k, m !! k <> Some a) -> cnt m a = 0.
Proof.
  intros H. unfold cnt.
  assert (filter (fun kv => kv.2 = a) m = (∅ : gmap Z Z)) as ->; [|by rewrite map_size_empty].
  apply map_empty. intros k. apply map_lookup_filter_None. right. intros v Hv E. cbn in E. subst v. by eapply H.
Qed.

Definition names (s : state) (a : Z) : Z := cnt (ino <$> dents s) a.
Definition holders (s : state) (a : Z) : Z := cnt (f_inode <$> files s) a.

Definition cap (i : xinode) : Z := if is_type i INODE_DIR then 1 else nlink i.
Definition pend (i : xinode) : Z := if unlink_dir i =? 0 then 0 else 1.

Record inv (s : state) : Prop := {
  i_tree : tree_ok (top s) (dents s);
  i_zero : inodes s !! 0 = None;
  i_ino d x : dents s !! d = Some x -> is_Some (inodes s !! ino x);
  i_dir d x i : dents s !! d = Some x -> inodes s !! ino x = Some i -> kids x <> [] \/ d = top s -> is_type i INODE_DIR = true;
  i_open a i : inodes s !! a = Some i -> opens i = holders s a;
  i_links a i : inodes s !! a = Some i -> names s a + pend i <= cap i;
  i_pend a i : inodes s !! a = Some i -> unlink_dir i <> 0 -> is_type i INODE_DIR = false /\ 0 < opens i /\
    exists di, inodes s !! unlink_dir i = Some di /\ is_type di INODE_DIR = true;
  i_file k f : files s !! k = Some f -> exists i, inodes s !! f_inode f = Some i /\
    (unlink_dir i = 0 -> ino <$> dents s !! f_dentry f = Some (f_inode f)) }.

Lemma names_none s a : inv s -> inodes s !! a = None -> names s a = 0.
Proof.
  intros Hi Ha. apply cnt_zero. intros k Hk. rewrite lookup_fmap in Hk. apply fmap_Some in Hk as (x & Hx & ->).
  destruct (i_ino _ Hi _ _ Hx) as [i E]. by rewrite Ha in E.
Qed.

Lemma holders_none s a : inv s -> inodes s !! a = None -> holders s a = 0.
Proof.
  intros Hi Ha. apply cnt_zero. intros k Hk. rewrite lookup_fmap in Hk. apply fmap_Some in Hk as (f & Hf & ->).
  destruct (i_file _ Hi _ _ Hf) as (i & E & _). by rewrite Ha in E.
Qed.

(** ** Inodes added and changed in place *)

Lemma inv_new_inode s ni a : inv s -> inodes s !! ni = None -> ni <> 0 -> opens a = 0 -> unlink_dir a = 0 -> 0 <= cap a ->
  inv (with_inodes s (<[ni := a]> (inodes s))).
Proof.
  intros Hi Hni Hz Ho Hu Hc. constructor; cbn.
  - apply (i_tree _ Hi).
  - rewrite lookup_insert_ne by done. apply (i_zero _ Hi).
  - intros d x Hx. destruct (i_ino _ Hi _ _ Hx) as [i E]. assert (ni <> ino x) by congruence.
    rewrite lookup_insert_ne by done. by exists i.
  - intros d x i Hx Ha. destruct (i_ino _ Hi _ _ Hx) as [j E]. assert (ni <> ino x) by congruence.
    rewrite lookup_insert_ne in Ha by done. by eapply i_dir.
  - intros b i [[<- <-]|[Hne Hb]]%lookup_insert_Some; [|by apply (i_open _ Hi)]. rewrite Ho. symmetry. exact (holders_none s ni Hi Hni).
  - intros b i [[<- <-]|[Hne Hb]]%lookup_insert_Some; [|by apply (i_links _ Hi)]. unfold pend. rewrite Hu. cbn.
    change (names s ni + 0 <= cap a). rewrite (names_none s ni) by done. lia.
  - intros b i [[<- <-]|[Hne Hb]]%lookup_insert_Some Hb0; [done|]. destruct (i_pend _ Hi _ _ Hb Hb0) as (H1 & H2 & j & Hj & Hjt). split; [done|]. split; [done|].
    exists j. by rewrite lookup_insert_ne by congruence.
  - intros k f Hf. destruct (i_file _ Hi _ _ Hf) as (i & E & H). exists i. split; [|done].
    by rewrite lookup_insert_ne by congruence.
Qed.

Lemma insert_live s k i i' : inodes s !! k = Some i -> is_type i' INODE_DIR = is_type i INODE_DIR ->
  (forall a, is_Some (inodes s !! a) -> is_Some (<[k := i']> (inodes s) !! a)) /\
  (forall a, (exists di, inodes s !! a = Some di /\ is_type di INODE_DIR = true) ->
             exists di, <[k := i']> (inodes s) !! a = Some di /\ is_type di INODE_DIR = true).
Proof.
  intros Hk Ht. split; intros a; destruct (decide (k = a)) as [<-|]; rewrite ?lookup_insert_eq, ?lookup_insert_ne by done; [eauto|done| |done].
  intros (di & Hd & Hdt). simplify_eq. exists i'. split; [done|congruence].
Qed.

Lemma inv_upd_inode s k i i' : inv s -> inodes s !! k = Some i -> is_type i' INODE_DIR = is_type i INODE_DIR ->
  opens i' = opens i -> unlink_dir i' = unlink_dir i -> cap i <= cap i' -> inv (with_inodes s (<[k := i']> (inodes s))).
Proof.
  intros Hi Hk Ht Ho Hu Hc.
  pose proof (insert_live s k i i' Hk Ht) as [Hlive Hdirs].
  constructor; cbn.
  - apply (i_tree _ Hi).
  - pose proof (i_zero _ Hi). by rewrite lookup_insert_ne by congruence.
  - intros d x Hx. apply Hlive. by eapply i_ino.
  - intros d x j Hx [[E <-]|[Hne Hj]]%lookup_insert_Some Hkids; [|by eapply i_dir]. rewrite Ht. eapply i_dir; [done|done|by rewrite <- E|done].
  - intros a j [[<- <-]|[Hne Hj]]%lookup_insert_Some; [rewrite Ho|]; by apply (i_open _ Hi).
  - intros a j [[<- <-]|[Hne Hj]]%lookup_insert_Some; [|by apply (i_links _ Hi)].
    pose proof (i_links _ Hi _ _ Hk) as H. unfold pend in *. rewrite Hu. change (names s k + (if unlink_dir i =? 0 then 0 else 1) <= cap i'). lia.
  - intros a j [[<- <-]|[Hne Hj]]%lookup_insert_Some Hj0.
    + rewrite Hu, Ho, Ht in *. destruct (i_pend _ Hi k i Hk Hj0) as (H1 & H2 & H3). auto.
    + destruct (i_pend _ Hi a j Hj Hj0) as (H1 & H2 & H3). auto.
  - intros q f Hf. destruct (i_file _ Hi _ _ Hf) as (j & E & H). destruct (decide (k = f_inode f)) as [->|Hne].
    + exists i'. rewrite lookup_insert_eq. split; [done|]. rewrite E in Hk. injection Hk as ->. by rewrite Hu.
    + exists j. by rewrite lookup_insert_ne.
Qed.

(** ** Entries *)

Lemma inv_dents s ds : inv s -> tree_ok (top s) ds -> ino <$> ds = ino <$> dents s ->
  (forall d x i, ds !! d = Some x -> inodes s !! ino x = Some i -> kids x <> [] \/ d = top s -> is_type i INODE_DIR = true) ->
  inv (with_dents s ds).
Proof.
  intros Hi Ht Hino Hdir.
  assert (forall d, ino <$> ds !! d = ino <$> dents s !! d) as Hl by (intros d; by rewrite <- !lookup_fmap, Hino).
  constructor; cbn; try done.
  - apply (i_zero _ Hi).
  - intros d x Hx. pose proof (Hl d) as E. rewrite Hx in E. symmetry in E. cbn in E. apply fmap_Some in E as (y & Hy & ->). by eapply i_ino.
  - apply (i_open _ Hi).
  - intros a i Ha. unfold names; cbn. rewrite Hino. by apply (i_links _ Hi).
  - apply (i_pend _ Hi).
  - intros k f Hf. destruct (i_file _ Hi _ _ Hf) as (i & E & H). exists i. split; [done|]. by rewrite Hl.
Qed.

Lemma names_attach s nd par x n a b : dents s !! par = Some x -> dents s !! nd = None ->
  names (with_dents s (attach_ds (dents s) nd par x n a)) b = names s b + (if decide (a = b) then 1 else 0).
Proof.
  intros Hx Hnd. unfold names, attach_ds; cbn. rewrite !fmap_insert; cbn.
  rewrite (insert_id (ino <$> dents s) par (ino x)) by (rewrite lookup_fmap, Hx; done). apply cnt_insert. by rewrite lookup_fmap, Hnd.
Qed.

Lemma inv_attach s nd par x n a i j : inv s -> dents s !! par = Some x -> inodes s !! ino x = Some j -> is_type j INODE_DIR = true ->
  nd <> 0 -> dents s !! nd = None -> plain n -> len n <= VFS_NAME_MAX -> step (dents s) par n = None ->
  inodes s !! a = Some i -> names s a + pend i + 1 <= cap i -> inv (with_dents s (attach_ds (dents s) nd par x n a)).
Proof.
  intros Hi Hx Hj Hd Hnd Hfr Hn Hl Hno Ha Hcap. pose proof (i_tree _ Hi) as Ht.
  pose proof (fun d => attach_inv (dents s) nd par x n a Hx d) as Hinv. constructor; cbn.
  - by apply attach_tree.
  - apply (i_zero _ Hi).
  - intros d z Hz. unfold attach_ds in Hz. rewrite !lookup_insert_Some in Hz.
    destruct Hz as [[<- <-]|[_ [[<- <-]|[_ Hz]]]]; cbn; [by exists i|by exists j|by eapply i_ino].
  - intros d z k Hz. unfold attach_ds in Hz. rewrite !lookup_insert_Some in Hz.
    destruct Hz as [[<- <-]|[_ [[<- <-]|[_ Hz]]]]; cbn; [|by intros; simplify_eq|by apply (i_dir _ Hi d)].
    intros _ [?|E]; [done|]. destruct (t_root _ _ Ht) as (w & Hw & _). by rewrite <- E, Hfr in Hw.
  - apply (i_open _ Hi).
  - intros b k Hb. rewrite names_attach by done. pose proof (i_links _ Hi _ _ Hb). destruct (decide (a = b)) as [<-|]; [|lia].
    simplify_eq. lia.
  - apply (i_pend _ Hi).
  - intros k f Hf. destruct (i_file _ Hi _ _ Hf) as (q & E & H). exists q. split; [done|]. intros Hq. specialize (H Hq).
    apply fmap_Some in H as (y & Hy & Hyi).
    unfold attach_ds. destruct (decide (f_dentry f = nd)) as [E'|]; [by rewrite E', Hfr in Hy|]. rewrite lookup_insert_ne by done.
    destruct (decide (f_dentry f = par)) as [E'|]; [rewrite E', lookup_insert_eq; rewrite E' in Hy; simplify_eq; cbn; congruence|].
    rewrite lookup_insert_ne by done. by rewrite Hy; cbn; f_equal.
Qed.

(** ** Removal *)

Section Remove.
Context (s : state) (par d : Z) (x y : xdentry) (j : xinode).
Hypotheses (Hi : inv s) (Hx : dents s !! par = Some x) (Hy : dents s !! d = Some y) (Hr : d <> top s)
  (Hu : up y = par) (Hk : kids y = []) (Hj : inodes s !! ino y = Some j).
Let ds' := splice_ds (dents s) par d x.

Lemma names_splice b im fs : names (St ds' im fs (mounts s) (top s)) b = names s b - (if decide (ino y = b) then 1 else 0).
Proof.
  unfold names, ds', splice_ds; cbn. rewrite fmap_delete, fmap_insert; cbn.
  rewrite (insert_id (ino <$> dents s) par (ino x)) by (rewrite lookup_fmap, Hx; done).
  rewrite (cnt_delete (ino <$> dents s) d (ino y) b) by (rewrite lookup_fmap, Hy; done). lia.
Qed.

Lemma splice_entry e z : ds' !! e = Some z -> e <> d /\ exists v, dents s !! e = Some v /\ ino z = ino v /\
  (kids z <> [] \/ e = top s -> kids v <> [] \/ e = top s).
Proof.
  unfold ds', splice_ds. rewrite lookup_delete_Some, lookup_insert_Some. intros [Hne [[<- <-]|[_ Hz]]]; (split; [done|]).
  - exists x. split; [done|]. split; [done|]. cbn. intros [H|H]; [left|by right]. intros E. by rewrite E in H.
  - by exists z.
Qed.

Lemma splice_file e v : dents s !! e = Some v -> e <> d -> ino <$> ds' !! e = Some (ino v).
Proof.
  intros Hv Hne. unfold ds', splice_ds. rewrite lookup_delete_ne by done.
  destruct (decide (e = par)) as [->|]; [rewrite lookup_insert_eq; simplify_eq; done|]. rewrite lookup_insert_ne by done. by rewrite Hv.
Qed.

Lemma inv_splice_keep j' : is_type j' INODE_DIR = is_type j INODE_DIR -> opens j' = opens j ->
  names s (ino y) - 1 + pend j' <= cap j' ->
  (unlink_dir j' = 0 -> opens j = 0) ->
  (unlink_dir j' <> 0 -> is_type j INODE_DIR = false /\ 0 < opens j /\ exists di, inodes s !! unlink_dir j' = Some di /\ is_type di INODE_DIR = true) ->
  inv (St ds' (<[ino y := j']> (inodes s)) (files s) (mounts s) (top s)).
Proof.
  intros Ht Ho Hc H0 Hp. pose proof (insert_live s (ino y) j j' Hj Ht) as [Hlive Hdirs]. constructor; cbn.
  - eapply splice_tree; try done. by apply i_tree.
  - pose proof (i_zero _ Hi). by rewrite lookup_insert_ne by congruence.
  - intros e z (_ & v & Hv & -> & _)%splice_entry. apply Hlive. by eapply i_ino.
  - intros e z i (_ & v & Hv & -> & Hkz)%splice_entry [[E <-]|[Hne Ha]]%lookup_insert_Some Hkids.
    + rewrite Ht. apply (i_dir _ Hi e v); [done|by rewrite <- E|auto].
    + apply (i_dir _ Hi e v); auto.
  - intros b i [[<- <-]|[Hne Hb]]%lookup_insert_Some; [rewrite Ho|]; by apply (i_open _ Hi).
  - intros b i Hb. rewrite names_splice. apply lookup_insert_Some in Hb as [[<- <-]|[Hne Hb]].
    + rewrite decide_True by done. lia.
    + rewrite decide_False by done. pose proof (i_links _ Hi _ _ Hb). lia.
  - intros b i [[<- <-]|[Hne Hb]]%lookup_insert_Some Hb0.
    + rewrite Ho, Ht. destruct (Hp Hb0) as (H1 & H2 & H3). auto.
    + destruct (i_pend _ Hi _ _ Hb Hb0) as (H1 & H2 & H3). auto.
  - intros q f Hf. destruct (i_file _ Hi _ _ Hf) as (i & E & H). destruct (decide (ino y = f_inode f)) as [Ey|Hne].
    + exists j'. rewrite <- Ey, lookup_insert_eq. split; [done|]. intros Hz. specialize (H0 Hz).
      pose proof (i_open _ Hi _ _ Hj) as Hop. rewrite H0, Ey in Hop.
      assert (1 <= holders s (f_inode f)); [|lia]. apply (cnt_pos _ q). by rewrite lookup_fmap, Hf.
    + exists i. rewrite lookup_insert_ne by done. split; [done|]. intros Hz. specialize (H Hz). apply fmap_Some in H as (v & Hv & E'). rewrite E'.
      apply splice_file; [done|]. intros Ed. rewrite Ed in Hv. congruence.
Qed.

Lemma inv_splice_free : names s (ino y) <= 1 -> opens j = 0 ->
  (forall b i, inodes s !! b = Some i -> unlink_dir i <> ino y) ->
  inv (St ds' (delete (ino y) (inodes s)) (files s) (mounts s) (top s)).
Proof.
  intros Hn Ho Hno.
  assert (forall e z, ds' !! e = Some z -> ino z <> ino y) as Hgone.
  { intros e z Hz E. assert (1 <= names (St ds' (inodes s) (files s) (mounts s) (top s)) (ino y)) as H1.
    { apply (cnt_pos _ e). rewrite lookup_fmap; cbn. by rewrite Hz; cbn; f_equal. }
    rewrite names_splice, decide_True in H1 by done. lia. }
  assert (forall q f, files s !! q = Some f -> f_inode f <> ino y) as Hnof.
  { intros q f Hf E. pose proof (i_open _ Hi _ _ Hj) as Hop. assert (1 <= holders s (ino y)); [|lia].
    apply (cnt_pos _ q). rewrite lookup_fmap, Hf. cbn. by f_equal. }
  constructor; cbn.
  - eapply splice_tree; try done. by apply i_tree.
  - pose proof (i_zero _ Hi). by rewrite lookup_delete_ne by congruence.
  - intros e z Hz. pose proof (Hgone e z Hz). apply splice_entry in Hz as (_ & v & Hv & E & _). rewrite lookup_delete_ne by done. rewrite E. by eapply i_ino.
  - intros e z i (_ & v & Hv & -> & Hkz)%splice_entry [Hne Ha]%lookup_delete_Some Hkids. apply (i_dir _ Hi e v); auto.
  - intros b i [Hne Hb]%lookup_delete_Some. by apply (i_open _ Hi).
  - intros b i [Hne Hb]%lookup_delete_Some. rewrite names_splice, decide_False by done. pose proof (i_links _ Hi _ _ Hb). lia.
  - intros b i [Hne Hb]%lookup_delete_Some Hb0. destruct (i_pend _ Hi _ _ Hb Hb0) as (H1 & H2 & H3). split; [done|]. split; [done|].
    rewrite lookup_delete_ne; [done|]. apply not_eq_sym. by eapply Hno.
  - intros q f Hf. destruct (i_file _ Hi _ _ Hf) as (i & E & H). pose proof (Hnof q f Hf). exists i. rewrite lookup_delete_ne by done.
    split; [done|]. intros Hz. specialize (H Hz). apply fmap_Some in H as (v & Hv & E'). rewrite E'.
    apply splice_file; [done|]. intros Ed. rewrite Ed in Hv. congruence.
Qed.

End Remove.

(** ** Open files *)

Lemma inv_mounts s ms : inv s -> inv (St (dents s) (inodes s) (files s) ms (top s)).
Proof. intros [H1 H2 H3 H4 H5 H6 H7 H8]. by constructor. Qed.

Lemma holders_insert s fid f a : files s !! fid = None ->
  cnt (f_inode <$> <[fid := f]> (files s)) a = holders s a + (if decide (f_inode f = a) then 1 else 0).
Proof. intros H. rewrite fmap_insert. apply cnt_insert. by rewrite lookup_fmap, H. Qed.

Lemma holders_delete s fid f a : files s !! fid = Some f ->
  cnt (f_inode <$> delete fid (files s)) a = holders s a - (if decide (f_inode f = a) then 1 else 0).
Proof.
  intros H. unfold holders. rewrite (cnt_delete (f_inode <$> files s) fid (f_inode f) a) by (by rewrite lookup_fmap, H).
  rewrite fmap_delete. lia.
Qed.

Lemma inv_opened s d x i fid : inv s -> dents s !! d = Some x -> inodes s !! ino x = Some i -> files s !! fid = None ->
  inv (St (dents s) (<[ino x := set_opens i (opens i + 1)]> (inodes s)) (<[fid := Fl (ino x) d]> (files s)) (mounts s) (top s)).
Proof.
  intros Hi Hx Hxi Hf. pose proof (insert_live s (ino x) i (set_opens i (opens i + 1)) Hxi eq_refl) as [Hlive Hdirs]. constructor; cbn.
  - apply (i_tree _ Hi).
  - pose proof (i_zero _ Hi). by rewrite lookup_insert_ne by congruence.
  - intros e z Hz. apply Hlive. by eapply i_ino.
  - intros e z j Hz [[E <-]|[_ Hj]]%lookup_insert_Some Hk; [|by apply (i_dir _ Hi e z)].
    apply (i_dir _ Hi e z i); [done|by rewrite <- E|done].
  - intros a j Hj. unfold holders; cbn [files]. rewrite holders_insert by done; cbn. apply lookup_insert_Some in Hj as [[<- <-]|[Hne Hj]]; cbn.
    + rewrite decide_True by done. pose proof (i_open _ Hi _ _ Hxi). lia.
    + rewrite decide_False by done. rewrite Z.add_0_r. by apply (i_open _ Hi).
  - intros a j [[<- <-]|[_ Hj]]%lookup_insert_Some; [exact (i_links _ Hi _ _ Hxi)|by apply (i_links _ Hi)].
  - intros a j [[<- <-]|[_ Hj]]%lookup_insert_Some Hn; cbn in *.
    + destruct (i_pend _ Hi _ _ Hxi Hn) as (H1 & H2 & H3). split; [done|]. split; [lia|auto].
    + destruct (i_pend _ Hi _ _ Hj Hn) as (H1 & H2 & H3). auto.
  - intros k f [[<- <-]|[_ Hk]]%lookup_insert_Some; cbn.
    + rewrite lookup_insert_eq. eexists. split; [done|]. intros _. by rewrite Hx.
    + destruct (i_file _ Hi _ _ Hk) as (j & Hj & H). destruct (decide (ino x = f_inode f)) as [E|Hne].
      * rewrite <- E, lookup_insert_eq. eexists. split; [done|]. cbn. rewrite E in *. simplify_eq. done.
      * rewrite lookup_insert_ne by done. by exists j.
Qed.

Section Closed.
Context (s : state) (fid : Z) (f : file) (i : xinode).
Hypotheses (Hi : inv s) (Hf : files s !! fid = Some f) (Hfi : inodes s !! f_inode f = Some i).

Lemma inv_closed_keep i' : is_type i' INODE_DIR = is_type i INODE_DIR -> opens i' = opens i - 1 -> names s (f_inode f) + pend i' <= cap i' ->
  (unlink_dir i' = unlink_dir i /\ (unlink_dir i' <> 0 -> 0 < opens i')) \/ (unlink_dir i' = 0 /\ opens i' = 0) ->
  inv (St (dents s) (<[f_inode f := i']> (inodes s)) (delete fid (files s)) (mounts s) (top s)).
Proof.
  intros Ht Ho Hl Hu. pose proof (insert_live s (f_inode f) i i' Hfi Ht) as [Hlive Hdirs]. pose proof (i_open _ Hi _ _ Hfi) as Hop. constructor; cbn.
  - apply (i_tree _ Hi).
  - pose proof (i_zero _ Hi). by rewrite lookup_insert_ne by congruence.
  - intros e z Hz. apply Hlive. by eapply i_ino.
  - intros e z j Hz [[E <-]|[_ Hj]]%lookup_insert_Some Hk; [|by apply (i_dir _ Hi e z)].
    rewrite Ht. apply (i_dir _ Hi e z i); [done|by rewrite <- E|done].
  - intros a j Hj. unfold holders; cbn [files]. rewrite (holders_delete s fid f) by done. apply lookup_insert_Some in Hj as [[<- <-]|[Hne Hj]].
    + rewrite decide_True by done. lia.
    + rewrite decide_False by done. rewrite Z.sub_0_r. by apply (i_open _ Hi).
  - intros a j [[<- <-]|[_ Hj]]%lookup_insert_Some; [exact Hl|by apply (i_links _ Hi)].
  - intros a j [[<- <-]|[_ Hj]]%lookup_insert_Some Hn.
    + destruct Hu as [[Hu Hu']|[Hu _]]; [|done]. rewrite Ht. rewrite Hu in Hn |- *. destruct (i_pend _ Hi _ _ Hfi Hn) as (H1 & H2 & H3).
      split; [done|]. split; [apply Hu'; congruence|auto].
    + destruct (i_pend _ Hi _ _ Hj Hn) as (H1 & H2 & H3). auto.
  - intros k g [Hk Hg]%lookup_delete_Some. destruct (i_file _ Hi _ _ Hg) as (j & Hj & H). destruct (decide (f_inode f = f_inode g)) as [E|Hne].
    + rewrite <- E, lookup_insert_eq. eexists. split; [done|]. rewrite <- E in Hj, H. simplify_eq. intros Hz. apply H.
      destruct Hu as [[Hu _]|[_ Hu]]; [congruence|]. exfalso.
      assert (1 <= cnt (f_inode <$> delete fid (files s)) (f_inode f)) as Hc.
      { apply (cnt_pos _ k). rewrite lookup_fmap, lookup_delete_ne by done. rewrite Hg. cbn. by f_equal. }
      rewrite (holders_delete s fid f), decide_True in Hc by done. lia.
    + rewrite lookup_insert_ne by done. by exists j.
Qed.

Lemma inv_closed_free : names s (f_inode f) = 0 -> opens i = 1 -> is_type i INODE_DIR = false ->
  inv (St (dents s) (delete (f_inode f) (inodes s)) (delete fid (files s)) (mounts s) (top s)).
Proof.
  intros Hn Ho Ht. pose proof (i_open _ Hi _ _ Hfi) as Hop.
  assert (forall e z, dents s !! e = Some z -> f_inode f <> ino z) as Hnod.
  { intros e z Hz E. assert (1 <= names s (f_inode f)); [|lia]. apply (cnt_pos _ e). rewrite lookup_fmap, Hz. cbn. by f_equal. }
  assert (forall k g, delete fid (files s) !! k = Some g -> f_inode f <> f_inode g) as Hnof.
  { intros k g Hg E. assert (1 <= cnt (f_inode <$> delete fid (files s)) (f_inode f)) as Hc.
    { apply (cnt_pos _ k). rewrite lookup_fmap, Hg. cbn. by f_equal. }
    rewrite (holders_delete s fid f), decide_True in Hc by done. lia. }
  assert (f_inode f <> 0) by (intros E; rewrite E, (i_zero _ Hi) in Hfi; done).
  constructor; cbn.
  - apply (i_tree _ Hi).
  - rewrite lookup_delete_ne by done. apply (i_zero _ Hi).
  - intros e z Hz. rewrite lookup_delete_ne by (by eapply Hnod). by eapply i_ino.
  - intros e z j Hz [_ Hj]%lookup_delete_Some. by apply (i_dir _ Hi e z).
  - intros a j [Hne Hj]%lookup_delete_Some. unfold holders; cbn [files]. rewrite (holders_delete s fid f), decide_False by done. rewrite Z.sub_0_r. by apply (i_open _ Hi).
  - intros a j [Hne Hj]%lookup_delete_Some. by apply (i_links _ Hi).
  - intros a j [Hne Hj]%lookup_delete_Some Hn0. destruct (i_pend _ Hi _ _ Hj Hn0) as (H1 & H2 & di & H3 & H4). split; [done|]. split; [done|].
    exists di. split; [|done]. rewrite lookup_delete_ne; [done|]. intros E. rewrite <- E, Hfi in H3. injection H3 as <-. congruence.
  - intros k g Hg. pose proof (Hnof k g Hg). apply lookup_delete_Some in Hg as [_ Hg]. destruct (i_file _ Hi _ _ Hg) as (j & Hj & H').
    exists j. by rewrite lookup_delete_ne.
Qed.

End Closed.

End VfsTreeLife.
