(* ===== verification/VfsTreeOps.v ===== *)
(** * What the operations on the name space do (VfsTree.v)

    Every operation keeps the invariant of [VfsTreeLife], and its effect on
    the map from paths to entries is the one its name promises. *)

From stdpp Require Import base list gmap.
From Stdlib Require Import ZArith Lia Bool.
From S2P Require Import Prelude Cred Vfs VfsSpec VfsTree VfsTreeInv VfsTreeLife.
Import Vfs VfsSpec VfsTree VfsTreeInv VfsTreeLife.
Open Scope Z_scope.

Module VfsTreeOps.

(** An early return: an error, and the state as it was. *)
Ltac unchanged := intros [= <- <-]; left; (split; [lia|done]).

Section Ops.
Context (proc_alias fd_magic : path -> option path) (t : caller).

Notation resolve s p := (entry (resolve_path proc_alias fd_magic (view_of t s) p)).
Notation split p := (split_parent proc_alias fd_magic t p 256).

(** ** The last component *)

Lemma strip_rev_len p : len (strip_rev p) <= len p.
Proof.
  induction p as [|c [|c' p] IH]; cbn [strip_rev]; [done..|]. destruct (c =? SLASH); [|done].
  etransitivity; [exact IH|]. unfold len; cbn; lia.
Qed.

Lemma split_parent_ok p b l : split p = Some (b, l) -> plain l /\ len l <= VFS_NAME_MAX.
Proof.
  unfold split_parent. cbn [Z.ltb Z.compare Pos.compare Pos.compare_cont].
  destruct (vfs_canon _ _ _ _ _) as [[f c]|]; [|done]. cbn [mbind option_bind].
  destruct ((len c =? 0) || (256 <? len c + 2)) eqn:Ec; [done|]. bool_props.
  destruct (span_comp (strip_rev (rev c))) as [l0 e] eqn:Es. apply span_inv in Es as (Es & Hns & _).
  destruct e as [|q e]; [done|]. destruct (Z.eqb_spec (len l0) 0) as [|Hl0]; [done|]. intros [= <- <-].
  pose proof (strip_rev_len (rev c)) as Hlen. rewrite Es in Hlen. unfold len in *. rewrite length_app, !length_rev in *. cbn in Hlen.
  split; [split|].
  - destruct l0 as [|z l0]; [done|]. cbn. by destruct (rev l0).
  - by apply Forall_rev.
  - unfold VFS_NAME_MAX. lia.
Qed.

Lemma live_dir_inv s d x i : live_dir s d = Some (x, i) ->
  dents s !! d = Some x /\ inodes s !! ino x = Some i /\ is_type i INODE_DIR = true.
Proof.
  unfold live_dir, live. destruct (dents s !! d) as [y|] eqn:Ed; [|done]. cbn. destruct (inodes s !! ino y) as [j|] eqn:Ei; [|done]. cbn.
  destruct (is_type j INODE_DIR) eqn:Et; [|done]. intros [= <- <-]. by rewrite Et.
Qed.

Lemma live_inv s d x i : live s d = Some (x, i) -> dents s !! d = Some x /\ inodes s !! ino x = Some i.
Proof.
  unfold live. destruct (dents s !! d) as [y|] eqn:Ed; [|done]. cbn. destruct (inodes s !! ino y) as [j|] eqn:Ei; [|done]. cbn.
  by intros [= <- <-].
Qed.

Lemma child_live s d x n c : stree s -> dents s !! d = Some x -> child_named s x n = Some c ->
  exists y, dents s !! c = Some y /\ c <> top s /\ up y = d /\ name y = n /\ step (dents s) d n = Some c.
Proof.
  intros Ht Hx Hc. rewrite (child_named_step s d x n Hx) in Hc. pose proof Hc as Hs. apply (step_iff _ _ _ _ _ Ht) in Hc as (x' & y & Hx' & Hin & Hy & Hn).
  rewrite Hx in Hx'. injection Hx' as <-. pose proof (proj1 (kid_iff _ _ d x c Ht Hx) Hin) as (y' & Hy' & Hr & Hu).
  rewrite Hy in Hy'. injection Hy' as <-. by exists y.
Qed.

(** ** A name added *)

Definition fresh_inode (a : xinode) : Prop := opens a = 0 /\ unlink_dir a = 0 /\ cap a = 1.

Lemma own_fresh a : fresh_inode a -> fresh_inode (own_by_caller t a).
Proof. intros (H1 & H2 & H3). unfold own_by_caller. destruct (_ =? _); done. Qed.

(** [s'] is [s] with the inode [a] at [ni] and the name [n] for it in [par]. *)
Record added (s : state) (ni nd : Z) (p : path) (s' : state) : Prop := Added {
  ad_par : Z; ad_x : xdentry; ad_j : xinode; ad_buf : path; ad_n : path; ad_a : xinode;
  ad_split : split p = Some (ad_buf, ad_n);
  ad_res : ad_par = resolve s ad_buf;
  ad_dir : live_dir s ad_par = Some (ad_x, ad_j);
  ad_free : step (dents s) ad_par ad_n = None;
  ad_fresh : fresh_inode ad_a;
  ad_nd : nd <> 0;
  ad_eq : s' = with_dents (with_inodes s (<[ni := ad_a]> (inodes s))) (attach_ds (dents s) nd ad_par ad_x ad_n ni) }.

(** What creation can come to. *)
Definition add_result (s : state) (ni nd : Z) (p : path) (r : Z) (s' : state) : Prop :=
  (r < 0 /\ s' = s) \/
  (r < 0 /\ ni <> 0 /\ exists a, fresh_inode a /\ s' = with_inodes s (<[ni := a]> (inodes s))) \/
  (r = 0 /\ ni <> 0 /\ added s ni nd p s').

Lemma add_common s ni nd p buf last x j a (e : Z) r s' : e < 0 ->
  split p = Some (buf, last) -> live_dir s (resolve s buf) = Some (x, j) -> child_named s x last = None -> ni <> 0 -> fresh_inode a ->
  match vfs_attach_child (with_inodes s (<[ni := a]> (inodes s))) nd (resolve s buf) last ni with
  | None => (e, with_inodes s (<[ni := a]> (inodes s))) | Some s2 => (0, s2) end = (r, s') ->
  add_result s ni nd p r s'.
Proof.
  intros He Hs Hd Hc Hni Ha. pose proof (live_dir_inv _ _ _ _ Hd) as (Hx & _). destruct (split_parent_ok _ _ _ Hs) as [_ Hl].
  unfold vfs_attach_child. destruct (Z.eqb_spec nd 0) as [->|Hnd]; [intros [= <- <-]; right; left; eauto|].
  cbn [dents with_inodes]. rewrite Hx. cbn. intros [= <- <-]. right; right. split; [done|]. split; [done|].
  rewrite (child_named_step s _ x last Hx) in Hc.
  eapply (Added s ni nd p _ (resolve s buf) x j buf last a); try done. unfold with_dents, attach_ds; cbn.
  by rewrite take_ge by (unfold len, VFS_NAME_MAX in *; lia).
Qed.

Lemma vfs_mutator_cases ni nd s p kind r s' : vfs_mutator proc_alias fd_magic t ni nd s p kind = (r, s') -> add_result s ni nd p r s'.
Proof.
  unfold vfs_mutator. destruct (ro_path _ _ _ _); [unchanged|].
  destruct (split p) as [[buf last]|] eqn:Es; [|unchanged].
  destruct (live_dir s _) as [[x j]|] eqn:Ed; [|unchanged].
  destruct (negb (dir_ops j)); [unchanged|]. destruct (negb (vfs_permitted _ _ _)); [unchanged|].
  destruct (_ && _); [unchanged|]. destruct (child_named s x last) eqn:Ec; [unchanged|].
  destruct (Z.eqb_spec ni 0); [unchanged|]. eapply (add_common s ni nd p buf last x j); try done.
  apply own_fresh. by destruct (kind =? 2), (kind =? 1).
Qed.

Lemma vfs_symlink_cases ni nd s target p r s' : vfs_symlink proc_alias fd_magic t ni nd s target p = (r, s') -> add_result s ni nd p r s'.
Proof.
  unfold vfs_symlink. destruct (ro_path _ _ _ _); [unchanged|]. destruct (_ || _); [unchanged|].
  destruct (split p) as [[buf last]|] eqn:Es; [|unchanged].
  destruct (VFS_NAME_MAX <? len last); [unchanged|].
  destruct (live_dir s _) as [[x j]|] eqn:Ed; [|unchanged].
  destruct (negb (dir_ops j)); [unchanged|]. destruct (negb (vfs_permitted _ _ _)); [unchanged|].
  destruct (child_named s x last) eqn:Ec; [unchanged|].
  destruct (Z.eqb_spec ni 0); [unchanged|]. eapply (add_common s ni nd p buf last x j); try done.
  unfold fresh_inode, own_by_caller. by destruct (_ =? _).
Qed.

Lemma inv_added s ni nd p s' : inv s -> inodes s !! ni = None -> ni <> 0 -> dents s !! nd = None -> added s ni nd p s' -> inv s'.
Proof.
  intros Hi Hni Hni0 Hnd [par x j buf n a Hs _ Hd Hfree (Ho & Hu & Hc) Hnd0 ->]. apply live_dir_inv in Hd as (Hx & Hj & Hdt).
  destruct (split_parent_ok _ _ _ Hs) as [Hp Hl].
  assert (inv (with_inodes s (<[ni := a]> (inodes s)))) as Hi1 by (apply inv_new_inode; try done; lia).
  eapply (inv_attach _ nd par x n ni a j Hi1); cbn; try done.
  - rewrite lookup_insert_ne by congruence. done.
  - by rewrite lookup_insert_eq.
  - change (names s ni + pend a + 1 <= cap a). rewrite (names_none s ni Hi Hni). unfold pend. rewrite Hu. cbn. lia.
Qed.

Lemma tree_inv_add s ni nd p r s' : inv s -> (ni <> 0 -> inodes s !! ni = None) -> dents s !! nd = None -> add_result s ni nd p r s' -> inv s'.
Proof.
  intros Hi Hni Hnd [[_ ->]|[(_ & Hz & a & (Ho & Hu & Hc) & ->)|(_ & Hz & Ha)]]; [done| |].
  - apply inv_new_inode; try done; [by apply Hni|lia].
  - eapply inv_added; try done. by apply Hni.
Qed.

(** ** Hard links *)

(** [s'] is [s] with one more name, [n] in [par], for the inode of [src]. *)
Record linked (s : state) (nd : Z) (new : path) (s' : state) : Prop := Linked {
  lk_src : xdentry; lk_i : xinode; lk_par : Z; lk_x : xdentry; lk_j : xinode; lk_buf : path; lk_n : path;
  lk_d : Z; lk_live : live s lk_d = Some (lk_src, lk_i);
  lk_file : is_type lk_i INODE_FILE = true;
  lk_split : split new = Some (lk_buf, lk_n);
  lk_res : lk_par = resolve s lk_buf;
  lk_dir : live_dir s lk_par = Some (lk_x, lk_j);
  lk_free : step (dents s) lk_par lk_n = None;
  lk_nd : nd <> 0;
  lk_eq : s' = with_dents (with_inodes s (<[ino lk_src := set_nlink lk_i (nlink lk_i + 1)]> (inodes s)))
                          (attach_ds (dents s) nd lk_par lk_x lk_n (ino lk_src)) }.

Definition link_result (s : state) (nd : Z) (new : path) (r : Z) (s' : state) : Prop :=
  (r < 0 /\ s' = s) \/
  (r < 0 /\ exists a i, inodes s !! a = Some i /\ is_type i INODE_FILE = true /\ s' = with_inodes s (<[a := set_nlink i (nlink i + 1)]> (inodes s))) \/
  (r = 0 /\ linked s nd new s').

Ltac unchanged_some := eexists _, _; (split; [done|]); left; (split; [lia|done]).

Lemma file_not_dir i : is_type i INODE_FILE = true -> is_type i INODE_DIR = false.
Proof. unfold is_type. by destruct (type (attr i)). Qed.

Lemma vfs_link_cases nd s old new : inv s ->
  exists r s', vfs_link proc_alias fd_magic t nd s old new = Some (r, s') /\ link_result s nd new r s'.
Proof.
  intros Hi. unfold vfs_link. destruct (ro_path _ _ _ _); [unchanged_some|].
  destruct (live s (resolve s old)) as [[x0 i0]|] eqn:E0; [|unchanged_some].
  destruct (is_type i0 INODE_FILE) eqn:Ef; [|unchanged_some]. cbn [negb].
  destruct (split new) as [[buf last]|] eqn:Es; [|unchanged_some].
  destruct (VFS_NAME_MAX <? len last); [unchanged_some|].
  destruct (live_dir s _) as [[x j]|] eqn:Ed; [|unchanged_some]. destruct (negb (dir_ops j)); [unchanged_some|].
  pose proof (live_inv _ _ _ _ E0) as [Hx0 Hi0].
  assert (exists px pi, live s (up x0) = Some (px, pi)) as (px & pi & Ep).
  { destruct (t_parent _ _ (i_tree _ Hi) _ _ Hx0) as (px & Hpx & _).
    { intros E. assert (is_type i0 INODE_DIR = true) as H by (apply (i_dir _ Hi (resolve s old) x0); auto). by rewrite (file_not_dir i0 Ef) in H. }
    destruct (i_ino _ Hi _ _ Hpx) as [pi Hpi]. exists px, pi. unfold live. rewrite Hpx. cbn. by rewrite Hpi. }
  rewrite Ep. cbn [mbind option_bind]. destruct (negb (dir_ops pi)); [unchanged_some|].
  destruct (negb (vfs_permitted _ _ _)); [unchanged_some|]. destruct (child_named s x last) eqn:Ec; [unchanged_some|].
  pose proof (live_dir_inv _ _ _ _ Ed) as (Hx & _). destruct (split_parent_ok _ _ _ Es) as [_ Hl].
  unfold vfs_attach_child. destruct (Z.eqb_spec nd 0) as [->|Hnd]; [eexists _, _; split; [done|]; right; left; split; [lia|by eexists _, _]|].
  cbn [dents with_inodes]. rewrite Hx. cbn [mbind option_bind]. eexists _, _. split; [done|]. right; right. split; [done|].
  rewrite (child_named_step s _ x last Hx) in Ec.
  eapply (Linked s nd new _ x0 i0 (resolve s buf) x j buf last (resolve s old)); try done. unfold with_dents, attach_ds; cbn.
  by rewrite take_ge by (unfold len, VFS_NAME_MAX in *; lia).
Qed.

Lemma inv_more_links s a i : inv s -> inodes s !! a = Some i -> is_type i INODE_FILE = true ->
  inv (with_inodes s (<[a := set_nlink i (nlink i + 1)]> (inodes s))).
Proof.
  intros Hi Ha Hf. eapply inv_upd_inode; try done. unfold cap. change (is_type (set_nlink i (nlink i + 1)) INODE_DIR) with (is_type i INODE_DIR).
  rewrite (file_not_dir i Hf). cbn. lia.
Qed.

Lemma inv_link s nd new r s' : inv s -> dents s !! nd = None -> link_result s nd new r s' -> inv s'.
Proof.
  intros Hi Hnd [[_ ->]|[(_ & a & i & Ha & Hf & ->)|(_ & [src i par x j buf n d Hl Hf Hs _ Hd Hfree Hnd0 ->])]]; [done|by apply inv_more_links|].
  apply live_inv in Hl as [Hsrc Hia]. apply live_dir_inv in Hd as (Hx & Hj & Hdt). destruct (split_parent_ok _ _ _ Hs) as [Hp Hl].
  pose proof (inv_more_links s (ino src) i Hi Hia Hf) as Hi1. set (i' := set_nlink i (nlink i + 1)) in *.
  destruct (decide (ino x = ino src)) as [E|Hne]; [rewrite E, Hia in Hj; injection Hj as <-; by rewrite (file_not_dir i Hf) in Hdt|].
  eapply (inv_attach _ nd par x n (ino src) i' j Hi1); cbn; try done.
  - by rewrite lookup_insert_ne by congruence.
  - by rewrite lookup_insert_eq.
  - pose proof (i_links _ Hi _ _ Hia) as Hlk. change (names s (ino src) + pend i + 1 <= cap i').
    unfold cap in *. change (is_type i' INODE_DIR) with (is_type i INODE_DIR). rewrite (file_not_dir i Hf) in *. cbn. lia.
Qed.

(** ** Removal *)

(** The entry [vfs_unlink] would take out. *)
Definition victim (s : state) (p : path) : option Z :=
  '(buf, last) ← split p; '(x, _) ← live_dir s (resolve s buf); child_named s x last.

(** A directory may go when nobody has it open and no file that is still open
    was removed from it. *)
Definition removal_ok (s : state) (p : path) : Prop := forall d y j, victim s p = Some d -> live s d = Some (y, j) ->
  is_type j INODE_DIR = true -> opens j = 0 /\ forall b i, inodes s !! b = Some i -> unlink_dir i <> ino y.

Record removed (s : state) (p : path) (s' : state) : Prop := Removed {
  rm_par : Z; rm_x : xdentry; rm_d : Z; rm_y : xdentry; rm_j : xinode; rm_buf : path; rm_n : path; rm_im : gmap Z xinode;
  rm_split : split p = Some (rm_buf, rm_n);
  rm_res : rm_par = resolve s rm_buf;
  rm_dir : is_Some (live_dir s rm_par);
  rm_xs : dents s !! rm_par = Some rm_x;
  rm_step : step (dents s) rm_par rm_n = Some rm_d;
  rm_ys : dents s !! rm_d = Some rm_y;
  rm_up : up rm_y = rm_par;
  rm_root : rm_d <> top s;
  rm_kids : kids rm_y = [];
  rm_inode : inodes s !! ino rm_y = Some rm_j;
  rm_dev : is_type rm_j INODE_DEVICE = false;
  rm_im_eq : if negb (is_type rm_j INODE_DIR) && (0 <? opens rm_j)
             then exists dx, inodes s !! ino rm_x = Some dx /\ is_type dx INODE_DIR = true /\
                  rm_im = <[ino rm_y := set_pending rm_j (ino rm_x) rm_n]> (inodes s)
             else rm_im = inodes (rfs_unlink s (ino rm_y));
  rm_eq : s' = St (splice_ds (dents s) rm_par rm_d rm_x) rm_im (files s) (mounts s) (top s) }.

Lemma kids_dir s d y j : inv s -> dents s !! d = Some y -> inodes s !! ino y = Some j ->
  is_type j INODE_DIR && negb (bool_decide (kids y = [])) = false -> kids y = [].
Proof.
  intros Hi Hy Hj H. destruct (decide (kids y = [])) as [|Hne]; [done|].
  rewrite (i_dir _ Hi d y j) in H by auto. rewrite bool_decide_false in H by done. done.
Qed.

Lemma splice_out_eq s par d x : dents s !! par = Some x ->
  splice_out s par d = St (splice_ds (dents s) par d x) (inodes s) (files s) (mounts s) (top s).
Proof. intros H. unfold splice_out. by rewrite H. Qed.

Lemma rfs_unlink_frame s a : dents (rfs_unlink s a) = dents s /\ files (rfs_unlink s a) = files s /\
  mounts (rfs_unlink s a) = mounts s /\ top (rfs_unlink s a) = top s.
Proof. unfold rfs_unlink. destruct (inodes s !! a); [|done]. by destruct (_ && _). Qed.

Lemma vfs_unlink_cases mem s p r s' : inv s -> vfs_unlink proc_alias fd_magic t mem s p = (r, s') ->
  (r < 0 /\ s' = s) \/ (r = 0 /\ removed s p s').
Proof.
  intros Hi. unfold vfs_unlink. destruct (ro_path _ _ _ _); [unchanged|].
  destruct (split p) as [[buf last]|] eqn:Es; [|unchanged].
  destruct (live_dir s _) as [[x i]|] eqn:Ed; [|unchanged]. destruct (negb (dir_ops i)); [unchanged|].
  destruct (negb (vfs_permitted _ _ _)); [unchanged|]. destruct (child_named s x last) as [d|] eqn:Ec; [|unchanged].
  destruct (live s d) as [[y j]|] eqn:El; [|unchanged]. destruct (negb (bnd y =? 0)); [unchanged|].
  destruct (is_type j INODE_DIR && _) eqn:Ek; [unchanged|]. destruct (is_type j INODE_DEVICE) eqn:Edv; [unchanged|].
  pose proof (live_dir_inv _ _ _ _ Ed) as (Hx & Hxi & Hxt). pose proof (live_inv _ _ _ _ El) as [Hy Hj].
  destruct (child_live s _ x last d (i_tree _ Hi) Hx Ec) as (y' & Hy' & Hr & Hu & Hn & Hst).
  rewrite Hy in Hy'. injection Hy' as <-.
  pose proof (kids_dir s d y j Hi Hy Hj Ek) as Hk.
  destruct (negb (is_type j INODE_DIR) && (0 <? opens j)) eqn:Eo.
  - destruct mem; [|unchanged]. intros [= <- <-]. right. split; [done|].
    rewrite (splice_out_eq _ _ _ x) by done. cbn. eapply (Removed s p _ (resolve s buf) x d y j buf last); try done; rewrite Eo; eauto.
  - intros [= <- <-]. right. split; [done|]. destruct (rfs_unlink_frame s (ino y)) as (F1 & F2 & F3 & F4).
    rewrite (splice_out_eq _ _ _ x) by (by rewrite F1). rewrite F1, F2, F3, F4.
    eapply (Removed s p _ (resolve s buf) x d y j buf last); try done; by rewrite Eo.
Qed.

Lemma opens_zero s a j : inv s -> inodes s !! a = Some j -> (0 <? opens j) = false -> opens j = 0 /\ unlink_dir j = 0.
Proof.
  intros Hi Hj Ho. pose proof (i_open _ Hi _ _ Hj) as E. pose proof (cnt_nonneg (f_inode <$> files s) a) as Hnn. unfold holders in E.
  apply Z.ltb_ge in Ho. split; [lia|]. destruct (decide (unlink_dir j = 0)) as [|Hn]; [done|]. destruct (i_pend _ Hi _ _ Hj Hn) as (_ & ? & _). lia.
Qed.

Lemma inv_removed s p s' : inv s -> removal_ok s p -> removed s p s' -> inv s'.
Proof.
  intros Hi Hok [par x d y j buf n im Hs -> [[x' xi] Hd] Hx Hst Hy Hu Hr Hk Hj _ Him ->].
  assert (is_type j INODE_DIR = true -> opens j = 0 /\ forall b i, inodes s !! b = Some i -> unlink_dir i <> ino y) as Hdir.
  { apply (Hok d y j); [|unfold live; rewrite Hy; cbn; by rewrite Hj].
    unfold victim. rewrite Hs. cbn. rewrite Hd. cbn. pose proof (live_dir_inv _ _ _ _ Hd) as (Hx' & _). by rewrite (child_named_step s _ x' n Hx'). }
  pose proof (i_links _ Hi _ _ Hj) as Hlk. destruct (negb (is_type j INODE_DIR) && (0 <? opens j)) eqn:Eo.
  - destruct Him as (dx & Hdx & Hdxt & ->). bool_props. assert (ino x <> 0) by (intros E; by rewrite E, (i_zero _ Hi) in Hdx).
    eapply (inv_splice_keep s _ d x y j Hi Hx Hy Hr Hu Hk Hj); cbn; try done; [|].
    + unfold pend in *; cbn. destruct (ino x =? 0), (unlink_dir j =? 0); change (cap (set_pending j (ino x) n)) with (cap j); lia.
    + intros _. split; [by destruct (is_type j INODE_DIR)|]. split; [done|by exists dx].
  - unfold rfs_unlink in Him. rewrite Hj in Him. assert (opens j = 0) as Ho.
    { destruct (is_type j INODE_DIR); [by apply Hdir|]. cbn in Eo. by apply (opens_zero s (ino y)). }
    assert (unlink_dir j = 0) as Hud by (apply (opens_zero s (ino y)); [done|done|rewrite Ho; done]).
    destruct (negb (is_type j INODE_DIR) && (1 <? nlink j)) eqn:En; subst im.
    + bool_props. eapply (inv_splice_keep s _ d x y j Hi Hx Hy Hr Hu Hk Hj); cbn; try done.
      unfold pend, cap in *. cbn. change (is_type (set_nlink j (nlink j - 1)) INODE_DIR) with (is_type j INODE_DIR).
      destruct (is_type j INODE_DIR); [done|]. rewrite Hud in *. cbn in *. lia.
    + eapply (inv_splice_free s _ d x y j Hi Hx Hy Hr Hu Hk Hj); [|done|].
      * unfold cap, pend in Hlk. destruct (is_type j INODE_DIR); cbn in En; [|apply Z.ltb_ge in En]; destruct (unlink_dir j =? 0); lia.
      * intros b i Hb E. destruct (is_type j INODE_DIR) eqn:Et; [by destruct (Hdir eq_refl) as [_ H]; destruct (H b i Hb)|].
        assert (ino y <> 0) by (intros E0; by rewrite E0, (i_zero _ Hi) in Hj).
        destruct (i_pend _ Hi _ _ Hb) as (_ & _ & di & Hdi & Hdt); [congruence|]. rewrite E, Hj in Hdi. injection Hdi as <-. congruence.
Qed.

(** ** Renaming *)

(** The entry [d] of [op] now has the name [n] in [np]. *)
Record renamed (s : state) (old new : path) (s' : state) : Prop := Renamed {
  rn_op : Z; rn_np : Z; rn_d : Z; rn_y : xdentry; rn_obuf : path; rn_nbuf : path; rn_o : path; rn_n : path;
  rn_osplit : split old = Some (rn_obuf, rn_o);
  rn_nsplit : split new = Some (rn_nbuf, rn_n);
  rn_ores : rn_op = resolve s rn_obuf;
  rn_nres : rn_np = resolve s rn_nbuf;
  rn_odir : is_Some (live_dir s rn_op);
  rn_ndir : is_Some (live_dir s rn_np);
  rn_step : step (dents s) rn_op rn_o = Some rn_d;
  rn_ys : dents s !! rn_d = Some rn_y;
  rn_up : up rn_y = rn_op;
  rn_root : rn_d <> top s;
  rn_free : step (dents s) rn_np rn_n = None;
  rn_out : rn_op <> rn_np -> inside (size (dents s)) s rn_d rn_np = false;
  rn_eq : s' = if decide (rn_op = rn_np) then with_dents s (<[rn_d := set_name rn_y rn_n]> (dents s)) else relink s rn_op rn_np rn_d rn_n }.

Lemma vfs_move_cases s op olast np nlast r s' : inv s -> vfs_move t s op olast np nlast = (r, s') ->
  (r < 0 /\ s' = s) \/
  (r = 0 /\ is_Some (live_dir s op) /\ is_Some (live_dir s np) /\ step (dents s) np nlast = None /\
   exists d y, step (dents s) op olast = Some d /\ dents s !! d = Some y /\ up y = op /\ d <> top s /\
     inside (size (dents s)) s d np = false /\ s' = relink s op np d nlast).
Proof.
  intros Hi. unfold vfs_move. destruct (live_dir s op) as [[ox oi]|] eqn:Eo; [|unchanged].
  destruct (live_dir s np) as [[nx ni]|] eqn:En; [|unchanged]. destruct (VFS_NAME_MAX <? len nlast); [unchanged|].
  destruct (negb (mount_eq _ _)); [unchanged|]. destruct (_ || _); [unchanged|]. destruct (_ || _); [unchanged|].
  destruct (child_named s ox olast) as [d|] eqn:Ec; [|unchanged]. destruct (live s d) as [[y j]|] eqn:El; [|unchanged].
  destruct (is_type j INODE_DEVICE); [unchanged|]. destruct (child_named s nx nlast) eqn:Ecn; [unchanged|].
  destruct (bool_decide _); [unchanged|]. destruct (inside _ _ _ _) eqn:Ein; [unchanged|]. intros [= <- <-]. right.
  pose proof (live_dir_inv _ _ _ _ Eo) as (Hox & _). pose proof (live_dir_inv _ _ _ _ En) as (Hnx & _).
  destruct (child_live s op ox olast d (i_tree _ Hi) Hox Ec) as (y' & Hy' & Hr & Hu & Hn & Hst).
  rewrite (child_named_step s np nx nlast Hnx) in Ecn. do 4 (split; [done || eauto|]). by exists d, y'.
Qed.

Lemma vfs_rename_cases s old new r s' : inv s -> vfs_rename proc_alias fd_magic t s old new = (r, s') ->
  (r < 0 /\ s' = s) \/ (r = 0 /\ renamed s old new s').
Proof.
  intros Hi. unfold vfs_rename. destruct (_ || _); [unchanged|].
  destruct (split old) as [[obuf olast]|] eqn:Eos; [|unchanged]. destruct (split new) as [[nbuf nlast]|] eqn:Ens; [|unchanged].
  destruct (_ || _); [unchanged|]. destruct (Z.eqb_spec (resolve s obuf) (resolve s nbuf)) as [E|Hne]; cbn [negb].
  - destruct (live_dir s _) as [[x i]|] eqn:Ed; [|unchanged]. destruct (negb (dir_ops i)); [unchanged|].
    destruct (VFS_NAME_MAX <? len nlast); [unchanged|]. destruct (child_named s x nlast) eqn:Ecn; [unchanged|].
    destruct (child_named s x olast) as [d|] eqn:Eco; [|unchanged]. destruct (live s d) as [[y j]|] eqn:El; [|unchanged].
    destruct (is_type j INODE_DEVICE); [unchanged|]. intros [= <- <-]. right. split; [done|].
    pose proof (live_dir_inv _ _ _ _ Ed) as (Hx & _). pose proof (live_inv _ _ _ _ El) as [Hy _].
    destruct (child_live s _ x olast d (i_tree _ Hi) Hx Eco) as (y' & Hy' & Hr & Hu & Hn & Hst).
    rewrite Hy in Hy'. injection Hy' as <-. rewrite (child_named_step s _ x nlast Hx) in Ecn.
    destruct (split_parent_ok _ _ _ Ens) as [_ Hl]. rewrite take_ge by (unfold len, VFS_NAME_MAX in *; lia).
    eapply (Renamed s old new _ (resolve s obuf) (resolve s nbuf) d y); try done; rewrite <- ?E; eauto. by rewrite decide_True.
  - intros [?|(-> & H1 & H2 & H3 & d & y & H4 & H5 & H6 & H7 & H8 & ->)]%vfs_move_cases; [by left| |done]. right. split; [done|].
    eapply (Renamed s old new _ (resolve s obuf) (resolve s nbuf) d y); try done. by rewrite decide_False.
Qed.

Lemma relink_entries s op np d n e : ino <$> dents (relink s op np d n) !! e = ino <$> dents s !! e /\
  forall z, dents (relink s op np d n) !! e = Some z -> exists v, dents s !! e = Some v /\ ino z = ino v /\ (kids z <> [] -> kids v <> [] \/ e = np).
Proof.
  unfold relink. destruct (dents s !! d) as [y|]; [|split; [done|]; intros z Hz; exists z; auto]. cbn. rewrite !lookup_alter.
  repeat case_decide; subst; (destruct (dents s !! _) as [v|] eqn:E; cbn; (split; [done|]); intros z Hz; [|done]); injection Hz as <-;
    exists v; cbn; repeat (split; [done|]); auto; intros Hkk; left; intros Ek; by rewrite Ek in Hkk.
Qed.

(** The map from paths to entries after a rename. *)
Definition moves (s s' : state) (ocs : list path) (ncs : list path) : Prop := forall e cs,
  located s' e cs <-> (exists rest, located s e (ocs ++ rest) /\ cs = ncs ++ rest) \/ (located s e cs /\ ~ ocs `prefix_of` cs).

Lemma renamed_moves s old new s' : inv s -> renamed s old new s' ->
  inv s' /\ exists ocs ncs o n obuf nbuf, split old = Some (obuf, o) /\ split new = Some (nbuf, n) /\
    located s (resolve s obuf) ocs /\ located s (resolve s nbuf) ncs /\ moves s s' (ocs ++ [o]) (ncs ++ [n]).
Proof.
  intros Hi [op np d y obuf nbuf o n Hos Hns -> -> [[ox oi] Ho] [[nx ni] Hn] Hst Hy Hu Hr Hfree Hout ->].
  apply live_dir_inv in Ho as (Hox & _), Hn as (Hnx & Hni & Hnt). pose proof (i_tree _ Hi) as Ht.
  destruct (t_above _ _ Ht _ _ Hox) as [ocs Hocs], (t_above _ _ Ht _ _ Hnx) as [ncs Hncs].
  destruct (split_parent_ok _ _ _ Hns) as [Hp Hl]. pose proof (proj1 (step_iff _ _ _ _ _ Ht) Hst) as (? & y' & _ & _ & Hy' & Hno).
  rewrite Hy in Hy'. injection Hy' as <-.
  destruct (decide (resolve s obuf = resolve s nbuf)) as [E|Hne].
  - assert (ocs = ncs) as <- by (rewrite E in Hocs; by eapply at_path_inj).
    destruct (rename_moved s d y n ocs Ht Hy Hr) as [Ht' Hm]; [by rewrite Hu|done|done|by rewrite Hu, E|]. split.
    + apply inv_dents; [done|done| |].
      * rewrite fmap_insert; cbn. apply insert_id. by rewrite lookup_fmap, Hy.
      * intros e z i [[<- <-]|[_ Hz]]%lookup_insert_Some; cbn; [by apply (i_dir _ Hi d)|by apply (i_dir _ Hi e)].
    + exists ocs, ocs, o, n, obuf, nbuf. do 4 (split; [done|]). intros e cs. unfold located; cbn. rewrite (Hm e cs), Hno.
      setoid_rewrite app_assoc. done.
  - destruct (relink_moved s (resolve s obuf) (resolve s nbuf) d y n ocs ncs ox nx Ht Hy Hr Hu Hox Hnx Hne Hocs Hncs) as [Ht' Hm]; [|done..|].
    { intros Hpre. assert (inside (size (dents s)) s d (resolve s nbuf) = true) as Hx; [|rewrite Hout in Hx by done; done].
      eapply (inside_true s d _ (ocs ++ [name y]) ncs); try done; [constructor; [done|done|by rewrite Hu]|].
      pose proof (path_short _ _ _ _ Ht Hncs). lia. }
    assert (relink s (resolve s obuf) (resolve s nbuf) d n = with_dents s (dents (relink s (resolve s obuf) (resolve s nbuf) d n))) as Eq
      by (unfold relink; by rewrite Hy).
    split.
    + rewrite Eq. apply inv_dents; [done|done| |].
      * apply map_eq. intros e. rewrite !lookup_fmap. by apply relink_entries.
      * intros e z i Hz Hzi Hk. destruct (proj2 (relink_entries _ _ _ _ _ _) z Hz) as (v & Hv & E & Hkv). rewrite E in Hzi.
        destruct Hk as [Hk|Hk]; [|apply (i_dir _ Hi e v); auto]. destruct (Hkv Hk) as [?|Ee]; [apply (i_dir _ Hi e v); auto|]. subst e. simplify_eq. congruence.
    + exists ocs, ncs, o, n, obuf, nbuf. do 4 (split; [done|]). rewrite Eq. intros e cs. unfold located; cbn. rewrite (Hm e cs), Hno.
      setoid_rewrite app_assoc. done.
Qed.

End Ops.

End VfsTreeOps.
