(* ===== verification/VfsTreeSpec.v ===== *)
(** * The name space as a whole (VfsTree.v)

    Any sequence of operations by any tasks: no step touches freed memory,
    the tree stays a tree, and creation, links, removal and renaming change
    the map from paths to entries in exactly one place.  The last section
    evaluates the cases in which the code does otherwise. *)

From stdpp Require Import base list gmap.
From Stdlib Require Import ZArith Lia Bool.
From S2P Require Import Prelude Cred Vfs VfsSpec VfsTree VfsTreeInv VfsTreeLife VfsTreeOps.
Import Vfs VfsSpec VfsTree VfsTreeInv VfsTreeLife VfsTreeOps.
Open Scope Z_scope.

Module VfsTreeSpec.

Section Ops.
Context (proc_alias fd_magic : path -> option path).

Notation resolve t s p := (entry (resolve_path proc_alias fd_magic (view_of t s) p)).
Notation split t p := (split_parent proc_alias fd_magic t p 256).

(** ** Opening, closing, attributes *)

Lemma live_located s d x : inv s -> dents s !! d = Some x -> exists cs, located s d cs.
Proof. intros Hi Hx. exact (t_above _ _ (i_tree _ Hi) _ _ Hx). Qed.

Lemma open_dentry_ok fid s d x i : inv s -> live s d = Some (x, i) -> files s !! fid = None ->
  exists r s', open_dentry fid s d = Some (r, s') /\ inv s'.
Proof.
  intros Hi Hl Hf. unfold open_dentry. destruct (fid =? 0); [by eexists _, _|]. rewrite Hl. cbn [mbind option_bind].
  apply live_inv in Hl as [Hx Hxi]. set (s1 := St _ _ _ _ _).
  assert (inv s1) as Hi1 by (by apply inv_opened).
  destruct (live_located s1 d x Hi1 Hx) as [cs Hcs]. unfold mount_of_dentry.
  destruct (climb_ok s1 d cs (size (dents s1)) (i_tree _ Hi1) Hcs) as [m ->]. cbn. eexists _, _. split; [done|].
  destruct m; [by apply (inv_mounts s1)|done].
Qed.

Lemma vfs_open_ok t ni nd fid s p flags : inv s -> (ni <> 0 -> inodes s !! ni = None) -> dents s !! nd = None -> files s !! fid = None ->
  exists r s', vfs_open proc_alias fd_magic t ni nd fid s p flags = Some (r, s') /\ inv s'.
Proof.
  intros Hi Hni Hnd Hf. unfold vfs_open. destruct (_ && _); [by eexists _, _|].
  assert (forall s d, inv s -> files s !! fid = None -> exists r s',
    match live s d with
    | None => Some (-2, s)
    | Some (_, i) => if vfs_permitted (tcred t) (attr i) (open_want flags) then open_dentry fid s d else Some (-2, s)
    end = Some (r, s') /\ inv s') as Hfin.
  { intros s0 d H0 Hf0. destruct (live s0 d) as [[x i]|] eqn:El; [|by eexists _, _].
    destruct (vfs_permitted _ _ _); [|by eexists _, _]. by eapply open_dentry_ok. }
  destruct (negb (_ =? 0)); [by apply Hfin|]. destruct (negb _); [by eexists _, _|]. destruct (at_parent _); [|by eexists _, _].
  destruct (vfs_create proc_alias fd_magic t ni nd s p) as [r s1] eqn:Ec. pose proof (vfs_mutator_cases _ _ _ _ _ _ _ _ _ _ Ec) as Hres.
  assert (inv s1) as Hi1 by (by eapply tree_inv_add). destruct (negb (r =? 0)); [by eexists _, _|]. apply Hfin; [done|].
  destruct Hres as [[_ ->]|[(_ & _ & a & _ & ->)|(_ & _ & [])]]; [done|done|by subst].
Qed.

Lemma vfs_close_ok s fid f : inv s -> files s !! fid = Some f -> exists s', vfs_close s fid = Some s' /\ inv s' /\ files s' = delete fid (files s).
Proof.
  intros Hi Hf. destruct (i_file _ Hi _ _ Hf) as (i & Hfi & Hfd). unfold vfs_close. rewrite Hf. cbn [mbind option_bind]. rewrite Hfi. cbn [mbind option_bind].
  assert (exists m, (if unlink_dir i =? 0 then mount_of_dentry s (f_dentry f) else Some None) = Some m) as [m ->].
  { destruct (Z.eqb_spec (unlink_dir i) 0) as [E|]; [|by eexists]. specialize (Hfd E). apply fmap_Some in Hfd as (x & Hx & _).
    destruct (live_located s _ x Hi Hx) as [cs Hcs]. eapply climb_ok; [apply (i_tree _ Hi)|exact Hcs]. }
  cbn [mbind option_bind]. set (ms := mounts (bump_mount s m _)).
  assert (bump_mount s m (fun n => if 0 <? n then n - 1 else n) = St (dents s) (inodes s) (files s) ms (top s)) as -> by (by destruct m, s).
  cbn. pose proof (i_open _ Hi _ _ Hfi) as Hop. pose proof (i_links _ Hi _ _ Hfi) as Hlk.
  assert (1 <= holders s (f_inode f)) by (apply (cnt_pos _ fid); by rewrite lookup_fmap, Hf).
  rewrite (proj2 (Z.ltb_lt 0 (opens i))) by lia. cbn [negb].
  destruct (Z.eqb_spec (opens i - 1) 0) as [Ho|Ho]; cbn [andb].
  - destruct (Z.eqb_spec (unlink_dir i) 0) as [Hu|Hu]; cbn [negb].
    + eexists. split; [done|]. split; [|done]. apply (inv_mounts (St (dents s) _ _ (mounts s) (top s))).
      by apply (inv_closed_keep s fid f i Hi Hf Hfi); [..|left].
    + destruct (i_pend _ Hi _ _ Hfi Hu) as (Ht & _ & di & Hdi & _). rewrite Hdi. cbn [mbind option_bind]. eexists. split; [done|].
      set (i0 := set_pending (set_opens i (opens i - 1)) 0 []).
      unfold pend, cap in Hlk. rewrite (proj2 (Z.eqb_neq _ 0)), Ht in Hlk by done. pose proof (cnt_nonneg (ino <$> dents s) (f_inode f)) as Hnn.
      destruct (dir_ops di); [unfold rfs_unlink; cbn; rewrite lookup_insert_eq; change (is_type i0 INODE_DIR) with (is_type i INODE_DIR); rewrite Ht; cbn;
        destruct (Z.ltb_spec 1 (nlink i))|]; cbn; rewrite ?insert_insert_eq, ?delete_insert_eq; (split; [|done]); apply (inv_mounts (St (dents s) _ _ (mounts s) (top s))).
      * apply (inv_closed_keep s fid f i Hi Hf Hfi); try done; [|right; split; [done|cbn; lia]].
        unfold pend, cap. change (is_type (set_nlink i0 (nlink i - 1)) INODE_DIR) with (is_type i INODE_DIR). rewrite Ht. cbn. lia.
      * apply (inv_closed_free s fid f i Hi Hf Hfi); [unfold names in *; lia|lia|done].
      * apply (inv_closed_keep s fid f i Hi Hf Hfi); try done; [|right; split; [done|cbn; lia]].
        unfold pend, cap. change (is_type i0 INODE_DIR) with (is_type i INODE_DIR). rewrite Ht. cbn. lia.
  - eexists. split; [done|]. split; [|done]. apply (inv_mounts (St (dents s) _ _ (mounts s) (top s))).
    apply (inv_closed_keep s fid f i Hi Hf Hfi); try done. left. split; [done|]. cbn. lia.
Qed.

Lemma inv_attr s a i b : inv s -> inodes s !! a = Some i -> type b = type (attr i) -> inv (with_inodes s (<[a := set_attr i b]> (inodes s))).
Proof.
  intros Hi Ha Hb. assert (is_type (set_attr i b) INODE_DIR = is_type i INODE_DIR) as E by (unfold is_type; cbn; by rewrite Hb).
  eapply inv_upd_inode; try done. unfold cap. by rewrite E.
Qed.

Lemma inv_chmod t s p m : inv s -> inv (vfs_chmod proc_alias fd_magic t s p m).2.
Proof.
  intros Hi. unfold vfs_chmod. destruct (ro_path _ _ _ _); [done|]. destruct (live s _) as [[x i]|] eqn:El; [|done].
  apply live_inv in El as [_ Hx]. destruct (_ && _); [done|]. by apply inv_attr.
Qed.

Lemma inv_chown t s p u g : inv s -> inv (vfs_chown proc_alias fd_magic t s p u g).2.
Proof.
  intros Hi. unfold vfs_chown. destruct (ro_path _ _ _ _); [done|]. destruct (live s _) as [[x i]|] eqn:El; [|done].
  apply live_inv in El as [_ Hx]. destruct (_ && _); [done|]. by apply inv_attr.
Qed.

(** ** Sequences of calls *)

Inductive op :=
| Mutate (ni nd : Z) (p : path) (kind : Z)
| Symlink (ni nd : Z) (target p : path)
| Link (nd : Z) (old new : path)
| Unlink (mem : bool) (p : path)
| Rename (old new : path)
| Replace (mem : bool) (old new : path)
| Open (ni nd fid : Z) (p : path) (flags : Z)
| Close (fid : Z)
| Chmod (p : path) (m : Z)
| Chown (p : path) (uid gid : Z).

(** [None]: the call read freed memory. *)
Definition exec (t : caller) (o : op) (s : state) : option state :=
  match o with
  | Mutate ni nd p kind => Some (vfs_mutator proc_alias fd_magic t ni nd s p kind).2
  | Symlink ni nd target p => Some (vfs_symlink proc_alias fd_magic t ni nd s target p).2
  | Link nd old new => snd <$> vfs_link proc_alias fd_magic t nd s old new
  | Unlink mem p => Some (vfs_unlink proc_alias fd_magic t mem s p).2
  | Rename old new => Some (vfs_rename proc_alias fd_magic t s old new).2
  | Replace mem old new => Some (vfs_rename_replace proc_alias fd_magic t mem s old new).2
  | Open ni nd fid p flags => snd <$> vfs_open proc_alias fd_magic t ni nd fid s p flags
  | Close fid => vfs_close s fid
  | Chmod p m => Some (vfs_chmod proc_alias fd_magic t s p m).2
  | Chown p uid gid => Some (vfs_chown proc_alias fd_magic t s p uid gid).2
  end.

Definition fresh (s : state) (ni nd : Z) : Prop := (ni <> 0 -> inodes s !! ni = None) /\ dents s !! nd = None.

(** The allocator gives unused memory, only open files are closed, and the
    directory that is removed, if one is, is not in use. *)
Definition allowed (t : caller) (o : op) (s : state) : Prop :=
  match o with
  | Mutate ni nd _ _ | Symlink ni nd _ _ => fresh s ni nd
  | Link nd _ _ => dents s !! nd = None
  | Unlink _ p | Replace _ _ p => removal_ok proc_alias fd_magic t s p
  | Open ni nd fid _ _ => fresh s ni nd /\ files s !! fid = None
  | Close fid => is_Some (files s !! fid)
  | _ => True
  end.

Lemma exec_rename t s old new : inv s -> inv (vfs_rename proc_alias fd_magic t s old new).2.
Proof.
  intros Hi. destruct (vfs_rename proc_alias fd_magic t s old new) as [r s'] eqn:E.
  apply vfs_rename_cases in E as [[_ ->]|[_ Hr]]; [done| |done]. by apply renamed_moves in Hr as [? _].
Qed.

Lemma exec_unlink t mem s p : inv s -> removal_ok proc_alias fd_magic t s p -> inv (vfs_unlink proc_alias fd_magic t mem s p).2.
Proof.
  intros Hi Hok. destruct (vfs_unlink proc_alias fd_magic t mem s p) as [r s'] eqn:E.
  apply vfs_unlink_cases in E as [[_ ->]|[_ Hr]]; [done| |done]. by eapply inv_removed.
Qed.

Lemma exec_replace t mem s old new : inv s -> removal_ok proc_alias fd_magic t s new ->
  inv (vfs_rename_replace proc_alias fd_magic t mem s old new).2.
Proof.
  intros Hi Hok. unfold vfs_rename_replace. destruct (_ || _); [done|].
  destruct (split t old) as [[? ?]|]; [|done]. destruct (split t new) as [[? ?]|]; [|done]. destruct (_ || _); [done|].
  pose proof (exec_rename t s old new Hi) as Hi1. destruct (vfs_rename _ _ t s old new) as [r s1]. destruct (negb (r =? -2)); [done|].
  assert (inv (let '(u, s2) := vfs_unlink proc_alias fd_magic t mem s new in
    if negb (u =? 0) then (-1, s2) else vfs_rename proc_alias fd_magic t s2 old new).2) as Hgo.
  { pose proof (exec_unlink t mem s new Hi Hok) as Hi2. destruct (vfs_unlink _ _ t mem s new) as [u s2]. destruct (negb (u =? 0)); [done|]. by apply exec_rename. }
  destruct (live s _) as [[tx ti]|]; [|done]. destruct (is_type ti INODE_DIR); [|done].
  destruct (live s _) as [[? si]|]; [|done]. destruct (negb (is_type si INODE_DIR)); [done|]. by destruct (negb _).
Qed.

Lemma tree_exec_ok t o s : inv s -> allowed t o s -> exists s', exec t o s = Some s' /\ inv s'.
Proof.
  intros Hi Ha. destruct o; cbn in *.
  - destruct Ha as [H1 H2]. eexists. split; [done|]. destruct (vfs_mutator _ _ _ _ _ _ _ _) as [r s'] eqn:E. eapply tree_inv_add; try done. by eapply vfs_mutator_cases.
  - destruct Ha as [H1 H2]. eexists. split; [done|]. destruct (vfs_symlink _ _ _ _ _ _ _ _) as [r s'] eqn:E. eapply tree_inv_add; try done. by eapply vfs_symlink_cases.
  - destruct (vfs_link_cases proc_alias fd_magic t nd s old new Hi) as (r & s' & -> & Hr). exists s'. split; [done|]. by eapply inv_link.
  - eexists. split; [done|]. by apply exec_unlink.
  - eexists. split; [done|]. by apply exec_rename.
  - eexists. split; [done|]. by apply exec_replace.
  - destruct Ha as [[H1 H2] H3]. destruct (vfs_open_ok t ni nd fid s p flags Hi H1 H2 H3) as (r & s' & -> & H). by exists s'.
  - destruct Ha as [f Hf]. destruct (vfs_close_ok s fid f Hi Hf) as (s' & -> & H & _). by exists s'.
  - eexists. split; [done|]. by apply inv_chmod.
  - eexists. split; [done|]. by apply inv_chown.
Qed.

(** Calls of any tasks, one after another, from the state after boot. *)
Inductive reachable (s0 : state) : state -> Prop :=
| reach_start : reachable s0 s0
| reach_step s t o s' : reachable s0 s -> allowed t o s -> exec t o s = Some s' -> reachable s0 s'.

(** The root directory alone. *)
Definition boot (r i : Z) : state :=
  St {[ r := XD [SLASH] i 0 [] 0 0 0 false 0 0 ]} {[ i := new_inode INODE_DIR [] ]} ∅ [Mt r false 0] r.

Lemma tree_boot_inv r i : r <> 0 -> i <> 0 -> inv (boot r i).
Proof.
  intros Hr Hi0. assert (forall d x, dents (boot r i) !! d = Some x -> d = r /\ x = XD [SLASH] i 0 [] 0 0 0 false 0 0) as Hd.
  { intros d x H. cbn in H. apply lookup_singleton_Some in H as [<- <-]. done. }
  assert (forall a j, inodes (boot r i) !! a = Some j -> a = i /\ j = new_inode INODE_DIR []) as Hj 
    by (intros a j H; cbn in H; apply lookup_singleton_Some in H as [<- <-]; done).
  constructor.
  - apply tree_intro; cbn.
    + by apply lookup_singleton_ne.
    + eexists. split; [apply lookup_singleton_eq|done].
    + intros d x [-> ->]%Hd. split; [constructor|]. intros c. split; [by intros ?%not_elem_of_nil|].
      intros (y & [-> _]%Hd & Hc & _). done.
    + intros d x [-> ->]%Hd Hne. done.
    + intros c1 c2 y1 y2 [-> _]%Hd [-> _]%Hd. done.
    + intros d x [-> ->]%Hd Hne. done.
    + intros d x [-> ->]%Hd. exists []. constructor.
  - by apply lookup_singleton_ne.
  - intros d x [-> ->]%Hd. cbn. eexists. apply lookup_singleton_eq.
  - intros d x j _ [_ ->]%Hj _. done.
  - intros a j [-> ->]%Hj. symmetry. apply cnt_zero. intros k. cbn. by rewrite fmap_empty, lookup_empty.
  - intros a j [-> ->]%Hj. unfold names; cbn. rewrite map_fmap_singleton; cbn. unfold cnt.
    rewrite map_filter_singleton_True by done. rewrite map_size_singleton. done.
  - intros a j [-> ->]%Hj. done.
  - intros k f Hk. cbn in Hk. by rewrite lookup_empty in Hk.
Qed.

Lemma reachable_inv r i s : r <> 0 -> i <> 0 -> reachable (boot r i) s -> inv s.
Proof.
  intros Hr Hi0. induction 1 as [|s t o s' _ IH Ha He]; [by apply tree_boot_inv|].
  destruct (tree_exec_ok t o s IH Ha) as (s'' & E & H). rewrite E in He. by injection He as <-.
Qed.


(** ** The effect of each operation on paths *)

Notation names_of s := (find (top s) (dents s)).

Lemma find_at s cs d : inv s -> names_of s cs = Some d <-> located s d cs.
Proof. intros Hi. apply find_iff, (i_tree _ Hi). Qed.

Lemma find_app_none s pre rest : names_of s pre = None -> names_of s (pre ++ rest) = None.
Proof. intros H. unfold find in *. rewrite foldl_app, H. clear. by induction rest. Qed.

Lemma find_step s pcs d n : names_of s pcs = Some d -> names_of s (pcs ++ [n]) = step (dents s) d n.
Proof. intros H. rewrite find_snoc, H. done. Qed.

(** [m'] is [m] with [d] at [cs0]. *)
Definition one_more (m m' : list path -> option Z) (cs0 : list path) (d : Z) : Prop :=
  m cs0 = None /\ forall cs, m' cs = if decide (cs = cs0) then Some d else m cs.

Lemma attach_names s nd par x n a im : inv s -> dents s !! par = Some x -> dents s !! nd = None -> nd <> 0 -> plain n -> len n <= VFS_NAME_MAX ->
  step (dents s) par n = None -> exists pcs, names_of s pcs = Some par /\
    one_more (names_of s) (names_of (with_dents (with_inodes s im) (attach_ds (dents s) nd par x n a))) (pcs ++ [n]) nd.
Proof.
  intros Hi Hx Hnd Hnd0 Hp Hl Hfree. pose proof (i_tree _ Hi) as Ht. destruct (live_located s par x Hi Hx) as [pcs Hpcs].
  exists pcs. pose proof (proj2 (find_at s pcs par Hi) Hpcs) as Hf. split; [done|]. split; [by rewrite (find_step s pcs par)|].
  intros cs. apply (find_ext _ _ (dents s)); [cbn; by apply attach_tree|]. intros d. cbn.
  rewrite (attach_path (top s) (dents s) nd par x n a) by done.
  case_decide as E; [|rewrite (find_at s cs d Hi); naive_solver].
  split; [|naive_solver]. intros [H|[-> _]]; [|done]. exfalso. apply (find_at s cs d Hi) in H. subst cs. by rewrite (find_step s pcs par), Hfree in H.
Qed.

(** Creating a name adds exactly that name.  A successful create,
    mkdir, mkfifo or symbolic link binds the last component of the path, in
    the directory the rest of it resolves to, to the new entry, and every
    other path means what it meant; a refusal changes no path. *)
Theorem create_adds_one_name t ni nd s p kind target r s' : inv s -> fresh s ni nd ->
  vfs_mutator proc_alias fd_magic t ni nd s p kind = (r, s') \/ vfs_symlink proc_alias fd_magic t ni nd s target p = (r, s') ->
  (r < 0 /\ forall cs, names_of s' cs = names_of s cs) \/
  (r = 0 /\ exists buf n pcs, split t p = Some (buf, n) /\ names_of s pcs = Some (resolve t s buf) /\
     one_more (names_of s) (names_of s') (pcs ++ [n]) nd).
Proof.
  intros Hi [_ Hnd] H. assert (add_result proc_alias fd_magic t s ni nd p r s') as Hres.
  { destruct H as [H|H]; [by eapply vfs_mutator_cases|by eapply vfs_symlink_cases]. }
  destruct Hres as [[Hr ->]|[(Hr & _ & a & _ & ->)|(-> & _ & [par x j buf n a Hs -> Hd Hfree _ Hnd0 ->])]]; [by left|by left|right].
  apply live_dir_inv in Hd as (Hx & _). destruct (split_parent_ok _ _ _ _ _ _ Hs) as [Hp Hl].
  destruct (attach_names s nd _ x n ni (<[ni := a]> (inodes s)) Hi Hx Hnd Hnd0 Hp Hl Hfree) as (pcs & H1 & H2).
  split; [done|]. by exists buf, n, pcs.
Qed.

(** The same for a hard link, which names an existing file's inode. *)
Lemma link_adds_one_name t nd s old new : inv s -> dents s !! nd = None ->
  exists r s', vfs_link proc_alias fd_magic t nd s old new = Some (r, s') /\
  ((r < 0 /\ forall cs, names_of s' cs = names_of s cs) \/
   (r = 0 /\ exists buf n pcs, split t new = Some (buf, n) /\ names_of s pcs = Some (resolve t s buf) /\
      one_more (names_of s) (names_of s') (pcs ++ [n]) nd)).
Proof.
  intros Hi Hnd. destruct (vfs_link_cases proc_alias fd_magic t nd s old new Hi) as (r & s' & He & Hres). exists r, s'. split; [done|].
  destruct Hres as [[Hr ->]|[(Hr & a & i & _ & _ & ->)|(-> & [src i par x j buf n d _ _ Hs -> Hd Hfree Hnd0 ->])]]; [by left|by left|right].
  apply live_dir_inv in Hd as (Hx & _). destruct (split_parent_ok _ _ _ _ _ _ Hs) as [Hp Hl].
  destruct (attach_names s nd _ x n (ino src) (<[ino src := set_nlink i (nlink i + 1)]> (inodes s)) Hi Hx Hnd Hnd0 Hp Hl Hfree) as (pcs & H1 & H2).
  split; [done|]. by exists buf, n, pcs.
Qed.

(** Removing a name removes exactly that name: the entry the path names
    (in the directory the rest of it resolves to) is gone, every other path
    means what it meant, and a refusal changes nothing. *)
Theorem unlink_removes_one_name t mem s p r s' : inv s -> vfs_unlink proc_alias fd_magic t mem s p = (r, s') ->
  (r < 0 /\ s' = s) \/
  (r = 0 /\ exists buf n pcs d, split t p = Some (buf, n) /\ names_of s pcs = Some (resolve t s buf) /\
     one_more (names_of s') (names_of s) (pcs ++ [n]) d).
Proof.
  intros Hi H. apply vfs_unlink_cases in H as [?|[-> [par x d y j buf n im Hs -> _ Hx Hst Hy Hu Hr Hk _ _ _ ->]]]; [by left| |done].
  right. split; [done|]. pose proof (i_tree _ Hi) as Ht. destruct (live_located s _ x Hi Hx) as [pcs Hpcs].
  pose proof (proj2 (find_at s pcs _ Hi) Hpcs) as Hf. exists buf, n, pcs, d. split; [done|]. split; [done|].
  assert (names_of s (pcs ++ [n]) = Some d) as Hd by (by rewrite (find_step s pcs (resolve t s buf))).
  assert (forall cs, names_of (St (splice_ds (dents s) (resolve t s buf) d x) im (files s) (mounts s) (top s)) cs =
                     if decide (cs = pcs ++ [n]) then None else names_of s cs) as Heq.
  { intros cs. apply (find_ext _ _ (dents s)); [cbn; by eapply splice_tree|]. intros e. cbn.
    rewrite (splice_path (top s) (dents s) (resolve t s buf) d x y) by done.
    rewrite <- (find_at s cs e Hi). case_decide as E; [subst cs; rewrite Hd; naive_solver|]. split; [naive_solver|]. intros He. split; [done|].
    intros ->. apply E. apply (find_at s) in He, Hd; [|done..]. by eapply at_path_inj. }
  split; [by rewrite Heq, decide_True|]. intros cs. rewrite Heq. case_decide as E; [by subst|done].
Qed.

(** C21: Renaming moves a subtree and nothing else: below the new name is
    what was below the old one, the old name and everything below it are gone,
    every other path means what it meant; the new name was free, so nothing is
    lost.  A refusal changes nothing. *)
Theorem rename_moves_subtree t s old new r s' : inv s -> vfs_rename proc_alias fd_magic t s old new = (r, s') ->
  (r < 0 /\ s' = s) \/
  (r = 0 /\ exists ocs ncs o n obuf nbuf, split t old = Some (obuf, o) /\ split t new = Some (nbuf, n) /\
     names_of s ocs = Some (resolve t s obuf) /\ names_of s ncs = Some (resolve t s nbuf) /\ names_of s (ncs ++ [n]) = None /\
     (forall rest, names_of s' (ncs ++ [n] ++ rest) = names_of s (ocs ++ [o] ++ rest)) /\
     (forall cs, ~ ncs ++ [n] `prefix_of` cs -> names_of s' cs = if decide (ocs ++ [o] `prefix_of` cs) then None else names_of s cs)).
Proof.
  intros Hi H. apply vfs_rename_cases in H as [?|[-> Hren]]; [by left| |done]. right. split; [done|].
  pose proof (renamed_moves _ _ _ _ _ _ _ Hi Hren) as (Hi' & ocs & ncs & o & n & obuf & nbuf & Hos & Hns & Ho & Hn & Hm).
  destruct Hren as [op np d y obuf' nbuf' o' n' Hos' Hns' -> -> _ _ _ _ _ _ Hfree _ _]. rewrite Hos in Hos'. rewrite Hns in Hns'. simplify_eq.
  exists ocs, ncs, o', n', obuf', nbuf'. pose proof (proj2 (find_at s _ _ Hi) Ho) as Hfo. pose proof (proj2 (find_at s _ _ Hi) Hn) as Hfn.
  assert (names_of s (ncs ++ [n']) = None) as Hnone by (by rewrite (find_step s ncs (resolve t s nbuf'))).
  do 5 (split; [done|]). split.
  - intros rest. apply option_eq. intros e. rewrite !find_at by done. rewrite (Hm e). split.
    + intros [(rest' & H1 & E)|[H1 _]]; [rewrite <- app_assoc in H1, E; apply app_inv_head, app_inv_head in E; by subst|]. apply (find_at s) in H1; [|done].
      rewrite app_assoc, (find_app_none s (ncs ++ [n'])) in H1 by done. done.
    + intros H1. left. exists rest. rewrite <- !app_assoc. done.
  - intros cs Hno. apply option_eq. intros e. rewrite find_at by done. rewrite (Hm e). split.
    + intros [(rest & _ & ->)|[H1 H2]]; [destruct Hno; by exists rest|]. rewrite decide_False by done. by apply find_at.
    + case_decide as E; [done|]. intros H1. right. split; [by apply find_at|done].
Qed.

End Ops.

(** ** Examples *)

Definition sys : caller := Tk Cred.cred_zero 0 [] 0 (fun _ => (0, 0)) 1.
Definition sl (cs : list path) : path := render cs.
Definition pa : path := [97].
Definition pb : path := [98].
Definition pd : path := [100].
Notation names_of s := (find (top s) (dents s)).
Notation run1 o s := (exec no_proc no_proc sys o s).

(** Root with the file /a. *)
Definition with_a : state := (vfs_create no_proc no_proc sys 3 4 (boot 1 2) (sl [pa])).2.

Lemma boot_reach : inv (boot 1 2).
Proof. by apply tree_boot_inv. Qed.

Lemma fresh_34 : fresh (boot 1 2) 3 4.
Proof. split; [intros _|]; reflexivity. Qed.


Lemma create_adds_one_name_witness : exists pcs n, one_more (names_of (boot 1 2)) (names_of with_a) (pcs ++ [n]) 4.
Proof.
  destruct (create_adds_one_name no_proc no_proc sys 3 4 (boot 1 2) (sl [pa]) 0 [] 0 with_a) as [[H _]|(_ & buf & n & pcs & _ & _ & H)];
    [exact boot_reach|exact fresh_34|left; vm_compute; reflexivity|lia|]. by exists pcs, n.
Defined.

Lemma with_a_inv : inv with_a.
Proof.
  destruct (tree_exec_ok no_proc no_proc sys (Mutate 3 4 (sl [pa]) 0) (boot 1 2) boot_reach fresh_34) as (s' & E & H).
  cbn in E. by injection E as <-.
Qed.

Lemma unlink_removes_one_name_witness : exists r s' pcs n d, vfs_unlink no_proc no_proc sys true with_a (sl [pa]) = (r, s') /\
  one_more (names_of s') (names_of with_a) (pcs ++ [n]) d.
Proof.
  destruct (vfs_unlink no_proc no_proc sys true with_a (sl [pa])) as [r s'] eqn:E.
  destruct (unlink_removes_one_name no_proc no_proc sys true with_a (sl [pa]) r s' with_a_inv E) as [[H _]|(_ & buf & n & pcs & d & _ & _ & H)].
  - exfalso. vm_compute in E. injection E as <- _. lia.
  - by exists r, s', pcs, n, d.
Defined.

Lemma rename_moves_subtree_witness : exists s' ocs ncs o n, vfs_rename no_proc no_proc sys with_a (sl [pa]) (sl [pb]) = (0, s') /\
  names_of s' (ncs ++ [n] ++ []) = names_of with_a (ocs ++ [o] ++ []).
Proof.
  destruct (vfs_rename no_proc no_proc sys with_a (sl [pa]) (sl [pb])) as [r s'] eqn:E.
  destruct (rename_moves_subtree no_proc no_proc sys with_a (sl [pa]) (sl [pb]) r s' with_a_inv E)
    as [[H _]|(-> & ocs & ncs & o & n & _ & _ & _ & _ & _ & _ & _ & H & _)].
  - exfalso. vm_compute in E. injection E as <- _. lia.
  - exists s', ocs, ncs, o, n. by rewrite H.
Defined.


Definition then_ (s : option state) (o : op) : option state := s ≫= fun s => run1 o s.
Definition run_ops (os : list op) : option state := foldl then_ (Some (boot 1 2)) os.

(** Two uses of freed memory, which the condition of [name_space_safe]
    excludes: a directory that is open can be removed, and closing it reads its
    freed inode; and closing a file that was removed while open reads the
    inode of the directory it was removed from, which may be gone. *)
Theorem close_reads_freed_inode :
  (exists s, run_ops [Mutate 3 4 (sl [pd]) 1; Open 0 0 9 (sl [pd]) VFS_RDONLY; Unlink true (sl [pd])] = Some s /\
     inodes s !! 3 = None /\ run1 (Close 9) s = None) /\
  (exists s, run_ops [Mutate 3 4 (sl [pd]) 1; Mutate 5 6 (sl [pd; pa]) 0; Open 0 0 9 (sl [pd; pa]) VFS_RDONLY;
                      Unlink true (sl [pd; pa]); Unlink true (sl [pd])] = Some s /\
     inodes s !! 5 <> None /\ run1 (Close 9) s = None).
Proof. split; (eexists; split; [vm_compute; reflexivity|]); by vm_compute. Qed.

(** Two names of an open file removed: only one of the two pending removals
    is carried out at the close, and the inode stays for ever. *)
Lemma second_pending_removal_lost :
  exists s, run_ops [Mutate 3 4 (sl [pa]) 0; Link 5 (sl [pa]) (sl [pb]); Open 0 0 9 (sl [pa]) VFS_RDONLY;
                     Unlink true (sl [pa]); Unlink true (sl [pb]); Close 9] = Some s /\
    nlink <$> inodes s !! 3 = Some 1 /\ names s 3 = 0 /\ holders s 3 = 0.
Proof. eexists. split; [vm_compute; reflexivity|]. by vm_compute. Qed.

(** A mount point can be removed, although the comment says it cannot: the
    mount table keeps the freed entry. *)
Lemma mount_point_removed : exists s, run_ops [Mutate 3 4 (sl [pd]) 1] = Some s /\
  let s := St (dents s) (inodes s) (files s) [Mt 1 false 0; Mt 4 true 0] (top s) in
  let '(r, s') := vfs_unlink no_proc no_proc sys true s (sl [pd]) in r = 0 /\ dents s' !! 4 = None /\ mp <$> mounts s' = [1; 4].
Proof. eexists. split; [vm_compute; reflexivity|]. by vm_compute. Qed.

End VfsTreeSpec.
