(* ===== verification/Ramfs.v ===== *)
(** * The in-memory file system's files (kernel/fs/ramfs.c)

    A file is a table of 4 KiB pages, a missing page being a hole, and a size
    that lives in the inode.  Truncation only lowers the size, so the bytes
    past the end may be stale; the theorems show that no read ever sees them.
    Whether [kcalloc] finds memory is an argument: [room] for the page table,
    [ok] for each page. *)

From stdpp Require Import base list.
From Stdlib Require Import ZArith Lia Bool.
From S2P Require Import Prelude.
Open Scope Z_scope.

Module Ramfs.

Definition RFS_PAGE : Z := 4096.

Record ramfs_file := RF { pages : Z -> option (Z -> Z); npages : Z; nlink : Z }.

(** The inode's size with its private data. *)
Record node := Node { rf : ramfs_file; size : Z }.

Definition empty_file : node := Node (RF (fun _ => None) 0 1) 0.

Definition page_of (r : ramfs_file) (k : Z) : option (Z -> Z) := if k <? npages r then pages r k else None.

(** ** Reading *)

Fixpoint rd_loop (fuel : nat) (r : ramfs_file) (o left : Z) : option (list Z) :=
  if left <=? 0 then Some [] else
  match fuel with
  | O => None
  | S fuel' =>
      let k := room_at o left in
      let bytes := match page_of r (o / RFS_PAGE) with
                   | Some pg => peek pg (o mod RFS_PAGE) (Z.to_nat k)
                   | None => replicate (Z.to_nat k) 0
                   end in
      (bytes ++.) <$> rd_loop fuel' r (o + k) (left - k)
  end.

Definition rfs_read (f : node) (n off : Z) : option (list Z) :=
  if size f <=? off then Some []
  else let avail := size f - off in
       let take := if n <? avail then n else avail in
       rd_loop (Z.to_nat take) (rf f) off take.

(** ** Writing *)

(** [while (ncap < need) ncap *= 2] *)
Fixpoint grow_table (fuel : nat) (ncap need : Z) : Z :=
  match fuel with O => ncap | S fuel' => if ncap <? need then grow_table fuel' (ncap * 2) need else ncap end.

(** The new slots of a grown table are NULL ([kcalloc]). *)
Definition rfs_reserve (room : bool) (r : ramfs_file) (need : Z) : option ramfs_file :=
  if need <=? npages r then Some r
  else
    let ncap := grow_table 64 (if npages r =? 0 then 4 else npages r) need in
    if room then Some (RF (fun k => if k <? npages r then pages r k else None) ncap (nlink r)) else None.

Fixpoint zero_range (fuel : nat) (r : ramfs_file) (from to : Z) : ramfs_file :=
  match fuel with
  | O => r
  | S fuel' =>
      if to <=? from then r
      else
        let pi := from / RFS_PAGE in
        let k := room_at from (to - from) in
        if npages r <=? pi then r
        else
          let r := match pages r pi with
                   | Some pg => RF ((pages r)⟦pi ↦ Some (fill pg (from mod RFS_PAGE) (Z.to_nat k) 0)⟧) (npages r) (nlink r)
                   | None => r
                   end in
          zero_range fuel' r (from + k) to
  end.

Definition rfs_zero_range (r : ramfs_file) (from to : Z) : ramfs_file := zero_range (Z.to_nat (to - from)) r from to.

(** The copy loop; the last component says that it ran out of memory.  The
    code reads [rf->pages[pi]] unchecked: outside the table is [None]. *)
Fixpoint wr_loop (fuel : nat) (ok : Z -> bool) (r : ramfs_file) (off : Z) (src : list Z) (done : Z)
  : option (ramfs_file * Z * bool) :=
  match src with
  | [] => Some (r, done, false)
  | _ :: _ =>
      match fuel with
      | O => None
      | S fuel' =>
          let pos := off + done in
          let pi := pos / RFS_PAGE in
          let k := room_at pos (Z.of_nat (length src)) in
          let put pg := wr_loop fuel' ok
                          (RF ((pages r)⟦pi ↦ Some (poke pg (pos mod RFS_PAGE) (take (Z.to_nat k) src))⟧) (npages r) (nlink r))
                          off (drop (Z.to_nat k) src) (done + k) in
          if npages r <=? pi then None else
          match pages r pi with
          | Some pg => put pg
          | None => if ok pi then put (fun _ => 0) else Some (r, done, true)
          end
      end
  end.

Definition SIZE_MAX : Z := 18446744073709551615.

Definition rfs_write (room : bool) (ok : Z -> bool) (f : node) (src : list Z) (off : Z) : option (Z * node) :=
  let n := Z.of_nat (length src) in
  if n =? 0 then Some (0, f)
  else
    let end_ := u64 (off + n) in
    if (end_ <? off) || (SIZE_MAX / 8 <=? end_ / RFS_PAGE) then Some (-1, f)
    else match rfs_reserve room (rf f) (u64 (end_ + RFS_PAGE - 1) / RFS_PAGE) with
         | None => Some (-1, f)
         | Some r =>
             let r := if size f <? off then rfs_zero_range r (size f) off else r in
             '(r, done, oom) ← wr_loop (length src) ok r off src 0;
             if oom && (done =? 0) then Some (-1, Node r (size f))
             else
               let newend := u64 (off + done) in
               Some (done, Node r (if size f <? newend then newend else size f))
         end.

(** ** Links and removal *)

Definition rfs_link_op (r : ramfs_file) : ramfs_file := RF (pages r) (npages r) (nlink r + 1).

(** [None]: the inode and its pages are freed. *)
Definition rfs_unlink_op (r : ramfs_file) : option ramfs_file :=
  if 1 <? nlink r then Some (RF (pages r) (npages r) (nlink r - 1)) else None.

(** A symbolic link is its target written at offset 0 of a new file; [None]
    when the write came short and everything was given back. *)
Definition rfs_symlink_op (room : bool) (ok : Z -> bool) (target : list Z) : option node :=
  match rfs_write room ok empty_file target 0 with
  | Some (w, f) => if w =? Z.of_nat (length target) then Some f else None
  | None => None
  end.

(** What the VFS does for O_TRUNC (vfs_open) and ftruncate to 0. *)
Definition truncate0 (f : node) : node := Node (rf f) 0.

(** ** The file as an array of bytes *)

Definition byte (r : ramfs_file) (i : Z) : Z :=
  match page_of r (i / RFS_PAGE) with Some pg => pg (i mod RFS_PAGE) | None => 0 end.

Definition view (f : node) (i : Z) : Z := if (0 <=? i) && (i <? size f) then byte (rf f) i else 0.

Definition table_ok (r : ramfs_file) : Prop := 0 <= npages r.

Lemma rd_loop_ok fuel r o left : 0 <= o -> 0 <= left <= Z.of_nat fuel ->
  rd_loop fuel r o left = Some ((fun k => byte r (o + Z.of_nat k)) <$> seq 0 (Z.to_nat left)).
Proof.
  revert o left. induction fuel as [|fuel IH]; intros o left Ho Hf; cbn [rd_loop].
  { by replace left with 0 by lia. }
  destruct (Z.leb_spec left 0); [by replace left with 0 by lia|].
  destruct (room_at_spec o left) as [[Hk1 Hk2] Hk3]; [done|done|]. set (k := room_at o left) in *.
  rewrite IH by lia. cbn [fmap option_fmap option_map]. f_equal.
  replace (Z.to_nat left) with (Z.to_nat k + Z.to_nat (left - k))%nat by lia. rewrite seq_app, fmap_app. f_equal.
  - assert (forall j, 0 <= j < k -> byte r (o + j) = match page_of r (o / RFS_PAGE) with Some pg => pg (o mod RFS_PAGE + j) | None => 0 end) as Hb.
    { intros j Hj. unfold byte, RFS_PAGE in *. destruct (page_run o j) as [-> ->]; [lia..|done]. }
    destruct (page_of r (o / RFS_PAGE)) as [pg|].
    + rewrite peek_map. apply list_fmap_ext. intros i x Hi. apply lookup_seq in Hi as [-> Hi]. cbn. rewrite Hb by lia. done.
    + apply list_eq_same_length with (Z.to_nat k); [by rewrite length_fmap, length_seq|by rewrite length_replicate|].
      intros i x y Hi Hx Hy. apply lookup_replicate in Hx as [-> _]. apply list_lookup_fmap_Some in Hy as (z & -> & Hz).
      apply lookup_seq in Hz as [-> _]. cbn. rewrite Hb by lia. done.
  - replace (seq (0 + Z.to_nat k) (Z.to_nat (left - k))) with (Nat.add (Z.to_nat k) <$> seq 0 (Z.to_nat (left - k)))
      by (rewrite fmap_add_seq; f_equal; lia).
    rewrite <- list_fmap_compose. apply list_fmap_ext. intros i x _. cbn. f_equal. lia.
Qed.

(** ** Changing one page *)

Definition set_page (r : ramfs_file) (pi : Z) (pg : Z -> Z) : ramfs_file := RF ((pages r)⟦pi ↦ Some pg⟧) (npages r) (nlink r).

Lemma byte_set_page r pi pg i : pi < npages r ->
  byte (set_page r pi pg) i = if i / RFS_PAGE =? pi then pg (i mod RFS_PAGE) else byte r i.
Proof.
  intros Hp. unfold byte, page_of, set_page; cbn. destruct (Z.eqb_spec (i / RFS_PAGE) pi) as [->|Hn].
  - destruct (Z.ltb_spec pi (npages r)); [|lia]. by rewrite upd_same.
  - destruct (i / RFS_PAGE <? npages r); [|done]. by rewrite upd_other.
Qed.

(** The offset inside the page, for an index relative to one in the page. *)
Lemma page_window o i k : 0 <= o -> 0 < k -> o mod RFS_PAGE + k <= RFS_PAGE ->
  (i / RFS_PAGE = o / RFS_PAGE /\ o mod RFS_PAGE <= i mod RFS_PAGE < o mod RFS_PAGE + k) <-> o <= i < o + k.
Proof.
  unfold RFS_PAGE. intros Ho Hk Hr. pose proof (Z.div_mod o 4096 ltac:(lia)). pose proof (Z.div_mod i 4096 ltac:(lia)).
  split; [lia|]. intros Hi. destruct (page_run o (i - o)) as [H1 H2]; [lia..|].
  replace (o + (i - o)) with i in H1, H2 by lia. lia.
Qed.

Lemma zero_range_ok fuel r from to i : 0 <= from -> to - from <= Z.of_nat fuel -> 0 <= i ->
  byte (zero_range fuel r from to) i = (if (from <=? i) && (i <? to) then 0 else byte r i) /\
  npages (zero_range fuel r from to) = npages r /\ nlink (zero_range fuel r from to) = nlink r.
Proof.
  revert r from. induction fuel as [|fuel IH]; intros r from Hf Hl Hi; cbn [zero_range].
  { split; [|done]. destruct (Z.leb_spec from i), (Z.ltb_spec i to); cbn; lia || done. }
  destruct (Z.leb_spec to from).
  { split; [|done]. destruct (Z.leb_spec from i), (Z.ltb_spec i to); cbn; lia || done. }
  destruct (Z.leb_spec (npages r) (from / RFS_PAGE)) as [Ho|Hin].
  { split; [|done]. destruct (Z.leb_spec from i), (Z.ltb_spec i to); cbn; try done.
    unfold byte, page_of. destruct (Z.ltb_spec (i / RFS_PAGE) (npages r)); [|done].
    pose proof (Z.div_le_mono from i RFS_PAGE ltac:(unfold RFS_PAGE; lia)). lia. }
  destruct (room_at_spec from (to - from)) as [[Hk1 Hk2] Hk3]; [lia..|]. set (k := room_at from (to - from)) in *.
  pose proof (page_window from i k Hf Hk1 Hk3) as Hw.
  destruct (pages r (from / RFS_PAGE)) as [pg|] eqn:Epg.
  - set (r1 := RF _ _ _). destruct (IH r1 (from + k)) as (-> & -> & ->); [lia..|]. split; [|done].
    change r1 with (set_page r (from / RFS_PAGE) (fill pg (from mod RFS_PAGE) (Z.to_nat k) 0)). rewrite byte_set_page by done.
    rewrite fill_lookup, Z2Nat.id by lia.
    destruct (Z.leb_spec (from + k) i), (Z.leb_spec from i), (Z.ltb_spec i to); cbn [andb]; try lia;
      destruct (Z.eqb_spec (i / RFS_PAGE) (from / RFS_PAGE)) as [E|E];
      destruct (Z.leb_spec (from mod RFS_PAGE) (i mod RFS_PAGE)), (Z.ltb_spec (i mod RFS_PAGE) (from mod RFS_PAGE + k)); cbn [andb]; try done; try lia;
      unfold byte, page_of; rewrite E, Epg; destruct (Z.ltb_spec (from / RFS_PAGE) (npages r)); done || lia.
  - destruct (IH r (from + k)) as (-> & -> & ->); [lia..|]. split; [|done].
    destruct (Z.leb_spec (from + k) i), (Z.leb_spec from i), (Z.ltb_spec i to); cbn [andb]; try done; try lia.
    unfold byte, page_of. destruct Hw as [_ Hw]. destruct Hw as [-> _]; [lia|]. rewrite Epg. by destruct (_ <? _).
Qed.

(** ** The copy loop *)

Lemma poke_page r o k src i pg : 0 <= o -> 0 < k <= Z.of_nat (length src) -> o mod RFS_PAGE + k <= RFS_PAGE ->
  o / RFS_PAGE < npages r -> (forall j, byte r j = if j / RFS_PAGE =? o / RFS_PAGE then pg (j mod RFS_PAGE) else byte r j) ->
  byte (set_page r (o / RFS_PAGE) (poke pg (o mod RFS_PAGE) (take (Z.to_nat k) src))) i =
  if (o <=? i) && (i <? o + k) then nth (Z.to_nat (i - o)) src 0 else byte r i.
Proof.
  intros Ho Hk Hp Hn Hpg. rewrite byte_set_page, poke_eq, length_take by done.
  replace (Z.of_nat (Z.to_nat k `min` length src)) with k by lia. pose proof (page_window o i k Ho ltac:(lia) Hp) as Hw.
  destruct (Z.leb_spec o i), (Z.ltb_spec i (o + k)); cbn [andb].
  { destruct Hw as [_ Hw]. destruct Hw as [E [H1 H2]]; [lia|]. rewrite E, Z.eqb_refl.
    apply Z.leb_le in H1; apply Z.ltb_lt in H2. rewrite H1, H2; cbn [andb].
    rewrite !nth_lookup, lookup_take_lt; [|unfold RFS_PAGE in *; pose proof (Z.div_mod i 4096); pose proof (Z.div_mod o 4096); lia].
    do 2 f_equal. unfold RFS_PAGE in *. pose proof (Z.div_mod i 4096); pose proof (Z.div_mod o 4096); lia. }
  all: rewrite (Hpg i); destruct (Z.eqb_spec (i / RFS_PAGE) (o / RFS_PAGE)) as [E|E]; [|done];
    destruct (Z.leb_spec (o mod RFS_PAGE) (i mod RFS_PAGE)), (Z.ltb_spec (i mod RFS_PAGE) (o mod RFS_PAGE + k)); cbn [andb]; done || lia.
Qed.

Lemma page_byte r o j : o / RFS_PAGE < npages r ->
  byte r j = if j / RFS_PAGE =? o / RFS_PAGE
             then match pages r (o / RFS_PAGE) with Some pg => pg (j mod RFS_PAGE) | None => 0 end else byte r j.
Proof.
  intros Hn. destruct (Z.eqb_spec (j / RFS_PAGE) (o / RFS_PAGE)) as [E|]; [|done].
  unfold byte, page_of. rewrite E. destruct (Z.ltb_spec (o / RFS_PAGE) (npages r)); [done|lia].
Qed.

(** What [wr_loop] leaves behind: [d] bytes of [src] at [at_]. *)
Definition landed (ok : Z -> bool) (r r' : ramfs_file) (at_ : Z) (src : list Z) (d : Z) (oom : bool) : Prop :=
  0 <= d <= Z.of_nat (length src) /\ npages r' = npages r /\ nlink r' = nlink r /\
  (if oom then d < Z.of_nat (length src) /\ ok ((at_ + d) / RFS_PAGE) = false else d = Z.of_nat (length src)) /\
  forall i, 0 <= i -> byte r' i = if (at_ <=? i) && (i <? at_ + d) then nth (Z.to_nat (i - at_)) src 0 else byte r i.

Lemma landed_0 ok r at_ src (oom : bool) : (if oom then src <> [] /\ ok (at_ / RFS_PAGE) = false else src = []) ->
  landed ok r r at_ src 0 oom.
Proof.
  intros H. split; [lia|]. split; [done|]. split; [done|]. split.
  - rewrite Z.add_0_r. destruct oom; [|by subst]. destruct H; split; [|done]. destruct src; [done|cbn; lia].
  - intros i Hi. destruct (Z.leb_spec at_ i), (Z.ltb_spec i (at_ + 0)); cbn; done || lia.
Qed.

Lemma landed_step ok r r1 r' at_ src k d oom : 0 <= at_ -> 0 < k <= Z.of_nat (length src) ->
  npages r1 = npages r -> nlink r1 = nlink r ->
  (forall i, 0 <= i -> byte r1 i = if (at_ <=? i) && (i <? at_ + k) then nth (Z.to_nat (i - at_)) src 0 else byte r i) ->
  landed ok r1 r' (at_ + k) (drop (Z.to_nat k) src) d oom -> landed ok r r' at_ src (k + d) oom.
Proof.
  intros Ha Hk Hn Hl Hb (Hd & Hn' & Hl' & Ho & Hb'). rewrite length_drop in Hd, Ho. unfold landed.
  repeat split; [lia|lia|congruence|congruence| |].
  - destruct oom; [|lia]. replace (at_ + (k + d)) with (at_ + k + d) by lia. split; [lia|tauto].
  - intros i Hi. rewrite Hb', Hb by done.
    destruct (Z.leb_spec (at_ + k) i), (Z.ltb_spec i (at_ + k + d)), (Z.leb_spec at_ i), (Z.ltb_spec i (at_ + k)),
      (Z.ltb_spec i (at_ + (k + d))); cbn [andb]; try done; try lia.
    rewrite !nth_lookup, lookup_drop. do 2 f_equal. lia.
Qed.

Lemma wr_loop_ok fuel ok r off src done : 0 <= off -> 0 <= done -> (length src <= fuel)%nat ->
  off + done + Z.of_nat (length src) <= npages r * RFS_PAGE ->
  exists r' d oom, wr_loop fuel ok r off src done = Some (r', done + d, oom) /\ landed ok r r' (off + done) src d oom.
Proof.
  revert r src done. induction fuel as [|fuel IH]; intros r src done Ho Hd Hf Hin.
  { destruct src; [|cbn in Hf; lia]. exists r, 0, false. split; [cbn; by rewrite Z.add_0_r|by apply landed_0]. }
  destruct src as [|b src']; [exists r, 0, false; split; [cbn; by rewrite Z.add_0_r|by apply landed_0]|].
  cbn [wr_loop]. remember (b :: src') as src eqn:Es. assert (0 < Z.of_nat (length src)) as Hpos by (subst; cbn; lia).
  destruct (room_at_spec (off + done) (Z.of_nat (length src))) as [Hk1 Hk3]; [done|lia|].
  set (k := room_at (off + done) (Z.of_nat (length src))) in *.
  assert ((off + done) / RFS_PAGE < npages r) as Hpi by (apply Z.div_lt_upper_bound; unfold RFS_PAGE in *; lia).
  destruct (Z.leb_spec (npages r) ((off + done) / RFS_PAGE)); [lia|].
  assert (forall pg, (forall j, byte r j = if j / RFS_PAGE =? (off + done) / RFS_PAGE then pg (j mod RFS_PAGE) else byte r j) ->
    exists r' d oom, wr_loop fuel ok (set_page r ((off + done) / RFS_PAGE) (poke pg ((off + done) mod RFS_PAGE) (take (Z.to_nat k) src)))
      off (drop (Z.to_nat k) src) (done + k) = Some (r', done + d, oom) /\ landed ok r r' (off + done) src d oom) as Hput.
  { intros pg Hpg. edestruct (IH (set_page r ((off + done) / RFS_PAGE) (poke pg ((off + done) mod RFS_PAGE) (take (Z.to_nat k) src)))
      (drop (Z.to_nat k) src) (done + k)) as (r' & d & oom & Hw & Hl); [done|lia|rewrite length_drop; lia|rewrite length_drop; cbn; lia|].
    exists r', (k + d), oom. split; [rewrite Hw; do 3 f_equal; lia|].
    eapply landed_step; [lia|done|..]; [..|by rewrite Z.add_assoc in Hl]; [done|done|]. intros i Hi. apply poke_page; done || lia. }
  pose proof (fun j => page_byte r (off + done) j Hpi) as Hpb.
  destruct (pages r ((off + done) / RFS_PAGE)) as [pg|]; [by apply Hput|].
  destruct (ok ((off + done) / RFS_PAGE)) eqn:Eok; [by apply (Hput (fun _ => 0))|].
  exists r, 0, true. split; [by rewrite Z.add_0_r|]. apply landed_0. by subst.
Qed.

(** ** One write *)

Lemma grow_table_ge fuel c need : 0 < c -> need <= c * 2 ^ Z.of_nat fuel -> need <= grow_table fuel c need.
Proof.
  revert c. induction fuel as [|fuel IH]; intros c Hc Hn; cbn [grow_table]; [lia|].
  destruct (Z.ltb_spec c need); [|lia]. apply IH; [lia|]. rewrite Nat2Z.inj_succ, Z.pow_succ_r in Hn by lia. lia.
Qed.

Lemma rfs_reserve_ok room r need r1 : 0 <= npages r -> need <= 2 ^ 60 -> rfs_reserve room r need = Some r1 ->
  need <= npages r1 /\ npages r <= npages r1 /\ nlink r1 = nlink r /\ forall i, byte r1 i = byte r i.
Proof.
  intros Hn Hneed. unfold rfs_reserve. destruct (Z.leb_spec need (npages r)); [intros [= <-]; done|].
  destruct room; [|done]. set (c := if npages r =? 0 then 4 else npages r).
  assert (0 < c /\ npages r <= c) as [Hc1 Hc2] by (unfold c; destruct (Z.eqb_spec (npages r) 0); lia).
  pose proof (grow_table_ge 64 c need Hc1 ltac:(change (Z.of_nat 64) with 64; nia)) as Hg.
  set (g := grow_table 64 c need) in *; clearbody g.
  intros [= <-]. split; [done|]. split; [cbn; lia|]. split; [done|]. intros i. unfold byte, page_of; cbn.
  destruct (Z.ltb_spec (i / RFS_PAGE) g), (Z.ltb_spec (i / RFS_PAGE) (npages r)); try done; lia.
Qed.

Definition file_ok (f : node) : Prop := 0 <= npages (rf f) /\ 0 <= size f.

(** What a write of [src] at [off] that returned [ret] did to the file. *)
Definition wrote (f : node) (src : list Z) (off ret : Z) (f' : node) : Prop :=
  size f' = (if 0 <? ret then Z.max (size f) (off + ret) else size f) /\
  forall i, view f' i = if (off <=? i) && (i <? off + ret) then nth (Z.to_nat (i - off)) src 0 else view f i.

Lemma wrote_none f src off ret f' : ret <= 0 -> size f' = size f ->
  (forall i, 0 <= i < size f -> byte (rf f') i = byte (rf f) i) -> wrote f src off ret f'.
Proof.
  intros Hr Hs Hb. split; [destruct (Z.ltb_spec 0 ret); [lia|done]|]. intros i. unfold view. rewrite Hs.
  destruct (Z.leb_spec off i), (Z.ltb_spec i (off + ret)), (Z.leb_spec 0 i), (Z.ltb_spec i (size f)); cbn [andb]; try done; try lia;
    apply Hb; lia.
Qed.

Lemma wrote_some f src off d r' : file_ok f -> 0 <= off -> 0 < d ->
  (forall i, 0 <= i -> byte r' i = if (off <=? i) && (i <? off + d) then nth (Z.to_nat (i - off)) src 0
                                  else if (size f <=? i) && (i <? off) then 0 else byte (rf f) i) ->
  wrote f src off d (Node r' (if size f <? off + d then off + d else size f)).
Proof.
  intros [_ Hs] Ho Hd Hb. split; cbn [size rf].
  { destruct (Z.ltb_spec 0 d); [|lia]. destruct (Z.ltb_spec (size f) (off + d)); lia. }
  intros i. unfold view; cbn [size rf].
  destruct (Z.leb_spec 0 i) as [Hi|Hi]; cbn [andb]; [|destruct (Z.leb_spec off i); [lia|done]]. rewrite (Hb i Hi).
  destruct (Z.ltb_spec (size f) (off + d)), (Z.ltb_spec i (off + d)), (Z.ltb_spec i (size f)), (Z.leb_spec off i), (Z.ltb_spec i off),
    (Z.leb_spec (size f) i); cbn [andb]; try done; lia.
Qed.

(** The gap a write beyond the end opens reads as zeros. *)
Lemma gap_ok r s off : 0 <= s -> let r' := if s <? off then rfs_zero_range r s off else r in
  npages r' = npages r /\ nlink r' = nlink r /\ forall i, 0 <= i -> byte r' i = if (s <=? i) && (i <? off) then 0 else byte r i.
Proof.
  intros Hs. unfold rfs_zero_range. destruct (Z.ltb_spec s off); cbv zeta.
  - pose proof (fun i => zero_range_ok (Z.to_nat (off - s)) r s off i Hs ltac:(lia)) as Hz.
    split; [apply (Hz 0); lia|]. split; [apply (Hz 0); lia|]. intros i Hi. by apply Hz.
  - repeat split; try done. intros i Hi. destruct (Z.leb_spec s i), (Z.ltb_spec i off); cbn; done || lia.
Qed.

(** A result other than the full length needs an allocation to have failed. *)
Definition short (room : bool) (ok : Z -> bool) (src : list Z) (off ret : Z) : Prop :=
  ret = Z.of_nat (length src) \/ (ret = -1 /\ room = false) \/ ok ((off + Z.max 0 ret) / RFS_PAGE) = false.

Definition fits (src : list Z) (off : Z) : Prop := 0 <= off /\ off + Z.of_nat (length src) + RFS_PAGE < 2 ^ 64.

Lemma rfs_write_guards src off : fits src off -> let n := Z.of_nat (length src) in
  u64 (off + n) = off + n /\ u64 (off + n + RFS_PAGE - 1) = off + n + RFS_PAGE - 1 /\
  (off + n <? off) || (SIZE_MAX / 8 <=? (off + n) / RFS_PAGE) = false.
Proof.
  intros [Ho Hb]. cbv zeta. unfold RFS_PAGE in *. split; [apply u64_small; lia|]. split; [apply u64_small; lia|].
  apply orb_false_intro; [apply Z.ltb_ge; lia|]. apply Z.leb_gt. apply Z.div_lt_upper_bound; [lia|].
  change (SIZE_MAX / 8) with 2305843009213693951. lia.
Qed.

Lemma rfs_write_spec room ok f src off : file_ok f -> fits src off ->
  exists ret f', rfs_write room ok f src off = Some (ret, f') /\ file_ok f' /\ nlink (rf f') = nlink (rf f) /\
    -1 <= ret <= Z.of_nat (length src) /\ short room ok src off ret /\ wrote f src off ret f'.
Proof.
  intros Hf Hfit. pose proof Hf as [Hn Hs]. destruct (rfs_write_guards src off Hfit) as (E1 & E2 & E3). destruct Hfit as [Ho Hb].
  unfold rfs_write. set (n := Z.of_nat (length src)) in *. rewrite E1, E2, E3. unfold RFS_PAGE in Hb.
  destruct (Z.eqb_spec n 0) as [En|En].
  { exists 0, f. do 3 (split; [done|]). split; [lia|]. split; [left; lia|]. apply wrote_none; done || lia. }
  destruct (rfs_reserve room (rf f) _) as [r1|] eqn:Er.
  2: { exists (-1), f. do 3 (split; [done|]). split; [lia|]. split; [|apply wrote_none; done || lia].
       right; left. split; [done|]. unfold rfs_reserve in Er. destruct (_ <=? npages (rf f)); [done|]. by destruct room. }
  apply rfs_reserve_ok in Er as (Hr1 & Hr2 & Hr3 & Hr4); [|done|].
  2: { apply Z.div_le_upper_bound; unfold RFS_PAGE; lia. }
  destruct (gap_ok r1 (size f) off Hs) as (Hp2 & Hl2 & Hz2). set (r2 := if size f <? off then _ else r1) in *.
  destruct (wr_loop_ok (length src) ok r2 off src 0) as (r' & d & oom & -> & Hd & Hn' & Hl' & Hoom & Hby); [done|lia|lia| |].
  { rewrite Hp2. pose proof (Z.div_mod (off + n + RFS_PAGE - 1) RFS_PAGE ltac:(done)).
    pose proof (Z.mod_pos_bound (off + n + RFS_PAGE - 1) RFS_PAGE ltac:(done)). unfold RFS_PAGE in *. lia. }
  cbn [mbind option_bind]. rewrite !Z.add_0_l, ?Z.add_0_r in *. fold n in Hd, Hoom.
  assert (forall i, 0 <= i -> byte r' i = if (off <=? i) && (i <? off + d) then nth (Z.to_nat (i - off)) src 0
                                         else if (size f <=? i) && (i <? off) then 0 else byte (rf f) i) as Hall.
  { intros i Hi. by rewrite Hby, Hz2, Hr4. }
  destruct (Z.eqb_spec d 0) as [->|Hd0]; [|rewrite andb_false_r].
  - destruct oom; [|lia]. exists (-1), (Node r' (size f)). split; [done|]. split; [split; cbn; lia|]. split; [cbn; congruence|].
    split; [lia|]. split; [right; right; tauto|]. apply wrote_none; [lia|done|]. intros i Hi. cbn [rf]. rewrite Hall by lia.
    destruct (Z.leb_spec off i), (Z.ltb_spec i (off + 0)), (Z.leb_spec (size f) i), (Z.ltb_spec i off); cbn; done || lia.
  - rewrite (u64_small (off + d)) by lia. exists d, (Node r' (if size f <? off + d then off + d else size f)).
    split; [done|]. split; [split; cbn; [lia|destruct (Z.ltb_spec (size f) (off + d)); lia]|]. split; [cbn; congruence|].
    split; [lia|]. split; [|apply wrote_some; done || lia]. unfold short.
    destruct oom; [right; right; rewrite Z.max_r by lia; tauto|by left].
Qed.

(** ** Reading back *)

Definition span (v : Z -> Z) (off n : Z) : list Z := (fun k => v (off + Z.of_nat k)) <$> seq 0 (Z.to_nat n).

Lemma span_ext v w off n : (forall i, off <= i < off + n -> v i = w i) -> span v off n = span w off n.
Proof. intros H. apply list_fmap_ext. intros i x Hi. apply lookup_seq in Hi as [-> Hi]. apply H. lia. Qed.

Lemma span_nth l n off : n = Z.of_nat (length l) -> span (fun i => nth (Z.to_nat (i - off)) l 0) off n = l.
Proof.
  intros ->. apply list_eq. intros i. unfold span. rewrite list_lookup_fmap, Nat2Z.id.
  destruct (decide (i < length l)%nat) as [Hi|Hi].
  - rewrite lookup_seq_lt by done. cbn. destruct (lookup_lt_is_Some_2 l i Hi) as [x Hx]. rewrite Hx. f_equal.
    replace (Z.to_nat (off + Z.of_nat i - off)) with i by lia. by rewrite nth_lookup, Hx.
  - rewrite lookup_seq_ge, lookup_ge_None_2 by lia. done.
Qed.

Lemma rfs_read_ok f n off : 0 <= off -> 0 <= n ->
  rfs_read f n off = Some (span (view f) off (Z.min n (Z.max 0 (size f - off)))).
Proof.
  intros Ho Hn. unfold rfs_read. destruct (Z.leb_spec (size f) off).
  { by replace (Z.min n (Z.max 0 (size f - off))) with 0 by lia. }
  replace (if n <? size f - off then n else size f - off) with (Z.min n (Z.max 0 (size f - off))) by (destruct (Z.ltb_spec n (size f - off)); lia).
  rewrite rd_loop_ok by lia. f_equal. change (span (byte (rf f)) off (Z.min n (Z.max 0 (size f - off))) = span (view f) off (Z.min n (Z.max 0 (size f - off)))).
  apply span_ext. intros i Hi. unfold view. destruct (Z.leb_spec 0 i), (Z.ltb_spec i (size f)); cbn; done || lia.
Qed.

(** ** The file as the abstract array it stands for *)

Record afile := AF { asize : Z; acontent : Z -> Z }.

Inductive op :=
| Write (room : bool) (ok : Z -> bool) (src : list Z) (off : Z)
| Trunc.

(** [ret] is what the write reported. *)
Definition astep (o : op) (ret : Z) (a : afile) : afile :=
  match o with
  | Write _ _ src off =>
      AF (if 0 <? ret then Z.max (asize a) (off + ret) else asize a)
         (fun i => if (off <=? i) && (i <? off + ret) then nth (Z.to_nat (i - off)) src 0 else acontent a i)
  | Trunc => AF 0 (fun _ => 0)
  end.

Definition cstep (o : op) (f : node) : option (Z * node) :=
  match o with Write room ok src off => rfs_write room ok f src off | Trunc => Some (0, truncate0 f) end.

Definition op_ok (o : op) : Prop := match o with Write _ _ src off => fits src off | Trunc => True end.

Definition models (a : afile) (f : node) : Prop := file_ok f /\ asize a = size f /\ forall i, acontent a i = view f i.

Fixpoint run (os : list op) (f : node) (a : afile) : option (node * afile) :=
  match os with
  | [] => Some (f, a)
  | o :: os' => '(ret, f') ← cstep o f; run os' f' (astep o ret a)
  end.

Lemma cstep_models o f a : models a f -> op_ok o ->
  exists ret f', cstep o f = Some (ret, f') /\ models (astep o ret a) f' /\ nlink (rf f') = nlink (rf f).
Proof.
  intros (Hf & Hs & Hc) Ho. destruct o as [room ok src off|].
  - destruct (rfs_write_spec room ok f src off Hf Ho) as (ret & f' & Hw & Hf' & Hl & _ & _ & Hsz & Hv).
    exists ret, f'. split; [done|]. split; [|done]. split; [done|]. cbn. split; [by rewrite Hs, Hsz|]. intros i. by rewrite Hv, Hc.
  - exists 0, (truncate0 f). split; [done|]. split; [|done]. destruct Hf as [Hn _]. split; [split; cbn; [done|lia]|].
    split; [done|]. intros i. unfold view; cbn. destruct (Z.leb_spec 0 i), (Z.ltb_spec i 0); cbn; done || lia.
Qed.

Lemma run_models os f a : models a f -> Forall op_ok os -> exists f' a', run os f a = Some (f', a') /\ models a' f'.
Proof.
  revert f a. induction os as [|o os IH]; intros f a Hm Hos; [by exists f, a|].
  apply Forall_cons in Hos as [Ho Hos]. destruct (cstep_models o f a Hm Ho) as (ret & f1 & Hc & Hm1 & _).
  cbn [run]. rewrite Hc. cbn [mbind option_bind]. by apply IH.
Qed.

Lemma empty_models : models (AF 0 (fun _ => 0)) empty_file.
Proof.
  split; [split; cbn; lia|]. split; [done|]. intros i. unfold view; cbn. destruct (Z.leb_spec 0 i), (Z.ltb_spec i 0); cbn; done || lia.
Qed.

(** C20: A ramfs file is the array of bytes it stands for: after any
    sequence of writes and truncations, whatever allocations fail, every
    operation has returned and a read yields exactly the abstract file's bytes
    up to its size.  A write that reports [ret] bytes stores these and nothing
    else; a gap opened by a seek reads as zeros, also where a truncation left
    old bytes in the pages. *)
Theorem ramfs_refines_array os n off : Forall op_ok os -> 0 <= off -> 0 <= n ->
  exists f a, run os empty_file (AF 0 (fun _ => 0)) = Some (f, a) /\
    rfs_read f n off = Some (span (acontent a) off (Z.min n (Z.max 0 (asize a - off)))).
Proof.
  intros Hos Ho Hn. destruct (run_models os _ _ empty_models Hos) as (f & a & Hr & Hf & Hs & Hc). exists f, a.
  split; [done|]. rewrite rfs_read_ok by done. rewrite Hs. f_equal. apply span_ext. intros i _. by rewrite Hc.
Qed.

Definition stale_ops : list op := [Write true (fun _ => true) (replicate 20 7) 4090; Trunc; Write true (fun _ => true) [1; 2] 4097].

Lemma ramfs_refines_array_witness : exists f a, run stale_ops empty_file (AF 0 (fun _ => 0)) = Some (f, a) /\
  rfs_read f 10 4094 = Some (span (acontent a) 4094 (Z.min 10 (Z.max 0 (asize a - 4094)))).
Proof. apply (ramfs_refines_array stale_ops 10 4094); [|lia|lia]. repeat constructor; cbn; unfold RFS_PAGE; cbn; lia. Defined.

Example stale_hidden : (fst <$> run stale_ops empty_file (AF 0 (fun _ => 0))) ≫= (fun f => rfs_read f 10 4094) = Some [0; 0; 0; 1; 2].
Proof. vm_compute. reflexivity. Qed.

Lemma full_write_reads_back room ok f src off : file_ok f -> fits src off -> room = true -> (forall k, ok k = true) ->
  exists f', rfs_write room ok f src off = Some (Z.of_nat (length src), f') /\ rfs_read f' (Z.of_nat (length src)) off = Some src.
Proof.
  intros Hf Hfit -> Hok. destruct (rfs_write_spec true ok f src off Hf Hfit) as (ret & f' & Hw & Hf' & _ & Hr & Hsh & Hsz & Hv).
  assert (ret = Z.of_nat (length src)) as -> by (destruct Hsh as [->|[[_ ?]|Hx]]; [done|done|by rewrite Hok in Hx]).
  exists f'. split; [done|]. destruct Hfit as [Ho _]. rewrite rfs_read_ok by lia. f_equal.
  destruct (Z.ltb_spec 0 (Z.of_nat (length src))) as [Hp|Hp].
  - replace (Z.min _ _) with (Z.of_nat (length src)) by lia. rewrite <- (span_nth src _ off eq_refl) at 2.
    apply span_ext. intros i Hi. rewrite Hv. destruct (Z.leb_spec off i), (Z.ltb_spec i (off + Z.of_nat (length src))); cbn; done || lia.
  - destruct src; [|cbn in Hp; lia]. cbn. by replace (Z.min 0 _) with 0 by lia.
Qed.

(** A write reports less than it was given only when an allocation
    failed, and then keeps exactly what it reports: a full write read back at
    its offset gives the bytes that were written. *)
Theorem rfs_write_read_back room ok f src off : file_ok f -> fits src off -> room = true -> (forall k, ok k = true) ->
  exists f', rfs_write room ok f src off = Some (Z.of_nat (length src), f') /\ rfs_read f' (Z.of_nat (length src)) off = Some src.
Proof. apply full_write_reads_back. Qed.

Lemma rfs_write_read_back_witness : exists f', rfs_write true (fun _ => true) empty_file [5; 6; 7] 4095 = Some (3, f') /\
  rfs_read f' 3 4095 = Some [5; 6; 7].
Proof. apply (rfs_write_read_back true (fun _ => true) empty_file [5; 6; 7] 4095); done || (unfold file_ok, fits, RFS_PAGE; cbn; lia). Defined.

(** Above [2^64 - 4096] the rounded-up page count wraps to 0, nothing is
    reserved, and the copy loop indexes the table far outside. *)
Lemma zero_range_empty fuel r from to : npages r <= from / RFS_PAGE -> zero_range fuel r from to = r.
Proof.
  intros H. destruct fuel as [|fuel]; [done|]. cbn [zero_range]. destruct (to <=? from); [done|].
  destruct (Z.leb_spec (npages r) (from / RFS_PAGE)); [done|lia].
Qed.

Lemma rfs_write_top_of_range : rfs_write true (fun _ => true) empty_file [1] (2 ^ 64 - 2) = None.
Proof.
  unfold rfs_write. change (Z.of_nat (length [1]) =? 0) with false. cbv iota.
  change (u64 (2 ^ 64 - 2 + Z.of_nat (length [1]))) with (2 ^ 64 - 1).
  change (rfs_reserve true (rf empty_file) _) with (Some (rf empty_file)).
  change ((2 ^ 64 - 1 <? 2 ^ 64 - 2) || _) with false. change (size empty_file <? 2 ^ 64 - 2) with true. cbv iota.
  unfold rfs_zero_range. rewrite zero_range_empty by (vm_compute; discriminate). reflexivity.
Qed.

(** A symbolic link's content is its target. *)
Lemma symlink_holds_target target : fits target 0 ->
  exists f, rfs_symlink_op true (fun _ => true) target = Some f /\ rfs_read f (Z.of_nat (length target)) 0 = Some target /\
    size f = Z.of_nat (length target).
Proof.
  intros Hfit. assert (file_ok empty_file) as He by (split; cbn; lia).
  destruct (full_write_reads_back true (fun _ => true) empty_file target 0 He Hfit) as (f & Hw & Hr); [done|done|].
  destruct (rfs_write_spec true (fun _ => true) empty_file target 0 He Hfit) as (ret & f' & Hw' & _ & _ & _ & _ & Hsz & _).
  rewrite Hw in Hw'. injection Hw' as <- <-. exists f. unfold rfs_symlink_op. rewrite Hw, Z.eqb_refl. split; [done|]. split; [done|].
  rewrite Hsz. change (size empty_file) with 0. destruct (Z.ltb_spec 0 (Z.of_nat (length target))); lia.
Qed.

(** [k] more names mean that the inode lives through [k] removals. *)
Lemma unlink_after_links r k : nlink r = 1 ->
  rfs_unlink_op r = None /\ (0 < k -> rfs_unlink_op (RF (pages r) (npages r) (nlink r + k)) = Some (RF (pages r) (npages r) (nlink r + k - 1))).
Proof.
  intros H. unfold rfs_unlink_op; cbn. rewrite H. split; [done|]. intros Hk. destruct (Z.ltb_spec 1 (1 + k)); [done|lia].
Qed.

End Ramfs.
