(* ===== verification/Usock.v ===== *)
(** * Unix sockets and pipes (kernel/core/usock.c)

    An endpoint has a ring of received bytes, a queue of descriptors passed to
    it and, when it listens, a queue of connections nobody has accepted.  The
    endpoints refer to each other ([peer], [accq]), so they live in one store;
    an operation that follows a pointer to an endpoint that is gone has no
    result ([None]).  Each operation also says which wait queues it wakes, and
    a call that would sleep is a pass with the outcome [Park].

    [usock_close] is in FdTable.v: dropping the passed descriptors re-enters
    the descriptions behind them. *)

From stdpp Require Import base gmap list.
From Stdlib Require Import ZArith Lia Bool.
From S2P Require Import Prelude Ring.
Open Scope Z_scope.

Module Usock.

Definition USOCK_BUF : Z := 32768.
Definition USOCK_ACCQ : Z := 16.
Definition USOCK_FDQ : Z := 8.
Definition SEQ_HDR : Z := 4.
Definition UREG_MAX : nat := 64.

(** pid, uid, gid *)
Record ucred := Cred { c_pid : Z; c_uid : Z; c_gid : Z }.

Record usock := Usock {
  peer : option nat;
  rx : Z -> Z; head : Z; count : Z;
  fdq : list nat;                       (* fdq[0 .. fdq_count) *)
  listening : bool; backlog : Z;
  accq : list nat;                      (* accq[0 .. acc_n) *)
  path : list Z;                        (* the bound name, [] = unnamed *)
  ever_connected : bool;
  own : ucred; peer_cred : ucred; has_peercred : bool;
  seqpacket : bool; is_pipe : bool; pipe_id : Z;
  eof : bool; wr_shut : bool
}.

(** The endpoints and the registry of bound names [g_ureg]. *)
Record net := Net { socks : gmap nat usock; reg : list (option (list Z * nat)) }.

(** A wait queue of an endpoint. *)
Inductive waitq := Readers (s : nat) | Writers (s : nat).

#[export] Instance waitq_eq_dec : EqDecision waitq.
Proof. solve_decision. Defined.

(** ** Field updates *)

Definition set_peer (u : usock) (p : option nat) : usock :=
  Usock p (rx u) (head u) (count u) (fdq u) (listening u) (backlog u) (accq u) (path u) (ever_connected u)
    (own u) (peer_cred u) (has_peercred u) (seqpacket u) (is_pipe u) (pipe_id u) (eof u) (wr_shut u).
Definition set_ring (u : usock) (b : Z -> Z) (h c : Z) : usock :=
  Usock (peer u) b h c (fdq u) (listening u) (backlog u) (accq u) (path u) (ever_connected u)
    (own u) (peer_cred u) (has_peercred u) (seqpacket u) (is_pipe u) (pipe_id u) (eof u) (wr_shut u).
Definition set_fdq (u : usock) (q : list nat) : usock :=
  Usock (peer u) (rx u) (head u) (count u) q (listening u) (backlog u) (accq u) (path u) (ever_connected u)
    (own u) (peer_cred u) (has_peercred u) (seqpacket u) (is_pipe u) (pipe_id u) (eof u) (wr_shut u).
Definition set_accq (u : usock) (q : list nat) : usock :=
  Usock (peer u) (rx u) (head u) (count u) (fdq u) (listening u) (backlog u) q (path u) (ever_connected u)
    (own u) (peer_cred u) (has_peercred u) (seqpacket u) (is_pipe u) (pipe_id u) (eof u) (wr_shut u).
Definition set_path (u : usock) (p : list Z) : usock :=
  Usock (peer u) (rx u) (head u) (count u) (fdq u) (listening u) (backlog u) (accq u) p (ever_connected u)
    (own u) (peer_cred u) (has_peercred u) (seqpacket u) (is_pipe u) (pipe_id u) (eof u) (wr_shut u).
Definition set_listen (u : usock) (b : Z) (c : ucred) : usock :=
  Usock (peer u) (rx u) (head u) (count u) (fdq u) true b (accq u) (path u) (ever_connected u)
    c (peer_cred u) (has_peercred u) (seqpacket u) (is_pipe u) (pipe_id u) (eof u) (wr_shut u).
Definition set_eof (u : usock) : usock :=
  Usock (peer u) (rx u) (head u) (count u) (fdq u) (listening u) (backlog u) (accq u) (path u) (ever_connected u)
    (own u) (peer_cred u) (has_peercred u) (seqpacket u) (is_pipe u) (pipe_id u) true (wr_shut u).
Definition set_wr_shut (u : usock) : usock :=
  Usock (peer u) (rx u) (head u) (count u) (fdq u) (listening u) (backlog u) (accq u) (path u) (ever_connected u)
    (own u) (peer_cred u) (has_peercred u) (seqpacket u) (is_pipe u) (pipe_id u) (eof u) true.
(** [s->peer = p], [s->ever_connected = 1] and the credentials of a connection. *)
Definition set_conn (u : usock) (p : nat) (o c : ucred) : usock :=
  Usock (Some p) (rx u) (head u) (count u) (fdq u) (listening u) (backlog u) (accq u) (path u) true
    o c true (seqpacket u) (is_pipe u) (pipe_id u) (eof u) (wr_shut u).
Definition set_seq (u : usock) : usock :=
  Usock (peer u) (rx u) (head u) (count u) (fdq u) (listening u) (backlog u) (accq u) (path u) (ever_connected u)
    (own u) (peer_cred u) (has_peercred u) true (is_pipe u) (pipe_id u) (eof u) (wr_shut u).
Definition set_pipe (u : usock) (id : Z) : usock :=
  Usock (peer u) (rx u) (head u) (count u) (fdq u) (listening u) (backlog u) (accq u) (path u) (ever_connected u)
    (own u) (peer_cred u) (has_peercred u) (seqpacket u) true id (eof u) (wr_shut u).

Definition put (s : nat) (u : usock) (n : net) : net := Net (<[s := u]> (socks n)) (reg n).

(** ** Creation *)

(** [kcalloc]: everything zero; [usock_new] fills in the owner's identity. *)
Definition usock_zero : usock :=
  Usock None (fun _ => 0) 0 0 [] false 0 [] [] false (Cred 0 0 0) (Cred 0 0 0) false false false 0 false false.
Definition usock_new (me : ucred) : usock :=
  Usock None (fun _ => 0) 0 0 [] false 0 [] [] false me (Cred 0 0 0) false false false 0 false false.

(** [usock_pair], with the two allocations' addresses. *)
Definition usock_pair (me : ucred) (aa ab : option nat) (n : net) : net * option (nat * nat) :=
  match aa, ab with
  | Some a, Some b =>
      (put b (set_conn usock_zero a me me) (put a (set_conn usock_zero b me me) n), Some (a, b))
  | _, _ => (n, None)
  end.

Definition usock_set_seqpacket (a b : nat) (n : net) : net :=
  Net (alter set_seq b (alter set_seq a (socks n))) (reg n).
Definition usock_set_pipe (a b : nat) (id : Z) (n : net) : net :=
  Net (alter (fun u => set_pipe u id) b (alter (fun u => set_pipe u id) a (socks n))) (reg n).

(** ** Sending *)

(** [if (passfile && p->fdq_count < USOCK_FDQ) p->fdq[p->fdq_count++] = ofile_ref(passfile)]:
    the endpoint and the references taken. *)
Definition pass_fd (p : usock) (pass : option nat) : usock * list nat :=
  match pass with
  | Some o => if Z.of_nat (length (fdq p)) <? USOCK_FDQ then (set_fdq p (fdq p ++ [o]), [o]) else (p, [])
  | None => (p, [])
  end.

(** [rx[...] = (uint8_t)(len >> (8 * i))] for [i < SEQ_HDR] *)
Definition hdr (len : Z) : list Z :=
  (fun i => u8 (Z.shiftr len (8 * i))) <$> [0; 1; 2; 3].

(** [while (wrote < n && p->count < USOCK_BUF) { rx[(head + count) % USOCK_BUF] = src[wrote++]; count++; }] *)
Fixpoint send_loop (b : Z -> Z) (h c : Z) (data : list Z) : (Z -> Z) * Z * Z :=
  match data with
  | [] => (b, c, 0)
  | x :: data' =>
      if c <? USOCK_BUF then
        let '(b', c', w) := send_loop (b⟦(h + c) mod USOCK_BUF ↦ x⟧) h (c + 1) data' in (b', c', w + 1)
      else (b, c, 0)
  end.

(** The part of [usock_send] under the peer's lock: the peer, the result, the
    references taken and whether the peer's readers are woken. *)
Definition send_into (p : usock) (data : list Z) (pass : option nat) : usock * Z * list nat * bool :=
  let n := Z.of_nat (length data) in
  if seqpacket p then
    if USOCK_BUF <? n + SEQ_HDR then (p, -90, [], false)
    else if USOCK_BUF - count p <? n + SEQ_HDR then (p, 0, [], false)
    else
      let b := ring_put USOCK_BUF (rx p) (head p + count p) (hdr (u32 n)) in
      let b := ring_put USOCK_BUF b (head p + (count p + SEQ_HDR)) data in
      let p := set_ring p b (head p) (count p + SEQ_HDR + n) in
      let '(p, took) := pass_fd p pass in
      (p, n, took, true)
  else
    let '(b, c, wrote) := send_loop (rx p) (head p) (count p) data in
    let p := set_ring p b (head p) c in
    let '(p, took) := pass_fd p pass in
    (p, wrote, took, (0 <? wrote) || bool_decide (is_Some pass)).

(** [!s->peer || s->wr_shut || s->peer->eof], the peer when it is none of these. *)
Definition send_peer (n : net) (s : nat) : option (option (nat * usock)) :=
  u ← socks n !! s;
  match peer u with
  | None => Some None
  | Some q =>
      if wr_shut u then Some None else
      p ← socks n !! q;
      Some (if eof p then None else Some (q, p))
  end.

Definition usock_send (n : net) (s : nat) (data : list Z) (pass : option nat)
    : option (net * Z * list nat * list waitq) :=
  t ← send_peer n s;
  match t with
  | None => Some (n, -1, [], [])
  | Some (q, p) =>
      let '(p', r, took, woke) := send_into p data pass in
      Some (put q p' n, r, took, if woke then [Readers q] else [])
  end.

(** [usock_send_whole]: all of it, and the descriptor, or nothing. *)
Definition whole_into (p : usock) (data : list Z) (pass : option nat) : usock * Z * list nat * bool :=
  let n := Z.of_nat (length data) in
  if (USOCK_BUF - count p <? n) || (bool_decide (is_Some pass) && (USOCK_FDQ <=? Z.of_nat (length (fdq p))))
  then (p, 0, [], false)
  else
    let b := ring_put USOCK_BUF (rx p) (head p + count p) data in
    let p := set_ring p b (head p) (count p + n) in
    match pass with
    | Some o => (set_fdq p (fdq p ++ [o]), n, [o], true)
    | None => (p, n, [], true)
    end.

Definition usock_send_whole (n : net) (s : nat) (data : list Z) (pass : option nat)
    : option (net * Z * list nat * list waitq) :=
  t ← send_peer n s;
  match t with
  | None => Some (n, -1, [], [])
  | Some (q, p) =>
      let '(p', r, took, woke) := whole_into p data pass in
      Some (put q p' n, r, took, if woke then [Readers q] else [])
  end.

(** A pass of [usock_write]'s loop.  [WPark q]: asleep on [q]'s writers;
    [WAgain]: the loop goes round. *)
Inductive wstep := WRet (r : Z) | WPark (q : nat) | WAgain.

Definition usock_write (n : net) (s : nat) (data : list Z) (block stop : bool)
    : option (net * wstep * list waitq) :=
  u ← socks n !! s;
  if negb (ever_connected u) then Some (n, WRet (-107), [])
  else if bool_decide (peer u = None) then Some (n, WRet (-32), [])
  else
    '(n', w, _, wk) ← usock_send n s data None;
    if w =? -90 then Some (n', WRet (-90), wk)
    else if negb (w =? 0) || bool_decide (data = []) then Some (n', WRet (if w <? 0 then -32 else w), wk)
    else if negb block then Some (n', WRet (-11), wk)
    else
      u' ← socks n' !! s;
      match peer u' with
      | None => Some (n', WRet (-32), wk)
      | Some q =>
          p ← socks n' !! q;
          if stop then Some (n', WRet (-4), wk)
          else if (if seqpacket p then USOCK_BUF - count p <? Z.of_nat (length data) + SEQ_HDR
                   else USOCK_BUF <=? count p)
               then Some (n', WPark q, wk)
               else Some (n', WAgain, wk)
      end.

(** ** Receiving *)

Inductive outcome := Ret (r : Z) | Park.

(** [len |= (uint32_t)rx[head] << (8 * i)] for [i < SEQ_HDR], and the cursor after it. *)
Definition read_hdr (b : Z -> Z) (h : Z) : Z :=
  fold_left (fun len i => Z.lor len (Z.shiftl (b ((h + i) mod USOCK_BUF)) (8 * i))) [0; 1; 2; 3] 0.

(** [for (i = 0; i < len; i++) { if (got < n) dst[got++] = rx[head]; head = (head + 1) % USOCK_BUF; }] *)
Fixpoint seq_loop (b : Z -> Z) (h left : Z) (len : nat) : list Z * Z :=
  match len with
  | O => ([], h)
  | S len' =>
      let '(out, h') := seq_loop b ((h + 1) mod USOCK_BUF) (if 0 <? left then left - 1 else left) len' in
      (if 0 <? left then b h :: out else out, h')
  end.

(** [while (got < n && s->count > 0) { dst[got++] = rx[head]; head = (head + 1) % USOCK_BUF; count--; }] *)
Fixpoint drain_loop (b : Z -> Z) (h left : Z) (c : nat) : list Z * Z * nat :=
  match c with
  | O => ([], h, O)
  | S c' =>
      if 0 <? left then
        let '(out, h', c'') := drain_loop b ((h + 1) mod USOCK_BUF) (left - 1) c' in (b h :: out, h', c'')
      else ([], h, c)
  end.

(** What [usock_recv] takes out of the ring: the endpoint, the bytes, whether a
    message was taken. *)
Definition recv_ring (u : usock) (n : Z) : usock * list Z * bool :=
  if seqpacket u then
    if SEQ_HDR <=? count u then
      let len := read_hdr (rx u) (head u) in
      let h := (head u + SEQ_HDR) mod USOCK_BUF in
      let '(out, h') := seq_loop (rx u) h n (Z.to_nat len) in
      (set_ring u (rx u) h' (count u - SEQ_HDR - s32 len), out, true)
    else (u, [], false)
  else
    let '(out, h, c) := drain_loop (rx u) (head u) n (Z.to_nat (count u)) in
    (set_ring u (rx u) h (Z.of_nat c), out, false).

(** [if (passfile_out) ...]: the head of the queue of passed descriptors. *)
Definition take_fd (u : usock) (want : bool) : usock * option nat :=
  if want then match fdq u with o :: q => (set_fdq u q, Some o) | [] => (u, None) end else (u, None).

(** A pass of [usock_recv] on an endpoint: the endpoint, the bytes, the
    descriptor handed over, the outcome, and whether its writers are woken. *)
Definition recv_from (u : usock) (n : Z) (block stop want : bool)
    : usock * list Z * option nat * outcome * bool :=
  if block && (count u =? 0) && bool_decide (fdq u = []) && bool_decide (is_Some (peer u)) && negb (eof u)
  then (u, [], None, if stop then Ret (-4) else Park, false)
  else
    let '(u, out, took_msg) := recv_ring u n in
    let woke := (0 <? Z.of_nat (length out)) || took_msg in
    let '(u, passed) := take_fd u want in
    (u, out, passed, Ret (Z.of_nat (length out)), woke).

Definition usock_recv (n : net) (s : nat) (len : Z) (block stop want : bool)
    : option (net * list Z * option nat * outcome * list waitq) :=
  u ← socks n !! s;
  let '(u', out, passed, r, woke) := recv_from u len block stop want in
  Some (put s u' n, out, passed, r, if woke then [Writers s] else []).

Definition MSG_PEEK : Z := 2.
Definition MSG_TRUNC : Z := 32.
Definition MSG_DONTWAIT : Z := 64.
Definition flag (fl m : Z) : bool := negb (Z.land fl m =? 0).

(** A pass of [usock_recv_flags]; the last component is [consumed]. *)
Definition flags_from (u : usock) (n : Z) (block stop : bool) (flags : Z)
    : usock * list Z * outcome * bool :=
  let peek := flag flags MSG_PEEK in
  let trunc := flag flags MSG_TRUNC in
  let block := if flag flags MSG_DONTWAIT then false else block in
  let open := bool_decide (is_Some (peer u)) && negb (eof u) in
  if block && (count u =? 0) && open then (u, [], if stop then Ret (-4) else Park, false)
  else if count u =? 0 then (u, [], Ret (if open then -11 else 0), false)
  else if seqpacket u then
    if count u <? SEQ_HDR then (u, [], Ret (-11), false)
    else
      let len := read_hdr (rx u) (head u) in
      let take_ := if len <? n then len else n in
      let out := ring_get USOCK_BUF (rx u) (head u + SEQ_HDR) (Z.to_nat take_) in
      let r := Ret (if trunc then len else take_) in
      if peek then (u, out, r, false)
      else (set_ring u (rx u) ((head u + SEQ_HDR + s32 len) mod USOCK_BUF) (count u - (SEQ_HDR + s32 len)),
            out, r, true)
  else
    let take_ := if count u <? n then count u else n in
    let out := if trunc then [] else ring_get USOCK_BUF (rx u) (head u) (Z.to_nat take_) in
    if peek then (u, out, Ret take_, false)
    else (set_ring u (rx u) ((head u + take_) mod USOCK_BUF) (count u - take_), out, Ret take_, 0 <? take_).

Definition usock_recv_flags (n : net) (s : nat) (len : Z) (block stop : bool) (flags : Z)
    : option (net * list Z * outcome * list waitq) :=
  u ← socks n !! s;
  let '(u', out, r, consumed) := flags_from u len block stop flags in
  Some (put s u' n, out, r, if consumed then [Writers s] else []).

(** ** Poll and shutdown *)

Definition usock_can_read (u : usock) : bool := (0 <? count u) || (0 <? Z.of_nat (length (accq u))).

Definition usock_can_write (n : net) (s : nat) : option bool :=
  u ← socks n !! s;
  match peer u with
  | None => Some false
  | Some q => p ← socks n !! q; Some (count p <? USOCK_BUF - (if seqpacket p then SEQ_HDR else 0))
  end.

Definition usock_peer_open (u : usock) : bool := bool_decide (is_Some (peer u)) && negb (eof u).

Definition usock_hangup (u : usock) : Z :=
  if negb (bool_decide (is_Some (peer u))) || (eof u && wr_shut u) then 2 else if eof u then 1 else 0.

Definition usock_shutdown (n : net) (s : nat) (how : Z) : option (net * Z * list waitq) :=
  u ← socks n !! s;
  if negb (bool_decide (is_Some (peer u))) && negb (ever_connected u) then Some (n, -107, [])
  else
    let '(n1, w1) :=
      if (how =? 0) || (how =? 2) then (put s (set_eof u) n, [Readers s]) else (n, []) in
    if (how =? 1) || (how =? 2) then
      u1 ← socks n1 !! s;
      let n2 := put s (set_wr_shut u1) n1 in
      match peer u with
      | None => Some (n2, 0, w1 ++ [Writers s])
      | Some q => p ← socks n2 !! q; Some (put q (set_eof p) n2, 0, w1 ++ [Readers q; Writers s])
      end
    else Some (n1, 0, w1).

(** ** Names *)

(** [ueq]: equal as C strings. *)
Fixpoint ueq (a b : list Z) : bool :=
  match a, b with
  | x :: a', y :: b' => (x =? y) && ueq a' b'
  | [], [] => true
  | _, _ => false
  end.

(** [for (; name[k] && k < 107; k++)]: the name as it fits in [path[108]]. *)
Definition clip (name : list Z) : list Z := take 107 name.

Definition reg_remove (s : nat) (r : list (option (list Z * nat))) : list (option (list Z * nat)) :=
  (fun e => match e with Some (p, t) => if decide (t = s) then None else Some (p, t) | None => None end) <$> r.

(** The scan of [usock_bind]: [inl] is EADDRINUSE, [inr] the first free slot. *)
Fixpoint bind_scan (name : list Z) (r : list (option (list Z * nat))) (i : nat) (slot : option nat)
    : unit + option nat :=
  match r with
  | [] => inr slot
  | Some (p, _) :: r' => if ueq p name then inl tt else bind_scan name r' (S i) slot
  | None :: r' => bind_scan name r' (S i) (match slot with None => Some i | _ => slot end)
  end.

(** [usock_bind]; [stat_ok] and [opened] are the results of [vfs_stat] and of
    [vfs_open] with [VFS_CREATE] on the name. *)
Definition usock_bind (n : net) (s : nat) (name : list Z) (stat_ok opened : bool) : option (net * Z) :=
  u ← socks n !! s;
  match name with
  | [] => Some (n, -22)
  | c :: _ =>
      if bool_decide (path u <> []) || bool_decide (is_Some (peer u)) || listening u then Some (n, -22)
      else
        match bind_scan name (reg n) 0 None with
        | inl _ => Some (n, -98)
        | inr None => Some (n, -105)
        | inr (Some slot) =>
            let r := <[slot := Some (clip name, s)]> (reg n) in
            let n1 := Net (<[s := set_path u (clip name)]> (socks n)) r in
            let undo := Net (<[s := set_path u []]> (socks n)) (reg_remove s r) in
            if c =? 47 then
              if stat_ok then Some (undo, -98)
              else if negb opened then Some (undo, -2)
              else Some (n1, 0)
            else Some (n1, 0)
        end
  end.

Definition usock_listen (n : net) (s : nat) (bl : Z) (me : ucred) : option (net * Z) :=
  u ← socks n !! s;
  if bool_decide (is_Some (peer u)) then Some (n, -22)
  else if bool_decide (path u = []) then Some (n, -22)
  else Some (put s (set_listen u (if bl <? 1 then 1 else if USOCK_ACCQ <? bl then USOCK_ACCQ else bl) me) n, 0).

(** The lookup of [usock_connect], under the registry's lock. *)
Fixpoint reg_find (name : list Z) (r : list (option (list Z * nat))) : option nat :=
  match r with
  | [] => None
  | Some (p, t) :: r' => if ueq p name then Some t else reg_find name r'
  | None :: r' => reg_find name r'
  end.

(** The part of [usock_connect] before the listener is touched: an error, or
    the listener found. *)
Definition connect_find (n : net) (s : nat) (name : list Z) : option (Z + nat) :=
  u ← socks n !! s;
  if listening u then Some (inl (-22))
  else if bool_decide (is_Some (peer u)) || ever_connected u then Some (inl (-106))
  else Some match reg_find name (reg n) with None => inl (-111) | Some l => inr l end.

(** The rest: the listener is checked, the server end is allocated ([aa]) and queued. *)
Definition connect_queue (n : net) (s l : nat) (me : ucred) (aa : option nat) : option (net * Z * list waitq) :=
  lu ← socks n !! l;
  if negb (listening lu) then Some (n, -111, [])
  else
    match aa with
    | None => Some (n, -12, [])
    | Some a =>
        if backlog lu <=? Z.of_nat (length (accq lu)) then Some (n, -11, [])
        else
          u ← socks n !! s;
          let n := put a (set_conn (usock_new me) s (own lu) me) n in
          let n := put s (set_conn u a (own u) (own lu)) n in
          Some (put l (set_accq lu (accq lu ++ [a])) n, 0, [Readers l])
    end.

Definition usock_connect (n : net) (s : nat) (name : list Z) (me : ucred) (aa : option nat)
    : option (net * Z * list waitq) :=
  f ← connect_find n s name;
  match f with inl e => Some (n, e, []) | inr l => connect_queue n s l me aa end.

(** A pass of [usock_accept]: the connection taken, or the outcome. *)
Definition usock_accept (n : net) (l : nat) (block stop : bool) : option (net * option nat * outcome) :=
  lu ← socks n !! l;
  if negb (listening lu) then Some (n, None, Ret (-22))
  else
    match accq lu with
    | [] => Some (n, None, if negb block then Ret (-11) else if stop then Ret (-4) else Park)
    | a :: q => Some (put l (set_accq lu q) n, Some a, Ret 0)
    end.

Definition usock_peercred (u : usock) : option ucred := if has_peercred u then Some (peer_cred u) else None.

(** ** What an endpoint holds *)

Definition ring_ok (u : usock) : Prop := 0 <= head u < USOCK_BUF /\ 0 <= count u <= USOCK_BUF.
Definition contents (u : usock) : list Z := ring_get USOCK_BUF (rx u) (head u) (Z.to_nat (count u)).

(** The fields that tie an endpoint to the rest: unchanged by the data path. *)
Definition same_links (u v : usock) : Prop :=
  peer v = peer u /\ listening v = listening u /\ backlog v = backlog u /\ accq v = accq u /\ path v = path u /\
  seqpacket v = seqpacket u /\ ever_connected v = ever_connected u.

End Usock.
