(* ===== verification/UsockSpec.v ===== *)
(** * Unix sockets: the queue an endpoint is (kernel/core/usock.c)

    An endpoint is a bounded queue: of bytes for a stream or a pipe, of whole
    messages for SOCK_SEQPACKET.  The ring operations implement that queue;
    and a sleeping reader is woken by whatever gives it something to return. *)

From stdpp Require Import base gmap list.
From Stdlib Require Import ZArith Lia Bool.
From S2P Require Import Prelude Ring Usock.
Open Scope Z_scope.

Module UsockSpec.
Import Usock.

(** ** The loops *)

Lemma send_loop_spec b h c data : 0 <= c <= USOCK_BUF ->
  let k := Z.min (Z.of_nat (length data)) (USOCK_BUF - c) in
  send_loop b h c data = (ring_put USOCK_BUF b (h + c) (take (Z.to_nat k) data), c + k, k).
Proof.
  cbv zeta. revert b c. induction data as [|x data IH]; intros b c Hc; cbn [send_loop length].
  - rewrite take_nil. replace (Z.min (Z.of_nat 0) (USOCK_BUF - c)) with 0 by lia. cbn [ring_put].
    by rewrite Z.add_0_r.
  - destruct (Z.ltb_spec c USOCK_BUF).
    + rewrite IH by lia.
      set (k := Z.min (Z.of_nat (length data)) (USOCK_BUF - (c + 1))).
      replace (Z.min (Z.of_nat (S (length data))) (USOCK_BUF - c)) with (k + 1) by lia.
      replace (Z.to_nat (k + 1)) with (S (Z.to_nat k)) by lia. cbn [take ring_put].
      by rewrite !Z.add_assoc, (Z.add_comm (c + 1)), Z.add_assoc, (Z.add_comm k c).
    + replace (Z.min (Z.of_nat (S (length data))) (USOCK_BUF - c)) with 0 by lia. cbn [Z.to_nat take ring_put].
      by rewrite Z.add_0_r.
Qed.

Lemma step_mod h k : 0 <= k -> ((h + 1) mod USOCK_BUF + k) mod USOCK_BUF = (h + (k + 1)) mod USOCK_BUF.
Proof. intros. rewrite Zplus_mod_idemp_l. f_equal. lia. Qed.

Lemma seq_loop_spec b h left len : 0 <= h < USOCK_BUF ->
  seq_loop b h left len = (ring_get USOCK_BUF b h (Z.to_nat (Z.min left (Z.of_nat len))), (h + Z.of_nat len) mod USOCK_BUF).
Proof.
  revert h left. induction len as [|len IH]; intros h left Hh; cbn [seq_loop].
  - replace (Z.to_nat (Z.min left (Z.of_nat 0))) with 0%nat by lia. cbn [ring_get].
    by rewrite Z.add_0_r, Z.mod_small.
  - rewrite IH by (apply Z.mod_pos_bound; done). rewrite step_mod by lia.
    replace (Z.of_nat len + 1) with (Z.of_nat (S len)) by lia.
    destruct (Z.ltb_spec 0 left).
    + replace (Z.to_nat (Z.min left (Z.of_nat (S len)))) with (S (Z.to_nat (Z.min (left - 1) (Z.of_nat len)))) by lia.
      cbn [ring_get]. rewrite (Z.mod_small h), ring_get_mod by done. done.
    + by replace (Z.to_nat (Z.min left (Z.of_nat (S len)))) with 0%nat by lia;
        replace (Z.to_nat (Z.min left (Z.of_nat len))) with 0%nat by lia.
Qed.

Lemma drain_loop_spec b h left c : 0 <= h < USOCK_BUF ->
  let k := Z.to_nat (Z.min left (Z.of_nat c)) in
  drain_loop b h left c = (ring_get USOCK_BUF b h k, (h + Z.of_nat k) mod USOCK_BUF, (c - k)%nat).
Proof.
  cbv zeta. revert h left. induction c as [|c IH]; intros h left Hh; cbn [drain_loop].
  - replace (Z.to_nat (Z.min left (Z.of_nat 0))) with 0%nat by lia. cbn [ring_get].
    by rewrite Z.add_0_r, Z.mod_small.
  - destruct (Z.ltb_spec 0 left).
    + rewrite IH by (apply Z.mod_pos_bound; done). set (k := Z.to_nat (Z.min (left - 1) (Z.of_nat c))).
      replace (Z.to_nat (Z.min left (Z.of_nat (S c)))) with (S k) by lia.
      rewrite step_mod by lia. replace (Z.of_nat k + 1) with (Z.of_nat (S k)) by lia.
      cbn [ring_get]. rewrite (Z.mod_small h), ring_get_mod by done. done.
    + replace (Z.to_nat (Z.min left (Z.of_nat (S c)))) with 0%nat by lia. cbn [ring_get].
      by rewrite Z.add_0_r, Z.mod_small.
Qed.

(** ** The header of a message *)

Lemma hdr_length len : length (hdr len) = 4%nat.
Proof. done. Qed.

Lemma or_shl a c m : 0 <= a < 2 ^ m -> 0 <= m -> Z.lor a (Z.shiftl c m) = c * 2 ^ m + a.
Proof. intros. rewrite Z.lor_comm. by apply shl_or. Qed.

Lemma read_hdr_ok b h len : 0 <= len < 4294967296 -> ring_get USOCK_BUF b h 4 = hdr len -> read_hdr b h = len.
Proof.
  intros Hl E. unfold hdr in E. cbn [ring_get fmap list_fmap] in E.
  assert (b (h mod USOCK_BUF) = u8 (Z.shiftr len 0) /\ b ((h + 1) mod USOCK_BUF) = u8 (Z.shiftr len 8) /\
    b ((h + 2) mod USOCK_BUF) = u8 (Z.shiftr len 16) /\ b ((h + 3) mod USOCK_BUF) = u8 (Z.shiftr len 24))
    as (E0 & E1 & E2 & E3).
  { injection E as E0 E1 E2 E3. replace (h + 1 + 1) with (h + 2) in * by lia.
    replace (h + 2 + 1) with (h + 3) in * by lia.
    rewrite E0, E1, E2, E3. split_and!; reflexivity. }
  unfold read_hdr. cbn [fold_left]. rewrite Z.add_0_r, E0, E1, E2, E3.
  change (8 * 0) with 0. change (8 * 1) with 8. change (8 * 2) with 16. change (8 * 3) with 24.
  rewrite !Z.shiftr_div_pow2 by lia. unfold u8. rewrite Z.shiftl_0_r, Z.lor_0_l.
  change (2 ^ 0) with 1. change (2 ^ 8) with 256. change (2 ^ 16) with 65536. change (2 ^ 24) with 16777216.
  rewrite Z.div_1_r.
  pose proof (Z.mod_pos_bound len 256 ltac:(lia)). pose proof (Z.mod_pos_bound (len / 256) 256 ltac:(lia)).
  pose proof (Z.mod_pos_bound (len / 65536) 256 ltac:(lia)).
  rewrite (or_shl _ _ 8), (or_shl _ _ 16), (or_shl _ _ 24) by (cbn; lia).
  change (2 ^ 8) with 256. change (2 ^ 16) with 65536. change (2 ^ 24) with 16777216.
  clear -Hl. Z.to_euclidean_division_equations. lia.
Qed.

(** A length taken too long is the whole list. *)
Lemma take_clip {A} (l : list A) n k : k = Z.min n (Z.of_nat (length l)) -> take (Z.to_nat k) l = take (Z.to_nat n) l.
Proof. intros ->. destruct (decide (Z.to_nat n <= length l)%nat); [f_equal; lia|]. rewrite !take_ge; [done|lia..]. Qed.
Lemma drop_clip {A} (l : list A) n k : k = Z.min n (Z.of_nat (length l)) -> drop (Z.to_nat k) l = drop (Z.to_nat n) l.
Proof. intros ->. destruct (decide (Z.to_nat n <= length l)%nat); [f_equal; lia|]. rewrite !drop_ge; [done|lia..]. Qed.

Lemma s32_small x : 0 <= x < 2147483648 -> s32 x = x.
Proof. intros. unfold s32; cbv zeta. rewrite u32_small by lia. by rewrite (proj2 (Z.ltb_lt _ _)) by lia. Qed.

(** ** The queue *)

Inductive chan := Bytes (l : list Z) | Msgs (m : list (list Z)).

(** A message as it sits in the ring. *)
Definition frame (x : list Z) : list Z := hdr (Z.of_nat (length x)) ++ x.
Definition flat (ch : chan) : list Z := match ch with Bytes l => l | Msgs m => concat (frame <$> m) end.
Definition is_seq (ch : chan) : bool := match ch with Bytes _ => false | Msgs _ => true end.
Definition used (ch : chan) : Z := Z.of_nat (length (flat ch)).

(** Append what fits of the bytes; or the whole message, or nothing. *)
Definition ch_send (ch : chan) (data : list Z) : chan * Z :=
  let n := Z.of_nat (length data) in
  match ch with
  | Bytes l => let k := Z.min n (USOCK_BUF - used ch) in (Bytes (l ++ take (Z.to_nat k) data), k)
  | Msgs m => if USOCK_BUF <? n + SEQ_HDR then (ch, -90)
              else if USOCK_BUF - used ch <? n + SEQ_HDR then (ch, 0)
              else (Msgs (m ++ [data]), n)
  end.

(** Take up to [n] bytes; or one message, of which the first [n] bytes are seen. *)
Definition ch_recv (ch : chan) (n : Z) : chan * list Z :=
  match ch with
  | Bytes l => (Bytes (drop (Z.to_nat n) l), take (Z.to_nat n) l)
  | Msgs [] => (ch, [])
  | Msgs (x :: m) => (Msgs m, take (Z.to_nat n) x)
  end.

(** What MSG_TRUNC makes [recv] return: the length of the message, not of the copy. *)
Definition ch_trunc (ch : chan) (n : Z) : Z :=
  match ch with
  | Bytes l => Z.min n (Z.of_nat (length l))
  | Msgs [] => 0
  | Msgs (x :: _) => Z.of_nat (length x)
  end.

Record Rep (u : usock) (ch : chan) : Prop := {
  rep_ok : ring_ok u;
  rep_kind : seqpacket u = is_seq ch;
  rep_data : contents u = flat ch
}.

Lemma rep_count u ch : Rep u ch -> count u = used ch.
Proof. intros [[_ ?] _ E]. unfold used. rewrite <- E. unfold contents. rewrite ring_get_length. lia. Qed.

Lemma contents_append u data : ring_ok u -> count u + Z.of_nat (length data) <= USOCK_BUF ->
  contents (set_ring u (ring_put USOCK_BUF (rx u) (head u + count u) data) (head u) (count u + Z.of_nat (length data)))
  = contents u ++ data.
Proof.
  intros [Hh Hc] Hf. unfold contents. cbn [rx head count set_ring].
  replace (Z.to_nat (count u + Z.of_nat (length data))) with (Z.to_nat (count u) + length data)%nat by lia.
  replace (head u + count u) with (head u + Z.of_nat (Z.to_nat (count u))) by lia.
  apply ring_append; [done|lia].
Qed.

Lemma contents_consume u k : ring_ok u -> 0 <= k <= count u ->
  contents (set_ring u (rx u) ((head u + k) mod USOCK_BUF) (count u - k)) = drop (Z.to_nat k) (contents u).
Proof.
  intros [Hh Hc] Hk. unfold contents. cbn [rx head count set_ring]. rewrite ring_get_mod by done.
  rewrite ring_get_drop by lia. f_equal; lia.
Qed.

Lemma ring_ok_consume u k : ring_ok u -> 0 <= k <= count u ->
  ring_ok (set_ring u (rx u) ((head u + k) mod USOCK_BUF) (count u - k)).
Proof. intros [Hh Hc] Hk. split; cbn; [by apply Z.mod_pos_bound|lia]. Qed.

Lemma ring_ok_append u b k : ring_ok u -> 0 <= k -> count u + k <= USOCK_BUF -> ring_ok (set_ring u b (head u) (count u + k)).
Proof. intros [Hh Hc] Hk Hf. split; cbn; lia. Qed.

(** The first message of the ring. *)
Lemma first_message u x m : ring_ok u -> contents u = flat (Msgs (x :: m)) ->
  read_hdr (rx u) (head u) = Z.of_nat (length x) /\ SEQ_HDR + Z.of_nat (length x) <= count u /\
  ring_get USOCK_BUF (rx u) (head u + SEQ_HDR) (length x) = x /\
  drop (Z.to_nat (SEQ_HDR + Z.of_nat (length x))) (contents u) = flat (Msgs m).
Proof.
  intros [Hh Hc] E. cbn [flat fmap list_fmap concat] in E. fold (flat (Msgs m)) in E. unfold frame in E.
  assert (length (contents u) = Z.to_nat (count u)) as El by apply ring_get_length.
  assert (4 + length x <= Z.to_nat (count u))%nat as Hl.
  { rewrite <- El, E, !length_app, hdr_length. lia. }
  unfold SEQ_HDR in *. assert (ring_get USOCK_BUF (rx u) (head u) 4 = hdr (Z.of_nat (length x))) as Eh.
  { rewrite <- (ring_get_take _ _ _ (Z.to_nat (count u))) by lia. fold (contents u).
    rewrite E, <- app_assoc. by rewrite take_app_length' by (by rewrite hdr_length). }
  split; [apply read_hdr_ok; [unfold USOCK_BUF in *; lia|done]|]. split; [lia|].
  assert (drop 4 (contents u) = x ++ flat (Msgs m)) as Ed.
  { rewrite E, <- app_assoc. by rewrite drop_app_length' by (by rewrite hdr_length). }
  split.
  - assert (drop 4 (contents u) = ring_get USOCK_BUF (rx u) (head u + 4) (Z.to_nat (count u) - 4)) as Ed2.
    { unfold contents. rewrite ring_get_drop by lia. done. }
    rewrite <- (ring_get_take _ _ _ (Z.to_nat (count u) - 4)) by lia. rewrite <- Ed2, Ed.
    by rewrite take_app_length.
  - replace (Z.to_nat (4 + Z.of_nat (length x))) with (4 + length x)%nat by lia.
    rewrite <- drop_drop, Ed. by rewrite drop_app_length.
Qed.

(** ** Each operation implements the queue's *)

(** What a queue operation leaves alone: the links and the two shutdown bits. *)
Definition frame_of (u v : usock) : Prop := same_links u v /\ eof v = eof u /\ wr_shut v = wr_shut u.

Lemma pass_fd_rep u ch pass u' took : Rep u ch -> pass_fd u pass = (u', took) ->
  Rep u' ch /\ frame_of u u' /\ fdq u' = fdq u ++ took /\ (pass = None -> took = []).
Proof.
  intros [Ho Hk Hd]. unfold pass_fd. repeat case_match; intros [= <- <-]; (split; [by split|]);
    (split; [done|]); cbn; by rewrite ?app_nil_r.
Qed.

Lemma rep_append u ch ch' data : Rep u ch -> is_seq ch' = is_seq ch -> flat ch' = flat ch ++ data ->
  count u + Z.of_nat (length data) <= USOCK_BUF ->
  Rep (set_ring u (ring_put USOCK_BUF (rx u) (head u + count u) data) (head u) (count u + Z.of_nat (length data))) ch'.
Proof.
  intros [Hok Hk Hd] Es Ef Hf. split; [apply ring_ok_append; [done|lia..]|by rewrite Es|].
  by rewrite contents_append, Hd, Ef by done.
Qed.

Lemma send_bytes u l data : Rep u (Bytes l) ->
  let k := Z.min (Z.of_nat (length data)) (USOCK_BUF - used (Bytes l)) in
  exists b, send_loop (rx u) (head u) (count u) data = (b, count u + k, k) /\
    Rep (set_ring u b (head u) (count u + k)) (Bytes (l ++ take (Z.to_nat k) data)).
Proof.
  intros HR k. pose proof (rep_count _ _ HR) as Hc. pose proof HR as [[_ Hcb] _ _].
  eexists. split; [rewrite send_loop_spec by done; rewrite Hc; reflexivity|]. fold k.
  assert (Z.of_nat (length (take (Z.to_nat k) data)) = k) as El by (rewrite length_take; lia).
  rewrite <- Hc. replace (count u + k) with (count u + Z.of_nat (length (take (Z.to_nat k) data))) by lia.
  eapply rep_append; [exact HR|done..|]. lia.
Qed.

Lemma rep_message u m data : Rep u (Msgs m) -> count u + SEQ_HDR + Z.of_nat (length data) <= USOCK_BUF ->
  Rep (set_ring u (ring_put USOCK_BUF (ring_put USOCK_BUF (rx u) (head u + count u) (hdr (u32 (Z.of_nat (length data)))))
                     (head u + (count u + SEQ_HDR)) data) (head u) (count u + SEQ_HDR + Z.of_nat (length data)))
      (Msgs (m ++ [data])).
Proof.
  intros HR Hf. pose proof HR as [[_ Hcb] _ _]. unfold SEQ_HDR, USOCK_BUF in Hf, Hcb.
  rewrite u32_small by lia. replace (head u + (count u + SEQ_HDR)) with
    (head u + count u + Z.of_nat (length (hdr (Z.of_nat (length data))))) by (rewrite hdr_length; unfold SEQ_HDR; lia).
  rewrite <- ring_put_app. fold (frame data).
  assert (Z.of_nat (length (frame data)) = SEQ_HDR + Z.of_nat (length data)) as El
    by (unfold frame; rewrite length_app, hdr_length; unfold SEQ_HDR; lia).
  rewrite <- Z.add_assoc, <- El. eapply rep_append; [exact HR|done| |rewrite El; unfold SEQ_HDR, USOCK_BUF; lia].
  cbn [flat]. rewrite fmap_app, concat_app. cbn. by rewrite app_nil_r.
Qed.

Lemma send_rep u ch data pass u' r took woke : Rep u ch -> send_into u data pass = (u', r, took, woke) ->
  Rep u' (ch_send ch data).1 /\ r = (ch_send ch data).2 /\ frame_of u u' /\ fdq u' = fdq u ++ took /\
  (woke = false -> contents u' = contents u /\ took = []).
Proof.
  intros HR. pose proof (rep_count _ _ HR) as Hc. pose proof HR as [Hok Hk Hd].
  unfold send_into. rewrite Hk. destruct ch as [l|m]; cbn [is_seq ch_send].
  - destruct (send_bytes u l data HR) as (b & -> & HR'). set (k := Z.min _ _) in *.
    destruct (pass_fd _ _) as [v tk] eqn:E. intros [= <- <- <- <-].
    apply (pass_fd_rep _ _ _ _ _ HR') in E as (HR2 & Hf & Hq & Ht).
    split; [done|]. split; [done|]. split; [exact Hf|]. split; [exact Hq|]. rewrite orb_false_iff. intros [Hw Hp].
    bool_props. split; [|apply Ht; destruct pass; [by destruct Hp|done]].
    assert (0 <= k) by (unfold k; pose proof Hok as [_ Hcb]; lia).
    rewrite (rep_data _ _ HR2), Hd. assert (k = 0) as -> by lia. cbn. by rewrite app_nil_r.
  - rewrite <- Hc. destruct (Z.ltb_spec USOCK_BUF (Z.of_nat (length data) + SEQ_HDR)).
    { intros [= <- <- <- <-]. rewrite app_nil_r. done. }
    destruct (Z.ltb_spec (USOCK_BUF - count u) (Z.of_nat (length data) + SEQ_HDR)).
    { intros [= <- <- <- <-]. rewrite app_nil_r. done. }
    destruct (pass_fd _ _) as [v tk] eqn:E. intros [= <- <- <- <-].
    eapply pass_fd_rep in E as (HR2 & Hf & Hq & Ht); [|apply rep_message; [exact HR|lia]]. done.
Qed.

Lemma recv_ring_rep u ch n u' out tm : Rep u ch -> 0 <= n -> recv_ring u n = (u', out, tm) ->
  Rep u' (ch_recv ch n).1 /\ out = (ch_recv ch n).2 /\ frame_of u u' /\ fdq u' = fdq u /\
  ((0 <? Z.of_nat (length out)) || tm = false -> count u' = count u).
Proof.
  intros HR Hn. pose proof (rep_count _ _ HR) as Hc. pose proof HR as [Hok Hk Hd]. pose proof Hok as [Hh Hcb].
  unfold recv_ring. rewrite Hk. destruct ch as [l|[|x m]]; cbn [is_seq ch_recv fst snd].
  - rewrite drain_loop_spec by done. set (k := Z.to_nat _). intros [= <- <- <-].
    unfold used in Hc. cbn [flat] in Hd, Hc.
    rewrite <- (take_clip l n (Z.of_nat k)), <- (drop_clip l n (Z.of_nat k)), Nat2Z.id by lia.
    assert (Z.of_nat (Z.to_nat (count u) - k) = count u - Z.of_nat k) as -> by lia.
    split.
    { split; [apply ring_ok_consume; [done|lia]|done|]. rewrite contents_consume by (done || lia).
      rewrite Nat2Z.id, Hd. done. }
    split; [|split; [done|split; [done|]]].
    + rewrite <- Hd. unfold contents. by rewrite ring_get_take by lia.
    + rewrite ring_get_length. intros H. cbn. rewrite orb_false_r in H. bool_props. lia.
  - unfold used in Hc. cbn in Hc. rewrite Hc. cbn. intros [= <- <- <-]. done.
  - destruct (first_message _ _ _ Hok Hd) as (Er & Hl & Ex & Ed). pose proof Hcb as Hcb'. unfold USOCK_BUF, SEQ_HDR in Hcb', Hl.
    destruct (Z.leb_spec SEQ_HDR (count u)); [|unfold SEQ_HDR in *; lia].
    rewrite Er, seq_loop_spec by (by apply Z.mod_pos_bound). intros [= <- <- <-].
    rewrite s32_small by lia. rewrite Nat2Z.id, Zplus_mod_idemp_l, <- Z.add_assoc, <- Z.sub_add_distr.
    assert (0 <= SEQ_HDR + Z.of_nat (length x) <= count u) as Hr by (unfold SEQ_HDR; lia).
    split; [split; [by apply ring_ok_consume|done|by rewrite contents_consume by done]|].
    split; [|split; [done|]; split; [done|]; by rewrite orb_true_r].
    rewrite ring_get_mod by done. 
    replace (take (Z.to_nat n) x) with (take (Z.to_nat n) (ring_get USOCK_BUF (rx u) (head u + SEQ_HDR) (length x)))
      by (by rewrite Ex).
    rewrite <- (take_clip _ n (Z.min n (Z.of_nat (length x)))) by (rewrite ring_get_length; lia).
    by rewrite ring_get_take by lia.
Qed.

Lemma take_fd_rep u ch want u' passed : Rep u ch -> take_fd u want = (u', passed) ->
  Rep u' ch /\ frame_of u u' /\ fdq u = match passed with Some o => o :: fdq u' | None => fdq u' end.
Proof.
  intros [Ho Hk Hd]. unfold take_fd. destruct want; [destruct (fdq u) eqn:Eq|]; intros [= <- <-]; done.
Qed.

(** [recv] has nothing to return and may wait for it. *)
Definition recv_waits (u : usock) : Prop :=
  count u = 0 /\ fdq u = [] /\ is_Some (peer u) /\ eof u = false.

#[export] Instance recv_waits_decision u : Decision (recv_waits u).
Proof. unfold recv_waits. apply _. Defined.

Lemma recv_waits_dec u block :
  block && (count u =? 0) && bool_decide (fdq u = []) && bool_decide (is_Some (peer u)) && negb (eof u) = true <->
  block = true /\ recv_waits u.
Proof.
  unfold recv_waits. rewrite !andb_true_iff, negb_true_iff, Z.eqb_eq, !bool_decide_eq_true. tauto.
Qed.

Lemma recv_rep u ch n block stop want u' out passed r woke : Rep u ch -> 0 <= n ->
  recv_from u n block stop want = (u', out, passed, r, woke) ->
  (block = true /\ recv_waits u /\ u' = u /\ out = [] /\ passed = None /\ r = (if stop then Ret (-4) else Park) /\ woke = false) \/
  (~ (block = true /\ recv_waits u) /\
   Rep u' (ch_recv ch n).1 /\ out = (ch_recv ch n).2 /\ r = Ret (Z.of_nat (length out)) /\ frame_of u u' /\
   fdq u = match passed with Some o => o :: fdq u' | None => fdq u' end /\ (want = false -> passed = None) /\
   (woke = false -> count u' = count u)).
Proof.
  intros HR Hn. unfold recv_from. destruct (block && _ && _ && _ && _) eqn:Eb.
  { apply recv_waits_dec in Eb as [-> Hw]. intros [= <- <- <- <- <-]. left. done. }
  assert (~ (block = true /\ recv_waits u)) as Hnw by (rewrite <- recv_waits_dec, Eb; done).
  destruct (recv_ring u n) as [[v o] tm] eqn:Er. destruct (recv_ring_rep _ _ _ _ _ _ HR Hn Er) as (HRv & Ho & Hf & Hq & Hc).
  destruct (take_fd v want) as [w ps] eqn:Et. destruct (take_fd_rep _ _ _ _ _ HRv Et) as (HRw & Hf2 & Hq2).
  intros [= <- <- <- <- <-]. right. split; [done|]. split; [done|]. split; [done|]. split; [done|]. split.
  { unfold frame_of, same_links in *. intuition congruence. }
  split; [by rewrite <- Hq|]. split.
  - unfold take_fd in Et. intros ->. by injection Et as _ <-.
  - intros Hw. rewrite <- (Hc Hw), (rep_count _ _ HRw), (rep_count _ _ HRv). done.
Qed.

(** The two shapes of a receive that consumes [k] bytes of the ring. *)
Lemma flags_rep u ch n block stop flags u' out r consumed : Rep u ch -> 0 <= n ->
  flags_from u n block stop flags = (u', out, r, consumed) ->
  let peek := flag flags MSG_PEEK in
  let trunc := flag flags MSG_TRUNC in
  if count u =? 0 then
    u' = u /\ out = [] /\ consumed = false /\
    r = if usock_peer_open u
        then if block && negb (flag flags MSG_DONTWAIT) then if stop then Ret (-4) else Park else Ret (-11)
        else Ret 0
  else
    (if peek then u' = u else Rep u' (ch_recv ch n).1) /\
    out = (if trunc && negb (is_seq ch) then [] else (ch_recv ch n).2) /\
    r = Ret (if trunc then ch_trunc ch n else Z.of_nat (length (ch_recv ch n).2)) /\
    frame_of u u' /\ fdq u' = fdq u /\ (consumed = false -> count u' = count u).
Proof.
  intros HR Hn E peek trunc. pose proof (rep_count _ _ HR) as Hc. pose proof HR as [Hok Hk Hd]. pose proof Hok as [Hh Hcb].
  unfold flags_from in E. cbv zeta in E. fold (usock_peer_open u) in E. fold peek trunc in E.
  destruct (Z.eqb_spec (count u) 0) as [Ez|Hnz].
  { rewrite andb_true_r in E. destruct (usock_peer_open u); [|by rewrite andb_false_r in E; injection E as <- <- <- <-].
    rewrite andb_true_r in E. destruct (flag flags MSG_DONTWAIT), block; cbn in *; by injection E as <- <- <- <-. }
  rewrite andb_false_r, andb_false_l in E. rewrite Hk in E.
  destruct ch as [l|[|x m]]; cbn [is_seq ch_recv ch_trunc fst snd negb andb] in *.
  - unfold used in Hc. cbn [flat] in Hd, Hc. rewrite andb_true_r.
    set (k := if count u <? n then count u else n) in E.
    assert (0 <= k <= count u /\ k = Z.min n (count u)) as [Hk1 Hk2] by (unfold k; destruct (Z.ltb_spec (count u) n); lia).
    pose proof (take_clip l n k ltac:(lia)) as Et.
    assert (ring_get USOCK_BUF (rx u) (head u) (Z.to_nat k) = take (Z.to_nat n) l) as Eg.
    { rewrite <- Et, <- Hd. unfold contents. by rewrite ring_get_take by lia. }
    assert ((if trunc then Z.min n (Z.of_nat (length l)) else Z.of_nat (length (take (Z.to_nat n) l))) = k) as Er.
    { rewrite length_take. destruct trunc; lia. }
    rewrite Er. rewrite Eg in E. destruct peek; injection E as <- <- <- <-.
    { done. }
    split; [|split; [done|split; [done|split; [done|split; [done|]]]]].
    + split; [by apply ring_ok_consume|done|]. rewrite contents_consume by done. rewrite Hd. cbn. apply drop_clip. lia.
    + cbn. intros. bool_props. lia.
  - unfold used in Hc. cbn in Hc. lia.
  - destruct (first_message _ _ _ Hok Hd) as (Er & Hl & Ex & Ed). pose proof Hcb as Hcb'. unfold USOCK_BUF, SEQ_HDR in Hcb', Hl.
    destruct (Z.ltb_spec (count u) SEQ_HDR); [unfold SEQ_HDR in *; lia|]. rewrite Er in E. rewrite andb_false_r.
    rewrite s32_small in E by lia. set (k := if Z.of_nat (length x) <? n then Z.of_nat (length x) else n) in E.
    assert (k = Z.min n (Z.of_nat (length x))) as Hk2 by (unfold k; destruct (Z.ltb_spec (Z.of_nat (length x)) n); lia).
    assert (ring_get USOCK_BUF (rx u) (head u + SEQ_HDR) (Z.to_nat k) = take (Z.to_nat n) x) as Eg.
    { rewrite <- (ring_get_take _ _ _ (length x)) by lia. rewrite Ex. by apply take_clip. }
    assert (Z.of_nat (length (take (Z.to_nat n) x)) = k) as El by (rewrite length_take; lia).
    rewrite Eg in E. rewrite El.
    assert (0 <= SEQ_HDR + Z.of_nat (length x) <= count u) as Hr by (unfold SEQ_HDR; lia).
    destruct peek; injection E as <- <- <- <-; [done|].
    split; [|done]. rewrite <- Z.add_assoc. split; [by apply ring_ok_consume|done|by rewrite contents_consume by done].
Qed.

(** C15: An endpoint is a bounded queue.  Whatever it holds, read as bytes for a
    stream and as whole messages for SOCK_SEQPACKET, [usock_send] appends to
    it exactly as the queue does: as many bytes as fit, or the message whole,
    or EMSGSIZE or nothing.  [usock_recv] takes from its front: up to [n] bytes,
    or one message of which [n] bytes are seen and the rest dropped; it sleeps
    only on an empty queue whose sender is still there.  [usock_recv_flags]
    agrees with it, MSG_PEEK leaving the queue as it was and MSG_TRUNC giving
    the length of the whole message. *)
Theorem usock_refines_channel u ch n :
  Rep u ch -> 0 <= n ->
  (forall data pass u' r took woke, send_into u data pass = (u', r, took, woke) ->
     Rep u' (ch_send ch data).1 /\ r = (ch_send ch data).2 /\ frame_of u u' /\ fdq u' = fdq u ++ took) /\
  (forall block stop want u' out passed r woke, recv_from u n block stop want = (u', out, passed, r, woke) ->
     if decide (block = true /\ recv_waits u) then u' = u /\ r = if stop then Ret (-4) else Park
     else Rep u' (ch_recv ch n).1 /\ out = (ch_recv ch n).2 /\ r = Ret (Z.of_nat (length out)) /\ frame_of u u') /\
  (forall block stop flags u' out r consumed, flags_from u n block stop flags = (u', out, r, consumed) ->
     flat ch <> [] ->
     (if flag flags MSG_PEEK then u' = u else Rep u' (ch_recv ch n).1) /\
     out = (if flag flags MSG_TRUNC && negb (is_seq ch) then [] else (ch_recv ch n).2) /\
     r = Ret (if flag flags MSG_TRUNC then ch_trunc ch n else Z.of_nat (length (ch_recv ch n).2))).
Proof.
  intros HR Hn. split; [|split].
  - intros data pass u' r took woke E. destruct (send_rep _ _ _ _ _ _ _ _ HR E) as (? & ? & ? & ? & _). done.
  - intros block stop want u' out passed r woke E.
    destruct (recv_rep _ _ _ _ _ _ _ _ _ _ _ HR Hn E) as [(-> & Hw & -> & -> & -> & -> & _)|(Hw & H1 & H2 & H3 & H4 & _)].
    + by rewrite decide_True.
    + by rewrite decide_False.
  - intros block stop flags u' out r consumed E Hne. pose proof (flags_rep _ _ _ _ _ _ _ _ _ _ HR Hn E) as H.
    cbv zeta in H. destruct (Z.eqb_spec (count u) 0) as [Ez|_]; [|by destruct H as (? & ? & ? & _)].
    rewrite (rep_count _ _ HR) in Ez. unfold used in Ez. destruct (flat ch); [done|]. cbn in Ez. lia.
Qed.

(** A message socket that holds one message of three bytes, read two at a time. *)
Definition seq_end : usock := (send_into (set_seq (set_conn usock_zero 1 (Cred 1 0 0) (Cred 1 0 0))) [7; 8; 9] None).1.1.1.

Lemma seq_end_rep : Rep seq_end (Msgs [[7; 8; 9]]).
Proof. split; [split; vm_compute; intuition discriminate|reflexivity|vm_compute; reflexivity]. Qed.

Lemma usock_refines_channel_witness :
  Rep seq_end (Msgs [[7; 8; 9]]) /\ (recv_from seq_end 2 true false false).1.1.1.2 = [7; 8] /\
  Rep (recv_from seq_end 2 true false false).1.1.1.1 (Msgs []).
Proof.
  split; [exact seq_end_rep|].
  destruct (usock_refines_channel seq_end (Msgs [[7; 8; 9]]) 2 seq_end_rep ltac:(lia)) as (_ & H & _).
  destruct (recv_from seq_end 2 true false false) as [[[[u' out] passed] r] woke] eqn:E.
  specialize (H true false false u' out passed r woke E).
  rewrite decide_False in H by (intros [_ [Hc _]]; vm_compute in Hc; discriminate).
  destruct H as (H1 & H2 & _). split; [exact H2|exact H1].
Defined.

(** ** Sleepers are woken *)

(** An operation of the data path on a net, with the queues it wakes. *)
Inductive data_step (n : net) : net -> list waitq -> Prop :=
  | DSend s data pass n' r took w : usock_send n s data pass = Some (n', r, took, w) -> data_step n n' w
  | DWhole s data pass n' r took w : usock_send_whole n s data pass = Some (n', r, took, w) -> data_step n n' w
  | DRecv s len block stop want n' out passed r w : 0 <= len ->
      usock_recv n s len block stop want = Some (n', out, passed, r, w) -> data_step n n' w
  | DFlags s len block stop flags n' out r w : 0 <= len ->
      usock_recv_flags n s len block stop flags = Some (n', out, r, w) -> data_step n n' w
  | DShut s how n' r w : usock_shutdown n s how = Some (n', r, w) -> data_step n n' w.

(** Every endpoint holds a queue. *)
Definition all_rep (n : net) : Prop := forall s u, socks n !! s = Some u -> exists ch, Rep u ch.

Lemma send_peer_lookup n s q p : send_peer n s = Some (Some (q, p)) -> socks n !! q = Some p /\ eof p = false.
Proof.
  unfold send_peer. destruct (socks n !! s) as [u|]; [|done]. cbn. destruct (peer u) as [q'|]; [|done].
  destruct (wr_shut u); [done|]. destruct (socks n !! q') as [p'|] eqn:E; [|done]. cbn.
  destruct (eof p') eqn:Ee; [done|]. intros [= <- <-]. done.
Qed.

Lemma whole_quiet u data pass u' r took woke : whole_into u data pass = (u', r, took, woke) ->
  count u <= count u' /\ seqpacket u' = seqpacket u /\ (woke = false -> u' = u).
Proof.
  unfold whole_into. destruct (_ || _); [by intros [= <- <- <- <-]|].
  destruct pass; intros [= <- <- <- <-]; cbn; (split; [lia|done]).
Qed.

Lemma ch_send_grows ch data : used ch <= USOCK_BUF -> used ch <= used (ch_send ch data).1.
Proof.
  intros Hu. unfold ch_send. destruct ch as [l|m].
  - unfold used. cbn [flat fst]. rewrite length_app. lia.
  - destruct (_ <? _); [done|]. destruct (_ <? _); [done|]. unfold used. cbn [flat fst].
    rewrite fmap_app, concat_app, length_app. lia.
Qed.

Lemma ch_recv_empty ch n : used ch = 0 -> used (ch_recv ch n).1 = 0.
Proof.
  unfold used. destruct ch as [[|y l]|[|x m]]; cbn [ch_recv fst flat fmap list_fmap concat length]; [|done|done|].
  - by rewrite drop_nil.
  - unfold frame. rewrite !length_app, hdr_length. lia.
Qed.

(** A sleeping reader that a step leaves with nothing to return. *)
Lemma recv_waits_frame u u' : frame_of u u' -> count u' = count u -> fdq u' = fdq u -> recv_waits u -> recv_waits u'.
Proof. unfold frame_of, same_links, recv_waits. intros ((Hp & _) & He & _) -> -> ?. rewrite Hp, He. tauto. Qed.

Lemma recv_keeps_waiting u ch n block stop want u' out passed r woke : Rep u ch -> 0 <= n ->
  recv_from u n block stop want = (u', out, passed, r, woke) -> recv_waits u -> recv_waits u'.
Proof.
  intros HR Hn E Hw. destruct (recv_rep _ _ _ _ _ _ _ _ _ _ _ HR Hn E) as [(_ & _ & -> & _)|(_ & HR' & _ & _ & Hf & Hq & _)]; [done|].
  pose proof Hw as (Hc & Hq0 & _). rewrite Hq0 in Hq. apply (recv_waits_frame u); [done| |destruct passed; congruence|done].
  rewrite (rep_count _ _ HR'), Hc. apply ch_recv_empty. by rewrite <- (rep_count _ _ HR).
Qed.

(** The ring of [p] has no room for what a writer of [len] bytes brings. *)
Definition wr_waits (p : usock) (len : Z) : Prop :=
  if seqpacket p then USOCK_BUF - count p < len + SEQ_HDR else USOCK_BUF <= count p.

Lemma wr_waits_mono p p' len : seqpacket p' = seqpacket p -> count p <= count p' -> wr_waits p len -> wr_waits p' len.
Proof. unfold wr_waits. intros -> ?. case_match; lia. Qed.

(** What one step does to one endpoint: a reader that sleeps and a writer that
    found no room stay so, unless their queue is woken. *)
Definition quiet (w : list waitq) (s : nat) (u u' : usock) : Prop :=
  (Readers s ∈ w \/ (recv_waits u -> recv_waits u')) /\
  (Writers s ∈ w \/ forall len, wr_waits u len -> wr_waits u' len).

Lemma quiet_refl w s u : quiet w s u u.
Proof. split; by right. Qed.

Definition nquiet (w : list waitq) (n n' : net) : Prop :=
  forall q u, socks n !! q = Some u -> exists u', socks n' !! q = Some u' /\ quiet w q u u'.

Lemma nquiet_refl w n : nquiet w n n.
Proof. intros q u Hq. exists u. split; [done|]. split; by right. Qed.

Lemma nquiet_trans w n1 n2 n3 : nquiet w n1 n2 -> nquiet w n2 n3 -> nquiet w n1 n3.
Proof.
  intros H1 H2 q u Hq. destruct (H1 q u Hq) as (v & Hv & [HR1 HW1]). destruct (H2 q v Hv) as (x & Hx & [HR2 HW2]).
  exists x. split; [done|]. split; [destruct HR1, HR2|destruct HW1, HW2]; auto.
Qed.

Lemma nquiet_put w n s v v' : socks n !! s = Some v -> quiet w s v v' -> nquiet w n (put s v' n).
Proof.
  intros Hs Hv q u Hq. cbn. destruct (decide (s = q)) as [<-|Hne].
  - rewrite lookup_insert_eq. exists v'. by replace u with v by congruence.
  - rewrite lookup_insert_ne by done. exists u. split; [done|]. split; by right.
Qed.

(** A send: the peer is the only endpoint written. *)
Lemma send_quiet n s data pass n' r took w : all_rep n -> usock_send n s data pass = Some (n', r, took, w) -> nquiet w n n'.
Proof.
  intros Hall. unfold usock_send. destruct (send_peer n s) as [[[t p]|]|] eqn:Ep; cbn; [| |done].
  2: { intros [= <- _ _ <-]. apply nquiet_refl. }
  destruct (send_into p data pass) as [[[p' r'] tk] woke] eqn:Es. intros [= <- _ _ <-].
  apply send_peer_lookup in Ep as [Ep _]. apply (nquiet_put _ _ _ _ _ Ep).
  destruct (Hall _ _ Ep) as [ch HR]. destruct (send_rep _ _ _ _ _ _ _ _ HR Es) as (HR' & _ & Hf & Hqq & Hq0).
  pose proof (rep_count _ _ HR) as Hc. pose proof HR as [[_ Hb] _ _]. split.
  - destruct woke; [left; by left|right]. destruct (Hq0 eq_refl) as [Hcc ->]. rewrite app_nil_r in Hqq.
    apply recv_waits_frame; [done| |done]. pose proof (f_equal length Hcc) as Hl. unfold contents in Hl.
    rewrite !ring_get_length in Hl. pose proof HR' as [[_ ?] _ _]. lia.
  - right. intros len. apply wr_waits_mono; [by destruct Hf as ((_ & _ & _ & _ & _ & ? & _) & _)|].
    rewrite (rep_count _ _ HR'), Hc. apply ch_send_grows. lia.
Qed.

Lemma whole_step_quiet n s data pass n' r took w : usock_send_whole n s data pass = Some (n', r, took, w) -> nquiet w n n'.
Proof.
  unfold usock_send_whole. destruct (send_peer n s) as [[[t p]|]|] eqn:Ep; cbn; [| |done].
  2: { intros [= <- _ _ <-]. apply nquiet_refl. }
  destruct (whole_into p data pass) as [[[p' r'] tk] woke] eqn:Es. intros [= <- _ _ <-].
  apply send_peer_lookup in Ep as [Ep _]. apply (nquiet_put _ _ _ _ _ Ep).
  destruct (whole_quiet _ _ _ _ _ _ _ Es) as (Hc & Hs & Hn). split.
  - destruct woke; [left; by left|right]. by rewrite Hn.
  - right. intros len. by apply wr_waits_mono.
Qed.

Lemma recv_quiet n s len block stop want n' out passed r w : all_rep n -> 0 <= len ->
  usock_recv n s len block stop want = Some (n', out, passed, r, w) -> nquiet w n n'.
Proof.
  intros Hall Hl. unfold usock_recv. destruct (socks n !! s) as [v|] eqn:Ev; [cbn|done].
  destruct (recv_from v len block stop want) as [[[[v' o] ps] r'] woke] eqn:Er. intros [= <- _ _ _ <-].
  apply (nquiet_put _ _ _ _ _ Ev). destruct (Hall _ _ Ev) as [ch HR]. split.
  - right. by apply (recv_keeps_waiting _ _ _ _ _ _ _ _ _ _ _ HR Hl Er).
  - destruct woke; [left; by left|right]. intros len'.
    destruct (recv_rep _ _ _ _ _ _ _ _ _ _ _ HR Hl Er) as [(_ & _ & -> & _)|(_ & _ & _ & _ & Hf & _ & _ & Hc)]; [done|].
    apply wr_waits_mono; [by destruct Hf as ((_ & _ & _ & _ & _ & ? & _) & _)|]. rewrite Hc by done. lia.
Qed.

Lemma flags_quiet n s len block stop flags n' out r w : all_rep n -> 0 <= len ->
  usock_recv_flags n s len block stop flags = Some (n', out, r, w) -> nquiet w n n'.
Proof.
  intros Hall Hl. unfold usock_recv_flags. destruct (socks n !! s) as [v|] eqn:Ev; [cbn|done].
  destruct (flags_from v len block stop flags) as [[[v' o] r'] consumed] eqn:Er. intros [= <- _ _ <-].
  apply (nquiet_put _ _ _ _ _ Ev). destruct (Hall _ _ Ev) as [ch HR].
  pose proof (flags_rep _ _ _ _ _ _ _ _ _ _ HR Hl Er) as H. cbv zeta in H.
  destruct (Z.eqb_spec (count v) 0) as [Ez|Hnz]; [destruct H as (-> & _); split; by right|].
  destruct H as (_ & _ & _ & Hf & _ & Hc). split; [right; intros [? _]; lia|].
  destruct consumed; [left; by left|right]. intros len'.
  apply wr_waits_mono; [by destruct Hf as ((_ & _ & _ & _ & _ & ? & _) & _)|]. rewrite Hc by done. lia.
Qed.

Lemma nquiet_eof w n s v : socks n !! s = Some v -> Readers s ∈ w -> nquiet w n (put s (set_eof v) n).
Proof. intros Hs Hw. apply (nquiet_put _ _ _ _ _ Hs). split; [by left|right; done]. Qed.

Lemma shutdown_quiet n s how n' r w : usock_shutdown n s how = Some (n', r, w) -> nquiet w n n'.
Proof.
  unfold usock_shutdown. destruct (socks n !! s) as [v|] eqn:Ev; [cbn|done].
  destruct (_ && _); [intros [= <- _ <-]; apply nquiet_refl|].
  set (n1 := (if (how =? 0) || (how =? 2) then (put s (set_eof v) n, [Readers s]) else (n, [])).1).
  set (w1 := (if (how =? 0) || (how =? 2) then (put s (set_eof v) n, [Readers s]) else (n, [])).2).
  assert (forall w', nquiet (w1 ++ w') n n1) as H1.
  { intros w'. unfold n1, w1. destruct (_ || _); [apply nquiet_eof; [done|set_solver]|apply nquiet_refl]. }
  replace (if (how =? 0) || (how =? 2) then _ else _) with (n1, w1) by (unfold n1, w1; by destruct (_ || _)).
  cbv beta iota zeta. clearbody n1 w1. destruct (_ || _); [|intros [= <- Hr <-]; specialize (H1 []); by rewrite app_nil_r in H1].
  destruct (socks n1 !! s) as [u1|] eqn:Eu; [cbn|done].
  assert (forall w', nquiet (w1 ++ w') n (put s (set_wr_shut u1) n1)) as H2.
  { intros w'. eapply nquiet_trans; [apply H1|]. apply (nquiet_put _ _ _ _ _ Eu). split; by right. }
  destruct (peer v) as [q|]; [|intros [= <- _ <-]; apply H2].
  destruct (<[s:=set_wr_shut u1]> (socks n1) !! q) as [p|] eqn:Ep; [cbn|done]. intros [= <- _ <-].
  eapply nquiet_trans; [apply H2|]. apply nquiet_eof; [done|set_solver].
Qed.

(** C23: A sleeper is woken by whatever ends its wait.  Take any operation of
    the data path, on any endpoint of a store whose rings are well formed: an
    endpoint whose reader had to sleep either has its readers woken or still
    has nothing to return; an endpoint whose ring had no room for a writer
    either has its writers woken or still has none. *)
Theorem usock_wakes_sleepers n n' w s u : all_rep n -> data_step n n' w -> socks n !! s = Some u ->
  exists u', socks n' !! s = Some u' /\
    (Readers s ∈ w \/ (recv_waits u -> recv_waits u')) /\
    (Writers s ∈ w \/ forall len, wr_waits u len -> wr_waits u' len).
Proof.
  intros Hall Hst. assert (nquiet w n n') as H; [|by apply H].
  destruct Hst; eauto using send_quiet, whole_step_quiet, recv_quiet, flags_quiet, shutdown_quiet.
Qed.

(** A connected pair, and the same with the second end's ring full. *)
Definition me : ucred := Cred 1 0 0.
Definition pair_net : net := (usock_pair me (Some 0%nat) (Some 1%nat) (Net ∅ [])).1.
Definition full_end (seq : bool) : usock :=
  let u := set_ring (set_conn usock_zero 0 me me) (fun _ => 1) 0 USOCK_BUF in if seq then set_seq u else u.
Definition full_net (seq : bool) : net := put 1 (full_end seq) pair_net.

Lemma empty_rep u : count u = 0 -> head u = 0 -> exists ch, Rep u ch.
Proof.
  intros Hc Hh. exists (if seqpacket u then Msgs [] else Bytes []).
  split; [split; unfold USOCK_BUF; lia|by destruct (seqpacket u)|]. unfold contents. rewrite Hc. by destruct (seqpacket u).
Qed.

Lemma pair_net_rep : all_rep pair_net.
Proof.
  intros s u. cbn. intros Hs. apply lookup_insert_Some in Hs as [[_ <-]|[_ Hs]]; [by apply empty_rep|].
  apply lookup_insert_Some in Hs as [[_ <-]|[_ Hs]]; [by apply empty_rep|]. by rewrite lookup_empty in Hs.
Qed.

(** A byte sent on one end of a fresh pair wakes the reader of the other. *)
Lemma usock_wakes_sleepers_witness :
  recv_waits (set_conn usock_zero 0 me me) /\
  exists n' w u', data_step pair_net n' w /\ socks n' !! 1%nat = Some u' /\ Readers 1 ∈ w /\
    (Readers 1 ∈ w \/ (recv_waits (set_conn usock_zero 0 me me) -> recv_waits u')) /\ ~ recv_waits u'.
Proof.
  split; [by repeat split; eexists|].
  destruct (usock_send pair_net 0 [5] None) as [[[[n' r] took] w]|] eqn:E; [|discriminate].
  destruct (usock_wakes_sleepers pair_net n' w 1 (set_conn usock_zero 0 me me) pair_net_rep
              (DSend _ _ _ _ _ _ _ _ E) eq_refl) as (u' & Hu & Hr & _).
  exists n', w, u'. split; [by eapply DSend|]. split; [done|]. vm_compute in E. injection E as <- _ _ <-.
  split; [by left|]. split; [done|]. vm_compute in Hu. injection Hu as <-. intros [Hc _]. discriminate Hc.
Defined.

(** A shutdown strands a blocked writer.  A writer asleep for room waits on
    the other endpoint's [writers].  When its own side is shut down for
    writing, or the other for reading, the write could return EPIPE; but
    [usock_shutdown] wakes only the endpoints' readers and, for SHUT_WR, the
    writers of the wrong end, so the sleeper is not told. *)
Theorem shutdown_strands_writer :
  (exists n1 n2 w2, usock_write (full_net false) 0 [9] true false = Some (n1, WPark 1, []) /\
     usock_shutdown n1 0 1 = Some (n2, 0, w2) /\ Writers 1 ∉ w2 /\
     exists n3, usock_write n2 0 [9] true false = Some (n3, WRet (-32), [])) /\
  (exists n1 n2 w2, usock_write (full_net false) 0 [9] true false = Some (n1, WPark 1, []) /\
     usock_shutdown n1 1 0 = Some (n2, 0, w2) /\ Writers 1 ∉ w2 /\
     exists n3, usock_write n2 0 [9] true false = Some (n3, WRet (-32), [])).
Proof.
  split; do 3 eexists; (split; [reflexivity|]); (split; [reflexivity|]); (split; [set_solver|]); eexists; reflexivity.
Qed.

(** A descriptor that finds the queue full is dropped while the bytes are
    reported sent; and on a full stream it travels although nothing was sent,
    so a sender that retries passes it twice. *)
Lemma passed_fd_dropped :
  let p := set_fdq (set_conn usock_zero 0 me me) (replicate 8 3%nat) in
  (send_into p [5] (Some 4%nat)).1.1.2 = 1 /\ (send_into p [5] (Some 4%nat)).1.2 = [] /\
  (send_into (full_end false) [5] (Some 4%nat)).1.1.2 = 0 /\ (send_into (full_end false) [5] (Some 4%nat)).1.2 = [4%nat].
Proof. by vm_compute. Qed.

(** An empty message that found no room is reported as sent. *)
Lemma empty_message_lost : exists n', usock_write (full_net true) 0 [] true false = Some (n', WRet 0, []) /\
  contents <$> (socks n' !! 1%nat) = Some (contents (full_end true)).
Proof. eexists. split; reflexivity. Qed.

(** Receiving before a connection is end of file, not ENOTCONN. *)
Lemma recv_unconnected : (recv_from (usock_new me) 10 true false true).1.2 = Ret 0 /\
  (flags_from (usock_new me) 10 true false 0).1.2 = Ret 0.
Proof. by vm_compute. Qed.

(** The listener [usock_connect] found may be gone when it is used: nothing
    holds it between the two critical sections. *)
Lemma connect_uses_closed_listener :
  let l := set_listen (set_path (usock_new me) [47; 97]) 1 me in
  let n := Net {[ 0%nat := usock_new me; 1%nat := l ]} [Some ([47; 97], 1%nat)] in
  connect_find n 0 [47; 97] = Some (inr 1%nat) /\
  connect_queue (Net (delete 1%nat (socks n)) (reg_remove 1 (reg n))) 0 1 me (Some 2%nat) = None.
Proof. by vm_compute. Qed.

End UsockSpec.
