(* ===== verification/FdTable.v ===== *)
(** * Descriptor tables and open descriptions (kernel/core/fd.c, usyscall.c, usock.c)

    A descriptor is a slot of a task's table, the table one it owns or one the
    threads of a process share; a slot refers to an open description
    ([ofile]), counted, and the last reference closes what is behind it.  A
    description can also be on its way through a unix socket, so closing a
    socket drops references and closing descriptions closes sockets: the two
    functions are mutually recursive, here with fuel.

    Following a pointer to an object that is gone has no result ([None]), and
    so has running out of fuel; FdTableSpec.v shows that neither happens.  An
    allocation's address is an argument, [None] when there is no memory.  The
    objects behind other descriptions than sockets have their own files; here
    releasing one is an entry of the log [released].  The table locks make
    each operation below one step. *)

From stdpp Require Import base gmap list.
From Stdlib Require Import ZArith Lia Bool.
From S2P Require Import Prelude Usock.
Open Scope Z_scope.

Module FdTable.
Import Usock.

Definition TASK_MAX_FDS : nat := 32.

Inductive fd_kind :=
  | FD_VFS | FD_SHM | FD_SOCK | FD_NETSOCK | FD_TIMER | FD_EPOLL | FD_CONSOLE | FD_EVENT
  | FD_NETLINK | FD_FIFO | FD_BPF.

#[export] Instance fd_kind_eq_dec : EqDecision fd_kind.
Proof. solve_decision. Defined.

(** [res]: the object behind the description ([file], [shm], [sock], ...). *)
Record ofile := OFile { kind : fd_kind; refcount : Z; res : nat; nonblock : bool }.

(** The descriptions, the sockets, and the log of descriptions released. *)
Record core := Core { ofiles : gmap nat ofile; nt : net; released : list (fd_kind * nat) }.

Definition set_ref (f : ofile) (r : Z) : ofile := OFile (kind f) r (res f) (nonblock f).
Definition put_ofile (o : nat) (f : ofile) (c : core) : core := Core (<[o := f]> (ofiles c)) (nt c) (released c).
Definition set_net (n : net) (c : core) : core := Core (ofiles c) n (released c).
Definition put_sock (s : nat) (u : usock) (c : core) : core := set_net (put s u (nt c)) c.

(** ** Descriptions *)

(** [ofile_alloc] and the [ofile_from_*] wrappers. *)
Definition ofile_alloc (k : fd_kind) (obj : nat) (nb : bool) (aa : option nat) (c : core) : core * option nat :=
  match aa with
  | None => (c, None)
  | Some a => (put_ofile a (OFile k 1 obj nb) c, Some a)
  end.

Definition ofile_ref (o : nat) (c : core) : option core :=
  f ← ofiles c !! o; Some (put_ofile o (set_ref f (refcount f + 1)) c).

Fixpoint foldM {A : Type} (f : A -> core -> option core) (l : list A) (c : core) : option core :=
  match l with [] => Some c | x :: l' => c' ← f x c; foldM f l' c' end.

Fixpoint ofile_unref (fuel : nat) (o : nat) (c : core) {struct fuel} : option core :=
  match fuel with
  | O => None
  | S fuel' =>
      f ← ofiles c !! o;
      let left := refcount f - 1 in
      let c1 := put_ofile o (set_ref f left) c in
      if 0 <? left then Some c1
      else if left <? 0 then Some c1
      else
        c2 ← match kind f with FD_SOCK => usock_close fuel' (res f) c1 | _ => Some c1 end;
        Some (Core (delete o (ofiles c2)) (nt c2) ((kind f, res f) :: released c2))
  end
with usock_close (fuel : nat) (s : nat) (c : core) {struct fuel} : option core :=
  match fuel with
  | O => None
  | S fuel' =>
      u ← socks (nt c) !! s;
      let c1 := if bool_decide (path u <> []) || listening u
                then set_net (Net (socks (nt c)) (reg_remove s (reg (nt c)))) c else c in
      c2 ← foldM (usock_close fuel') (accq u) c1;
      u2 ← socks (nt c2) !! s;
      let c3 := put_sock s (set_accq u2 []) c2 in
      c4 ← match peer u2 with
           | None => Some c3
           | Some p => v ← socks (nt c3) !! p; Some (put_sock p (set_peer v None) c3)
           end;
      u4 ← socks (nt c4) !! s;
      c5 ← foldM (ofile_unref fuel') (fdq u4) c4;
      Some (set_net (Net (delete s (socks (nt c5))) (reg (nt c5))) c5)
  end.

(** The recursion releases one description per three levels. *)
Definition deep (c : core) : nat := 3 * size (ofiles c) + 3.
Definition unref (o : nat) (c : core) : option core := ofile_unref (deep c) o c.
Definition close_sock (s : nat) (c : core) : option core := usock_close (deep c) s c.

(** ** Tables *)

Record fdtable := FdTab { refs : Z; fd : list (option nat); cloexec : Z }.

(** [fds] of a task is [fdt->fd] when it has a shared table, else [fds_inline]. *)
Record task := Task { fds_inline : list (option nat); fdt : option nat; fd_cloexec_inline : Z; user_task : bool }.

(** What a new task is started with: the copy of a fork, the table of a clone. *)
Inductive boot := BFork (fds : list (option nat)) (cx : Z) | BClone (ft : nat).

Record kstate := K {
  kc : core; tables : gmap nat fdtable; tasks : gmap nat task; boots : gmap nat boot
}.

Definition set_core (c : core) (st : kstate) : kstate := K c (tables st) (tasks st) (boots st).

(** The slots and the close-on-exec mask a task uses ([t->fds], [fd_cx(t)]). *)
Definition tab_of (st : kstate) (t : nat) : option (list (option nat) * Z) :=
  tk ← tasks st !! t;
  match fdt tk with
  | None => Some (fds_inline tk, fd_cloexec_inline tk)
  | Some ft => tb ← tables st !! ft; Some (fd tb, cloexec tb)
  end.

Definition set_tab (st : kstate) (t : nat) (l : list (option nat)) (cx : Z) : option kstate :=
  tk ← tasks st !! t;
  match fdt tk with
  | None => Some (K (kc st) (tables st) (<[t := Task l None cx (user_task tk)]> (tasks st)) (boots st))
  | Some ft => tb ← tables st !! ft;
      Some (K (kc st) (<[ft := FdTab (refs tb) l cx]> (tables st)) (tasks st) (boots st))
  end.

Definition in_range (fd : Z) : bool := (0 <=? fd) && (fd <? Z.of_nat TASK_MAX_FDS).
Definition std (fd : Z) : bool := (0 <=? fd) && (fd <=? 2).

(** [*fd_cx(t) &= ~(1u << fd)], [|= 1u << fd], [(... >> fd) & 1] *)
Definition cx_clear (cx fd : Z) : Z := Z.ldiff cx (Z.shiftl 1 fd).
Definition cx_set (cx fd : Z) : Z := Z.lor cx (Z.shiftl 1 fd).
Definition cx_get (cx fd : Z) : Z := Z.land (Z.shiftr cx fd) 1.

Definition slot (l : list (option nat)) (fd : Z) : option nat :=
  if in_range fd then mjoin (l !! Z.to_nat fd) else None.

Definition fd_lookup (st : kstate) (t : nat) (fd : Z) : option (option nat) :=
  '(l, _) ← tab_of st t; Some (slot l fd).

(** [for (fd = min; fd < TASK_MAX_FDS; fd++) if (!t->fds[fd]) ...] *)
Fixpoint find_free (l : list (option nat)) (i min : nat) : option nat :=
  match l with
  | [] => None
  | x :: l' => if (min <=? i)%nat && bool_decide (x = None) then Some i else find_free l' (S i) min
  end.

Definition install_from (st : kstate) (t : nat) (o : nat) (min : nat) : option (kstate * Z) :=
  '(l, cx) ← tab_of st t;
  match find_free l 0 min with
  | None => Some (st, -1)
  | Some i => st' ← set_tab st t (<[i := Some o]> l) (cx_clear cx (Z.of_nat i)); Some (st', Z.of_nat i)
  end.

Definition fd_install (st : kstate) (t : nat) (o : nat) : option (kstate * Z) := install_from st t o 3.

Definition run (f : core -> option core) (st : kstate) : option kstate :=
  c ← f (kc st); Some (set_core c st).

(** [fd = fd_install(o); if (fd < 0) { ofile_unref(o); return err; } return fd;] *)
Definition install_or (st : kstate) (t : nat) (o : nat) (err : Z) : option (kstate * Z) :=
  '(st1, i) ← fd_install st t o;
  if i <? 0 then st2 ← run (unref o) st1; Some (st2, err) else Some (st1, i).

(** A call that creates an object and its description ([sys_memfd],
    [sys_timerfd_create], ...): [obj] the object, [aa] the description's address. *)
Definition sys_open_obj (st : kstate) (t : nat) (k : fd_kind) (obj : nat) (aa : option nat) (err : Z)
    : option (kstate * Z) :=
  let '(c, o) := ofile_alloc k obj false aa (kc st) in
  match o with
  | None => Some (st, -1)
  | Some a => install_or (set_core c st) t a err
  end.

(** The locked half of [sys_close]: [o] is what the lookup found. *)
Definition close_slot (st : kstate) (t : nat) (fd : Z) (o : nat) : option (kstate * Z) :=
  '(l, cx) ← tab_of st t;
  if bool_decide (slot l fd <> Some o) then Some (st, -1)
  else
    st1 ← set_tab st t (<[Z.to_nat fd := None]> l) (cx_clear cx fd);
    st2 ← run (unref o) st1;
    Some (st2, 0).

Definition sys_close (st : kstate) (t : nat) (fd : Z) : option (kstate * Z) :=
  f ← fd_lookup st t fd;
  match f with
  | None => Some (st, if std fd then 0 else -1)
  | Some o => close_slot st t fd o
  end.

(** [fd_dup_source]: the description to duplicate and whether it is fresh. *)
Definition fd_dup_source (st : kstate) (t : nat) (fd : Z) (aa : option nat) : option (kstate * option (nat * bool)) :=
  f ← fd_lookup st t fd;
  match f with
  | Some o => Some (st, Some (o, false))
  | None =>
      if std fd then
        let '(c, o) := ofile_alloc FD_CONSOLE 0 false aa (kc st) in
        Some (set_core c st, (fun a => (a, true)) <$> o)
      else Some (st, None)
  end.

Definition take_ref (fresh : bool) (o : nat) (st : kstate) : option kstate :=
  if fresh then Some st else run (ofile_ref o) st.

(** The part of [sys_dup2] after the source was found. *)
Definition dup2_install (st : kstate) (t : nat) (o : nat) (fresh : bool) (newfd : Z) : option (kstate * Z) :=
  if negb (in_range newfd) then
    if fresh then st1 ← run (unref o) st; Some (st1, -1) else Some (st, -1)
  else
    st1 ← take_ref fresh o st;
    '(l, cx) ← tab_of st1 t;
    st2 ← set_tab st1 t (<[Z.to_nat newfd := Some o]> l) (cx_clear cx newfd);
    st3 ← match slot l newfd with Some old => run (unref old) st2 | None => Some st2 end;
    Some (st3, newfd).

Definition sys_dup2 (st : kstate) (t : nat) (oldfd newfd : Z) (aa : option nat) : option (kstate * Z) :=
  if oldfd =? newfd then
    f ← fd_lookup st t oldfd;
    Some (st, if bool_decide (is_Some f) || std oldfd then newfd else -1)
  else
    '(st1, src) ← fd_dup_source st t oldfd aa;
    match src with
    | None => Some (st1, -1)
    | Some (o, fresh) => dup2_install st1 t o fresh newfd
    end.

Definition sys_dupfd (st : kstate) (t : nat) (fd minfd : Z) (aa : option nat) : option (kstate * Z) :=
  '(st1, src) ← fd_dup_source st t fd aa;
  match src with
  | None => Some (st1, -1)
  | Some (o, fresh) =>
      st2 ← take_ref fresh o st1;
      '(st3, i) ← install_from st2 t o (Z.to_nat (Z.max minfd 3));
      if i <? 0 then st4 ← run (unref o) st3; Some (st4, -1) else Some (st3, i)
  end.

(** ** Close-on-exec *)

(** An empty 0, 1 or 2 is the console, a valid descriptor. *)
Definition fd_open (l : list (option nat)) (fd : Z) : bool := bool_decide (is_Some (slot l fd)) || (fd <=? 2).

Definition fd_set_cloexec (st : kstate) (t : nat) (fd : Z) (on : bool) : option (kstate * Z) :=
  if negb (in_range fd) then Some (st, -1)
  else
    '(l, cx) ← tab_of st t;
    if fd_open l fd then
      st' ← set_tab st t l (if on then cx_set cx fd else cx_clear cx fd); Some (st', 0)
    else Some (st, -1).

Definition fd_get_cloexec (st : kstate) (t : nat) (fd : Z) : option Z :=
  if negb (in_range fd) then Some (-1)
  else '(l, cx) ← tab_of st t; Some (if fd_open l fd then cx_get cx fd else -1).

(** The loop of [fd_close_on_exec]: the slots kept and the descriptions taken out. *)
Fixpoint exec_split (l : list (option nat)) (m : Z) (i : Z) : list (option nat) * list nat :=
  match l with
  | [] => ([], [])
  | x :: l' =>
      let '(k, g) := exec_split l' m (i + 1) in
      if Z.land m (Z.shiftl 1 i) =? 0 then (x :: k, g)
      else (None :: k, match x with Some o => o :: g | None => g end)
  end.

Definition fd_close_on_exec (st : kstate) (t : nat) : option kstate :=
  '(l, m) ← tab_of st t;
  let '(k, gone) := exec_split l m 0 in
  st1 ← set_tab st t k 0;
  run (foldM unref gone) st1.

(** [fd_nth_open]: the [n]-th descriptor that is open, for /proc. *)
Fixpoint nth_open (l : list (option nat)) (i n : Z) : Z :=
  match l with
  | [] => -1
  | x :: l' =>
      if (i <=? 2) || bool_decide (is_Some x) then if n =? 0 then i else nth_open l' (i + 1) (n - 1)
      else nth_open l' (i + 1) n
  end.

Definition fd_nth_open (st : kstate) (t : nat) (n : Z) : option Z :=
  if n <? 0 then Some (-1) else '(l, _) ← tab_of st t; Some (nth_open l 0 n).

(** ** Sharing and copying tables *)

Definition empty_slots : list (option nat) := replicate TASK_MAX_FDS None.

(** [fdtable_share]: [aa] the new table's address. *)
Definition fdtable_share (st : kstate) (t : nat) (aa : option nat) : option (kstate * option nat) :=
  tk ← tasks st !! t;
  match fdt tk with
  | Some ft =>
      tb ← tables st !! ft;
      Some (K (kc st) (<[ft := FdTab (refs tb + 1) (fd tb) (cloexec tb)]> (tables st)) (tasks st) (boots st), Some ft)
  | None =>
      match aa with
      | None => Some (st, None)
      | Some ft =>
          Some (K (kc st) (<[ft := FdTab 2 (fds_inline tk) (fd_cloexec_inline tk)]> (tables st))
                  (<[t := Task empty_slots (Some ft) 0 (user_task tk)]> (tasks st)) (boots st), Some ft)
      end
  end.

(** The descriptions of a list of slots, in order. *)
Definition held (l : list (option nat)) : list nat := omap id l.

Definition fdtable_put (st : kstate) (ft : nat) : option kstate :=
  tb ← tables st !! ft;
  let r := refs tb - 1 in
  if negb (r =? 0) then
    Some (K (kc st) (<[ft := FdTab r (fd tb) (cloexec tb)]> (tables st)) (tasks st) (boots st))
  else
    c ← foldM unref (held (fd tb)) (kc st);
    Some (K c (delete ft (tables st)) (tasks st) (boots st)).

(** The table part of [proc_clone]: [b] the address of the new thread's boot
    record, [spawned] whether the task could be created. *)
Definition proc_clone (st : kstate) (t b : nat) (aa : option nat) (spawned : bool) : option (kstate * bool) :=
  '(st1, f) ← fdtable_share st t aa;
  match f with
  | None => Some (st1, false)
  | Some ft =>
      if spawned then Some (K (kc st1) (tables st1) (tasks st1) (<[b := BClone ft]> (boots st1)), true)
      else st2 ← fdtable_put st1 ft; Some (st2, false)
  end.

(** [clone_bootstrap]: the thread [t] starts and adopts the table. *)
Definition clone_bootstrap (st : kstate) (t b : nat) : option kstate :=
  x ← boots st !! b;
  match x with
  | BClone ft => Some (K (kc st) (tables st) (<[t := Task empty_slots (Some ft) 0 true]> (tasks st)) (delete b (boots st)))
  | BFork _ _ => None
  end.

(** [fd_snapshot_for_fork]: a reference on every description of the table. *)
Definition fd_snapshot_for_fork (st : kstate) (t : nat) : option (kstate * list (option nat) * Z) :=
  '(l, cx) ← tab_of st t;
  st1 ← run (foldM ofile_ref (held l)) st;
  Some (st1, l, cx).

(** The descriptor part of [proc_fork]. *)
Definition proc_fork (st : kstate) (t b : nat) (spawned : bool) : option (kstate * bool) :=
  '(st1, l, cx) ← fd_snapshot_for_fork st t;
  if spawned then Some (K (kc st1) (tables st1) (tasks st1) (<[b := BFork l cx]> (boots st1)), true)
  else st2 ← run (foldM unref (held l)) st1; Some (st2, false).

Definition fork_child_bootstrap (st : kstate) (t b : nat) : option kstate :=
  x ← boots st !! b;
  match x with
  | BFork l cx => Some (K (kc st) (tables st) (<[t := Task l None cx true]> (tasks st)) (delete b (boots st)))
  | BClone _ => None
  end.

Definition fd_unshare_table (st : kstate) (t : nat) : option kstate :=
  tk ← tasks st !! t;
  match fdt tk with
  | None => Some st
  | Some ft =>
      '(st1, l, cx) ← fd_snapshot_for_fork st t;
      fdtable_put (K (kc st1) (tables st1) (<[t := Task l None cx (user_task tk)]> (tasks st1)) (boots st1)) ft
  end.

Definition fd_close_all (st : kstate) (t : nat) : option kstate :=
  tk ← tasks st !! t;
  match fdt tk with
  | Some ft =>
      fdtable_put (K (kc st) (tables st) (<[t := Task (fds_inline tk) None 0 (user_task tk)]> (tasks st)) (boots st)) ft
  | None =>
      let k := if user_task tk then 0%nat else 3%nat in
      c ← foldM unref (held (drop k (fds_inline tk))) (kc st);
      Some (K c (tables st)
              (<[t := Task (take k (fds_inline tk) ++ replicate (length (fds_inline tk) - k) None) None 0 (user_task tk)]> (tasks st))
              (boots st))
  end.

(** ** Unix sockets behind descriptors *)

(** [ofile_from_sock] then [fd_install]; on failure the socket goes. *)
Definition install_sock (st : kstate) (t s : nat) (nb : bool) (aa : option nat) : option (kstate * Z) :=
  let '(c, o) := ofile_alloc FD_SOCK s nb aa (kc st) in
  match o with
  | None => st' ← run (close_sock s) st; Some (st', -12)
  | Some a => install_or (set_core c st) t a (-24)
  end.

Definition sys_unix_socket (st : kstate) (t : nat) (nb : bool) (me : ucred) (sa oa : option nat) : option (kstate * Z) :=
  match sa with
  | None => Some (st, -12)
  | Some s => install_sock (set_core (put_sock s (usock_new me) (kc st)) st) t s nb oa
  end.

(** [unix_of], with the description's O_NONBLOCK. *)
Definition unix_of (st : kstate) (t : nat) (fd : Z) : option (option (nat * bool)) :=
  f ← fd_lookup st t fd;
  match f with
  | None => Some None
  | Some o => g ← ofiles (kc st) !! o;
      Some (match kind g with FD_SOCK => Some (res g, nonblock g) | _ => None end)
  end.

Definition on_net (st : kstate) (n : net) : kstate := set_core (set_net n (kc st)) st.

Definition sys_unix_bind (st : kstate) (t : nat) (fd : Z) (name : list Z) (stat_ok opened : bool) : option (kstate * Z) :=
  u ← unix_of st t fd;
  match u with
  | None => Some (st, -88)
  | Some (s, _) => '(n, r) ← usock_bind (nt (kc st)) s name stat_ok opened; Some (on_net st n, r)
  end.

Definition sys_unix_listen (st : kstate) (t : nat) (fd bl : Z) (me : ucred) : option (kstate * Z) :=
  u ← unix_of st t fd;
  match u with
  | None => Some (st, -88)
  | Some (s, _) => '(n, r) ← usock_listen (nt (kc st)) s bl me; Some (on_net st n, r)
  end.

Definition sys_unix_connect (st : kstate) (t : nat) (fd : Z) (name : list Z) (me : ucred) (sa : option nat)
    : option (kstate * Z) :=
  u ← unix_of st t fd;
  match u with
  | None => Some (st, -88)
  | Some (s, _) => '(n, r, _) ← usock_connect (nt (kc st)) s name me sa; Some (on_net st n, r)
  end.

(** [None] as the result: the call sleeps for a connection. *)
Definition sys_unix_accept (st : kstate) (t : nat) (fd : Z) (nb stop : bool) (oa : option nat)
    : option (kstate * option Z) :=
  u ← unix_of st t fd;
  match u with
  | None => Some (st, Some (-88))
  | Some (l, lnb) =>
      '(n, a, r) ← usock_accept (nt (kc st)) l (negb lnb) stop;
      match a, r with
      | Some s, _ => '(st1, i) ← install_sock (on_net st n) t s nb oa; Some (st1, Some i)
      | None, Ret e => Some (on_net st n, Some e)
      | None, Park => Some (on_net st n, None)
      end
  end.

Definition sys_socketpair (st : kstate) (t : nat) (seq : bool) (me : ucred) (sa sb oa ob : option nat)
    : option (kstate * option (Z * Z)) :=
  let '(n, p) := usock_pair me sa sb (nt (kc st)) in
  match p with
  | None => Some (st, None)
  | Some (a, b) =>
      let n := if seq then usock_set_seqpacket a b n else n in
      let '(c1, o1) := ofile_alloc FD_SOCK a false oa (set_net n (kc st)) in
      let '(c2, o2) := ofile_alloc FD_SOCK b false ob c1 in
      match o1, o2 with
      | Some x, Some y =>
          '(st1, i) ← fd_install (set_core c2 st) t x;
          '(st2, j) ← fd_install st1 t y;
          if (i <? 0) || (j <? 0) then
            '(st3, _) ← (if i <? 0 then st' ← run (unref x) st2; Some (st', 0) else sys_close st2 t i);
            '(st4, _) ← (if j <? 0 then st' ← run (unref y) st3; Some (st', 0) else sys_close st3 t j);
            Some (st4, None)
          else Some (st2, Some (i, j))
      | _, _ =>
          c3 ← match o1 with Some x => unref x c2 | None => close_sock a c2 end;
          c4 ← match o2 with Some y => unref y c3 | None => close_sock b c3 end;
          Some (set_core c4 st, None)
      end
  end.

(** The references [usock_send] took on the passed description. *)
Definition sys_send (st : kstate) (t : nat) (fd : Z) (data : list Z) (passfd : Z) : option (kstate * Z) :=
  u ← unix_of st t fd;
  match u with
  | None => Some (st, -1)
  | Some (s, _) =>
      pf ← (if 0 <=? passfd then fd_lookup st t passfd else Some None);
      '(n, r, took, _) ← usock_send (nt (kc st)) s data pf;
      st' ← run (foldM ofile_ref took) (on_net st n);
      Some (st', r)
  end.

(** [sys_recv_k] that found something: the bytes, the result and the
    descriptor the passed description was installed as. *)
Definition sys_recv (st : kstate) (t : nat) (fd len : Z) (stop want : bool)
    : option (kstate * list Z * outcome * Z) :=
  u ← unix_of st t fd;
  match u with
  | None => Some (st, [], Ret (-1), -1)
  | Some (s, _) =>
      '(n, out, passed, r, _) ← usock_recv (nt (kc st)) s len true stop true;
      let st1 := on_net st n in
      match passed with
      | None => Some (st1, out, r, -1)
      | Some o =>
          if want then '(st2, i) ← install_or st1 t o (-1); Some (st2, out, r, i)
          else st2 ← run (unref o) st1; Some (st2, out, r, -1)
      end
  end.

End FdTable.
