(* ===== verification/FdTableCore.v ===== *)
(** * Releasing open descriptions (kernel/core/fd.c, usock.c)

    The invariant of the descriptions and the sockets behind them, and the
    contract of the two functions that release them: [ofile_unref] gives back
    one reference, [usock_close] a socket that nobody owns any more.  Both
    return, leave the invariant, and log every description they release. *)

From stdpp Require Import base gmap list.
From Stdlib Require Import ZArith Lia Bool.
From S2P Require Import Prelude Usock FdTable.
Open Scope Z_scope.

Module FdTableCore.
Import Usock FdTable.

(** ** Counting *)

Fixpoint occ (o : nat) (l : list nat) : nat :=
  match l with [] => 0 | x :: l' => (if decide (x = o) then 1 else 0) + occ o l' end.

Lemma occ_app o l l' : occ o (l ++ l') = (occ o l + occ o l')%nat.
Proof. induction l as [|x l IH]; cbn; [done|]. rewrite IH. lia. Qed.

Lemma occ_in o l : (0 < occ o l)%nat <-> o ∈ l.
Proof.
  induction l as [|x l IH]; cbn; [split; [lia|by intros ?%not_elem_of_nil]|]. rewrite elem_of_cons, <- IH.
  destruct (decide (x = o)) as [->|Hne]; split; [by left|lia|intros; right; lia|intros [->|?]; [done|lia]].
Qed.

Lemma occ_self o l : occ o (o :: l) = S (occ o l).
Proof. cbn. by rewrite decide_True. Qed.
Lemma occ_ne x o l : x <> o -> occ o (x :: l) = occ o l.
Proof. intros. cbn. by rewrite decide_False. Qed.

(** The sum of a weight over a finite map. *)
Section Msum.
Context {V : Type}.
Implicit Types (g : nat -> V -> nat) (m : gmap nat V).

Definition msum g m : nat := map_fold (fun k v acc => (g k v + acc)%nat) 0%nat m.

Lemma msum_empty g : msum g ∅ = 0%nat.
Proof. unfold msum. by rewrite map_fold_empty. Qed.

Lemma msum_insert g m k v : m !! k = None -> msum g (<[k := v]> m) = (g k v + msum g m)%nat.
Proof. intros. unfold msum. rewrite map_fold_insert_L; [done|intros; lia|done]. Qed.

Lemma msum_delete g m k v : m !! k = Some v -> msum g m = (g k v + msum g (delete k m))%nat.
Proof. intros. rewrite <- (insert_delete_id m k v) at 1 by done. apply msum_insert, lookup_delete_eq. Qed.

Lemma msum_update g m k v v' : m !! k = Some v -> (msum g (<[k := v']> m) + g k v = g k v' + msum g m)%nat.
Proof.
  intros. rewrite (msum_delete g m k v) by done. rewrite <- insert_delete_eq.
  rewrite msum_insert by apply lookup_delete_eq. lia.
Qed.

Lemma msum_ext g g' m : (forall k v, m !! k = Some v -> g k v = g' k v) -> msum g m = msum g' m.
Proof.
  induction m as [|k v m Hk IH] using map_ind; intros H.
  - by rewrite !msum_empty.
  - rewrite !msum_insert by done. rewrite (H k v) by (by rewrite lookup_insert_eq). f_equal. apply IH.
    intros k' v' Hk'. apply H. rewrite lookup_insert_ne; [done|]. intros ->. congruence.
Qed.

Lemma msum_pos g m : (0 < msum g m)%nat <-> exists k v, m !! k = Some v /\ (0 < g k v)%nat.
Proof.
  split.
  - induction m as [|k v m Hk IH] using map_ind; [rewrite msum_empty; lia|]. rewrite msum_insert by done. intros H.
    destruct (decide (0 < g k v)%nat); [exists k, v; by rewrite lookup_insert_eq|].
    destruct IH as (k' & v' & Hm & Hg); [lia|]. exists k', v'. split; [|done].
    rewrite lookup_insert_ne; [done|]. intros ->. congruence.
  - intros (k & v & Hm & Hg). rewrite (msum_delete _ _ _ _ Hm). lia.
Qed.

Lemma msum_ge g m k v : m !! k = Some v -> (g k v <= msum g m)%nat.
Proof. intros. rewrite (msum_delete _ _ _ _ H). lia. Qed.

(** A weight that leaves one key out. *)
Lemma msum_without g g' m k v : m !! k = Some v -> g' k v = 0%nat ->
  (forall j w, j <> k -> m !! j = Some w -> g' j w = g j w) -> msum g m = (g k v + msum g' m)%nat.
Proof.
  intros Hk H0 Hj. rewrite (msum_delete g m k v), (msum_delete g' m k v) by done. rewrite H0. f_equal. cbn.
  apply msum_ext. intros j w Hw. apply lookup_delete_Some in Hw as [? ?]. symmetry. by apply Hj.
Qed.
End Msum.

(** ** The invariant

    [E o]: the references to [o] from outside the sockets (table slots and the
    like); [HS]: sockets whose close is due; [C]: sockets being closed, whose
    own pointers no longer count; [D]: descriptions being released, with no
    reference left. *)

Section Invariant.
Context (C D : list nat).

(** References held by the sockets' queues of passed descriptors. *)
Definition queued (c : core) (o : nat) : nat :=
  msum (fun s u => if decide (s ∈ C) then 0%nat else occ o (fdq u)) (socks (nt c)).

(** The owners of a socket: a description in use, or a listener's queue. *)
Definition owns (s : nat) (f : ofile) : nat :=
  if decide (kind f = FD_SOCK /\ res f = s /\ refcount f <> 0) then 1%nat else 0%nat.
Definition owners (c : core) (s : nat) : nat :=
  (msum (fun _ f => owns s f) (ofiles c) +
   msum (fun x u => if decide (x ∈ C) then 0%nat else occ s (accq u)) (socks (nt c)))%nat.

(** A connection nobody has accepted yet. *)
Definition leaf (u : usock) : Prop := listening u = false /\ accq u = [] /\ path u = [].

Record CInv (E : nat -> nat) (HS : list nat) (c : core) : Prop := {
  ci_ref : forall o f, ofiles c !! o = Some f -> refcount f = Z.of_nat (E o + queued c o);
  ci_live : forall o, (0 < E o + queued c o)%nat -> is_Some (ofiles c !! o);
  ci_pos : forall o f, ofiles c !! o = Some f -> refcount f = 0 <-> o ∈ D;
  ci_own : forall s, (owners c s + occ s HS = if decide (is_Some (socks (nt c) !! s) /\ s ∉ C) then 1 else 0)%nat;
  ci_close : forall s, s ∈ C -> is_Some (socks (nt c) !! s);
  ci_peer : forall s u p, s ∉ C -> socks (nt c) !! s = Some u -> peer u = Some p ->
    exists v, socks (nt c) !! p = Some v /\ peer v = Some s;
  ci_lst : forall s u, socks (nt c) !! s = Some u ->
    (listening u = true -> peer u = None) /\ (accq u <> [] -> listening u = true);
  ci_acc : forall s u a, s ∉ C -> socks (nt c) !! s = Some u -> a ∈ accq u ->
    exists v, socks (nt c) !! a = Some v /\ leaf v;
  ci_reg : forall i name t, reg (nt c) !! i = Some (Some (name, t)) ->
    t ∉ C /\ exists u, socks (nt c) !! t = Some u /\ path u <> []
}.
End Invariant.

(** How releasing changes what is left: nothing but a peer's pointer. *)
Definition cut (u v : usock) : Prop := v = u \/ v = set_peer u None.

(** Descriptions still in use. *)
Definition in_use (c : core) : nat := msum (fun _ f => if decide (refcount f = 0) then 0%nat else 1%nat) (ofiles c).

(** The descriptions alive and those released: together they never change. *)
Definition ledger (c : core) : list (fd_kind * nat) := ((fun p => (kind p.2, res p.2)) <$> map_to_list (ofiles c)) ++ released c.

Record Shrink (C D : list nat) (c c' : core) : Prop := {
  sh_socks : forall x v, socks (nt c') !! x = Some v -> exists u, socks (nt c) !! x = Some u /\ cut u v;
  sh_closing : forall x, x ∈ C -> is_Some (socks (nt c) !! x) -> is_Some (socks (nt c') !! x);
  sh_dying : forall d, d ∈ D -> ofiles c' !! d = ofiles c !! d;
  sh_use : (in_use c' <= in_use c)%nat;
  sh_ledger : ledger c' ≡ₚ ledger c
}.

(** ** Frame facts *)

Lemma cut_refl u : cut u u.
Proof. by left. Qed.

Lemma cut_trans u v w : cut u v -> cut v w -> cut u w.
Proof. intros [->| ->] [->| ->]; [by left|by right|by right|by right]. Qed.

Lemma cut_same u v : cut u v -> fdq v = fdq u /\ accq v = accq u /\ path v = path u /\ listening v = listening u /\
  (peer v = peer u \/ peer v = None).
Proof. intros [->| ->]; cbn; split_and!; auto. Qed.

Lemma Shrink_refl C D c : Shrink C D c c.
Proof. split; [intros x v Hx; exists v; split; [done|apply cut_refl]|done..]. Qed.

Lemma Shrink_trans C D c1 c2 c3 : Shrink C D c1 c2 -> Shrink C D c2 c3 -> Shrink C D c1 c3.
Proof.
  intros [S1 K1 D1 U1 L1] [S2 K2 D2 U2 L2]. split.
  - intros x v Hv. destruct (S2 x v Hv) as (w & Hw & Hc). destruct (S1 x w Hw) as (u & Hu & Hc').
    exists u. split; [done|]. by eapply cut_trans.
  - eauto.
  - intros d Hd. by rewrite D2, D1.
  - lia.
  - by rewrite L2.
Qed.

Lemma Shrink_weaken C D C' D' c c' : Shrink C' D' c c' -> C ⊆ C' -> D ⊆ D' -> Shrink C D c c'.
Proof. intros [S K Dy U L] HC HD. split; eauto. Qed.

Lemma CInv_ext C D E E' HS HS' c : (forall o, E' o = E o) -> (forall s, occ s HS' = occ s HS) ->
  CInv C D E HS c -> CInv C D E' HS' c.
Proof. intros HE HH []. split; try done; intros; rewrite ?HE, ?HH in *; eauto. Qed.

(** Rewriting a socket changes the counts by what its queues change. *)
Definition cnt (C : list nat) (s : nat) (o : nat) (l : list nat) : nat := if decide (s ∈ C) then 0%nat else occ o l.

Lemma queued_put C c s u v o : socks (nt c) !! s = Some u ->
  (queued C (put_sock s v c) o + cnt C s o (fdq u) = cnt C s o (fdq v) + queued C c o)%nat.
Proof. intros Hs. apply (msum_update (fun s0 u0 => cnt C s0 o (fdq u0))). done. Qed.

Lemma owners_put C c s u v x : socks (nt c) !! s = Some u ->
  (owners C (put_sock s v c) x + cnt C s x (accq u) = cnt C s x (accq v) + owners C c x)%nat.
Proof.
  intros Hs. unfold owners. cbn.
  pose proof (msum_update (fun s0 u0 => cnt C s0 x (accq u0)) (socks (nt c)) s u v Hs) as H. unfold cnt in *. cbn in H. lia.
Qed.

Lemma is_Some_insert {V} (m : gmap nat V) k v v' x : m !! k = Some v -> is_Some (<[k := v']> m !! x) <-> is_Some (m !! x).
Proof.
  intros Hk. destruct (decide (k = x)) as [->|Hne].
  - rewrite lookup_insert_eq, Hk. split; by eexists.
  - by rewrite lookup_insert_ne.
Qed.

(** A socket rewritten in place, with the references its queues gain or lose. *)
Lemma CInv_rewrite C D E E' HS HS' c s u v : CInv C D E HS c -> socks (nt c) !! s = Some u ->
  (forall o, E' o + cnt C s o (fdq v) = E o + cnt C s o (fdq u))%nat ->
  (forall x, occ x HS' + cnt C s x (accq v) = occ x HS + cnt C s x (accq u))%nat ->
  (path u <> [] -> path v <> []) ->
  (forall x w, x ∉ C -> socks (nt c) !! x = Some w -> s ∈ accq w -> leaf v) ->
  (forall a, s ∉ C -> a ∈ accq v -> exists w, socks (nt (put_sock s v c)) !! a = Some w /\ leaf w) ->
  (listening v = true -> peer v = None) -> (accq v <> [] -> listening v = true) ->
  (peer v = peer u \/ peer v = None /\ forall x w, x ∉ C -> socks (nt c) !! x = Some w -> peer w = Some s -> False) ->
  CInv C D E' HS' (put_sock s v c).
Proof.
  intros [HR HL HP HO HC Hpe Hls Hac Hrg] Hs HE HH Hpa Hlf Hva Hl1 Hl2 Hpr.
  assert (forall o, (E' o + queued C (put_sock s v c) o = E o + queued C c o)%nat) as EQ.
  { intros o. pose proof (queued_put C c s u v o Hs). pose proof (HE o). lia. }
  split.
  - intros o f Ho. rewrite EQ. by apply HR.
  - intros o. rewrite EQ. apply HL.
  - done.
  - intros x. assert (owners C (put_sock s v c) x + occ x HS' = owners C c x + occ x HS)%nat as ->
      by (pose proof (owners_put C c s u v x Hs); pose proof (HH x); lia).
    rewrite HO. cbn. destruct (decide _) as [[H1 H2]|H1], (decide _) as [[H3 H4]|H3]; try done.
    + destruct H3. by rewrite is_Some_insert.
    + destruct H1. by rewrite is_Some_insert in H3.
  - intros x Hx. cbn. rewrite is_Some_insert by done. auto.
  - cbn. intros x w p Hx Hw Hp. apply lookup_insert_Some in Hw as [[<- <-]|[Hne Hw]].
    + destruct Hpr as [Hpr|[Hpr _]]; [|congruence].
      rewrite Hpr in Hp. destruct (Hpe _ _ _ Hx Hs Hp) as (y & Hy & Hy').
      destruct (decide (s = p)) as [<-|]; [|exists y; by rewrite lookup_insert_ne].
      exists v. rewrite lookup_insert_eq. split; [done|]. congruence.
    + destruct (Hpe _ _ _ Hx Hw Hp) as (y & Hy & Hy').
      destruct (decide (s = p)) as [<-|]; [|exists y; by rewrite lookup_insert_ne].
      destruct Hpr as [Hpr|[_ Hpr]]; [|by destruct (Hpr _ _ Hx Hw Hp)].
      exists v. rewrite lookup_insert_eq. split; [done|]. congruence.
  - cbn. intros x w Hw. apply lookup_insert_Some in Hw as [[<- <-]|[_ Hw]]; eauto.
  - intros x w a Hx Hw Ha. cbn in Hw. apply lookup_insert_Some in Hw as [[<- <-]|[_ Hw]]; [by apply Hva|].
    cbn. destruct (Hac _ _ _ Hx Hw Ha) as (y & Hy & Hyl).
    destruct (decide (s = a)) as [<-|]; [|exists y; by rewrite lookup_insert_ne].
    exists v. rewrite lookup_insert_eq. split; [done|]. by eapply Hlf.
  - cbn. intros i name t Hi. destruct (Hrg _ _ _ Hi) as (Ht & y & Hy & Hyp). split; [done|].
    destruct (decide (s = t)) as [<-|]; [|exists y; by rewrite lookup_insert_ne].
    exists v. rewrite lookup_insert_eq. split; [done|]. apply Hpa. congruence.
Qed.

(** A socket rewritten in place that keeps its queues, or is being closed. *)
Lemma CInv_put C D E HS c s u v : CInv C D E HS c -> socks (nt c) !! s = Some u ->
  s ∈ C \/ (fdq v = fdq u /\ accq v = accq u) -> path v = path u -> (leaf u -> leaf v) ->
  (listening v = true -> peer v = None) -> (accq v <> [] -> listening v = true) ->
  (peer v = peer u \/ peer v = None /\ forall x w, x ∉ C -> socks (nt c) !! x = Some w -> peer w = Some s -> False) ->
  CInv C D E HS (put_sock s v c).
Proof.
  intros HI Hs Hq Hpa Hlf Hl1 Hl2 Hpr. eapply CInv_rewrite; [done|done| | |by rewrite Hpa| | |done..].
  - intros o. unfold cnt. case_decide; [done|]. destruct Hq as [?|[-> _]]; done.
  - intros o. unfold cnt. case_decide; [done|]. destruct Hq as [?|[_ ->]]; done.
  - intros x w Hx Hw Ha. destruct (ci_acc _ _ _ _ _ HI _ _ _ Hx Hw Ha) as (y & Hy & Hyl).
    apply Hlf. congruence.
  - intros a Hn Ha. destruct Hq as [?|[_ Hq]]; [done|]. rewrite Hq in Ha.
    destruct (ci_acc _ _ _ _ _ HI _ _ _ Hn Hs Ha) as (y & Hy & Hyl). cbn.
    destruct (decide (s = a)) as [<-|]; [|exists y; by rewrite lookup_insert_ne].
    exists v. rewrite lookup_insert_eq. split; [done|]. apply Hlf. congruence.
Qed.

(** ** One reference less *)

Definition plus (E : nat -> nat) (l : list nat) : nat -> nat := fun x => (E x + occ x l)%nat.

Lemma owners_put_ofile C c o f f' x : ofiles c !! o = Some f ->
  (owners C (put_ofile o f' c) x + owns x f = owns x f' + owners C c x)%nat.
Proof.
  intros Ho. unfold owners. cbn. pose proof (msum_update (fun _ g => owns x g) (ofiles c) o f f' Ho) as H. cbn in H. lia.
Qed.

Lemma in_use_put c o f f' : ofiles c !! o = Some f ->
  (in_use (put_ofile o f' c) + (if decide (refcount f = 0)%Z then 0 else 1) =
   (if decide (refcount f' = 0)%Z then 0 else 1) + in_use c)%nat.
Proof. intros Ho. apply (msum_update (fun _ g => if decide (refcount g = 0) then 0%nat else 1%nat)). done. Qed.

Lemma ledger_put c o f r : ofiles c !! o = Some f -> ledger (put_ofile o (set_ref f r) c) ≡ₚ ledger c.
Proof.
  intros Ho. unfold ledger. cbn. rewrite <- (insert_delete_id (ofiles c) o f) at 2 by done.
  rewrite <- insert_delete_eq, !map_to_list_insert by apply lookup_delete_eq. done.
Qed.

Lemma ref_pos C D E HS c o l : CInv C D (plus E (o :: l)) HS c ->
  exists f, ofiles c !! o = Some f /\ 1 <= refcount f /\ o ∉ D /\ refcount f = Z.of_nat (S (plus E l o + queued C c o)).
Proof.
  intros [HR HL HP _ _ _ _ _ _]. destruct (HL o) as [f Hf]; [unfold plus; rewrite occ_self; lia|].
  exists f. pose proof (HR _ _ Hf) as Hr. unfold plus in Hr. rewrite occ_self in Hr.
  assert (refcount f <> 0) as H0 by lia. split; [done|]. split; [lia|]. split; [|unfold plus; lia].
  intros Hd. by apply H0, (HP _ _ Hf).
Qed.

(** The reference counts after one reference to [o] is given back. *)
Lemma CInv_dec C D E HS HS' c o f : CInv C D (plus E [o]) HS c -> ofiles c !! o = Some f -> 1 <= refcount f ->
  let f' := set_ref f (refcount f - 1) in
  (forall s, (owners C (put_ofile o f' c) s + occ s HS' = owners C c s + occ s HS)%nat) ->
  CInv C (if decide (refcount f = 1) then o :: D else D) E HS' (put_ofile o f' c).
Proof.
  intros [HR HL HP HO HC Hpe Hls Hac Hrg] Ho Hr f' HOW.
  assert (forall x, queued C (put_ofile o f' c) x = queued C c x) as EQ by done.
  split; cbn [ofiles nt put_ofile]; try done.
  - intros x g Hg. rewrite EQ. apply lookup_insert_Some in Hg as [[<- <-]|[Hne Hg]].
    + pose proof (HR _ _ Ho) as H. unfold plus in H. rewrite occ_self in H. cbn in *. lia.
    + rewrite (HR _ _ Hg). unfold plus. by rewrite occ_ne, Nat.add_0_r.
  - intros x. rewrite EQ. intros Hx. rewrite is_Some_insert by done. apply HL. unfold plus. lia.
  - intros x g Hg. apply lookup_insert_Some in Hg as [[<- <-]|[Hne Hg]].
    + pose proof (HP _ _ Ho) as H. cbn. destruct (decide (refcount f = 1)) as [E1|E1].
      * split; [by left|lia].
      * split; [lia|]. intros Hd. apply H in Hd. lia.
    + rewrite (HP _ _ Hg). destruct (decide (refcount f = 1)); [|done].
      split; [by right|]. intros [Hx|Hx]%elem_of_cons; [congruence|done].
  - intros s. rewrite HOW. apply HO.
Qed.

Lemma owns_set_ref s f r : r <> 0 -> refcount f <> 0 -> owns s (set_ref f r) = owns s f.
Proof. intros. unfold owns. cbn. destruct (decide _), (decide _); tauto. Qed.

Lemma unref_shared C D E HS c o f : CInv C D (plus E [o]) HS c -> ofiles c !! o = Some f -> 1 < refcount f ->
  let c' := put_ofile o (set_ref f (refcount f - 1)) c in CInv C D E HS c' /\ Shrink C D c c'.
Proof.
  intros HI Ho Hr c'. destruct (ref_pos _ _ _ _ _ _ _ HI) as (g & Hg & _ & Hnd & _). assert (g = f) as -> by congruence. split.
  - pose proof (CInv_dec C D E HS HS c o f HI Ho ltac:(lia)) as H. cbv zeta in H.
    rewrite decide_False in H by lia. apply H. intros s.
    pose proof (owners_put_ofile C c o f (set_ref f (refcount f - 1)) s Ho) as Hw.
    rewrite owns_set_ref in Hw by lia. lia.
  - split; [intros x v Hx; exists v; split; [done|apply cut_refl]|done| | |by apply ledger_put].
    + intros d Hd. cbn. rewrite lookup_insert_ne; [done|]. intros ->. done.
    + pose proof (in_use_put c o f (set_ref f (refcount f - 1)) Ho) as H. cbn [refcount set_ref] in H.
      rewrite !decide_False in H by lia. unfold c'. lia.
Qed.

(** The last reference: the socket behind it, if there is one, is now to be closed. *)
Definition behind (f : ofile) : list nat := if decide (kind f = FD_SOCK) then [res f] else [].

Lemma unref_last C D E HS c o f : CInv C D (plus E [o]) HS c -> ofiles c !! o = Some f -> refcount f = 1 ->
  let c' := put_ofile o (set_ref f 0) c in
  CInv C (o :: D) E (behind f ++ HS) c' /\ Shrink C D c c' /\ (S (in_use c') = in_use c)%nat /\ o ∉ D.
Proof.
  intros HI Ho Hr c'. destruct (ref_pos _ _ _ _ _ _ _ HI) as (g & Hg & _ & Hnd & _). assert (g = f) as -> by congruence.
  pose proof (in_use_put c o f (set_ref f 0) Ho) as Hu. cbn [refcount set_ref] in Hu.
  rewrite decide_False, decide_True in Hu by lia. split; [|split; [|split; [|done]]].
  - pose proof (CInv_dec C D E HS (behind f ++ HS) c o f HI Ho ltac:(lia)) as H. cbv zeta in H.
    rewrite decide_True, Hr in H by done. apply H. intros s.
    pose proof (owners_put_ofile C c o f (set_ref f 0) s Ho) as Hw. rewrite occ_app.
    change (set_ref f (1 - 1)) with (set_ref f 0). unfold owns in Hw at 2. cbn in Hw. rewrite decide_False in Hw by tauto.
    unfold owns, behind in *. destruct (decide (kind f = FD_SOCK)) as [Ek|Ek].
    + cbn. destruct (decide (res f = s)); [rewrite decide_True in Hw by (split_and!; [done..|lia])|
        rewrite decide_False in Hw by tauto]; lia.
    + rewrite decide_False in Hw by tauto. cbn. lia.
  - split; [intros x v Hx; exists v; split; [done|apply cut_refl]|done| | |by apply ledger_put].
    + intros d Hd. cbn. rewrite lookup_insert_ne; [done|]. intros ->. done.
    + unfold c'. lia.
  - unfold c'. lia.
Qed.

(** The description itself is freed. *)
Lemma free_ofile C D E HS c o f : CInv C (o :: D) E HS c -> o ∉ D -> ofiles c !! o = Some f -> refcount f = 0 ->
  let c' := Core (delete o (ofiles c)) (nt c) ((kind f, res f) :: released c) in
  CInv C D E HS c' /\ Shrink C D c c'.
Proof.
  intros [HR HL HP HO HC Hpe Hls Hac Hrg] Hnd Ho Hr c'. split.
  - assert (forall x, queued C c' x = queued C c x) as EQ by done. split; cbn [ofiles nt c']; try done.
    + intros x g Hg. rewrite EQ. apply lookup_delete_Some in Hg as [_ Hg]. by apply HR.
    + intros x Hx. rewrite EQ in Hx. destruct (HL x Hx) as [g Hg]. rewrite lookup_delete_ne; [by eexists|].
      intros <-. assert (g = f) as -> by congruence. pose proof (HR _ _ Ho). lia.
    + intros x g Hg. apply lookup_delete_Some in Hg as [Hne Hg]. rewrite (HP _ _ Hg), elem_of_cons.
      split; [intros [?|?]; [congruence|done]|by right].
    + intros s. rewrite <- HO. f_equal. unfold owners. cbn. rewrite (msum_delete _ (ofiles c) o f Ho).
      unfold owns at 2. by rewrite decide_False by tauto.
  - split; [intros x v Hx; exists v; split; [done|apply cut_refl]|done| | |].
    + intros d Hd. cbn. rewrite lookup_delete_ne; [done|]. intros ->. done.
    + unfold in_use. cbn. rewrite (msum_delete _ (ofiles c) o f Ho). lia.
    + unfold ledger. cbn. rewrite <- (insert_delete_id (ofiles c) o f) at 2 by done.
      rewrite map_to_list_insert by apply lookup_delete_eq. cbn. by rewrite <- Permutation_middle.
Qed.

(** ** A socket leaves *)

Lemma queued_out C c s u o : socks (nt c) !! s = Some u -> s ∉ C ->
  queued C c o = (occ o (fdq u) + queued (s :: C) c o)%nat.
Proof.
  intros Hs Hn. unfold queued. erewrite (msum_without _ _ _ _ _ Hs).
  - rewrite decide_False by done. reflexivity.
  - cbn. by rewrite decide_True by left.
  - intros j w Hj _. cbn. destruct (decide (j ∈ C)), (decide (j ∈ s :: C)); try done; set_solver.
Qed.

Lemma owners_out C c s u x : socks (nt c) !! s = Some u -> s ∉ C ->
  owners C c x = (occ x (accq u) + owners (s :: C) c x)%nat.
Proof.
  intros Hs Hn. unfold owners. erewrite (msum_without (fun x0 u0 => if decide (x0 ∈ C) then 0%nat else occ x (accq u0)) _ _ _ _ Hs).
  - rewrite decide_False by done. rewrite Nat.add_shuffle3. reflexivity.
  - cbn. by rewrite decide_True by left.
  - intros j w Hj _. cbn. destruct (decide (j ∈ C)), (decide (j ∈ s :: C)); try done; set_solver.
Qed.

Lemma due_live C D E HS c s : CInv C D E (s :: HS) c ->
  exists u, socks (nt c) !! s = Some u /\ s ∉ C /\ owners C c s = 0%nat /\ occ s HS = 0%nat.
Proof.
  intros HI. pose proof (ci_own _ _ _ _ _ HI s) as H. rewrite occ_self in H.
  destruct (decide _) as [[[u Hu] Hn]|]; [|lia]. exists u. split; [done|]. split; [done|lia].
Qed.

Definition unname (s : nat) (u : usock) (c : core) : core :=
  if bool_decide (path u <> []) || listening u
  then set_net (Net (socks (nt c)) (reg_remove s (reg (nt c)))) c else c.

Lemma reg_remove_lookup s r i name t :
  reg_remove s r !! i = Some (Some (name, t)) -> r !! i = Some (Some (name, t)) /\ t <> s.
Proof.
  unfold reg_remove. rewrite list_lookup_fmap. destruct (r !! i) as [[[p' t']|]|]; cbn; [|done|done].
  destruct (decide (t' = s)); [done|]. intros [= <- <-]. done.
Qed.

Lemma unname_socks s u c : socks (nt (unname s u c)) = socks (nt c) /\ ofiles (unname s u c) = ofiles c /\
  released (unname s u c) = released c.
Proof. unfold unname. by case_match. Qed.

Lemma close_begin C D E HS c s u : CInv C D E (s :: HS) c -> socks (nt c) !! s = Some u ->
  CInv (s :: C) D (plus E (fdq u)) (accq u ++ HS) (unname s u c) /\ Shrink (s :: C) D c (unname s u c) /\
  (forall a, a ∈ accq u -> exists v, socks (nt c) !! a = Some v /\ leaf v).
Proof.
  intros HI Hs. destruct (due_live _ _ _ _ _ _ HI) as (u' & Hu & Hn & Ho0 & Hh0). assert (u' = u) as -> by congruence.
  pose proof HI as [HR HL HP HO HC Hpe Hls Hac Hrg]. destruct (unname_socks s u c) as (Es & Ef & El).
  assert (forall o, queued (s :: C) (unname s u c) o = queued (s :: C) c o) as EQ by (intros; unfold queued; by rewrite Es).
  assert (forall x, owners (s :: C) (unname s u c) x = owners (s :: C) c x) as EO by (intros; unfold owners; by rewrite Es, Ef).
  split; [|split].
  - split; rewrite ?Es, ?Ef; try done.
    + intros o f Ho. rewrite EQ, (HR _ _ Ho), (queued_out C c s u o Hs Hn). unfold plus. lia.
    + intros o. rewrite EQ. unfold plus. intros H. apply HL. rewrite (queued_out C c s u o Hs Hn). lia.
    + intros x. rewrite EO, occ_app. pose proof (HO x) as H. rewrite (owners_out C c s u x Hs Hn) in H.
      rewrite (owners_out C c s u s Hs Hn) in Ho0.
      destruct (decide (x = s)) as [->|Hne].
      * rewrite decide_False by (intros [_ ?]; set_solver). lia.
      * rewrite occ_ne in H by done. destruct (decide _) as [[? ?]|H1], (decide _) as [[? ?]|H2]; try lia.
        -- destruct H2. split; [done|set_solver].
        -- destruct H1. split; [done|set_solver].
    + intros x [->|Hx]%elem_of_cons; [by eexists|auto].
    + intros x w p Hx. apply Hpe. set_solver.
    + intros x w a Hx. apply Hac. set_solver.
    + intros i name t Hi. unfold unname in Hi. destruct (bool_decide _ || _) eqn:Eb; cbn in Hi.
      * apply reg_remove_lookup in Hi as [Hi Hts]. destruct (Hrg _ _ _ Hi) as [Ht Ht']. split; [set_solver|done].
      * destruct (Hrg _ _ _ Hi) as (Ht & w & Hw & Hp). split; [|by eexists]. intros [->|?]%elem_of_cons; [|done].
        apply orb_false_iff in Eb as [Eb _]. bool_props. assert (w = u) as -> by congruence. done.
  - split; rewrite ?Es, ?Ef; try done.
    + intros x v Hx. exists v. split; [done|apply cut_refl].
    + unfold in_use. by rewrite Ef.
    + unfold ledger. by rewrite Ef, El.
  - intros a Ha. by apply (Hac s u a Hn Hs).
Qed.

Definition drop_sock (s : nat) (c : core) : core := set_net (Net (delete s (socks (nt c))) (reg (nt c))) c.

Lemma msum_drop {V} (g : nat -> V -> nat) m k v : m !! k = Some v -> g k v = 0%nat -> msum g (delete k m) = msum g m.
Proof. intros Hk H0. rewrite (msum_delete g m k v Hk). lia. Qed.

Lemma close_end C D E HS c s : CInv (s :: C) D E HS c -> s ∉ C ->
  (forall x w, x ∉ s :: C -> socks (nt c) !! x = Some w -> peer w <> Some s) ->
  CInv C D E HS (drop_sock s c) /\ Shrink C D c (drop_sock s c).
Proof.
  intros HI Hn Hnp. pose proof HI as [HR HL HP HO HC Hpe Hls Hac Hrg].
  destruct (HC s) as [u Hs]; [by left|].
  assert (forall x : nat, x <> s -> x ∉ C -> x ∉ s :: C) as Hout by set_solver.
  assert (forall o, queued C (drop_sock s c) o = queued (s :: C) c o) as EQ.
  { intros o. unfold queued. cbn. rewrite <- (msum_drop (fun s0 u0 => if decide (s0 ∈ s :: C) then 0%nat else occ o (fdq u0))
      _ s u Hs) by (by rewrite decide_True by left). apply msum_ext. intros k v [Hk _]%lookup_delete_Some.
    destruct (decide (k ∈ C)), (decide (k ∈ s :: C)); try done; set_solver. }
  assert (forall x, owners C (drop_sock s c) x = owners (s :: C) c x) as EO.
  { intros x. unfold owners. cbn. f_equal. rewrite <- (msum_drop (fun s0 u0 => if decide (s0 ∈ s :: C) then 0%nat else occ x (accq u0))
      _ s u Hs) by (by rewrite decide_True by left). apply msum_ext. intros k v [Hk _]%lookup_delete_Some.
    destruct (decide (k ∈ C)), (decide (k ∈ s :: C)); try done; set_solver. }
  assert (owners (s :: C) c s = 0%nat) as Ho0.
  { pose proof (HO s) as H. rewrite decide_False in H by (intros [_ ?]; set_solver). lia. }
  split.
  - split; cbn [ofiles nt socks reg drop_sock set_net].
    + intros o f Ho. rewrite EQ. by apply HR.
    + intros o. rewrite EQ. apply HL.
    + done.
    + intros x. rewrite EO, HO. destruct (decide (x = s)) as [->|Hne].
      * rewrite !decide_False; [done| |intros [_ ?]; set_solver]. rewrite lookup_delete_eq. intros [[? ?] _]. done.
      * rewrite lookup_delete_ne by done. destruct (decide _) as [[? ?]|H1], (decide _) as [[? ?]|H2]; try done.
        -- destruct H2. split; [done|set_solver].
        -- destruct H1. split; [done|set_solver].
    + intros x Hx. rewrite lookup_delete_ne by (intros ->; done). apply HC. by right.
    + intros x w p Hx [Hne Hw]%lookup_delete_Some Hp. destruct (Hpe x w p) as (v & Hv & Hvp); [auto|done|done|].
      exists v. rewrite lookup_delete_ne; [done|]. intros <-. by eapply (Hnp x w); [auto|..].
    + intros x w [Hne Hw]%lookup_delete_Some. eauto.
    + intros x w a Hx [Hne Hw]%lookup_delete_Some Ha. destruct (Hac x w a) as (v & Hv & Hl); [auto|done|done|].
      exists v. rewrite lookup_delete_ne; [done|]. intros <-.
      assert (0 < owners (s :: C) c s)%nat; [|lia]. unfold owners.
      enough (0 < msum (fun x u => if decide (x ∈ s :: C) then 0%nat else occ s (accq u)) (socks (nt c)))%nat by lia.
      apply msum_pos. exists x, w. split; [done|]. rewrite decide_False by auto. by apply occ_in.
    + intros i name t Hi. destruct (Hrg _ _ _ Hi) as (Ht & w & Hw & Hp). split; [set_solver|].
      exists w. rewrite lookup_delete_ne; [done|]. set_solver.
  - split; cbn [ofiles nt socks reg drop_sock set_net]; try done.
    + intros x v [_ Hx]%lookup_delete_Some. exists v. split; [done|apply cut_refl].
    + intros x Hx. rewrite lookup_delete_ne by (intros ->; done). done.
Qed.

(** ** The contract, by the number of descriptions in use *)

Definition UnrefOK (k : nat) : Prop := forall fuel o C D E HS c,
  CInv C D (plus E [o]) HS c -> (in_use c <= k)%nat -> (3 * k <= fuel)%nat ->
  exists c', ofile_unref fuel o c = Some c' /\ CInv C D E HS c' /\ Shrink C D c c'.

Lemma plus_cons C D E HS c o l : CInv C D (plus E (o :: l)) HS c -> CInv C D (plus (plus E l) [o]) HS c.
Proof. apply CInv_ext; [|done]. intros x. unfold plus. cbn. lia. Qed.

Lemma plus_nil C D E HS c : CInv C D (plus E []) HS c <-> CInv C D E HS c.
Proof. split; (apply CInv_ext; [|done]; intros x; unfold plus; cbn; lia). Qed.

Lemma fold_unref k : UnrefOK k -> forall fuel l C D E HS c,
  CInv C D (plus E l) HS c -> (in_use c <= k)%nat -> (3 * k <= fuel)%nat ->
  exists c', foldM (ofile_unref fuel) l c = Some c' /\ CInv C D E HS c' /\ Shrink C D c c'.
Proof.
  intros Hk fuel l. induction l as [|o l IH]; intros C D E HS c HI Hu Hf.
  - exists c. split; [done|]. split; [by apply plus_nil|apply Shrink_refl].
  - destruct (Hk fuel o C D (plus E l) HS c) as (c1 & E1 & HI1 & S1); [by apply plus_cons|done|done|].
    destruct (IH C D E HS c1 HI1) as (c2 & E2 & HI2 & S2); [pose proof (sh_use _ _ _ _ S1); lia|done|].
    exists c2. split; [cbn [foldM]; by rewrite E1|]. split; [done|]. by eapply Shrink_trans.
Qed.

(** [usock_close] from the moment the unaccepted connections are gone. *)
Definition close_tail (fuel s : nat) (u2 : usock) (c2 : core) : option core :=
  let c3 := put_sock s (set_accq u2 []) c2 in
  c4 ← match peer u2 with
       | None => Some c3
       | Some p => v ← socks (nt c3) !! p; Some (put_sock p (set_peer v None) c3)
       end;
  u4 ← socks (nt c4) !! s;
  c5 ← foldM (ofile_unref fuel) (fdq u4) c4;
  Some (drop_sock s c5).

(** The peer learns that the socket is gone. *)
Lemma cut_peer C D E HS c s u2 : CInv (s :: C) D E HS c -> socks (nt c) !! s = Some u2 ->
  (forall p, peer u2 = Some p -> exists v, socks (nt c) !! p = Some v /\ peer v = Some s) ->
  let c3 := put_sock s (set_accq u2 []) c in
  exists c4, match peer u2 with
             | None => Some c3
             | Some p => v ← socks (nt c3) !! p; Some (put_sock p (set_peer v None) c3)
             end = Some c4 /\ CInv (s :: C) D E HS c4 /\
    (exists u4, socks (nt c4) !! s = Some u4 /\ fdq u4 = fdq u2) /\
    (forall x w, x <> s -> socks (nt c4) !! x = Some w -> exists w', socks (nt c) !! x = Some w' /\ cut w' w) /\
    (forall x, x <> s -> is_Some (socks (nt c) !! x) -> is_Some (socks (nt c4) !! x)) /\
    ofiles c4 = ofiles c /\ released c4 = released c /\
    (forall x w, x ∉ s :: C -> socks (nt c4) !! x = Some w -> peer w <> Some s).
Proof.
  intros HI Hs Hp c3. pose proof (ci_lst _ _ _ _ _ HI _ _ Hs) as [Hl1 Hl2].
  assert (CInv (s :: C) D E HS c3) as HI3.
  { eapply CInv_put; [done|done|left; by left|done|by intros (? & ? & ?)|done|done|by left]. }
  assert (socks (nt c3) !! s = Some (set_accq u2 [])) as Hs3 by apply lookup_insert_eq.
  assert (forall x, x <> s -> socks (nt c3) !! x = socks (nt c) !! x) as Hne3 by (intros; by apply lookup_insert_ne).
  (* a socket that still points here is the one this socket points to *)
  assert (forall x w, x ∉ s :: C -> socks (nt c3) !! x = Some w -> peer w = Some s -> peer u2 = Some x) as Hback.
  { intros x w Hx Hw Hws. destruct (ci_peer _ _ _ _ _ HI3 x w s Hx Hw Hws) as (v & Hv & Hvx).
    rewrite Hs3 in Hv. by injection Hv as <-. }
  destruct (peer u2) as [p|] eqn:Ep.
  - assert (exists v, socks (nt c3) !! p = Some v /\ peer v = Some s) as (v & Hv & Hvs).
    { destruct (Hp p eq_refl) as (v & Hv & Hvs). destruct (decide (p = s)) as [->|Hps].
      - exists (set_accq u2 []). split; [done|]. cbn. congruence.
      - exists v. by rewrite Hne3. }
    exists (put_sock p (set_peer v None) c3). rewrite Hv. split; [done|]. split.
    { pose proof (ci_lst _ _ _ _ _ HI3 _ _ Hv) as [Hv1 Hv2].
      eapply CInv_put; [done|done|by right|done|by intros (? & ? & ?)|done|done|]. right. split; [done|].
      intros x w Hx Hw Hwp. destruct (ci_peer _ _ _ _ _ HI3 x w p Hx Hw Hwp) as (v' & Hv' & Hx').
      assert (x = s) as -> by congruence. set_solver. }
    split; [|split; [|split; [|split; [done|split; [done|]]]]]; cbn [nt socks put_sock set_net put].
    + destruct (decide (p = s)) as [->|Hps]; [rewrite lookup_insert_eq|rewrite lookup_insert_ne by done; eauto].
      rewrite Hs3 in Hv. injection Hv as <-. by eexists.
    + intros x w Hx [[<- <-]|[_ Hw]]%lookup_insert_Some.
      * exists v. rewrite <- Hne3 by done. split; [done|by right].
      * exists w. rewrite <- Hne3 by done. split; [done|by left].
    + intros x Hx Hsx. rewrite is_Some_insert by done. by rewrite Hne3.
    + intros x w Hx [[<- <-]|[Hpx Hw]]%lookup_insert_Some; [done|]. intros Hws. apply (Hback x w) in Hws; [congruence|done..].
  - exists c3. split; [done|]. split; [done|]. split; [by eexists|].
    split; [intros x w Hx Hw; exists w; rewrite <- Hne3 by done; split; [done|apply cut_refl]|].
    split; [intros x Hx; by rewrite Hne3|]. split; [done|]. split; [done|].
    intros x w Hx Hw Hws. apply (Hback x w) in Hws; done.
Qed.

Lemma close_tail_ok k : UnrefOK k -> forall fuel s u2 C D E HS c,
  CInv (s :: C) D (plus E (fdq u2)) HS c -> s ∉ C -> socks (nt c) !! s = Some u2 ->
  (forall p, peer u2 = Some p -> exists v, socks (nt c) !! p = Some v /\ peer v = Some s) ->
  (in_use c <= k)%nat -> (3 * k <= fuel)%nat ->
  exists c', close_tail fuel s u2 c = Some c' /\ CInv C D E HS c' /\ Shrink C D c c'.
Proof.
  intros Hk fuel s u2 C D E HS c HI Hn Hs Hp Hu Hf.
  destruct (cut_peer _ _ _ _ _ _ _ HI Hs Hp) as (c4 & E4 & HI4 & (u4 & Hu4 & Eq4) & Hc4 & Hl4 & Ef4 & Er4 & Hnp4).
  assert (in_use c4 = in_use c) as Eu4 by (unfold in_use; by rewrite Ef4).
  assert (ledger c4 = ledger c) as El4 by (unfold ledger; by rewrite Ef4, Er4).
  rewrite <- Eq4 in HI4. destruct (fold_unref k Hk fuel (fdq u4) _ _ _ _ _ HI4) as (c5 & E5 & HI5 & S5); [lia|done|].
  destruct (close_end _ _ _ _ _ _ HI5 Hn) as [HI6 S6].
  { intros x w Hx Hw Hws. destruct (sh_socks _ _ _ _ S5 x w Hw) as (w4 & Hw4 & Hcut).
    apply cut_same in Hcut as (_ & _ & _ & _ & [Hpw|Hpw]); [|congruence]. apply (Hnp4 x w4 Hx Hw4). congruence. }
  exists (drop_sock s c5). split; [unfold close_tail; rewrite E4; cbn; rewrite Hu4; cbn; by rewrite E5|].
  split; [done|]. split.
  - intros x v Hx. destruct (sh_socks _ _ _ _ S6 x v Hx) as (v5 & Hv5 & Hcut5). cbn in Hx.
    apply lookup_delete_Some in Hx as [Hxs _]. destruct (sh_socks _ _ _ _ S5 x v5 Hv5) as (v4 & Hv4 & Hcut4).
    destruct (Hc4 x v4) as (v3 & Hv3 & Hcut3); [done|done|]. exists v3. split; [done|].
    eapply cut_trans; [done|]. by eapply cut_trans.
  - intros x Hx Hsx. apply (sh_closing _ _ _ _ S6); [done|]. apply (sh_closing _ _ _ _ S5); [by right|].
    apply Hl4; [intros ->; done|done].
  - intros d Hd. rewrite (sh_dying _ _ _ _ S6), (sh_dying _ _ _ _ S5) by done. by rewrite Ef4.
  - pose proof (sh_use _ _ _ _ S6). pose proof (sh_use _ _ _ _ S5). lia.
  - by rewrite (sh_ledger _ _ _ _ S6), (sh_ledger _ _ _ _ S5), El4.
Qed.

Lemma usock_close_S fuel s c : usock_close (S fuel) s c =
  (u ← socks (nt c) !! s; c2 ← foldM (usock_close fuel) (accq u) (unname s u c);
   u2 ← socks (nt c2) !! s; close_tail fuel s u2 c2).
Proof. reflexivity. Qed.

(** A connection nobody accepted. *)
Lemma close_leaf k : UnrefOK k -> forall fuel s u C D E HS c,
  CInv C D E (s :: HS) c -> socks (nt c) !! s = Some u -> accq u = [] ->
  (in_use c <= k)%nat -> (3 * k + 1 <= fuel)%nat ->
  exists c', usock_close fuel s c = Some c' /\ CInv C D E HS c' /\ Shrink C D c c'.
Proof.
  intros Hk fuel s u C D E HS c HI Hs Ha Hu Hf. destruct fuel as [|fuel]; [lia|].
  destruct (close_begin _ _ _ _ _ _ _ HI Hs) as (HI1 & S1 & _). destruct (unname_socks s u c) as (Es & Ef & _).
  destruct (due_live _ _ _ _ _ _ HI) as (u' & _ & Hn & _). rewrite Ha in HI1.
  destruct (close_tail_ok k Hk fuel s u C D E HS (unname s u c)) as (c' & E' & HI' & S').
  - done.
  - done.
  - by rewrite Es.
  - intros p Hp. rewrite Es. by apply (ci_peer _ _ _ _ _ HI s u p).
  - pose proof (sh_use _ _ _ _ S1). lia.
  - lia.
  - exists c'. split; [rewrite usock_close_S, Hs; cbn; rewrite Ha; cbn; by rewrite Es, Hs|]. split; [done|].
    eapply Shrink_trans; [|done]. eapply Shrink_weaken; [done|set_solver|done].
Qed.

Lemma leaf_cut u v : leaf u -> cut u v -> leaf v.
Proof. unfold leaf. intros (? & ? & ?) (_ & -> & -> & -> & _)%cut_same. done. Qed.

Lemma fold_close k : UnrefOK k -> forall fuel l C D E HS c,
  CInv C D E (l ++ HS) c -> (forall a, a ∈ l -> exists v, socks (nt c) !! a = Some v /\ leaf v) ->
  (in_use c <= k)%nat -> (3 * k + 1 <= fuel)%nat ->
  exists c', foldM (usock_close fuel) l c = Some c' /\ CInv C D E HS c' /\ Shrink C D c c'.
Proof.
  intros Hk fuel l. induction l as [|a l IH]; intros C D E HS c HI Hl Hu Hf.
  - exists c. split; [done|]. split; [done|apply Shrink_refl].
  - destruct (Hl a) as (v & Hv & (_ & Hva & _)); [by left|].
    destruct (close_leaf k Hk fuel a v C D E (l ++ HS) c) as (c1 & E1 & HI1 & S1); [done..|].
    destruct (IH C D E HS c1 HI1) as (c2 & E2 & HI2 & S2).
    + intros b Hb. assert (is_Some (socks (nt c1) !! b)) as [w Hw].
      { pose proof (ci_own _ _ _ _ _ HI1 b) as Ho. rewrite occ_app in Ho. pose proof (proj2 (occ_in b l) Hb).
        destruct (decide _) as [[? _]|]; [done|lia]. }
      destruct (sh_socks _ _ _ _ S1 b w Hw) as (v' & Hv' & Hc). destruct (Hl b) as (v'' & Hv'' & Hlf); [by right|].
      exists w. split; [done|]. assert (v'' = v') as -> by congruence. by eapply leaf_cut.
    + pose proof (sh_use _ _ _ _ S1). lia.
    + done.
    + exists c2. split; [cbn [foldM]; by rewrite E1|]. split; [done|]. by eapply Shrink_trans.
Qed.

Lemma close_ok k : UnrefOK k -> forall fuel s C D E HS c,
  CInv C D E (s :: HS) c -> (in_use c <= k)%nat -> (3 * k + 2 <= fuel)%nat ->
  exists c', usock_close fuel s c = Some c' /\ CInv C D E HS c' /\ Shrink C D c c'.
Proof.
  intros Hk fuel s C D E HS c HI Hu Hf. destruct fuel as [|fuel]; [lia|].
  destruct (due_live _ _ _ _ _ _ HI) as (u & Hs & Hn & _).
  destruct (close_begin _ _ _ _ _ _ _ HI Hs) as (HI1 & S1 & Hlf). destruct (unname_socks s u c) as (Es & Ef & _).
  destruct (fold_close k Hk fuel (accq u) _ _ _ _ _ HI1) as (c2 & E2 & HI2 & S2).
  { intros a Ha. rewrite Es. auto. }
  { pose proof (sh_use _ _ _ _ S1). lia. }
  { lia. }
  destruct (sh_closing _ _ _ _ S2 s) as [u2 Hu2]; [by left|rewrite Es; by eexists|].
  destruct (sh_socks _ _ _ _ S2 s u2 Hu2) as (u' & Hu' & Hcut). rewrite Es in Hu'. assert (u' = u) as -> by congruence.
  pose proof (cut_same _ _ Hcut) as (Hfq & Haq & _ & _ & Hpr). rewrite <- Hfq in HI2.
  destruct (close_tail_ok k Hk fuel s u2 C D E HS c2 HI2) as (c' & E' & HI' & S'); [done|done| | |lia|].
  - intros p Hp. destruct Hpr as [Hpr|Hpr]; [|congruence]. rewrite Hpr in Hp.
    destruct (accq u) as [|a l] eqn:Eq.
    + cbn in E2. injection E2 as <-. rewrite Es. by apply (ci_peer _ _ _ _ _ HI s u p).
    + destruct (ci_lst _ _ _ _ _ HI s u Hs) as [Hl1 Hl2]. rewrite Hl1 in Hp; [done|]. apply Hl2. by rewrite Eq.
  - pose proof (sh_use _ _ _ _ S1). pose proof (sh_use _ _ _ _ S2). lia.
  - exists c'. split; [rewrite usock_close_S, Hs; cbn; rewrite E2; cbn; by rewrite Hu2|]. split; [done|].
    eapply Shrink_trans; [|done]. eapply Shrink_weaken; [by eapply Shrink_trans|set_solver|done].
Qed.

Lemma unref_ok k : UnrefOK k.
Proof.
  induction k as [|k IH]; intros fuel o C D E HS c HI Hu Hf;
    destruct (ref_pos _ _ _ _ _ _ _ HI) as (f & Hfo & Hr & Hnd & _).
  { pose proof (msum_ge (fun _ f => if decide (refcount f = 0) then 0%nat else 1%nat) _ _ _ Hfo) as H.
    fold (in_use c) in H. cbn in H. rewrite decide_False in H by lia. lia. }
  destruct fuel as [|fuel]; [lia|]. cbn [ofile_unref]. rewrite Hfo. cbn [mbind option_bind].
  destruct (Z.ltb_spec 0 (refcount f - 1)).
  { eexists. split; [reflexivity|]. apply unref_shared; [done|done|lia]. }
  assert (refcount f = 1) as Er by lia. rewrite Er.
  destruct (unref_last _ _ _ _ _ _ _ HI Hfo Er) as (HI1 & S1 & Hu1 & _). cbv zeta in *.
  set (c1 := put_ofile o (set_ref f 0) c) in *.
  assert (exists c2, match kind f with FD_SOCK => usock_close fuel (res f) c1 | _ => Some c1 end = Some c2 /\
    CInv C (o :: D) E HS c2 /\ Shrink C (o :: D) c1 c2) as (c2 & E2 & HI2 & S2).
  { unfold behind in HI1. destruct (decide (kind f = FD_SOCK)) as [Ek|Ek].
    - rewrite Ek. apply (close_ok k IH fuel (res f) C (o :: D) E HS c1); [done|lia|lia].
    - exists c1. split; [by destruct (kind f)|]. split; [done|apply Shrink_refl]. }
  change (1 - 1 <? 0) with false. change (1 - 1) with 0. cbn [mbind option_bind]. fold c1. rewrite E2. cbn [mbind option_bind]. eexists. split; [reflexivity|].
  assert (ofiles c2 !! o = Some (set_ref f 0)) as Ho2.
  { rewrite (sh_dying _ _ _ _ S2 o) by left. apply lookup_insert_eq. }
  destruct (free_ofile _ _ _ _ _ _ _ HI2 Hnd Ho2 eq_refl) as [HI3 S3]. split; [done|].
  eapply Shrink_trans; [done|]. eapply Shrink_trans; [|done]. eapply Shrink_weaken; [done|done|set_solver].
Qed.

(** ** The two functions as the callers use them *)

Lemma in_use_size c : (in_use c <= size (ofiles c))%nat.
Proof.
  unfold in_use. induction (ofiles c) as [|o f m Hm IH] using map_ind; [by rewrite msum_empty|].
  rewrite msum_insert, map_size_insert_None by done. case_match; lia.
Qed.

Lemma unref_spec C D E HS c o : CInv C D (plus E [o]) HS c ->
  exists c', unref o c = Some c' /\ CInv C D E HS c' /\ Shrink C D c c'.
Proof. intros HI. eapply unref_ok; [done|apply in_use_size|unfold deep; lia]. Qed.

Lemma close_sock_spec C D E HS c s : CInv C D E (s :: HS) c ->
  exists c', close_sock s c = Some c' /\ CInv C D E HS c' /\ Shrink C D c c'.
Proof. intros HI. eapply close_ok; [apply unref_ok|done|apply in_use_size|unfold deep; lia]. Qed.

Lemma unrefs_spec l C D E HS c : CInv C D (plus E l) HS c ->
  exists c', foldM unref l c = Some c' /\ CInv C D E HS c' /\ Shrink C D c c'.
Proof.
  revert c. induction l as [|o l IH]; intros c HI.
  - exists c. split; [done|]. split; [by apply plus_nil|apply Shrink_refl].
  - destruct (unref_spec C D (plus E l) HS c o) as (c1 & E1 & HI1 & S1); [by apply plus_cons|].
    destruct (IH c1 HI1) as (c2 & E2 & HI2 & S2). exists c2. split; [cbn [foldM]; by rewrite E1|]. split; [done|].
    by eapply Shrink_trans.
Qed.

End FdTableCore.
