(* ===== verification/FdTableNet.v ===== *)
(** * Open descriptions: creation, references, and the socket calls
    (kernel/core/fd.c, usock.c)

    Between two system calls nothing is half closed: [CI].  Each socket call
    keeps it, and says what references and what sockets it hands over. *)

From stdpp Require Import base gmap list.
From Stdlib Require Import ZArith Lia Bool.
From S2P Require Import Prelude Usock FdTable FdTableCore.
Open Scope Z_scope.

Module FdTableNet.
Import Usock FdTable FdTableCore.

Notation CI := (CInv [] []).

Lemma cnt_nil s o l : cnt [] s o l = occ o l.
Proof. unfold cnt. by rewrite decide_False by (by intros ?%not_elem_of_nil). Qed.

(** ** Descriptions *)

Lemma not_live E HS c o : CI E HS c -> ofiles c !! o = None -> E o = 0%nat /\ queued [] c o = 0%nat.
Proof. intros HI Ho. destruct (decide (0 < E o + queued [] c o)%nat) as [H|]; [|lia].
  apply (ci_live _ _ _ _ _ HI) in H as [? ?]. congruence. Qed.

Lemma live_ref E HS c o f : CI E HS c -> ofiles c !! o = Some f ->
  refcount f <> 0 /\ refcount f = Z.of_nat (E o + queued [] c o).
Proof.
  intros HI Ho. split; [|by apply (ci_ref _ _ _ _ _ HI)]. intros H.
  apply (ci_pos _ _ _ _ _ HI _ _ Ho) in H. by apply not_elem_of_nil in H.
Qed.

Lemma ofile_new E HS c a k s nb : ofiles c !! a = None -> CI E (behind (OFile k 1 s nb) ++ HS) c ->
  CI (plus E [a]) HS (put_ofile a (OFile k 1 s nb) c).
Proof.
  intros Ha HI. destruct (not_live _ _ _ _ HI Ha) as [He Hq]. destruct HI as [HR HL HP HO HC Hpe Hls Hac Hrg].
  assert (forall x, queued [] (put_ofile a (OFile k 1 s nb) c) x = queued [] c x) as EQ by done.
  split; cbn [ofiles nt put_ofile]; try done.
  - intros x g [[<- <-]|[Hne Hg]]%lookup_insert_Some; rewrite EQ; unfold plus.
    + rewrite occ_self. cbn. lia.
    + rewrite occ_ne by done. cbn. rewrite Nat.add_0_r. by apply HR.
  - intros x. rewrite EQ. unfold plus. destruct (decide (a = x)) as [<-|Hne]; [rewrite lookup_insert_eq; by eexists|].
    rewrite occ_ne, lookup_insert_ne by done. cbn. rewrite Nat.add_0_r. apply HL.
  - intros x g [[<- <-]|[Hne Hg]]%lookup_insert_Some; [|by apply HP]. cbn. split; [done|by intros ?%not_elem_of_nil].
  - intros x. rewrite <- HO. unfold owners. cbn. rewrite msum_insert, occ_app by done.
    unfold behind, owns at 1. cbn. destruct (decide (k = FD_SOCK)); cbn; repeat case_decide; naive_solver lia.
Qed.

Lemma ofile_ref_ok E HS c o f : CI E HS c -> ofiles c !! o = Some f ->
  exists c', ofile_ref o c = Some c' /\ CI (plus E [o]) HS c' /\ ledger c' ≡ₚ ledger c /\
    nt c' = nt c /\ dom (ofiles c') = dom (ofiles c).
Proof.
  intros HI Ho. destruct (live_ref _ _ _ _ _ HI Ho) as [Hr0 Hr]. destruct HI as [HR HL HP HO HC Hpe Hls Hac Hrg].
  set (c' := put_ofile o (set_ref f (refcount f + 1)) c).
  exists c'. split; [unfold ofile_ref; by rewrite Ho|].
  split; [|split; [by apply ledger_put|split; [done|cbn; apply dom_insert_lookup_L; by eexists]]].
  assert (forall x, queued [] c' x = queued [] c x) as EQ by done.
  split; cbn [ofiles nt put_ofile c']; try done.
  - intros x g [[<- <-]|[Hne Hg]]%lookup_insert_Some; rewrite EQ; unfold plus.
    + rewrite occ_self. cbn. lia.
    + rewrite occ_ne by done. cbn. rewrite Nat.add_0_r. by apply HR.
  - intros x. rewrite EQ. unfold plus. destruct (decide (o = x)) as [<-|Hne]; [rewrite lookup_insert_eq; by eexists|].
    rewrite occ_ne, lookup_insert_ne by done. cbn. rewrite Nat.add_0_r. apply HL.
  - intros x g [[<- <-]|[Hne Hg]]%lookup_insert_Some; [|by apply HP]. cbn.
    split; [lia|by intros ?%not_elem_of_nil].
  - intros x. rewrite <- HO. f_equal.
    pose proof (owners_put_ofile [] c o f (set_ref f (refcount f + 1)) x Ho) as H.
    rewrite owns_set_ref in H by lia. fold c' in H. lia.
Qed.

Lemma ofile_refs_ok l E HS c : CI E HS c -> (forall o, o ∈ l -> is_Some (ofiles c !! o)) ->
  exists c', foldM ofile_ref l c = Some c' /\ CI (plus E l) HS c' /\ ledger c' ≡ₚ ledger c /\ nt c' = nt c.
Proof.
  revert E c. induction l as [|o l IH]; intros E c HI Hl.
  - exists c. split; [done|]. split; [by apply plus_nil|done].
  - destruct (Hl o) as [f Hf]; [by left|]. destruct (ofile_ref_ok _ _ _ _ _ HI Hf) as (c1 & E1 & HI1 & L1 & N1 & D1).
    destruct (IH _ c1 HI1) as (c2 & E2 & HI2 & L2 & N2).
    { intros x Hx. apply elem_of_dom. rewrite D1. apply elem_of_dom, Hl. by right. }
    exists c2. split; [cbn [foldM]; by rewrite E1|]. split; [|split; [by rewrite L2|congruence]].
    eapply CInv_ext; [|done|done]. intros x. unfold plus. cbn. lia.
Qed.

(** ** Sockets *)

(** A socket as it is created, alone. *)
Definition alone (u : usock) : Prop := peer u = None /\ fdq u = [] /\ leaf u.

Lemma sock_new E HS c s u : CI E HS c -> socks (nt c) !! s = None -> alone u -> CI E (s :: HS) (put_sock s u c).
Proof.
  intros [HR HL HP HO HC Hpe Hls Hac Hrg] Hs (Hp & Hq & Hl & Ha & Hpa).
  assert (forall x, queued [] (put_sock s u c) x = queued [] c x) as EQ.
  { intros x. unfold queued. cbn. by rewrite msum_insert, Hq by done. }
  assert (forall x, owners [] (put_sock s u c) x = owners [] c x) as EO.
  { intros x. unfold owners. cbn. by rewrite msum_insert, Ha by done. }
  assert (forall x w, socks (nt c) !! x = Some w -> socks (nt (put_sock s u c)) !! x = Some w) as Hkeep.
  { intros x w Hx. cbn. rewrite lookup_insert_ne; [done|]. intros ->. congruence. }
  split.
  - intros o f Ho. rewrite EQ. by apply HR.
  - intros o. rewrite EQ. apply HL.
  - done.
  - intros x. rewrite EO. pose proof (HO x) as Hx. cbn [nt put_sock set_net put socks]. destruct (decide (s = x)) as [<-|Hne].
    + rewrite occ_self, lookup_insert_eq, decide_True by (split; [by eexists|by intros ?%not_elem_of_nil]).
      rewrite decide_False in Hx by (rewrite Hs; by intros [[? ?] _]). lia.
    + by rewrite occ_ne, lookup_insert_ne by done.
  - by intros x ?%not_elem_of_nil.
  - intros x w p Hx Hw Hwp. cbn in Hw. apply lookup_insert_Some in Hw as [[<- <-]|[_ Hw]]; [congruence|].
    destruct (Hpe _ _ _ Hx Hw Hwp) as (v & Hv & Hvx). eauto.
  - intros x w Hw. cbn in Hw. apply lookup_insert_Some in Hw as [[<- <-]|[_ Hw]]; [|by apply (Hls x)].
    split; [congruence|]. by rewrite Ha.
  - intros x w a Hx Hw Hwa. cbn in Hw. apply lookup_insert_Some in Hw as [[<- <-]|[_ Hw]].
    + rewrite Ha in Hwa. by apply not_elem_of_nil in Hwa.
    + destruct (Hac _ _ _ Hx Hw Hwa) as (v & Hv & Hvx). eauto.
  - intros i name t Hi. destruct (Hrg _ _ _ Hi) as (Ht & v & Hv & Hvp). eauto.
Qed.

(** The fields a socket keeps when only its data or its shutdown bits change. *)
Definition linked (u v : usock) : Prop :=
  peer v = peer u /\ listening v = listening u /\ accq v = accq u /\ path v = path u.

Lemma linked_leaf u v : linked u v -> leaf u -> leaf v.
Proof. unfold linked, leaf. intros (_ & -> & -> & ->). done. Qed.

(** A socket rewritten with other passed descriptors in its queue. *)
Lemma sock_queue E E' HS c s u v : CI E HS c -> socks (nt c) !! s = Some u -> linked u v ->
  (forall o, E' o + occ o (fdq v) = E o + occ o (fdq u))%nat -> CI E' HS (put_sock s v c).
Proof.
  intros HI Hs Hl HE. pose proof Hl as (Hp & Hli & Ha & Hpa). pose proof (ci_lst _ _ _ _ _ HI _ _ Hs) as [H1 H2].
  eapply CInv_rewrite; [done|done|done|by rewrite Ha|by rewrite Hpa| | |by rewrite Hli, Hp|by rewrite Hli, Ha|by left].
  - intros x w Hx Hw Hsx. destruct (ci_acc _ _ _ _ _ HI _ _ _ Hx Hw Hsx) as (y & Hy & Hyl).
    eapply linked_leaf; [done|]. congruence.
  - intros a Hn. rewrite Ha. intros Haa. destruct (ci_acc _ _ _ _ _ HI _ _ _ Hn Hs Haa) as (y & Hy & Hyl). cbn.
    destruct (decide (s = a)) as [<-|]; [|exists y; by rewrite lookup_insert_ne].
    exists v. rewrite lookup_insert_eq. split; [done|]. eapply linked_leaf; [done|]. congruence.
Qed.

Lemma sock_data E HS c s u v : CI E HS c -> socks (nt c) !! s = Some u -> linked u v -> fdq v = fdq u ->
  CI E HS (put_sock s v c).
Proof. intros HI Hs Hl Hq. eapply sock_queue; [done..|]. intros o. by rewrite Hq. Qed.

(** Nobody points to a socket without a peer. *)
Lemma no_peer E HS c s u : CI E HS c -> socks (nt c) !! s = Some u -> peer u = None ->
  forall x w, socks (nt c) !! x = Some w -> peer w <> Some s.
Proof.
  intros HI Hs Hp x w Hw Hwp. destruct (ci_peer _ _ _ _ _ HI x w s) as (v & Hv & Hvx); [by intros ?%not_elem_of_nil|done|done|].
  congruence.
Qed.

(** Two sockets without a peer are connected. *)
Definition joined (u v : usock) (p : nat) : Prop :=
  peer v = Some p /\ listening u = false /\ listening v = false /\ accq v = accq u /\ path v = path u /\ fdq v = fdq u.

Lemma sock_join E HS c a b ua ub va vb : CI E HS c -> a <> b ->
  socks (nt c) !! a = Some ua -> socks (nt c) !! b = Some ub -> peer ua = None -> peer ub = None ->
  joined ua va b -> joined ub vb a -> CI E HS (put_sock b vb (put_sock a va c)).
Proof.
  intros HI Hab Ha Hb Hpa Hpb (Jp & Jl & Jl' & Ja & Jpa & Jf) (Kp & Kl & Kl' & Ka & Kpa & Kf).
  pose proof (no_peer _ _ _ _ _ HI Ha Hpa) as Na. pose proof (no_peer _ _ _ _ _ HI Hb Hpb) as Nb.
  pose proof (ci_lst _ _ _ _ _ HI _ _ Ha) as [_ La]. pose proof (ci_lst _ _ _ _ _ HI _ _ Hb) as [_ Lb].
  assert (socks (nt (put_sock a va c)) !! b = Some ub) as Hb1 by (cbn; by rewrite lookup_insert_ne).
  pose proof HI as [HR HL HP HO HC Hpe Hls Hac Hrg].
  assert (forall x, queued [] (put_sock b vb (put_sock a va c)) x = queued [] c x) as EQ.
  { intros x. pose proof (queued_put [] _ b ub vb x Hb1) as H1. pose proof (queued_put [] c a ua va x Ha) as H2.
    rewrite Kf in H1. rewrite Jf in H2. lia. }
  assert (forall x, owners [] (put_sock b vb (put_sock a va c)) x = owners [] c x) as EO.
  { intros x. pose proof (owners_put [] _ b ub vb x Hb1) as H1. pose proof (owners_put [] c a ua va x Ha) as H2.
    rewrite Ka in H1. rewrite Ja in H2. lia. }
  assert (forall x w, socks (nt c) !! x = Some w -> exists v, socks (nt (put_sock b vb (put_sock a va c))) !! x = Some v /\
    (leaf w -> leaf v) /\ path v = path w /\ (x <> a -> x <> b -> v = w)) as Hup.
  { intros x w Hw. cbn. destruct (decide (b = x)) as [<-|Hbx]; [rewrite lookup_insert_eq|rewrite lookup_insert_ne by done;
      destruct (decide (a = x)) as [<-|Hax]; [rewrite lookup_insert_eq|rewrite lookup_insert_ne by done]].
    - exists vb. assert (w = ub) as -> by congruence. unfold leaf. rewrite Ka, Kpa. naive_solver.
    - exists va. assert (w = ua) as -> by congruence. unfold leaf. rewrite Ja, Jpa. naive_solver.
    - exists w. naive_solver. }
  split.
  - intros o f Ho. rewrite EQ. by apply HR.
  - intros o. rewrite EQ. apply HL.
  - done.
  - intros x. rewrite EO, HO. assert (is_Some (socks (nt (put_sock b vb (put_sock a va c))) !! x) <-> is_Some (socks (nt c) !! x)) as Hd.
    { cbn. rewrite is_Some_insert by done. by rewrite is_Some_insert. }
    destruct (decide _) as [[? ?]|H1], (decide _) as [[? ?]|H2]; try done; tauto.
  - by intros x ?%not_elem_of_nil.
  - intros x w p _ Hw Hwp. cbn in Hw |- *.
    apply lookup_insert_Some in Hw as [[<- <-]|[Hbx Hw]].
    { assert (p = a) as -> by congruence. exists va. rewrite lookup_insert_ne, lookup_insert_eq by done. done. }
    apply lookup_insert_Some in Hw as [[<- <-]|[Hax Hw]].
    { assert (p = b) as -> by congruence. exists vb. by rewrite lookup_insert_eq. }
    destruct (Hpe x w p) as (v & Hv & Hvx); [by intros ?%not_elem_of_nil|done|done|]. exists v.
    rewrite !lookup_insert_ne; [done| |]; intros <-; [by apply (Na x w)|by apply (Nb x w)].
  - intros x w Hw. cbn in Hw. apply lookup_insert_Some in Hw as [[<- <-]|[_ Hw]]; [rewrite Kl', Ka; split; [done|]; rewrite <- Kl; auto|].
    apply lookup_insert_Some in Hw as [[<- <-]|[_ Hw]]; [rewrite Jl', Ja; split; [done|]; rewrite <- Jl; auto|]. by apply (Hls x).
  - intros x w y _ Hw Hwy. assert (exists w', socks (nt c) !! x = Some w' /\ y ∈ accq w') as (w' & Hw' & Hwy').
    { cbn in Hw. apply lookup_insert_Some in Hw as [[<- <-]|[_ Hw]]; [exists ub; by rewrite <- Ka|].
      apply lookup_insert_Some in Hw as [[<- <-]|[_ Hw]]; [exists ua; by rewrite <- Ja|]. by exists w. }
    destruct (Hac x w' y) as (v & Hv & Hvl); [by intros ?%not_elem_of_nil|done|done|].
    destruct (Hup _ _ Hv) as (v' & Hv' & Hlf & _). eauto.
  - intros i name t Hi. destruct (Hrg _ _ _ Hi) as (Ht & v & Hv & Hvp). split; [done|].
    destruct (Hup _ _ Hv) as (v' & Hv' & _ & Hpv & _). exists v'. by rewrite Hpv.
Qed.

(** ** The calls on a socket a description owns *)

Lemma owned E HS c o f : CI E HS c -> ofiles c !! o = Some f -> kind f = FD_SOCK ->
  exists u, socks (nt c) !! res f = Some u /\ forall x w, socks (nt c) !! x = Some w -> res f ∉ accq w.
Proof.
  intros HI Ho Hk. destruct (live_ref _ _ _ _ _ HI Ho) as [Hr _]. pose proof (ci_own _ _ _ _ _ HI (res f)) as H.
  unfold owners in H. pose proof (msum_ge (fun _ g => owns (res f) g) _ _ _ Ho) as H1. cbn in H1. unfold owns in H1 at 1.
  rewrite decide_True in H1 by done. destruct (decide _) as [[[u Hu] _]|]; [|lia]. exists u. split; [done|].
  intros x w Hw Hin. apply occ_in in Hin.
  pose proof (msum_ge (fun y v => if decide (y ∈ []) then 0%nat else occ (res f) (accq v)) _ _ _ Hw) as H2.
  cbn beta in H2. rewrite decide_False in H2 by (by intros ?%not_elem_of_nil). lia.
Qed.

Lemma pass_fd_links p pass p' took : pass_fd p pass = (p', took) ->
  linked p p' /\ fdq p' = fdq p ++ took /\ (forall o, o ∈ took -> pass = Some o).
Proof.
  unfold pass_fd. repeat case_match; intros [= <- <-]; cbn; rewrite ?app_nil_r; (split; [done|]); (split; [done|]); set_solver.
Qed.

Lemma send_into_links p data pass p' r took woke : send_into p data pass = (p', r, took, woke) ->
  linked p p' /\ fdq p' = fdq p ++ took /\ (forall o, o ∈ took -> pass = Some o).
Proof.
  assert (forall o, o ∈ @nil nat -> pass = Some o) as Hnil by (by intros o ?%not_elem_of_nil).
  unfold send_into. destruct (seqpacket p).
  - destruct (_ <? _); [intros [= <- <- <- <-]; by rewrite app_nil_r|].
    destruct (_ <? _); [intros [= <- <- <- <-]; by rewrite app_nil_r|].
    destruct (pass_fd _ _) as [v tk] eqn:E. intros [= <- <- <- <-]. by apply pass_fd_links in E.
  - destruct (send_loop _ _ _ _) as [[b cc] w]. destruct (pass_fd _ _) as [v tk] eqn:E.
    intros [= <- <- <- <-]. by apply pass_fd_links in E.
Qed.

Lemma refs_set_net l n c : foldM ofile_ref l (set_net n c) = set_net n <$> foldM ofile_ref l c.
Proof.
  revert c. induction l as [|o l IH]; intros c; cbn [foldM]; [done|].
  assert (ofile_ref o (set_net n c) = set_net n <$> ofile_ref o c) as -> by (unfold ofile_ref; cbn; by destruct (ofiles c !! o)).
  destruct (ofile_ref o c) as [c1|]; cbn [mbind option_bind fmap option_fmap option_map]; [apply IH|done].
Qed.

Lemma send_ok E HS c s u data pf : CI E HS c -> socks (nt c) !! s = Some u ->
  (forall o, pf = Some o -> is_Some (ofiles c !! o)) ->
  exists n r took w c', usock_send (nt c) s data pf = Some (n, r, took, w) /\
    foldM ofile_ref took (set_net n c) = Some c' /\ CI E HS c' /\ ledger c' ≡ₚ ledger c.
Proof.
  intros HI Hs Hpf. unfold usock_send, send_peer. rewrite Hs. cbn [mbind option_bind].
  assert (set_net (nt c) c = c) as Eid by (by destruct c).
  destruct (peer u) as [q|] eqn:Ep; [destruct (wr_shut u)|]; cbn [mbind option_bind];
    [by exists (nt c), (-1), [], [], c; rewrite Eid| |by exists (nt c), (-1), [], [], c; rewrite Eid].
  destruct (ci_peer _ _ _ _ _ HI s u q) as (p & Hp & _); [by intros ?%not_elem_of_nil|done|done|].
  rewrite Hp. cbn [mbind option_bind]. destruct (eof p); [by exists (nt c), (-1), [], [], c; rewrite Eid|].
  destruct (send_into p data pf) as [[[p' r] took] woke] eqn:Es. apply send_into_links in Es as (Hl & Hq & Ht).
  destruct (ofile_refs_ok took E HS c HI) as (c1 & E1 & HI1 & L1 & N1); [by intros o ?%Ht%Hpf|].
  exists (put q p' (nt c)), r, took, (if woke then [Readers q] else []), (put_sock q p' c1).
  split; [done|]. split; [rewrite refs_set_net, E1; cbn; unfold put_sock; by rewrite N1|]. split; [|done].
  eapply (sock_queue (plus E took)); [done|by rewrite N1|done|]. intros o. unfold plus. rewrite Hq, occ_app. lia.
Qed.

Lemma recv_ring_links u n u' out tm : recv_ring u n = (u', out, tm) -> linked u u' /\ fdq u' = fdq u.
Proof.
  unfold recv_ring. destruct (seqpacket u).
  - destruct (_ <=? _); [destruct (seq_loop _ _ _ _)|]; by intros [= <- <- <-].
  - destruct (drain_loop _ _ _ _) as [[? ?] ?]. by intros [= <- <- <-].
Qed.

Lemma recv_from_links u n block stop want u' out passed r woke : recv_from u n block stop want = (u', out, passed, r, woke) ->
  linked u u' /\ fdq u = match passed with Some o => [o] | None => [] end ++ fdq u'.
Proof.
  unfold recv_from. destruct (_ && _ && _ && _ && _); [by intros [= <- <- <- <- <-]|].
  destruct (recv_ring u n) as [[v o] tm] eqn:Er. apply recv_ring_links in Er as [Hl Hq].
  destruct (take_fd v want) as [w ps] eqn:Et. intros [= <- <- <- <- <-]. unfold take_fd in Et.
  destruct want; [destruct (fdq v) eqn:Ev|]; injection Et as <- <-; rewrite <- Hq, ?Ev; done.
Qed.

Lemma recv_ok E HS c s u len block stop want : CI E HS c -> socks (nt c) !! s = Some u ->
  exists n out passed r w, usock_recv (nt c) s len block stop want = Some (n, out, passed, r, w) /\
    CI (plus E (match passed with Some o => [o] | None => [] end)) HS (set_net n c).
Proof.
  intros HI Hs. unfold usock_recv. rewrite Hs. cbn [mbind option_bind].
  destruct (recv_from u len block stop want) as [[[[u' out] passed] r] woke] eqn:Er.
  apply recv_from_links in Er as [Hl Hq]. do 5 eexists. split; [done|].
  eapply sock_queue; [done..|]. intros o. unfold plus. rewrite Hq, occ_app. lia.
Qed.

Lemma listen_ok E HS c o f bl me : CI E HS c -> ofiles c !! o = Some f -> kind f = FD_SOCK ->
  exists n r, usock_listen (nt c) (res f) bl me = Some (n, r) /\ CI E HS (set_net n c).
Proof.
  intros HI Ho Hk. destruct (owned _ _ _ _ _ HI Ho Hk) as (u & Hu & Hna). unfold usock_listen. rewrite Hu. cbn [mbind option_bind].
  assert (set_net (nt c) c = c) as Eid by (by destruct c).
  destruct (bool_decide_reflect (is_Some (peer u))) as [Hp|Hp]; [by exists (nt c), (-22); rewrite Eid|].
  destruct (bool_decide (path u = [])); [by exists (nt c), (-22); rewrite Eid|].
  do 2 eexists. split; [done|]. eapply CInv_rewrite; [done|done|done|done|done| | | |done|by left].
  - intros x w _ Hw Hin. by destruct (Hna x w Hw).
  - intros a Hn Ha. destruct (ci_acc _ _ _ _ _ HI _ _ _ Hn Hu Ha) as (y & Hy & Hyl). exists y. split; [|done]. cbn.
    rewrite lookup_insert_ne; [done|]. intros <-. by destruct (Hna _ _ Hu).
  - intros _. cbn. destruct (peer u); [by destruct Hp|done].
Qed.

Lemma accept_ok E HS c o f block stop : CI E HS c -> ofiles c !! o = Some f -> kind f = FD_SOCK ->
  exists n a r, usock_accept (nt c) (res f) block stop = Some (n, a, r) /\
    CI E (match a with Some s => [s] | None => [] end ++ HS) (set_net n c) /\
    match a with Some s => is_Some (socks n !! s) | None => True end.
Proof.
  intros HI Ho Hk. destruct (owned _ _ _ _ _ HI Ho Hk) as (u & Hu & Hna). unfold usock_accept. rewrite Hu. cbn [mbind option_bind].
  assert (set_net (nt c) c = c) as Eid by (by destruct c).
  destruct (listening u) eqn:El; cbn [negb]; [|by exists (nt c), None, (Ret (-22)); rewrite Eid].
  destruct (accq u) as [|a q] eqn:Eq; [do 3 eexists; split; [done|]; by rewrite Eid|].
  exists (put (res f) (set_accq u q) (nt c)), (Some a), (Ret 0). split; [done|].
  pose proof (ci_lst _ _ _ _ _ HI _ _ Hu) as [Hl1 Hl2].
  assert (forall x, x ∈ a :: q -> exists y, socks (nt (put_sock (res f) (set_accq u q) c)) !! x = Some y /\ leaf y) as Hlf.
  { intros x Hx. destruct (ci_acc _ _ _ _ _ HI (res f) u x) as (y & Hy & Hyl); [by intros ?%not_elem_of_nil|done|by rewrite Eq|].
    exists y. split; [|done]. cbn. rewrite lookup_insert_ne; [done|]. intros <-. destruct (Hna _ _ Hu). by rewrite Eq. }
  split; [|destruct (Hlf a) as (y & Hy & _); [by left|by exists y]].
  eapply CInv_rewrite; [done|done|done| |done| | |done|done|by left].
  - intros x. rewrite !cnt_nil, Eq. cbn. lia.
  - intros x w _ Hw Hin. by destruct (Hna x w Hw).
  - intros x _ Hx. apply Hlf. by right.
Qed.

(** ** Names *)

(** Another registry whose names belong to bound sockets. *)
Lemma reg_ok E HS c r : CI E HS c ->
  (forall i name t, r !! i = Some (Some (name, t)) -> exists u, socks (nt c) !! t = Some u /\ path u <> []) ->
  CI E HS (set_net (Net (socks (nt c)) r) c).
Proof.
  intros [HR HL HP HO HC Hpe Hls Hac Hrg] Hr. split; try done.
  intros i name t Hi. split; [by intros ?%not_elem_of_nil|]. by eapply Hr.
Qed.

Lemma bind_ok E HS c o f name stat_ok opened : CI E HS c -> ofiles c !! o = Some f -> kind f = FD_SOCK ->
  exists n r, usock_bind (nt c) (res f) name stat_ok opened = Some (n, r) /\ CI E HS (set_net n c).
Proof.
  intros HI Ho Hk. destruct (owned _ _ _ _ _ HI Ho Hk) as (u & Hu & Hna). unfold usock_bind. rewrite Hu. cbn [mbind option_bind].
  assert (set_net (nt c) c = c) as Eid by (by destruct c).
  destruct name as [|ch name]; [by exists (nt c), (-22); rewrite Eid|].
  destruct (bool_decide (path u <> []) || _ || _) eqn:Eb; [by exists (nt c), (-22); rewrite Eid|].
  destruct (bind_scan _ _ _ _) as [|[slot|]]; [by exists (nt c), (-98); rewrite Eid| |by exists (nt c), (-105); rewrite Eid].
  assert (path u = []) as Epa. { destruct (path u); [done|]. cbn in Eb. done. }
  pose proof (ci_lst _ _ _ _ _ HI _ _ Hu) as [Hl1 Hl2].
  assert (forall p, CI E HS (put_sock (res f) (set_path u p) c)) as Hp.
  { intros p. eapply CInv_rewrite; [done|done|done|done|by rewrite Epa| | |done|done|by left].
    - intros x w _ Hw Hin. by destruct (Hna x w Hw).
    - intros a Hn Ha. destruct (ci_acc _ _ _ _ _ HI _ _ _ Hn Hu Ha) as (y & Hy & Hyl). exists y. split; [|done]. cbn.
      rewrite lookup_insert_ne; [done|]. intros <-. by destruct (Hna _ _ Hu). }
  set (r1 := <[slot := Some (clip (ch :: name), res f)]> (reg (nt c))).
  assert (CI E HS (set_net (Net (<[res f := set_path u (clip (ch :: name))]> (socks (nt c))) r1) c)) as Hyes.
  { apply (reg_ok _ _ _ r1 (Hp (clip (ch :: name)))). intros i nm t Hi. apply list_lookup_insert_Some in Hi as [(<- & [= <- <-] & _)|[Hne Hi]].
    - exists (set_path u (clip (ch :: name))). cbn. by rewrite lookup_insert_eq.
    - apply (ci_reg _ _ _ _ _ (Hp (clip (ch :: name))) i nm t). done. }
  assert (CI E HS (set_net (Net (<[res f := set_path u []]> (socks (nt c))) (reg_remove (res f) r1)) c)) as Hno.
  { apply (reg_ok _ _ _ (reg_remove (res f) r1) (Hp [])). intros i nm t Hi. apply reg_remove_lookup in Hi as [Hi Hts].
    apply list_lookup_insert_Some in Hi as [(<- & [= _ Ht] & _)|[Hne Hi]]; [congruence|].
    destruct (ci_reg _ _ _ _ _ HI i nm t Hi) as (_ & w & Hw & Hwp). exists w. cbn. by rewrite lookup_insert_ne. }
  destruct (ch =? 47); [destruct stat_ok; [|destruct opened; cbn [negb]]|]; do 2 eexists; (split; [done|]); done.
Qed.

Lemma reg_find_lookup name r t : reg_find name r = Some t -> exists i nm, r !! i = Some (Some (nm, t)).
Proof.
  induction r as [|[[p x]|] r IH]; cbn; [done| |intros (i & nm & Hi)%IH; by exists (S i), nm].
  destruct (ueq p name); [intros [= <-]; by exists 0%nat, p|]. intros (i & nm & Hi)%IH. by exists (S i), nm.
Qed.

Lemma connect_ok E HS c o f name me sa : CI E HS c -> ofiles c !! o = Some f -> kind f = FD_SOCK ->
  (forall a, sa = Some a -> socks (nt c) !! a = None) ->
  exists n r w, usock_connect (nt c) (res f) name me sa = Some (n, r, w) /\ CI E HS (set_net n c).
Proof.
  intros HI Ho Hk Hsa. destruct (owned _ _ _ _ _ HI Ho Hk) as (u & Hu & Hna).
  assert (set_net (nt c) c = c) as Eid by (by destruct c).
  unfold usock_connect, connect_find. rewrite Hu. cbn [mbind option_bind].
  destruct (listening u) eqn:Elu; [by exists (nt c), (-22), []; rewrite Eid|].
  destruct (bool_decide_reflect (is_Some (peer u))) as [Hp|Hp]; cbn [orb]; [by exists (nt c), (-106), []; rewrite Eid|].
  assert (peer u = None) as Epu by (destruct (peer u); [by destruct Hp|done]).
  destruct (ever_connected u); [by exists (nt c), (-106), []; rewrite Eid|].
  destruct (reg_find name (reg (nt c))) as [l|] eqn:Ef; [|by exists (nt c), (-111), []; rewrite Eid].
  apply reg_find_lookup in Ef as (i & nm & Hi). destruct (ci_reg _ _ _ _ _ HI _ _ _ Hi) as (_ & lu & Hl & Hlp).
  cbn [mbind option_bind]. unfold connect_queue. rewrite Hl. cbn [mbind option_bind].
  destruct (listening lu) eqn:Ell; cbn [negb]; [|by exists (nt c), (-111), []; rewrite Eid].
  destruct sa as [a|]; [|by exists (nt c), (-12), []; rewrite Eid].
  destruct (_ <=? _); [by exists (nt c), (-11), []; rewrite Eid|]. rewrite Hu. cbn [mbind option_bind].
  do 3 eexists. split; [reflexivity|]. specialize (Hsa a eq_refl).
  set (s := res f) in *. assert (a <> s) as Has by congruence. assert (a <> l) as Hal by congruence.
  assert (s <> l) as Hsl by congruence. clear Hi.
  pose proof (sock_new _ _ _ a (usock_new me) HI Hsa) as HI1. specialize (HI1 ltac:(done)).
  set (va := set_conn (usock_new me) s (own lu) me). set (vs := set_conn u a (own u) (own lu)).
  assert (CI E (a :: HS) (put_sock s vs (put_sock a va (put_sock a (usock_new me) c)))) as HI2.
  { eapply (sock_join _ _ _ a s (usock_new me) u); try done; cbn; [by rewrite lookup_insert_eq|by rewrite lookup_insert_ne]. }
  pose proof (ci_lst _ _ _ _ _ HI _ _ Hl) as [Hl1 Hl2].
  assert (set_net (put l (set_accq lu (accq lu ++ [a])) (put s vs (put a va (nt c)))) c =
    put_sock l (set_accq lu (accq lu ++ [a])) (put_sock s vs (put_sock a va (put_sock a (usock_new me) c)))) as ->.
  { unfold put_sock, put, set_net. cbn. by rewrite insert_insert_eq. }
  apply (CInv_rewrite [] [] E E (a :: HS) HS _ l lu); [exact HI2| |done| |done| | |by intros ?; apply Hl1|done|by left].
  - cbn. rewrite !lookup_insert_ne by done. done.
  - intros x. rewrite !cnt_nil. cbn. rewrite occ_app. cbn. lia.
  - intros x w _ Hw Hin. exfalso. destruct (ci_acc _ _ _ _ _ HI2 x w l) as (y & Hy & (Hyl & _)); [by intros ?%not_elem_of_nil|done|done|].
    cbn in Hy. rewrite !lookup_insert_ne in Hy by done. congruence.
  - intros x _ Hx. cbn in Hx. apply elem_of_app in Hx as [Hx|Hx%list_elem_of_singleton].
    + destruct (ci_acc _ _ _ _ _ HI2 l lu x) as (y & Hy & Hyl); [by intros ?%not_elem_of_nil|cbn; by rewrite !lookup_insert_ne|done|].
      exists y. split; [|done]. destruct (decide (l = x)) as [<-|Hne]; [|change (<[l := set_accq lu (accq lu ++ [a])]>
        (socks (nt (put_sock s vs (put_sock a va (put_sock a (usock_new me) c))))) !! x = Some y); by rewrite lookup_insert_ne].
      exfalso. destruct Hyl as [Hyl _]. cbn in Hy. rewrite !lookup_insert_ne in Hy by done. congruence.
    + subst x. exists va. cbn. rewrite !lookup_insert_ne, lookup_insert_eq by done. done.
Qed.

(** ** A connected pair *)

Lemma pair_ok E HS c me a b : CI E HS c -> a <> b -> socks (nt c) !! a = None -> socks (nt c) !! b = None ->
  CI E (a :: b :: HS) (set_net (usock_pair me (Some a) (Some b) (nt c)).1 c).
Proof.
  intros HI Hab Ha Hb.
  pose proof (sock_new _ _ _ b usock_zero HI Hb ltac:(done)) as HI1.
  assert (CI E (a :: b :: HS) (put_sock a usock_zero (put_sock b usock_zero c))) as HI2.
  { apply sock_new; [done|cbn; by rewrite lookup_insert_ne|done]. }
  pose proof (sock_join _ _ _ a b usock_zero usock_zero (set_conn usock_zero b me me) (set_conn usock_zero a me me) HI2 Hab) as HI3.
  cbn in HI3. rewrite lookup_insert_eq, lookup_insert_ne, lookup_insert_eq in HI3 by done.
  specialize (HI3 eq_refl eq_refl eq_refl eq_refl ltac:(done) ltac:(done)).
  unfold put_sock, put, set_net in *. cbn in *.
  rewrite insert_insert_eq, (insert_insert_ne _ a b), insert_insert_eq in HI3 by done. done.
Qed.

End FdTableNet.
