(* ===== verification/FdTableInv.v ===== *)
(** * Descriptor tables: the invariant and its building blocks
    (kernel/core/usyscall.c)

    The references to a description are exactly the slots, the copies a fork
    has in flight and the sockets' queues; the references to a shared table
    exactly the threads on it and the clones in flight.  [KInv X T S] allows
    for what a call in progress holds: references [X], tables [T], sockets [S]. *)

From stdpp Require Import base gmap list.
From Stdlib Require Import ZArith Lia Bool.
From S2P Require Import Prelude Usock FdTable FdTableCore FdTableNet.
Open Scope Z_scope.

Module FdTableInv.
Import Usock FdTable FdTableCore FdTableNet.
#[global] Arguments held : simpl never.

(** ** Slots *)

Lemma held_cons x l : held (x :: l) = match x with Some o => [o] | None => [] end ++ held l.
Proof. by destruct x. Qed.

Lemma held_app l l' : held (l ++ l') = held l ++ held l'.
Proof. unfold held. apply omap_app. Qed.

Lemma held_none n : held (replicate n None) = [].
Proof. induction n; [done|]. cbn. done. Qed.

Lemma held_insert l i x v o : l !! i = Some x ->
  (occ o (held (<[i := v]> l)) + occ o (held [x]) = occ o (held [v]) + occ o (held l))%nat.
Proof.
  revert i. induction l as [|y l IH]; intros [|i]; cbn [lookup list_lookup]; try done.
  - intros [= ->]. cbn [insert list_insert]. rewrite !held_cons, !occ_app. cbn. lia.
  - intros Hi. change (<[S i := v]> (y :: l)) with (y :: <[i := v]> l). rewrite !(held_cons y), !occ_app. specialize (IH i Hi). lia.
Qed.

Lemma held_elem l o : o ∈ held l <-> exists i, l !! i = Some (Some o).
Proof.
  unfold held. rewrite list_elem_of_omap. split.
  - intros (x & Hx & Ho). cbn in Ho. subst x. by apply list_elem_of_lookup in Hx.
  - intros [i Hi]. exists (Some o). split; [by eapply list_elem_of_lookup_2|done].
Qed.

(** A table as the code keeps it: 32 slots, and close-on-exec bits only for
    descriptors that are open (0, 1 and 2 always are). *)
Definition tab_wf (l : list (option nat)) (cx : Z) : Prop :=
  length l = TASK_MAX_FDS /\ 0 <= cx /\
  forall i, 0 <= i -> Z.testbit cx i = true -> i <= 2 \/ exists o, l !! Z.to_nat i = Some (Some o).

Lemma tab_wf_empty : tab_wf empty_slots 0.
Proof. split; [done|]. split; [done|]. intros i _. by rewrite Z.bits_0. Qed.

Lemma cx_clear_bit cx fd i : 0 <= fd -> 0 <= i -> Z.testbit (cx_clear cx fd) i = Z.testbit cx i && negb (i =? fd).
Proof.
  intros Hf Hi. unfold cx_clear. rewrite Z.ldiff_spec. f_equal. f_equal.
  rewrite Z.shiftl_spec by done. destruct (Z.eqb_spec i fd) as [->|Hne]; [by rewrite Z.sub_diag|].
  destruct (Z.ltb_spec i fd); [by rewrite Z.testbit_neg_r by lia|]. by apply (Z.bits_above_log2 1); cbn; lia.
Qed.

Lemma cx_clear_nonneg cx fd : 0 <= cx -> 0 <= cx_clear cx fd.
Proof. intros. unfold cx_clear. apply Z.ldiff_nonneg. by left. Qed.

Lemma tab_wf_slot l cx fd v : tab_wf l cx -> 0 <= fd -> tab_wf (<[Z.to_nat fd := v]> l) (cx_clear cx fd).
Proof.
  intros (Hl & Hc & Hb) Hf. split; [by rewrite length_insert|]. split; [by apply cx_clear_nonneg|].
  intros i Hi Ht. rewrite cx_clear_bit in Ht by done. apply andb_true_iff in Ht as [Ht Hne]. bool_props.
  destruct (Hb i Hi Ht) as [?|[o Ho]]; [by left|right]. exists o. rewrite list_lookup_insert_ne; [done|]. lia.
Qed.

Lemma slot_range l fd o : slot l fd = Some o -> 0 <= fd < Z.of_nat TASK_MAX_FDS /\ l !! Z.to_nat fd = Some (Some o).
Proof.
  unfold slot, in_range. destruct (Z.leb_spec 0 fd), (Z.ltb_spec fd (Z.of_nat TASK_MAX_FDS)); cbn [andb]; try done.
  destruct (l !! Z.to_nat fd) as [[x|]|]; [|done|done]. intros [= ->]. done.
Qed.

Lemma find_free_spec l i min k : find_free l i min = Some k -> (i <= k)%nat /\ (min <= k)%nat /\ l !! (k - i)%nat = Some None.
Proof.
  revert i. induction l as [|x l IH]; intros i; cbn [find_free]; [done|].
  destruct (Nat.leb_spec min i), (bool_decide_reflect (x = None)) as [->|]; cbn [andb].
  - intros [= <-]. by rewrite Nat.sub_diag.
  - intros (? & ? & Hk)%IH. split; [lia|]. split; [done|]. by replace (k - i)%nat with (S (k - S i)) by lia.
  - intros (? & ? & Hk)%IH. split; [lia|]. split; [done|]. by replace (k - i)%nat with (S (k - S i)) by lia.
  - intros (? & ? & Hk)%IH. split; [lia|]. split; [done|]. by replace (k - i)%nat with (S (k - S i)) by lia.
Qed.

(** ** The invariant *)

Definition boot_slots (b : boot) : list (option nat) := match b with BFork l _ => l | BClone _ => [] end.

Definition ext (st : kstate) (o : nat) : nat :=
  (msum (fun _ tk => occ o (held (fds_inline tk))) (tasks st) + msum (fun _ tb => occ o (held (fd tb))) (tables st) +
   msum (fun _ b => occ o (held (boot_slots b))) (boots st))%nat.

Definition on_table (ft : nat) (tk : task) : nat := if decide (fdt tk = Some ft) then 1%nat else 0%nat.
Definition boots_table (ft : nat) (b : boot) : nat :=
  match b with BClone f => if decide (f = ft) then 1%nat else 0%nat | _ => 0%nat end.
Definition users (st : kstate) (ft : nat) : nat :=
  (msum (fun _ tk => on_table ft tk) (tasks st) + msum (fun _ b => boots_table ft b) (boots st))%nat.

Record KInv (X T S : list nat) (st : kstate) : Prop := {
  k_core : CI (plus (ext st) X) S (kc st);
  k_tab : forall ft tb, tables st !! ft = Some tb ->
    refs tb = Z.of_nat (users st ft + occ ft T) /\ (0 < users st ft + occ ft T)%nat /\ tab_wf (fd tb) (cloexec tb);
  k_ft : forall ft, (0 < users st ft + occ ft T)%nat -> is_Some (tables st !! ft);
  k_task : forall t tk, tasks st !! t = Some tk -> tab_wf (fds_inline tk) (fd_cloexec_inline tk) /\
    (is_Some (fdt tk) -> fds_inline tk = empty_slots);
  k_boot : forall b l cx, boots st !! b = Some (BFork l cx) -> tab_wf l cx
}.

Lemma KInv_ext X X' T T' S S' st : (forall o, occ o X' = occ o X) -> (forall o, occ o T' = occ o T) ->
  (forall o, occ o S' = occ o S) -> KInv X T S st -> KInv X' T' S' st.
Proof.
  intros HX HT HS [HC Ht Hf Hk Hb]. split; [|intros ft tb; rewrite HT; apply Ht|intros ft; rewrite HT; apply Hf|done|done].
  eapply CInv_ext; [|done|done]. intros o. unfold plus. by rewrite HX.
Qed.

(** Replacing the core. *)
Lemma KInv_core X X' T S S' st c : KInv X T S st -> CI (plus (ext st) X') S' c -> KInv X' T S' (set_core c st).
Proof. intros [_ Ht Hf Hk Hb] HC. by split. Qed.

Lemma table_live X T S st t tk ft : KInv X T S st -> tasks st !! t = Some tk -> fdt tk = Some ft ->
  exists tb, tables st !! ft = Some tb.
Proof.
  intros HI Ht Hf. apply (k_ft _ _ _ _ HI). unfold users.
  pose proof (msum_ge (fun _ tk => on_table ft tk) _ _ _ Ht) as H. cbn in H. unfold on_table in H at 1.
  rewrite decide_True in H by done. lia.
Qed.

Lemma tab_of_ok X T S st t : KInv X T S st -> is_Some (tasks st !! t) ->
  exists l cx, tab_of st t = Some (l, cx) /\ tab_wf l cx /\ forall o, o ∈ held l -> is_Some (ofiles (kc st) !! o).
Proof.
  intros HI [tk Ht]. unfold tab_of. rewrite Ht. cbn [mbind option_bind].
  assert (forall o, (0 < ext st o)%nat -> is_Some (ofiles (kc st) !! o)) as Hlive.
  { intros o Ho. apply (ci_live _ _ _ _ _ (k_core _ _ _ _ HI)). unfold plus. lia. }
  destruct (fdt tk) as [ft|] eqn:Ef.
  - destruct (table_live _ _ _ _ _ _ _ HI Ht Ef) as [tb Htb]. rewrite Htb. cbn [mbind option_bind].
    exists (fd tb), (cloexec tb). split; [done|]. split; [by apply (k_tab _ _ _ _ HI ft)|]. intros o Ho%occ_in. apply Hlive.
    unfold ext. pose proof (msum_ge (fun _ tb => occ o (held (fd tb))) _ _ _ Htb) as H. cbn in H. lia.
  - exists (fds_inline tk), (fd_cloexec_inline tk). split; [done|]. split; [by apply (k_task _ _ _ _ HI t)|]. intros o Ho%occ_in.
    apply Hlive. unfold ext. pose proof (msum_ge (fun _ tk => occ o (held (fds_inline tk))) _ _ _ Ht) as H. cbn in H. lia.
Qed.

(** Rewriting the slots of the table a task uses. *)
Lemma set_tab_ok X X' T S st t l cx l' cx' : KInv X T S st -> tab_of st t = Some (l, cx) -> tab_wf l' cx' ->
  (forall o, occ o (held l') + occ o X' = occ o (held l) + occ o X)%nat ->
  exists st', set_tab st t l' cx' = Some st' /\ KInv X' T S st' /\ kc st' = kc st /\ tab_of st' t = Some (l', cx') /\
    dom (tasks st') = dom (tasks st).
Proof.
  intros HI Et Hwf HX. unfold tab_of, set_tab in *. destruct (tasks st !! t) as [tk|] eqn:Ht; [|done]. cbn [mbind option_bind] in *.
  destruct (fdt tk) as [ft|] eqn:Ef.
  - destruct (tables st !! ft) as [tb|] eqn:Htb; [|done]. cbn [mbind option_bind] in *. injection Et as <- <-.
    eexists. split; [done|]. cbn. rewrite Ht. cbn [mbind option_bind]. rewrite Ef, lookup_insert_eq. split; [|done].
    destruct HI as [HC Hta Hft Hk Hb]. split; try done; cbn.
    + eapply CInv_ext; [|done|exact HC]. intros o. unfold plus, ext. cbn.
      pose proof (msum_update (fun _ tb => occ o (held (fd tb))) _ _ _ (FdTab (refs tb) l' cx') Htb) as H. cbn in H. specialize (HX o). lia.
    + intros f b [[<- <-]|[Hne Hf]]%lookup_insert_Some; [|by apply Hta]. cbn. destruct (Hta _ _ Htb) as (? & ? & _). done.
    + intros f Hf. rewrite is_Some_insert by done. by apply Hft.
  - injection Et as <- <-. eexists. split; [done|]. cbn. rewrite lookup_insert_eq. cbn.
    split; [|split; [done|split; [done|apply dom_insert_lookup_L; by eexists]]].
    destruct HI as [HC Hta Hft Hk Hb].
    assert (forall f, users (K (kc st) (tables st) (<[t := Task l' None cx' (user_task tk)]> (tasks st)) (boots st)) f = users st f) as EU.
    { intros f. unfold users. cbn.
      pose proof (msum_update (fun _ tk => on_table f tk) _ _ _ (Task l' None cx' (user_task tk)) Ht) as H. cbn in H.
      unfold on_table in H at 2 3. rewrite Ef in H. cbn in H. lia. }
    split; try done; cbn [kc tables tasks boots].
    + eapply CInv_ext; [|done|exact HC]. intros o. unfold plus, ext. cbn.
      pose proof (msum_update (fun _ tk => occ o (held (fds_inline tk))) _ _ _ (Task l' None cx' (user_task tk)) Ht) as H.
      cbn in H. specialize (HX o). lia.
    + intros f b Hf. rewrite EU. by apply Hta.
    + intros f. rewrite EU. apply Hft.
    + intros x b [[<- <-]|[Hne Hx]]%lookup_insert_Some; [|by apply (Hk x)]. cbn. split; [done|]. by intros [? ?].
Qed.

(** ** Releasing from a table *)

Lemma run_unrefs X T S st l : KInv (l ++ X) T S st ->
  exists st', run (foldM unref l) st = Some st' /\ KInv X T S st' /\ ledger (kc st') ≡ₚ ledger (kc st) /\
    tables st' = tables st /\ tasks st' = tasks st /\ boots st' = boots st.
Proof.
  intros HI. destruct (unrefs_spec l [] [] (plus (ext st) X) S (kc st)) as (c' & E' & HC & Hs).
  { eapply CInv_ext; [|done|apply (k_core _ _ _ _ HI)]. intros o. unfold plus. rewrite occ_app. lia. }
  exists (set_core c' st). unfold run. rewrite E'. split; [done|]. split; [by eapply KInv_core|].
  split; [apply (sh_ledger _ _ _ _ Hs)|done].
Qed.

Lemma run_unref X T S st o : KInv (o :: X) T S st ->
  exists st', run (unref o) st = Some st' /\ KInv X T S st' /\ ledger (kc st') ≡ₚ ledger (kc st) /\
    tables st' = tables st /\ tasks st' = tasks st /\ boots st' = boots st.
Proof.
  intros HI. destruct (unref_spec [] [] (plus (ext st) X) S (kc st) o) as (c' & E' & HC & Hs).
  { eapply CInv_ext; [|done|apply (k_core _ _ _ _ HI)]. intros x. unfold plus. cbn. lia. }
  exists (set_core c' st). unfold run. rewrite E'. split; [done|]. split; [by eapply KInv_core|].
  split; [apply (sh_ledger _ _ _ _ Hs)|done].
Qed.

(** Giving back a reference to a shared table. *)
Lemma fdtable_put_ok X T S st ft : KInv X (ft :: T) S st ->
  exists st', fdtable_put st ft = Some st' /\ KInv X T S st' /\ ledger (kc st') ≡ₚ ledger (kc st) /\
    tasks st' = tasks st /\ boots st' = boots st.
Proof.
  intros HI. destruct (k_ft _ _ _ _ HI ft) as [tb Htb]; [rewrite occ_self; lia|].
  destruct (k_tab _ _ _ _ HI ft tb Htb) as (Hr & _ & Hwf). rewrite occ_self in Hr.
  unfold fdtable_put. rewrite Htb. cbn [mbind option_bind]. destruct (Z.eqb_spec (refs tb - 1) 0) as [E0|E0]; cbn [negb].
  - destruct (unrefs_spec (held (fd tb)) [] [] (plus (ext (K (kc st) (delete ft (tables st)) (tasks st) (boots st))) X) S (kc st))
      as (c' & E' & HC & Hs).
    { eapply CInv_ext; [|done|apply (k_core _ _ _ _ HI)]. intros o. unfold plus, ext. cbn.
      rewrite (msum_delete (fun _ tb => occ o (held (fd tb))) (tables st) ft tb Htb). lia. }
    exists (K c' (delete ft (tables st)) (tasks st) (boots st)). rewrite E'. split; [done|].
    split; [|split; [apply (sh_ledger _ _ _ _ Hs)|done]].
    destruct HI as [_ Hta Hft Hk Hb]. split; try done; cbn [tables].
    + intros f b [Hne Hf]%lookup_delete_Some. destruct (Hta f b Hf) as (H1 & H2 & H3). rewrite occ_ne in H1, H2 by done. done.
    + intros f Hf. destruct (decide (ft = f)) as [<-|Hne].
      * change (users (K c' (delete ft (tables st)) (tasks st) (boots st)) ft) with (users st ft) in Hf. lia.
      * rewrite lookup_delete_ne by done. apply Hft. rewrite occ_ne by done. done.
  - exists (K (kc st) (<[ft := FdTab (refs tb - 1) (fd tb) (cloexec tb)]> (tables st)) (tasks st) (boots st)).
    split; [done|]. split; [|done]. destruct HI as [HC Hta Hft Hk Hb]. split; try done; cbn [tables kc].
    + eapply CInv_ext; [|done|exact HC]. intros o. unfold plus, ext. cbn.
      pose proof (msum_update (fun _ tb => occ o (held (fd tb))) _ _ _ (FdTab (refs tb - 1) (fd tb) (cloexec tb)) Htb) as H. cbn in H. lia.
    + intros f b [[<- <-]|[Hne Hf]]%lookup_insert_Some; cbn.
      * change (users (K _ _ _ _) ft) with (users st ft). split; [lia|]. split; [lia|done].
      * destruct (Hta f b Hf) as (H1 & H2 & H3). rewrite occ_ne in H1, H2 by done. done.
    + intros f Hf. rewrite is_Some_insert by done. apply Hft. destruct (decide (ft = f)) as [<-|Hne].
      * rewrite occ_self. lia.
      * by rewrite occ_ne.
Qed.

End FdTableInv.
