(* ===== verification/FdTableSpec.v ===== *)
(** * Descriptor tables: every call (kernel/core/usyscall.c, fd.c, proc.c, fork.c)

    Every call that changes a descriptor table keeps the reference counts
    exact, never follows a pointer to something freed, and returns; a
    description is released when, and only when, its last reference goes. *)

From stdpp Require Import base gmap list relations.
From Stdlib Require Import ZArith Lia Bool.
From S2P Require Import Prelude Usock FdTable FdTableCore FdTableNet FdTableInv.
Open Scope Z_scope.

Module FdTableSpec.
Import Usock FdTable FdTableCore FdTableNet FdTableInv.
#[local] Arguments empty_slots : simpl never.

Lemma held_empty : held empty_slots = [].
Proof. done. Qed.

(** ** Installing and closing *)

(** [st'] has the tasks of [st] and the ledger with [new] added. *)
Definition follows (new : list (fd_kind * nat)) (st st' : kstate) : Prop :=
  ledger (kc st') ≡ₚ new ++ ledger (kc st) /\ dom (tasks st') = dom (tasks st).

Lemma follows_refl st : follows [] st st.
Proof. done. Qed.

Lemma follows_trans n1 n2 st1 st2 st3 : follows n1 st1 st2 -> follows n2 st2 st3 -> follows (n2 ++ n1) st1 st3.
Proof. intros [L1 D1] [L2 D2]. split; [by rewrite L2, L1, app_assoc|congruence]. Qed.

Lemma live_dom st st' t : dom (tasks st') = dom (tasks st) -> is_Some (tasks st !! t) -> is_Some (tasks st' !! t).
Proof. intros Hd. rewrite <- !elem_of_dom. by rewrite Hd. Qed.

Lemma unref_follows st st' : ledger (kc st') ≡ₚ ledger (kc st) -> tasks st' = tasks st -> follows [] st st'.
Proof. intros HL Ht. split; [done|by rewrite Ht]. Qed.

(** What a task sees of its table depends on the tables and the tasks alone. *)
Lemma tab_of_same st st' t : tables st' = tables st -> tasks st' = tasks st -> tab_of st' t = tab_of st t.
Proof. intros E1 E2. unfold tab_of. by rewrite E1, E2. Qed.

Lemma install_ok X T S st t o min : KInv (o :: X) T S st -> is_Some (tasks st !! t) ->
  exists st' i, install_from st t o min = Some (st', i) /\ follows [] st st' /\ kc st' = kc st /\
    ((i = -1 /\ st' = st) \/ (0 <= i /\ KInv X T S st')).
Proof.
  intros HI Ht. destruct (tab_of_ok _ _ _ _ _ HI Ht) as (l & cx & El & Hwf & _). unfold install_from. rewrite El. cbn [mbind option_bind].
  destruct (find_free l 0 min) as [i|] eqn:Ef; [|exists st, (-1); split; [done|]; auto using follows_refl].
  apply find_free_spec in Ef as (_ & _ & Hi). rewrite Nat.sub_0_r in Hi.
  pose proof (tab_wf_slot l cx (Z.of_nat i) (Some o) Hwf ltac:(lia)) as Hwf'. rewrite Nat2Z.id in Hwf'.
  destruct (set_tab_ok (o :: X) X T S st t l cx (<[i := Some o]> l) (cx_clear cx (Z.of_nat i)) HI El Hwf')
    as (st' & E' & HI' & Hc & _ & Hd).
  { intros x. pose proof (held_insert l i None (Some o) x Hi) as H. rewrite !held_cons in H. cbn in H |- *. lia. }
  exists st', (Z.of_nat i). rewrite E'. cbn [mbind option_bind]. split; [done|]. split; [split; [by rewrite Hc|done]|].
  split; [done|]. right. split; [lia|done].
Qed.

Lemma install_or_ok X T S st t o err : KInv (o :: X) T S st -> is_Some (tasks st !! t) ->
  exists st' r, install_or st t o err = Some (st', r) /\ KInv X T S st' /\ follows [] st st'.
Proof.
  intros HI Ht. destruct (install_ok _ _ _ _ _ _ 3 HI Ht) as (st1 & i & E1 & F1 & _ & H1). unfold install_or, fd_install.
  rewrite E1. cbn [mbind option_bind]. destruct H1 as [[-> ->]|[Hi HI1]].
  - destruct (run_unref _ _ _ _ _ HI) as (st2 & E2 & HI2 & L2 & _ & D2 & _). exists st2, err.
    change (-1 <? 0) with true. rewrite E2. split; [done|]. split; [done|]. by apply unref_follows.
  - exists st1, i. destruct (Z.ltb_spec i 0); [lia|]. done.
Qed.

(** A new description, and its reference in hand. *)
Lemma ofile_alloc_ok X T S st a k obj nb : KInv X T (behind (OFile k 1 obj nb) ++ S) st -> ofiles (kc st) !! a = None ->
  KInv (a :: X) T S (set_core (put_ofile a (OFile k 1 obj nb) (kc st)) st) /\
  follows [(k, obj)] st (set_core (put_ofile a (OFile k 1 obj nb) (kc st)) st).
Proof.
  intros HI Ha. split.
  - eapply KInv_core; [done|]. eapply CInv_ext; [|done|apply (ofile_new _ _ _ _ _ _ _ Ha (k_core _ _ _ _ HI))].
    intros o. unfold plus. cbn. lia.
  - split; [|done]. unfold ledger. cbn. by rewrite map_to_list_insert.
Qed.

Lemma open_obj_ok st t k obj aa err : KInv [] [] [] st -> is_Some (tasks st !! t) -> k <> FD_SOCK ->
  (forall a, aa = Some a -> ofiles (kc st) !! a = None) ->
  exists st' r new, sys_open_obj st t k obj aa err = Some (st', r) /\ KInv [] [] [] st' /\ follows new st st'.
Proof.
  intros HI Ht Hk Ha. unfold sys_open_obj, ofile_alloc. destruct aa as [a|]; [|exists st, (-1), []; auto using follows_refl].
  destruct (ofile_alloc_ok [] [] [] st a k obj false) as [HI1 F1]; [|by apply Ha|].
  { unfold behind. by rewrite decide_False. }
  destruct (install_or_ok [] [] [] _ t a err HI1 Ht) as (st' & r & E' & HI' & F').
  exists st', r, [(k, obj)]. split; [done|]. split; [done|]. apply (follows_trans _ _ _ _ _ F1 F').
Qed.

Lemma close_ok_slot X T S st t l cx fd o : KInv X T S st -> tab_of st t = Some (l, cx) -> tab_wf l cx -> slot l fd = Some o ->
  exists st', close_slot st t fd o = Some (st', 0) /\ KInv X T S st' /\ follows [] st st'.
Proof.
  intros HI El Hwf Hs. unfold close_slot. rewrite El. cbn [mbind option_bind]. rewrite bool_decide_false by (rewrite Hs; naive_solver).
  apply slot_range in Hs as [Hr Hs].
  destruct (set_tab_ok X (o :: X) T S st t l cx (<[Z.to_nat fd := None]> l) (cx_clear cx fd) HI El) as (st1 & E1 & HI1 & Hc & _ & Hd).
  { apply tab_wf_slot; [done|lia]. }
  { intros x. pose proof (held_insert l (Z.to_nat fd) (Some o) None x Hs) as H. rewrite !held_cons in H. cbn in H |- *. lia. }
  rewrite E1. cbn [mbind option_bind]. destruct (run_unref _ _ _ _ _ HI1) as (st2 & E2 & HI2 & L2 & _ & D2 & _).
  exists st2. rewrite E2. split; [done|]. split; [done|]. split; [by rewrite L2, Hc|by rewrite D2].
Qed.

Lemma sys_close_ok X T S st t fd : KInv X T S st -> is_Some (tasks st !! t) ->
  exists st' r, sys_close st t fd = Some (st', r) /\ KInv X T S st' /\ follows [] st st'.
Proof.
  intros HI Ht. destruct (tab_of_ok _ _ _ _ _ HI Ht) as (l & cx & El & Hwf & _).
  unfold sys_close, fd_lookup. rewrite El. cbn [mbind option_bind]. destruct (slot l fd) as [o|] eqn:Es.
  - destruct (close_ok_slot _ _ _ _ _ _ _ _ _ HI El Hwf Es) as (st' & E' & H'). eauto.
  - eauto using follows_refl.
Qed.

(** ** Duplicating *)

Lemma slot_held l fd o : slot l fd = Some o -> o ∈ held l.
Proof. intros [_ H]%slot_range. apply held_elem. eauto. Qed.

Lemma take_ref_ok X T S st o : KInv X T S st -> is_Some (ofiles (kc st) !! o) ->
  exists st', run (ofile_ref o) st = Some st' /\ KInv (o :: X) T S st' /\ follows [] st st' /\ tasks st' = tasks st /\ tables st' = tables st.
Proof.
  intros HI [f Hf]. destruct (ofile_ref_ok _ _ _ _ _ (k_core _ _ _ _ HI) Hf) as (c' & E' & HC & L & _).
  exists (set_core c' st). unfold run. rewrite E'. split; [done|]. split; [|done]. eapply KInv_core; [done|].
  eapply CInv_ext; [|done|done]. intros x. unfold plus. cbn. lia.
Qed.

(** The source of a dup with its reference taken: [new] is the console
    description an empty standard slot gets. *)
Lemma dup_source_ok st t fd aa : KInv [] [] [] st -> is_Some (tasks st !! t) ->
  (forall a, aa = Some a -> ofiles (kc st) !! a = None) ->
  exists st1 src, fd_dup_source st t fd aa = Some (st1, src) /\
    match src with
    | None => KInv [] [] [] st1 /\ follows [] st st1
    | Some (o, true) => KInv [o] [] [] st1 /\ follows [(FD_CONSOLE, 0%nat)] st st1
    | Some (o, false) => st1 = st /\ is_Some (ofiles (kc st) !! o)
    end.
Proof.
  intros HI Ht Ha. destruct (tab_of_ok _ _ _ _ _ HI Ht) as (l & cx & El & Hwf & Hlive).
  unfold fd_dup_source, fd_lookup. rewrite El. cbn [mbind option_bind]. destruct (slot l fd) as [o|] eqn:Es.
  - eexists _, _. split; [done|]. split; [done|]. by eapply Hlive, slot_held.
  - destruct (std fd); [|eexists _, _; split; [done|]; by split].
    unfold ofile_alloc. destruct aa as [a|]; cbn.
    + destruct (ofile_alloc_ok [] [] [] st a FD_CONSOLE 0 false) as [HI1 F1]; [done|by apply Ha|]. eexists _, _. split; [done|]. done.
    + eexists _, _. split; [done|]. replace (set_core (kc st) st) with st by (by destruct st). by split.
Qed.

Lemma dup2_install_ok X st t o newfd : KInv (o :: X) [] [] st -> is_Some (tasks st !! t) -> in_range newfd = true ->
  exists st', (
    '(l, cx) ← tab_of st t;
    st2 ← set_tab st t (<[Z.to_nat newfd := Some o]> l) (cx_clear cx newfd);
    st3 ← match slot l newfd with Some old => run (unref old) st2 | None => Some st2 end;
    Some (st3, newfd)) = Some (st', newfd) /\ KInv X [] [] st' /\ follows [] st st' /\
    forall l cx, tab_of st t = Some (l, cx) -> tab_of st' t = Some (<[Z.to_nat newfd := Some o]> l, cx_clear cx newfd).
Proof.
  intros HI Ht Hr. destruct (tab_of_ok _ _ _ _ _ HI Ht) as (l & cx & El & Hwf & _). rewrite El. cbn [mbind option_bind].
  assert (0 <= newfd < Z.of_nat TASK_MAX_FDS) as Hn by (unfold in_range in Hr; apply andb_true_iff in Hr as [? ?]; bool_props; lia).
  destruct (lookup_lt_is_Some_2 l (Z.to_nat newfd)) as [x Hx]; [destruct Hwf as [-> _]; lia|].
  assert (slot l newfd = x) as Es by (unfold slot; by rewrite Hr, Hx). rewrite Es.
  destruct (set_tab_ok (o :: X) (held [x] ++ X) [] [] st t l cx (<[Z.to_nat newfd := Some o]> l) (cx_clear cx newfd) HI El)
    as (st2 & E2 & HI2 & Hc & Htab & Hd).
  { apply tab_wf_slot; [done|lia]. }
  { intros y. pose proof (held_insert l (Z.to_nat newfd) x (Some o) y Hx) as H. rewrite occ_app. change (held [Some o]) with [o] in H.
    cbn in H |- *. lia. }
  rewrite E2. cbn [mbind option_bind]. destruct x as [old|].
  - destruct (run_unref X [] [] st2 old) as (st3 & E3 & HI3 & L3 & T3 & D3 & _); [done|].
    exists st3. rewrite E3. split; [done|]. split; [done|]. split; [split; [by rewrite L3, Hc|by rewrite D3]|].
    intros l0 cx0 [= <- <-]. by rewrite (tab_of_same st2).
  - exists st2. split; [done|]. split; [done|]. split; [split; [by rewrite Hc|done]|]. by intros l0 cx0 [= <- <-].
Qed.

Lemma sys_dup2_ok st t oldfd newfd aa : KInv [] [] [] st -> is_Some (tasks st !! t) ->
  (forall a, aa = Some a -> ofiles (kc st) !! a = None) ->
  exists st' r new, sys_dup2 st t oldfd newfd aa = Some (st', r) /\ KInv [] [] [] st' /\ follows new st st'.
Proof.
  intros HI Ht Ha. unfold sys_dup2. destruct (oldfd =? newfd).
  { destruct (tab_of_ok _ _ _ _ _ HI Ht) as (l & cx & El & _). unfold fd_lookup. rewrite El. cbn [mbind option_bind].
    eexists _, _, []. split; [done|]. auto using follows_refl. }
  destruct (dup_source_ok st t oldfd aa HI Ht Ha) as (st1 & src & E1 & H1). rewrite E1. cbn [mbind option_bind].
  destruct src as [[o fresh]|]; [|destruct H1; eexists _, _, []; done]. unfold dup2_install.
  assert (exists st2 new, (if fresh then Some st1 else run (ofile_ref o) st1) = Some st2 /\ KInv [o] [] [] st2 /\ follows new st st2)
    as (st2 & new & E2 & HI2 & F2).
  { destruct fresh; [destruct H1; eauto|]. destruct H1 as [-> Hl].
    destruct (take_ref_ok _ _ _ _ _ HI Hl) as (st2 & E2 & HI2 & F2 & _). eauto. }
  destruct (in_range newfd) eqn:Er; cbn [negb].
  - unfold take_ref. rewrite E2. cbn [mbind option_bind].
    destruct (dup2_install_ok [] st2 t o newfd HI2) as (st' & E' & HI' & F' & _); [by eapply live_dom; [apply F2|]|done|].
    exists st', newfd, new. split; [exact E'|]. split; [done|]. apply (follows_trans _ _ _ _ _ F2 F').
  - destruct fresh; [|destruct H1 as [-> _]; eexists _, _, []; auto using follows_refl].
    injection E2 as <-. destruct (run_unref _ _ _ _ _ HI2) as (st3 & E3 & HI3 & L3 & _ & D3 & _). rewrite E3.
    eexists _, _, new. split; [done|]. split; [done|]. apply (follows_trans _ [] _ _ _ F2). by apply unref_follows.
Qed.

Lemma sys_dupfd_ok st t fd minfd aa : KInv [] [] [] st -> is_Some (tasks st !! t) ->
  (forall a, aa = Some a -> ofiles (kc st) !! a = None) ->
  exists st' r new, sys_dupfd st t fd minfd aa = Some (st', r) /\ KInv [] [] [] st' /\ follows new st st'.
Proof.
  intros HI Ht Ha. unfold sys_dupfd.
  destruct (dup_source_ok st t fd aa HI Ht Ha) as (st1 & src & E1 & H1). rewrite E1. cbn [mbind option_bind].
  destruct src as [[o fresh]|]; [|destruct H1; eexists _, _, []; done].
  assert (exists st2 new, take_ref fresh o st1 = Some st2 /\ KInv [o] [] [] st2 /\ follows new st st2)
    as (st2 & new & E2 & HI2 & F2).
  { unfold take_ref. destruct fresh; [destruct H1; eauto|]. destruct H1 as [-> Hl].
    destruct (take_ref_ok _ _ _ _ _ HI Hl) as (st2 & E2 & HI2 & F2 & _). eauto. }
  rewrite E2. cbn [mbind option_bind].
  destruct (install_ok _ _ _ _ t _ (Z.to_nat (Z.max minfd 3)) HI2) as (st3 & i & E3 & F3 & _ & H3); [by eapply live_dom; [apply F2|]|].
  rewrite E3. cbn [mbind option_bind]. destruct H3 as [[-> ->]|[Hi HI3]].
  - change (-1 <? 0) with true. cbv iota. destruct (run_unref _ _ _ _ _ HI2) as (st4 & E4 & HI4 & L4 & _ & D4 & _). rewrite E4.
    eexists _, _, new. split; [done|]. split; [done|]. apply (follows_trans _ [] _ _ _ F2). by apply unref_follows.
  - destruct (Z.ltb_spec i 0); [lia|]. eexists _, _, new. split; [done|]. split; [done|]. apply (follows_trans _ _ _ _ _ F2 F3).
Qed.

(** ** Close-on-exec *)

Lemma cx_set_bit cx fd i : 0 <= fd -> 0 <= i -> Z.testbit (cx_set cx fd) i = Z.testbit cx i || (i =? fd).
Proof.
  intros Hf Hi. unfold cx_set. rewrite Z.lor_spec. f_equal.
  rewrite Z.shiftl_spec by done. destruct (Z.eqb_spec i fd) as [->|Hne]; [by rewrite Z.sub_diag|].
  destruct (Z.ltb_spec i fd); [by rewrite Z.testbit_neg_r by lia|]. by apply (Z.bits_above_log2 1); cbn; lia.
Qed.

Lemma set_cloexec_ok st t fd on : KInv [] [] [] st -> is_Some (tasks st !! t) ->
  exists st' r, fd_set_cloexec st t fd on = Some (st', r) /\ KInv [] [] [] st' /\ follows [] st st'.
Proof.
  intros HI Ht. unfold fd_set_cloexec. destruct (in_range fd) eqn:Er; cbn [negb]; [|eauto using follows_refl].
  destruct (tab_of_ok _ _ _ _ _ HI Ht) as (l & cx & El & Hwf & _). rewrite El. cbn [mbind option_bind].
  destruct (fd_open l fd) eqn:Eo; [|eauto using follows_refl].
  assert (0 <= fd) as Hf by (unfold in_range in Er; apply andb_true_iff in Er as [? ?]; bool_props; lia).
  destruct Hwf as (Hl & Hc & Hb).
  destruct (set_tab_ok [] [] [] [] st t l cx l (if on then cx_set cx fd else cx_clear cx fd) HI El) as (st1 & E1 & HI1 & Hk & _ & Hd).
  { split; [done|]. split.
    - destruct on; [|by apply cx_clear_nonneg]. apply Z.lor_nonneg. split; [done|by apply Z.shiftl_nonneg].
    - intros i Hi. destruct on.
      + rewrite cx_set_bit by done. intros [?|?]%orb_true_iff; [by apply Hb|]. bool_props. subst i.
        unfold fd_open in Eo. apply orb_true_iff in Eo as [Eo|Eo]; bool_props; [right|by left].
        destruct Eo as [o Ho]. apply slot_range in Ho as [_ Ho]. eauto.
      + rewrite cx_clear_bit by done. intros [? _]%andb_true_iff. by apply Hb. }
  { done. }
  rewrite E1. eexists _, _. split; [done|]. split; [done|]. split; [by rewrite Hk|done].
Qed.

Lemma exec_split_spec l m i : let '(k, g) := exec_split l m i in
  length k = length l /\ forall o, (occ o (held l) = occ o (held k) + occ o g)%nat.
Proof.
  revert i. induction l as [|x l IH]; intros i; cbn [exec_split]; [done|]. specialize (IH (i + 1)).
  destruct (exec_split l m (i + 1)) as [k g]. destruct IH as [IHl IHo].
  destruct (Z.land m (Z.shiftl 1 i) =? 0); (split; [cbn; by rewrite IHl|]); intros o; rewrite !held_cons, !occ_app, IHo; destruct x; cbn; lia.
Qed.

Lemma fd_exec_ok st t : KInv [] [] [] st -> is_Some (tasks st !! t) ->
  exists st', fd_close_on_exec st t = Some st' /\ KInv [] [] [] st' /\ follows [] st st' /\
    forall l cx, tab_of st t = Some (l, cx) -> tab_of st' t = Some ((exec_split l cx 0).1, 0).
Proof.
  intros HI Ht. destruct (tab_of_ok _ _ _ _ _ HI Ht) as (l & cx & El & Hwf & _).
  unfold fd_close_on_exec. rewrite El. cbn [mbind option_bind]. pose proof (exec_split_spec l cx 0) as H.
  destruct (exec_split l cx 0) as [k gone] eqn:Es. destruct H as [Hlen Hocc].
  destruct (set_tab_ok [] gone [] [] st t l cx k 0 HI El) as (st1 & E1 & HI1 & Hc & Htab & Hd).
  { split; [rewrite Hlen; by destruct Hwf|]. split; [done|]. intros i _. by rewrite Z.bits_0. }
  { intros o. rewrite Hocc. cbn. lia. }
  rewrite E1. cbn [mbind option_bind]. destruct (run_unrefs [] [] [] st1 gone) as (st2 & E2 & HI2 & L2 & T2 & D2 & _).
  { by rewrite app_nil_r. }
  exists st2. split; [done|]. split; [done|]. split; [split; [by rewrite L2, Hc|by rewrite D2]|].
  intros l0 cx0 [= <- <-]. rewrite Es. by rewrite (tab_of_same st1).
Qed.

(** ** Threads and forks *)

(** The task map changes at one task: what the counts see of it. *)
Lemma users_task st tb' t tk tk' bs f : tasks st !! t = Some tk ->
  (users (K (kc st) tb' (<[t := tk']> (tasks st)) bs) f + on_table f tk =
   on_table f tk' + users (K (kc st) tb' (tasks st) bs) f)%nat.
Proof.
  intros Ht. unfold users. cbn. pose proof (msum_update (fun _ x => on_table f x) _ _ _ tk' Ht) as H. cbn in H. lia.
Qed.

Lemma on_table_Some f ft fds cx ut : on_table f (Task fds (Some ft) cx ut) = occ f [ft].
Proof. unfold on_table. cbn. destruct (decide (ft = f)) as [->|]; [by rewrite decide_True|]. by rewrite decide_False by congruence. Qed.

Lemma share_ok X st t aa : KInv X [] [] st -> is_Some (tasks st !! t) ->
  (forall a, aa = Some a -> tables st !! a = None) ->
  exists st' r, fdtable_share st t aa = Some (st', r) /\ follows [] st st' /\ boots st' = boots st /\
    match r with Some ft => KInv X [ft] [] st' | None => st' = st end.
Proof.
  intros HI [tk Ht] Ha. unfold fdtable_share. rewrite Ht. cbn [mbind option_bind].
  destruct (fdt tk) as [ft|] eqn:Ef.
  - destruct (table_live _ _ _ _ _ _ _ HI Ht Ef) as [tb Htb]. rewrite Htb. cbn [mbind option_bind].
    eexists _, _. split; [done|]. split; [done|]. split; [done|]. destruct HI as [HC Hta Hft Hk Hb]. split; try done; cbn.
    + eapply CInv_ext; [|done|exact HC]. intros o. unfold plus, ext. cbn.
      pose proof (msum_update (fun _ b => occ o (held (fd b))) _ _ _ (FdTab (refs tb + 1) (fd tb) (cloexec tb)) Htb) as H. cbn in H. lia.
    + intros f b [[<- <-]|[Hne Hf]]%lookup_insert_Some; cbn.
      * destruct (Hta _ _ Htb) as (H1 & H2 & H3). change (users (K _ _ _ _) ft) with (users st ft).
        rewrite decide_True by done. cbn in *. split; [lia|]. split; [lia|done].
      * destruct (Hta _ _ Hf) as (H1 & H2 & H3). rewrite decide_False by done. done.
    + intros f Hf. rewrite is_Some_insert by done. destruct (decide (ft = f)) as [<-|Hne]; [by eexists|]. by apply Hft.
  - destruct aa as [ft|]; [|eexists _, _; done]. specialize (Ha ft eq_refl).
    eexists _, _. split; [done|]. split; [split; [done|cbn; apply dom_insert_lookup_L; by eexists]|]. split; [done|].
    set (st' := K _ _ _ _). pose proof HI as [HC Hta Hft Hk Hb]. destruct (Hk _ _ Ht) as [Hwf _].
    assert (users st ft = 0%nat) as U0.
    { destruct (decide (0 < users st ft + occ ft [])%nat) as [H|H]; [|cbn in H; lia]. apply Hft in H as [? ?]. congruence. }
    assert (forall f, users st' f = (occ f [ft] + users st f)%nat) as EU.
    { intros f. pose proof (users_task st (tables st') t tk (Task empty_slots (Some ft) 0 (user_task tk)) (boots st) f Ht) as H.
      rewrite on_table_Some in H. unfold on_table in H. rewrite Ef in H. cbn [fdt] in H. rewrite decide_False in H by done.
      change (users (K (kc st) (tables st') (tasks st) (boots st)) f) with (users st f) in H. unfold st'. cbn in H |- *. lia. }
    split; try done; cbn [kc st' tables tasks].
    + eapply CInv_ext; [|done|exact HC]. intros o. unfold plus, ext. cbn. rewrite (msum_insert _ (tables st)) by done.
      pose proof (msum_update (fun _ x => occ o (held (fds_inline x))) _ _ _ (Task empty_slots (Some ft) 0 (user_task tk)) Ht) as H.
      cbn in H. rewrite held_empty in H. cbn in H |- *. lia.
    + intros f b [[<- <-]|[Hne Hf]]%lookup_insert_Some; rewrite EU.
      * rewrite U0, !occ_self. cbn. split; [done|]. split; [lia|done].
      * rewrite occ_ne by done. destruct (Hta _ _ Hf) as (H1 & H2 & H3). done.
    + intros f Hf. destruct (decide (ft = f)) as [<-|Hne]; [rewrite lookup_insert_eq; by eexists|].
      rewrite lookup_insert_ne by done. apply Hft. rewrite EU, !occ_ne in Hf by done. cbn in *. lia.
    + intros x y [[<- <-]|[Hne Hx]]%lookup_insert_Some; [|by apply (Hk x)]. cbn. split; [apply tab_wf_empty|done].
Qed.

(** A boot record takes over the references in hand. *)
Lemma boot_new X T st b x l : boots st !! b = None -> (forall o, occ o X = occ o (held (boot_slots x)) + occ o l)%nat ->
  (forall f, occ f T = boots_table f x) -> (forall m cx, x = BFork m cx -> tab_wf m cx) ->
  KInv X T [] st -> KInv l [] [] (K (kc st) (tables st) (tasks st) (<[b := x]> (boots st))).
Proof.
  intros Hb HX HT Hx [HC Hta Hft Hk Hbo].
  assert (forall f, (users (K (kc st) (tables st) (tasks st) (<[b := x]> (boots st))) f = users st f + occ f T)%nat) as EU.
  { intros f. unfold users. cbn. rewrite msum_insert, HT by done. lia. }
  split; try done; cbn [kc tables tasks boots].
  - eapply CInv_ext; [|done|exact HC]. intros o. unfold plus, ext. cbn. rewrite msum_insert, HX by done. lia.
  - intros f tb Hf. rewrite EU. cbn. rewrite Nat.add_0_r. by apply Hta.
  - intros f. rewrite EU. cbn. rewrite Nat.add_0_r. apply Hft.
  - intros y m cx [[<- ->]|[Hne Hy]]%lookup_insert_Some; [by eapply Hx|by eapply Hbo].
Qed.

Lemma clone_ok st t b aa spawned : KInv [] [] [] st -> is_Some (tasks st !! t) -> boots st !! b = None ->
  (forall a, aa = Some a -> tables st !! a = None) ->
  exists st' r, proc_clone st t b aa spawned = Some (st', r) /\ KInv [] [] [] st' /\ follows [] st st'.
Proof.
  intros HI Ht Hb Ha. unfold proc_clone. destruct (share_ok [] st t aa HI Ht Ha) as (st1 & r & E1 & F1 & B1 & H1).
  rewrite E1. cbn [mbind option_bind]. destruct r as [ft|]; [|subst st1; eauto using follows_refl]. destruct spawned.
  - eexists _, _. split; [done|]. split; [|done]. apply (boot_new [] [ft]); [by rewrite B1|done| |done|done].
    intros f. cbn. case_decide; lia.
  - destruct (fdtable_put_ok _ _ _ _ _ H1) as (st2 & E2 & HI2 & L2 & T2 & _). rewrite E2. cbn [mbind option_bind].
    eexists _, _. split; [done|]. split; [done|]. apply (follows_trans [] [] _ st1); [done|]. by apply unref_follows.
Qed.

(** The new task takes over the boot record's references. *)
Lemma boot_take st b x t tk : KInv [] [] [] st -> boots st !! b = Some x -> tasks st !! t = None ->
  fds_inline tk = match x with BFork l _ => l | BClone _ => empty_slots end ->
  fdt tk = match x with BFork _ _ => None | BClone ft => Some ft end ->
  fd_cloexec_inline tk = match x with BFork _ cx => cx | BClone _ => 0 end ->
  KInv [] [] [] (K (kc st) (tables st) (<[t := tk]> (tasks st)) (delete b (boots st))).
Proof.
  intros [HC Hta Hft Hk Hbo] Hb Ht E1 E2 E3.
  assert (forall f, users (K (kc st) (tables st) (<[t := tk]> (tasks st)) (delete b (boots st))) f = users st f) as EU.
  { intros f. unfold users. cbn. rewrite msum_insert by done. rewrite (msum_delete _ (boots st) b x Hb).
    unfold on_table, boots_table at 2. rewrite E2. destruct x; repeat case_decide; try lia; congruence. }
  split; cbn [kc tables tasks boots].
  - eapply CInv_ext; [|done|exact HC]. intros o. unfold plus, ext. cbn. rewrite msum_insert by done.
    rewrite (msum_delete _ (boots st) b x Hb), E1. destruct x; cbn; [lia|]. rewrite held_empty. change (held []) with (@nil nat). cbn. lia.
  - intros f tb Hf. rewrite EU. by apply Hta.
  - intros f. rewrite EU. apply Hft.
  - intros y z [[<- <-]|[Hne Hy]]%lookup_insert_Some; [|by apply (Hk y)]. rewrite E1, E2, E3. destruct x.
    + split; [by eapply Hbo|by intros [? ?]].
    + split; [apply tab_wf_empty|done].
  - intros y l cx [_ Hy]%lookup_delete_Some. by eapply Hbo.
Qed.

Lemma snapshot_ok X st t : KInv X [] [] st -> is_Some (tasks st !! t) ->
  exists st' l cx, fd_snapshot_for_fork st t = Some (st', l, cx) /\ KInv (held l ++ X) [] [] st' /\ follows [] st st' /\
    tab_wf l cx /\ tab_of st t = Some (l, cx) /\ tasks st' = tasks st /\ tables st' = tables st /\ boots st' = boots st.
Proof.
  intros HI Ht. destruct (tab_of_ok _ _ _ _ _ HI Ht) as (l & cx & El & Hwf & Hlive).
  unfold fd_snapshot_for_fork. rewrite El. cbn [mbind option_bind]. unfold run.
  destruct (ofile_refs_ok (held l) _ _ _ (k_core _ _ _ _ HI) Hlive) as (c' & E' & HC & L & _). rewrite E'. cbn [mbind option_bind].
  exists (set_core c' st), l, cx. split; [done|]. split; [|done]. eapply KInv_core; [done|].
  eapply CInv_ext; [|done|done]. intros o. unfold plus. rewrite occ_app. lia.
Qed.

Lemma fork_ok st t b spawned : KInv [] [] [] st -> is_Some (tasks st !! t) -> boots st !! b = None ->
  exists st' r, proc_fork st t b spawned = Some (st', r) /\ KInv [] [] [] st' /\ follows [] st st'.
Proof.
  intros HI Ht Hb. unfold proc_fork. destruct (snapshot_ok [] st t HI Ht) as (st1 & l & cx & E1 & HI1 & F1 & Hwf & _ & _ & _ & B1).
  rewrite E1. cbn [mbind option_bind]. destruct spawned.
  - eexists _, _. split; [done|]. split; [|done]. eapply (boot_new (held l ++ []) []); [by rewrite B1| |done| |done].
    + intros o. by rewrite occ_app.
    + intros m cx' [= <- <-]. done.
  - destruct (run_unrefs _ _ _ _ _ HI1) as (st2 & E2 & HI2 & L2 & _ & T2 & _). rewrite E2. cbn [mbind option_bind].
    eexists _, _. split; [done|]. split; [done|]. apply (follows_trans [] [] _ st1); [done|]. by apply unref_follows.
Qed.

(** A task leaves its shared table for slots of its own. *)
Lemma leave_table X st t tk ft l cx : KInv X [] [] st -> tasks st !! t = Some tk -> fdt tk = Some ft -> tab_wf l cx ->
  forall X', (forall o, occ o (held l) + occ o X' = occ o X)%nat ->
  KInv X' [ft] [] (K (kc st) (tables st) (<[t := Task l None cx (user_task tk)]> (tasks st)) (boots st)).
Proof.
  intros [HC Hta Hft Hk Hbo] Ht Ef Hwf X' HX. destruct (Hk _ _ Ht) as [_ Hin]. rewrite Ef in Hin. specialize (Hin ltac:(by eexists)).
  assert (forall f, (users (K (kc st) (tables st) (<[t := Task l None cx (user_task tk)]> (tasks st)) (boots st)) f + occ f [ft] = users st f)%nat) as EU.
  { intros f. pose proof (users_task st (tables st) t tk (Task l None cx (user_task tk)) (boots st) f Ht) as H.
    unfold on_table in H. rewrite Ef in H. cbn [fdt] in H. rewrite (decide_False (P := None = Some f)) in H by done.
    change (users (K (kc st) (tables st) (tasks st) (boots st)) f) with (users st f) in H. cbn.
    destruct (decide (ft = f)) as [->|]; [rewrite decide_True in H by done|rewrite decide_False in H by congruence]; lia. }
  split; cbn [kc tables tasks boots].
  - eapply CInv_ext; [|done|exact HC]. intros o. unfold plus, ext. cbn.
    pose proof (msum_update (fun _ x => occ o (held (fds_inline x))) _ _ _ (Task l None cx (user_task tk)) Ht) as H. cbn in H.
    rewrite Hin in H. rewrite held_empty in H. cbn in H. specialize (HX o). lia.
  - intros f tb Hf. rewrite EU. destruct (Hta _ _ Hf) as (H1 & H2 & H3). cbn in H1, H2. rewrite Nat.add_0_r in H1, H2. done.
  - intros f. rewrite EU. intros Hf. apply Hft. cbn. lia.
  - intros y z [[<- <-]|[Hne Hy]]%lookup_insert_Some; [|by apply (Hk y)]. cbn. split; [done|]. by intros [? ?].
  - done.
Qed.

Lemma unshare_ok st t : KInv [] [] [] st -> is_Some (tasks st !! t) ->
  exists st', fd_unshare_table st t = Some st' /\ KInv [] [] [] st' /\ follows [] st st'.
Proof.
  intros HI [tk Ht]. unfold fd_unshare_table. rewrite Ht. cbn [mbind option_bind].
  destruct (fdt tk) as [ft|] eqn:Ef; [|eauto using follows_refl].
  destruct (snapshot_ok [] st t HI) as (st1 & l & cx & E1 & HI1 & F1 & Hwf & _ & T1 & _); [by eexists|].
  rewrite E1. cbn [mbind option_bind]. rewrite T1 in *.
  pose proof (leave_table (held l ++ []) st1 t tk ft l cx HI1) as H. rewrite T1 in H.
  specialize (H Ht Ef Hwf [] ltac:(intros o; by rewrite occ_app)).
  destruct (fdtable_put_ok _ _ _ _ _ H) as (st2 & E2 & HI2 & L2 & T2 & _). exists st2. split; [done|]. split; [done|].
  split; [rewrite L2; apply F1|]. rewrite T2. cbn. apply dom_insert_lookup_L. by eexists.
Qed.

Lemma close_all_ok st t : KInv [] [] [] st -> is_Some (tasks st !! t) ->
  exists st', fd_close_all st t = Some st' /\ KInv [] [] [] st' /\ follows [] st st'.
Proof.
  intros HI [tk Ht]. unfold fd_close_all. rewrite Ht. cbn [mbind option_bind]. destruct (fdt tk) as [ft|] eqn:Ef.
  - destruct (k_task _ _ _ _ HI _ _ Ht) as [_ Hin]. rewrite Hin by (rewrite Ef; by eexists).
    pose proof (leave_table [] st t tk ft empty_slots 0 HI Ht Ef tab_wf_empty []) as H.
    specialize (H ltac:(intros o; by rewrite held_empty)).
    destruct (fdtable_put_ok _ _ _ _ _ H) as (st2 & E2 & HI2 & L2 & T2 & _). exists st2. split; [done|]. split; [done|].
    split; [done|]. rewrite T2. cbn. apply dom_insert_lookup_L. by eexists.
  - set (k := if user_task tk then 0%nat else 3%nat). destruct (k_task _ _ _ _ HI _ _ Ht) as [(Hlen & _) _].
    set (l' := take k (fds_inline tk) ++ replicate (length (fds_inline tk) - k) None).
    assert (k <= 3)%nat by (unfold k; destruct (user_task tk); lia).
    destruct (set_tab_ok [] (held (drop k (fds_inline tk))) [] [] st t (fds_inline tk) (fd_cloexec_inline tk) l' 0 HI)
      as (st1 & E1 & HI1 & Hc & _ & Hd).
    { unfold tab_of. rewrite Ht. cbn [mbind option_bind]. by rewrite Ef. }
    { split; [|split; [done|intros i _; by rewrite Z.bits_0]]. unfold l'. rewrite length_app, length_take, length_replicate, Hlen.
      unfold TASK_MAX_FDS. lia. }
    { intros o. unfold l'. rewrite held_app, held_none, app_nil_r. rewrite <- (take_drop k (fds_inline tk)) at 3.
      rewrite held_app, occ_app. cbn. lia. }
    unfold set_tab in E1. rewrite Ht in E1. cbn [mbind option_bind] in E1. rewrite Ef in E1. injection E1 as <-.
    rewrite <- (app_nil_r (held (drop k (fds_inline tk)))) in HI1.
    destruct (run_unrefs _ _ _ _ _ HI1) as (st2 & E2 & HI2 & L2 & T2 & D2 & B2). unfold run in E2. cbn [kc] in E2.
    destruct (foldM unref (held (drop k (fds_inline tk))) (kc st)) as [c'|]; [|done]. cbn [mbind option_bind] in *.
    injection E2 as <-. eexists. split; [done|]. split; [exact HI2|]. split; [exact L2|done].
Qed.

(** ** Sockets *)

Lemma run_close_sock X T S st s : KInv X T (s :: S) st ->
  exists st', run (close_sock s) st = Some st' /\ KInv X T S st' /\ follows [] st st'.
Proof.
  intros HI. destruct (close_sock_spec _ _ _ _ _ _ (k_core _ _ _ _ HI)) as (c' & E' & HC & Hs).
  exists (set_core c' st). unfold run. rewrite E'. split; [done|]. split; [by eapply KInv_core|].
  split; [apply (sh_ledger _ _ _ _ Hs)|done].
Qed.

Lemma install_sock_ok X T S st t s nb aa : KInv X T (s :: S) st -> is_Some (tasks st !! t) ->
  (forall a, aa = Some a -> ofiles (kc st) !! a = None) ->
  exists st' r new, install_sock st t s nb aa = Some (st', r) /\ KInv X T S st' /\ follows new st st'.
Proof.
  intros HI Ht Ha. unfold install_sock, ofile_alloc. destruct aa as [a|].
  - destruct (ofile_alloc_ok X T S st a FD_SOCK s nb HI (Ha a eq_refl)) as [HI1 F1].
    destruct (install_or_ok X T S _ t a (-24) HI1 Ht) as (st' & r & E' & HI' & F').
    exists st', r, [(FD_SOCK, s)]. split; [done|]. split; [done|]. apply (follows_trans _ _ _ _ _ F1 F').
  - destruct (run_close_sock _ _ _ _ _ HI) as (st' & E' & HI' & F'). rewrite E'. exists st', (-12), []. done.
Qed.

(** A socket as [kcalloc] left it joins the store. *)
Lemma new_sock_ok X T S st s u : KInv X T S st -> socks (nt (kc st)) !! s = None -> alone u ->
  KInv X T (s :: S) (set_core (put_sock s u (kc st)) st).
Proof. intros HI Hs Hu. eapply KInv_core; [done|]. apply sock_new; [apply HI|done|done]. Qed.

Lemma unix_socket_ok st t nb me sa oa : KInv [] [] [] st -> is_Some (tasks st !! t) ->
  (forall a, sa = Some a -> socks (nt (kc st)) !! a = None) -> (forall a, oa = Some a -> ofiles (kc st) !! a = None) ->
  exists st' r new, sys_unix_socket st t nb me sa oa = Some (st', r) /\ KInv [] [] [] st' /\ follows new st st'.
Proof.
  intros HI Ht Hs Ho. unfold sys_unix_socket. destruct sa as [s|]; [|exists st, (-12), []; auto using follows_refl].
  pose proof (new_sock_ok _ _ _ _ s (usock_new me) HI (Hs s eq_refl) ltac:(done)) as HI1.
  apply (install_sock_ok [] [] [] _ t s nb oa HI1 Ht Ho).
Qed.

Lemma unix_of_ok X T S st t fd : KInv X T S st -> is_Some (tasks st !! t) ->
  exists r, unix_of st t fd = Some r /\
    match r with Some (s, _) => exists o f, ofiles (kc st) !! o = Some f /\ kind f = FD_SOCK /\ res f = s | None => True end.
Proof.
  intros HI Ht. destruct (tab_of_ok _ _ _ _ _ HI Ht) as (l & cx & El & _ & Hlive).
  unfold unix_of, fd_lookup. rewrite El. cbn [mbind option_bind]. destruct (slot l fd) as [o|] eqn:Es; [|by exists None].
  destruct (Hlive o (slot_held _ _ _ Es)) as [f Hf]. rewrite Hf. cbn [mbind option_bind].
  eexists. split; [done|]. destruct (kind f) eqn:Ek; try done. exists o, f. done.
Qed.

(** A call that only changes the sockets. *)
Lemma on_net_ok X X' T S S' st n : KInv X T S st -> CI (plus (ext st) X') S' (set_net n (kc st)) ->
  KInv X' T S' (on_net st n) /\ follows [] st (on_net st n).
Proof. intros HI HC. split; [by eapply KInv_core|done]. Qed.

Lemma unix_bind_ok st t fd name a b : KInv [] [] [] st -> is_Some (tasks st !! t) ->
  exists st' r, sys_unix_bind st t fd name a b = Some (st', r) /\ KInv [] [] [] st' /\ follows [] st st'.
Proof.
  intros HI Ht. unfold sys_unix_bind. destruct (unix_of_ok _ _ _ _ _ fd HI Ht) as (r & E1 & H1). rewrite E1. cbn [mbind option_bind].
  destruct r as [[s nb]|]; [|eauto using follows_refl]. destruct H1 as (o & f & Ho & Hk & <-).
  destruct (bind_ok _ _ _ _ _ name a b (k_core _ _ _ _ HI) Ho Hk) as (n & r & E2 & HC). rewrite E2. cbn [mbind option_bind].
  eexists _, _. split; [done|]. by apply (on_net_ok [] [] [] [] []).
Qed.

Lemma unix_listen_ok st t fd bl me : KInv [] [] [] st -> is_Some (tasks st !! t) ->
  exists st' r, sys_unix_listen st t fd bl me = Some (st', r) /\ KInv [] [] [] st' /\ follows [] st st'.
Proof.
  intros HI Ht. unfold sys_unix_listen. destruct (unix_of_ok _ _ _ _ _ fd HI Ht) as (r & E1 & H1). rewrite E1. cbn [mbind option_bind].
  destruct r as [[s nb]|]; [|eauto using follows_refl]. destruct H1 as (o & f & Ho & Hk & <-).
  destruct (listen_ok _ _ _ _ _ bl me (k_core _ _ _ _ HI) Ho Hk) as (n & r & E2 & HC). rewrite E2. cbn [mbind option_bind].
  eexists _, _. split; [done|]. by apply (on_net_ok [] [] [] [] []).
Qed.

Lemma unix_connect_ok st t fd name me sa : KInv [] [] [] st -> is_Some (tasks st !! t) ->
  (forall a, sa = Some a -> socks (nt (kc st)) !! a = None) ->
  exists st' r, sys_unix_connect st t fd name me sa = Some (st', r) /\ KInv [] [] [] st' /\ follows [] st st'.
Proof.
  intros HI Ht Hs. unfold sys_unix_connect. destruct (unix_of_ok _ _ _ _ _ fd HI Ht) as (r & E1 & H1). rewrite E1. cbn [mbind option_bind].
  destruct r as [[s nb]|]; [|eauto using follows_refl]. destruct H1 as (o & f & Ho & Hk & <-).
  destruct (connect_ok _ _ _ _ _ name me sa (k_core _ _ _ _ HI) Ho Hk Hs) as (n & r & w & E2 & HC). rewrite E2. cbn [mbind option_bind].
  eexists _, _. split; [done|]. by apply (on_net_ok [] [] [] [] []).
Qed.

Lemma unix_accept_ok st t fd nb stop oa : KInv [] [] [] st -> is_Some (tasks st !! t) ->
  (forall a, oa = Some a -> ofiles (kc st) !! a = None) ->
  exists st' r new, sys_unix_accept st t fd nb stop oa = Some (st', r) /\ KInv [] [] [] st' /\ follows new st st'.
Proof.
  intros HI Ht Ho'. unfold sys_unix_accept. destruct (unix_of_ok _ _ _ _ _ fd HI Ht) as (r & E1 & H1). rewrite E1. cbn [mbind option_bind].
  destruct r as [[s lnb]|]; [|eexists _, _, []; auto using follows_refl]. destruct H1 as (o & f & Ho & Hk & <-).
  destruct (accept_ok _ _ _ _ _ (negb lnb) stop (k_core _ _ _ _ HI) Ho Hk) as (n & a & r & E2 & HC & _). rewrite E2. cbn [mbind option_bind].
  destruct (on_net_ok [] [] [] [] _ st n HI HC) as [HI1 F1]. destruct a as [s|].
  - destruct (install_sock_ok [] [] [] _ t s nb oa HI1 Ht Ho') as (st' & i & new & E3 & HI3 & F3). rewrite E3. cbn [mbind option_bind].
    eexists _, _, (new ++ []). split; [done|]. split; [done|]. apply (follows_trans _ _ _ _ _ F1 F3).
  - destruct r; eexists _, _, []; done.
Qed.

Lemma send_sys_ok st t fd data passfd : KInv [] [] [] st -> is_Some (tasks st !! t) ->
  exists st' r, sys_send st t fd data passfd = Some (st', r) /\ KInv [] [] [] st' /\ follows [] st st'.
Proof.
  intros HI Ht. unfold sys_send. destruct (unix_of_ok _ _ _ _ _ fd HI Ht) as (r & E1 & H1). rewrite E1. cbn [mbind option_bind].
  destruct r as [[s nb]|]; [|eauto using follows_refl]. destruct H1 as (o & f & Ho & Hk & <-).
  destruct (owned _ _ _ _ _ (k_core _ _ _ _ HI) Ho Hk) as (u & Hu & _).
  assert (exists pf, (if 0 <=? passfd then fd_lookup st t passfd else Some None) = Some pf /\
    forall o, pf = Some o -> is_Some (ofiles (kc st) !! o)) as (pf & E2 & Hpf).
  { destruct (0 <=? passfd); [|by exists None]. destruct (tab_of_ok _ _ _ _ _ HI Ht) as (l & cx & El & _ & Hlive).
    unfold fd_lookup. rewrite El. cbn [mbind option_bind]. exists (slot l passfd). split; [done|]. intros x Hx. by eapply Hlive, slot_held. }
  rewrite E2. cbn [mbind option_bind].
  destruct (send_ok _ _ _ _ u data pf (k_core _ _ _ _ HI) Hu Hpf) as (n & r & took & w & c' & E3 & E4 & HC & L4).
  rewrite E3. cbn [mbind option_bind]. unfold run, on_net. cbn [kc set_core]. rewrite E4. cbn [mbind option_bind].
  eexists _, _. split; [done|]. split; [exact (KInv_core [] [] [] [] [] st c' HI HC)|]. by split.
Qed.

Lemma recv_sys_ok st t fd len stop want : KInv [] [] [] st -> is_Some (tasks st !! t) ->
  exists st' out r i, sys_recv st t fd len stop want = Some (st', out, r, i) /\ KInv [] [] [] st' /\ follows [] st st'.
Proof.
  intros HI Ht. unfold sys_recv. destruct (unix_of_ok _ _ _ _ _ fd HI Ht) as (r & E1 & H1). rewrite E1. cbn [mbind option_bind].
  destruct r as [[s nb]|]; [|eexists _, _, _, _; auto using follows_refl]. destruct H1 as (o & f & Ho & Hk & <-).
  destruct (owned _ _ _ _ _ (k_core _ _ _ _ HI) Ho Hk) as (u & Hu & _).
  destruct (recv_ok _ _ _ _ u len true stop true (k_core _ _ _ _ HI) Hu) as (n & out & passed & r & w & E2 & HC).
  rewrite E2. cbn [mbind option_bind].
  assert (KInv (match passed with Some x => [x] | None => [] end) [] [] (on_net st n)) as HI1.
  { eapply (on_net_ok []); [done|]. eapply CInv_ext; [|done|exact HC]. intros x. unfold plus. cbn. lia. }
  destruct passed as [x|]; [|eexists _, _, _, _; done]. destruct want.
  - destruct (install_or_ok [] [] [] _ t x (-1) HI1 Ht) as (st' & i & E3 & HI3 & F3). rewrite E3. cbn [mbind option_bind].
    eexists _, _, _, _. done.
  - destruct (run_unref _ _ _ _ _ HI1) as (st' & E3 & HI3 & L3 & _ & D3 & _). rewrite E3. cbn [mbind option_bind].
    eexists _, _, _, _. split; [done|]. split; [done|]. by apply (unref_follows (on_net st n)).
Qed.

(** The two ends of a pair with a description each, or neither. *)
Lemma seq_pair_ok E HS c a b : CI E HS c -> CI E HS (set_net (usock_set_seqpacket a b (nt c)) c).
Proof.
  intros HI. assert (forall s c0, CI E HS c0 -> CI E HS (set_net (Net (alter set_seq s (socks (nt c0))) (reg (nt c0))) c0)) as H.
  { intros s c0 HI0. destruct (socks (nt c0) !! s) as [u|] eqn:Hs.
    - assert (alter set_seq s (socks (nt c0)) = <[s := set_seq u]> (socks (nt c0))) as ->.
      { apply map_eq. intros i. destruct (decide (s = i)) as [<-|Hne].
        - by rewrite lookup_alter_eq, lookup_insert_eq, Hs.
        - by rewrite lookup_alter_ne, lookup_insert_ne. }
      apply (sock_data _ _ c0 s u (set_seq u) HI0 Hs); done.
    - rewrite alter_id by (intros ?; congruence). destruct c0 as [? [? ?] ?]. exact HI0. }
  pose proof (H a c HI) as H1. exact (H b _ H1).
Qed.

(** [if (fd >= 0) sys_close(fd); else ofile_unref(o);] *)
Lemma undo_install_ok X st t i o : KInv ((if i <? 0 then [o] else []) ++ X) [] [] st -> is_Some (tasks st !! t) ->
  exists st' r, (if i <? 0 then st' ← run (unref o) st; Some (st', 0) else sys_close st t i) = Some (st', r) /\
    KInv X [] [] st' /\ follows [] st st'.
Proof.
  intros HI Ht. destruct (i <? 0); cbn [app] in HI.
  - destruct (run_unref _ _ _ _ _ HI) as (st' & E' & HI' & L' & _ & D' & _). rewrite E'. exists st', 0.
    split; [done|]. split; [done|]. by apply unref_follows.
  - destruct (sys_close_ok _ _ _ _ _ i HI Ht) as (st' & r & E' & HI' & F'). eauto.
Qed.

Lemma install_one X st t o : KInv (o :: X) [] [] st -> is_Some (tasks st !! t) ->
  exists st' i, fd_install st t o = Some (st', i) /\ KInv ((if i <? 0 then [o] else []) ++ X) [] [] st' /\ follows [] st st'.
Proof.
  intros HI Ht. destruct (install_ok _ _ _ _ _ _ 3 HI Ht) as (st' & i & E' & F' & _ & H'). exists st', i. split; [done|].
  split; [|done]. destruct H' as [[-> ->]|[Hi HI']]; [done|]. destruct (Z.ltb_spec i 0); [lia|done].
Qed.

(** Both descriptions are installed, or both are undone. *)
Lemma install_pair st t x y : KInv [x; y] [] [] st -> is_Some (tasks st !! t) ->
  exists st' r, (
    '(st1, i) ← fd_install st t x;
    '(st2, j) ← fd_install st1 t y;
    if (i <? 0) || (j <? 0) then
      '(st3, _) ← (if i <? 0 then st' ← run (unref x) st2; Some (st', 0) else sys_close st2 t i);
      '(st4, _) ← (if j <? 0 then st' ← run (unref y) st3; Some (st', 0) else sys_close st3 t j);
      Some (st4, None)
    else Some (st2, Some (i, j))) = Some (st', r) /\ KInv [] [] [] st' /\ follows [] st st'.
Proof.
  intros HI Ht. destruct (install_one _ _ _ _ HI Ht) as (st1 & i & E1 & HI1 & F1). rewrite E1. cbn [mbind option_bind].
  pose proof (live_dom _ _ t (proj2 F1) Ht) as Ht1.
  destruct (install_one (if i <? 0 then [x] else []) st1 t y) as (st2 & j & E2 & HI2 & F2); [|done|].
  { eapply KInv_ext; [|done|done|exact HI1]. intros o. destruct (i <? 0); cbn; lia. }
  rewrite E2. cbn [mbind option_bind]. pose proof (follows_trans _ _ _ _ _ F1 F2) as F12. cbn [app] in F12.
  pose proof (live_dom _ _ t (proj2 F12) Ht) as Ht2.
  destruct ((i <? 0) || (j <? 0)) eqn:Eb.
  - destruct (undo_install_ok (if j <? 0 then [y] else []) st2 t i x) as (st3 & r3 & E3 & HI3 & F3); [|done|].
    { eapply KInv_ext; [|done|done|exact HI2]. intros o. rewrite !occ_app. lia. }
    rewrite E3. cbn [mbind option_bind]. pose proof (live_dom _ _ t (proj2 F3) Ht2) as Ht3.
    destruct (undo_install_ok [] st3 t j y) as (st4 & r4 & E4 & HI4 & F4); [by rewrite app_nil_r|done|].
    rewrite E4. cbn [mbind option_bind]. exists st4, None. split; [done|]. split; [done|].
    apply (follows_trans _ _ _ _ _ F12 (follows_trans _ _ _ _ _ F3 F4)).
  - apply orb_false_iff in Eb as [Ei Ej]. rewrite Ei, Ej in HI2. eexists _, _. split; [done|]. done.
Qed.

(** Tearing a pair down: [x] and [y] are the descriptions made so far. *)
Lemma tear_end X T S st s o : KInv (match o with Some x => [x] | None => [] end ++ X) T (match o with Some _ => [] | None => [s] end ++ S) st ->
  exists c, match o with Some x => unref x (kc st) | None => close_sock s (kc st) end = Some c /\
    KInv X T S (set_core c st) /\ follows [] st (set_core c st).
Proof.
  intros HI. destruct o as [x|]; cbn [app] in HI.
  - destruct (run_unref _ _ _ _ _ HI) as (st' & E' & HI' & L' & _ & D' & _). unfold run in E'.
    destruct (unref x (kc st)) as [c|]; [|done]. injection E' as <-. exists c. split; [done|]. split; [done|]. by apply unref_follows.
  - destruct (run_close_sock _ _ _ _ _ HI) as (st' & E' & HI' & F'). unfold run in E'.
    destruct (close_sock s (kc st)) as [c|]; [|done]. injection E' as <-. eauto.
Qed.

(** [ofile_from_sock] for one end. *)
Lemma alloc_end X S st s o c r : ofile_alloc FD_SOCK s false o (kc st) = (c, r) ->
  (forall a, o = Some a -> ofiles (kc st) !! a = None) -> KInv X [] (s :: S) st ->
  r = o /\ KInv (match o with Some x => [x] | None => [] end ++ X) [] (match o with Some _ => [] | None => [s] end ++ S) (set_core c st) /\
  follows (match o with Some _ => [(FD_SOCK, s)] | None => [] end) st (set_core c st).
Proof.
  intros E Ho HI. unfold ofile_alloc in E. destruct o as [a|]; injection E as <- <-; (split; [done|]).
  - apply (ofile_alloc_ok X [] S st a FD_SOCK s false HI (Ho a eq_refl)).
  - replace (set_core (kc st) st) with st by (by destruct st). by split.
Qed.

Lemma socketpair_ok st t seq me sa sb oa ob : KInv [] [] [] st -> is_Some (tasks st !! t) ->
  (forall a, sa = Some a -> socks (nt (kc st)) !! a = None) -> (forall b, sb = Some b -> socks (nt (kc st)) !! b = None) ->
  (forall a b, sa = Some a -> sb = Some b -> a <> b) ->
  (forall a, oa = Some a -> ofiles (kc st) !! a = None) -> (forall b, ob = Some b -> ofiles (kc st) !! b = None) ->
  (forall a b, oa = Some a -> ob = Some b -> a <> b) ->
  exists st' r new, sys_socketpair st t seq me sa sb oa ob = Some (st', r) /\ KInv [] [] [] st' /\ follows new st st'.
Proof.
  intros HI Ht Hsa Hsb Hsab Hoa Hob Hoab. unfold sys_socketpair.
  destruct sa as [a|]; [|exists st, None, []; auto using follows_refl].
  destruct sb as [b|]; [|exists st, None, []; auto using follows_refl]. cbn [usock_pair].
  pose proof (pair_ok _ _ _ me a b (k_core _ _ _ _ HI) (Hsab _ _ eq_refl eq_refl) (Hsa _ eq_refl) (Hsb _ eq_refl)) as HC. cbn in HC.
  set (n0 := put b _ _) in *. set (n := if seq then usock_set_seqpacket a b n0 else n0).
  assert (CI (plus (ext st) []) [a; b] (set_net n (kc st))) as HC1.
  { unfold n. destruct seq; [|exact HC]. exact (seq_pair_ok _ _ _ a b HC). }
  destruct (on_net_ok [] [] [] [] [a; b] st n HI HC1) as [HI1 F1].
  destruct (ofile_alloc FD_SOCK a false oa (set_net n (kc st))) as [c1 o1] eqn:E1.
  destruct (alloc_end [] [b] (on_net st n) a oa c1 o1 E1 Hoa HI1) as (-> & HI2 & F2).
  set (st2 := set_core c1 (on_net st n)) in *.
  destruct (ofile_alloc FD_SOCK b false ob c1) as [c2 o2] eqn:E2.
  assert (KInv (match oa with Some x => [x] | None => [] end) [] (b :: match oa with Some _ => [] | None => [a] end) st2) as HI2'.
  { eapply KInv_ext; [|done| |exact HI2]; intros o; rewrite occ_app; cbn; lia. }
  assert (forall y, ob = Some y -> ofiles (kc st2) !! y = None) as Hob2.
  { intros y ->. unfold ofile_alloc in E1. destruct oa as [x|]; injection E1 as <-; cbn; [|by apply Hob].
    rewrite lookup_insert_ne; [by apply Hob|]. by apply (Hoab x y). }
  destruct (alloc_end _ _ st2 b ob c2 o2 E2 Hob2 HI2') as (-> & HI3 & F3).
  set (st3 := set_core c2 st2) in *. change (set_core c2 st) with st3.
  pose proof (follows_trans _ _ _ _ _ F1 (follows_trans _ _ _ _ _ F2 F3)) as F13.
  pose proof (live_dom _ _ t (proj2 F13) Ht) as Ht3.
  assert (forall o1 o2, (oa = o1 /\ ob = o2) -> (o1 = None \/ o2 = None) -> exists st' r new, (
      c3 ← match o1 with Some x => unref x c2 | None => close_sock a c2 end;
      c4 ← match o2 with Some y => unref y c3 | None => close_sock b c3 end;
      Some (set_core c4 st, @None (Z * Z))) = Some (st', r) /\ KInv [] [] [] st' /\ follows new st st') as Htear.
  { intros o1 o2 [<- <-] _. destruct (tear_end (match ob with Some y => [y] | None => [] end) [] (match ob with Some _ => [] | None => [b] end)
      st3 a oa) as (c3 & E3 & HI4 & F4).
    { eapply KInv_ext; [|done| |exact HI3]; intros o; rewrite !occ_app; lia. }
    cbn [kc st3 set_core] in E3. rewrite E3. cbn [mbind option_bind].
    destruct (tear_end [] [] [] (set_core c3 st3) b ob) as (c4 & E4 & HI5 & F5); [by rewrite !app_nil_r|].
    cbn [kc set_core] in E4. rewrite E4. cbn [mbind option_bind]. eexists _, _, _. split; [done|]. split; [exact HI5|].
    apply (follows_trans _ _ _ _ _ F13 (follows_trans _ _ _ _ _ F4 F5)). }
  destruct oa as [x|], ob as [y|]; [|apply (Htear _ _ (conj eq_refl eq_refl)); by (left + right)..].
  destruct (install_pair st3 t x y) as (st' & r & E4 & HI4 & F4); [|done|].
  { eapply KInv_ext; [|done|done|exact HI3]. intros o. cbn. lia. }
  eexists _, _, _. split; [exact E4|]. split; [done|]. apply (follows_trans _ _ _ _ _ F13 F4).
Qed.

End FdTableSpec.
