(* ===== verification/FdTableContract.v ===== *)
(** * Descriptor tables: what holds of every run (kernel/core/usyscall.c, fd.c)

    A run is any sequence of the calls of FdTable.v by any tasks.  The counts
    are exact throughout, no call is stuck, nothing is released twice or
    forgotten; and the two things a caller can see of a table: what dup2 and
    what exec leave in it.  Then what the code does not promise: a lookup and
    the use of what it found are two steps, and a socket passed to itself. *)

From stdpp Require Import base gmap list relations.
From Stdlib Require Import ZArith Lia Bool.
From S2P Require Import Prelude Usock FdTable FdTableCore FdTableNet FdTableInv FdTableSpec.
Open Scope Z_scope.

Module FdTableContract.
Import Usock FdTable FdTableCore FdTableNet FdTableInv FdTableSpec.

(** ** Runs *)

Inductive op :=
  | Open (k : fd_kind) (obj : nat) (aa : option nat) (err : Z)
  | Close (fd : Z)
  | Dup2 (oldfd newfd : Z) (aa : option nat)
  | DupFd (fd minfd : Z) (aa : option nat)
  | SetCloexec (fd : Z) (on : bool)
  | Exec
  | Clone (b : nat) (aa : option nat) (spawned : bool)
  | CloneStart (t b : nat)
  | Fork (b : nat) (spawned : bool)
  | ForkStart (t b : nat)
  | Unshare
  | CloseAll
  | Socket (nb : bool) (me : ucred) (sa oa : option nat)
  | SockPair (seq : bool) (me : ucred) (sa sb oa ob : option nat)
  | Bind (fd : Z) (name : list Z) (stat_ok opened : bool)
  | Listen (fd bl : Z) (me : ucred)
  | Connect (fd : Z) (name : list Z) (me : ucred) (sa : option nat)
  | Accept (fd : Z) (nb stop : bool) (oa : option nat)
  | Send (fd : Z) (data : list Z) (passfd : Z)
  | Recv (fd len : Z) (stop want : bool).

Definition do_op (st : kstate) (t : nat) (x : op) : option kstate :=
  match x with
  | Open k obj aa err => fst <$> sys_open_obj st t k obj aa err
  | Close fd => fst <$> sys_close st t fd
  | Dup2 o n aa => fst <$> sys_dup2 st t o n aa
  | DupFd fd m aa => fst <$> sys_dupfd st t fd m aa
  | SetCloexec fd on => fst <$> fd_set_cloexec st t fd on
  | Exec => fd_close_on_exec st t
  | Clone b aa sp => fst <$> proc_clone st t b aa sp
  | CloneStart u b => clone_bootstrap st u b
  | Fork b sp => fst <$> proc_fork st t b sp
  | ForkStart u b => fork_child_bootstrap st u b
  | Unshare => fd_unshare_table st t
  | CloseAll => fd_close_all st t
  | Socket nb me sa oa => fst <$> sys_unix_socket st t nb me sa oa
  | SockPair q me sa sb oa ob => fst <$> sys_socketpair st t q me sa sb oa ob
  | Bind fd name a b => fst <$> sys_unix_bind st t fd name a b
  | Listen fd bl me => fst <$> sys_unix_listen st t fd bl me
  | Connect fd name me sa => fst <$> sys_unix_connect st t fd name me sa
  | Accept fd nb stop oa => fst <$> sys_unix_accept st t fd nb stop oa
  | Send fd data pf => fst <$> sys_send st t fd data pf
  | Recv fd len stop want => (fun r => r.1.1.1) <$> sys_recv st t fd len stop want
  end.

Definition unused {V} (m : gmap nat V) (a : option nat) : Prop := forall x, a = Some x -> m !! x = None.
Definition distinct (a b : option nat) : Prop := forall x y, a = Some x -> b = Some y -> x <> y.

(** An allocation gives memory not in use; a bootstrap runs for the record it
    was started with. *)
Definition fresh (st : kstate) (x : op) : Prop :=
  match x with
  | Open k _ aa _ => k <> FD_SOCK /\ unused (ofiles (kc st)) aa
  | Dup2 _ _ aa | DupFd _ _ aa => unused (ofiles (kc st)) aa
  | Clone b aa _ => boots st !! b = None /\ unused (tables st) aa
  | Fork b _ => boots st !! b = None
  | CloneStart t b => tasks st !! t = None /\ exists ft, boots st !! b = Some (BClone ft)
  | ForkStart t b => tasks st !! t = None /\ exists l cx, boots st !! b = Some (BFork l cx)
  | Socket _ _ sa oa => unused (socks (nt (kc st))) sa /\ unused (ofiles (kc st)) oa
  | SockPair _ _ sa sb oa ob => unused (socks (nt (kc st))) sa /\ unused (socks (nt (kc st))) sb /\ distinct sa sb /\
      unused (ofiles (kc st)) oa /\ unused (ofiles (kc st)) ob /\ distinct oa ob
  | Connect _ _ _ sa => unused (socks (nt (kc st))) sa
  | Accept _ _ _ oa => unused (ofiles (kc st)) oa
  | _ => True
  end.

(** The calls that may create a description. *)
Definition creates (x : op) : bool :=
  match x with Open _ _ _ _ | Dup2 _ _ _ | DupFd _ _ _ | Socket _ _ _ _ | SockPair _ _ _ _ _ _ | Accept _ _ _ _ => true | _ => false end.

Ltac finish H := eapply H; [reflexivity|eassumption| |eassumption]; done.

Lemma op_ok st t x : KInv [] [] [] st -> is_Some (tasks st !! t) -> fresh st x ->
  exists st' new, do_op st t x = Some st' /\ KInv [] [] [] st' /\ ledger (kc st') ≡ₚ new ++ ledger (kc st) /\
    (creates x = false -> new = []).
Proof.
  intros HI Ht Hf.
  assert (forall (r : option kstate) st', r = Some st' -> KInv [] [] [] st' -> forall new, (creates x = false -> new = []) ->
    follows new st st' -> exists st' new, r = Some st' /\ KInv [] [] [] st' /\ ledger (kc st') ≡ₚ new ++ ledger (kc st) /\
    (creates x = false -> new = [])) as Hfin by (intros r st' -> HI' new Hn [HL _]; eauto 6).
  destruct x as [k obj aa err|d|oldfd newfd aa|d minfd aa|d on| |b aa spawned|u b|b spawned|u b| | |nb me sa oa
    |seq me sa sb oa ob|d name stat_ok opened|d bl me|d name me sa|d nb stop oa|d data passfd|d len stop want];
    cbn [do_op fresh creates] in *.
  - destruct Hf as [Hk Hu]. destruct (open_obj_ok st t k obj aa err HI Ht Hk Hu) as (st' & r & new & -> & HI' & F). finish Hfin.
  - destruct (sys_close_ok _ _ _ _ _ d HI Ht) as (st' & r & -> & HI' & F). finish Hfin.
  - destruct (sys_dup2_ok st t oldfd newfd aa HI Ht Hf) as (st' & r & new & -> & HI' & F). finish Hfin.
  - destruct (sys_dupfd_ok st t d minfd aa HI Ht Hf) as (st' & r & new & -> & HI' & F). finish Hfin.
  - destruct (set_cloexec_ok st t d on HI Ht) as (st' & r & -> & HI' & F). finish Hfin.
  - destruct (fd_exec_ok st t HI Ht) as (st' & -> & HI' & F & _). finish Hfin.
  - destruct Hf as [Hb Hu]. destruct (clone_ok st t b aa spawned HI Ht Hb Hu) as (st' & r & -> & HI' & F). finish Hfin.
  - destruct Hf as (Hn & ft & Hb). unfold clone_bootstrap. rewrite Hb. cbn [mbind option_bind].
    eexists _, []. split; [done|]. split; [by apply (boot_take st b (BClone ft))|done].
  - destruct (fork_ok st t b spawned HI Ht Hf) as (st' & r & -> & HI' & F). finish Hfin.
  - destruct Hf as (Hn & l & cx & Hb). unfold fork_child_bootstrap. rewrite Hb. cbn [mbind option_bind].
    eexists _, []. split; [done|]. split; [by apply (boot_take st b (BFork l cx))|done].
  - destruct (unshare_ok st t HI Ht) as (st' & -> & HI' & F). finish Hfin.
  - destruct (close_all_ok st t HI Ht) as (st' & -> & HI' & F). finish Hfin.
  - destruct Hf as [H1 H2]. destruct (unix_socket_ok st t nb me sa oa HI Ht H1 H2) as (st' & r & new & -> & HI' & F). finish Hfin.
  - destruct Hf as (H1 & H2 & H3 & H4 & H5 & H6).
    destruct (socketpair_ok st t seq me sa sb oa ob HI Ht H1 H2 H3 H4 H5 H6) as (st' & r & new & -> & HI' & F). finish Hfin.
  - destruct (unix_bind_ok st t d name stat_ok opened HI Ht) as (st' & r & -> & HI' & F). finish Hfin.
  - destruct (unix_listen_ok st t d bl me HI Ht) as (st' & r & -> & HI' & F). finish Hfin.
  - destruct (unix_connect_ok st t d name me sa HI Ht Hf) as (st' & r & -> & HI' & F). finish Hfin.
  - destruct (unix_accept_ok st t d nb stop oa HI Ht Hf) as (st' & r & new & -> & HI' & F). finish Hfin.
  - destruct (send_sys_ok st t d data passfd HI Ht) as (st' & r & -> & HI' & F). finish Hfin.
  - destruct (recv_sys_ok st t d len stop want HI Ht) as (st' & out & r & i & -> & HI' & F). finish Hfin.
Qed.

Inductive kstep (st st' : kstate) : Prop :=
  KStep t x : is_Some (tasks st !! t) -> fresh st x -> do_op st t x = Some st' -> kstep st st'.

(** The kernel with its first task. *)
Definition boot_state : kstate :=
  K (Core ∅ (Net ∅ (replicate UREG_MAX None)) []) ∅ {[ 0%nat := Task empty_slots None 0 true ]} ∅.

Lemma fd_boot_inv : KInv [] [] [] boot_state.
Proof.
  assert (forall o, ext boot_state o = 0%nat) as EE.
  { intros o. reflexivity. }
  assert (forall o, users boot_state o = 0%nat) as EU.
  { intros o. reflexivity. }
  split; cbn [kc tables tasks boots boot_state].
  - split; cbn [ofiles nt socks reg]; try done.
    + intros o. unfold plus. rewrite EE. change (queued [] _ o) with 0%nat. cbn. lia.
    + by intros s ?%not_elem_of_nil.
    + intros i name t Hi. exfalso. apply list_elem_of_lookup_2, elem_of_replicate in Hi as [? _]. done.
  - done.
  - intros ft. rewrite EU. cbn. lia.
  - intros t tk [<- <-]%lookup_singleton_Some. cbn. split; [apply tab_wf_empty|by intros [? ?]].
  - done.
Qed.

Lemma reach_inv st : rtc kstep boot_state st -> KInv [] [] [] st.
Proof.
  intros Hr. apply (rtc_invariant _ _ _ _ Hr); [|exact fd_boot_inv]. intros a b [t x Ht Hf Hd] HI.
  destruct (op_ok a t x HI Ht Hf) as (st' & new & E & HI' & _). congruence.
Qed.

(** The slots, the copies in flight and the queues that refer to [o]. *)
Definition references (st : kstate) (o : nat) : nat := (ext st o + queued [] (kc st) o)%nat.


(** A description is released once.  A call that creates none leaves the
    descriptions alive and the log of those released together as they were:
    what disappears from the store is in the log, once each, and nothing else
    is; a call that creates some only adds them. *)
Theorem descriptions_released_once st t x st' : rtc kstep boot_state st ->
  is_Some (tasks st !! t) -> fresh st x -> do_op st t x = Some st' ->
  exists new, ledger (kc st') ≡ₚ new ++ ledger (kc st) /\ (creates x = false -> new = []).
Proof.
  intros Hr%reach_inv Ht Hf E. destruct (op_ok st t x Hr Ht Hf) as (st2 & new & E2 & _ & HL & Hn).
  assert (st2 = st') as -> by congruence. eauto.
Qed.

(** C22: Releasing ends.  Giving back a reference recurses through sockets that
    carry descriptions of sockets, but each three levels of it use up one
    description: with that much depth for the descriptions in use, the call
    returns, whatever refers to what. *)
Theorem release_terminates E HS c o fuel : CInv [] [] (plus E [o]) HS c -> (3 * in_use c <= fuel)%nat ->
  exists c', ofile_unref fuel o c = Some c' /\ CInv [] [] E HS c' /\ (in_use c' <= in_use c)%nat.
Proof.
  intros HI Hf. destruct (unref_ok (in_use c) fuel o [] [] E HS c HI (Nat.le_refl _) Hf) as (c' & E' & HI' & Hs).
  exists c'. split; [done|]. split; [done|]. apply (sh_use _ _ _ _ Hs).
Qed.

(** ** What a caller sees *)

Lemma land_bit m i : 0 <= i -> (Z.land m (Z.shiftl 1 i) =? 0) = negb (Z.testbit m i).
Proof.
  intros Hi. destruct (Z.eqb_spec (Z.land m (Z.shiftl 1 i)) 0) as [E|E].
  - pose proof (f_equal (fun z => Z.testbit z i) E) as H. cbn in H.
    rewrite Z.land_spec, Z.shiftl_spec, Z.sub_diag, Z.bits_0, andb_true_r in H by done. by rewrite H.
  - destruct (Z.testbit m i) eqn:Et; [done|]. exfalso. apply E. apply Z.bits_inj'. intros k Hk.
    rewrite Z.land_spec, Z.shiftl_spec, Z.bits_0 by done. destruct (Z.eqb_spec k i) as [->|Hne]; [by rewrite Et|].
    destruct (Z.ltb_spec k i); [by rewrite (Z.testbit_neg_r 1), andb_false_r by lia|].
    rewrite (Z.bits_above_log2 1), andb_false_r by (cbn; lia). done.
Qed.

Lemma exec_split_lookup l m i j : 0 <= i ->
  (exec_split l m i).1 !! j = (fun x => if Z.testbit m (i + Z.of_nat j) then None else x) <$> l !! j.
Proof.
  revert i j. induction l as [|x l IH]; intros i j Hi; cbn [exec_split]; [done|]. specialize (IH (i + 1)).
  destruct (exec_split l m (i + 1)) as [k g]. cbn [fst] in IH. rewrite land_bit by done. destruct j as [|j].
  - rewrite Z.add_0_r. destruct (Z.testbit m i); done.
  - specialize (IH j ltac:(lia)). replace (i + 1 + Z.of_nat j) with (i + Z.of_nat (S j)) in IH by lia.
    destruct (Z.testbit m i); exact IH.
Qed.

(** Exec closes what is marked, and nothing else.  In every reachable
    state: after [fd_close_on_exec] a slot is empty if its close-on-exec bit
    was set and is what it was if not, and no bit is set any more. *)
Theorem exec_closes_marked st t l cx : rtc kstep boot_state st -> tab_of st t = Some (l, cx) ->
  exists st' l', fd_close_on_exec st t = Some st' /\ tab_of st' t = Some (l', 0) /\ length l' = length l /\
    forall i, l' !! i = (fun x => if Z.testbit cx (Z.of_nat i) then None else x) <$> l !! i.
Proof.
  intros Hr%reach_inv Ht. assert (is_Some (tasks st !! t)) as Hl.
  { unfold tab_of in Ht. destruct (tasks st !! t); [by eexists|done]. }
  destruct (fd_exec_ok st t Hr Hl) as (st' & E & _ & _ & Htab). exists st', (exec_split l cx 0).1.
  split; [done|]. split; [by apply Htab|]. split.
  - pose proof (exec_split_spec l cx 0) as H. destruct (exec_split l cx 0) as [k g]. apply H.
  - intros i. by rewrite exec_split_lookup.
Qed.

(** Dup2 redirects one descriptor.  In every reachable state, a dup2 of an
    open descriptor onto another number makes that slot refer to the same
    description, clears its close-on-exec bit, and leaves every other slot and
    bit of the table. *)
Theorem dup2_redirects st t oldfd newfd o l cx : rtc kstep boot_state st -> tab_of st t = Some (l, cx) ->
  slot l oldfd = Some o -> oldfd <> newfd -> in_range newfd = true ->
  exists st', sys_dup2 st t oldfd newfd None = Some (st', newfd) /\
    tab_of st' t = Some (<[Z.to_nat newfd := Some o]> l, cx_clear cx newfd) /\
    forall i, 0 <= i -> Z.testbit (cx_clear cx newfd) i = Z.testbit cx i && negb (i =? newfd).
Proof.
  intros Hr%reach_inv Ht Hs Hne Hin. assert (is_Some (tasks st !! t)) as Hl.
  { unfold tab_of in Ht. destruct (tasks st !! t); [by eexists|done]. }
  destruct (tab_of_ok _ _ _ _ _ Hr Hl) as (l0 & cx0 & El & _ & Hlive). assert (l0 = l) as -> by congruence.
  destruct (take_ref_ok _ _ _ _ _ Hr (Hlive o (slot_held _ _ _ Hs))) as (st1 & E1 & HI1 & F1 & T1 & TB1).
  destruct (dup2_install_ok [] st1 t o newfd HI1) as (st' & E' & _ & _ & Htab); [by rewrite T1|done|].
  exists st'. split.
  - unfold sys_dup2. rewrite (proj2 (Z.eqb_neq _ _) Hne). unfold fd_dup_source, fd_lookup. rewrite Ht. cbn [mbind option_bind].
    rewrite Hs. cbn [mbind option_bind]. unfold dup2_install, take_ref. rewrite Hin. cbn [negb]. rewrite E1. exact E'.
  - split; [apply Htab; by rewrite (tab_of_same st)|]. intros i Hi. apply cx_clear_bit; [|done].
    unfold in_range in Hin. apply andb_true_iff in Hin as [? ?]. bool_props. lia.
Qed.

(** ** Runs by example *)

Definition next (st : kstate) (t : nat) (x : op) : kstate := default boot_state (do_op st t x).

Lemma next_step st t x : rtc kstep boot_state st -> is_Some (tasks st !! t) -> fresh st x -> is_Some (do_op st t x) ->
  rtc kstep boot_state (next st t x).
Proof.
  intros Hr Ht Hf [st' E]. apply rtc_r with st; [done|]. apply KStep with t x; [done..|]. unfold next. by rewrite E.
Qed.

Ltac step_by := apply next_step; [|vm_compute; by eexists|
  cbn [fresh]; unfold unused, distinct; split_and?; try (intros ? [= <-]; reflexivity); try (intros ? ? [= <-] [= <-]; discriminate); done
  |vm_compute; by eexists].

(** A file open as descriptor 3, marked close-on-exec. *)
Definition one_open : kstate := next (next boot_state 0 (Open FD_VFS 7 (Some 10%nat) (-24))) 0 (SetCloexec 3 true).
Lemma one_open_reach : rtc kstep boot_state one_open.
Proof. unfold one_open. step_by. step_by. apply rtc_refl. Qed.


Lemma descriptions_released_once_witness :
  exists st' new, do_op one_open 0 (Close 3) = Some st' /\ ledger (kc st') ≡ₚ new ++ ledger (kc one_open) /\ new = [] /\
    released (kc st') = [(FD_VFS, 7%nat)].
Proof.
  destruct (do_op one_open 0 (Close 3)) as [st'|] eqn:E; [|discriminate].
  destruct (descriptions_released_once one_open 0 (Close 3) st' one_open_reach) as (new & HL & Hn);
    [vm_compute; by eexists|exact I|exact E|]. exists st', new. split; [reflexivity|]. split; [exact HL|].
  split; [by apply Hn|]. vm_compute in E. injection E as <-. reflexivity.
Defined.

Lemma release_terminates_witness :
  exists c', ofile_unref 3 10 (kc one_open) = Some c' /\ released c' = [(FD_VFS, 7%nat)] /\ (in_use c' <= in_use (kc one_open))%nat.
Proof.
  destruct (release_terminates (fun _ => 0%nat) [] (kc one_open) 10 3) as (c' & E & _ & Hu).
  - eapply CInv_ext; [|done|exact (k_core _ _ _ _ (reach_inv _ one_open_reach))]. intros x. unfold plus.
    assert (ext one_open x = occ x [10%nat] + 0 + 0 + 0)%nat as -> by reflexivity. cbn. lia.
  - vm_compute. lia.
  - exists c'. split; [exact E|]. split; [|exact Hu]. vm_compute in E. injection E as <-. reflexivity.
Defined.

Lemma exec_closes_marked_witness : exists st' l', fd_close_on_exec one_open 0 = Some st' /\ tab_of st' 0 = Some (l', 0) /\
  l' !! 3%nat = Some None.
Proof.
  destruct (exec_closes_marked one_open 0 (None :: None :: None :: Some 10%nat :: replicate 28 None) 8 one_open_reach eq_refl)
    as (st' & l' & E & Ht & _ & Hl). exists st', l'. split; [exact E|]. split; [exact Ht|]. rewrite Hl. reflexivity.
Defined.

Lemma dup2_redirects_witness : exists st', sys_dup2 one_open 0 3 1 None = Some (st', 1) /\
  tab_of st' 0 = Some (None :: Some 10%nat :: None :: Some 10%nat :: replicate 28 None, 8).
Proof.
  destruct (dup2_redirects one_open 0 3 1 10 (None :: None :: None :: Some 10%nat :: replicate 28 None) 8 one_open_reach
    eq_refl eq_refl ltac:(lia) eq_refl) as (st' & E & Ht & _). exists st'. split; [exact E|]. rewrite Ht. reflexivity.
Defined.

(** Two threads on one table, descriptor 3 open. *)
Definition two_threads : kstate :=
  next (next (next boot_state 0 (Open FD_VFS 7 (Some 10%nat) (-24))) 0 (Clone 0 (Some 5%nat) true)) 0 (CloneStart 1 0).
Lemma two_threads_reach : rtc kstep boot_state two_threads.
Proof. unfold two_threads. apply next_step; [step_by; step_by; apply rtc_refl|vm_compute; by eexists| |vm_compute; by eexists].
  cbn [fresh]. split; [reflexivity|]. exists 5%nat. reflexivity. Qed.

(** C36: A lookup and the use of what it found are two steps, and another thread
    may close in between.  With two threads on one table: the first has looked
    up descriptor 3 for a dup2 and not yet taken its reference; the second
    closes 3, which frees the description; the first then takes a reference on
    freed memory.  [fd_snapshot_for_fork] takes its references under the
    table's lock for this reason; [sys_dup2] and [sys_dupfd] do not. *)
Theorem dup2_races_close : exists st st', rtc kstep boot_state st /\
  fd_dup_source st 0 3 None = Some (st, Some (10%nat, false)) /\
  sys_close st 1 3 = Some (st', 0) /\ ofiles (kc st') !! 10%nat = None /\
  dup2_install st' 0 10 false 5 = None.
Proof.
  exists two_threads. destruct (sys_close two_threads 1 3) as [[st' r]|] eqn:E; [|discriminate].
  exists st'. split; [exact two_threads_reach|]. split; [reflexivity|]. vm_compute in E. injection E as <- <-.
  split; [reflexivity|]. split; reflexivity.
Qed.

(** A socket passed through itself: its own queue keeps it, and when the last
    descriptor goes nothing can reach it any more. *)
Definition self_passed : kstate :=
  next (next (next (next boot_state 0 (SockPair false (Cred 1 0 0) (Some 20%nat) (Some 21%nat) (Some 11%nat) (Some 12%nat)))
    0 (Send 3 [1] 4)) 0 (Close 3)) 0 (Close 4).

Lemma passed_to_itself_leaks : rtc kstep boot_state self_passed /\
  (forall o, ext self_passed o = 0%nat) /\
  refcount <$> (ofiles (kc self_passed) !! 12%nat) = Some 1 /\ is_Some (socks (nt (kc self_passed)) !! 21%nat).
Proof.
  split; [|split; [intros o; reflexivity|split; [reflexivity|vm_compute; by eexists]]].
  unfold self_passed. step_by. step_by. step_by. step_by. apply rtc_refl.
Qed.

End FdTableContract.
