(* ===== verification/Klog.v ===== *)
(** * The kernel message ring (kernel/core/klog.c)

    Output arrives one byte at a time; a staging line collects it and every
    newline commits the line to the next of 512 slots.  The theorem says what
    a reader finds there: the last lines of the output, in order, each cut to
    its buffer. *)

From stdpp Require Import base list.
From Stdlib Require Import ZArith Lia Bool.
From S2P Require Import Prelude.
Open Scope Z_scope.

Module Klog.

Definition KLOG_MAX_RECORDS : Z := 512.
Definition KLOG_MSG_MAX : nat := 200.
Definition KLOG_TAG_MAX : nat := 16.
Definition KLOG_INFO : Z := 6.
Definition KLOG_NLEVELS : Z := 8.
Definition CR : Z := 13.
Definition NL : Z := 10.

Record klog_record := Rec { seq : Z; t_ms : Z; level : Z; tag : list Z; msg : list Z }.

Record state := St {
  ring : Z -> klog_record; committed : Z; stag : list Z; pend_level : Z; pend_tag : list Z }.

(** "kernel" *)
Definition DEFAULT_TAG : list Z := [107; 101; 114; 110; 101; 108].

Definition init : state := St (fun _ => Rec 0 0 0 [] []) 0 [] KLOG_INFO DEFAULT_TAG.

Definition copy_str (src : list Z) (cap : nat) : list Z := take (cap - 1) src.

(** [now] is the tick count the commit reads. *)
Definition commit_line (now : Z) (s : state) : state :=
  match stag s with
  | [] => s
  | m =>
      let n := u64 (committed s + 1) in
      St ((ring s)⟦committed s mod KLOG_MAX_RECORDS ↦ Rec n now (u8 (pend_level s)) (copy_str (pend_tag s) KLOG_TAG_MAX) m⟧)
         n [] KLOG_INFO (copy_str DEFAULT_TAG KLOG_TAG_MAX)
  end.

Definition klog_feed_char (now : Z) (s : state) (c : Z) : state :=
  if c =? CR then s
  else if c =? NL then commit_line now s
  else if (length (stag s) <? KLOG_MSG_MAX - 1)%nat
       then St (ring s) (committed s) (stag s ++ [c]) (pend_level s) (pend_tag s)
       else s.

Definition feed (now : Z) (s : state) (cs : list Z) : state := foldl (klog_feed_char now) s cs.

(** [text] is what [kvprintf] emits for the format and its arguments. *)
Definition klog (now : Z) (s : state) (lvl : Z) (tg : option (list Z)) (text : list Z) : state :=
  let l := if lvl <? 0 then 0 else lvl in
  let l := if KLOG_NLEVELS <=? l then KLOG_NLEVELS - 1 else l in
  let s := St (ring s) (committed s) (stag s) l (copy_str (default DEFAULT_TAG tg) KLOG_TAG_MAX) in
  let s := feed now s text in
  match stag s with [] => s | _ => commit_line now s end.

(** The records a reader is handed when nothing is logged meanwhile: the
    slots from [start] to [total], blank ones skipped. *)
Definition klog_for_each (s : state) : list klog_record :=
  let total := committed s in
  let start := if KLOG_MAX_RECORDS <? total then total - KLOG_MAX_RECORDS else 0 in
  filter (fun r => seq r <> 0) ((fun i => ring s (i mod KLOG_MAX_RECORDS)) <$> seqZ start (total - start)).

(** ** The lines of the output *)

(** What the staging buffer makes of one line's bytes. *)
Definition line (l : list Z) : list Z := take (KLOG_MSG_MAX - 1) (filter (fun c => c <> CR) l).

(** The bytes of the terminated lines, oldest first, and of the unfinished one. *)
Fixpoint split_lines (cur : list Z) (cs : list Z) : list (list Z) * list Z :=
  match cs with
  | [] => ([], cur)
  | c :: cs' => if c =? NL then let '(ls, e) := split_lines [] cs' in (cur :: ls, e)
                else split_lines (cur ++ [c]) cs'
  end.

Definition lines (cs : list Z) : list (list Z) := filter (fun l => l <> []) (line <$> (split_lines [] cs).1).

(** The ring holds the last 512 entries of the history [h]. *)
Definition holds (s : state) (h : list klog_record) : Prop :=
  committed s = Z.of_nat (length h) /\
  forall i r, h !! i = Some r -> seq r = Z.of_nat i + 1 /\
    (Z.of_nat (length h) - KLOG_MAX_RECORDS <= Z.of_nat i -> ring s (Z.of_nat i mod KLOG_MAX_RECORDS) = r).

Lemma commit_holds now s h : holds s h -> Z.of_nat (length h) + 1 < 2 ^ 64 -> stag s <> [] ->
  exists r, msg r = stag s /\ t_ms r = now /\ holds (commit_line now s) (h ++ [r]) /\ stag (commit_line now s) = [] /\
    level r = u8 (pend_level s) /\ tag r = copy_str (pend_tag s) KLOG_TAG_MAX /\
    pend_level (commit_line now s) = KLOG_INFO /\ pend_tag (commit_line now s) = DEFAULT_TAG.
Proof.
  intros [Hc Hh] Hb Hs. unfold commit_line. destruct (stag s) as [|x m]; [done|].
  eexists (Rec (u64 (committed s + 1)) now (u8 (pend_level s)) (copy_str (pend_tag s) KLOG_TAG_MAX) (x :: m)).
  split_and!; try done. unfold holds. cbn [committed ring seq]. rewrite length_app. cbn [length].
  change (2 ^ 64) with 18446744073709551616 in Hb.
  assert (u64 (committed s + 1) = Z.of_nat (length h) + 1) as -> by (rewrite u64_small; lia).
  split; [lia|]. intros i r Hi. destruct (decide (i = length h)) as [->|Hne].
  - rewrite lookup_app_r, Nat.sub_diag in Hi by lia. injection Hi as <-. split; [done|]. intros _.
    rewrite Hc. apply upd_same.
  - assert (i < length h)%nat by (apply lookup_lt_Some in Hi; rewrite length_app in Hi; cbn in Hi; lia).
    rewrite lookup_app_l in Hi by lia. destruct (Hh i r Hi) as [Hq Hr]. split; [done|]. intros Hlo.
    rewrite upd_other; [apply Hr; lia|]. rewrite Hc. unfold KLOG_MAX_RECORDS in *. intros E.
    assert ((Z.of_nat (length h) - Z.of_nat i) mod 512 = 0) as E0 by (rewrite Zminus_mod, E, Z.sub_diag; done).
    rewrite Z.mod_small in E0 by lia. lia.
Qed.

(** A record of plain kprintf output: level INFO, tag "kernel". *)
Definition plain (now : Z) (l : list Z) (r : klog_record) : Prop :=
  msg r = l /\ t_ms r = now /\ level r = KLOG_INFO /\ tag r = DEFAULT_TAG.

Definition pending_plain (s : state) : Prop := pend_level s = KLOG_INFO /\ pend_tag s = DEFAULT_TAG.

Lemma line_snoc l c : c <> CR -> line (l ++ [c]) =
  if (length (line l) <? KLOG_MSG_MAX - 1)%nat then line l ++ [c] else line l.
Proof.
  intros Hc. unfold line. generalize (KLOG_MSG_MAX - 1)%nat as k. intros k.
  rewrite filter_app, filter_cons_True by done. change (filter (fun c => c <> CR) []) with (@nil Z).
  destruct (Nat.ltb_spec (length (take k (filter (fun c => c <> CR) l))) k) as [H|H]; rewrite length_take in H.
  - rewrite !take_ge; [done|lia|rewrite length_app; cbn; lia].
  - rewrite take_app_le by lia. done.
Qed.

Lemma feed_lines now s h cur cs :
  holds s h -> stag s = line cur -> pending_plain s -> Z.of_nat (length h) + Z.of_nat (length cs) < 2 ^ 64 ->
  exists rs, Forall2 (plain now) (filter (fun l => l <> []) (line <$> (split_lines cur cs).1)) rs /\
    holds (feed now s cs) (h ++ rs) /\ stag (feed now s cs) = line (split_lines cur cs).2.
Proof.
  revert s h cur. induction cs as [|c cs IH]; intros s h cur Hh Hs Hp Hb.
  { exists []. rewrite app_nil_r. split_and!; [constructor|done|done]. }
  cbn [length] in Hb. change (feed now s (c :: cs)) with (feed now (klog_feed_char now s c) cs). cbn [split_lines].
  destruct (Z.eqb_spec c NL) as [->|Hnl].
  - change (klog_feed_char now s NL) with (commit_line now s). destruct (split_lines [] cs) as [ls e] eqn:E. cbn [fst snd fmap list_fmap].
    destruct (line cur) as [|x m] eqn:El.
    + assert (commit_line now s = s) as -> by (unfold commit_line; by rewrite Hs). destruct (IH s h []) as (rs & H1 & H2 & H3); [done|done|done|lia|].
      rewrite E in H1, H3. exists rs. rewrite filter_cons_False by tauto. done.
    + rewrite <- El in *. assert (stag s <> []) as Hne by (rewrite Hs, El; done).
      destruct (commit_holds now s h Hh ltac:(lia) Hne) as (r & Hm & Ht & Hh' & Hst & Hlv & Htg & Hp1 & Hp2).
      destruct (IH (commit_line now s) (h ++ [r]) []) as (rs & H1 & H2 & H3);
        [done|done|done|rewrite length_app; cbn; lia|].
      rewrite E in H1, H3. exists (r :: rs). rewrite <- app_assoc in H2.
      rewrite filter_cons_True by (by rewrite El). split_and!; [|done|done]. constructor; [|done].
      unfold plain. rewrite Hm, Hs, Hlv, Htg. destruct Hp as [-> ->]. done.
  - unfold klog_feed_char. rewrite (proj2 (Z.eqb_neq c NL)) by done. destruct (Z.eqb_spec c CR) as [->|Hcr].
    + apply IH; [done| |done|lia]. unfold line. rewrite filter_app, filter_cons_False by tauto. by rewrite app_nil_r.
    + apply IH; [by destruct (_ <? _)%nat| |by destruct (_ <? _)%nat|lia].
      rewrite line_snoc by done. rewrite Hs. by destruct (_ <? _)%nat.
Qed.

Lemma init_holds : holds init [].
Proof. by split. Qed.

Lemma for_each_holds s h : holds s h -> klog_for_each s = drop (length h - 512) h.
Proof.
  intros [Hc Hh]. unfold klog_for_each. rewrite Hc. unfold KLOG_MAX_RECORDS in *.
  set (start := if 512 <? Z.of_nat (length h) then Z.of_nat (length h) - 512 else 0).
  assert (start = Z.of_nat (length h - 512)) as Hst by (subst start; destruct (Z.ltb_spec 512 (Z.of_nat (length h))); lia).
  assert ((fun i => ring s (i mod 512)) <$> seqZ start (Z.of_nat (length h) - start) = drop (length h - 512) h) as ->.
  { apply list_eq_same_length with (length h - (length h - 512))%nat;
      [rewrite length_drop; lia|rewrite length_fmap, length_seqZ; lia|].
    intros i x y Hi Hx Hy. rewrite lookup_drop in Hy. destruct (Hh _ _ Hy) as [_ Hr].
    apply list_lookup_fmap_Some in Hx as (z & -> & Hz). apply lookup_seqZ in Hz as [-> _].
    rewrite <- Hr by lia. f_equal. f_equal. lia. }
  apply filter_all, Forall_lookup_2. intros i x Hi. rewrite lookup_drop in Hi. destruct (Hh _ _ Hi) as [-> _]. lia.
Qed.

(** After any output, reading the ring gives the last 512 lines of it, in
    order: every terminated line that is not blank, without carriage returns
    and cut to 199 bytes, stamped INFO and "kernel" when nothing else was
    asked for. *)
Theorem klog_last_lines now cs :
  Z.of_nat (length cs) < 2 ^ 64 ->
  Forall2 (plain now) (drop (length (lines cs) - 512) (lines cs)) (klog_for_each (feed now init cs)).
Proof.
  intros Hb. destruct (feed_lines now init [] [] cs init_holds eq_refl (conj eq_refl eq_refl) Hb) as (rs & H1 & H2 & _).
  cbn [app] in H2. rewrite (for_each_holds _ _ H2). fold (lines cs) in H1.
  rewrite <- (Forall2_length _ _ _ H1). by apply Forall2_drop.
Qed.

(** "hi" CR NL NL "x" NL "t" *)
Definition output : list Z := [104; 105; 13; 10; 10; 120; 10; 116].

Lemma klog_last_lines_witness :
  lines output = [[104; 105]; [120]] /\
  Forall2 (plain 7) (drop (length (lines output) - 512) (lines output)) (klog_for_each (feed 7 init output)).
Proof. split; [vm_compute; reflexivity|]. apply (klog_last_lines 7 output). done. Defined.

(** A message without its newline is closed with its own level and tag; the
    next plain line starts from the defaults. *)
Example klog_closes_line :
  level <$> klog_for_each (feed 0 (klog 0 init 3 (Some [110]) [97]) [98; NL]) = [3; KLOG_INFO].
Proof. reflexivity. Qed.

End Klog.
