(* ===== verification/Pcache.v ===== *)
(** * The page cache (kernel/mem/pcache.c, kernel/includes/cowref.h)

    A hash table from (file id, page index) to page frames, each frame held
    by the cache and by every mapping of it.  The frame's share count is the
    copy-on-write count of [cowref.h] (0 means one holder that was never
    shared).  Every operation runs under the cache's mutex.  The frame
    allocator is an argument with the law that it gives a frame nobody has;
    what a file read delivers is an argument too.  [maps] is what the page
    tables hold of the cache's frames. *)

From stdpp Require Import base list.
From Stdlib Require Import ZArith Lia Bool.
From S2P Require Import Prelude.
Open Scope Z_scope.

Module Pcache.

Definition PC_HASH : Z := 1024.

Record pc_page := PG { id : Z; idx : Z; frame : Z; last_ms : Z }.

Record state := St {
  g_hash : Z -> list pc_page; share : Z -> Z; owned : Z -> bool; mem : Z -> Z -> Z; busy : Z -> bool;
  pc_id : Z -> Z; g_next_id : Z; maps : Z -> Z }.

Definition hslot (i x : Z) : Z :=
  Z.land (Z.lxor (Z.lxor (u32 (i * 2654435761)) (u32 x)) (u32 (Z.shiftr x 20))) (PC_HASH - 1).

(** ** Share counts *)

(** The value [cow_ref_share] installs. *)
Definition cow_ref_share (o : Z) : Z := u16 (if o =? 0 then 2 else o + 1).
(** The new count, and whether this was the last holder. *)
Definition cow_ref_drop (o : Z) : Z * bool := if o <=? 1 then (0, true) else (o - 1, false).

Definition set_share (s : state) v := St (g_hash s) v (owned s) (mem s) (busy s) (pc_id s) (g_next_id s) (maps s).
Definition set_hash (s : state) v := St v (share s) (owned s) (mem s) (busy s) (pc_id s) (g_next_id s) (maps s).
Definition set_owned (s : state) v := St (g_hash s) (share s) v (mem s) (busy s) (pc_id s) (g_next_id s) (maps s).
Definition set_busy (s : state) v := St (g_hash s) (share s) (owned s) (mem s) v (pc_id s) (g_next_id s) (maps s).
Definition set_mem (s : state) v := St (g_hash s) (share s) (owned s) v (busy s) (pc_id s) (g_next_id s) (maps s).
Definition set_maps (s : state) v := St (g_hash s) (share s) (owned s) (mem s) (busy s) (pc_id s) (g_next_id s) v.
Definition set_ids (s : state) p n := St (g_hash s) (share s) (owned s) (mem s) (busy s) p n (maps s).

Definition vmm_frame_share (s : state) (f : Z) : state := set_share s ((share s)⟦f ↦ cow_ref_share (share s f)⟧).
Definition vmm_frame_unshare (s : state) (f : Z) : state * bool :=
  let '(n, last) := cow_ref_drop (share s f) in (set_share s ((share s)⟦f ↦ n⟧), last).

Definition owned_set (s : state) (f : Z) (on : bool) : state := set_owned s ((owned s)⟦f ↦ on⟧).

(** Refused while the cache owns the frame. *)
Definition pmm_free_frame (s : state) (f : Z) : state :=
  if owned s f then s else set_busy s ((busy s)⟦f ↦ false⟧).

Section Ops.
(** [pmm_alloc_frame_user], given the frames in use; 0 is none. *)
Context (alloc : (Z -> bool) -> Z).

(** ** Filling and dropping *)

(** [bounce]: the kernel page was there; [got]: the bytes the read gave. *)
Definition fill_page (s : state) (bounce : bool) (got : list Z) : state * Z :=
  let fr := alloc (busy s) in
  if fr =? 0 then (s, 0)
  else
    let s := set_busy s ((busy s)⟦fr ↦ true⟧) in
    if negb bounce then (pmm_free_frame s fr, 0)
    else (set_mem s (fun f b => if f =? fr then (if b <? 4096 then nth (Z.to_nat b) got 0 else 0) else mem s f b), fr).

Definition drop_entry (s : state) (e : pc_page) : state :=
  let s := owned_set s (frame e) false in
  let '(s, last) := vmm_frame_unshare s (frame e) in
  if last then pmm_free_frame s (frame e) else s.

(** ** Giving pages back *)

Definition slots : list Z := seqZ 0 PC_HASH.
Definition all_pages (s : state) : list pc_page := flat_map (g_hash s) slots.

(** One scan: the oldest page that nobody maps, first of equals. *)
Definition better (s : state) (best : option pc_page) (e : pc_page) : option pc_page :=
  if (share s (frame e) <=? 1) && (last_ms e <? match best with Some b => last_ms b | None => 18446744073709551615 end)
  then Some e else best.
Definition oldest (s : state) : option pc_page := foldl (better s) None (all_pages s).

Definition same_key (i x : Z) (e : pc_page) : bool := (id e =? i) && (idx e =? x).

(** [*best = e->next] *)
Definition unlink_page (s : state) (e : pc_page) : state :=
  let h := hslot (id e) (idx e) in
  set_hash s ((g_hash s)⟦h ↦ filter (fun x => same_key (id e) (idx e) x = false) (g_hash s h)⟧).

Fixpoint reclaim_loop (fuel : nat) (s : state) (max freed : Z) : state * Z :=
  match fuel with
  | O => (s, freed)
  | S fuel' =>
      if max <=? freed then (s, freed)
      else match oldest s with
           | None => (s, freed)
           | Some e => reclaim_loop fuel' (drop_entry (unlink_page s e) e) max (freed + 1)
           end
  end.
Definition pcache_reclaim (s : state) (max : Z) : state * Z := reclaim_loop (S (length (all_pages s))) s max 0.

(** ** Mapping a page *)

Definition lookup (s : state) (i x : Z) : option pc_page := snd <$> list_find (fun e => same_key i x e = true) (g_hash s (hslot i x)).

Definition touch (s : state) (e : pc_page) (now : Z) : state :=
  let h := hslot (id e) (idx e) in
  set_hash s ((g_hash s)⟦h ↦ (fun x => if same_key (id e) (idx e) x then PG (id x) (idx x) (frame x) now else x) <$> g_hash s h⟧).

(** Two attempts at filling (the second after a reclaim), each with its
    bounce page and its bytes; [ent]: memory for the entry. *)
Definition pcache_map_page (s : state) (ino x : Z) (b1 b2 : bool) (got1 got2 : list Z) (ent : bool) (now : Z) : state * option Z :=
  let s := if pc_id s ino =? 0 then set_ids s ((pc_id s)⟦ino ↦ g_next_id s⟧) (u32 (g_next_id s + 1)) else s in
  let i := pc_id s ino in
  let finish (s : state) (e : pc_page) :=
    let s := touch s e now in
    let s := vmm_frame_share s (frame e) in
    (set_maps s ((maps s)⟦frame e ↦ maps s (frame e) + 1⟧), Some (frame e)) in
  match lookup s i x with
  | Some e => finish s e
  | None =>
      let '(s, fr) := fill_page s b1 got1 in
      let '(s, fr) := if fr =? 0 then fill_page (pcache_reclaim s 64).1 b2 got2 else (s, fr) in
      if fr =? 0 then (s, None)
      else if negb ent then (pmm_free_frame s fr, None)
      else
        let e := PG i x fr 0 in
        let s := owned_set s fr true in
        let h := hslot i x in
        finish (set_hash s ((g_hash s)⟦h ↦ e :: g_hash s h⟧)) e
  end.

(** A mapping goes away (munmap, teardown) or is copied by fork. *)
Definition unmap (s : state) (f : Z) : state :=
  let '(s, last) := vmm_frame_unshare s f in
  let s := set_maps s ((maps s)⟦f ↦ maps s f - 1⟧) in
  if last then pmm_free_frame s f else s.
Definition fork_map (s : state) (f : Z) : state :=
  let s := vmm_frame_share s f in set_maps s ((maps s)⟦f ↦ maps s f + 1⟧).

(** ** When the file changes *)

Definition drop_slot (i : Z) (s : state) (h : Z) : state :=
  foldl drop_entry (set_hash s ((g_hash s)⟦h ↦ filter (fun e => id e <> i) (g_hash s h)⟧)) (filter (fun e => id e = i) (g_hash s h)).

Definition pcache_invalidate (s : state) (ino : Z) : state :=
  if pc_id s ino =? 0 then s
  else
    let s := foldl (drop_slot (pc_id s ino)) s slots in
    set_ids s ((pc_id s)⟦ino ↦ 0⟧) (g_next_id s).

Definition drop_all_slot (s : state) (h : Z) : state := foldl drop_entry (set_hash s ((g_hash s)⟦h ↦ []⟧)) (g_hash s h).
Definition pcache_drop_all (s : state) : state := foldl drop_all_slot s slots.

(** The bytes of [src] (at file offset [off]) that fall into page [x]. *)
Definition update_page (m : Z -> Z) (x off : Z) (src : list Z) : Z -> Z :=
  let pg := x * 4096 in
  let end_ := off + Z.of_nat (length src) in
  let from := if pg <? off then off else pg in
  let to := if end_ <? pg + 4096 then end_ else pg + 4096 in
  fun p => if (from - pg <=? p) && (p <? to - pg) then nth (Z.to_nat (p + pg - off)) src 0 else m p.

Definition update_one (i off : Z) (src : list Z) (s : state) (x : Z) : state :=
  match lookup s i x with
  | None => s
  | Some e => set_mem s ((mem s)⟦frame e ↦ update_page (mem s (frame e)) x off src⟧)
  end.

(** [for (idx = off / 4096; idx * 4096 < end; idx++)] *)
Definition pcache_update (s : state) (ino off : Z) (src : list Z) : state :=
  let n := Z.of_nat (length src) in
  if (pc_id s ino =? 0) || (n =? 0) then s
  else foldl (update_one (pc_id s ino) off src) s (seqZ (off / 4096) ((off + n - 1) / 4096 - off / 4096 + 1)).

End Ops.

End Pcache.
