(* ===== verification/PcacheSpec.v ===== *)
(** * The page cache keeps its frames and its contents right (Pcache.v)

    A frame is in use exactly as long as the cache or a mapping holds it, and
    a page the cache hands out holds the file's bytes, whatever maps, unmaps,
    forks, reclaims, writes, truncations and removals came before. *)

From stdpp Require Import base list.
From Stdlib Require Import ZArith Lia Bool.
From S2P Require Import Prelude Pcache.
Import Pcache.
Open Scope Z_scope.

Module PcacheSpec.

(** ** The table as one list *)

Definition key (e : pc_page) : Z * Z := (id e, idx e).

Lemma hslot_range i x : 0 <= hslot i x < PC_HASH.
Proof.
  unfold hslot. change (PC_HASH - 1) with (Z.ones 10). rewrite Z.land_ones by lia. change PC_HASH with (2 ^ 10). apply Z.mod_pos_bound. lia.
Qed.

Lemma in_slots h : h ∈ slots <-> 0 <= h < PC_HASH.
Proof. unfold slots. rewrite elem_of_seqZ. lia. Qed.

Lemma slots_nodup : NoDup slots.
Proof. apply NoDup_seqZ. Qed.

Opaque slots.

Lemma pages_of_slot (g : Z -> list pc_page) h : 0 <= h < PC_HASH ->
  exists rest, forall v, flat_map (g⟦h ↦ v⟧) slots ≡ₚ v ++ rest.
Proof.
  intros Hh. assert (h ∈ slots) as Hin by (by apply in_slots). apply list_elem_of_split in Hin as (l1 & l2 & E).
  pose proof slots_nodup as Hnd. rewrite E in Hnd. apply NoDup_app in Hnd as (_ & Hd & Hnd2). apply NoDup_cons in Hnd2 as [Hn2 _].
  assert (h ∉ l1) as Hn1 by (intros H; by apply (Hd h H), elem_of_cons; left).
  exists (flat_map g l1 ++ flat_map g l2). intros v. rewrite E, flat_map_app. cbn [flat_map]. rewrite upd_same.
  assert (forall l, h ∉ l -> flat_map (g⟦h ↦ v⟧) l = flat_map g l) as Heq.
  { induction l as [|k l IH]; intros Hl; [done|]. apply not_elem_of_cons in Hl as [Hk Hl]. cbn. rewrite upd_other by done. by rewrite IH. }
  rewrite (Heq l1 Hn1), (Heq l2 Hn2). rewrite Permutation_app_comm, <- app_assoc. apply Permutation_app_head, Permutation_app_comm.
Qed.

Lemma upd_id {A} (g : Z -> A) h : forall k, (g⟦h ↦ g h⟧) k = g k.
Proof. intros k. rewrite upd_eq. by destruct (Z.eqb_spec k h) as [->|]. Qed.

Lemma flat_map_fext {A B} (f g : A -> list B) l : (forall x, f x = g x) -> flat_map f l = flat_map g l.
Proof. intros H. induction l as [|x l IH]; [done|]. cbn. by rewrite H, IH. Qed.

Lemma all_pages_slot s h : 0 <= h < PC_HASH -> exists rest, all_pages s ≡ₚ g_hash s h ++ rest /\
  forall v, all_pages (set_hash s ((g_hash s)⟦h ↦ v⟧)) ≡ₚ v ++ rest.
Proof.
  intros Hh. destruct (pages_of_slot (g_hash s) h Hh) as [rest Hr]. exists rest. split; [|exact Hr].
  rewrite <- Hr. unfold all_pages. rewrite (flat_map_fext _ _ _ (upd_id (g_hash s) h)). done.
Qed.

Lemma in_all_pages s e : e ∈ all_pages s <-> exists h, 0 <= h < PC_HASH /\ e ∈ g_hash s h.
Proof.
  unfold all_pages. rewrite list_elem_of_In, in_flat_map. split.
  - intros (h & Hh & He). exists h. apply list_elem_of_In in Hh, He. apply in_slots in Hh. done.
  - intros (h & Hh & He). exists h. rewrite <- !list_elem_of_In. split; [by apply in_slots|done].
Qed.

(** ** The invariant *)

Definition held_ok (s : state) (f : Z) : Prop :=
  owned s f = true /\ busy s f = true /\ 0 <= maps s f /\ (share s f = maps s f + 1 \/ (share s f = 0 /\ maps s f = 0)).
Definition loose_ok (s : state) (f : Z) : Prop :=
  owned s f = false /\ share s f = maps s f /\ 0 <= maps s f /\ (0 < maps s f -> busy s f = true).

(** [out]: entries already taken off the table that still hold their frame. *)
Record inv_with (s : state) (out : list pc_page) : Prop := {
  p_slot h e : e ∈ g_hash s h -> h = hslot (id e) (idx e);
  p_keys h : NoDup (key <$> g_hash s h);
  p_frames : NoDup (frame <$> (all_pages s ++ out));
  p_held e : e ∈ all_pages s ++ out -> held_ok s (frame e);
  p_loose f : f ∉ frame <$> (all_pages s ++ out) -> loose_ok s f;
  p_next : 0 < g_next_id s;
  p_ids e : e ∈ all_pages s ++ out -> 0 < id e < g_next_id s;
  p_inos i : 0 <= pc_id s i < g_next_id s;
  p_inj i j : pc_id s i = pc_id s j -> pc_id s i <> 0 -> i = j }.

Notation inv s := (inv_with s []).

Lemma slot_in s e h : (forall h e, e ∈ g_hash s h -> h = hslot (id e) (idx e)) -> e ∈ g_hash s h -> e ∈ all_pages s.
Proof. intros Hs He. apply in_all_pages. exists h. split; [|done]. rewrite (Hs h e He). apply hslot_range. Qed.

Lemma lookup_spec s i x e : inv s -> lookup s i x = Some e <-> e ∈ all_pages s /\ id e = i /\ idx e = x.
Proof.
  intros Hi. unfold lookup. assert (forall e, same_key i x e = true <-> id e = i /\ idx e = x) as Hk.
  { intros e'. unfold same_key. rewrite andb_true_iff, !Z.eqb_eq. done. }
  split.
  - intros H. apply fmap_Some in H as ([k e'] & E & ->). apply list_find_Some in E as (E & E2 & _). apply Hk in E2.
    split; [|done]. eapply slot_in; [apply (p_slot _ _ Hi)|]. by eapply list_elem_of_lookup_2.
  - intros (He & Hid & Hx). apply in_all_pages in He as (h & Hh & He). pose proof (p_slot _ _ Hi _ _ He) as E. rewrite Hid, Hx in E. subst h.
    destruct (list_find_elem_of (fun e => same_key i x e = true) (g_hash s (hslot i x)) e) as [[k e'] Ef]; [done|by apply Hk|].
    rewrite Ef. cbn. f_equal. apply list_find_Some in Ef as (Ek & Ek2 & _). apply Hk in Ek2 as [Hid' Hx'].
    apply list_elem_of_lookup in He as [k2 Hk2]. pose proof (p_keys _ _ Hi (hslot i x)) as Hnd.
    assert (k = k2) as ->; [|congruence]. eapply NoDup_lookup; [exact Hnd|rewrite list_lookup_fmap, Ek; done|].
    rewrite list_lookup_fmap, Hk2. cbn. unfold key. congruence.
Qed.

(** ** Dropping an entry *)

Lemma drop_entry_frame s e : g_hash (drop_entry s e) = g_hash s /\ mem (drop_entry s e) = mem s /\ maps (drop_entry s e) = maps s /\
  pc_id (drop_entry s e) = pc_id s /\ g_next_id (drop_entry s e) = g_next_id s.
Proof. unfold drop_entry, vmm_frame_unshare, pmm_free_frame. destruct (cow_ref_drop _) as [n []]; cbn; [|done]. by destruct (_⟦_ ↦ _⟧ _). Qed.

Lemma drop_entry_at s e f : held_ok s (frame e) ->
  if decide (f = frame e) then loose_ok (drop_entry s e) f /\ (maps s f = 0 -> busy (drop_entry s e) f = false)
  else owned (drop_entry s e) f = owned s f /\ share (drop_entry s e) f = share s f /\ busy (drop_entry s e) f = busy s f.
Proof.
  intros (Ho & Hb & Hm & Hs). unfold drop_entry, vmm_frame_unshare, pmm_free_frame, cow_ref_drop, owned_set. cbn.
  case_decide as E.
  - subst f. unfold loose_ok. destruct (Z.leb_spec (share s (frame e)) 1); cbn; rewrite ?upd_same; cbn; rewrite ?upd_same; (split; [|lia || done]);
      repeat split; try lia; done.
  - destruct (share s (frame e) <=? 1); cbn; rewrite ?upd_same; cbn; rewrite ?upd_other by done; done.
Qed.

Lemma page_inv_drop s e out : inv_with s (e :: out) -> inv_with (drop_entry s e) out.
Proof.
  intros Hi. destruct (drop_entry_frame s e) as (Eh & Em & Emp & Eid & En).
  assert (all_pages (drop_entry s e) = all_pages s) as Eall by (unfold all_pages; by rewrite Eh).
  assert (all_pages s ++ e :: out ≡ₚ e :: (all_pages s ++ out)) as Hp by (symmetry; apply Permutation_middle).
  pose proof (p_frames _ _ Hi) as Hf. rewrite Hp in Hf. cbn in Hf. apply NoDup_cons in Hf as [Hnin Hf].
  assert (held_ok s (frame e)) as Hhe by (apply (p_held _ _ Hi); rewrite Hp; by left).
  assert (forall f, f <> frame e -> owned (drop_entry s e) f = owned s f /\ share (drop_entry s e) f = share s f /\ busy (drop_entry s e) f = busy s f) as Hoth.
  { intros f Hne. pose proof (drop_entry_at s e f Hhe) as H. by rewrite decide_False in H. }
  constructor; rewrite ?Eall, ?Eh, ?Eid, ?En; try apply Hi.
  - done.
  - intros e' He'. assert (frame e' <> frame e) as Hne by (intros E; apply Hnin; rewrite <- E; by apply list_elem_of_fmap_2).
    destruct (Hoth _ Hne) as (H1 & H2 & H3). pose proof (p_held _ _ Hi e' ltac:(rewrite Hp; by right)) as H.
    unfold held_ok in *. rewrite Emp. by rewrite H1, H2, H3.
  - intros f Hfn. pose proof (drop_entry_at s e f Hhe) as H. case_decide as E; [by destruct H|]. destruct H as (H1 & H2 & H3).
    unfold loose_ok. rewrite Emp, H1, H2, H3. apply (p_loose _ _ Hi). rewrite Hp. cbn. apply not_elem_of_cons. done.
  - intros e' He'. apply (p_ids _ _ Hi). rewrite Hp. by right.
Qed.

Lemma inv_drops s out l : inv_with s (l ++ out) -> inv_with (foldl drop_entry s l) out /\
  g_hash (foldl drop_entry s l) = g_hash s /\ mem (foldl drop_entry s l) = mem s /\ maps (foldl drop_entry s l) = maps s /\
  pc_id (foldl drop_entry s l) = pc_id s /\ g_next_id (foldl drop_entry s l) = g_next_id s.
Proof.
  revert s. induction l as [|e l IH]; intros s Hi; [done|]. cbn. destruct (IH (drop_entry s e)) as (H1 & H2 & H3 & H4 & H5 & H6); [by apply page_inv_drop|].
  destruct (drop_entry_frame s e) as (E1 & E2 & E3 & E4 & E5). by rewrite H2, H3, H4, H5, H6.
Qed.

(** Taking entries off one slot. *)
Lemma inv_take_off s h v gone out : inv_with s out -> 0 <= h < PC_HASH -> g_hash s h ≡ₚ v ++ gone ->
  (exists P : pc_page -> Prop, exists (HP : forall x, Decision (P x)), v = filter P (g_hash s h)) ->
  inv_with (set_hash s ((g_hash s)⟦h ↦ v⟧)) (gone ++ out).
Proof.
  intros Hi Hh Hp (P & HP & Ev). destruct (all_pages_slot s h Hh) as (rest & Ha & Hv).
  assert (all_pages (set_hash s ((g_hash s)⟦h ↦ v⟧)) ++ gone ++ out ≡ₚ all_pages s ++ out) as Hall.
  { rewrite Hv, Ha, Hp. rewrite <- !app_assoc. apply Permutation_app_head. rewrite !app_assoc. apply Permutation_app_tail. apply Permutation_app_comm. }
  constructor; cbn; try apply Hi.
  - intros k e. rewrite upd_eq. destruct (Z.eqb_spec k h) as [->|]; [|apply (p_slot _ _ Hi)].
    intros He. apply (p_slot _ _ Hi). rewrite Ev in He. by apply list_elem_of_filter in He as [_ He].
  - intros k. rewrite upd_eq. destruct (Z.eqb_spec k h) as [->|]; [|apply (p_keys _ _ Hi)]. rewrite Ev.
    eapply sublist_NoDup; [apply (p_keys _ _ Hi h)|]. apply fmap_sublist, sublist_filter.
  - rewrite Hall. apply (p_frames _ _ Hi).
  - intros e He. rewrite Hall in He. by apply (p_held _ _ Hi).
  - intros f Hf. rewrite Hall in Hf. by apply (p_loose _ _ Hi).
  - intros e He. rewrite Hall in He. by apply (p_ids _ _ Hi).
Qed.

(** ** Invalidation *)

(** What a step leaves alone. *)
Definition same_data (s s' : state) : Prop := mem s' = mem s /\ maps s' = maps s /\ pc_id s' = pc_id s /\ g_next_id s' = g_next_id s.

Lemma inv_drop_slot i s h : inv s -> 0 <= h < PC_HASH ->
  inv (drop_slot i s h) /\ g_hash (drop_slot i s h) = (g_hash s)⟦h ↦ filter (fun e => id e <> i) (g_hash s h)⟧ /\ same_data s (drop_slot i s h).
Proof.
  intros Hi Hh. unfold drop_slot. set (s1 := set_hash s _).
  assert (inv_with s1 (filter (fun e => id e = i) (g_hash s h) ++ [])) as Hi1.
  { apply inv_take_off; [done|done| |by eexists _, _]. rewrite Permutation_app_comm. symmetry. apply filter_split. }
  destruct (inv_drops s1 [] _ Hi1) as (H1 & H2 & H3 & H4 & H5 & H6). done.
Qed.

Lemma inv_drop_slots i l s : inv s -> Forall (fun h => 0 <= h < PC_HASH) l ->
  inv (foldl (drop_slot i) s l) /\ same_data s (foldl (drop_slot i) s l) /\
  forall h, g_hash (foldl (drop_slot i) s l) h = if decide (h ∈ l) then filter (fun e => id e <> i) (g_hash s h) else g_hash s h.
Proof.
  revert s. induction l as [|h l IH]; intros s Hi Hl; [done|]. apply Forall_cons in Hl as [Hh Hl]. cbn [foldl].
  destruct (inv_drop_slot i s h Hi Hh) as (H1 & H2 & H3 & H4 & H5 & H6). destruct (IH _ H1 Hl) as (J1 & (J2 & J3 & J4 & J5) & J6).
  split; [done|]. split; [unfold same_data; by rewrite J2, J3, J4, J5|]. intros k. rewrite J6, H2, upd_eq.
  destruct (Z.eqb_spec k h) as [->|Hne].
  - destruct (decide (h ∈ h :: l)) as [_|Hn]; [|destruct Hn; by left]. case_decide; [|done]. by apply list_filter_filter_l.
  - destruct (decide (k ∈ l)), (decide (k ∈ h :: l)) as [Hin|Hn]; try done.
    + destruct Hn. by right.
    + apply elem_of_cons in Hin as [?|?]; done.
Qed.

Lemma slots_range : Forall (fun h => 0 <= h < PC_HASH) slots.
Proof. apply Forall_forall. intros h Hh. by apply in_slots. Qed.

Lemma inv_ids s p n : inv s -> 0 < n -> (forall e, e ∈ all_pages s -> 0 < id e < n) -> (forall i, 0 <= p i < n) ->
  (forall i j, p i = p j -> p i <> 0 -> i = j) -> inv (set_ids s p n).
Proof. intros [] H1 H2 H3 H4. constructor; try done. intros e. rewrite app_nil_r. apply H2. Qed.

Lemma inv_invalidate s ino : inv s ->
  inv (pcache_invalidate s ino) /\ mem (pcache_invalidate s ino) = mem s /\ maps (pcache_invalidate s ino) = maps s /\
  (forall i, pc_id (pcache_invalidate s ino) i = if i =? ino then 0 else pc_id s i) /\
  (forall e, e ∈ all_pages (pcache_invalidate s ino) <-> e ∈ all_pages s /\ (pc_id s ino <> 0 -> id e <> pc_id s ino)).
Proof.
  intros Hi. unfold pcache_invalidate. pose proof slots_range as Hsr. pose proof in_slots as Hsi. revert Hsr Hsi. generalize slots. intros l Hsr Hsi.
  destruct (Z.eqb_spec (pc_id s ino) 0) as [E|Hne].
  { do 3 (split; [done|]). split; [intros i; by destruct (Z.eqb_spec i ino) as [->|]|]. intros e. split; [by intros|by intros [? _]]. }
  destruct (inv_drop_slots (pc_id s ino) l s Hi Hsr) as (H1 & (H2 & H3 & H4 & H5) & H6).
  set (s1 := foldl _ s l) in *. clearbody s1.
  assert (forall e, e ∈ all_pages s1 <-> e ∈ all_pages s /\ (pc_id s ino <> 0 -> id e <> pc_id s ino)) as Hall.
  { intros e. rewrite !in_all_pages. split.
    - intros (h & Hh & He). rewrite H6, decide_True in He by (by apply Hsi). apply list_elem_of_filter in He as [? ?]. eauto.
    - intros [(h & Hh & He) Hn]. exists h. split; [done|]. rewrite H6, decide_True by (by apply Hsi). apply list_elem_of_filter. auto. }
  split; [|split; [done|split; [done|split; [|done]]]].
  - apply inv_ids; [done| | | |]; rewrite ?H5.
    + apply (p_next _ _ Hi).
    + intros e He. apply Hall in He as [He _]. apply (p_ids _ _ Hi). by rewrite app_nil_r.
    + intros i. rewrite upd_eq, H4. pose proof (p_inos _ _ Hi i). pose proof (p_next _ _ Hi). destruct (i =? ino); lia.
    + intros i j. rewrite !upd_eq, H4. destruct (Z.eqb_spec i ino), (Z.eqb_spec j ino); subst; try done. by apply (p_inj _ _ Hi).
  - intros i. cbn. rewrite upd_eq, H4. done.
Qed.

Lemma inv_drop_all s : inv s -> inv (pcache_drop_all s) /\ all_pages (pcache_drop_all s) = [] /\
  mem (pcache_drop_all s) = mem s /\ maps (pcache_drop_all s) = maps s /\ pc_id (pcache_drop_all s) = pc_id s.
Proof.
  intros Hi. unfold pcache_drop_all. pose proof slots_range as Hsr. pose proof in_slots as Hsi. revert Hsr Hsi. generalize slots. intros l0 Hsr Hsi.
  assert (forall l s, inv s -> Forall (fun h => 0 <= h < PC_HASH) l -> inv (foldl drop_all_slot s l) /\ same_data s (foldl drop_all_slot s l) /\
    forall h, g_hash (foldl drop_all_slot s l) h = if decide (h ∈ l) then [] else g_hash s h) as H.
  { clear. induction l as [|h l IH]; intros s Hi Hl; [done|]. apply Forall_cons in Hl as [Hh Hl]. cbn [foldl].
    assert (inv_with (set_hash s ((g_hash s)⟦h ↦ []⟧)) (g_hash s h ++ [])) as Hi1.
    { apply inv_take_off; [done|done|done|]. exists (fun _ => False), _. symmetry. by induction (g_hash s h). }
    destruct (inv_drops _ [] _ Hi1) as (H1 & H2 & H3 & H4 & H5 & H6). destruct (IH (drop_all_slot s h)) as (J1 & (J2 & J3 & J4 & J5) & J6); [done..|].
    unfold drop_all_slot in *. split; [done|]. split; [unfold same_data; by rewrite J2, J3, J4, J5|]. intros k. rewrite J6, H2; cbn. rewrite upd_eq.
    destruct (Z.eqb_spec k h) as [->|Hne]; [destruct (decide (h ∈ h :: l)) as [_|Hn]; [by case_decide|destruct Hn; by left]|].
    destruct (decide (k ∈ l)), (decide (k ∈ h :: l)) as [Hin|Hn]; try done; [destruct Hn; by right|apply elem_of_cons in Hin as [?|?]; done]. }
  destruct (H l0 s Hi Hsr) as (H1 & (H2 & H3 & H4 & H5) & H6). set (s1 := foldl _ s l0) in *. clearbody s1.
  split; [done|]. split; [|done].
  apply elem_of_nil_inv. intros e He. apply in_all_pages in He as (h & Hh & He). rewrite H6, decide_True in He by (by apply Hsi). by apply not_elem_of_nil in He.
Qed.

(** ** Reclaim *)

Definition score (b : option pc_page) : Z := match b with Some e => last_ms e | None => 18446744073709551615 end.
Definition takeable (s : state) (e : pc_page) : Prop := share s (frame e) <= 1.

Lemma better_spec s l b : let r := foldl (better s) b l in
  (r = b \/ exists e, r = Some e /\ e ∈ l /\ takeable s e) /\ score r <= score b /\ (forall e, e ∈ l -> takeable s e -> score r <= last_ms e).
Proof.
  revert b. induction l as [|x l IH]; intros b; cbn.
  { split; [by left|]. split; [done|]. by intros e ?%not_elem_of_nil. }
  destruct (IH (better s b x)) as (H1 & H2 & H3). set (r := foldl (better s) (better s b x) l) in *.
  assert ((better s b x = Some x /\ takeable s x /\ last_ms x <= score b) \/ (better s b x = b /\ (takeable s x -> score b <= last_ms x))) as Hb.
  { unfold better, takeable. fold (score b). destruct (Z.leb_spec (share s (frame x)) 1), (Z.ltb_spec (last_ms x) (score b)); cbn; [left|right..]; repeat split; lia. }
  destruct Hb as [(Eb & Ht & Hl)|[Eb Hx]]; rewrite Eb in *; cbn [score] in *.
  - split; [|split; [lia|]].
    + right. destruct H1 as [->|(e & -> & He & Hte)]; [exists x|exists e]; rewrite elem_of_cons; auto.
    + intros e [->|He]%elem_of_cons; [lia|auto].
  - split; [|split; [done|]].
    + destruct H1 as [->|(e & -> & He & Hte)]; [by left|right; exists e; rewrite elem_of_cons; auto].
    + intros e [->|He]%elem_of_cons Ht; [specialize (Hx Ht); lia|auto].
Qed.

(** The times in the table come from the millisecond clock. *)
Definition clocked (s : state) : Prop := forall e, e ∈ all_pages s -> last_ms e < 18446744073709551615.

Lemma oldest_spec s : clocked s -> match oldest s with
  | Some e => e ∈ all_pages s /\ takeable s e /\ forall e', e' ∈ all_pages s -> takeable s e' -> last_ms e <= last_ms e'
  | None => forall e, e ∈ all_pages s -> ~ takeable s e
  end.
Proof.
  intros Hc. unfold oldest. destruct (better_spec s (all_pages s) None) as (H1 & _ & H3). destruct (foldl (better s) None (all_pages s)) as [e|]; cbn in *.
  - destruct H1 as [?|(e' & [= <-] & He & Ht)]; done.
  - intros e He Ht. specialize (H3 e He Ht). specialize (Hc e He). lia.
Qed.

Lemma takeable_unmapped s e : inv s -> e ∈ all_pages s -> takeable s e <-> maps s (frame e) = 0.
Proof.
  intros Hi He. destruct (p_held _ _ Hi e) as (_ & _ & Hm & Hs); [by rewrite app_nil_r|]. unfold takeable. lia.
Qed.

Lemma unlink_page_off s e : inv s -> e ∈ all_pages s ->
  inv_with (unlink_page s e) [e] /\ all_pages s ≡ₚ e :: all_pages (unlink_page s e).
Proof.
  intros Hi He. apply in_all_pages in He as (h & Hh & He). pose proof (p_slot _ _ Hi _ _ He) as E. subst h.
  set (h := hslot (id e) (idx e)) in *.
  assert (g_hash s h ≡ₚ filter (fun x => same_key (id e) (idx e) x = false) (g_hash s h) ++ [e]) as Hp.
  { pose proof (p_keys _ _ Hi h) as Hnd. revert He Hnd. generalize (g_hash s h) as l. intros l. induction l as [|x l IH]; intros He Hnd; [by apply not_elem_of_nil in He|].
    cbn in Hnd. apply NoDup_cons in Hnd as [Hx Hnd]. rewrite filter_cons.
    apply elem_of_cons in He as [<-|He].
    - rewrite decide_False by (unfold same_key; rewrite !Z.eqb_refl; done). rewrite Permutation_app_comm. cbn. f_equiv. rewrite filter_all; [done|]. apply Forall_forall. intros y Hy.
      unfold same_key. apply not_true_is_false. intros [H1%Z.eqb_eq H2%Z.eqb_eq]%andb_true_iff. apply Hx. apply list_elem_of_fmap. exists y. unfold key. by rewrite H1, H2.
    - rewrite decide_True; [cbn; f_equiv; by apply IH|]. unfold same_key. apply not_true_is_false. intros [H1%Z.eqb_eq H2%Z.eqb_eq]%andb_true_iff. apply Hx.
      apply list_elem_of_fmap. exists e. unfold key. by rewrite H1, H2. }
  split.
  - apply (inv_take_off s h _ [e] [] Hi); [apply hslot_range|done|by eexists _, _].
  - destruct (all_pages_slot s h (hslot_range _ _)) as (rest & Ha & Hv). unfold unlink_page. fold h. rewrite Ha, Hv. rewrite Hp at 1. rewrite <- app_assoc. cbn.
    symmetry. apply Permutation_middle.
Qed.

(** One page given back. *)
Lemma drop_one s e : inv s -> e ∈ all_pages s -> maps s (frame e) = 0 -> let s' := drop_entry (unlink_page s e) e in
  inv s' /\ all_pages s ≡ₚ e :: all_pages s' /\ same_data s s' /\ busy s' (frame e) = false /\
  (forall f, f <> frame e -> busy s' f = busy s f) /\ (forall x, x ∈ all_pages s' -> share s' (frame x) = share s (frame x)).
Proof.
  intros Hi He Hm. cbv zeta. destruct (unlink_page_off s e Hi He) as [Hi1 Hp]. pose proof (page_inv_drop _ e [] Hi1) as Hi2.
  destruct (drop_entry_frame (unlink_page s e) e) as (E1 & E2 & E3 & E4 & E5).
  assert (held_ok (unlink_page s e) (frame e)) as Hh by (apply (p_held _ _ Hi1); apply elem_of_app; right; by apply list_elem_of_singleton).
  assert (all_pages (drop_entry (unlink_page s e) e) = all_pages (unlink_page s e)) as Ea by (unfold all_pages; by rewrite E1).
  split; [done|]. split; [by rewrite Ea|]. split; [done|]. split; [|split].
  - pose proof (drop_entry_at (unlink_page s e) e (frame e) Hh) as H. rewrite decide_True in H by done. by apply H.
  - intros f Hf. pose proof (drop_entry_at (unlink_page s e) e f Hh) as H. rewrite decide_False in H by done. by destruct H as (_ & _ & ->).
  - intros x Hx. rewrite Ea in Hx. assert (frame x <> frame e) as Hne.
    { intros E. pose proof (p_frames _ _ Hi) as Hnd. rewrite app_nil_r, Hp in Hnd. cbn in Hnd. apply NoDup_cons in Hnd as [Hn _].
      apply Hn. rewrite <- E. by apply list_elem_of_fmap_2. }
    pose proof (drop_entry_at (unlink_page s e) e (frame x) Hh) as H. rewrite decide_False in H by done. by destruct H as (_ & -> & _).
Qed.

(** The pages [gone] were given back: unmapped ones, oldest first. *)
Record gave_back (s s' : state) (gone : list pc_page) : Prop := {
  gb_pages : all_pages s ≡ₚ gone ++ all_pages s';
  gb_gone : Forall (fun e => maps s (frame e) = 0 /\ busy s' (frame e) = false) gone;
  gb_kept f : f ∉ frame <$> gone -> busy s' f = busy s f;
  gb_old g e : g ∈ gone -> e ∈ all_pages s' -> maps s (frame e) = 0 -> last_ms g <= last_ms e;
  gb_same : same_data s s' }.

Lemma gave_back_cons s s1 s' e gone : inv s -> all_pages s ≡ₚ e :: all_pages s1 -> same_data s s1 -> maps s (frame e) = 0 ->
  busy s1 (frame e) = false -> (forall f, f <> frame e -> busy s1 f = busy s f) ->
  (forall x, x ∈ all_pages s1 -> maps s (frame x) = 0 -> last_ms e <= last_ms x) ->
  gave_back s1 s' gone -> gave_back s s' (e :: gone).
Proof.
  intros Hi Hp (D1 & D2 & D3 & D4) Hm Hb Hk Ho [G1 G2 G3 G4 (S1 & S2 & S3 & S4)].
  assert (frame e ∉ frame <$> gone) as Hne.
  { pose proof (p_frames _ _ Hi) as Hnd. rewrite app_nil_r, Hp, G1 in Hnd. cbn in Hnd. apply NoDup_cons in Hnd as [Hn _].
    intros Hin. apply Hn. rewrite fmap_app. apply elem_of_app. by left. }
  constructor.
  - by rewrite Hp, G1.
  - constructor; [split; [done|by rewrite G3]|]. eapply Forall_impl; [exact G2|]. cbn. intros x [? ?]. by rewrite <- D2.
  - intros f Hf. cbn in Hf. apply not_elem_of_cons in Hf as [Hf1 Hf2]. by rewrite G3, Hk.
  - intros g x [->|Hg]%elem_of_cons Hx Hx0.
    + apply Ho; [rewrite G1; apply elem_of_app; by right|done].
    + apply (G4 g x); [done|done|by rewrite D2].
  - unfold same_data. by rewrite S1, S2, S3, S4.
Qed.

Lemma reclaim_loop_ok fuel s max freed : inv s -> clocked s -> (length (all_pages s) < fuel)%nat ->
  exists s' gone, reclaim_loop fuel s max freed = (s', freed + Z.of_nat (length gone)) /\ inv s' /\ clocked s' /\ gave_back s s' gone /\
    (max <= freed + Z.of_nat (length gone) \/ forall e, e ∈ all_pages s' -> maps s (frame e) <> 0) /\
    (freed <= max -> freed + Z.of_nat (length gone) <= max).
Proof.
  revert s freed. induction fuel as [|fuel IH]; intros s freed Hi Hc Hl; [lia|]. cbn [reclaim_loop].
  assert (gave_back s s []) as Hg0 by (constructor; try done; [intros g e Hg; by apply not_elem_of_nil in Hg]).
  destruct (Z.leb_spec max freed) as [Hmax|Hmax].
  { exists s, []. rewrite Z.add_0_r. do 4 (split; [done|]). split; [by left|lia]. }
  pose proof (oldest_spec s Hc) as Ho. destruct (oldest s) as [e|].
  - destruct Ho as (He & Ht & Hmin). pose proof (proj1 (takeable_unmapped s e Hi He) Ht) as Hm.
    destruct (drop_one s e Hi He Hm) as (Hi1 & Hp & Hsame & Hb & Hk & Hsh). set (s1 := drop_entry (unlink_page s e) e) in *.
    assert (forall x, x ∈ all_pages s1 -> x ∈ all_pages s) as Hsub by (intros x Hx; rewrite Hp; by right).
    assert (maps s1 = maps s) as Em by apply Hsame.
    destruct (IH s1 (freed + 1) Hi1) as (s' & gone & Hr & Hi' & Hc' & Hg & Hend & Hbd).
    { intros x Hx. by apply Hc, Hsub. }
    { apply Permutation_length in Hp. cbn in Hp. lia. }
    exists s', (e :: gone). cbn [length]. split; [rewrite Hr; f_equal; lia|]. split; [done|]. split; [done|]. split; [|split].
    + eapply gave_back_cons; try done. intros x Hx Hx0. apply Hmin; [by apply Hsub|]. apply takeable_unmapped; [done|by apply Hsub|done].
    + rewrite Em in Hend. destruct Hend as [?|?]; [left; lia|by right].
    + lia.
  - exists s, []. rewrite Z.add_0_r. do 4 (split; [done|]). split; [|lia]. right. intros e He Hm. apply (Ho e He). by apply takeable_unmapped.
Qed.

(** ** Touching, sharing, filling *)

Lemma inv_restamp s h (g : pc_page -> pc_page) : inv s -> 0 <= h < PC_HASH -> (forall x, key (g x) = key x /\ frame (g x) = frame x) ->
  let s' := set_hash s ((g_hash s)⟦h ↦ g <$> g_hash s h⟧) in
  inv s' /\ frame <$> all_pages s' ≡ₚ frame <$> all_pages s /\
  (forall e', e' ∈ all_pages s' -> exists e, e ∈ all_pages s /\ key e' = key e /\ frame e' = frame e) /\
  (forall e, e ∈ all_pages s -> exists e', e' ∈ all_pages s' /\ key e' = key e /\ frame e' = frame e).
Proof.
  intros Hi Hh Hg s'. destruct (all_pages_slot s h Hh) as (rest & Ha & Hv). specialize (Hv (g <$> g_hash s h)). fold s' in Hv.
  assert (frame <$> all_pages s' ≡ₚ frame <$> all_pages s) as Hfr.
  { rewrite Ha, Hv, !fmap_app, <- list_fmap_compose. f_equiv. rewrite (list_fmap_ext _ frame (g_hash s h)); [done|]. intros i x _. cbn. by destruct (Hg x). }
  assert (forall e', e' ∈ all_pages s' -> exists e, e ∈ all_pages s /\ key e' = key e /\ frame e' = frame e) as Hback.
  { intros e' He'. rewrite Hv in He'. apply elem_of_app in He' as [He'|He'].
    - apply list_elem_of_fmap in He' as (e & -> & He). exists e. split; [rewrite Ha; apply elem_of_app; by left|apply Hg].
    - exists e'. split; [rewrite Ha; apply elem_of_app; by right|done]. }
  split; [|split; [done|split; [done|]]].
  - constructor; cbn; try apply Hi.
    + intros k e. rewrite upd_eq. destruct (Z.eqb_spec k h) as [->|]; [|apply (p_slot _ _ Hi)].
      intros He. apply list_elem_of_fmap in He as (x & -> & Hx). destruct (Hg x) as [Hk _]. injection Hk as -> ->. by apply (p_slot _ _ Hi).
    + intros k. rewrite upd_eq. destruct (Z.eqb_spec k h) as [->|]; [|apply (p_keys _ _ Hi)]. rewrite <- list_fmap_compose.
      rewrite (list_fmap_ext _ key (g_hash s h)); [apply (p_keys _ _ Hi)|]. intros i x _. cbn. by destruct (Hg x).
    + rewrite app_nil_r, Hfr. pose proof (p_frames _ _ Hi) as H. by rewrite app_nil_r in H.
    + intros e'. rewrite app_nil_r. intros He'. destruct (Hback e' He') as (e & He & _ & ->). apply (p_held _ _ Hi). by rewrite app_nil_r.
    + intros f. rewrite app_nil_r, Hfr. intros Hf. apply (p_loose _ _ Hi). by rewrite app_nil_r.
    + intros e'. rewrite app_nil_r. intros He'. destruct (Hback e' He') as (e & He & Hk & _). injection Hk as -> _. apply (p_ids _ _ Hi). by rewrite app_nil_r.
  - intros e He. rewrite Ha in He. apply elem_of_app in He as [He|He].
    + exists (g e). split; [rewrite Hv; apply elem_of_app; left; by apply list_elem_of_fmap_2|apply Hg].
    + exists e. split; [rewrite Hv; apply elem_of_app; by right|done].
Qed.

(** A state that differs at one frame only, where it is right again. *)
Lemma inv_at_frame s s' f : inv s -> g_hash s' = g_hash s -> pc_id s' = pc_id s -> g_next_id s' = g_next_id s ->
  (forall k, k <> f -> owned s' k = owned s k /\ share s' k = share s k /\ busy s' k = busy s k /\ maps s' k = maps s k) ->
  (if decide (f ∈ frame <$> all_pages s) then held_ok s' f else loose_ok s' f) -> inv s'.
Proof.
  intros Hi Eh Eid En Hk Hf. assert (all_pages s' = all_pages s) as Ea by (unfold all_pages; by rewrite Eh).
  constructor; rewrite ?Eh, ?Ea, ?Eid, ?En; try apply Hi.
  - intros e He. pose proof (p_held _ _ Hi e He) as H. destruct (decide (frame e = f)) as [E|Hne].
    + rewrite E. rewrite decide_True in Hf; [done|]. rewrite <- E. rewrite app_nil_r in He. by apply list_elem_of_fmap_2.
    + destruct (Hk _ Hne) as (H1 & H2 & H3 & H4). unfold held_ok. by rewrite H1, H2, H3, H4.
  - intros k Hn. destruct (decide (k = f)) as [->|Hne].
    + rewrite app_nil_r in Hn. by rewrite decide_False in Hf.
    + destruct (Hk _ Hne) as (H1 & H2 & H3 & H4). unfold loose_ok. rewrite H1, H2, H3, H4. by apply (p_loose _ _ Hi).
Qed.

Lemma held_page s e : inv s -> e ∈ all_pages s -> held_ok s (frame e).
Proof. intros Hi He. apply (p_held _ _ Hi). by rewrite app_nil_r. Qed.

Lemma loose_frame s f : inv s -> f ∉ frame <$> all_pages s -> loose_ok s f.
Proof. intros Hi Hf. apply (p_loose _ _ Hi). by rewrite app_nil_r. Qed.

(** One more mapping of a frame that is held already. *)
Lemma inv_more_maps s f : inv s -> share s f < 65535 -> (f ∈ frame <$> all_pages s \/ 0 < maps s f) -> inv (fork_map s f).
Proof.
  intros Hi Hb Hf. apply (inv_at_frame s _ f Hi); try done.
  { intros k Hk. cbn. by rewrite !upd_other. }
  unfold held_ok, loose_ok; cbn. rewrite !upd_same. unfold cow_ref_share.
  case_decide as E.
  - apply list_elem_of_fmap in E as (e & -> & He). destruct (held_page s e Hi He) as (H1 & H2 & H3 & H4).
    destruct (Z.eqb_spec (share s (frame e)) 0); rewrite u16_small by lia; repeat split; try done; lia.
  - destruct Hf as [?|Hm]; [done|]. destruct (loose_frame s f Hi E) as (H1 & H2 & H3 & H4).
    destruct (Z.eqb_spec (share s f) 0); [lia|]. rewrite u16_small by lia. repeat split; try done; [lia|lia|]. intros _. by apply H4.
Qed.

(** One mapping less: the frame goes back exactly when it was the last holder. *)
Lemma inv_unmap s f : inv s -> 0 < maps s f -> inv (unmap s f) /\
  busy (unmap s f) f = (if decide (f ∈ frame <$> all_pages s) then true else 1 <? maps s f).
Proof.
  intros Hi Hm. unfold unmap, vmm_frame_unshare, cow_ref_drop.
  destruct (decide (f ∈ frame <$> all_pages s)) as [E|E].
  - pose proof E as E0. apply list_elem_of_fmap in E0 as (e & Ef & He). destruct (held_page s e Hi He) as (H1 & H2 & H3 & H4). rewrite <- Ef in *.
    destruct (Z.leb_spec (share s f) 1); [lia|]. cbn. split; [|done]. apply (inv_at_frame s _ f Hi); try done.
    { intros k Hk. cbn. by rewrite !upd_other. }
    rewrite decide_True by done. unfold held_ok; cbn. rewrite !upd_same. repeat split; try done; lia.
  - destruct (loose_frame s f Hi E) as (H1 & H2 & H3 & H4). specialize (H4 Hm).
    destruct (Z.leb_spec (share s f) 1); cbn; unfold pmm_free_frame; cbn; rewrite ?H1; cbn.
    + rewrite upd_same. destruct (Z.ltb_spec 1 (maps s f)); [lia|]. split; [|done]. apply (inv_at_frame s _ f Hi); try done.
      { intros k Hk. cbn. by rewrite !upd_other. }
      rewrite decide_False by done. unfold loose_ok; cbn. rewrite !upd_same. repeat split; try done; lia.
    + destruct (Z.ltb_spec 1 (maps s f)); [|lia]. split; [|done]. apply (inv_at_frame s _ f Hi); try done.
      { intros k Hk. cbn. by rewrite !upd_other. }
      rewrite decide_False by done. unfold loose_ok; cbn. rewrite !upd_same. repeat split; try done; lia.
Qed.

Section Alloc.
(** The allocator hands out frames that are not in use. *)
Context (alloc : (Z -> bool) -> Z).
Hypothesis alloc_free : forall b, alloc b <> 0 -> b (alloc b) = false.

Lemma free_frame_loose s f : inv s -> busy s f = false -> f ∉ frame <$> all_pages s /\ maps s f = 0 /\ share s f = 0 /\ owned s f = false.
Proof.
  intros Hi Hb. assert (f ∉ frame <$> all_pages s) as Hn.
  { intros (e & -> & He)%list_elem_of_fmap. destruct (held_page s e Hi He) as (_ & H & _). congruence. }
  destruct (loose_frame s f Hi Hn) as (H1 & H2 & H3 & H4). split; [done|]. assert (maps s f = 0) as Hm; [|split; [done|split; [lia|done]]].
  destruct (decide (0 < maps s f)) as [Hp|]; [|lia]. by rewrite H4 in Hb.
Qed.

(** A fresh frame filled, or nothing changed but the free frames. *)
Definition filled (s s' : state) (fr : Z) (got : list Z) : Prop :=
  g_hash s' = g_hash s /\ share s' = share s /\ owned s' = owned s /\ maps s' = maps s /\ pc_id s' = pc_id s /\ g_next_id s' = g_next_id s /\
  (fr = 0 -> mem s' = mem s /\ forall k, busy s' k = busy s k) /\
  (fr <> 0 -> busy s fr = false /\ (forall k, busy s' k = if k =? fr then true else busy s k) /\
     (forall k, k <> fr -> forall b, mem s' k b = mem s k b) /\ forall b, 0 <= b < 4096 -> mem s' fr b = nth (Z.to_nat b) got 0).

Lemma fill_page_ok s b got : inv s -> filled s (fill_page alloc s b got).1 (fill_page alloc s b got).2 got.
Proof.
  intros Hi. unfold fill_page, filled. destruct (Z.eqb_spec (alloc (busy s)) 0) as [E|Hne]; [by repeat split|].
  pose proof (alloc_free _ Hne) as Hb. destruct (free_frame_loose s _ Hi Hb) as (_ & _ & _ & Ho).
  destruct b; cbn [negb].
  - cbn. do 6 (split; [done|]). split; [done|]. intros _. split; [done|]. split; [intros k; apply upd_eq|]. split.
    + intros k Hk x. by rewrite (proj2 (Z.eqb_neq k _)).
    + intros x Hx. rewrite Z.eqb_refl. by destruct (Z.ltb_spec x 4096); [|lia].
  - unfold pmm_free_frame; cbn. rewrite Ho. cbn. do 6 (split; [done|]). split; [|done]. intros _. split; [done|]. intros k.
    rewrite !upd_eq. destruct (Z.eqb_spec k (alloc (busy s))) as [->|]; done.
Qed.

Lemma inv_filled s s' fr got : inv s -> filled s s' fr got -> inv s' /\ all_pages s' = all_pages s.
Proof.
  intros Hi (E1 & E2 & E3 & E4 & E5 & E6 & H0 & H1). assert (all_pages s' = all_pages s) as Ea by (unfold all_pages; by rewrite E1). split; [|done].
  assert (forall k, busy s k = true -> busy s' k = true) as Hb.
  { intros k Hk. destruct (decide (fr = 0)) as [->|Hn]; [destruct H0 as [_ H]; [done|by rewrite H]|].
    destruct (H1 Hn) as (_ & H & _). rewrite H. by destruct (k =? fr). }
  constructor; rewrite ?E1, ?Ea, ?E5, ?E6; try apply Hi.
  - intros e He. destruct (p_held _ _ Hi e He) as (G1 & G2 & G3 & G4). unfold held_ok. rewrite E2, E3, E4. auto.
  - intros f Hf. destruct (p_loose _ _ Hi f Hf) as (G1 & G2 & G3 & G4). unfold loose_ok. rewrite E2, E3, E4. auto 6.
Qed.

(** A new entry in the table. *)
Lemma inv_insert s i x fr : inv s -> lookup s i x = None -> 0 < i < g_next_id s -> busy s fr = true -> fr ∉ frame <$> all_pages s ->
  maps s fr = 0 -> share s fr = 0 ->
  let s' := set_hash (owned_set s fr true) ((g_hash s)⟦hslot i x ↦ PG i x fr 0 :: g_hash s (hslot i x)⟧) in
  inv s' /\ all_pages s' ≡ₚ PG i x fr 0 :: all_pages s.
Proof.
  intros Hi Hno Hid Hb Hfr Hm Hs s'. destruct (all_pages_slot s (hslot i x) (hslot_range _ _)) as (rest & Ha & Hv).
  assert (all_pages s' ≡ₚ PG i x fr 0 :: all_pages s) as Hp.
  { change (all_pages s') with (all_pages (set_hash s ((g_hash s)⟦hslot i x ↦ PG i x fr 0 :: g_hash s (hslot i x)⟧))). rewrite Hv, Ha. done. }
  assert (forall e, e ∈ all_pages s -> frame e <> fr) as Hne by (intros e He <-; apply Hfr; by apply list_elem_of_fmap_2).
  split; [|done]. constructor; cbn; try apply Hi.
  - intros h e. rewrite upd_eq. destruct (Z.eqb_spec h (hslot i x)) as [->|]; [|apply (p_slot _ _ Hi)].
    intros [->|He]%elem_of_cons; [done|by apply (p_slot _ _ Hi)].
  - intros h. rewrite upd_eq. destruct (Z.eqb_spec h (hslot i x)) as [->|]; [|apply (p_keys _ _ Hi)]. cbn. constructor; [|apply (p_keys _ _ Hi)].
    intros (e & Hk & He)%list_elem_of_fmap. injection Hk as Hk1 Hk2. assert (lookup s i x = Some e) as H; [|congruence].
    apply lookup_spec; [done|]. split; [|done]. eapply slot_in; [apply (p_slot _ _ Hi)|done].
  - rewrite app_nil_r, Hp. cbn. constructor; [done|]. pose proof (p_frames _ _ Hi) as H. by rewrite app_nil_r in H.
  - intros e. rewrite app_nil_r, Hp. intros [->|He]%elem_of_cons; unfold held_ok; cbn.
    + rewrite upd_same. repeat split; [done|lia|]. right. done.
    + rewrite upd_other by (by apply Hne). by apply held_page.
  - intros f. rewrite app_nil_r, Hp. cbn. intros [Hf1 Hf2]%not_elem_of_cons. unfold loose_ok; cbn. rewrite upd_other by done. by apply loose_frame.
  - intros e. rewrite app_nil_r, Hp. intros [->|He]%elem_of_cons; [done|]. apply (p_ids _ _ Hi). by rewrite app_nil_r.
Qed.

End Alloc.

End PcacheSpec.
