(* ===== verification/PcacheCoherence.v ===== *)
(** * Cached pages hold the file's bytes (Pcache.v)

    The cache beside the files it caches: a mapping gets a frame with the
    file's present contents, a write reaches every cached page, and this
    holds after any sequence of the operations.  Two writers that interleave
    can break it; the last section shows how. *)

From stdpp Require Import base list.
From Stdlib Require Import ZArith Lia Bool.
From S2P Require Import Prelude Pcache PcacheSpec.
Import Pcache PcacheSpec.
Open Scope Z_scope.

Module PcacheCoherence.

(** The bytes of each inode's file, 0 past the end. *)
Definition files := Z -> Z -> Z.

Definition coherent (fl : files) (s : state) : Prop := forall ino e, e ∈ all_pages s -> id e = pc_id s ino ->
  forall b, 0 <= b < 4096 -> mem s (frame e) b = fl ino (idx e * 4096 + b).

Record good (fl : files) (s : state) : Prop := {
  g_inv : inv_with s [];
  g_clock : clocked s;
  g_coh : coherent fl s }.

(** Nothing but times, counts and removals. *)
Lemma coherent_sub fl s s' : coherent fl s ->
  (forall e', e' ∈ all_pages s' -> exists e, e ∈ all_pages s /\ key e' = key e /\ frame e' = frame e) ->
  (forall i e, e ∈ all_pages s' -> id e = pc_id s' i -> pc_id s' i = pc_id s i) ->
  (forall e', e' ∈ all_pages s' -> forall b, 0 <= b < 4096 -> mem s' (frame e') b = mem s (frame e') b) -> coherent fl s'.
Proof.
  intros Hc Hsub Hid Hmem ino e' He' Hi b Hb. rewrite Hmem by done. destruct (Hsub e' He') as (e & He & Hk & Hf). injection Hk as Hk1 Hk2.
  rewrite Hf, Hk2. apply Hc; [done| |done]. rewrite <- Hk1, Hi. by apply (Hid ino e').
Qed.

(** ** Mapping *)

(** What a successful lookup or insertion ends with. *)
Definition finish (s : state) (e : pc_page) (now : Z) : state := fork_map (touch s e now) (frame e).

Lemma finish_ok fl s e now : good fl s -> e ∈ all_pages s -> share s (frame e) < 65535 -> now < 18446744073709551615 ->
  good fl (finish s e now) /\ mem (finish s e now) = mem s /\ (forall k, maps (finish s e now) k = if k =? frame e then maps s k + 1 else maps s k) /\
  pc_id (finish s e now) = pc_id s /\ g_next_id (finish s e now) = g_next_id s.
Proof.
  intros [Hi Hc Hco] He Hs Hn. set (g := fun x => if same_key (id e) (idx e) x then PG (id x) (idx x) (frame x) now else x).
  assert (forall x, key (g x) = key x /\ frame (g x) = frame x) as Hg by (intros x; unfold g; by destruct (same_key _ _ _)).
  destruct (inv_restamp s (hslot (id e) (idx e)) g Hi (hslot_range _ _) Hg) as (Hi1 & Hfr & Hsub & Hsup).
  change (set_hash s ((g_hash s)⟦hslot (id e) (idx e) ↦ g <$> g_hash s (hslot (id e) (idx e))⟧)) with (touch s e now) in *.
  assert (frame e ∈ frame <$> all_pages (touch s e now)) as Hin by (rewrite Hfr; by apply list_elem_of_fmap_2).
  assert (inv_with (finish s e now) []) as Hi2 by (apply inv_more_maps; [done|done|by left]).
  assert (all_pages (finish s e now) = all_pages (touch s e now)) as Ea by done.
  split; [|split; [done|split; [|done]]].
  - constructor; [done| |].
    + intros e' He'. rewrite Ea in He'. apply in_all_pages in He' as (h & Hh & He'). unfold touch in He'; cbn in He'. rewrite upd_eq in He'.
      destruct (Z.eqb_spec h (hslot (id e) (idx e))) as [->|].
      * apply list_elem_of_fmap in He' as (x & -> & Hx). assert (x ∈ all_pages s) by (apply in_all_pages; eauto). destruct (same_key _ _ x); [done|by apply Hc].
      * apply Hc, in_all_pages. eauto.
    + apply (coherent_sub fl s); [done|by rewrite Ea|done|done].
  - intros k. cbn. by rewrite upd_eq; destruct (Z.eqb_spec k (frame e)) as [->|].
Qed.

Section Alloc.
Context (alloc : (Z -> bool) -> Z).
Hypothesis alloc_free : forall b, alloc b <> 0 -> b (alloc b) = false.

(** What a complete read of page [x] of the file delivers. *)
Definition reads_page (fl : files) (ino x : Z) (got : list Z) : Prop := forall b, 0 <= b < 4096 -> nth (Z.to_nat b) got 0 = fl ino (x * 4096 + b).

Lemma good_filled fl s s' fr got : good fl s -> filled s s' fr got -> good fl s'.
Proof.
  intros [Hi Hc Hco] Hf. destruct (inv_filled s s' fr got Hi Hf) as [Hi' Ea]. destruct Hf as (E1 & E2 & E3 & E4 & E5 & E6 & H0 & H1).
  constructor; [done|by unfold clocked; rewrite Ea|]. apply (coherent_sub fl s); [done|rewrite Ea; eauto|by rewrite E5|].
  intros e He b Hb. rewrite Ea in He. destruct (decide (fr = 0)) as [->|Hn]; [by destruct H0 as [-> _]|].
  destruct (H1 Hn) as (Hbf & _ & Hm & _). apply Hm. intros E. destruct (held_page s e Hi He) as (_ & H & _). congruence.
Qed.

Lemma good_reclaim fl s max : good fl s -> good fl (pcache_reclaim s max).1 /\ same_data s (pcache_reclaim s max).1 /\
  forall e, e ∈ all_pages (pcache_reclaim s max).1 -> e ∈ all_pages s.
Proof.
  intros [Hi Hc Hco]. unfold pcache_reclaim.
  destruct (reclaim_loop_ok (S (length (all_pages s))) s max 0 Hi Hc) as (s' & gone & -> & Hi' & Hc' & [G1 _ _ _ (G2 & G3 & G4 & G5)] & _); [lia|]. cbn.
  assert (forall e, e ∈ all_pages s' -> e ∈ all_pages s) as Hsub by (intros e He; rewrite G1; apply elem_of_app; by right).
  split; [|done]. constructor; [done|done|]. apply (coherent_sub fl s); [done| |by rewrite G4|by rewrite G2]. eauto.
Qed.

(** The identity of the file, given at first use. *)
Definition with_id (s : state) (ino : Z) : state :=
  if pc_id s ino =? 0 then set_ids s ((pc_id s)⟦ino ↦ g_next_id s⟧) (u32 (g_next_id s + 1)) else s.

Lemma good_with_id fl s ino : good fl s -> g_next_id s < 4294967295 ->
  good fl (with_id s ino) /\ 0 < pc_id (with_id s ino) ino < g_next_id (with_id s ino) /\ mem (with_id s ino) = mem s /\
  maps (with_id s ino) = maps s /\ share (with_id s ino) = share s /\ busy (with_id s ino) = busy s /\ all_pages (with_id s ino) = all_pages s.
Proof.
  intros [Hi Hc Hco] Hn. unfold with_id. pose proof (p_inos _ _ Hi ino). pose proof (p_next _ _ Hi).
  destruct (Z.eqb_spec (pc_id s ino) 0) as [E|Hne]; [|split; [done|]; split; [lia|done]].
  rewrite u32_small by lia. split; [|split; [cbn; rewrite upd_same; lia|done]]. constructor.
  - apply inv_ids; [done|lia| | |].
    + intros e He. pose proof (p_ids _ _ Hi e ltac:(by rewrite app_nil_r)). lia.
    + intros i. rewrite upd_eq. pose proof (p_inos _ _ Hi i). destruct (i =? ino); lia.
    + intros i j. rewrite !upd_eq. pose proof (p_inos _ _ Hi i). pose proof (p_inos _ _ Hi j).
      destruct (Z.eqb_spec i ino), (Z.eqb_spec j ino); subst; try done; [lia|lia|]. by apply (p_inj _ _ Hi).
  - done.
  - apply (coherent_sub fl s); [done|eauto| |done]. intros i e He. cbn. rewrite upd_eq. destruct (Z.eqb_spec i ino) as [->|]; [|done].
    change (all_pages (set_ids s ((pc_id s)⟦ino ↦ g_next_id s⟧) (g_next_id s + 1))) with (all_pages s) in He.
    pose proof (p_ids _ _ Hi e ltac:(by rewrite app_nil_r)). lia.
Qed.

Lemma inserted_ok fl s s1 ino x fr got now : good fl s -> filled s s1 fr got -> fr <> 0 -> reads_page fl ino x got ->
  lookup s (pc_id s ino) x = None -> 0 < pc_id s ino < g_next_id s -> now < 18446744073709551615 ->
  let e := PG (pc_id s ino) x fr 0 in
  let s2 := set_hash (owned_set s1 fr true) ((g_hash s1)⟦hslot (pc_id s ino) x ↦ e :: g_hash s1 (hslot (pc_id s ino) x)⟧) in
  good fl (finish s2 e now) /\ (forall b, 0 <= b < 4096 -> mem (finish s2 e now) fr b = fl ino (x * 4096 + b)) /\
  (forall k, maps (finish s2 e now) k = if k =? fr then maps s k + 1 else maps s k).
Proof.
  intros Hg Hf Hfr Hrd Hlk Hid Hnow e s2. pose proof (good_filled fl s s1 fr got Hg Hf) as [Hi1 Hc1 Hco1].
  pose proof (inv_filled s s1 fr got (g_inv _ _ Hg) Hf) as [_ Ea]. destruct Hf as (E1 & E2 & E3 & E4 & E5 & E6 & _ & H1).
  destruct (H1 Hfr) as (Hb0 & Hb1 & Hm & Hmf). destruct (free_frame_loose s fr (g_inv _ _ Hg) Hb0) as (Hn & Hm0 & Hs0 & _).
  assert (lookup s1 (pc_id s ino) x = None) as Hlk1 by (unfold lookup; by rewrite E1).
  destruct (inv_insert s1 (pc_id s ino) x fr Hi1 Hlk1) as [Hi2 Hp]; [by rewrite E6|rewrite Hb1, Z.eqb_refl; done|by rewrite Ea|by rewrite E4|by rewrite E2|].
  fold e in Hp, Hi2. fold s2 in Hp, Hi2.
  assert (good fl s2) as Hg2.
  { constructor; [done| |].
    - intros e'. rewrite Hp. intros [->|He']%elem_of_cons; [done|by apply Hc1].
    - intros i e'. rewrite Hp. intros [->|He']%elem_of_cons Hii b Hb; cbn in *.
      + rewrite Hmf by done. rewrite E5 in Hii. assert (i = ino) as -> by (apply (p_inj _ _ (g_inv _ _ Hg)); [congruence|lia]). by apply Hrd.
      + by apply Hco1. }
  assert (e ∈ all_pages s2) as He by (rewrite Hp; by left).
  destruct (finish_ok fl s2 e now Hg2 He) as (G1 & G2 & G3 & _); [cbn; rewrite E2, Hs0; lia|done|].
  split; [done|]. split.
  - intros b Hb. rewrite G2. cbn. rewrite Hmf by done. by apply Hrd.
  - intros k. rewrite G3. cbn. by rewrite E4.
Qed.

(** What [pcache_map_page] promises. *)
Definition mapped_ok (fl : files) (s : state) (ino x : Z) (r : state * option Z) : Prop :=
  good fl r.1 /\
  match r.2 with
  | Some f => (forall b, 0 <= b < 4096 -> mem r.1 f b = fl ino (x * 4096 + b)) /\ forall k, maps r.1 k = if k =? f then maps s k + 1 else maps s k
  | None => maps r.1 = maps s
  end.

Lemma map_page_eq s ino x b1 b2 got1 got2 ent now : pcache_map_page alloc s ino x b1 b2 got1 got2 ent now =
  let s := with_id s ino in
  match lookup s (pc_id s ino) x with
  | Some e => (finish s e now, Some (frame e))
  | None =>
      let '(s2, fr) := fill_page alloc s b1 got1 in
      let '(s3, fr) := if fr =? 0 then fill_page alloc (pcache_reclaim s2 64).1 b2 got2 else (s2, fr) in
      if fr =? 0 then (s3, None)
      else if negb ent then (pmm_free_frame s3 fr, None)
      else let e := PG (pc_id s ino) x fr 0 in
           (finish (set_hash (owned_set s3 fr true) ((g_hash s3)⟦hslot (pc_id s ino) x ↦ e :: g_hash s3 (hslot (pc_id s ino) x)⟧)) e now, Some fr)
  end.
Proof. reflexivity. Qed.

(** The frame of the last attempt, and the state that attempt started from. *)
Lemma second_try fl s ino x b1 b2 got1 got2 : good fl s -> lookup s (pc_id s ino) x = None -> reads_page fl ino x got1 -> reads_page fl ino x got2 ->
  exists s0 s3 fr got, (let '(s2, fr) := fill_page alloc s b1 got1 in if fr =? 0 then fill_page alloc (pcache_reclaim s2 64).1 b2 got2 else (s2, fr)) = (s3, fr) /\
    good fl s0 /\ filled s0 s3 fr got /\ reads_page fl ino x got /\ lookup s0 (pc_id s0 ino) x = None /\
    pc_id s0 = pc_id s /\ g_next_id s0 = g_next_id s /\ maps s0 = maps s.
Proof.
  intros Hg Hlk R1 R2. pose proof (fill_page_ok alloc alloc_free s b1 got1 (g_inv _ _ Hg)) as F1. destruct (fill_page alloc s b1 got1) as [s2 fr]. cbn in F1.
  pose proof (good_filled fl s s2 fr got1 Hg F1) as Hg2. pose proof (inv_filled s s2 fr got1 (g_inv _ _ Hg) F1) as [_ Ea].
  destruct (Z.eqb_spec fr 0) as [->|Hfr]; [|by exists s, s2, fr, got1].
  destruct F1 as (E1 & E2 & E3 & E4 & E5 & E6 & F1). destruct (good_reclaim fl s2 64 Hg2) as [Hgr [(D1 & D2 & D3 & D4) Hsub]]. set (s0 := (pcache_reclaim s2 64).1) in *.
  pose proof (fill_page_ok alloc alloc_free s0 b2 got2 (g_inv _ _ Hgr)) as F2. destruct (fill_page alloc s0 b2 got2) as [s3 fr3] eqn:Ef. cbn in F2.
  exists s0, s3, fr3, got2. do 4 (split; [done|]). rewrite D2, D3, D4, E4, E5, E6. split; [|done].
  destruct (lookup s0 (pc_id s ino) x) as [e|] eqn:El; [|done]. apply lookup_spec in El as (He & Hk1 & Hk2); [|apply Hgr].
  assert (lookup s (pc_id s ino) x = Some e) as H; [|congruence]. apply lookup_spec; [apply Hg|]. split; [|done]. rewrite <- Ea. by apply Hsub.
Qed.

Lemma good_give_back fl s f : good fl s -> f ∉ frame <$> all_pages s -> maps s f = 0 -> good fl (pmm_free_frame s f).
Proof.
  intros [Hi Hc Hco] Hf Hm. unfold pmm_free_frame. destruct (owned s f); [done|]. constructor; [|done|done].
  apply (inv_at_frame s _ f Hi); try done; [intros k Hk; cbn; by rewrite upd_other|]. rewrite decide_False by done.
  destruct (loose_frame s f Hi Hf) as (H1 & H2 & H3 & _). unfold loose_ok; cbn. repeat split; try done. lia.
Qed.

Lemma map_page_ok fl s ino x b1 b2 got1 got2 ent now : good fl s -> g_next_id s < 4294967295 -> (forall k, share s k < 65535) ->
  now < 18446744073709551615 -> reads_page fl ino x got1 -> reads_page fl ino x got2 ->
  mapped_ok fl s ino x (pcache_map_page alloc s ino x b1 b2 got1 got2 ent now).
Proof.
  intros Hg Hn Hs Hnow R1 R2. destruct (good_with_id fl s ino Hg Hn) as (Hg1 & Hid & Em & Emp & Esh & _ & _). rewrite map_page_eq. cbv zeta.
  set (s1 := with_id s ino) in *. clearbody s1. unfold mapped_ok. rewrite <- Emp. rewrite <- Esh in Hs. clear Hg Hn Em Emp Esh s.
  destruct (lookup s1 (pc_id s1 ino) x) as [e|] eqn:El.
  { apply lookup_spec in El as (He & Hei & Hex); [|apply Hg1]. cbn [fst snd].
    destruct (finish_ok fl s1 e now Hg1 He (Hs _) Hnow) as (G1 & G2 & G3 & _).
    split; [done|]. split; [|done]. intros b Hb. rewrite G2, <- Hex. by apply (g_coh _ _ Hg1). }
  destruct (second_try fl s1 ino x b1 b2 got1 got2 Hg1 El R1 R2) as (s0 & s3 & fr & got & Heq & Hg0 & F & R & Hlk & Ep & En & Emp).
  destruct (fill_page alloc s1 b1 got1) as [s2 fr2]. rewrite Heq. clear Heq s2 fr2. pose proof (good_filled fl s0 s3 fr got Hg0 F) as Hg3.
  destruct (Z.eqb_spec fr 0) as [->|Hfr]; cbn [fst snd].
  { split; [done|]. destruct F as (_ & _ & _ & -> & _). done. }
  destruct ent; cbn [negb fst snd].
  - rewrite <- Ep in Hid |- *. rewrite <- En in Hid. rewrite <- Emp. by apply (inserted_ok fl s0 s3 ino x fr got now).
  - pose proof (inv_filled s0 s3 fr got (g_inv _ _ Hg0) F) as [_ Ea]. destruct F as (_ & _ & _ & Em & _ & _ & _ & F1). destruct (F1 Hfr) as (Hb & _).
    destruct (free_frame_loose s0 fr (g_inv _ _ Hg0) Hb) as (Hnf & Hm0 & _). split; [apply good_give_back; [done|by rewrite Ea|by rewrite Em]|].
    unfold pmm_free_frame. destruct (owned s3 fr); cbn; congruence.
Qed.

(** ** Writing *)

Definition file_write (fl : files) (ino off : Z) (src : list Z) : files := fun i o =>
  if (i =? ino) && (off <=? o) && (o <? off + Z.of_nat (length src)) then nth (Z.to_nat (o - off)) src 0 else fl i o.

Lemma update_page_eq m x off src p : 0 <= p < 4096 ->
  update_page m x off src p = if (off <=? x * 4096 + p) && (x * 4096 + p <? off + Z.of_nat (length src))
                              then nth (Z.to_nat (x * 4096 + p - off)) src 0 else m p.
Proof.
  intros Hp. unfold update_page. set (e := off + Z.of_nat (length src)).
  replace (p + x * 4096 - off) with (x * 4096 + p - off) by lia. generalize (nth (Z.to_nat (x * 4096 + p - off)) src 0) as v. intros v.
  destruct (Z.ltb_spec (x * 4096) off), (Z.ltb_spec e (x * 4096 + 4096)), (Z.leb_spec off (x * 4096 + p)), (Z.ltb_spec (x * 4096 + p) e); cbn [andb];
    (match goal with |- (if (?a <=? ?b) && (?c <? ?d) then _ else _) = _ => destruct (Z.leb_spec a b), (Z.ltb_spec c d) end); cbn [andb]; done || lia.
Qed.

Lemma same_frame s e1 e2 : inv_with s [] -> e1 ∈ all_pages s -> e2 ∈ all_pages s -> frame e1 = frame e2 -> e1 = e2.
Proof.
  intros Hi H1 H2 Hf. pose proof (p_frames _ _ Hi) as Hnd. rewrite app_nil_r in Hnd.
  apply list_elem_of_lookup in H1 as [i1 H1], H2 as [i2 H2]. assert (i1 = i2) as ->; [|congruence].
  apply (NoDup_lookup _ i1 i2 (frame e1) Hnd); rewrite list_lookup_fmap; [by rewrite H1|rewrite H2; cbn; congruence].
Qed.

(** The loop over the written pages, on one entry. *)
Lemma update_pages s i off src l : inv_with s [] -> NoDup l -> let s' := foldl (update_one i off src) s l in
  inv_with s' [] /\ g_hash s' = g_hash s /\ pc_id s' = pc_id s /\ maps s' = maps s /\ share s' = share s /\ g_next_id s' = g_next_id s /\ busy s' = busy s /\
  forall e, e ∈ all_pages s -> mem s' (frame e) = if decide (id e = i /\ idx e ∈ l) then update_page (mem s (frame e)) (idx e) off src else mem s (frame e).
Proof.
  revert s. induction l as [|x l IH]; intros s Hi Hnd; cbn [foldl].
  { cbv zeta. do 7 (split; [done|]). intros e He. rewrite decide_False; [done|]. by intros [_ ?%not_elem_of_nil]. }
  apply NoDup_cons in Hnd as [Hx Hnd]. set (s1 := update_one i off src s x).
  assert (g_hash s1 = g_hash s /\ pc_id s1 = pc_id s /\ maps s1 = maps s /\ share s1 = share s /\ g_next_id s1 = g_next_id s /\ busy s1 = busy s /\ owned s1 = owned s)
    as (E1 & E2 & E3 & E4 & E5 & E6 & E7) by (unfold s1, update_one; by destruct (lookup s i x)).
  assert (inv_with s1 []) as Hi1.
  { assert (all_pages s1 = all_pages s) as Ea by (unfold all_pages; by rewrite E1). destruct Hi. unfold held_ok, loose_ok in *.
    constructor; unfold held_ok, loose_ok; rewrite ?E1, ?E2, ?E3, ?E4, ?E5, ?E6, ?E7, ?Ea; done. }
  destruct (IH s1 Hi1 Hnd) as (G1 & G2 & G3 & G4 & G5 & G6 & G7 & G8). cbv zeta. split; [done|].
  rewrite G2, G3, G4, G5, G6, G7, E1, E2, E3, E4, E5, E6. do 6 (split; [done|]). intros e He.
  rewrite G8 by (by unfold all_pages; rewrite E1).
  assert (mem s1 (frame e) = if decide (id e = i /\ idx e = x) then update_page (mem s (frame e)) x off src else mem s (frame e)) as Hm.
  { unfold s1, update_one. destruct (lookup s i x) as [e'|] eqn:El; cbn.
    - apply lookup_spec in El as (He' & Hk1 & Hk2); [|done]. rewrite upd_eq. destruct (Z.eqb_spec (frame e) (frame e')) as [Ef|Ef].
      + assert (e = e') as -> by (by apply (same_frame s)). by rewrite decide_True.
      + rewrite decide_False; [done|]. intros [H1 H2]. apply Ef. f_equal.
        assert (lookup s i x = Some e) as L1 by (by apply lookup_spec). assert (lookup s i x = Some e') as L2 by (by apply lookup_spec). congruence.
    - rewrite decide_False; [done|]. intros [H1 H2]. assert (lookup s i x = Some e) as L1 by (by apply lookup_spec). congruence. }
  rewrite Hm. destruct (decide (id e = i /\ idx e ∈ l)) as [[H1 H2]|Hno].
  - destruct (decide (id e = i /\ idx e = x)) as [[_ E]|_]; [by rewrite E in H2|]. rewrite decide_True; [done|]. split; [done|]. by right.
  - destruct (decide (id e = i /\ idx e = x)) as [[H1 H2]|Hno2]; [rewrite decide_True; [by rewrite H2|split; [done|rewrite H2; by left]]|].
    rewrite decide_False; [done|]. intros [H1 [H2|H2]%elem_of_cons]; [by apply Hno2|by apply Hno].
Qed.

Lemma good_write fl s ino off src : good fl s -> 0 <= off ->
  good (file_write fl ino off src) (pcache_update s ino off src) /\ maps (pcache_update s ino off src) = maps s.
Proof.
  intros [Hi Hc Hco] Ho. unfold pcache_update. set (n := Z.of_nat (length src)).
  destruct (Z.eqb_spec (pc_id s ino) 0) as [E0|Hid]; cbn [orb].
  { split; [|done]. constructor; [done|done|]. intros i e He Hi' b Hb. unfold file_write.
    destruct (Z.eqb_spec i ino) as [->|]; cbn [andb]; [|by apply Hco]. pose proof (p_ids _ _ Hi e ltac:(by rewrite app_nil_r)). lia. }
  destruct (Z.eqb_spec n 0) as [En|En].
  { split; [|done]. constructor; [done|done|]. intros i e He Hi' b Hb. unfold file_write. fold n. rewrite En, Z.add_0_r.
    destruct (i =? ino), (Z.leb_spec off (idx e * 4096 + b)), (Z.ltb_spec (idx e * 4096 + b) off); cbn [andb]; try (by apply Hco); lia. }
  set (l := seqZ _ _). destruct (update_pages s (pc_id s ino) off src l Hi (NoDup_seqZ _ _)) as (G1 & G2 & G3 & G4 & G5 & G6 & G7 & G8).
  set (s' := foldl _ s l) in *. assert (all_pages s' = all_pages s) as Ea by (unfold all_pages; by rewrite G2). split; [|done].
  constructor; [done|by unfold clocked; rewrite Ea|]. intros i e He Hii b Hb. rewrite Ea in He. rewrite G3 in Hii. rewrite G8 by done. unfold file_write. fold n.
  destruct (Z.eqb_spec i ino) as [->|Hne]; cbn [andb].
  - destruct (decide (id e = pc_id s ino /\ idx e ∈ l)) as [_|Hno].
    + rewrite update_page_eq by done. fold n. destruct (_ && _); [done|]. by apply Hco.
    + destruct (Z.leb_spec off (idx e * 4096 + b)), (Z.ltb_spec (idx e * 4096 + b) (off + n)); cbn [andb]; try (by apply Hco).
      destruct Hno. split; [done|]. apply elem_of_seqZ.
      pose proof (Z.div_mod off 4096 ltac:(lia)). pose proof (Z.mod_pos_bound off 4096 ltac:(lia)).
      pose proof (Z.div_mod (off + n - 1) 4096 ltac:(lia)). pose proof (Z.mod_pos_bound (off + n - 1) 4096 ltac:(lia)). lia.
  - rewrite decide_False; [by apply Hco|]. intros [H1 _]. apply Hne. apply (p_inj _ _ Hi); [congruence|]. rewrite <- Hii, H1. done.
Qed.

(** ** Sequences of operations *)

Inductive op :=
| Map (ino x : Z) (b1 b2 : bool) (got1 got2 : list Z) (ent : bool) (now : Z)
| Unmap (f : Z)
| Fork (f : Z)
| Write (ino off : Z) (src : list Z)       (* a completed write, then pcache_update *)
| Truncate (ino : Z)                      (* O_TRUNC: empty file, then pcache_invalidate *)
| Remove (ino : Z)                        (* unlink: pcache_invalidate *)
| DropAll
| Reclaim (max : Z).

Definition exec (o : op) (w : files * state) : files * state :=
  let fl := w.1 in let s := w.2 in
  match o with
  | Map ino x b1 b2 got1 got2 ent now => (fl, (pcache_map_page alloc s ino x b1 b2 got1 got2 ent now).1)
  | Unmap f => (fl, unmap s f)
  | Fork f => (fl, fork_map s f)
  | Write ino off src => (file_write fl ino off src, pcache_update s ino off src)
  | Truncate ino => ((fun i o => if i =? ino then 0 else fl i o), pcache_invalidate s ino)
  | Remove ino => (fl, pcache_invalidate s ino)
  | DropAll => (fl, pcache_drop_all s)
  | Reclaim max => (fl, (pcache_reclaim s max).1)
  end.

(** Reads are complete, mappings that go are there, counters fit. *)
Definition allowed (o : op) (w : files * state) : Prop :=
  let fl := w.1 in let s := w.2 in
  match o with
  | Map ino x _ _ got1 got2 _ now => reads_page fl ino x got1 /\ reads_page fl ino x got2 /\ now < 18446744073709551615 /\
      g_next_id s < 4294967295 /\ forall k, share s k < 65535
  | Unmap f => 0 < maps s f
  | Fork f => 0 < maps s f /\ share s f < 65535
  | Write _ off _ => 0 <= off
  | _ => True
  end.

Lemma good_sub fl s s' : good fl s -> inv_with s' [] -> (forall e, e ∈ all_pages s' -> e ∈ all_pages s) ->
  (forall i e, e ∈ all_pages s' -> id e = pc_id s' i -> pc_id s' i = pc_id s i) -> mem s' = mem s -> good fl s'.
Proof.
  intros [Hi Hc Hco] Hi' Hsub Hid Hm. constructor; [done|intros e He; by apply Hc, Hsub|].
  apply (coherent_sub fl s); [done|eauto|done|by rewrite Hm].
Qed.

Lemma good_invalidate fl fl' s ino : good fl s -> (forall i o, i <> ino -> fl' i o = fl i o) -> good fl' (pcache_invalidate s ino).
Proof.
  intros Hg Hfl. destruct (inv_invalidate s ino (g_inv _ _ Hg)) as (Hi' & Em & _ & Hid & Hall). destruct Hg as [Hi Hc Hco].
  constructor; [done|intros e He; apply Hall in He as [He _]; by apply Hc|].
  intros i e He Hii b Hb. pose proof (proj1 (Hall e) He) as [He0 Hno]. rewrite Hid in Hii. pose proof (p_ids _ _ Hi e ltac:(by rewrite app_nil_r)).
  destruct (Z.eqb_spec i ino) as [->|Hne]; [lia|]. rewrite Em, Hfl by done. by apply Hco.
Qed.

Lemma exec_good o w : good w.1 w.2 -> allowed o w -> good (exec o w).1 (exec o w).2.
Proof.
  destruct w as [fl s]. cbn. intros Hg Ha. destruct o; cbn in *.
  - destruct Ha as (R1 & R2 & Hn & Hid & Hs). by apply map_page_ok.
  - destruct (inv_unmap s f (g_inv _ _ Hg) Ha) as [Hi' _].
    assert (g_hash (unmap s f) = g_hash s /\ mem (unmap s f) = mem s /\ pc_id (unmap s f) = pc_id s) as (E1 & E2 & E3).
    { unfold unmap, vmm_frame_unshare, cow_ref_drop, pmm_free_frame. destruct (_ <=? 1); cbn; [|done]. by destruct (owned s f). }
    apply (good_sub fl s); [done|done|unfold all_pages; by rewrite E1|by rewrite E3|done].
  - destruct Ha as [Hm Hs]. apply (good_sub fl s); [done| |done|done|done]. apply inv_more_maps; [apply Hg|done|by right].
  - by apply good_write.
  - eapply good_invalidate; [done|]. intros i o Hne. by rewrite (proj2 (Z.eqb_neq i ino)).
  - by eapply good_invalidate.
  - destruct (inv_drop_all s (g_inv _ _ Hg)) as (Hi' & Ea & Em & _ & Eid). revert Hi' Ea Em Eid. generalize (pcache_drop_all s) as s'. intros s' Hi' Ea Em Eid.
    apply (good_sub fl s); [exact Hg|exact Hi'|rewrite Ea; by intros e ?%not_elem_of_nil|rewrite Eid; reflexivity|exact Em].
  - by apply good_reclaim.
Qed.

Inductive reachable : files * state -> Prop :=
| reach_boot fl mem busy : reachable (fl, St (fun _ => []) (fun _ => 0) (fun _ => false) mem busy (fun _ => 0) 1 (fun _ => 0))
| reach_step o w : reachable w -> allowed o w -> reachable (exec o w).

Lemma world_good w : reachable w -> good w.1 w.2.
Proof.
  induction 1 as [fl m b|o w _ IH Ha]; [|by apply exec_good]. cbn. set (s := St _ _ _ _ _ _ _ _).
  assert (all_pages s = []) as Ea by (unfold all_pages; cbn; by induction slots). constructor.
  - constructor; rewrite ?Ea; cbn; try done; try lia; intros; try (by match goal with H : _ ∈ [] |- _ => apply not_elem_of_nil in H end); try (by apply NoDup_nil_2).
  - unfold clocked. rewrite Ea. by intros e ?%not_elem_of_nil.
  - intros i e. rewrite Ea. by intros ?%not_elem_of_nil.
Qed.



(** Reclaim takes what nobody maps, oldest first.  It removes
    [n = min(max, unmapped pages)] pages, each of them unmapped and no younger
    than an unmapped page it left, returns their frames to the allocator, and
    leaves every mapped page and all contents alone. *)
Theorem pcache_reclaim_correct w max : reachable w -> 0 <= max ->
  exists s' gone, pcache_reclaim w.2 max = (s', Z.of_nat (length gone)) /\
    all_pages w.2 ≡ₚ gone ++ all_pages s' /\
    Forall (fun e => maps w.2 (frame e) = 0 /\ busy s' (frame e) = false) gone /\
    (forall g e, g ∈ gone -> e ∈ all_pages s' -> maps w.2 (frame e) = 0 -> last_ms g <= last_ms e) /\
    Z.of_nat (length gone) <= max /\ (Z.of_nat (length gone) = max \/ forall e, e ∈ all_pages s' -> maps w.2 (frame e) <> 0) /\
    mem s' = mem w.2 /\ maps s' = maps w.2.
Proof.
  intros Hr Hmax. destruct (world_good w Hr) as [Hi Hc _]. destruct w as [fl s]. cbn [fst snd] in *. unfold pcache_reclaim.
  destruct (reclaim_loop_ok (S (length (all_pages s))) s max 0 Hi Hc) as (s' & gone & -> & _ & _ & [G1 G2 _ G4 (S1 & S2 & _)] & Hend & Hle); [lia|].
  specialize (Hle Hmax). rewrite Z.add_0_l in *. exists s', gone. do 5 (split; [done|]). split; [|done]. destruct Hend; [left; lia|by right].
Qed.

End Alloc.

(** ** Examples *)

(** A allocator that takes the lowest free frame of a few. *)
Definition low_alloc (b : Z -> bool) : Z := match list_find (fun f => b f = false) [4096; 8192; 12288] with Some (_, f) => f | None => 0 end.

Lemma low_alloc_free b : low_alloc b <> 0 -> b (low_alloc b) = false.
Proof. unfold low_alloc. destruct (list_find _ _) as [[i f]|] eqn:E; [|done]. intros _. by apply list_find_Some in E as (_ & ? & _). Qed.

Definition boot : files * state := ((fun _ _ => 0), St (fun _ => []) (fun _ => 0) (fun _ => false) (fun _ _ => 0) (fun _ => false) (fun _ => 0) 1 (fun _ => 0)).
Definition map0 : op := Map 7 0 true true [] [] true 5.

Lemma map0_allowed : allowed map0 boot.
Proof. repeat split; cbn; intros; try (unfold reads_page; intros); try lia; by destruct (Z.to_nat b). Qed.

Definition w1 : files * state := exec low_alloc map0 boot.

Lemma w1_reachable : reachable low_alloc w1.
Proof. apply (reach_step low_alloc map0 boot); [constructor|exact map0_allowed]. Qed.

(** The page 0 of file 7 is mapped, then bytes 2 and 3 of the file written. *)
Definition w2 : files * state := exec low_alloc (Write 7 2 [66; 66]) w1.

Lemma w2_reachable : reachable low_alloc w2.
Proof. apply (reach_step low_alloc (Write 7 2 [66; 66]) w1); [exact w1_reachable|]. cbn. lia. Qed.

Definition map1 : op := Map 7 0 true true [0; 0; 66; 66] [0; 0; 66; 66] true 6.

Lemma w1_share k : share w1.2 k = if k =? 4096 then 2 else 0.
Proof. change (share w1.2) with ((fun _ : Z => 0)⟦4096 ↦ 2⟧). apply upd_eq. Qed.

Lemma update_share s ino off src : share (pcache_update s ino off src) = share s.
Proof.
  unfold pcache_update. destruct (_ || _); [done|]. generalize (pc_id s ino) as i. intros i.
  generalize (seqZ (off / 4096) ((off + Z.of_nat (length src) - 1) / 4096 - off / 4096 + 1)) as l. intros l. revert s.
  induction l as [|x l IH]; intros s; [done|]. cbn. rewrite IH. unfold update_one. by destruct (lookup s i x).
Qed.

Lemma w2_share : share w2.2 = share w1.2.
Proof. exact (update_share w1.2 7 2 [66; 66]). Qed.

Lemma map1_allowed : allowed map1 w2.
Proof.
  assert (reads_page w2.1 7 0 [0; 0; 66; 66]) as R.
  { intros b Hb. change (w2.1 7 (0 * 4096 + b)) with (file_write (fun _ _ => 0) 7 2 [66; 66] 7 b). unfold file_write. cbn [Z.eqb Pos.eqb andb length].
    destruct (Z.leb_spec 2 b), (Z.ltb_spec b (2 + Z.of_nat 2)); cbn [andb]; [|..].
    - destruct (decide (b = 2)) as [->|]; [done|]. by replace b with 3 by lia.
    - by rewrite nth_overflow by (cbn; lia).
    - destruct (decide (b = 0)) as [->|]; [done|]. by replace b with 1 by lia.
    - lia. }
  split; [exact R|]. split; [exact R|]. split; [lia|]. split; [vm_compute; reflexivity|]. intros k. rewrite w2_share, w1_share. destruct (k =? 4096); lia.
Qed.



Lemma pcache_reclaim_correct_witness : exists s' gone, pcache_reclaim w1.2 1 = (s', Z.of_nat (length gone)) /\ all_pages w1.2 ≡ₚ gone ++ all_pages s'.
Proof.
  destruct (pcache_reclaim_correct low_alloc low_alloc_free w1 1 w1_reachable ltac:(lia)) as (s' & gone & H1 & H2 & _). exists s', gone. exact (conj H1 H2).
Defined.

(** Two writers, A then B, whose cache updates run in the other order: the
    file holds B's byte, the mapped page A's. *)
Lemma two_writers_leave_stale_page :
  let fl := file_write (file_write w1.1 7 0 [65]) 7 0 [66] in
  let s := pcache_update (pcache_update w1.2 7 0 [66]) 7 0 [65] in
  fl 7 0 = 66 /\ mem s 4096 0 = 65.
Proof. vm_compute. split; reflexivity. Qed.

(** ftruncate to 0 empties the file but not its cached page. *)
Lemma ftruncate_leaves_stale_page :
  let fl := (fun i o => if i =? 7 then 0 else w2.1 i o) : files in
  fl 7 2 = 0 /\ mem w2.2 4096 2 = 66.
Proof. vm_compute. split; reflexivity. Qed.

(** The 65,535th sharer wraps the 16-bit count to 0: the next drop frees a
    frame that everybody else still maps. *)
Lemma share_count_wraps : cow_ref_share 65535 = 0 /\ (cow_ref_drop (cow_ref_share 65535)).2 = true.
Proof. vm_compute. split; reflexivity. Qed.

(** A read that fails or comes short leaves zeros in the cached page. *)
Lemma failed_read_is_cached : (pcache_map_page low_alloc boot.2 7 0 true true [] [] true 5).2 = Some 4096 /\
  mem (pcache_map_page low_alloc boot.2 7 0 true true [] [] true 5).1 4096 0 = 0.
Proof. vm_compute. split; reflexivity. Qed.

End PcacheCoherence.
