(* ===== verification/NetWire.v ===== *)
(** * Network stack: bytes on the wire (core/net.c, includes/net.h)

    Byte order, the internet checksum, the headers of Ethernet, IPv4, ICMP,
    UDP, TCP and ARP as the bytes the code stores, and the text forms of
    addresses.  A received frame is memory with a length: what lies behind the
    frame is the driver's old buffer, so that reading past the end is visible
    in the model. *)

From stdpp Require Import base list.
From Stdlib Require Import ZArith Lia Zdiv.
From S2P Require Import Prelude.
Open Scope Z_scope.

(** ** Byte order *)

Definition htons (x : Z) : Z := u16 (Z.lor (Z.shiftl x 8) (Z.shiftr x 8)).
Definition ntohs (x : Z) : Z := htons x.
Definition htonl (x : Z) : Z :=
  Z.lor (Z.lor (Z.lor (Z.shiftl (Z.land x 255) 24) (Z.shiftl (Z.land x 65280) 8))
               (Z.shiftr (Z.land x 16711680) 8)) (Z.shiftr (Z.land x 4278190080) 24).
Definition ntohl (x : Z) : Z := htonl x.

(** A 16- or 32-bit field of a packed struct, on a little-endian machine. *)
Definition le16 (x : Z) : list Z := [x mod 256; x / 256 mod 256].
Definition le32 (x : Z) : list Z := [x mod 256; x / 256 mod 256; x / 65536 mod 256; x / 16777216 mod 256].
Definition ld16 (m : Z -> Z) (p : Z) : Z := m p + 256 * m (p + 1).
Definition ld32 (m : Z -> Z) (p : Z) : Z := m p + 256 * m (p + 1) + 65536 * m (p + 2) + 16777216 * m (p + 3).

Definition byte (b : Z) : Prop := 0 <= b < 256.

(** ** The internet checksum *)

(** [while (len > 1) ...; if (len) ...], with the sum of 32 bits. *)
Fixpoint sum_words (l : list Z) (sum : Z) : Z :=
  match l with
  | a :: b :: l' => sum_words l' (u32 (sum + Z.lor (Z.shiftl a 8) b))
  | [a] => u32 (sum + Z.shiftl a 8)
  | [] => sum
  end.

(** [while (sum >> 16) sum = (sum & 0xFFFF) + (sum >> 16)]; a 32-bit sum is
    folded after two rounds. *)
Fixpoint fold16 (fuel : nat) (sum : Z) : Z :=
  match fuel with
  | O => sum
  | S f => if Z.shiftr sum 16 =? 0 then sum else fold16 f (Z.land sum 65535 + Z.shiftr sum 16)
  end.

Definition net_checksum (l : list Z) : Z := htons (u16 (Z.lnot (fold16 3 (sum_words l 0)))).

Definition IP_PROTO_ICMP : Z := 1.
Definition IP_PROTO_UDP : Z := 17.
Definition IP_PROTO_TCP : Z := 6.

Definition pseudo_sum (src dst len : Z) : Z :=
  u32 (Z.land (Z.shiftr src 16) 65535 + Z.land src 65535 + Z.land (Z.shiftr dst 16) 65535 + Z.land dst 65535
       + IP_PROTO_TCP + len).
Definition tcp_checksum (src_ip dst_ip : Z) (seg : list Z) : Z :=
  htons (u16 (Z.lnot (fold16 3 (sum_words seg (pseudo_sum src_ip dst_ip (Z.of_nat (length seg))))))).

(** ** Headers *)

Definition ETH_ALEN : Z := 6.
Definition ETH_HLEN : Z := 14.
Definition ETH_MTU : Z := 1500.
Definition ETHERTYPE_IPV4 : Z := 2048.
Definition ETHERTYPE_ARP : Z := 2054.
Definition BCAST_MAC : list Z := [255; 255; 255; 255; 255; 255].

Definition eth_hdr (dst src : list Z) (ethertype : Z) : list Z := dst ++ src ++ le16 (htons ethertype).

Definition ipv4_hdr (total proto csum src dst : Z) : list Z :=
  [69; 0] ++ le16 (htons (u16 total)) ++ le16 (htons 0) ++ le16 (htons 16384) ++ [64; proto] ++ le16 csum
  ++ le32 (htonl src) ++ le32 (htonl dst).

(** Header and payload as [ipv4_emit_locked] assembles them. *)
Definition ipv4_pkt (src dst proto : Z) (payload : list Z) : list Z :=
  let total := 20 + Z.of_nat (length payload) in
  ipv4_hdr total proto (net_checksum (ipv4_hdr total proto 0 src dst)) src dst ++ payload.

Definition TCP_FIN : Z := 1.
Definition TCP_SYN : Z := 2.
Definition TCP_RST : Z := 4.
Definition TCP_PSH : Z := 8.
Definition TCP_ACK : Z := 16.
Definition has (flags bit : Z) : bool := negb (Z.land flags bit =? 0).

Definition tcp_hdr (sport dport seq ack flags win csum : Z) : list Z :=
  le16 (htons sport) ++ le16 (htons dport) ++ le32 (htonl seq) ++ le32 (htonl ack) ++ [Z.shiftl 5 4; flags]
  ++ le16 (htons win) ++ le16 csum ++ le16 0.

(** The segment of [tcp_emit_locked], checksummed with the field at 0. *)
Definition tcp_seg (src dst sport dport seq ack flags win : Z) (data : list Z) : list Z :=
  tcp_hdr sport dport seq ack flags win
    (tcp_checksum src dst (tcp_hdr sport dport seq ack flags win 0 ++ data)) ++ data.

Definition udp_hdr (sport dport len : Z) : list Z :=
  le16 (htons sport) ++ le16 (htons dport) ++ le16 (htons (u16 len)) ++ le16 0.

Definition ip_to_octets (ip : Z) : list Z :=
  [Z.land (Z.shiftr ip 24) 255; Z.land (Z.shiftr ip 16) 255; Z.land (Z.shiftr ip 8) 255; Z.land ip 255].
Definition octets_to_ip (a b c d : Z) : Z :=
  Z.lor (Z.lor (Z.lor (Z.shiftl a 24) (Z.shiftl b 16)) (Z.shiftl c 8)) d.

Definition arp_pkt (oper : Z) (sha : list Z) (spa : Z) (tha : list Z) (tpa : Z) : list Z :=
  le16 (htons 1) ++ le16 (htons ETHERTYPE_IPV4) ++ [6; 4] ++ le16 (htons oper)
  ++ sha ++ ip_to_octets spa ++ tha ++ ip_to_octets tpa.

(** ** Text forms of addresses *)

(** One pass of the loop of [net_parse_ip]; [o] holds the octets so far. *)
Fixpoint parse_loop (s : list Z) (o : list Z) (digits val : Z) : option (list Z) :=
  match s with
  | [] => if (digits =? 0) || (3 <? Z.of_nat (length o)) then None else Some (o ++ [val])
  | c :: s' =>
      if (48 <=? c) && (c <=? 57) then
        let val := val * 10 + (c - 48) in
        if 255 <? val then None else parse_loop s' o (digits + 1) val
      else if c =? 46 then
        if (digits =? 0) || (3 <? Z.of_nat (length o)) then None else parse_loop s' (o ++ [val]) 0 0
      else None
  end.

Definition net_parse_ip (s : list Z) : option Z :=
  match parse_loop s [] 0 0 with
  | Some [a; b; c; d] => Some (Z.lor (Z.lor (Z.lor (Z.shiftl a 24) (Z.shiftl b 16)) (Z.shiftl c 8)) d)
  | _ => None
  end.

(** The digits of an octet: [tmp] is filled from the last digit and read back. *)
Fixpoint itoa_loop (fuel : nat) (v : Z) (acc : list Z) : list Z :=
  match fuel with
  | O => acc
  | S f => if v =? 0 then acc else itoa_loop f (v / 10) (48 + v mod 10 :: acc)
  end.
Definition fmt_octet (v : Z) : list Z := if v =? 0 then [48] else itoa_loop 3 v [].

Definition net_fmt_ip (ip : Z) : list Z :=
  match ip_to_octets ip with
  | [a; b; c; d] => fmt_octet a ++ [46] ++ fmt_octet b ++ [46] ++ fmt_octet c ++ [46] ++ fmt_octet d
  | _ => []
  end.

Definition hex_digit (n : Z) : Z := nth (Z.to_nat n) [48;49;50;51;52;53;54;55;56;57;97;98;99;100;101;102] 0.
Fixpoint net_fmt_mac (mac : list Z) : list Z :=
  match mac with
  | [] => []
  | b :: rest =>
      hex_digit (Z.land (Z.shiftr b 4) 15) :: hex_digit (Z.land b 15)
      :: match rest with [] => [] | _ => 58 :: net_fmt_mac rest end
  end.

(** ** Byte order: what is stored is big-endian *)

Definition be16 (x : Z) : list Z := [x / 256; x mod 256].
Definition be32 (x : Z) : list Z := [x / 16777216; x / 65536 mod 256; x / 256 mod 256; x mod 256].

Lemma htons_eq x : 0 <= x < 65536 -> htons x = x mod 256 * 256 + x / 256.
Proof.
  intros H. unfold htons. rewrite Z.shiftr_div_pow2 by lia. rewrite shl_or.
  - unfold u16. Z.div_mod_to_equations. lia.
  - change (2 ^ 8) with 256. Z.div_mod_to_equations. lia.
  - lia.
Qed.

Lemma htons_range x : 0 <= htons x < 65536.
Proof. apply u16_range. Qed.

Lemma le16_htons x : 0 <= x < 65536 -> le16 (htons x) = be16 x.
Proof.
  intros H. rewrite htons_eq by done. unfold le16, be16. f_equal; [|f_equal]; Z.div_mod_to_equations; lia.
Qed.

Lemma ntohs_htons x : 0 <= x < 65536 -> ntohs (htons x) = x.
Proof.
  intros H. unfold ntohs. rewrite (htons_eq (htons x)) by apply htons_range. rewrite htons_eq by done.
  Z.div_mod_to_equations; lia.
Qed.

Lemma land_mask x k : 0 <= k -> Z.land x (255 * 2 ^ k) = x / 2 ^ k mod 256 * 2 ^ k.
Proof.
  intros Hk. rewrite <- !Z.shiftl_mul_pow2, <- Z.shiftr_div_pow2 by done. change 256 with (2 ^ 8).
  rewrite <- Z.land_ones by lia. change (Z.ones 8) with 255. apply Z.bits_inj'. intros n Hn.
  rewrite Z.land_spec. destruct (Z.ltb_spec n k).
  - rewrite !Z.shiftl_spec_low by lia. by rewrite andb_false_r.
  - rewrite !Z.shiftl_spec, Z.land_spec, Z.shiftr_spec by lia. do 2 f_equal. lia.
Qed.

Lemma htonl_eq x : 0 <= x < 4294967296 ->
  htonl x = x mod 256 * 16777216 + x / 256 mod 256 * 65536 + x / 65536 mod 256 * 256 + x / 16777216.
Proof.
  intros H. unfold htonl.
  change 255 with (255 * 2 ^ 0). change 65280 with (255 * 2 ^ 8). change 16711680 with (255 * 2 ^ 16).
  change 4278190080 with (255 * 2 ^ 24). rewrite !land_mask by lia.
  change (2 ^ 0) with 1. rewrite Z.mul_1_r, Z.div_1_r.
  rewrite !Z.shiftr_div_pow2 by lia.
  replace (x / 2 ^ 16 mod 256 * 2 ^ 16 / 2 ^ 8) with (x / 2 ^ 16 mod 256 * 256) by (change (2^16) with (256 * 256); change (2^8) with 256; rewrite Z.mul_assoc, Z.div_mul; lia).
  replace (x / 2 ^ 24 mod 256 * 2 ^ 24 / 2 ^ 24) with (x / 2 ^ 24 mod 256) by (rewrite Z.div_mul; lia).
  rewrite !Z.shiftl_mul_pow2 by lia.
  assert (forall a, 0 <= a mod 256 < 256) as B by (intros; apply Z.mod_pos_bound; lia).
  pose proof (B x). pose proof (B (x / 2 ^ 8)). pose proof (B (x / 2 ^ 16)). pose proof (B (x / 2 ^ 24)).
  change (2 ^ 24) with 16777216 in *. change (2 ^ 16) with 65536 in *. change (2 ^ 8) with 256 in *.
  rewrite (Z.mod_small (x / 16777216) 256) in * by (Z.div_mod_to_equations; lia).
  set (a := x mod 256) in *. set (b := x / 256 mod 256) in *. set (c := x / 65536 mod 256) in *. set (d := x / 16777216) in *.
  assert (Z.lor (a * 16777216) (b * 256 * 256) = a * 16777216 + b * 65536) as E1.
  { replace (a * 16777216) with (Z.shiftl a 24) by (rewrite Z.shiftl_mul_pow2 by lia; lia).
    rewrite shl_or by lia. rewrite Z.shiftl_mul_pow2 by lia. lia. }
  assert (Z.lor (a * 16777216 + b * 65536) (c * 256) = a * 16777216 + b * 65536 + c * 256) as E2.
  { replace (a * 16777216 + b * 65536) with (Z.shiftl (a * 256 + b) 16) by (rewrite Z.shiftl_mul_pow2 by lia; lia).
    rewrite shl_or by lia. rewrite Z.shiftl_mul_pow2 by lia. lia. }
  rewrite E1, E2.
  replace (a * 16777216 + b * 65536 + c * 256) with (Z.shiftl (a * 65536 + b * 256 + c) 8) by (rewrite Z.shiftl_mul_pow2 by lia; lia).
  rewrite shl_or by lia. rewrite Z.shiftl_mul_pow2 by lia. lia.
Qed.

Lemma htonl_range x : 0 <= x < 4294967296 -> 0 <= htonl x < 4294967296.
Proof. intros H. rewrite htonl_eq by done. Z.div_mod_to_equations. lia. Qed.

Lemma le32_htonl x : 0 <= x < 4294967296 -> le32 (htonl x) = be32 x.
Proof.
  intros H. rewrite htonl_eq by done. unfold le32, be32.
  f_equal; [|f_equal; [|f_equal; [|f_equal]]]; Z.div_mod_to_equations; lia.
Qed.

Lemma be16_inj x y : be16 x = be16 y -> x = y.
Proof.
  unfold be16. intros [= E1 E2]. rewrite (Z.div_mod x 256), (Z.div_mod y 256) by lia. congruence.
Qed.
Lemma be16_byte x : 0 <= x < 65536 -> Forall byte (be16 x).
Proof. intros. repeat constructor; unfold byte; Z.div_mod_to_equations; lia. Qed.
Lemma be32_byte x : 0 <= x < 4294967296 -> Forall byte (be32 x).
Proof. intros. repeat constructor; unfold byte; Z.div_mod_to_equations; lia. Qed.

(** Reading a field back. *)
Lemma ld16_be m p x : 0 <= x < 65536 -> peek m p 2 = be16 x -> ntohs (ld16 m p) = x.
Proof.
  intros H E. cbn [peek] in E. unfold be16 in E. injection E as E0 E1. unfold ld16. rewrite E0, E1.
  unfold ntohs. rewrite htons_eq by (Z.div_mod_to_equations; lia). Z.div_mod_to_equations; lia.
Qed.
Lemma htonl_bytes a b c d : byte a -> byte b -> byte c -> byte d ->
  htonl (a + 256 * b + 65536 * c + 16777216 * d) = a * 16777216 + b * 65536 + c * 256 + d.
Proof.
  unfold byte. intros. rewrite htonl_eq by lia. set (x := a + _ + _ + _).
  assert (x mod 256 = a) as -> by (subst x; Z.div_mod_to_equations; lia).
  assert (x / 256 = b + 256 * c + 65536 * d) as -> by (subst x; Z.div_mod_to_equations; lia).
  assert (x / 65536 = c + 256 * d) as -> by (subst x; Z.div_mod_to_equations; lia).
  assert (x / 16777216 = d) as -> by (subst x; Z.div_mod_to_equations; lia).
  assert ((b + 256 * c + 65536 * d) mod 256 = b) as -> by (Z.div_mod_to_equations; lia).
  assert ((c + 256 * d) mod 256 = c) as -> by (Z.div_mod_to_equations; lia). done.
Qed.
Lemma be32_value x : x = x / 16777216 * 16777216 + x / 65536 mod 256 * 65536 + x / 256 mod 256 * 256 + x mod 256.
Proof.
  pose proof (Z.div_mod x 256 ltac:(lia)) as E0. pose proof (Z.div_mod (x / 256) 256 ltac:(lia)) as E1.
  pose proof (Z.div_mod (x / 65536) 256 ltac:(lia)) as E2. rewrite Z.div_div in E1, E2 by lia.
  change (256 * 256) with 65536 in *. change (65536 * 256) with 16777216 in *. lia.
Qed.
Lemma ld32_be m p x : 0 <= x < 4294967296 -> peek m p 4 = be32 x -> ntohl (ld32 m p) = x.
Proof.
  intros H E. pose proof (be32_byte x H) as B. rewrite <- E in B. cbn [peek] in *. unfold be32 in E. injection E as E0 E1 E2 E3.
  rewrite !Forall_cons in B. destruct B as (B0 & B1 & B2 & B3 & _). unfold ld32, ntohl.
  replace (p + 2) with (p + 1 + 1) by lia. replace (p + 3) with (p + 1 + 1 + 1) by lia.
  rewrite htonl_bytes by done. rewrite E0, E1, E2, E3. symmetry. apply be32_value.
Qed.

(** ** The checksum *)

Fixpoint wsum (l : list Z) : Z :=
  match l with
  | a :: b :: l' => a * 256 + b + wsum l'
  | [a] => a * 256
  | [] => 0
  end.

(** Induction two bytes at a time. *)
Lemma pairs_ind (P : list Z -> Prop) :
  P [] -> (forall a, P [a]) -> (forall a b l, P l -> P (a :: b :: l)) -> forall l, P l.
Proof.
  intros H0 H1 H2 l. assert (P l /\ forall a, P (a :: l)) as [H _]; [|done].
  induction l as [|a l [IH1 IH2]]; split; auto.
Qed.

Lemma lor_word a b : byte a -> byte b -> Z.lor (Z.shiftl a 8) b = a * 256 + b.
Proof. intros Ha Hb. unfold byte in *. rewrite shl_or by lia. done. Qed.

Lemma wsum_range l : Forall byte l -> 0 <= wsum l <= 65535 * ((Z.of_nat (length l) + 1) / 2).
Proof.
  induction l as [|a|a b l IH] using pairs_ind; intros H; cbn [wsum length].
  - change ((Z.of_nat 0 + 1) / 2) with 0. lia.
  - apply Forall_cons in H as [Ha _]. unfold byte in *. change ((Z.of_nat 1 + 1) / 2) with 1. lia.
  - apply Forall_cons in H as [Ha H]. apply Forall_cons in H as [Hb H]. specialize (IH H). unfold byte in *.
    replace ((Z.of_nat (S (S (length l))) + 1) / 2) with ((Z.of_nat (length l) + 1) / 2 + 1) by (Z.div_mod_to_equations; lia).
    lia.
Qed.

Lemma sum_words_eq l s : Forall byte l -> 0 <= s -> s + wsum l < 4294967296 -> sum_words l s = s + wsum l.
Proof.
  revert s. induction l as [|a|a b l IH] using pairs_ind; intros s H Hs Hb; cbn [sum_words wsum] in *.
  - lia.
  - apply Forall_cons in H as [Ha _]. unfold byte in *. rewrite Z.shiftl_mul_pow2 by lia. change (2 ^ 8) with 256.
    by rewrite u32_small by lia.
  - apply Forall_cons in H as [Ha H]. apply Forall_cons in H as [Hb' H]. rewrite lor_word by done. unfold byte in *.
    pose proof (wsum_range l H). rewrite u32_small by lia. rewrite IH by (done || lia). lia.
Qed.

Lemma wsum_app l1 l2 : Nat.even (length l1) = true -> wsum (l1 ++ l2) = wsum l1 + wsum l2.
Proof.
  induction l1 as [|a|a b l1 IH] using pairs_ind; intros H; cbn [app wsum length] in *; [done|done|].
  rewrite IH by done. lia.
Qed.

(** Folding is reduction modulo 65535 into 1..65535 (and 0 stays 0). *)
Lemma fold16_eq s : 0 <= s < 4294967296 -> fold16 3 s = if s =? 0 then 0 else (s - 1) mod 65535 + 1.
Proof.
  intros H. assert (forall x, Z.land x 65535 = x mod 65536) as L.
  { intros x. change 65535 with (Z.ones 16). by rewrite Z.land_ones by lia. }
  cbn [fold16]. rewrite !L, !Z.shiftr_div_pow2 by lia.
  change (2 ^ 16) with 65536. destruct (Z.eqb_spec s 0) as [->|H0]; [done|].
  destruct (Z.eqb_spec (s / 65536) 0) as [E|E]; [Z.div_mod_to_equations; lia|].
  set (s1 := s mod 65536 + s / 65536).
  assert (0 < s1 <= 131070 /\ (s1 - 1) mod 65535 = (s - 1) mod 65535) as [B1 M1].
  { split; [subst s1; Z.div_mod_to_equations; lia|].
    replace (s - 1) with (s1 - 1 + s / 65536 * 65535) by (subst s1; Z.div_mod_to_equations; lia). by rewrite Z_mod_plus_full. }
  rewrite <- M1. clearbody s1. destruct (Z.eqb_spec (s1 / 65536) 0); [Z.div_mod_to_equations; lia|].
  set (s2 := s1 mod 65536 + s1 / 65536).
  assert (0 < s2 <= 65535 /\ s1 = s2 + 65535) as [B2 E2] by (subst s2; Z.div_mod_to_equations; lia).
  rewrite E2. clearbody s2. destruct (Z.eqb_spec (s2 / 65536) 0) as [_|Hn]; [|rewrite Z.div_small in Hn; lia].
  replace (s2 + 65535 - 1) with (s2 - 1 + 1 * 65535) by lia. rewrite Z_mod_plus_full, Z.mod_small; lia.
Qed.

Definition csum (s : Z) : Z := htons (u16 (Z.lnot (fold16 3 s))).

Lemma csum_eq s : 0 <= s < 4294967296 -> csum s = htons (65535 - fold16 3 s).
Proof.
  intros H. unfold csum. f_equal. rewrite fold16_eq by done. unfold Z.lnot, u16.
  destruct (Z.eqb_spec s 0) as [->|]; [done|]. Z.div_mod_to_equations; lia.
Qed.

(** Adding the complement of a sum to it gives a sum that folds to all ones,
    whose complement is 0: a receiver that adds everything up sees 0. *)
Lemma csum_verifies s c : 0 <= s < 4294901760 -> le16 (csum s) = be16 c -> 0 <= c < 65536 -> csum (s + c) = 0.
Proof.
  intros H E Hc. rewrite csum_eq in E by lia.
  assert (0 <= 65535 - fold16 3 s < 65536) as B.
  { rewrite fold16_eq by lia. destruct (Z.eqb_spec s 0); Z.div_mod_to_equations; lia. }
  rewrite le16_htons in E by done. apply be16_inj in E as <-.
  rewrite csum_eq by lia. rewrite (fold16_eq (s + _)) by lia. rewrite fold16_eq in B |- * by lia.
  destruct (Z.eqb_spec s 0) as [->|Hs]; [done|].
  replace (s + (65535 - ((s - 1) mod 65535 + 1))) with (65535 + (s - 1) / 65535 * 65535) by (Z.div_mod_to_equations; lia).
  assert (0 <= (s - 1) / 65535) by (apply Z.div_pos; lia).
  destruct (Z.eqb_spec (65535 + (s - 1) / 65535 * 65535) 0); [lia|].
  replace (65535 + (s - 1) / 65535 * 65535 - 1) with (65534 + (s - 1) / 65535 * 65535) by lia.
  by rewrite Z_mod_plus_full.
Qed.

Lemma csum_field s : 0 <= s < 4294967296 -> exists c, 0 <= c < 65536 /\ le16 (csum s) = be16 c.
Proof.
  intros H. exists (65535 - fold16 3 s). assert (0 <= 65535 - fold16 3 s < 65536) as B.
  { rewrite fold16_eq by lia. destruct (Z.eqb_spec s 0); Z.div_mod_to_equations; lia. }
  split; [done|]. rewrite csum_eq by done. by apply le16_htons.
Qed.

Lemma insert_verifies s0 pre post : Forall byte pre -> Forall byte post -> Nat.even (length pre) = true ->
  0 <= s0 <= 524288 -> Z.of_nat (length pre + length post) <= 65536 ->
  csum (sum_words (pre ++ le16 (csum (sum_words (pre ++ [0; 0] ++ post) s0)) ++ post) s0) = 0.
Proof.
  intros Hpre Hpost Hev Hs Hlen. pose proof (wsum_range pre Hpre). pose proof (wsum_range post Hpost).
  assert ((Z.of_nat (length pre) + 1) / 2 + (Z.of_nat (length post) + 1) / 2 <= 32769) by (Z.div_mod_to_equations; lia).
  assert (forall x y, wsum (pre ++ [x; y] ++ post) = wsum pre + (x * 256 + y) + wsum post) as W.
  { intros x y. rewrite wsum_app by done. cbn [app wsum]. lia. }
  assert (Forall byte (pre ++ [0; 0] ++ post)) as B0.
  { rewrite !Forall_app. split; [done|]. split; [|done]. rewrite !Forall_cons, Forall_nil. unfold byte. lia. }
  rewrite (sum_words_eq (pre ++ [0; 0] ++ post)) by (done || rewrite ?W; lia). rewrite W.
  set (s := s0 + _). assert (0 <= s < 4294901760) as Hsb by (subst s; lia).
  destruct (csum_field s ltac:(lia)) as (c & Hc & Ec). pose proof (csum_verifies s c Hsb Ec Hc) as V. rewrite Ec. unfold be16.
  assert (c / 256 * 256 + c mod 256 = c) as Ev by (rewrite (Z.div_mod c 256) at 3; lia).
  rewrite sum_words_eq.
  - rewrite W, Ev. rewrite <- V. f_equal. subst s. lia.
  - rewrite !Forall_app. split; [done|]. split; [|done]. by apply (be16_byte c).
  - lia.
  - rewrite W, Ev. lia.
Qed.

(** A header field is two or four bytes. *)
Ltac wire := rewrite ?le16_htons, ?le32_htonl by (lia || apply u16_range).

Definition ipv4_pre (total proto : Z) : list Z := [69; 0] ++ be16 (u16 total) ++ be16 0 ++ be16 16384 ++ [64; proto].
Definition tcp_pre (sport dport seq ack flags win : Z) : list Z :=
  be16 sport ++ be16 dport ++ be32 seq ++ be32 ack ++ [80; flags] ++ be16 win.

Lemma ipv4_hdr_split total proto c src dst : 0 <= src < 4294967296 -> 0 <= dst < 4294967296 ->
  ipv4_hdr total proto c src dst = ipv4_pre total proto ++ le16 c ++ be32 src ++ be32 dst.
Proof. intros. unfold ipv4_hdr, ipv4_pre. wire. done. Qed.

Lemma tcp_hdr_split sport dport seq ack flags win c :
  0 <= sport < 65536 -> 0 <= dport < 65536 -> 0 <= seq < 4294967296 -> 0 <= ack < 4294967296 -> 0 <= win < 65536 ->
  tcp_hdr sport dport seq ack flags win c = tcp_pre sport dport seq ack flags win ++ le16 c ++ [0; 0].
Proof. intros. unfold tcp_hdr, tcp_pre. wire. done. Qed.

Lemma ipv4_pre_byte total proto : byte proto -> Forall byte (ipv4_pre total proto).
Proof.
  intros. unfold ipv4_pre. rewrite !Forall_app. repeat split; try (apply be16_byte; (lia || apply u16_range)).
  all: rewrite ?Forall_cons, ?Forall_nil; unfold byte in *; lia.
Qed.
Lemma tcp_pre_byte sport dport seq ack flags win :
  0 <= sport < 65536 -> 0 <= dport < 65536 -> 0 <= seq < 4294967296 -> 0 <= ack < 4294967296 -> byte flags -> 0 <= win < 65536 ->
  Forall byte (tcp_pre sport dport seq ack flags win).
Proof.
  intros. unfold tcp_pre. rewrite !Forall_app. repeat split; try (by apply be16_byte); try (by apply be32_byte).
  all: rewrite ?Forall_cons, ?Forall_nil; unfold byte in *; lia.
Qed.

Lemma net_checksum_csum l : net_checksum l = csum (sum_words l 0).
Proof. done. Qed.
Lemma tcp_checksum_csum src dst l : tcp_checksum src dst l = csum (sum_words l (pseudo_sum src dst (Z.of_nat (length l)))).
Proof. done. Qed.

Lemma land16 x : 0 <= Z.land x 65535 < 65536.
Proof. change 65535 with (Z.ones 16). rewrite Z.land_ones by lia. apply Z.mod_pos_bound. lia. Qed.

Lemma pseudo_sum_range src dst len : 0 <= len <= 65535 -> 0 <= pseudo_sum src dst len <= 524288.
Proof.
  intros H. unfold pseudo_sum. pose proof (land16 (Z.shiftr src 16)). pose proof (land16 src).
  pose proof (land16 (Z.shiftr dst 16)). pose proof (land16 dst). unfold IP_PROTO_TCP. rewrite u32_small by lia. lia.
Qed.

(** The checksum in every IPv4 header and TCP segment the stack sends is
    the one the receiver's rule of RFC 1071 asks for: summed with the field in
    place, header and pseudo header give 0, whatever the addresses, ports,
    flags and payload, and with an odd number of payload bytes too. *)
Theorem sent_checksums_verify src dst proto payload sport dport seq ack flags win data :
  0 <= src < 4294967296 -> 0 <= dst < 4294967296 -> byte proto ->
  0 <= sport < 65536 -> 0 <= dport < 65536 -> 0 <= seq < 4294967296 -> 0 <= ack < 4294967296 -> byte flags ->
  0 <= win < 65536 -> Forall byte data -> Z.of_nat (length data) <= 65515 ->
  net_checksum (take 20 (ipv4_pkt src dst proto payload)) = 0 /\
  tcp_checksum src dst (tcp_seg src dst sport dport seq ack flags win data) = 0.
Proof.
  intros Hs Hd Hp Hsp Hdp Hq Ha Hf Hw Hb Hl. split.
  - unfold ipv4_pkt. cbv zeta. rewrite take_app_length' by done. rewrite !net_checksum_csum, !ipv4_hdr_split by done.
    change (le16 0) with [0; 0]. rewrite insert_verifies; [done|by apply ipv4_pre_byte| |done|lia|cbn; lia].
    apply Forall_app. split; by apply be32_byte.
  - unfold tcp_seg. rewrite !tcp_checksum_csum, !tcp_hdr_split by done. rewrite <- !(assoc_L app). change (le16 0) with [0; 0].
    rewrite !length_app. change (length (le16 _)) with 2%nat. change (length [0; 0]) with 2%nat.
    change (length (tcp_pre _ _ _ _ _ _)) with 16%nat.
    rewrite insert_verifies; [done|by apply tcp_pre_byte| |done| |cbn; lia].
    + apply Forall_app. split; [|done]. rewrite !Forall_cons, Forall_nil. unfold byte. lia.
    + apply pseudo_sum_range. lia.
Qed.

Lemma sent_checksums_verify_witness :
  net_checksum (take 20 (ipv4_pkt 167772687 167772674 6 [1; 2; 3])) = 0 /\
  tcp_checksum 167772687 167772674 (tcp_seg 167772687 167772674 49152 80 8193 77 24 8192 [72; 105; 33]) = 0.
Proof.
  apply (sent_checksums_verify 167772687 167772674 6 [1; 2; 3] 49152 80 8193 77 24 8192 [72; 105; 33]); unfold byte; try (cbn; lia).
  rewrite !Forall_cons, Forall_nil. lia.
Defined.

(** ** Text forms *)

(** The digits of one octet, as [parse_loop] accumulates them. *)
Fixpoint take_digits (ds : list Z) (digits val : Z) : option (Z * Z) :=
  match ds with
  | [] => Some (digits, val)
  | c :: ds' =>
      if (48 <=? c) && (c <=? 57) then
        let val := val * 10 + (c - 48) in if 255 <? val then None else take_digits ds' (digits + 1) val
      else None
  end.

Lemma parse_digits ds s o d v d' v' : take_digits ds d v = Some (d', v') -> parse_loop (ds ++ s) o d v = parse_loop s o d' v'.
Proof.
  revert d v. induction ds as [|c ds IH]; intros d v H; cbn [take_digits app parse_loop] in *; [by simplify_eq|].
  destruct ((48 <=? c) && (c <=? 57)); [|done]. destruct (255 <? _); [done|]. by apply IH.
Qed.

Lemma fmt_octet_digits v : 0 <= v < 256 -> exists d, take_digits (fmt_octet v) 0 0 = Some (d, v) /\ 0 < d.
Proof.
  intros H. assert (forallb (fun v => match take_digits (fmt_octet v) 0 0 with Some (d, w) => (w =? v) && (0 <? d) | None => false end)
    (seqZ 0 256) = true) as F by by vm_compute.
  rewrite forallb_forall in F. specialize (F v). rewrite <- list_elem_of_In, elem_of_seqZ in F. specialize (F ltac:(lia)).
  destruct (take_digits _ _ _) as [[d w]|]; [|done]. bool_props. subst. by exists d.
Qed.

Lemma parse_octet v s o : 0 <= v < 256 -> (length o < 3)%nat ->
  parse_loop (fmt_octet v ++ 46 :: s) o 0 0 = parse_loop s (o ++ [v]) 0 0.
Proof.
  intros H Ho. destruct (fmt_octet_digits v H) as (d & E & Hd). rewrite (parse_digits _ _ _ _ _ _ _ E). cbn [parse_loop].
  destruct (Z.eqb_spec d 0); [lia|]. destruct (Z.ltb_spec 3 (Z.of_nat (length o))); [lia|done].
Qed.

Lemma octet_range x : 0 <= Z.land x 255 < 256.
Proof. change 255 with (Z.ones 8). rewrite Z.land_ones by lia. apply Z.mod_pos_bound. lia. Qed.

Lemma octets_value ip : 0 <= ip < 4294967296 ->
  octets_to_ip (Z.land (Z.shiftr ip 24) 255) (Z.land (Z.shiftr ip 16) 255) (Z.land (Z.shiftr ip 8) 255) (Z.land ip 255) = ip.
Proof.
  intros H. unfold octets_to_ip. rewrite <- !Z.lor_assoc. apply Z.bits_inj'. intros n Hn.
  assert (forall m, 32 <= m -> Z.testbit ip m = false) as Hi.
  { intros m Hm. rewrite <- (Z.mod_small ip (2 ^ 32)) by lia. by rewrite Z.mod_pow2_bits_high by lia. }
  change 255 with (Z.ones 8). rewrite !Z.lor_spec, !Z.shiftl_spec, !Z.land_spec by lia.
  rewrite !Z.testbit_ones by lia.
  assert (forall k, 0 <= k -> (Z.testbit (Z.shiftr ip k) (n - k) && ((0 <=? n - k) && (n - k <? 8)))%bool = (Z.testbit ip n && (k <=? n) && (n <? k + 8))%bool) as S.
  { intros k Hk. destruct (Z.leb_spec 0 (n - k)), (Z.leb_spec k n); try lia.
    rewrite Z.shiftr_spec by lia. replace (n - k + k) with n by lia. destruct (Z.ltb_spec (n - k) 8), (Z.ltb_spec n (k + 8)); try lia; by rewrite ?andb_true_r. }
  rewrite !S by lia. destruct (Z.leb_spec 32 n); [by rewrite Hi|].
  destruct (Z.leb_spec 24 n), (Z.leb_spec 16 n), (Z.leb_spec 8 n), (Z.leb_spec 0 n), (Z.ltb_spec n (24 + 8)), (Z.ltb_spec n (16 + 8)),
    (Z.ltb_spec n (8 + 8)), (Z.ltb_spec n 8); try lia; by destruct (Z.testbit ip n).
Qed.

(** An address printed is read back: for every 32-bit address,
    [net_parse_ip] accepts what [net_fmt_ip] writes and returns the address. *)
Theorem ip_text_roundtrip ip : 0 <= ip < 4294967296 -> net_parse_ip (net_fmt_ip ip) = Some ip.
Proof.
  intros H. unfold net_parse_ip, net_fmt_ip, ip_to_octets. set (a := Z.land (Z.shiftr ip 24) 255).
  set (b := Z.land (Z.shiftr ip 16) 255). set (c := Z.land (Z.shiftr ip 8) 255). set (d := Z.land ip 255).
  cbn [app]. rewrite !parse_octet by (apply octet_range || (cbn; lia)).
  destruct (fmt_octet_digits d (octet_range ip)) as (n & E & Hn). rewrite <- (app_nil_r (fmt_octet d)).
  rewrite (parse_digits _ _ _ _ _ _ _ E). cbn [parse_loop app length]. destruct (Z.eqb_spec n 0); [lia|]. cbn [orb].
  destruct (Z.ltb_spec 3 (Z.of_nat 3)); [lia|]. f_equal. by apply octets_value.
Qed.

Lemma ip_text_roundtrip_witness : net_parse_ip (net_fmt_ip 3232235777) = Some 3232235777.
Proof. apply (ip_text_roundtrip 3232235777). lia. Defined.

Example fmt_example : net_fmt_ip 2130706433 = [49; 50; 55; 46; 48; 46; 48; 46; 49].
Proof. reflexivity. Qed.
Example parse_rejects : net_parse_ip [49; 46; 50; 46; 51] = None /\ net_parse_ip [50; 53; 54; 46; 48; 46; 48; 46; 49] = None.
Proof. split; reflexivity. Qed.
