(* ===== verification/NetDev.v ===== *)
(** * Network stack: devices, routes and sending (core/net.c)

    The device registry, the choice of a route, and the path every frame takes
    out: IPv4 header, Ethernet header, the driver.  A driver is code outside
    the stack: the class [NetDriver] gives what the stack uses of it.  The
    frames a driver has taken are logged in [wire]. *)

From stdpp Require Import base list.
From Stdlib Require Import ZArith Lia.
From S2P Require Import Prelude NetWire.
Open Scope Z_scope.

(** [dev->transmit]: the driver's new state and its return value, 0 for success. *)
Class NetDriver (D : Type) := { transmit : D -> Z -> list Z -> D * Z }.

Module NetDev.

Definition NETDEV_F_LOOPBACK : Z := 1.
Definition NETDEV_F_SIMULATED : Z := 2.

Record net_device := Dev {
  name : list Z; flags : Z; mac : list Z;
  ip : Z; netmask : Z; gateway : Z; mtu : Z;
  admin_down : bool;
  rx_packets : Z; rx_bytes : Z; rx_dropped : Z
}.

(** What sending touches: the device structures by address, the drivers, and
    the log of frames they took. *)
Record io (D : Type) := IO { devs : Z -> net_device; drv : D; wire : list (Z * list Z) }.
Arguments IO {D}. Arguments devs {D}. Arguments drv {D}. Arguments wire {D}.

Section Registry.
Context {D : Type}.

(** The registry is the chain from [g_head]: addresses in the order of the
    links.  Registering appends; a device already on the chain is not given
    again by any driver. *)
Definition net_register (head : list Z) (dev : Z) : list Z := head ++ [dev].
Fixpoint unlink (head : list Z) (dev : Z) : option (list Z) :=
  match head with
  | [] => None
  | d :: rest => if d =? dev then Some rest else match unlink rest dev with Some r => Some (d :: r) | None => None end
  end.
Definition net_unregister (head : list Z) (dev : Z) : list Z * Z :=
  if dev =? 0 then (head, -1) else match unlink head dev with Some r => (r, 0) | None => (head, -1) end.

Definition name_eqb (a b : list Z) : bool := bool_decide (a = b).
Definition net_find (w : io D) (head : list Z) (nm : list Z) : option Z :=
  find (fun d => name_eqb (name (devs w d)) nm) head.

Definition skipped (n : net_device) : bool := negb (Z.land (flags n) (Z.lor NETDEV_F_LOOPBACK NETDEV_F_SIMULATED) =? 0).

Fixpoint primary_loop (w : io D) (head : list Z) (fallback : option Z) : option Z :=
  match head with
  | [] => fallback
  | n :: rest =>
      if skipped (devs w n) then primary_loop w rest fallback
      else if negb (admin_down (devs w n)) then Some n
      else primary_loop w rest (match fallback with None => Some n | Some f => Some f end)
  end.
Definition net_primary (w : io D) (head : list Z) : option Z := primary_loop w head None.

Definition net_loopback (w : io D) (head : list Z) : option Z :=
  find (fun n => negb (Z.land (flags (devs w n)) NETDEV_F_LOOPBACK =? 0)) head.

Definition net_is_local_ip (w : io D) (head : list Z) (a : Z) : bool :=
  existsb (fun n => negb (ip (devs w n) =? 0) && (ip (devs w n) =? a)) head.

Definition on_subnet (n : net_device) (a : Z) : bool := Z.land a (netmask n) =? Z.land (ip n) (netmask n).

Fixpoint route_loop (w : io D) (head : list Z) (dst : Z) : option Z :=
  match head with
  | [] => None
  | n :: rest =>
      if skipped (devs w n) then route_loop w rest dst
      else if admin_down (devs w n) then route_loop w rest dst
      else if negb (netmask (devs w n) =? 0) && on_subnet (devs w n) dst then Some n
      else route_loop w rest dst
  end.
Definition net_route (w : io D) (head : list Z) (dst : Z) : option Z :=
  if Z.shiftr dst 24 =? 127 then net_loopback w head
  else match route_loop w head dst with Some n => Some n | None => net_primary w head end.
End Registry.

(** ** Sending *)
Section Send.
Context {D : Type} `{!NetDriver D}.

(** [eth_send_locked]; the frame is assembled in [g_txframe] and handed over. *)
Definition eth_send (w : io D) (dev : Z) (dst_mac : list Z) (ethertype : Z) (payload : list Z) : io D * Z :=
  if ETH_MTU <? Z.of_nat (length payload) then (w, -1)
  else if admin_down (devs w dev) then (w, -1)
  else
    let frame := eth_hdr dst_mac (mac (devs w dev)) ethertype ++ payload in
    let '(d, rc) := transmit (drv w) dev frame in
    (IO (devs w) d (if rc =? 0 then wire w ++ [(dev, frame)] else wire w), rc).

(** [ipv4_emit_locked] *)
Definition ipv4_emit (w : io D) (dev : Z) (via_mac : list Z) (src_ip dst_ip proto : Z) (payload : list Z) : io D * Z :=
  if ETH_MTU <? 20 + Z.of_nat (length payload) then (w, -1)
  else eth_send w dev via_mac ETHERTYPE_IPV4 (ipv4_pkt src_ip dst_ip proto payload).

Definition ARP_OP_REQUEST : Z := 1.
Definition ARP_OP_REPLY : Z := 2.

(** [arp_send_locked] *)
Definition arp_send (w : io D) (dev oper : Z) (target_mac : list Z) (target_ip : Z) : io D :=
  let a := arp_pkt oper (mac (devs w dev)) (ip (devs w dev)) target_mac target_ip in
  (eth_send w dev (if oper =? ARP_OP_REQUEST then BCAST_MAC else target_mac) ETHERTYPE_ARP a).1.

Lemma eth_send_devs w dev m t p : devs (eth_send w dev m t p).1 = devs w.
Proof. unfold eth_send. repeat case_match; done. Qed.
Lemma ipv4_emit_devs w dev m s d pr p : devs (ipv4_emit w dev m s d pr p).1 = devs w.
Proof. unfold ipv4_emit. case_match; [done|]. apply eth_send_devs. Qed.

(** The frame of [ipv4_emit] is on the wire exactly when it returns 0. *)
Lemma ipv4_emit_wire w dev m s d pr p w' rc : ipv4_emit w dev m s d pr p = (w', rc) ->
  devs w' = devs w /\
  wire w' = wire w ++ (if rc =? 0 then [(dev, eth_hdr m (mac (devs w dev)) ETHERTYPE_IPV4 ++ ipv4_pkt s d pr p)] else []).
Proof.
  assert ((w, -1) = (w', rc) -> devs w' = devs w /\ wire w' = wire w ++
    (if rc =? 0 then [(dev, eth_hdr m (mac (devs w dev)) ETHERTYPE_IPV4 ++ ipv4_pkt s d pr p)] else [])) as Hno.
  { intros [= <- <-]. by rewrite app_nil_r. }
  unfold ipv4_emit, eth_send. destruct (_ <? _); [exact Hno|]. destruct (_ <? _); [exact Hno|]. destruct (admin_down _); [exact Hno|].
  destruct (transmit _ _ _) as [x y]. intros [= <- <-]. cbn. destruct (y =? 0); by rewrite ?app_nil_r.
Qed.
End Send.

(** ** Routes *)
Section Routes.
Context {D : Type}.

Lemma find_some (f : Z -> bool) l d : find f l = Some d -> d ∈ l /\ f d = true.
Proof. intros H. apply List.find_some in H as [H1 H2]. split; [by apply list_elem_of_In|done]. Qed.

Lemma primary_spec (w : io D) l fb d : primary_loop w l fb = Some d ->
  (d ∈ l /\ skipped (devs w d) = false) \/ fb = Some d.
Proof.
  revert fb. induction l as [|n l IH]; intros fb; cbn [primary_loop]; [by right|].
  destruct (skipped (devs w n)) eqn:Es.
  - intros [[H1 H2]|H]%IH; [left; split; [by right|done]|by right].
  - destruct (negb _).
    + intros [= <-]. left. split; [by left|done].
    + intros [[H1 H2]|H]%IH; [left; split; [by right|done]|]. destruct fb; [by right|]. simplify_eq. left. split; [by left|done].
Qed.

Lemma primary_up (w : io D) l fb d d' : primary_loop w l fb = Some d -> d' ∈ l -> skipped (devs w d') = false ->
  admin_down (devs w d') = false -> admin_down (devs w d) = false.
Proof.
  revert fb. induction l as [|n l IH]; intros fb; cbn [primary_loop]; [by intros _ ?%elem_of_nil|].
  destruct (skipped (devs w n)) eqn:Es.
  - intros H [->|Hin]%elem_of_cons Hs; [congruence|]. by apply (IH fb).
  - destruct (admin_down (devs w n)) eqn:Ea; cbn [negb].
    + intros H [->|Hin]%elem_of_cons Hs Hd; [congruence|]. by eapply IH.
    + by intros [= <-].
Qed.

Lemma route_loop_spec (w : io D) l dst : 
  match route_loop w l dst with
  | Some d => d ∈ l /\ skipped (devs w d) = false /\ admin_down (devs w d) = false /\ on_subnet (devs w d) dst = true
  | None => forall d, d ∈ l -> skipped (devs w d) = false -> admin_down (devs w d) = false -> netmask (devs w d) <> 0 -> on_subnet (devs w d) dst = false
  end.
Proof.
  induction l as [|n l IH]; cbn [route_loop]; [by intros d ?%elem_of_nil|].
  destruct (skipped (devs w n)) eqn:Es; [|destruct (admin_down (devs w n)) eqn:Ea; [|destruct (negb _ && _) eqn:En]].
  - destruct (route_loop w l dst); [destruct IH as (?&?&?&?); repeat split; try done; by right|].
    intros d [->|?]%elem_of_cons; [congruence|by apply IH].
  - destruct (route_loop w l dst); [destruct IH as (?&?&?&?); repeat split; try done; by right|].
    intros d [->|?]%elem_of_cons; [congruence|by apply IH].
  - bool_props. repeat split; try done. by left.
  - destruct (route_loop w l dst); [destruct IH as (?&?&?&?); repeat split; try done; by right|].
    intros d [->|?]%elem_of_cons ? ? Hm; [|by apply IH]. apply andb_false_iff in En as [En|En]; [|done]. bool_props. done.
Qed.

(** What [net_route] promises.  Traffic for 127/8 leaves only through a
    loopback device, and nothing else does; a simulated adapter carries none;
    an adapter on the destination's subnet that is up is preferred, and a
    disabled one is returned only when no other adapter is usable. *)
Theorem net_route_correct (w : io D) head dst d : net_route w head dst = Some d ->
  d ∈ head /\
  (Z.shiftr dst 24 = 127 -> Z.land (flags (devs w d)) NETDEV_F_LOOPBACK <> 0) /\
  (Z.shiftr dst 24 <> 127 ->
     skipped (devs w d) = false /\
     (forall d', d' ∈ head -> skipped (devs w d') = false -> admin_down (devs w d') = false ->
        admin_down (devs w d) = false /\
        (netmask (devs w d') <> 0 -> on_subnet (devs w d') dst = true -> on_subnet (devs w d) dst = true))).
Proof.
  unfold net_route. destruct (Z.eqb_spec (Z.shiftr dst 24) 127) as [E|E].
  - intros [Hin Hf]%find_some. split; [done|]. split; [|done]. intros _. by bool_props.
  - pose proof (route_loop_spec w head dst) as R. destruct (route_loop w head dst) as [x|].
    + intros [= ->]. destruct R as (H1 & H2 & H3 & H4). split; [done|]. split; [done|]. intros _. split; [done|]. intros d' _ _ _. done.
    + intros H. destruct (primary_spec _ _ _ _ H) as [[H1 H2]|]; [|done]. split; [done|]. split; [done|]. intros _. split; [done|].
      intros d' Hd' Hs' Hu'. split; [by eapply primary_up|]. intros Hm Ho. by rewrite (R d' Hd' Hs' Hu' Hm) in Ho.
Qed.
End Routes.
End NetDev.
