(* ===== verification/Tcp.v ===== *)
(** * Network stack: a TCP connection (core/net.c)

    [struct tcp_conn] and what the code does with one connection: sending,
    retransmission, the pieces of [tcp_input] for a segment that belongs to it,
    and the user's calls.  The fields are grouped by what they serve.  Counters
    kept for netstat are left out.  The table and the demultiplexer are in
    [NetStack]. *)

From stdpp Require Import base list.
From Stdlib Require Import ZArith Lia.
From S2P Require Import Prelude Ring NetWire NetDev.
Open Scope Z_scope.

Module Tcp.
Import NetDev.

(** ** Sequence numbers and constants *)

Definition seq_lt (a b : Z) : bool := s32 (a - b) <? 0.
Definition seq_leq (a b : Z) : bool := s32 (a - b) <=? 0.
Definition seq_gt (a b : Z) : bool := 0 <? s32 (a - b).

Definition TCP_MAX_CONNS : Z := 32.
Definition TCP_RXBUF : Z := 8192.
Definition TCP_TXBUF : Z := 8192.
Definition TCP_ACCEPTQ : Z := 32.
Definition TCP_MSS_CAP : Z := 1460.
Definition TCP_RTO_INITIAL_MS : Z := 200.
Definition TCP_RTO_MAX_MS : Z := 3000.
Definition TCP_RETRIES_MAX : Z := 8.
Definition TCP_TIME_WAIT_MS : Z := 1000.
Definition TCP_ORPHAN_MS : Z := 10000.
Definition NET_EAGAIN : Z := -2.

Inductive tcp_state :=
  | CLOSED | LISTEN | SYN_SENT | SYN_RCVD | ESTABLISHED
  | FIN_WAIT_1 | FIN_WAIT_2 | CLOSE_WAIT | LAST_ACK | TIME_WAIT.
#[global] Instance tcp_state_eq : EqDecision tcp_state.
Proof. solve_decision. Defined.
Definition st_is (s t : tcp_state) : bool := bool_decide (s = t).

(** ** A connection *)

(** Who it is. *)
Record ident := Ident {
  dev : option Z; local_ip : Z; peer_ip : Z; local_port : Z; peer_port : Z; peer_mac : list Z }.

(** The send side: [tx i] is the byte at sequence [una + i]. *)
Record sndq := Snd {
  una : Z; nxt : Z; wnd : Z; tx : Z -> Z; tx_len : Z;
  fin_pending : bool; fin_sent : bool; fin_seq : Z }.

(** The receive side: a ring with running byte counters. *)
Record rcvq := Rcv { rcv_nxt : Z; rx : Z -> Z; rx_head : Z; rx_tail : Z; peer_fin : bool }.

Record timers := Tmr { rto_deadline : Z; rto_ms : Z; retries : Z; linger : Z }.

(** The listener's accept queue, and a child's listener (slots of the table). *)
Record lqueue := Lq { listener : bool; aq : Z -> Z; aq_head : Z; aq_tail : Z; backlog : Z; parent : option Z }.

Record conn := Conn {
  used : bool; state : tcp_state; orphan : bool; reset : bool;
  id : ident; sq : sndq; rq : rcvq; tm : timers; li : lqueue }.

Definition set_used (c : conn) (b : bool) : conn := Conn b (state c) (orphan c) (reset c) (id c) (sq c) (rq c) (tm c) (li c).
Definition set_state (c : conn) (s : tcp_state) : conn := Conn (used c) s (orphan c) (reset c) (id c) (sq c) (rq c) (tm c) (li c).
Definition set_orphan (c : conn) : conn := Conn (used c) (state c) true (reset c) (id c) (sq c) (rq c) (tm c) (li c).
Definition set_reset (c : conn) : conn := Conn (used c) (state c) (orphan c) true (id c) (sq c) (rq c) (tm c) (li c).
Definition set_sq (c : conn) (q : sndq) : conn := Conn (used c) (state c) (orphan c) (reset c) (id c) q (rq c) (tm c) (li c).
Definition set_rq (c : conn) (q : rcvq) : conn := Conn (used c) (state c) (orphan c) (reset c) (id c) (sq c) q (tm c) (li c).
Definition set_tm (c : conn) (t : timers) : conn := Conn (used c) (state c) (orphan c) (reset c) (id c) (sq c) (rq c) t (li c).
Definition set_li (c : conn) (l : lqueue) : conn := Conn (used c) (state c) (orphan c) (reset c) (id c) (sq c) (rq c) (tm c) l.

Definition set_nxt (q : sndq) (x : Z) : sndq := Snd (una q) x (wnd q) (tx q) (tx_len q) (fin_pending q) (fin_sent q) (fin_seq q).
Definition set_wnd (q : sndq) (x : Z) : sndq := Snd (una q) (nxt q) x (tx q) (tx_len q) (fin_pending q) (fin_sent q) (fin_seq q).
Definition set_tx (q : sndq) (b : Z -> Z) (n : Z) : sndq := Snd (una q) (nxt q) (wnd q) b n (fin_pending q) (fin_sent q) (fin_seq q).
Definition set_una (q : sndq) (x : Z) : sndq := Snd x (nxt q) (wnd q) (tx q) (tx_len q) (fin_pending q) (fin_sent q) (fin_seq q).
Definition want_fin (q : sndq) : sndq := Snd (una q) (nxt q) (wnd q) (tx q) (tx_len q) true (fin_sent q) (fin_seq q).
Definition fin_out (q : sndq) : sndq := Snd (una q) (u32 (nxt q + 1)) (wnd q) (tx q) (tx_len q) (fin_pending q) true (nxt q).
Definition fin_undone (q : sndq) : sndq := Snd (una q) (nxt q) (wnd q) (tx q) (tx_len q) (fin_pending q) false (fin_seq q).
Definition set_fin (r : rcvq) : rcvq := Rcv (rcv_nxt r) (rx r) (rx_head r) (rx_tail r) true.
Definition set_deadline (t : timers) (x : Z) : timers := Tmr x (rto_ms t) (retries t) (linger t).
Definition set_linger (t : timers) (x : Z) : timers := Tmr (rto_deadline t) (rto_ms t) (retries t) x.
Definition fresh_rto (t : timers) : timers := Tmr 0 0 0 (linger t).

(** [tcp_free_locked] *)
Definition tcp_free (c : conn) : conn := set_used (set_state c CLOSED) false.

(** The entry [tcp_alloc_locked] hands out: every field reset but the buffers. *)
Definition tcp_fresh (old : conn) : conn :=
  Conn true CLOSED false false (Ident None 0 0 0 0 [0; 0; 0; 0; 0; 0])
    (Snd 0 0 0 (tx (sq old)) 0 false false 0) (Rcv 0 (rx (rq old)) 0 0 false) (Tmr 0 0 0 0)
    (Lq false (aq (li old)) 0 0 0 None).

(** ** Output *)

Definition tcp_rx_avail (r : rcvq) : Z := u32 (rx_head r - rx_tail r).
Definition tcp_rx_free (r : rcvq) : Z := let used := tcp_rx_avail r in if TCP_RXBUF <=? used then 0 else TCP_RXBUF - used.

Section Output.
Context {D : Type} `{!NetDriver D}.
Notation io := (io D).

(** [tcp_emit_locked] *)
Definition tcp_emit (w : io) (c : conn) (seq flags : Z) (data : list Z) : io * Z :=
  match dev (id c) with
  | None => (w, -1)
  | Some d =>
      if ETH_MTU <? 20 + Z.of_nat (length data) then (w, -1)
      else
        let win := tcp_rx_free (rq c) in
        let win := if 65535 <? win then 65535 else win in
        let i := id c in
        ipv4_emit w d (peer_mac i) (local_ip i) (peer_ip i) IP_PROTO_TCP
          (tcp_seg (local_ip i) (peer_ip i) (local_port i) (peer_port i) seq (rcv_nxt (rq c)) flags win data)
  end.

(** The fields of a received header, in host order; [off] is the raw byte. *)
Record seg := Seg { s_sport : Z; s_dport : Z; s_seq : Z; s_ack : Z; s_off : Z; s_flags : Z; s_win : Z }.
Definition load_tcp (m : Z -> Z) (p : Z) : seg :=
  Seg (ntohs (ld16 m p)) (ntohs (ld16 m (p + 2))) (ntohl (ld32 m (p + 4))) (ntohl (ld32 m (p + 8)))
      (m (p + 12)) (m (p + 13)) (ntohs (ld16 m (p + 14))).

(** Where a segment came from: the device, the sender's MAC, and both addresses. *)
Record origin := Origin { o_dev : Z; o_mac : list Z; o_src : Z; o_dst : Z }.

(** [tcp_send_rst_locked] *)
Definition tcp_send_rst (w : io) (o : origin) (th : seg) (seglen : Z) : io :=
  if has (s_flags th) TCP_RST then w
  else
    let '(seq, ack, flags) :=
      if has (s_flags th) TCP_ACK then (s_ack th, 0, TCP_RST)
      else
        let hlen := Z.shiftr (s_off th) 4 * 4 in
        let dlen := if hlen <? seglen then seglen - hlen else 0 in
        let dlen := if has (s_flags th) TCP_SYN then u32 (dlen + 1) else dlen in
        (0, u32 (s_seq th + dlen), Z.lor TCP_RST TCP_ACK) in
    (ipv4_emit w (o_dev o) (o_mac o) (o_dst o) (o_src o) IP_PROTO_TCP
       (tcp_seg (o_dst o) (o_src o) (s_dport th) (s_sport th) seq ack flags 0 [])).1.

(** [tcp_arm_rto_locked] *)
Definition tcp_arm_rto (now : Z) (c : conn) : conn :=
  let t := tm c in
  let ms := if rto_ms t =? 0 then TCP_RTO_INITIAL_MS else rto_ms t in
  set_tm c (Tmr (u64 (now + ms * 1000000)) ms (retries t) (linger t)).

Definition mss_of (w : io) (d : Z) : Z := let mss := u32 (mtu (devs w d) - 20 - 20) in if TCP_MSS_CAP <? mss then TCP_MSS_CAP else mss.

(** The loop of [tcp_output_locked]; a round sends at least one byte. *)
Fixpoint out_loop (fuel : nat) (mss : Z) (w : io) (c : conn) : io * conn :=
  match fuel with
  | O => (w, c)
  | S f =>
      let q := sq c in
      let inflight := u32 (nxt q - una q) in
      if tx_len q <=? inflight then (w, c)
      else if wnd q <=? inflight then (w, c)
      else
        let n := tx_len q - inflight in
        let room := wnd q - inflight in
        let n := if room <? n then room else n in
        let n := if mss <? n then mss else n in
        let '(w, rc) := tcp_emit w c (nxt q) (Z.lor TCP_PSH TCP_ACK) (peek (tx q) inflight (Z.to_nat n)) in
        if rc =? 0 then out_loop f mss w (set_sq c (set_nxt q (u32 (nxt q + n)))) else (w, c)
  end.

Definition may_send (s : tcp_state) : bool := st_is s ESTABLISHED || st_is s CLOSE_WAIT || st_is s FIN_WAIT_1 || st_is s LAST_ACK.

(** The FIN goes out once every queued byte has been sent. *)
Definition out_fin (w : io) (c : conn) : io * conn :=
  let q := sq c in
  if fin_pending q && negb (fin_sent q) && (tx_len q <=? u32 (nxt q - una q)) then
    let '(w, rc) := tcp_emit w c (nxt q) (Z.lor TCP_FIN TCP_ACK) [] in
    if rc =? 0 then (w, set_sq c (fin_out q)) else (w, c)
  else (w, c).

(** [tcp_output_locked]; the clock is read once per call. *)
Definition tcp_output (now : Z) (w : io) (c : conn) : io * conn :=
  match dev (id c) with
  | None => (w, c)
  | Some d =>
      if negb (used c) || negb (may_send (state c)) then (w, c)
      else
        let '(w, c) := out_loop (S (Z.to_nat (tx_len (sq c)))) (mss_of w d) w c in
        let '(w, c) := out_fin w c in
        if negb (nxt (sq c) =? una (sq c)) && (rto_deadline (tm c) =? 0) then (w, tcp_arm_rto now c) else (w, c)
  end.

(** ** Input *)

(** [tcp_rx_store_locked]: as much of the payload as fits. *)
Definition tcp_rx_store (r : rcvq) (m : Z -> Z) (p len : Z) : rcvq * Z :=
  let room := tcp_rx_free r in
  let len := if room <? len then room else len in
  (Rcv (rcv_nxt r) (ring_put TCP_RXBUF (rx r) (rx_head r) (peek m p (Z.to_nat len))) (u32 (rx_head r + len)) (rx_tail r) (peer_fin r), len).

(** [for (i = 0; i + acked < tx_len; i++) tx[i] = tx[i + acked]] *)
Fixpoint compact (n : nat) (i acked : Z) (b : Z -> Z) : Z -> Z :=
  match n with O => b | S n' => compact n' (i + 1) acked (b⟦i ↦ b (i + acked)⟧) end.

(** The acknowledgement of a segment: pull [snd_nxt] up, drop what is
    acknowledged, send more; then take the window and send again. *)
Definition ack_pull (q : sndq) (ack : Z) : sndq :=
  if seq_gt ack (nxt q) && seq_leq ack (u32 (nxt q + 1)) then set_nxt q ack else q.

Definition ack_drop (q : sndq) (ack : Z) : sndq :=
  let acked := u32 (ack - una q) in
  let acked := if tx_len q <? acked then tx_len q else acked in
  set_una (set_tx q (compact (Z.to_nat (tx_len q - acked)) 0 acked (tx q)) (tx_len q - acked)) ack.

Definition ack_input (now : Z) (w : io) (c : conn) (ack win : Z) : io * conn :=
  let c := set_sq c (ack_pull (sq c) ack) in
  let '(w, c) :=
    if seq_gt ack (una (sq c)) && seq_leq ack (nxt (sq c)) then
      let c := set_tm (set_sq c (ack_drop (sq c) ack)) (fresh_rto (tm c)) in
      let c := if una (sq c) =? nxt (sq c) then c else tcp_arm_rto now c in
      tcp_output now w c
    else (w, c) in
  tcp_output now w (set_sq c (set_wnd (sq c) win)).

(** The last segment of the handshake: a child is handed to its listener, or
    refused when the listener's queue is [full].  The flag returned says that
    the child has been queued. *)
Definition est_input (full : bool) (w : io) (c : conn) (ack : Z) : io * conn * bool :=
  if st_is (state c) SYN_RCVD && seq_leq (nxt (sq c)) ack then
    let c := set_tm (set_state c ESTABLISHED) (set_deadline (tm c) 0) in
    match parent (li c) with
    | None => (w, c, false)
    | Some _ =>
        if full then ((tcp_emit w c (nxt (sq c)) TCP_RST []).1, tcp_free c, false)
        else (w, c, true)
    end
  else (w, c, false).

(** Our FIN acknowledged; [true] when the segment needs no more work. *)
Definition fin_acked (c : conn) (ack : Z) : conn * bool :=
  let c := if st_is (state c) FIN_WAIT_1 && fin_sent (sq c) && seq_gt ack (fin_seq (sq c)) then set_state c FIN_WAIT_2 else c in
  if st_is (state c) LAST_ACK && fin_sent (sq c) && seq_gt ack (fin_seq (sq c))
  then (set_tm (set_state c CLOSED) (set_deadline (tm c) 0), true) else (c, false).

Definition data_input (w : io) (c : conn) (m : Z -> Z) (p seq dlen : Z) : io * conn :=
  if dlen =? 0 then (w, c)
  else if seq =? rcv_nxt (rq c) then
    let '(r, took) := tcp_rx_store (rq c) m p dlen in
    let c := set_rq c (Rcv (u32 (rcv_nxt r + took)) (rx r) (rx_head r) (rx_tail r) (peer_fin r)) in
    ((tcp_emit w c (nxt (sq c)) TCP_ACK []).1, c)
  else ((tcp_emit w c (nxt (sq c)) TCP_ACK []).1, c).

Definition time_wait (now : Z) (c : conn) : conn :=
  set_tm (set_state c TIME_WAIT) (set_linger (tm c) (u64 (now + TCP_TIME_WAIT_MS * 1000000))).

Definition fin_input (now : Z) (w : io) (c : conn) (seq dlen : Z) : io * conn :=
  if u32 (seq + dlen) =? rcv_nxt (rq c) then
    let r := rq c in
    let c := set_rq c (Rcv (u32 (rcv_nxt r + 1)) (rx r) (rx_head r) (rx_tail r) true) in
    let w := (tcp_emit w c (nxt (sq c)) TCP_ACK []).1 in
    (w, match state c with
        | ESTABLISHED => set_state c CLOSE_WAIT
        | FIN_WAIT_1 | FIN_WAIT_2 => time_wait now c
        | _ => c
        end)
  else ((tcp_emit w c (nxt (sq c)) TCP_ACK []).1, c).

(** [tcp_input] from the point where the connection, not a listener, is known;
    [p] is where the payload starts. *)
Definition conn_input (now : Z) (full : bool) (w : io) (o : origin) (c : conn) (m : Z -> Z) (p : Z) (th : seg) (dlen len : Z)
  : io * conn * bool :=
  let fl := s_flags th in
  if has fl TCP_RST then
    (w, set_tm (set_state (set_reset (set_rq c (set_fin (rq c)))) CLOSED) (set_deadline (tm c) 0), false)
  else if st_is (state c) SYN_SENT then
    if has fl TCP_SYN && has fl TCP_ACK then
      if negb (s_ack th =? nxt (sq c)) then (tcp_send_rst w o th len, c, false)
      else
        let r := rq c in
        let c := set_rq c (Rcv (u32 (s_seq th + 1)) (rx r) (rx_head r) (rx_tail r) (peer_fin r)) in
        let c := set_sq c (set_wnd (set_una (sq c) (s_ack th)) (s_win th)) in
        let c := set_tm (set_state c ESTABLISHED) (fresh_rto (tm c)) in
        let w := (tcp_emit w c (nxt (sq c)) TCP_ACK []).1 in
        let '(w, c) := tcp_output now w c in (w, c, false)
    else (w, c, false)
  else
    let '(w, c, pushed, stop) :=
      if has fl TCP_ACK then
        let '(w, c) := ack_input now w c (s_ack th) (s_win th) in
        let '(w, c, pushed) := est_input full w c (s_ack th) in
        let '(c, stop) := fin_acked c (s_ack th) in (w, c, pushed, stop)
      else (w, c, false, false) in
    if (stop : bool) then (w, c, pushed)
    else
      let '(w, c) := data_input w c m p (s_seq th) dlen in
      let '(w, c) := if has fl TCP_FIN then fin_input now w c (s_seq th) dlen else (w, c) in
      (w, c, pushed).

(** ** The sweep: retransmission and reclaim, for one connection *)

Definition resend (w : io) (c : conn) : io * conn :=
  let q := sq c in
  let mss := match dev (id c) with Some d => u32 (mtu (devs w d) - 20 - 20) | None => TCP_MSS_CAP end in
  let mss := if TCP_MSS_CAP <? mss then TCP_MSS_CAP else mss in
  match state c with
  | SYN_SENT => ((tcp_emit w c (una q) TCP_SYN []).1, c)
  | SYN_RCVD => ((tcp_emit w c (una q) (Z.lor TCP_SYN TCP_ACK) []).1, c)
  | _ =>
      if negb (tx_len q =? 0) then
        let n := if tx_len q <? mss then tx_len q else mss in
        let n := if wnd q =? 0 then 1 else n in
        let w := (tcp_emit w c (una q) (Z.lor TCP_PSH TCP_ACK) (peek (tx q) 0 (Z.to_nat n))).1 in
        let q := if n <? u32 (nxt q - una q) then set_nxt q (u32 (una q + n)) else q in
        (w, set_sq c (fin_undone q))
      else if fin_sent q then ((tcp_emit w c (fin_seq q) (Z.lor TCP_FIN TCP_ACK) []).1, c)
      else (w, c)
  end.

(** [true] when the sweep goes on to reclaiming. *)
Definition sweep_rto (now : Z) (w : io) (c : conn) : io * conn * bool :=
  let t := tm c in
  if negb (rto_deadline t =? 0) && (rto_deadline t <=? now) then
    if TCP_RETRIES_MAX <? u32 (retries t + 1) then
      (w, set_tm (set_state (set_reset (set_rq c (set_fin (rq c)))) CLOSED) (Tmr 0 (rto_ms t) (u32 (retries t + 1)) (linger t)), false)
    else
      let '(w, c) := resend w c in
      let ms := if rto_ms t =? 0 then TCP_RTO_INITIAL_MS else u32 (rto_ms t * 2) in
      let ms := if TCP_RTO_MAX_MS <? ms then TCP_RTO_MAX_MS else ms in
      (w, set_tm c (Tmr (u64 (now + ms * 1000000)) ms (u32 (retries t + 1)) (linger t)), true)
  else (w, c, true).

Definition expired (now : Z) (c : conn) : bool := negb (linger (tm c) =? 0) && (linger (tm c) <=? now).
Definition sweep_reclaim (now : Z) (c : conn) : conn :=
  if st_is (state c) TIME_WAIT && expired now c && orphan c then tcp_free c
  else
    let c := if st_is (state c) TIME_WAIT && expired now c then set_state c CLOSED else c in
    if orphan c then
      if st_is (state c) CLOSED then tcp_free c
      else if expired now c then tcp_free c else c
    else c.

(** One turn of the loop of [tcp_sweep_locked]. *)
Definition sweep_one (now : Z) (w : io) (c : conn) : io * conn :=
  if negb (used c) || listener (li c) then (w, c)
  else
    let '(w, c, go) := sweep_rto now w c in
    (w, if (go : bool) then sweep_reclaim now c else c).

(** ** The user's calls on a connection, one definition per critical section *)

(** [net_tcp_send]: the first section (the room, or an error), and the second. *)
Definition send_check (c : conn) : option Z :=
  if reset c || st_is (state c) CLOSED then None
  else if st_is (state c) FIN_WAIT_1 || st_is (state c) FIN_WAIT_2 || st_is (state c) LAST_ACK || fin_pending (sq c) then None
  else Some (TCP_TXBUF - tx_len (sq c)).

Definition send_commit (now : Z) (w : io) (c : conn) (data : list Z) : io * conn * Z :=
  if reset c || st_is (state c) CLOSED then (w, c, -1)
  else
    let q := sq c in
    let room := TCP_TXBUF - tx_len q in
    let n := if Z.of_nat (length data) <? room then Z.of_nat (length data) else room in
    let '(w, c) := tcp_output now w (set_sq c (set_tx q (poke (tx q) (tx_len q) (take (Z.to_nat n) data)) (tx_len q + n))) in
    (w, c, n).

(** The section of [net_tcp_recv] that copies; the result and the return value. *)
Definition recv_take (w : io) (c : conn) (len : Z) : io * conn * list Z * Z :=
  let r := rq c in
  let avail := tcp_rx_avail r in
  let n := if avail <? len then avail else len in
  let out := ring_get TCP_RXBUF (rx r) (rx_tail r) (Z.to_nat n) in
  let c := set_rq c (Rcv (rcv_nxt r) (rx r) (rx_head r) (u32 (rx_tail r + n)) (peer_fin r)) in
  let w := if negb (n =? 0) && (st_is (state c) ESTABLISHED || st_is (state c) CLOSE_WAIT)
           then (tcp_emit w c (nxt (sq c)) TCP_ACK []).1 else w in
  (w, c, out, if negb (n =? 0) then n else if reset c then -1 else if peer_fin r then 0 else NET_EAGAIN).

(** [net_tcp_shutdown], and the first section of [net_tcp_close]. *)
Definition shutdown_conn (now : Z) (w : io) (c : conn) : io * conn :=
  if st_is (state c) ESTABLISHED || st_is (state c) CLOSE_WAIT then
    tcp_output now w (set_sq (set_state c (if st_is (state c) CLOSE_WAIT then LAST_ACK else FIN_WAIT_1)) (want_fin (sq c)))
  else (w, c).

(** The last section of [net_tcp_close]. *)
Definition close_end (now : Z) (c : conn) : conn :=
  if st_is (state c) CLOSED || reset c then tcp_free c
  else set_tm (set_orphan c) (set_linger (tm c) (u64 (now + TCP_ORPHAN_MS * 1000000))).

(** [net_tcp_state]: readable, writable, peer_fin, reset, connected. *)
Definition net_tcp_state (c : conn) : bool * bool * bool * bool * bool :=
  if negb (used c) then (false, false, true, true, false)
  else
    let open := st_is (state c) ESTABLISHED || st_is (state c) CLOSE_WAIT in
    (0 <? tcp_rx_avail (rq c), open && (tx_len (sq c) <? TCP_TXBUF), peer_fin (rq c), reset c, open).

(** ** What the calls wait for, and the readers of a connection *)

Definition tcp_estab_cond (c : conn) : bool := st_is (state c) ESTABLISHED || st_is (state c) CLOSED || reset c.
Definition tcp_readable_cond (c : conn) : bool := (0 <? tcp_rx_avail (rq c)) || peer_fin (rq c) || reset c.
Definition tcp_writable_cond (c : conn) : bool := (tx_len (sq c) <? TCP_TXBUF) || reset c || st_is (state c) CLOSED.
Definition tcp_drained_cond (c : conn) : bool := (tx_len (sq c) =? 0) || reset c || st_is (state c) CLOSED.
Definition tcp_accept_cond (c : conn) : bool := negb (aq_head (li c) =? aq_tail (li c)) || negb (used c).

Definition net_tcp_pending (c : conn) : Z :=
  if negb (listener (li c)) || negb (used c) then 0 else (aq_head (li c) + TCP_ACCEPTQ - aq_tail (li c)) mod TCP_ACCEPTQ.
Definition net_tcp_peer (c : conn) : Z * Z := if negb (used c) then (0, 0) else (peer_ip (id c), peer_port (id c)).
Definition net_tcp_local (c : conn) : Z * Z := if negb (used c) then (0, 0) else (local_ip (id c), local_port (id c)).

(** The loop of [tcp_output_locked] ends, and within the fuel given: when a
    segment may carry a byte at all, a round sends at least one of the
    [tx_len - inflight] bytes that are not in flight. *)
Lemma out_loop_enough mss (w : io) c f g : 1 <= mss -> 0 <= tx_len (sq c) < 4294967296 ->
  tx_len (sq c) - u32 (nxt (sq c) - una (sq c)) < Z.of_nat f -> (f <= g)%nat ->
  out_loop g mss w c = out_loop f mss w c.
Proof.
  intros Hm. revert w c g. induction f as [|f IH]; intros w c g Ht Hf Hg; cbn [out_loop].
  - destruct g as [|g]; [done|]. cbn [out_loop]. destruct (Z.leb_spec (tx_len (sq c)) (u32 (nxt (sq c) - una (sq c)))); [done|lia].
  - destruct g as [|g]; [lia|]. cbn [out_loop]. pose proof (u32_range (nxt (sq c) - una (sq c))) as Hu.
    destruct (Z.leb_spec (tx_len (sq c)) (u32 (nxt (sq c) - una (sq c)))) as [|H1]; [done|].
    destruct (Z.leb_spec (wnd (sq c)) (u32 (nxt (sq c) - una (sq c)))) as [|H2]; [done|]. cbv zeta.
    set (n := if mss <? _ then _ else _).
    assert (1 <= n <= tx_len (sq c) - u32 (nxt (sq c) - una (sq c))) as Hn.
    { unfold n. destruct (Z.ltb_spec (wnd (sq c) - u32 (nxt (sq c) - una (sq c))) (tx_len (sq c) - u32 (nxt (sq c) - una (sq c))));
        match goal with |- context [mss <? ?b] => destruct (Z.ltb_spec mss b) end; lia. }
    clearbody n. destruct (tcp_emit _ _ _ _ _) as [w1 rc]. destruct (rc =? 0); [|done]. apply IH; cbn [sq set_sq set_nxt tx_len nxt una]; [done| |lia].
    replace (u32 (u32 (nxt (sq c) + n) - una (sq c))) with (u32 (nxt (sq c) - una (sq c)) + n); [lia|].
    rewrite <- (u32_small (u32 (nxt (sq c) - una (sq c)) + n)) by lia. unfold u32. rewrite Zplus_mod_idemp_l, Zminus_mod_idemp_l. f_equal. lia.
Qed.

(** A call whose wait has ended has something to answer: a reader is not told
    to try again, and a writer's bytes are taken, in part at least, or refused. *)
Lemma readable_answers (w : io) c len : tcp_readable_cond c = true -> 0 < len -> 0 <= tcp_rx_avail (rq c) ->
  (recv_take w c len).2 <> NET_EAGAIN.
Proof.
  unfold tcp_readable_cond, recv_take, NET_EAGAIN. intros H Hl Ha. cbv zeta. cbn [snd].
  set (n := if _ <? _ then _ else _). assert (n = 0 <-> tcp_rx_avail (rq c) = 0) as Hn.
  { unfold n. destruct (Z.ltb_spec (tcp_rx_avail (rq c)) len); lia. }
  assert (0 <= n) by (unfold n; destruct (Z.ltb_spec (tcp_rx_avail (rq c)) len); lia).
  destruct (Z.eqb_spec n 0) as [E|E]; cbn [negb]; cbv iota; [|lia]. apply Hn in E. rewrite E in H. cbn in H.
  cbn [reset set_rq]. destruct (reset c); [done|]. rewrite orb_false_r in H. by rewrite H.
Qed.

Lemma writable_answers now (w : io) c data : tcp_writable_cond c = true -> data <> [] ->
  (send_commit now w c data).2 = -1 \/ 0 < (send_commit now w c data).2.
Proof.
  unfold tcp_writable_cond, send_commit. intros H Hd. destruct (reset c || st_is (state c) CLOSED) eqn:E; [by left|]. right.
  apply orb_false_iff in E as [E1 E2]. rewrite E1, E2, !orb_false_r in H. apply Z.ltb_lt in H. cbv zeta.
  destruct data as [|x l]; [done|]. destruct (tcp_output _ _ _) as [w' c']. cbn [snd]. destruct (Z.ltb_spec (Z.of_nat (length (x :: l))) (TCP_TXBUF - tx_len (sq c))); [cbn [length]|]; lia.
Qed.
End Output.
End Tcp.
