(* ===== verification/NetStack.v ===== *)
(** * Network stack: the state, received frames, and the TCP table (core/net.c)

    Everything below runs under the stack lock, which serialises it: a frame is
    handled, or a section of a call executed, in one step.  A received frame is
    memory [m] with a length, as in [NetWire].  Where a call waits, it is split
    at the wait. *)

From stdpp Require Import base list.
From Stdlib Require Import ZArith Lia.
From S2P Require Import Prelude Ring NetWire NetDev Tcp.
Open Scope Z_scope.

Module NetStack.
Import NetDev Tcp.

(** ** The state *)

Definition ARP_CACHE_SIZE : nat := 8.
Record arp_entry := Arp { a_ip : Z; a_mac : list Z; a_valid : bool }.

(** The reply an outstanding ping waits for. *)
Record ping_state := Ping { p_active : bool; p_id : Z; p_got_seq : Z; p_replied : bool }.

(** A UDP binding calls back the resolver or a user of the stack, named by its context. *)
Inductive udp_fn := DnsRecv | User (ctx : Z).
Record udp_binding := Bind { b_port : Z; b_fn : udp_fn; b_used : bool }.
Record delivery := Deliver { d_ctx : Z; d_src : Z; d_sport : Z; d_data : list Z }.

Record dns_result := Dns { dn_done : bool; dn_ok : bool; dn_ip : Z; dn_id : Z }.

Record net (D : Type) := Net {
  nio : io D; reg : list Z; arp : list arp_entry; ping : ping_state;
  udp : list udp_binding; inbox : list delivery; dns : dns_result;
  conns : Z -> conn; ephem : Z; isn : Z; rx_frames : Z }.
Arguments Net {D}. Arguments nio {D}. Arguments reg {D}. Arguments arp {D}. Arguments ping {D}. Arguments udp {D}.
Arguments inbox {D}. Arguments dns {D}. Arguments conns {D}. Arguments ephem {D}. Arguments isn {D}. Arguments rx_frames {D}.

Section Stack.
Context {D : Type} `{!NetDriver D}.
Notation net := (net D).

Definition set_io (n : net) (w : io D) : net := Net w (reg n) (arp n) (ping n) (udp n) (inbox n) (dns n) (conns n) (ephem n) (isn n) (rx_frames n).
Definition set_arp (n : net) (a : list arp_entry) : net := Net (nio n) (reg n) a (ping n) (udp n) (inbox n) (dns n) (conns n) (ephem n) (isn n) (rx_frames n).
Definition set_ping (n : net) (p : ping_state) : net := Net (nio n) (reg n) (arp n) p (udp n) (inbox n) (dns n) (conns n) (ephem n) (isn n) (rx_frames n).
Definition set_udp (n : net) (u : list udp_binding) : net := Net (nio n) (reg n) (arp n) (ping n) u (inbox n) (dns n) (conns n) (ephem n) (isn n) (rx_frames n).
Definition set_inbox (n : net) (l : list delivery) : net := Net (nio n) (reg n) (arp n) (ping n) (udp n) l (dns n) (conns n) (ephem n) (isn n) (rx_frames n).
Definition set_dns (n : net) (d : dns_result) : net := Net (nio n) (reg n) (arp n) (ping n) (udp n) (inbox n) d (conns n) (ephem n) (isn n) (rx_frames n).
Definition set_conns (n : net) (t : Z -> conn) : net := Net (nio n) (reg n) (arp n) (ping n) (udp n) (inbox n) (dns n) t (ephem n) (isn n) (rx_frames n).
Definition set_ports (n : net) (e i : Z) : net := Net (nio n) (reg n) (arp n) (ping n) (udp n) (inbox n) (dns n) (conns n) e i (rx_frames n).
Definition put_conn (n : net) (i : Z) (c : conn) : net := set_conns n ((conns n)⟦i ↦ c⟧).

(** ** ARP *)

Fixpoint arp_replace (t : list arp_entry) (a : Z) (m : list Z) : option (list arp_entry) :=
  match t with
  | [] => None
  | e :: r => if a_valid e && (a_ip e =? a) then Some (Arp (a_ip e) m true :: r)
              else match arp_replace r a m with Some r' => Some (e :: r') | None => None end
  end.
Fixpoint arp_fill (t : list arp_entry) (a : Z) (m : list Z) : option (list arp_entry) :=
  match t with
  | [] => None
  | e :: r => if negb (a_valid e) then Some (Arp a m true :: r)
              else match arp_fill r a m with Some r' => Some (e :: r') | None => None end
  end.
Definition arp_cache_put (t : list arp_entry) (a : Z) (m : list Z) : list arp_entry :=
  match arp_replace t a m with
  | Some t' => t'
  | None =>
      match arp_fill t a m with
      | Some t' => t'
      | None => match t with [] => [] | _ :: r => Arp a m true :: r end
      end
  end.
Definition arp_cache_get (t : list arp_entry) (a : Z) : option (list Z) :=
  match find (fun e => a_valid e && (a_ip e =? a)) t with Some e => Some (a_mac e) | None => None end.

Definition arp_input (n : net) (d : Z) (m : Z -> Z) (p len : Z) : net :=
  if len <? 28 then n
  else if negb (ntohs (ld16 m (p + 2)) =? ETHERTYPE_IPV4) || negb (m (p + 5) =? 4) then n
  else
    let sha := peek m (p + 8) 6 in
    let spa := octets_to_ip (m (p + 14)) (m (p + 15)) (m (p + 16)) (m (p + 17)) in
    let tpa := octets_to_ip (m (p + 24)) (m (p + 25)) (m (p + 26)) (m (p + 27)) in
    let n := set_arp n (arp_cache_put (arp n) spa sha) in
    if (ntohs (ld16 m (p + 6)) =? ARP_OP_REQUEST) && (tpa =? ip (devs (nio n) d))
    then set_io n (arp_send (nio n) d ARP_OP_REPLY sha spa) else n.

(** [route_mac]: the MAC at once on a loopback, else the address to resolve. *)
Definition next_hop (n : net) (d dst : Z) : list Z + Z :=
  let dv := devs (nio n) d in
  if negb (Z.land (flags dv) NETDEV_F_LOOPBACK =? 0) then inl (mac dv)
  else inr (if on_subnet dv dst then dst else gateway dv).

(** A pass of [net_arp_resolve]: the cache, or one more request before the wait. *)
Definition arp_pass (n : net) (d a : Z) : net * option (list Z) :=
  match arp_cache_get (arp n) a with
  | Some m => (n, Some m)
  | None => (set_io n (arp_send (nio n) d ARP_OP_REQUEST BCAST_MAC a), None)
  end.

(** ** ICMP *)

Definition icmp_input (n : net) (d : Z) (src_mac : list Z) (src_ip : Z) (m : Z -> Z) (p len : Z) : net :=
  if len <? 8 then n
  else if m p =? 8 then
    if ETH_MTU <? len then n
    else
      let body := peek m (p + 4) (Z.to_nat (len - 4)) in
      let reply c := [0; m (p + 1)] ++ le16 c ++ body in
      set_io n (ipv4_emit (nio n) d src_mac (ip (devs (nio n) d)) src_ip IP_PROTO_ICMP (reply (net_checksum (reply 0)))).1
  else if m p =? 0 then
    let g := ping n in
    if p_active g && (ntohs (ld16 m (p + 4)) =? p_id g)
    then set_ping n (Ping (p_active g) (p_id g) (ntohs (ld16 m (p + 6))) true) else n
  else n.

(** The echo request of [net_ping], and the sections around its wait. *)
Definition ping_msg (seq : Z) : list Z :=
  let msg c := [8; 0] ++ le16 c ++ le16 (htons 4660) ++ le16 (htons (u16 seq)) ++ [97; 98; 99; 100; 101; 102; 103; 104] in
  msg (net_checksum (msg 0)).
Definition ping_arm (n : net) : net := set_ping n (Ping true 4660 (p_got_seq (ping n)) false).
Definition ping_cond (n : net) (seq : Z) : bool := p_replied (ping n) && (p_got_seq (ping n) =? u16 seq).
Definition ping_disarm (n : net) : net := let g := ping n in set_ping n (Ping false (p_id g) (p_got_seq g) (p_replied g)).

(** ** DNS *)

(** [dns_encode_name]: [out] grows, the length of a label is written back. *)
Fixpoint enc_loop (host out : list Z) (label_start : nat) (lp : Z) : list Z :=
  match host with
  | [] => <[label_start := u8 lp]> out ++ [0]
  | c :: r => if c =? 46 then enc_loop r (<[label_start := u8 lp]> out ++ [0]) (length out) 0
              else enc_loop r (out ++ [u8 c]) label_start (lp + 1)
  end.
Definition dns_encode_name (host : list Z) : list Z := enc_loop host [0] 0%nat 0.

(** The query of [net_dns_query], which it assembles in an array of 512 bytes. *)
Definition dns_query (host : list Z) : list Z :=
  [13; 5; 1; 0; 0; 1; 0; 0; 0; 0; 0; 0] ++ dns_encode_name host ++ [0; 1; 0; 1].

(** [dns_skip_name]: a label advances by at least one byte. *)
Fixpoint skip_loop (fuel : nat) (m : Z -> Z) (base off total p : Z) : Z :=
  match fuel with
  | O => p - off
  | S f =>
      if p <? total then
        let b := m (base + p) in
        if Z.land b 192 =? 192 then p + 2 - off
        else if b =? 0 then p + 1 - off
        else skip_loop f m base off total (p + 1 + b)
      else p - off
  end.
Definition dns_skip_name (m : Z -> Z) (base off total : Z) : Z := skip_loop (Z.to_nat (total - off)) m base off total off.

Definition word_at (m : Z -> Z) (p : Z) : Z := Z.lor (Z.shiftl (m p) 8) (m (p + 1)).

Fixpoint dns_answers (count : nat) (m : Z -> Z) (base off len : Z) : option Z :=
  match count with
  | O => None
  | S k =>
      if off + 10 <=? len then
        let off := off + dns_skip_name m base off len in
        if len <? off + 10 then None
        else
          let type := word_at m (base + off) in
          let rdlen := word_at m (base + off + 8) in
          let off := off + 10 in
          if (type =? 1) && (rdlen =? 4) && (off + 4 <=? len)
          then Some (octets_to_ip (m (base + off)) (m (base + off + 1)) (m (base + off + 2)) (m (base + off + 3)))
          else dns_answers k m base (off + rdlen) len
      else None
  end.

Definition dns_recv (r : dns_result) (m : Z -> Z) (base len : Z) : dns_result :=
  if len <? 12 then r
  else if negb (word_at m base =? dn_id r) then r
  else
    let off := 12 + dns_skip_name m base 12 len + 4 in
    match dns_answers (Z.to_nat (word_at m (base + 6))) m base off len with
    | Some a => Dns true true a (dn_id r)
    | None => Dns true (dn_ok r) (dn_ip r) (dn_id r)
    end.

(** ** UDP *)

Fixpoint udp_rebind (t : list udp_binding) (port : Z) (f : udp_fn) : option (list udp_binding) :=
  match t with
  | [] => None
  | b :: r => if b_used b && (b_port b =? port) then Some (Bind port f true :: r)
              else match udp_rebind r port f with Some r' => Some (b :: r') | None => None end
  end.
Fixpoint udp_newbind (t : list udp_binding) (port : Z) (f : udp_fn) : option (list udp_binding) :=
  match t with
  | [] => None
  | b :: r => if negb (b_used b) then Some (Bind port f true :: r)
              else match udp_newbind r port f with Some r' => Some (b :: r') | None => None end
  end.
Definition net_udp_unbind (n : net) (port : Z) : net :=
  set_udp n (map (fun b => if b_used b && (b_port b =? port) then Bind (b_port b) (b_fn b) false else b) (udp n)).
Definition net_udp_bind (n : net) (port : Z) (fn : option udp_fn) : net * Z :=
  match fn with
  | None => (net_udp_unbind n port, 0)
  | Some f =>
      match udp_rebind (udp n) port f with
      | Some t => (set_udp n t, 0)
      | None => match udp_newbind (udp n) port f with Some t => (set_udp n t, 0) | None => (n, -1) end
      end
  end.

(** The section of [net_udp_send] after the next hop is resolved. *)
Definition udp_send (n : net) (d : Z) (via : list Z) (dst sport dport : Z) (payload : list Z) : net * Z :=
  let total := 8 + Z.of_nat (length payload) in
  if ETH_MTU <? total then (n, -1)
  else
    let '(w, rc) := ipv4_emit (nio n) d via (ip (devs (nio n) d)) dst IP_PROTO_UDP (udp_hdr sport dport total ++ payload) in
    (set_io n w, rc).
Definition net_udp_broadcast (n : net) (d src sport dport : Z) (payload : list Z) : net * Z :=
  let total := 8 + Z.of_nat (length payload) in
  if (d =? 0) || (ETH_MTU <? total) then (n, -1)
  else
    let '(w, rc) := ipv4_emit (nio n) d BCAST_MAC src 4294967295 IP_PROTO_UDP (udp_hdr sport dport total ++ payload) in
    (set_io n w, rc).

Definition udp_input (n : net) (src_ip : Z) (m : Z -> Z) (p len : Z) : net :=
  if len <? 8 then n
  else
    let dport := ntohs (ld16 m (p + 2)) in
    let sport := ntohs (ld16 m p) in
    let ulen := ntohs (ld16 m (p + 4)) in
    if (ulen <? 8) || (len <? ulen) then n
    else
      match find (fun b => b_used b && (b_port b =? dport)) (udp n) with
      | None => n
      | Some b =>
          match b_fn b with
          | DnsRecv => set_dns n (dns_recv (dns n) m (p + 8) (ulen - 8))
          | User ctx => set_inbox n (inbox n ++ [Deliver ctx src_ip sport (peek m (p + 8) (Z.to_nat (ulen - 8)))])
          end
      end.

(** ** The TCP table *)

Definition slots : list Z := seqZ 0 TCP_MAX_CONNS.
Definition tcp_alloc (n : net) : option Z := find (fun i => negb (used (conns n i))) slots.
Definition tcp_port_taken (n : net) (port : Z) : bool :=
  existsb (fun i => used (conns n i) && (local_port (id (conns n i)) =? port)) slots.

(** [tcp_ephem_port_locked]: at most 0x4000 tries, 0 when every port is taken. *)
Fixpoint ephem_loop (tries : nat) (n : net) (e : Z) : Z * Z :=
  match tries with
  | O => (e, 0)
  | S t => let p := u16 (49152 + Z.land e 16383) in
           if tcp_port_taken n p then ephem_loop t n (u32 (e + 1)) else (u32 (e + 1), p)
  end.
Definition tcp_ephem_port (n : net) : Z * Z := ephem_loop (Z.to_nat 16384) n (ephem n).

Definition tcp_match (c : conn) (lip lport pip pport : Z) : bool :=
  used c && negb (listener (li c)) && (local_port (id c) =? lport) && (peer_port (id c) =? pport)
  && (peer_ip (id c) =? pip) && ((local_ip (id c) =? lip) || (local_ip (id c) =? 0)).
Definition tcp_listens (c : conn) (lip lport : Z) : bool :=
  used c && listener (li c) && st_is (state c) LISTEN && (local_port (id c) =? lport)
  && ((local_ip (id c) =? 0) || (local_ip (id c) =? lip)).
Definition tcp_lookup (n : net) (lip lport pip pport : Z) : option Z :=
  match find (fun i => tcp_match (conns n i) lip lport pip pport) slots with
  | Some i => Some i
  | None => find (fun i => tcp_listens (conns n i) lip lport) slots
  end.

(** [tcp_accept_enqueue_locked]: the test and the push. *)
Definition accept_full (l : lqueue) : bool :=
  let nx := u8 ((aq_head l + 1) mod TCP_ACCEPTQ) in
  let depth := u8 ((aq_head l + TCP_ACCEPTQ - aq_tail l) mod TCP_ACCEPTQ) in
  (nx =? aq_tail l) || (backlog l <=? depth).
Definition accept_push (l : lqueue) (i : Z) : lqueue :=
  Lq (listener l) ((aq l)⟦aq_head l ↦ i⟧) (u8 ((aq_head l + 1) mod TCP_ACCEPTQ)) (aq_tail l) (backlog l) (parent l).

(** A SYN for a listener: the child in slot [j]. *)
Definition tcp_child (now : Z) (n : net) (i j : Z) (o : origin) (th : seg) : net :=
  let isn' := u32 (isn n + 65536) in
  let c := tcp_fresh (conns n j) in
  let c := Conn true SYN_RCVD false false
             (Ident (Some (o_dev o)) (o_dst o) (o_src o) (s_dport th) (s_sport th) (o_mac o))
             (Snd isn' isn' (s_win th) (tx (sq c)) 0 false false 0)
             (Rcv (u32 (s_seq th + 1)) (rx (rq c)) 0 0 false) (Tmr 0 0 0 0) (Lq false (aq (li c)) 0 0 0 (Some i)) in
  let w := (tcp_emit (nio n) c isn' (Z.lor TCP_SYN TCP_ACK) []).1 in
  let c := tcp_arm_rto now (set_sq c (set_nxt (sq c) (u32 (isn' + 1)))) in
  put_conn (set_ports (set_io n w) (ephem n) isn') j c.

Definition tcp_input (now : Z) (n : net) (o : origin) (m : Z -> Z) (p len : Z) : net :=
  if len <? 20 then n
  else
    let th := load_tcp m p in
    let hlen := Z.shiftr (s_off th) 4 * 4 in
    if (hlen <? 20) || (len <? hlen) then n
    else
      match tcp_lookup n (o_dst o) (s_dport th) (o_src o) (s_sport th) with
      | None => set_io n (tcp_send_rst (nio n) o th len)
      | Some i =>
          let c := conns n i in
          if listener (li c) then
            if has (s_flags th) TCP_RST then n
            else if negb (has (s_flags th) TCP_SYN) then set_io n (tcp_send_rst (nio n) o th len)
            else match tcp_alloc n with
                 | None => set_io n (tcp_send_rst (nio n) o th len)
                 | Some j => tcp_child now n i j o th
                 end
          else
            let full := match parent (li c) with Some l => accept_full (li (conns n l)) | None => false end in
            let '(w, c', pushed) := conn_input now full (nio n) o c m (p + hlen) th (len - hlen) len in
            let n := put_conn (set_io n w) i c' in
            match parent (li c) with
            | Some l => if (pushed : bool) then put_conn n l (set_li (conns n l) (accept_push (li (conns n l)) i)) else n
            | None => n
            end
      end.

(** ** IPv4 and Ethernet *)

Definition ipv4_input (now : Z) (n : net) (d : Z) (src_mac : list Z) (m : Z -> Z) (p len : Z) : net :=
  if len <? 20 then n
  else if negb (Z.shiftr (m p) 4 =? 4) then n
  else
    let ihl := Z.land (m p) 15 * 4 in
    if (ihl <? 20) || (len <? ihl) then n
    else
      let dst := ntohl (ld32 m (p + 16)) in
      let dip := ip (devs (nio n) d) in
      if negb (dip =? 0) && negb (dst =? dip) && negb (dst =? 4294967295) then n
      else
        let src := ntohl (ld32 m (p + 12)) in
        let total := ntohs (ld16 m (p + 2)) in
        if len <? total then n
        else
          let l4 := p + ihl in
          let l4len := u32 (total - ihl) in
          let proto := m (p + 9) in
          if proto =? IP_PROTO_ICMP then icmp_input n d src_mac src m l4 l4len
          else if proto =? IP_PROTO_UDP then udp_input n src m l4 l4len
          else if proto =? IP_PROTO_TCP then tcp_input now n (Origin d src_mac src dst) m l4 l4len
          else n.

Definition set_stats (n : net) (d : Z) (f : net_device -> net_device) : net :=
  let w := nio n in set_io n (IO ((devs w)⟦d ↦ f (devs w d)⟧) (drv w) (wire w)).
Definition drop_frame (v : net_device) : net_device :=
  Dev (name v) (flags v) (mac v) (ip v) (netmask v) (gateway v) (mtu v) (admin_down v) (rx_packets v) (rx_bytes v) (u32 (rx_dropped v + 1)).
Definition count_frame (len : Z) (v : net_device) : net_device :=
  Dev (name v) (flags v) (mac v) (ip v) (netmask v) (gateway v) (mtu v) (admin_down v) (u32 (rx_packets v + 1)) (u32 (rx_bytes v + len)) (rx_dropped v).

Definition net_rx (now : Z) (n : net) (d : Z) (m : Z -> Z) (len : Z) : net :=
  let v := devs (nio n) d in
  if len <? ETH_HLEN then set_stats n d drop_frame
  else if admin_down v then set_stats n d drop_frame
  else
    let dst := peek m 0 6 in
    if negb (bool_decide (dst = mac v)) && negb (bool_decide (dst = BCAST_MAC)) then n
    else
      let n := set_stats n d (count_frame len) in
      let n := Net (nio n) (reg n) (arp n) (ping n) (udp n) (inbox n) (dns n) (conns n) (ephem n) (isn n) (u32 (rx_frames n + 1)) in
      let ty := ntohs (ld16 m 12) in
      if ty =? ETHERTYPE_ARP then arp_input n d m ETH_HLEN (len - ETH_HLEN)
      else if ty =? ETHERTYPE_IPV4 then ipv4_input now n d (peek m 6 6) m ETH_HLEN (len - ETH_HLEN)
      else n.

(** ** The calls on the table *)

(** [net_tcp_connect] up to its wait, once the route is known, and after it. *)
Definition connect_open (now : Z) (n : net) (d : Z) (via : list Z) (dst port : Z) : net * option Z :=
  match tcp_alloc n with
  | None => (n, None)
  | Some i =>
      let c := tcp_fresh (conns n i) in
      let n := put_conn n i c in
      let '(e, lport) := tcp_ephem_port n in
      let isn' := u32 (isn n + 65536) in
      let c := Conn true SYN_SENT false false (Ident (Some d) (ip (devs (nio n) d)) dst lport port via)
                 (Snd isn' isn' 1460 (tx (sq c)) 0 false false 0) (rq c) (tm c) (li c) in
      let w := (tcp_emit (nio n) c isn' TCP_SYN []).1 in
      let c := tcp_arm_rto now (set_sq c (set_nxt (sq c) (u32 (isn' + 1)))) in
      (put_conn (set_ports (set_io n w) e isn') i c, Some i)
  end.
Definition connect_end (n : net) (i : Z) : net * option Z :=
  if st_is (state (conns n i)) ESTABLISHED then (n, Some i) else (put_conn n i (tcp_free (conns n i)), None).

Definition net_tcp_listen (n : net) (lip port bl : Z) : net * option Z :=
  if tcp_port_taken n port then (n, None)
  else match tcp_alloc n with
       | None => (n, None)
       | Some i =>
           let c := tcp_fresh (conns n i) in
           let bl := u8 (if (bl <=? 0) || (TCP_ACCEPTQ - 1 <? bl) then TCP_ACCEPTQ - 1 else bl) in
           (put_conn n i (Conn true LISTEN false false (Ident None lip 0 port 0 [0; 0; 0; 0; 0; 0]) (sq c) (rq c) (tm c)
                            (Lq true (aq (li c)) 0 0 bl None)), Some i)
       end.

(** The section of [net_tcp_accept] after its wait. *)
Definition accept_take (n : net) (l : Z) : net * option Z :=
  let c := conns n l in
  if used c && negb (aq_head (li c) =? aq_tail (li c)) then
    let q := li c in
    let i := aq q (aq_tail q) in
    let n := put_conn n l (set_li c (Lq (listener q) (aq q) (aq_head q) (u8 ((aq_tail q + 1) mod TCP_ACCEPTQ)) (backlog q) (parent q))) in
    let k := conns n i in
    (put_conn n i (set_li k (Lq (listener (li k)) (aq (li k)) (aq_head (li k)) (aq_tail (li k)) (backlog (li k)) None)), Some i)
  else (n, None).

Definition on_conn (n : net) (i : Z) (f : io D -> conn -> io D * conn) : net :=
  let '(w, c) := f (nio n) (conns n i) in put_conn (set_io n w) i c.

(** [net_tcp_close] on a listener: refuse what nobody accepted, then free it. *)
Fixpoint close_queue (fuel : nat) (n : net) (l : Z) : net :=
  match fuel with
  | O => n
  | S f =>
      let q := li (conns n l) in
      if aq_head q =? aq_tail q then n
      else
        let i := aq q (aq_tail q) in
        let n := put_conn n l (set_li (conns n l) (Lq (listener q) (aq q) (aq_head q) (u8 ((aq_tail q + 1) mod TCP_ACCEPTQ)) (backlog q) (parent q))) in
        let n := if used (conns n i)
                 then on_conn n i (fun w p => ((tcp_emit w p (nxt (sq p)) TCP_RST []).1, tcp_free p)) else n in
        close_queue f n l
  end.
Definition close_listener (n : net) (l : Z) : net :=
  let n := close_queue (Z.to_nat TCP_ACCEPTQ) n l in put_conn n l (tcp_free (conns n l)).

(** [tcp_sweep_locked]: every slot in turn. *)
Definition tcp_sweep (now : Z) (n : net) : net :=
  fold_left (fun n i => on_conn n i (sweep_one now)) slots n.
End Stack.
End NetStack.
