(* ===== verification/NetSpec.v ===== *)
(** * Network stack: what the receive path may touch, and the ARP cache

    A frame is handled by looking at its own bytes only, as long as the IPv4
    total length covers the header; without that the code reads on behind the
    frame. *)

From stdpp Require Import base list.
From Stdlib Require Import ZArith Lia.
From S2P Require Import Prelude Ring NetWire NetDev Tcp NetStack.
Open Scope Z_scope.

Module NetSpec.
Import NetDev Tcp NetStack.

(** ** Reading inside the frame *)

Definition same (m m' : Z -> Z) (len : Z) : Prop := forall i, 0 <= i < len -> m i = m' i.
Definition bytes (m : Z -> Z) : Prop := forall i, byte (m i).

Lemma same_peek m m' len p k : same m m' len -> 0 <= p -> p + Z.of_nat k <= len -> peek m p k = peek m' p k.
Proof.
  intros H. revert p. induction k as [|k IH]; intros p Hp Hk; cbn [peek]; [done|]. f_equal; [apply H; lia|apply IH; lia].
Qed.
Lemma same_ld16 m m' len p : same m m' len -> 0 <= p -> p + 2 <= len -> ld16 m p = ld16 m' p.
Proof. intros H ? ?. unfold ld16. rewrite !H by lia. done. Qed.
Lemma same_ld32 m m' len p : same m m' len -> 0 <= p -> p + 4 <= len -> ld32 m p = ld32 m' p.
Proof. intros H ? ?. unfold ld32. rewrite !H by lia. done. Qed.
Lemma same_word m m' len p : same m m' len -> 0 <= p -> p + 2 <= len -> word_at m p = word_at m' p.
Proof. intros H ? ?. unfold word_at. rewrite !H by lia. done. Qed.
Lemma same_load m m' len p : same m m' len -> 0 <= p -> p + 20 <= len -> load_tcp m p = load_tcp m' p.
Proof.
  intros H ? ?. unfold load_tcp. rewrite !(same_ld16 m m' len), !(same_ld32 m m' len) by (done || lia).
  rewrite !H by lia. done.
Qed.

Section Confined.
Context {D : Type} `{!NetDriver D} (m m' : Z -> Z) (len : Z) (Hs : same m m' len) (Hb : bytes m).

Lemma arp_confined (n : net D) d p l : 0 <= p -> p + l <= len -> arp_input n d m p l = arp_input n d m' p l.
Proof.
  intros Hp Hl. unfold arp_input. destruct (Z.ltb_spec l 28); [done|].
  rewrite !(same_ld16 m m' len) by (done || lia). rewrite !(same_peek m m' len) by (done || lia). rewrite !(Hs _) by lia. done.
Qed.

Lemma icmp_confined (n : net D) d sm si p l : 0 <= p -> p + l <= len ->
  icmp_input n d sm si m p l = icmp_input n d sm si m' p l.
Proof.
  intros Hp Hl. unfold icmp_input. destruct (Z.ltb_spec l 8); [done|].
  rewrite !(same_ld16 m m' len) by (done || lia). rewrite !(Hs _) by lia. case_match; [|done]. case_match; [done|].
  rewrite !(same_peek m m' len) by (done || lia). done.
Qed.

Lemma skip_range f base off total p : 0 <= p - off -> p - off <= skip_loop f m base off total p.
Proof.
  revert p. induction f as [|f IH]; intros p Hp; cbn [skip_loop]; [lia|].
  destruct (p <? total); [|lia]. cbv zeta. do 2 (case_match; [lia|]). pose proof (Hb (base + p)). unfold byte in *.
  etransitivity; [|apply IH]; lia.
Qed.

Lemma skip_confined f base off total p : 0 <= base -> 0 <= p -> base + total <= len ->
  skip_loop f m base off total p = skip_loop f m' base off total p.
Proof.
  intros H0. revert p. induction f as [|f IH]; intros p Hp Hl; cbn [skip_loop]; [done|].
  destruct (Z.ltb_spec p total); [|done]. rewrite <- (Hs (base + p)) by lia. cbv zeta.
  do 2 (case_match; [done|]). pose proof (Hb (base + p)). unfold byte in *. apply IH; lia.
Qed.

Lemma word_range p : 0 <= word_at m p < 65536.
Proof.
  pose proof (Hb p) as H1. pose proof (Hb (p + 1)) as H2. unfold word_at. rewrite lor_word by done. unfold byte in *. lia.
Qed.

Lemma answers_confined k base off l : 0 <= base -> 0 <= off -> base + l <= len ->
  dns_answers k m base off l = dns_answers k m' base off l.
Proof.
  intros H0. revert off. induction k as [|k IH]; intros off Ho Hl; cbn [dns_answers]; [done|].
  destruct (Z.leb_spec (off + 10) l); [|done]. unfold dns_skip_name. rewrite <- (skip_confined _ base off l off) by (done || lia).
  pose proof (skip_range (Z.to_nat (l - off)) base off l off ltac:(lia)) as Hk. cbv zeta.
  set (off' := off + skip_loop _ _ _ _ _ _). assert (off <= off') by lia. destruct (Z.ltb_spec l (off' + 10)); [done|].
  rewrite <- !(same_word m m' len) by (done || lia). pose proof (word_range (base + off' + 8)).
  destruct (_ && _ && _) eqn:E.
  - bool_props. rewrite !(Hs _) by lia. done.
  - apply IH; [lia|done].
Qed.

Lemma dns_confined r base l : 0 <= base -> base + l <= len -> dns_recv r m base l = dns_recv r m' base l.
Proof.
  intros H0 Hl. unfold dns_recv. destruct (Z.ltb_spec l 12); [done|]. rewrite <- !(same_word m m' len) by (done || lia).
  case_match; [done|]. unfold dns_skip_name. rewrite <- (skip_confined _ base 12 l 12) by (done || lia).
  pose proof (skip_range (Z.to_nat (l - 12)) base 12 l 12 ltac:(lia)). rewrite answers_confined by (done || lia). done.
Qed.

Lemma udp_confined (n : net D) si p l : 0 <= p -> p + l <= len -> udp_input n si m p l = udp_input n si m' p l.
Proof.
  intros Hp Hl. unfold udp_input. destruct (Z.ltb_spec l 8); [done|].
  rewrite <- !(same_ld16 m m' len) by (done || lia). cbv zeta. destruct (_ || _) eqn:E; [done|]. bool_props.
  case_match; [|done]. case_match.
  - rewrite dns_confined by lia. done.
  - rewrite (same_peek m m' len) by (done || lia). done.
Qed.

Lemma free_range r : tcp_rx_free r <= 8192.
Proof. unfold tcp_rx_free, tcp_rx_avail, TCP_RXBUF. cbv zeta. pose proof (u32_range (rx_head r - rx_tail r)). case_match; lia. Qed.

Lemma data_confined (w : io D) c p seq dlen : 0 <= p -> 0 <= dlen -> p + dlen <= len ->
  data_input w c m p seq dlen = data_input w c m' p seq dlen.
Proof.
  intros Hp H0 Hl. unfold data_input, tcp_rx_store. case_match; [done|]. case_match; [|done].
  destruct (Z.ltb_spec (tcp_rx_free (rq c)) dlen); rewrite (same_peek m m' len); (done || lia).
Qed.

Lemma conn_confined now full (w : io D) o c p th dlen l : 0 <= p -> 0 <= dlen -> p + dlen <= len ->
  conn_input now full w o c m p th dlen l = conn_input now full w o c m' p th dlen l.
Proof.
  intros Hp H0 Hl. unfold conn_input. do 2 (case_match; [done|]). destruct (if has _ TCP_ACK then _ else _) as [[[w1 c1] pu] stop].
  destruct stop; [done|]. rewrite data_confined by done. done.
Qed.

Lemma tcp_confined now (n : net D) o p l : 0 <= p -> p + l <= len -> tcp_input now n o m p l = tcp_input now n o m' p l.
Proof.
  intros Hp Hl. unfold tcp_input. destruct (Z.ltb_spec l 20); [done|]. rewrite <- (same_load m m' len) by (done || lia).
  cbv zeta. destruct (_ || _) eqn:E; [done|]. bool_props. case_match; [|done]. case_match; [done|].
  rewrite conn_confined by lia. done.
Qed.

(** The total length of an IPv4 header covers the header. *)
Definition total_ok (p : Z) : Prop := Z.land (m p) 15 * 4 <= ntohs (ld16 m (p + 2)).

Lemma ipv4_confined now (n : net D) d sm p l : 0 <= p -> p + l <= len -> total_ok p ->
  ipv4_input now n d sm m p l = ipv4_input now n d sm m' p l.
Proof.
  intros Hp Hl Ht. unfold total_ok in Ht. unfold ipv4_input. destruct (Z.ltb_spec l 20); [done|].
  rewrite <- !(same_ld16 m m' len), <- !(same_ld32 m m' len) by (done || lia). rewrite <- !(Hs _) by lia.
  case_match; [done|]. cbv zeta. destruct (_ || _) eqn:E; [done|]. bool_props. case_match; [done|].
  destruct (Z.ltb_spec l (ntohs (ld16 m (p + 2)))); [done|]. pose proof (htons_range (ld16 m (p + 2))) as Hr. unfold ntohs in *.
  rewrite u32_small by lia. case_match; [apply icmp_confined; lia|]. case_match; [apply udp_confined; lia|].
  case_match; [apply tcp_confined; lia|done].
Qed.
End Confined.

(** C11: the receive path is confined to the frame.  For every frame that is
    not IPv4, or whose IPv4 total length is at least its header length, what
    [net_rx] does (replies, ARP entries, datagrams, the resolver's answer, TCP
    data) is the same whatever the memory behind the frame holds. *)
Theorem net_rx_confined {D : Type} `{!NetDriver D} now (n : net D) d m m' len :
  same m m' len -> bytes m -> (34 <= len -> ntohs (ld16 m 12) = ETHERTYPE_IPV4 -> total_ok m ETH_HLEN) ->
  net_rx now n d m len = net_rx now n d m' len.
Proof.
  intros Hs Hb Ht. unfold net_rx, ETH_HLEN in *. destruct (Z.ltb_spec len 14); [done|]. case_match; [done|].
  rewrite <- (same_peek m m' len 0 6) by (done || lia). case_match; [done|]. cbv zeta.
  rewrite <- (same_peek m m' len 6 6), <- (same_ld16 m m' len) by (done || lia). case_match; [apply (arp_confined _ _ len); (done || lia)|].
  destruct (Z.eqb_spec (ntohs (ld16 m 12)) ETHERTYPE_IPV4) as [E|]; [|done]. destruct (Z.leb_spec 34 len).
  - apply (ipv4_confined _ _ len); (done || lia || by apply Ht).
  - unfold ipv4_input. destruct (Z.ltb_spec (len - 14) 20); [done|lia].
Qed.

(** ** The ARP cache is a finite map that forgets slot 0 when it is full *)

Definition arp_ok (t : list arp_entry) : Prop := forall i j x y, t !! i = Some x -> t !! j = Some y ->
  a_valid x = true -> a_valid y = true -> a_ip x = a_ip y -> i = j.

Definition hits (a : Z) (e : arp_entry) : bool := a_valid e && (a_ip e =? a).

Lemma hits_spec a e : hits a e = true <-> a_valid e = true /\ a_ip e = a.
Proof. unfold hits. rewrite andb_true_iff, Z.eqb_eq. done. Qed.

Lemma get_at t a i e : arp_ok t -> t !! i = Some e -> hits a e = true -> arp_cache_get t a = Some (a_mac e).
Proof.
  intros Hok Hi [Hv <-]%hits_spec. unfold arp_cache_get. fold (hits (a_ip e)). destruct (find _ _) as [x|] eqn:E.
  - apply List.find_some in E as [Hx [Hxv Hxa]%hits_spec]. apply list_elem_of_In, list_elem_of_lookup in Hx as [j Hj].
    assert (j = i) as -> by (eapply Hok; eauto). by simplify_eq.
  - apply list_elem_of_lookup_2, list_elem_of_In in Hi. pose proof (List.find_none _ _ E _ Hi) as Hn.
    assert (hits (a_ip e) e = true) as Ht by (by apply hits_spec). change (hits (a_ip e) e = false) in Hn. congruence.
Qed.

Lemma get_none t a : (forall i e, t !! i = Some e -> hits a e = false) -> arp_cache_get t a = None.
Proof.
  intros H. unfold arp_cache_get. destruct (find _ _) as [x|] eqn:E; [|done].
  apply List.find_some in E as [Hx Hh]. apply list_elem_of_In, list_elem_of_lookup in Hx as [j Hj]. change (hits a x = true) in Hh. by rewrite (H j x Hj) in Hh.
Qed.

Lemma replace_spec t a m :
  match arp_replace t a m with
  | Some t' => exists i e, t !! i = Some e /\ hits a e = true /\ t' = <[i := Arp a m true]> t
  | None => forall i e, t !! i = Some e -> hits a e = false
  end.
Proof.
  induction t as [|e t IH]; cbn [arp_replace]; [done|]. fold (hits a e). destruct (hits a e) eqn:E.
  - exists 0%nat, e. split; [done|]. split; [done|]. apply hits_spec in E as [_ ->]. done.
  - destruct (arp_replace t a m) as [t'|].
    + destruct IH as (i & x & H1 & H2 & ->). by exists (S i), x.
    + intros [|i] x Hx; [cbn in Hx; congruence|]. by apply (IH i).
Qed.
Lemma fill_spec t a m :
  match arp_fill t a m with
  | Some t' => exists i e, t !! i = Some e /\ a_valid e = false /\ t' = <[i := Arp a m true]> t
  | None => forall i e, t !! i = Some e -> a_valid e = true
  end.
Proof.
  induction t as [|e t IH]; cbn [arp_fill]; [done|]. destruct (a_valid e) eqn:E; cbn [negb].
  - destruct (arp_fill t a m) as [t'|].
    + destruct IH as (i & x & H1 & H2 & ->). by exists (S i), x.
    + intros [|i] x Hx; [cbn in Hx; congruence|]. by apply (IH i).
  - by exists 0%nat, e.
Qed.

(** Writing an entry for [a] into slot [i], where no other slot has [a]. *)
Lemma arp_write t a m i old : arp_ok t -> t !! i = Some old -> (forall j e, t !! j = Some e -> hits a e = true -> j = i) ->
  let t' := <[i := Arp a m true]> t in
  arp_ok t' /\ arp_cache_get t' a = Some m /\
  (forall b, b <> a -> hits b old = false -> arp_cache_get t' b = arp_cache_get t b) /\
  (forall b, b <> a -> hits b old = true -> arp_cache_get t' b = None).
Proof.
  intros Hok Hi Ha t'. assert (t' !! i = Some (Arp a m true)) as Hi'.
  { subst t'. apply list_lookup_insert_eq. by eapply lookup_lt_Some. }
  assert (forall j, j <> i -> t' !! j = t !! j) as Ho by (intros j Hj; subst t'; by rewrite list_lookup_insert_ne by done).
  assert (arp_ok t') as Hok'.
  { intros j k x y Hj Hk Hx Hy E. destruct (decide (j = i)) as [->|Nj], (decide (k = i)) as [->|Nk]; [done| | |].
    - rewrite Hi' in Hj. rewrite Ho in Hk by done. simplify_eq. cbn in E. symmetry. apply (Ha k y Hk). by apply hits_spec.
    - rewrite Hi' in Hk. rewrite Ho in Hj by done. simplify_eq. cbn in E. apply (Ha j x Hj). by apply hits_spec.
    - rewrite Ho in Hj, Hk by done. eauto. }
  split; [done|]. split; [by rewrite (get_at t' a i (Arp a m true) Hok' Hi') by (by apply hits_spec)|].
  assert (forall b, b <> a -> (forall j e, t !! j = Some e -> hits b e = true -> j <> i -> arp_cache_get t' b = Some (a_mac e))) as Hkeep.
  { intros b Hb j e Hj Hh Hne. apply (get_at t' b j); [done| |done]. by rewrite Ho. }
  split; intros b Hb Hold.
  - destruct (arp_cache_get t b) as [mm|] eqn:E.
    + unfold arp_cache_get in E. destruct (find _ _) as [e|] eqn:F; [|done]. apply List.find_some in F as [Hx Hh].
      apply list_elem_of_In, list_elem_of_lookup in Hx as [j Hj]. simplify_eq. apply (Hkeep b Hb j e Hj Hh).
      intros ->. rewrite Hi in Hj. simplify_eq. change (hits b e = true) in Hh. congruence.
    + apply get_none. intros j e Hj. destruct (decide (j = i)) as [->|Nj].
      * rewrite Hi' in Hj. simplify_eq. unfold hits. cbn. apply Z.eqb_neq. done.
      * rewrite Ho in Hj by done. destruct (hits b e) eqn:Eh; [|done]. by rewrite (get_at t b j e Hok Hj Eh) in E.
  - apply get_none. intros j e Hj. destruct (decide (j = i)) as [->|Nj].
    + rewrite Hi' in Hj. simplify_eq. unfold hits. cbn. by apply Z.eqb_neq.
    + rewrite Ho in Hj by done. destruct (hits b e) eqn:Eh; [|done]. exfalso. apply Nj.
      apply hits_spec in Eh as [E1 E2], Hold as [E3 E4]. eapply (Hok j i e old); congruence.
Qed.

(** Learning an address: whatever was cached before, the new pair is
    found, no address ever has two entries, and every other address keeps its
    answer, except the one in slot 0 when the cache was full. *)
Theorem arp_cache_correct t a m : arp_ok t -> t <> [] ->
  let t' := arp_cache_put t a m in
  arp_ok t' /\ arp_cache_get t' a = Some m /\
  forall b, b <> a -> arp_cache_get t' b = arp_cache_get t b \/
    (arp_cache_get t' b = None /\ (forall i e, t !! i = Some e -> a_valid e = true) /\ exists e, t !! 0%nat = Some e /\ a_ip e = b).
Proof.
  intros Hok Hne t'. subst t'. unfold arp_cache_put. pose proof (replace_spec t a m) as R. destruct (arp_replace t a m) as [t1|].
  - destruct R as (i & e & Hi & Hh & ->). destruct (arp_write t a m i e Hok Hi) as (H1 & H2 & H3 & _).
    { intros j x Hj Hx. apply hits_spec in Hx as [? ?], Hh as [? ?]. eapply (Hok j i x e); congruence. }
    split; [done|]. split; [done|]. intros b Hb. left. apply H3; [done|]. apply hits_spec in Hh as [_ Ha].
    unfold hits. rewrite Ha. apply andb_false_iff. right. apply Z.eqb_neq. done.
  - assert (forall j e, t !! j = Some e -> hits a e = true -> False) as Hno.
    { intros j e Hj Hh. by rewrite (R j e Hj) in Hh. }
    pose proof (fill_spec t a m) as F. destruct (arp_fill t a m) as [t1|].
    + destruct F as (i & e & Hi & Hv & ->). destruct (arp_write t a m i e Hok Hi) as (H1 & H2 & H3 & _); [naive_solver|].
      split; [done|]. split; [done|]. intros b Hb. left. apply H3; [done|]. unfold hits. by rewrite Hv.
    + destruct t as [|e t]; [done|]. destruct (arp_write (e :: t) a m 0%nat e Hok eq_refl) as (H1 & H2 & H3 & H4); [naive_solver|].
      split; [done|]. split; [done|]. intros b Hb. destruct (hits b e) eqn:Eh; [|left; by apply H3].
      right. split; [by apply H4|]. split; [done|]. exists e. split; [done|]. by apply hits_spec in Eh as [_ ?].
Qed.
End NetSpec.
