(* ===== verification/TcpFrame.v ===== *)
(** * Network stack: a TCP segment from one machine to another

    What [tcp_emit] puts on the wire, and what the receiver of that frame
    reads: the layers of sending and receiving are inverse. *)

From stdpp Require Import base list.
From Stdlib Require Import ZArith Lia.
From S2P Require Import Prelude Ring NetWire NetDev Tcp NetStack.
Open Scope Z_scope.

Module TcpFrame.
Import NetDev Tcp NetStack.

(** ** A segment and its frame *)

Record pseg := PSeg { ps_seq : Z; ps_ack : Z; ps_flags : Z; ps_win : Z; ps_data : list Z }.

Record ident_ok (i : ident) : Prop := IdentOk {
  io_lip : 0 <= local_ip i < 4294967296; io_pip : 0 <= peer_ip i < 4294967296;
  io_lp : 0 <= local_port i < 65536; io_pp : 0 <= peer_port i < 65536; io_mac : length (peer_mac i) = 6%nat }.

Definition frame (i : ident) (smac : list Z) (x : pseg) : list Z :=
  eth_hdr (peer_mac i) smac ETHERTYPE_IPV4 ++
  ipv4_pkt (local_ip i) (peer_ip i) IP_PROTO_TCP
    (tcp_seg (local_ip i) (peer_ip i) (local_port i) (peer_port i) (ps_seq x) (ps_ack x) (ps_flags x) (ps_win x) (ps_data x)).

Record pseg_ok (x : pseg) : Prop := PsegOk {
  po_seq : 0 <= ps_seq x < 4294967296; po_ack : 0 <= ps_ack x < 4294967296; po_flags : byte (ps_flags x);
  po_win : 0 <= ps_win x < 65536; po_len : Z.of_nat (length (ps_data x)) <= 1460 }.

(** The memory of the receiver holds the frame. *)
Definition holds (m : Z -> Z) (f : list Z) : Prop := peek m 0 (length f) = f.

Lemma tcp_seg_length a b c d e f g h data : length (tcp_seg a b c d e f g h data) = (20 + length data)%nat.
Proof. unfold tcp_seg. rewrite length_app. done. Qed.
Lemma frame_length i smac x : length (peer_mac i) = 6%nat -> length smac = 6%nat -> length (frame i smac x) = (54 + length (ps_data x))%nat.
Proof.
  intros H1 H2. unfold frame, eth_hdr, ipv4_pkt. cbv zeta. rewrite !length_app, H1, H2.
  change (length (ipv4_hdr _ _ _ _ _)) with 20%nat. rewrite tcp_seg_length. change (length (le16 _)) with 2%nat. lia.
Qed.

Section Parts.
Context (i : ident) (smac : list Z) (x : pseg) (m : Z -> Z)
  (Hi : ident_ok i) (Hm : length smac = 6%nat) (Hx : pseg_ok x) (Hh : holds m (frame i smac x)).

Let seg_ : list Z := tcp_seg (local_ip i) (peer_ip i) (local_port i) (peer_port i) (ps_seq x) (ps_ack x) (ps_flags x) (ps_win x) (ps_data x).
Let total : Z := 20 + Z.of_nat (length seg_).

Lemma eth_part : peek m 0 6 = peer_mac i /\ peek m 6 6 = smac /\ peek m 12 2 = be16 ETHERTYPE_IPV4.
Proof.
  unfold holds, frame in Hh. apply peek_split in Hh as [H _]. unfold eth_hdr in H.
  apply peek_split in H as [H1 H]. rewrite (io_mac i Hi) in *. apply peek_split in H as [H2 H3]. rewrite Hm in *. done.
Qed.

Lemma ip_part : exists c, peek m 14 (length (ipv4_pre total IP_PROTO_TCP)) = ipv4_pre total IP_PROTO_TCP /\ peek m 24 2 = le16 c /\
  peek m 26 4 = be32 (local_ip i) /\ peek m 30 4 = be32 (peer_ip i) /\ peek m 34 (length seg_) = seg_.
Proof.
  unfold holds, frame in Hh. apply peek_split in Hh as [_ H]. unfold eth_hdr in H. rewrite !length_app, (io_mac i Hi), Hm in H.
  unfold ipv4_pkt in H. cbv zeta in H. apply peek_split in H as [H1 H2]. fold seg_ in H1, H2. fold total in H1, H2.
  rewrite ipv4_hdr_split in H1 by apply Hi. eexists. apply peek_split in H1 as [Ha H1]. apply peek_split in H1 as [Hb H1].
  apply peek_split in H1 as [Hc Hd]. split; [exact Ha|]. split; [exact Hb|]. split; [exact Hc|]. split; [exact Hd|exact H2].
Qed.

Lemma tcp_part : exists c, let pre := tcp_pre (local_port i) (peer_port i) (ps_seq x) (ps_ack x) (ps_flags x) (ps_win x) in
  peek m 34 (length pre) = pre /\
  peek m 50 2 = le16 c /\ peek m 54 (length (ps_data x)) = ps_data x.
Proof.
  destruct ip_part as (_ & _ & _ & _ & _ & H). subst seg_. unfold tcp_seg in H. apply peek_split in H as [H1 H2].
  rewrite tcp_hdr_split in H1 by (apply Hi || apply Hx). eexists. apply peek_split in H1 as [Ha H1]. apply peek_split in H1 as [Hb _].
  split; [exact Ha|]. split; [exact Hb|exact H2].
Qed.

(** The header the receiver reads. *)
Lemma load_frame : load_tcp m 34 = Seg (local_port i) (peer_port i) (ps_seq x) (ps_ack x) 80 (ps_flags x) (ps_win x) /\
  peek m 54 (length (ps_data x)) = ps_data x.
Proof.
  destruct tcp_part as (c & H & _ & Hd). split; [|exact Hd]. cbv zeta in H. unfold tcp_pre in H.
  apply (peek_split m 34 (be16 (local_port i))) in H as [H1 H]. apply (peek_split m _ (be16 (peer_port i))) in H as [H2 H].
  apply (peek_split m _ (be32 (ps_seq x))) in H as [H3 H]. apply (peek_split m _ (be32 (ps_ack x))) in H as [H4 H].
  apply (peek_split m _ [80; ps_flags x]) in H as [H5 H6]. unfold load_tcp. f_equal.
  - apply ld16_be; [apply Hi|exact H1].
  - apply ld16_be; [apply Hi|exact H2].
  - apply ld32_be; [apply Hx|exact H3].
  - apply ld32_be; [apply Hx|exact H4].
  - cbn in H5. by injection H5.
  - cbn in H5. by injection H5.
  - apply ld16_be; [apply Hx|exact H6].
Qed.

Lemma ip_total : ntohs (ld16 m 16) = total /\ m 14 = 69 /\ m 23 = IP_PROTO_TCP /\
  ntohl (ld32 m 26) = local_ip i /\ ntohl (ld32 m 30) = peer_ip i.
Proof.
  destruct ip_part as (c & H & _ & Hs & Hd & _). assert (Z.of_nat (length seg_) <= 1480) as Hl.
  { subst seg_. rewrite tcp_seg_length. pose proof (po_len x Hx). lia. }
  unfold ipv4_pre in H. apply (peek_split m 14 [69; 0]) in H as [H1 H]. apply (peek_split m _ (be16 _)) in H as [H2 H].
  apply (peek_split m _ (be16 0 ++ be16 16384)) in H as [_ H].
  assert (0 <= u16 total < 65536) by apply u16_range. assert (u16 total = total) as Et by (apply u16_small; subst total; lia).
  split; [by rewrite (ld16_be m 16 (u16 total)) by done|]. cbn in H1, H. split; [by injection H1|]. split; [by injection H|].
  split; apply ld32_be; (done || apply Hi).
Qed.
End Parts.

End TcpFrame.
