(* ===== verification/TcpSpec.v ===== *)
(** * Network stack: the two halves of a connection

    The send side against the list of bytes the user has given it, the receive
    side against the bytes the peer has been given, and what a frame on the
    wire may say.  Positions are counted from the connection's initial
    sequence number: 0 is the SYN, byte [k] of the stream is [1 + k], and the
    FIN follows the last byte. *)

From stdpp Require Import base list.
From Stdlib Require Import ZArith Lia.
From S2P Require Import Prelude Ring NetWire NetDev Tcp TcpFrame.
Open Scope Z_scope.

Module TcpSpec.
Import NetDev Tcp TcpFrame.

(** ** Sequence numbers *)

(** Streams are kept below 2 GiB, half of the sequence space. *)
Definition LIM : Z := 2147483632.

Lemma u32_add iss a k : u32 (u32 (iss + a) + k) = u32 (iss + (a + k)).
Proof. unfold u32. rewrite Zplus_mod_idemp_l. f_equal. lia. Qed.
Lemma u32_sub iss a b : 0 <= a - b < 4294967296 -> u32 (u32 (iss + a) - u32 (iss + b)) = a - b.
Proof. intros H. unfold u32. rewrite <- Zminus_mod. replace (iss + a - (iss + b)) with (a - b) by lia. by apply Z.mod_small. Qed.
Lemma s32_sub iss a b : -2147483648 <= a - b < 2147483648 -> s32 (u32 (iss + a) - u32 (iss + b)) = a - b.
Proof.
  intros H. unfold s32. cbv zeta. unfold u32. rewrite <- Zminus_mod. replace (iss + a - (iss + b)) with (a - b) by lia.
  destruct (Z.leb_spec 0 (a - b)).
  - rewrite Z.mod_small by lia. destruct (Z.ltb_spec (a - b) 2147483648); lia.
  - replace (a - b) with (a - b + 4294967296 + (-1) * 4294967296) by lia. rewrite Z_mod_plus_full, Z.mod_small by lia.
    case_match eqn:E; bool_props; lia.
Qed.
Lemma u32_inj iss a b : -4294967296 < a - b < 4294967296 -> u32 (iss + a) = u32 (iss + b) -> a = b.
Proof.
  intros H E. destruct (Z.leb_spec b a).
  - pose proof (u32_sub iss a b ltac:(lia)) as S. rewrite E, Z.sub_diag in S. change (u32 0) with 0 in S. lia.
  - pose proof (u32_sub iss b a ltac:(lia)) as S. rewrite E, Z.sub_diag in S. change (u32 0) with 0 in S. lia.
Qed.

Lemma seq_gt_pos iss a b : -2147483648 <= a - b < 2147483648 -> seq_gt (u32 (iss + a)) (u32 (iss + b)) = (b <? a).
Proof. intros H. unfold seq_gt. rewrite s32_sub by done. destruct (Z.ltb_spec 0 (a - b)), (Z.ltb_spec b a); (done || lia). Qed.
Lemma seq_leq_pos iss a b : -2147483648 <= a - b < 2147483648 -> seq_leq (u32 (iss + a)) (u32 (iss + b)) = (a <=? b).
Proof. intros H. unfold seq_leq. rewrite s32_sub by done. destruct (Z.leb_spec (a - b) 0), (Z.leb_spec a b); (done || lia). Qed.

(** ** The send side *)

Notation len l := (Z.of_nat (length l)).

(** [u]: acknowledged up to here; [n]: sent up to here; [h]: the highest
    position ever put on the wire.  A retransmission rolls [n] back, not [h]. *)
Record snd_ok (iss : Z) (q : sndq) (sent : list Z) (u n h : Z) : Prop := SndOk {
  so_una : una q = u32 (iss + u); so_nxt : nxt q = u32 (iss + n);
  so_order : 0 <= u <= n /\ n <= h; so_h : h <= len sent + 3; so_lim : len sent <= LIM;
  so_syn : u = 0 -> n = 1 /\ sent = [] /\ tx_len q = 0 /\ fin_pending q = false;
  so_len : 1 <= u -> tx_len q = Z.max 0 (len sent + 1 - u);
  so_tx : 1 <= u -> peek (tx q) 0 (Z.to_nat (tx_len q)) = drop (Z.to_nat (u - 1)) sent;
  so_cap : tx_len q <= TCP_TXBUF;
  so_open : fin_pending q = false -> fin_sent q = false /\ h <= len sent + 1;
  so_unsent : fin_sent q = false -> h <= len sent + 2;
  so_busy : 0 < tx_len q -> h <= len sent + 2 /\ (fin_sent q = false -> n <= len sent + 1);
  so_fin : fin_sent q = true -> exists F, fin_seq q = u32 (iss + F) /\ len sent + 1 <= F /\ F + 1 <= h }.

Lemma so_pos iss q sent u n h : snd_ok iss q sent u n h -> 0 <= tx_len q.
Proof. intros H. pose proof (so_order _ _ _ _ _ _ H). destruct (decide (u = 0)) as [E|E]; [by destruct (so_syn _ _ _ _ _ _ H E) as (_ & _ & -> & _)|]. rewrite (so_len _ _ _ _ _ _ H) by lia. lia. Qed.

(** Moving the send position inside what has been queued. *)
Lemma snd_move iss q q' sent u n h n' h' : snd_ok iss q sent u n h -> 1 <= u ->
  nxt q' = u32 (iss + n') -> una q' = una q -> tx q' = tx q -> tx_len q' = tx_len q ->
  fin_pending q' = fin_pending q -> (fin_sent q' = fin_sent q /\ fin_seq q' = fin_seq q \/ fin_sent q' = false /\ 0 < tx_len q) ->
  u <= n' <= h' -> h <= h' <= Z.max h (len sent + 1) -> (0 < tx_len q -> n' <= len sent + 1 \/ n' = n /\ fin_sent q' = fin_sent q) ->
  snd_ok iss q' sent u n' h'.
Proof.
  intros [A1 A2 A3 A4 A5 A6 A7 A8 A9 A10 A11 A12 A13] Hu En Eu Et El Ep Es Hn Hh Hb. constructor; rewrite ?Eu, ?Et, ?El, ?Ep; try done.
  - lia.
  - lia.
  - lia.
  - intros Hf. destruct (A10 Hf) as [Hs ?]. split; [|lia]. by destruct Es as [[-> _]|[-> _]].
  - intros Hf. destruct Es as [[E _]|[_ Hp]]; [rewrite E in Hf; specialize (A11 Hf); lia|]. destruct (A12 Hp). lia.
  - intros Hp. destruct (A12 Hp) as [? Hc]. split; [lia|]. intros Hf. destruct (Hb Hp) as [?|[-> E]]; [lia|]. apply Hc. congruence.
  - intros Hf. destruct Es as [[E1 E2]|[E _]]; [|congruence]. rewrite E1 in Hf. destruct (A13 Hf) as (F & ? & ? & ?).
    exists F. rewrite E2. split; [done|]. lia.
Qed.

(** ** Frames *)

(** What a segment of this side may say.  [r] is how far this side has
    received, counted from the peer's initial sequence number [iss']. *)
Record good (iss : Z) (sent : list Z) (h : Z) (fp : bool) (iss' r : Z) (x : pseg) : Prop := Good {
  g_ok : pseg_ok x;
  g_body : (has (ps_flags x) TCP_RST = true /\ ps_data x = []) \/
    exists o, ps_seq x = u32 (iss + o) /\ 0 <= o /\ o + len (ps_data x) <= h /\
      (ps_data x <> [] -> 1 <= o /\ o - 1 + len (ps_data x) <= len sent /\
         ps_data x = take (length (ps_data x)) (drop (Z.to_nat (o - 1)) sent)) /\
      (has (ps_flags x) TCP_FIN = true -> ps_data x = [] /\ fp = true /\ len sent + 1 <= o /\ o + 1 <= h) /\
      (has (ps_flags x) TCP_SYN = true -> o = 0);
  g_ack : has (ps_flags x) TCP_ACK = true -> exists a, ps_ack x = u32 (iss' + a) /\ 1 <= a <= r }.

Lemma good_mono iss sent h h' fp iss' r r' x : h <= h' -> r <= r' -> good iss sent h fp iss' r x -> good iss sent h' fp iss' r' x.
Proof.
  intros Hh Hr [G1 G2 G3]. split; [done| |].
  - destruct G2 as [?|(o & H1 & H2 & H3 & H4 & H5 & H6)]; [by left|right]. exists o. split; [done|]. split; [done|]. split; [lia|]. split; [done|].
    split; [|done]. intros F. destruct (H5 F) as (? & ? & ? & ?). repeat split; try done; lia.
  - intros F. destruct (G3 F) as (a & ? & ?). exists a. split; [done|lia].
Qed.

Lemma good_fp iss sent h fp fp' iss' r x : (fp = true -> fp' = true) -> good iss sent h fp iss' r x -> good iss sent h fp' iss' r x.
Proof.
  intros Hf [G1 G2 G3]. split; [done| |done]. destruct G2 as [?|(o & H1 & H2 & H3 & H4 & H5 & H6)]; [by left|right].
  exists o. do 4 (split; [done|]). split; [|done]. intros F. destruct (H5 F) as (? & ? & ? & ?). auto.
Qed.

Section Wire.
Context {D : Type} `{!NetDriver D}.
Notation io := (io D).

(** From [w] to [w'] only frames of segments in [G] have gone out. *)
Definition adds (G : pseg -> Prop) (i : ident) (w w' : io) : Prop :=
  devs w' = devs w /\ exists l, wire w' = wire w ++ l /\ Forall (fun f => exists smac x, length smac = 6%nat /\ G x /\ f.2 = frame i smac x) l.
Definition macs_ok (w : io) : Prop := forall d, length (mac (devs w d)) = 6%nat.

Lemma adds_refl G i w : adds G i w w.
Proof. split; [done|]. exists []. by rewrite app_nil_r. Qed.
Lemma adds_trans G i w1 w2 w3 : adds G i w1 w2 -> adds G i w2 w3 -> adds G i w1 w3.
Proof.
  intros [E1 (l1 & W1 & F1)] [E2 (l2 & W2 & F2)]. split; [congruence|]. exists (l1 ++ l2). split; [by rewrite W2, W1, assoc_L by apply _|].
  by apply Forall_app.
Qed.
Lemma adds_mono (G G' : pseg -> Prop) i w w' : (forall x, G x -> G' x) -> adds G i w w' -> adds G' i w w'.
Proof.
  intros HG [E (l & W & F)]. split; [done|]. exists l. split; [done|]. eapply Forall_impl; [exact F|].
  intros f (s & x & ? & ? & ?). exists s, x. auto.
Qed.
Lemma adds_macs G i w w' : adds G i w w' -> macs_ok w -> macs_ok w'.
Proof. intros [E _] H d. rewrite E. apply H. Qed.

Definition win_of (c : conn) : Z := let win := tcp_rx_free (rq c) in if 65535 <? win then 65535 else win.
Lemma win_range c : 0 <= win_of c < 65536.
Proof.
  unfold win_of, tcp_rx_free, tcp_rx_avail, TCP_RXBUF. cbv zeta. pose proof (u32_range (rx_head (rq c) - rx_tail (rq c))).
  repeat case_match; bool_props; lia.
Qed.

Lemma emit_frames w c seq fl data w' rc : tcp_emit w c seq fl data = (w', rc) ->
  devs w' = devs w /\ exists d, wire w' = wire w ++
    (if rc =? 0 then [(d, frame (id c) (mac (devs w d)) (PSeg seq (rcv_nxt (rq c)) fl (win_of c) data))] else []).
Proof.
  unfold tcp_emit. destruct (dev (id c)) as [d|] eqn:Ed.
  - destruct (ETH_MTU <? _).
    + intros [= <- <-]. split; [done|]. exists d. by rewrite app_nil_r.
    + cbv zeta. intros [E1 E2]%ipv4_emit_wire. split; [done|]. exists d. done.
  - intros [= <- <-]. split; [done|]. exists 0. by rewrite app_nil_r.
Qed.
Lemma emit_adds (G : pseg -> Prop) w c seq fl data : macs_ok w ->
  G (PSeg seq (rcv_nxt (rq c)) fl (win_of c) data) -> adds G (id c) w (tcp_emit w c seq fl data).1.
Proof.
  intros Hm HG. destruct (tcp_emit w c seq fl data) as [w' rc] eqn:E. apply emit_frames in E as (Ed & d & Ew). split; [done|].
  eexists. split; [exact Ew|]. destruct (rc =? 0); [|done]. apply Forall_singleton. eexists _, _. split; [apply Hm|]. done.
Qed.
Lemma emit_fails (G : pseg -> Prop) i w c seq fl data w' rc : tcp_emit w c seq fl data = (w', rc) -> rc <> 0 -> adds G i w w'.
Proof.
  intros (Ed & d & Ew)%emit_frames Hrc. split; [done|]. exists []. apply Z.eqb_neq in Hrc. rewrite Hrc in Ew. split; [done|]. done.
Qed.

(** ** Sending *)

Section Sender.
Context (iss iss' r : Z) (sent : list Z).

Definition heard (c : conn) : Prop := rcv_nxt (rq c) = u32 (iss' + r) /\ 1 <= r.

(** Everything of a connection but its send queue and timers. *)
Definition same_rest (c c' : conn) : Prop :=
  used c' = used c /\ state c' = state c /\ orphan c' = orphan c /\ reset c' = reset c /\ id c' = id c /\ rq c' = rq c /\ li c' = li c /\
  fin_pending (sq c') = fin_pending (sq c).
Lemma same_rest_refl c : same_rest c c.
Proof. by repeat split. Qed.
Lemma same_rest_trans c1 c2 c3 : same_rest c1 c2 -> same_rest c2 c3 -> same_rest c1 c3.
Proof. unfold same_rest. intros H1 H2. destruct_and!. repeat split; congruence. Qed.

Lemma good_seg h fp c seq o fl data : heard c -> byte fl -> has fl TCP_SYN = false -> len data <= 1460 ->
  seq = u32 (iss + o) -> 0 <= o -> o + len data <= h ->
  (data <> [] -> 1 <= o /\ o - 1 + len data <= len sent /\ data = take (length data) (drop (Z.to_nat (o - 1)) sent)) ->
  (has fl TCP_FIN = true -> data = [] /\ fp = true /\ len sent + 1 <= o /\ o + 1 <= h) ->
  good iss sent h fp iss' r (PSeg seq (rcv_nxt (rq c)) fl (win_of c) data).
Proof.
  intros [Hr H1] Hf HS Hl -> Ho Hh Hd HF. split.
  - split; cbn; try done; try apply u32_range; [|apply win_range]. rewrite Hr. apply u32_range.
  - right. exists o. cbn. do 5 (split; [done|]). congruence.
  - intros _. exists r. cbn. split; [done|lia].
Qed.

(** An acknowledgement carries the current position and no data. *)
Lemma good_ack h fp c n : heard c -> nxt (sq c) = u32 (iss + n) -> 0 <= n <= h ->
  good iss sent h fp iss' r (PSeg (nxt (sq c)) (rcv_nxt (rq c)) TCP_ACK (win_of c) []).
Proof. intros Hc En Hn. apply (good_seg _ _ _ _ n); try done; cbn; unfold byte, TCP_ACK; try lia. Qed.

(** A piece of the stream as [tx] holds it. *)
Lemma tx_slice q u n h j k : snd_ok iss q sent u n h -> 1 <= u -> 0 <= j -> 0 <= k -> j + k <= tx_len q ->
  peek (tx q) j (Z.to_nat k) = take (Z.to_nat k) (drop (Z.to_nat (u + j - 1)) sent).
Proof.
  intros Hq Hu Hj Hk Hl. pose proof (so_tx _ _ _ _ _ _ Hq Hu) as Ht.
  replace (Z.to_nat (tx_len q)) with (Z.to_nat j + (Z.to_nat k + Z.to_nat (tx_len q - j - k)))%nat in Ht by lia.
  rewrite !peek_app, Z2Nat.id in Ht by lia. replace (Z.to_nat (u + j - 1)) with (Z.to_nat (u - 1) + Z.to_nat j)%nat by lia.
  rewrite <- drop_drop, <- Ht, drop_app_length', take_app_length'; [done|by rewrite peek_length|by rewrite peek_length].
Qed.

Lemma out_loop_ok fuel mss w c w' c' u n h : macs_ok w -> 0 <= mss <= 1460 -> heard c -> 1 <= u ->
  snd_ok iss (sq c) sent u n h -> out_loop fuel mss w c = (w', c') ->
  exists n' h', h <= h' /\ snd_ok iss (sq c') sent u n' h' /\
    adds (good iss sent h' (fin_pending (sq c)) iss' r) (id c) w w' /\ same_rest c c'.
Proof.
  revert w c n h. induction fuel as [|f IH]; intros w c n h Hm Hmss Hr Hu Hq; cbn [out_loop].
  { intros [= <- <-]. exists n, h. split; [lia|]. split; [done|]. split; [apply adds_refl|apply same_rest_refl]. }
  pose proof (so_order _ _ _ _ _ _ Hq) as Ho. pose proof (so_h _ _ _ _ _ _ Hq) as Hh. pose proof (so_lim _ _ _ _ _ _ Hq) as HL. unfold LIM in HL.
  pose proof (so_len _ _ _ _ _ _ Hq Hu) as Hlen. rewrite (so_nxt _ _ _ _ _ _ Hq), (so_una _ _ _ _ _ _ Hq), u32_sub by lia.
  assert ((w, c) = (w', c') -> exists n' h', h <= h' /\ snd_ok iss (sq c') sent u n' h' /\
    adds (good iss sent h' (fin_pending (sq c)) iss' r) (id c) w w' /\ same_rest c c') as Hstop.
  { intros [= <- <-]. exists n, h. split; [lia|]. split; [done|]. split; [apply adds_refl|apply same_rest_refl]. }
  destruct (Z.leb_spec (tx_len (sq c)) (n - u)) as [?|Hmore]; [exact Hstop|].
  destruct (Z.leb_spec (wnd (sq c)) (n - u)) as [?|Hwin]; [exact Hstop|].
  set (room := wnd (sq c) - (n - u)). set (k0 := tx_len (sq c) - (n - u)). set (k1 := if room <? k0 then room else k0).
  set (k := if mss <? k1 then mss else k1).
  assert (0 <= k <= k0 /\ k <= mss) as [Hk Hkm] by (subst k k1 k0 room; repeat case_match; bool_props; lia).
  assert (k0 = len sent + 1 - n) as Ek0 by (subst k0; lia).
  destruct (tcp_emit w c (u32 (iss + n)) (Z.lor TCP_PSH TCP_ACK) (peek (tx (sq c)) (n - u) (Z.to_nat k))) as [w1 rc] eqn:Ee.
  set (h1 := Z.max h (n + k)).
  assert (adds (good iss sent h1 (fin_pending (sq c)) iss' r) (id c) w w1) as Ha.
  { change w1 with (w1, rc).1. rewrite <- Ee. apply emit_adds; [done|].
    apply (good_seg _ _ _ _ n); rewrite ?peek_length; try done; try (unfold byte; cbn; lia); try lia.
    - intros _. split; [lia|]. split; [lia|]. rewrite (tx_slice _ _ _ _ _ _ Hq Hu) by lia. replace (u + (n - u) - 1) with (n - 1) by lia. done. }
  destruct (Z.eqb_spec rc 0).
  - intros Hrun. set (c1 := set_sq c (set_nxt (sq c) (u32 (u32 (iss + n) + k)))) in Hrun.
    assert (snd_ok iss (sq c1) sent u (n + k) h1) as Hq1.
    { eapply snd_move; try exact Hq; try done; subst c1 h1; cbn; [by rewrite u32_add|by left|lia|lia|intros; left; lia]. }
    destruct (IH w1 c1 (n + k) h1) as (n' & h' & H1 & H2 & H3 & H4); try done; [by eapply adds_macs|].
    exists n', h'. split; [lia|]. split; [done|]. split.
    + eapply adds_trans; [|exact H3]. eapply adds_mono; [|exact Ha]. intros x. apply good_mono; lia.
    + eapply same_rest_trans; [|exact H4]. by repeat split.
  - intros [= <- <-]. exists n, h. split; [lia|]. split; [done|]. split; [|apply same_rest_refl]. by eapply emit_fails.
Qed.

Lemma out_fin_ok w c w' c' u n h : macs_ok w -> heard c -> 1 <= u -> snd_ok iss (sq c) sent u n h -> out_fin w c = (w', c') ->
  exists n' h', h <= h' /\ snd_ok iss (sq c') sent u n' h' /\
    adds (good iss sent h' (fin_pending (sq c)) iss' r) (id c) w w' /\ same_rest c c'.
Proof.
  intros Hm Hr Hu Hq. unfold out_fin. pose proof Hq as [A1 A2 A3 A4 A5 A6 A7 A8 A9 A10 A11 A12 A13]. unfold LIM in A5.
  assert ((w, c) = (w', c') -> exists n' h', h <= h' /\ snd_ok iss (sq c') sent u n' h' /\
    adds (good iss sent h' (fin_pending (sq c)) iss' r) (id c) w w' /\ same_rest c c') as Hstop.
  { intros [= <- <-]. exists n, h. split; [lia|]. split; [done|]. split; [apply adds_refl|apply same_rest_refl]. }
  destruct (_ && _ && _) eqn:Ec; [|exact Hstop]. bool_props. rename H into Hp, H1 into Hs, H0 into Hall.
  rewrite A1, A2, u32_sub in Hall by lia. specialize (A7 Hu). specialize (A11 Hs).
  assert (len sent + 1 <= n) as Hn by lia.
  set (h1 := Z.max h (n + 1)).
  assert (adds (good iss sent h1 (fin_pending (sq c)) iss' r) (id c) w (tcp_emit w c (nxt (sq c)) (Z.lor TCP_FIN TCP_ACK) []).1) as Ha.
  { apply emit_adds; [done|]. apply (good_seg _ _ _ _ n); try done; cbn; unfold byte; try lia. intros _. split; [done|]. split; [done|]. lia. }
  destruct (tcp_emit w c (nxt (sq c)) (Z.lor TCP_FIN TCP_ACK) []) as [w1 rc] eqn:Ee. cbn [fst] in Ha. destruct (Z.eqb_spec rc 0).
  - intros [= <- <-]. exists (n + 1), h1. split; [lia|]. split; [|split; [exact Ha|]].
    + subst h1. constructor; cbn; try done; try lia.
      * by rewrite A2, u32_add.
      * congruence.
      * intros Hb. destruct (A12 Hb) as [? Hc]. specialize (Hc Hs). split; [lia|]. done.
      * intros _. exists n. split; [done|]. lia.
    + by repeat split.
  - intros [= <- <-]. exists n, h. split; [lia|]. split; [done|]. split; [|apply same_rest_refl].
    by eapply emit_fails.
Qed.

Lemma mss_range (w : io) d : 0 <= mss_of w d <= 1460.
Proof. unfold mss_of, TCP_MSS_CAP. cbv zeta. pose proof (u32_range (mtu (devs w d) - 20 - 20)). case_match eqn:E; bool_props; lia. Qed.

(** What every call that may send keeps. *)
Definition stays (w : io) (c : conn) (u : Z) (h : Z) (w' : io) (c' : conn) : Prop :=
  exists n' h', h <= h' /\ snd_ok iss (sq c') sent u n' h' /\
    adds (good iss sent h' (fin_pending (sq c)) iss' r) (id c) w w' /\ same_rest c c'.

Lemma stays_refl w c u n h : snd_ok iss (sq c) sent u n h -> stays w c u h w c.
Proof. intros Hq. exists n, h. split; [lia|]. split; [done|]. split; [apply adds_refl|apply same_rest_refl]. Qed.
Lemma stays_trans w c h w1 c1 h1 w2 c2 u2 : h <= h1 -> adds (good iss sent h1 (fin_pending (sq c)) iss' r) (id c) w w1 -> same_rest c c1 ->
  stays w1 c1 u2 h1 w2 c2 -> stays w c u2 h w2 c2.
Proof.
  intros Hh Ha Hs (n' & h' & H1 & H2 & H3 & H4). exists n', h'. split; [lia|]. split; [done|].
  pose proof Hs as (_ & _ & _ & _ & Ei & _ & _ & Ep). rewrite Ei, Ep in H3. split; [|by eapply same_rest_trans].
  eapply adds_trans; [|exact H3]. eapply adds_mono; [|exact Ha]. intros x. apply good_mono; lia.
Qed.

Lemma arm_rto_rest now c : same_rest c (tcp_arm_rto now c) /\ sq (tcp_arm_rto now c) = sq c.
Proof. by repeat split. Qed.

Lemma output_ok now w c w' c' u n h : macs_ok w -> (may_send (state c) = true -> 1 <= u /\ heard c) ->
  snd_ok iss (sq c) sent u n h -> tcp_output now w c = (w', c') -> stays w c u h w' c'.
Proof.
  intros Hm Hl Hq. unfold tcp_output. destruct (dev (id c)) as [d|]; [|intros [= <- <-]; by eapply stays_refl].
  destruct (used c); cbn [negb orb]; [|intros [= <- <-]; by eapply stays_refl].
  destruct (may_send (state c)) eqn:Es; cbn [negb]; [|intros [= <- <-]; by eapply stays_refl]. destruct (Hl eq_refl) as [Hu Hr].
  destruct (out_loop _ _ w c) as [w1 c1] eqn:E1. destruct (out_fin w1 c1) as [w2 c2] eqn:E2. intros E3.
  destruct (out_loop_ok _ _ w c w1 c1 u n h Hm (mss_range w d) Hr Hu Hq E1) as (n1 & h1 & B1 & B2 & B3 & B4).
  pose proof B4 as (_ & _ & _ & _ & Ei & Erq & _ & Ep).
  assert (heard c1) as Hr1 by (unfold heard; by rewrite Erq).
  eapply stays_trans; [exact B1|exact B3|exact B4|].
  destruct (out_fin_ok w1 c1 w2 c2 u n1 h1) as (n2 & h2 & C1 & C2 & C3 & C4); try done; [by eapply adds_macs|].
  eapply stays_trans; [exact C1|exact C3|exact C4|].
  destruct (_ && _); injection E3 as <- <-; [|by eapply stays_refl].
  exists n2, h2. split; [lia|]. split; [done|]. split; [apply adds_refl|apply arm_rto_rest].
Qed.

(** *** Acknowledgements *)

Lemma compact_other k i a b j : j < i -> compact k i a b j = b j.
Proof.
  revert i b. induction k as [|k IH]; intros i b Hj; cbn [compact]; [done|]. rewrite IH by lia. apply upd_other. lia.
Qed.
Lemma compact_peek k i a b : 0 <= a -> peek (compact k i a b) i k = peek b (i + a) k.
Proof.
  intros Ha. revert i b. induction k as [|k IH]; intros i b; cbn [compact peek]; [done|]. f_equal.
  - rewrite compact_other by lia. by rewrite upd_same.
  - rewrite IH. replace (i + 1 + a) with (i + a + 1) by lia.
    assert (forall p j, i < p -> peek (b⟦i ↦ b (i + a)⟧) p j = peek b p j) as ->; [|done|lia].
    intros p j. revert p. induction j as [|j IHj]; intros p Hp; cbn [peek]; [done|]. rewrite IHj by lia. f_equal. apply upd_other. lia.
Qed.

Lemma ack_drop_ok q q1 a u n h : snd_ok iss q sent u n h -> una q1 = una q -> tx q1 = tx q -> tx_len q1 = tx_len q ->
  fin_pending q1 = fin_pending q -> fin_sent q1 = fin_sent q -> fin_seq q1 = fin_seq q ->
  nxt q1 = u32 (iss + Z.max n a) -> u < a <= h -> a <= n + 1 ->
  snd_ok iss (ack_drop q1 (u32 (iss + a))) sent a (Z.max n a) h.
Proof.
  intros Hq E1 E2 E3 E4 E5 E6 En Ha Hn. pose proof (so_pos _ _ _ _ _ _ Hq) as Hpos.
  pose proof Hq as [A1 A2 A3 A4 A5 A6 A7 A8 A9 A10 A11 A12 A13]. pose proof A5 as HL. unfold LIM in HL. unfold ack_drop.
  rewrite E1, E2, E3, A1, u32_sub by lia. set (k := if tx_len q <? a - u then tx_len q else a - u).
  assert (k = Z.min (tx_len q) (a - u)) as Ek by (subst k; case_match eqn:Ec; bool_props; lia). clearbody k.
  assert (tx_len q - k = Z.max 0 (len sent + 1 - a)) as Elen.
  { destruct (decide (u = 0)) as [->|]; [|rewrite A7 in * by lia; lia]. destruct (A6 eq_refl) as (-> & -> & E0 & _). rewrite E0 in *. cbn. lia. }
  constructor; cbn [una nxt tx tx_len fin_pending fin_sent fin_seq set_una set_tx]; rewrite ?E4, ?E5, ?E6; try done.
  - lia.
  - lia.
  - intros _. rewrite compact_peek by lia. rewrite Z.add_0_l. destruct (decide (u = 0)) as [->|Hu].
    + destruct (A6 eq_refl) as (_ & -> & E0 & _). rewrite E0 in *. replace k with 0 by lia. by rewrite drop_nil.
    + destruct (Z.leb_spec (tx_len q) (a - u)) as [Hall|Hpart].
      * replace (tx_len q - k) with 0 by lia. cbn [peek Z.to_nat]. rewrite drop_ge; [done|]. rewrite A7 in Hall by lia. lia.
      * rewrite (tx_slice q u n h) by (done || lia). replace (u + k - 1) with (a - 1) by lia. apply take_ge. rewrite length_drop. lia.
  - unfold TCP_TXBUF in *. lia.
  - intros Hb. assert (0 < tx_len q) as Hb' by lia. destruct (A12 Hb') as [? Hc]. split; [done|]. intros Hf. specialize (Hc Hf). lia.
Qed.

(** Pulling up and dropping, taken together: either nothing changes, or the
    queue starts at the acknowledged position. *)
Lemma ack_ok q a u n h : snd_ok iss q sent u n h -> 1 <= a <= h ->
  let q1 := ack_pull q (u32 (iss + a)) in
  let go := seq_gt (u32 (iss + a)) (una q1) && seq_leq (u32 (iss + a)) (nxt q1) in
  if go then snd_ok iss (ack_drop q1 (u32 (iss + a))) sent a (Z.max n a) h /\ u < a
  else q1 = q /\ 1 <= u.
Proof.
  intros Hq Ha. pose proof Hq as [A1 A2 A3 A4 A5 A6 A7 A8 A9 A10 A11 A12 A13]. unfold LIM in A5. cbv zeta. unfold ack_pull.
  rewrite A2, u32_add, seq_gt_pos, seq_leq_pos by lia.
  set (q1 := if (n <? a) && (a <=? n + 1) then set_nxt q (u32 (iss + a)) else q). assert (una q1 = una q /\ tx q1 = tx q /\ tx_len q1 = tx_len q /\ fin_pending q1 = fin_pending q /\ fin_sent q1 = fin_sent q /\ fin_seq q1 = fin_seq q) as (E1 & E2 & E3 & E4 & E5 & E6) by (subst q1; by case_match).
  assert (nxt q1 = u32 (iss + if (n <? a) && (a <=? n + 1) then a else n)) as En by (subst q1; case_match; done).
  rewrite E1, A1, En, seq_gt_pos, seq_leq_pos by (try case_match; lia).
  destruct ((n <? a) && (a <=? n + 1)) eqn:Ep.
  - bool_props. destruct (Z.ltb_spec u a); [|lia]. destruct (Z.leb_spec a a); [|lia]. cbn [andb]. split; [|done].
    eapply ack_drop_ok; try exact Hq; try done; try lia. rewrite En. do 2 f_equal. lia.
  - destruct (Z.ltb_spec u a), (Z.leb_spec a n); cbn [andb].
    + split; [|done]. eapply ack_drop_ok; try exact Hq; try done; try lia. rewrite En. do 2 f_equal. lia.
    + split; [done|]. apply andb_false_iff in Ep as [?|?]; bool_props; [lia|]. destruct (decide (u = 0)) as [->|]; [|lia].
      destruct (A6 eq_refl) as (-> & -> & _ & Hf). destruct (A10 Hf). cbn in *. lia.
    + split; [done|]. lia.
    + split; [done|]. lia.
Qed.

Lemma ack_input_ok now w c a win w' c' u n h : macs_ok w -> (may_send (state c) = true -> 1 <= u /\ heard c) ->
  snd_ok iss (sq c) sent u n h -> 1 <= a <= h -> ack_input now w c (u32 (iss + a)) win = (w', c') ->
  exists u', 1 <= u' /\ stays w c u' h w' c'.
Proof.
  intros Hm Hl Hq Ha. unfold ack_input. pose proof (ack_ok (sq c) a u n h Hq Ha) as G. cbv zeta in *. cbn [sq set_sq] in *.
  destruct (seq_gt _ _ && seq_leq _ _).
  - destruct G as [Hq1 Hu]. set (c1 := set_tm _ _) at 1. set (c2 := if _ =? _ then _ else _). destruct (tcp_output now w c2) as [w3 c3] eqn:E3.
    assert (sq c2 = ack_drop (ack_pull (sq c) (u32 (iss + a))) (u32 (iss + a)) /\ same_rest c c2) as [Eq2 Hs2].
    { assert (fin_pending (ack_drop (ack_pull (sq c) (u32 (iss + a))) (u32 (iss + a))) = fin_pending (sq c)) by (unfold ack_pull; by case_match).
      subst c2. destruct (_ =? _); by repeat split. }
    pose proof Hs2 as (_ & Es2 & _ & _ & Ei2 & Er2 & _ & Ep2). assert (macs_ok w) by done.
    destruct (output_ok now w c2 w3 c3 a (Z.max n a) h) as (n3 & h3 & B1 & B2 & B3 & B4); try done.
    { rewrite Es2. intros Hs. split; [lia|]. unfold heard. rewrite Er2. by apply Hl. }
    { by rewrite Eq2. }
    intros E4. exists a. split; [lia|]. rewrite Ei2, Ep2 in B3. eapply (stays_trans w c h w3 c3); [exact B1|exact B3|by eapply same_rest_trans|].
    set (c4 := set_sq c3 _) in E4. assert (same_rest c3 c4) as Hs4 by by repeat split.
    pose proof B4 as (_ & Es3 & _ & _ & _ & Er3 & _ & _).
    destruct (output_ok now w3 c4 w' c' a n3 h3) as (n4 & h4 & C1 & C2 & C3 & C4); try done.
    { by eapply adds_macs. }
    { cbn. rewrite Es3, Es2. intros Hs. split; [lia|]. unfold heard. cbn. rewrite Er3, Er2. by apply Hl. }
    { destruct B2. constructor; done. }
    exists n4, h4. split; [done|]. split; [done|]. split; [exact C3|]. by eapply same_rest_trans.
  - destruct G as [Eq Hu]. rewrite Eq. intros E4. exists u. split; [done|]. set (c4 := set_sq _ _) in E4.
    assert (same_rest c c4) as Hs4 by by repeat split.
    destruct (output_ok now w c4 w' c' u n h) as (n4 & h4 & C1 & C2 & C3 & C4); try done.
    { destruct Hq. constructor; done. }
    exists n4, h4. split; [done|]. split; [done|]. split; [exact C3|]. by eapply same_rest_trans.
Qed.

(** *** Retransmission *)

Lemma good_syn h fp c u fl : 0 <= rcv_nxt (rq c) < 4294967296 -> u = 0 -> 0 <= h -> byte fl -> has fl TCP_FIN = false ->
  (has fl TCP_ACK = true -> heard c) ->
  good iss sent h fp iss' r (PSeg (u32 (iss + u)) (rcv_nxt (rq c)) fl (win_of c) []).
Proof.
  intros Hr Hu Hh Hf HF HA. split.
  - split; cbn; try done; try apply u32_range; apply win_range.
  - right. exists u. cbn. split; [done|]. split; [lia|]. split; [lia|]. split; [done|]. split; [congruence|done].
  - cbn. intros Ha. destruct (HA Ha) as [E ?]. exists r. split; [done|lia].
Qed.

Lemma resend_ok w c w' c' u n h : macs_ok w -> 0 <= rcv_nxt (rq c) < 4294967296 ->
  (state c = SYN_SENT \/ state c = SYN_RCVD -> u = 0) ->
  (heard c \/ tx_len (sq c) = 0 /\ fin_sent (sq c) = false /\ state c <> SYN_RCVD) ->
  snd_ok iss (sq c) sent u n h -> resend w c = (w', c') -> stays w c u h w' c'.
Proof.
  intros Hm Hrn Hz Hl Hq. pose proof (so_pos _ _ _ _ _ _ Hq) as Hpos. pose proof Hq as [A1 A2 A3 A4 A5 A6 A7 A8 A9 A10 A11 A12 A13]. unfold LIM in A5.
  assert (forall fl, u = 0 -> byte fl -> has fl TCP_FIN = false -> (has fl TCP_ACK = true -> heard c) ->
    ((tcp_emit w c (una (sq c)) fl []).1, c) = (w', c') -> stays w c u h w' c') as Hsyn.
  { intros fl Hu0 Hf HF HA [= <- <-]. exists n, h. split; [lia|]. split; [done|]. split; [|apply same_rest_refl].
    apply emit_adds; [done|]. rewrite A1. apply good_syn; try done. lia. }
  unfold resend. cbv zeta. set (mss := if TCP_MSS_CAP <? _ then _ else _).
  assert (0 <= mss <= 1460) as Hmss.
  { subst mss. unfold TCP_MSS_CAP. destruct (dev (id c)); [pose proof (u32_range (mtu (devs w z) - 20 - 20))|]; case_match eqn:E; bool_props; lia. }
  set (rest := if negb (tx_len (sq c) =? 0) then _ else _).
  assert (rest = (w', c') -> stays w c u h w' c') as Hrest; [|destruct (state c) eqn:Es; try exact Hrest; apply Hsyn; try done; [by auto|by auto|by destruct Hl as [?|(_ & _ & ?)]]].
  subst rest. destruct (Z.eqb_spec (tx_len (sq c)) 0) as [E0|E0]; cbn [negb].
  - destruct (fin_sent (sq c)) eqn:Ef; [|intros [= <- <-]; by eapply stays_refl]. destruct Hl as [Hr|(_ & ? & _)]; [|done].
    destruct (A13 eq_refl) as (F & EF & HF1 & HF2). destruct (decide (u = 0)) as [->|]; [by destruct (A6 eq_refl) as (_ & _ & _ & Hfp); destruct (A10 Hfp)|].
    intros [= <- <-]. exists n, h. split; [lia|]. split; [done|]. split; [|apply same_rest_refl]. apply emit_adds; [done|].
    apply (good_seg _ _ _ _ F); try done; cbn; unfold byte; try lia. intros _. split; [done|]. split; [|lia].
    destruct (fin_pending (sq c)) eqn:Efp; [done|]. by destruct (A10 eq_refl).
  - destruct Hl as [Hr|(? & _)]; [|done]. assert (1 <= u) as Hu by (destruct (decide (u = 0)) as [->|]; [by destruct (A6 eq_refl) as (_ & _ & ? & _)|lia]).
    specialize (A7 Hu). set (k0 := if tx_len (sq c) <? mss then tx_len (sq c) else mss). set (k := if wnd (sq c) =? 0 then 1 else k0).
    assert (0 <= k <= tx_len (sq c) /\ k <= 1460) as [Hk Hk2] by (subst k k0; repeat case_match; bool_props; lia). clearbody k. clear k0.
    rewrite A1, A2, u32_sub, u32_add by lia. set (h1 := Z.max h (u + k)). set (q1 := if k <? n - u then _ else _). intros [= <- <-].
    exists (if k <? n - u then u + k else n), h1. split; [lia|].
    assert (nxt q1 = u32 (iss + if k <? n - u then u + k else n)) as En by (subst q1; case_match; done).
    assert (una q1 = una (sq c) /\ tx q1 = tx (sq c) /\ tx_len q1 = tx_len (sq c) /\ fin_pending q1 = fin_pending (sq c)) as (E1 & E2 & E3 & E4) by (subst q1; by case_match).
    split; [|split].
    + eapply snd_move; try exact Hq; try done; cbn; [by right; split; [|lia]| | |]; subst h1; repeat case_match; bool_props; try lia; intros; left; lia.
    + apply emit_adds; [done|]. apply (good_seg _ _ _ _ u); rewrite ?peek_length; try done; try (unfold byte; cbn; lia); try lia.
      intros _. split; [lia|]. split; [lia|]. rewrite (tx_slice _ _ _ _ _ _ Hq Hu) by lia. by rewrite Z.add_0_r.
    + repeat split. cbn. by rewrite E4.
Qed.
End Sender.

(** ** The receive side *)

(** [deliv] is what the reader has taken; with what the ring holds it is the
    peer's stream up to [r].  An end of stream that is not a reset was reached. *)
Record rcv_ok (iss : Z) (sent : list Z) (h : Z) (fp : bool) (q : rcvq) (rst : bool) (deliv : list Z) (r : Z) : Prop := RcvOk {
  ro_nxt : rcv_nxt q = u32 (iss + r); ro_r : 1 <= r <= h; ro_tail : rx_tail q = len deliv;
  ro_ring : exists rest, rx_head q = len deliv + len rest /\ len rest <= TCP_RXBUF /\
    ring_get TCP_RXBUF (rx q) (rx_tail q) (length rest) = rest /\ deliv ++ rest = take (Z.to_nat (r - 1)) sent;
  ro_fin : peer_fin q = true -> rst = true \/ fp = true /\ len sent + 2 <= r }.

Lemma zlen_app {A} (l1 l2 : list A) : len (l1 ++ l2) = len l1 + len l2.
Proof. rewrite length_app. lia. Qed.
Lemma len_take {A} k (l : list A) : len (take k l) <= len l.
Proof. rewrite length_take. lia. Qed.

Section Receiver.
Context (iss iss' : Z) (sent sentP : list Z) (hP : Z) (fpP : bool) (HP : hP <= len sentP + 3) (HL : len sentP <= LIM).

Lemma ring_state q rst deliv r : rcv_ok iss' sentP hP fpP q rst deliv r ->
  exists rest, rx_head q = len deliv + len rest /\ ring_get TCP_RXBUF (rx q) (rx_tail q) (length rest) = rest /\
    deliv ++ rest = take (Z.to_nat (r - 1)) sentP /\ tcp_rx_avail q = len rest /\ tcp_rx_free q = TCP_RXBUF - len rest /\
    len rest <= TCP_RXBUF /\ len deliv + len rest <= len sentP.
Proof.
  intros [R1 R2 R3 (rest & H1 & H2 & H3 & H4) R5]. exists rest. unfold TCP_RXBUF in *.
  assert (len deliv + len rest <= len sentP) as Hl.
  { rewrite <- zlen_app, H4. apply len_take. }
  assert (tcp_rx_avail q = len rest) as Ea by (unfold tcp_rx_avail; rewrite H1, R3, u32_small; lia).
  repeat split; try done. unfold tcp_rx_free, TCP_RXBUF. rewrite Ea. cbv zeta. case_match eqn:E; bool_props; lia.
Qed.

Lemma data_input_ok (w : io) c m p o data deliv r u n h w' c' : macs_ok w -> snd_ok iss (sq c) sent u n h ->
  rcv_ok iss' sentP hP fpP (rq c) (reset c) deliv r -> peek m p (length data) = data -> 0 <= o -> o + len data <= hP ->
  (data <> [] -> 1 <= o /\ o - 1 + len data <= len sentP /\ data = take (length data) (drop (Z.to_nat (o - 1)) sentP)) ->
  data_input w c m p (u32 (iss' + o)) (len data) = (w', c') ->
  exists r', r <= r' /\ rcv_ok iss' sentP hP fpP (rq c') (reset c') deliv r' /\
    adds (good iss sent h (fin_pending (sq c)) iss' r') (id c) w w' /\ c' = set_rq c (rq c').
Proof.
  intros Hm Hq Hr Hmem Ho Hoh Hd. unfold data_input. unfold LIM in HL. pose proof Hr as [R1 R2 R3 _ R5].
  pose proof (so_order _ _ _ _ _ _ Hq) as Hord. pose proof (so_nxt _ _ _ _ _ _ Hq) as Hn.
  destruct (Z.eqb_spec (len data) 0) as [E0|E0].
  { intros [= <- <-]. exists r. split; [lia|]. split; [done|]. split; [apply adds_refl|by destruct c]. }
  rewrite R1. destruct (Z.eqb_spec (u32 (iss' + o)) (u32 (iss' + r))) as [E|E].
  - apply u32_inj in E; [|lia]. subst o. destruct (Hd ltac:(by intros ->)) as (_ & Hl & Hslice).
    destruct (ring_state _ _ _ _ Hr) as (rest & S1 & S2 & S3 & S4 & S5 & S6 & S7). unfold tcp_rx_store. rewrite S5.
    set (k := if TCP_RXBUF - len rest <? len data then TCP_RXBUF - len rest else len data).
    assert (0 <= k <= len data /\ len rest + k <= TCP_RXBUF) as [Hk Hk2] by (subst k; unfold TCP_RXBUF in *; case_match eqn:Ec; bool_props; lia). clearbody k.
    assert (peek m p (Z.to_nat k) = take (Z.to_nat k) data) as Epk.
    { rewrite <- Hmem. replace (length data) with (Z.to_nat k + (length data - Z.to_nat k))%nat by lia. rewrite peek_app, take_app_length'; [done|by rewrite peek_length]. }
    rewrite Epk. set (c1 := set_rq c _). intros [= <- <-]. exists (r + k). split; [lia|].
    assert (length (take (Z.to_nat k) data) = Z.to_nat k) as Elk by (rewrite length_take; lia).
    assert (rcv_ok iss' sentP hP fpP (rq c1) (reset c1) deliv (r + k)) as Hr1.
    { subst c1. constructor; cbn.
      - by rewrite R1, u32_add.
      - lia.
      - done.
      - exists (rest ++ take (Z.to_nat k) data). rewrite zlen_app, Elk, S1, u32_small by (unfold TCP_RXBUF in *; lia). split; [lia|]. split; [lia|].
        split; [|].
        + rewrite length_app, R3. rewrite R3 in S2. rewrite ring_append by (unfold TCP_RXBUF in *; lia). by rewrite S2.
        + rewrite assoc_L, S3 by apply _. replace (Z.to_nat (r + k - 1)) with (Z.to_nat (r - 1) + Z.to_nat k)%nat by lia.
          rewrite <- (take_take_drop sentP). f_equal. rewrite Hslice, take_take. f_equal. lia.
      - intros Hf. destruct (R5 Hf) as [?|[? ?]]; [by left|]. right. split; [done|lia]. }
    split; [done|]. split; [|done]. apply (emit_adds _ _ c1); [done|]. apply (good_ack iss iss' (r + k) sent _ _ c1 n); [|done|lia].
    split; [apply Hr1|lia].
  - intros [= <- <-]. exists r. split; [lia|]. split; [done|]. split; [|by destruct c]. apply emit_adds; [done|].
    apply (good_ack iss iss' r sent _ _ _ n); [|done|lia]. split; [done|lia].
Qed.

Definition early (s : tcp_state) : bool := st_is s SYN_SENT || st_is s SYN_RCVD || st_is s CLOSED.

Lemma fin_input_ok now (w : io) c o deliv r u n h w' c' : macs_ok w -> snd_ok iss (sq c) sent u n h ->
  rcv_ok iss' sentP hP fpP (rq c) (reset c) deliv r -> fpP = true -> len sentP + 1 <= o -> o + 1 <= hP ->
  fin_input now w c (u32 (iss' + o)) 0 = (w', c') ->
  exists r', r <= r' /\ rcv_ok iss' sentP hP fpP (rq c') (reset c') deliv r' /\
    adds (good iss sent h (fin_pending (sq c)) iss' r') (id c) w w' /\ sq c' = sq c /\ id c' = id c /\ reset c' = reset c /\
    (state c' = state c \/ early (state c) = false /\ early (state c') = false).
Proof.
  intros Hm Hq Hr Hfp Ho Hoh. unfold fin_input. unfold LIM in HL. pose proof Hr as [R1 R2 R3 R4 R5].
  pose proof (so_order _ _ _ _ _ _ Hq) as Hord. pose proof (so_nxt _ _ _ _ _ _ Hq) as Hn.
  rewrite u32_add, Z.add_0_r, R1. destruct (Z.eqb_spec (u32 (iss' + o)) (u32 (iss' + r))) as [E|E].
  - apply u32_inj in E; [|lia]. subst o. set (c1 := set_rq c _).
    assert (rcv_ok iss' sentP hP fpP (rq c1) (reset c1) deliv (r + 1)) as Hr1.
    { subst c1. constructor; cbn; [by rewrite u32_add|lia|done| |intros _; right; split; [done|lia]].
      destruct R4 as (rest & S1 & S2 & S3 & S4). exists rest. repeat split; try done. rewrite S4.
      rewrite !take_ge by lia. done. }
    assert (adds (good iss sent h (fin_pending (sq c)) iss' (r + 1)) (id c) w (tcp_emit w c1 (nxt (sq c1)) TCP_ACK []).1) as Ha.
    { apply (emit_adds _ _ c1); [done|]. apply (good_ack iss iss' (r + 1) sent _ _ c1 n); [|done|lia]. split; [apply Hr1|lia]. }
    intros [= <- <-]. exists (r + 1). split; [lia|].
    assert (forall c2, rq c2 = rq c1 -> reset c2 = reset c1 -> rcv_ok iss' sentP hP fpP (rq c2) (reset c2) deliv (r + 1)) as Hc2 by by intros c2 -> ->.
    change (state c1) with (state c). destruct (state c) eqn:Es; (split; [by apply Hc2|]; split; [done|]; repeat (split; [done|])); cbn; rewrite ?Es; auto.
  - intros [= <- <-]. exists r. split; [lia|]. split; [done|]. split; [|by auto]. apply emit_adds; [done|].
    apply (good_ack iss iss' r sent _ _ _ n); [|done|lia]. split; [done|lia].
Qed.

(** The reader takes bytes. *)
Lemma recv_take_ok (w : io) c ln deliv r u n h w' c' out ret : macs_ok w -> snd_ok iss (sq c) sent u n h -> 0 <= ln ->
  rcv_ok iss' sentP hP fpP (rq c) (reset c) deliv r -> recv_take w c ln = (w', c', out, ret) ->
  rcv_ok iss' sentP hP fpP (rq c') (reset c') (deliv ++ out) r /\
  adds (good iss sent h (fin_pending (sq c)) iss' r) (id c) w w' /\ c' = set_rq c (rq c') /\
  (ret = 0 -> 0 < ln -> deliv = sentP /\ reset c = false).
Proof.
  intros Hm Hq Hln Hr. unfold LIM in HL. destruct (ring_state _ _ _ _ Hr) as (rest & S1 & S2 & S3 & S4 & S5 & S6 & S7).
  pose proof Hr as [R1 R2 R3 _ R5]. unfold recv_take. rewrite S4. cbv zeta. set (k := if len rest <? ln then len rest else ln).
  assert (0 <= k <= len rest) as Hk by (subst k; case_match eqn:Ec; bool_props; lia).
  assert (0 < ln -> k = 0 -> rest = []) as Hempty by (intros; destruct rest; [done|]; subst k; case_match eqn:Ec; bool_props; cbn in *; lia). clearbody k.
  set (c1 := set_rq c _). intros [= <- <- <- <-].
  assert (ring_get TCP_RXBUF (rx (rq c)) (rx_tail (rq c)) (Z.to_nat k) = take (Z.to_nat k) rest) as Eo.
  { rewrite <- S2 at 1. rewrite ring_get_take by lia. done. }
  rewrite Eo. assert (len (take (Z.to_nat k) rest) = k) as Elt by (rewrite length_take; lia).
  assert (rcv_ok iss' sentP hP fpP (rq c1) (reset c1) (deliv ++ take (Z.to_nat k) rest) r) as Hr1.
  { subst c1. constructor; cbn; [done|lia| | |done].
    - rewrite R3, u32_small by lia. rewrite zlen_app. lia.
    - exists (drop (Z.to_nat k) rest). rewrite zlen_app, Elt, length_drop, S1. split; [lia|]. split; [unfold TCP_RXBUF in *; lia|]. split.
      + rewrite R3, u32_small by lia. rewrite R3 in S2. rewrite <- S2 at 2. rewrite ring_get_drop by lia. f_equal; lia.
      + rewrite <- assoc_L, take_drop by apply _. done. }
  split; [done|]. split; [|split; [done|]].
  - destruct (_ && _); [|apply adds_refl]. apply (emit_adds _ _ c1); [done|].
    apply (good_ack iss iss' r sent _ _ c1 n); [split; [apply Hr1|lia]|apply (so_nxt _ _ _ _ _ _ Hq)|pose proof (so_order _ _ _ _ _ _ Hq); lia].
  - intros Hret Hpos. destruct (Z.eqb_spec k 0) as [->|]; cbn [negb] in Hret; [|lia]. change (reset c1) with (reset c) in Hret.
    destruct (reset c) eqn:Er; [done|]. destruct (peer_fin (rq c)) eqn:Ef; [|done]. split; [|done].
    rewrite (Hempty Hpos eq_refl), app_nil_r in S3. rewrite S3. apply take_ge. destruct (R5 eq_refl) as [?|[_ ?]]; [done|lia].
Qed.
End Receiver.

(** ** The stream grows *)

Lemma slice_app {A} (l x : list A) o k : (o + k <= length l)%nat -> take k (drop o (l ++ x)) = take k (drop o l).
Proof. intros H. rewrite drop_app_le by lia. rewrite take_app_le; [done|]. rewrite length_drop. lia. Qed.

Lemma good_more iss sent x h iss' r y : h <= len sent + 1 -> good iss sent h false iss' r y -> good iss (sent ++ x) h false iss' r y.
Proof.
  intros Hh [G1 G2 G3]. split; [done| |done]. destruct G2 as [?|(o & H1 & H2 & H3 & H4 & H5 & H6)]; [by left|right]. exists o.
  do 3 (split; [done|]). split; [|split; [|done]].
  - intros Hd. destruct (H4 Hd) as (L1 & L2 & L3). split; [done|]. split; [rewrite zlen_app; lia|]. rewrite slice_app by lia. done.
  - intros F. by destruct (H5 F) as (_ & ? & _).
Qed.

Lemma rcv_more iss sent x h h' fp fp' q rst deliv r : rcv_ok iss sent h fp q rst deliv r -> h <= h' -> (fp = true -> fp' = true) ->
  (x = [] \/ fp = false /\ h <= len sent + 1) -> rcv_ok iss (sent ++ x) h' fp' q rst deliv r.
Proof.
  intros [R1 R2 R3 R4 R5] Hh Hf Hx. constructor; try done; [lia| |].
  - destruct R4 as (rest & S1 & S2 & S3 & S4). exists rest. repeat split; try done. rewrite S4.
    destruct Hx as [->|[_ ?]]; [by rewrite app_nil_r|]. rewrite take_app_le by lia. done.
  - intros Hp. destruct (R5 Hp) as [?|[Hfp ?]]; [by left|]. right. split; [auto|]. destruct Hx as [->|[? _]]; [by rewrite app_nil_r|congruence].
Qed.

Lemma tcp_send_ok iss iss' r sent now (w : io) c data w' c' k u n h : macs_ok w -> snd_ok iss (sq c) sent u n h -> 1 <= u ->
  heard iss' r c -> fin_pending (sq c) = false -> len sent + len data <= LIM -> send_commit now w c data = (w', c', k) ->
  (c' = c /\ w' = w /\ take (Z.to_nat k) data = []) \/ stays iss iss' r (sent ++ take (Z.to_nat k) data) w c u h w' c'.
Proof.
  intros Hm Hq Hu Hr Hf Hlim. unfold send_commit. destruct (_ || _); [intros [= <- <- <-]; by left|].
  pose proof (so_pos _ _ _ _ _ _ Hq) as Hpos. destruct Hq as [A1 A2 A3 A4 A5 A6 A7 A8 A9 A10 A11 A12 A13]. destruct (A10 Hf) as [Hfs Hh].
  specialize (A7 Hu). specialize (A8 Hu). unfold TCP_TXBUF in *.
  set (j := if len data <? 8192 - tx_len (sq c) then len data else 8192 - tx_len (sq c)).
  assert (0 <= j <= len data /\ tx_len (sq c) + j <= 8192) as [Hj Hj2] by (subst j; case_match eqn:Ec; bool_props; lia). clearbody j.
  set (c1 := set_sq c _). destruct (tcp_output now w c1) as [w1 c2] eqn:E. intros [= <- <- <-]. right.
  assert (len (take (Z.to_nat j) data) = j) as El by (rewrite length_take; lia). set (d := take (Z.to_nat j) data) in *.
  assert (same_rest c c1) as Hs by by repeat split.
  destruct (output_ok iss iss' r (sent ++ d) now w c1 w1 c2 u n h) as (n' & h' & C1 & C2 & C3 & C4); try done.
  - subst c1. constructor; cbn; try done; rewrite ?zlen_app, ?El; try lia.
    + intros _. rewrite Z2Nat.inj_add, peek_app by lia. rewrite drop_app_le by lia. f_equal.
      * rewrite peek_poke_before by lia. done.
      * rewrite Z2Nat.id by lia. rewrite <- El at 1. rewrite Nat2Z.id. cbn. apply peek_poke.
    + intros _. split; [done|lia].
    + intros Hc. congruence.
  - exists n', h'. split; [done|]. split; [done|]. split; [exact C3|]. by eapply same_rest_trans.
Qed.
End Wire.
End TcpSpec.
