(* ===== verification/TcpStream.v ===== *)
(** * Network stack: two ends of a TCP connection

    Two connections, one on each machine, from the handshake on, over a network
    that may lose, repeat, delay and reorder every frame.  Each machine runs its
    calls, its sweeps and the frames that reach it in any order.  Whatever
    happens, a reader gets a prefix of what the peer's writer was told it had
    sent, and a clean end of stream means all of it. *)

From stdpp Require Import base list relations.
From Stdlib Require Import ZArith Lia.
From S2P Require Import Prelude Ring NetWire NetDev Tcp TcpFrame TcpSpec.
Open Scope Z_scope.

Module TcpStream.
Import NetDev Tcp TcpFrame TcpSpec.
Notation len l := (Z.of_nat (length l)).

(** ** One end *)

Inductive op :=
  | Send (data : list Z) | Recv (ln : Z) | Shutdown | CloseEnd | Sweep
  | Frame (full : bool) (o : origin) (m : Z -> Z) (f : list Z).

Section Run.
Context {D : Type} `{!NetDriver D}.
Notation io := (io D).

(** A call on a connection: the new state, the bytes taken from the writer and
    the bytes given to the reader.  A send is its two sections with nothing in
    between. *)
Definition run (now : Z) (w : io) (c : conn) (o : op) : io * conn * list Z * list Z :=
  match o with
  | Send data =>
      match send_check c with
      | None => (w, c, [], [])
      | Some _ => let '(w, c, k) := send_commit now w c data in (w, c, take (Z.to_nat k) data, [])
      end
  | Recv ln => let '(w, c, out, _) := recv_take w c ln in (w, c, [], out)
  | Shutdown => let '(w, c) := shutdown_conn now w c in (w, c, [], [])
  | CloseEnd => (w, close_end now c, [], [])
  | Sweep => let '(w, c) := sweep_one now w c in (w, c, [], [])
  | Frame full o m f =>
      let '(w, c, _) := conn_input now full w o c m 54 (load_tcp m 34) (len f - 54) (len f - 34) in (w, c, [], [])
  end.

(** ** The invariant of one end *)

(** Before the SYN+ACK has arrived at the end that connects. *)
Record pre (c : conn) (sent deliv sentP : list Z) (fpP : bool) (r : Z) : Prop := Pre {
  pr_r : r = 0; pr_sent : sent = []; pr_deliv : deliv = []; pr_peer : sentP = [] /\ fpP = false;
  pr_fp : fin_pending (sq c) = false; pr_rx : rx_head (rq c) = 0 /\ rx_tail (rq c) = 0;
  pr_nxt : 0 <= rcv_nxt (rq c) < 4294967296; pr_state : state c = SYN_SENT \/ state c = CLOSED;
  pr_fin : peer_fin (rq c) = true -> reset c = true }.

(** The other end meanwhile. *)
Definition waits (c : conn) (sent : list Z) : Prop :=
  (state c = SYN_RCVD \/ state c = CLOSED) /\ sent = [] /\ fin_pending (sq c) = false.

Section Side.
Context (iss iss' : Z) (sentP : list Z) (hP : Z) (fpP : bool) (rP : Z) (syP : bool).
Context (HhP : 1 <= hP <= len sentP + 3) (HLP : len sentP <= LIM).

Record side (c : conn) (sent deliv : list Z) (u n h r : Z) (sy : bool) : Prop := Side {
  sd_snd : snd_ok iss (sq c) sent u n h;
  sd_id : ident_ok (id c);
  sd_early : u = 0 -> early (state c) = true;
  sd_syn : state c = SYN_SENT \/ state c = SYN_RCVD -> u = 0;
  sd_sent : state c = SYN_SENT -> sy = false;
  sd_rcv : sy = true -> rcv_ok iss' sentP hP fpP (rq c) (reset c) deliv r;
  sd_pre : sy = false -> pre c sent deliv sentP fpP r;
  sd_wait : syP = false -> sy = true /\ waits c sent }.

Lemma side_heard c sent deliv u n h r sy : side c sent deliv u n h r sy -> sy = true -> heard iss' r c.
Proof. intros H E. destruct (sd_rcv _ _ _ _ _ _ _ _ H E) as [R1 R2 _ _ _]. split; [done|lia]. Qed.
Lemma side_send c sent deliv u n h r sy : side c sent deliv u n h r sy -> may_send (state c) = true -> 1 <= u /\ heard iss' r c.
Proof.
  intros H Hs. assert (early (state c) = false /\ (state c = SYN_SENT \/ state c = CLOSED -> False)) as [He Hn] by (destruct (state c); naive_solver).
  pose proof (so_order _ _ _ _ _ _ (sd_snd _ _ _ _ _ _ _ _ H)). split.
  - destruct (decide (u = 0)) as [E|]; [|lia]. by rewrite (sd_early _ _ _ _ _ _ _ _ H E) in He.
  - eapply side_heard; [done|]. destruct sy; [done|]. exfalso. by destruct Hn, (sd_pre _ _ _ _ _ _ _ _ H eq_refl).
Qed.

(** A step of an end: nothing is forgotten, and every frame sent is good. *)
Definition outcome (w : io) (c : conn) (sent deliv : list Z) (h r : Z) (sy : bool) (w' : io) (c' : conn) (a b : list Z) : Prop :=
  exists u' n' h' r' sy', h <= h' /\ r <= r' /\ (sy = true -> sy' = true) /\
    side c' (sent ++ a) (deliv ++ b) u' n' h' r' sy' /\
    adds (good iss (sent ++ a) h' (fin_pending (sq c')) iss' r') (id c) w w' /\ id c' = id c /\
    (fin_pending (sq c) = true -> fin_pending (sq c') = true) /\
    (a = [] \/ fin_pending (sq c) = false /\ h <= len sent + 1).

Section Basic.
Context (w : io) (c : conn) (sent deliv : list Z) (u n h r : Z) (sy : bool).
Context (Hm : macs_ok w) (H : side c sent deliv u n h r sy).

Lemma outcome_refl : outcome w c sent deliv h r sy w c [] [].
Proof.
  exists u, n, h, r, sy. rewrite (app_nil_r sent), (app_nil_r deliv). repeat (split; [done|]). split; [apply adds_refl|]. repeat (split; [done|]). by left.
Qed.

(** Only the state moved, to CLOSED or past the handshake, or timers did. *)
Lemma outcome_state c' : sq c' = sq c -> rq c' = rq c -> id c' = id c -> reset c' = reset c ->
  (state c' = state c \/ state c' = CLOSED \/ early (state c) = false /\ early (state c') = false) -> outcome w c sent deliv h r sy w c' [] [].
Proof.
  intros E1 E2 E3 E4 Es. assert (early (state c) = false -> sy = true /\ syP = true /\ u <> 0) as Hne.
  { intros He. destruct H as [S1 S2 S3 S4 S5 S6 S7 S8]. split; [|split].
    - apply not_false_is_true. intros E. destruct (S7 E) as [_ _ _ _ _ _ _ [E'|E'] _]; by rewrite E' in He.
    - apply not_false_is_true. intros E. destruct (S8 E) as (_ & [E'|E'] & _); by rewrite E' in He.
    - intros E. by rewrite (S3 E) in He. }
  exists u, n, h, r, sy. rewrite (app_nil_r sent), (app_nil_r deliv), E1, E3. repeat (split; [done|]).
  split; [|split; [apply adds_refl|repeat (split; [done|]); by left]]. destruct H as [S1 S2 S3 S4 S5 S6 S7 S8]. constructor; rewrite ?E1, ?E2, ?E3, ?E4; try done.
  - destruct Es as [->|[->|[He _]]]; [done|done|]. intros E. by destruct (Hne He) as (_ & _ & ?).
  - destruct Es as [->|[->|[He He']]]; [done|by intros [?|?]|]. intros [E|E]; by rewrite E in He'.
  - destruct Es as [->|[->|[He He']]]; [done|done|]. intros E; by rewrite E in He'.
  - intros E. destruct (S7 E) as [P1 P2 P3 P4 P5 P6 P7 P8 P9]. constructor; rewrite ?E1, ?E2, ?E4; try done.
    destruct Es as [->|[->|[He _]]]; [done|by right|]. destruct (Hne He) as (? & _); congruence.
  - intros E. destruct (S8 E) as (? & P1 & P2 & P3). split; [done|]. split; [|by rewrite E1].
    destruct Es as [->|[->|[He _]]]; [done|by right|]. destruct (Hne He) as (_ & ? & _); congruence.
Qed.

(** The connection is reset. *)
Lemma outcome_kill c' : sq c' = sq c -> rq c' = set_fin (rq c) -> id c' = id c -> reset c' = true -> state c' = CLOSED ->
  outcome w c sent deliv h r sy w c' [] [].
Proof.
  intros E1 E2 E3 E4 Es. exists u, n, h, r, sy. rewrite (app_nil_r sent), (app_nil_r deliv), E1, E3. repeat (split; [done|]).
  split; [|split; [apply adds_refl|repeat (split; [done|]); by left]]. destruct H as [S1 S2 S3 S4 S5 S6 S7 S8]. constructor; rewrite ?E1, ?E2, ?E3, ?E4, ?Es; try done.
  - by intros [?|?].
  - intros E. destruct (S6 E) as [R1 R2 R3 R4 R5]. constructor; cbn; try done. by left.
  - intros E. destruct (S7 E) as [P1 P2 P3 P4 P5 P6 P7 P8 P9]. constructor; rewrite ?E1, ?E2, ?E4, ?Es; try done. by right.
  - intros E. destruct (S8 E) as (? & P1 & P2 & P3). split; [done|]. split; [by right|]. by rewrite E1.
Qed.

(** The send side worked, and the rest is as it was. *)
Lemma outcome_stays w' c' u' : (u' = u \/ 1 <= u' /\ state c <> SYN_SENT /\ state c <> SYN_RCVD) ->
  stays iss iss' r sent w c u' h w' c' -> outcome w c sent deliv h r sy w' c' [] [].
Proof.
  intros Hu (n' & h' & B1 & B2 & B3 & B4). pose proof B4 as (E1 & E2 & E3 & E4 & E5 & E6 & E7 & E8).
  exists u', n', h', r, sy. rewrite (app_nil_r sent), (app_nil_r deliv), E8, E5. repeat (split; [done|]).
  split; [|split; [done|repeat (split; [done|]); by left]]. destruct H as [S1 S2 S3 S4 S5 S6 S7 S8].
  constructor; rewrite ?E2, ?E4, ?E5, ?E6; try done.
  - destruct Hu as [->|(? & _)]; [done|lia].
  - destruct Hu as [->|(_ & ? & ?)]; [done|]. by intros [?|?].
  - intros E. destruct (S7 E) as [P1 P2 P3 P4 P5 P6 P7 P8 P9]. constructor; rewrite ?E2, ?E4, ?E6, ?E8; done.
  - intros E. destruct (S8 E) as (? & P1 & P2 & P3). split; [done|]. split; [by rewrite E2|]. by rewrite E8.
Qed.

Lemma outcome_trans w1 c1 w2 c2 : outcome w c sent deliv h r sy w1 c1 [] [] ->
  (forall u1 n1 h1 r1 sy1, (sy = true -> sy1 = true) -> macs_ok w1 -> side c1 sent deliv u1 n1 h1 r1 sy1 -> outcome w1 c1 sent deliv h1 r1 sy1 w2 c2 [] []) ->
  outcome w c sent deliv h r sy w2 c2 [] [].
Proof.
  intros (u1 & n1 & h1 & r1 & sy1 & B1 & B2 & B3 & B4 & B5 & B6 & B7 & _) HN. rewrite (app_nil_r sent) in B4, B5. rewrite (app_nil_r deliv) in B4.
  assert (macs_ok w1) as Hm1 by (by eapply adds_macs).
  destruct (HN u1 n1 h1 r1 sy1 B3 Hm1 B4) as (u2 & n2 & h2 & r2 & sy2 & C1 & C2 & C3 & C4 & C5 & C6 & C7 & _).
  exists u2, n2, h2, r2, sy2. split; [lia|]. split; [lia|]. split; [auto|]. split; [done|]. split; [|split; [congruence|split; [auto|by left]]].
  rewrite B6 in C5. eapply adds_trans; [|exact C5]. rewrite !app_nil_r. eapply adds_mono; [|exact B5].
  intros x Hx. eapply good_mono; [exact C1|exact C2|]. by eapply good_fp.
Qed.

End Basic.

Section Ops.
Context (w : io) (c : conn) (sent deliv : list Z) (u n h r : Z) (sy : bool).
Context (Hm : macs_ok w) (H : side c sent deliv u n h r sy).

(** *** The sweep *)
Lemma sweep_ok now w' c' : sweep_one now w c = (w', c') -> outcome w c sent deliv h r sy w' c' [] [].
Proof.
  unfold sweep_one. destruct (_ || _); [intros [= <- <-]; eapply outcome_refl; exact H|]. unfold sweep_rto.
  assert (forall x : conn, sq (sweep_reclaim now x) = sq x /\ rq (sweep_reclaim now x) = rq x /\ id (sweep_reclaim now x) = id x /\
    reset (sweep_reclaim now x) = reset x /\ (state (sweep_reclaim now x) = state x \/ state (sweep_reclaim now x) = CLOSED \/
      early (state x) = false /\ early (state (sweep_reclaim now x)) = false)) as Hrec.
  { intros x. unfold sweep_reclaim. repeat (cbv zeta; case_match); cbn; auto 10. }
  destruct (negb _ && _).
  - destruct (_ <? _); [intros [= <- <-]; eapply outcome_kill; try exact H; done|]. destruct (resend w c) as [w1 c1] eqn:Er. intros [= <- <-].
    eapply (outcome_trans w c sent deliv h r sy Hm w1 c1 w1).
    + eapply (outcome_stays w c sent deliv u n h r sy H w1 c1 u); [by left|]. destruct H as [S1 S2 S3 S4 S5 S6 S7 S8]. eapply resend_ok; try done.
      * destruct sy; [|by destruct (S7 eq_refl)]. rewrite (ro_nxt _ _ _ _ _ _ _ _ (S6 eq_refl)). apply u32_range.
      * destruct sy; [left; by eapply (side_heard c sent deliv u n h r true)|]. right. destruct (S7 eq_refl) as [P1 P2 P3 P4 P5 P6 P7 P8 P9].
        split; [|split; [by destruct (so_open _ _ _ _ _ _ S1 P5)|destruct P8; congruence]].
        pose proof (so_order _ _ _ _ _ _ S1). destruct (decide (u = 0)) as [E|E]; [by destruct (so_syn _ _ _ _ _ _ S1 E) as (_ & _ & ? & _)|].
        rewrite (so_len _ _ _ _ _ _ S1) by lia. subst sent. cbn. lia.
    + intros u1 n1 h1 r1 sy1 _ Hm1 H1. set (c2 := set_tm c1 _). destruct (Hrec c2) as (? & ? & ? & ? & ?). eapply outcome_state; try exact H1; done.
  - intros [= <- <-]. destruct (Hrec c) as (? & ? & ? & ? & ?). eapply outcome_state; try exact H; done.
Qed.

Lemma not_early : early (state c) = false -> 1 <= u /\ sy = true /\ syP = true.
Proof.
  intros He. pose proof (so_order _ _ _ _ _ _ (sd_snd _ _ _ _ _ _ _ _ H)). split; [|split].
  - destruct (decide (u = 0)) as [E|]; [|lia]. by rewrite (sd_early _ _ _ _ _ _ _ _ H E) in He.
  - apply not_false_is_true. intros E. destruct (sd_pre _ _ _ _ _ _ _ _ H E) as [_ _ _ _ _ _ _ [E'|E'] _]; by rewrite E' in He.
  - apply not_false_is_true. intros E. destruct (sd_wait _ _ _ _ _ _ _ _ H E) as (_ & [E'|E'] & _); by rewrite E' in He.
Qed.

Lemma shutdown_ok now w' c' : shutdown_conn now w c = (w', c') -> outcome w c sent deliv h r sy w' c' [] [].
Proof.
  unfold shutdown_conn. destruct (st_is (state c) ESTABLISHED || _) eqn:Es; [|intros [= <- <-]; eapply outcome_refl; exact H].
  assert (early (state c) = false) as He by (destruct (state c); naive_solver). destruct (not_early He) as (Hu & Hsy & HsyP).
  set (c1 := set_sq _ _). intros E. pose proof H as [S1 S2 S3 S4 S5 S6 S7 S8].
  destruct (output_ok iss iss' r sent now w c1 w' c' u n h) as (n' & h' & B1 & B2 & B3 & B4); try done.
  { intros _. split; [done|]. change (heard iss' r c). eapply side_heard; try exact H. done. }
  { destruct S1 as [A1 A2 A3 A4 A5 A6 A7 A8 A9 A10 A11 A12 A13]. constructor; cbn; try done. intros ->. lia. }
  pose proof B4 as (E1 & E2 & E3 & E4 & E5 & E6 & E7 & E8).
  assert (state c1 = FIN_WAIT_1 \/ state c1 = LAST_ACK) as Est by (subst c1; cbn; destruct (state c); naive_solver).
  exists u, n', h', r, sy. rewrite (app_nil_r sent), (app_nil_r deliv). repeat (split; [done|]). split; [|split; [|split; [by rewrite E5|split; [by rewrite E8|by left]]]].
  - constructor; rewrite ?E2, ?E4, ?E5, ?E6; try done.
    + intros ->. lia.
    + destruct Est as [->| ->]; by intros [?|?].
    + destruct Est as [->| ->]; done.
    + congruence.
    + congruence.
  - rewrite E8. exact B3.
Qed.

Lemma send_step_ok now data w' c' a b : early (state c) = false \/ state c = CLOSED -> len sent + len data <= LIM ->
  run now w c (Send data) = (w', c', a, b) -> outcome w c sent deliv h r sy w' c' a b.
Proof.
  intros Ho Hlim. cbn [run]. destruct (send_check c) as [room|] eqn:Ec; [|intros [= <- <- <- <-]; eapply outcome_refl; exact H].
  unfold send_check in Ec. destruct (reset c || st_is (state c) CLOSED) eqn:E1; [done|].
  destruct (st_is (state c) FIN_WAIT_1 || _ || _ || fin_pending (sq c)) eqn:E2; [done|]. clear Ec. apply orb_false_iff in E1 as [_ E1]. apply orb_false_iff in E2 as [_ Hf].
  assert (early (state c) = false) as He by (destruct Ho as [?|Ho]; [done|by rewrite Ho in E1]). destruct (not_early He) as (Hu & Hsy & HsyP).
  destruct (send_commit now w c data) as [[w1 c1] k] eqn:Es. intros [= <- <- <- <-]. pose proof H as [S1 S2 S3 S4 S5 S6 S7 S8].
  destruct (tcp_send_ok iss iss' r sent now w c data w1 c1 k u n h) as [(-> & -> & ->)|(n' & h' & B1 & B2 & B3 & B4)]; try done.
  { eapply side_heard; try exact H. done. }
  { eapply outcome_refl; exact H. }
  pose proof B4 as (E3 & E4 & E5 & E6 & E7 & E8 & E9 & E10). destruct (so_open _ _ _ _ _ _ S1 Hf) as [_ Hh].
  exists u, n', h', r, sy. rewrite (app_nil_r deliv). repeat (split; [done|]). split; [|split; [by rewrite E10|split; [done|split; [by rewrite E10|by right]]]].
  constructor; rewrite ?E4, ?E6, ?E7, ?E8; try done; congruence.
Qed.

Lemma recv_step_ok now ln w' c' a b : early (state c) = false \/ state c = CLOSED -> 0 <= ln ->
  run now w c (Recv ln) = (w', c', a, b) -> outcome w c sent deliv h r sy w' c' a b.
Proof.
  intros Ho Hln. cbn [run]. destruct (recv_take w c ln) as [[[w1 c1] out] ret] eqn:Er. intros [= <- <- <- <-]. pose proof H as [S1 S2 S3 S4 S5 S6 S7 S8].
  destruct sy.
  - destruct (recv_take_ok iss iss' sent sentP hP fpP HLP w c ln deliv r u n h w1 c1 out ret) as (B1 & B2 & B3 & _); try done; [by apply S6|].
    rewrite B3. exists u, n, h, r, true. rewrite (app_nil_r sent). repeat (split; [done|]). split; [|split; [done|repeat (split; [done|]); by left]].
    rewrite B3 in B1. constructor; try done.
  - destruct (S7 eq_refl) as [P1 P2 P3 P4 P5 [P6 P6'] P7 P8 P9]. unfold recv_take in Er.
    assert (tcp_rx_avail (rq c) = 0) as Ea by (unfold tcp_rx_avail; by rewrite P6, P6'). rewrite Ea in Er. cbv zeta in Er.
    assert ((if 0 <? ln then 0 else ln) = 0) as Ek by (destruct (Z.ltb_spec 0 ln); lia). rewrite Ek in Er. cbn in Er.
    injection Er as <- <- <- _. apply (outcome_state w c sent deliv u n h r false); try done.
    + cbn. rewrite P6'. change (u32 (0 + 0)) with 0. rewrite <- P6' at 1. by destruct (rq c).
    + by left.
Qed.

Lemma tcp_close_ok now : outcome w c sent deliv h r sy w (close_end now c) [] [].
Proof. eapply outcome_state; try exact H; unfold close_end; case_match; cbn; auto. Qed.

(** *** Frames *)

(** The acknowledgement and the end of the handshake. *)
Lemma ack_est_ok now full a win w1 c1 w2 c2 pushed : state c <> SYN_SENT -> 1 <= a <= h -> syP = true ->
  ack_input now w c (u32 (iss + a)) win = (w1, c1) -> est_input full w1 c1 (u32 (iss + a)) = (w2, c2, pushed) ->
  outcome w c sent deliv h r sy w2 c2 [] [].
Proof.
  intros Hss Ha HsyP E1 E2. pose proof H as [S1 S2 S3 S4 S5 S6 S7 S8].
  destruct (ack_input_ok iss iss' r sent now w c a win w1 c1 u n h) as (u' & Hu' & Hst); try done.
  { intros Hs. eapply side_send; try exact H. done. }
  pose proof Hst as (n' & h' & B1 & B2 & B3 & B4). pose proof B4 as (F1 & F2 & F3 & F4 & F5 & F6 & F7 & F8).
  unfold est_input in E2. rewrite F2 in E2. destruct (decide (state c = SYN_RCVD)) as [Er|Er].
  - pose proof (S4 (or_intror Er)) as Hu. destruct (so_syn _ _ _ _ _ _ S1 Hu) as (Hn & Hse & Htl & Hfp).
    rewrite <- F8 in Hfp. destruct (so_open _ _ _ _ _ _ B2 Hfp) as [_ Hh']. pose proof (so_order _ _ _ _ _ _ B2). rewrite Hse in Hh'. cbn in Hh'.
    assert (n' = 1) as -> by lia. rewrite Er in E2. change (st_is SYN_RCVD SYN_RCVD) with true in E2. rewrite (so_nxt _ _ _ _ _ _ B2), seq_leq_pos in E2 by lia.
    destruct (Z.leb_spec 1 a); [|lia]. cbn [andb] in E2.
    assert (sy = true) as Hsy by (destruct sy; [done|]; destruct (S7 eq_refl) as [_ _ _ _ _ _ _ [?|?] _]; congruence).
    assert (forall c3, sq c3 = sq c1 -> rq c3 = rq c1 -> id c3 = id c1 -> reset c3 = reset c1 -> state c3 = ESTABLISHED \/ state c3 = CLOSED ->
      adds (good iss sent h' (fin_pending (sq c)) iss' r) (id c) w w2 -> outcome w c sent deliv h r sy w2 c3 [] []) as Hfin.
    { intros c3 G1 G2 G3 G4 G5 G6. exists u', 1, h', r, sy. rewrite (app_nil_r sent), (app_nil_r deliv), G1, G3, F8, F5. repeat (split; [done|]).
      split; [|split; [done|repeat (split; [done|]); by left]]. constructor; rewrite ?G1, ?G2, ?G3, ?G4, ?F4, ?F5, ?F6; try done.
      - intros ->. lia.
      - destruct G5 as [->| ->]; by intros [?|?].
      - destruct G5 as [->| ->]; done.
      - congruence.
      - congruence. }
    set (c3 := set_tm _ _) in E2. change (parent (li c3)) with (parent (li c1)) in E2. destruct (parent (li c1)).
    + destruct full; injection E2 as <- <- <-; (apply Hfin; [done..|by (left + right)|]).
      * eapply adds_trans; [exact B3|]. rewrite <- F5. apply (emit_adds _ _ c3); [by eapply adds_macs|]. split.
        -- split; cbn; try done; try apply win_range; try (unfold byte; lia); try (rewrite (so_nxt _ _ _ _ _ _ B2); apply u32_range).
           rewrite F6, (ro_nxt _ _ _ _ _ _ _ _ (S6 Hsy)). apply u32_range.
        -- by left.
        -- done.
      * done.
    + injection E2 as <- <- <-. apply Hfin; try done. by left.
  - assert (st_is (state c) SYN_RCVD = false) as Ef by (by apply bool_decide_eq_false_2). rewrite Ef in E2. injection E2 as <- <- <-.
    eapply outcome_stays; try exact H; [|exact Hst]. by right.
Qed.

Lemma fin_acked_ok ack c1 stop : fin_acked c ack = (c1, stop) -> outcome w c sent deliv h r sy w c1 [] [].
Proof.
  unfold fin_acked. cbv zeta. intros E. apply (outcome_state w c sent deliv u n h r sy H).
  all: destruct (state c) eqn:Es; cbn in E; repeat case_match; cbn in *; simplify_eq; cbn; rewrite ?Es; auto.
Qed.

Lemma data_step_ok m o data w1 c1 : sy = true -> peek m 54 (length data) = data -> 0 <= o -> o + len data <= hP ->
  (data <> [] -> 1 <= o /\ o - 1 + len data <= len sentP /\ data = take (length data) (drop (Z.to_nat (o - 1)) sentP)) ->
  data_input w c m 54 (u32 (iss' + o)) (len data) = (w1, c1) -> outcome w c sent deliv h r sy w1 c1 [] [].
Proof.
  intros -> Hmem Ho Hoh Hd E. pose proof H as [S1 S2 S3 S4 S5 S6 S7 S8].
  destruct (data_input_ok iss iss' sent sentP hP fpP ltac:(lia) HLP w c m 54 o data deliv r u n h w1 c1) as (r' & B1 & B2 & B3 & B4); try done; [by apply S6|].
  exists u, n, h, r', true. rewrite (app_nil_r sent), (app_nil_r deliv). rewrite B4. rewrite B4 in B2. repeat (split; [done|]). by left.
Qed.

Lemma fin_step_ok now o w1 c1 : sy = true -> syP = true -> fpP = true -> len sentP + 1 <= o -> o + 1 <= hP ->
  fin_input now w c (u32 (iss' + o)) 0 = (w1, c1) -> outcome w c sent deliv h r sy w1 c1 [] [].
Proof.
  intros -> HsyP Hf Ho Hoh E. pose proof H as [S1 S2 S3 S4 S5 S6 S7 S8].
  destruct (fin_input_ok iss iss' sent sentP hP fpP ltac:(lia) HLP now w c o deliv r u n h w1 c1) as (r' & B1 & B2 & B3 & B4 & B5 & B6 & B7); try done; [by apply S6|].
  exists u, n, h, r', true. rewrite (app_nil_r sent), (app_nil_r deliv), B4, B5. repeat (split; [done|]).
  split; [|split; [done|repeat (split; [done|]); by left]]. constructor; rewrite ?B4, ?B5; try done.
  - destruct B7 as [->|[He _]]; [done|]. intros Hu. by rewrite (S3 Hu) in He.
  - destruct B7 as [->|[_ He]]; [done|]. intros [E'|E']; by rewrite E' in He.
  - destruct B7 as [->|[_ He]]; [done|]. intros E'; by rewrite E' in He.
  - congruence.
Qed.

(** The SYN+ACK reaches the end that connects. *)
Lemma syn_ack_ok now win w1 c1 : state c = SYN_SENT -> syP = true ->
  let r0 := rq c in
  let c0 := set_rq c (Rcv (u32 (u32 (iss' + 0) + 1)) (rx r0) (rx_head r0) (rx_tail r0) (peer_fin r0)) in
  let c0 := set_sq c0 (set_wnd (set_una (sq c0) (nxt (sq c))) win) in
  let c0 := set_tm (set_state c0 ESTABLISHED) (fresh_rto (tm c0)) in
  tcp_output now (tcp_emit w c0 (nxt (sq c0)) TCP_ACK []).1 c0 = (w1, c1) -> outcome w c sent deliv h r sy w1 c1 [] [].
Proof.
  intros Hst HsyP r0 c0' c0'' c0 E. pose proof H as [S1 S2 S3 S4 S5 S6 S7 S8]. pose proof (S5 Hst) as ->.
  destruct (S7 eq_refl) as [P1 P2 P3 [P4 P4'] P5 [P6 P6'] P7 P8 P9]. pose proof (S4 (or_introl Hst)) as ->.
  destruct (so_syn _ _ _ _ _ _ S1 eq_refl) as (-> & _ & Htl & _). destruct (so_open _ _ _ _ _ _ S1 P5) as [Hfs Hh]. rewrite P2 in Hh. cbn in Hh.
  pose proof (so_order _ _ _ _ _ _ S1).
  assert (rcv_ok iss' sentP hP fpP (rq c0) (reset c0) deliv 1) as Hr.
  { subst c0 c0'' c0' r0. constructor; cbn; [by rewrite u32_add|lia|by rewrite P3| |].
    - exists []. rewrite P3, P6. cbn. by repeat split.
    - intros Hf. left. auto. }
  assert (snd_ok iss (sq c0) sent 1 1 h) as Hq0.
  { rewrite P2. destruct S1 as [A1 A2 A3 A4 A5 A6 A7 A8 A9 A10 A11 A12 A13]. rewrite P2 in *. subst c0 c0'' c0' r0.
    constructor; cbn; rewrite ?Htl; try done; lia. }
  assert (heard iss' 1 c0) as Hrd by (split; [apply Hr|lia]).
  assert (adds (good iss sent h (fin_pending (sq c0)) iss' 1) (id c) w (tcp_emit w c0 (nxt (sq c0)) TCP_ACK []).1) as Ha.
  { apply (emit_adds _ _ c0); [done|]. apply (good_ack iss iss' 1 sent _ _ c0 1); [done|apply (so_nxt _ _ _ _ _ _ Hq0)|lia]. }
  destruct (output_ok iss iss' 1 sent now (tcp_emit w c0 (nxt (sq c0)) TCP_ACK []).1 c0 w1 c1 1 1 h) as (n' & h' & B1 & B2 & B3 & B4); try done.
  { by eapply adds_macs. }
  pose proof B4 as (F1 & F2 & F3 & F4 & F5 & F6 & F7 & F8).
  exists 1, n', h', 1, true. rewrite (app_nil_r sent), (app_nil_r deliv), F5. split; [done|]. split; [lia|]. split; [done|].
  split; [|split; [|split; [done|split; [by rewrite F8|by left]]]].
  - constructor; rewrite ?F2, ?F4, ?F5, ?F6; try done; [by intros [?|?]|congruence].
  - rewrite F8. eapply adds_trans; [|exact B3]. eapply adds_mono; [|exact Ha]. intros x. apply good_mono; lia.
Qed.
End Ops.

Section Deliver.
Context (w : io) (c : conn) (sent deliv : list Z) (u n h r : Z) (sy : bool).
Context (Hm : macs_ok w) (H : side c sent deliv u n h r sy).
Context (iP : ident) (smac : list Z) (x : pseg) (m : Z -> Z).
Context (HiP : ident_ok iP) (Hsm : length smac = 6%nat) (Hx : good iss' sentP hP fpP iss rP x) (Hh : holds m (frame iP smac x)).
Context (HrP : rP <= h) (HsyP : syP = false -> rP = 0 /\ fpP = false /\ sentP = []).

Lemma frame_step_ok now full og w' c' a b : run now w c (Frame full og m (frame iP smac x)) = (w', c', a, b) ->
  outcome w c sent deliv h r sy w' c' a b.
Proof.
  cbn [run]. destruct Hx as [G1 G2 G3]. destruct (load_frame iP smac x m HiP Hsm G1 Hh) as [El Ed].
  rewrite frame_length by (apply HiP || done). rewrite El. replace (len (ps_data x) + 0) with (len (ps_data x)) by lia.
  replace (Z.of_nat (54 + length (ps_data x)) - 54) with (len (ps_data x)) by lia.
  set (seglen := Z.of_nat (54 + length (ps_data x)) - 34). unfold conn_input. cbn [s_flags s_ack s_seq s_win].
  destruct (has (ps_flags x) TCP_RST) eqn:ER.
  { intros [= <- <- <- <-]. eapply outcome_kill; try exact H; done. }
  destruct G2 as [[? _]|(o & Q1 & Q2 & Q3 & Q4 & Q5 & Q6)]; [done|]. pose proof H as [S1 S2 S3 S4 S5 S6 S7 S8].
  assert (has (ps_flags x) TCP_ACK = true -> syP = true) as HA.
  { intros HA. apply not_false_is_true. intros E. destruct (HsyP E) as (E0 & _). destruct (G3 HA) as (a0 & _ & ?). lia. }
  destruct (decide (state c = SYN_SENT)) as [Es|Es].
  { rewrite Es. change (st_is SYN_SENT SYN_SENT) with true. cbv iota.
    destruct (has (ps_flags x) TCP_SYN && has (ps_flags x) TCP_ACK) eqn:Eb; [|intros [= <- <- <- <-]; eapply outcome_refl; exact H].
    apply andb_true_iff in Eb as [ES EA]. destruct (G3 EA) as (a0 & Ea & Ha0). pose proof (S4 (or_introl Es)) as Hu0.
    destruct (so_syn _ _ _ _ _ _ S1 Hu0) as (Hn1 & Hse & _ & Hfp). destruct (so_open _ _ _ _ _ _ S1 Hfp) as [_ Hh1]. rewrite Hse in Hh1. cbn in Hh1.
    assert (a0 = 1) as -> by lia. rewrite Ea, (so_nxt _ _ _ _ _ _ S1), Hn1, Z.eqb_refl. cbn [negb]. rewrite Q1, (Q6 ES).
    cbv zeta. match goal with |- context [tcp_output now ?w0 ?c0] => destruct (tcp_output now w0 c0) as [w1 c1] eqn:Eo end.
    intros [= <- <- <- <-]. eapply (syn_ack_ok w c sent deliv u n h r sy Hm H now (ps_win x)); [done|by apply HA|].
    cbv zeta. rewrite (so_nxt _ _ _ _ _ _ S1), Hn1. exact Eo. }
  assert (st_is (state c) SYN_SENT = false) as Esf by (by apply bool_decide_eq_false_2). rewrite Esf. cbv iota.
  destruct (if has (ps_flags x) TCP_ACK then _ else _) as [[[w1 c1] pushed] stop] eqn:E1.
  assert (outcome w c sent deliv h r sy w1 c1 [] []) as Hack.
  { destruct (has (ps_flags x) TCP_ACK) eqn:EA; [|injection E1 as <- <- <- <-; eapply outcome_refl; exact H].
    destruct (G3 eq_refl) as (a0 & Ea & Ha0). rewrite Ea in E1. destruct (ack_input _ _ _ _ _) as [w2 c2] eqn:Ei.
    destruct (est_input _ _ _ _) as [[w3 c3] pu] eqn:Ee. destruct (fin_acked _ _) as [c4 st4] eqn:Ef. injection E1 as <- <- <- <-.
    eapply (outcome_trans w c sent deliv h r sy Hm w3 c3 w3 c4).
    - eapply (ack_est_ok w c sent deliv u n h r sy Hm H); try done; [lia|by apply HA].
    - intros u1 n1 h1 r1 sy1 _ Hm1 H1. by eapply (fin_acked_ok w3 c3 sent deliv u1 n1 h1 r1 sy1). }
  destruct stop. { intros [= <- <- <- <-]. done. }
  destruct (data_input _ _ _ _ _ _) as [w2 c2] eqn:E2. destruct (if has _ TCP_FIN then _ else _) as [w3 c3] eqn:E3. intros [= <- <- <- <-].
  rewrite Q1 in E2, E3.
  assert (sy = false -> ps_data x = [] /\ has (ps_flags x) TCP_FIN = false) as Hq.
  { intros ->. destruct (S7 eq_refl) as [_ _ _ [-> ->] _ _ _ _ _]. split.
    - destruct (ps_data x); [done|]. destruct Q4 as (? & ? & _); [done|]. cbn in *. lia.
    - apply not_true_is_false. intros F. by destruct (Q5 F) as (_ & ? & _). }
  assert (outcome w c sent deliv h r sy w2 c2 [] []) as Hdata.
  { eapply (outcome_trans w c sent deliv h r sy Hm w1 c1 w2 c2 Hack). intros u1 n1 h1 r1 sy1 Hsy1 Hm1 H1. destruct (decide (sy = true)) as [Hy|Hy].
    - eapply (data_step_ok w1 c1 sent deliv u1 n1 h1 r1 sy1 Hm1 H1 m o (ps_data x)); try done. auto.
    - apply not_true_is_false in Hy. destruct (Hq Hy) as [E0 _]. rewrite E0 in E2. injection E2 as <- <-. by eapply outcome_refl. }
  destruct (has (ps_flags x) TCP_FIN) eqn:EF; [|by injection E3 as <- <-].
  destruct (Q5 eq_refl) as (Ed0 & Hfp & Hf1 & Hf2). rewrite Ed0 in E3. change (len ([] : list Z)) with 0 in E3.
  eapply (outcome_trans w c sent deliv h r sy Hm w2 c2 w3 c3 Hdata). intros u1 n1 h1 r1 sy1 Hsy1 Hm1 H1.
  assert (sy = true) as Hy by (apply not_false_is_true; intros Hy; by destruct (Hq Hy)).
  eapply (fin_step_ok w2 c2 sent deliv u1 n1 h1 r1 sy1 Hm1 H1); try done; [auto|].
  apply not_false_is_true. intros Hp. destruct (HsyP Hp) as (_ & ? & _). congruence.
Qed.
End Deliver.
End Side.

Lemma side_peer iss iss' sentP a hP hP' fpP fpP' (syP syP' : bool) c sent deliv u n h r sy :
  side iss iss' sentP hP fpP syP c sent deliv u n h r sy -> hP <= hP' -> (fpP = true -> fpP' = true) ->
  (a = [] \/ fpP = false /\ hP <= len sentP + 1) -> (syP = true -> syP' = true) -> (sy = false -> sentP ++ a = [] /\ fpP' = false) ->
  side iss iss' (sentP ++ a) hP' fpP' syP' c sent deliv u n h r sy.
Proof.
  intros [S1 S2 S3 S4 S5 S6 S7 S8] Hh Hf Ha Hs Hp. constructor; try done.
  - intros E. eapply rcv_more; eauto.
  - intros E. destruct (S7 E) as [P1 P2 P3 P4 P5 P6 P7 P8 P9]. constructor; auto.
  - intros E. apply S8. destruct syP; [|done]. by rewrite Hs in E.
Qed.

(** ** The two ends and the network between them *)

(** [true] is the end that connects.  [air s] is every frame end [s] has sent:
    a frame may be delivered any number of times, in any order, or never. *)
Record sys := Sys { ec : bool -> conn; es : bool -> list Z; ed : bool -> list Z; air : bool -> list (list Z) }.
Definition at_ {A} (f : bool -> A) (s : bool) (v : A) : bool -> A := fun t => if Bool.eqb t s then v else f t.

(** The user has the connection once it is established, and until he closes
    it; connect and accept hand out nothing earlier. *)
Definition owned (c : conn) : Prop := early (state c) = false \/ state c = CLOSED.
Definition allowed (y : sys) (s : bool) (o : op) : Prop :=
  match o with
  | Send data => owned (ec y s) /\ len (es y s) + len data <= LIM
  | Recv ln => owned (ec y s) /\ 0 <= ln
  | Frame _ _ m f => f ∈ air y (negb s) /\ holds m f
  | _ => True
  end.

Inductive step (y : sys) : sys -> Prop :=
  | Step s now (w : io) o w' c' a b l :
      macs_ok w -> allowed y s o -> run now w (ec y s) o = (w', c', a, b) -> wire w' = wire w ++ l ->
      step y (Sys (at_ (ec y) s c') (at_ (es y) s (es y s ++ a)) (at_ (ed y) s (ed y s ++ b)) (at_ (air y) s (air y s ++ map snd l))).

(** After the SYN: the connecting end waits for the answer, the listener's
    child has sent it. *)
Record opened (y : sys) : Prop := Opened {
  op_id : forall s, ident_ok (id (ec y s));
  op_state : state (ec y true) = SYN_SENT /\ state (ec y false) = SYN_RCVD;
  op_ghost : forall s, es y s = [] /\ ed y s = [];
  op_snd : forall s, 0 <= una (sq (ec y s)) < 4294967296 /\ nxt (sq (ec y s)) = u32 (una (sq (ec y s)) + 1) /\
    tx_len (sq (ec y s)) = 0 /\ fin_pending (sq (ec y s)) = false /\ fin_sent (sq (ec y s)) = false;
  op_rcv : forall s, rx_head (rq (ec y s)) = 0 /\ rx_tail (rq (ec y s)) = 0 /\ peer_fin (rq (ec y s)) = false /\
    rcv_nxt (rq (ec y s)) = if s then 0 else u32 (una (sq (ec y true)) + 1);
  op_air : forall s f, f ∈ air y s -> exists smac win, length smac = 6%nat /\ 0 <= win < 65536 /\
    f = frame (id (ec y s)) smac (PSeg (una (sq (ec y s))) (rcv_nxt (rq (ec y s))) (if s then TCP_SYN else Z.lor TCP_SYN TCP_ACK) win []) }.

(** ** The invariant of both *)
Definition fp (y : sys) (s : bool) : bool := fin_pending (sq (ec y s)).
Record views := Views { v_iss : bool -> Z; v_u : bool -> Z; v_n : bool -> Z; v_h : bool -> Z; v_r : bool -> Z; v_sy : bool -> bool }.
Record inv (y : sys) (v : views) : Prop := Inv {
  in_side : forall s, side (v_iss v s) (v_iss v (negb s)) (es y (negb s)) (v_h v (negb s)) (fp y (negb s)) (v_sy v (negb s))
    (ec y s) (es y s) (ed y s) (v_u v s) (v_n v s) (v_h v s) (v_r v s) (v_sy v s);
  in_air : forall s f, f ∈ air y s -> exists smac x, length smac = 6%nat /\
    good (v_iss v s) (es y s) (v_h v s) (fp y s) (v_iss v (negb s)) (v_r v s) x /\ f = frame (id (ec y s)) smac x }.

Lemma opened_inv y : opened y -> exists v, inv y v.
Proof.
  intros [O1 [O2 O2'] O3 O4 O5 O6].
  exists (Views (fun s => una (sq (ec y s))) (fun _ => 0) (fun _ => 1) (fun _ => 1) (fun s => if s then 0 else 1) (fun s => negb s)).
  assert (forall s, snd_ok (una (sq (ec y s))) (sq (ec y s)) (es y s) 0 1 1) as Hq.
  { intros s. destruct (O3 s) as [-> _], (O4 s) as (H1 & H2 & H3 & H4 & H5). constructor; rewrite ?Z.add_0_r, ?H3; try done; try lia.
    - by rewrite u32_small.
    - intros. congruence. }
  split; cbn [v_iss v_u v_n v_h v_r v_sy].
  - intros s. destruct (O3 s) as [E1 E2], (O3 (negb s)) as [E3 _], (O4 s) as (H1 & H2 & H3 & H4 & H5), (O4 (negb s)) as (_ & _ & _ & K4 & _), (O5 s) as (R1 & R2 & R3 & R4).
    pose proof (Hq s) as Hqs. constructor; try done; rewrite ?E1, ?E2, ?E3; unfold fp; rewrite ?K4.
    + destruct s; [by rewrite O2|by rewrite O2'].
    + destruct s; [done|]. by rewrite O2'.
    + destruct s; [done|]. intros _. constructor; cbn; try done; rewrite ?R1, ?R2, ?R3, ?R4; try done. by exists [].
    + destruct s; [|done]. intros _. constructor; rewrite ?R1, ?R2, ?R3, ?R4; try done; auto.
    + destruct s; [done|]. intros _. split; [done|]. split; [by left|done].
  - intros s f Hf. destruct (O6 s f Hf) as (smac & win & Hs & Hw & ->). eexists smac, _. split; [done|]. split; [|done].
    destruct (O4 s) as (H1 & _). destruct (O5 s) as (_ & _ & _ & R4). split.
    + split; cbn; try done; [rewrite R4; destruct s; [done|apply u32_range]|by destruct s].
    + right. exists 0. cbn. rewrite Z.add_0_r, u32_small by done. repeat split; try done; try lia; by destruct s.
    + cbn. rewrite R4. destruct s; [done|]. intros _. exists 1. done.
Qed.

Lemma inv_facts y v s : inv y v -> 1 <= v_h v s <= len (es y s) + 3 /\ len (es y s) <= LIM /\ v_r v s <= v_h v (negb s) /\
  (v_sy v s = false -> v_r v s = 0 /\ fp y s = false /\ es y s = []).
Proof.
  intros [I1 I2]. pose proof (I1 s) as [S1 S2 S3 S4 S5 S6 S7 S8]. pose proof (I1 (negb s)) as [T1 _ _ _ _ _ _ _].
  pose proof (so_order _ _ _ _ _ _ S1). pose proof (so_order _ _ _ _ _ _ T1). pose proof (so_h _ _ _ _ _ _ S1). pose proof (so_lim _ _ _ _ _ _ S1).
  split; [|split; [done|split]].
  - destruct (decide (v_u v s = 0)) as [E|]; [|lia]. destruct (so_syn _ _ _ _ _ _ S1 E) as (? & _). lia.
  - destruct (v_sy v s) eqn:E; [pose proof (ro_r _ _ _ _ _ _ _ _ (S6 eq_refl)); lia|]. rewrite (pr_r _ _ _ _ _ _ (S7 eq_refl)). lia.
  - intros E. destruct (S7 E). done.
Qed.

Lemma at_same {A} (f : bool -> A) s x : at_ f s x s = x.
Proof. unfold at_. by rewrite Bool.eqb_reflx. Qed.
Lemma at_other {A} (f : bool -> A) s x : at_ f s x (negb s) = f (negb s).
Proof. by destruct s. Qed.

Lemma step_inv y y' v : inv y v -> step y y' -> exists v', inv y' v'.
Proof.
  intros I [s now w o w' c' a b l Hm Hal Hrun Hl]. pose proof (in_side y v I s) as Hside.
  destruct (inv_facts y v (negb s) I) as (F1 & F2 & F3 & F4). rewrite negb_involutive in F3.
  assert (outcome (v_iss v s) (v_iss v (negb s)) (es y (negb s)) (v_h v (negb s)) (fp y (negb s)) (v_sy v (negb s))
    w (ec y s) (es y s) (ed y s) (v_h v s) (v_r v s) (v_sy v s) w' c' a b) as Hout.
  { destruct o as [data|ln| | | |full og m f]; cbn [allowed] in Hal.
    - destruct Hal. by eapply send_step_ok.
    - destruct Hal. by eapply recv_step_ok.
    - cbn [run] in Hrun. destruct (shutdown_conn now w (ec y s)) as [w1 c1] eqn:E. injection Hrun as <- <- <- <-. by eapply shutdown_ok.
    - cbn [run] in Hrun. injection Hrun as <- <- <- <-. by eapply tcp_close_ok.
    - cbn [run] in Hrun. destruct (sweep_one now w (ec y s)) as [w1 c1] eqn:E. injection Hrun as <- <- <- <-. by eapply sweep_ok.
    - destruct Hal as [Hf Hh]. destruct (in_air y v I (negb s) f Hf) as (smac & x & Hs6 & Hg & ->). rewrite negb_involutive in Hg.
      eapply frame_step_ok; try exact Hside; try done. apply (sd_id _ _ _ _ _ _ _ _ _ _ _ _ _ _ (in_side y v I (negb s))). }
  destruct Hout as (u' & n' & h' & r' & sy' & B1 & B2 & B3 & B4 & B5 & B6 & B7 & B8).
  exists (Views (v_iss v) (at_ (v_u v) s u') (at_ (v_n v) s n') (at_ (v_h v) s h') (at_ (v_r v) s r') (at_ (v_sy v) s sy')).
  assert (forall t, t = s \/ t = negb s) as Ht by (intros t; destruct t, s; auto).
  split; cbn [v_iss v_u v_n v_h v_r v_sy]; unfold fp; cbn [ec es ed air]; intros t; destruct (Ht t) as [->| ->]; rewrite ?negb_involutive, ?at_same, ?at_other.
  - done.
  - pose proof (in_side y v I (negb s)) as Hs2. rewrite negb_involutive in Hs2. eapply side_peer; try exact Hs2; try done.
    intros E. destruct (sd_wait _ _ _ _ _ _ _ _ _ _ _ _ _ _ B4 E) as (_ & _ & ? & ?). done.
  - intros f [Hf|Hf]%elem_of_app.
    + destruct (in_air y v I s f Hf) as (smac & x & H6 & Hg & ->). exists smac, x. split; [done|]. split; [|by rewrite B6].
      eapply good_mono; [exact B1|exact B2|]. eapply good_fp; [exact B7|]. destruct B8 as [->|[Hfp Hlen]]; [by rewrite app_nil_r|].
      unfold fp in Hg. rewrite Hfp in *. by apply good_more.
    + destruct B5 as [_ (l' & El & Fl)]. rewrite Hl in El. apply app_inv_head in El as ->.
      apply list_elem_of_fmap in Hf as (p & -> & Hp). rewrite Forall_forall in Fl. destruct (Fl p Hp) as (smac & x & H6 & Hg & E).
      exists smac, x. rewrite E, B6. done.
  - intros f Hf. destruct (in_air y v I (negb s) f Hf) as (smac & x & H6 & Hg & ->). rewrite negb_involutive in Hg. by exists smac, x.
Qed.

Lemma stream_inv y y' : opened y -> rtc step y y' -> exists v, inv y' v.
Proof. intros Ho Hr. eapply opened_inv in Ho. induction Hr as [y|y y1 y2 H1 _ IH]; [done|]. destruct Ho as [v Hv]. eauto using step_inv. Qed.

End Run.
End TcpStream.
