(* ===== verification/NetHosts.v ===== *)
(** * Network stack: two machines, evaluated

    A driver that takes every frame, two machines on one subnet, and the
    handshake between them run through [connect_open], [net_rx] and
    [tcp_child]: the start of [TcpStream]'s system is what the code builds. *)

From stdpp Require Import base list relations.
From Stdlib Require Import ZArith Lia.
From S2P Require Import Prelude Ring NetWire NetDev Tcp NetStack NetSpec TcpFrame TcpSpec TcpStream.
Open Scope Z_scope.

Module NetHosts.
Import NetDev Tcp NetStack NetSpec TcpFrame TcpSpec TcpStream.

#[export] Instance ok_driver : NetDriver unit := {| transmit _ _ _ := (tt, 0) |}.

Definition mac_a : list Z := [2; 0; 0; 0; 0; 1].
Definition mac_b : list Z := [2; 0; 0; 0; 0; 2].
Definition ip_a : Z := 167772161.
Definition ip_b : Z := 167772162.
Definition card (m : list Z) (a : Z) : net_device := Dev [101; 116; 104; 48] 0 m a 4294967040 0 1500 false 0 0 0.

Definition no_conn : conn :=
  Conn false CLOSED false false (Ident None 0 0 0 0 [0; 0; 0; 0; 0; 0]) (Snd 0 0 0 (fun _ => 0) 0 false false 0)
    (Rcv 0 (fun _ => 0) 0 0 false) (Tmr 0 0 0 0) (Lq false (fun _ => 0) 0 0 0 None).
Definition host (m : list Z) (a : Z) : net unit :=
  Net (IO (fun _ => card m a) tt []) [1] (repeat (Arp 0 [] false) ARP_CACHE_SIZE) (Ping false 0 0 false)
    (repeat (Bind 0 DnsRecv false) 8) [] (Dns false false 0 3333) (fun _ => no_conn) 0 8192 0.

(** A frame as the receiver's driver presents it. *)
Definition mem (f : list Z) : Z -> Z := fun i => nth (Z.to_nat i) f 0.
Definition rx_all (now : Z) (n : net unit) (fs : list (list Z)) : net unit :=
  fold_left (fun n f => net_rx now n 1 (mem f) (Z.of_nat (length f))) fs n.
Definition sent_by (n : net unit) : list (list Z) := map snd (wire (nio n)).

Lemma mem_holds f : holds (mem f) f.
Proof.
  unfold holds, mem. assert (forall l p, peek (fun i => nth (Z.to_nat i) (repeat 0 p ++ l) 0) (Z.of_nat p) (length l) = l) as G.
  { induction l as [|x l IH]; intros p; cbn [peek length]; [done|]. f_equal.
    - rewrite Nat2Z.id, app_nth2; rewrite repeat_length; [|lia]. by rewrite Nat.sub_diag.
    - specialize (IH (S p)). replace (Z.of_nat p + 1) with (Z.of_nat (S p)) by lia.
      assert (forall k (h g : Z -> Z) q, (forall i, q <= i -> h i = g i) -> peek h q k = peek g q k) as Hx.
      { induction k as [|k IHk]; intros h g q Hg; cbn [peek]; [done|]. f_equal; [apply Hg; lia|]. apply IHk. intros. apply Hg. lia. }
      rewrite <- IH at 2. apply Hx. intros i Hi. rewrite !app_nth2; rewrite ?repeat_length; try lia.
      replace (Z.to_nat i - p)%nat with (S (Z.to_nat i - S p)) by lia. done. }
  exact (G f 0%nat).
Qed.

(** ** The handshake *)

(** A connects; B listens on port 80; the SYN reaches B. *)
Definition a1 : net unit := (connect_open 0 (host mac_a ip_a) 1 mac_b ip_b 80).1.
Definition b1 : net unit := (net_tcp_listen (host mac_b ip_b) 0 80 5).1.
Definition b2 : net unit := rx_all 0 b1 (sent_by a1).

(** The connecting end is slot 0 of A, the child slot 1 of B. *)
Definition start : sys :=
  Sys (fun s => if s then conns a1 0 else conns b2 1) (fun _ => []) (fun _ => []) (fun s => if s then sent_by a1 else sent_by b2).

Lemma start_opened : opened start.
Proof.
  split.
  - intros [|]; split; vm_compute; (done || split; done).
  - done.
  - done.
  - intros [|]; vm_compute; repeat split; done.
  - intros [|]; vm_compute; repeat split; done.
  - intros [|] f Hf.
    + exists mac_a, 8192. split; [done|]. split; [done|]. apply list_elem_of_In in Hf. vm_compute in Hf. destruct Hf as [<-|[]]. by vm_compute.
    + exists mac_b, 8192. split; [done|]. split; [done|]. apply list_elem_of_In in Hf. vm_compute in Hf. destruct Hf as [<-|[]]. by vm_compute.
Qed.

(** ** Running the system *)

Definition io_of (s : bool) : io unit := IO (fun _ => if s then card mac_a ip_a else card mac_b ip_b) tt [].
Definition next (y : sys) (s : bool) (now : Z) (o : op) : sys :=
  let '(w', c', a, b) := run now (io_of s) (ec y s) o in
  Sys (at_ (ec y) s c') (at_ (es y) s (es y s ++ a)) (at_ (ed y) s (ed y s ++ b)) (at_ (air y) s (air y s ++ map snd (wire w'))).
(** The [k]-th frame the other end has sent arrives. *)
Definition arrives (y : sys) (s : bool) (k : nat) : op :=
  let f := nth k (air y (negb s)) [] in Frame false (Origin 1 [] 0 0) (mem f) f.

Lemma io_macs s : macs_ok (io_of s).
Proof. by destruct s. Qed.
Lemma hosts_step y s now o : allowed y s o -> step y (next y s now o).
Proof.
  intros Ha. unfold next. destruct (run now (io_of s) (ec y s) o) as [[[w' c'] a] b] eqn:E.
  apply (Step y s now (io_of s) o w' c' a b (wire w')); [apply io_macs|done|done|]. done.
Qed.
Lemma arrives_allowed y s k : (k < length (air y (negb s)))%nat -> allowed y s (arrives y s k).
Proof. intros Hk. split; [|apply mem_holds]. apply list_elem_of_In. by apply nth_In. Qed.

(** The answer reaches A, which sends three bytes; B gets the data frame
    before the acknowledgement it follows, twice, then reads; A closes; B
    reads the end. *)
Definition y1 : sys := next start true 1 (arrives start true 0).
Definition y2 : sys := next y1 true 2 (Send [72; 105; 33]).
Definition y3 : sys := next y2 false 3 (arrives y2 false 2).
Definition y4 : sys := next y3 false 4 (arrives y3 false 1).
Definition y5 : sys := next y4 false 5 (arrives y4 false 2).
Definition y6 : sys := next y5 false 6 (Recv 2).
Definition y7 : sys := next y6 true 7 Shutdown.
Definition y8 : sys := next y7 false 8 (arrives y7 false 3).
Definition y9 : sys := next y8 false 9 (Recv 10).

Lemma y9_reached : rtc step start y9.
Proof.
  apply (rtc_l _ _ y1); [apply (hosts_step start true 1); apply arrives_allowed; by apply Nat.ltb_lt; vm_compute|].
  apply (rtc_l _ _ y2); [apply (hosts_step y1 true 2); split; [left; by vm_compute|by vm_compute]|].
  apply (rtc_l _ _ y3); [apply (hosts_step y2 false 3); apply arrives_allowed; by apply Nat.ltb_lt; vm_compute|].
  apply (rtc_l _ _ y4); [apply (hosts_step y3 false 4); apply arrives_allowed; by apply Nat.ltb_lt; vm_compute|].
  apply (rtc_l _ _ y5); [apply (hosts_step y4 false 5); apply arrives_allowed; by apply Nat.ltb_lt; vm_compute|].
  apply (rtc_l _ _ y6); [apply (hosts_step y5 false 6); split; [left; by vm_compute|by vm_compute]|].
  apply (rtc_l _ _ y7); [apply (hosts_step y6 true 7); done|].
  apply (rtc_l _ _ y8); [apply (hosts_step y7 false 8); apply arrives_allowed; by apply Nat.ltb_lt; vm_compute|].
  apply (rtc_l _ _ y9); [apply (hosts_step y8 false 9); split; [left; by vm_compute|by vm_compute]|].
  reflexivity.
Qed.

End NetHosts.
