(* ===== verification/NetFaults.v ===== *)
(** * Network stack: where the code falls short of its comments

    Witnesses for the theorems of [NetDev], [NetSpec] and [TcpFrame], on the
    machines of [NetHosts]; and behaviours the sources do not intend: a
    datagram whose total length is shorter than its header, a window that
    stays shut, half-open connections, and a send that crosses a shutdown. *)

From stdpp Require Import base list relations.
From Stdlib Require Import ZArith Lia.
From S2P Require Import Prelude Ring NetWire NetDev Tcp NetStack NetSpec TcpFrame TcpSpec TcpStream NetHosts.
Open Scope Z_scope.

Module NetFaults.
Import NetDev Tcp NetStack NetSpec TcpFrame TcpSpec TcpStream NetHosts.

(** ** A window that stays shut *)
Section Window.
Context {D : Type} `{!NetDriver D}.

(** An open connection with nothing in flight whose peer advertises no room. *)
Record window_shut (c : conn) : Prop := WindowShut {
  ws_used : used c = true; ws_state : state c = ESTABLISHED; ws_owner : orphan c = false; ws_reset : reset c = false;
  ws_conn : listener (li c) = false; ws_fin : fin_pending (sq c) = false;
  ws_idle : nxt (sq c) = una (sq c); ws_wnd : wnd (sq c) = 0; ws_rto : rto_deadline (tm c) = 0 }.

Lemma shut_output now (w : io D) c : window_shut c -> tcp_output now w c = (w, c).
Proof.
  intros [H1 H2 _ _ _ H5 H6 H7 _]. unfold tcp_output. destruct (dev (id c)) as [z|]; [|done]. rewrite H1, H2.
  change (negb true || negb (may_send ESTABLISHED)) with false. cbv iota.
  assert (out_loop (S (Z.to_nat (tx_len (sq c)))) (mss_of w z) w c = (w, c)) as ->.
  { cbn [out_loop]. replace (u32 (nxt (sq c) - una (sq c))) with 0 by (by rewrite H6, Z.sub_diag). rewrite H7. by destruct (tx_len (sq c) <=? 0). }
  assert (out_fin w c = (w, c)) as -> by (unfold out_fin; by rewrite H5). by rewrite H6, Z.eqb_refl.
Qed.

Lemma shut_sweep now (w : io D) c : window_shut c -> sweep_one now w c = (w, c).
Proof.
  intros [H1 H2 H3 H4 H5 H6 H7 H8 H9]. unfold sweep_one. rewrite H1, H5.
  assert (sweep_rto now w c = (w, c, true)) as -> by (unfold sweep_rto; by rewrite H9). unfold sweep_reclaim.
  rewrite H2. change (st_is ESTABLISHED TIME_WAIT) with false. cbn [andb]. by rewrite H3.
Qed.

(** When the peer's window is shut and nothing is in flight, a send is
    accepted in full and nothing is transmitted, then or by any number of later
    sweeps: no probe is ever sent, so the bytes wait for a window update that
    only the peer can start. *)
Theorem zero_window_stalls now (w : io D) c data : window_shut c -> 0 <= tx_len (sq c) ->
  tx_len (sq c) + Z.of_nat (length data) <= TCP_TXBUF ->
  exists c', send_check c = Some (TCP_TXBUF - tx_len (sq c)) /\
    send_commit now w c data = (w, c', Z.of_nat (length data)) /\
    tx_len (sq c') = tx_len (sq c) + Z.of_nat (length data) /\
    forall times, fold_left (fun x t => sweep_one t x.1 x.2) times (w, c') = (w, c').
Proof.
  intros Hs H0 Hr.
  set (c' := set_sq c (set_tx (sq c) (poke (tx (sq c)) (tx_len (sq c)) data) (tx_len (sq c) + Z.of_nat (length data)))).
  assert (window_shut c') as Hs' by (destruct Hs; by split).
  exists c'. split; [|split; [|split]].
  - destruct Hs as [H1 H2 H3 H4 H5 H6 H7 H8 H9]. unfold send_check. by rewrite H4, H2, H6.
  - unfold send_commit. rewrite (ws_reset c Hs), (ws_state c Hs). cbn [orb].
    replace (if _ <? _ then _ else _) with (Z.of_nat (length data)) by (destruct (Z.ltb_spec (Z.of_nat (length data)) (TCP_TXBUF - tx_len (sq c))); lia).
    rewrite Nat2Z.id, firstn_all. fold c'. by rewrite (shut_output now w c' Hs').
  - done.
  - induction times as [|t l IH]; cbn [fold_left fst snd]; [done|]. by rewrite (shut_sweep t w c' Hs').
Qed.
End Window.

(** ** Half-open connections *)
Section Dead.
Context {D : Type} `{!NetDriver D}.

(** A connection the retransmission timer has given up on and nobody owns. *)
Definition dead (c : conn) : Prop := used c = true /\ state c = CLOSED /\ orphan c = false /\ listener (li c) = false.

Lemma dead_output now (w : io D) c : dead c -> tcp_output now w c = (w, c).
Proof. intros (H1 & H2 & _). unfold tcp_output. destruct (dev (id c)); [|done]. by rewrite H1, H2. Qed.

Lemma dead_rto now c : dead c -> dead (tcp_arm_rto now c).
Proof. by intros (?&?&?&?). Qed.

Lemma dead_ack now (w : io D) c ack win : dead c -> dead (ack_input now w c ack win).2.
Proof.
  intros Hd. unfold ack_input. set (c1 := set_sq c _). assert (dead c1) as H1 by (by destruct Hd as (?&?&?&?)). cbv zeta.
  destruct (_ && _).
  - set (c2 := set_tm _ _). assert (dead c2) as H2 by (by destruct H1 as (?&?&?&?)).
    set (c3 := if _ =? _ then c2 else _). assert (dead c3) as H3 by (unfold c3; destruct (_ =? _); [done|by apply dead_rto]).
    rewrite dead_output by done. rewrite dead_output; by destruct H3 as (?&?&?&?).
  - rewrite dead_output; by destruct H1 as (?&?&?&?).
Qed.

Lemma dead_data (w : io D) c m p seq dlen : dead c -> dead (data_input w c m p seq dlen).2.
Proof. intros (?&?&?&?). unfold data_input. destruct (dlen =? 0); [done|]. by destruct (seq =? _). Qed.

Lemma dead_fin now (w : io D) c seq dlen : dead c -> dead (fin_input now w c seq dlen).2.
Proof. intros (H1&H2&H3&H4). unfold fin_input. destruct (_ =? _); [|done]. cbn. by rewrite H2. Qed.

Lemma dead_input now full (w : io D) o c m p th dlen ln : dead c ->
  dead (conn_input now full w o c m p th dlen ln).1.2.
Proof.
  intros Hd. unfold conn_input. cbv zeta. destruct (has _ TCP_RST); [by destruct Hd as (?&?&?&?)|].
  assert (forall s, s <> CLOSED -> st_is (state c) s = false) as Hst.
  { intros s Hs. destruct Hd as (_ & -> & _). unfold st_is. by apply bool_decide_eq_false. }
  rewrite Hst by done.
  assert (forall w c, dead c -> dead (let '(w, c) := data_input w c m p (s_seq th) dlen in
      let '(w, c) := if has (s_flags th) TCP_FIN then fin_input now w c (s_seq th) dlen else (w, c) in (w, c, false)).1.2) as Hrest.
  { intros w0 c0 H0. pose proof (dead_data w0 c0 m p (s_seq th) dlen H0) as H1. destruct (data_input _ _ _ _ _ _) as [w1 c1]. cbn in H1.
    destruct (has _ TCP_FIN); [|done]. pose proof (dead_fin now w1 c1 (s_seq th) dlen H1). by destruct (fin_input _ _ _ _ _). }
  destruct (has _ TCP_ACK); [|by apply Hrest].
  pose proof (dead_ack now w c (s_ack th) (s_win th) Hd) as Ha. destruct (ack_input _ _ _ _ _) as [w1 c1]. cbn in Ha.
  pose proof Ha as (_ & H2 & _).
  assert (est_input full w1 c1 (s_ack th) = (w1, c1, false)) as -> by (unfold est_input; by rewrite H2).
  assert (fin_acked c1 (s_ack th) = (c1, false)) as ->.
  { unfold fin_acked. rewrite H2. change (st_is CLOSED FIN_WAIT_1) with false. cbn [andb]. by rewrite H2. }
  by apply (Hrest w1 c1).
Qed.

Lemma resend_dead (w : io D) c : dead c -> dead (resend w c).2.
Proof.
  intros (H1&H2&H3&H4). unfold resend. rewrite H2. cbv zeta. destruct (negb _); [done|]. by destruct (fin_sent _).
Qed.

Lemma dead_sweep now (w : io D) c : dead c -> dead (sweep_one now w c).2.
Proof.
  intros Hd. unfold sweep_one. destruct (negb _ || _); [done|].
  assert (forall c, dead c -> dead (sweep_reclaim now c)) as Hr.
  { intros c0 (H1&H2&H3&H4). unfold sweep_reclaim. rewrite H2. change (st_is CLOSED TIME_WAIT) with false. cbn [andb]. by rewrite H3. }
  unfold sweep_rto. destruct (_ && _); [|by apply Hr]. destruct (_ <? _); [by destruct Hd as (?&?&?&?)|].
  pose proof (resend_dead w c Hd) as H1. destruct (resend w c) as [w1 c1]. cbn in H1. apply Hr. by destruct H1 as (?&?&?&?).
Qed.

(** Every slot is dead or a listener. *)
Definition jammed (n : net D) : Prop :=
  forall i, i ∈ slots -> dead (conns n i) \/ (used (conns n i) = true /\ listener (li (conns n i)) = true).

Lemma jammed_alloc n : jammed n -> tcp_alloc n = None.
Proof.
  intros H. unfold tcp_alloc. destruct (find _ _) eqn:E; [|done]. apply List.find_some in E as [Hin Hu].
  apply list_elem_of_In in Hin. apply negb_true_iff in Hu. destruct (H _ Hin) as [(H1&_)|(H1&_)]; congruence.
Qed.

Lemma jammed_conns n n' : conns n' = conns n -> jammed n -> jammed n'.
Proof. unfold jammed. by intros ->. Qed.

Lemma jammed_put n n' i c : conns n' = conns n -> jammed n ->
  (i ∈ slots -> dead c \/ (used c = true /\ listener (li c) = true)) -> jammed (put_conn n' i c).
Proof.
  intros E H Hc j Hj. cbn. rewrite E. destruct (decide (j = i)) as [->|Hne]; [rewrite upd_same|rewrite upd_other by done]; auto.
Qed.

Lemma jammed_tcp now n o m p ln : jammed n -> jammed (tcp_input now n o m p ln).
Proof.
  intros H. unfold tcp_input. destruct (ln <? 20); [done|]. cbv zeta. destruct (_ || _); [done|].
  destruct (tcp_lookup _ _ _ _ _) as [i|] eqn:El; [|done].
  assert (i ∈ slots) as Hi.
  { unfold tcp_lookup in El. destruct (find _ slots) as [k|] eqn:Fk.
    - injection El as ->. apply List.find_some in Fk as [Fk _]. by apply list_elem_of_In.
    - apply List.find_some in El as [F _]. by apply list_elem_of_In. }
  destruct (listener (li (conns n i))) eqn:Eli.
  - destruct (has _ _); [done|]. destruct (negb _); [done|]. by rewrite (jammed_alloc n H).
  - destruct (H i Hi) as [Hd|(_&Hl)]; [|congruence]. set (full := match parent _ with Some _ => _ | None => _ end).
    pose proof (dead_input now full (nio n) o (conns n i) m (p + Z.shiftr (s_off (load_tcp m p)) 4 * 4) (load_tcp m p)
      (ln - Z.shiftr (s_off (load_tcp m p)) 4 * 4) ln Hd) as Hin.
    destruct (conn_input _ _ _ _ _ _ _ _ _ _) as [[w c'] pushed]. cbn in Hin.
    assert (jammed (put_conn (set_io n w) i c')) as H1 by (apply (jammed_put n); [done|done|by left]).
    destruct (parent _) as [l|]; [|done]. destruct pushed; [|done]. apply (jammed_put (put_conn (set_io n w) i c')); [done|done|].
    intros Hlin. destruct (H1 l Hlin) as [(?&?&?&?)|(?&?)]; [left|right]; done.
Qed.

Lemma jammed_rx now n d m ln : jammed n -> jammed (net_rx now n d m ln).
Proof.
  intros H. unfold net_rx. destruct (_ <? _); [done|]. destruct (admin_down _); [done|]. destruct (_ && _); [done|]. cbv zeta.
  set (n1 := Net _ _ _ _ _ _ _ _ _ _ _). assert (jammed n1) as H1 by done. clearbody n1.
  destruct (_ =? _).
  - unfold arp_input. destruct (_ <? _); [done|]. destruct (_ || _); [done|]. cbv zeta. by destruct (_ && _).
  - destruct (_ =? _); [|done]. unfold ipv4_input. destruct (_ <? _); [done|]. destruct (negb _); [done|]. cbv zeta. destruct (_ || _); [done|].
    destruct (_ && _); [done|]. destruct (_ <? _); [done|].
    destruct (_ =? _); [unfold icmp_input; repeat case_match; done|].
    destruct (_ =? _); [|destruct (_ =? _); [by apply jammed_tcp|done]].
    unfold udp_input. destruct (_ <? _); [done|]. cbv zeta. destruct (_ || _); [done|]. destruct (find _ _) as [b|]; [|done]. by destruct (b_fn b).
Qed.

Lemma jammed_sweep now n : jammed n -> jammed (tcp_sweep now n).
Proof.
  unfold tcp_sweep. generalize slots at 1 as l. intros l. revert n. induction l as [|i l IH]; intros n H; cbn [fold_left]; [done|].
  apply IH. unfold on_conn. destruct (sweep_one now (nio n) (conns n i)) as [w c] eqn:E. apply (jammed_put n); [done|done|]. intros Hi.
  destruct (H i Hi) as [Hd|(Hu & Hl)].
  - left. pose proof (dead_sweep now (nio n) _ Hd) as Hs. by rewrite E in Hs.
  - right. unfold sweep_one in E. rewrite Hl, orb_true_r in E. by injection E as <- <-.
Qed.

(** What the machine can meet without its user's help. *)
Inductive event := Arrives (d : Z) (m : Z -> Z) (ln : Z) | Sweeps.
Definition happens (n : net D) (e : Z * event) : net D :=
  match e with
  | (now, Arrives d m ln) => net_rx now n d m ln
  | (now, Sweeps) => tcp_sweep now n
  end.
Lemma jammed_run n es : jammed n -> jammed (fold_left happens es n).
Proof.
  revert n. induction es as [|[now e] es IH]; intros n H; [exact H|]. cbn [fold_left]. apply IH.
  destruct e as [d m ln|]; cbn [happens]; [by apply jammed_rx|by apply jammed_sweep].
Qed.
End Dead.

(** Thirty-one SYNs whose SYN+ACK is never answered, and the sweeps that give
    up on them. *)
Definition syn (k : Z) : list Z :=
  frame (Ident (Some 1) ip_a ip_b (2000 + k) 80 mac_b) mac_a (PSeg 7 0 TCP_SYN 8192 []).
Definition flooded : net unit :=
  fold_left (fun n t => tcp_sweep (t * 3000000000) n) (seqZ 1 9) (rx_all 0 b1 (map syn (seqZ 0 31))).

Definition jammed_slot (c : conn) : bool :=
  used c && (listener (li c) || st_is (state c) CLOSED && negb (orphan c)).
Lemma jammed_check (n : net unit) : forallb (fun i => jammed_slot (conns n i)) slots = true -> jammed n.
Proof.
  intros F i Hi%list_elem_of_In. rewrite forallb_forall in F. specialize (F i Hi). unfold jammed_slot, st_is, dead in *.
  apply andb_true_iff in F as [Hu F]. destruct (listener (li (conns n i))); [by right|left]. cbn [orb] in F.
  apply andb_true_iff in F as [Hs%bool_decide_eq_true Ho%negb_true_iff]. done.
Qed.
Lemma flooded_jammed : jammed flooded.
Proof. apply jammed_check. vm_compute. reflexivity. Qed.

(** C38: half-open connections use the table up for good.  After thirty-one
    SYNs nobody acknowledges have run out of retries, no slot is free, and
    whatever frames arrive and however often the table is swept, none ever is:
    a child that was never accepted has no owner, and the sweep reclaims only
    orphans.  So no connection can be opened or accepted again. *)
Theorem half_open_exhausts es :
  (exists i, i ∈ slots /\ state (conns flooded i) = LISTEN) /\
  tcp_alloc (fold_left happens es flooded) = None /\
  (forall now d via dst port, (connect_open now (fold_left happens es flooded) d via dst port).2 = None).
Proof.
  pose proof (jammed_alloc _ (jammed_run _ es flooded_jammed)) as H. split; [|split; [done|]].
  - exists 0. split; [by apply elem_of_seqZ|by vm_compute].
  - intros. unfold connect_open. by rewrite H.
Qed.

(** ** A datagram shorter than its own header *)

(** B with its child established, and a segment in sequence for it whose IPv4
    total length is 19. *)
Definition a2 : net unit := rx_all 1 a1 (sent_by b2).
Definition b3 : net unit := rx_all 2 b2 (sent_by a2).
Definition short_frame : list Z :=
  let c := conns b3 1 in
  <[16%nat := 0]> (<[17%nat := 19]> (frame (id (conns a2 0)) mac_a (PSeg (rcv_nxt (rq c)) (nxt (sq c)) TCP_ACK 8192 []))).
(** The frame where the driver put it, with whatever the memory behind it holds. *)
Definition before (f : list Z) (secret : Z -> Z) : Z -> Z := fun i => if i <? Z.of_nat (length f) then mem f i else secret i.

(** C39: an IPv4 total length smaller than the header length wraps the length of
    the payload.  A frame of 54 bytes with no payload then fills the reader's
    ring with the memory behind the frame, which the user reads as data. *)
Theorem short_total_leaks secret :
  Z.of_nat (length short_frame) = 54 /\
  let c := conns (net_rx 3 b3 1 (before short_frame secret) 54) 1 in
  tcp_rx_avail (rq c) = TCP_RXBUF /\
  (recv_take (io_of false) c 4).1.2 = [secret 54; secret 55; secret 56; secret 57].
Proof. split; [by vm_compute|]. split; by vm_compute. Qed.

(** ** A send that crosses a shutdown *)

(** A thread of A passes the first section of [net_tcp_send] in [y5], another
    shuts the connection down, and the first goes on to its second section. *)
Definition y7_late : sys :=
  let '(w', c', n) := send_commit 8 (io_of true) (ec y7 true) [88; 89] in
  Sys (at_ (ec y7) true c') (at_ (es y7) true (es y7 true ++ take (Z.to_nat n) [88; 89])) (ed y7) (at_ (air y7) true (air y7 true ++ map snd (wire w'))).
Definition y8_late : sys := next y7_late false 9 (arrives y7_late false 3).
Definition y9_late : sys := next y8_late false 10 (Recv 10).
Definition y10_late : sys := next y9_late false 11 (arrives y9_late false 4).

(** The send is accepted, the reader gets the rest and the end of the stream,
    and after the end the second byte without the first. *)
Lemma late_send_corrupts :
  send_check (ec y5 true) = Some 8189 /\ es y7_late true = [72; 105; 33; 88; 89] /\
  (recv_take (io_of false) (ec y9_late false) 10).2 = 0 /\
  (recv_take (io_of false) (ec y10_late false) 10).1.2 = [89].
Proof. by vm_compute. Qed.

(** ** Witnesses *)

Lemma zero_window_stalls_witness :
  let c := set_sq (conns b3 1) (set_wnd (sq (conns b3 1)) 0) in
  exists c', send_commit 5 (io_of false) c [1; 2; 3] = (io_of false, c', 3) /\
    forall times, fold_left (fun x t => sweep_one t x.1 x.2) times (io_of false, c') = (io_of false, c').
Proof.
  destruct (zero_window_stalls 5 (io_of false) (set_sq (conns b3 1) (set_wnd (sq (conns b3 1)) 0)) [1; 2; 3]) as (c' & _ & H1 & _ & H2);
    [split; by vm_compute|by vm_compute|by vm_compute|]. exists c'. split; [exact H1|exact H2].
Defined.

Lemma mem_bytes f : forallb (fun x => (0 <=? x) && (x <? 256)) f = true -> bytes (mem f).
Proof.
  intros F i. unfold mem. destruct (nth_in_or_default (Z.to_nat i) f 0) as [Hin| ->]; [|done].
  rewrite forallb_forall in F. specialize (F _ Hin). unfold byte. lia.
Qed.
Lemma mem_before f secret : same (mem f) (before f secret) (Z.of_nat (length f)).
Proof. intros i Hi. unfold before. destruct (Z.ltb_spec i (Z.of_nat (length f))); [done|lia]. Qed.

(** The frame A sends first reaches B's listener whatever follows it in memory. *)
Lemma net_rx_confined_witness :
  let f := nth 0 (sent_by a1) [] in
  net_rx 0 b1 1 (mem f) (Z.of_nat (length f)) = net_rx 0 b1 1 (before f (fun _ => 255)) (Z.of_nat (length f)).
Proof.
  apply (net_rx_confined 0 b1 1); [apply mem_before|apply mem_bytes; by vm_compute|intros _ _; by vm_compute].
Defined.

Lemma arp_cache_correct_witness :
  let t := arp_cache_put (repeat (Arp 0 [] false) ARP_CACHE_SIZE) ip_a mac_a in
  arp_cache_get t ip_a = Some mac_a.
Proof.
  apply (arp_cache_correct (repeat (Arp 0 [] false) ARP_CACHE_SIZE) ip_a mac_a); [|done].
  intros i j x y Hi _ Hv. exfalso. revert Hv. do 8 (destruct i as [|i]; [by injection Hi as <-|]). by destruct i.
Defined.


Lemma net_route_correct_witness :
  net_route (io_of true) [1] ip_b = Some 1 /\ skipped (devs (io_of true) 1) = false.
Proof.
  split; [by vm_compute|]. destruct (net_route_correct (io_of true) [1] ip_b 1) as (_ & _ & H); [by vm_compute|]. apply H. by vm_compute.
Defined.
End NetFaults.
