(* ===== verification/Exfat.v ===== *)
(** * exFAT: the volume and its operations (fs/exfat.c)

    The disk is memory addressed by byte, as the block cache shows it; a sector
    may fail to be read, or to be found a buffer for when it is replaced as a
    whole (class [Cache]).  An operation runs under the volume's lock and is one
    step.  The loops that follow a chain to its end have no bound in the code:
    they take fuel, and [None] means that they are still running.  Memory
    allocation succeeds.  Names are lists of character codes without the
    terminating zero. *)

From stdpp Require Import base list.
From Stdlib Require Import ZArith Lia.
From S2P Require Import Prelude Partition.
Open Scope Z_scope.

(** What the block cache answers: whether [bcache_get] and
    [bcache_get_overwrite] return no buffer for a sector. *)
Class Cache := { get_fails : Z -> bool; overwrite_fails : Z -> bool }.

Module Exfat.
Import Partition.

(** ** Words on the disk *)

Definition le16 (f : Z -> Z) (o : Z) : Z := Z.lor (f o) (Z.shiftl (f (o + 1)) 8).
Definition wle16 (f : Z -> Z) (o v : Z) : Z -> Z := f⟦o ↦ u8 v⟧⟦o + 1 ↦ u8 (Z.shiftr v 8)⟧.

Definition EXFAT_ENTRY_SIZE : Z := 32.
Definition EXFAT_TYPE_END : Z := 0.
Definition EXFAT_TYPE_FILE : Z := 133.
Definition EXFAT_TYPE_STREAM : Z := 192.
Definition EXFAT_TYPE_NAME : Z := 193.
Definition EXFAT_TYPE_VENDOR_EXT : Z := 224.
Definition EXFAT_TYPE_BITMAP : Z := 129.
Definition EXFAT_TYPE_INUSE_MASK : Z := 128.
Definition EXFAT_ATTR_DIRECTORY : Z := 16.
Definition EXFAT_ATTR_ARCHIVE : Z := 32.
Definition EXFAT_STREAM_ALLOC_POSSIBLE : Z := 1.
Definition EXFAT_STREAM_NO_FAT_CHAIN : Z := 2.
Definition EXFAT_FAT_EOC_FIRST : Z := 4294967288.
Definition EXFAT_FAT_EOC : Z := 4294967295.
Definition EXFAT_MAX_NAME : Z := 255.
Definition EXFAT_MAX_NAME_ENTRIES : Z := 17.
Definition EXFAT_MAX_SET_ENTRIES : Z := 20.
Definition DOS_OWNER_GUID : list Z := [123; 63; 145; 12; 94; 162; 77; 97; 154; 14; 208; 87; 79; 83; 45; 49].
Definition NO_SLOT : Z := 4294967295.

(** ** The mounted volume *)

(** What [exfat_mount] reads once. *)
Record exfat_fs := Fs {
  bytes_per_sector : Z; sectors_per_cluster : Z; bytes_per_cluster : Z;
  fat_offset : Z; fat_length : Z; cluster_heap_offset : Z; cluster_count : Z; root_cluster : Z;
  bitmap_cluster : Z; bitmap_size : Z }.

(** What changes: the disk and the count of free clusters kept beside it. *)
Record vol := Vol { disk : Z -> Z; free_clusters : Z }.

Record owner_rec := Owner { o_uid : Z; o_gid : Z; o_mode : Z }.

(** The walk caches of an inode. *)
Record walk := Walk { hint_first : Z; hint_idx : Z; hint_clu : Z; len_first : Z; len_n : Z; len_tail : Z }.

(** An inode with its [struct exfat_inode]. *)
Record inode := Ino {
  size : Z; is_dir : bool; owner : owner_rec;
  first_cluster : Z; no_fat_chain : bool;
  parent_first_cluster : Z; parent_no_fat_chain : bool; parent_size : Z;
  dirent_index : Z; sec_count : Z; has_owner_rec : bool; caches : walk }.

Definition set_size (i : inode) (n : Z) : inode :=
  Ino n (is_dir i) (owner i) (first_cluster i) (no_fat_chain i) (parent_first_cluster i) (parent_no_fat_chain i) (parent_size i)
      (dirent_index i) (sec_count i) (has_owner_rec i) (caches i).
Definition set_chain (i : inode) (first : Z) (nofat : bool) : inode :=
  Ino (size i) (is_dir i) (owner i) first nofat (parent_first_cluster i) (parent_no_fat_chain i) (parent_size i)
      (dirent_index i) (sec_count i) (has_owner_rec i) (caches i).
Definition set_caches (i : inode) (w : walk) : inode :=
  Ino (size i) (is_dir i) (owner i) (first_cluster i) (no_fat_chain i) (parent_first_cluster i) (parent_no_fat_chain i) (parent_size i)
      (dirent_index i) (sec_count i) (has_owner_rec i) w.
Definition set_hint (w : walk) (f i c : Z) : walk := Walk f i c (len_first w) (len_n w) (len_tail w).
Definition set_len (w : walk) (f n t : Z) : walk := Walk (hint_first w) (hint_idx w) (hint_clu w) f n t.

Section Volume.
Context `{!Cache} (fs : exfat_fs).

Definition poke_disk (v : vol) (a : Z) (l : list Z) : vol := Vol (poke (disk v) a l) (free_clusters v).

(** ** Clusters, the FAT and chains *)

Definition cluster_first_lba (c : Z) : Z := u64 (cluster_heap_offset fs + u32 (c - 2) * sectors_per_cluster fs).

Definition fat_lba (c : Z) : Z := fat_offset fs + c * 4 / bytes_per_sector fs.
Definition fat_addr (c : Z) : Z := fat_lba c * bytes_per_sector fs + c * 4 mod bytes_per_sector fs.

Definition fat_next (v : vol) (cluster : Z) : Z :=
  if get_fails (fat_lba cluster) then EXFAT_FAT_EOC else le32 (disk v) (fat_addr cluster).

(** The second component is the return value. *)
Definition fat_set (v : vol) (cluster value : Z) : vol * Z :=
  if get_fails (fat_lba cluster) then (v, -1)
  else (Vol (put32 (disk v) (fat_addr cluster) value) (free_clusters v), 0).

Definition chain_next (v : vol) (cur : Z) (nofat : bool) : Z :=
  if nofat then let nxt := u32 (cur + 1) in if cluster_count fs <=? u32 (nxt - 2) then EXFAT_FAT_EOC else nxt
  else fat_next v cur.

Fixpoint chain_skip (n : nat) (v : vol) (cur : Z) (nofat : bool) : Z :=
  match n with
  | O => cur
  | S n' => let cur := chain_next v cur nofat in
            if EXFAT_FAT_EOC_FIRST <=? cur then EXFAT_FAT_EOC else chain_skip n' v cur nofat
  end.

(** The end of a chain and the number of clusters before it. *)
Fixpoint chain_walk (fuel : nat) (v : vol) (cur n : Z) : option (Z * Z) :=
  match fuel with
  | O => None
  | S f => let nxt := fat_next v cur in
           if EXFAT_FAT_EOC_FIRST <=? nxt then Some (cur, n) else chain_walk f v nxt (n + 1)
  end.
Definition chain_fuel : nat := Z.to_nat (cluster_count fs + 1).
Definition chain_tail (v : vol) (start : Z) : option Z := fst <$> chain_walk chain_fuel v start 1.

(** ** The allocation bitmap *)

Fixpoint free_bit (n : nat) (b bit : Z) : option Z :=
  match n with O => None | S n' => if Z.land b (Z.shiftl 1 bit) =? 0 then Some bit else free_bit n' b (bit + 1) end.

(** A sector of the bitmap: go on, the volume is full, or a cluster. *)
Inductive found := Next | Full | Got (v : vol) (c : Z).

Fixpoint alloc_bytes (n : nat) (v : vol) (lba s i : Z) : found :=
  match n with
  | O => Next
  | S n' =>
      let bit_base := (s * bytes_per_sector fs + i) * 8 in
      let a := lba * bytes_per_sector fs + i in
      let b := disk v a in
      if cluster_count fs <=? bit_base then Full
      else if b =? 255 then alloc_bytes n' v lba s (i + 1)
      else match free_bit 8 b 0 with
           | None => alloc_bytes n' v lba s (i + 1)
           | Some bit =>
               let cluster_no := bit_base + bit in
               if cluster_count fs <=? cluster_no then Full
               else Got (Vol ((disk v)⟦a ↦ Z.lor b (Z.shiftl 1 bit)⟧)
                             (if free_clusters v =? 0 then 0 else free_clusters v - 1)) (u32 (2 + cluster_no))
           end
  end.
Fixpoint alloc_sectors (n : nat) (v : vol) (base s : Z) : vol * Z :=
  match n with
  | O => (v, 0)
  | S n' =>
      if get_fails (base + s) then (v, 0)
      else match alloc_bytes (Z.to_nat (bytes_per_sector fs)) v (base + s) s 0 with
           | Next => alloc_sectors n' v base (s + 1)
           | Full => (v, 0)
           | Got v' c => (v', c)
           end
  end.
Definition bitmap_sectors : Z := (bitmap_size fs + bytes_per_sector fs - 1) / bytes_per_sector fs.
Definition bitmap_alloc (v : vol) : vol * Z :=
  if bitmap_cluster fs =? 0 then (v, 0)
  else alloc_sectors (Z.to_nat bitmap_sectors) v (cluster_first_lba (bitmap_cluster fs)) 0.

Definition bitmap_free (v : vol) (cluster : Z) : vol :=
  if (bitmap_cluster fs =? 0) || (cluster <? 2) then v
  else
    let idx := cluster - 2 in
    if cluster_count fs <=? idx then v
    else
      let byte := idx / 8 in
      let bit := idx mod 8 in
      let lba := cluster_first_lba (bitmap_cluster fs) + byte / bytes_per_sector fs in
      if get_fails lba then v
      else
        let a := lba * bytes_per_sector fs + byte mod bytes_per_sector fs in
        let b := disk v a in
        Vol ((disk v)⟦a ↦ Z.land b (u8 (Z.lnot (Z.shiftl 1 bit)))⟧)
            (if Z.land b (u8 (Z.shiftl 1 bit)) =? 0 then free_clusters v else free_clusters v + 1).

(** [bitmap_count_used], [None] when a sector cannot be read. *)
Fixpoint count_bits (n : nat) (b bit0 k : Z) : Z :=
  match n with
  | O => 0
  | S n' => if bit0 + k <? cluster_count fs
            then (if Z.land b (Z.shiftl 1 k) =? 0 then 0 else 1) + count_bits n' b bit0 (k + 1) else 0
  end.
Fixpoint count_bytes (n : nat) (v : vol) (lba s i : Z) : Z :=
  match n with
  | O => 0
  | S n' =>
      let bit0 := (s * bytes_per_sector fs + i) * 8 in
      if cluster_count fs <=? bit0 then 0
      else count_bits 8 (disk v (lba * bytes_per_sector fs + i)) bit0 0 + count_bytes n' v lba s (i + 1)
  end.
Fixpoint count_sectors (n : nat) (v : vol) (base s used : Z) : option Z :=
  match n with
  | O => Some used
  | S n' => if get_fails (base + s) then None
            else count_sectors n' v base (s + 1) (used + count_bytes (Z.to_nat (bytes_per_sector fs)) v (base + s) s 0)
  end.
Definition bitmap_count_used (v : vol) : option Z :=
  count_sectors (Z.to_nat bitmap_sectors) v (cluster_first_lba (bitmap_cluster fs)) 0 0.

(** [audit_exfat_free] for one volume: [true] is a violation. *)
Definition audit_exfat_free (v : vol) : bool :=
  match bitmap_count_used v with
  | None => true
  | Some used => negb (u64 (cluster_count fs - used) =? free_clusters v)
  end.

(** [chain_free]; the FAT walk has a guard of 2^20 rounds. *)
Fixpoint free_run (n : nat) (v : vol) (c : Z) : vol :=
  match n with O => v | S n' => free_run n' (bitmap_free v (u32 c)) (c + 1) end.
Fixpoint free_walk (guard : nat) (v : vol) (cur : Z) : vol :=
  match guard with
  | O => v
  | S g =>
      if cur <? 2 then v
      else
        let nxt := fat_next v cur in
        let v := (fat_set (bitmap_free v cur) cur 0).1 in
        if EXFAT_FAT_EOC_FIRST <=? nxt then v else free_walk g v nxt
  end.
Definition chain_free (v : vol) (start : Z) (nofat : bool) (data_length : Z) : vol :=
  if start <? 2 then v
  else if nofat then
    let n := u64 (data_length + bytes_per_cluster fs - 1) / bytes_per_cluster fs in
    free_run (Z.to_nat (if n =? 0 then 1 else n)) v start
  else free_walk (Z.to_nat 1048576) v start.

(** [cluster_zero]: the return value with the volume. *)
Fixpoint zero_sectors (n : nat) (v : vol) (lba : Z) : vol * Z :=
  match n with
  | O => (v, 0)
  | S n' =>
      if get_fails lba then (v, -1)
      else zero_sectors n' (Vol (fill (disk v) (lba * bytes_per_sector fs) (Z.to_nat (bytes_per_sector fs)) 0) (free_clusters v)) (lba + 1)
  end.
Definition cluster_zero (v : vol) (c : Z) : vol * Z :=
  zero_sectors (Z.to_nat (bytes_per_cluster fs / bytes_per_sector fs)) v (cluster_first_lba c).

(** ** Files *)

(** The sector of byte [off] of a cluster, and the place in it. *)
Definition in_cluster (cur off : Z) : Z * Z :=
  let wc := u32 (off mod bytes_per_cluster fs) in
  (cluster_first_lba cur + wc / bytes_per_sector fs, wc mod bytes_per_sector fs).
Definition get_sector (whole : bool) (p : Z * Z) : option (Z * Z) :=
  if (if whole then overwrite_fails (fst p) else get_fails (fst p)) then None else Some p.

(** [inode_get_sector]: the sector and the place in it, with the walk cache. *)
Definition inode_get_sector (v : vol) (i : inode) (off : Z) (whole : bool) : option (Z * Z) * inode :=
  let n := u32 (off / bytes_per_cluster fs) in
  if no_fat_chain i then
    let cur := chain_skip (Z.to_nat n) v (first_cluster i) true in
    (if EXFAT_FAT_EOC_FIRST <=? cur then None else get_sector whole (in_cluster cur off), i)
  else
    let w := caches i in
    let '(cur, from) :=
      if (hint_first w =? first_cluster i) && (2 <=? hint_clu w) && (hint_idx w <=? n)
      then (hint_clu w, hint_idx w) else (first_cluster i, 0) in
    let cur := chain_skip (Z.to_nat (n - from)) v cur false in
    if EXFAT_FAT_EOC_FIRST <=? cur then (None, i)
    else (get_sector whole (in_cluster cur off), set_caches i (set_hint w (first_cluster i) n cur)).

(** The loop of [exfat_read]; a round copies at least one byte.  The bytes
    copied and whether a sector was missing. *)
Fixpoint read_loop (fuel : nat) (v : vol) (i : inode) (off n : Z) (acc : list Z) : inode * list Z * bool :=
  match fuel with
  | O => (i, acc, false)
  | S f =>
      if n <=? 0 then (i, acc, false)
      else
        match inode_get_sector v i off false with
        | (None, i) => (i, acc, true)
        | (Some (lba, within), i) =>
            let chunk := bytes_per_sector fs - within in
            let chunk := if n <? chunk then n else chunk in
            read_loop f v i (off + chunk) (n - chunk)
              (acc ++ peek (disk v) (lba * bytes_per_sector fs + within) (Z.to_nat chunk))
        end
  end.
Definition exfat_read (v : vol) (i : inode) (n off : Z) : inode * list Z * Z :=
  if size i <=? off then (i, [], 0)
  else
    let avail := size i - off in
    let n := if avail <? n then avail else n in
    if (n =? 0) || (first_cluster i <? 2) then (i, [], 0)
    else
      let '(i, out, missing) := read_loop (Z.to_nat n) v i off n [] in
      (i, out, if (missing : bool) && (Z.of_nat (length out) =? 0) then -1 else Z.of_nat (length out)).

(** ** Directories *)

Record dir_iter := It { it_first : Z; it_nofat : bool; limit : Z; pos_n : Z; pos_c : Z }.
Definition iter (first : Z) (nofat : bool) (lim : Z) : dir_iter := It first nofat lim 0 0.

Definition dir_iter_sector (v : vol) (it : dir_iter) (off : Z) : option (Z * Z) * dir_iter :=
  let n := u32 (off / bytes_per_cluster fs) in
  if it_nofat it then (get_sector false (in_cluster (u32 (it_first it + n)) off), it)
  else
    let '(from_n, from_c) := if negb (pos_c it =? 0) && (pos_n it <=? n) then (pos_n it, pos_c it) else (0, it_first it) in
    let cur := chain_skip (Z.to_nat (n - from_n)) v from_c false in
    if EXFAT_FAT_EOC_FIRST <=? cur then (None, it)
    else (get_sector false (in_cluster cur off), It (it_first it) (it_nofat it) (limit it) n cur).

(** An entry is its 32 bytes, by offset. *)
Definition dir_entry_read (v : vol) (it : dir_iter) (idx : Z) : option (Z -> Z) * dir_iter :=
  let off := idx * EXFAT_ENTRY_SIZE in
  if negb (limit it =? 0) && (limit it <=? off) then (None, it)
  else match dir_iter_sector v it off with
       | (None, it) => (None, it)
       | (Some (lba, within), it) => (Some (fun k => disk v (lba * bytes_per_sector fs + within + k)), it)
       end.
Definition dir_entry_write (v : vol) (it : dir_iter) (idx : Z) (e : Z -> Z) : option vol * dir_iter :=
  let off := idx * EXFAT_ENTRY_SIZE in
  if negb (limit it =? 0) && (limit it <=? off) then (None, it)
  else match dir_iter_sector v it off with
       | (None, it) => (None, it)
       | (Some (lba, within), it) => (Some (poke_disk v (lba * bytes_per_sector fs + within) (peek e 0 32)), it)
       end.

(** [n] entries from [idx] into a buffer, and back; the buffer is memory. *)
Fixpoint read_set (n : nat) (v : vol) (it : dir_iter) (idx : Z) (buf : Z -> Z) (o : Z) : option (Z -> Z) * dir_iter :=
  match n with
  | O => (Some buf, it)
  | S n' =>
      match dir_entry_read v it (u32 idx) with
      | (None, it) => (None, it)
      | (Some e, it) => read_set n' v it (idx + 1) (poke buf o (peek e 0 32)) (o + EXFAT_ENTRY_SIZE)
      end
  end.
(** The volume after the entries written so far, and whether all were. *)
Fixpoint write_set (n : nat) (v : vol) (it : dir_iter) (idx : Z) (buf : Z -> Z) (o : Z) : vol * dir_iter * bool :=
  match n with
  | O => (v, it, true)
  | S n' =>
      match dir_entry_write v it (u32 idx) (fun k => buf (o + k)) with
      | (None, it) => (v, it, false)
      | (Some v, it) => write_set n' v it (idx + 1) buf (o + EXFAT_ENTRY_SIZE)
      end
  end.

(** ** Names and entry sets *)

Definition ascii_upcase (ch : Z) : Z := if (97 <=? ch) && (ch <=? 122) then ch - 32 else ch.
Definition ror_add (h b : Z) : Z := u16 (Z.lor (Z.shiftl h 15) (Z.shiftr h 1) + b).
Fixpoint name_hash_ascii (name : list Z) (h : Z) : Z :=
  match name with
  | [] => h
  | c :: r => let ch := ascii_upcase (u8 c) in name_hash_ascii r (ror_add (ror_add h (Z.land ch 255)) (Z.land (Z.shiftr ch 8) 255))
  end.

Fixpoint checksum_loop (n : nat) (buf : Z -> Z) (i cs : Z) : Z :=
  match n with
  | O => cs
  | S n' => checksum_loop n' buf (i + 1) (if (i =? 2) || (i =? 3) then cs else ror_add cs (buf i))
  end.
Definition set_checksum (buf : Z -> Z) (total_bytes : Z) : Z := checksum_loop (Z.to_nat total_bytes) buf 0 0.

(** [decode_name]: the characters, or [None] for -1. *)
Fixpoint decode_chars (n : nat) (e : Z -> Z) (k left : Z) (acc : list Z) : option (list Z) :=
  match n with
  | O => Some acc
  | S n' =>
      if left <=? 0 then Some acc
      else
        let ch := le16 e (2 + k * 2) in
        if negb (Z.land ch 65280 =? 0) then None
        else if EXFAT_MAX_NAME + 1 <=? Z.of_nat (length acc) + 1 then None
        else decode_chars n' e (k + 1) (left - 1) (acc ++ [Z.land ch 255])
  end.
Fixpoint decode_name (entries : list (Z -> Z)) (name_length : Z) (acc : list Z) : option (list Z) :=
  match entries with
  | [] => Some acc
  | e :: r =>
      match decode_chars 15 e 0 (name_length - Z.of_nat (length acc)) acc with
      | None => None
      | Some acc => decode_name r name_length acc
      end
  end.
(** A buffer read as a C string. *)
Fixpoint cstr (l : list Z) : list Z := match l with [] => [] | c :: r => if c =? 0 then [] else c :: cstr r end.

Record parsed_file := Parsed {
  pf_attrs : Z; pf_sec_count : Z; pf_stream_flags : Z; pf_name_length : Z;
  pf_first_cluster : Z; pf_data_length : Z; pf_dirent_index : Z; pf_own : option owner_rec }.

Definition default_mode (dir : bool) : Z := if dir then 493 else 420.
Definition build_inode (pf : parsed_file) (pfirst : Z) (pnofat : bool) (psize : Z) : inode :=
  let d := negb (Z.land (pf_attrs pf) EXFAT_ATTR_DIRECTORY =? 0) in
  Ino (pf_data_length pf) d
      (match pf_own pf with Some o => Owner (o_uid o) (o_gid o) (Z.land (o_mode o) 4095) | None => Owner 0 0 (default_mode d) end)
      (pf_first_cluster pf) (negb (Z.land (pf_stream_flags pf) EXFAT_STREAM_NO_FAT_CHAIN =? 0))
      pfirst pnofat psize (pf_dirent_index pf) (pf_sec_count pf)
      (match pf_own pf with Some _ => true | None => false end) (Walk 0 0 0 0 0 0).

Definition owner_rec_parse (e : Z -> Z) : option owner_rec :=
  if negb (e 0 =? EXFAT_TYPE_VENDOR_EXT) then None
  else if negb (bytes_eq e 2 DOS_OWNER_GUID) then None
  else if negb (e 18 =? 100) || negb (e 19 =? 79) || negb (e 20 =? 1) then None
  else Some (Owner (s32 (le32 e 22)) (s32 (le32 e 26)) (le16 e 30)).
Definition owner_rec_build (buf : Z -> Z) (o : Z) (r : owner_rec) : Z -> Z :=
  let buf := fill buf o 32 0 in
  let buf := (buf⟦o ↦ EXFAT_TYPE_VENDOR_EXT⟧)⟦o + 1 ↦ 0⟧ in
  let buf := poke buf (o + 2) DOS_OWNER_GUID in
  let buf := buf⟦o + 18 ↦ 100⟧⟦o + 19 ↦ 79⟧⟦o + 20 ↦ 1⟧⟦o + 21 ↦ 0⟧ in
  let buf := put32 (put32 buf (o + 22) (u32 (o_uid r))) (o + 26) (u32 (o_gid r)) in
  wle16 buf (o + 30) (u16 (Z.land (o_mode r) 4095)).

(** The name entries of a set, [None] when one cannot be read. *)
Fixpoint read_names (n : nat) (v : vol) (it : dir_iter) (idx j sec : Z) : option (list (Z -> Z)) * dir_iter :=
  match n with
  | O => (Some [], it)
  | S n' =>
      if sec <? j then (Some [], it)
      else match dir_entry_read v it (u32 (idx + j)) with
           | (None, it) => (None, it)
           | (Some e, it) =>
               if negb (e 0 =? EXFAT_TYPE_NAME) then (Some [], it)
               else let '(r, it) := read_names n' v it idx (j + 1) sec in ((e ::.) <$> r, it)
           end
  end.
(** The owner record behind them, if there is one. *)
Fixpoint find_owner (n : nat) (v : vol) (it : dir_iter) (idx j : Z) : option owner_rec * dir_iter :=
  match n with
  | O => (None, it)
  | S n' =>
      match dir_entry_read v it (u32 (idx + j)) with
      | (None, it) => (None, it)
      | (Some e, it) => match owner_rec_parse e with Some o => (Some o, it) | None => find_owner n' v it idx (j + 1) end
      end
  end.

(** What an entry of the scan is: nothing to look at, a file with its name, or
    the end of the scan; with the number of entries to step over. *)
Inductive item := Skip (n : Z) | Named (name : list Z) (pf : parsed_file) (n : Z) | Stop.
Definition scan_item (v : vol) (it : dir_iter) (idx : Z) : item * dir_iter :=
  match dir_entry_read v it idx with
  | (None, it) => (Stop, it)
  | (Some e, it) =>
      if e 0 =? EXFAT_TYPE_END then (Stop, it)
      else if Z.land (e 0) EXFAT_TYPE_INUSE_MASK =? 0 then (Skip 1, it)
      else if negb (e 0 =? EXFAT_TYPE_FILE) then (Skip 1, it)
      else if e 1 <? 2 then (Skip 1, it)
      else
        match dir_entry_read v it (u32 (idx + 1)) with
        | (None, it) => (Stop, it)
        | (Some st, it) =>
            if negb (st 0 =? EXFAT_TYPE_STREAM) then (Skip (1 + e 1), it)
            else
              match read_names (Z.to_nat EXFAT_MAX_NAME_ENTRIES) v it idx 2 (e 1) with
              | (None, it) => (Stop, it)
              | (Some [], it) => (Skip (1 + e 1), it)
              | (Some names, it) =>
                  let ne := Z.of_nat (length names) in
                  let '(own, it) := find_owner (Z.to_nat (e 1 - (1 + ne))) v it idx (2 + ne) in
                  match decode_name names (st 3) [] with
                  | None | Some [] => (Skip (1 + e 1), it)
                  | Some nm =>
                      (Named (cstr nm) (Parsed (le16 e 4) (e 1) (st 1) (st 3) (le32 st 20) (le64 st 24) idx own) (1 + e 1), it)
                  end
              end
        end
  end.

Fixpoint scan_loop {A} (fuel : nat) (v : vol) (it : dir_iter) (idx : Z) (visit : list Z -> parsed_file -> A -> A * bool) (acc : A) : option A :=
  match fuel with
  | O => None
  | S f =>
      match scan_item v it idx with
      | (Stop, _) => Some acc
      | (Skip n, it) => scan_loop f v it (u32 (idx + n)) visit acc
      | (Named nm pf n, it) =>
          let '(acc, stop) := visit nm pf acc in
          if (stop : bool) then Some acc else scan_loop f v it (u32 (idx + n)) visit acc
      end
  end.
(** One round per entry that a directory can hold. *)
Definition dir_fuel : nat := Z.to_nat (cluster_count fs * (bytes_per_cluster fs / EXFAT_ENTRY_SIZE) + 1).
Definition scan_directory {A} (v : vol) (first : Z) (nofat : bool) (lim : Z) (visit : list Z -> parsed_file -> A -> A * bool) (acc : A) : option A :=
  scan_loop dir_fuel v (iter first nofat lim) 0 visit acc.

Definition lookup_visit (target name : list Z) (pf : parsed_file) (acc : option parsed_file) : option parsed_file * bool :=
  if bool_decide (name = target) then (Some pf, true) else (acc, false).
Definition exfat_lookup (v : vol) (dir : inode) (name : list Z) : option (option inode) :=
  match scan_directory v (first_cluster dir) (no_fat_chain dir) (size dir) (lookup_visit name) None with
  | None => None
  | Some None => Some None
  | Some (Some pf) => Some (Some (build_inode pf (first_cluster dir) (no_fat_chain dir) (size dir)))
  end.

(** [exfat_readdir]: the entry at position [pos], with its kind and length. *)
Definition readdir_visit (want : Z) (name : list Z) (pf : parsed_file) (acc : Z * option (list Z * bool * Z))
  : (Z * option (list Z * bool * Z)) * bool :=
  if fst acc =? want
  then ((fst acc, Some (take 255 name, negb (Z.land (pf_attrs pf) EXFAT_ATTR_DIRECTORY =? 0), pf_data_length pf)), true)
  else ((fst acc + 1, snd acc), false).
Definition exfat_readdir (v : vol) (dir : inode) (pos : Z) : option (option (list Z * bool * Z)) :=
  match scan_directory v (first_cluster dir) (no_fat_chain dir) (size dir) (readdir_visit pos) (0, None) with
  | None => None
  | Some r => Some (snd r)
  end.

(** The name entries of a new set; the name is consumed fifteen characters an entry. *)
Fixpoint put_chars (n : nat) (buf : Z -> Z) (o : Z) (name : list Z) : (Z -> Z) * list Z :=
  match n with
  | O => (buf, name)
  | S n' => let '(ch, rest) := match name with [] => (0, []) | c :: r => (u8 c, r) end in
            put_chars n' (wle16 buf o ch) (o + 2) rest
  end.
Fixpoint put_names (n : nat) (buf : Z -> Z) (o : Z) (name : list Z) : Z -> Z :=
  match n with
  | O => buf
  | S n' => let '(buf, rest) := put_chars 15 (buf⟦o ↦ EXFAT_TYPE_NAME⟧⟦o + 1 ↦ 0⟧) (o + 2) name in
            put_names n' buf (o + EXFAT_ENTRY_SIZE) rest
  end.
Definition name_entries (name : list Z) : Z := (Z.of_nat (length name) + 14) / 15.

(** [build_entry_set]: the set and its number of entries. *)
Definition build_entry_set (name : list Z) (dir : bool) (first data_len flags : Z) (own : option owner_rec) : option ((Z -> Z) * Z) :=
  let ne := name_entries name in
  if (Z.of_nat (length name) <=? 0) || (EXFAT_MAX_NAME_ENTRIES <? ne) then None
  else
    let sec := 1 + ne + (match own with Some _ => 1 | None => 0 end) in
    let total := 1 + sec in
    let buf := fun _ => 0 in
    let buf := wle16 (wle16 (buf⟦0 ↦ EXFAT_TYPE_FILE⟧⟦1 ↦ u8 sec⟧) 2 0) 4 (if dir then EXFAT_ATTR_DIRECTORY else EXFAT_ATTR_ARCHIVE) in
    let buf := buf⟦32 ↦ EXFAT_TYPE_STREAM⟧⟦33 ↦ flags⟧⟦35 ↦ u8 (Z.of_nat (length name))⟧ in
    let buf := wle16 buf 36 (name_hash_ascii name 0) in
    let buf := put64 (put32 (put64 buf 40 data_len) 52 first) 56 data_len in
    let buf := put_names (Z.to_nat ne) buf 64 name in
    let buf := match own with Some r => owner_rec_build buf ((2 + ne) * EXFAT_ENTRY_SIZE) r | None => buf end in
    Some (wle16 buf 2 (set_checksum buf (total * EXFAT_ENTRY_SIZE)), total).

(** ** Changing a volume *)

(** Who asks, and [fs.reserve_kb]. *)
Context (user : bool) (reserve_kb : Z).

Definition fs_reserve_allows (v : vol) (clusters : Z) : bool :=
  if negb user then true
  else
    let rc := if 0 <? reserve_kb then u64 (reserve_kb * 1024 + bytes_per_cluster fs - 1) / bytes_per_cluster fs else 0 in
    u64 (rc + clusters) <=? free_clusters v.

(** [exfat_write_meta]: the sizes and the first cluster into the entry set. *)
Definition meta_stream (i : inode) (buf : Z -> Z) : Z -> Z :=
  let fl := if 2 <=? first_cluster i then Z.lor (buf 33) EXFAT_STREAM_ALLOC_POSSIBLE else Z.land (buf 33) (u8 (Z.lnot EXFAT_STREAM_ALLOC_POSSIBLE)) in
  let fl := Z.land fl (u8 (Z.lnot EXFAT_STREAM_NO_FAT_CHAIN)) in
  let fl := if no_fat_chain i then Z.lor fl EXFAT_STREAM_NO_FAT_CHAIN else fl in
  put64 (put32 (put64 (buf⟦33 ↦ fl⟧) 40 (size i)) 52 (first_cluster i)) 56 (size i).
Definition exfat_write_meta (v : vol) (i : inode) : vol * Z :=
  if parent_first_cluster i <? 2 then (v, 0)
  else
    let it := iter (parent_first_cluster i) (parent_no_fat_chain i) (parent_size i) in
    let total := 1 + sec_count i in
    if EXFAT_MAX_SET_ENTRIES <? total then (v, -1)
    else
      match read_set (Z.to_nat total) v it (dirent_index i) (fun _ => 0) 0 with
      | (None, _) => (v, -1)
      | (Some buf, it) =>
          let buf := meta_stream i buf in
          let buf := wle16 buf 2 (set_checksum buf (total * EXFAT_ENTRY_SIZE)) in
          let '(v, _, ok) := write_set (Z.to_nat total) v it (dirent_index i) buf 0 in
          (v, if (ok : bool) then 0 else -1)
      end.

(** The clusters a file has, counted once and remembered. *)
Definition clusters_have (v : vol) (i : inode) : option (Z * inode) :=
  if first_cluster i <? 2 then Some (0, i)
  else if no_fat_chain i then Some (1, i)
  else if (len_first (caches i) =? first_cluster i) && negb (len_n (caches i) =? 0) then Some (len_n (caches i), i)
  else match chain_walk chain_fuel v (first_cluster i) 1 with
       | None => None
       | Some (t, n) => Some (n, set_caches i (set_len (caches i) (first_cluster i) (u32 n) t))
       end.

Definition grow_tail (v : vol) (i : inode) : option Z :=
  if first_cluster i <? 2 then Some 0
  else if negb (no_fat_chain i) && (len_first (caches i) =? first_cluster i) && negb (len_n (caches i) =? 0) then Some (len_tail (caches i))
  else chain_tail v (first_cluster i).

(** The loop that appends clusters; the tail, or [None] when the volume is full. *)
Fixpoint grow_loop (n : nat) (v : vol) (i : inode) (prev : Z) : vol * inode * option Z :=
  match n with
  | O => (v, i, Some prev)
  | S n' =>
      let '(v, c) := bitmap_alloc v in
      if c =? 0 then (v, set_caches i (set_len (caches i) (len_first (caches i)) 0 (len_tail (caches i))), None)
      else
        let v := (fat_set v c EXFAT_FAT_EOC).1 in
        if prev =? 0 then grow_loop n' v (set_chain i c false) c
        else grow_loop n' (fat_set v prev c).1 i c
  end.

Fixpoint write_loop (fuel : nat) (v : vol) (i : inode) (off : Z) (data : list Z) : vol * inode * list Z :=
  match fuel with
  | O => (v, i, data)
  | S f =>
      match data with
      | [] => (v, i, [])
      | _ =>
          let n := Z.of_nat (length data) in
          let whole := (off mod bytes_per_sector fs =? 0) && (bytes_per_sector fs <=? n) in
          match inode_get_sector v i off whole with
          | (None, i) => (v, i, data)
          | (Some (lba, within), i) =>
              let chunk := bytes_per_sector fs - within in
              let chunk := if n <? chunk then n else chunk in
              let k := Z.to_nat chunk in
              write_loop f (poke_disk v (lba * bytes_per_sector fs + within) (take k data)) i (off + chunk) (drop k data)
          end
      end
  end.

(** The chain covers [end_] bytes, or the reason why not. *)
Definition grow_to (v : vol) (i : inode) (end_ : Z) : option (vol * inode * bool) :=
  match clusters_have v i with
  | None => None
  | Some (have, i) =>
      let need := u64 (end_ + bytes_per_cluster fs - 1) / bytes_per_cluster fs in
      if have <? need then
        if negb (fs_reserve_allows v (need - have)) then Some (v, i, false)
        else match grow_tail v i with
             | None => None
             | Some t =>
                 match grow_loop (Z.to_nat (need - have)) v i t with
                 | (v, i, None) => Some (v, i, false)
                 | (v, i, Some t) =>
                     Some (v, if no_fat_chain i then i else set_caches i (set_len (caches i) (first_cluster i) (u32 need) t), true)
                 end
             end
      else Some (v, i, true)
  end.

Definition exfat_write (v : vol) (i : inode) (data : list Z) (off : Z) : option (vol * inode * Z) :=
  match data with
  | [] => Some (v, i, 0)
  | _ =>
      let n := Z.of_nat (length data) in
      let end_ := u64 (off + n) in
      match grow_to v i end_ with
      | None => None
      | Some (v, i, false) => Some (v, i, -1)
      | Some (v, i, true) =>
          match write_loop (length data) v i off data with
          | (v, i, []) =>
              let i := if size i <? end_ then set_size i end_ else i in
              Some ((exfat_write_meta v i).1, i, n)
          | (v, i, rest) =>
              let total := n - Z.of_nat (length rest) in
              Some (v, i, if total =? 0 then -1 else total)
          end
      end
  end.

(** *** Slots of a directory *)

Fixpoint slot_loop (fuel : nat) (v : vol) (it : dir_iter) (idx run_start run_len need : Z) : option Z :=
  match fuel with
  | O => None
  | S f =>
      match dir_entry_read v it idx with
      | (None, _) => Some NO_SLOT
      | (Some e, it) =>
          if (e 0 =? EXFAT_TYPE_END) || (Z.land (e 0) EXFAT_TYPE_INUSE_MASK =? 0) then
            let run_start := if run_len =? 0 then idx else run_start in
            let run_len := run_len + 1 in
            if need <=? run_len then Some run_start else slot_loop f v it (u32 (idx + 1)) run_start run_len need
          else slot_loop f v it (u32 (idx + 1)) run_start 0 need
      end
  end.
Definition find_free_dir_slot (v : vol) (first : Z) (nofat : bool) (lim need : Z) : option Z :=
  slot_loop dir_fuel v (iter first nofat lim) 0 0 0 need.

(** [dirent_set_delete]: the entries of the set, one by one. *)
Fixpoint delete_loop (n : nat) (v : vol) (it : dir_iter) (idx : Z) : vol * Z :=
  match n with
  | O => (v, 0)
  | S n' =>
      match dir_entry_read v it (u32 idx) with
      | (None, _) => (v, -1)
      | (Some e, it) =>
          match dir_entry_write v it (u32 idx) (e⟦0 ↦ Z.land (e 0) 127⟧) with
          | (None, _) => (v, -1)
          | (Some v, it) => delete_loop n' v it (idx + 1)
          end
      end
  end.
Definition dirent_set_delete (v : vol) (first : Z) (nofat : bool) (lim slot : Z) : vol * Z :=
  match dir_entry_read v (iter first nofat lim) slot with
  | (None, _) => (v, -1)
  | (Some e, it) => if negb (e 0 =? EXFAT_TYPE_FILE) then (v, -1) else delete_loop (Z.to_nat (e 1 + 1)) v it slot
  end.

Definition EXFAT_DIR_MAX_ENTRIES : Z := 268435456 / 32.
Fixpoint empty_loop (n : nat) (v : vol) (it : dir_iter) (idx : Z) : bool :=
  match n with
  | O => true
  | S n' =>
      match dir_entry_read v it idx with
      | (None, _) => false
      | (Some e, it) => if e 0 =? 0 then true else if e 0 =? EXFAT_TYPE_FILE then false else empty_loop n' v it (idx + 1)
      end
  end.
Definition dir_is_empty (v : vol) (first : Z) (nofat : bool) (sz : Z) : bool :=
  let n := sz / EXFAT_ENTRY_SIZE in
  if EXFAT_DIR_MAX_ENTRIES <? n then false else empty_loop (Z.to_nat n) v (iter first nofat sz) 0.

Definition dir_refresh (v : vol) (dir : inode) : inode :=
  if parent_first_cluster dir <? 2 then dir
  else match dir_entry_read v (iter (parent_first_cluster dir) (parent_no_fat_chain dir) (parent_size dir)) (u32 (dirent_index dir + 1)) with
       | (None, _) => dir
       | (Some st, _) =>
           if negb (st 0 =? EXFAT_TYPE_STREAM) then dir
           else
             let dir := set_chain dir (first_cluster dir) (negb (Z.land (st 1) EXFAT_STREAM_NO_FAT_CHAIN =? 0)) in
             let len := le64 st 24 in
             if len =? 0 then dir else set_size dir len
       end.

(** The links of a contiguous run. *)
Fixpoint link_run (n : nat) (v : vol) (c : Z) : vol :=
  match n with O => v | S n' => link_run n' (fat_set v (u32 c) (u32 (c + 1))).1 (c + 1) end.

(** [dir_grow]: one more zeroed cluster. *)
Definition dir_grow (v : vol) (dir : inode) : option (vol * inode * Z) :=
  let '(v, c) := bitmap_alloc v in
  if c =? 0 then Some (v, dir, -1)
  else
    let '(v, rc) := cluster_zero v c in
    if negb (rc =? 0) then Some (bitmap_free v c, dir, -1)
    else
      let v := (fat_set v c EXFAT_FAT_EOC).1 in
      let linked :=
        if no_fat_chain dir then
          let n := u32 (size dir / bytes_per_cluster fs) in
          let n := if n =? 0 then 1 else n in
          let v := link_run (Z.to_nat (n - 1)) v (first_cluster dir) in
          Some ((fat_set v (u32 (first_cluster dir + n - 1)) c).1, set_chain dir (first_cluster dir) false)
        else match chain_tail v (first_cluster dir) with
             | None => None
             | Some t => Some ((fat_set v t c).1, dir)
             end in
      match linked with
      | None => None
      | Some (v, dir) =>
          let dir := if size dir =? 0 then dir else set_size dir (u64 (size dir + bytes_per_cluster fs)) in
          if 2 <=? parent_first_cluster dir
          then let '(v, rc) := exfat_write_meta v dir in Some (v, dir, if rc =? 0 then 0 else -1)
          else Some (v, dir, 0)
      end.

Definition dir_find_or_grow (v : vol) (dir : inode) (need : Z) : option (vol * inode * Z) :=
  let dir := dir_refresh v dir in
  match find_free_dir_slot v (first_cluster dir) (no_fat_chain dir) (size dir) need with
  | None => None
  | Some slot =>
      if negb (slot =? NO_SLOT) then Some (v, dir, slot)
      else match dir_grow v dir with
           | None => None
           | Some (v, dir, rc) =>
               if negb (rc =? 0) then Some (v, dir, NO_SLOT)
               else match find_free_dir_slot v (first_cluster dir) (no_fat_chain dir) (size dir) need with
                    | None => None
                    | Some slot => Some (v, dir, slot)
                    end
           end
  end.

(** *** The directory operations: the volume, the directory, the inode and the
    return value *)

(** A new directory's cluster, [inr] with the return value when there is none. *)
Definition make_cluster (v : vol) (as_dir : bool) : vol * (Z + Z) :=
  if negb as_dir then (v, inl 0)
  else if negb (fs_reserve_allows v 1) then (v, inr (-5))
  else
    let '(v, c) := bitmap_alloc v in
    if c =? 0 then (v, inr (-5))
    else
      let '(v, rc) := cluster_zero v c in
      if negb (rc =? 0) then (bitmap_free v c, inr (-6)) else ((fat_set v c EXFAT_FAT_EOC).1, inl c).

Definition exfat_make (v : vol) (dir : inode) (name : list Z) (as_dir : bool) : option (vol * inode * option inode * Z) :=
  if (Z.of_nat (length name) =? 0) || (EXFAT_MAX_NAME <? Z.of_nat (length name)) then Some (v, dir, None, -1)
  else
    let dir := dir_refresh v dir in
    match exfat_lookup v dir name with
    | None => None
    | Some (Some dup) => Some (v, dir, Some dup, -7)
    | Some None =>
        let total := 1 + (1 + name_entries name + 1) in
        let own := Owner 0 0 (if as_dir then 493 else 420) in
        match dir_find_or_grow v dir total with
        | None => None
        | Some (v, dir, slot) =>
            if slot =? NO_SLOT then Some (v, dir, None, -2)
            else
              match make_cluster v as_dir with
              | (v, inr rc) => Some (v, dir, None, rc)
              | (v, inl c) =>
                  let len := if as_dir then bytes_per_cluster fs else 0 in
                  let flags := if as_dir then 3 else 0 in
                  match build_entry_set name as_dir c len flags (Some own) with
                  | None => Some (if c =? 0 then v else bitmap_free v c, dir, None, -1)
                  | Some (set, _) =>
                      let it := iter (first_cluster dir) (no_fat_chain dir) (size dir) in
                      let '(v, _, ok) := write_set (Z.to_nat total) v it slot set 0 in
                      if negb ok then Some (v, dir, None, -3)
                      else
                        let pf := Parsed (if as_dir then EXFAT_ATTR_DIRECTORY else EXFAT_ATTR_ARCHIVE) (u8 (total - 1)) flags
                                    (u8 (Z.of_nat (length name))) c len slot (Some own) in
                        Some (v, dir, Some (build_inode pf (first_cluster dir) (no_fat_chain dir) (size dir)), 0)
                  end
              end
        end
    end.

Definition exfat_create (v : vol) (dir : inode) (name : list Z) := exfat_make v dir name false.
Definition exfat_mkdir (v : vol) (dir : inode) (name : list Z) := exfat_make v dir name true.

(** [exfat_unlink] with the inode the VFS hands over. *)
Definition exfat_unlink (v : vol) (dir target : inode) : vol * Z :=
  if is_dir target && negb (dir_is_empty v (first_cluster target) (no_fat_chain target) (size target)) then (v, -2)
  else
    let '(v, rc) := dirent_set_delete v (first_cluster dir) (no_fat_chain dir) (size dir) (dirent_index target) in
    if negb (rc =? 0) then (v, -1)
    else (chain_free v (first_cluster target) (no_fat_chain target) (size target), 0).

(** [relocate_set]: a new set under [name], then the old one goes. *)
Definition relocated (t dir : inode) (slot total : Z) : inode :=
  Ino (size t) (is_dir t) (owner t) (first_cluster t) (no_fat_chain t) (parent_first_cluster t) (no_fat_chain dir) (size dir)
      slot (u8 (total - 1)) true (caches t).
Definition relocate_set (v : vol) (dir : inode) (name : list Z) (t : inode) : option (vol * inode * inode * Z) :=
  let flags := (if first_cluster t =? 0 then 0 else 1) + (if no_fat_chain t then 2 else 0) in
  match build_entry_set name (is_dir t) (first_cluster t) (size t) flags (Some (owner t)) with
  | None => Some (v, dir, t, -1)
  | Some (set, total) =>
      match dir_find_or_grow v dir total with
      | None => None
      | Some (v, dir, slot) =>
          if slot =? NO_SLOT then Some (v, dir, t, -3)
          else
            let '(v, _, ok) := write_set (Z.to_nat total) v (iter (first_cluster dir) (no_fat_chain dir) (size dir)) slot set 0 in
            if negb ok then Some (v, dir, t, -4)
            else
              let '(v, rc) := dirent_set_delete v (first_cluster dir) (no_fat_chain dir) (size dir) (dirent_index t) in
              if negb (rc =? 0)
              then Some ((dirent_set_delete v (first_cluster dir) (no_fat_chain dir) (size dir) slot).1, dir, t, -4)
              else Some (v, dir, relocated t dir slot total, 0)
      end
  end.

Definition exfat_rename (v : vol) (dir : inode) (oldname newname : list Z) (t : inode) : option (vol * inode * inode * Z) :=
  if Z.of_nat (length newname) =? 0 then Some (v, dir, t, -1)
  else if EXFAT_MAX_NAME <? Z.of_nat (length newname) then Some (v, dir, t, -5)
  else if bool_decide (oldname = newname) then Some (v, dir, t, 0)
  else match exfat_lookup v dir newname with
       | None => None
       | Some (Some _) => Some (v, dir, t, -2)
       | Some None => relocate_set v dir newname t
       end.

(** The first owner record of a set in a buffer, rewritten. *)
Fixpoint own_loop (n : nat) (buf : Z -> Z) (k : Z) (own : owner_rec) : option (Z -> Z) :=
  match n with
  | O => None
  | S n' =>
      match owner_rec_parse (fun j => buf (k * EXFAT_ENTRY_SIZE + j)) with
      | None => own_loop n' buf (k + 1) own
      | Some _ => Some (owner_rec_build buf (k * EXFAT_ENTRY_SIZE) own)
      end
  end.
Definition exfat_setattr (v : vol) (dir : inode) (name : list Z) (t : inode) : option (vol * inode * inode * Z) :=
  let total := 1 + sec_count t in
  let whole := relocate_set v dir name t in
  if has_owner_rec t then
    let it := iter (first_cluster dir) (no_fat_chain dir) (size dir) in
    if EXFAT_MAX_SET_ENTRIES <? total then Some (v, dir, t, -1)
    else match read_set (Z.to_nat total) v it (dirent_index t) (fun _ => 0) 0 with
         | (None, _) => Some (v, dir, t, -1)
         | (Some buf, it) =>
             if negb (buf 0 =? EXFAT_TYPE_FILE) then Some (v, dir, t, -1)
             else match own_loop (Z.to_nat (total - 2)) buf 2 (owner t) with
                  | None => whole
                  | Some buf =>
                      let buf := wle16 buf 2 (set_checksum buf (total * EXFAT_ENTRY_SIZE)) in
                      let '(v, _, ok) := write_set (Z.to_nat total) v it (dirent_index t) buf 0 in
                      Some (v, dir, t, if (ok : bool) then 0 else -1)
                  end
         end
  else whole.

(** The size of the volume and what is free, in bytes. *)
Definition exfat_statfs (v : vol) : Z * Z := (u64 (cluster_count fs * bytes_per_cluster fs), u64 (free_clusters v * bytes_per_cluster fs)).

(** *** Mounting *)

(** [mount_scan_meta]: the bitmap's cluster and size. *)
Fixpoint meta_loop (fuel : nat) (v : vol) (it : dir_iter) (idx : Z) : option (option (Z * Z)) :=
  match fuel with
  | O => None
  | S f =>
      match dir_entry_read v it idx with
      | (None, _) => Some None
      | (Some e, it) =>
          if e 0 =? EXFAT_TYPE_END then Some None
          else if e 0 =? EXFAT_TYPE_BITMAP then Some (Some (le32 e 20, le64 e 24))
          else if e 0 =? EXFAT_TYPE_FILE then meta_loop f v it (u32 (idx + 1 + e 1))
          else meta_loop f v it (u32 (idx + 1))
      end
  end.
End Volume.

Definition SIGNATURE : list Z := [69; 88; 70; 65; 84; 32; 32; 32].
Definition with_bitmap (f : exfat_fs) (c n : Z) : exfat_fs :=
  Fs (bytes_per_sector f) (sectors_per_cluster f) (bytes_per_cluster f) (fat_offset f) (fat_length f) (cluster_heap_offset f)
     (cluster_count f) (root_cluster f) c n.
(** The geometry in a boot sector.  A shift by 32 or more, undefined in C,
    gives 0 here. *)
Definition boot_fs (bs : Z -> Z) : exfat_fs :=
  let bps := u32 (Z.shiftl 1 (bs 108)) in
  let spc := u32 (Z.shiftl 1 (bs 109)) in
  Fs bps spc (u32 (bps * spc)) (le32 bs 80) (le32 bs 84) (le32 bs 88) (le32 bs 92) (le32 bs 96) 0 0.

(** The mounted volume and its root, or the return value. *)
Definition exfat_mount `{!Cache} (d : Z -> Z) (sector_size : Z) : option ((exfat_fs * vol * inode) + Z) :=
  if get_fails 0 then Some (inr (-3))
  else if negb (bytes_eq d 3 SIGNATURE) then Some (inr (-4))
  else
    let f := boot_fs d in
    if negb (bytes_per_sector f =? sector_size) then Some (inr (-6))
    else
      match meta_loop f (dir_fuel f) (Vol d 0) (iter (root_cluster f) false 0) 0 with
      | None => None
      | Some None => Some (inr (-7))
      | Some (Some (c, n)) =>
          let f := with_bitmap f c n in
          let free := match bitmap_count_used f (Vol d 0) with None => 0 | Some used => u64 (cluster_count f - used) end in
          Some (inl (f, Vol d free, Ino 0 true (Owner 0 0 493) (root_cluster f) false 0 false 0 0 0 false (Walk 0 0 0 0 0 0)))
      end.
End Exfat.
