(* ===== verification/ExfatFormat.v ===== *)
(** * exFAT: making a volume (exfat_format of fs/exfat.c)

    The sectors the formatter writes, in its order, through a device whose
    writes may fail, and what [exfat_mount] makes of the result. *)

From stdpp Require Import base list.
From Stdlib Require Import ZArith Lia.
From S2P Require Import Prelude Partition Exfat.
Open Scope Z_scope.

Module ExfatFormat.
Import Partition Exfat.

(** ** Checksums and the up-case table *)

Definition ror32_add (c b : Z) : Z := u32 ((if Z.land c 1 =? 0 then 0 else 2147483648) + Z.shiftr c 1 + b).
Fixpoint boot_loop (n : nat) (r : Z -> Z) (i c : Z) : Z :=
  match n with
  | O => c
  | S n' => boot_loop n' r (i + 1) (if (i =? 106) || (i =? 107) || (i =? 112) then c else ror32_add c (r i))
  end.
Definition boot_checksum (r : Z -> Z) (bytes : Z) : Z := boot_loop (Z.to_nat bytes) r 0 0.
Fixpoint table_loop (n : nat) (d : Z -> Z) (i c : Z) : Z :=
  match n with O => c | S n' => table_loop n' d (i + 1) (ror32_add c (d i)) end.
Definition table_checksum (d : Z -> Z) (n : Z) : Z := table_loop (Z.to_nat n) d 0 0.

Fixpoint upcase_loop (n : nat) (out : Z -> Z) (o c : Z) : Z -> Z :=
  match n with O => out | S n' => upcase_loop n' (wle16 out o (u16 (c - 32))) (o + 2) (c + 1) end.
Definition build_upcase (out : Z -> Z) : (Z -> Z) * Z :=
  let out := wle16 (wle16 out 0 65535) 2 97 in
  let out := upcase_loop 26 out 4 97 in
  (wle16 (wle16 out 56 65535) 58 (u16 (65536 - 123)), 60).

(** ** Geometry *)

Record geometry := Geo { g_shift : Z; g_spc : Z; g_fat_off : Z; g_fat_len : Z; g_heap : Z; g_clusters : Z }.
Fixpoint geo_loop (n : nat) (total spc fat_off fat_len heap clusters : Z) : Z * Z * Z :=
  match n with
  | O => (fat_len, heap, clusters)
  | S n' =>
      let heap := u32 (u32 (fat_off + fat_len + spc - 1) / spc * spc) in
      let clusters := u32 ((total - heap) / spc) in
      geo_loop n' total spc fat_off (u32 ((u32 (clusters + 2) * 4 + 511) / 512)) heap clusters
  end.
Definition geometry_of (total : Z) : geometry :=
  let sh := if total <=? Z.shiftl 256 11 then 3 else if total <=? Z.shiftl 32 21 then 6 else 8 in
  let spc := Z.shiftl 1 sh in
  let '(fl, heap, cl) := geo_loop 4 total spc 128 1 0 0 in Geo sh spc 128 fl heap cl.

Section Format.
Context (total serial : Z) (label : list Z).

Definition g : geometry := geometry_of total.
Definition cbytes : Z := u32 (g_spc g * 512).
Definition bm_bytes : Z := u32 (g_clusters g + 7) / 8.
Definition bm_clus : Z := u32 (bm_bytes + cbytes - 1) / cbytes.
Definition c_bitmap : Z := 2.
Definition c_upcase : Z := 2 + bm_clus.
Definition c_root : Z := c_upcase + 1.
Definition used : Z := bm_clus + 1 + 1.

(** ** The sectors *)

Fixpoint extended (n : nat) (r : Z -> Z) (k : Z) : Z -> Z :=
  match n with O => r | S n' => extended n' (r⟦k * 512 + 510 ↦ 85⟧⟦k * 512 + 511 ↦ 170⟧) (k + 1) end.
Definition boot_region : Z -> Z :=
  let bs := fun _ => 0 in
  let bs := poke bs 0 [235; 118; 144] in
  let bs := poke bs 3 SIGNATURE in
  let bs := put64 (put64 bs 64 0) 72 total in
  let bs := put32 (put32 (put32 (put32 (put32 bs 80 (g_fat_off g)) 84 (g_fat_len g)) 88 (g_heap g)) 92 (g_clusters g)) 96 c_root in
  let bs := wle16 (wle16 (put32 bs 100 serial) 104 256) 106 0 in
  let bs := bs⟦108 ↦ 9⟧⟦109 ↦ u8 (g_shift g)⟧⟦110 ↦ 1⟧⟦111 ↦ 128⟧⟦112 ↦ 255⟧ in
  let bs := fill bs 120 390 244 in
  extended 8 (bs⟦510 ↦ 85⟧⟦511 ↦ 170⟧) 1.

Fixpoint words (n : nat) (b : Z -> Z) (o v : Z) : Z -> Z :=
  match n with O => b | S n' => words n' (put32 b o v) (o + 4) v end.
Definition fat_value (e : Z) : Z :=
  if e =? 0 then 4294967288
  else if e =? 1 then 4294967295
  else if (c_bitmap <=? e) && (e <? c_upcase) then if e + 1 <? c_upcase then e + 1 else 4294967295
  else if (e =? c_upcase) || (e =? c_root) then 4294967295 else 0.
Fixpoint fat_words (n : nat) (b : Z -> Z) (k i : Z) : Z -> Z :=
  match n with O => b | S n' => fat_words n' (put32 b (i * 4) (fat_value (k * 128 + i))) k (i + 1) end.
Definition fat_sector (k : Z) : Z -> Z := fat_words 128 (fun _ => 0) k 0.

Fixpoint used_bits (n : nat) (bit0 b v : Z) : Z :=
  match n with O => v | S n' => used_bits n' bit0 (b + 1) (if bit0 + b <? used then Z.lor v (u8 (Z.shiftl 1 b)) else v) end.
Definition bitmap_sector (k i : Z) : Z := used_bits 8 ((k * 512 + i) * 8) 0 0.

Definition upcase_sector (k : Z) : Z -> Z :=
  let '(up, n) := build_upcase (fun _ => 0) in
  if k =? 0 then poke (fun _ => 0) 0 (peek up 0 (Z.to_nat n)) else fun _ => 0.

Fixpoint put_label (l : list Z) (b : Z -> Z) (o : Z) : Z -> Z :=
  match l with [] => b | c :: r => put_label r (wle16 b o (u8 c)) (o + 2) end.
Definition root_sector (k : Z) : Z -> Z :=
  if k =? 0 then
    let l := take 11 label in
    let '(up, n) := build_upcase (fun _ => 0) in
    let e := fun _ => 0 in
    let e := put_label l (e⟦0 ↦ match l with [] => 3 | _ => 131 end⟧⟦1 ↦ u8 (Z.of_nat (length l))⟧) 2 in
    let e := put64 (put32 (e⟦32 ↦ 129⟧) 52 c_bitmap) 56 bm_bytes in
    put64 (put32 (put32 (e⟦64 ↦ 130⟧) 68 (table_checksum up n)) 84 c_upcase) 88 n
  else fun _ => 0.

(** Every sector written, in order. *)
Definition boot_writes (base : Z) : list (Z * (Z -> Z)) :=
  map (fun k => (base + k, fun a => boot_region (k * 512 + a))) (seqZ 0 11)
  ++ [(base + 11, words 128 (fun _ => 0) 0 (boot_checksum boot_region 5632))].
Definition format_writes : list (Z * (Z -> Z)) :=
  boot_writes 0 ++ boot_writes 12
  ++ map (fun k => (g_fat_off g + k, fat_sector k)) (seqZ 0 (g_fat_len g))
  ++ map (fun k => (g_heap g + (c_bitmap - 2) * g_spc g + k, bitmap_sector k)) (seqZ 0 (bm_clus * g_spc g))
  ++ map (fun k => (g_heap g + (c_upcase - 2) * g_spc g + k, upcase_sector k)) (seqZ 0 (g_spc g))
  ++ map (fun k => (g_heap g + (c_root - 2) * g_spc g + k, root_sector k)) (seqZ 0 (g_spc g)).

(** They stop at the first that fails. *)
Fixpoint do_writes (wr_ok : Z -> bool) (l : list (Z * (Z -> Z))) (d : Z -> Z) : (Z -> Z) * Z :=
  match l with
  | [] => (d, 0)
  | (lba, b) :: r => if wr_ok lba then do_writes wr_ok r (put_sectors d lba 1 b) else (d, -4)
  end.
Definition exfat_format (wr_ok : Z -> bool) (sector_size : Z) (d : Z -> Z) : (Z -> Z) * Z :=
  if negb (sector_size =? 512) then (d, -1)
  else if total <? 2048 then (d, -2)
  else if g_clusters g <? used + 1 then (d, -2)
  else do_writes wr_ok format_writes d.
End Format.

(** ** A volume just formatted

    The block cache that always finds its sectors, a partition of 2048 sectors
    formatted and mounted, and two empty files made in its root. *)
Definition good_cache : Cache := {| get_fails _ := false; overwrite_fails _ := false |}.
#[local] Existing Instance good_cache.
Definition small : Z -> Z := (exfat_format 2048 7 [68; 65; 84; 65] (fun _ => true) 512 (fun _ => 77)).1.
Definition mounted := exfat_mount small 512.
Definition fsv : exfat_fs := match mounted with Some (inl (f, _, _)) => f | _ => Fs 0 0 0 0 0 0 0 0 0 0 end.
Definition v0 : vol := match mounted with Some (inl (_, v, _)) => v | _ => Vol (fun _ => 0) 0 end.
Definition root : inode := match mounted with Some (inl (_, _, r)) => r | _ => Ino 0 false (Owner 0 0 0) 0 false 0 false 0 0 0 false (Walk 0 0 0 0 0 0) end.
Definition made (v : vol) (d : inode) (name : list Z) : vol * inode * inode :=
  match exfat_make fsv true 100 v d name false with Some (v, d, Some i, _) => (v, d, i) | _ => (v, d, d) end.
Definition one := made v0 root [97; 98].
Definition two := made one.1.1 one.1.2 [99].
Definition v2 : vol := two.1.1.
Definition files : list inode := [one.2; two.2].
End ExfatFormat.
