(* ===== verification/ExfatSpec.v ===== *)
(** * exFAT: addresses, chains and the bitmap

    Where the FAT, the bitmap and the clusters lie on a well-formed volume, and
    what the primitives of [Exfat] do to them: following and extending a chain,
    taking and releasing a cluster. *)

From stdpp Require Import base list.
From Stdlib Require Import ZArith Lia.
From S2P Require Import Prelude Partition PartitionSpec Exfat.
Open Scope Z_scope.

Module ExfatSpec.
Import Partition PartitionSpec Exfat.

(** A volume whose parts do not overlap, on a device without errors. *)
Record geo_ok `{!Cache} (fs : exfat_fs) : Prop := GeoOk {
  go_get : forall lba, get_fails lba = false; go_ow : forall lba, overwrite_fails lba = false;
  go_bps : exists k, 0 < k /\ bytes_per_sector fs = 32 * k;
  go_spc : 1 <= sectors_per_cluster fs;
  go_bpc : bytes_per_cluster fs = bytes_per_sector fs * sectors_per_cluster fs /\ bytes_per_cluster fs < 4294967296;
  go_count : 0 < cluster_count fs /\ cluster_count fs + 2 <= EXFAT_FAT_EOC_FIRST;
  go_fat : 0 <= fat_offset fs /\ fat_offset fs * bytes_per_sector fs + 4 * (cluster_count fs + 2) <= cluster_heap_offset fs * bytes_per_sector fs;
  go_heap : cluster_heap_offset fs + cluster_count fs * sectors_per_cluster fs < 18446744073709551616;
  go_bm : 2 <= bitmap_cluster fs /\ cluster_count fs <= bitmap_size fs * 8 /\
          bitmap_cluster fs - 2 + (bitmap_size fs + bytes_per_cluster fs - 1) / bytes_per_cluster fs <= cluster_count fs }.

Section Volume.
Context `{HC : Cache} (fs : exfat_fs) (G : geo_ok fs).
Notation bps := (bytes_per_sector fs).
Notation spc := (sectors_per_cluster fs).
Notation bpc := (bytes_per_cluster fs).
Notation count := (cluster_count fs).

Definition in_range (c : Z) : Prop := 2 <= c < count + 2.

Lemma bps_pos : 32 <= bps /\ bps mod 4 = 0 /\ bps mod 32 = 0.
Proof.
  destruct (go_bps fs G) as (k & Hk & ->). split; [lia|]. split.
  - replace (32 * k) with ((8 * k) * 4) by lia. apply Z.mod_mul. lia.
  - rewrite Z.mul_comm. apply Z.mod_mul. lia.
Qed.
Lemma bpc_pos : 32 <= bpc < 4294967296 /\ bpc = bps * spc.
Proof. pose proof bps_pos. pose proof (go_spc fs G). destruct (go_bpc fs G) as [E ?]. split; [|done]. nia. Qed.
Lemma count_pos : 0 < count < 4294967287.
Proof. pose proof (go_count fs G). unfold EXFAT_FAT_EOC_FIRST in *. lia. Qed.

(** ** Addresses *)

Definition fat_at (c : Z) : Z := fat_offset fs * bps + 4 * c.
Definition clu_at (c : Z) : Z := cluster_heap_offset fs * bps + (c - 2) * bpc.
Definition bm_at (c : Z) : Z := clu_at (bitmap_cluster fs) + (c - 2) / 8.

Lemma fat_addr_eq c : 0 <= c -> fat_addr fs c = fat_at c.
Proof.
  intros Hc. unfold fat_addr, fat_lba, fat_at. pose proof bps_pos.
  pose proof (Z.div_mod (c * 4) bps ltac:(lia)). nia.
Qed.

Lemma first_lba c : in_range c -> cluster_first_lba fs c = cluster_heap_offset fs + (c - 2) * spc.
Proof.
  intros [H1 H2]. unfold cluster_first_lba. pose proof count_pos. pose proof (go_spc fs G). pose proof (go_heap fs G). destruct (go_fat fs G) as [F1 F2].
  pose proof bps_pos as [? _]. rewrite u32_small by lia. apply u64_small. assert (0 <= cluster_heap_offset fs) by nia. nia.
Qed.

(** The sector and place of a byte of a cluster are its address. *)
Lemma in_cluster_at c off : in_range c -> 0 <= off ->
  let '(lba, w) := in_cluster fs c off in
  lba * bps + w = clu_at c + off mod bpc /\ 0 <= w < bps /\ w = off mod bps.
Proof.
  intros Hc Ho. unfold in_cluster. pose proof bpc_pos as [Hb E]. pose proof bps_pos. pose proof (Z.mod_pos_bound off bpc ltac:(lia)).
  rewrite u32_small by lia. rewrite first_lba by done. unfold clu_at.
  pose proof (Z.div_mod (off mod bpc) bps ltac:(lia)). pose proof (Z.mod_pos_bound (off mod bpc) bps ltac:(lia)).
  split; [rewrite E in *; nia|]. split; [lia|]. rewrite E. pose proof (go_spc fs G).
  rewrite Z.rem_mul_r by lia. rewrite Z.mul_comm, Z_mod_plus_full. by apply Z.mod_mod; lia.
Qed.

(** Distinct things lie apart. *)
Lemma fat_below c d k : in_range c -> in_range d -> 0 <= k < bpc -> fat_at c + 4 <= clu_at d + k.
Proof. intros [? ?] [? ?] ?. unfold fat_at, clu_at. pose proof (go_fat fs G). pose proof bpc_pos. nia. Qed.
Lemma clusters_apart c d k j : c <> d -> 0 <= k < bpc -> 0 <= j < bpc -> clu_at c + k <> clu_at d + j.
Proof. intros Hne ? ?. unfold clu_at. pose proof bpc_pos. nia. Qed.

(** ** The bitmap *)

Definition used (v : vol) (c : Z) : bool := Z.testbit (disk v (bm_at c)) ((c - 2) mod 8).
Definition bm_clusters : list Z := seqZ (bitmap_cluster fs) ((bitmap_size fs + bpc - 1) / bpc).

Lemma bm_bytes_of c : in_range c -> 0 <= (c - 2) / 8 < bitmap_size fs.
Proof.
  intros [? ?]. destruct (go_bm fs G) as (_ & Hb & _). split; [apply Z.div_pos; lia|]. apply Z.div_lt_upper_bound; lia.
Qed.

(** A byte of the bitmap lies in one of its clusters. *)
Lemma bm_inside c : in_range c -> exists d k, d ∈ bm_clusters /\ in_range d /\ 0 <= k < bpc /\ bm_at c = clu_at d + k.
Proof.
  intros Hc. pose proof (bm_bytes_of c Hc) as Hb. pose proof bpc_pos as [Hp _]. destruct (go_bm fs G) as (B1 & B2 & B3).
  set (b := (c - 2) / 8) in *. exists (bitmap_cluster fs + b / bpc), (b mod bpc).
  pose proof (Z.div_mod b bpc ltac:(lia)) as D. pose proof (Z.mod_pos_bound b bpc ltac:(lia)). pose proof (Z.div_pos b bpc ltac:(lia) ltac:(lia)).
  assert (b / bpc < (bitmap_size fs + bpc - 1) / bpc) as Hlt.
  { apply Z.div_lt_upper_bound; [lia|]. pose proof (Z.div_mod (bitmap_size fs + bpc - 1) bpc ltac:(lia)).
    pose proof (Z.mod_pos_bound (bitmap_size fs + bpc - 1) bpc ltac:(lia)). lia. }
  split; [apply elem_of_seqZ; lia|]. split; [unfold in_range; lia|]. split; [lia|]. unfold bm_at, clu_at. fold b. nia.
Qed.
Lemma bm_clusters_range d : d ∈ bm_clusters -> in_range d.
Proof. intros Hd%elem_of_seqZ. destruct (go_bm fs G) as (? & ? & ?). unfold in_range. lia. Qed.

Lemma bit_test b k : 0 <= k -> (Z.land b (Z.shiftl 1 k) =? 0) = negb (Z.testbit b k).
Proof.
  intros Hk. destruct (Z.testbit b k) eqn:E; cbn [negb].
  - apply Z.eqb_neq. intros F. apply (f_equal (fun z => Z.testbit z k)) in F. rewrite Z.land_spec, Z.shiftl_spec, Z.sub_diag, E, Z.bits_0 in F by lia. done.
  - apply Z.eqb_eq. apply Z.bits_inj'. intros j Hj. rewrite Z.land_spec, Z.shiftl_spec, Z.bits_0 by lia.
    destruct (decide (j = k)) as [->|Hne]; [by rewrite E|]. replace (Z.testbit 1 (j - k)) with false; [by rewrite andb_false_r|].
    symmetry. destruct (Z.ltb_spec j k); [apply Z.testbit_neg_r; lia|]. by rewrite Z.bits_above_log2 by (cbn; lia).
Qed.

Lemma free_bit_spec n b bit : 0 <= bit ->
  match free_bit n b bit with
  | Some k => bit <= k < bit + Z.of_nat n /\ Z.testbit b k = false /\ forall j, bit <= j < k -> Z.testbit b j = true
  | None => forall j, bit <= j < bit + Z.of_nat n -> Z.testbit b j = true
  end.
Proof.
  revert bit. induction n as [|n IH]; intros bit Hb; cbn [free_bit]; [intros; lia|].
  rewrite bit_test by done. destruct (Z.testbit b bit) eqn:E; cbn [negb].
  - specialize (IH (bit + 1) ltac:(lia)). destruct (free_bit n b (bit + 1)) as [k|].
    + destruct IH as (H1 & H2 & H3). split; [lia|]. split; [done|]. intros j Hj. destruct (decide (j = bit)) as [->|]; [done|apply H3; lia].
    + intros j Hj. destruct (decide (j = bit)) as [->|]; [done|apply IH; lia].
  - split; [lia|]. split; [done|]. lia.
Qed.

Definition taken (v : vol) (c : Z) : vol :=
  Vol ((disk v)⟦bm_at c ↦ Z.lor (disk v (bm_at c)) (Z.shiftl 1 ((c - 2) mod 8))⟧) (if free_clusters v =? 0 then 0 else free_clusters v - 1).

(** The byte [j] of the bitmap speaks of the clusters [8 j + 2 ..]. *)
Lemma byte_of c : c - 2 = 8 * ((c - 2) / 8) + (c - 2) mod 8 /\ 0 <= (c - 2) mod 8 < 8.
Proof. split; [apply Z.div_mod; lia|apply Z.mod_pos_bound; lia]. Qed.
Lemma cluster_of j k : 0 <= k < 8 -> (j * 8 + k + 2 - 2) / 8 = j /\ (j * 8 + k + 2 - 2) mod 8 = k.
Proof. intros Hk. replace (j * 8 + k + 2 - 2) with (k + j * 8) by lia. rewrite Z.div_add, Z.mod_add by lia. rewrite Z.div_small, Z.mod_small by lia. lia. Qed.

Lemma full_byte v c : disk v (bm_at c) = 255 -> used v c = true.
Proof.
  intros E. unfold used. rewrite E. destruct (byte_of c) as [_ H]. 
  assert ((c - 2) mod 8 ∈ seqZ 0 8) as Hin by (apply elem_of_seqZ; lia). revert Hin. generalize ((c - 2) mod 8). apply Forall_forall. repeat constructor.
Qed.

Lemma alloc_bytes_spec n v s i : 0 <= s -> 0 <= i ->
  let j0 := s * bps + i in
  match alloc_bytes fs n v (cluster_first_lba fs (bitmap_cluster fs) + s) s i with
  | Next => forall c, in_range c -> j0 <= (c - 2) / 8 < j0 + Z.of_nat n -> used v c = true
  | Full => forall c, in_range c -> j0 <= (c - 2) / 8 -> used v c = true
  | Got v' c => in_range c /\ used v c = false /\ v' = taken v c /\ forall d, in_range d -> j0 <= (d - 2) / 8 -> d < c -> used v d = true
  end.
Proof.
  intros Hs. revert i. induction n as [|n IH]; intros i Hi j0; cbn [alloc_bytes]; [intros; lia|]. pose proof bps_pos as [Hbp _]. pose proof bpc_pos as [_ Eb].
  assert (in_range (bitmap_cluster fs)) as Hbm.
  { destruct (go_bm fs G) as (? & ? & ?). pose proof bpc_pos as [? _]. pose proof (go_count fs G) as [? _]. unfold in_range.
    assert (1 <= (bitmap_size fs + bpc - 1) / bpc) by (apply Z.div_le_lower_bound; lia). lia. }
  rewrite (first_lba _ Hbm).
  replace ((cluster_heap_offset fs + (bitmap_cluster fs - 2) * spc + s) * bps + i) with (clu_at (bitmap_cluster fs) + j0)
    by (unfold clu_at, j0; rewrite Eb; ring). fold j0.
  assert (forall c, (c - 2) / 8 = j0 -> bm_at c = clu_at (bitmap_cluster fs) + j0) as Hat by (intros c E; unfold bm_at; by rewrite E).
  destruct (Z.leb_spec count (j0 * 8)) as [Hc|Hc].
  { intros c [? ?] ?. destruct (byte_of c). lia. }
  specialize (IH (i + 1) ltac:(lia)). cbv zeta in IH. replace (s * bps + (i + 1)) with (j0 + 1) in IH by (unfold j0; lia). rewrite (first_lba _ Hbm) in IH.
  assert (forall P : Z -> Prop, (forall c, in_range c -> (c - 2) / 8 = j0 -> used v c = true) ->
    match alloc_bytes fs n v (cluster_heap_offset fs + (bitmap_cluster fs - 2) * spc + s) s (i + 1) with
    | Next => forall c, in_range c -> j0 <= (c - 2) / 8 < j0 + Z.of_nat (S n) -> used v c = true
    | Full => forall c, in_range c -> j0 <= (c - 2) / 8 -> used v c = true
    | Got v' c => in_range c /\ used v c = false /\ v' = taken v c /\ forall d, in_range d -> j0 <= (d - 2) / 8 -> d < c -> used v d = true
    end) as Hskip.
  { intros _ Hj. destruct (alloc_bytes fs n v _ s (i + 1)) as [| |v' c].
    - intros c Hr Hb. destruct (decide ((c - 2) / 8 = j0)); [by apply Hj|apply IH; (done || lia)].
    - intros c Hr Hb. destruct (decide ((c - 2) / 8 = j0)); [by apply Hj|apply IH; (done || lia)].
    - destruct IH as (H1 & H2 & H3 & H4). split; [done|]. split; [done|]. split; [done|]. intros d Hr Hb Hd.
      destruct (decide ((d - 2) / 8 = j0)); [by apply Hj|apply H4; (done || lia)]. }
  destruct (Z.eqb_spec (disk v (clu_at (bitmap_cluster fs) + j0)) 255) as [E|E].
  { apply (Hskip (fun _ => True)). intros c _ Hb. apply full_byte. by rewrite Hat. }
  pose proof (free_bit_spec 8 (disk v (clu_at (bitmap_cluster fs) + j0)) 0 ltac:(lia)) as Fb.
  destruct (free_bit 8 _ 0) as [k|].
  - destruct Fb as (F1 & F2 & F3). destruct (cluster_of j0 k ltac:(lia)) as [C1 C2].
    destruct (Z.leb_spec count (j0 * 8 + k)).
    + intros c [R1 R2] Hb. destruct (byte_of c) as [B1 B2]. assert ((c - 2) / 8 = j0) as Ej by lia.
      unfold used. rewrite Hat by done. apply F3. lia.
    + pose proof count_pos. assert (0 <= j0) by (unfold j0; nia). rewrite u32_small by lia. replace (2 + (j0 * 8 + k)) with (j0 * 8 + k + 2) by lia.
      split; [unfold in_range; lia|]. split; [unfold used; rewrite Hat, C2 by done; done|]. split.
      * unfold taken. by rewrite Hat, C2 by done.
      * intros d [R1 R2] Hb Hd. destruct (byte_of d) as [B1 B2]. assert ((d - 2) / 8 = j0) as Ej by lia.
        unfold used. rewrite Hat by done. apply F3. lia.
  - apply (Hskip (fun _ => True)). intros c _ Hb. destruct (byte_of c) as [B1 B2]. unfold used. rewrite Hat by done. apply Fb. lia.
Qed.

Lemma bm_in_range : in_range (bitmap_cluster fs).
Proof.
  destruct (go_bm fs G) as (? & ? & ?). pose proof bpc_pos as [? _]. pose proof (go_count fs G) as [? _]. unfold in_range.
  assert (1 <= (bitmap_size fs + bpc - 1) / bpc) by (apply Z.div_le_lower_bound; lia). lia.
Qed.

Lemma alloc_sectors_spec n v s : 0 <= s ->
  let '(v', c) := alloc_sectors fs n v (cluster_first_lba fs (bitmap_cluster fs)) s in
  (c = 0 /\ v' = v /\ forall d, in_range d -> s * bps <= (d - 2) / 8 < (s + Z.of_nat n) * bps -> used v d = true) \/
  (in_range c /\ used v c = false /\ v' = taken v c).
Proof.
  revert s. induction n as [|n IH]; intros s Hs; cbn [alloc_sectors]; [left; split; [done|]; split; [done|]; intros; lia|].
  rewrite (go_get fs G). pose proof bps_pos as [Hb _]. pose proof (alloc_bytes_spec (Z.to_nat bps) v s 0 Hs ltac:(lia)) as A. cbv zeta in A.
  destruct (alloc_bytes fs _ v _ s 0) as [| |v' c].
  - specialize (IH (s + 1) ltac:(lia)). destruct (alloc_sectors fs n v _ (s + 1)) as [v' c]. destruct IH as [(-> & -> & IH)|IH]; [|by right].
    left. split; [done|]. split; [done|]. intros d Hd Hr. destruct (Z.ltb_spec ((d - 2) / 8) ((s + 1) * bps)); [apply A|apply IH]; (done || nia).
  - left. split; [done|]. split; [done|]. intros d Hd Hr. apply A; [done|lia].
  - right. destruct A as (H1 & H2 & H3 & _). done.
Qed.

(** The allocator takes a free cluster, or finds none because none is free. *)
Lemma bitmap_alloc_spec v :
  let '(v', c) := bitmap_alloc fs v in
  (c = 0 /\ v' = v /\ forall d, in_range d -> used v d = true) \/ (in_range c /\ used v c = false /\ v' = taken v c).
Proof.
  unfold bitmap_alloc. destruct (go_bm fs G) as (B1 & B2 & B3). destruct (Z.eqb_spec (bitmap_cluster fs) 0); [lia|].
  pose proof (alloc_sectors_spec (Z.to_nat (bitmap_sectors fs)) v 0 ltac:(lia)) as A. destruct (alloc_sectors fs _ v _ 0) as [v' c].
  destruct A as [(H1 & H2 & H3)|A]; [left|by right]. split; [done|]. split; [done|]. intros d Hd. apply H3; [done|].
  pose proof (bm_bytes_of d Hd). pose proof bps_pos as [Hb _]. unfold bitmap_sectors.
  pose proof (Z.div_mod (bitmap_size fs + bps - 1) bps ltac:(lia)). pose proof (Z.mod_pos_bound (bitmap_size fs + bps - 1) bps ltac:(lia)).
  pose proof (Z.div_pos (bitmap_size fs + bps - 1) bps ltac:(lia) ltac:(lia)). nia.
Qed.

Lemma used_upd v f c d b : in_range c -> in_range d ->
  used (Vol ((disk v)⟦bm_at c ↦ b⟧) f) d = if (d - 2) / 8 =? (c - 2) / 8 then Z.testbit b ((d - 2) mod 8) else used v d.
Proof.
  intros Hc Hd. unfold used. cbn [disk]. destruct (Z.eqb_spec ((d - 2) / 8) ((c - 2) / 8)) as [E|E].
  - replace (bm_at d) with (bm_at c) by (unfold bm_at; by rewrite E). by rewrite upd_same.
  - rewrite upd_other; [done|]. unfold bm_at. lia.
Qed.

Lemma used_taken v c d : in_range c -> in_range d -> used (taken v c) d = if d =? c then true else used v d.
Proof.
  intros Hc Hd. unfold taken. rewrite used_upd by done. destruct (byte_of c) as [C1 C2], (byte_of d) as [D1 D2].
  destruct (Z.eqb_spec ((d - 2) / 8) ((c - 2) / 8)) as [E|E].
  - rewrite Z.lor_spec, Z.shiftl_spec by lia. destruct (Z.eqb_spec d c) as [->|Hne].
    + rewrite Z.sub_diag. by rewrite orb_true_r.
    + replace (Z.testbit 1 _) with false; [rewrite orb_false_r; unfold used, bm_at; by rewrite E|]. symmetry.
      destruct (Z.ltb_spec ((d - 2) mod 8) ((c - 2) mod 8)); [apply Z.testbit_neg_r; lia|]. rewrite Z.bits_above_log2; [done|lia|cbn; lia].
  - destruct (Z.eqb_spec d c) as [->|]; [lia|done].
Qed.

(** Releasing, when the cluster exists. *)
Definition released (v : vol) (c : Z) : vol :=
  Vol ((disk v)⟦bm_at c ↦ Z.land (disk v (bm_at c)) (u8 (Z.lnot (Z.shiftl 1 ((c - 2) mod 8))))⟧)
      (if used v c then free_clusters v + 1 else free_clusters v).

Lemma u8_bit k : 0 <= k < 8 -> u8 (Z.shiftl 1 k) = Z.shiftl 1 k.
Proof.
  intros Hk. apply u8_small. rewrite Z.shiftl_1_l. split; [apply Z.pow_nonneg; lia|]. change 256 with (2 ^ 8). apply Z.pow_lt_mono_r; lia.
Qed.

Lemma bitmap_free_spec v c : in_range c -> bitmap_free fs v c = released v c.
Proof.
  intros Hc. unfold bitmap_free. destruct (go_bm fs G) as (B1 & _ & _). destruct Hc as [H1 H2]. destruct (Z.eqb_spec (bitmap_cluster fs) 0); [lia|].
  destruct (Z.ltb_spec c 2); [lia|]. cbn [orb]. destruct (Z.leb_spec count (c - 2)); [lia|]. rewrite (go_get fs G). unfold released.
  destruct (byte_of c) as [C1 C2]. pose proof (Z.div_pos (c - 2) 8 ltac:(lia) ltac:(lia)) as Hp. pose proof bps_pos as [Hb _].
  assert ((cluster_first_lba fs (bitmap_cluster fs) + (c - 2) / 8 / bps) * bps + (c - 2) / 8 mod bps = bm_at c) as ->.
  { rewrite first_lba by apply bm_in_range. unfold bm_at, clu_at. pose proof bpc_pos as [_ ->]. pose proof (Z.div_mod ((c - 2) / 8) bps ltac:(lia)). nia. }
  rewrite u8_bit by done. rewrite bit_test by lia. unfold used. by destruct (Z.testbit _ _).
Qed.

Lemma used_released v c d : in_range c -> in_range d -> used (released v c) d = if d =? c then false else used v d.
Proof.
  intros Hc Hd. unfold released. rewrite used_upd by done. destruct (byte_of c) as [C1 C2], (byte_of d) as [D1 D2].
  destruct (Z.eqb_spec ((d - 2) / 8) ((c - 2) / 8)) as [E|E].
  - rewrite Z.land_spec. unfold u8. change 256 with (2 ^ 8). rewrite Z.mod_pow2_bits_low by lia. rewrite Z.lnot_spec, Z.shiftl_spec by lia.
    destruct (Z.eqb_spec d c) as [->|Hne].
    + rewrite Z.sub_diag. by rewrite andb_false_r.
    + replace (Z.testbit 1 _) with false; [cbn [negb]; rewrite andb_true_r; unfold used, bm_at; by rewrite E|]. symmetry.
      destruct (Z.ltb_spec ((d - 2) mod 8) ((c - 2) mod 8)); [apply Z.testbit_neg_r; lia|]. rewrite Z.bits_above_log2; [done|lia|cbn; lia].
  - destruct (Z.eqb_spec d c) as [->|]; [lia|done].
Qed.

(** ** The kept count *)

Definition nfree (v : vol) : Z := Z.of_nat (length (filter (fun c => used v c = false) (seqZ 2 count))).
Definition kept (v : vol) : Prop := free_clusters v = nfree v.

Lemma filter_same {A} (P Q : A -> Prop) `{!forall x, Decision (P x)} `{!forall x, Decision (Q x)} (l : list A) :
  (forall x, x ∈ l -> P x <-> Q x) -> filter P l = filter Q l.
Proof.
  induction l as [|x l IH]; [done|]. intros Heq. rewrite !filter_cons. pose proof (Heq x ltac:(by left)) as Hx.
  rewrite IH by (intros; apply Heq; by right). destruct (decide (P x)), (decide (Q x)); naive_solver.
Qed.

Lemma count_flip {A} (P Q : A -> Prop) `{!forall x, Decision (P x)} `{!forall x, Decision (Q x)} (l : list A) c : NoDup l -> c ∈ l ->
  (forall d, d ∈ l -> d <> c -> P d <-> Q d) -> P c -> ~ Q c -> length (filter P l) = S (length (filter Q l)).
Proof.
  induction l as [|x l IH]; [by intros _ ?%elem_of_nil|]. intros [Hx Hl]%NoDup_cons Hc Heq HP HQ. rewrite !filter_cons.
  apply elem_of_cons in Hc as [->|Hc].
  - rewrite decide_True, decide_False by done. cbn. f_equal. f_equal. apply filter_same. intros d Hd.
    apply Heq; [by right|]. by intros ->.
  - assert (x <> c) by (by intros ->). destruct (decide (P x)) as [Px|Px].
    + rewrite decide_True by (apply Heq; [by left|done|done]). cbn. f_equal. apply IH; try done. intros d Hd. apply Heq. by right.
    + rewrite decide_False by (intros Qx; apply Px, Heq; [by left|done|done]). apply IH; try done. intros d Hd. apply Heq. by right.
Qed.

Lemma nfree_taken v c : in_range c -> used v c = false -> nfree v = nfree (taken v c) + 1.
Proof.
  intros Hc Hu. unfold nfree. rewrite (count_flip (fun d => used v d = false) (fun d => used (taken v c) d = false) (seqZ 2 count) c); [lia|..].
  - apply NoDup_seqZ.
  - apply elem_of_seqZ. unfold in_range in Hc. lia.
  - intros d Hd%elem_of_seqZ Hne. rewrite used_taken by (unfold in_range in *; (done || lia)). by destruct (Z.eqb_spec d c).
  - done.
  - rewrite used_taken by done. by rewrite Z.eqb_refl.
Qed.
Lemma nfree_released v c : in_range c -> used v c = true -> nfree (released v c) = nfree v + 1.
Proof.
  intros Hc Hu. unfold nfree. rewrite (count_flip (fun d => used (released v c) d = false) (fun d => used v d = false) (seqZ 2 count) c); [lia|..].
  - apply NoDup_seqZ.
  - apply elem_of_seqZ. unfold in_range in Hc. lia.
  - intros d Hd%elem_of_seqZ Hne. rewrite used_released by (unfold in_range in *; (done || lia)). by destruct (Z.eqb_spec d c).
  - rewrite used_released by done. by rewrite Z.eqb_refl.
  - by rewrite Hu.
Qed.

Lemma kept_taken v c : in_range c -> used v c = false -> kept v -> kept (taken v c).
Proof.
  intros Hc Hu Hk. pose proof (nfree_taken v c Hc Hu). unfold kept in *. cbn [taken free_clusters]. assert (0 <= nfree (taken v c)) by (unfold nfree; lia).
  destruct (Z.eqb_spec (free_clusters v) 0); lia.
Qed.
Lemma kept_released v c : in_range c -> kept v -> kept (released v c).
Proof.
  intros Hc Hk. unfold kept in *. cbn [released free_clusters]. destruct (used v c) eqn:E.
  - rewrite nfree_released by done. lia.
  - rewrite Hk. unfold nfree. do 2 f_equal. apply filter_same. intros d Hd%elem_of_seqZ.
    rewrite used_released by (unfold in_range in *; (done || lia)). destruct (Z.eqb_spec d c) as [->|]; [by rewrite E|done].
Qed.

(** The used clusters of index [lo ..], below the number there are. *)
Fixpoint used_sum (n : nat) (v : vol) (lo : Z) : Z :=
  match n with O => 0 | S n' => (if (lo <? count) && used v (lo + 2) then 1 else 0) + used_sum n' v (lo + 1) end.
Lemma used_sum_app n m v lo : used_sum (n + m) v lo = used_sum n v lo + used_sum m v (lo + Z.of_nat n).
Proof.
  revert lo. induction n as [|n IH]; intros lo; cbn [used_sum plus]; [by rewrite Z.add_0_r|]. rewrite IH.
  replace (lo + Z.of_nat (S n)) with (lo + 1 + Z.of_nat n) by lia. lia.
Qed.
Lemma used_sum_high n v lo : count <= lo -> used_sum n v lo = 0.
Proof. revert lo. induction n as [|n IH]; intros lo Hl; cbn [used_sum]; [done|]. rewrite IH by lia. destruct (Z.ltb_spec lo count); [lia|done]. Qed.

Lemma count_bits_sum n v j k : 0 <= k -> k + Z.of_nat n <= 8 -> 
  count_bits fs n (disk v (clu_at (bitmap_cluster fs) + j)) (j * 8) k = used_sum n v (j * 8 + k).
Proof.
  revert k. induction n as [|n IH]; intros k Hk Hn; cbn [count_bits used_sum]; [done|]. rewrite bit_test by done.
  destruct (cluster_of j k ltac:(lia)) as [C1 C2]. destruct (Z.ltb_spec (j * 8 + k) count).
  - rewrite IH by lia. replace (j * 8 + k + 1) with (j * 8 + (k + 1)) by lia. f_equal. cbn [andb]. unfold used, bm_at. rewrite C1, C2. by destruct (Z.testbit _ _).
  - rewrite used_sum_high by lia. done.
Qed.
Lemma count_bytes_sum n v s i : 0 <= s -> 0 <= i ->
  count_bytes fs n v (cluster_first_lba fs (bitmap_cluster fs) + s) s i = used_sum (8 * n) v ((s * bps + i) * 8).
Proof.
  intros Hs. revert i. induction n as [|n IH]; intros i Hi; cbn [count_bytes]; [done|]. destruct (Z.leb_spec count ((s * bps + i) * 8)).
  - by rewrite used_sum_high.
  - rewrite IH by lia. replace (8 * S n)%nat with (8 + 8 * n)%nat by lia. rewrite used_sum_app. f_equal; [|f_equal; lia].
    rewrite <- (Z.add_0_r ((s * bps + i) * 8)) at 2. rewrite <- count_bits_sum by (cbn; lia). do 2 f_equal.
    rewrite first_lba by apply bm_in_range. unfold clu_at. pose proof bpc_pos as [_ ->]. ring.
Qed.
Lemma count_sectors_sum n v s u : 0 <= s ->
  count_sectors fs n v (cluster_first_lba fs (bitmap_cluster fs)) s u = Some (u + used_sum (8 * (Z.to_nat bps * n)) v (s * bps * 8)).
Proof.
  revert s u. induction n as [|n IH]; intros s u Hs; cbn [count_sectors]; [f_equal; rewrite Nat.mul_0_r; cbn; lia|].
  rewrite (go_get fs G), IH by lia. rewrite count_bytes_sum by lia. f_equal. pose proof bps_pos as [Hb _].
  replace (8 * (Z.to_nat bps * S n))%nat with (8 * Z.to_nat bps + 8 * (Z.to_nat bps * n))%nat by lia. rewrite used_sum_app, Z.add_0_r, <- Z.add_assoc.
  do 3 f_equal. lia.
Qed.

Lemma used_sum_free n v lo : 0 <= lo -> lo + Z.of_nat n <= count ->
  used_sum n v lo = Z.of_nat n - Z.of_nat (length (filter (fun c => used v c = false) (seqZ (lo + 2) (Z.of_nat n)))).
Proof.
  revert lo. induction n as [|n IH]; intros lo Hl Hn; cbn [used_sum]; [done|]. rewrite seqZ_cons by lia. rewrite filter_cons.
  replace (Z.pred (Z.of_nat (S n))) with (Z.of_nat n) by lia. replace (Z.succ (lo + 2)) with (lo + 1 + 2) by lia.
  rewrite IH by lia. destruct (Z.ltb_spec lo count); [|lia]. cbn [andb]. destruct (used v (lo + 2)) eqn:E; [rewrite decide_False by done|rewrite decide_True by done]; cbn [length]; lia.
Qed.

(** The bitmap's own count agrees, so the audit is silent exactly when the
    kept count is right. *)
Lemma count_used v : bitmap_count_used fs v = Some (count - nfree v).
Proof.
  unfold bitmap_count_used. rewrite count_sectors_sum by lia. f_equal. rewrite !Z.mul_0_l, Z.add_0_l. pose proof count_pos. pose proof bps_pos as [Hb _].
  destruct (go_bm fs G) as (_ & B2 & _). set (N := (8 * (Z.to_nat bps * Z.to_nat (bitmap_sectors fs)))%nat).
  assert (count <= Z.of_nat N) as HN.
  { unfold N, bitmap_sectors. pose proof (Z.div_mod (bitmap_size fs + bps - 1) bps ltac:(lia)). pose proof (Z.mod_pos_bound (bitmap_size fs + bps - 1) bps ltac:(lia)).
    pose proof (Z.div_pos (bitmap_size fs + bps - 1) bps ltac:(lia) ltac:(lia)). nia. }
  replace N with (Z.to_nat count + (N - Z.to_nat count))%nat by lia. rewrite used_sum_app, (used_sum_high (N - _)) by lia.
  rewrite used_sum_free by lia. unfold nfree. rewrite Z2Nat.id by lia. change (0 + 2) with 2. lia.
Qed.
Lemma audit_silent v : kept v -> audit_exfat_free fs v = false.
Proof.
  intros Hk. unfold audit_exfat_free. rewrite count_used. replace (count - (count - nfree v)) with (nfree v) by lia. pose proof count_pos.
  assert (0 <= nfree v <= count) as Hn.
  { unfold nfree. split; [lia|]. pose proof (length_filter (fun c => used v c = false) (seqZ 2 count)) as Hl. rewrite length_seqZ in Hl. lia. }
  rewrite u64_small by lia. rewrite Hk, Z.eqb_refl. done.
Qed.
End Volume.
End ExfatSpec.
