(* ===== verification/ExfatChain.v ===== *)
(** * exFAT: chains of clusters and the volume they share

    What following, counting and extending a chain gives, and that extending
    one takes clusters nobody uses and leaves every other chain alone. *)

From stdpp Require Import base list.
From Stdlib Require Import ZArith Lia.
From S2P Require Import Prelude Partition PartitionSpec Exfat ExfatSpec.
Open Scope Z_scope.

Module ExfatChain.
Import Partition PartitionSpec Exfat ExfatSpec.

Section Volume.
Context `{HC : Cache} (fs : exfat_fs) (G : geo_ok fs).
Notation bps := (bytes_per_sector fs).
Notation bpc := (bytes_per_cluster fs).
Notation count := (cluster_count fs).
Notation in_range := (in_range fs).
Notation clu_at := (clu_at fs).
Notation fat_at := (fat_at fs).
Notation used := (used fs).
Notation bm_clusters := (bm_clusters fs).

(** ** Links *)

Definition fat (v : vol) (c : Z) : Z := le32 (disk v) (fat_at c).
Definition fat_put (v : vol) (c x : Z) : vol := Vol (put32 (disk v) (fat_at c) x) (free_clusters v).

Lemma fat_next_eq v c : 0 <= c -> fat_next fs v c = fat v c.
Proof. intros Hc. unfold fat_next. by rewrite (go_get fs G), fat_addr_eq. Qed.
Lemma fat_set_eq v c x : 0 <= c -> fat_set fs v c x = (fat_put v c x, 0).
Proof. intros Hc. unfold fat_set. by rewrite (go_get fs G), fat_addr_eq. Qed.

Lemma fat_put_same v c x : 0 <= x < 4294967296 -> fat (fat_put v c x) c = x.
Proof. intros Hx. unfold fat. cbn [disk fat_put]. by apply le32_put32. Qed.
Lemma fat_put_other v c d x : c <> d -> fat (fat_put v c x) d = fat v d.
Proof. intros Hne. unfold fat. cbn [disk fat_put]. apply le32_put32_out. unfold ExfatSpec.fat_at. lia. Qed.

(** ** What stays *)

(** The contents of a cluster are the same. *)
Definition clu_same (v v' : vol) (c : Z) : Prop := forall k, 0 <= k < bpc -> disk v' (clu_at c + k) = disk v (clu_at c + k).

Lemma clu_same_refl v c : clu_same v v c.
Proof. done. Qed.
Lemma clu_same_trans v1 v2 v3 c : clu_same v1 v2 c -> clu_same v2 v3 c -> clu_same v1 v3 c.
Proof. intros H1 H2 k Hk. by rewrite H2, H1. Qed.

Lemma fat_put_clu v c x d : in_range c -> in_range d -> clu_same v (fat_put v c x) d.
Proof. intros Hc Hd k Hk. cbn [disk fat_put]. apply put32_out. right. by apply fat_below. Qed.
Lemma fat_put_used v c x d : in_range c -> in_range d -> used (fat_put v c x) d = used v d.
Proof.
  intros Hc Hd. unfold ExfatSpec.used. destruct (bm_inside fs G d Hd) as (e & k & _ & He & Hk & ->).
  by rewrite (fat_put_clu v c x e Hc He k Hk).
Qed.
Lemma taken_clu v c d : in_range c -> in_range d -> d ∉ bm_clusters -> clu_same v (taken fs v c) d.
Proof.
  intros Hc Hd Hn k Hk. cbn [disk taken]. rewrite upd_other; [done|]. destruct (bm_inside fs G c Hc) as (e & j & He & _ & Hj & ->).
  apply clusters_apart; try done. by intros ->.
Qed.
Lemma taken_fat v c d : in_range c -> in_range d -> fat (taken fs v c) d = fat v d.
Proof.
  intros Hc Hd. unfold fat. cbn [disk taken]. destruct (bm_inside fs G c Hc) as (e & j & _ & He & Hj & ->).
  pose proof (fat_below fs G d e j Hd He Hj). apply le32_ext; rewrite upd_other; (done || lia).
Qed.

(** ** Chains *)

(** The clusters of a chain: each links to the next, the last to no cluster. *)
Fixpoint chain (v : vol) (cs : list Z) : Prop :=
  match cs with
  | [] => False
  | c :: r => in_range c /\ match r with [] => EXFAT_FAT_EOC_FIRST <= fat v c | d :: _ => fat v c = d /\ chain v r end
  end.

Lemma chain_range v cs : chain v cs -> Forall in_range cs.
Proof.
  induction cs as [|c [|d r] IH]; [done|intros [H _]; by apply Forall_singleton|]. intros (H1 & H2 & H3). constructor; [done|by apply IH].
Qed.
Lemma chain_suffix v l c r : chain v (l ++ c :: r) -> chain v (c :: r).
Proof.
  induction l as [|x l IH]; [done|]. intros H. apply IH. cbn [app] in H. destruct (l ++ c :: r) as [|d q] eqn:E; [by destruct l|]. by destruct H as (_ & _ & H).
Qed.
Lemma chain_functional v c l1 l2 : chain v (c :: l1) -> chain v (c :: l2) -> l1 = l2.
Proof.
  assert (forall d, in_range d -> d < EXFAT_FAT_EOC_FIRST) as Hlt by (intros d [? ?]; pose proof (go_count fs G) as [_ ?]; lia).
  revert c l2. induction l1 as [|x l1 IH]; intros c [|y l2]; [done| | |].
  - intros [_ H1] (_ & H2 & H3). destruct H3 as [H3 _]. specialize (Hlt y H3). lia.
  - intros (_ & H2 & H3) [_ H1]. destruct H3 as [H3 _]. specialize (Hlt x H3). lia.
  - intros (_ & H1 & H2) (_ & H3 & H4). assert (x = y) as -> by congruence. f_equal. by apply (IH y).
Qed.
Lemma chain_nodup v cs : chain v cs -> NoDup cs.
Proof.
  induction cs as [|c r IH]; [constructor|]. intros H. constructor; [|destruct r; [constructor|apply IH; by destruct H as (_ & _ & H)]].
  intros (l1 & l2 & ->)%list_elem_of_split. pose proof (chain_suffix v (c :: l1) c l2 H) as H2.
  pose proof (chain_functional v c _ _ H H2) as E. apply (f_equal length) in E. rewrite length_app in E. cbn in E. lia.
Qed.
Lemma range_length cs : NoDup cs -> Forall in_range cs -> Z.of_nat (length cs) <= count.
Proof.
  intros Hn Hr. pose proof (count_pos fs G). assert (cs ⊆+ seqZ 2 count) as Hs.
  { apply NoDup_submseteq; [done|]. intros c Hc. rewrite Forall_forall in Hr. specialize (Hr c Hc). apply elem_of_seqZ. unfold ExfatSpec.in_range in Hr. lia. }
  apply submseteq_length in Hs. rewrite length_seqZ in Hs. lia.
Qed.
Lemma chain_length v cs : chain v cs -> Z.of_nat (length cs) <= count.
Proof. intros H. apply range_length; [by eapply chain_nodup|by eapply chain_range]. Qed.

Lemma chain_ext v v' cs : (forall c, c ∈ cs -> fat v' c = fat v c) -> chain v cs -> chain v' cs.
Proof.
  induction cs as [|c [|d r] IH]; [done| |]; intros He.
  - intros [H1 H2]. split; [done|]. by rewrite He by left.
  - intros (H1 & H2 & H3). split; [done|]. split; [by rewrite He by left|]. apply IH; [|done]. intros x Hx. apply He. by right.
Qed.

Lemma chain_skip_in v c r n : chain v (c :: r) -> forall d, (c :: r) !! n = Some d -> chain_skip fs n v c false = d.
Proof.
  revert c r. induction n as [|n IH]; intros c r Hc d Hd; cbn [chain_skip]; [by injection Hd|].
  destruct r as [|x r]; [done|]. destruct Hc as (H1 & H2 & H3). cbn [chain_next]. rewrite fat_next_eq, H2 by (unfold ExfatSpec.in_range in H1; lia).
  assert (in_range x) as [? ?] by (by destruct H3 as [? _]). pose proof (go_count fs G) as [_ ?].
  destruct (Z.leb_spec EXFAT_FAT_EOC_FIRST x); [lia|]. by apply (IH x r).
Qed.

Lemma chain_walk_ok v c r n f : chain v (c :: r) -> (length r < f)%nat ->
  exists t, last (c :: r) = Some t /\ chain_walk fs f v c n = Some (t, n + Z.of_nat (length r)).
Proof.
  revert c n f. induction r as [|x r IH]; intros c n f Hc Hf; (destruct f as [|f]; [lia|]); cbn [chain_walk].
  - destruct Hc as [[H1 H1'] H2]. rewrite fat_next_eq by lia. destruct (Z.leb_spec EXFAT_FAT_EOC_FIRST (fat v c)); [|lia].
    exists c. split; [done|]. f_equal. f_equal. cbn. lia.
  - destruct Hc as ((H1 & H1') & H2 & H3). rewrite fat_next_eq, H2 by lia. assert (in_range x) as [? ?] by (by destruct H3 as [? _]).
    pose proof (go_count fs G) as [_ ?]. destruct (Z.leb_spec EXFAT_FAT_EOC_FIRST x); [lia|].
    destruct (IH x (n + 1) f H3 ltac:(cbn in Hf; lia)) as (t & Ht & E). exists t. split; [done|]. rewrite E. do 2 f_equal. cbn [length]. lia.
Qed.

(** A cluster appended at the end. *)
Lemma chain_snoc v cs t c : chain v cs -> last cs = Some t -> in_range c -> c ∉ cs ->
  chain (fat_put (fat_put v c EXFAT_FAT_EOC) t c) (cs ++ [c]).
Proof.
  intros Hc Ht Hr Hn. pose proof (chain_nodup v cs Hc) as Hd. pose proof (go_count fs G) as [_ Hcnt]. unfold EXFAT_FAT_EOC_FIRST in Hcnt.
  assert (t ∈ cs) as Hin by (by apply last_Some_elem_of). assert (t <> c) as Htc by (by intros ->).
  assert (fat (fat_put (fat_put v c EXFAT_FAT_EOC) t c) c = EXFAT_FAT_EOC) as Ec.
  { rewrite fat_put_other by done. apply fat_put_same. unfold EXFAT_FAT_EOC. lia. }
  assert (fat (fat_put (fat_put v c EXFAT_FAT_EOC) t c) t = c) as Et by (apply fat_put_same; unfold ExfatSpec.in_range in Hr; lia).
  assert (forall d, d ∈ cs -> d <> t -> fat (fat_put (fat_put v c EXFAT_FAT_EOC) t c) d = fat v d) as Eo.
  { intros d Hin' Hne. rewrite !fat_put_other; try done. by intros ->. }
  revert Hc Ht Hd Ec Et Eo. generalize (fat_put (fat_put v c EXFAT_FAT_EOC) t c) as v'. intros v'. clear Hn Hin.
  induction cs as [|x [|y r] IH]; intros Hc Ht Hd Ec Et Eo; [done| |].
  - injection Ht as ->. destruct Hc as [Hx _]. cbn [app chain]. split; [done|]. split; [done|]. split; [done|]. rewrite Ec. done.
  - destruct Hc as (Hx & Hxy & Hy). apply NoDup_cons in Hd as [Hxn Hd].
    assert (x <> t) as Hxt. { intros ->. apply Hxn. by apply last_Some_elem_of. }
    cbn [app chain] in *. split; [done|]. split; [rewrite Eo by (done || by left); done|]. apply IH; try done.
    intros d Hin Hne. apply Eo; [by right|done].
Qed.

(** ** The volume *)

(** The clusters in use by the bitmap and by everything else are distinct and
    marked, and the kept count of free ones is right. *)
Record vol_ok (v : vol) (all : list Z) : Prop := VolOk {
  vo_nodup : NoDup (bm_clusters ++ all);
  vo_range : Forall in_range all;
  vo_used : forall c, c ∈ bm_clusters ++ all -> used v c = true;
  vo_kept : kept fs v }.

Lemma vol_perm v all all' : all ≡ₚ all' -> vol_ok v all -> vol_ok v all'.
Proof.
  intros Hp [H1 H2 H3 H4]. split; [by rewrite <- Hp|by rewrite <- Hp| |done]. intros c Hc. apply H3. by rewrite Hp.
Qed.

(** Nothing that the bitmap says has changed. *)
Lemma vol_same v v' all : (forall c, in_range c -> used v' c = used v c) -> free_clusters v' = free_clusters v -> vol_ok v all -> vol_ok v' all.
Proof.
  intros Hu Hf [H1 H2 H3 H4]. split; [done|done| |].
  - intros c Hc. rewrite Hu; [by apply H3|]. apply elem_of_app in Hc as [Hc|Hc]; [by apply (bm_clusters_range fs G)|]. rewrite Forall_forall in H2. by apply H2.
  - unfold kept in *. rewrite Hf, H4. unfold nfree. do 2 f_equal. apply filter_same. intros c Hc%elem_of_seqZ. rewrite Hu; [done|]. unfold ExfatSpec.in_range. lia.
Qed.
Lemma vol_fat v c x all : in_range c -> vol_ok v all -> vol_ok (fat_put v c x) all.
Proof. intros Hc. apply vol_same; [|done]. intros d Hd. by apply fat_put_used. Qed.

(** A free cluster belongs to nobody, and taking it keeps the volume well formed. *)
Lemma vol_fresh v c all : vol_ok v all -> used v c = false -> c ∉ bm_clusters ++ all.
Proof. intros [_ _ H _] Hu Hin. rewrite H in Hu by done. done. Qed.
Lemma vol_take v c all : vol_ok v all -> in_range c -> used v c = false -> vol_ok (taken fs v c) (c :: all).
Proof.
  intros Hv Hc Hu. pose proof (vol_fresh v c all Hv Hu) as Hn. destruct Hv as [H1 H2 H3 H4]. split.
  - rewrite <- Permutation_middle. by constructor.
  - by constructor.
  - intros d Hd. assert (in_range d) as Hd'.
    { apply elem_of_app in Hd as [Hd|Hd]; [by apply (bm_clusters_range fs G)|]. apply elem_of_cons in Hd as [->|Hd]; [done|]. rewrite Forall_forall in H2. by apply H2. }
    rewrite (used_taken fs v c d Hc Hd'). destruct (Z.eqb_spec d c) as [|Hne]; [done|]. apply H3.
    apply elem_of_app in Hd as [Hd|Hd]; apply elem_of_app; [by left|right]. by apply elem_of_cons in Hd as [?|?].
  - by apply kept_taken.
Qed.

(** *** Growing a chain *)

(** What an operation that extends the chain [cs] to [cs ++ new] leaves alone:
    the contents of every cluster, and the links of the others. *)
Record grown (v v' : vol) (cs new rest : list Z) : Prop := Grown {
  gr_vol : vol_ok v' (cs ++ new ++ rest);
  gr_clu : forall c, in_range c -> c ∉ bm_clusters -> clu_same v v' c;
  gr_fat : forall c, in_range c -> c ∉ cs -> c ∉ new -> fat v' c = fat v c;
  gr_fresh : forall c, c ∈ new -> used v c = false /\ in_range c;
  gr_used : forall c, in_range c -> c ∉ new -> used v' c = used v c }.

Lemma chain_grown_refl v cs rest : vol_ok v (cs ++ rest) -> grown v v cs [] rest.
Proof. intros H. split; [done|by intros|by intros| |by intros]. intros c Hc. by apply elem_of_nil in Hc. Qed.

(** One turn of the loop. *)
Lemma grow_step v cs rest c : vol_ok v (cs ++ rest) -> in_range c -> used v c = false ->
  (cs = [] \/ exists t, chain v cs /\ last cs = Some t) ->
  let v1 := fat_put (taken fs v c) c EXFAT_FAT_EOC in
  let v2 := match last cs with None => v1 | Some t => fat_put v1 t c end in
  chain v2 (cs ++ [c]) /\ grown v v2 cs [c] rest.
Proof.
  intros Hv Hc Hu Hcs v1 v2. pose proof (vol_fresh v c _ Hv Hu) as Hf. rewrite !not_elem_of_app in Hf. destruct Hf as (Hf1 & Hf2 & Hf3).
  pose proof (vol_take v c _ Hv Hc Hu) as Ht.
  assert (vol_ok v1 (cs ++ [c] ++ rest)) as Hv1.
  { apply vol_fat; [done|]. eapply vol_perm; [|exact Ht]. by rewrite Permutation_middle. }
  assert (forall d, in_range d -> d ∉ [c] -> used v1 d = used v d) as Hu1.
  { intros d Hd Hn. unfold v1. rewrite fat_put_used by done. rewrite (used_taken fs v c d Hc Hd). destruct (Z.eqb_spec d c) as [->|]; [|done].
    exfalso. apply Hn. by left. }
  assert (forall d, in_range d -> d ∉ bm_clusters -> clu_same v v1 d) as Hc1.
  { intros d Hd Hn. apply (clu_same_trans v (taken fs v c)); [by apply taken_clu|by apply fat_put_clu]. }
  destruct Hcs as [->|(t & Hch & Hl)].
  - subst v2. cbn [last] in *. split.
    + split; [done|]. unfold v1. rewrite fat_put_same; [done|]. unfold EXFAT_FAT_EOC. lia.
    + split; [done|done| | |done].
      * intros d Hd _ Hn. unfold v1. rewrite fat_put_other by (intros ->; apply Hn; by left). by apply taken_fat.
      * intros d Hd. apply list_elem_of_singleton in Hd as ->. done.
  - subst v2. rewrite Hl. assert (in_range t) as Htr.
    { pose proof (chain_range v cs Hch) as Hr. rewrite Forall_forall in Hr. apply Hr. by apply last_Some_elem_of. }
    split.
    + apply chain_snoc; [|done|done|done]. eapply chain_ext; [|exact Hch]. intros d Hd. apply taken_fat; [done|].
      pose proof (chain_range v cs Hch) as Hr. rewrite Forall_forall in Hr. by apply Hr.
    + split.
      * by apply vol_fat.
      * intros d Hd Hn. apply (clu_same_trans v v1); [by apply Hc1|by apply fat_put_clu].
      * intros d Hd Hn1 Hn2. rewrite fat_put_other by (intros ->; apply Hn1; by apply last_Some_elem_of).
        unfold v1. rewrite fat_put_other by (intros ->; apply Hn2; by left). by apply taken_fat.
      * intros d Hd. apply list_elem_of_singleton in Hd as ->. done.
      * intros d Hd Hn. rewrite fat_put_used by done. by apply Hu1.
Qed.

Lemma chain_grown_trans v v1 v2 cs c new rest : grown v v1 cs [c] rest -> grown v1 v2 (cs ++ [c]) new rest -> grown v v2 cs (c :: new) rest.
Proof.
  intros [A1 A2 A3 A4 A5] [B1 B2 B3 B4 B5].
  assert (forall d, d ∈ new -> d ∉ [c]) as Hnc.
  { intros d Hd ->%list_elem_of_singleton. destruct (B4 c Hd) as [E _]. rewrite (vo_used _ _ A1) in E; [done|]. rewrite !elem_of_app. right. right. left. by left. }
  split.
  - by rewrite <- app_assoc in B1.
  - intros d Hd Hn. apply (clu_same_trans v v1); [by apply A2|by apply B2].
  - intros d Hd Hn1 Hn2. rewrite B3; [apply A3; [done|done|]|done|..].
    + intros ->%list_elem_of_singleton. apply Hn2. by left.
    + intros [|Hx]%elem_of_app; [done|]. apply list_elem_of_singleton in Hx as ->. apply Hn2. by left.
    + intros Hx. apply Hn2. by right.
  - intros d [->|Hd]%elem_of_cons; [apply A4; by left|]. destruct (B4 d Hd) as [E1 E2]. split; [|done]. rewrite A5 in E1; [done|done|by apply Hnc].
  - intros d Hd Hn. rewrite B5, A5; try done; intros Hx; apply Hn; [apply list_elem_of_singleton in Hx as ->; by left|by right].
Qed.

(** ** Files *)

(** An inode of a file in clusters linked through the FAT: its chain, its size
    inside it, and walk caches that tell the truth. *)
Record file_ok (v : vol) (i : inode) (cs : list Z) : Prop := FileOk {
  fo_nofat : no_fat_chain i = false;
  fo_chain : match cs with [] => first_cluster i = 0 /\ hint_clu (caches i) < 2 /\ len_n (caches i) = 0 | c :: _ => first_cluster i = c /\ chain v cs end;
  fo_size : 0 <= size i <= Z.of_nat (length cs) * bpc;
  fo_hint : hint_first (caches i) = first_cluster i -> 2 <= hint_clu (caches i) ->
            0 <= hint_idx (caches i) /\ cs !! Z.to_nat (hint_idx (caches i)) = Some (hint_clu (caches i));
  fo_len : len_first (caches i) = first_cluster i -> len_n (caches i) <> 0 ->
           len_n (caches i) = Z.of_nat (length cs) /\ last cs = Some (len_tail (caches i)) }.

Lemma file_chain v i cs : file_ok v i cs -> cs <> [] -> chain v cs /\ 2 <= first_cluster i /\ head cs = Some (first_cluster i).
Proof.
  intros [_ H _ _ _] Hne. destruct cs as [|c r]; [done|]. destruct H as [-> H]. split; [done|]. split; [|done].
  destruct H as [[? ?] _]. done.
Qed.

(** Nothing the file depends on has changed. *)
Lemma file_same v v' i cs : (forall c, c ∈ cs -> fat v' c = fat v c) -> file_ok v i cs -> file_ok v' i cs.
Proof.
  intros He [H1 H2 H3 H4 H5]. split; try done. destruct cs as [|c r]; [done|]. destruct H2 as [? H2]. split; [done|]. by eapply chain_ext.
Qed.

(** An inode with more clusters: what [grow_loop] makes of it. *)
Definition same_file (i i' : inode) : Prop :=
  size i' = size i /\ is_dir i' = is_dir i /\ owner i' = owner i /\ parent_first_cluster i' = parent_first_cluster i /\
  parent_no_fat_chain i' = parent_no_fat_chain i /\ parent_size i' = parent_size i /\ dirent_index i' = dirent_index i /\
  sec_count i' = sec_count i /\ has_owner_rec i' = has_owner_rec i.

Lemma grow_loop_ok n v i cs t rest : vol_ok v (cs ++ rest) -> file_ok v i cs ->
  (cs = [] /\ t = 0 \/ last cs = Some t) ->
  let '(v', i', r) := grow_loop fs n v i t in
  exists new, grown v v' cs new rest /\ same_file i i' /\ no_fat_chain i' = false /\
    hint_first (caches i') = hint_first (caches i) /\ hint_idx (caches i') = hint_idx (caches i) /\ hint_clu (caches i') = hint_clu (caches i) /\
    match cs ++ new with [] => first_cluster i' = 0 | c :: _ => first_cluster i' = c /\ chain v' (cs ++ new) end /\
    match r with
    | Some t' => length new = n /\ (cs ++ new = [] \/ last (cs ++ new) = Some t')
    | None => len_n (caches i') = 0
    end.
Proof.
  intros Hv Hf. pose proof (fo_nofat _ _ _ Hf) as Hnf.
  assert (match cs with [] => first_cluster i = 0 | c :: _ => first_cluster i = c /\ chain v cs end) as Hch.
  { pose proof (fo_chain _ _ _ Hf) as H. destruct cs; [by destruct H as [? _]|done]. }
  clear Hf. revert v i cs t Hv Hnf Hch. induction n as [|n IH]; intros v i cs t Hv Hnf Hch Ht; cbn [grow_loop].
  - exists []. split; [by apply chain_grown_refl|]. rewrite app_nil_r. split_and!; try done. destruct Ht as [[-> _]|Ht]; [by left|by right].
  - pose proof (bitmap_alloc_spec fs G v) as A. destruct (bitmap_alloc fs v) as [v1 c].
    destruct A as [(-> & -> & _)|(Hc & Hu & ->)].
    + cbn [Z.eqb]. exists []. split; [by apply chain_grown_refl|]. rewrite app_nil_r. split_and!; try done.
    + pose proof Hc as [Hc1 Hc2]. destruct (Z.eqb_spec c 0); [lia|]. rewrite fat_set_eq by lia. cbn [fst].
      assert (cs = [] \/ exists t, chain v cs /\ last cs = Some t) as Hcs.
      { destruct cs as [|x r]; [by left|right]. destruct Hch as [_ Hch]. destruct Ht as [[? _]|Ht]; [done|]. by exists t. }
      destruct (grow_step v cs rest c Hv Hc Hu Hcs) as [Hc2' Hg].
      assert (forall v2 i2, chain v2 (cs ++ [c]) -> grown v v2 cs [c] rest -> no_fat_chain i2 = false ->
        match cs ++ [c] with [] => first_cluster i2 = 0 | x :: _ => first_cluster i2 = x end -> same_file i i2 -> caches i2 = caches i ->
        let '(v', i', r) := grow_loop fs n v2 i2 c in
        exists new, grown v v' cs new rest /\ same_file i i' /\ no_fat_chain i' = false /\
          hint_first (caches i') = hint_first (caches i) /\ hint_idx (caches i') = hint_idx (caches i) /\ hint_clu (caches i') = hint_clu (caches i) /\
          match cs ++ new with [] => first_cluster i' = 0 | c :: _ => first_cluster i' = c /\ chain v' (cs ++ new) end /\
          match r with
          | Some t' => length new = S n /\ (cs ++ new = [] \/ last (cs ++ new) = Some t')
          | None => len_n (caches i') = 0
          end) as Hgo.
      { intros v2 i2 X1 X2 X3 X4 X5 X6. specialize (IH v2 i2 (cs ++ [c]) c).
        destruct (grow_loop fs n v2 i2 c) as [[v' i'] r]. destruct IH as (new & Y1 & Y2 & Y3 & Y4 & Y5 & Y6 & Y7 & Y8).
        - rewrite <- app_assoc. apply (gr_vol _ _ _ _ _ X2).
        - done.
        - destruct (cs ++ [c]) as [|x q] eqn:E; [by destruct cs|]. done.
        - right. apply last_snoc.
        - exists (c :: new). split; [by eapply chain_grown_trans|]. rewrite <- app_assoc in Y7, Y8. cbn [app] in Y7, Y8. rewrite X6 in Y4, Y5, Y6.
          split; [unfold same_file in *; naive_solver congruence|]. split; [done|]. split; [done|]. split; [done|]. split; [done|]. split; [done|].
          destruct r; [|done]. cbn [length]. naive_solver. }
      destruct cs as [|x r].
      * cbn [last] in *. destruct Ht as [[_ ->]|Ht]; [|done]. cbn [Z.eqb]. apply Hgo; try done.
      * destruct Ht as [[? _]|Ht]; [done|]. rewrite Ht in Hc2', Hg. destruct Hch as [Hx Hch].
        assert (in_range t) as [Ht1 _]. { pose proof (chain_range v _ Hch) as Hr. rewrite Forall_forall in Hr. apply Hr. by apply last_Some_elem_of. }
        destruct (Z.eqb_spec t 0); [lia|]. rewrite fat_set_eq by lia. cbn [fst]. apply Hgo; try done.
Qed.
End Volume.
End ExfatChain.
