(* ===== verification/ExfatFile.v ===== *)
(** * exFAT: reading and writing a file

    The bytes of a file are those of its clusters in the order of the chain;
    reading returns them and writing replaces exactly the ones asked for,
    after extending the chain with clusters nobody uses. *)

From stdpp Require Import base list.
From Stdlib Require Import ZArith Lia.
From S2P Require Import Prelude Partition PartitionSpec Exfat ExfatSpec ExfatChain.
Open Scope Z_scope.

Module ExfatFile.
Import Partition PartitionSpec Exfat ExfatSpec ExfatChain.

Section Volume.
Context `{HC : Cache} (fs : exfat_fs) (G : geo_ok fs).
Notation bps := (bytes_per_sector fs).
Notation bpc := (bytes_per_cluster fs).
Notation count := (cluster_count fs).
Notation in_range := (in_range fs).
Notation clu_at := (clu_at fs).
Notation used := (used fs).
Notation bm_clusters := (bm_clusters fs).
Notation chain := (chain fs).
Notation fat := (fat fs).
Notation clu_same := (clu_same fs).
Notation vol_ok := (vol_ok fs).
Notation file_ok := (file_ok fs).

(** ** The place of a byte *)

(** The byte [k] of the clusters [cs]. *)
Definition place (cs : list Z) (k : Z) : option Z := (fun c => clu_at c + k mod bpc) <$> cs !! Z.to_nat (k / bpc).
Definition fbyte (v : vol) (cs : list Z) (k : Z) : Z := match place cs k with Some a => disk v a | None => 0 end.
Definition room (cs : list Z) : Z := Z.of_nat (length cs) * bpc.

Lemma place_in cs k : 0 <= k < room cs -> exists c, cs !! Z.to_nat (k / bpc) = Some c /\ place cs k = Some (clu_at c + k mod bpc) /\ k / bpc < Z.of_nat (length cs).
Proof.
  intros [H1 H2]. pose proof (bpc_pos fs G) as [Hb _]. unfold room in H2. assert (k / bpc < Z.of_nat (length cs)) as Hl by (apply Z.div_lt_upper_bound; lia).
  pose proof (Z.div_pos k bpc ltac:(lia) ltac:(lia)). destruct (lookup_lt_is_Some_2 cs (Z.to_nat (k / bpc))) as [c Hc]; [lia|].
  exists c. split; [done|]. split; [unfold place; by rewrite Hc|done].
Qed.

(** Bytes of one cluster lie in one piece. *)
Lemma same_cluster off j : 0 <= off -> 0 <= j -> off mod bps + j < bps ->
  (off + j) / bpc = off / bpc /\ (off + j) mod bpc = off mod bpc + j /\ off mod bpc + j < bpc.
Proof.
  intros Ho Hj Hs. pose proof (bpc_pos fs G) as [Hb E]. pose proof (bps_pos fs G) as [Hp _]. pose proof (go_spc fs G) as Hc.
  assert (off mod bpc + j < bpc) as Hl.
  { rewrite E. rewrite Z.rem_mul_r by lia. pose proof (Z.mod_pos_bound (off / bps) (sectors_per_cluster fs) ltac:(lia)). nia. }
  pose proof (Z.div_mod off bpc ltac:(lia)). pose proof (Z.mod_pos_bound off bpc ltac:(lia)). split_and!; [| |done].
  - symmetry; apply (Z.div_unique_pos _ _ _ (off mod bpc + j)); lia.
  - symmetry; apply (Z.mod_unique_pos _ _ (off / bpc)); lia.
Qed.
Lemma place_run cs off j a : 0 <= off -> 0 <= j -> off mod bps + j < bps -> place cs off = Some a -> place cs (off + j) = Some (a + j).
Proof.
  intros Ho Hj Hs. destruct (same_cluster off j Ho Hj Hs) as (E1 & E2 & _). unfold place. rewrite E1, E2.
  destruct (cs !! _) as [c|]; [|done]. intros [= <-]. cbn. f_equal. lia.
Qed.

(** ** Finding the sector *)

Lemma chain_drop v cs k c : chain v cs -> cs !! k = Some c -> chain v (drop k cs) /\ drop k cs = c :: drop (S k) cs.
Proof.
  intros Hc Hk. pose proof (drop_S _ _ _ Hk) as E. split; [|done]. rewrite E. apply (chain_suffix fs v (take k cs)). by rewrite <- E, take_drop.
Qed.

Lemma get_sector_ok v i cs off whole : file_ok v i cs -> 0 <= off < room cs ->
  exists lba w i' a, inode_get_sector fs v i off whole = (Some (lba, w), i') /\ place cs off = Some a /\ lba * bps + w = a /\
    0 <= w < bps /\ w = off mod bps /\ file_ok v i' cs /\ same_file i i' /\ first_cluster i' = first_cluster i.
Proof.
  intros Hf Ho. destruct (place_in cs off Ho) as (c & Hc & Hp & Hl). pose proof (bpc_pos fs G) as [Hb _].
  pose proof (Z.div_pos off bpc ltac:(lia) ltac:(lia)) as Hq.
  assert (cs <> []) as Hne by (by intros ->). destruct (file_chain fs v i cs Hf Hne) as (Hch & H2 & Hhd).
  pose proof (chain_length fs G v cs Hch) as Hlen. pose proof (count_pos fs G) as Hcp.
  assert (in_range c) as Hr. { pose proof (chain_range fs v cs Hch) as Hr. rewrite Forall_forall in Hr. apply Hr. by apply list_elem_of_lookup_2 in Hc. }
  unfold inode_get_sector. rewrite u32_small by lia. rewrite (fo_nofat _ _ _ _ Hf).
  set (n := off / bpc) in *. set (p := if _ && _ then _ else _).
  assert (exists x k, p = (x, k) /\ 0 <= k <= n /\ cs !! Z.to_nat k = Some x) as (x & k & -> & Hk & Hx).
  { unfold p. destruct ((hint_first (caches i) =? first_cluster i) && (2 <=? hint_clu (caches i)) && (hint_idx (caches i) <=? n)) eqn:E.
    - bool_props. destruct (fo_hint _ _ _ _ Hf) as [I1 I2]; [done|done|]. eexists _, _. split; [done|]. split; [lia|done].
    - eexists _, _. split; [done|]. split; [lia|]. change (Z.to_nat 0) with 0%nat. by rewrite <- head_lookup. }
  destruct (chain_drop v cs (Z.to_nat k) x Hch Hx) as [Hcd Ed].
  assert (chain_skip fs (Z.to_nat (n - k)) v x false = c) as ->.
  { rewrite Ed in Hcd. apply (chain_skip_in fs G v x _ _ Hcd). rewrite <- Ed, lookup_drop. rewrite <- Hc. f_equal. lia. }
  destruct Hr as [Hr1 Hr2]. pose proof (go_count fs G) as [_ Hcnt]. destruct (Z.leb_spec EXFAT_FAT_EOC_FIRST c); [lia|].
  pose proof (in_cluster_at fs G c off (conj Hr1 Hr2) ltac:(lia)) as Hin. destruct (in_cluster fs c off) as [lba w]. destruct Hin as (E1 & E2 & E3).
  unfold get_sector. cbn [fst]. rewrite (go_get fs G), (go_ow fs G). exists lba, w, (set_caches i (set_hint (caches i) (first_cluster i) n c)), (clu_at c + off mod bpc).
  split; [by destruct whole|]. split; [done|]. split; [done|]. split; [done|]. split; [done|]. split; [|by split_and!].
  destruct Hf as [F1 F2 F3 F4 F5]. split; try done.
  cbn [first_cluster set_caches caches set_hint hint_clu len_n]. by destruct cs.
Qed.

(** ** Reading *)

Lemma peek_fbytes v cs off a n : 0 <= off -> off mod bps + Z.of_nat n <= bps -> place cs off = Some a ->
  peek (disk v) a n = (fun k => fbyte v cs (off + Z.of_nat k)) <$> seq 0 n.
Proof.
  intros Ho Hn Ha. rewrite peek_map. apply list_fmap_ext. intros j k Hk%lookup_seq. unfold fbyte.
  rewrite (place_run cs off (Z.of_nat k) a) by (done || lia). done.
Qed.

Definition fbytes (v : vol) (cs : list Z) (off : Z) (n : nat) : list Z := (fun k => fbyte v cs (off + Z.of_nat k)) <$> seq 0 n.
Lemma fbytes_app v cs off n m : fbytes v cs off (n + m) = fbytes v cs off n ++ fbytes v cs (off + Z.of_nat n) m.
Proof.
  unfold fbytes. rewrite seq_app, fmap_app. f_equal. rewrite Nat.add_comm, <- (fmap_add_seq n 0 m), <- list_fmap_compose.
  apply list_fmap_ext. intros j k _. cbn. f_equal. lia.
Qed.

Lemma file_read_loop_ok f v i cs off n acc : file_ok v i cs -> 0 <= off -> off + n <= room cs -> n <= Z.of_nat f -> 0 <= n ->
  exists i', read_loop fs f v i off n acc = (i', acc ++ fbytes v cs off (Z.to_nat n), false) /\ file_ok v i' cs /\ same_file i i' /\ first_cluster i' = first_cluster i.
Proof.
  revert i off n acc. induction f as [|f IH]; intros i off n acc Hf Ho Hr Hn H0; cbn [read_loop].
  - exists i. assert (n = 0) as -> by lia. cbn. rewrite app_nil_r. split_and!; done.
  - destruct (Z.leb_spec n 0).
    + exists i. assert (n = 0) as -> by lia. cbn. rewrite app_nil_r. split_and!; done.
    + destruct (get_sector_ok v i cs off false Hf ltac:(lia)) as (lba & w & i1 & a & E1 & E2 & E3 & E4 & E5 & E6 & E7 & E8). rewrite E1.
      set (chunk := if n <? bps - w then n else bps - w). pose proof (bps_pos fs G) as [Hb _].
      assert (0 < chunk <= n /\ chunk <= bps - w) as Hc by (unfold chunk; destruct (Z.ltb_spec n (bps - w)); lia).
      destruct (IH i1 (off + chunk) (n - chunk) (acc ++ peek (disk v) (lba * bps + w) (Z.to_nat chunk))) as (i' & J1 & J2 & J3 & J4); try done; try lia.
      exists i'. rewrite J1. split; [|split; [done|]; split; [unfold same_file in *; naive_solver congruence|congruence]]. f_equal. f_equal.
      rewrite <- app_assoc. f_equal. rewrite E3. rewrite (peek_fbytes v cs off a) by (done || lia). fold (fbytes v cs off (Z.to_nat chunk)).
      replace (off + chunk) with (off + Z.of_nat (Z.to_nat chunk)) by lia. rewrite <- fbytes_app. f_equal. lia.
Qed.

(** ** Writing *)

Lemma place_inj cs k k' a : NoDup cs -> 0 <= k -> 0 <= k' -> place cs k = Some a -> place cs k' = Some a -> k = k'.
Proof.
  intros Hn Hk Hk'. pose proof (bpc_pos fs G) as [Hb _]. unfold place. destruct (cs !! _) as [c|] eqn:E; [|done]. destruct (cs !! Z.to_nat (k' / bpc)) as [d|] eqn:E'; [|done].
  intros [= <-] [= F]. pose proof (Z.mod_pos_bound k bpc ltac:(lia)). pose proof (Z.mod_pos_bound k' bpc ltac:(lia)).
  assert (c = d) as ->. { destruct (decide (c = d)) as [|Hne]; [done|]. exfalso. by apply (clusters_apart fs G c d (k mod bpc) (k' mod bpc)). }
  pose proof (NoDup_lookup _ _ _ _ Hn E E') as Ei. pose proof (Z.div_mod k bpc ltac:(lia)). pose proof (Z.div_mod k' bpc ltac:(lia)).
  pose proof (Z.div_pos k bpc ltac:(lia) ltac:(lia)). pose proof (Z.div_pos k' bpc ltac:(lia) ltac:(lia)). nia.
Qed.

(** Bytes [off ..] of the clusters [cs] replaced by [data], and nothing else. *)
Record replaced (v v' : vol) (cs : list Z) (off : Z) (data : list Z) : Prop := Replaced {
  re_bytes : forall k, 0 <= k < room cs ->
    fbyte v' cs k = if (off <=? k) && (k <? off + Z.of_nat (length data)) then nth (Z.to_nat (k - off)) data 0 else fbyte v cs k;
  re_clu : forall c, in_range c -> c ∉ cs -> clu_same v v' c;
  re_fat : forall c, in_range c -> fat v' c = fat v c;
  re_free : free_clusters v' = free_clusters v }.

Lemma replaced_vol v v' cs off data all : replaced v v' cs off data -> (forall c, c ∈ cs -> c ∈ all) -> vol_ok v all -> vol_ok v' all.
Proof.
  intros [_ H2 _ H4] Hs Hv. pose proof Hv as [N _ _ _]. apply (vol_same fs G v); [|done|done]. intros c Hc. unfold ExfatSpec.used.
  destruct (bm_inside fs G c Hc) as (d & k & Hd & Hdr & Hk & ->). rewrite (H2 d); try done. intros Hin. apply Hs in Hin.
  apply NoDup_app in N as (_ & N & _). by apply (N d).
Qed.

Lemma replaced_nil v cs off : replaced v v cs off [].
Proof. split; try done. intros k Hk. destruct (Z.leb_spec off k), (Z.ltb_spec k (off + Z.of_nat (@length Z []))); cbn in *; try done; lia. Qed.

Lemma replaced_app v v1 v2 cs off l1 l2 : replaced v v1 cs off l1 -> replaced v1 v2 cs (off + Z.of_nat (length l1)) l2 -> replaced v v2 cs off (l1 ++ l2).
Proof.
  intros [A1 A2 A3 A4] [B1 B2 B3 B4]. split.
  - intros k Hk. rewrite B1, A1 by done. rewrite length_app.
    destruct (Z.leb_spec off k), (Z.ltb_spec k (off + Z.of_nat (length l1 + length l2))), (Z.ltb_spec k (off + Z.of_nat (length l1))),
      (Z.leb_spec (off + Z.of_nat (length l1)) k), (Z.ltb_spec k (off + Z.of_nat (length l1) + Z.of_nat (length l2))); cbn [andb]; try lia; try done.
    + by rewrite app_nth1 by lia.
    + rewrite app_nth2 by lia. f_equal. lia.
  - intros c Hc Hn. apply (clu_same_trans fs v v1); [by apply A2|by apply B2].
  - intros c Hc. by rewrite B3, A3.
  - by rewrite B4.
Qed.

Lemma replaced_poke v cs off a l : NoDup cs -> Forall in_range cs -> 0 <= off -> off mod bps + Z.of_nat (length l) <= bps -> place cs off = Some a ->
  replaced v (poke_disk v a l) cs off l.
Proof.
  intros Hn Hr Ho Hl Ha. pose proof (bpc_pos fs G) as [Hb _]. pose proof (bps_pos fs G) as [Hp _].
  assert (exists c, c ∈ cs /\ in_range c /\ a = clu_at c + off mod bpc /\ off mod bpc + Z.of_nat (length l) <= bpc) as (c & Hc & Hcr & Ea & Hin).
  { unfold place in Ha. destruct (cs !! _) as [c|] eqn:E; [|done]. injection Ha as <-. exists c. apply list_elem_of_lookup_2 in E as Hc.
    split; [done|]. rewrite Forall_forall in Hr. split; [by apply Hr|]. split; [done|]. destruct l as [|x l]; [cbn; pose proof (Z.mod_pos_bound off bpc); lia|].
    destruct (same_cluster off (Z.of_nat (length l)) Ho ltac:(lia)) as (_ & _ & H); cbn [length] in *; lia. }
  pose proof (Z.mod_pos_bound off bpc ltac:(lia)) as Hm. pose proof (Z.mod_pos_bound off bps ltac:(lia)) as Hm'.
  assert (forall k b, 0 <= k -> place cs k = Some b -> a <= b < a + Z.of_nat (length l) -> off <= k < off + Z.of_nat (length l)) as Hhit.
  { intros k b Hk Hpk Hb'. pose proof (place_run cs off (b - a) a Ho ltac:(lia) ltac:(lia) Ha) as Hr'. replace (a + (b - a)) with b in Hr' by lia.
    rewrite (place_inj cs k (off + (b - a)) b Hn Hk ltac:(lia) Hpk Hr'). lia. }
  split.
  - intros k Hk. unfold fbyte. destruct (place_in cs k Hk) as (d & Hd & Hpk & _). rewrite Hpk. cbn [disk poke_disk]. rewrite poke_eq.
    destruct (Z.leb_spec off k) as [H1|H1], (Z.ltb_spec k (off + Z.of_nat (length l))) as [H2|H2]; cbn [andb].
    + pose proof (place_run cs off (k - off) a Ho ltac:(lia) ltac:(lia) Ha) as Hr'. replace (off + (k - off)) with k in Hr' by lia. rewrite Hpk in Hr'. injection Hr' as ->.
      replace (a + (k - off) - a) with (k - off) by lia. destruct (Z.leb_spec a (a + (k - off))), (Z.ltb_spec (a + (k - off)) (a + Z.of_nat (length l))); cbn [andb]; (done || lia).
    + destruct (Z.leb_spec a (clu_at d + k mod bpc)), (Z.ltb_spec (clu_at d + k mod bpc) (a + Z.of_nat (length l))); cbn [andb]; try done.
      pose proof (Hhit k _ ltac:(lia) Hpk ltac:(lia)). lia.
    + destruct (Z.leb_spec a (clu_at d + k mod bpc)), (Z.ltb_spec (clu_at d + k mod bpc) (a + Z.of_nat (length l))); cbn [andb]; try done.
      pose proof (Hhit k _ ltac:(lia) Hpk ltac:(lia)). lia.
    + lia.
  - intros d Hd Hnin k Hk. cbn [disk poke_disk]. rewrite poke_eq. destruct (Z.leb_spec a (clu_at d + k)), (Z.ltb_spec (clu_at d + k) (a + Z.of_nat (length l))); cbn [andb]; try done.
    exfalso. apply (clusters_apart fs G d c k (clu_at d + k - clu_at c)); [by intros ->|done|lia|lia].
  - intros d Hd. unfold ExfatChain.fat. apply le32_ext; cbn [disk poke_disk]; rewrite poke_eq;
      pose proof (fat_below fs G d c (off mod bpc) Hd Hcr ltac:(lia)); (destruct (Z.leb_spec a (ExfatSpec.fat_at fs d + 0)) || idtac);
      match goal with |- context [?x <=? ?y] => destruct (Z.leb_spec x y) end; cbn [andb]; try done; lia.
  - done.
Qed.

Lemma replaced_file v v' cs off data i : replaced v v' cs off data -> Forall in_range cs -> file_ok v i cs -> file_ok v' i cs.
Proof. intros H Hr. apply file_same. intros c Hc. apply (re_fat _ _ _ _ _ H). rewrite Forall_forall in Hr. by apply Hr. Qed.

Lemma file_range v i cs : file_ok v i cs -> NoDup cs /\ Forall in_range cs.
Proof.
  intros Hf. destruct cs as [|c r]; [by split; constructor|]. destruct (file_chain fs v i _ Hf ltac:(done)) as (Hc & _ & _).
  split; [by eapply chain_nodup|by eapply chain_range].
Qed.

Lemma file_write_loop_ok f v i cs off data : file_ok v i cs -> 0 <= off -> off + Z.of_nat (length data) <= room cs -> (length data <= f)%nat ->
  exists v' i', write_loop fs f v i off data = (v', i', []) /\ replaced v v' cs off data /\ file_ok v' i' cs /\ same_file i i' /\ first_cluster i' = first_cluster i.
Proof.
  revert v i off data. induction f as [|f IH]; intros v i off data Hf Ho Hr Hn; cbn [write_loop].
  - destruct data; [|cbn in Hn; lia]. exists v, i. split_and!; try done. apply replaced_nil.
  - destruct data as [|x l] eqn:Ed; [exists v, i; split_and!; try done; apply replaced_nil|]. rewrite <- Ed in *.
    assert (0 < Z.of_nat (length data)) as Hpos by (subst data; cbn [length]; lia). clear x l Ed.
    set (whole := _ && _). destruct (get_sector_ok v i cs off whole Hf ltac:(lia)) as (lba & w & i1 & a & E1 & E2 & E3 & E4 & E5 & E6 & E7 & E8). rewrite E1.
    set (chunk := if Z.of_nat (length data) <? bps - w then Z.of_nat (length data) else bps - w).
    assert (0 < chunk <= Z.of_nat (length data) /\ chunk <= bps - w) as Hc by (unfold chunk; destruct (Z.ltb_spec (Z.of_nat (length data)) (bps - w)); lia).
    rewrite E3. destruct (file_range v i1 cs E6) as [Hnd Hrg].
    assert (length (take (Z.to_nat chunk) data) = Z.to_nat chunk) as Hl by (apply length_take_le; lia).
    assert (replaced v (poke_disk v a (take (Z.to_nat chunk) data)) cs off (take (Z.to_nat chunk) data)) as R by (apply replaced_poke; (done || rewrite ?Hl; lia)).
    pose proof (replaced_file _ _ _ _ _ _ R Hrg E6) as F1.
    destruct (IH _ i1 (off + chunk) (drop (Z.to_nat chunk) data) F1) as (v' & i' & J1 & J2 & J3 & J4 & J5); [lia|rewrite length_drop; lia|rewrite length_drop; lia|].
    exists v', i'. split; [done|]. split; [|split; [done|]; split; [unfold same_file in *; naive_solver congruence|congruence]].
    rewrite <- (take_drop (Z.to_nat chunk) data). eapply replaced_app; [exact R|]. rewrite Hl. replace (Z.of_nat (Z.to_nat chunk)) with chunk by lia. done.
Qed.

(** ** Extending *)

Lemma same_file_refl i : same_file i i.
Proof. by split_and!. Qed.

Lemma clusters_have_ok v i cs : file_ok v i cs ->
  exists i', clusters_have fs v i = Some (Z.of_nat (length cs), i') /\ file_ok v i' cs /\ same_file i i' /\ first_cluster i' = first_cluster i /\
    (cs <> [] -> len_first (caches i') = first_cluster i' /\ len_n (caches i') <> 0).
Proof.
  intros Hf. unfold clusters_have. destruct cs as [|c r].
  - pose proof (fo_chain _ _ _ _ Hf) as (E & _). rewrite E. cbn [Z.ltb Z.compare]. exists i. split_and!; try done.
  - destruct (file_chain fs v i _ Hf ltac:(done)) as (Hch & H2 & Hhd). destruct (Z.ltb_spec (first_cluster i) 2); [lia|]. rewrite (fo_nofat _ _ _ _ Hf).
    destruct ((len_first (caches i) =? first_cluster i) && negb (len_n (caches i) =? 0)) eqn:E.
    + bool_props. destruct (fo_len _ _ _ _ Hf) as [L1 L2]; [done|done|]. exists i. rewrite L1. split_and!; try done.
    + injection Hhd as Hhd. pose proof (chain_length fs G v _ Hch) as Hl. pose proof (count_pos fs G) as Hcp.
      destruct (chain_walk_ok fs G v c r 1 (chain_fuel fs) Hch) as (t & Ht & Ew); [unfold chain_fuel; cbn [length] in Hl; lia|].
      rewrite <- Hhd, Ew. replace (1 + Z.of_nat (length r)) with (Z.of_nat (length (c :: r))) by (cbn [length]; lia).
      eexists. split; [done|]. rewrite u32_small by lia. split; [|split_and!; try done; cbn; lia].
      destruct Hf as [F1 F2 F3 F4 F5]. split; try done.
Qed.

Lemma grow_tail_ok v i cs : file_ok v i cs -> (cs <> [] -> len_first (caches i) = first_cluster i /\ len_n (caches i) <> 0) ->
  exists t, grow_tail fs v i = Some t /\ (cs = [] /\ t = 0 \/ last cs = Some t).
Proof.
  intros Hf Hl. unfold grow_tail. destruct cs as [|c r].
  - pose proof (fo_chain _ _ _ _ Hf) as (E & _). rewrite E. exists 0. split; [done|by left].
  - destruct (file_chain fs v i _ Hf ltac:(done)) as (Hch & H2 & Hhd). destruct (Z.ltb_spec (first_cluster i) 2); [lia|]. rewrite (fo_nofat _ _ _ _ Hf).
    destruct Hl as [L1 L2]; [done|]. destruct (fo_len _ _ _ _ Hf L1 L2) as [L3 L4]. rewrite L1, Z.eqb_refl. destruct (Z.eqb_spec (len_n (caches i)) 0); [done|].
    exists (len_tail (caches i)). split; [done|by right].
Qed.

Section Grow.
Context (user : bool) (reserve_kb : Z).

(** The chain after [grow_to]: the old clusters, then new ones that were free.
    When it succeeds the file has room for [end_] bytes. *)
Lemma grow_to_ok v i cs rest end_ : vol_ok v (cs ++ rest) -> file_ok v i cs -> 0 <= end_ -> end_ + bpc < 18446744073709551616 ->
  exists v' i' ok new, grow_to fs user reserve_kb v i end_ = Some (v', i', ok) /\ grown fs v v' cs new rest /\
    file_ok v' i' (cs ++ new) /\ same_file i i' /\ (ok = true -> end_ <= room (cs ++ new)).
Proof.
  intros Hv Hf He Hs. unfold grow_to. destruct (clusters_have_ok v i cs Hf) as (i1 & -> & F1 & S1 & C1 & L1). pose proof (bpc_pos fs G) as [Hb _].
  rewrite u64_small by lia. set (need := (end_ + bpc - 1) / bpc).
  assert (end_ <= need * bpc) as Hneed.
  { unfold need. pose proof (Z.div_mod (end_ + bpc - 1) bpc ltac:(lia)). pose proof (Z.mod_pos_bound (end_ + bpc - 1) bpc ltac:(lia)). lia. }
  destruct (Z.ltb_spec (Z.of_nat (length cs)) need) as [Hlt|Hge].
  - destruct (negb (fs_reserve_allows fs user reserve_kb v (need - Z.of_nat (length cs)))).
    { exists v, i1, false, []. rewrite app_nil_r. split_and!; try done. by apply chain_grown_refl. }
    destruct (grow_tail_ok v i1 cs F1 L1) as (t & -> & Ht).
    pose proof (grow_loop_ok fs G (Z.to_nat (need - Z.of_nat (length cs))) v i1 cs t rest Hv F1 Ht) as Hg.
    destruct (grow_loop fs _ v i1 t) as [[v' i'] r]. destruct Hg as (new & K1 & K2 & K3 & K4 & K5 & K6 & K7 & K8).
    assert (same_file i i') as S2 by (unfold same_file in *; naive_solver congruence).
    assert (size i' = size i1) as Esz by (by destruct K2).
    assert (forall w, hint_first w = hint_first (caches i') -> hint_idx w = hint_idx (caches i') -> hint_clu w = hint_clu (caches i') ->
      (len_n w = 0 \/ (cs ++ new <> [] /\ len_first w = first_cluster i' /\ len_n w = Z.of_nat (length (cs ++ new)) /\ last (cs ++ new) = Some (len_tail w))) ->
      file_ok v' (set_caches i' w) (cs ++ new)) as Hfile.
    { intros w W1 W2 W3 W4. destruct F1 as [F1 F2 F3 F4 F5]. split.
      - done.
      - cbn [first_cluster set_caches caches]. destruct (cs ++ new) as [|c q] eqn:E; [|done]. split; [done|]. destruct cs; [|done]. destruct W4 as [W4|(? & _)]; [|done]. split; [|done]. rewrite W3, K6. lia.
      - cbn [size set_caches]. rewrite Esz, length_app. lia.
      - cbn [caches set_caches first_cluster]. rewrite W1, W2, W3, K4, K5, K6. intros X1 X2. destruct cs as [|c q]; [destruct F2 as (_ & ? & _); lia|].
        cbn [app] in K7. destruct K7 as [K7 _]. destruct F2 as [F2 _]. destruct F4 as [Y1 Y2]; [congruence|done|]. split; [done|]. by apply lookup_app_l_Some.
      - cbn [caches set_caches first_cluster]. intros X1 X2. destruct W4 as [W4|(_ & _ & W5 & W6)]; [done|]. done. }
    destruct r as [t'|].
    + destruct K8 as [K8 K9]. assert (cs ++ new <> []) as Hne by (intros [-> ->]%app_eq_nil; cbn in *; lia). destruct K9 as [?|K9]; [done|].
      rewrite K3. eexists v', _, true, new. split; [done|]. split; [done|]. split; [|split].
      * apply Hfile; [done..|]. right. split; [done|]. split; [done|]. cbn [set_len len_n len_tail]. split; [|done].
        pose proof (gr_vol _ _ _ _ _ _ K1) as [N R _ _]. apply NoDup_app in N as (_ & _ & N). rewrite app_assoc in N, R. apply NoDup_app in N as (N & _ & _). apply Forall_app in R as [R _].
        pose proof (range_length fs G _ N R). pose proof (count_pos fs G). rewrite length_app in *. rewrite u32_small by lia. lia.
      * destruct S2 as (?&?&?&?&?&?&?&?&?). by split_and!.
      * intros _. unfold room. rewrite length_app, K8. nia.
    + exists v', i', false, new. split; [done|]. split; [done|]. split; [|split; [done|done]].
      replace i' with (set_caches i' (caches i')) by (by destruct i'). apply Hfile; try done. by left.
  - exists v, i1, true, []. rewrite app_nil_r. split; [done|]. split; [by apply chain_grown_refl|]. split; [done|]. split; [done|]. intros _. unfold room. nia.
Qed.
End Grow.
End Volume.
End ExfatFile.
