(* ===== verification/ExfatDir.v ===== *)
(** * exFAT: directory entries

    Where the entries of a directory lie, what reading and writing them does,
    and that the bookkeeping of a write stays inside the parent directory. *)

From stdpp Require Import base list.
From Stdlib Require Import ZArith Lia.
From S2P Require Import Prelude Partition PartitionSpec Exfat ExfatSpec ExfatChain ExfatFile.
Open Scope Z_scope.

Module ExfatDir.
Import Partition PartitionSpec Exfat ExfatSpec ExfatChain ExfatFile.

Section Volume.
Context `{HC : Cache} (fs : exfat_fs) (G : geo_ok fs).
Notation bps := (bytes_per_sector fs).
Notation bpc := (bytes_per_cluster fs).
Notation count := (cluster_count fs).
Notation in_range := (in_range fs).
Notation clu_at := (clu_at fs).
Notation used := (used fs).
Notation bm_clusters := (bm_clusters fs).
Notation chain := (chain fs).
Notation fat := (fat fs).
Notation clu_same := (clu_same fs).
Notation vol_ok := (vol_ok fs).
Notation file_ok := (file_ok fs).
Notation place := (place fs).
Notation fbyte := (fbyte fs).
Notation room := (room fs).
Notation replaced := (replaced fs).

(** ** Changes inside a set of clusters *)

(** The links and every other cluster are as before. *)
Record touched (v v' : vol) (ds : list Z) : Prop := Touched {
  to_clu : forall c, in_range c -> c ∉ ds -> clu_same v v' c;
  to_fat : forall c, in_range c -> fat v' c = fat v c;
  to_free : free_clusters v' = free_clusters v }.

Lemma touched_refl v ds : touched v v ds.
Proof. by split. Qed.
Lemma touched_trans v1 v2 v3 ds : touched v1 v2 ds -> touched v2 v3 ds -> touched v1 v3 ds.
Proof.
  intros [A1 A2 A3] [B1 B2 B3]. split.
  - intros c Hc Hn. apply (clu_same_trans fs v1 v2); [by apply A1|by apply B1].
  - intros c Hc. by rewrite B2, A2.
  - by rewrite B3.
Qed.
Lemma replaced_touched v v' ds off l : replaced v v' ds off l -> touched v v' ds.
Proof. by intros [_ H1 H2 H3]. Qed.

(** The bitmap is not touched when its clusters are not among them. *)
Lemma touched_used v v' ds c : touched v v' ds -> (forall d, d ∈ ds -> d ∉ bm_clusters) -> in_range c -> used v' c = used v c.
Proof.
  intros [H1 _ _] Hd Hc. unfold ExfatSpec.used. destruct (bm_inside fs G c Hc) as (d & k & Hdb & Hdr & Hk & ->). rewrite (H1 d); try done.
  intros Hin. by apply (Hd d).
Qed.
Lemma vol_apart v all (ds : list Z) : vol_ok v all -> (forall c, c ∈ ds -> c ∈ all) -> forall d, d ∈ ds -> d ∉ bm_clusters.
Proof. intros [N _ _ _] Hs d Hd Hb. apply NoDup_app in N as (_ & N & _). by apply (N d), Hs. Qed.
Lemma touched_vol v v' ds all : touched v v' ds -> (forall c, c ∈ ds -> c ∈ all) -> vol_ok v all -> vol_ok v' all.
Proof.
  intros Ht Hs Hv. apply (vol_same fs G v); [|apply Ht|done]. intros c Hc. apply (touched_used v v' ds c Ht); [|done]. by eapply vol_apart.
Qed.
Lemma touched_chain v v' ds cs : touched v v' ds -> chain v cs -> chain v' cs.
Proof.
  intros [_ H _] Hc. eapply chain_ext; [|exact Hc]. intros c Hin. apply H. pose proof (chain_range fs v cs Hc) as Hr. rewrite Forall_forall in Hr. by apply Hr.
Qed.
Lemma touched_file v v' ds i cs : touched v v' ds -> file_ok v i cs -> file_ok v' i cs.
Proof.
  intros [_ H _] Hf. apply (file_same fs v); [|done]. intros c Hin. apply H. destruct (file_range fs G v i cs Hf) as [_ Hr]. rewrite Forall_forall in Hr. by apply Hr.
Qed.
Lemma touched_bytes v v' ds cs k : touched v v' ds -> Forall in_range cs -> (forall c, c ∈ cs -> c ∉ ds) -> 0 <= k -> fbyte v' cs k = fbyte v cs k.
Proof.
  intros [H _ _] Hr Hn Hk. unfold ExfatFile.fbyte, ExfatFile.place. destruct (cs !! _) as [c|] eqn:E; [|done]. cbn. apply list_elem_of_lookup_2 in E.
  rewrite Forall_forall in Hr. apply H; [by apply Hr|by apply Hn|]. apply Z.mod_pos_bound. pose proof (bpc_pos fs G). lia.
Qed.

(** ** A directory *)

(** The clusters of a directory as an inode describes it: a run of [lim] bytes,
    or a chain. *)
Definition dir_ok (v : vol) (first : Z) (nofat : bool) (lim : Z) (ds : list Z) : Prop :=
  NoDup ds /\ Forall in_range ds /\
  if nofat then exists n, 0 < n /\ ds = seqZ first n /\ lim = n * bpc
  else chain v ds /\ head ds = Some first /\ 0 <= lim.

(** The bytes that the entries may be in. *)
Definition cap (lim : Z) (ds : list Z) : Z := if lim =? 0 then room ds else Z.min lim (room ds).

Record it_ok (v : vol) (it : dir_iter) (ds : list Z) : Prop := ItOk {
  ik_dir : dir_ok v (it_first it) (it_nofat it) (limit it) ds;
  ik_pos : pos_c it <> 0 -> 0 <= pos_n it /\ ds !! Z.to_nat (pos_n it) = Some (pos_c it) }.

Lemma iter_ok v first nofat lim ds : dir_ok v first nofat lim ds -> it_ok v (iter first nofat lim) ds.
Proof. by split. Qed.

Lemma dir_touched v v' es first nofat lim ds : touched v v' es -> dir_ok v first nofat lim ds -> dir_ok v' first nofat lim ds.
Proof.
  intros Ht (H1 & H2 & H3). split; [done|]. split; [done|]. destruct nofat; [done|]. destruct H3 as (H3 & H4 & H5). split; [by eapply touched_chain|done].
Qed.
Lemma it_touched v v' es it ds : touched v v' es -> it_ok v it ds -> it_ok v' it ds.
Proof. intros Ht [H1 H2]. split; [by eapply dir_touched|done]. Qed.

Lemma chain_skip_out v c r n : chain v (c :: r) -> (length (c :: r) <= n)%nat -> chain_skip fs n v c false = EXFAT_FAT_EOC.
Proof.
  revert c n. induction r as [|x r IH]; intros c n Hc Hn; (destruct n as [|n]; [cbn in Hn; lia|]); cbn [chain_skip chain_next].
  - destruct Hc as [[H1 H1'] H2]. rewrite fat_next_eq by (done || lia). destruct (Z.leb_spec EXFAT_FAT_EOC_FIRST (fat v c)); [done|lia].
  - destruct Hc as ([H1 H1'] & H2 & H3). rewrite fat_next_eq, H2 by (done || lia). assert (in_range x) as [? ?] by (by destruct H3 as [? _]).
    pose proof (go_count fs G) as [_ ?]. destruct (Z.leb_spec EXFAT_FAT_EOC_FIRST x); [lia|]. apply IH; [done|]. cbn [length] in *. lia.
Qed.

Lemma entry_inside idx : 0 <= idx -> idx * 32 mod bps + 32 <= bps.
Proof.
  intros Hi. destruct (go_bps fs G) as (k & Hk & ->). replace (idx * 32) with (32 * idx) by lia. rewrite Z.mul_mod_distr_l by lia.
  pose proof (Z.mod_pos_bound idx k ltac:(lia)). lia.
Qed.

Lemma entry_cluster idx : 0 <= idx < 4294967296 -> 0 <= idx * 32 / bpc < 4294967296.
Proof.
  intros Hi. pose proof (bpc_pos fs G) as [Hb _]. split; [apply Z.div_pos; lia|]. apply Z.div_lt_upper_bound; [lia|]. nia.
Qed.

(** The sector of an entry, below the limit. *)
Lemma sector_ok v it ds idx : it_ok v it ds -> 0 <= idx < 4294967296 -> (limit it = 0 \/ idx * 32 < limit it) ->
  exists it', it_ok v it' ds /\ limit it' = limit it /\
    ((idx * 32 < room ds /\ exists lba w a, dir_iter_sector fs v it (idx * 32) = (Some (lba, w), it') /\ place ds (idx * 32) = Some a /\ lba * bps + w = a) \/
     (room ds <= idx * 32 /\ dir_iter_sector fs v it (idx * 32) = (None, it'))).
Proof.
  intros [(Hn & Hr & Hd) Hp] Hi Hl. pose proof (bpc_pos fs G) as [Hb _]. pose proof (entry_cluster idx Hi) as Hq. unfold dir_iter_sector.
  rewrite (u32_small (idx * 32 / bpc)) by lia. set (n := idx * 32 / bpc) in *. pose proof (Z.div_mod (idx * 32) bpc ltac:(lia)) as Hdm. fold n in Hdm. pose proof (Z.mod_pos_bound (idx * 32) bpc ltac:(lia)) as Hmb.
  assert (forall c it', ds !! Z.to_nat n = Some c -> it_ok v it' ds -> limit it' = limit it ->
    exists it'', it_ok v it'' ds /\ limit it'' = limit it /\
      ((idx * 32 < room ds /\ exists lba w a, (get_sector false (in_cluster fs c (idx * 32)), it') = (Some (lba, w), it'') /\ place ds (idx * 32) = Some a /\ lba * bps + w = a) \/
       (room ds <= idx * 32 /\ (get_sector false (in_cluster fs c (idx * 32)), it') = (None, it'')))) as Hin.
  { intros c it' Hc H1 H2. exists it'. split; [done|]. split; [done|]. left. assert (in_range c) as Hcr by (rewrite Forall_forall in Hr; apply Hr; by apply list_elem_of_lookup_2 in Hc).
    pose proof (in_cluster_at fs G c (idx * 32) Hcr ltac:(lia)) as Hic. destruct (in_cluster fs c (idx * 32)) as [lba w]. destruct Hic as (E1 & E2 & _).
    apply lookup_lt_Some in Hc as Hlt. split; [unfold ExfatFile.room; nia|]. exists lba, w, (clu_at c + idx * 32 mod bpc). unfold get_sector. cbn [fst]. rewrite (go_get fs G).
    split; [done|]. split; [unfold ExfatFile.place; fold n; by rewrite Hc|done]. }
  destruct (it_nofat it) eqn:En.
  - destruct Hd as (m & Hm & Eds & Elim). assert (n < m) as Hnm by (apply Z.div_lt_upper_bound; lia).
    assert (ds !! Z.to_nat n = Some (it_first it + n)) as Hlk by (rewrite Eds, lookup_seqZ; split; [f_equal|]; lia).
    assert (in_range (it_first it + n)) as [R1 R2] by (rewrite Forall_forall in Hr; apply Hr; by apply list_elem_of_lookup_2 in Hlk).
    pose proof (count_pos fs G). rewrite u32_small by lia. apply (Hin _ it Hlk); [|done]. split; [|done]. rewrite En. split; [done|]. split; [done|]. by exists m.
  - destruct Hd as (Hch & Hhd & Hlim0). destruct ds as [|c0 r]; [done|]. injection Hhd as Hhd.
    set (p := if _ && _ then _ else _).
    assert (exists x k, p = (k, x) /\ 0 <= k <= n /\ (c0 :: r) !! Z.to_nat k = Some x) as (x & k & -> & Hk & Hx).
    { unfold p. destruct (negb (pos_c it =? 0) && (pos_n it <=? n)) eqn:E.
      - bool_props. destruct Hp as [P1 P2]; [done|]. eexists _, _. split; [done|]. split; [lia|done].
      - eexists _, _. split; [done|]. split; [lia|]. cbn. by rewrite Hhd. }
    destruct (chain_drop fs v _ (Z.to_nat k) x Hch Hx) as [Hcd Ed].
    destruct (lookup_lt_is_Some (c0 :: r) (Z.to_nat n)) as [_ HS]. destruct (decide (Z.to_nat n < length (c0 :: r))%nat) as [Hlt|Hge].
    + destruct (HS Hlt) as [c Hc].
      assert (chain_skip fs (Z.to_nat (n - k)) v x false = c) as ->.
      { rewrite Ed in Hcd. apply (chain_skip_in fs G v x _ _ Hcd). rewrite <- Ed, lookup_drop. rewrite <- Hc. f_equal. lia. }
      assert (in_range c) as [R1 R2] by (rewrite Forall_forall in Hr; apply Hr; by apply list_elem_of_lookup_2 in Hc).
      pose proof (go_count fs G) as [_ ?]. destruct (Z.leb_spec EXFAT_FAT_EOC_FIRST c); [lia|].
      apply (Hin c _ Hc); [|done]. split; cbn [it_first it_nofat limit pos_n pos_c]; [|intros _; split; [lia|exact Hc]].
      split; [done|]. split; [done|]. split; [exact Hch|]. split; [by rewrite <- Hhd|done].
    + assert (chain_skip fs (Z.to_nat (n - k)) v x false = EXFAT_FAT_EOC) as ->.
      { rewrite Ed in Hcd. apply (chain_skip_out v x _ _ Hcd). rewrite <- Ed, length_drop. lia. }
      cbn. exists it. split; [split; [|done]|].
      * rewrite En. split; [done|]. split; [done|]. split; [exact Hch|]. split; [by rewrite <- Hhd|done].
      * split; [done|]. right. split; [|done]. unfold ExfatFile.room. nia.
Qed.

(** Reading an entry: its bytes, exactly when it is inside. *)
Lemma entry_read v it ds idx : it_ok v it ds -> 0 <= idx < 4294967296 ->
  exists it', it_ok v it' ds /\ limit it' = limit it /\
    ((idx * 32 < cap (limit it) ds /\ exists e, dir_entry_read fs v it idx = (Some e, it') /\ forall k, 0 <= k < 32 -> e k = fbyte v ds (idx * 32 + k)) \/
     (cap (limit it) ds <= idx * 32 /\ dir_entry_read fs v it idx = (None, it'))).
Proof.
  intros Hit Hi. unfold dir_entry_read, EXFAT_ENTRY_SIZE, cap. pose proof (ik_dir _ _ _ Hit) as (_ & _ & Hd).
  assert (0 <= limit it) as Hl0.
  { destruct (it_nofat it); [|by destruct Hd as (_ & _ & ?)]. destruct Hd as (n & ? & _ & ->). pose proof (bpc_pos fs G). nia. }
  destruct (Z.eqb_spec (limit it) 0) as [E0|E0]; cbn [negb andb].
  - destruct (sector_ok v it ds idx Hit Hi ltac:(by left)) as (it' & I1 & I2 & [(I3 & lba & w & a & -> & I5 & I6)|(I3 & ->)]); exists it'; (split; [done|]; split; [done|]); [left|right]; (split; [done|]); [|done].
    eexists. split; [done|]. intros k Hk. cbn. rewrite I6. unfold ExfatFile.fbyte. pose proof (entry_inside idx ltac:(lia)). by rewrite (place_run fs G ds (idx * 32) k a) by (done || lia).
  - destruct (Z.leb_spec (limit it) (idx * 32)); cbn [andb].
    + exists it. split; [done|]. split; [done|]. right. split; [lia|done].
    + destruct (sector_ok v it ds idx Hit Hi ltac:(by right)) as (it' & I1 & I2 & [(I3 & lba & w & a & -> & I5 & I6)|(I3 & ->)]); exists it'; (split; [done|]; split; [done|]); [left|right]; (split; [lia|]); [|done].
      eexists. split; [done|]. intros k Hk. cbn. rewrite I6. unfold ExfatFile.fbyte. pose proof (entry_inside idx ltac:(lia)). by rewrite (place_run fs G ds (idx * 32) k a) by (done || lia).
Qed.

(** Writing an entry replaces its 32 bytes. *)
Lemma entry_write v it ds idx e : it_ok v it ds -> 0 <= idx < 4294967296 ->
  exists it', limit it' = limit it /\
    ((idx * 32 < cap (limit it) ds /\ exists v', dir_entry_write fs v it idx e = (Some v', it') /\ replaced v v' ds (idx * 32) (peek e 0 32) /\ it_ok v' it' ds) \/
     (cap (limit it) ds <= idx * 32 /\ dir_entry_write fs v it idx e = (None, it') /\ it_ok v it' ds)).
Proof.
  intros Hit Hi. pose proof (ik_dir _ _ _ Hit) as (Hn & Hr & Hd).
  assert (0 <= limit it) as Hl0.
  { destruct (it_nofat it); [|by destruct Hd as (_ & _ & ?)]. destruct Hd as (n & ? & _ & ->). pose proof (bpc_pos fs G). nia. }
  assert (forall it' lba w a, place ds (idx * 32) = Some a -> lba * bps + w = a -> it_ok v it' ds ->
    replaced v (poke_disk v (lba * bps + w) (peek e 0 32)) ds (idx * 32) (peek e 0 32) /\ it_ok (poke_disk v (lba * bps + w) (peek e 0 32)) it' ds) as Hpoke.
  { intros it' lba w a Ha -> Hit'. assert (replaced v (poke_disk v a (peek e 0 32)) ds (idx * 32) (peek e 0 32)) as R.
    { apply (replaced_poke fs G); [done|done|lia| |done]. rewrite peek_length. apply entry_inside. lia. }
    split; [done|]. eapply it_touched; [by eapply replaced_touched|done]. }
  unfold dir_entry_write, EXFAT_ENTRY_SIZE, cap. destruct (Z.eqb_spec (limit it) 0) as [E0|E0]; cbn [negb andb].
  - destruct (sector_ok v it ds idx Hit Hi ltac:(by left)) as (it' & I1 & I2 & [(I3 & lba & w & a & -> & I5 & I6)|(I3 & ->)]); exists it'; (split; [done|]); [left|right]; (split; [done|]); [|done].
    destruct (Hpoke it' lba w a I5 I6 I1) as [P1 P2]. by eexists.
  - destruct (Z.leb_spec (limit it) (idx * 32)); cbn [andb].
    + exists it. split; [done|]. right. split; [lia|done].
    + destruct (sector_ok v it ds idx Hit Hi ltac:(by right)) as (it' & I1 & I2 & [(I3 & lba & w & a & -> & I5 & I6)|(I3 & ->)]); exists it'; (split; [done|]); [left|right]; (split; [lia|]); [|done].
      destruct (Hpoke it' lba w a I5 I6 I1) as [P1 P2]. by eexists.
Qed.

(** ** Runs of entries *)

Lemma read_set_ok n v it ds idx buf o : it_ok v it ds -> 0 <= idx -> idx + Z.of_nat n <= 4294967296 ->
  exists it', it_ok v it' ds /\ limit it' = limit it /\
    (((idx + Z.of_nat n - 1) * 32 < cap (limit it) ds \/ n = 0%nat) /\
       (exists b, read_set fs n v it idx buf o = (Some b, it') /\
          (forall k, 0 <= k < 32 * Z.of_nat n -> b (o + k) = fbyte v ds (idx * 32 + k)) /\ (forall a, a < o \/ o + 32 * Z.of_nat n <= a -> b a = buf a)) \/
     (cap (limit it) ds <= (idx + Z.of_nat n - 1) * 32 /\ n <> 0%nat /\ read_set fs n v it idx buf o = (None, it'))).
Proof.
  revert it idx buf o. induction n as [|n IH]; intros it idx buf o Hit Hi Hn; cbn [read_set].
  - exists it. split; [done|]. split; [done|]. left. split; [by right|]. exists buf. split; [done|]. split; [intros; lia|done].
  - rewrite u32_small by lia. destruct (entry_read v it ds idx Hit ltac:(lia)) as (it1 & I1 & I2 & [(I3 & e & -> & I4)|(I3 & ->)]).
    + destruct (IH it1 (idx + 1) (poke buf o (peek e 0 32)) (o + 32) I1 ltac:(lia) ltac:(lia)) as (it' & J1 & J2 & [(J3 & b & J4 & J5 & J6)|(J3 & J4 & J5)]).
      * exists it'. split; [done|]. split; [congruence|]. left. split; [left; rewrite I2 in J3; destruct J3 as [?|Hz]; [|subst n]; lia|].
        exists b. split; [done|]. split.
        -- intros k Hk. destruct (Z.ltb_spec k 32).
           ++ rewrite J6 by lia. rewrite poke_eq. replace (length (peek e 0 32)) with 32%nat by (apply peek_length || by rewrite peek_length).
              destruct (Z.leb_spec o (o + k)), (Z.ltb_spec (o + k) (o + Z.of_nat 32)); cbn [andb]; try lia. replace (o + k - o) with k by lia.
              rewrite <- I4 by lia. rewrite peek_map. rewrite <- (Z2Nat.id k) at 2 by lia. change 0 with ((fun j => e (0 + Z.of_nat j)) 0%nat) at 1 || idtac.
              rewrite (nth_lookup_Some _ _ _ (e k)); [by rewrite Z2Nat.id by lia|]. rewrite list_lookup_fmap. rewrite lookup_seq_lt by lia. cbn. f_equal. f_equal. lia.
           ++ replace (o + k) with (o + 32 + (k - 32)) by lia. rewrite J5 by lia. f_equal. lia.
        -- intros a Ha. rewrite J6 by lia. rewrite poke_eq. replace (length (peek e 0 32)) with 32%nat by (apply peek_length || by rewrite peek_length).
           destruct (Z.leb_spec o a), (Z.ltb_spec a (o + Z.of_nat 32)); cbn [andb]; (done || lia).
      * exists it'. split; [done|]. split; [congruence|]. right. split; [rewrite <- I2; lia|]. split; [lia|done].
    + exists it1. split; [done|]. split; [done|]. right. split; [lia|]. split; [lia|done].
Qed.

Lemma write_set_ok n v it ds idx buf o : it_ok v it ds -> 0 <= idx -> idx + Z.of_nat n <= 4294967296 ->
  let '(v', it', ok) := write_set fs n v it idx buf o in
  touched v v' ds /\ it_ok v' it' ds /\ limit it' = limit it /\
  ((idx + Z.of_nat n) * 32 <= cap (limit it) ds -> ok = true /\ replaced v v' ds (idx * 32) (peek buf o (32 * n))).
Proof.
  revert v it idx o. induction n as [|n IH]; intros v it idx o Hit Hi Hn; cbn [write_set].
  - split; [apply touched_refl|]. split; [done|]. split; [done|]. intros _. split; [done|]. apply replaced_nil.
  - rewrite u32_small by lia. destruct (entry_write v it ds idx (fun k => buf (o + k)) Hit ltac:(lia)) as (it1 & I1 & [(I2 & v1 & -> & I3 & I4)|(I2 & -> & I3)]).
    + specialize (IH v1 it1 (idx + 1) (o + EXFAT_ENTRY_SIZE) I4 ltac:(lia) ltac:(lia)). destruct (write_set fs n v1 it1 (idx + 1) buf _) as [[v' it'] ok].
      destruct IH as (J1 & J2 & J3 & J4). split; [eapply touched_trans; [by eapply replaced_touched|done]|]. split; [done|]. split; [congruence|]. intros Hc.
      destruct J4 as [J4 J5]; [rewrite I1; lia|]. split; [done|].
      assert (peek buf o (32 * S n) = peek (fun k => buf (o + k)) 0 32 ++ peek buf (o + EXFAT_ENTRY_SIZE) (32 * n)) as ->.
      { replace (32 * S n)%nat with (32 + 32 * n)%nat by lia. by rewrite peek_app, (peek_view _ o 0), Z.add_0_r. }
      eapply replaced_app; [exact I3|]. replace (Z.of_nat (length (peek (fun k => buf (o + k)) 0 32))) with 32 by (apply peek_length || by rewrite peek_length).
      replace (idx * 32 + 32) with ((idx + 1) * 32) by lia. done.
    + split; [apply touched_refl|]. split; [done|]. split; [done|]. lia.
Qed.

(** ** The bookkeeping of a write *)

(** The directory that the inode's entry set is in. *)
Definition parent_ok (v : vol) (i : inode) (ds : list Z) : Prop :=
  0 <= dirent_index i /\ 0 <= sec_count i /\ dirent_index i + 256 <= 4294967296 /\
  (parent_first_cluster i < 2 \/ dir_ok v (parent_first_cluster i) (parent_no_fat_chain i) (parent_size i) ds).

Lemma write_meta_touched v i ds : parent_ok v i ds -> touched v (exfat_write_meta fs v i).1 ds.
Proof.
  intros (P1 & P2 & P3 & P4). unfold exfat_write_meta. destruct (Z.ltb_spec (parent_first_cluster i) 2); [apply touched_refl|]. destruct P4 as [?|Hd]; [lia|].
  destruct (Z.ltb_spec EXFAT_MAX_SET_ENTRIES (1 + sec_count i)) as [|Hs]; [apply touched_refl|]. unfold EXFAT_MAX_SET_ENTRIES in Hs.
  destruct (read_set_ok (Z.to_nat (1 + sec_count i)) v _ ds (dirent_index i) (fun _ => 0) 0 (iter_ok _ _ _ _ _ Hd) P1 ltac:(lia)) as (it' & I1 & I2 & [(_ & b & -> & _)|(_ & _ & ->)]); [|apply touched_refl].
  pose proof (write_set_ok (Z.to_nat (1 + sec_count i)) v it' ds (dirent_index i)
    (wle16 (meta_stream i b) 2 (set_checksum (meta_stream i b) ((1 + sec_count i) * EXFAT_ENTRY_SIZE))) 0 I1 P1 ltac:(lia)) as W.
  destruct (write_set fs _ v it' _ _ 0) as [[v' it''] ok]. by destruct W as (W & _).
Qed.

Lemma parent_touched v v' es i ds : touched v v' es -> parent_ok v i ds -> parent_ok v' i ds.
Proof. intros Ht (H1 & H2 & H3 & H4). split_and!; try done. destruct H4 as [?|H4]; [by left|right]. by eapply dir_touched. Qed.
Lemma parent_same v i i' ds : same_file i i' -> parent_ok v i ds -> parent_ok v i' ds.
Proof. intros (_&_&_&E1&E2&E3&E4&E5&_) (P1 & P2 & P3 & P4). unfold parent_ok. rewrite E1, E2, E3, E4, E5. done. Qed.
End Volume.
End ExfatDir.
