(* ===== verification/ExfatFiles.v ===== *)
(** * exFAT: files are arrays of bytes

    What [exfat_write] and [exfat_read] do to one file among others, and the
    refinement: over any sequence of writes and reads of the files of a volume,
    each file behaves as an array of its own, and the kept count of free
    clusters stays what the bitmap says. *)

From stdpp Require Import base list.
From Stdlib Require Import ZArith Lia Permutation.
From S2P Require Import Prelude Partition PartitionSpec Exfat ExfatFormat ExfatSpec ExfatChain ExfatFile ExfatDir.
Open Scope Z_scope.

Module ExfatFiles.
Import Partition PartitionSpec Exfat ExfatFormat ExfatSpec ExfatChain ExfatFile ExfatDir.

Section Volume.
Context `{HC : Cache} (fs : exfat_fs) (G : geo_ok fs).
Notation bps := (bytes_per_sector fs).
Notation bpc := (bytes_per_cluster fs).
Notation in_range := (in_range fs).
Notation bm_clusters := (bm_clusters fs).
Notation chain := (chain fs).
Notation fat := (fat fs).
Notation clu_same := (clu_same fs).
Notation vol_ok := (vol_ok fs).
Notation file_ok := (file_ok fs).
Notation fbyte := (fbyte fs).
Notation room := (room fs).
Notation dir_ok := (dir_ok fs).
Notation parent_ok := (parent_ok fs).

(** ** One write *)

Lemma app_bytes v cs new k : 0 <= k < room cs -> fbyte v (cs ++ new) k = fbyte v cs k.
Proof.
  intros Hk. destruct (place_in fs G cs k Hk) as (c & Hc & Hp & Hl). pose proof (bpc_pos fs G) as [Hb _]. pose proof (Z.div_pos k bpc ltac:(lia) ltac:(lia)).
  unfold ExfatFile.fbyte, place. rewrite lookup_app_l by lia. done.
Qed.
Lemma grown_bytes v v' cs new rest k : grown fs v v' cs new rest -> Forall in_range cs -> (forall c, c ∈ cs -> c ∉ bm_clusters) -> 0 <= k < room cs ->
  fbyte v' cs k = fbyte v cs k.
Proof.
  intros [_ H _ _ _] Hr Hn Hk. destruct (place_in fs G cs k Hk) as (c & Hc & Hp & Hl). unfold ExfatFile.fbyte. rewrite Hp. apply list_elem_of_lookup_2 in Hc.
  rewrite Forall_forall in Hr. apply H; [by apply Hr|by apply Hn|]. apply Z.mod_pos_bound. pose proof (bpc_pos fs G). lia.
Qed.

Lemma parent_links v v' i ds : (forall c, c ∈ ds -> fat v' c = fat v c) -> parent_ok v i ds -> parent_ok v' i ds.
Proof.
  intros H (Q1 & Q2 & Q3 & Q4). split_and!; try done. destruct Q4 as [?|(H1 & H2 & H3)]; [by left|right]. split; [done|]. split; [done|].
  destruct (parent_no_fat_chain i); [done|]. destruct H3 as (H3 & H4). split; [|done]. by eapply chain_ext.
Qed.

(** What a write does: the bytes asked for, if it succeeds, or nothing; the
    links and the contents of everybody else stay. *)
Record wrote (v v' : vol) (i i' : inode) (cs new ds rest : list Z) (off : Z) (data : list Z) (r : Z) : Prop := Wrote {
  wr_vol : vol_ok v' ((cs ++ new) ++ ds ++ rest);
  wr_file : file_ok v' i' (cs ++ new);
  wr_parent : parent_ok v' i' ds;
  wr_others : forall c, c ∈ rest -> clu_same v v' c;
  wr_links : forall c, c ∈ ds ++ rest -> fat v' c = fat v c;
  wr_result : (r = Z.of_nat (length data) /\ size i' = Z.max (size i) (off + Z.of_nat (length data)) /\ off + Z.of_nat (length data) <= room (cs ++ new) /\
               (forall k, off <= k < off + Z.of_nat (length data) -> fbyte v' (cs ++ new) k = nth (Z.to_nat (k - off)) data 0) /\
               (forall k, 0 <= k < room cs -> ~ off <= k < off + Z.of_nat (length data) -> fbyte v' (cs ++ new) k = fbyte v cs k)) \/
              (r = -1 /\ size i' = size i /\ forall k, 0 <= k < room cs -> fbyte v' (cs ++ new) k = fbyte v cs k) }.

Lemma set_size_ok v i cs n : file_ok v i cs -> 0 <= n <= room cs -> file_ok v (set_size i n) cs.
Proof. intros [H1 H2 H3 H4 H5] Hn. by split. Qed.

Lemma file_write_ok user kb v i cs ds rest data off : vol_ok v (cs ++ ds ++ rest) -> file_ok v i cs -> parent_ok v i ds -> data <> [] -> 0 <= off ->
  off + Z.of_nat (length data) + bpc < 18446744073709551616 ->
  exists v' i' r new, exfat_write fs user kb v i data off = Some (v', i', r) /\ wrote v v' i i' cs new ds rest off data r.
Proof.
  intros Hv Hf Hp Hd Ho Hb. pose proof (bpc_pos fs G) as [Hbp _]. unfold exfat_write. destruct data as [|x l] eqn:Ed; [done|]. rewrite <- Ed in *. clear x l Ed.
  set (n := Z.of_nat (length data)) in *.
  rewrite u64_small by lia. destruct (grow_to_ok fs G user kb v i cs (ds ++ rest) (off + n) Hv Hf ltac:(lia) ltac:(lia)) as (v1 & i1 & ok & new & -> & Gr & F1 & S1 & Hroom).
  destruct (file_range fs G v i cs Hf) as [Ncs Rcs]. destruct (file_range fs G v1 i1 _ F1) as [Nall Rall]. pose proof (gr_vol _ _ _ _ _ _ Gr) as V1. rewrite app_assoc in V1.
  assert (forall c, c ∈ cs -> c ∉ bm_clusters) as Hcb by (apply (vol_apart fs v _ cs Hv); intros c Hc; apply elem_of_app; by left).
  assert (forall c, c ∈ ds ++ rest -> in_range c /\ c ∉ bm_clusters /\ c ∉ cs ++ new) as Hrest.
  { intros c Hc. pose proof V1 as [N1 R1 _ _]. split; [rewrite Forall_forall in R1; apply R1; rewrite elem_of_app; by right|]. apply NoDup_app in N1 as (_ & N1 & N2).
    split; [intros Hb'; apply (N1 c Hb'); rewrite elem_of_app; by right|]. apply NoDup_app in N2 as (_ & N2 & _). intros Hin. by apply (N2 c Hin). }
  assert (forall c, c ∈ ds ++ rest -> fat v1 c = fat v c) as L1.
  { intros c Hc. destruct (Hrest c Hc) as (Hr & _ & Hn). rewrite not_elem_of_app in Hn. destruct Hn. by apply (gr_fat _ _ _ _ _ _ Gr). }
  assert (parent_ok v1 i1 ds) as P1.
  { eapply parent_same; [exact S1|]. eapply parent_links; [|exact Hp]. intros c Hc. apply L1, elem_of_app. by left. }
  assert (forall c, c ∈ rest -> clu_same v v1 c) as C1.
  { intros c Hc. destruct (Hrest c) as (Hr & Hn & _); [apply elem_of_app; by right|]. by apply (gr_clu _ _ _ _ _ _ Gr). }
  assert (size i1 = size i) as Esz by (by destruct S1).
  destruct ok.
  - specialize (Hroom eq_refl). destruct (file_write_loop_ok fs G (length data) v1 i1 (cs ++ new) off data F1 Ho ltac:(lia) ltac:(lia)) as (v2 & i2 & -> & Rp & F2 & S2 & E2).
    assert (file_ok v2 (if size i2 <? off + n then set_size i2 (off + n) else i2) (cs ++ new)) as F3 by (destruct (_ <? _); [apply set_size_ok; [done|lia]|done]).
    set (i3 := if size i2 <? off + n then set_size i2 (off + n) else i2) in *.
    assert (same_file i1 i2) as S2' by done.
    assert (parent_ok v2 i3 ds) as P3.
    { assert (parent_ok v2 i2 ds) as P2 by (eapply parent_same; [exact S2|]; eapply parent_touched; [by eapply replaced_touched|exact P1]).
      unfold i3. destruct (_ <? _); [|done]. by destruct P2 as (?&?&?&?). }
    pose proof (write_meta_touched fs G v2 i3 ds P3) as T3. set (v3 := (exfat_write_meta fs v2 i3).1) in *.
    exists v3, i3, n, new. split; [done|].
    assert (forall c, c ∈ cs ++ new -> c ∉ ds) as Hnd. { intros c Hc Hin. destruct (Hrest c) as (_ & _ & Hn); [apply elem_of_app; by left|done]. }
    assert (vol_ok v2 ((cs ++ new) ++ ds ++ rest)) as V2 by (eapply (replaced_vol fs G); [exact Rp| |exact V1]; intros c Hc; apply elem_of_app; by left).
    assert (forall k, 0 <= k -> fbyte v3 (cs ++ new) k = fbyte v2 (cs ++ new) k) as B3 by (intros k Hk; by apply (touched_bytes fs G v2 v3 ds)).
    split.
    + eapply (touched_vol fs G); [exact T3| |exact V2]. intros c Hc. rewrite !elem_of_app. tauto.
    + by eapply touched_file.
    + by eapply parent_touched.
    + intros c Hc. destruct (Hrest c) as (Hr & _ & Hn); [apply elem_of_app; by right|]. apply (clu_same_trans fs v v1); [by apply C1|]. apply (clu_same_trans fs v1 v2); [by apply (re_clu _ _ _ _ _ _ Rp)|].
      apply (to_clu _ _ _ _ T3); [done|]. intros Hin. pose proof (vo_nodup _ _ _ Hv) as N. apply NoDup_app in N as (_ & _ & N). apply NoDup_app in N as (_ & _ & N). apply NoDup_app in N as (_ & N & _). by apply (N c).
    + intros c Hc. destruct (Hrest c Hc) as (Hr & _ & _). rewrite (to_fat _ _ _ _ T3), (re_fat _ _ _ _ _ _ Rp) by done. by apply L1.
    + left. assert (size i2 = size i) as E3 by (destruct S2; congruence). split; [done|]. split.
      { unfold i3. rewrite E3. destruct (Z.ltb_spec (size i) (off + n)); cbn [size set_size]; lia. }
      split; [lia|]. split.
      * intros k Hk. rewrite B3 by lia. rewrite (re_bytes _ _ _ _ _ _ Rp) by lia. destruct (Z.leb_spec off k), (Z.ltb_spec k (off + Z.of_nat (length data))); cbn [andb]; (done || lia).
      * intros k Hk Hn. rewrite B3 by lia. rewrite (re_bytes _ _ _ _ _ _ Rp) by (unfold ExfatFile.room in *; rewrite length_app; nia).
        destruct (Z.leb_spec off k), (Z.ltb_spec k (off + Z.of_nat (length data))); cbn [andb]; try lia; (rewrite app_bytes by done; by eapply grown_bytes).
  - exists v1, i1, (-1), new. split; [done|]. split; try done. right. split; [done|]. split; [done|]. intros k Hk. rewrite app_bytes by done. by eapply grown_bytes.
Qed.

(** ** One read *)

Lemma file_read_ok v i cs n off : file_ok v i cs -> 0 <= off -> 0 <= n ->
  exists i' out, exfat_read fs v i n off = (i', out, Z.of_nat (length out)) /\ file_ok v i' cs /\ same_file i i' /\
    out = fbytes fs v cs off (Z.to_nat (Z.min n (size i - off))).
Proof.
  intros Hf Ho Hn. unfold exfat_read. pose proof (fo_size _ _ _ _ Hf) as Hs. destruct (Z.leb_spec (size i) off).
  - exists i, []. split; [done|]. split; [done|]. split; [by split_and!|]. replace (Z.to_nat _) with 0%nat by lia. done.
  - set (m := if size i - off <? n then size i - off else n). assert (m = Z.min n (size i - off)) as Em by (unfold m; destruct (Z.ltb_spec (size i - off) n); lia). rewrite <- Em.
    assert (cs <> []) as Hne by (intros ->; cbn in Hs; lia). destruct (file_chain fs v i cs Hf Hne) as (_ & H2 & _).
    destruct (Z.ltb_spec (first_cluster i) 2); [lia|]. rewrite orb_false_r. destruct (Z.eqb_spec m 0) as [E|E].
    + exists i, []. rewrite E. split; [done|]. split; [done|]. split; [by split_and!|done].
    + destruct (file_read_loop_ok fs G (Z.to_nat m) v i cs off m [] Hf Ho) as (i' & -> & F & S & _); [unfold ExfatFile.room; lia|lia|lia|].
      cbn [app andb]. by eexists _, _.
Qed.
(** ** A volume of files *)

(** The open files of a volume, and the calls of [exfat_file_ops] on them. *)
Inductive file_call := CWrite (f : nat) (user : bool) (kb : Z) (data : list Z) (off : Z) | CRead (f : nat) (n off : Z).
Definition call_file (c : file_call) : nat := match c with CWrite f _ _ _ _ | CRead f _ _ => f end.
Inductive answer := Count (r : Z) | Bytes (out : list Z) | NoFile.

Definition file_step (v : vol) (inos : list inode) (c : file_call) : option (vol * list inode * answer) :=
  match c with
  | CWrite f user kb data off =>
      match inos !! f with
      | None => Some (v, inos, NoFile)
      | Some i => match exfat_write fs user kb v i data off with
                  | None => None
                  | Some (v', i', r) => Some (v', <[f := i']> inos, Count r)
                  end
      end
  | CRead f n off =>
      match inos !! f with
      | None => Some (v, inos, NoFile)
      | Some i => let '(i', out, _) := exfat_read fs v i n off in Some (v, <[f := i']> inos, Bytes out)
      end
  end.
Fixpoint file_run (v : vol) (inos : list inode) (l : list file_call) : option (vol * list inode * list answer) :=
  match l with
  | [] => Some (v, inos, [])
  | c :: l => match file_step v inos c with
              | None => None
              | Some (v', inos', a) => match file_run v' inos' l with None => None | Some (v', inos', r) => Some (v', inos', a :: r) end
              end
  end.

(** The specification: each file is a list of bytes.  A write past the end
    leaves the bytes in between open. *)
Definition stored (A : list Z) (off : Z) (data A' : list Z) : Prop :=
  exists gap, length gap = (Z.to_nat off - length A)%nat /\
    A' = take (Z.to_nat off) A ++ gap ++ data ++ drop (Z.to_nat off + length data) A.
Inductive array_step (As : list (list Z)) : file_call -> answer -> list (list Z) -> Prop :=
  | ArrNone c : As !! call_file c = None -> array_step As c NoFile As
  | ArrEmpty f u kb o A : As !! f = Some A -> array_step As (CWrite f u kb [] o) (Count 0) As
  | ArrFull f u kb d o A : As !! f = Some A -> d <> [] -> array_step As (CWrite f u kb d o) (Count (-1)) As
  | ArrWrite f u kb d o A A' : As !! f = Some A -> d <> [] -> stored A o d A' ->
      array_step As (CWrite f u kb d o) (Count (Z.of_nat (length d))) (<[f := A']> As)
  | ArrRead f n o A : As !! f = Some A -> array_step As (CRead f n o) (Bytes (take (Z.to_nat n) (drop (Z.to_nat o) A))) As.
Inductive array_run : list (list Z) -> list file_call -> list answer -> list (list Z) -> Prop :=
  | ArrDone As : array_run As [] [] As
  | ArrCons As c l a r As1 As2 : array_step As c a As1 -> array_run As1 l r As2 -> array_run As (c :: l) (a :: r) As2.

(** The offsets and lengths a call may have: those of a [size_t] and an
    [uint64_t] whose sum does not wrap. *)
Definition call_ok (c : file_call) : Prop :=
  match c with
  | CWrite _ _ _ d o => 0 <= o /\ o + Z.of_nat (length d) + bpc < 18446744073709551616
  | CRead _ n o => 0 <= o /\ 0 <= n
  end.

(** The bytes of a file in clusters [cs]. *)
Definition contents (v : vol) (i : inode) (cs : list Z) : list Z := fbytes fs v cs 0 (Z.to_nat (size i)).

(** One open file of the volume, with the clusters it and its directory have. *)
Record file_in (v : vol) (dss : list (list Z)) (i : inode) (cs A : list Z) : Prop := FileIn {
  fi_ok : file_ok v i cs;
  fi_dir : exists ds, ds ∈ dss /\ parent_ok v i ds;
  fi_bytes : A = contents v i cs }.

(** The files of the volume are arrays: every cluster belongs to one file or
    directory. *)
Definition files_are (v : vol) (inos : list inode) (As : list (list Z)) : Prop :=
  exists css dss, vol_ok v (mjoin css ++ mjoin dss) /\ length inos = length css /\ length As = length css /\
    forall f i cs A, inos !! f = Some i -> css !! f = Some cs -> As !! f = Some A -> file_in v dss i cs A.

(** ** The refinement *)

Lemma join_pick (css : list (list Z)) f cs : css !! f = Some cs -> mjoin css ≡ₚ cs ++ mjoin (delete f css).
Proof. intros H. apply (delete_Permutation _ _ _) in H. by rewrite H at 1. Qed.
Lemma join_insert (css : list (list Z)) f cs cs' : css !! f = Some cs -> mjoin (<[f := cs']> css) ≡ₚ cs' ++ mjoin (delete f css).
Proof.
  intros H. pose proof (lookup_lt_Some _ _ _ H). rewrite (join_pick _ f cs') by (by apply list_lookup_insert_eq). do 2 f_equiv.
  rewrite !delete_take_drop, take_insert_ge, drop_insert_lt by lia. done.
Qed.

Lemma length_fbytes v cs o n : length (fbytes fs v cs o n) = n.
Proof. unfold fbytes. by rewrite length_fmap, length_seq. Qed.
Lemma fbytes_ext v v' cs cs' o n : (forall k, o <= k < o + Z.of_nat n -> fbyte v' cs' k = fbyte v cs k) -> fbytes fs v' cs' o n = fbytes fs v cs o n.
Proof. intros H. unfold fbytes. apply list_fmap_ext. intros j k Hk%lookup_seq. apply H. lia. Qed.
Lemma fbytes_list v cs o l : (forall k, o <= k < o + Z.of_nat (length l) -> fbyte v cs k = nth (Z.to_nat (k - o)) l 0) -> fbytes fs v cs o (length l) = l.
Proof.
  intros H. apply list_eq_same_length with (length l); [done|by apply length_fbytes|]. intros j x y Hj. unfold fbytes. rewrite list_lookup_fmap, lookup_seq_lt by done.
  cbn [fmap option_fmap option_map]. intros [= <-] Hy. rewrite H by lia. replace (Z.to_nat _) with j by lia. by apply nth_lookup_Some.
Qed.
Lemma take_fbytes v cs o n m : take m (fbytes fs v cs o n) = fbytes fs v cs o (m `min` n).
Proof. unfold fbytes. by rewrite <- fmap_take, take_seq. Qed.
Lemma drop_fbytes v cs o n m : drop m (fbytes fs v cs o n) = fbytes fs v cs (o + Z.of_nat m) (n - m).
Proof.
  destruct (Nat.le_ge_cases n m) as [H|H].
  - replace (n - m)%nat with 0%nat by lia. apply drop_ge. by rewrite length_fbytes.
  - replace n with (m + (n - m))%nat at 1 by lia. rewrite fbytes_app, drop_app_length'; [done|by rewrite length_fbytes].
Qed.

Lemma wrote_stored v v' i i' cs new ds rest off data : file_ok v i cs -> 0 <= off -> wrote v v' i i' cs new ds rest off data (Z.of_nat (length data)) ->
  stored (contents v i cs) off data (contents v' i' (cs ++ new)).
Proof.
  intros Hf Ho [_ _ _ _ _ [(_ & E & _ & Hd & Hk)|[E _]]]; [|lia]. pose proof (fo_size _ _ _ _ Hf) as Hs. fold (room cs) in Hs. unfold contents.
  set (n := length data) in *. set (s := Z.to_nat (size i)). set (o := Z.to_nat off).
  exists (fbytes fs v' (cs ++ new) (Z.of_nat s) (o - s)). rewrite !length_fbytes. split; [done|]. rewrite take_fbytes, drop_fbytes.
  replace (Z.to_nat (size i')) with ((o `min` s) + ((o - s) + (n + (s - (o + n)))))%nat by lia. rewrite !fbytes_app. apply (f_equal2 app); [|apply (f_equal2 app); [|apply (f_equal2 app)]].
  - apply fbytes_ext. intros k Hk'. apply Hk; lia.
  - destruct (decide (o <= s)%nat); [by replace (o - s)%nat with 0%nat by lia|]. f_equal. lia.
  - replace (0 + _ + _) with off by lia. by apply fbytes_list.
  - fold n o. destruct (decide (s <= o + n)%nat); [by replace (s - (o + n))%nat with 0%nat by lia|].
    replace (0 + Z.of_nat (o `min` s) + Z.of_nat (o - s) + Z.of_nat n) with (0 + Z.of_nat (o + n)) by lia. apply fbytes_ext. intros k Hk'. apply Hk; lia.
Qed.

Lemma same_bytes v v' cs k : (forall c, c ∈ cs -> clu_same v v' c) -> 0 <= k < room cs -> fbyte v' cs k = fbyte v cs k.
Proof.
  intros H Hk. destruct (place_in fs G cs k Hk) as (c & Hc & Hp & Hl). unfold ExfatFile.fbyte. rewrite Hp. apply list_elem_of_lookup_2 in Hc.
  apply (H c Hc). apply Z.mod_pos_bound. pose proof (bpc_pos fs G). lia.
Qed.
Lemma same_contents v v' i cs : (forall c, c ∈ cs -> clu_same v v' c) -> file_ok v i cs -> contents v' i cs = contents v i cs.
Proof. intros H Hf. apply fbytes_ext. intros k Hk. apply same_bytes; [done|]. pose proof (fo_size _ _ _ _ Hf). unfold ExfatFile.room. lia. Qed.

Lemma other_in {A} (l : list A) f g x : l !! g = Some x -> g <> f -> x ∈ delete f l.
Proof.
  intros H Hn. destruct (decide (g < f)%nat).
  - apply list_elem_of_lookup_2 with g. by rewrite list_lookup_delete_lt.
  - apply list_elem_of_lookup_2 with (g - 1)%nat. rewrite list_lookup_delete_ge by lia. by replace (S (g - 1)) with g by lia.
Qed.

(** A call of one file leaves the others what they are. *)
Lemma file_other v v' dss i cs A ds rest : (forall c, c ∈ rest -> clu_same v v' c) -> (forall c, c ∈ ds ++ rest -> fat v' c = fat v c) ->
  (forall c, c ∈ cs -> c ∈ rest) -> (forall c, c ∈ mjoin dss -> c ∈ ds ++ rest) -> file_in v dss i cs A -> file_in v' dss i cs A.
Proof.
  intros Hc Hl Hin Hd [H1 (e & H2 & H3) ->]. split.
  - eapply file_same; [|exact H1]. intros c Hcs. apply Hl, elem_of_app. right. by apply Hin.
  - exists e. split; [done|]. eapply parent_links; [|exact H3]. intros c Hce. apply Hl, Hd, list_elem_of_join. by exists e.
  - symmetry. apply same_contents; [|done]. intros c Hcs. by apply Hc, Hin.
Qed.

Lemma wrote_files v v' inos As css dss f i i' cs new ds rest off data r d A' : wrote v v' i i' cs new ds rest off data r ->
  length inos = length css -> length As = length css ->
  (forall g i cs A, inos !! g = Some i -> css !! g = Some cs -> As !! g = Some A -> file_in v dss i cs A) ->
  css !! f = Some cs -> dss !! d = Some ds -> rest = mjoin (delete f css) ++ mjoin (delete d dss) -> A' = contents v' i' (cs ++ new) ->
  files_are v' (<[f := i']> inos) (<[f := A']> As).
Proof.
  intros W L1 L2 Hin Hc Hd -> ->. pose proof W as [V F P Oc Ol _]. exists (<[f := cs ++ new]> css), dss. rewrite !length_insert. split_and!; try done.
  - eapply vol_perm; [|exact V]. rewrite (join_insert css f cs) by done. rewrite (join_pick dss d ds) by done. solve_Permutation.
  - pose proof (lookup_lt_Some _ _ _ Hc). intros g ig cg Ag. destruct (decide (g = f)) as [->|Hn].
    + rewrite !list_lookup_insert_eq by lia. intros [= <-] [= <-] [= <-]. split; [done| |done]. exists ds. split; [by eapply list_elem_of_lookup_2|done].
    + rewrite !list_lookup_insert_ne by done. intros H1 H2 H3. eapply file_other; [exact Oc|exact Ol| | |by eapply Hin].
      * intros c Hcg. apply elem_of_app. left. apply list_elem_of_join. exists cg. split; [done|]. by eapply other_in.
      * intros c Hcd. rewrite (join_pick dss d ds Hd) in Hcd. rewrite !elem_of_app in *. tauto.
Qed.

Lemma file_step_ok v inos As c : files_are v inos As -> call_ok c ->
  exists v' inos' a As', file_step v inos c = Some (v', inos', a) /\ array_step As c a As' /\ files_are v' inos' As'.
Proof.
  intros (css & dss & V & L1 & L2 & Hin) Hc.
  destruct (As !! call_file c) as [A|] eqn:EA.
  2:{ exists v, inos, NoFile, As. split; [|split; [by constructor|by exists css, dss]]. apply lookup_ge_None in EA. assert (inos !! call_file c = None) as Ei by (apply lookup_ge_None; lia).
      destruct c; cbn [call_file] in Ei; cbn [file_step]; by rewrite Ei. }
  pose proof (lookup_lt_Some _ _ _ EA). destruct (lookup_lt_is_Some_2 inos (call_file c)) as [i Ei]; [lia|]. destruct (lookup_lt_is_Some_2 css (call_file c)) as [cs Ec]; [lia|].
  destruct (Hin _ _ _ _ Ei Ec EA) as [F (ds & Hds & P) EAc]. destruct c as [f user kb data off|f n off]; cbn [call_file call_ok file_step] in *; rewrite Ei.
  - destruct (decide (data = [])) as [->|Hd].
    + exists v, inos, (Count 0), As. split; [cbn; by rewrite list_insert_id|]. split; [by eapply ArrEmpty|by exists css, dss].
    + apply list_elem_of_lookup in Hds as [d Hds]. set (rest := mjoin (delete f css) ++ mjoin (delete d dss)).
      assert (vol_ok v (cs ++ ds ++ rest)) as V1.
      { eapply vol_perm; [|exact V]. rewrite (join_pick css f cs), (join_pick dss d ds) by done. unfold rest. solve_Permutation. }
      destruct (file_write_ok user kb v i cs ds rest data off V1 F P Hd ltac:(lia) ltac:(lia)) as (v' & i' & r & new & -> & W). pose proof (wr_result _ _ _ _ _ _ _ _ _ _ _ W) as R.
      assert (r = Z.of_nat (length data) \/ (r = -1 /\ A = contents v' i' (cs ++ new))) as [->|[-> EA']].
      { destruct R as [(-> & _)|(-> & E & Hk)]; [by left|right]. split; [done|]. rewrite EAc. unfold contents. rewrite E. symmetry. apply fbytes_ext. intros k Hk'. apply Hk.
        pose proof (fo_size _ _ _ _ F). unfold ExfatFile.room. lia. }
      * exists v', (<[f := i']> inos), (Count (Z.of_nat (length data))), (<[f := contents v' i' (cs ++ new)]> As). split; [done|]. split; [|by eapply wrote_files].
        eapply ArrWrite; [done|done|]. rewrite EAc. eapply wrote_stored; [done|lia|done].
      * exists v', (<[f := i']> inos), (Count (-1)), As. split; [done|]. split; [by eapply ArrFull|]. rewrite <- (list_insert_id As f A) by done. by eapply wrote_files.
  - destruct (file_read_ok v i cs n off F ltac:(lia) ltac:(lia)) as (i' & out & -> & F' & S & Eo). exists v, (<[f := i']> inos), (Bytes out), As. split; [done|].
    assert (size i' = size i) as Es by (by destruct S). split.
    + replace out with (take (Z.to_nat n) (drop (Z.to_nat off) A)); [by constructor|]. rewrite EAc, Eo. unfold contents. rewrite drop_fbytes, take_fbytes.
      destruct (Z.le_gt_cases (size i) off); [by replace (Z.to_nat (Z.min _ _)) with 0%nat by lia; replace (Z.to_nat n `min` _)%nat with 0%nat by lia|]. f_equal; lia.
    + exists css, dss. rewrite length_insert. split_and!; try done. intros g ig cg Ag. destruct (decide (g = f)) as [->|Hn].
      * rewrite list_lookup_insert_eq by lia. rewrite Ec, EA. intros [= <-] [= <-] [= <-]. split; [done| |by unfold contents; rewrite Es]. exists ds. split; [done|]. by eapply parent_same.
      * rewrite list_lookup_insert_ne by done. apply Hin.
Qed.

End Volume.

(** ** On the volume just formatted *)

#[local] Existing Instance good_cache.
Lemma fsv_ok : geo_ok fsv.
Proof. assert (fsv = Fs 512 8 4096 128 2 136 239 4 2 30) as -> by (vm_compute; reflexivity). split; cbn; (done || lia || by exists 16). Qed.
Lemma root_dir : dir_ok fsv v2 4 false 0 [4].
Proof.
  assert (in_range fsv 4) as H by (vm_compute; split; (done || by intros [=])).
  split; [apply NoDup_singleton|]. split; [by apply Forall_singleton|]. split; [|done]. split; [done|]. vm_compute. by intros [=].
Qed.
Definition empty_at (k : Z) : inode := Ino 0 false (Owner 0 0 420) 0 false 4 false 0 k 3 true (Walk 0 0 0 0 0 0).
Lemma files_two : files_are fsv v2 files [[]; []].
Proof.
  exists [[]; []], [[4]]. split_and!; try done.
  - assert (bm_clusters fsv = [2]) as E by (vm_compute; reflexivity). split.
    + rewrite E. change (NoDup [2; 4]). apply (bool_decide_unpack (NoDup [2; 4])). by vm_compute.
    + constructor; [|constructor]. vm_compute. split; (done || by intros [=]).
    + rewrite E. change (forall c, c ∈ [2; 4] -> used fsv v2 c = true). apply Forall_forall. constructor; [|constructor; [|constructor]]; vm_compute; reflexivity.
    + unfold kept. vm_compute. reflexivity.
  - assert (files = [empty_at 3; empty_at 7]) as -> by (vm_compute; reflexivity).
    assert (forall k, 0 <= k < 100 -> file_in fsv v2 [[4]] (empty_at k) [] []) as H.
    { intros k Hk. split; [by split; cbn|exists [4]; split; [by left|]|reflexivity]. split; [cbn; lia|]. split; [cbn; lia|]. split; [cbn; lia|]. right. apply root_dir. }
    intros [|[|f]] i cs A; [| |discriminate]; intros [= <-] [= <-] [= <-]; apply H; lia.
Qed.

End ExfatFiles.
