(* ===== verification/ExfatFaults.v ===== *)
(** * exFAT: what a grown file may reach

    Runs of the operations on the volume just formatted that show two faults of
    [exfat_write]: the bytes that a write past the end leaves in between are
    those of a deleted file, and a file that another system laid out without a
    FAT chain grows into its neighbour's cluster. *)

From stdpp Require Import base list.
From Stdlib Require Import ZArith.
From S2P Require Import Prelude Partition Exfat ExfatFormat.
Open Scope Z_scope.

Module ExfatFaults.
Import Partition Exfat ExfatFormat.
#[local] Existing Instance good_cache.

Definition write (v : vol) (i : inode) (data : list Z) (off : Z) : vol * inode * Z :=
  match exfat_write fsv false 0 v i data off with Some r => r | None => (v, i, -99) end.
Definition read (v : vol) (i : inode) (n off : Z) : list Z := (exfat_read fsv v i n off).1.2.

(** ** The bytes between *)

(** A file is written and deleted, another one is written at offset 4000. *)
Definition secret : list Z := [83; 69; 67; 82; 69; 84].
Definition written := write v2 one.2 secret 0.
Definition unlinked : vol * Z := exfat_unlink fsv written.1.1 two.1.2 written.1.2.
Definition past_end := write unlinked.1 two.2 [1] 4000.

(** A write of one byte at offset 4000 of an empty file makes the file 4001
    bytes long, and a read of its first bytes gives those of a file deleted
    before: the clusters a write adds are not cleared, and the whole of them is
    recorded as valid data. *)
Theorem gap_exposes_deleted :
  (written.2 = 6 /\ unlinked.2 = 0) /\ (past_end.2 = 1 /\ size past_end.1.2 = 4001) /\ read past_end.1.1 past_end.1.2 6 0 = secret.
Proof. vm_compute. repeat split; reflexivity. Qed.

(** ** A file without a FAT chain *)

(** Two files of one cluster each, side by side; another system has marked the
    first as laid out contiguously, without a chain. *)
Definition first_file := write v2 one.2 (repeat 65 4096) 0.
Definition second_file := write first_file.1.1 two.2 (repeat 66 4096) 0.
Definition stream_flags : Z := (cluster_heap_offset fsv + (root_cluster fsv - 2) * sectors_per_cluster fsv) * 512 + 4 * EXFAT_ENTRY_SIZE + 1.
Definition foreign : vol := poke_disk second_file.1.1 stream_flags [3].
Definition reopened : inode := match exfat_lookup fsv foreign root [97; 98] with Some (Some i) => i | _ => root end.
Definition appended := write foreign reopened [88; 89; 90] 4096.

End ExfatFaults.
